(* ===== verification/_CoqProject ===== *)
-Q . S2P
Prelude.v
Bytes.v
Decimal.v
Text.v
Float.v
Msg.v
Framer.v
Decode.v
Command.v
Receiver.v
RunDecoder.v
GrawWriter.v
Utf8.v
Checks.v
ProPar.v
State.v
IceCodec.v
IceProto.v
IceClient.v
Controller.v
Sequencer.v
Logbook.v
EccCore.v
EccRun.v
EccBridge.v
Programs.v
Handlers.v
Lifecycle.v
Slowctl.v
HiVolta.v
Hmp.v
Bronkhorst.v
Arduino.v
SlowRecords.v
SlowPower.v
Config.v
Deploy.v
Influx.v
Params.v
Xcfg.v
Render.v
RenderValues.v
Extract.v
ParamsApi.v
LogPosts.v
Geometry.v
Display.v
DisplayGrid.v
Hub.v
RunsYaml.v
FloatFacts.v
Calib.v
Pulser.v
PulserScan.v
StripXy.v
