(* ===== verification/Prelude.v ===== *)
(** * A model of tpcdaq-rs, and what is proved of it

    tpcdaq-rs is the data acquisition of a time projection chamber.  Up to a few
    CoBo boards send frames over TCP to one [receiver] each; the receivers push
    batches of raw frames to the [graw-writer], which keeps them in files, and to
    the [decoder], which turns them into fragments for the analysis.  The three
    are commanded by the [controller], which serves a REST interface, drives the
    ECC (the slow control of the electronics, an Ice server) through the
    [ecc-bridge], numbers the runs and writes the logbook.  The slow control reads
    and switches the supplies and posts its readings to the controller; the
    [monitor] shows the events to browsers, placed by the file of the geometry; a
    tool makes the list of runs of the logbook and another calibrates the channels
    from runs of pedestals and of pulses.  This library models the Rust code
    of these programs, file by file, and proves what makes it correct.  Names are the
    source's where Rocq allows it; where two files share one it is qualified.

    ** The files, and the code they model

    What everything shares: [Prelude] (outcomes of Rust code, machine integers,
    record update, list indexing), [Bytes] (octets and fixed-width integers),
    [Decimal] (printed numbers), [Utf8] ([String::from_utf8] and its lossy form),
    [Text] (the standard library's string operations), [Checks] (validations and
    what they decide), [Float] (the type [f64] and [str::parse] to it),
    [FloatFacts] (sums of whole numbers are exact, the total order of floats, sorting).

    The data path.
    - [Msg]: [src/msg.rs], the messages between the components, the item word.
    - [Framer]: [src/framer.rs], TCP bytes to frames.
    - [Decode]: [src/decode.rs], one frame to one fragment, in both item formats.
    - [Command]: [src/command.rs], the component state machine, its REP task and
      REQ client; the class [Handler] is what each component instantiates.
    - [Receiver]: [src/receiver.rs], the drain task and the sender thread as two
      processes over a bounded queue, and the command handler.
    - [RunDecoder]: [src/decoder.rs], the core, the thread, the handler.
    - [GrawWriter]: [src/graw_writer.rs], the core with its files and their
      failures, the thread, the handler.

    The control path.
    - [State]: [src/state.rs], the next run number on disk.
    - [Logbook]: [src/logbook.rs], the append-only logbook and its recovery.
    - [Controller]: parameters, snapshots, counters and the [Transport] interface
      of [src/controller/mod.rs], [status.rs] and [transport.rs].
    - [Sequencer]: [src/controller/sequencer.rs], starting and stopping a run.
    - [Programs]: programs made of atomic sections, their interleavings, one thread
      beside the others, and two program logics for them, of invariants and of what
      one thread relies on and the others keep (no code of its own).
    - [Handlers]: [src/controller/rest.rs], [power.rs] and the locks of [mod.rs],
      the REST handlers as such programs.
    - [Lifecycle]: the abstract machine the handlers refine, and the theorems.
    - [LogPosts]: [src/controller/logpost.rs], the thread that takes posted records,
      and the latest readings of [mod.rs].
    - [RunsYaml]: [src/runs_yaml.rs] and the arguments of [src/bin/logbook2runs.rs],
      the list of runs made of the logbook, with a reader of its text.
    - [IceCodec], [IceProto], [IceClient]: [src/ice/], the Ice protocol as far as
      the bridge speaks it.
    - [EccCore], [EccBridge]: [src/ecc/core.rs], [src/ecc/proxy.rs] and the
      handler of [src/bin/ecc_bridge.rs].
    - [EccRun]: the sequencer against the transition table of the ECC.

    The slow control.
    - [ProPar]: [src/slowctl/propar.rs], the codec of the gas flow controllers.
    - [Slowctl]: [src/slowctl/mod.rs] and the interfaces of [component.rs], the
      drivers over a byte port; the class [Driver] is what a device instantiates.
    - [HiVolta]: [src/slowctl/hivolta.rs] and [hivolta_driver.rs], the
      high-voltage supply; an instance of [Driver].
    - [Hmp]: [src/slowctl/hmp.rs] and [hmp_driver.rs], the low-voltage supply;
      an instance of [Driver].
    - [Bronkhorst]: [src/slowctl/link.rs] and [bronkhorst.rs], the gas flow
      controllers on their bus; its codec may panic.
    - [Arduino]: [src/slowctl/arduino.rs], the environment board.
    - [SlowRecords]: the aggregator and the main loop of [component.rs]: what is
      logged, alarmed, posted and retried.
    - [SlowPower]: the device threads and the power-command thread of
      [component.rs], as programs over queues ([Programs]); proved against the
      interface [Driver], not against one device.
    - [Influx]: [src/slowctl/influx.rs], the line protocol and the writer thread,
      with a reader of the protocol for the database's side.

    The parameters of the electronics.
    - [Params]: [src/params/paths.rs] and [schema.rs], the table of the knobs, the
      validation of a parameter file, the value a channel gets.
    - [Xcfg]: the tree of raw slices of [src/params/render.rs], its operations and
      the algebra of paths into it.
    - [Render]: the rest of [render.rs], the parameters written into a template;
      [RenderValues]: what the result says, path by path.
    - [Extract]: [src/params/extract.rs], the parameters read out of a template.
    - [ParamsApi]: [src/controller/params_api.rs], the endpoints and the files they
      keep, over a disk whose operations may fail half way.

    The geometry and the monitor.
    - [Geometry]: [src/geometry.rs], the file of the strips, the table of channels,
      the lookups, the inventory of boards.
    - [Display]: [src/monitor/display.rs], [ws.rs] and parts of [wire.rs] and
      [http.rs], from an event to the binary messages; [DisplayGrid]: what is shown
      is what was measured.
    - [Hub]: [src/monitor/hub.rs], [sub.rs], [json.rs], [wire.rs] and the clients of
      [http.rs], as programs that interleave ([Programs]).

    - [StripXy]: [src/strip_xy.rs], the strips as segments in millimetres; cosine
      and sine are arguments.

    The calibration.
    - [Calib]: [src/calib/mod.rs] and [pedestal.rs], the scan of files of frames and
      the pedestals.
    - [Pulser]: [src/calib/pulser.rs] and [table.rs], the heights of pulses, medians,
      the join of both tables with its flags.
    - [PulserScan]: [src/calib/scan.rs], runs of rising pulse heights, the line fit,
      the tables as text.

    The start.
    - [Config]: [src/config.rs], the defaults and the validation of the
      configuration file.
    - [Deploy]: the [from_config] of every component and [open_driver]: what the
      components are started with; the theorem joins [Config] to the others.

    ** How the code is modelled

    Code that may index or slice out of bounds returns a [rust] value, whose
    [Panic] the theorems exclude (or exhibit); a [Result] is a [result].  Mutable
    objects are records passed along; what the outside does - sockets, files,
    clocks, the other end of a connection - is an argument: a script of answers,
    an instance of an interface ([Transport], [StateJson], [LineJson]), or a
    record of what one section finds ([Outside]).  A process that may die in a
    system call may die there in the model.  Tasks and threads interleave: the
    receiver's two processes at every step, the controller's handlers and the
    monitor's clients at every section between two locks, the posts to the logbook
    between the lines of the handlers.  Integers on the wire have their width, with
    wrapping written out; counters and sequence numbers kept in memory are
    unbounded, and so are the frames summed for the list of runs.  Loops whose end is not structural have fuel: the framer's from the
    bytes it holds, the sequencer's from its time limits and its bounds on steps
    and attempts, the readers' from the text; that the fuel suffices is part of
    the theorems ([OutOfFuel] is never the answer), not an assumption.  Threads
    that loop until they are told to stop are followed up to a horizon that the
    theorems leave open; their inner waits carry fuel proved sufficient.
    Floating-point values are [SpecFloat]'s binary64, never real numbers.  The order
    in which a hash set is walked is an argument, and the theorems hold of every one.

    ** What is proved

    No data is lost or invented without being counted: [receiver_stream] and
    [receiver_lossless] from the socket to the links in every interleaving,
    [framer_chunking] for the framing, [decode_encode] for the decoding,
    [decoder_thread_lossless] for the decoder, [graw_no_silent_loss] for the files;
    the counters say what happened (the lemmas [receiver_counters],
    [decoder_counters] and [decode_accounting]; [decoder_barrier_once],
    [feed_safe], [compact_readout_order] and [graw_error_latched] are lemmas as well).

    The components stay in their state machine (the lemmas [command_task_survives],
    [legal_histories], [receiver_handler_safe], [decoder_handler_safe] and
    [graw_handler_safe]).

    High voltage is switched only when and as asked, reported as it is, and
    watched: [hv_session_safe], [hv_power_honest] and the lemma [hv_alarms_kept]; so is low
    voltage, whose lines go to the channel last selected (the lemmas
    [hmp_session_safe] and [hmp_power_honest]).  A request to
    switch any device reaches its thread once and is answered by that thread or by
    the time limit ([power_commands_kept]), and no other bytes switch anything
    (the lemma [only_commands_switch]).  Readings become records as the policy of their key
    says and no other key matters (the lemma [slow_keys_independent]), the logbook is never
    further behind the last reading than the policy allows and told exactly what the
    history of readings makes due ([slow_log_keeps_up]),
    and of what is written nothing is delivered twice or out of order, whatever is
    lost on the way is counted ([once_only_records]).  What the other devices are
    read to say is what they said, each in its place: [bk_poll_honest] and the
    lemmas [arduino_poll_last_line] and [bk_scan_identifies].  Of the samples for
    the database none is lost uncounted, in any interleaving (the lemma
    [influx_accounts]), and a batch reads back as it was ([line_protocol_reads_back]).
    What a run is stamped with is near to the latest samples ([posted_readings_shown],
    which joins [SlowRecords] to [LogPosts]; the lemma [log_posts_account] counts the
    posts and the lines).

    The electronics get the parameters that were given: the lemma
    [params_accepted] says which files are accepted; [render_values] what a rendered template says at
    every place of every knob, [render_effective] that this is the effective value
    shown to the operator when the exceptions are listed from the coarse to the
    fine (otherwise it need not be: [fine_before_coarse]), [render_untouched] that
    nothing else changes, the lemma [render_decides] when it fails;
    [render_extract] and the lemma [extract_accounts] that what is read out of a
    template is what is in it.  [put_params_safe] follows a request to replace the parameters
    through a disk that may fail anywhere, and the lemma [put_then_get] says that
    what was saved is what is shown and what a run starts with.

    A channel is where the geometry's file says: [geometry_lookup] for every lookup,
    [geometry_accounts] for every line, [geometry_reads_back] for a file as the book
    has it.  What the monitor shows is what came: [display_grid] (with the lemmas
    [wave_block], [last_block] and [histos_account]) for the cells of an event,
    [clients_know_the_run] for every browser in every interleaving,
    [subscriber_accounts] for what is counted as lost.  Every row of the file is a
    segment in millimetres or noted (the lemma [strips_account], which also shows the
    row for which the computation never ends).

    The calibration rests on the samples: [calibration_of_runs] for the joined table,
    with the lemmas [pedestal_rows], [median_middle] and [same_height].

    The components are started right: [config_accepted] says which files are
    accepted and that a refusal is justified, [accepted_config_deploys] that an
    accepted one gives every component what the theorems above ask for.

    Runs start and stop as they should: [start_rolls_back], [stop_sequence],
    [no_half_run] and the lemma [start_sequence] for the sequencer; the lemmas
    [start_never_blames_ecc] and [ecc_walk_arrives] with the ECC's own table;
    [lifecycle_refines],
    [claims_given_back], [runs_on_record], [power_rule_kept] and the lemmas
    [unauthorized_changes_nothing] and [handlers_answer] for the controller as a
    whole, under any interleaving of requests; [run_numbers_never_repeat],
    [logbook_appends] and the lemma [logbook_after_crash] for what is on disk;
    [runs_yaml_reads_back] for the list of runs made of it.

    What is said over a wire is what is understood: [ice_roundtrip],
    [bridge_handles] (with the lemmas [propar_roundtrip], [propar_reply_safe],
    [ice_call], [ice_call_sound], [link_set_roundtrip], [accepted_requests],
    [pack_item_spec] and [parse_serialize]).

    Hypotheses about code outside the repository are named: [StateJsonLaws] and
    [LineJsonLaws] for serde_json - a line is read back as [reread_line] says: floats
    near what was written (an argument), an absent value for a [null] one, objects
    by key -, [ComponentLaws] and [EccLaws] for what is at the
    other end of a transport, [SwitchLaws] for which lines of a device's protocol
    switch it; quick_xml's escaping and slices are hypotheses of the theorems on
    parameters.  Each has an instance in the file that uses it.

    ** Not modelled

    Log output, sockets' own state machines, process set-up and the other command
    lines, MessagePack, TOML, XML and JSON syntax (libraries'), the read-only REST
    handlers, the opening of serial ports and connections; of the monitor the start,
    the task that writes to a client's socket, the message of the track and the
    stream of samples for the browser's tests; the reconstruction of tracks (line fits
    in floating point); and everything that is not Rust.  The drivers of the gas flow controllers and of the
    environment board may panic or read forever, and the thread that runs them with
    them; they are not instances of [Driver], whose laws [SlowPower] relies on. *)

From stdpp Require Export base numbers list list_numbers option.
From Stdlib Require Export ZArith Lia Bool.

Open Scope Z_scope.

(** ** Outcomes of Rust code *)

(** A Rust function that indexes or slices a buffer either returns a value or
    panics.  [rust A] makes the panic a value, so that "never panics" is a
    theorem about the model and not a side effect of a total translation.
    [OutOfFuel] is the answer of a modelled loop whose fuel ran out: the
    theorems about each looping function exclude it. *)
Inductive rust (A : Type) : Type :=
| Val (a : A)
| Panic
| OutOfFuel.
Arguments Val {A} a.
Arguments Panic {A}.
Arguments OutOfFuel {A}.

Definition rust_bind {A B : Type} (m : rust A) (k : A -> rust B) : rust B :=
  match m with
  | Val a => k a
  | Panic => Panic
  | OutOfFuel => OutOfFuel
  end.

(** [std::result::Result]. *)
Inductive result (A E : Type) : Type :=
| Ok (a : A)
| Err (e : E).
Arguments Ok {A E} a.
Arguments Err {A E} e.

Definition result_bind {A B E : Type} (m : result A E) (k : A -> result B E) : result B E :=
  match m with
  | Ok a => k a
  | Err e => Err e
  end.

Definition ok_or {A E : Type} (o : option A) (e : E) : result A E :=
  match o with
  | Some a => Ok a
  | None => Err e
  end.

Declare Scope rust_scope.
Delimit Scope rust_scope with rust.

(** [let! x := m in k] runs code that may panic; [let? x := m in k] is the
    [?] operator on a [Result]. *)
Notation "'let!' x := m 'in' k" := (rust_bind m (fun x => k))
  (at level 10, x pattern, m at level 100, k at level 200) : rust_scope.
Notation "'let?' x := m 'in' k" := (result_bind m (fun x => k))
  (at level 10, x pattern, m at level 100, k at level 200) : rust_scope.
Open Scope rust_scope.

Definition is_val {A : Type} (m : rust A) : bool :=
  match m with Val _ => true | _ => false end.

#[export] Instance rust_eq_dec {A} `{EqDecision A} : EqDecision (rust A).
Proof. solve_decision. Defined.

#[export] Instance result_eq_dec {A E} `{EqDecision A} `{EqDecision E} : EqDecision (result A E).
Proof. solve_decision. Defined.

(** ** Machine integers *)

(** An unsigned [w]-bit integer is a [Z] in [0, 2^w); [wrap w] is what the
    wrapping (release profile) arithmetic of that width keeps of a value. *)
Definition wrap (w z : Z) : Z := z mod 2 ^ w.
Definition in_width (w z : Z) : Prop := 0 <= z < 2 ^ w.

#[export] Instance in_width_dec w z : Decision (in_width w z).
Proof. unfold in_width. apply _. Defined.

Lemma wrap_in_width w z : 0 <= w -> in_width w (wrap w z).
Proof. intros Hw. apply Z.mod_pos_bound. apply Z.pow_pos_nonneg; lia. Qed.

Lemma wrap_small w z : in_width w z -> wrap w z = z.
Proof. apply Z.mod_small. Qed.

(** ** Record update *)

(** [r <| field := v |>] and [r <| field ::= f |>]: what [self.field = v] and
    [self.field = f(self.field)] do to a struct.  A record declares its eta
    expansion; the update of a field abstracts that field's projection out. *)
Class Eta (R : Type) := eta : R -> R.
Class Update {R T : Type} (field : R -> T) := update : (T -> T) -> R -> R.
Arguments update {R T} field {_} f r.

Ltac build_update :=
  match goal with
  | |- @Update ?R ?T ?field =>
      let inst := constr:(_ : Eta R) in
      let body := eval hnf in inst in
      match eval pattern field in body with
      | ?rebuild _ => exact (fun (f : T -> T) => rebuild (fun r : R => f (field r)))
      end
  end.
#[export] Hint Extern 1 (Update _) => build_update : typeclass_instances.

#[warnings="-postfix-notation-not-level-1"]
Notation "r <| field ::= f |>" := (update field f r)
  (at level 12, left associativity, field at next level) : rust_scope.
#[warnings="-postfix-notation-not-level-1"]
Notation "r <| field := v |>" := (update field (fun _ => v) r)
  (at level 12, left associativity, field at next level) : rust_scope.

(** [n += 1] on a counter.  Counters are unbounded in the model: a [u64] that
    counts frames does not wrap in the lifetime of a run. *)
Notation incr := Z.succ (only parsing).

(** ** Lists indexed by machine integers *)

Definition len {A : Type} (l : list A) : Z := Z.of_nat (length l).

(** [l[i]], [&l[a..b]] and [&l[a..]]: out of range panics. *)
Definition index {A : Type} (l : list A) (i : Z) : rust A :=
  if (0 <=? i) then
    match l !! Z.to_nat i with
    | Some x => Val x
    | None => Panic
    end
  else Panic.

Definition sub {A : Type} (l : list A) (a b : Z) : list A :=
  take (Z.to_nat (b - a)) (drop (Z.to_nat a) l).

Definition slice {A : Type} (l : list A) (a b : Z) : rust (list A) :=
  if (0 <=? a) && (a <=? b) && (b <=? len l) then Val (sub l a b) else Panic.

(** [a - b] on [usize]: an underflow is a panic (checked arithmetic). *)
Definition usub (a b : Z) : rust Z := if a <? b then Panic else Val (a - b).

(** [l.get(a..b)]: out of range is [None]. *)
Definition get_range {A : Type} (l : list A) (a b : Z) : option (list A) :=
  if (0 <=? a) && (a <=? b) && (b <=? len l) then Some (sub l a b) else None.

(** [l.get(i)]. *)
Definition get {A : Type} (l : list A) (i : Z) : option A :=
  if (0 <=? i) then l !! Z.to_nat i else None.

(** [l.chunks_exact(n)]: the full chunks, the remainder is dropped. *)
Fixpoint chunks_exact_fuel {A : Type} (fuel n : nat) (l : list A) : list (list A) :=
  match fuel with
  | O => []
  | S fuel =>
      if (length l <? n)%nat then []
      else take n l :: chunks_exact_fuel fuel n (drop n l)
  end.

Definition chunks_exact {A : Type} (n : nat) (l : list A) : list (list A) :=
  chunks_exact_fuel (length l) n l.

(** ** Lemmas on lists and lengths *)

Lemma len_nil {A : Type} : len (@nil A) = 0.
Proof. reflexivity. Qed.

Lemma len_cons {A : Type} (x : A) l : len (x :: l) = 1 + len l.
Proof. unfold len. cbn [length]. lia. Qed.

Lemma len_app {A : Type} (l k : list A) : len (l ++ k) = len l + len k.
Proof. unfold len. rewrite length_app. lia. Qed.

Lemma len_nonneg {A : Type} (l : list A) : 0 <= len l.
Proof. unfold len. lia. Qed.

Lemma len_take {A : Type} (l : list A) n : len (take n l) = Z.min (Z.of_nat n) (len l).
Proof. unfold len. rewrite length_take. lia. Qed.

Lemma len_drop {A : Type} (l : list A) n : len (drop n l) = Z.max 0 (len l - Z.of_nat n).
Proof. unfold len. rewrite length_drop. lia. Qed.

Lemma len_sub {A : Type} (l : list A) a b :
  0 <= a <= b -> b <= len l -> len (sub l a b) = b - a.
Proof. intros. unfold sub. rewrite len_take, len_drop. lia. Qed.

Create Rewrite HintDb len.
#[export] Hint Rewrite @len_nil @len_cons @len_app @len_take @len_drop : len.

(** Decides every boolean comparison of the goal that arithmetic decides. *)
Ltac bdecide :=
  repeat match goal with
  | |- context [?a <? ?b] =>
      first [replace (a <? b) with true by lia | replace (a <? b) with false by lia]
  | |- context [?a <=? ?b] =>
      first [replace (a <=? b) with true by lia | replace (a <=? b) with false by lia]
  | |- context [?a =? ?b] =>
      first [replace (a =? b) with true by lia | replace (a =? b) with false by lia]
  end.

(** Splits the goal on one boolean comparison, closing the impossible side. *)
Ltac bsplit :=
  match goal with
  | |- context [?a <? ?b] => destruct (Z.ltb_spec a b); try lia
  | |- context [?a <=? ?b] => destruct (Z.leb_spec a b); try lia
  | |- context [?a =? ?b] => destruct (Z.eqb_spec a b); try lia
  end.

(** Normalises lengths, then arithmetic. *)
Ltac solve_len := autorewrite with len in *; lia.

Lemma slice_val {A : Type} (l : list A) a b :
  0 <= a <= b -> b <= len l -> slice l a b = Val (sub l a b).
Proof.
  intros. unfold slice. by bdecide.
Qed.

Lemma usub_val a b : b <= a -> usub a b = Val (a - b).
Proof. intros. unfold usub. by bdecide. Qed.

Lemma sub_drop {A : Type} (l : list A) a n :
  0 <= a -> 0 <= n -> sub l a (a + n) = take (Z.to_nat n) (drop (Z.to_nat a) l).
Proof. intros. unfold sub. by replace (a + n - a) with n by lia. Qed.

(** [take n l] for [n] past a prefix of known length. *)
Lemma take_prefix {A : Type} (l k : list A) n : (n <= length l)%nat -> take n (l ++ k) = take n l.
Proof. intros. by rewrite take_app_le. Qed.

Lemma index_val {A : Type} (l : list A) i x :
  0 <= i -> l !! Z.to_nat i = Some x -> index l i = Val x.
Proof.
  intros ? Hx. unfold index. bdecide. by rewrite Hx.
Qed.

Lemma index_in_range {A : Type} (l : list A) i :
  0 <= i < len l -> exists x, index l i = Val x /\ l !! Z.to_nat i = Some x.
Proof.
  intros Hi. destruct (lookup_lt_is_Some_2 l (Z.to_nat i)) as [x Hx].
  { unfold len in Hi. lia. }
  exists x. split; [| done]. apply index_val; [lia | done].
Qed.

Lemma chunks_exact_fuel_app {A : Type} (n : nat) (ls : list (list A)) fuel rest :
  (0 < n)%nat ->
  Forall (fun c => length c = n) ls ->
  (length rest < n)%nat ->
  (length (concat ls) <= fuel)%nat ->
  chunks_exact_fuel fuel n (concat ls ++ rest) = ls.
Proof.
  intros Hn Hls. revert fuel. induction Hls as [| c ls Hc Hls IH]; intros fuel Hrest Hfuel.
  - destruct fuel as [| fuel]; [done |]. cbn [concat app chunks_exact_fuel].
    destruct (Nat.ltb_spec (length rest) n); [done | lia].
  - cbn [concat] in *. rewrite length_app in Hfuel.
    destruct fuel as [| fuel]; [lia |]. cbn [chunks_exact_fuel].
    rewrite <- app_assoc.
    destruct (Nat.ltb_spec (length (c ++ concat ls ++ rest)) n) as [Hlt | _].
    { rewrite length_app in Hlt. lia. }
    rewrite take_app_length', drop_app_length' by done.
    f_equal. apply IH; [done | lia].
Qed.

(** Cutting a concatenation of [n]-byte words gives back the words. *)
Lemma chunks_exact_concat {A : Type} (n : nat) (ls : list (list A)) :
  (0 < n)%nat -> Forall (fun c => length c = n) ls -> chunks_exact n (concat ls) = ls.
Proof.
  intros Hn Hls. unfold chunks_exact. rewrite <- (app_nil_r (concat ls)).
  apply chunks_exact_fuel_app; [done | done | cbn; lia | rewrite app_nil_r; lia].
Qed.

(** ** Postconditions of code that may panic or run out of fuel *)

(** [runs enough Q m]: [m] does not panic; what it returns satisfies [Q]; and it
    returns if [enough]. *)
Definition runs {A : Type} (enough : Prop) (Q : A -> Prop) (m : rust A) : Prop :=
  match m with
  | Val a => Q a
  | Panic => False
  | OutOfFuel => ~ enough
  end.

Lemma runs_bind {A B : Type} (e : Prop) (P : A -> Prop) (Q : B -> Prop) (m : rust A) (k : A -> rust B) :
  runs e P m -> (forall a, P a -> runs e Q (k a)) -> runs e Q (rust_bind m k).
Proof. destruct m; cbn; auto. Qed.

Lemma runs_mono {A : Type} (e e' : Prop) (P Q : A -> Prop) (m : rust A) :
  runs e' P m -> (e -> e') -> (forall a, P a -> Q a) -> runs e Q m.
Proof. destruct m; cbn; auto. Qed.

Lemma runs_returns {A : Type} (e : Prop) (Q : A -> Prop) (m : rust A) :
  runs e Q m -> e -> exists a, m = Val a /\ Q a.
Proof. destruct m; cbn; [eauto | done | done]. Qed.

Lemma runs_val {A : Type} (e : Prop) (Q : A -> Prop) (m : rust A) a : runs e Q m -> m = Val a -> Q a.
Proof. intros H ->. exact H. Qed.

(** ** Counting *)

Fixpoint countb {A : Type} (p : A -> bool) (l : list A) : Z :=
  match l with
  | [] => 0
  | x :: l => (if p x then 1 else 0) + countb p l
  end.

Lemma countb_app {A : Type} (p : A -> bool) l k : countb p (l ++ k) = countb p l + countb p k.
Proof. induction l as [| x l IH]; cbn; lia. Qed.

Lemma countb_ext {A : Type} (p q : A -> bool) l : (forall x, x ∈ l -> p x = q x) -> countb p l = countb q l.
Proof.
  induction l as [| x l IH]; intros H; [done |]. cbn.
  rewrite (H x), IH; [done | | by left]. intros y Hy. apply H. by right.
Qed.

Lemma countb_nonneg {A : Type} (p : A -> bool) l : 0 <= countb p l.
Proof. induction l as [| x l IH]; cbn; [lia |]. destruct (p x); lia. Qed.
