(* ===== verification/Bytes.v ===== *)
(** * Bytes: octets, little-endian and big-endian integers, bit fields

    A byte is a [Z] in [0, 256), a buffer a [list Z].  This file holds the
    standard library's fixed-width integer conversions ([to_le_bytes],
    [from_le_bytes], [from_be_bytes]), the two's complement reading of a word
    and the lemmas on shifts and masks the wire formats share. *)

From S2P Require Import Prelude.

Definition is_byte (b : Z) : Prop := 0 <= b < 256.
Abbreviation bytes := (list Z).
Abbreviation is_bytes := (Forall is_byte).

#[export] Instance is_byte_dec b : Decision (is_byte b).
Proof. unfold is_byte. apply _. Defined.

(** The value of a little-endian byte string, and its inverse of a given length. *)
Fixpoint le_val (bs : bytes) : Z :=
  match bs with
  | [] => 0
  | b :: bs => b + 256 * le_val bs
  end.

Fixpoint le_bytes (n : nat) (v : Z) : bytes :=
  match n with
  | O => []
  | S n => v mod 256 :: le_bytes n (v / 256)
  end.

Definition be_val (bs : bytes) : Z := le_val (rev bs).
Definition be_bytes (n : nat) (v : Z) : bytes := rev (le_bytes n v).

(** The value in either byte order: what the wire formats mean by an integer field. *)
Definition uint_val (little : bool) (bs : bytes) : Z :=
  if little then le_val bs else be_val bs.
Definition uint_bytes (little : bool) (n : nat) (v : Z) : bytes :=
  if little then le_bytes n v else be_bytes n v.

(** Two's complement: the signed reading of a [w]-bit word. *)
Definition signed (w z : Z) : Z :=
  let u := wrap w z in if u <? 2 ^ (w - 1) then u else u - 2 ^ w.

Lemma length_le_bytes n v : length (le_bytes n v) = n.
Proof. revert v. induction n as [| n IH]; intros v; cbn; [done | by rewrite IH]. Qed.

Lemma length_be_bytes n v : length (be_bytes n v) = n.
Proof. unfold be_bytes. by rewrite length_rev, length_le_bytes. Qed.

Lemma length_uint_bytes little n v : length (uint_bytes little n v) = n.
Proof. destruct little; [apply length_le_bytes | apply length_be_bytes]. Qed.

Lemma len_le_bytes n v : len (le_bytes n v) = Z.of_nat n.
Proof. unfold len. by rewrite length_le_bytes. Qed.

Lemma len_uint_bytes little n v : len (uint_bytes little n v) = Z.of_nat n.
Proof. unfold len. by rewrite length_uint_bytes. Qed.

#[export] Hint Rewrite len_le_bytes len_uint_bytes : len.

Lemma le_bytes_are_bytes n v : is_bytes (le_bytes n v).
Proof.
  revert v. induction n as [| n IH]; intros v; cbn; constructor; [| apply IH].
  apply Z.mod_pos_bound. lia.
Qed.

Lemma uint_bytes_are_bytes little n v : is_bytes (uint_bytes little n v).
Proof.
  destruct little; [apply le_bytes_are_bytes |].
  apply Forall_rev, le_bytes_are_bytes.
Qed.

Lemma le_val_bound bs : is_bytes bs -> 0 <= le_val bs < 256 ^ len bs.
Proof.
  induction 1 as [| b bs Hb _ IH]; [done |].
  rewrite len_cons, Z.pow_add_r by (unfold len; lia). cbn [le_val].
  unfold is_byte in Hb. change (256 ^ 1) with 256. lia.
Qed.

Lemma le_val_app bs cs : le_val (bs ++ cs) = le_val bs + 256 ^ len bs * le_val cs.
Proof.
  induction bs as [| b bs IH]; [change (len (@nil Z)) with 0; rewrite Z.pow_0_r; cbn [app le_val]; lia |].
  cbn [app le_val]. rewrite IH, len_cons, Z.pow_add_r by (unfold len; lia).
  change (256 ^ 1) with 256. lia.
Qed.

Lemma le_val_le_bytes n v : le_val (le_bytes n v) = v mod 256 ^ Z.of_nat n.
Proof.
  revert v. induction n as [| n IH]; intros v; cbn [le_bytes le_val].
  - by rewrite Z.mod_1_r.
  - rewrite IH, Nat2Z.inj_succ, Z.pow_succ_r by lia.
    rewrite Z.rem_mul_r by lia. lia.
Qed.

Lemma le_val_le_bytes_small n v :
  0 <= v < 256 ^ Z.of_nat n -> le_val (le_bytes n v) = v.
Proof. intros. by rewrite le_val_le_bytes, Z.mod_small. Qed.

Lemma le_bytes_le_val bs : is_bytes bs -> le_bytes (length bs) (le_val bs) = bs.
Proof.
  induction 1 as [| b bs Hb _ IH]; [done |]. cbn [length le_bytes le_val].
  unfold is_byte in Hb.
  replace ((b + 256 * le_val bs) mod 256) with b.
  2: { rewrite Z.mul_comm, Z.mod_add, Z.mod_small; lia. }
  replace ((b + 256 * le_val bs) / 256) with (le_val bs); [by rewrite IH |].
  rewrite Z.mul_comm, Z.div_add, Z.div_small; lia.
Qed.

Lemma uint_val_uint_bytes little n v :
  0 <= v < 256 ^ Z.of_nat n -> uint_val little (uint_bytes little n v) = v.
Proof.
  intros. destruct little; cbn; [by apply le_val_le_bytes_small |].
  unfold be_val, be_bytes. rewrite rev_involutive. by apply le_val_le_bytes_small.
Qed.

Lemma uint_bytes_uint_val little bs :
  is_bytes bs -> uint_bytes little (length bs) (uint_val little bs) = bs.
Proof.
  intros Hbs. destruct little; cbn; [by apply le_bytes_le_val |].
  unfold be_val, be_bytes.
  rewrite <- (length_rev bs), le_bytes_le_val, rev_involutive; [done | by apply Forall_rev].
Qed.

Lemma uint_val_bound little bs : is_bytes bs -> 0 <= uint_val little bs < 256 ^ len bs.
Proof.
  intros Hbs. destruct little; cbn; [by apply le_val_bound |].
  unfold be_val. replace (len bs) with (len (rev bs)) by (unfold len; by rewrite length_rev).
  apply le_val_bound. by apply Forall_rev.
Qed.

Lemma is_bytes_sub bs a b : is_bytes bs -> is_bytes (sub bs a b).
Proof. intros. by apply Forall_take, Forall_drop. Qed.

Lemma is_bytes_lookup bs i b : is_bytes bs -> bs !! i = Some b -> is_byte b.
Proof. rewrite Forall_lookup. eauto. Qed.

(** ** Shifts and masks as arithmetic *)

Lemma land_ones_mod x n : 0 <= n -> Z.land x (Z.ones n) = x mod 2 ^ n.
Proof. apply Z.land_ones. Qed.

Lemma testbit_above y n i : 0 <= n <= i -> 0 <= y < 2 ^ n -> Z.testbit y i = false.
Proof.
  intros Hi Hy. rewrite <- (Z.mod_small y (2 ^ n)) by done.
  apply Z.mod_pow2_bits_high. lia.
Qed.

(** A field above a value that fits below it shares no bit with it. *)
Lemma land_shiftl_small x y n : 0 <= n -> 0 <= y < 2 ^ n -> Z.land (Z.shiftl x n) y = 0.
Proof.
  intros Hn Hy. apply Z.bits_inj'. intros i Hi. rewrite Z.land_spec, Z.bits_0.
  destruct (Z.lt_ge_cases i n).
  - by rewrite Z.shiftl_spec_low.
  - rewrite (testbit_above y n) by lia. apply andb_false_r.
Qed.

(** Putting a field above a value that fits below it is an addition. *)
Lemma lor_shiftl_add x y n :
  0 <= n -> 0 <= y < 2 ^ n -> Z.lor (Z.shiftl x n) y = x * 2 ^ n + y.
Proof.
  intros Hn Hy. pose proof (land_shiftl_small x y n Hn Hy) as Hdisj.
  rewrite <- Z.lxor_lor, <- Z.add_nocarry_lxor by done.
  by rewrite Z.shiftl_mul_pow2.
Qed.

(** A field read back: shift right, then mask. *)
Lemma shiftr_land_field x n m :
  0 <= n -> 0 <= m -> Z.land (Z.shiftr x n) (Z.ones m) = (x / 2 ^ n) mod 2 ^ m.
Proof. intros. by rewrite Z.land_ones, Z.shiftr_div_pow2. Qed.

Create HintDb wire.
#[export] Hint Resolve le_bytes_are_bytes uint_bytes_are_bytes is_bytes_sub Forall_nil_2
  Forall_cons_2 : wire.
