(* ===== verification/Decimal.v ===== *)
(** * Decimal: printed numbers

    The decimal printing of Rust's [{}] and [{:04}] on unsigned integers, and
    the lemmas that make names built from printed numbers unambiguous: printing
    is injective, and a run of digits ends at the first non-digit. *)

From stdpp Require Import pretty strings.
From Stdlib Require Import Ascii String.
From S2P Require Import Prelude.
Open Scope string_scope.
Open Scope Z_scope.

(** [{}] of an unsigned integer. *)
Definition dec (n : Z) : string := pretty (Z.to_N n).

(** [{:04}]: zero-padded to four digits, longer when needed. *)
Fixpoint zeros (n : nat) : string :=
  match n with
  | O => ""
  | S n => String "0"%char (zeros n)
  end.

Definition dec4 (n : Z) : string := zeros (4 - String.length (dec n)) +:+ dec n.

Definition is_digit (c : ascii) : bool :=
  let n := Ascii.N_of_ascii c in (48 <=? n)%N && (n <=? 57)%N.

Fixpoint all_digits (s : string) : bool :=
  match s with
  | EmptyString => true
  | String c s => is_digit c && all_digits s
  end.

(** The value of a digit string, after the digits already read. *)
Fixpoint digits_val (acc : N) (s : string) : N :=
  match s with
  | EmptyString => acc
  | String c s => digits_val (10 * acc + (Ascii.N_of_ascii c - 48)) s
  end.

Lemma pretty_char_digit d :
  (d < 10)%N -> is_digit (pretty_N_char d) = true /\ (Ascii.N_of_ascii (pretty_N_char d) - 48 = d)%N.
Proof.
  intros Hd. assert (Hcases : In d [0; 1; 2; 3; 4; 5; 6; 7; 8; 9]%N) by (cbn; lia).
  repeat destruct Hcases as [<- | Hcases]; by vm_compute.
Qed.

Lemma pretty_go_digits x s :
  (all_digits s = true -> all_digits (pretty_N_go x s) = true) /\
  digits_val 0 (pretty_N_go x s) = digits_val x s.
Proof.
  revert s. induction (N.lt_wf_0 x) as [x _ IH]. intros s.
  destruct (decide (x = 0)%N) as [-> | Hx]; [by rewrite pretty_N_go_0 |].
  rewrite pretty_N_go_step by lia.
  destruct (pretty_char_digit (x `mod` 10)) as [Hd Hv]; [by apply N.mod_lt |].
  destruct (IH (x `div` 10)%N (N.div_lt x 10 ltac:(lia) ltac:(lia))
    (String (pretty_N_char (x `mod` 10)) s)) as [H1 H2].
  split.
  - intros Hs. apply H1. cbn. by rewrite Hd.
  - rewrite H2. cbn [digits_val]. rewrite Hv. f_equal.
    pose proof (N.div_mod x 10 ltac:(lia)). lia.
Qed.

Lemma dec_digits n : all_digits (dec n) = true.
Proof.
  unfold dec, pretty, pretty_N. destruct (decide _); [done |]. by apply pretty_go_digits.
Qed.

Lemma dec_val n : digits_val 0 (dec n) = Z.to_N n.
Proof.
  unfold dec, pretty, pretty_N. destruct (decide _) as [-> |]; [done |].
  by rewrite (proj2 (pretty_go_digits _ _)).
Qed.

Lemma dec_inj a b : 0 <= a -> 0 <= b -> dec a = dec b -> a = b.
Proof. intros Ha Hb E. apply (f_equal (digits_val 0)) in E. rewrite !dec_val in E. lia. Qed.

Lemma zeros_val n s : digits_val 0 (zeros n +:+ s) = digits_val 0 s.
Proof. induction n as [| n IH]; [done |]. cbn. exact IH. Qed.

Lemma zeros_digits n s : all_digits s = true -> all_digits (zeros n +:+ s) = true.
Proof. intros Hs. by induction n. Qed.

Lemma dec4_inj a b : 0 <= a -> 0 <= b -> dec4 a = dec4 b -> a = b.
Proof.
  intros Ha Hb E. apply (f_equal (digits_val 0)) in E. unfold dec4 in E.
  rewrite !zeros_val, !dec_val in E. lia.
Qed.

(** The digits in front of a separator are determined by the whole. *)
Lemma digits_sep c s t s' t' :
  is_digit c = false -> all_digits s = true -> all_digits t = true ->
  s +:+ String c s' = t +:+ String c t' -> s = t /\ s' = t'.
Proof.
  intros Hc. revert t. induction s as [| a s IH]; intros [| b t] Hs Ht E; cbn in *.
  - by injection E.
  - injection E as -> _. by rewrite Hc in Ht.
  - injection E as -> _. by rewrite Hc in Hs.
  - injection E as -> E. apply andb_true_iff in Hs as [_ Hs], Ht as [_ Ht].
    destruct (IH t Hs Ht E) as [-> ->]. done.
Qed.

Lemma string_length_app (s t : string) :
  String.length (s +:+ t) = (String.length s + String.length t)%nat.
Proof. induction s as [| c s IH]; [done |]. by apply (f_equal S). Qed.

(** A common suffix can be cut off. *)
Lemma append_inj_r (s t u : string) : s +:+ u = t +:+ u -> s = t.
Proof.
  intros E. apply (f_equal String.length) in E as Hl. rewrite !string_length_app in Hl.
  assert (Hst : String.length s = String.length t) by lia. clear Hl.
  revert t E Hst. induction s as [| a s IH]; intros [| b t] E Hst; cbn in *; try done.
  injection E as -> E. injection Hst as Hst. by rewrite (IH t).
Qed.

Lemma append_inj_l (s t u : string) : u +:+ s = u +:+ t -> s = t.
Proof. induction u as [| a u IH]; [done |]. cbn. intros [= E]. by apply IH. Qed.
