(* ===== verification/Text.v ===== *)
(** * Text: what the standard library does with strings

    A [String] as its bytes and back, [trim], [split], [strip_prefix] and
    [strip_suffix], and the strings that parse as integers.  A Rust [String] is a
    Rocq [string] of its UTF-8 bytes. *)

From Stdlib Require Import Ascii.
From stdpp Require Import pretty strings.
From S2P Require Import Prelude Bytes Decimal.
Open Scope list_scope.
Open Scope Z_scope.

(** A [String] as its bytes, and back. *)
Fixpoint text_bytes (s : string) : bytes :=
  match s with
  | EmptyString => []
  | String c s => Z.of_N (N_of_ascii c) :: text_bytes s
  end.

Fixpoint bytes_text (bs : bytes) : string :=
  match bs with
  | [] => EmptyString
  | b :: bs => String (ascii_of_N (Z.to_N b)) (bytes_text bs)
  end.

(** [s.starts_with(p)] with the rest, and [s.strip_suffix(p)]. *)
Fixpoint strip_prefix (p s : string) : option string :=
  match p, s with
  | EmptyString, s => Some s
  | String a p, String b s => if (a =? b)%char then strip_prefix p s else None
  | String _ _, EmptyString => None
  end.

Definition starts_with (p s : string) : bool :=
  match strip_prefix p s with
  | Some _ => true
  | None => false
  end.

Fixpoint drop_prefix (p l : bytes) : option bytes :=
  match p, l with
  | [], l => Some l
  | a :: p, b :: l => if a =? b then drop_prefix p l else None
  | _ :: _, [] => None
  end.

Definition strip_suffix (p s : string) : option string :=
  match drop_prefix (rev (text_bytes p)) (rev (text_bytes s)) with
  | Some l => Some (bytes_text (rev l))
  | None => None
  end.

(** The characters [char::is_whitespace] holds of, in UTF-8. *)
Definition WHITE_SPACE : list bytes :=
  map (fun b => [b]) [9; 10; 11; 12; 13; 32] ++
  [[0xC2; 0x85]; [0xC2; 0xA0]; [0xE1; 0x9A; 0x80]] ++
  map (fun b => [0xE2; 0x80; b]) ([0x80; 0x81; 0x82; 0x83; 0x84; 0x85; 0x86; 0x87; 0x88; 0x89; 0x8A] ++ [0xA8; 0xA9; 0xAF]) ++
  [[0xE2; 0x81; 0x9F]; [0xE3; 0x80; 0x80]].

Fixpoint first_prefix (ps : list bytes) (l : bytes) : option bytes :=
  match ps with
  | [] => None
  | p :: ps => match drop_prefix p l with Some l => Some l | None => first_prefix ps l end
  end.

Fixpoint trim_loop (fuel : nat) (ps : list bytes) (l : bytes) : bytes :=
  match fuel with
  | O => l
  | S fuel => match first_prefix ps l with Some l => trim_loop fuel ps l | None => l end
  end.

Definition trim_front (ps : list bytes) (l : bytes) : bytes := trim_loop (length l) ps l.

(** [s.trim()]: white space off both ends. *)
Definition trim (s : string) : string :=
  let l := trim_front WHITE_SPACE (text_bytes s) in
  bytes_text (rev (trim_front (map (@rev Z) WHITE_SPACE) (rev l))).

(** [str::lines]: a line ends with a newline, which a carriage return may precede;
    the rest of the text is a last line if there is any. *)
Definition strip_cr (line : bytes) : bytes :=
  match rev line with
  | 13 :: l => rev l
  | _ => line
  end.

Fixpoint lines_loop (line s : bytes) : list bytes :=
  match s with
  | [] => match line with [] => [] | _ => [line] end
  | b :: s => if b =? 10 then strip_cr line :: lines_loop [] s else lines_loop (line ++ [b]) s
  end.

Definition lines (s : bytes) : list bytes := lines_loop [] s.

Definition str_lines (s : string) : list string := map bytes_text (lines (text_bytes s)).

(** [s.split_whitespace()]: what is between the white space, nothing empty. *)
Definition push_token (token : bytes) (tokens : list string) : list string :=
  match token with
  | [] => tokens
  | _ => bytes_text token :: tokens
  end.

Fixpoint tokens_loop (fuel : nat) (token l : bytes) : list string :=
  match fuel, l with
  | O, _ | _, [] => push_token token []
  | S fuel, b :: tail =>
      match first_prefix WHITE_SPACE l with
      | Some l => push_token token (tokens_loop fuel [] l)
      | None => tokens_loop fuel (token ++ [b]) tail
      end
  end.

Definition split_whitespace (s : string) : list string := tokens_loop (length (text_bytes s)) [] (text_bytes s).

(** [s.trim_end_matches] and [s.trim_matches] of one-byte characters. *)
Definition trim_end_matches (cs : list Z) (s : string) : string :=
  bytes_text (rev (trim_front (map (fun c => [c]) cs) (rev (text_bytes s)))).

Definition trim_matches (cs : list Z) (s : string) : string :=
  trim_end_matches cs (bytes_text (trim_front (map (fun c => [c]) cs) (text_bytes s))).

(** [s.split_once(c)] and [s.splitn(n, c)]. *)
Fixpoint split_once (c : ascii) (s : string) : option (string * string) :=
  match s with
  | EmptyString => None
  | String a s =>
      if (a =? c)%char then Some (EmptyString, s)
      else match split_once c s with
           | Some (before, after) => Some (String a before, after)
           | None => None
           end
  end.

Fixpoint splitn (n : nat) (c : ascii) (s : string) : list string :=
  match n with
  | O => []
  | S O => [s]
  | S n =>
      match split_once c s with
      | Some (before, after) => before :: splitn n c after
      | None => [s]
      end
  end.

(** [s.split(c)]: at least one part. *)
Fixpoint split_on (c : ascii) (s : string) : list string :=
  match s with
  | EmptyString => [EmptyString]
  | String a s =>
      if (a =? c)%char then EmptyString :: split_on c s
      else match split_on c s with
           | p :: ps => String a p :: ps
           | [] => [String a EmptyString]
           end
  end.

(** [s.parse()] to an unsigned integer of [w] bits: a plus sign is let through. *)
Definition parse_uint (w : Z) (s : string) : option Z :=
  let digits := match s with String "+"%char (String _ _ as tail) => tail | _ => s end in
  match digits with
  | EmptyString => None
  | _ =>
      if all_digits digits then
        let n := Z.of_N (digits_val 0 digits) in if n <? 2 ^ w then Some n else None
      else None
  end.

(** [s.parse()] to a signed integer of [w] bits. *)
Definition parse_int (w : Z) (s : string) : option Z :=
  match s with
  | String "-"%char (String _ _ as digits) =>
      if all_digits digits then
        let n := - Z.of_N (digits_val 0 digits) in if - 2 ^ (w - 1) <=? n then Some n else None
      else None
  | _ => match parse_uint w s with Some n => if n <? 2 ^ (w - 1) then Some n else None | None => None end
  end.

(** [s.parse::<i32>()]. *)
Definition parse_i32 (s : string) : option Z := parse_int 32 s.

Example trim_cases : trim "  5 ON " = "5 ON" /\ parse_uint 8 "+255" = Some 255 /\ parse_uint 8 "256" = None /\
  parse_i32 "-2147483648" = Some (- 2 ^ 31) /\ parse_uint 16 "+" = None.
Proof. by vm_compute. Qed.

Example split_cases : split_whitespace (" U 0" +:+ String "009" (String "010" "1 ")) = ["U"; "0"; "1"] /\ split_whitespace "  " = [] /\
  str_lines ("a" +:+ String "013" (String "010" (String "010" "b"))) = ["a"; ""; "b"].
Proof. by vm_compute. Qed.

Example splitn_cases : splitn 4 ","%char "a,b,,d,e" = ["a"; "b"; ""; "d,e"] /\ splitn 4 ","%char "a,b" = ["a"; "b"] /\
  split_once ","%char "0,x" = Some ("0", "x") /\ trim_end_matches [13; 10] ("1" +:+ String "013" (String "010" "")) = "1" /\
  trim_matches [45] "--a-b-" = "a-b".
Proof. by vm_compute. Qed.

(** ** Lemmas *)

Lemma append_nil_l (s : string) : EmptyString +:+ s = s.
Proof. done. Qed.

Lemma append_cons c (a b : string) : String c a +:+ b = String c (a +:+ b).
Proof. done. Qed.

Lemma append_assoc (a b c : string) : (a +:+ b) +:+ c = a +:+ b +:+ c.
Proof. induction a as [| x a IH]; [done | exact (f_equal (String x) IH)]. Qed.

Lemma bytes_text_bytes s : bytes_text (text_bytes s) = s.
Proof.
  induction s as [| c s IH]; cbn; [done |]. rewrite IH. f_equal. rewrite N2Z.id. apply ascii_N_embedding.
Qed.

Lemma text_bytes_app s t : text_bytes (s +:+ t) = text_bytes s ++ text_bytes t.
Proof. induction s as [| c s IH]; [done |]. rewrite append_cons. cbn. by rewrite IH. Qed.

Lemma drop_prefix_app p l : drop_prefix p (p ++ l) = Some l.
Proof. induction p as [| a p IH]; cbn; [done |]. by rewrite Z.eqb_refl. Qed.

Lemma strip_suffix_app p s : strip_suffix p (s +:+ p) = Some s.
Proof.
  unfold strip_suffix. rewrite text_bytes_app, rev_app_distr, drop_prefix_app, rev_involutive.
  by rewrite bytes_text_bytes.
Qed.

Lemma strip_prefix_app p s : strip_prefix p (p +:+ s) = Some s.
Proof. induction p as [| a p IH]; [done |]. rewrite append_cons. cbn. by rewrite Ascii.eqb_refl. Qed.

Lemma strip_prefix_some p s t : strip_prefix p s = Some t -> s = p +:+ t.
Proof.
  revert s. induction p as [| a p IH]; intros s; cbn; [by intros [= ->] |].
  destruct s as [| b s]; [done |]. destruct (Ascii.eqb_spec a b) as [-> |]; [| done].
  intros H. rewrite append_cons. by rewrite (IH s H).
Qed.

Lemma starts_with_some p s : starts_with p s = true -> exists t, s = p +:+ t.
Proof.
  unfold starts_with. destruct (strip_prefix p s) as [t |] eqn:E; [| done]. intros _. exists t. by apply strip_prefix_some.
Qed.

Lemma parse_uint_bound w s n : parse_uint w s = Some n -> 0 <= n < 2 ^ w.
Proof.
  unfold parse_uint. set (ds := match s with String "+"%char (String _ _ as tail) => tail | _ => s end).
  destruct ds as [| c ds]; [done |]. destruct (all_digits (String c ds)); [| done].
  destruct (_ <? 2 ^ w) eqn:E; [| done]. intros [= <-]. apply Z.ltb_lt in E. split; [apply N2Z.is_nonneg | exact E].
Qed.

(** [c] nowhere in [s]. *)
Fixpoint lacks (c : ascii) (s : string) : bool :=
  match s with
  | EmptyString => true
  | String a s => negb (a =? c)%char && lacks c s
  end.

(** None of [cs] in [s]. *)
Fixpoint avoids (cs : list ascii) (s : string) : bool :=
  match s with
  | EmptyString => true
  | String c s => bool_decide (c ∉ cs) && avoids cs s
  end.

Lemma avoids_app cs s t : avoids cs (s +:+ t) = avoids cs s && avoids cs t.
Proof. induction s as [| c s IH]; [done |]. rewrite append_cons. cbn [avoids]. by rewrite IH, andb_assoc. Qed.

Lemma avoids_weaken cs cs' s : (forall c, c ∈ cs' -> c ∈ cs) -> avoids cs s = true -> avoids cs' s = true.
Proof.
  intros Hsub. induction s as [| c s IH]; [done |]. cbn [avoids]. rewrite !andb_true_iff, !bool_decide_eq_true. intros [Hc Hs]. split; [auto | by apply IH].
Qed.

Lemma avoids_digits cs s : Forall (fun c => is_digit c = false) cs -> all_digits s = true -> avoids cs s = true.
Proof.
  intros Hcs. induction s as [| c s IH]; [done |]. cbn [all_digits avoids]. rewrite !andb_true_iff, bool_decide_eq_true.
  intros [Hc Hs]. split; [| by apply IH]. intros Hin. rewrite list.Forall_forall in Hcs. specialize (Hcs c Hin). congruence.
Qed.

Lemma avoids_lacks c s : avoids [c] s = true -> lacks c s = true.
Proof.
  induction s as [| a s IH]; [done |]. cbn [avoids lacks]. rewrite !andb_true_iff, bool_decide_eq_true, list_elem_of_singleton.
  intros [Ha Hs]. split; [| by apply IH]. by apply negb_true_iff, Ascii.eqb_neq.
Qed.

(** A printed number is read back. *)
Lemma parse_uint_dec w n : 0 <= n < 2 ^ w -> parse_uint w (dec n) = Some n.
Proof.
  intros Hn. unfold parse_uint. pose proof (dec_digits n) as Hd. pose proof (dec_val n) as Hv.
  destruct (dec n) as [| c s] eqn:E.
  { exfalso. cbn in Hv. assert (n = 0) as -> by lia. by vm_compute in E. }
  assert (Hc : is_digit c = true) by (cbn [all_digits] in Hd; by apply andb_prop in Hd as [Hc _]).
  assert (Hs : match String c s with String "+"%char (String _ _ as tail) => tail | _ => String c s end = String c s).
  { destruct c as [[] [] [] [] [] [] [] []]; try done; cbn in Hc; discriminate. }
  rewrite Hs, Hd, Hv, Z2N.id by lia. by rewrite (proj2 (Z.ltb_lt _ _)) by lia.
Qed.

Lemma pretty_dec (n : Z) : 0 <= n -> pretty n = dec n.
Proof. by destruct n. Qed.

Lemma parse_int_dec w n : 0 < w -> 0 <= n < 2 ^ (w - 1) -> parse_int w (dec n) = Some n.
Proof.
  intros Hw Hn. assert (Hle : 2 ^ (w - 1) < 2 ^ w) by (apply Z.pow_lt_mono_r; lia).
  unfold parse_int. rewrite (parse_uint_dec w n) by lia. rewrite (proj2 (Z.ltb_lt _ _)) by lia. pose proof (dec_digits n) as Hd.
  destruct (dec n) as [| c s]; [done |]. cbn [all_digits] in Hd. apply andb_prop in Hd as [Hc _].
  destruct c as [[] [] [] [] [] [] [] []]; try done; cbn in Hc; discriminate.
Qed.

(** Digits have no white space to trim. *)
Lemma text_bytes_digits s : all_digits s = true -> Forall (fun b => 48 <= b < 58) (text_bytes s).
Proof.
  induction s as [| c s IH]; cbn [all_digits text_bytes]; [constructor |]. intros [Hc Hs]%andb_prop. constructor; [| by apply IH].
  destruct c as [[] [] [] [] [] [] [] []]; cbn in Hc; try discriminate; cbn; lia.
Qed.

Lemma trim_front_keeps ps l : Forall (fun p => match p with [] => False | b :: _ => ~ 48 <= b < 58 end) ps -> Forall (fun b => 48 <= b < 58) l ->
  trim_front ps l = l.
Proof.
  intros Hps [| b l' Hb _]; [done |]. unfold trim_front. cbn [length trim_loop].
  assert (first_prefix ps (b :: l') = None) as ->; [| done].
  induction Hps as [| [| a p] ps Ha _ IH]; [done | done |]. cbn [first_prefix drop_prefix].
  rewrite (proj2 (Z.eqb_neq a b)) by (intros ->; lia). exact IH.
Qed.

Lemma trim_digits s : all_digits s = true -> trim s = s.
Proof.
  intros Hs%text_bytes_digits. unfold trim.
  assert (Hws : forall ps, ps = WHITE_SPACE \/ ps = map (@rev Z) WHITE_SPACE ->
    Forall (fun p => match p with [] => False | b :: _ => ~ 48 <= b < 58 end) ps) by (intros ps [-> | ->]; unfold WHITE_SPACE; cbn [map app rev]; repeat (apply list.Forall_cons_2; [lia |]); apply list.Forall_nil_2).
  rewrite (trim_front_keeps WHITE_SPACE) by auto. rewrite (trim_front_keeps (map (@rev Z) WHITE_SPACE)); [by rewrite rev_involutive, bytes_text_bytes | auto |].
  by apply Forall_rev.
Qed.

Lemma split_on_one c s : lacks c s = true -> split_on c s = [s].
Proof.
  induction s as [| a s IH]; cbn; [done |]. intros H. apply andb_prop in H as [Ha Hs].
  apply negb_true_iff in Ha. by rewrite Ha, IH.
Qed.

Lemma split_on_cons c s t : lacks c s = true -> split_on c (s +:+ String c t) = s :: split_on c t.
Proof.
  induction s as [| a s IH]; [rewrite append_nil_l; cbn; by rewrite Ascii.eqb_refl |].
  rewrite append_cons. cbn. intros H. apply andb_prop in H as [Ha Hs]. apply negb_true_iff in Ha.
  by rewrite Ha, IH.
Qed.

Lemma split_on_concat c (ss : list string) :
  ss <> [] -> Forall (fun s => lacks c s = true) ss ->
  split_on c (String.concat (String c EmptyString) ss) = ss.
Proof.
  intros Hne Hss. induction Hss as [| s ss Hs Hss IH]; [done |]. destruct ss as [| s' ss].
  - cbn. by apply split_on_one.
  - change (String.concat (String c EmptyString) (s :: s' :: ss))
      with (s +:+ String c EmptyString +:+ String.concat (String c EmptyString) (s' :: ss)).
    rewrite append_cons, append_nil_l. rewrite split_on_cons by done. by rewrite IH.
Qed.

(** ** Words *)

(** A word: printable ASCII without blanks. *)
Definition word (s : string) : Prop := s <> EmptyString /\ Forall (fun b => 33 <= b < 127) (text_bytes s).

Lemma first_prefix_none ps b l : Forall (fun p => match p with [] => False | a :: _ => a <> b end) ps -> first_prefix ps (b :: l) = None.
Proof.
  induction 1 as [| [| a p] ps Ha _ IH]; [done | done |]. cbn [first_prefix drop_prefix]. by rewrite (proj2 (Z.eqb_neq a b) Ha).
Qed.

Lemma white_space_not b : 33 <= b < 127 -> Forall (fun p => match p with [] => False | a :: _ => a <> b end) WHITE_SPACE /\
  Forall (fun p => match p with [] => False | a :: _ => a <> b end) (map (@rev Z) WHITE_SPACE).
Proof. intros Hb. unfold WHITE_SPACE. cbn [map app rev]. split; repeat (apply list.Forall_cons_2; [lia |]); apply list.Forall_nil_2. Qed.

Lemma tokens_loop_word fuel w token l : Forall (fun b => 33 <= b < 127) w ->
  tokens_loop (length w + fuel) token (w ++ l) = tokens_loop fuel (token ++ w) l.
Proof.
  intros Hw. revert token. induction Hw as [| b w Hb _ IH]; intros token; [by rewrite app_nil_r |].
  cbn [length Nat.add app tokens_loop]. rewrite first_prefix_none by (by apply white_space_not). by rewrite IH, <- app_assoc.
Qed.

Lemma tokens_loop_tab fuel token l : tokens_loop (S fuel) token (9 :: l) = push_token token (tokens_loop fuel [] l).
Proof. done. Qed.

Lemma push_word s tokens : word s -> push_token (text_bytes s) tokens = s :: tokens.
Proof. intros [Hs _]. destruct s as [| c s]; [done |]. cbn [text_bytes push_token]. f_equal. exact (bytes_text_bytes (String c s)). Qed.

(** Words between tabs are found again. *)
Lemma split_whitespace_words ws : Forall word ws -> split_whitespace (String.concat (String "009" EmptyString) ws) = ws.
Proof.
  intros Hws. unfold split_whitespace. rewrite <- (Nat.add_0_r (length _)). generalize O as fuel.
  induction Hws as [| w ws Hw Hws IH]; intros fuel; [by destruct fuel |].
  destruct ws as [| w' ws].
  - cbn [String.concat]. rewrite <- (app_nil_r (text_bytes w)) at 2. rewrite tokens_loop_word by apply Hw. cbn [app].
    rewrite <- (push_word w [] Hw). by destruct fuel.
  - change (String.concat (String "009" EmptyString) (w :: w' :: ws)) with (w +:+ String "009" EmptyString +:+ String.concat (String "009" EmptyString) (w' :: ws)).
    set (rest := String.concat _ (w' :: ws)) in *. rewrite append_cons, append_nil_l, text_bytes_app. cbn [text_bytes].
    change (Z.of_N (N_of_ascii "009")) with 9. rewrite length_app, <- Nat.add_assoc, tokens_loop_word by apply Hw. cbn [app length Nat.add].
    rewrite tokens_loop_tab, IH. by apply push_word.
Qed.

Lemma trim_front_first ps b l : Forall (fun p => match p with [] => False | a :: _ => a <> b end) ps -> trim_front ps (b :: l) = b :: l.
Proof. intros Hp. unfold trim_front. cbn [length trim_loop]. by rewrite first_prefix_none. Qed.

(** What begins and ends with a printable character is trimmed already. *)
Lemma trim_tidy s b l b' l' : text_bytes s = b :: l -> text_bytes s = l' ++ [b'] -> 33 <= b < 127 -> 33 <= b' < 127 -> trim s = s.
Proof.
  intros E E' Hb Hb'. unfold trim. rewrite E. rewrite trim_front_first by (by apply white_space_not). rewrite <- E, E', rev_app_distr.
  cbn [rev app]. rewrite trim_front_first by (by apply white_space_not). cbn [rev]. rewrite rev_involutive, <- E'. apply bytes_text_bytes.
Qed.

(** ** Lines *)

Lemma lines_loop_line l s cur : 10 ∉ l -> lines_loop cur (l ++ 10 :: s) = strip_cr (cur ++ l) :: lines_loop [] s.
Proof.
  revert cur. induction l as [| b l IH]; intros cur Hl; cbn [lines_loop app].
  - by rewrite app_nil_r.
  - apply not_elem_of_cons in Hl as [Hb Hl]. rewrite (proj2 (Z.eqb_neq b 10)) by congruence.
    by rewrite IH, <- app_assoc.
Qed.

Lemma lines_loop_rest l cur : 10 ∉ l -> lines_loop cur l = match cur ++ l with [] => [] | _ => [cur ++ l] end.
Proof.
  revert cur. induction l as [| b l IH]; intros cur Hl; cbn [lines_loop].
  - by rewrite app_nil_r.
  - apply not_elem_of_cons in Hl as [Hb Hl]. rewrite (proj2 (Z.eqb_neq b 10)) by congruence.
    by rewrite IH, <- app_assoc.
Qed.

Lemma strip_cr_text l : list.last l <> Some 13 -> strip_cr l = l.
Proof.
  intros Hl. unfold strip_cr. destruct l as [| x l _] using rev_ind; [done |]. rewrite rev_app_distr. cbn.
  rewrite last_snoc in Hl. destruct x as [| [] |]; try done. repeat (match goal with p : positive |- _ => destruct p; try done end).
Qed.

(** *** Back from the parts *)

Lemma bytes_text_app l l' : bytes_text (l ++ l') = bytes_text l +:+ bytes_text l'.
Proof. induction l as [| b l IH]; [done |]. cbn [app bytes_text]. by rewrite IH, append_cons. Qed.

Lemma drop_prefix_some p l rest : drop_prefix p l = Some rest -> l = p ++ rest.
Proof.
  revert l. induction p as [| a p IH]; intros [| b l]; cbn [drop_prefix]; [by intros [= <-] | by intros [= <-] | done |].
  destruct (Z.eqb_spec a b) as [-> |]; [| done]. intros H. by rewrite (IH l H).
Qed.

Lemma strip_suffix_some p s t : strip_suffix p s = Some t -> s = t +:+ p.
Proof.
  unfold strip_suffix. destruct (drop_prefix _ _) as [l |] eqn:E; [| done]. intros [= <-]. apply drop_prefix_some in E.
  apply (f_equal (@rev Z)) in E. rewrite rev_involutive, rev_app_distr, rev_involutive in E.
  by rewrite <- (bytes_text_bytes s), E, bytes_text_app, bytes_text_bytes.
Qed.

(** The parts between the separators, put together again. *)
Lemma split_on_joins c s : String.concat (String c EmptyString) (split_on c s) = s /\ Forall (fun p => lacks c p = true) (split_on c s) /\ split_on c s <> [].
Proof.
  induction s as [| x s (IH & Hf & Hn)]; cbn [split_on]; [by repeat constructor |]. destruct (x =? c)%char eqn:E.
  - split_and!; [| by constructor | done]. apply Ascii.eqb_eq in E as ->. destruct (split_on c s) as [| p ps]; [done |].
    change (String.concat (String c EmptyString) (EmptyString :: p :: ps)) with (EmptyString +:+ String c EmptyString +:+ String.concat (String c EmptyString) (p :: ps)).
    rewrite IH, append_nil_l. by rewrite append_cons, append_nil_l.
  - destruct (split_on c s) as [| p ps]; [done |]. apply list.Forall_cons in Hf as [Hp Hf]. split_and!; [| | done].
    + rewrite <- IH. destruct ps as [| q ps]; [done |].
      change (String.concat (String c EmptyString) (String x p :: q :: ps)) with (String x p +:+ String c EmptyString +:+ String.concat (String c EmptyString) (q :: ps)).
      by rewrite append_cons.
    + constructor; [| done]. cbn [lacks]. by rewrite E, Hp.
Qed.
