(* ===== verification/Float.v ===== *)
(** * Float: the floating-point numbers of the readings

    [f64] is IEEE 754 binary64, from the Standard Library's specification: the
    operations and comparisons the code uses, [f64::from] of an integer, and
    [str::parse::<f64>()], which rounds a decimal to the nearest. *)

From Stdlib Require Import Ascii SpecFloat.
From stdpp Require Import pretty strings.
From S2P Require Import Prelude Bytes Decimal Text.
Open Scope list_scope.
Open Scope Z_scope.

Definition f64 : Type := spec_float.

Definition PREC : Z := 53.
Definition EMAX : Z := 1024.

#[export] Instance f64_eq_dec : EqDecision f64.
Proof. solve_decision. Defined.

(** ** Operations *)

Definition f64_lt (x y : f64) : bool := SFltb x y.
Definition f64_gt (x y : f64) : bool := SFltb y x.
Definition f64_ge (x y : f64) : bool := SFleb y x.
Definition f64_le (x y : f64) : bool := SFleb x y.
Definition f64_div (x y : f64) : f64 := SFdiv PREC EMAX x y.
Definition f64_abs (x : f64) : f64 := SFabs x.
Definition f64_add (x y : f64) : f64 := SFadd PREC EMAX x y.
Definition f64_mul (x y : f64) : f64 := SFmul PREC EMAX x y.
Definition f64_sub (x y : f64) : f64 := SFsub PREC EMAX x y.

Definition is_nan (x : f64) : bool :=
  match x with
  | S754_nan => true
  | _ => false
  end.

Definition is_finite (x : f64) : bool :=
  match x with
  | S754_zero _ | S754_finite _ _ _ => true
  | _ => false
  end.

(** [f64::max]: a number wins over NaN. *)
Definition f64_max (x y : f64) : f64 :=
  if is_nan x then y else if is_nan y then x else if f64_lt x y then y else x.

(** [f64::from]. *)
Definition f64_of_Z (n : Z) : f64 := binary_normalize PREC EMAX n 0 false.

(** The decimal [m] * 10 ^ [e], rounded to the nearest. *)
Definition f64_of_decimal (negative : bool) (m e : Z) : f64 :=
  match m with
  | Zpos p =>
      if 0 <=? e then
        match m * 10 ^ e with
        | Zpos p => binary_round PREC EMAX negative p 0
        | _ => S754_zero negative
        end
      else
        let '(mz, ez, lz) := SFdiv_core_binary PREC EMAX m 0 (10 ^ (- e)) 0 in
        binary_round_aux PREC EMAX negative mz ez lz
  | _ => S754_zero negative
  end.

(** ** [str::parse::<f64>()] *)

Definition lower (c : ascii) : ascii :=
  let n := N_of_ascii c in if ((65 <=? n) && (n <=? 90))%N then ascii_of_N (n + 32) else c.

Fixpoint lowercase (s : string) : string :=
  match s with
  | EmptyString => EmptyString
  | String c s => String (lower c) (lowercase s)
  end.

(** The digits at the front, and what follows. *)
Fixpoint digits (s : string) : string * string :=
  match s with
  | String c s' => if is_digit c then let '(ds, rest) := digits s' in (String c ds, rest) else (EmptyString, s)
  | EmptyString => (EmptyString, EmptyString)
  end.

Definition sign_of (s : string) : bool * string :=
  match s with
  | String c s' => if (c =? "-")%char then (true, s') else if (c =? "+")%char then (false, s') else (false, s)
  | EmptyString => (false, EmptyString)
  end.

Definition parse_exponent (s : string) : option Z :=
  match s with
  | EmptyString => Some 0
  | String c s =>
      if (c =? "e")%char then
        let '(negative, s) := sign_of s in
        match digits s with
        | (String _ _ as ds, EmptyString) =>
            let n := Z.of_N (digits_val 0 ds) in Some (if negative then - n else n)
        | _ => None
        end
      else None
  end.

(** Digits with a point somewhere, and an exponent. *)
Definition parse_number (negative : bool) (s : string) : option f64 :=
  let '(whole, rest) := digits s in
  let '(fraction, rest) :=
    match rest with
    | String c tail => if (c =? ".")%char then digits tail else (EmptyString, rest)
    | EmptyString => (EmptyString, EmptyString)
    end in
  match whole +:+ fraction with
  | EmptyString => None
  | ds =>
      match parse_exponent rest with
      | Some e => Some (f64_of_decimal negative (Z.of_N (digits_val 0 ds)) (e - Z.of_nat (String.length fraction)))
      | None => None
      end
  end.

Definition parse_f64 (s : string) : option f64 :=
  let '(negative, s) := sign_of (lowercase s) in
  if bool_decide (s = "inf") || bool_decide (s = "infinity") then Some (S754_infinity negative)
  else if bool_decide (s = "nan") then Some S754_nan
  else parse_number negative s.

(** Decimals whose bits are known. *)
Example parse_f64_values :
  map parse_f64 ["0.1"; "-2.5E+1"; "+7."; ".5"; "-0"; "1e400"; "5e-324"; "2e-324"; "9007199254740993"; "-inf"; "NaN"]
  = [Some (S754_finite false 7205759403792794 (-56)); Some (S754_finite true 7036874417766400 (-48));
     Some (S754_finite false 7881299347898368 (-50)); Some (S754_finite false 4503599627370496 (-53));
     Some (S754_zero true); Some (S754_infinity false); Some (S754_finite false 1 (-1074)); Some (S754_zero false);
     Some (S754_finite false 4503599627370496 1); Some (S754_infinity true); Some S754_nan].
Proof. by vm_compute. Qed.

Example parse_f64_refused :
  map parse_f64 ["."; "e5"; "1e"; " 1"; ""; "1.2.3"; "+-1"; "0x10"] = repeat None 8.
Proof. by vm_compute. Qed.

(** ** Lemmas *)

(** The integer a float is, rounded towards zero. *)
Definition f64_to_Z (x : f64) : Z :=
  match x with
  | S754_finite s m e => let n := if e <? 0 then Z.shiftr (Zpos m) (- e) else Z.shiftl (Zpos m) e in if s then - n else n
  | _ => 0
  end.

Fixpoint round_trips (n : nat) (z : Z) : bool :=
  match n with
  | O => true
  | S n => (f64_to_Z (f64_of_Z z) =? z) && round_trips n (z + 1)
  end.

Lemma round_trips_all n z a : round_trips n z = true -> z <= a < z + Z.of_nat n -> f64_to_Z (f64_of_Z a) = a.
Proof.
  revert z. induction n as [| n IH]; intros z; cbn [round_trips]; [lia |]. intros H Ha. apply andb_prop in H as [H1 H2].
  destruct (decide (a = z)) as [-> | Hne]; [by apply Z.eqb_eq | by apply (IH (z + 1)); [| lia]].
Qed.

Lemma round_trips_u16 : round_trips (Z.to_nat 65536) 0 = true.
Proof. by vm_compute. Qed.

Lemma f64_of_u16 n : 0 <= n < 65536 -> f64_to_Z (f64_of_Z n) = n.
Proof.
  intros Hn. apply (round_trips_all _ _ _ round_trips_u16). rewrite Z2Nat.id by discriminate. exact Hn.
Qed.

Lemma f64_of_u16_inj a b : 0 <= a < 65536 -> 0 <= b < 65536 -> f64_of_Z a = f64_of_Z b -> a = b.
Proof. intros Ha Hb E. by rewrite <- (f64_of_u16 a), <- (f64_of_u16 b), E. Qed.
