(* ===== verification/Msg.v ===== *)
(** * Msg: the messages of the data plane and the 32-bit item word

    Models [src/msg.rs]: the envelope types ([Batch], [Message], [Fragment]),
    the packing of one sample into a [u32], the item byte strings and the
    length-prefixed stream of the golden fixture.  MessagePack itself is the
    third-party [rmp_serde] and is a parameter of the components that use it. *)

From stdpp Require Export strings.
From S2P Require Import Prelude Bytes.

(** ** Errors *)

Inductive MsgError : Type :=
| Encode (what : string)
| Decode (what : string)
| ItemFieldRange (field : string) (value max : Z)
| ItemsMisaligned (length : Z)
| TruncatedStream (pos : Z)
| Io (path what : string).

#[export] Instance MsgError_eq_dec : EqDecision MsgError.
Proof. solve_decision. Defined.

(** ** Envelope *)

Record Batch (P : Type) : Type := mkBatch {
  source_id : Z;
  run_number : Z;
  sequence_number : Z;
  created_ns : Z;
  payload : P;
}.
Arguments mkBatch {P}.
Arguments source_id {P}.
Arguments run_number {P}.
Arguments sequence_number {P}.
Arguments created_ns {P}.
Arguments payload {P}.

Inductive Message (P : Type) : Type :=
| Data (b : Batch P)
| EndOfStream (source_id run_number : Z)
| Heartbeat (source_id run_number counter : Z).
Arguments Data {P}.
Arguments EndOfStream {P}.
Arguments Heartbeat {P}.

Definition RawFrames : Type := list bytes.

(** Only data may be dropped under load: never the barrier, never the heartbeat. *)
Definition is_droppable {P : Type} (m : Message P) : bool :=
  match m with
  | Data _ => true
  | _ => false
  end.

Record Fragment : Type := mkFragment {
  event_idx : Z;
  event_time : Z;
  cobo : Z;
  asad : Z;
  frame_type : Z;
  revision : Z;
  read_offset : Z;
  status : Z;
  mult : list Z;
  window_out : Z;
  last_cell : list Z;
  items : bytes;
}.

Definition Fragments : Type := list Fragment.

(** ** The item word *)

Definition ITEM_AGET_MAX : Z := 3.
Definition ITEM_CHAN_MAX : Z := 127.
Definition ITEM_BUCKET_MAX : Z := 511.
Definition ITEM_ADC_MAX : Z := 4095.
Definition ITEM_RESERVED_MASK : Z := 12288 (* 0x0000_3000 *).
Definition ITEM_AGET_SHIFT : Z := 30.
Definition ITEM_CHAN_SHIFT : Z := 23.
Definition ITEM_BUCKET_SHIFT : Z := 14.

Record Item : Type := mkItem {
  item_aget : Z;
  item_chan : Z;
  item_bucket : Z;
  item_adc : Z;
}.

#[export] Instance Item_eq_dec : EqDecision Item.
Proof. solve_decision. Defined.

Definition check_field (field : string) (value max : Z) : result Z MsgError :=
  if max <? value then Err (ItemFieldRange field value max) else Ok value.

(** [x << n] on a [u32]. *)
Definition shl32 (x n : Z) : Z := wrap 32 (Z.shiftl x n).

Definition pack_item (aget chan bucket adc : Z) : result Z MsgError :=
  let? aget := check_field "aget" aget ITEM_AGET_MAX in
  let? chan := check_field "chan" chan ITEM_CHAN_MAX in
  let? bucket := check_field "bucket" bucket ITEM_BUCKET_MAX in
  let? adc := check_field "adc" adc ITEM_ADC_MAX in
  Ok (Z.lor (Z.lor (Z.lor (shl32 aget ITEM_AGET_SHIFT) (shl32 chan ITEM_CHAN_SHIFT))
                   (shl32 bucket ITEM_BUCKET_SHIFT)) adc).

Definition unpack_item (word : Z) : Item :=
  {| item_aget := Z.land (Z.shiftr word ITEM_AGET_SHIFT) ITEM_AGET_MAX;
     item_chan := Z.land (Z.shiftr word ITEM_CHAN_SHIFT) ITEM_CHAN_MAX;
     item_bucket := Z.land (Z.shiftr word ITEM_BUCKET_SHIFT) ITEM_BUCKET_MAX;
     item_adc := Z.land word ITEM_ADC_MAX |}.

Definition items_to_bytes (items : list Z) : bytes := concat (map (le_bytes 4) items).

Definition items_from_bytes (bs : bytes) : result (list Z) MsgError :=
  if negb (len bs mod 4 =? 0) then Err (ItemsMisaligned (len bs))
  else Ok (map le_val (chunks_exact 4 bs)).

(** ** Length-prefixed streams *)

(** The writer: [u32::try_from(frame.len()).unwrap_or(u32::MAX)], then the frame. *)
Definition length_prefix (frame : bytes) : bytes :=
  le_bytes 4 (if len frame <? 2 ^ 32 then len frame else 2 ^ 32 - 1) ++ frame.

Definition write_golden_stream (frames : list bytes) : bytes := concat (map length_prefix frames).

(** The reader's loop; every turn moves [pos] by four at least, so a fuel of
    the stream's length suffices. *)
Fixpoint split_loop (fuel : nat) (bs : bytes) (pos : Z) (frames : list bytes)
    : rust (result (list bytes) MsgError) :=
  match fuel with
  | O => OutOfFuel
  | S fuel =>
      if pos <? len bs then
        if len bs - pos <? 4 then Val (Err (TruncatedStream pos)) else
        let! len_bytes := slice bs pos (pos + 4) in
        let n := le_val len_bytes in
        let pos := pos + 4 in
        if len bs - pos <? n then Val (Err (TruncatedStream pos)) else
        let! frame := slice bs pos (pos + n) in
        split_loop fuel bs (pos + n) (frames ++ [frame])
      else Val (Ok frames)
  end.

Definition split_length_prefixed (bs : bytes) : rust (result (list bytes) MsgError) :=
  split_loop (S (length bs)) bs 0 [].

(** ** Lemmas *)

Definition item_ok (i : Item) : Prop :=
  0 <= item_aget i <= ITEM_AGET_MAX /\ 0 <= item_chan i <= ITEM_CHAN_MAX /\
  0 <= item_bucket i <= ITEM_BUCKET_MAX /\ 0 <= item_adc i <= ITEM_ADC_MAX.

(** The word as a number: what the shifts and ors add up to. *)
Definition item_word (i : Item) : Z :=
  item_aget i * 2 ^ 30 + item_chan i * 2 ^ 23 + item_bucket i * 2 ^ 14 + item_adc i.

Lemma check_field_ok f v m : v <= m -> check_field f v m = Ok v.
Proof. intros. unfold check_field. by replace (m <? v) with false by lia. Qed.

Lemma item_word_bound i : item_ok i -> in_width 32 (item_word i).
Proof.
  intros (? & ? & ? & ?). unfold in_width, item_word.
  unfold ITEM_AGET_MAX, ITEM_CHAN_MAX, ITEM_BUCKET_MAX, ITEM_ADC_MAX in *. lia.
Qed.

Lemma pack_item_word a c b d :
  item_ok (mkItem a c b d) -> pack_item a c b d = Ok (item_word (mkItem a c b d)).
Proof.
  intros Hok. pose proof Hok as (Ha & Hc & Hb & Hd). cbn in Ha, Hc, Hb, Hd.
  unfold pack_item. rewrite !check_field_ok by lia. cbn [result_bind]. f_equal.
  unfold ITEM_AGET_MAX, ITEM_CHAN_MAX, ITEM_BUCKET_MAX, ITEM_ADC_MAX in *.
  unfold shl32, ITEM_AGET_SHIFT, ITEM_CHAN_SHIFT, ITEM_BUCKET_SHIFT, item_word.
  cbn [item_aget item_chan item_bucket item_adc].
  rewrite !wrap_small by (unfold in_width; rewrite Z.shiftl_mul_pow2 by lia; lia).
  rewrite <- !Z.lor_assoc. rewrite (lor_shiftl_add b d) by lia.
  rewrite (lor_shiftl_add c) by lia. rewrite lor_shiftl_add by lia. lia.
Qed.

Lemma pack_item_Ok a c b d w :
  0 <= a -> 0 <= c -> 0 <= b -> 0 <= d -> pack_item a c b d = Ok w ->
  item_ok (mkItem a c b d) /\ w = item_word (mkItem a c b d).
Proof.
  intros Ha Hc Hb Hd Hw.
  assert (Hok : item_ok (mkItem a c b d)).
  { unfold pack_item, check_field in Hw. unfold item_ok. cbn.
    repeat match type of Hw with
    | context [if ?x <? ?y then _ else _] => destruct (Z.ltb_spec x y); [discriminate Hw |]
    end; cbn [result_bind] in Hw. lia. }
  split; [done |]. rewrite pack_item_word in Hw by done. congruence.
Qed.

Lemma unpack_item_fields w :
  unpack_item w =
  mkItem ((w / 2 ^ 30) mod 2 ^ 2) ((w / 2 ^ 23) mod 2 ^ 7) ((w / 2 ^ 14) mod 2 ^ 9) (w mod 2 ^ 12).
Proof.
  unfold unpack_item. f_equal.
  - by apply (shiftr_land_field w 30 2).
  - by apply (shiftr_land_field w 23 7).
  - by apply (shiftr_land_field w 14 9).
  - by apply (Z.land_ones w 12).
Qed.

Lemma unpack_item_word i : item_ok i -> unpack_item (item_word i) = i.
Proof.
  destruct i as [a c b d]. intros (Ha & Hc & Hb & Hd). cbn in Ha, Hc, Hb, Hd.
  rewrite unpack_item_fields. unfold item_word. cbn [item_aget item_chan item_bucket item_adc].
  unfold ITEM_AGET_MAX, ITEM_CHAN_MAX, ITEM_BUCKET_MAX, ITEM_ADC_MAX in *.
  f_equal; Z.div_mod_to_equations; lia.
Qed.

Lemma length_le_words ws : Forall (fun c : bytes => length c = 4%nat) (map (le_bytes 4) ws).
Proof. induction ws as [| w ws IH]; constructor; [apply length_le_bytes | apply IH]. Qed.

Lemma len_items_to_bytes ws : len (items_to_bytes ws) = 4 * len ws.
Proof.
  unfold items_to_bytes. induction ws as [| w ws IH]; [done |].
  cbn [map concat]. rewrite len_app, len_cons, len_le_bytes, IH. lia.
Qed.

Lemma item_word_reserved i : item_ok i -> Z.land (item_word i) ITEM_RESERVED_MASK = 0.
Proof.
  destruct i as [a c b d]. intros (Ha & Hc & Hb & Hd). cbn in Ha, Hc, Hb, Hd.
  unfold item_word, ITEM_RESERVED_MASK, ITEM_ADC_MAX in *. cbn [item_aget item_chan item_bucket item_adc].
  change 12288 with (Z.shiftl (Z.ones 2) 12).
  replace (a * 2 ^ 30 + c * 2 ^ 23 + b * 2 ^ 14 + d)
    with (Z.lor (Z.shiftl (a * 2 ^ 16 + c * 2 ^ 9 + b) 14) d)
    by (rewrite lor_shiftl_add; lia).
  apply Z.bits_inj'. intros i Hi. rewrite Z.land_spec, Z.lor_spec, Z.bits_0.
  destruct (Z.lt_ge_cases i 12); [rewrite (Z.shiftl_spec_low (Z.ones 2)) by done; apply andb_false_r |].
  rewrite (testbit_above d 12) by lia. rewrite orb_false_r.
  destruct (Z.lt_ge_cases i 14); [by rewrite Z.shiftl_spec_low |].
  rewrite (Z.shiftl_spec (Z.ones 2)) by lia.
  rewrite (testbit_above (Z.ones 2) 2) by (lia || (split; done)). apply andb_false_r.
Qed.

Lemma chunks_exact_all (bs : bytes) :
  len bs mod 4 = 0 -> concat (chunks_exact 4 bs) = bs /\
  Forall (fun c : bytes => length c = 4%nat) (chunks_exact 4 bs).
Proof.
  intros Hlen.
  assert (Hcut : exists ls, concat ls = bs /\ Forall (fun c : bytes => length c = 4%nat) ls).
  { remember (length bs) as k eqn:Hk. revert bs Hk Hlen.
    induction k as [k IH] using lt_wf_ind. intros bs -> Hlen. unfold len in Hlen.
    destruct bs as [| w [| x [| y [| z bs]]]]; cbn [length] in Hlen;
      [by exists [] | try (Z.div_mod_to_equations; lia) ..].
    destruct (IH (length bs) ltac:(cbn; lia) bs eq_refl) as (ls & <- & Hls).
    { unfold len. Z.div_mod_to_equations; lia. }
    exists ([w; x; y; z] :: ls). split; [done | by constructor]. }
  destruct Hcut as (ls & <- & Hls). by rewrite chunks_exact_concat by (lia || done).
Qed.

(** The word's top fields read back whatever the reserved bits hold. *)
Lemma unpack_item_ok w : in_width 32 w -> item_ok (unpack_item w).
Proof.
  intros Hw. rewrite unpack_item_fields. unfold in_width, item_ok in *.
  unfold ITEM_AGET_MAX, ITEM_CHAN_MAX, ITEM_BUCKET_MAX, ITEM_ADC_MAX. cbn.
  repeat split; Z.div_mod_to_equations; lia.
Qed.

Lemma le_val_words ws : Forall (in_width 32) ws -> map le_val (map (le_bytes 4) ws) = ws.
Proof.
  induction 1 as [| w ws Hw _ IH]; [done |]. cbn [map].
  rewrite IH, le_val_le_bytes_small; [done |]. exact Hw.
Qed.

(** ** The reader of length-prefixed streams *)

(** What the reader's loop does from a position, said about the bytes left. *)
Fixpoint split_rest (fuel : nat) (rest : bytes) (pos : Z) : result (list bytes) MsgError :=
  match fuel with
  | O => Ok []
  | S fuel =>
      if 0 <? len rest then
        if len rest <? 4 then Err (TruncatedStream pos) else
        let n := le_val (take 4 rest) in
        if len rest - 4 <? n then Err (TruncatedStream (pos + 4)) else
        let? frames := split_rest fuel (drop (Z.to_nat (4 + n)) rest) (pos + 4 + n) in
        Ok (take (Z.to_nat n) (drop 4 rest) :: frames)
      else Ok []
  end.

Lemma split_loop_rest fuel bs pos frames :
  is_bytes bs -> 0 <= pos <= len bs -> len bs - pos < Z.of_nat fuel ->
  split_loop fuel bs pos frames =
  Val (let? fs := split_rest fuel (drop (Z.to_nat pos) bs) pos in Ok (frames ++ fs)).
Proof.
  intros Hbs. revert pos frames. induction fuel as [| fuel IH]; intros pos frames Hpos Hfuel; [lia |].
  cbn [split_loop split_rest].
  assert (Hrest : len (drop (Z.to_nat pos) bs) = len bs - pos) by solve_len.
  rewrite Hrest. replace (0 <? len bs - pos) with (pos <? len bs) by lia.
  destruct (Z.ltb_spec pos (len bs)); [| cbn; by rewrite app_nil_r].
  destruct (Z.ltb_spec (len bs - pos) 4); [done |].
  rewrite slice_val by lia. cbn [rust_bind]. rewrite (sub_drop _ pos 4) by lia.
  change (Z.to_nat 4) with 4%nat.
  set (n := le_val (take 4 (drop (Z.to_nat pos) bs))).
  assert (Hn : 0 <= n) by (apply le_val_bound; by apply Forall_take, Forall_drop).
  replace (len bs - (pos + 4)) with (len bs - pos - 4) by lia.
  destruct (Z.ltb_spec (len bs - pos - 4) n); [done |].
  rewrite slice_val by lia. cbn [rust_bind]. rewrite sub_drop by lia.
  rewrite IH by lia. rewrite !drop_drop.
  replace (Z.to_nat pos + Z.to_nat (4 + n))%nat with (Z.to_nat (pos + 4 + n)) by lia.
  replace (Z.to_nat pos + 4)%nat with (Z.to_nat (pos + 4)) by lia.
  f_equal. destruct (split_rest _ _ _); cbn [result_bind]; [by rewrite <- app_assoc | done].
Qed.

Lemma split_rest_Ok fuel rest pos frames :
  is_bytes rest -> len rest < Z.of_nat fuel ->
  split_rest fuel rest pos = Ok frames ->
  rest = write_golden_stream frames /\ Forall (fun f => len f < 2 ^ 32) frames.
Proof.
  revert rest pos frames. induction fuel as [| fuel IH]; intros rest pos frames Hrest Hfuel; [unfold len in *; lia |].
  cbn [split_rest]. destruct (Z.ltb_spec 0 (len rest)) as [Hlen | Hlen].
  2: { intros [= <-]. destruct rest; [done | rewrite len_cons in Hlen; pose proof (len_nonneg rest); lia]. }
  destruct (Z.ltb_spec (len rest) 4); [done |].
  pose proof (le_val_bound (take 4 rest) ltac:(by apply Forall_take)) as Hn.
  rewrite len_take in Hn. replace (Z.min (Z.of_nat 4) (len rest)) with 4 in Hn by lia.
  pose proof (le_bytes_le_val (take 4 rest) ltac:(by apply Forall_take)) as Hhdr.
  set (n := le_val (take 4 rest)) in *.
  destruct (Z.ltb_spec (len rest - 4) n); [done |].
  destruct (split_rest fuel _ _) as [fs |] eqn:Hfs; cbn [result_bind]; [| done].
  intros [= <-]. apply IH in Hfs as [Hdrop Hall]; [| by apply Forall_drop | solve_len].
  split; [| constructor; [rewrite len_take; lia | done]].
  unfold write_golden_stream in *. cbn [map concat]. unfold length_prefix at 1.
  assert (Hlenf : len (take (Z.to_nat n) (drop 4 rest)) = n) by solve_len.
  rewrite Hlenf. replace (n <? 2 ^ 32) with true by lia.
  rewrite <- Hdrop, <- app_assoc.
  replace (length (take 4 rest)) with 4%nat in Hhdr by (unfold len in *; rewrite length_take; lia).
  rewrite Hhdr. rewrite Z2Nat.inj_add, <- drop_drop by lia.
  change (Z.to_nat 4) with 4%nat. by rewrite take_drop, take_drop.
Qed.

Lemma split_rest_write fuel frames pos :
  Forall (fun f => len f < 2 ^ 32) frames ->
  len (write_golden_stream frames) < Z.of_nat fuel ->
  split_rest fuel (write_golden_stream frames) pos = Ok frames.
Proof.
  intros Hall. revert fuel pos. induction Hall as [| f fs Hf _ IH]; intros fuel pos Hfuel.
  { destruct fuel; done. }
  destruct fuel as [| fuel]; [pose proof (len_nonneg (write_golden_stream (f :: fs))); lia |].
  unfold write_golden_stream in *. cbn [map concat] in *.
  assert (Hpre : length_prefix f = le_bytes 4 (len f) ++ f).
  { unfold length_prefix. by replace (len f <? 2 ^ 32) with true by lia. }
  rewrite Hpre in *. rewrite <- app_assoc in *. rewrite !len_app, len_le_bytes in Hfuel.
  pose proof (len_nonneg f). pose proof (len_nonneg (concat (map length_prefix fs))).
  cbn [split_rest]. rewrite !len_app, len_le_bytes.
  change (Z.of_nat 4) with 4. bdecide.
  rewrite take_app_length' by (by rewrite length_le_bytes).
  rewrite le_val_le_bytes_small by (change (256 ^ Z.of_nat 4) with (2 ^ 32); lia).
  bdecide.
  rewrite Z2Nat.inj_add by lia. rewrite <- drop_drop. change (Z.to_nat 4) with 4%nat.
  rewrite drop_app_length' by (by rewrite length_le_bytes).
  unfold len at 1 3. rewrite Nat2Z.id, drop_app_length, take_app_length, IH by lia. done.
Qed.

(** ** Properties *)

(** packing a sample succeeds exactly when every field fits its bits; the
    packed word fits a [u32], leaves the reserved bits clear and unpacks to the
    same sample, and an oversized field is an [ItemFieldRange] error that names
    a field over its maximum, never a truncation. *)
Theorem pack_item_spec (aget chan bucket adc : Z)
    (Haget : in_width 8 aget) (Hchan : in_width 8 chan)
    (Hbucket : in_width 16 bucket) (Hadc : in_width 16 adc) :
  match pack_item aget chan bucket adc with
  | Ok w =>
      item_ok (mkItem aget chan bucket adc) /\ in_width 32 w /\
      Z.land w ITEM_RESERVED_MASK = 0 /\ unpack_item w = mkItem aget chan bucket adc
  | Err e =>
      ~ item_ok (mkItem aget chan bucket adc) /\
      exists field value max, e = ItemFieldRange field value max /\ max < value /\
        In (field, value, max)
          [("aget"%string, aget, ITEM_AGET_MAX); ("chan"%string, chan, ITEM_CHAN_MAX);
           ("bucket"%string, bucket, ITEM_BUCKET_MAX); ("adc"%string, adc, ITEM_ADC_MAX)]
  end.
Proof.
  unfold in_width in Haget, Hchan, Hbucket, Hadc.
  destruct (pack_item aget chan bucket adc) as [w | e] eqn:Hp.
  - apply pack_item_Ok in Hp as [Hok ->]; [| lia ..].
    split_and!; [done | by apply item_word_bound | by apply item_word_reserved |
      by apply unpack_item_word].
  - split.
    { intros Hok. rewrite pack_item_word in Hp by done. discriminate Hp. }
    unfold pack_item, check_field in Hp.
    repeat match type of Hp with
    | context [if ?x <? ?y then _ else _] => destruct (Z.ltb_spec x y)
    end; cbn [result_bind] in Hp; try discriminate Hp;
      injection Hp as <-; eauto 12 with datatypes.
Qed.

Lemma pack_item_spec_witness :
  pack_item 2 45 300 1234 = Ok 2529887442 /\ unpack_item 2529887442 = mkItem 2 45 300 1234.
Proof.
  split; [reflexivity |].
  assert (H := pack_item_spec 2 45 300 1234 ltac:(unfold in_width; lia) ltac:(unfold in_width; lia)
    ltac:(unfold in_width; lia) ltac:(unfold in_width; lia)).
  apply H.
Defined.

(** the item byte string round-trips both ways: reading what
    [items_to_bytes] wrote gives the words back, a byte string that reads
    writes back unchanged, and reading fails exactly on a length that is not a
    multiple of four. *)
Theorem items_bytes_roundtrip (bs : bytes) (ws : list Z)
    (Hbs : is_bytes bs) (Hws : Forall (in_width 32) ws) :
  items_from_bytes (items_to_bytes ws) = Ok ws /\
  match items_from_bytes bs with
  | Ok vs => items_to_bytes vs = bs /\ Forall (in_width 32) vs
  | Err e => e = ItemsMisaligned (len bs) /\ len bs mod 4 <> 0
  end.
Proof.
  unfold items_from_bytes. split.
  - rewrite len_items_to_bytes, Z.mul_comm, Z.mod_mul by lia. cbn [Z.eqb negb].
    unfold items_to_bytes. rewrite chunks_exact_concat; [| lia | apply length_le_words].
    by rewrite le_val_words.
  - destruct (Z.eqb_spec (len bs mod 4) 0) as [Hlen |]; cbn [negb]; [| done].
    destruct (chunks_exact_all bs Hlen) as [Hcat Hcs].
    rewrite <- Hcat in Hbs at 1. unfold items_to_bytes. rewrite <- Hcat at 2. clear Hcat Hlen Hws.
    induction Hcs as [| c cs Hc _ IH]; [done |]. cbn [map concat] in *.
    apply Forall_app in Hbs as [Hb Hbs]. destruct (IH Hbs) as [IH1 IH2].
    rewrite IH1, <- Hc, le_bytes_le_val by done. split; [done |]. constructor; [| done].
    pose proof (le_val_bound c Hb) as Hv. unfold len in Hv. rewrite Hc in Hv. exact Hv.
Qed.

Lemma items_bytes_roundtrip_witness :
  items_from_bytes (items_to_bytes [1; 4294967295]) = Ok [1; 4294967295].
Proof.
  apply (items_bytes_roundtrip [] [1; 4294967295]).
  - constructor.
  - repeat constructor; vm_compute; congruence.
Defined.

(** splitting a length-prefixed stream never panics and always ends, and it
    returns exactly the frames whose length-prefixed concatenation the stream
    is: it inverts the writer, and any other stream is an error. *)
Theorem split_length_prefixed_spec (bs : bytes) (Hbs : is_bytes bs) :
  exists r, split_length_prefixed bs = Val r /\
    forall frames, r = Ok frames <->
      bs = write_golden_stream frames /\ Forall (fun f => len f < 2 ^ 32) frames.
Proof.
  unfold split_length_prefixed.
  rewrite split_loop_rest by (try done; unfold len; lia).
  change (drop (Z.to_nat 0) bs) with bs.
  eexists. split; [reflexivity |]. intros frames.
  destruct (split_rest (S (length bs)) bs 0) as [fs | e] eqn:Hfs; cbn [result_bind app].
  - apply split_rest_Ok in Hfs as [-> Hall]; [| done | unfold len; lia].
    split; [by intros [= <-] |]. intros [Heq Hall'].
    set (n := S (length (write_golden_stream fs))).
    pose proof (split_rest_write n fs 0 Hall ltac:(unfold n, len; lia)) as H1.
    pose proof (split_rest_write n frames 0 Hall' ltac:(rewrite <- Heq; unfold n, len; lia)) as H2.
    rewrite <- Heq in H2. congruence.
  - split; [done |]. intros [-> Hall]. rewrite split_rest_write in Hfs; [done | done |].
    unfold len; lia.
Qed.

Lemma split_length_prefixed_spec_witness :
  exists r, split_length_prefixed (write_golden_stream [[8; 5]; []; [255]]) = Val r /\
    r = Ok [[8; 5]; []; [255]].
Proof.
  destruct (split_length_prefixed_spec (write_golden_stream [[8; 5]; []; [255]])) as (r & Hr & H).
  { vm_compute. repeat constructor; congruence. }
  exists r. split; [exact Hr |]. apply H. split; [reflexivity |]. repeat constructor.
Defined.
