(* ===== verification/Framer.v ===== *)
(** * Framer: byte stream to MFM frames

    Models [src/framer.rs]: the incremental framer that cuts complete frames
    out of the chunks read from a CoBo's TCP link, and the loop
    [while let Some(frame) = framer.next()] its caller runs after each chunk
    (the drain task of [src/receiver.rs]). *)

From S2P Require Import Prelude Bytes.

Definition PRIMARY_HEADER_SIZE : Z := 8.
Definition DEFAULT_MAX_FRAME_BYTES : Z := 64 * 1024 * 1024.

Record Framer : Type := mkFramer {
  buf : bytes;
  head : Z;
  max_frame_bytes : Z;
  reset_count : Z;
}.

Definition with_max_frame_bytes (max_frame_bytes : Z) : Framer :=
  {| buf := []; head := 0; max_frame_bytes := max_frame_bytes; reset_count := 0 |}.

Definition new : Framer := with_max_frame_bytes DEFAULT_MAX_FRAME_BYTES.

(** Drops the consumed prefix. *)
Definition compact (f : Framer) : rust Framer :=
  if head f =? 0 then Val f
  else
    let! kept :=
      if head f =? len (buf f) then Val [] else slice (buf f) (head f) (len (buf f)) in
    Val {| buf := kept; head := 0; max_frame_bytes := max_frame_bytes f;
           reset_count := reset_count f |}.

Definition push (f : Framer) (data : bytes) : rust Framer :=
  match data with
  | [] => Val f
  | _ =>
      let! f := compact f in
      Val {| buf := buf f ++ data; head := head f; max_frame_bytes := max_frame_bytes f;
             reset_count := reset_count f |}
  end.

Definition reset (f : Framer) : Framer :=
  {| buf := []; head := 0; max_frame_bytes := max_frame_bytes f; reset_count := reset_count f |}.

Definition buffered (f : Framer) : rust Z := usub (len (buf f)) (head f).

(** The total frame size an 8-byte primary header announces. *)
Definition parse_frame_size (header : bytes) : rust (option Z) :=
  let! meta_type := index header 0 in
  let little := negb (Z.land meta_type 128 =? 0) in
  let blk_log2 := Z.land meta_type 15 in
  let blk_size := Z.shiftl 1 blk_log2 in
  let! h1 := index header 1 in
  let! h2 := index header 2 in
  let! h3 := index header 3 in
  let frame_blk :=
    if little then Z.lor (Z.lor h1 (Z.shiftl h2 8)) (Z.shiftl h3 16)
    else Z.lor (Z.lor (Z.shiftl h1 16) (Z.shiftl h2 8)) h3 in
  let frame_bytes := frame_blk * blk_size in
  Val (if frame_bytes <? PRIMARY_HEADER_SIZE then None else Some frame_bytes).

Definition next (f : Framer) : rust (option bytes * Framer) :=
  let! avail := usub (len (buf f)) (head f) in
  if avail <? PRIMARY_HEADER_SIZE then Val (None, f) else
  let! header := slice (buf f) (head f) (head f + PRIMARY_HEADER_SIZE) in
  let! size := parse_frame_size header in
  let corrupt :=
    Val (None, reset {| buf := buf f; head := head f; max_frame_bytes := max_frame_bytes f;
                        reset_count := reset_count f + 1 |}) in
  match size with
  | Some frame_bytes =>
      if frame_bytes <=? max_frame_bytes f then
        if avail <? frame_bytes then Val (None, f)
        else
          let! frame := slice (buf f) (head f) (head f + frame_bytes) in
          Val (Some frame,
               {| buf := buf f; head := head f + frame_bytes;
                  max_frame_bytes := max_frame_bytes f; reset_count := reset_count f |})
      else corrupt
  | None => corrupt
  end.

(** The caller's loop: every frame [next] has, in order.  A frame is eight
    bytes at least, so the buffer's length is enough fuel. *)
Fixpoint drain_fuel (fuel : nat) (f : Framer) : rust (list bytes * Framer) :=
  match fuel with
  | O => OutOfFuel
  | S fuel =>
      let! (frame, f) := next f in
      match frame with
      | None => Val ([], f)
      | Some frame =>
          let! (frames, f) := drain_fuel fuel f in
          Val (frame :: frames, f)
      end
  end.

Definition drain (f : Framer) : rust (list bytes * Framer) := drain_fuel (S (length (buf f))) f.

(** One chunk off the socket: push it, take every complete frame. *)
Definition feed (f : Framer) (chunk : bytes) : rust (list bytes * Framer) :=
  let! f := push f chunk in drain f.

Fixpoint feed_all (f : Framer) (chunks : list bytes) : rust (list bytes * Framer) :=
  match chunks with
  | [] => Val ([], f)
  | chunk :: chunks =>
      let! (frames, f) := feed f chunk in
      let! (frames', f) := feed_all f chunks in
      Val (frames ++ frames', f)
  end.

(** ** Specification *)

(** The bytes received and not yet handed out. *)
Definition remaining (f : Framer) : bytes := drop (Z.to_nat (head f)) (buf f).

Definition framer_ok (f : Framer) : Prop := 0 <= head f <= len (buf f) /\ is_bytes (buf f).

(** A complete frame: its own header announces its own length. *)
Definition well_formed (max : Z) (frame : bytes) : Prop :=
  PRIMARY_HEADER_SIZE <= len frame <= max /\
  parse_frame_size (take 8 frame) = Val (Some (len frame)).

(** Bytes that are not a complete frame yet, and not a corrupt header either. *)
Definition incomplete (max : Z) (r : bytes) : Prop :=
  len r < PRIMARY_HEADER_SIZE \/
  exists n, parse_frame_size (take 8 r) = Val (Some n) /\ n <= max /\ len r < n.

(** A primary header that announces no acceptable size. *)
Definition corrupt_header (max : Z) (r : bytes) : Prop :=
  PRIMARY_HEADER_SIZE <= len r /\ forall n, parse_frame_size (take 8 r) = Val (Some n) -> max < n.

Lemma remaining_len f : framer_ok f -> len (remaining f) = len (buf f) - head f.
Proof. intros [? _]. unfold remaining. solve_len. Qed.

Lemma remaining_bytes f : framer_ok f -> is_bytes (remaining f).
Proof. intros [_ ?]. by apply Forall_drop. Qed.

Lemma header_at (bs : bytes) i b : bs !! i = Some b -> index bs (Z.of_nat i) = Val b.
Proof. intros. apply index_val; [lia | by rewrite Nat2Z.id]. Qed.

Lemma parse_frame_size_val header :
  is_bytes header -> 4 <= len header ->
  exists size, parse_frame_size header = Val size /\
    forall n, size = Some n -> PRIMARY_HEADER_SIZE <= n.
Proof.
  intros Hb Hlen. destruct header as [| h0 [| h1 [| h2 [| h3 rest]]]];
    try (unfold len in Hlen; cbn in Hlen; lia).
  unfold parse_frame_size. rewrite (header_at _ 0 h0), (header_at _ 1 h1), (header_at _ 2 h2),
    (header_at _ 3 h3) by done. cbn [rust_bind].
  eexists. split; [reflexivity |]. intros n. bsplit; congruence.
Qed.

(** What [next] does, said on the bytes left. *)
Definition next_spec (f : Framer) : rust (option bytes * Framer) :=
  let r := remaining f in
  if len r <? PRIMARY_HEADER_SIZE then Val (None, f) else
  let! size := parse_frame_size (take 8 r) in
  match size with
  | Some n =>
      if n <=? max_frame_bytes f then
        if len r <? n then Val (None, f)
        else Val (Some (take (Z.to_nat n) r),
                  mkFramer (buf f) (head f + n) (max_frame_bytes f) (reset_count f))
      else Val (None, mkFramer [] 0 (max_frame_bytes f) (reset_count f + 1))
  | None => Val (None, mkFramer [] 0 (max_frame_bytes f) (reset_count f + 1))
  end.

Lemma next_is_spec f : framer_ok f -> next f = next_spec f.
Proof.
  intros Hok. pose proof (remaining_len f Hok) as Hr. pose proof Hok as [Hh Hb].
  pose proof (remaining_bytes f Hok) as Hrb.
  unfold next, next_spec. rewrite usub_val by lia. cbn [rust_bind]. rewrite Hr.
  destruct (Z.ltb_spec (len (buf f) - head f) PRIMARY_HEADER_SIZE) as [? | Hlong]; [done |].
  unfold PRIMARY_HEADER_SIZE in *.
  rewrite slice_val by lia. cbn [rust_bind]. rewrite sub_drop by lia. fold (remaining f).
  change (Z.to_nat 8) with 8%nat.
  destruct (parse_frame_size_val (take 8 (remaining f))) as (size & Hsize & Hn).
  { by apply Forall_take. } { rewrite len_take. lia. }
  rewrite Hsize. cbn [rust_bind]. destruct size as [n |]; [| done].
  specialize (Hn n eq_refl). unfold PRIMARY_HEADER_SIZE in Hn.
  destruct (Z.leb_spec n (max_frame_bytes f)); [| done].
  destruct (Z.ltb_spec (len (buf f) - head f) n); [done |].
  rewrite slice_val by lia. cbn [rust_bind]. rewrite sub_drop by lia. done.
Qed.

Lemma push_spec f data :
  framer_ok f -> is_bytes data ->
  exists f', push f data = Val f' /\ framer_ok f' /\ remaining f' = remaining f ++ data /\
    max_frame_bytes f' = max_frame_bytes f /\ reset_count f' = reset_count f.
Proof.
  intros Hok Hdata. pose proof Hok as [Hh Hb]. unfold push.
  destruct data as [| d data]; [exists f; rewrite app_nil_r; done |].
  assert (Hc : exists g, compact f = Val g /\ head g = 0 /\ buf g = remaining f /\
    max_frame_bytes g = max_frame_bytes f /\ reset_count g = reset_count f).
  { unfold compact. destruct (Z.eqb_spec (head f) 0) as [H0 |].
    { exists f. unfold remaining. rewrite H0. done. }
    destruct (Z.eqb_spec (head f) (len (buf f))) as [Hall |].
    - cbn [rust_bind]. eexists. split_and!; [reflexivity | done | cbn | done | done].
      unfold remaining. rewrite drop_ge; [done |]. unfold len in Hall. lia.
    - rewrite slice_val by lia. cbn [rust_bind]. eexists.
      split_and!; [reflexivity | done | cbn | done | done].
      unfold sub, remaining. apply take_ge. rewrite length_drop. unfold len. lia. }
  destruct Hc as (g & -> & Hg0 & Hgb & Hgm & Hgr). cbn [rust_bind].
  eexists. split_and!; [reflexivity | | | done | done]; unfold framer_ok, remaining; cbn;
    rewrite ?Hg0, Hgb; fold (remaining f).
  - split; [rewrite len_app; pose proof (len_nonneg (remaining f)); pose proof (len_nonneg (d :: data)); lia |].
    apply Forall_app. split; [by apply remaining_bytes | done].
  - done.
Qed.

(** One turn of the drain loop on an arbitrary buffer. *)
Lemma next_cases f :
  framer_ok f ->
  (exists g f', next f = Val (Some g, f') /\ framer_ok f' /\ well_formed (max_frame_bytes f) g /\
     remaining f = g ++ remaining f' /\ buf f' = buf f /\
     max_frame_bytes f' = max_frame_bytes f /\ reset_count f' = reset_count f) \/
  (next f = Val (None, f) /\ incomplete (max_frame_bytes f) (remaining f)) \/
  (exists f', next f = Val (None, f') /\ framer_ok f' /\ remaining f' = [] /\
     max_frame_bytes f' = max_frame_bytes f /\ reset_count f' = reset_count f + 1 /\
     corrupt_header (max_frame_bytes f) (remaining f)).
Proof.
  intros Hok. rewrite next_is_spec by done. unfold next_spec.
  pose proof (remaining_len f Hok) as Hr. pose proof Hok as [Hh Hb].
  pose proof (remaining_bytes f Hok) as Hrb.
  assert (Hcorrupt : exists f', Val (None, mkFramer [] 0 (max_frame_bytes f) (reset_count f + 1))
    = Val (@None bytes, f') /\ framer_ok f' /\ remaining f' = [] /\
     max_frame_bytes f' = max_frame_bytes f /\ reset_count f' = reset_count f + 1).
  { eexists. split; [reflexivity |]. unfold framer_ok. cbn. split_and!; [lia | unfold len; cbn; lia | constructor | done | done | done]. }
  assert (Hr8 : PRIMARY_HEADER_SIZE <= len (remaining f) ->
    (forall n, parse_frame_size (take 8 (remaining f)) = Val (Some n) -> max_frame_bytes f < n) ->
    exists f', Val (None, mkFramer [] 0 (max_frame_bytes f) (reset_count f + 1))
    = Val (@None bytes, f') /\ framer_ok f' /\ remaining f' = [] /\
     max_frame_bytes f' = max_frame_bytes f /\ reset_count f' = reset_count f + 1 /\
     corrupt_header (max_frame_bytes f) (remaining f)).
  { intros H1 H2. destruct Hcorrupt as (f' & ? & ? & ? & ? & ?). exists f'. by split_and!. }
  destruct (Z.ltb_spec (len (remaining f)) PRIMARY_HEADER_SIZE) as [? | Hlong].
  { right; left. split; [done | by left]. }
  unfold PRIMARY_HEADER_SIZE in Hlong.
  destruct (parse_frame_size_val (take 8 (remaining f))) as (size & Hsize & Hn).
  { by apply Forall_take. } { rewrite len_take. lia. }
  rewrite Hsize. cbn [rust_bind]. destruct size as [n |].
  2: { right; right. apply Hr8; [exact Hlong | intros m; rewrite Hsize; congruence]. }
  specialize (Hn n eq_refl). unfold PRIMARY_HEADER_SIZE in Hn.
  destruct (Z.leb_spec n (max_frame_bytes f)).
  2: { right; right. apply Hr8; [exact Hlong | intros m; rewrite Hsize; congruence]. }
  destruct (Z.ltb_spec (len (remaining f)) n).
  { right; left. split; [done |]. right. eauto. }
  left. eexists _, _. split; [reflexivity |]. unfold framer_ok, well_formed. cbn.
  assert (Hlg : len (take (Z.to_nat n) (remaining f)) = n) by (rewrite len_take; lia).
  rewrite Hlg. split_and!; try done; try lia.
  - rewrite take_take. replace (8 `min` Z.to_nat n)%nat with 8%nat by lia. done.
  - unfold remaining. cbn. rewrite Z2Nat.inj_add by lia. rewrite <- drop_drop.
    by rewrite take_drop.
Qed.

(** ** The drain loop *)

(** What one run of the drain loop leaves and hands out, on any bytes. *)
Definition drained (f : Framer) (frames : list bytes) (f' : Framer) : Prop :=
  framer_ok f' /\ max_frame_bytes f' = max_frame_bytes f /\
  Forall (well_formed (max_frame_bytes f)) frames /\
  ((remaining f = concat frames ++ remaining f' /\ reset_count f' = reset_count f /\
    incomplete (max_frame_bytes f) (remaining f')) \/
   exists junk, remaining f = concat frames ++ junk /\ remaining f' = [] /\
     reset_count f' = reset_count f + 1 /\ corrupt_header (max_frame_bytes f) junk).

Lemma drain_fuel_drained fuel f :
  framer_ok f -> len (remaining f) < Z.of_nat fuel ->
  exists frames f', drain_fuel fuel f = Val (frames, f') /\ drained f frames f'.
Proof.
  revert f. induction fuel as [| fuel IH]; intros f Hok Hfuel.
  { pose proof (len_nonneg (remaining f)). lia. }
  cbn [drain_fuel].
  destruct (next_cases f Hok) as [(g & f1 & -> & Hok1 & Hg & Hr & _ & Hm & Hc) |
    [[-> Hinc] | (f1 & -> & Hok1 & Hr & Hm & Hc & Hbad)]]; cbn [rust_bind].
  - pose proof Hg as [[Hg8 _] _]. unfold PRIMARY_HEADER_SIZE in Hg8.
    destruct (IH f1 Hok1) as (frames & f2 & -> & Hok2 & Hm2 & Hall & Hend).
    { rewrite Hr, len_app in Hfuel. lia. }
    cbn [rust_bind]. rewrite Hm in *. eexists _, _. split; [reflexivity |].
    split_and!; [done | lia | by constructor |]. rewrite Hr.
    destruct Hend as [(-> & -> & ?) | (junk & -> & ? & -> & ?)]; [left | right; exists junk];
      cbn [concat]; rewrite <- app_assoc, ?Hc; by split_and!.
  - eexists _, _. split; [reflexivity |]. split_and!; try done. by left.
  - eexists _, _. split; [reflexivity |]. split_and!; try done. right.
    by exists (remaining f).
Qed.

Lemma drain_drained f :
  framer_ok f -> exists frames f', drain f = Val (frames, f') /\ drained f frames f'.
Proof.
  intros Hok. apply drain_fuel_drained; [done |].
  rewrite remaining_len by done. destruct Hok. unfold len in *. lia.
Qed.

(** A well-formed frame at the front of a stream is the stream's first frame. *)
Lemma header_prefix (r s : bytes) : PRIMARY_HEADER_SIZE <= len r -> take 8 (r ++ s) = take 8 r.
Proof. intros H. apply take_prefix. unfold PRIMARY_HEADER_SIZE, len in H. lia. Qed.

Lemma wf_header max g s : well_formed max g -> parse_frame_size (take 8 (g ++ s)) = Val (Some (len g)).
Proof. intros [[? _] ?]. by rewrite header_prefix. Qed.

Lemma concat_cons_wf max g fs (tail : bytes) :
  Forall (well_formed max) (g :: fs) ->
  parse_frame_size (take 8 (concat (g :: fs) ++ tail)) = Val (Some (len g)) /\ len g <= max.
Proof.
  intros Hall. apply Forall_cons_iff in Hall as [Hg _]. cbn [concat]. rewrite <- app_assoc.
  pose proof Hg as [[_ ?] _]. split; [by apply (wf_header max) | done].
Qed.

(** The drain loop, run on a prefix of a well-framed stream, hands out a prefix
    of its frames and keeps the rest. *)
Lemma drained_prefix max frames frames1 (tail future : bytes) f f' :
  max_frame_bytes f = max -> Forall (well_formed max) frames -> incomplete max tail ->
  remaining f ++ future = concat frames ++ tail -> drained f frames1 f' ->
  exists frames2, frames = frames1 ++ frames2 /\ reset_count f' = reset_count f /\
    remaining f' ++ future = concat frames2 ++ tail /\ incomplete max (remaining f').
Proof.
  intros <- Hall Htail Heq (_ & _ & Hall1 & Hend).
  assert (Hcut : exists r, remaining f = concat frames1 ++ r /\
    ((r = remaining f' /\ reset_count f' = reset_count f /\ incomplete (max_frame_bytes f) r) \/
     corrupt_header (max_frame_bytes f) r)).
  { destruct Hend as [(? & ? & ?) | (junk & ? & ? & ? & ?)]; eauto 10. }
  destruct Hcut as (r & Hr & Hcut). rewrite Hr in Heq. clear Hend Hr.
  revert frames Hall Heq. induction Hall1 as [| g fs1 Hg _ IH]; intros frames Hall Heq.
  - cbn [concat app] in Heq. exists frames. split; [done |].
    destruct Hcut as [(<- & -> & ?) | [Hlong Hbad]]; [done | exfalso].
    destruct frames as [| g fs].
    + cbn in Heq. subst tail. unfold incomplete in Htail. rewrite len_app in Htail.
      pose proof (len_nonneg future). rewrite header_prefix in Htail by done.
      destruct Htail as [? | (n & Hn & ? & _)]; [lia | specialize (Hbad n Hn); lia].
    + destruct (concat_cons_wf _ g fs tail Hall) as [Hp ?].
      rewrite <- Heq, header_prefix in Hp by done. specialize (Hbad _ Hp). lia.
  - cbn [concat] in Heq. rewrite <- !app_assoc in Heq.
    pose proof (wf_header _ g (concat fs1 ++ r ++ future) Hg) as Hp.
    destruct frames as [| g' fs].
    + cbn [concat app] in Heq. subst tail. exfalso.
      destruct Hg as [[Hg8 _] _]. unfold incomplete in Htail. rewrite Hp in Htail.
      rewrite !len_app in Htail. pose proof (len_nonneg (concat fs1)). pose proof (len_nonneg r).
      pose proof (len_nonneg future).
      destruct Htail as [? | (n & [= <-] & _ & ?)]; lia.
    + destruct (concat_cons_wf _ g' fs tail Hall) as [Hp' _].
      rewrite <- Heq, Hp in Hp'. injection Hp' as Hlen. cbn [concat] in Heq.
      rewrite <- !app_assoc in Heq. apply app_inj_1 in Heq as [<- Heq]; [| unfold len in Hlen; lia].
      apply Forall_cons_iff in Hall as [_ Hall].
      rewrite app_assoc in Heq.
      destruct (IH fs Hall Heq) as (fs2 & -> & H). by exists fs2.
Qed.

Lemma feed_prefix max frames (tail future chunk : bytes) f :
  framer_ok f -> is_bytes chunk -> max_frame_bytes f = max -> Forall (well_formed max) frames ->
  incomplete max tail -> remaining f ++ chunk ++ future = concat frames ++ tail ->
  exists frames1 frames2 f', feed f chunk = Val (frames1, f') /\ frames = frames1 ++ frames2 /\
    framer_ok f' /\ max_frame_bytes f' = max /\ reset_count f' = reset_count f /\
    remaining f' ++ future = concat frames2 ++ tail /\ incomplete max (remaining f').
Proof.
  intros Hok Hchunk Hmax Hall Htail Heq.
  destruct (push_spec f chunk Hok Hchunk) as (f1 & Hpush & Hok1 & Hr1 & Hm1 & Hc1).
  destruct (drain_drained f1 Hok1) as (frames1 & f' & Hdrain & Hd).
  pose proof Hd as (Hok' & Hm' & _).
  destruct (drained_prefix max frames frames1 tail future f1 f') as (frames2 & ? & ? & ? & ?);
    try done; [congruence | by rewrite Hr1, <- app_assoc |].
  exists frames1, frames2, f'. unfold feed. rewrite Hpush. cbn [rust_bind].
  split_and!; try done; congruence.
Qed.

(** The same for any number of chunks. *)
Lemma feed_all_stream max (tail : bytes) chunks : forall f frames, framer_ok f -> Forall is_bytes chunks ->
  max_frame_bytes f = max -> Forall (well_formed max) frames -> incomplete max tail ->
  remaining f ++ concat chunks = concat frames ++ tail -> incomplete max (remaining f) ->
  exists f', feed_all f chunks = Val (frames, f') /\ remaining f' = tail /\ reset_count f' = reset_count f.
Proof.
  induction chunks as [| c cs IH]; intros f frames Hok Hcs Hm Hall Htail Heq Hinc.
  - cbn [concat] in Heq. rewrite app_nil_r in Heq. exists f.
    destruct frames as [| g fs]; [done | exfalso].
    destruct (concat_cons_wf max g fs tail Hall) as [Hp Hg].
    rewrite <- Heq in Hp. apply Forall_cons_iff in Hall as [[[Hg8 _] _] _].
    cbn [concat] in Heq. apply (f_equal len) in Heq. rewrite !len_app in Heq.
    pose proof (len_nonneg (concat fs)). pose proof (len_nonneg tail).
    destruct Hinc as [? | (n & Hn & _ & ?)]; [lia |]. rewrite Hp in Hn. injection Hn as <-. lia.
  - apply Forall_cons_iff in Hcs as [Hc Hcs]. cbn [concat] in Heq.
    destruct (feed_prefix max frames tail (concat cs) c f)
      as (fs1 & fs2 & f1 & Hfeed & -> & Hok1 & Hm1 & Hr1 & Heq1 & Hinc1); try done.
    apply Forall_app in Hall as [_ Hall2].
    destruct (IH f1 fs2) as (f' & Hf' & ? & ?); try done.
    exists f'. cbn [feed_all]. rewrite Hfeed. cbn [rust_bind]. rewrite Hf'. cbn [rust_bind].
    split_and!; [done | done | congruence].
Qed.

(** ** Properties *)

(** C25: the framer is insensitive to how TCP cuts the stream: for any chunking
    of a stream that is a sequence of well-formed frames followed by an
    incomplete one, the frames handed out are exactly those frames in order,
    the incomplete tail stays buffered and no resynchronisation is counted. *)
Theorem framer_chunking (max : Z) (frames chunks : list bytes) (tail : bytes)
    (Hframes : Forall (well_formed max) frames) (Htail : incomplete max tail)
    (Hchunks : Forall is_bytes chunks) (Hstream : concat chunks = concat frames ++ tail) :
  exists f, feed_all (with_max_frame_bytes max) chunks = Val (frames, f) /\
    remaining f = tail /\ reset_count f = 0.
Proof.
  destruct (feed_all_stream max tail chunks (with_max_frame_bytes max) frames) as (f & ? & ? & ?); try done.
  - by left.
  - eauto.
Qed.

Lemma framer_chunking_witness :
  exists f, feed_all (with_max_frame_bytes 1024)
      [[64; 0; 0]; [12; 0; 0; 7; 0; 0; 15; 0; 0; 128; 9]; [0; 0; 1; 2; 3; 4; 5; 0]]
    = Val ([[64; 0; 0; 12; 0; 0; 7; 0; 0; 15; 0; 0]; [128; 9; 0; 0; 1; 2; 3; 4; 5]], f) /\
    remaining f = [0] /\ reset_count f = 0.
Proof.
  apply (framer_chunking 1024).
  - repeat constructor; vm_compute; congruence.
  - left. reflexivity.
  - repeat constructor; vm_compute; congruence.
  - reflexivity.
Defined.

(** feeding any bytes whatsoever neither panics nor loops: the framer hands
    out only contiguous frames of 8 to [max_frame_bytes] bytes whose header
    announces their length, every byte received is handed out or still
    buffered, and the only bytes ever discarded are those from a corrupt
    header on, counted once in [reset_count]. *)
Theorem feed_safe (f : Framer) (chunk : bytes) (Hf : framer_ok f) (Hchunk : is_bytes chunk) :
  exists frames f', feed f chunk = Val (frames, f') /\ framer_ok f' /\
    Forall (well_formed (max_frame_bytes f)) frames /\
    ((remaining f ++ chunk = concat frames ++ remaining f' /\ reset_count f' = reset_count f) \/
     exists junk, remaining f ++ chunk = concat frames ++ junk /\ remaining f' = [] /\
       reset_count f' = reset_count f + 1 /\ corrupt_header (max_frame_bytes f) junk).
Proof.
  destruct (push_spec f chunk Hf Hchunk) as (f1 & Hpush & Hok1 & Hr1 & Hm1 & Hc1).
  destruct (drain_drained f1 Hok1) as (frames & f' & Hdrain & Hok' & Hm' & Hall & Hend).
  exists frames, f'. unfold feed. rewrite Hpush. cbn [rust_bind].
  rewrite Hr1, Hm1, Hc1 in *. split_and!; try done.
  destruct Hend as [(? & ? & _) | (junk & ? & ? & ? & ?)]; [by left |].
  right. by exists junk.
Qed.

Lemma feed_safe_witness :
  exists frames f', feed (mkFramer [0; 0; 0] 0 1024 3) [9; 1; 2; 3; 4; 5; 0; 0; 0; 0; 0; 0; 0; 0]
    = Val (frames, f') /\ frames = [[0; 0; 0; 9; 1; 2; 3; 4; 5]] /\ reset_count f' = 4.
Proof.
  destruct (feed_safe (mkFramer [0; 0; 0] 0 1024 3) [9; 1; 2; 3; 4; 5; 0; 0; 0; 0; 0; 0; 0; 0])
    as (frames & f' & H & _).
  - split; [cbn; unfold len; cbn; lia | repeat constructor; vm_compute; congruence].
  - repeat constructor; vm_compute; congruence.
  - exists frames, f'. split; [exact H |]. vm_compute in H. injection H as <- <-. split; reflexivity.
Defined.
