(* ===== verification/Decode.v ===== *)
(** * Decode: one CoBo frame to one [Fragment]

    Models [src/decode.rs]: the byte-order aware field reader, the header
    peeks the router and the replay tool use, the topology frame, and the
    decoder proper with its two item formats (frameType 1 carries aget, channel
    and bucket in every item; frameType 2 restores channel and bucket from
    per-AGET cursors).  Every slice and index of the source is a [rust] value,
    so the absence of panics is proved, not assumed. *)

From S2P Require Import Prelude Bytes Msg.
Open Scope Z_scope.

Definition MIN_FRAME_BYTES : Z := 8.
Definition HEADER_MIN_BYTES : Z := 88.
Definition RAW_CH_PER_AGET : Z := 68.
Definition COMPACT_BUCKETS : Z := 512.
Definition MAX_AGETS : Z := 4.
Definition TOPOLOGY_FRAME_TYPE : Z := 7.
Definition TOPOLOGY_FRAME_BYTES : Z := 12.

(** [read_uint]: an unsigned integer of 1 to 8 bytes, on a [u64] accumulator. *)
Definition read_uint_step (v b : Z) : Z := Z.lor (wrap 64 (Z.shiftl v 8)) b.

Definition read_uint (bs : bytes) (little : bool) : Z :=
  if little then fold_left read_uint_step (rev bs) 0 else fold_left read_uint_step bs 0.

(** [read_uint(&frame[a..b], little)]. *)
Definition field (frame : bytes) (little : bool) (a b : Z) : rust Z :=
  let! bs := slice frame a b in Val (read_uint bs little).

(** [frame[0] & 0x80 != 0]: the byte order the frame is written in. *)
Definition is_little (meta_type : Z) : bool := negb (Z.land meta_type 128 =? 0).

Record Topology : Type := mkTopology {
  topo_cobo : Z;
  asad_mask : Z;
  two_p_mode : bool;
}.

(** [u8::count_ones]. *)
Definition count_ones (b : Z) : Z :=
  fold_left (fun n i => if Z.testbit b i then n + 1 else n) (seqZ 0 8) 0.

Definition active_asads (t : Topology) : Z := count_ones (asad_mask t).

Definition parse_topology (frame : bytes) : rust (option Topology) :=
  if len frame <? TOPOLOGY_FRAME_BYTES then Val None else
  let! meta_type := index frame 0 in
  let little := is_little meta_type in
  let! ty := field frame little 5 7 in
  if negb (wrap 16 ty =? TOPOLOGY_FRAME_TYPE) then Val None else
  let! c := index frame 8 in
  let! m := index frame 9 in
  let! p := index frame 10 in
  Val (Some {| topo_cobo := c; asad_mask := m; two_p_mode := negb (p =? 0) |}).

Definition peek_asad (frame : bytes) : rust (option Z) :=
  if len frame <? 28 then Val None else
  let! meta_type := index frame 0 in
  let little := is_little meta_type in
  let! ty := field frame little 5 7 in
  let frame_type := wrap 16 ty in
  if negb (frame_type =? 1) && negb (frame_type =? 2) then Val None else
  let! asad := index frame 27 in
  Val (Some asad).

Definition peek_event_idx (frame : bytes) : rust (option Z) :=
  if len frame <? 28 then Val None else
  let! meta_type := index frame 0 in
  let little := is_little meta_type in
  let! ty := field frame little 5 7 in
  let frame_type := wrap 16 ty in
  if negb (frame_type =? 1) && negb (frame_type =? 2) then Val None else
  let! idx := field frame little 22 26 in
  Val (Some (wrap 32 idx)).

(** ** Items *)

(** frameType 1: one 4-byte item. *)
Definition decode_item1 (little : bool) (chunk : bytes) : option bytes :=
  let w := wrap 32 (read_uint chunk little) in
  let aget := wrap 8 (Z.land (Z.shiftr w 30) 3) in
  let chan := wrap 8 (Z.land (Z.shiftr w 23) 127) in
  let bucket := wrap 16 (Z.land (Z.shiftr w 14) 511) in
  let adc := wrap 16 (Z.land w 4095) in
  match pack_item aget chan bucket adc with
  | Ok word => Some (le_bytes 4 word)
  | Err _ => None
  end.

Fixpoint decode_items1 (little : bool) (chunks : list bytes) : option bytes :=
  match chunks with
  | [] => Some []
  | chunk :: chunks =>
      match decode_item1 little chunk with
      | None => None
      | Some word =>
          match decode_items1 little chunks with
          | None => None
          | Some rest => Some (word ++ rest)
          end
      end
  end.

(** frameType 2: the cursors [chan_cur] and [buck_cur], one entry per AGET. *)
Fixpoint decode_items2 (little : bool) (chunks : list bytes) (chan_cur buck_cur : list Z)
    : rust (option bytes) :=
  match chunks with
  | [] => Val (Some [])
  | chunk :: chunks =>
      let w := wrap 16 (read_uint chunk little) in
      let aget := Z.land (Z.shiftr w 14) 3 in
      let! c := index chan_cur aget in
      let! b := index buck_cur aget in
      let '(c, b) := if RAW_CH_PER_AGET <=? c then (0, wrap 16 (b + 1)) else (c, b) in
      let chan := wrap 8 c in
      let bucket := b in
      let adc := Z.land w 4095 in
      match pack_item (wrap 8 aget) chan bucket adc with
      | Err _ => Val None
      | Ok word =>
          let! rest :=
            decode_items2 little chunks
              (<[Z.to_nat aget := c + 1]> chan_cur) (<[Z.to_nat aget := b]> buck_cur) in
          match rest with
          | None => Val None
          | Some rest => Val (Some (le_bytes 4 word ++ rest))
          end
      end
  end.

Definition decode_items (frame_type : Z) (item_bytes : bytes) (little : bool)
    : rust (option bytes) :=
  if frame_type =? 1 then Val (decode_items1 little (chunks_exact 4 item_bytes))
  else decode_items2 little (chunks_exact 2 item_bytes) [0; 0; 0; 0] [0; 0; 0; 0].

(** ** The decoder *)

Record Decoder : Type := mkDecoder {
  frames : Z;
  d_items : Z;
  malformed : Z;
  unsupported : Z;
  topology : Z;
  frames_type1 : Z;
  frames_type2 : Z;
  compact_size_mismatch : Z;
}.

Definition new : Decoder := mkDecoder 0 0 0 0 0 0 0 0.

Definition count_malformed (d : Decoder) : Decoder :=
  mkDecoder (frames d) (d_items d) (malformed d + 1) (unsupported d) (topology d)
    (frames_type1 d) (frames_type2 d) (compact_size_mismatch d).

Definition count_unsupported (d : Decoder) (frame_type : Z) : Decoder :=
  mkDecoder (frames d) (d_items d) (malformed d) (unsupported d + 1)
    (if frame_type =? TOPOLOGY_FRAME_TYPE then topology d + 1 else topology d)
    (frames_type1 d) (frames_type2 d) (compact_size_mismatch d).

(** Not a full readout of 1 to 4 AGETs. *)
Definition compact_mismatch (item_count : Z) : bool :=
  let per_aget := RAW_CH_PER_AGET * COMPACT_BUCKETS in
  (item_count =? 0) || negb (item_count mod per_aget =? 0) || (MAX_AGETS <? item_count / per_aget).

Definition count_frame (d : Decoder) (frame_type item_count : Z) (item_bytes : bytes) : Decoder :=
  let one := frame_type =? 1 in
  mkDecoder (frames d + 1) (d_items d + len item_bytes / 4) (malformed d) (unsupported d)
    (topology d)
    (if one then frames_type1 d + 1 else frames_type1 d)
    (if one then frames_type2 d else frames_type2 d + 1)
    (if one then compact_size_mismatch d
     else if compact_mismatch item_count then compact_size_mismatch d + 1
     else compact_size_mismatch d).

(** [usize::checked_mul] and [checked_add]. *)
Definition checked_usize (z : Z) : option Z := if z <? 2 ^ 64 then Some z else None.

(** Four consecutive [u16] fields from [off]. *)
Fixpoint read_u16s (frame : bytes) (little : bool) (n : nat) (off : Z) : rust (list Z) :=
  match n with
  | O => Val []
  | S n =>
      let! v := field frame little off (off + 2) in
      let! vs := read_u16s frame little n (off + 2) in
      Val (wrap 16 v :: vs)
  end.

(** The part of [decode] after the sizes are checked. *)
Definition decode_body (d : Decoder) (frame : bytes) (little : bool)
    (frame_type revision item_count item_start items_end : Z)
    : rust (option Fragment * Decoder) :=
  let! event_time := field frame little 16 22 in
  let! event_idx := field frame little 22 26 in
  let! cobo := index frame 26 in
  let! asad := index frame 27 in
  let! read_offset := field frame little 28 30 in
  let! status := index frame 30 in
  let! mult := read_u16s frame little 4 67 in
  let! window_out := field frame little 75 79 in
  let! last_cell := read_u16s frame little 4 79 in
  let! raw := slice frame item_start items_end in
  let! decoded := decode_items frame_type raw little in
  match decoded with
  | None => Val (None, count_malformed d)
  | Some item_bytes =>
      Val (Some {| event_idx := wrap 32 event_idx; event_time := event_time;
                   cobo := cobo; asad := asad; frame_type := wrap 8 frame_type;
                   revision := revision; read_offset := wrap 16 read_offset; status := status;
                   mult := mult; window_out := wrap 32 window_out; last_cell := last_cell;
                   items := item_bytes |},
           count_frame d frame_type item_count item_bytes)
  end.

Definition decode (d : Decoder) (frame : bytes) : rust (option Fragment * Decoder) :=
  if len frame <? MIN_FRAME_BYTES then Val (None, count_malformed d) else
  let! meta_type := index frame 0 in
  let little := is_little meta_type in
  let blk_size := Z.shiftl 1 (Z.land meta_type 15) in
  let! ty := field frame little 5 7 in
  let frame_type := wrap 16 ty in
  if negb (frame_type =? 1) && negb (frame_type =? 2) then
    Val (None, count_unsupported d frame_type) else
  if len frame <? HEADER_MIN_BYTES then Val (None, count_malformed d) else
  let! revision := index frame 7 in
  let! header_size_blk := field frame little 8 10 in
  let! item_size := field frame little 10 12 in
  let! item_count := field frame little 12 16 in
  let item_start := header_size_blk * blk_size in
  let expected_item_size := if frame_type =? 1 then 4 else 2 in
  match
    match checked_usize (item_count * item_size) with
    | Some l => checked_usize (item_start + l)
    | None => None
    end
  with
  | None => Val (None, count_malformed d)
  | Some items_end =>
      if negb (item_size =? expected_item_size) || (item_start <? HEADER_MIN_BYTES) ||
         (len frame <? items_end)
      then Val (None, count_malformed d)
      else decode_body d frame little frame_type revision item_count item_start items_end
  end.

(** ** Reading fields *)

Lemma read_uint_step_val v b :
  is_byte b -> 0 <= v < 2 ^ 56 -> read_uint_step v b = b + 256 * v.
Proof.
  intros Hb Hv. unfold read_uint_step, is_byte in *.
  rewrite wrap_small by (unfold in_width; rewrite Z.shiftl_mul_pow2 by lia; lia).
  rewrite lor_shiftl_add by lia. lia.
Qed.

Lemma fold_read_rev bs :
  is_bytes bs -> len bs <= 8 -> fold_left read_uint_step (rev bs) 0 = le_val bs.
Proof.
  induction 1 as [| b bs Hb Hbs IH]; intros Hlen; [done |].
  rewrite len_cons in Hlen. cbn [rev le_val]. rewrite fold_left_app, IH by lia. cbn [fold_left].
  apply read_uint_step_val; [done |]. pose proof (le_val_bound bs Hbs) as Hv.
  split; [lia |]. eapply Z.lt_le_trans; [apply Hv |].
  change (2 ^ 56) with (256 ^ 7). apply Z.pow_le_mono_r; lia.
Qed.

Lemma read_uint_val bs little :
  is_bytes bs -> len bs <= 8 -> read_uint bs little = uint_val little bs.
Proof.
  intros Hbs Hlen. unfold read_uint, uint_val, be_val. destruct little.
  - by apply fold_read_rev.
  - rewrite <- fold_read_rev; [by rewrite rev_involutive | by apply Forall_rev |].
    unfold len in *. by rewrite length_rev.
Qed.

(** The value of the field [a..b] of a frame. *)
Definition field_val (frame : bytes) (little : bool) (a b : Z) : Z :=
  uint_val little (sub frame a b).

Lemma field_ok frame little a b :
  is_bytes frame -> 0 <= a <= b -> b - a <= 8 -> b <= len frame ->
  field frame little a b = Val (field_val frame little a b).
Proof.
  intros. unfold field. rewrite slice_val by lia. cbn [rust_bind].
  rewrite read_uint_val; [done | by apply is_bytes_sub |]. rewrite len_sub; lia.
Qed.

Lemma field_val_bound frame little a b :
  is_bytes frame -> 0 <= a <= b -> b <= len frame ->
  0 <= field_val frame little a b < 256 ^ (b - a).
Proof.
  intros. unfold field_val. rewrite <- (len_sub frame a b) by lia.
  by apply uint_val_bound, is_bytes_sub.
Qed.

Definition byte_at (frame : bytes) (i : Z) : Z := default 0 (frame !! Z.to_nat i).

Lemma index_byte_at frame i : 0 <= i < len frame -> index frame i = Val (byte_at frame i).
Proof.
  intros Hi. destruct (index_in_range frame i Hi) as (b & -> & Hb). unfold byte_at. by rewrite Hb.
Qed.

Lemma byte_at_is_byte frame i : is_bytes frame -> is_byte (byte_at frame i).
Proof.
  intros Hb. unfold byte_at. destruct (frame !! Z.to_nat i) as [b |] eqn:E; cbn.
  - by eapply is_bytes_lookup.
  - unfold is_byte. lia.
Qed.

(** Rewrites the reads the context's bounds make total. *)
Ltac reads :=
  repeat first
    [ rewrite index_byte_at by lia
    | rewrite field_ok by (assumption || lia)
    | progress cbn [rust_bind] ].

Fixpoint u16s_val (frame : bytes) (little : bool) (n : nat) (off : Z) : list Z :=
  match n with
  | O => []
  | S n => field_val frame little off (off + 2) :: u16s_val frame little n (off + 2)
  end.

Lemma read_u16s_ok frame little n off :
  is_bytes frame -> 0 <= off -> off + 2 * Z.of_nat n <= len frame ->
  read_u16s frame little n off = Val (u16s_val frame little n off).
Proof.
  revert off. induction n as [| n IH]; intros off Hb Hoff Hlen; [done |]. cbn [read_u16s u16s_val].
  rewrite field_ok by (done || lia). cbn [rust_bind]. rewrite IH by (done || lia). cbn [rust_bind].
  rewrite wrap_small; [done |]. pose proof (field_val_bound frame little off (off + 2)) as Hv.
  replace (off + 2 - off) with 2 in Hv by lia. apply Hv; [done | lia | lia].
Qed.

(** ** Items *)

Lemma chunks_exact_fuel_lengths {A} fuel n (l : list A) :
  Forall (fun c => length c = n) (chunks_exact_fuel fuel n l).
Proof.
  revert l. induction fuel as [| fuel IH]; intros l; cbn [chunks_exact_fuel]; [constructor |].
  destruct (Nat.ltb_spec (length l) n); [constructor |].
  constructor; [rewrite length_take; lia | apply IH].
Qed.

Lemma chunks_exact_fuel_Forall {A} (P : A -> Prop) fuel n (l : list A) :
  Forall P l -> Forall (Forall P) (chunks_exact_fuel fuel n l).
Proof.
  revert l. induction fuel as [| fuel IH]; intros l Hl; cbn [chunks_exact_fuel]; [constructor |].
  destruct (length l <? n)%nat; [constructor |].
  constructor; [by apply Forall_take | by apply IH, Forall_drop].
Qed.

(** [chunks_exact] of a byte string: words of that many bytes. *)
Definition chunk_ok (n : Z) (c : bytes) : Prop := is_bytes c /\ len c = n.

Lemma chunks_exact_ok n (l : bytes) :
  is_bytes l -> Forall (chunk_ok (Z.of_nat n)) (chunks_exact n l).
Proof.
  intros Hl. apply Forall_and. split.
  - by apply chunks_exact_fuel_Forall.
  - eapply Forall_impl; [apply chunks_exact_fuel_lengths |].
    intros c Hc. unfold len. cbn in Hc. by rewrite Hc.
Qed.

Lemma chunk_val_bound little n c : chunk_ok n c -> 0 <= uint_val little c < 256 ^ n.
Proof. intros [Hc <-]. by apply uint_val_bound. Qed.

(** The 32-bit item word of a frameType 1 item, reserved bits cleared. *)
Definition item1_word (little : bool) (chunk : bytes) : Z :=
  item_word (unpack_item (uint_val little chunk)).

Lemma decode_item1_ok little chunk :
  chunk_ok 4 chunk -> decode_item1 little chunk = Some (le_bytes 4 (item1_word little chunk)).
Proof.
  intros Hc. pose proof (chunk_val_bound little 4 chunk Hc) as Hv. destruct Hc as [Hb Hlen].
  assert (Hw : in_width 32 (uint_val little chunk)) by exact Hv.
  pose proof (unpack_item_ok _ Hw) as Hok.
  unfold decode_item1, item1_word. rewrite read_uint_val by (done || lia).
  rewrite (wrap_small 32) by done.
  unfold unpack_item in *. unfold ITEM_AGET_SHIFT, ITEM_CHAN_SHIFT, ITEM_BUCKET_SHIFT,
    ITEM_AGET_MAX, ITEM_CHAN_MAX, ITEM_BUCKET_MAX, ITEM_ADC_MAX in *.
  pose proof Hok as (Ha & Hch & Hbk & Hadc). cbn in Ha, Hch, Hbk, Hadc.
  unfold ITEM_AGET_MAX, ITEM_CHAN_MAX, ITEM_BUCKET_MAX, ITEM_ADC_MAX in *.
  rewrite !wrap_small by (unfold in_width; lia).
  by rewrite pack_item_word.
Qed.

Lemma decode_items1_ok little chunks :
  Forall (chunk_ok 4) chunks ->
  decode_items1 little chunks = Some (items_to_bytes (map (item1_word little) chunks)).
Proof.
  induction 1 as [| c cs Hc _ IH]; [done |]. cbn [decode_items1].
  by rewrite decode_item1_ok, IH.
Qed.

(** *** Compact items: the reference readout order *)

(** AGET and ADC value of one 2-byte item. *)
Definition sample_of (little : bool) (chunk : bytes) : Z * Z :=
  let w := uint_val little chunk in (w / 2 ^ 14, w mod 2 ^ 12).

(** How many samples of an AGET a history holds. *)
Definition seen (hist : list Z) (aget : Z) : Z := Z.of_nat (count_occ Z.eq_dec hist aget).

(** The [n]-th sample of an AGET (from 0) is channel [n mod 68] of bucket
    [n / 68], however the four AGETs are interleaved. *)
Fixpoint compact_items (hist : list Z) (samples : list (Z * Z)) : list Item :=
  match samples with
  | [] => []
  | (aget, adc) :: samples =>
      let n := seen hist aget in
      mkItem aget (n mod RAW_CH_PER_AGET) (n / RAW_CH_PER_AGET) adc ::
      compact_items (aget :: hist) samples
  end.

Definition in_buckets (i : Item) : bool := item_bucket i <=? ITEM_BUCKET_MAX.

(** What the compact decoder returns: the packed reference items, or nothing
    when an AGET runs past the last bucket. *)
Definition compact_ref (little : bool) (chunks : list bytes) (hist : list Z) : option bytes :=
  let items := compact_items hist (map (sample_of little) chunks) in
  if forallb in_buckets items then Some (items_to_bytes (map item_word items)) else None.

Definition cursors_ok (hist chan_cur buck_cur : list Z) : Prop :=
  length chan_cur = 4%nat /\ length buck_cur = 4%nat /\
  forall a c b, chan_cur !! a = Some c -> buck_cur !! a = Some b ->
    0 <= c <= RAW_CH_PER_AGET /\ 0 <= b <= ITEM_BUCKET_MAX /\
    c + RAW_CH_PER_AGET * b = seen hist (Z.of_nat a).

Lemma sample_of_bound little c :
  chunk_ok 2 c -> 0 <= fst (sample_of little c) <= 3 /\ 0 <= snd (sample_of little c) <= 4095.
Proof.
  intros Hc. pose proof (chunk_val_bound little 2 c Hc). cbn [sample_of fst snd].
  split; Z.div_mod_to_equations; lia.
Qed.

Lemma seen_cons_eq hist a : seen (a :: hist) a = seen hist a + 1.
Proof. unfold seen. rewrite count_occ_cons_eq by done. lia. Qed.

Lemma seen_cons_ne hist a a' : a <> a' -> seen (a :: hist) a' = seen hist a'.
Proof. intros. unfold seen. by rewrite count_occ_cons_neq. Qed.

Lemma cursors_start : cursors_ok [] [0; 0; 0; 0] [0; 0; 0; 0].
Proof.
  split_and!; [done | done |]. intros a c b Hc Hb.
  assert (c = 0 /\ b = 0) as [-> ->].
  { do 4 (destruct a as [| a]; [cbn in *; split; congruence |]). done. }
  unfold RAW_CH_PER_AGET, ITEM_BUCKET_MAX, seen. cbn. lia.
Qed.

Lemma cursors_advance hist chan_cur buck_cur (a : nat) c b :
  cursors_ok hist chan_cur buck_cur -> (a < 4)%nat ->
  0 <= c < RAW_CH_PER_AGET -> 0 <= b <= ITEM_BUCKET_MAX ->
  c + RAW_CH_PER_AGET * b = seen hist (Z.of_nat a) ->
  cursors_ok (Z.of_nat a :: hist) (<[a := c + 1]> chan_cur) (<[a := b]> buck_cur).
Proof.
  intros (Hl1 & Hl2 & Hinv) Ha Hc Hb Hn. unfold cursors_ok. rewrite !length_insert.
  split_and!; [done | done |]. intros a' c' b' Hc' Hb'. destruct (decide (a = a')) as [<- | Hne].
  - rewrite list_lookup_insert_eq in Hc' by lia. rewrite list_lookup_insert_eq in Hb' by lia.
    injection Hc' as <-. injection Hb' as <-. rewrite seen_cons_eq. lia.
  - rewrite list_lookup_insert_ne in Hc' by done. rewrite list_lookup_insert_ne in Hb' by done.
    rewrite seen_cons_ne by lia. by apply Hinv.
Qed.

(** The wrap of the channel cursor, as division by 68. *)
Lemma cursor_position c b n :
  0 <= c <= RAW_CH_PER_AGET -> 0 <= b <= ITEM_BUCKET_MAX -> c + RAW_CH_PER_AGET * b = n ->
  (if RAW_CH_PER_AGET <=? c then (0, wrap 16 (b + 1)) else (c, b)) =
  (n mod RAW_CH_PER_AGET, n / RAW_CH_PER_AGET).
Proof.
  unfold RAW_CH_PER_AGET, ITEM_BUCKET_MAX. intros Hc Hb <-.
  destruct (Z.leb_spec 68 c); f_equal; rewrite ?wrap_small by (unfold in_width; lia);
    Z.div_mod_to_equations; lia.
Qed.

Lemma decode_items2_ref little chunks hist chan_cur buck_cur :
  Forall (chunk_ok 2) chunks -> cursors_ok hist chan_cur buck_cur ->
  decode_items2 little chunks chan_cur buck_cur = Val (compact_ref little chunks hist).
Proof.
  intros Hall. revert hist chan_cur buck_cur.
  induction Hall as [| ch cs Hch _ IH]; intros hist chan_cur buck_cur Hcur; [done |].
  pose proof (sample_of_bound little ch Hch) as [Ha Hd].
  pose proof (chunk_val_bound little 2 ch Hch) as Hv. destruct Hch as [Hb Hlen].
  unfold compact_ref. cbn [decode_items2 map].
  rewrite read_uint_val, wrap_small by (done || lia).
  set (w := uint_val little ch) in *. cbn [sample_of fst snd] in Ha, Hd. fold w in Ha, Hd.
  assert (Haget : Z.land (Z.shiftr w 14) 3 = w / 2 ^ 14).
  { transitivity ((w / 2 ^ 14) mod 2 ^ 2); [by apply (shiftr_land_field w 14 2) |].
    apply Z.mod_small. lia. }
  assert (Hadc : Z.land w 4095 = w mod 2 ^ 12) by (by apply (Z.land_ones w 12)).
  rewrite Haget, Hadc. change (sample_of little ch) with (w / 2 ^ 14, w mod 2 ^ 12).
  set (a := w / 2 ^ 14) in *. set (adc := w mod 2 ^ 12) in *.
  cbn [compact_items forallb map]. destruct Hcur as (Hl1 & Hl2 & Hinv).
  destruct (index_in_range chan_cur a) as (c & -> & Hc). { unfold len. lia. }
  destruct (index_in_range buck_cur a) as (b & -> & Hbk). { unfold len. lia. }
  cbn [rust_bind]. destruct (Hinv _ _ _ Hc Hbk) as (Hcr & Hbr & Hn).
  rewrite Z2Nat.id in Hn by lia. rewrite (cursor_position c b _ Hcr Hbr Hn).
  set (n := seen hist a) in *. set (chan := n mod RAW_CH_PER_AGET). set (bucket := n / RAW_CH_PER_AGET).
  assert (Hchan : 0 <= chan < RAW_CH_PER_AGET) by (apply Z.mod_pos_bound; done).
  unfold RAW_CH_PER_AGET in Hchan. rewrite !(wrap_small 8) by (unfold in_width; lia).
  assert (Hbucket : 0 <= bucket).
  { apply Z.div_pos; [unfold n, seen; lia | done]. }
  unfold in_buckets at 1. cbn [item_bucket].
  destruct (Z.leb_spec bucket ITEM_BUCKET_MAX) as [Hle | Hgt]; cbn [andb].
  2: { destruct (pack_item a chan bucket adc) eqn:Hp; [| done].
       apply pack_item_Ok in Hp as [(_ & _ & [_ ?] & _) _]; cbn in *; lia. }
  assert (Hok : item_ok (mkItem a chan bucket adc)).
  { unfold item_ok, ITEM_AGET_MAX, ITEM_CHAN_MAX, ITEM_ADC_MAX. cbn [item_aget item_chan item_bucket item_adc]. lia. }
  rewrite pack_item_word by done. rewrite (IH (a :: hist)).
  2: { pose proof (cursors_advance hist chan_cur buck_cur (Z.to_nat a) chan bucket) as Hadv.
       rewrite Z2Nat.id in Hadv by lia. apply Hadv; try done; [lia |].
       unfold chan, bucket. rewrite Z.add_comm. symmetry. by apply Z.div_mod. }
  cbn [rust_bind]. unfold compact_ref. by destruct (forallb _ _).
Qed.

(** The items of a frame, in either format. *)
Definition items_ref (frame_type : Z) (little : bool) (raw : bytes) : option bytes :=
  if frame_type =? 1 then
    Some (items_to_bytes (map (item1_word little) (chunks_exact 4 raw)))
  else compact_ref little (chunks_exact 2 raw) [].

Lemma decode_items_ref frame_type raw little :
  is_bytes raw -> decode_items frame_type raw little = Val (items_ref frame_type little raw).
Proof.
  intros Hraw. unfold decode_items, items_ref. destruct (frame_type =? 1).
  - rewrite decode_items1_ok; [done |]. by apply (chunks_exact_ok 4).
  - apply decode_items2_ref; [by apply (chunks_exact_ok 2) | apply cursors_start].
Qed.

(** ** The decoder as a total function *)

(** The sizes the header announces fit the frame and the item format. *)
Definition sizes_ok (frame : bytes) (frame_type item_size item_start items_end : Z) : bool :=
  (item_size =? (if frame_type =? 1 then 4 else 2)) && (HEADER_MIN_BYTES <=? item_start) &&
  (items_end <=? len frame).

Definition decode_ref (d : Decoder) (frame : bytes) : option Fragment * Decoder :=
  if len frame <? MIN_FRAME_BYTES then (None, count_malformed d) else
  let little := is_little (byte_at frame 0) in
  let f := field_val frame little in
  let ty := f 5 7 in
  if negb (ty =? 1) && negb (ty =? 2) then (None, count_unsupported d ty) else
  if len frame <? HEADER_MIN_BYTES then (None, count_malformed d) else
  let item_start := f 8 10 * 2 ^ Z.land (byte_at frame 0) 15 in
  let items_end := item_start + f 12 16 * f 10 12 in
  if sizes_ok frame ty (f 10 12) item_start items_end then
    match items_ref ty little (sub frame item_start items_end) with
    | None => (None, count_malformed d)
    | Some item_bytes =>
        (Some {| event_idx := f 22 26; event_time := f 16 22;
                 cobo := byte_at frame 26; asad := byte_at frame 27; frame_type := ty;
                 revision := byte_at frame 7; read_offset := f 28 30;
                 status := byte_at frame 30; mult := u16s_val frame little 4 67;
                 window_out := f 75 79; last_cell := u16s_val frame little 4 79;
                 items := item_bytes |},
         count_frame d ty (f 12 16) item_bytes)
    end
  else (None, count_malformed d).

Lemma land_15_bound b : is_byte b -> 0 <= Z.land b 15 <= 15.
Proof.
  intros. replace (Z.land b 15) with (b mod 2 ^ 4) by (symmetry; by apply (Z.land_ones b 4)).
  pose proof (Z.mod_pos_bound b (2 ^ 4) ltac:(lia)). lia.
Qed.

Lemma decode_body_ref d frame little ty rev n a b :
  is_bytes frame -> HEADER_MIN_BYTES <= len frame -> HEADER_MIN_BYTES <= a -> a <= b <= len frame ->
  ty = 1 \/ ty = 2 ->
  let f := field_val frame little in
  decode_body d frame little ty rev n a b =
  Val match items_ref ty little (sub frame a b) with
      | None => (None, count_malformed d)
      | Some item_bytes =>
          (Some {| event_idx := f 22 26; event_time := f 16 22;
                   cobo := byte_at frame 26; asad := byte_at frame 27; frame_type := ty;
                   revision := rev; read_offset := f 28 30;
                   status := byte_at frame 30; mult := u16s_val frame little 4 67;
                   window_out := f 75 79; last_cell := u16s_val frame little 4 79;
                   items := item_bytes |},
           count_frame d ty n item_bytes)
      end.
Proof.
  intros Hb Hlen Ha Hab Hty f. unfold HEADER_MIN_BYTES in *. unfold decode_body. reads.
  rewrite read_u16s_ok by (done || lia). reads. rewrite read_u16s_ok by (done || lia).
  cbn [rust_bind]. rewrite slice_val by lia. cbn [rust_bind].
  rewrite decode_items_ref by (by apply is_bytes_sub). cbn [rust_bind].
  destruct (items_ref _ _ _); [| done].
  assert (Hw : forall a b, 0 <= a <= b -> b <= len frame ->
    wrap (8 * (b - a)) (field_val frame little a b) = field_val frame little a b).
  { intros x y Hx Hy. apply wrap_small. unfold in_width.
    pose proof (field_val_bound frame little x y Hb Hx Hy) as Hv.
    change 256 with (2 ^ 8) in Hv. rewrite <- Z.pow_mul_r in Hv by lia. exact Hv. }
  pose proof (Hw 22 26 ltac:(lia) ltac:(lia)) as H1. pose proof (Hw 28 30 ltac:(lia) ltac:(lia)) as H2.
  pose proof (Hw 75 79 ltac:(lia) ltac:(lia)) as H3.
  change (8 * (26 - 22)) with 32 in H1. change (8 * (30 - 28)) with 16 in H2.
  change (8 * (79 - 75)) with 32 in H3. rewrite H1, H2, H3.
  rewrite (wrap_small 8 ty) by (unfold in_width; lia). done.
Qed.

Lemma frame_type_wrap frame little :
  is_bytes frame -> 7 <= len frame ->
  wrap 16 (field_val frame little 5 7) = field_val frame little 5 7.
Proof. intros Hb Hl. apply wrap_small. apply field_val_bound; (done || lia). Qed.

Lemma checked_usize_some z : z < 2 ^ 64 -> checked_usize z = Some z.
Proof. intros. unfold checked_usize. by bdecide. Qed.

(** The decoder never panics, and is the reference decoder. *)
Lemma decode_is_ref d frame : is_bytes frame -> decode d frame = Val (decode_ref d frame).
Proof.
  intros Hb. unfold decode, decode_ref. unfold MIN_FRAME_BYTES.
  destruct (Z.ltb_spec (len frame) 8); [done |]. reads.
  set (little := is_little (byte_at frame 0)).
  rewrite frame_type_wrap by (done || lia). set (ty := field_val frame little 5 7).
  destruct (negb (ty =? 1) && negb (ty =? 2)) eqn:Hty; [done |].
  assert (Hty' : ty = 1 \/ ty = 2) by lia.
  destruct (Z.ltb_spec (len frame) HEADER_MIN_BYTES) as [| Hlen]; [done |].
  unfold HEADER_MIN_BYTES in Hlen. reads. fold little.
  pose proof (land_15_bound _ (byte_at_is_byte frame 0 Hb)) as Hlog.
  rewrite Z.shiftl_mul_pow2, Z.mul_1_l by lia.
  pose proof (field_val_bound frame little 8 10 Hb ltac:(lia) ltac:(lia)) as H8.
  pose proof (field_val_bound frame little 10 12 Hb ltac:(lia) ltac:(lia)) as H10.
  pose proof (field_val_bound frame little 12 16 Hb ltac:(lia) ltac:(lia)) as H12.
  change (256 ^ (10 - 8)) with (2 ^ 16) in H8. change (256 ^ (12 - 10)) with (2 ^ 16) in H10.
  change (256 ^ (16 - 12)) with (2 ^ 32) in H12.
  set (hb := field_val frame little 8 10) in *. set (isz := field_val frame little 10 12) in *.
  set (cnt := field_val frame little 12 16) in *.
  assert (Hpow : 0 < 2 ^ Z.land (byte_at frame 0) 15 <= 2 ^ 15).
  { split; [apply Z.pow_pos_nonneg; lia | apply Z.pow_le_mono_r; lia]. }
  set (blk := 2 ^ Z.land (byte_at frame 0) 15) in *.
  assert (Hstart : 0 <= hb * blk <= 2 ^ 31) by nia.
  assert (Hitems : 0 <= cnt * isz <= 2 ^ 48) by nia.
  rewrite !checked_usize_some by lia. unfold sizes_ok, HEADER_MIN_BYTES.
  destruct (Z.eqb_spec isz (if ty =? 1 then 4 else 2)); cbn [negb orb andb]; [| done].
  destruct (Z.ltb_spec (hb * blk) 88), (Z.leb_spec 88 (hb * blk)); try lia; cbn [orb andb]; [done |].
  destruct (Z.ltb_spec (len frame) (hb * blk + cnt * isz)),
    (Z.leb_spec (hb * blk + cnt * isz) (len frame)); try lia; [done |].
  rewrite (decode_body_ref d frame little ty) by (unfold HEADER_MIN_BYTES; done || lia). done.
Qed.

(** ** The CoBo frame layout, as a writer *)

Record Header : Type := mkHeader {
  h_little : bool;
  h_blk_log2 : Z;
  h_size : bytes;
  h_source : Z;
  h_revision : Z;
  h_header_blk : Z;
  h_event_time : Z;
  h_event_idx : Z;
  h_cobo : Z;
  h_asad : Z;
  h_read_offset : Z;
  h_status : Z;
  h_hit : bytes;
  h_mult : list Z;
  h_window_out : Z;
  h_last_cell : list Z;
  h_pad : bytes;
}.

(** A frame's samples: full items (2018 format), or AGET and ADC only (2025 compact). *)
Inductive Body : Type :=
| Partial (its : list Item)
| Compact (samples : list (Z * Z)).

Definition body_type (b : Body) : Z := match b with Partial _ => 1 | Compact _ => 2 end.
Definition body_item_size (b : Body) : nat := match b with Partial _ => 4 | Compact _ => 2 end.

Definition body_words (b : Body) : list Z :=
  match b with
  | Partial its => map item_word its
  | Compact ss => map (fun s => fst s * 2 ^ 14 + snd s) ss
  end.

Definition body_items (b : Body) : list Item :=
  match b with
  | Partial its => its
  | Compact ss => compact_items [] ss
  end.

Definition encode_body (little : bool) (b : Body) : bytes :=
  concat (map (uint_bytes little (body_item_size b)) (body_words b)).

Definition u16s_bytes (little : bool) (vs : list Z) : bytes :=
  concat (map (uint_bytes little 2) vs).

(** The 88-byte-or-longer header, field by field, then the items. *)
Definition encode_frame (h : Header) (b : Body) : bytes :=
  let u := uint_bytes (h_little h) in
  [(if h_little h then 128 else 0) + h_blk_log2 h] ++ h_size h ++ [h_source h] ++
  u 2%nat (body_type b) ++ [h_revision h] ++ u 2%nat (h_header_blk h) ++
  u 2%nat (Z.of_nat (body_item_size b)) ++ u 4%nat (len (body_words b)) ++
  u 6%nat (h_event_time h) ++ u 4%nat (h_event_idx h) ++ [h_cobo h] ++ [h_asad h] ++
  u 2%nat (h_read_offset h) ++ [h_status h] ++ h_hit h ++ u16s_bytes (h_little h) (h_mult h) ++
  u 4%nat (h_window_out h) ++ u16s_bytes (h_little h) (h_last_cell h) ++ h_pad h ++
  encode_body (h_little h) b.

Definition header_ok (h : Header) : Prop :=
  0 <= h_blk_log2 h <= 15 /\ is_bytes (h_size h) /\ len (h_size h) = 3 /\ is_byte (h_source h) /\
  is_byte (h_revision h) /\ in_width 16 (h_header_blk h) /\ in_width 48 (h_event_time h) /\
  in_width 32 (h_event_idx h) /\ is_byte (h_cobo h) /\ is_byte (h_asad h) /\
  in_width 16 (h_read_offset h) /\ is_byte (h_status h) /\
  is_bytes (h_hit h) /\ len (h_hit h) = 36 /\
  Forall (in_width 16) (h_mult h) /\ length (h_mult h) = 4%nat /\ in_width 32 (h_window_out h) /\
  Forall (in_width 16) (h_last_cell h) /\ length (h_last_cell h) = 4%nat /\
  is_bytes (h_pad h) /\ 1 <= len (h_pad h) /\
  87 + len (h_pad h) = h_header_blk h * 2 ^ h_blk_log2 h.

Definition body_ok (b : Body) : Prop :=
  len (body_words b) < 2 ^ 32 /\ forallb in_buckets (body_items b) = true /\
  match b with
  | Partial its => Forall item_ok its
  | Compact ss => Forall (fun s => 0 <= fst s <= 3 /\ 0 <= snd s <= 4095) ss
  end.

(** The fragment a frame stands for. *)
Definition fragment_of (h : Header) (b : Body) : Fragment :=
  {| event_idx := h_event_idx h; event_time := h_event_time h; cobo := h_cobo h; asad := h_asad h;
     frame_type := body_type b; revision := h_revision h; read_offset := h_read_offset h;
     status := h_status h; mult := h_mult h; window_out := h_window_out h;
     last_cell := h_last_cell h; items := items_to_bytes (map item_word (body_items b)) |}.

(** *** Reading a field of a concatenation *)

Lemma sub_skip (l k : bytes) a b :
  len l <= a -> sub (l ++ k) a b = sub k (a - len l) (b - len l).
Proof.
  intros H. unfold sub. rewrite drop_app_ge by (unfold len in H; lia).
  f_equal; [lia |]. f_equal. unfold len in *. lia.
Qed.

Lemma sub_front (l k : bytes) b : b = len l -> sub (l ++ k) 0 b = l.
Proof.
  intros ->. unfold sub. change (Z.to_nat 0) with O. rewrite drop_0, Z.sub_0_r. unfold len.
  by rewrite Nat2Z.id, take_app_length.
Qed.

Lemma sub_all (l : bytes) b : b = len l -> sub l 0 b = l.
Proof. intros ->. rewrite <- (app_nil_r l) at 1. by apply sub_front. Qed.

Lemma byte_at_sub (l : bytes) i : 0 <= i < len l -> [byte_at l i] = sub l i (i + 1).
Proof.
  intros Hi. rewrite sub_drop by lia. unfold byte_at.
  destruct (lookup_lt_is_Some_2 l (Z.to_nat i)) as [x Hx]. { unfold len in Hi. lia. }
  rewrite Hx. rewrite (drop_S l x) by done. done.
Qed.

Lemma len_u16s_bytes little vs : len (u16s_bytes little vs) = 2 * len vs.
Proof.
  unfold u16s_bytes. induction vs as [| v vs IH]; [done |]. cbn [map concat].
  rewrite len_app, len_uint_bytes, len_cons, IH. lia.
Qed.

Lemma len_one (b : Z) : len [b] = 1.
Proof. done. Qed.

Lemma len_encode_body little b :
  len (encode_body little b) = Z.of_nat (body_item_size b) * len (body_words b).
Proof.
  unfold encode_body. induction (body_words b) as [| w ws IH]; [cbn; unfold len; cbn; lia |].
  cbn [map concat]. rewrite len_app, len_uint_bytes, len_cons, IH. lia.
Qed.

Lemma item1_word_encode little w :
  in_width 32 w -> uint_val little (uint_bytes little 4 w) = w.
Proof. intros. apply uint_val_uint_bytes. exact H. Qed.

Lemma chunks_of_body little (n : nat) ws :
  (0 < n)%nat -> chunks_exact n (concat (map (uint_bytes little n) ws)) = map (uint_bytes little n) ws.
Proof.
  intros Hn. apply chunks_exact_concat; [done |].
  apply Forall_forall. intros c Hc. apply list_elem_of_fmap in Hc as (w & -> & _).
  apply length_uint_bytes.
Qed.

(** Decoding the written samples gives the frame's items back, in either format. *)
Lemma items_ref_encode little b :
  body_ok b ->
  items_ref (body_type b) little (encode_body little b) =
  Some (items_to_bytes (map item_word (body_items b))).
Proof.
  intros (_ & Hbk & Hb). unfold items_ref, encode_body.
  destruct b as [its | ss]; cbn [body_type body_item_size body_words body_items Z.eqb Pos.eqb] in *;
    rewrite chunks_of_body by lia.
  - do 2 f_equal. rewrite !map_map. apply map_ext_in. intros i Hi.
    rewrite Forall_forall in Hb. apply list_elem_of_In, Hb in Hi.
    unfold item1_word. rewrite item1_word_encode by (by apply item_word_bound).
    by rewrite unpack_item_word.
  - unfold compact_ref. replace (map (sample_of little) _) with ss; [by rewrite Hbk |].
    rewrite !map_map. symmetry. rewrite <- (map_id ss) at 2. apply map_ext_in. intros [a d] Hi.
    rewrite Forall_forall in Hb. apply list_elem_of_In, Hb in Hi as [Ha Hd]. cbn [fst snd] in *.
    unfold sample_of. rewrite uint_val_uint_bytes by (change (256 ^ Z.of_nat 2) with (2 ^ 16); lia).
    f_equal; Z.div_mod_to_equations; lia.
Qed.

Lemma field_val_skip (l k : bytes) little a b :
  len l <= a -> field_val (l ++ k) little a b = field_val k little (a - len l) (b - len l).
Proof. intros. unfold field_val. by rewrite sub_skip. Qed.

Lemma field_val_front (k : bytes) little n v :
  0 <= v < 256 ^ Z.of_nat n ->
  field_val (uint_bytes little n v ++ k) little 0 (Z.of_nat n) = v.
Proof.
  intros. unfold field_val. rewrite sub_front by (by rewrite len_uint_bytes).
  by apply uint_val_uint_bytes.
Qed.

Lemma byte_at_skip (l k : bytes) i : len l <= i -> byte_at (l ++ k) i = byte_at k (i - len l).
Proof.
  intros. unfold byte_at. rewrite lookup_app_r by (unfold len in *; lia).
  do 2 f_equal. unfold len in *. lia.
Qed.

Lemma u16s_val_skip (l k : bytes) little n off :
  len l <= off -> u16s_val (l ++ k) little n off = u16s_val k little n (off - len l).
Proof.
  revert off. induction n as [| n IH]; intros off Hoff; [done |]. cbn [u16s_val].
  rewrite field_val_skip, IH by lia. do 2 f_equal; lia.
Qed.

Lemma u16s_val_front (k : bytes) little n vs :
  length vs = n -> Forall (in_width 16) vs -> u16s_val (u16s_bytes little vs ++ k) little n 0 = vs.
Proof.
  intros <- Hvs. induction Hvs as [| v vs Hv _ IH]; [done |]. cbn [length u16s_val].
  unfold u16s_bytes in *. cbn [map concat]. rewrite <- app_assoc.
  f_equal; [by apply (field_val_front _ little 2) |].
  rewrite u16s_val_skip by (rewrite len_uint_bytes; lia). rewrite len_uint_bytes. exact IH.
Qed.

Lemma len_encode_frame h b :
  header_ok h ->
  len (encode_frame h b) = h_header_blk h * 2 ^ h_blk_log2 h + len (encode_body (h_little h) b).
Proof.
  intros (? & _ & Hs & _ & _ & _ & _ & _ & _ & _ & _ & _ & _ & Hhit & _ & Hm & _ & _ & Hl & _ & _ & <-).
  unfold encode_frame. rewrite !len_app, !len_uint_bytes, !len_u16s_bytes, !len_one, Hs, Hhit.
  unfold len at 1 2. rewrite Hm, Hl. lia.
Qed.

(** Walks a frame to the field asked for, by the lengths of the fields before it. *)
Ltac at_field Hs Hhit Hm Hl :=
  unfold encode_frame;
  repeat (first [rewrite field_val_skip by (rewrite ?len_uint_bytes, ?len_u16s_bytes, ?len_one; lia)
                | rewrite byte_at_skip by (rewrite ?len_uint_bytes, ?len_u16s_bytes, ?len_one; lia)
                | rewrite u16s_val_skip by (rewrite ?len_uint_bytes, ?len_u16s_bytes, ?len_one; lia)];
          rewrite ?len_uint_bytes, ?len_u16s_bytes, ?len_one, ?Hs, ?Hhit, ?Hm, ?Hl).

Lemma encode_front h b :
  header_ok h ->
  byte_at (encode_frame h b) 0 = (if h_little h then 128 else 0) + h_blk_log2 h /\
  is_little (byte_at (encode_frame h b) 0) = h_little h /\
  Z.land (byte_at (encode_frame h b) 0) 15 = h_blk_log2 h.
Proof.
  intros (Hlog & _). unfold is_little.
  change (byte_at (encode_frame h b) 0) with ((if h_little h then 128 else 0) + h_blk_log2 h).
  split; [done |]. generalize (h_little h) as little. intros little.
  assert (Hcases : In (h_blk_log2 h) (seqZ 0 16)).
  { apply list_elem_of_In, elem_of_seqZ. lia. }
  cbn in Hcases. repeat destruct Hcases as [<- | Hcases]; try done; by destruct little.
Qed.

(** The header's fields, read back at the offsets the decoder uses. *)
Lemma encode_sizes h b :
  header_ok h -> len (body_words b) < 2 ^ 32 ->
  let f := field_val (encode_frame h b) (h_little h) in
  f 5 7 = body_type b /\ byte_at (encode_frame h b) 7 = h_revision h /\
  f 8 10 = h_header_blk h /\ f 10 12 = Z.of_nat (body_item_size b) /\
  f 12 16 = len (body_words b).
Proof.
  intros (? & _ & Hs & ? & ? & ? & _) Hn f. subst f. pose proof (len_nonneg (body_words b)).
  split_and!; at_field Hs Hs Hs Hs.
  - apply (field_val_front _ _ 2). by destruct b.
  - done.
  - by apply (field_val_front _ _ 2).
  - apply (field_val_front _ _ 2). by destruct b.
  - apply (field_val_front _ _ 4). by change (256 ^ Z.of_nat 4) with (2 ^ 32).
Qed.

Lemma encode_ids h b :
  header_ok h ->
  let f := field_val (encode_frame h b) (h_little h) in
  f 16 22 = h_event_time h /\ f 22 26 = h_event_idx h /\
  byte_at (encode_frame h b) 26 = h_cobo h /\ byte_at (encode_frame h b) 27 = h_asad h /\
  f 28 30 = h_read_offset h /\ byte_at (encode_frame h b) 30 = h_status h.
Proof.
  intros (? & _ & Hs & ? & ? & ? & ? & ? & ? & ? & ? & ? & _) f. subst f.
  split_and!; at_field Hs Hs Hs Hs; try done.
  - by apply (field_val_front _ _ 6).
  - by apply (field_val_front _ _ 4).
  - by apply (field_val_front _ _ 2).
Qed.

Lemma encode_tables h b :
  header_ok h ->
  u16s_val (encode_frame h b) (h_little h) 4 67 = h_mult h /\
  field_val (encode_frame h b) (h_little h) 75 79 = h_window_out h /\
  u16s_val (encode_frame h b) (h_little h) 4 79 = h_last_cell h.
Proof.
  intros (? & _ & Hs & _ & _ & _ & _ & _ & _ & _ & _ & _ & _ & Hhit & Hmw & Hm & Hw & Hlw & Hl & _).
  assert (Hml : len (h_mult h) = 4) by (unfold len; by rewrite Hm).
  split_and!; at_field Hs Hhit Hml Hml.
  - by apply (u16s_val_front _ _ 4).
  - by apply (field_val_front _ _ 4).
  - by apply (u16s_val_front _ _ 4).
Qed.

Lemma encode_samples h b :
  header_ok h ->
  sub (encode_frame h b) (h_header_blk h * 2 ^ h_blk_log2 h) (len (encode_frame h b)) =
  encode_body (h_little h) b.
Proof.
  intros Hh. rewrite len_encode_frame by done. destruct Hh as
    (? & _ & Hs & _ & _ & _ & _ & _ & _ & _ & _ & _ & _ & Hhit & _ & Hm & _ & _ & Hl & _ & Hp & <-).
  assert (Hml : len (h_mult h) = 4) by (unfold len; by rewrite Hm).
  assert (Hll : len (h_last_cell h) = 4) by (unfold len; by rewrite Hl).
  unfold encode_frame.
  repeat (rewrite sub_skip by (rewrite ?len_uint_bytes, ?len_u16s_bytes, ?len_one; lia);
          rewrite ?len_uint_bytes, ?len_u16s_bytes, ?len_one, ?Hs, ?Hhit, ?Hml, ?Hll).
  match goal with |- sub _ ?a ?b = _ => replace a with 0 by lia; apply sub_all; lia end.
Qed.

Lemma concat_words_bytes little n ws : is_bytes (concat (map (uint_bytes little n) ws)).
Proof.
  induction ws as [| w ws IH]; cbn; [constructor |].
  apply Forall_app. split; [apply uint_bytes_are_bytes | done].
Qed.

Lemma encode_frame_bytes h b : header_ok h -> is_bytes (encode_frame h b).
Proof.
  intros (? & ? & ? & ? & ? & ? & ? & ? & ? & ? & ? & ? & ? & ? & ? & ? & ? & ? & ? & ? & ? & ?).
  assert (Hfront : is_byte ((if h_little h then 128 else 0) + h_blk_log2 h)).
  { unfold is_byte. destruct (h_little h); lia. }
  unfold encode_frame, u16s_bytes, encode_body.
  repeat (apply Forall_app; split); auto using uint_bytes_are_bytes, concat_words_bytes.
Qed.

(** The decoder's counters are sums: what each call adds, whatever the frame. *)
Definition counted (d : Decoder) : Z := frames d + malformed d + unsupported d.

(** What one call adds to the counters, and the size of what it returns. *)
Lemma decode_ref_accounting d frame :
  let '(out, d') := decode_ref d frame in
  counted d' = counted d + 1 /\
  match out with
  | Some frag =>
      frames d' = frames d + 1 /\ malformed d' = malformed d /\ unsupported d' = unsupported d /\
      len (items frag) = 4 * (d_items d' - d_items d)
  | None => frames d' = frames d /\ d_items d' = d_items d /\ malformed d <= malformed d' /\
            unsupported d <= unsupported d'
  end /\
  frames d' - frames_type1 d' - frames_type2 d' = frames d - frames_type1 d - frames_type2 d /\
  0 <= topology d' - topology d <= unsupported d' - unsupported d.
Proof.
  unfold decode_ref. destruct (len frame <? MIN_FRAME_BYTES); [unfold counted; cbn; lia |]. cbv zeta.
  set (little := is_little _). set (ty := field_val frame little 5 7).
  destruct (negb (ty =? 1) && negb (ty =? 2)).
  { unfold counted. cbn. destruct (ty =? TOPOLOGY_FRAME_TYPE); lia. }
  destruct (len frame <? HEADER_MIN_BYTES); [unfold counted; cbn; lia |].
  destruct (sizes_ok _ _ _ _ _); [| unfold counted; cbn; lia].
  destruct (items_ref _ _ _) as [its |] eqn:Hits; [| unfold counted; cbn; lia].
  assert (Hwords : exists ws, its = items_to_bytes ws).
  { unfold items_ref, compact_ref in Hits. destruct (ty =? 1); [by eexists; injection Hits as <- |].
    destruct (forallb _ _); [by eexists; injection Hits as <- | done]. }
  destruct Hwords as [ws ->]. unfold counted. cbn. rewrite len_items_to_bytes.
  rewrite (Z.mul_comm 4), Z.div_mul by lia. destruct (ty =? 1); lia.
Qed.

(** The fragment a frame decodes to, whatever the counters. *)
Definition frag_of (frame : bytes) : option Fragment := fst (decode_ref new frame).

Lemma decode_ref_frag d frame : fst (decode_ref d frame) = frag_of frame.
Proof.
  unfold frag_of, decode_ref. destruct (len frame <? MIN_FRAME_BYTES); [done |]. cbv zeta.
  destruct (negb _ && negb _); [done |]. destruct (len frame <? HEADER_MIN_BYTES); [done |].
  destruct (sizes_ok _ _ _ _ _); [| done]. by destruct (items_ref _ _ _).
Qed.

Lemma parse_topology_val frame :
  is_bytes frame -> exists t, parse_topology frame = Val t /\
    (forall x, t = Some x -> forall d, topology (snd (decode_ref d frame)) = topology d + 1).
Proof.
  intros Hb. unfold parse_topology, decode_ref, MIN_FRAME_BYTES, TOPOLOGY_FRAME_BYTES.
  destruct (Z.ltb_spec (len frame) 12); [by exists None |]. bdecide. reads.
  rewrite frame_type_wrap by (done || lia). cbv zeta.
  set (ty := field_val frame _ 5 7). unfold TOPOLOGY_FRAME_TYPE.
  destruct (Z.eqb_spec ty 7) as [Hty |]; cbn [negb]; [| by exists None].
  eexists. split; [done |]. intros x _ d. rewrite Hty. cbn. done.
Qed.

Lemma peek_asad_val frame :
  is_bytes frame -> exists a, peek_asad frame = Val a /\ forall x, a = Some x -> is_byte x.
Proof.
  intros Hb. unfold peek_asad. destruct (Z.ltb_spec (len frame) 28); [by exists None |]. reads.
  destruct (negb _ && negb _); [by exists None |].
  eexists. split; [done |]. intros x [= <-]. by apply byte_at_is_byte.
Qed.

(** ** Properties *)

(** decoding any byte string whatsoever never panics, and counts it exactly
    once: a fragment comes out exactly when [frames] grows, otherwise exactly
    one of [malformed] and [unsupported] does; the two frame types add up to
    [frames], topology frames stay within [unsupported], and [items] grows by
    the number of item words of the fragment. *)
Theorem decode_accounting (d : Decoder) (frame : bytes) (Hframe : is_bytes frame) :
  exists out d', decode d frame = Val (out, d') /\
    counted d' = counted d + 1 /\
    match out with
    | Some frag =>
        frames d' = frames d + 1 /\ malformed d' = malformed d /\ unsupported d' = unsupported d /\
        len (items frag) = 4 * (d_items d' - d_items d)
    | None => frames d' = frames d /\ d_items d' = d_items d /\ malformed d <= malformed d' /\
              unsupported d <= unsupported d'
    end /\
    frames d' - frames_type1 d' - frames_type2 d' = frames d - frames_type1 d - frames_type2 d /\
    0 <= topology d' - topology d <= unsupported d' - unsupported d.
Proof.
  rewrite decode_is_ref by done. pose proof (decode_ref_accounting d frame) as H.
  destruct (decode_ref d frame) as [out d']. by exists out, d'.
Qed.

(** C24: the header layout round trip: a frame written with a full 88-byte-or-longer
    header, in either byte order, with any block size and either item format
    decodes to exactly the fragment it was written from, item words included,
    provided no AGET runs past the last bucket. *)
Theorem decode_encode (d : Decoder) (h : Header) (b : Body) (Hh : header_ok h) (Hb : body_ok b) :
  decode d (encode_frame h b) =
  Val (Some (fragment_of h b),
       count_frame d (body_type b) (len (body_words b)) (items (fragment_of h b))).
Proof.
  rewrite decode_is_ref by (by apply encode_frame_bytes). f_equal.
  destruct (encode_front h b Hh) as (_ & Hlit & Hblk).
  destruct (encode_sizes h b Hh ltac:(apply Hb)) as (Hty & Hrev & Hhb & Hisz & Hcnt).
  destruct (encode_ids h b Hh) as (Htime & Hidx & Hcobo & Hasad & Hoff & Hstat).
  destruct (encode_tables h b Hh) as (Hmult & Hwin & Hlast).
  pose proof (encode_samples h b Hh) as Hsub. pose proof (len_encode_frame h b Hh) as Hlen.
  assert (Hstart : 88 <= h_header_blk h * 2 ^ h_blk_log2 h) by (unfold header_ok in Hh; lia).
  pose proof (len_nonneg (encode_body (h_little h) b)) as Hpos.
  unfold decode_ref, MIN_FRAME_BYTES, HEADER_MIN_BYTES. cbv zeta. bdecide.
  rewrite Hlit, Hblk, Hty, Hrev, Hhb, Hisz, Hcnt, Htime, Hidx, Hcobo, Hasad, Hoff, Hstat,
    Hmult, Hwin, Hlast.
  replace (negb (body_type b =? 1) && negb (body_type b =? 2)) with false by (by destruct b).
  rewrite (Z.mul_comm (len (body_words b))), <- len_encode_body with (little := h_little h), <- Hlen.
  unfold sizes_ok, HEADER_MIN_BYTES. bdecide.
  replace (_ =? _) with true by (by destruct b). cbn [andb].
  rewrite Hsub, items_ref_encode by done. done.
Qed.

(** A 2018 frame with one item and a 2025 compact frame, of the smallest header. *)
Definition sample_header (little : bool) : Header :=
  {| h_little := little; h_blk_log2 := 3; h_size := [0; 0; 12]; h_source := 0; h_revision := 5;
     h_header_blk := 11; h_event_time := 1000000007; h_event_idx := 42; h_cobo := 1; h_asad := 2;
     h_read_offset := 3; h_status := 4; h_hit := repeat 255 36; h_mult := [1; 2; 3; 4];
     h_window_out := 77; h_last_cell := [5; 6; 7; 500]; h_pad := [0] |}.

Lemma sample_header_ok little : header_ok (sample_header little).
Proof.
  unfold header_ok, in_width. cbn -[Z.pow].
  split_and!; try lia; try done; try (unfold is_byte; lia);
    repeat constructor; unfold is_byte, in_width; lia.
Qed.

Lemma decode_accounting_witness :
  exists d', decode new [1; 0; 0; 2; 0; 0; 7; 0; 0; 0; 0; 0] = Val (None, d') /\
    counted d' = 1 /\ topology d' = 1.
Proof.
  destruct (decode_accounting new [1; 0; 0; 2; 0; 0; 7; 0; 0; 0; 0; 0]) as (out & d' & H & Hc & _).
  - repeat constructor; vm_compute; congruence.
  - exists d'. vm_compute in H. injection H as <- <-.
    split_and!; [reflexivity | exact Hc | reflexivity].
Defined.

Lemma decode_encode_witness :
  exists frag, decode new (encode_frame (sample_header false) (Compact [(0, 100); (3, 200); (0, 300)])) =
    Val (Some frag, mkDecoder 1 3 0 0 0 0 1 1) /\
  items frag = items_to_bytes (map item_word [mkItem 0 0 0 100; mkItem 3 0 0 200; mkItem 0 1 0 300]).
Proof.
  eexists. split.
  - rewrite (decode_encode new (sample_header false) (Compact [(0, 100); (3, 200); (0, 300)])).
    + reflexivity.
    + apply sample_header_ok.
    + split_and!; [reflexivity | reflexivity |]. repeat constructor; cbn; lia.
  - reflexivity.
Defined.

(** the compact format's cursors implement the readout order: whatever the
    bytes and however the four AGETs are interleaved, the [n]-th sample of an
    AGET (from 0) becomes channel [n mod 68] of bucket [n / 68], and the frame
    is refused as a whole exactly when some AGET runs past bucket 511. *)
Theorem compact_readout_order (raw : bytes) (little : bool) (Hraw : is_bytes raw) :
  let its := compact_items [] (map (sample_of little) (chunks_exact 2 raw)) in
  decode_items 2 raw little =
  Val (if forallb in_buckets its then Some (items_to_bytes (map item_word its)) else None).
Proof. by apply decode_items_ref. Qed.

Lemma compact_readout_order_witness :
  decode_items 2 [0; 9; 64; 8; 0; 7] false =
  Val (Some (items_to_bytes (map item_word [mkItem 0 0 0 9; mkItem 1 0 0 8; mkItem 0 1 0 7]))).
Proof.
  rewrite (compact_readout_order [0; 9; 64; 8; 0; 7] false).
  - reflexivity.
  - repeat constructor; vm_compute; congruence.
Defined.

(** the header peeks of the router and of the replay tool never panic and
    agree with the decoder: on a frame that decodes, they return the fragment's
    AsAd and event index; and a frame that parses as a topology frame is one
    the decoder counts as topology. *)
Theorem peeks_agree (d : Decoder) (frame : bytes) (Hframe : is_bytes frame) :
  exists asad_opt idx_opt topo_opt,
    peek_asad frame = Val asad_opt /\ peek_event_idx frame = Val idx_opt /\
    parse_topology frame = Val topo_opt /\
    (forall frag d', decode d frame = Val (Some frag, d') ->
       asad_opt = Some (asad frag) /\ idx_opt = Some (event_idx frag) /\ topo_opt = None) /\
    (forall t, topo_opt = Some t ->
       decode d frame = Val (None, count_unsupported d TOPOLOGY_FRAME_TYPE) /\
       asad_opt = None /\ idx_opt = None).
Proof.
  rewrite decode_is_ref by done. unfold peek_asad, peek_event_idx, parse_topology, decode_ref.
  unfold MIN_FRAME_BYTES, HEADER_MIN_BYTES, TOPOLOGY_FRAME_BYTES, TOPOLOGY_FRAME_TYPE.
  destruct (Z.ltb_spec (len frame) 12).
  { bdecide. eexists _, _, _. split_and!; try reflexivity; [| done]. intros frag d'.
    destruct (len frame <? 8); [done |]. cbv zeta.
    destruct (negb _ && negb _); [done |]. by bdecide. }
  reads. rewrite frame_type_wrap by (done || lia). bdecide. cbv zeta.
  set (little := is_little _). set (ty := field_val frame little 5 7).
  destruct (Z.eqb_spec ty 7) as [Hty | Hty]; cbn [negb].
  - rewrite Hty, (index_byte_at frame 8), (index_byte_at frame 9), (index_byte_at frame 10) by lia.
    replace (negb (7 =? 1) && negb (7 =? 2)) with true by done.
    destruct (len frame <? 28); eexists _, _, _; split_and!; try reflexivity; try done;
      intros t _; by split_and!.
  - destruct (Z.ltb_spec (len frame) 28).
    { eexists _, _, _. split_and!; try reflexivity; [| done]. intros frag d'.
      destruct (negb (ty =? 1) && negb (ty =? 2)); [done |]. by bdecide. }
    reads.
    destruct (negb (ty =? 1) && negb (ty =? 2)).
    { eexists _, _, _. split_and!; try reflexivity; done. }
    eexists _, _, _. split_and!; try reflexivity; [| done]. intros frag d'.
    destruct (len frame <? 88); [done |]. destruct (sizes_ok _ _ _ _ _); [| done].
    destruct (items_ref _ _ _); [| done]. intros [= <- <-]. cbn.
    split_and!; [done | | done]. f_equal. apply wrap_small.
    apply (field_val_bound frame little 22 26); (done || lia).
Qed.

Lemma peeks_agree_witness :
  peek_asad (encode_frame (sample_header true) (Partial [mkItem 1 2 3 4])) = Val (Some 2) /\
  peek_event_idx (encode_frame (sample_header true) (Partial [mkItem 1 2 3 4])) = Val (Some 42).
Proof.
  destruct (peeks_agree new (encode_frame (sample_header true) (Partial [mkItem 1 2 3 4])))
    as (a & i & t & Ha & Hi & _ & Hd & _).
  - apply encode_frame_bytes, sample_header_ok.
  - edestruct Hd as (Ea & Ei & _); [vm_compute; reflexivity |].
    split; [rewrite Ha, Ea; reflexivity | rewrite Hi, Ei; reflexivity].
Defined.
