(* ===== verification/Command.v ===== *)
(** * Command: the component state machine and the REP command task

    Models [src/command.rs].  The table of legal transitions, the commands and
    responses, the reply loop [run_command_task] with its rebinding rules, and
    the REQ client.  The handler body [handle] is the same code in receiver,
    decoder and graw-writer, so it is modelled once over the class [Handler]
    each of them instantiates; the class [HandlerLaws] is what a component
    promises and what the generic lemmas need. *)

From stdpp Require Import relations pretty strings.
From S2P Require Import Prelude Bytes Float.
Open Scope Z_scope.

(** ** The state machine *)

Inductive ComponentState : Type := Idle | Configured | Armed | Running | Error.

#[export] Instance ComponentState_eq_dec : EqDecision ComponentState.
Proof. solve_decision. Defined.

Definition can_transition_to (s target : ComponentState) : bool :=
  match s, target with
  | Idle, Configured | Configured, Armed | Armed, Running | Running, Configured
  | Configured, Idle | Armed, Idle | Running, Idle | Error, Idle
  | Configured, Error | Armed, Error | Running, Error => true
  | _, _ => false
  end.

Definition state_name (s : ComponentState) : string :=
  match s with
  | Idle => "Idle"
  | Configured => "Configured"
  | Armed => "Armed"
  | Running => "Running"
  | Error => "Error"
  end.

(** ** JSON values, commands, responses *)

(** The [serde_json::Value]s the components build and carry: a [Number] is an
    integer or a finite [f64]; an object's fields are listed as the code writes
    them, though [serde_json] keeps them by key. *)
Inductive Json : Type :=
| JNull
| JBool (b : bool)
| JNum (n : Z)
| JFloat (x : f64)
| JStr (s : string)
| JArr (l : list Json)
| JObj (fields : list (string * Json)).

Fixpoint json_eqb (a b : Json) {struct a} : bool :=
  match a, b with
  | JNull, JNull => true
  | JBool x, JBool y => Bool.eqb x y
  | JNum x, JNum y => (x =? y)%Z
  | JFloat x, JFloat y => bool_decide (x = y)
  | JStr x, JStr y => bool_decide (x = y)
  | JArr l, JArr l' =>
      (fix go l l' := match l, l' with [], [] => true | x :: l, y :: l' => json_eqb x y && go l l' | _, _ => false end) l l'
  | JObj l, JObj l' =>
      (fix go l l' := match l, l' with
         [], [] => true
       | (k, x) :: l, (k', y) :: l' => bool_decide (k = k') && json_eqb x y && go l l' | _, _ => false end) l l'
  | _, _ => false
  end.
Fixpoint fields_set (k : string) (v : Json) (fs : list (string * Json)) : list (string * Json) :=
  match fs with
  | [] => [(k, v)]
  | (k', v') :: fs => if decide (k = k') then (k, v) :: fs else (k', v') :: fields_set k v fs
  end.

Lemma json_eqb_eq : forall a b, json_eqb a b = true <-> a = b.
Proof.
  fix json_eqb_eq 1. intros a.
  destruct a as [| x | x | x | x | l | l]; intros [| y | y | y | y | l' | l']; cbn [json_eqb]; try done.
  - rewrite Bool.eqb_true_iff. split; [by intros -> | by intros [= ->]].
  - rewrite Z.eqb_eq. split; [by intros -> | by intros [= ->]].
  - rewrite bool_decide_eq_true. split; [by intros -> | by intros [= ->]].
  - rewrite bool_decide_eq_true. split; [by intros -> | by intros [= ->]].
  - transitivity (l = l'); [| split; [by intros -> | by intros [= ->]]].
    revert l'. induction l as [| x l IH]; intros [| y l']; try done. rewrite andb_true_iff, IH, json_eqb_eq.
    split; [by intros [-> ->] | by intros [= -> ->]].
  - transitivity (l = l'); [| split; [by intros -> | by intros [= ->]]].
    revert l'. induction l as [| [k x] l IH]; intros [| [k' y] l']; try done.
    rewrite !andb_true_iff, IH, json_eqb_eq, bool_decide_eq_true.
    split; [by intros [[-> ->] ->] | by intros [= -> -> ->]].
Qed.

#[export] Instance Json_eq_dec : EqDecision Json.
Proof. intros a b. destruct (json_eqb a b) eqn:E; [left; by apply json_eqb_eq | right; intros H; apply json_eqb_eq in H; congruence]. Defined.

(** [Value::from] of an [f64]: JSON has no number for what is not finite. *)
Definition json_f64 (x : f64) : Json := if is_finite x then JFloat x else JNull.

(** [Value::as_f64]. *)
Definition as_f64 (v : Json) : option f64 :=
  match v with
  | JNum n => Some (f64_of_Z n)
  | JFloat x => Some x
  | _ => None
  end.

(** [value[key] = v] on an object. *)
Definition json_set (j : Json) (k : string) (v : Json) : Json :=
  match j with
  | JObj fs => JObj (fields_set k v fs)
  | j => j
  end.

Fixpoint fields_get (k : string) (fs : list (string * Json)) : option Json :=
  match fs with
  | [] => None
  | (k', v) :: fs => if decide (k = k') then Some v else fields_get k fs
  end.

Record RunConfig : Type := mkRunConfig {
  cfg_run_number : Z;
  comment : string;
  config : Json;
}.

Inductive Command : Type :=
| Configure (cfg : RunConfig)
| Arm
| Start (run_number : Z)
| Stop
| Reset
| GetStatus.

Definition target_state (c : Command) : option ComponentState :=
  match c with
  | Configure _ => Some Configured
  | Arm => Some Armed
  | Start _ => Some Running
  | Stop => Some Configured
  | Reset => Some Idle
  | GetStatus => None
  end.

Definition command_name (c : Command) : string :=
  match c with
  | Configure cfg => "Configure(run=" +:+ pretty (cfg_run_number cfg) +:+ ")"
  | Arm => "Arm"
  | Start run_number => "Start(run=" +:+ pretty run_number +:+ ")"
  | Stop => "Stop"
  | Reset => "Reset"
  | GetStatus => "GetStatus"
  end.

Record CommandResponse : Type := mkResponse {
  success : bool;
  state : ComponentState;
  message : string;
  run_number : option Z;
  metrics : option Json;
}.

Definition response_success (s : ComponentState) (m : string) : CommandResponse :=
  mkResponse true s m None None.
Definition response_error (s : ComponentState) (m : string) : CommandResponse :=
  mkResponse false s m None None.
Definition with_run_number (r : CommandResponse) (n : Z) : CommandResponse :=
  mkResponse (success r) (state r) (message r) (Some n) (metrics r).
Definition with_metrics (r : CommandResponse) (m : Json) : CommandResponse :=
  mkResponse (success r) (state r) (message r) (run_number r) (Some m).

(** ** The handler body the components share *)

(** A component's handler: its state field, its error latch, its [do_*]
    operations (the match on the command; [Env] is what the sockets, the
    threads and the disk answer) and how it writes a response. *)
Class Handler (H Env : Type) := {
  h_state : H -> ComponentState;
  h_set_state : ComponentState -> H -> H;
  latch_error : H -> H;
  dispatch : Env -> Command -> H -> result unit string * H;
  respond : H -> bool -> string -> CommandResponse;
}.

Section handle.
Context {H Env : Type} `{Handler H Env}.

Definition handle (env : Env) (cmd : Command) (h : H) : CommandResponse * H :=
  let h := latch_error h in
  match target_state cmd with
  | None => (respond h true "status", h)
  | Some target =>
      if negb (can_transition_to (h_state h) target) then
        (respond h false ("illegal transition " +:+ state_name (h_state h) +:+ " -> " +:+
                          state_name target), h)
      else
        let '(outcome, h) := dispatch env cmd h in
        match outcome with
        | Ok _ =>
            let h := h_set_state target h in
            (respond h true (command_name cmd +:+ " ok"), h)
        | Err m => (respond h false m, h)
        end
  end.

(** A component's life: one answer of the environment per command. *)
Fixpoint handle_all (cmds : list (Env * Command)) (h : H) : list CommandResponse * H :=
  match cmds with
  | [] => ([], h)
  | (env, cmd) :: cmds =>
      let '(r, h) := handle env cmd h in
      let '(rs, h) := handle_all cmds h in
      (r :: rs, h)
  end.
End handle.

(** What each component promises about the parts it supplies. *)
Class HandlerLaws (H Env : Type) `{Handler H Env} : Prop := {
  law_set_state : forall s h, h_state (h_set_state s h) = s;
  law_latch : forall h, h_state (latch_error h) = h_state h \/
    h_state (latch_error h) = Error /\ can_transition_to (h_state h) Error = true;
  law_dispatch : forall env cmd h, h_state (snd (dispatch env cmd h)) = h_state h;
  law_respond : forall h ok m,
    success (respond h ok m) = ok /\ state (respond h ok m) = h_state h /\
    message (respond h ok m) = m;
}.

(** One edge of the table. *)
Definition legal (s t : ComponentState) : Prop := can_transition_to s t = true.

(** ** The REP task *)

Section command_task.
Context {H Env : Type} `{Handler H Env}.
Variable from_json : bytes -> result Command string.
Variable to_json : CommandResponse -> result bytes string.

(** What the task's [select!] and socket calls see, one event per turn. *)
Inductive TaskEvent : Type :=
| Shutdown
| BindFailed
| BindOk
| RecvFailed
| Request (multipart : list bytes) (env : Env) (send_ok : bool).

Inductive Phase : Type := Unbound | Listening | Stopped.

Record Task : Type := mkTask {
  phase : Phase;
  last_state : ComponentState;
  handler : H;
}.

Definition task_start (h : H) : Task := mkTask Unbound Idle h.

(** The reply to one request, and the handler after it. *)
Definition reply_to (t : Task) (multipart : list bytes) (env : Env) : CommandResponse * H :=
  match multipart with
  | frame :: _ =>
      match from_json frame with
      | Ok cmd => handle env cmd (handler t)
      | Err e => (response_error (last_state t) ("invalid command: " +:+ e), handler t)
      end
  | [] => (response_error (last_state t) "empty command message", handler t)
  end.

Definition task_step (t : Task) (ev : TaskEvent) : Task * list bytes :=
  match phase t, ev with
  | Stopped, _ => (t, [])
  | _, Shutdown => (mkTask Stopped (last_state t) (handler t), [])
  | Unbound, BindOk => (mkTask Listening (last_state t) (handler t), [])
  | Unbound, _ => (t, [])
  | Listening, RecvFailed => (mkTask Unbound (last_state t) (handler t), [])
  | Listening, Request multipart env send_ok =>
      let '(response, h) := reply_to t multipart env in
      match to_json response with
      | Err _ => (mkTask Unbound (state response) h, [])
      | Ok reply =>
          if send_ok then (mkTask Listening (state response) h, [reply])
          else (mkTask Unbound (state response) h, [])
      end
  | Listening, _ => (t, [])
  end.

Fixpoint run_command_task (t : Task) (evs : list TaskEvent) : Task * list bytes :=
  match evs with
  | [] => (t, [])
  | ev :: evs =>
      let '(t, out) := task_step t ev in
      let '(t, outs) := run_command_task t evs in
      (t, out ++ outs)
  end.
End command_task.
Arguments TaskEvent : clear implicits.
Arguments Task : clear implicits.

(** ** The REQ client *)

Inductive ClientError : Type :=
| ESocket (endpoint source : string)
| EEncode (source : string)
| ESend (endpoint source : string)
| ERecv (endpoint : string) (timeout_ms : Z) (source : string)
| EDecode (endpoint source : string).

(** The answers of the REQ socket's calls, in order. *)
Record ReqSocket : Type := mkReqSocket {
  sk_socket : result unit string;
  sk_rcvtimeo : Z -> result unit string;
  sk_sndtimeo : Z -> result unit string;
  sk_linger : Z -> result unit string;
  sk_connect : string -> result unit string;
  sk_send : bytes -> result unit string;
  sk_recv : result bytes string;
}.

Definition map_err {A E F : Type} (f : E -> F) (r : result A E) : result A F :=
  match r with
  | Ok a => Ok a
  | Err e => Err (f e)
  end.

Definition request (to_json : Command -> result bytes string)
    (from_json : bytes -> result CommandResponse string) (sk : ReqSocket)
    (endpoint : string) (command : Command) (timeout_millis : Z)
    : result CommandResponse ClientError :=
  let timeout_ms := if timeout_millis <? 2 ^ 31 then timeout_millis else 2 ^ 31 - 1 in
  let? _ := map_err (ESocket endpoint) (sk_socket sk) in
  let? _ := map_err (ESocket endpoint) (sk_rcvtimeo sk timeout_ms) in
  let? _ := map_err (ESocket endpoint) (sk_sndtimeo sk timeout_ms) in
  let? _ := map_err (ESocket endpoint) (sk_linger sk 0) in
  let? _ := map_err (ESocket endpoint) (sk_connect sk endpoint) in
  let? payload := map_err EEncode (to_json command) in
  let? _ := map_err (ESend endpoint) (sk_send sk payload) in
  let? reply := map_err (ERecv endpoint timeout_ms) (sk_recv sk) in
  map_err (EDecode endpoint) (from_json reply).

(** [Stop] has the target of [Configure]: it is legal in [Idle] too, not only in
    [Running], and is refused in [Configured] and [Armed]. *)
Lemma stop_is_legal_in_idle :
  exists target, target_state Stop = Some target /\
    can_transition_to Idle target = true /\ can_transition_to Running target = true /\
    can_transition_to Configured target = false /\ can_transition_to Armed target = false.
Proof. by exists Configured. Qed.

(** ** Lemmas about every handler *)

Section handler_laws.
Context {H Env : Type} `{HH : Handler H Env} {HL : HandlerLaws H Env}.

Lemma latch_path (h : H) : rtc legal (h_state h) (h_state (latch_error h)).
Proof. destruct (law_latch h) as [-> | [-> ?]]; [done | by apply rtc_once]. Qed.

(** Every reply tells the state the handler is in, and the state moves along
    legal edges only: the latch's, then the command's. *)
Lemma handle_path env cmd (h : H) :
  let '(r, h') := handle env cmd h in
  rtc legal (h_state h) (h_state h') /\ state r = h_state h'.
Proof.
  unfold handle. pose proof (latch_path h) as Hl.
  destruct (target_state cmd) as [t |]; [| by split; [| apply law_respond]].
  destruct (negb _) eqn:Hleg; [by split; [| apply law_respond] |]. apply negb_false_iff in Hleg.
  pose proof (law_dispatch env cmd (latch_error h)) as Hd.
  destruct (dispatch env cmd (latch_error h)) as [[[] | m] h1]; cbn [snd] in Hd.
  - split; [| apply law_respond]. rewrite law_set_state.
    eapply rtc_r; [exact Hl | exact Hleg].
  - split; [by rewrite Hd | apply law_respond].
Qed.

(** A refusal or a failure leaves the state where the latch left it; a success
    reaches the command's target. *)
Lemma handle_outcome env cmd (h : H) :
  let '(r, h') := handle env cmd h in
  h_state h' = (if success r then default (h_state (latch_error h)) (target_state cmd)
                else h_state (latch_error h)) /\
  (target_state cmd = None -> h' = latch_error h).
Proof.
  unfold handle. destruct (target_state cmd) as [t |]; cbn [default].
  2: { by rewrite (proj1 (law_respond _ _ _)). }
  destruct (negb _); [by rewrite (proj1 (law_respond _ _ _)) |].
  pose proof (law_dispatch env cmd (latch_error h)) as Hd.
  destruct (dispatch env cmd (latch_error h)) as [[[] | m] h1]; cbn [snd] in Hd;
    rewrite (proj1 (law_respond _ _ _)); [by rewrite law_set_state | by rewrite Hd].
Qed.

(** Once the latch has fired, only [Reset] leads out, and only a status request
    is answered with success besides. *)
Lemma handle_in_error env cmd (h : H) :
  h_state (latch_error h) = Error ->
  let '(r, h') := handle env cmd h in
  cmd = Reset \/ h_state h' = Error /\ (success r = true -> cmd = GetStatus).
Proof.
  intros He. unfold handle. rewrite He.
  destruct cmd; cbn [target_state can_transition_to negb];
    try (right; split; [done |]; by rewrite (proj1 (law_respond _ _ _))).
  destruct (dispatch env Reset (latch_error h)) as [[] h1]; by left.
Qed.

Lemma handle_all_path cmds (h : H) :
  let '(rs, h') := handle_all cmds h in
  rtc legal (h_state h) (h_state h') /\ length rs = length cmds.
Proof.
  revert h. induction cmds as [| [env cmd] cmds IH]; intros h; [done |]. cbn [handle_all].
  pose proof (handle_path env cmd h) as Hp. destruct (handle env cmd h) as [r h1].
  specialize (IH h1). destruct (handle_all cmds h1) as [rs h2]. cbn [length].
  destruct Hp as [Hp _], IH as [IH ->]. split; [| done]. by etrans.
Qed.

(** Without a latch in between, a command the table refuses changes nothing. *)
Lemma handle_illegal env cmd (h : H) t :
  target_state cmd = Some t -> latch_error h = h -> can_transition_to (h_state h) t = false ->
  exists m, handle env cmd h = (respond h false m, h).
Proof.
  intros Ht Hl Hc. unfold handle. rewrite Hl, Ht, Hc. cbn [negb]. by eexists.
Qed.
End handler_laws.

(** ** Legal histories *)

(** The states a component went through, most recent first, from [Idle] on. *)
Inductive history : list ComponentState -> Prop :=
| history_start : history [Idle]
| history_step s t l : history (s :: l) -> legal s t -> history (t :: s :: l).

(** in every legal history data taking starts only out of [Configured] and
    then [Armed], [Error] is entered only from an active state and left only to
    [Idle], and no state follows itself. *)
Theorem legal_histories (l : list ComponentState) (t : ComponentState) (Hl : history (t :: l)) :
  (t = Running -> exists l', l = Armed :: Configured :: l') /\
  (t = Error -> exists s l', l = s :: l' /\ s <> Idle /\ s <> Error) /\
  match l with
  | s :: _ => s <> t /\ (s = Error -> t = Idle)
  | [] => t = Idle
  end.
Proof.
  inversion Hl as [| s t' l' Hh Hst]; subst; [done |]. unfold legal in Hst. split_and!.
  - intros ->. destruct s; try discriminate Hst.
    inversion Hh as [| s' t' l Hh' Hst']; subst. unfold legal in Hst'.
    destruct s'; try discriminate Hst'. by exists l.
  - intros ->. exists s, l'. by destruct s.
  - by destruct s, t.
  - intros ->. by destruct t.
Qed.

Lemma legal_histories_witness :
  history [Running; Armed; Configured; Idle] /\ exists l', [Armed; Configured; Idle] = Armed :: Configured :: l'.
Proof.
  assert (H : history [Running; Armed; Configured; Idle]) by (repeat constructor).
  split; [exact H |]. apply (legal_histories _ _ H). reflexivity.
Defined.

(** ** The REP task *)

Section task_lemmas.
Context {H Env : Type} `{HH : Handler H Env} {HL : HandlerLaws H Env}.
Variable from_json : bytes -> result Command string.
Variable to_json : CommandResponse -> result bytes string.

Definition task_ok (t : Task H) : Prop := last_state t = h_state (handler t).

Lemma reply_to_state (t : Task H) multipart (env : Env) :
  task_ok t ->
  let '(r, h) := reply_to from_json t multipart env in
  state r = h_state h /\
  ((forall frame rest cmd, multipart = frame :: rest -> from_json frame <> Ok cmd) ->
   h = handler t /\ success r = false).
Proof.
  intros Hok. unfold reply_to. destruct multipart as [| frame rest]; [done |].
  destruct (from_json frame) as [cmd | e] eqn:Hj; [| done].
  pose proof (handle_path env cmd (handler t)) as Hp. destruct (handle env cmd (handler t)) as [r h].
  split; [apply Hp |]. intros Hno. by destruct (Hno frame rest cmd).
Qed.

Lemma task_step_ok (t : Task H) (ev : TaskEvent Env) :
  task_ok t -> task_ok (fst (task_step from_json to_json t ev)).
Proof.
  intros Hok. unfold task_step. destruct (phase t), ev as [| | | | multipart env sent]; try done.
  pose proof (reply_to_state t multipart env Hok) as Hr.
  destruct (reply_to from_json t multipart env) as [r h]. destruct Hr as [Hr _].
  destruct (to_json r); [| done]. by destruct sent.
Qed.

Lemma task_step_alive (t : Task H) (ev : TaskEvent Env) :
  phase t <> Stopped -> ev <> Shutdown -> phase (fst (task_step from_json to_json t ev)) <> Stopped.
Proof.
  destruct t as [p ls h0]. intros Hp Hev. unfold task_step. cbn [phase last_state handler] in *.
  destruct p, ev as [| | | | multipart env sent]; cbn [fst phase] in *; try congruence.
  destruct (reply_to from_json _ multipart env) as [r h].
  destruct (to_json r); [| done]. by destruct sent.
Qed.

(** only [shutdown] ends the command task: after any sequence of bind, recv,
    encode and send failures and of undecodable requests it is still alive and
    the next successful bind has it listening again; its [last_state] is the
    handler's state throughout, so a request that does not decode is answered
    with a failure that reports that state and leaves the handler untouched. *)
Theorem command_task_survives (h : H) (evs : list (TaskEvent Env))
    (Hstart : h_state h = Idle) (Hno : ~ In Shutdown evs) :
  let t := fst (run_command_task from_json to_json (task_start h) evs) in
  phase t <> Stopped /\ task_ok t /\
  (phase t = Unbound -> phase (fst (task_step from_json to_json t (BindOk (Env := Env)))) = Listening) /\
  forall multipart env,
    (forall frame rest cmd, multipart = frame :: rest -> from_json frame <> Ok cmd) ->
    let '(r, h') := reply_to from_json t multipart env in
    h' = handler t /\ success r = false /\ state r = h_state (handler t).
Proof.
  assert (Hgen : forall t, task_ok t -> phase t <> Stopped ->
    task_ok (fst (run_command_task from_json to_json t evs)) /\
    phase (fst (run_command_task from_json to_json t evs)) <> Stopped).
  { induction evs as [| ev evs IH]; intros t Hok Hp; [done |]. cbn [run_command_task].
    pose proof (task_step_ok t ev Hok) as Hok1.
    pose proof (task_step_alive t ev Hp ltac:(intros ->; apply Hno; by left)) as Hp1.
    destruct (task_step from_json to_json t ev) as [t1 out].
    destruct (IH ltac:(intros Hin; apply Hno; by right) t1 Hok1 Hp1) as [IH1 IH2].
    by destruct (run_command_task from_json to_json t1 evs). }
  destruct (Hgen (task_start h)) as [Hok Hp]; [by symmetry | done |]. intros t.
  split_and!; [done | done | |].
  - intros Hu. unfold task_step. fold t. by rewrite Hu.
  - intros multipart env Hbad. pose proof (reply_to_state t multipart env Hok) as Hr.
    destruct (reply_to from_json t multipart env) as [r h']. destruct Hr as [Hs Hb].
    destruct (Hb Hbad) as [-> ->]. done.
Qed.
End task_lemmas.

(** The least handler: a state and no resources. *)
#[local] Instance bare_handler : Handler ComponentState unit := {
  h_state := id;
  h_set_state := fun s _ => s;
  latch_error := id;
  dispatch := fun _ _ s => (Ok tt, s);
  respond := fun s ok m => if ok then response_success s m else response_error s m;
}.

#[local] Instance bare_laws : HandlerLaws ComponentState unit.
Proof.
  constructor; [done | by left | done |]. by intros h [] m.
Qed.

Lemma command_task_survives_witness :
  let from_json b := match b with [65] => Ok Arm | [67] => Ok (Configure (mkRunConfig 7 "" JNull)) | _ => Err "?"%string end in
  let to_json (_ : CommandResponse) := Ok [123; 125] in
  let t := fst (run_command_task from_json to_json (task_start Idle)
    [BindFailed; BindOk; Request [[67]] tt true; Request [[0]] tt false; RecvFailed; BindOk;
     Request [[65]] tt true]) in
  t = mkTask Listening Armed Armed /\ task_ok t.
Proof.
  intros from_json to_json t. split; [reflexivity |].
  apply (command_task_survives from_json to_json Idle
    [BindFailed; BindOk; Request [[67]] tt true; Request [[0]] tt false; RecvFailed; BindOk;
     Request [[65]] tt true]).
  - reflexivity.
  - cbn. intuition discriminate.
Defined.
