(* ===== verification/Receiver.v ===== *)
(** * Receiver: the per-CoBo receiver component

    Models [src/receiver.rs]: the drain task (TCP socket to framer to bounded
    queue) and the sender thread (queue to batches to two PUSH sockets) as two
    processes that share the queue and the counters and interleave at every
    step; and the command handler with the listener, the flags and the threads
    it owns.  The sockets' answers and the clock are inputs.  [queue_frames] is
    at least one ([config.rs] refuses zero), so the queue is never the
    rendezvous channel.  Log output is not modelled, the flags that silence
    repeated messages are. *)

From stdpp Require Import gmap pretty strings.
From S2P Require Import Prelude Bytes Msg Command.
From S2P Require Framer.
Open Scope Z_scope.

Definition READ_CHUNK_BYTES : Z := 256 * 1024.
Definition SENDER_POLL_INTERVAL : Z := 100 * 1000000.

(** ** Counters *)

(** A [std::net::SocketAddr]: its printed form and its port. *)
Record SocketAddr : Type := mkSocketAddr {
  printed : string;
  port : Z;
}.

Record Metrics : Type := mkMetrics {
  bytes_in : Z;
  frames : Z;
  batches : Z;
  overflow_frames : Z;
  framer_resets : Z;
  messages_abandoned : Z;
  encode_errors : Z;
  send_errors : Z;
  extra_connections : Z;
  empty_connections : Z;
  last_read_unix_ns : Z;
  peer : option string;
  overflowed : bool;
  logged_abandoned : bool;
  logged_framer_reset : bool;
  logged_extra_connection : bool;
}.
#[export] Instance Metrics_eta : Eta Metrics := fun m =>
  mkMetrics (bytes_in m) (frames m) (batches m) (overflow_frames m) (framer_resets m)
    (messages_abandoned m) (encode_errors m) (send_errors m) (extra_connections m)
    (empty_connections m) (last_read_unix_ns m) (peer m) (overflowed m) (logged_abandoned m)
    (logged_framer_reset m) (logged_extra_connection m).

(** [Metrics::default()]. *)
Definition metrics_default : Metrics :=
  mkMetrics 0 0 0 0 0 0 0 0 0 0 0 None false false false false.

Definition metrics_reset (m : Metrics) : Metrics :=
  m <| bytes_in := 0 |> <| frames := 0 |> <| batches := 0 |> <| overflow_frames := 0 |>
    <| framer_resets := 0 |> <| messages_abandoned := 0 |> <| encode_errors := 0 |>
    <| send_errors := 0 |> <| extra_connections := 0 |> <| empty_connections := 0 |>
    <| last_read_unix_ns := 0 |> <| peer := None |> <| overflowed := false |>
    <| logged_abandoned := false |> <| logged_framer_reset := false |>
    <| logged_extra_connection := false |>.

Definition set_peer (p : option SocketAddr) (m : Metrics) : Metrics :=
  m <| peer := match p with Some a => Some (printed a) | None => None end |>.

Definition record_dropped_frame (m : Metrics) : Metrics :=
  m <| overflow_frames ::= incr |> <| overflowed := true |>.

(** The [record_*] functions that warn once return whether they did. *)
Definition record_abandoned (m : Metrics) : bool * Metrics :=
  (negb (logged_abandoned m), m <| messages_abandoned ::= incr |> <| logged_abandoned := true |>).

Definition record_extra_connection (m : Metrics) : bool * Metrics :=
  (negb (logged_extra_connection m),
   m <| extra_connections ::= incr |> <| logged_extra_connection := true |>).

Definition record_empty_connection (m : Metrics) : Metrics := m <| empty_connections ::= incr |>.
Definition record_encode_error (m : Metrics) : Metrics := m <| encode_errors ::= incr |>.
Definition record_send_error (m : Metrics) : Metrics := m <| send_errors ::= incr |>.

Definition note_framer_resets (resets : Z) (m : Metrics) : bool * Metrics :=
  (negb (logged_framer_reset m),
   m <| framer_resets := resets |> <| logged_framer_reset := true |>).

Definition peer_json (m : Metrics) : Json :=
  match peer m with Some p => JStr p | None => JNull end.

Definition metrics_json (m : Metrics) : Json :=
  let last_read := if last_read_unix_ns m =? 0 then JNull else JNum (last_read_unix_ns m) in
  JObj [("bytes", JNum (bytes_in m));
        ("frames", JNum (frames m));
        ("batches", JNum (batches m));
        ("overflow_frames", JNum (overflow_frames m));
        ("framer_resets", JNum (framer_resets m));
        ("messages_abandoned", JNum (messages_abandoned m));
        ("encode_errors", JNum (encode_errors m));
        ("send_errors", JNum (send_errors m));
        ("extra_connections", JNum (extra_connections m));
        ("empty_connections", JNum (empty_connections m));
        ("last_read_unix_ns", last_read);
        ("peer", peer_json m)].

(** ** The bounded queue *)

Inductive FrameMsg : Type :=
| Frame (f : bytes)
| EndOfStream.

#[export] Instance FrameMsg_eq_dec : EqDecision FrameMsg.
Proof. solve_decision. Defined.

(** [sync_channel(capacity)]: what is in it, and which ends are alive. *)
Record Channel : Type := mkChannel {
  queue : list FrameMsg;
  capacity : Z;
  tx_alive : bool;
  rx_alive : bool;
}.
#[export] Instance Channel_eta : Eta Channel := fun c =>
  mkChannel (queue c) (capacity c) (tx_alive c) (rx_alive c).

Inductive TrySend : Type := Accepted | Full | Disconnected.

#[export] Instance TrySend_eq_dec : EqDecision TrySend.
Proof. solve_decision. Defined.

Definition try_send (m : FrameMsg) (c : Channel) : TrySend * Channel :=
  if negb (rx_alive c) then (Disconnected, c)
  else if capacity c <=? len (queue c) then (Full, c)
  else (Accepted, c <| queue ::= fun q => q ++ [m] |>).

(** What [recv_timeout] returns: a message that is there is returned at once. *)
Inductive Recv : Type :=
| Got (m : FrameMsg)
| Timeout
| Closed.

Definition recv_timeout (c : Channel) : Recv * Channel :=
  match queue c with
  | m :: q => (Got m, c <| queue := q |>)
  | [] => (if tx_alive c then Timeout else Closed, c)
  end.

(** Dropping an end; what is still queued when the receiver goes is lost. *)
Definition drop_tx (c : Channel) : Channel := c <| tx_alive := false |>.
Definition drop_rx (c : Channel) : Channel := c <| rx_alive := false |> <| queue := [] |>.

(** ** The drain task *)

(** Where the task waits or is preempted: in the outer [select!]; in the inner
    one; before the next [framer.next()] of the frames loop; before the next
    [try_send] of an end of stream (then on to the next accept, or out);
    finished. *)
Inductive Pc : Type :=
| Accepting
| Reading
| Framing
| SendingEos (then_accept : bool)
| Exited.

#[export] Instance Pc_eq_dec : EqDecision Pc.
Proof. solve_decision. Defined.

(** One connection the task served, for the statements: the chunks it read
    and whether the peer's side has ended (end of file, or a read error). *)
Record Conn : Type := mkConn {
  chunks : list bytes;
  ended : bool;
}.

Record Drain : Type := mkDrain {
  pc : Pc;
  owes_eos : bool;
  framer : Framer.Framer;
  seen_resets : Z;
  conn_bytes : Z;
  reject_extra : bool;
}.
#[export] Instance Drain_eta : Eta Drain := fun d =>
  mkDrain (pc d) (owes_eos d) (framer d) (seen_resets d) (conn_bytes d) (reject_extra d).

(** [let mut owes_eos = true], before the first accept. *)
Definition drain_start : Drain := mkDrain Accepting true Framer.new 0 0 true.

(** What the drain task shares with the sender, and two histories for the
    statements: every message it offered to the queue with the answer, and the
    connections it served, the current one last. *)
Record Shared : Type := mkShared {
  channel : Channel;
  metrics : Metrics;
  offered : list (FrameMsg * TrySend);
  conns : list Conn;
}.
#[export] Instance Shared_eta : Eta Shared := fun s =>
  mkShared (channel s) (metrics s) (offered s) (conns s).

Definition last_conn (f : Conn -> Conn) (cs : list Conn) : list Conn :=
  match rev cs with
  | c :: earlier => rev earlier ++ [f c]
  | [] => []
  end.

Definition offer (m : FrameMsg) (s : Shared) : TrySend * Shared :=
  let '(answer, c) := try_send m (channel s) in
  (answer, s <| channel := c |> <| offered ::= fun l => l ++ [(m, answer)] |>).

(** What the task's awaits resolve to.  [Resume] lets it run on to its next
    [try_send]. *)
Inductive DrainEvent : Type :=
| StopSignal
| AcceptedConn (r : result SocketAddr string)
| ReadResult (r : result bytes string) (now : Z)
| ExtraConn (r : result SocketAddr string)
| Resume.

(** [reject_extra_connection]: whether to go on accepting. *)
Definition reject_extra_connection (r : result SocketAddr string) (m : Metrics) : bool * Metrics :=
  match r with
  | Ok _ => (true, snd (record_extra_connection m))
  | Err _ => (false, m)
  end.

(** The way out of ['accept]: the peer is cleared, and an end of stream that
    is still owed is sent before the task ends and drops its queue end. *)
Definition leave (d : Drain) (s : Shared) : Drain * Shared :=
  let s := s <| metrics ::= set_peer None |> in
  if owes_eos d then (d <| pc := SendingEos false |>, s)
  else (d <| pc := Exited |>, s <| channel ::= drop_tx |>).

(** The peer closed, or the read failed: a connection that carried data is a
    run boundary, an empty one is only counted. *)
Definition connection_over (d : Drain) (s : Shared) : Drain * Shared :=
  let s := s <| conns ::= last_conn (fun c => mkConn (chunks c) true) |> in
  if conn_bytes d =? 0 then
    (d <| pc := Accepting |>,
     s <| metrics ::= record_empty_connection |> <| metrics ::= set_peer None |>)
  else (d <| pc := SendingEos true |>, s).

(** One resumption of [drain_task].  An event that cannot happen at this point
    of the task changes nothing. *)
Definition drain_step (ev : DrainEvent) (d : Drain) (s : Shared) : rust (Drain * Shared) :=
  match pc d, ev with
  | Accepting, StopSignal => Val (leave d s)
  | Accepting, AcceptedConn (Ok a) =>
      Val (d <| pc := Reading |> <| framer := Framer.new |> <| seen_resets := 0 |>
             <| conn_bytes := 0 |> <| reject_extra := true |>,
           s <| metrics ::= set_peer (Some a) |> <| conns ::= fun cs => cs ++ [mkConn [] false] |>)
  | Reading, StopSignal => Val (leave d s)
  | Reading, ExtraConn r =>
      if reject_extra d then
        let '(again, m) := reject_extra_connection r (metrics s) in
        Val (d <| reject_extra := again |>, s <| metrics := m |>)
      else Val (d, s)
  | Reading, ReadResult (Ok []) _ => Val (connection_over d s)
  | Reading, ReadResult (Err _) _ => Val (connection_over d s)
  | Reading, ReadResult (Ok chunk) now =>
      let d := if conn_bytes d =? 0 then d <| owes_eos := true |> else d in
      let! f := Framer.push (framer d) chunk in
      Val (d <| pc := Framing |> <| framer := f |> <| conn_bytes ::= Z.add (len chunk) |>,
           s <| metrics ::= fun m =>
               m <| bytes_in ::= Z.add (len chunk) |> <| last_read_unix_ns := now |> |>
             <| conns ::= last_conn (fun c => mkConn (chunks c ++ [chunk]) (ended c)) |>)
  | Framing, Resume =>
      let! (frame, f) := Framer.next (framer d) in
      let d := d <| framer := f |> in
      match frame with
      | Some frame =>
          let s := s <| metrics ::= fun m => m <| frames ::= incr |> |> in
          let '(answer, s) := offer (Frame frame) s in
          Val (d, match answer with
                  | Accepted => s
                  | Full | Disconnected => s <| metrics ::= record_dropped_frame |>
                  end)
      | None =>
          let resets := Framer.reset_count f in
          let d := d <| pc := Reading |> in
          Val (if resets =? seen_resets d then (d, s)
               else (d <| seen_resets := resets |>,
                     s <| metrics ::= fun m => snd (note_framer_resets resets m) |>))
      end
  | SendingEos then_accept, Resume =>
      let '(answer, s) := offer EndOfStream s in
      match answer with
      | Full => Val (d, s)
      | Accepted | Disconnected =>
          Val (if then_accept then
                 (d <| owes_eos := false |> <| pc := Accepting |>,
                  s <| metrics ::= set_peer None |>)
               else (d <| pc := Exited |>, s <| channel ::= drop_tx |>))
      end
  | _, _ => Val (d, s)
  end.

(** ** The sender thread *)

(** What one iteration of the send loop meets: the [abandon] flag raised, or
    else what [socket.send] returns. *)
Inductive SendTry : Type :=
| AbandonSet
| SendOk
| EAGAIN
| ETERM
| SendError.

Inductive SendOutcome : Type := Sent | Failed | Stopped.

#[export] Instance SendOutcome_eq_dec : EqDecision SendOutcome.
Proof. solve_decision. Defined.

(** One PUSH link: the socket's future answers, and for the statements every
    message sent on it with the outcome. *)
Record Link : Type := mkLink {
  name : string;
  socket : list SendTry;
  sequence_number : Z;
  attempts : list (SendOutcome * Message RawFrames);
}.
#[export] Instance Link_eta : Eta Link := fun l =>
  mkLink (name l) (socket l) (sequence_number l) (attempts l).

Record SenderConfig : Type := mkSenderConfig {
  source_id : Z;
  run_number : Z;
  batch_max_bytes : Z;
  batch_max : Z;
  heartbeat : Z;
}.

(** The send loop: [EAGAIN] retries; a script that ends while the loop is
    still waiting is [OutOfFuel]. *)
Fixpoint send_loop (script : list SendTry) (m : Metrics) : rust (SendOutcome * list SendTry * Metrics) :=
  match script with
  | [] => OutOfFuel
  | AbandonSet :: script => Val (Stopped, script, snd (record_abandoned m))
  | SendOk :: script => Val (Sent, script, m)
  | EAGAIN :: script => send_loop script m
  | ETERM :: script => Val (Stopped, script, m)
  | SendError :: script => Val (Failed, script, record_send_error m)
  end.

Section sender.
Variable to_msgpack : Message RawFrames -> result bytes string.

Definition send_on (msg : Message RawFrames) (l : Link) (m : Metrics)
    : rust (SendOutcome * Link * Metrics) :=
  match to_msgpack msg with
  | Err _ =>
      Val (Failed, l <| attempts ::= fun log => log ++ [(Failed, msg)] |>, record_encode_error m)
  | Ok _ =>
      let! (outcome, rest, m) := send_loop (socket l) m in
      Val (outcome, l <| socket := rest |> <| attempts ::= fun log => log ++ [(outcome, msg)] |>, m)
  end.

(** [for link in &mut links { alive &= send_on(link, ..) != Stopped }]. *)
Fixpoint send_each (msg : Message RawFrames) (ls : list Link) (m : Metrics)
    : rust (bool * list Link * Metrics) :=
  match ls with
  | [] => Val (true, [], m)
  | l :: ls =>
      let! (outcome, l, m) := send_on msg l m in
      let! (alive, ls, m) := send_each msg ls m in
      Val (bool_decide (outcome <> Stopped) && alive, l :: ls, m)
  end.

(** The same loop in [flush]: every link has its own number, which advances
    whatever the outcome. *)
Fixpoint flush_each (cfg : SenderConfig) (created : Z) (batch : list bytes) (ls : list Link)
    (m : Metrics) : rust (bool * bool * list Link * Metrics) :=
  match ls with
  | [] => Val (true, false, [], m)
  | l :: ls =>
      let msg := Data (mkBatch (source_id cfg) (run_number cfg) (sequence_number l) created batch) in
      let! (outcome, l, m) := send_on msg (l <| sequence_number ::= incr |>) m in
      let! (alive, delivered, ls, m) := flush_each cfg created batch ls m in
      Val (bool_decide (outcome <> Stopped) && alive, bool_decide (outcome = Sent) || delivered,
           l :: ls, m)
  end.

(** The locals of [sender_loop]; [running] is false once the loop is left. *)
Record Sender : Type := mkSender {
  links : list Link;
  batch : list bytes;
  batch_bytes : Z;
  batch_deadline : option Z;
  heartbeat_counter : Z;
  last_send : Z;
  eos_sent : bool;
  running : bool;
}.
#[export] Instance Sender_eta : Eta Sender := fun t =>
  mkSender (links t) (batch t) (batch_bytes t) (batch_deadline t) (heartbeat_counter t)
    (last_send t) (eos_sent t) (running t).

Definition sender_start (ls : list Link) (now : Z) : Sender := mkSender ls [] 0 None 0 now false true.

Definition flush (cfg : SenderConfig) (created : Z) (t : Sender) (m : Metrics)
    : rust (bool * Sender * Metrics) :=
  match batch t with
  | [] => Val (true, t, m)
  | fs =>
      let! (alive, delivered, ls, m) := flush_each cfg created fs (links t) m in
      Val (alive, t <| links := ls |> <| batch := [] |> <| batch_bytes := 0 |>,
           if delivered then m <| batches ::= incr |> else m)
  end.

(** What one turn of the loop observes besides the queue: the flag at its top
    and the clock where the code reads it. *)
Record STurn : Type := mkSTurn {
  abandon_raised : bool;
  now : Z;
  created_ns : Z;
  now_timeout : Z;
  now_sent : Z;
}.

(** How long the turn may wait for the queue. *)
Definition sender_wait (cfg : SenderConfig) (t : Sender) (now : Z) : Z :=
  let wake :=
    match batch_deadline t, eos_sent t with
    | Some deadline, _ => deadline
    | None, false => last_send t + heartbeat cfg
    | None, true => now + SENDER_POLL_INTERVAL
    end in
  Z.min (Z.max 0 (wake - now)) SENDER_POLL_INTERVAL.

Definition send_eos (cfg : SenderConfig) (t : Sender) (m : Metrics) : rust (bool * Sender * Metrics) :=
  let msg := Msg.EndOfStream (source_id cfg) (run_number cfg) in
  let! (alive, ls, m) := send_each msg (links t) m in
  Val (alive, t <| links := ls |>, m).

Definition send_heartbeat (cfg : SenderConfig) (t : Sender) (m : Metrics)
    : rust (bool * Sender * Metrics) :=
  let msg := Heartbeat (source_id cfg) (run_number cfg) (heartbeat_counter t) in
  let! (alive, ls, m) := send_each msg (links t) m in
  Val (alive, t <| links := ls |> <| heartbeat_counter ::= incr |>, m).

(** [batch_deadline.is_some_and(|deadline| now >= deadline)]. *)
Definition deadline_due (t : Sender) (now : Z) : bool :=
  match batch_deadline t with Some deadline => deadline <=? now | None => false end.

(** What one turn does with what the queue gave it. *)
Definition sender_recv (cfg : SenderConfig) (tn : STurn) (r : Recv) (t : Sender) (m : Metrics)
    : rust (bool * Sender * Metrics) :=
  match r with
  | Got (Frame frame) =>
      let t := t <| batch_bytes ::= Z.add (len frame) |> <| batch ::= fun b => b ++ [frame] |>
                 <| batch_deadline ::= fun d =>
                      match d with None => Some (now tn + batch_max cfg) | Some _ => d end |> in
      if batch_max_bytes cfg <=? batch_bytes t then
        let! (alive, t, m) := flush cfg (created_ns tn) t m in
        Val (alive, t <| batch_deadline := None |> <| last_send := now_sent tn |>, m)
      else Val (true, t, m)
  | Got EndOfStream =>
      let! (alive, t, m) := flush cfg (created_ns tn) t m in
      let t := t <| batch_deadline := None |> in
      let! (alive', t, m) := send_eos cfg t m in
      Val (alive && alive', t <| last_send := now_sent tn |> <| eos_sent := true |>, m)
  | Timeout =>
      if deadline_due t (now_timeout tn) then
        let! (alive, t, m) := flush cfg (created_ns tn) t m in
        Val (alive, t <| batch_deadline := None |> <| last_send := now_sent tn |>, m)
      else if negb (eos_sent t) && bool_decide (batch t = []) &&
              (last_send t + heartbeat cfg <=? now_timeout tn) then
        let! (alive, t, m) := send_heartbeat cfg t m in
        Val (alive, t <| last_send := now_sent tn |>, m)
      else Val (true, t, m)
  | Closed =>
      let! (_, t, m) := flush cfg (created_ns tn) t m in
      Val (false, t, m)
  end.

(** One turn of [sender_loop].  It takes from the queue once; the counters it
    writes are not written by the drain task, and the flag's readings are part
    of the links' scripts: so the turn is one step of the system. *)
Definition sender_turn (cfg : SenderConfig) (tn : STurn) (t : Sender) (s : Shared)
    : rust (Sender * Shared) :=
  if negb (running t) then Val (t, s)
  else if abandon_raised tn then Val (t <| running := false |>, s)
  else
    let '(r, c) := recv_timeout (channel s) in
    let! (alive, t, m) := sender_recv cfg tn r t (metrics s) in
    Val (if alive then t else t <| running := false |>, s <| channel := c |> <| metrics := m |>).

(** ** A run: the two processes and what they share *)

Record Run : Type := mkRun {
  drain : Drain;
  sender : Sender;
  shared : Shared;
}.

(** [ReceiverExit]: the sender thread, out of its loop, drops its queue end. *)
Inductive Event : Type :=
| DrainRuns (ev : DrainEvent)
| SenderRuns (tn : STurn)
| ReceiverExit.

Definition run_step (cfg : SenderConfig) (ev : Event) (r : Run) : rust Run :=
  match ev with
  | DrainRuns ev =>
      let! (d, s) := drain_step ev (drain r) (shared r) in Val (mkRun d (sender r) s)
  | SenderRuns tn =>
      let! (t, s) := sender_turn cfg tn (sender r) (shared r) in Val (mkRun (drain r) t s)
  | ReceiverExit =>
      Val (if running (sender r) then r
           else mkRun (drain r) (sender r) (shared r <| channel ::= drop_rx |>))
  end.

Fixpoint run_all (cfg : SenderConfig) (evs : list Event) (r : Run) : rust Run :=
  match evs with
  | [] => Val r
  | ev :: evs => let! r := run_step cfg ev r in run_all cfg evs r
  end.
End sender.

(** [build_links] and the rest of [do_start]: numbers from zero, counters
    reset, an empty queue. *)
Definition link_start (name : string) (script : list SendTry) : Link := mkLink name script 0 [].

Definition links_start (graw decoder : list SendTry) : list Link :=
  [link_start "graw-writer" graw; link_start "decoder" decoder].

Definition run_start (queue_frames : Z) (graw decoder : list SendTry) (now : Z) (m : Metrics) : Run :=
  mkRun drain_start (sender_start (links_start graw decoder) now)
    (mkShared (mkChannel [] queue_frames true true) (metrics_reset m) [] []).

(** ** Lemmas: sending on the links *)

Definition count_outcome (o : SendOutcome) (log : list (SendOutcome * Message RawFrames)) : Z :=
  countb (fun a => bool_decide (fst a = o)) log.

Definition is_eterm (t : SendTry) : bool := match t with ETERM => true | _ => false end.
Definition is_answer (t : SendTry) : bool := match t with EAGAIN => false | _ => true end.

(** The context terminations a script still holds, and the sends it can end. *)
Definition eterms (script : list SendTry) : Z := countb is_eterm script.
Definition answers (script : list SendTry) : Z := countb is_answer script.

Definition sum (f : Link -> Z) (ls : list Link) : Z := foldr (fun l n => f l + n) 0 ls.

Definition failed (l : Link) : Z := count_outcome Failed (attempts l).
Definition stopped (l : Link) : Z := count_outcome Stopped (attempts l).

(** The part of the counters only the drain task writes. *)
Definition drain_part (m : Metrics) :=
  (bytes_in m, frames m, overflow_frames m, framer_resets m, extra_connections m,
   empty_connections m, last_read_unix_ns m, peer m, overflowed m).

(** What one send does to its link and to the counters. *)
Record sent_on (msg : Message RawFrames) (l : Link) (m : Metrics) (o : SendOutcome) (l' : Link)
    (m' : Metrics) : Prop := {
  so_name : name l' = name l;
  so_number : sequence_number l' = sequence_number l;
  so_log : attempts l' = attempts l ++ [(o, msg)];
  so_drain : drain_part m' = drain_part m;
  so_batches : batches m' = batches m;
  so_failed : failed l' - (encode_errors m' + send_errors m') =
              failed l - (encode_errors m + send_errors m);
  so_stopped : stopped l' + eterms (socket l') - messages_abandoned m' =
               stopped l + eterms (socket l) - messages_abandoned m;
  so_answers : answers (socket l) - 1 <= answers (socket l');
}.

Lemma count_outcome_snoc o log o' msg :
  count_outcome o (log ++ [(o', msg)]) = count_outcome o log + (if decide (o' = o) then 1 else 0).
Proof.
  unfold count_outcome. rewrite countb_app. cbn. case_bool_decide; case_decide; try done; lia.
Qed.

Lemma answers_cons t script : answers (t :: script) = (if is_answer t then 1 else 0) + answers script.
Proof. reflexivity. Qed.

Lemma eterms_cons t script : eterms (t :: script) = (if is_eterm t then 1 else 0) + eterms script.
Proof. reflexivity. Qed.

Lemma answers_nonneg script : 0 <= answers script.
Proof. apply countb_nonneg. Qed.

Ltac solve_sent :=
  constructor; cbn -[count_outcome eterms answers]; unfold failed, stopped;
  cbn -[count_outcome eterms answers]; rewrite ?count_outcome_snoc;
  repeat (case_decide; try discriminate); try done; lia.

Section send_lemmas.
Variable to_msgpack : Message RawFrames -> result bytes string.

Lemma send_loop_effect msg l script m :
  eterms script = eterms (socket l) -> answers script = answers (socket l) ->
  runs (1 <= answers script)
    (fun '(o, rest, m') =>
       sent_on msg l m o (l <| socket := rest |> <| attempts ::= fun log => log ++ [(o, msg)] |>) m')
    (send_loop script m).
Proof.
  revert m. induction script as [| t script IH]; intros m He Ha.
  { cbn. lia. }
  rewrite answers_cons in *. rewrite eterms_cons in He.
  destruct t; cbn [is_answer is_eterm] in *; cbn [send_loop].
  3: { eapply runs_mono; [apply IH; lia | lia | done]. }
  all: solve_sent.
Qed.

Lemma send_on_effect msg l m :
  runs (1 <= answers (socket l)) (fun '(o, l', m') => sent_on msg l m o l' m') (send_on to_msgpack msg l m).
Proof.
  unfold send_on. destruct (to_msgpack msg).
  - eapply runs_bind; [by apply send_loop_effect |]. by intros [[o rest] m'].
  - cbn. solve_sent.
Qed.

(** One message offered to every link: what it does to the links' logs ([bump]
    is what the round adds to the links' numbers, [msg] the message each link's
    number makes) and to the counters. *)
Definition one_more (bump : Z) (msg : Z -> Message RawFrames) (l l' : Link) : Prop :=
  name l' = name l /\ sequence_number l' = sequence_number l + bump /\
  (exists o, attempts l' = attempts l ++ [(o, msg (sequence_number l))]) /\
  answers (socket l) - 1 <= answers (socket l').

Record balanced (ls : list Link) (m : Metrics) (ls' : list Link) (m' : Metrics) : Prop := {
  ba_drain : drain_part m' = drain_part m;
  ba_failed : sum failed ls' - (encode_errors m' + send_errors m') =
              sum failed ls - (encode_errors m + send_errors m);
  ba_stopped : sum stopped ls' + sum (fun l => eterms (socket l)) ls' - messages_abandoned m' =
               sum stopped ls + sum (fun l => eterms (socket l)) ls - messages_abandoned m;
}.

Lemma balanced_refl ls m : balanced ls m ls m.
Proof. by constructor. Qed.

Lemma balanced_trans ls m ls1 m1 ls2 m2 :
  balanced ls m ls1 m1 -> balanced ls1 m1 ls2 m2 -> balanced ls m ls2 m2.
Proof. intros [] []. constructor; [congruence | lia | lia]. Qed.

Lemma balanced_cons msg l l0 m o l1 m1 ls ls' m2 :
  sent_on msg l0 m o l1 m1 -> attempts l0 = attempts l -> socket l0 = socket l ->
  balanced ls m1 ls' m2 -> balanced (l :: ls) m (l1 :: ls') m2.
Proof.
  intros [] Ha Hs []. unfold failed, stopped in *. rewrite Ha, ?Hs in *.
  constructor; [congruence | |]; unfold sum in *; cbn [foldr]; unfold failed, stopped in *; lia.
Qed.

Lemma send_each_effect msg ls m :
  runs (Forall (fun l => 1 <= answers (socket l)) ls)
    (fun '(alive, ls', m') =>
       Forall2 (one_more 0 (fun _ => msg)) ls ls' /\ balanced ls m ls' m' /\ batches m' = batches m)
    (send_each to_msgpack msg ls m).
Proof.
  revert m. induction ls as [| l ls IH]; intros m; cbn [send_each].
  { cbn. split_and!; [constructor | apply balanced_refl | done]. }
  eapply runs_bind.
  { eapply runs_mono; [apply send_on_effect | | intros a Ha; exact Ha]. by inversion 1. }
  intros [[o l1] m1] Hl.
  eapply runs_bind.
  { eapply runs_mono; [apply IH | | intros a Ha; exact Ha]. by inversion 1. }
  intros [[alive ls1] m2] (G1 & G2 & G3). cbn.
  split_and!; [constructor; [| done] | by eapply balanced_cons | destruct Hl; congruence].
  destruct Hl. split_and!; [done | lia | by exists o | done].
Qed.

(** A batch round: whether any link got the batch is what [batches] counts. *)
Definition got_last (l : Link) : bool :=
  match last (attempts l) with Some (Sent, _) => true | _ => false end.

Lemma flush_each_effect cfg created fs ls m :
  runs (Forall (fun l => 1 <= answers (socket l)) ls)
    (fun '(alive, delivered, ls', m') =>
       Forall2 (one_more 1 (fun n => Data (mkBatch (source_id cfg) (run_number cfg) n created fs))) ls ls' /\
       balanced ls m ls' m' /\ batches m' = batches m /\ delivered = existsb got_last ls')
    (flush_each to_msgpack cfg created fs ls m).
Proof.
  revert m. induction ls as [| l ls IH]; intros m; cbn [flush_each].
  { cbn. split_and!; [constructor | apply balanced_refl | done | done]. }
  eapply runs_bind.
  { eapply runs_mono; [apply send_on_effect | | intros a Ha; exact Ha]. by inversion 1. }
  intros [[o l1] m1] Hl.
  eapply runs_bind.
  { eapply runs_mono; [apply IH | | intros a Ha; exact Ha]. by inversion 1. }
  intros [[[alive delivered] ls1] m2] (G1 & G2 & G3 & G4). cbn.
  split_and!.
  - constructor; [| done]. destruct Hl. split_and!; [done | | by exists o | done].
    rewrite so_number0. cbn. lia.
  - by eapply balanced_cons.
  - destruct Hl; congruence.
  - rewrite G4. f_equal. unfold got_last. rewrite (so_log _ _ _ _ _ _ Hl), last_snoc.
    by destruct o.
Qed.
End send_lemmas.

(** ** What the sender says *)

Definition stream_msg (m : Message RawFrames) : list FrameMsg :=
  match m with
  | Data b => Frame <$> payload b
  | Msg.EndOfStream _ _ => [EndOfStream]
  | Heartbeat _ _ _ => []
  end.

(** The queue messages a sequence of data-plane messages carries, in order. *)
Definition stream_of (msgs : list (Message RawFrames)) : list FrameMsg := concat (map stream_msg msgs).

(** The numbering of a link's messages: data from zero without gaps and never
    empty, heartbeats from zero and none after an end of stream, everything
    under the run's source and run numbers.  [None]: not so. *)
Definition numbered_next (cfg : SenderConfig) (st : option (Z * Z * bool)) (m : Message RawFrames)
    : option (Z * Z * bool) :=
  match st, m with
  | Some (n, h, e), Data b =>
      if bool_decide (Msg.source_id b = source_id cfg /\ Msg.run_number b = run_number cfg /\
                      Msg.sequence_number b = n /\ payload b <> [])
      then Some (n + 1, h, e) else None
  | Some (n, h, e), Msg.EndOfStream s r =>
      if bool_decide (s = source_id cfg /\ r = run_number cfg) then Some (n, h, true) else None
  | Some (n, h, e), Heartbeat s r c =>
      if bool_decide (s = source_id cfg /\ r = run_number cfg /\ c = h /\ e = false)
      then Some (n, h + 1, e) else None
  | None, _ => None
  end.

Definition numbering (cfg : SenderConfig) (msgs : list (Message RawFrames)) : option (Z * Z * bool) :=
  foldl (numbered_next cfg) (Some (0, 0, false)) msgs.

Definition is_data (m : Message RawFrames) : bool := match m with Data _ => true | _ => false end.

(** Whether a link delivered its [i]-th message, and the data rounds that at
    least one link delivered. *)
Definition got (i : nat) (l : Link) : bool :=
  match attempts l !! i with Some (Sent, _) => true | _ => false end.

Definition rounds_delivered (msgs : list (Message RawFrames)) (ls : list Link) : Z :=
  countb (fun i => match msgs !! i with Some (Data _) => existsb (got i) ls | _ => false end)
    (seq 0 (length msgs)).

(** Every link was offered the same messages, and stands at number [n]. *)
Definition same_log (msgs : list (Message RawFrames)) (n : Z) (l : Link) : Prop :=
  map snd (attempts l) = msgs /\ sequence_number l = n.

Definition rich (n : Z) (ls : list Link) : Prop := Forall (fun l => n <= answers (socket l)) ls.

Lemma stream_of_snoc msgs m : stream_of (msgs ++ [m]) = stream_of msgs ++ stream_msg m.
Proof. unfold stream_of. rewrite map_app, concat_app. cbn. by rewrite app_nil_r. Qed.

Lemma numbering_snoc cfg msgs m : numbering cfg (msgs ++ [m]) = numbered_next cfg (numbering cfg msgs) m.
Proof. unfold numbering. by rewrite foldl_snoc. Qed.

Lemma round_same_log bump msg msgs n ls ls' :
  Forall2 (one_more bump msg) ls ls' -> Forall (same_log msgs n) ls ->
  Forall (same_log (msgs ++ [msg n]) (n + bump)) ls'.
Proof.
  induction 1 as [| l l' ls ls' (_ & Hn & (o & Ha) & _) _ IH]; inversion 1 as [| ? ? [Hm Hq] Hf]; subst;
    constructor; [| by apply IH].
  split; [| done]. rewrite Ha, map_app. done.
Qed.

Lemma round_rich bump msg ls ls' n : Forall2 (one_more bump msg) ls ls' -> rich (n + 1) ls -> rich n ls'.
Proof.
  unfold rich. induction 1 as [| l l' ls ls' (_ & _ & _ & Ha) _ IH]; inversion 1; subst;
    constructor; [lia | by apply IH].
Qed.

Lemma existsb_round bump msg ls ls' msgs n i :
  Forall2 (one_more bump msg) ls ls' -> Forall (same_log msgs n) ls -> (i < length msgs)%nat ->
  existsb (got i) ls' = existsb (got i) ls.
Proof.
  intros Hr Hs Hi. revert Hs. induction Hr as [| l l' ls ls' (_ & _ & (o & Ha) & _) _ IH];
    inversion 1 as [| ? ? [Hm _] Hf]; subst; [done |]. cbn. rewrite (IH Hf). f_equal.
  unfold got. rewrite Ha, lookup_app_l; [done |]. by rewrite length_map in Hi.
Qed.

Lemma existsb_last bump msg ls ls' msgs n :
  Forall2 (one_more bump msg) ls ls' -> Forall (same_log msgs n) ls ->
  existsb (got (length msgs)) ls' = existsb got_last ls'.
Proof.
  induction 1 as [| l l' ls ls' (_ & _ & (o & Ha) & _) _ IH]; inversion 1 as [| ? ? [Hm _] Hf];
    subst; [done |]. cbn. rewrite (IH Hf). f_equal.
  unfold got, got_last. rewrite Ha, last_snoc, length_map, lookup_app_r, Nat.sub_diag by lia. done.
Qed.

Lemma rounds_delivered_round bump msg ls ls' msgs n :
  Forall2 (one_more bump msg) ls ls' -> Forall (same_log msgs n) ls ->
  rounds_delivered (msgs ++ [msg n]) ls' =
  rounds_delivered msgs ls + (if is_data (msg n) && existsb got_last ls' then 1 else 0).
Proof.
  intros Hr Hs. unfold rounds_delivered. rewrite length_app, seq_app, countb_app. f_equal.
  - apply countb_ext. intros i Hi. apply elem_of_seq in Hi. cbn in Hi.
    rewrite lookup_app_l by lia.
    by rewrite (existsb_round bump msg ls ls' msgs n i Hr Hs) by lia.
  - cbn. rewrite lookup_app_r, Nat.sub_diag by lia. cbn.
    rewrite (existsb_last bump msg ls ls' msgs n Hr Hs). destruct (msg n); cbn; lia.
Qed.

(** The sender against what it has taken from the queue so far. *)
Record talked (cfg : SenderConfig) (terms : Z) (consumed : list FrameMsg) (t : Sender) (m : Metrics)
    : Prop := {
  ta_log : exists msgs n,
    Forall (same_log msgs n) (links t) /\
    numbering cfg msgs = Some (n, heartbeat_counter t, eos_sent t) /\
    stream_of msgs ++ (Frame <$> batch t) = consumed /\
    batches m = rounds_delivered msgs (links t);
  ta_bytes : batch_bytes t = len (concat (batch t));
  ta_failed : sum failed (links t) = encode_errors m + send_errors m;
  ta_stopped : sum stopped (links t) + sum (fun l => eterms (socket l)) (links t)
               = messages_abandoned m + terms;
}.

Section sender_lemmas.
Variable to_msgpack : Message RawFrames -> result bytes string.
Variable cfg : SenderConfig.
Variable terms : Z.

(** What an operation of the sender leaves alone. *)
Record keeps (k : Z) (t : Sender) (m : Metrics) (t' : Sender) (m' : Metrics) : Prop := {
  ke_drain : drain_part m' = drain_part m;
  ke_running : running t' = running t;
  ke_names : map name (links t') = map name (links t);
  ke_rich : forall n, rich (n + k) (links t) -> rich n (links t');
}.

Lemma round_names bump msg ls ls' : Forall2 (one_more bump msg) ls ls' -> map name ls' = map name ls.
Proof. induction 1 as [| l l' ls ls' (Hn & _) _ IH]; [done |]. cbn. by rewrite Hn, IH. Qed.

Lemma rich_le n k ls : k <= n -> rich n ls -> rich k ls.
Proof. intros. eapply Forall_impl; [done |]. cbn. lia. Qed.

Lemma flush_effect created consumed t m :
  talked cfg terms consumed t m ->
  runs (rich 1 (links t))
    (fun '(alive, t', m') => talked cfg terms consumed t' m' /\ batch t' = [] /\ keeps 1 t m t' m' /\
       batch_deadline t' = batch_deadline t /\ eos_sent t' = eos_sent t /\ last_send t' = last_send t)
    (flush to_msgpack cfg created t m).
Proof.
  intros Ht. unfold flush. destruct (batch t) as [| f fs] eqn:Eb.
  { cbn. split_and!; try done. constructor; try done. intros n. apply rich_le. lia. }
  eapply runs_bind.
  { eapply runs_mono; [apply flush_each_effect | done | intros a Ha; exact Ha]. }
  intros [[[alive delivered] ls'] m1] (Hr & Hb & Hbatches & ->). cbn.
  destruct Ht as [(msgs & n & Hlog & Hnum & Hstr & Hrounds) Hbytes Hfail Hstop]. destruct Hb.
  rewrite Eb in Hstr.
  split_and!; try done.
  - constructor; cbn -[sum].
    + exists (msgs ++ [Data (mkBatch (source_id cfg) (run_number cfg) n created (f :: fs))]), (n + 1).
      split_and!.
      * exact (round_same_log _ _ _ _ _ _ Hr Hlog).
      * rewrite numbering_snoc, Hnum. cbn. by rewrite bool_decide_true.
      * by rewrite stream_of_snoc, app_nil_r.
      * etrans; [| symmetry; exact (rounds_delivered_round _ _ _ _ _ _ Hr Hlog)]. cbn [is_data andb].
        destruct (existsb got_last ls'); cbn; lia.
    + done.
    + destruct (existsb got_last ls'); cbn -[sum]; lia.
    + destruct (existsb got_last ls'); cbn -[sum]; lia.
  - constructor; cbn.
    + destruct (existsb got_last ls'); exact ba_drain0.
    + done.
    + by eapply round_names.
    + intros k. by eapply round_rich.
Qed.

Lemma send_eos_effect consumed t m :
  talked cfg terms consumed t m -> batch t = [] ->
  runs (rich 1 (links t))
    (fun '(alive, t', m') => talked cfg terms (consumed ++ [EndOfStream]) (t' <| eos_sent := true |>) m' /\
       batch t' = [] /\ keeps 1 t m t' m' /\ batch_deadline t' = batch_deadline t)
    (send_eos to_msgpack cfg t m).
Proof.
  intros Ht Eb. unfold send_eos. eapply runs_bind.
  { eapply runs_mono; [apply send_each_effect | done | intros a Ha; exact Ha]. }
  intros [[alive ls'] m'] (Hr & Hb & Hbatches). cbn.
  destruct Ht as [(msgs & n & Hlog & Hnum & Hstr & Hrounds) Hbytes Hfail Hstop]. destruct Hb.
  split_and!; try done.
  - constructor; cbn -[sum]; [| done | lia | lia].
    exists (msgs ++ [Msg.EndOfStream (source_id cfg) (run_number cfg)]), (n + 0).
    split_and!.
    + exact (round_same_log _ _ _ _ _ _ Hr Hlog).
    + rewrite numbering_snoc, Hnum. cbn. rewrite bool_decide_true by done. by rewrite Z.add_0_r.
    + rewrite Eb, app_nil_r in *. by rewrite stream_of_snoc, Hstr.
    + etrans; [| symmetry; exact (rounds_delivered_round _ _ _ _ _ _ Hr Hlog)]. cbn [is_data andb]. lia.
  - constructor; cbn; [done | done | by eapply round_names | intros k; by eapply round_rich].
Qed.

Lemma heartbeat_effect consumed t m :
  talked cfg terms consumed t m -> eos_sent t = false ->
  runs (rich 1 (links t))
    (fun '(alive, t', m') => talked cfg terms consumed t' m' /\ batch t' = batch t /\
       keeps 1 t m t' m' /\ batch_deadline t' = batch_deadline t)
    (send_heartbeat to_msgpack cfg t m).
Proof.
  intros Ht Eb. unfold send_heartbeat. eapply runs_bind.
  { eapply runs_mono; [apply send_each_effect | done | intros a Ha; exact Ha]. }
  intros [[alive ls'] m'] (Hr & Hb & Hbatches). cbn.
  destruct Ht as [(msgs & n & Hlog & Hnum & Hstr & Hrounds) Hbytes Hfail Hstop]. destruct Hb.
  split_and!; try done.
  - constructor; cbn -[sum]; [| done | lia | lia].
    exists (msgs ++ [Heartbeat (source_id cfg) (run_number cfg) (heartbeat_counter t)]), (n + 0).
    split_and!.
    + exact (round_same_log _ _ _ _ _ _ Hr Hlog).
    + rewrite numbering_snoc, Hnum. cbn. rewrite bool_decide_true by done. by rewrite Z.add_0_r.
    + rewrite stream_of_snoc. cbn. by rewrite app_nil_r.
    + etrans; [| symmetry; exact (rounds_delivered_round _ _ _ _ _ _ Hr Hlog)]. cbn [is_data andb]. lia.
  - constructor; cbn; [done | done | by eapply round_names | intros k; by eapply round_rich].
Qed.

(** A finished operation of the turn, against what has now been consumed. *)
Definition turned (consumed : list FrameMsg) (t : Sender) (m : Metrics) (alive : bool) (t' : Sender)
    (m' : Metrics) : Prop :=
  talked cfg terms consumed t' m' /\ keeps 2 t m t' m' /\
  (alive = true -> batch_deadline t' = None <-> batch t' = []).

Lemma keeps_trans j k t m t1 m1 t2 m2 :
  keeps j t m t1 m1 -> keeps k t1 m1 t2 m2 -> keeps (j + k) t m t2 m2.
Proof.
  intros [] []. constructor; [congruence | congruence | congruence |].
  intros n Hn. apply ke_rich1, ke_rich0. by replace (n + k + j) with (n + (j + k)) by lia.
Qed.

Lemma keeps_le j k t m t' m' : keeps j t m t' m' -> j <= k -> keeps k t m t' m'.
Proof. intros [] ?. constructor; try done. intros n Hn. apply ke_rich0. eapply rich_le; [| exact Hn]; lia. Qed.

Lemma keeps_ext k t m t' m' t2 :
  keeps k t m t' m' -> links t2 = links t' -> running t2 = running t' -> keeps k t m t2 m'.
Proof. intros [] Hl Hr. constructor; rewrite ?Hl, ?Hr; done. Qed.

Lemma keeps_from k t m t' m' t0 :
  keeps k t m t' m' -> links t = links t0 -> running t = running t0 -> keeps k t0 m t' m'.
Proof. intros [] Hl Hr. constructor; rewrite <- ?Hl, <- ?Hr; done. Qed.

Lemma talked_ext consumed t m t2 :
  talked cfg terms consumed t m -> links t2 = links t -> batch t2 = batch t ->
  batch_bytes t2 = batch_bytes t -> heartbeat_counter t2 = heartbeat_counter t ->
  eos_sent t2 = eos_sent t -> talked cfg terms consumed t2 m.
Proof. intros [] H1 H2 H3 H4 H5. constructor; rewrite ?H1, ?H2, ?H3, ?H4, ?H5; done. Qed.

(** One more frame in the batch. *)
Lemma talked_frame consumed t m f d :
  talked cfg terms consumed t m ->
  talked cfg terms (consumed ++ [Frame f])
    (t <| batch_bytes ::= Z.add (len f) |> <| batch ::= fun b => b ++ [f] |> <| batch_deadline ::= d |>) m.
Proof.
  intros [(msgs & n & Hlog & Hnum & Hstr & Hrounds) Hbytes Hfail Hstop].
  constructor; cbn -[sum]; try done.
  - exists msgs, n. split_and!; try done. by rewrite fmap_app, app_assoc, Hstr.
  - rewrite concat_app, len_app. cbn [concat]. rewrite app_nil_r. lia.
Qed.

Definition recv_stream (r : Recv) : list FrameMsg := match r with Got m => [m] | _ => [] end.

Lemma sender_recv_effect tn r consumed t m :
  talked cfg terms consumed t m -> (batch_deadline t = None <-> batch t = []) ->
  runs (rich 2 (links t))
    (fun '(alive, t', m') => turned (consumed ++ recv_stream r) t m alive t' m')
    (sender_recv to_msgpack cfg tn r t m).
Proof.
  intros Ht Hd. unfold sender_recv. destruct r as [[f |] | |]; cbn [recv_stream]; rewrite ?app_nil_r.
  - set (t1 := _ <| batch_deadline ::= _ |>).
    assert (Ht1 : talked cfg terms (consumed ++ [Frame f]) t1 m) by by apply talked_frame.
    destruct (batch_max_bytes cfg <=? batch_bytes t1).
    + eapply runs_bind.
      { eapply runs_mono; [by apply flush_effect | apply rich_le; lia | intros a Ha; exact Ha]. }
      intros [[alive t2] m2] (Ht2 & Eb & Hk & _). cbn. split_and!.
      * by eapply talked_ext.
      * apply (keeps_ext 2 t m t2); [| done | done]. apply (keeps_from 2 t1); [| done | done].
        eapply keeps_le; [exact Hk | lia].
      * by intros _.
    + cbn. split_and!; [done | |].
      * constructor; try done. intros n. by apply rich_le; lia.
      * intros _. unfold t1. cbn. split; [by destruct (batch_deadline t) | by destruct (batch t)].
  - eapply runs_bind.
    { eapply runs_mono; [by apply flush_effect | apply rich_le; lia | intros a Ha; exact Ha]. }
    intros [[alive t2] m2] (Ht2 & Eb & Hk & _). cbn [rust_bind].
    eapply runs_bind.
    { eapply runs_mono; [apply (send_eos_effect consumed) | | intros a Ha; exact Ha].
      - by eapply talked_ext.
      - done.
      - intros Hr. cbn. destruct Hk. by apply ke_rich0. }
    intros [[alive' t3] m3] (Ht3 & Eb3 & Hk3 & Hd3). cbn. cbn in Hd3. split_and!.
    + by eapply talked_ext.
    + apply (keeps_ext 2 t m t3); [| done | done]. eapply (keeps_trans 1 1); [exact Hk |].
      by eapply keeps_from.
    + intros _. by split.
  - destruct (deadline_due t (now_timeout tn)).
    + eapply runs_bind.
      { eapply runs_mono; [by apply flush_effect | apply rich_le; lia | intros a Ha; exact Ha]. }
      intros [[alive t2] m2] (Ht2 & Eb & Hk & _). cbn. split_and!.
      * by eapply talked_ext.
      * eapply keeps_ext; [eapply keeps_le; [exact Hk | lia] | done | done].
      * by intros _.
    + destruct (negb (eos_sent t) && bool_decide (batch t = []) && _) eqn:Ehb.
      * apply andb_prop in Ehb as [Ehb _]. apply andb_prop in Ehb as [He Hb].
        apply negb_true_iff in He.
        eapply runs_bind.
        { eapply runs_mono; [by apply heartbeat_effect | apply rich_le; lia | intros a Ha; exact Ha]. }
        intros [[alive t2] m2] (Ht2 & Eb & Hk & Hd2). cbn. split_and!.
        -- by eapply talked_ext.
        -- eapply keeps_ext; [eapply keeps_le; [exact Hk | lia] | done | done].
        -- intros _. change (batch_deadline t2 = None <-> batch t2 = []). by rewrite Eb, Hd2.
      * cbn. split_and!; [done | | done]. constructor; try done. intros n. by apply rich_le; lia.
  - eapply runs_bind.
    { eapply runs_mono; [by apply flush_effect | apply rich_le; lia | intros a Ha; exact Ha]. }
    intros [[alive t2] m2] (Ht2 & Eb & Hk & _). cbn.
    split_and!; [done | eapply keeps_le; [exact Hk | lia] | done].
Qed.
End sender_lemmas.

(** ** What the drain task offers *)

(** What a connection's bytes cut into frames, with the end of stream a
    connection that carried data is followed by. *)
Definition conn_frames (c : Conn) : list bytes :=
  match Framer.feed_all Framer.new (chunks c) with Val (fs, _) => fs | _ => [] end.

Definition carried (c : Conn) : bool := negb (bool_decide (chunks c = [])).

Definition conn_stream (c : Conn) : list FrameMsg :=
  (Frame <$> conn_frames c) ++ (if ended c && carried c then [EndOfStream] else []).

Definition streams (cs : list Conn) : list FrameMsg := concat (map conn_stream cs).

(** Whether the run still owes an end of stream: no connection carried data
    yet, or the last one that did was cut off. *)
Definition owes (cs : list Conn) : bool :=
  foldl (fun b c => if carried c then negb (ended c) else b) true cs.

(** The messages the task offered, and those the queue took; an end of stream
    refused by a full queue is offered again. *)
Definition offers (log : list (FrameMsg * TrySend)) : list FrameMsg :=
  omap (fun '(m, a) => if bool_decide (m = EndOfStream /\ a = Full) then None else Some m) log.

Definition accepted (log : list (FrameMsg * TrySend)) : list FrameMsg :=
  omap (fun '(m, a) => if bool_decide (a = Accepted) then Some m else None) log.

Definition is_frame (m : FrameMsg) : bool := match m with Frame _ => true | EndOfStream => false end.

Definition closed (cs : list Conn) : Prop := Forall (fun c => ended c = true) cs.

(** The last connection, still up, with [f] its framer once it has cut the
    frames [rest]. *)
Definition serving (cs : list Conn) (d : Drain) (rest : list bytes) : Prop :=
  exists cs0 c fs fuel F, cs = cs0 ++ [c] /\ closed cs0 /\ ended c = false /\
    Framer.feed_all Framer.new (chunks c) = Val (fs, F) /\
    Framer.drain_fuel fuel (framer d) = Val (rest, F) /\
    conn_bytes d = len (concat (chunks c)).

Definition at_pc (d : Drain) (cs : list Conn) (out : list FrameMsg) : Prop :=
  match pc d with
  | Accepting => closed cs /\ out = streams cs /\ owes_eos d = owes cs
  | Reading => out = streams cs /\ owes_eos d = owes cs /\
      exists cs0 c fs, cs = cs0 ++ [c] /\ closed cs0 /\ ended c = false /\
        Framer.feed_all Framer.new (chunks c) = Val (fs, framer d) /\
        conn_bytes d = len (concat (chunks c))
  | Framing => owes_eos d = owes cs /\
      exists rest, serving cs d rest /\ out ++ (Frame <$> rest) = streams cs
  | SendingEos true => closed cs /\ out ++ [EndOfStream] = streams cs /\ owes cs = false
  | SendingEos false => out = streams cs /\ owes cs = true
  | Exited => out = streams cs ++ (if owes cs then [EndOfStream] else [])
  end.

Definition connected (p : Pc) : bool :=
  match p with Reading | Framing | SendingEos true => true | _ => false end.

Record drain_ok (d : Drain) (s : Shared) : Prop := {
  dr_pc : at_pc d (conns s) (offers (offered s));
  dr_framer : Framer.framer_ok (framer d);
  dr_chunks : Forall (fun c => Forall (fun chunk => chunk <> []) (chunks c)) (conns s);
  dr_bytes : bytes_in (metrics s) = len (concat (concat (map chunks (conns s))));
  dr_frames : frames (metrics s) = countb (fun a => is_frame (fst a)) (offered s);
  dr_overflow : overflow_frames (metrics s) =
    countb (fun a => is_frame (fst a) && bool_decide (snd a <> Accepted)) (offered s);
  dr_latch : overflowed (metrics s) = (0 <? overflow_frames (metrics s));
  dr_empty : empty_connections (metrics s) =
    countb (fun c => ended c && negb (carried c)) (conns s);
  dr_peer : (if peer (metrics s) then true else false) = connected (pc d);
  dr_tx : tx_alive (channel s) = bool_decide (pc d <> Exited);
  dr_rx : rx_alive (channel s) = true -> Forall (fun a => snd a <> Disconnected) (offered s);
  dr_queue : len (queue (channel s)) <= Z.max 0 (capacity (channel s));
}.

Lemma feed_all_snoc f cs c :
  Framer.feed_all f (cs ++ [c]) =
  let! (fs, f1) := Framer.feed_all f cs in let! (fs2, f2) := Framer.feed f1 c in Val (fs ++ fs2, f2).
Proof.
  revert f. induction cs as [| c0 cs IH]; intros f; cbn [app Framer.feed_all rust_bind].
  - destruct (Framer.feed f c) as [[fs f'] | |]; cbn; [by rewrite app_nil_r | done | done].
  - destruct (Framer.feed f c0) as [[fs f'] | |]; cbn [rust_bind]; [| done | done].
    rewrite IH. destruct (Framer.feed_all f' cs) as [[fs1 f1] | |]; cbn [rust_bind]; [| done | done].
    destruct (Framer.feed f1 c) as [[fs2 f2] | |]; cbn [rust_bind]; [| done | done].
    by rewrite app_assoc.
Qed.

Lemma streams_snoc cs c : streams (cs ++ [c]) = streams cs ++ conn_stream c.
Proof. unfold streams. rewrite map_app, concat_app. cbn. by rewrite app_nil_r. Qed.

Lemma owes_snoc cs c : owes (cs ++ [c]) = if carried c then negb (ended c) else owes cs.
Proof. unfold owes. by rewrite foldl_snoc. Qed.

Lemma offers_snoc log m a :
  offers (log ++ [(m, a)]) = offers log ++ (if bool_decide (m = EndOfStream /\ a = Full) then [] else [m]).
Proof. unfold offers. rewrite omap_app. cbn. by case_bool_decide. Qed.

Lemma accepted_snoc log m a :
  accepted (log ++ [(m, a)]) = accepted log ++ (if bool_decide (a = Accepted) then [m] else []).
Proof. unfold accepted. rewrite omap_app. cbn. by case_bool_decide. Qed.

Lemma last_conn_snoc f cs c : last_conn f (cs ++ [c]) = cs ++ [f c].
Proof. unfold last_conn. rewrite rev_app_distr. cbn. by rewrite rev_involutive. Qed.

(** What [offer] does to the queue and its history. *)
Lemma offer_cases m s :
  let '(a, s') := offer m s in
  offered s' = offered s ++ [(m, a)] /\ conns s' = conns s /\ metrics s' = metrics s /\
  capacity (channel s') = capacity (channel s) /\
  tx_alive (channel s') = tx_alive (channel s) /\ rx_alive (channel s') = rx_alive (channel s) /\
  queue (channel s') = queue (channel s) ++ (if bool_decide (a = Accepted) then [m] else []) /\
  (rx_alive (channel s) = true <-> a <> Disconnected) /\
  (a = Accepted -> len (queue (channel s)) < capacity (channel s)).
Proof.
  unfold offer, try_send. destruct (rx_alive (channel s)) eqn:Er; cbn [negb].
  - destruct (Z.leb_spec (capacity (channel s)) (len (queue (channel s)))); cbn; rewrite ?Er, ?app_nil_r;
      split_and!; try done.
  - cbn. rewrite ?Er, ?app_nil_r. by split_and!.
Qed.

(** The part of the counters only the sender writes. *)
Definition sender_part (m : Metrics) :=
  (batches m, messages_abandoned m, encode_errors m, send_errors m).

(** What the sender sees of a drain step: more messages in its queue. *)
Record drain_frame (s s' : Shared) : Prop := {
  df_sender : sender_part (metrics s') = sender_part (metrics s);
  df_rx : rx_alive (channel s') = rx_alive (channel s);
  df_grow : exists new, queue (channel s') = queue (channel s) ++ new /\
    accepted (offered s') = accepted (offered s) ++ new /\
    (rx_alive (channel s) = false -> new = []);
}.

Lemma drain_frame_same s s' :
  sender_part (metrics s') = sender_part (metrics s) -> rx_alive (channel s') = rx_alive (channel s) ->
  queue (channel s') = queue (channel s) -> offered s' = offered s -> drain_frame s s'.
Proof.
  intros ? ? Hq Ho. constructor; try done. exists []. by rewrite Hq, Ho, !app_nil_r.
Qed.

Definition drain_event_ok (ev : DrainEvent) : Prop :=
  match ev with ReadResult (Ok bs) _ => is_bytes bs | _ => True end.

Definition drained_to (s : Shared) (ds : Drain * Shared) : Prop :=
  drain_ok (fst ds) (snd ds) /\ drain_frame s (snd ds).

Lemma leave_ok d s :
  drain_ok d s -> pc d = Accepting \/ pc d = Reading -> drained_to s (leave d s).
Proof.
  intros [Hpc Hf Hc Hb Hfr Ho Hl He Hp Ht Hr Hq] Hat. unfold leave.
  assert (Hout : offers (offered s) = streams (conns s) /\ owes_eos d = owes (conns s)).
  { unfold at_pc in Hpc. destruct Hat as [E | E]; rewrite E in Hpc;
      [destruct Hpc as (_ & ? & ?) | destruct Hpc as (? & ? & _)]; by split. }
  destruct Hout as [Hout Howes]. destruct (owes_eos d) eqn:Eo.
  - split; [constructor; try done; cbn | by apply drain_frame_same].
    rewrite Ht. by destruct Hat as [-> | ->].
  - split; [constructor; try done; cbn | by apply drain_frame_same].
    change (offers (offered s) = streams (conns s) ++ (if owes (conns s) then [EndOfStream] else [])).
    by rewrite <- Howes, app_nil_r.
Qed.

Lemma concat_nil_iff (ls : list bytes) :
  Forall (fun l => l <> []) ls -> len (concat ls) = 0 <-> ls = [].
Proof.
  intros H. destruct H as [| l ls Hl _]; [by split |]. split; [| done].
  cbn [concat]. rewrite len_app. destruct l; [done |]. rewrite len_cons.
  pose proof (len_nonneg l). pose proof (len_nonneg (concat ls)). lia.
Qed.

Lemma carried_end c e : carried (mkConn (chunks c) e) = carried c.
Proof. done. Qed.

Lemma conn_stream_end c :
  conn_stream (mkConn (chunks c) true) = (Frame <$> conn_frames c) ++ (if carried c then [EndOfStream] else []).
Proof. done. Qed.

Lemma conn_stream_up c : ended c = false -> conn_stream c = Frame <$> conn_frames c.
Proof. intros H. unfold conn_stream. by rewrite H, app_nil_r. Qed.

Lemma connection_over_ok d s :
  drain_ok d s -> pc d = Reading -> drained_to s (connection_over d s).
Proof.
  intros [Hpc Hf Hc Hb Hfr Ho Hl He Hp Ht Hr Hq] Hat. unfold connection_over.
  unfold at_pc in Hpc. rewrite Hat in Hpc.
  destruct Hpc as (Hout & Howes & cs0 & c & fs & Hcs & Hcl & Hend & Hfeed & Hcb).
  rewrite Hcs in Hc. apply Forall_app in Hc as [Hc0 Hc1]. apply Forall_inv in Hc1.
  assert (Hnil : conn_bytes d = 0 <-> chunks c = []) by (rewrite Hcb; by apply concat_nil_iff).
  assert (Hs1 : last_conn (fun c => mkConn (chunks c) true) (conns s) = cs0 ++ [mkConn (chunks c) true])
    by by rewrite Hcs, last_conn_snoc.
  assert (Hcl1 : closed (cs0 ++ [mkConn (chunks c) true])).
  { apply Forall_app. split; [done |]. by constructor. }
  assert (Hchk : Forall (fun c => Forall (fun chunk => chunk <> []) (chunks c)) (cs0 ++ [mkConn (chunks c) true])).
  { apply Forall_app. split; [done |]. by constructor. }
  assert (Hmap : map chunks (cs0 ++ [mkConn (chunks c) true]) = map chunks (conns s)).
  { by rewrite Hcs, !map_app. }
  destruct (Z.eqb_spec (conn_bytes d) 0) as [Hz | Hz].
  - assert (Hz' : carried c = false).
    { unfold carried. by rewrite bool_decide_true by by apply Hnil. }
    split; [| by apply drain_frame_same].
    constructor; cbn -[owes streams offers carried]; rewrite ?Hs1, ?Hmap; try done.
    + unfold at_pc. cbn -[owes streams offers]. rewrite ?Hs1. split_and!; [done | |].
      * rewrite Hout, Hcs, !streams_snoc, conn_stream_up, conn_stream_end, Hz' by done.
        by rewrite app_nil_r.
      * by rewrite Howes, Hcs, !owes_snoc, Hz', carried_end, Hz'.
    + rewrite He, Hcs, !countb_app. cbn -[carried]. rewrite carried_end, Hz', Hend. cbn. lia.
    + rewrite Ht. by rewrite Hat.
  - assert (Hz' : carried c = true).
    { unfold carried. by rewrite bool_decide_false by (intros E; by apply Hnil in E). }
    split; [| by apply drain_frame_same].
    constructor; cbn -[owes streams offers carried]; rewrite ?Hs1, ?Hmap; try done.
    + unfold at_pc. cbn -[owes streams offers]. rewrite ?Hs1. split_and!; [done | |].
      * by rewrite Hout, Hcs, !streams_snoc, conn_stream_up, conn_stream_end, Hz', app_assoc by done.
      * by rewrite owes_snoc, carried_end, Hz'.
    + rewrite He, Hcs, !countb_app. cbn -[carried]. rewrite carried_end, Hz', Hend. cbn. lia.
    + by rewrite Hp, Hat.
    + by rewrite Ht, Hat.
Qed.

Lemma accept_ok a d s :
  drain_ok d s -> pc d = Accepting -> runs True (drained_to s) (drain_step (AcceptedConn (Ok a)) d s).
Proof.
  intros [Hpc Hf Hc Hb Hfr Ho Hl He Hp Ht Hr Hq] Hat. unfold drain_step. rewrite Hat.
  unfold at_pc in Hpc. rewrite Hat in Hpc. destruct Hpc as (Hcl & Hout & Howes).
  cbn [runs]. split; [| by apply drain_frame_same].
  constructor; cbn -[owes streams offers carried]; try done.
  - unfold at_pc. cbn -[owes streams offers]. split_and!.
    + by rewrite Hout, streams_snoc, conn_stream_up, app_nil_r by done.
    + by rewrite owes_snoc.
    + by exists (conns s), (mkConn [] false), [].
  - apply Forall_app. split; [done |]. by repeat constructor.
  - by rewrite map_app, concat_app, app_nil_r.
  - rewrite countb_app. cbn. lia.
  - by rewrite Ht, Hat.
Qed.

Lemma read_ok chunk now d s :
  drain_ok d s -> pc d = Reading -> is_bytes chunk -> chunk <> [] ->
  runs True (drained_to s) (drain_step (ReadResult (Ok chunk) now) d s).
Proof.
  intros [Hpc Hf Hc Hb Hfr Ho Hl He Hp Ht Hr Hq] Hat Hbs Hne.
  unfold at_pc in Hpc. rewrite Hat in Hpc.
  destruct Hpc as (Hout & Howes & cs0 & c & fs & Hcs & Hcl & Hend & Hfeed & Hcb).
  rewrite Hcs in Hc. apply Forall_app in Hc as [Hc0 Hc1]. apply Forall_inv in Hc1.
  destruct (Framer.push_spec (framer d) chunk Hf Hbs) as (f & Hpush & Hf' & _).
  destruct (Framer.drain_drained f Hf') as (rest & F & Hdrain & _).
  unfold drain_step. rewrite Hat. destruct chunk as [| b chunk]; [done |].
  assert (Hfr1 : framer (if conn_bytes d =? 0 then d <| owes_eos := true |> else d) = framer d)
    by by destruct (conn_bytes d =? 0).
  rewrite Hfr1, Hpush. cbn [rust_bind]. set (c' := mkConn (chunks c ++ [b :: chunk]) (ended c)).
  assert (Hs1 : last_conn (fun c => mkConn (chunks c ++ [b :: chunk]) (ended c)) (conns s) = cs0 ++ [c'])
    by by rewrite Hcs, last_conn_snoc.
  assert (Hcar : carried c' = true).
  { unfold carried. rewrite bool_decide_false; [done |]. cbn. by destruct (chunks c). }
  assert (Hfeed' : Framer.feed_all Framer.new (chunks c') = Val (fs ++ rest, F)).
  { cbn. rewrite feed_all_snoc, Hfeed. cbn [rust_bind]. unfold Framer.feed. rewrite Hpush.
    cbn [rust_bind]. by rewrite Hdrain. }
  cbn [runs]. split; [| by apply drain_frame_same].
  constructor; cbn -[owes streams offers carried Z.ltb len]; rewrite ?Hs1; try done.
  - unfold at_pc. cbn -[owes streams offers Z.eqb]. rewrite ?Hs1. split.
    + rewrite owes_snoc, Hcar. cbn. rewrite Hend. destruct (Z.eqb_spec (conn_bytes d) 0); [done |].
      cbn. rewrite Howes, Hcs, owes_snoc. unfold carried. rewrite bool_decide_false, Hend; [done |].
      intros E. apply concat_nil_iff in E; [| done]. lia.
    + exists rest. split.
      * exists cs0, c', (fs ++ rest), (S (length (Framer.buf f))), F. split_and!; try done.
        cbn -[len Z.eqb]. rewrite concat_app, len_app. cbn [concat]. rewrite app_nil_r, <- Hcb.
        destruct (conn_bytes d =? 0); cbn -[len]; lia.
      * rewrite Hout, Hcs, !streams_snoc, !conn_stream_up, <- app_assoc by done. f_equal.
        unfold conn_frames. by rewrite Hfeed, Hfeed', fmap_app.
  - apply Forall_app. split; [done |]. constructor; [| done]. cbn. apply Forall_app. split; [done |].
    by repeat constructor.
  - rewrite Hb, Hcs, !map_app, !concat_app, !len_app. cbn -[len].
    rewrite !app_nil_r, concat_app, len_app. cbn [concat]. rewrite app_nil_r. lia.
  - rewrite He, Hcs, !countb_app. cbn -[carried]. fold c'. rewrite Hend. cbn. lia.
  - by rewrite Hp, Hat.
  - by rewrite Ht, Hat.
Qed.

(** What one more offer, and its counters, does to the accounting. *)
Lemma offer_frame m s :
  let '(a, s') := offer m s in
  drain_frame s s' /\
  (rx_alive (channel s) = true -> Forall (fun a => snd a <> Disconnected) (offered s) ->
   Forall (fun a => snd a <> Disconnected) (offered s')) /\
  (len (queue (channel s)) <= Z.max 0 (capacity (channel s)) ->
   len (queue (channel s')) <= Z.max 0 (capacity (channel s))).
Proof.
  pose proof (offer_cases m s) as H. destruct (offer m s) as [a s'].
  destruct H as (Ho & _ & Hm & Hcap & _ & Hrx & Hq & Hdead & Hroom). split_and!.
  - constructor; [by rewrite Hm | done |]. eexists. split_and!; [exact Hq | |].
    + by rewrite Ho, accepted_snoc.
    + intros E. case_bool_decide; [| done]. subst. rewrite E in Hdead. destruct Hdead as [_ Hd]. by specialize (Hd ltac:(discriminate)).
  - intros Hr Hall. rewrite Ho. apply Forall_app. split; [done |]. constructor; [| done]. by apply Hdead.
  - intros Hlen. rewrite Hq, len_app. case_bool_decide as Ea; [specialize (Hroom Ea) |]; cbn; unfold len in *; cbn; lia.
Qed.

Lemma latch_incr n b : 0 <= n -> b = (0 <? n) -> true = (0 <? Z.succ n).
Proof. intros ? _. symmetry. apply Z.ltb_lt. lia. Qed.

Lemma frame_ok d s :
  drain_ok d s -> pc d = Framing -> runs True (drained_to s) (drain_step Resume d s).
Proof.
  intros [Hpc Hf Hc Hb Hfr Ho Hl He Hp Ht Hr Hq] Hat.
  unfold at_pc in Hpc. rewrite Hat in Hpc.
  destruct Hpc as (Howes & rest & (cs0 & c & fs & fuel & F & Hcs & Hcl & Hend & Hfeed & Hdrain & Hcb) & Hout).
  unfold drain_step. rewrite Hat. destruct fuel as [| fuel]; [done |]. cbn [Framer.drain_fuel] in Hdrain.
  assert (Hnext : exists o f, Framer.next (framer d) = Val (o, f) /\ Framer.framer_ok f).
  { destruct (Framer.next_cases (framer d) Hf) as [(g & f & -> & ? & _) | [[-> _] | (f & -> & ? & _)]]; eauto. }
  destruct Hnext as (o & f & Hn & Hf'). rewrite Hn in *. cbn [rust_bind] in *. destruct o as [g |].
  - destruct (Framer.drain_fuel fuel f) as [[rest' F'] | |] eqn:Ed; [| done | done].
    cbn [rust_bind] in Hdrain. injection Hdrain as <- <-.
    set (s1 := s <| metrics ::= _ |>).
    pose proof (offer_frame (Frame g) s1) as Hof. pose proof (offer_cases (Frame g) s1) as Hoc.
    destruct (offer (Frame g) s1) as [a s2].
    destruct Hof as (Hframe & Hrx2 & Hq2), Hoc as (Ho2 & Hc2 & Hm2 & Hcap2 & Htx2 & Hrxe & _).
    assert (Hacc : drain_ok (d <| framer := f |>)
              (match a with Accepted => s2 | _ => s2 <| metrics ::= record_dropped_frame |> end)).
    { assert (Hpc' : at_pc (d <| framer := f |>) (conns s2) (offers (offered s2))).
      { unfold at_pc. cbn -[owes streams offers]. rewrite Hat, Hc2, Ho2. split; [done |].
        exists rest'. split; [by exists cs0, c, fs, fuel, F' |].
        cbn -[owes streams offers]. rewrite offers_snoc. rewrite bool_decide_false by (intros [? _]; discriminate).
        rewrite <- Hout. by rewrite <- app_assoc. }
      assert (Hcount : forall p, countb p (offered s2) = countb p (offered s) + (if p (Frame g, a) then 1 else 0)).
      { intros p. rewrite Ho2, countb_app. cbn. lia. }
      rewrite Hc2 in Hpc'.
      assert (0 <= overflow_frames (metrics s)) by (rewrite Ho; apply countb_nonneg).
      destruct a; constructor; cbn -[owes streams offers carried Z.ltb]; rewrite ?Hc2, ?Hm2, ?Hcount, ?Htx2, ?Hcap2;
        cbn -[owes streams offers carried Z.ltb]; rewrite <- ?Ho, <- ?Hfr; try done; try lia; auto.
      all: try (by eapply latch_incr).
      all: try (rewrite bool_decide_false by (intros E; by apply E); lia).
      all: intros E; apply Hrx2; [| apply Hr]; (etrans; [symmetry; exact Hrxe | exact E]). }
    cbn [runs]. split; cbn [fst snd].
    + exact Hacc.
    + destruct Hframe as [Hs1 Hs2 Hs3]. by destruct a; constructor.
  - injection Hdrain as <- <-. rewrite app_nil_r in Hout. cbn [fmap list_fmap] in Hout.
    cbn [runs]. destruct (_ =? seen_resets _); (split; [| by apply drain_frame_same]).
    all: constructor; cbn -[owes streams offers carried Z.ltb len]; try done.
    all: try (by rewrite ?Hp, ?Ht, Hat).
    all: unfold at_pc; cbn -[owes streams offers]; split_and!; try done.
    all: by exists cs0, c, fs.
Qed.

Lemma eos_ok then_accept d s :
  drain_ok d s -> pc d = SendingEos then_accept -> runs True (drained_to s) (drain_step Resume d s).
Proof.
  intros [Hpc Hf Hc Hb Hfr Ho Hl He Hp Ht Hr Hq] Hat. unfold drain_step. rewrite Hat.
  pose proof (offer_frame EndOfStream s) as Hof. pose proof (offer_cases EndOfStream s) as Hoc.
  destruct (offer EndOfStream s) as [a s2].
  destruct Hof as (Hframe & Hrx2 & Hq2), Hoc as (Ho2 & Hc2 & Hm2 & Hcap2 & Htx2 & Hrxe & _).
  assert (Hrx3 : rx_alive (channel s2) = true -> Forall (fun a => snd a <> Disconnected) (offered s2)).
  { rewrite Hrxe. auto. }
  assert (Hcount : forall p, p (EndOfStream, a) = false -> countb p (offered s2) = countb p (offered s)).
  { intros p Ep. rewrite Ho2, countb_app. cbn. rewrite Ep. lia. }
  unfold at_pc in Hpc. rewrite Hat in Hpc.
  destruct (decide (a = Full)) as [-> | Ha].
  - cbn [runs]. split; [| done]. constructor; cbn [fst snd]; rewrite ?Hc2, ?Hm2, ?Htx2, ?Hcap2, ?Hcount by done; auto.
    unfold at_pc. rewrite Hat, Ho2, offers_snoc, bool_decide_true, app_nil_r by done. exact Hpc.
  - assert (Hoff : offers (offered s2) = offers (offered s) ++ [EndOfStream]).
    { rewrite Ho2, offers_snoc, bool_decide_false; [done |]. by intros [_ ?]. }
    assert (Hans : forall A (x y : A), match a with Full => x | _ => y end = y) by by destruct a.
    rewrite Hans. destruct then_accept; cbn [runs].
    + destruct Hpc as (Hcl & Hout & Howes). split.
      2: { destruct Hframe as [Hs1 Hs2 Hs3]. by constructor. }
      constructor; cbn -[owes streams offers carried Z.ltb len];
        rewrite ?Hc2, ?Hm2, ?Htx2, ?Hcap2, ?Hcount by done; auto.
      * unfold at_pc. cbn -[owes streams offers]. by rewrite Hoff, Hout, Howes.
      * by rewrite Ht, Hat.
    + destruct Hpc as (Hout & Howes). split.
      2: { destruct Hframe as [Hs1 Hs2 Hs3]. by constructor. }
      constructor; cbn -[owes streams offers carried Z.ltb len];
        rewrite ?Hc2, ?Hm2, ?Htx2, ?Hcap2, ?Hcount by done; auto.
      * unfold at_pc. cbn -[owes streams offers]. by rewrite Hoff, Hout, Howes.
      * by rewrite Hp, Hat.
Qed.

Lemma drain_step_ok ev d s :
  drain_event_ok ev -> drain_ok d s -> runs True (drained_to s) (drain_step ev d s).
Proof.
  intros Hev Hok. assert (Hsame : drained_to s (d, s)) by (split; [done | by apply drain_frame_same]).
  destruct (pc d) as [| | | e |] eqn:Hat.
  - destruct ev as [| [a | e] | r now | r |]; try (unfold drain_step; rewrite Hat; exact Hsame).
    + unfold drain_step. rewrite Hat. apply leave_ok; auto.
    + by apply accept_ok.
  - destruct ev as [| r | [[| b chunk] | e] now | r |]; try (unfold drain_step; rewrite Hat; exact Hsame).
    + unfold drain_step. rewrite Hat. apply leave_ok; auto.
    + unfold drain_step. rewrite Hat. by apply connection_over_ok.
    + by apply read_ok.
    + unfold drain_step. rewrite Hat. by apply connection_over_ok.
    + unfold drain_step. rewrite Hat. destruct (reject_extra d); [| exact Hsame].
      destruct Hok as [Hpc Hf Hc Hb Hfr Ho Hl He Hp Ht Hr Hq]. unfold at_pc in Hpc. rewrite Hat in Hpc.
      destruct r; (cbn [runs reject_extra_connection]; split; [| by apply drain_frame_same]);
        constructor; cbn -[owes streams offers carried Z.ltb len]; try done.
      all: unfold at_pc; cbn -[owes streams offers]; by rewrite Hat.
  - destruct ev; try (unfold drain_step; rewrite Hat; exact Hsame). by apply frame_ok.
  - destruct ev; try (unfold drain_step; rewrite Hat; exact Hsame). by eapply eos_ok.
  - unfold drain_step. rewrite Hat. exact Hsame.
Qed.

(** ** The run *)

Record link_ok (cfg : SenderConfig) (terms : Z) (t : Sender) (s : Shared) : Prop := {
  lk_stream : exists consumed lost,
    talked cfg terms consumed t (metrics s) /\
    consumed ++ queue (channel s) ++ lost = accepted (offered s) /\
    (rx_alive (channel s) = true -> lost = []);
  lk_running : running t = true ->
    rx_alive (channel s) = true /\ (batch_deadline t = None <-> batch t = []);
}.

Definition run_ok (cfg : SenderConfig) (terms : Z) (r : Run) : Prop :=
  drain_ok (drain r) (shared r) /\ link_ok cfg terms (sender r) (shared r).

Definition event_ok (ev : Event) : Prop :=
  match ev with DrainRuns ev => drain_event_ok ev | _ => True end.

Definition is_turn (ev : Event) : bool := match ev with SenderRuns _ => true | _ => false end.

Lemma talked_metrics cfg terms consumed t m m' :
  talked cfg terms consumed t m -> sender_part m' = sender_part m -> talked cfg terms consumed t m'.
Proof.
  intros [(msgs & n & H1 & H2 & H3 & H4) Hb Hf Hs] [= E1 E2 E3 E4].
  constructor; [exists msgs, n; by rewrite E1 | done | lia | lia].
Qed.

Lemma link_drain cfg terms t s s' : link_ok cfg terms t s -> drain_frame s s' -> link_ok cfg terms t s'.
Proof.
  intros [(consumed & lost & Ht & Hq & Hl) Hr] [Hs Hrx (new & Hq' & Ha' & Hdead)].
  constructor; [| by rewrite Hrx]. exists consumed, lost. split_and!.
  - by eapply talked_metrics.
  - rewrite Hq', Ha', <- Hq. destruct (rx_alive (channel s)).
    + rewrite Hl by done. by rewrite !app_nil_r, app_assoc.
    + rewrite Hdead by done. by rewrite !app_nil_r.
  - by rewrite Hrx.
Qed.

Lemma drain_ok_ext d s s' :
  drain_ok d s -> drain_part (metrics s') = drain_part (metrics s) -> offered s' = offered s ->
  conns s' = conns s -> tx_alive (channel s') = tx_alive (channel s) ->
  (rx_alive (channel s') = true -> rx_alive (channel s) = true) ->
  capacity (channel s') = capacity (channel s) -> len (queue (channel s')) <= len (queue (channel s)) ->
  drain_ok d s'.
Proof.
  intros [Hpc Hf Hc Hb Hfr Ho Hl He Hp Ht Hr Hq] [= E1 E2 E3 E4 E5 E6 E7 E8 E9] Eo Ec Etx Erx Ecap Eq.
  constructor; rewrite ?Eo, ?Ec, ?Etx, ?Ecap, ?E1, ?E2, ?E3, ?E4, ?E5, ?E6, ?E7, ?E8, ?E9; try done; [auto | lia].
Qed.

Section run_lemmas.
Variable to_msgpack : Message RawFrames -> result bytes string.
Variable cfg : SenderConfig.
Variable terms : Z.

(** One turn of the sender, on a running system. *)
Lemma sender_turn_ok tn d t s :
  drain_ok d s -> link_ok cfg terms t s ->
  runs (rich 2 (links t))
    (fun '(t', s') => drain_ok d s' /\ link_ok cfg terms t' s' /\
       map name (links t') = map name (links t) /\ (forall n, rich (n + 2) (links t) -> rich n (links t')))
    (sender_turn to_msgpack cfg tn t s).
Proof.
  intros Hd Hl. unfold sender_turn.
  assert (Hrich : forall n, rich (n + 2) (links t) -> rich n (links t)) by (intros n; apply rich_le; lia).
  destruct (running t) eqn:Erun; cbn [negb]; [| cbn; by split_and!].
  destruct Hl as [(consumed & lost & Ht & Hq & Hlost) Hr]. destruct (Hr Erun) as [Hrx Hdl].
  destruct (abandon_raised tn).
  { cbn. split_and!; try done. constructor; [| done]. exists consumed, lost. split_and!; try done.
    by eapply talked_ext. }
  destruct (recv_timeout (channel s)) as [rc c] eqn:Erc.
  assert (Hc : queue (channel s) = recv_stream rc ++ queue c /\ capacity c = capacity (channel s) /\
    tx_alive c = tx_alive (channel s) /\ rx_alive c = rx_alive (channel s)).
  { unfold recv_timeout in Erc. destruct (queue (channel s)) as [| m q] eqn:Eq.
    - injection Erc as <- <-. rewrite Eq. split_and!; try done. by destruct (tx_alive (channel s)).
    - by injection Erc as <- <-. }
  destruct Hc as (Hcq & Hcap & Htx & Hrx').
  eapply runs_bind; [by apply (sender_recv_effect to_msgpack cfg terms tn rc consumed) |].
  intros [[alive t'] m'] (Ht' & [Kd Kr Kn Krich] & Hdl'). cbn [runs].
  assert (Hlk : forall t2, links t2 = links t' -> batch t2 = batch t' -> batch_bytes t2 = batch_bytes t' ->
    heartbeat_counter t2 = heartbeat_counter t' -> eos_sent t2 = eos_sent t' ->
    (running t2 = true -> batch_deadline t2 = None <-> batch t2 = []) ->
    link_ok cfg terms t2 (s <| channel := c |> <| metrics := m' |>)).
  { intros t2 ? ? ? ? ? Hd2. constructor; [| intros E; split; [cbn; congruence | auto]].
    exists (consumed ++ recv_stream rc), lost.
    split_and!; [by eapply talked_ext | | intros _; by apply Hlost].
    change (channel (s <| channel := c |> <| metrics := m' |>)) with c.
    by rewrite <- app_assoc, (app_assoc (recv_stream rc)), <- Hcq. }
  split_and!.
  - eapply drain_ok_ext; [exact Hd | done | done | done | done | cbn; congruence | done |].
    cbn -[len]. rewrite Hcq, len_app. pose proof (len_nonneg (recv_stream rc)). lia.
  - destruct alive; apply Hlk; try done. intros _. by apply Hdl'.
  - by destruct alive.
  - destruct alive; exact Krich.
Qed.

Lemma run_step_ok ev r :
  event_ok ev -> run_ok cfg terms r ->
  runs (is_turn ev = true -> rich 2 (links (sender r)))
    (fun r' => run_ok cfg terms r' /\ map name (links (sender r')) = map name (links (sender r)) /\
       forall n, rich (n + (if is_turn ev then 2 else 0)) (links (sender r)) -> rich n (links (sender r')))
    (run_step to_msgpack cfg ev r).
Proof.
  intros Hev [Hd Hl]. destruct ev as [ev | tn |]; cbn [run_step is_turn].
  - eapply runs_bind.
    { eapply runs_mono; [by apply drain_step_ok | done | intros a Ha; exact Ha]. }
    intros [d' s'] [Hd' Hf]. cbn. split_and!; [split; [done |] | done |].
    + by eapply link_drain.
    + intros n. by rewrite Z.add_0_r.
  - eapply runs_bind.
    { eapply runs_mono; [by apply sender_turn_ok | auto | intros a Ha; exact Ha]. }
    intros [t' s'] (Hd' & Hl' & Hn & Hrich). cbn. by split_and!.
  - cbn [runs]. destruct (running (sender r)) eqn:Er; cbn.
    { split_and!; [done | done |]. intros n. by rewrite Z.add_0_r. }
    split_and!; [split; cbn | done |].
    + eapply drain_ok_ext; [exact Hd | done | done | done | done | done | done |].
      cbn -[len]. rewrite len_nil. apply len_nonneg.
    + destruct Hl as [(consumed & lost & Ht & Hq & Hlost) Hr]. constructor; cbn; [| by rewrite Er].
      exists consumed, (queue (channel (shared r)) ++ lost). by split_and!.
    + intros n. by rewrite Z.add_0_r.
Qed.

Lemma run_all_ok evs r :
  Forall event_ok evs -> run_ok cfg terms r ->
  runs (rich (2 * countb is_turn evs) (links (sender r)))
    (fun r' => run_ok cfg terms r' /\ map name (links (sender r')) = map name (links (sender r)))
    (run_all to_msgpack cfg evs r).
Proof.
  intros Hevs. revert r. induction Hevs as [| ev evs Hev Hevs IH]; intros r Hr; [done |].
  cbn [run_all]. pose proof (run_step_ok ev r Hev Hr) as Hs.
  pose proof (countb_nonneg is_turn evs).
  destruct (run_step to_msgpack cfg ev r) as [r1 | |]; cbn [rust_bind].
  - destruct Hs as (Hr1 & Hn & Hrich). eapply runs_mono; [by apply IH | |].
    + cbn [countb]. intros H1. apply Hrich. eapply rich_le; [| exact H1]. destruct (is_turn ev); lia.
    + cbn. intros r' [? ?]. split; [done | congruence].
  - done.
  - cbn in *. intros Hrich. apply Hs. intros Et. rewrite Et in Hrich. by eapply rich_le; [| exact Hrich]; lia.
Qed.
End run_lemmas.

Lemma run_start_ok cfg queue_frames graw decoder now m :
  run_ok cfg (eterms graw + eterms decoder) (run_start queue_frames graw decoder now m).
Proof.
  split.
  - constructor; cbn -[len]; try done.
    + by split_and!; [constructor | |].
    + change (0 <= Z.max 0 queue_frames). lia.
  - constructor; cbn; [| done]. exists [], []. split_and!; [| done | done].
    constructor; cbn; [| done | done | unfold sum, eterms; cbn; lia].
    exists [], 0. split_and!; [by repeat constructor | done | done | done].
Qed.

(** ** Offered and accepted *)

Lemma offers_cons m a log :
  offers ((m, a) :: log) = (if bool_decide (m = EndOfStream /\ a = Full) then [] else [m]) ++ offers log.
Proof. unfold offers. cbn. by case_bool_decide. Qed.

Lemma accepted_cons m a log :
  accepted ((m, a) :: log) = (if bool_decide (a = Accepted) then [m] else []) ++ accepted log.
Proof. unfold accepted. cbn. by case_bool_decide. Qed.

(** With the sender there, the queue refuses frames only, and each refusal is
    counted. *)
Lemma offers_accepted log :
  Forall (fun a => snd a <> Disconnected) log ->
  countb (fun a => is_frame (fst a) && bool_decide (snd a <> Accepted)) log = 0 ->
  accepted log = offers log.
Proof.
  induction 1 as [| [m a] log Ha _ IH]; intros Hc; [done |]. cbn [countb fst snd] in Hc.
  pose proof (countb_nonneg (fun a => is_frame (fst a) && bool_decide (snd a <> Accepted)) log) as Hn.
  destruct (is_frame m && bool_decide (a <> Accepted)) eqn:E; [lia |].
  rewrite offers_cons, accepted_cons, IH by lia. by destruct a, m.
Qed.

Lemma eos_accepted log :
  Forall (fun a => snd a <> Disconnected) log ->
  filter (fun m => is_frame m = false) (accepted log) = filter (fun m => is_frame m = false) (offers log).
Proof.
  induction 1 as [| [m a] log Ha _ IH]; [done |].
  rewrite offers_cons, accepted_cons, !filter_app, IH. f_equal. by destruct a, m.
Qed.

(** The queue messages the task still has to offer before it waits again. *)
Definition settled (p : Pc) : bool :=
  match p with Framing | SendingEos _ => false | _ => true end.

Lemma at_pc_streams d cs out :
  at_pc d cs out ->
  exists missing, out ++ missing = streams cs ++ (if bool_decide (pc d = Exited) && owes cs then [EndOfStream] else []) /\
    (settled (pc d) = true -> missing = []).
Proof.
  unfold at_pc. destruct (pc d) as [| | | [] |]; cbn; rewrite ?app_nil_r.
  - intros (_ & -> & _). exists []. by rewrite app_nil_r.
  - intros (-> & _). exists []. by rewrite app_nil_r.
  - intros (_ & rest & _ & <-). by eexists.
  - intros (_ & <- & _). by eexists.
  - intros (-> & _). exists []. by rewrite app_nil_r.
  - intros ->. exists []. by rewrite app_nil_r.
Qed.

(** Both links' scripts can answer two sends per turn of the sender. *)
Definition enough_answers (graw decoder : list SendTry) (evs : list Event) : Prop :=
  2 * countb is_turn evs <= answers graw /\ 2 * countb is_turn evs <= answers decoder.

Lemma receiver_run to_msgpack cfg queue_frames graw decoder now m evs :
  Forall event_ok evs ->
  runs (enough_answers graw decoder evs)
    (fun r => run_ok cfg (eterms graw + eterms decoder) r /\
       map name (links (sender r)) = ["graw-writer"; "decoder"]%string)
    (run_all to_msgpack cfg evs (run_start queue_frames graw decoder now m)).
Proof.
  intros Hevs. eapply runs_mono.
  - apply run_all_ok; [done | apply run_start_ok].
  - intros [? ?]. by repeat constructor.
  - done.
Qed.

(** C8: In every interleaving of the drain task and the sender, whatever the
    sockets answer, nothing panics and the run goes on; both links are offered
    the same messages, numbered without gaps under the run's numbers, with no
    heartbeat after an end of stream; those messages, the batch being filled and
    the queue are, in order, exactly what the queue accepted; what the drain task
    offered it is, in order, every frame the connections' bytes cut into, an end
    of stream after each connection that carried data and one at the end if it is
    still owed; and as long as the sender is there no end of stream is refused. *)
Theorem receiver_stream (to_msgpack : Message RawFrames -> result bytes string) (cfg : SenderConfig)
    (queue_frames : Z) (graw decoder : list SendTry) (now : Z) (m : Metrics) (evs : list Event)
    (Hevs : Forall event_ok evs) :
  runs (enough_answers graw decoder evs)
    (fun r =>
       let t := sender r in let log := offered (shared r) in let c := channel (shared r) in
       (exists msgs n lost,
          Forall (same_log msgs n) (links t) /\ length (links t) = 2%nat /\
          numbering cfg msgs = Some (n, heartbeat_counter t, eos_sent t) /\
          stream_of msgs ++ (Frame <$> batch t) ++ queue c ++ lost = accepted log /\
          (rx_alive c = true -> lost = [])) /\
       (exists missing,
          offers log ++ missing = streams (conns (shared r)) ++
            (if bool_decide (pc (drain r) = Exited) && owes (conns (shared r)) then [EndOfStream] else []) /\
          (settled (pc (drain r)) = true -> missing = [])) /\
       (rx_alive c = true ->
          filter (fun m => is_frame m = false) (accepted log) = filter (fun m => is_frame m = false) (offers log)) /\
       len (queue c) <= Z.max 0 (capacity c))
    (run_all to_msgpack cfg evs (run_start queue_frames graw decoder now m)).
Proof.
  eapply runs_mono; [by apply receiver_run | done |]. cbn.
  intros r [[Hd [(consumed & lost & Ht & Hq & Hl) _]] Hn].
  destruct Ht as [(msgs & n & Hlog & Hnum & Hstr & _) _ _ _]. split_and!.
  - exists msgs, n, lost. split_and!; try done.
    + by rewrite <- (length_map name), Hn.
    + by rewrite app_assoc, Hstr.
  - by apply at_pc_streams, (dr_pc _ _ Hd).
  - intros Hrx. by apply eos_accepted, (dr_rx _ _ Hd).
  - apply (dr_queue _ _ Hd).
Qed.

(** Whatever happens, the receiver's counters say it: bytes read, frames
    cut, frames refused (and the latch that makes it an error), connections that
    carried nothing, batches at least one link delivered; every send that failed
    is an encoding or a send error, and every send that was given up was counted
    as abandoned or met a terminated context. *)
Theorem receiver_counters (to_msgpack : Message RawFrames -> result bytes string) (cfg : SenderConfig)
    (queue_frames : Z) (graw decoder : list SendTry) (now : Z) (m : Metrics) (evs : list Event)
    (Hevs : Forall event_ok evs) :
  runs (enough_answers graw decoder evs)
    (fun r =>
       let ct := metrics (shared r) in let ls := links (sender r) in let log := offered (shared r) in
       bytes_in ct = len (concat (concat (map chunks (conns (shared r))))) /\
       frames ct = countb (fun a => is_frame (fst a)) log /\
       overflow_frames ct = countb (fun a => is_frame (fst a) && bool_decide (snd a <> Accepted)) log /\
       overflowed ct = (0 <? overflow_frames ct) /\
       empty_connections ct = countb (fun c => ended c && negb (carried c)) (conns (shared r)) /\
       (forall l, head ls = Some l -> batches ct = rounds_delivered (map snd (attempts l)) ls) /\
       sum failed ls = encode_errors ct + send_errors ct /\
       sum stopped ls + sum (fun l => eterms (socket l)) ls =
         messages_abandoned ct + (eterms graw + eterms decoder) /\
       (if peer ct then true else false) = connected (pc (drain r)))
    (run_all to_msgpack cfg evs (run_start queue_frames graw decoder now m)).
Proof.
  eapply runs_mono; [by apply receiver_run | done |]. cbn -[sum].
  intros r [[[] [(consumed & lost & Ht & _) _]] _].
  destruct Ht as [(msgs & n & Hlog & _ & _ & Hb) _ Hf Hs]. split_and!; try done.
  intros l Hl. destruct (links (sender r)) as [| l0 ls]; [done |]. injection Hl as ->.
  apply Forall_inv in Hlog as [-> _]. done.
Qed.

Lemma sum_zero (f : Link -> Z) ls : (forall l, 0 <= f l) -> sum f ls = 0 -> Forall (fun l => f l = 0) ls.
Proof.
  intros Hf. induction ls as [| l ls IH]; [done |]. cbn. fold (sum f ls). intros H.
  assert (0 <= sum f ls) by (clear -Hf; induction ls; cbn; [lia | fold (sum f ls); specialize (Hf a); lia]).
  specialize (Hf l) as Hl. constructor; [lia | apply IH; lia].
Qed.

Lemma sum_nonneg (f : Link -> Z) ls : (forall l, 0 <= f l) -> 0 <= sum f ls.
Proof. intros Hf. induction ls as [| l ls IH]; cbn; [lia | fold (sum f ls); specialize (Hf l); lia]. Qed.

Lemma all_sent (log : list (SendOutcome * Message RawFrames)) :
  count_outcome Failed log = 0 -> count_outcome Stopped log = 0 -> Forall (fun a => fst a = Sent) log.
Proof.
  induction log as [| [o msg] log IH]; [done |]. unfold count_outcome in *. cbn.
  pose proof (countb_nonneg (fun a : SendOutcome * Message RawFrames => bool_decide (fst a = Failed)) log).
  pose proof (countb_nonneg (fun a : SendOutcome * Message RawFrames => bool_decide (fst a = Stopped)) log).
  intros Hf Hs. destruct (bool_decide (o = Failed)) eqn:Ef; [lia |].
  destruct (bool_decide (o = Stopped)) eqn:Es; [lia |].
  constructor; [by destruct o | apply IH; lia].
Qed.

(** C9: When a run has ended (the drain task has left, the queue and the batch
    are empty) and nothing was counted as lost, every message was delivered on
    both links, and each link carried exactly the frames of every connection in
    order, with the end of stream of every connection that carried data and, if
    the last one was cut off or none carried data, a final one. *)
Theorem receiver_lossless (to_msgpack : Message RawFrames -> result bytes string) (cfg : SenderConfig)
    (queue_frames : Z) (graw decoder : list SendTry) (now : Z) (m : Metrics) (evs : list Event) (r : Run)
    (Hevs : Forall event_ok evs)
    (Hrun : run_all to_msgpack cfg evs (run_start queue_frames graw decoder now m) = Val r)
    (Hleft : pc (drain r) = Exited)
    (Hdone : rx_alive (channel (shared r)) = true /\ queue (channel (shared r)) = [] /\ batch (sender r) = [])
    (Hterms : eterms graw = 0 /\ eterms decoder = 0)
    (Hlost : let ct := metrics (shared r) in
       overflow_frames ct = 0 /\ messages_abandoned ct = 0 /\ encode_errors ct = 0 /\ send_errors ct = 0) :
  Forall (fun l =>
    Forall (fun a => fst a = Sent) (attempts l) /\
    stream_of (map snd (attempts l)) =
      streams (conns (shared r)) ++ (if owes (conns (shared r)) then [EndOfStream] else []))
    (links (sender r)).
Proof.
  destruct Hdone as (Hrx & Hq0 & Hb0), Hterms as (Hg & Hd0), Hlost as (Ho & Ha & He & Hs).
  pose proof (runs_val _ _ _ _ (receiver_run to_msgpack cfg queue_frames graw decoder now m evs Hevs) Hrun)
    as [[Hd [(consumed & lost & Ht & Hq & Hl) _]] _].
  destruct Ht as [(msgs & n & Hlog & _ & Hstr & _) _ Hf Hst].
  rewrite Hq0, (Hl Hrx), app_nil_r in Hq. rewrite Hb0, app_nil_r in Hstr.
  assert (Hz : Forall (fun l => failed l = 0) (links (sender r))).
  { apply sum_zero; [| lia]. intros l. apply countb_nonneg. }
  assert (Hz' : Forall (fun l => stopped l = 0) (links (sender r))).
  { apply sum_zero; [intros l; apply countb_nonneg |].
    pose proof (sum_nonneg stopped (links (sender r)) ltac:(intros l; apply countb_nonneg)).
    pose proof (sum_nonneg (fun l => eterms (socket l)) (links (sender r)) ltac:(intros l; apply countb_nonneg)).
    lia. }
  assert (Hout : stream_of msgs = streams (conns (shared r)) ++ (if owes (conns (shared r)) then [EndOfStream] else [])).
  { rewrite Hstr, Hq, offers_accepted.
    - pose proof (dr_pc _ _ Hd) as Hpc. unfold at_pc in Hpc. by rewrite Hleft in Hpc.
    - by apply (dr_rx _ _ Hd).
    - by rewrite <- (dr_overflow _ _ Hd). }
  rewrite Forall_forall in *. intros l Hin.
  destruct (Hlog l Hin) as [-> _]. split; [| done]. apply all_sent; [by apply Hz | by apply Hz'].
Qed.

(** ** Progress of the drain task *)

(** What may happen between two resumptions of the frames loop. *)
Definition resumes_only (ev : Event) : bool :=
  match ev with DrainRuns Resume | SenderRuns _ | ReceiverExit => true | _ => false end.
Definition is_resume (ev : Event) : bool := match ev with DrainRuns Resume => true | _ => false end.

Lemma frames_loop_ends to_msgpack cfg terms evs r r' :
  run_ok cfg terms r -> pc (drain r) = Framing \/ pc (drain r) = Reading ->
  Forall (fun ev => resumes_only ev = true) evs ->
  (pc (drain r) = Framing -> len (Framer.remaining (framer (drain r))) < 8 * countb is_resume evs) ->
  run_all to_msgpack cfg evs r = Val r' -> pc (drain r') = Reading.
Proof.
  intros Hok Hpc Hevs. revert r Hok Hpc. induction Hevs as [| ev evs Hev Hevs IH]; intros r Hok Hpc Hlen Hrun.
  { injection Hrun as <-. destruct Hpc as [E |]; [| done]. specialize (Hlen E). cbn in Hlen.
    pose proof (len_nonneg (Framer.remaining (framer (drain r)))). lia. }
  cbn [run_all] in Hrun.
  assert (Hevok : event_ok ev) by (by destruct ev as [[] | |]).
  pose proof (run_step_ok to_msgpack cfg terms ev r Hevok Hok) as Hstep.
  destruct (run_step to_msgpack cfg ev r) as [r1 | |] eqn:Es; [| done | done]. cbn [rust_bind runs] in *.
  destruct Hstep as [Hok1 _]. cbn [countb] in Hlen.
  assert (Hother : is_resume ev = false -> drain r1 = drain r).
  { destruct ev as [[] | tn |]; try done; intros _; cbn in Es.
    - destruct (sender_turn _ _ _ _ _) as [[] | |]; [| done | done]. by injection Es as <-.
    - destruct (running (sender r)); by injection Es as <-. }
  destruct (is_resume ev) eqn:Er; cbv iota in Hlen.
  2: { specialize (Hother eq_refl). apply (IH r1 Hok1); rewrite ?Hother; auto. }
  destruct ev as [[] | |]; try done. cbn in Es. destruct Hpc as [E | E].
  2: { unfold drain_step in Es. rewrite E in Es. injection Es as <-. apply (IH _ Hok1); cbn; rewrite ?E; auto; done. }
  specialize (Hlen E). unfold drain_step in Es. rewrite E in Es.
  destruct (Framer.next_cases (framer (drain r)) (dr_framer _ _ (proj1 Hok)))
    as [(g & f & En & _ & [[Hg _] _] & Hrem & _) | [[En _] | (f & En & _)]]; rewrite En in Es; cbn [rust_bind] in Es.
  - destruct (offer _ _) as [a s'] in Es. injection Es as <-.
    apply (IH _ Hok1); cbn; [by left | | exact Hrun]. intros _. rewrite Hrem, len_app in Hlen.
    unfold Framer.PRIMARY_HEADER_SIZE in Hg. lia.
  - destruct (_ =? _) in Es; injection Es as <-; apply (IH _ Hok1); cbn; auto; done.
  - destruct (_ =? _) in Es; injection Es as <-; apply (IH _ Hok1); cbn; auto; done.
Qed.

(** The drain task never waits for the sender while it cuts frames:
    wherever the two stand, after one more resumption than an eighth of the
    bytes the framer still holds, interleaved with anything the sender does or
    does not do, the task is back at the socket. *)
Theorem drain_never_stops (to_msgpack : Message RawFrames -> result bytes string) (cfg : SenderConfig)
    (queue_frames : Z) (graw decoder : list SendTry) (now : Z) (m : Metrics) (evs later : list Event)
    (r r' : Run)
    (Hevs : Forall event_ok evs)
    (Hrun : run_all to_msgpack cfg evs (run_start queue_frames graw decoder now m) = Val r)
    (Hat : pc (drain r) = Framing)
    (Hlater : Forall (fun ev => resumes_only ev = true) later)
    (Henough : len (Framer.remaining (framer (drain r))) < 8 * countb is_resume later)
    (Hrun' : run_all to_msgpack cfg later r = Val r') :
  pc (drain r') = Reading.
Proof.
  pose proof (runs_val _ _ _ _ (receiver_run to_msgpack cfg queue_frames graw decoder now m evs Hevs) Hrun)
    as [Hok _].
  by eapply (frames_loop_ends to_msgpack cfg _ later r r'); [done | left | done | intros _ | ].
Qed.

(** The sender's wait is never negative and at most the poll interval, so a
    raised flag is noticed; and it never spins: if the wait is zero and the queue
    stays empty, the turn closes the due batch or sends the due heartbeat. *)
Theorem sender_never_spins (to_msgpack : Message RawFrames -> result bytes string) (cfg : SenderConfig)
    (queue_frames : Z) (graw decoder : list SendTry) (start : Z) (m : Metrics) (evs : list Event) (r : Run)
    (tn : STurn)
    (Hevs : Forall event_ok evs)
    (Hrun : run_all to_msgpack cfg evs (run_start queue_frames graw decoder start m) = Val r)
    (Hrunning : running (sender r) = true)
    (Hclock : now tn <= now_timeout tn) :
  let t := sender r in
  0 <= sender_wait cfg t (now tn) <= SENDER_POLL_INTERVAL /\
  (sender_wait cfg t (now tn) = 0 ->
   forall t' m' alive,
     sender_recv to_msgpack cfg tn Timeout t (metrics (shared r)) = Val (alive, t', m') ->
     batch t' = [] /\ last_send t' = now_sent tn /\
     (batch t <> [] /\ batch_deadline t' = None \/
      eos_sent t = false /\ heartbeat_counter t' = heartbeat_counter t + 1)).
Proof.
  pose proof (runs_val _ _ _ _ (receiver_run to_msgpack cfg queue_frames graw decoder start m evs Hevs) Hrun)
    as [[_ [(consumed & lost & Ht & _) Hr]] _].
  destruct (Hr Hrunning) as [_ Hdl]. cbn [sender]. unfold sender_wait, SENDER_POLL_INTERVAL.
  split; [lia |]. intros Hw t' m' alive Hrecv.
  unfold sender_recv, deadline_due in Hrecv.
  destruct (batch_deadline (sender r)) as [dl |] eqn:Ed.
  - rewrite (proj2 (Z.leb_le dl (now_timeout tn))) in Hrecv by lia.
    pose proof (flush_effect to_msgpack cfg _ (created_ns tn) consumed _ _ Ht) as Hf.
    destruct (flush _ _ _ _ _) as [[[a t1] m1] | |]; [| done | done].
    cbn [rust_bind] in Hrecv. injection Hrecv as <- <- <-. destruct Hf as (_ & Hb & _).
    split_and!; [done | done |]. left. split; [| done]. intros E. apply Hdl in E. discriminate.
  - destruct (eos_sent (sender r)) eqn:Ee; [lia |].
    rewrite (bool_decide_true (batch (sender r) = [])) in Hrecv by by apply Hdl.
    rewrite (proj2 (Z.leb_le (last_send (sender r) + heartbeat cfg) (now_timeout tn))) in Hrecv by lia.
    cbn [negb andb] in Hrecv. unfold send_heartbeat in Hrecv.
    destruct (send_each _ _ _ _) as [[[a ls] m1] | |]; [| done | done].
    cbn [rust_bind] in Hrecv. injection Hrecv as <- <- <-.
    split_and!; [by apply Hdl | done |]. right. split; [done |]. cbn. lia.
Qed.

(** ** A concrete run *)

Definition frame1 : bytes := [0; 0; 0; 9; 1; 2; 3; 4; 5].
Definition frame2 : bytes := [0; 0; 0; 8; 6; 7; 8; 9].

Definition sample_cfg : SenderConfig := mkSenderConfig 3 7 17 10000000 1000000000.
Definition encode (_ : Message RawFrames) : result bytes string := Ok [].
Definition a_turn (t : Z) : Event := SenderRuns (mkSTurn false t t t t).
Definition resume : Event := DrainRuns Resume.

(** A frame cut in two reads, a second connection that carries nothing, then a
    stop. *)
Definition sample_events : list Event :=
  [DrainRuns (AcceptedConn (Ok (mkSocketAddr "10.0.0.3:46005" 46005)));
   DrainRuns (ReadResult (Ok (frame1 ++ take 5 frame2)) 100); resume; a_turn 1; resume;
   DrainRuns (ExtraConn (Ok (mkSocketAddr "10.0.0.9:46005" 46005)));
   DrainRuns (ReadResult (Ok (drop 5 frame2)) 200); resume; resume; a_turn 2;
   DrainRuns (ReadResult (Ok []) 300); resume; a_turn 3;
   DrainRuns (AcceptedConn (Ok (mkSocketAddr "10.0.0.3:46005" 46005)));
   DrainRuns (ReadResult (Ok []) 400); DrainRuns StopSignal].

Definition sample_script : list SendTry := EAGAIN :: repeat SendOk 20.
Definition sample_start : Run := run_start 4 sample_script sample_script 0 metrics_default.

Definition sample_run (evs : list Event) : Run :=
  match run_all encode sample_cfg evs sample_start with Val r => r | _ => sample_start end.

Lemma sample_events_ok : Forall event_ok sample_events.
Proof. repeat constructor; cbn; lia. Qed.

Definition log_of (r : Run) : list (list (SendOutcome * Message RawFrames)) := map attempts (links (sender r)).

Lemma receiver_stream_witness :
  log_of (sample_run sample_events) =
    repeat [(Sent, Data (mkBatch 3 7 0 2 [frame1; frame2])); (Sent, Msg.EndOfStream 3 7)] 2 /\
  pc (drain (sample_run sample_events)) = Exited /\
  exists missing, offers (offered (shared (sample_run sample_events))) ++ missing =
    [Frame frame1; Frame frame2; EndOfStream].
Proof.
  split; [vm_compute; reflexivity |]. split; [vm_compute; reflexivity |].
  assert (Hv : run_all encode sample_cfg sample_events sample_start = Val (sample_run sample_events))
    by (vm_compute; reflexivity).
  pose proof (receiver_stream encode sample_cfg 4 sample_script sample_script 0 metrics_default
    sample_events sample_events_ok) as H.
  change (run_start 4 sample_script sample_script 0 metrics_default) with sample_start in H.
  rewrite Hv in H. destruct H as (_ & (missing & Hm & _) & _).
  exists missing. etrans; [exact Hm |]. vm_compute. reflexivity.
Defined.

Lemma receiver_counters_witness :
  run_all encode sample_cfg sample_events sample_start = Val (sample_run sample_events) /\
  bytes_in (metrics (shared (sample_run sample_events))) = 17 /\
  frames (metrics (shared (sample_run sample_events))) = 2 /\
  empty_connections (metrics (shared (sample_run sample_events))) = 1.
Proof.
  assert (Hv : run_all encode sample_cfg sample_events sample_start = Val (sample_run sample_events))
    by (vm_compute; reflexivity).
  split; [exact Hv |].
  pose proof (receiver_counters encode sample_cfg 4 sample_script sample_script 0 metrics_default
    sample_events sample_events_ok) as H.
  change (run_start 4 sample_script sample_script 0 metrics_default) with sample_start in H.
  rewrite Hv in H. destruct H as (Hb & Hf & _ & _ & He & _).
  split_and!; [etrans; [exact Hb |] | etrans; [exact Hf |] | etrans; [exact He |]]; vm_compute; reflexivity.
Defined.

Lemma receiver_lossless_witness :
  Forall (fun l =>
    Forall (fun a => fst a = Sent) (attempts l) /\
    stream_of (map snd (attempts l)) = [Frame frame1; Frame frame2; EndOfStream])
    (links (sender (sample_run sample_events))).
Proof.
  eapply Forall_impl.
  - apply (receiver_lossless encode sample_cfg 4 sample_script sample_script 0 metrics_default sample_events).
    + apply sample_events_ok.
    + vm_compute. reflexivity.
    + vm_compute. reflexivity.
    + vm_compute. by split_and!.
    + vm_compute. by split.
    + vm_compute. by split_and!.
  - cbn beta. intros l [Hs Hst]. split; [exact Hs |]. rewrite Hst. vm_compute. reflexivity.
Defined.

(** After one read: a frame and five bytes in the framer. *)
Lemma drain_never_stops_witness :
  pc (drain (sample_run (take 2 sample_events))) = Framing /\
  pc (drain (sample_run (take 2 sample_events ++ [resume; a_turn 1; resume]))) = Reading.
Proof.
  assert (H1 : pc (drain (sample_run (take 2 sample_events))) = Framing) by (vm_compute; reflexivity).
  split; [exact H1 |].
  apply (drain_never_stops encode sample_cfg 4 sample_script sample_script 0 metrics_default
    (take 2 sample_events) [resume; a_turn 1; resume] (sample_run (take 2 sample_events))).
  - apply Forall_take, sample_events_ok.
  - vm_compute. reflexivity.
  - exact H1.
  - by repeat constructor.
  - vm_compute. reflexivity.
  - vm_compute. reflexivity.
Defined.

(** Heartbeat due: one second of silence. *)
Lemma sender_never_spins_witness :
  sender_wait sample_cfg (sender sample_start) 1000000000 = 0 /\
  exists t' m' alive,
    sender_recv encode sample_cfg (mkSTurn false 1000000000 0 1000000001 1000000002) Timeout
      (sender sample_start) (metrics (shared sample_start)) = Val (alive, t', m') /\
    batch t' = [] /\ last_send t' = 1000000002.
Proof.
  assert (Hw : sender_wait sample_cfg (sender sample_start) 1000000000 = 0) by (vm_compute; reflexivity).
  split; [exact Hw |].
  destruct (sender_recv encode sample_cfg (mkSTurn false 1000000000 0 1000000001 1000000002) Timeout
      (sender sample_start) (metrics (shared sample_start))) as [[[alive t'] m'] | |] eqn:E;
    [| vm_compute in E; discriminate E | vm_compute in E; discriminate E].
  exists t', m', alive. split; [reflexivity |].
  destruct (sender_never_spins encode sample_cfg 4 sample_script sample_script 0 metrics_default [] sample_start
    (mkSTurn false 1000000000 0 1000000001 1000000002)) as [_ H].
  - constructor.
  - reflexivity.
  - reflexivity.
  - cbn. lia.
  - destruct (H Hw t' m' alive E) as (? & ? & _). by split.
Defined.

(** ** What the model shows of two comments *)

Definition junk : bytes := [0; 0; 0; 3; 0; 0; 0; 0].

(** The per-run counter of framer resets takes the value of the current
    connection's framer: a second connection with one reset puts back to one a
    counter that had reached two. *)
Lemma framer_resets_go_back :
  let first := [DrainRuns (AcceptedConn (Ok (mkSocketAddr "a" 1)));
                DrainRuns (ReadResult (Ok junk) 1); resume; DrainRuns (ReadResult (Ok junk) 2); resume] in
  let second := [DrainRuns (ReadResult (Err "reset") 3); resume;
                 DrainRuns (AcceptedConn (Ok (mkSocketAddr "a" 1)));
                 DrainRuns (ReadResult (Ok junk) 4); resume] in
  framer_resets (metrics (shared (sample_run first))) = 2 /\
  framer_resets (metrics (shared (sample_run (first ++ second)))) = 1.
Proof. vm_compute. by split. Qed.

(** The abandon flag seen at the top of the loop leaves the batch being filled
    and the queue behind: nothing was sent and no counter says so. *)
Lemma abandon_loses_batch_uncounted :
  let evs := [DrainRuns (AcceptedConn (Ok (mkSocketAddr "a" 1)));
              DrainRuns (ReadResult (Ok (frame1 ++ frame2)) 1); resume; resume; resume; a_turn 2;
              SenderRuns (mkSTurn true 3 3 3 3); ReceiverExit] in
  let r := sample_run evs in let ct := metrics (shared r) in
  running (sender r) = false /\ log_of r = [[]; []] /\ frames ct = 2 /\
  batch (sender r) = [frame1] /\ queue (channel (shared r)) = [] /\
  overflow_frames ct = 0 /\ messages_abandoned ct = 0 /\ encode_errors ct = 0 /\ send_errors ct = 0.
Proof. vm_compute. by split_and!. Qed.

(** ** The command handler *)

Record ReceiverParams : Type := mkReceiverParams {
  cobo_id : Z;
  listen : string;
  command_listen : string;
  graw_writer_endpoint : string;
  decoder_endpoint : string;
  p_batch_max_bytes : Z;
  batch_max_ms : Z;
  queue_frames : Z;
  heartbeat_ms : Z;
  hwm : Z;
}.

(** The handler and what its runs own.  Run [i] (the [i]-th that got as far as
    its abandon flag) has the flag [flags !! i]; [stopped_runs] are the runs
    whose drain task was told to stop, [joined_runs] those whose sender thread
    was joined.  A [Some i] is a handle on run [i]'s object. *)
Record ReceiverHandler : Type := mkReceiverHandler {
  params : ReceiverParams;
  h_metrics : Metrics;
  h_status : ComponentState;
  h_run_number : option Z;
  listener : bool;
  bind_address : option SocketAddr;
  run_stop : option nat;
  abandon : option nat;
  sender_handle : option nat;
  flags : list bool;
  stopped_runs : list nat;
  joined_runs : list nat;
}.
#[export] Instance ReceiverHandler_eta : Eta ReceiverHandler := fun h =>
  mkReceiverHandler (params h) (h_metrics h) (h_status h) (h_run_number h) (listener h)
    (bind_address h) (run_stop h) (abandon h) (sender_handle h) (flags h) (stopped_runs h)
    (joined_runs h).

Definition handler_new (p : ReceiverParams) : ReceiverHandler :=
  mkReceiverHandler p metrics_default Idle None false None None None None [] [] [].

(** What the operating system, ZeroMQ and the tasks answer while one command is
    handled; [metrics_joined] is the shared counters once the sender has ended. *)
Record LinkEnv : Type := mkLinkEnv {
  push_create : result unit string;
  push_hwm : result unit string;
  push_sndtimeo : result unit string;
  push_connected : result unit string;
}.
Record ReceiverEnv : Type := mkReceiverEnv {
  bind_listener : result unit string;
  local_addr : result SocketAddr string;
  nonblocking : result unit string;
  graw_link : LinkEnv;
  decoder_link : LinkEnv;
  from_std : result unit string;
  spawn : result unit string;
  metrics_joined : Metrics;
}.

Definition latch_overload (h : ReceiverHandler) : ReceiverHandler :=
  if bool_decide (h_status h = Error) || negb (overflowed (h_metrics h)) ||
     negb (can_transition_to (h_status h) Error) then h
  else h <| h_status := Error |>.

Definition do_configure (cfg : RunConfig) (h : ReceiverHandler) : result unit string * ReceiverHandler :=
  (Ok tt, h <| h_run_number := Some (cfg_run_number cfg) |>).

Definition do_arm (env : ReceiverEnv) (h : ReceiverHandler) : result unit string * ReceiverHandler :=
  match
    (let? _ := map_err (fun e => "bind " +:+ listen (params h) +:+ " failed: " +:+ e) (bind_listener env) in
     let? address := map_err (fun e => "cannot read local address: " +:+ e) (local_addr env) in
     let? _ := map_err (fun e => "cannot set non-blocking: " +:+ e) (nonblocking env) in
     Ok address)
  with
  | Err e => (Err e, h)
  | Ok address => (Ok tt, h <| listener := true |> <| bind_address := Some address |>)
  end.

Definition build_link (name endpoint : string) (hwm : Z) (env : LinkEnv) : result unit string :=
  let? _ := map_err (fun e => "cannot create PUSH socket for " +:+ name +:+ ": " +:+ e) (push_create env) in
  let? _ := map_err (fun e => "cannot set HWM " +:+ pretty hwm +:+ " for " +:+ name +:+ ": " +:+ e)
              (push_hwm env) in
  let? _ := map_err (fun e => "cannot set send timeout for " +:+ name +:+ ": " +:+ e) (push_sndtimeo env) in
  map_err (fun e => "cannot connect " +:+ name +:+ " to " +:+ endpoint +:+ ": " +:+ e) (push_connected env).

Definition build_links (env : ReceiverEnv) (h : ReceiverHandler) : result unit string :=
  let? _ := build_link "graw-writer" (graw_writer_endpoint (params h)) (hwm (params h)) (graw_link env) in
  build_link "decoder" (decoder_endpoint (params h)) (hwm (params h)) (decoder_link env).

Definition sender_config (p : ReceiverParams) (run : Z) : SenderConfig :=
  mkSenderConfig (cobo_id p) run (p_batch_max_bytes p) (batch_max_ms p * 1000000) (heartbeat_ms p * 1000000).

Definition do_start (env : ReceiverEnv) (run : Z) (h : ReceiverHandler)
    : result unit string * ReceiverHandler :=
  if negb (listener h) then (Err "no listener: Arm again before Start", h) else
  match build_links env h with
  | Err e => (Err e, h)
  | Ok _ =>
      let h := h <| listener := false |> in
      match from_std env with
      | Err e => (Err ("cannot hand the listener to tokio: " +:+ e), h)
      | Ok _ =>
          let i := length (flags h) in
          let h := h <| h_metrics ::= metrics_reset |> <| h_run_number := Some run |>
                     <| flags ::= fun fl => fl ++ [false] |> <| abandon := Some i |> in
          match spawn env with
          | Err e => (Err ("cannot spawn sender thread: " +:+ e), h)
          | Ok _ => (Ok tt, h <| sender_handle := Some i |> <| run_stop := Some i |>)
          end
      end
  end.

Definition stop_run (h : ReceiverHandler) : ReceiverHandler :=
  match run_stop h with
  | Some i => h <| run_stop := None |> <| stopped_runs ::= cons i |>
  | None => h
  end.

Definition do_stop (h : ReceiverHandler) : result unit string * ReceiverHandler :=
  (Ok tt, stop_run h <| bind_address := None |>).

Definition abandon_sends (h : ReceiverHandler) : ReceiverHandler :=
  match abandon h with
  | Some i => h <| abandon := None |> <| flags ::= fun fl => <[i := true]> fl |>
  | None => h
  end.

Definition join_sender (env : ReceiverEnv) (h : ReceiverHandler) : ReceiverHandler :=
  match sender_handle h with
  | Some i => h <| sender_handle := None |> <| joined_runs ::= cons i |> <| h_metrics := metrics_joined env |>
  | None => h
  end.

Definition do_reset (env : ReceiverEnv) (h : ReceiverHandler) : result unit string * ReceiverHandler :=
  let h := abandon_sends h in
  let h := stop_run h in
  let h := join_sender env h in
  (Ok tt, h <| listener := false |> <| bind_address := None |> <| h_run_number := None |>
            <| h_metrics ::= fun m => m <| overflowed := false |> |>).

(** [Drop for Handler]. *)
Definition handler_drop (env : ReceiverEnv) (h : ReceiverHandler) : ReceiverHandler :=
  join_sender env (stop_run (abandon_sends h)).

Definition recv_dispatch (env : ReceiverEnv) (cmd : Command) (h : ReceiverHandler)
    : result unit string * ReceiverHandler :=
  match cmd with
  | Configure cfg => do_configure cfg h
  | Arm => do_arm env h
  | Start run => do_start env run h
  | Stop => do_stop h
  | Reset => do_reset env h
  | GetStatus => (Ok tt, h)
  end.

Definition recv_respond (h : ReceiverHandler) (ok : bool) (m : string) : CommandResponse :=
  let response := if ok then response_success (h_status h) m else response_error (h_status h) m in
  let response :=
    match h_run_number h with
    | Some run => with_run_number response run
    | None => response
    end in
  let ms := metrics_json (h_metrics h) in
  let ms := json_set ms "cobo_id" (JNum (cobo_id (params h))) in
  let ms := json_set ms "bind_address"
              match bind_address h with Some a => JStr (printed a) | None => JNull end in
  let ms := json_set ms "router_port"
              match bind_address h with Some a => JNum (port a) | None => JNull end in
  with_metrics response ms.

#[export] Instance receiver_handler : Handler ReceiverHandler ReceiverEnv := {
  h_state := h_status;
  h_set_state := fun s h => h <| h_status := s |>;
  latch_error := latch_overload;
  dispatch := recv_dispatch;
  respond := recv_respond;
}.

Definition recv_handle (env : ReceiverEnv) (cmd : Command) (h : ReceiverHandler)
    : CommandResponse * ReceiverHandler := handle env cmd h.

(** The handler's life: commands, and the tasks counting between them. *)
Inductive recv_step : ReceiverHandler -> ReceiverHandler -> Prop :=
| recv_command env cmd h : recv_step h (snd (recv_handle env cmd h))
| recv_tasks m h : recv_step h (h <| h_metrics := m |>).

(** *** The handler's lemmas *)

#[export] Instance receiver_handler_laws : HandlerLaws ReceiverHandler ReceiverEnv.
Proof.
  constructor.
  - done.
  - intros h. cbn. unfold latch_overload.
    destruct (bool_decide _ || _ || _) eqn:Hb; [by left |]. apply orb_false_iff in Hb as [_ Hb].
    right. split; [done |]. by apply negb_false_iff in Hb.
  - intros env cmd h. destruct cmd; cbn; try done.
    + unfold do_arm, result_bind, map_err. by destruct (bind_listener env), (local_addr env), (nonblocking env).
    + unfold do_start. destruct (negb _); [done |]. destruct (build_links _ _); [| done].
      destruct (from_std env); [| done]. by destruct (spawn env).
    + unfold stop_run. by destruct (run_stop h).
    + unfold do_reset, join_sender, stop_run, abandon_sends.
      destruct (abandon h); cbn; destruct (run_stop h); cbn; by destruct (sender_handle h).
  - intros h ok m. cbn. unfold recv_respond. by destruct ok, (h_run_number h).
Qed.

(** The handles on the current run agree, and are held in the right states. *)
Record handler_ok (h : ReceiverHandler) : Prop := {
  ho_path : rtc legal Idle (h_status h);
  ho_running : h_status h = Running -> exists i,
    run_stop h = Some i /\ abandon h = Some i /\ sender_handle h = Some i /\ listener h = false;
  ho_idle : h_status h = Idle ->
    listener h = false /\ run_stop h = None /\ abandon h = None /\ sender_handle h = None;
  ho_abandon : forall i, abandon h = Some i -> flags h !! i = Some false;
  ho_sender : forall i, sender_handle h = Some i -> flags h !! i = Some false;
}.

Lemma recv_latch_ok h : handler_ok h -> handler_ok (latch_overload h).
Proof.
  intros Hok. unfold latch_overload. destruct (bool_decide _ || _ || _) eqn:Hb; [done |].
  apply orb_false_iff in Hb as [_ Hb]. apply negb_false_iff in Hb.
  destruct Hok. constructor; cbn; try done. by eapply rtc_r.
Qed.

Lemma latch_fields h :
  flags (latch_overload h) = flags h /\ joined_runs (latch_overload h) = joined_runs h.
Proof. unfold latch_overload. by destruct (_ || _). Qed.

Lemma lookup_flag_snoc (fl : list bool) i : fl !! i = Some false -> (fl ++ [false]) !! i = Some false.
Proof. intros H. by apply lookup_app_l_Some. Qed.

Lemma lookup_flag_new (fl : list bool) : (fl ++ [false]) !! length fl = Some false.
Proof. by rewrite lookup_app_r, Nat.sub_diag by lia. Qed.

Lemma start_ok env run h :
  handler_ok h -> h_status h = Armed ->
  let '(o, h') := do_start env run h in
  match o with
  | Ok _ => handler_ok (h' <| h_status := Running |>)
  | Err _ => handler_ok h'
  end.
Proof.
  intros Hok Hst. pose proof Hok as [Hp Hr Hi Ha Hse].
  assert (Hnew : forall i, Some (length (flags h)) = Some i -> (flags h ++ [false]) !! i = Some false).
  { intros i [= <-]. apply lookup_flag_new. }
  assert (Hold : forall i, sender_handle h = Some i -> (flags h ++ [false]) !! i = Some false).
  { intros i Hs. apply lookup_flag_snoc. auto. }
  rewrite Hst in Hp. unfold do_start. destruct (negb (listener h)) eqn:El; [done |].
  destruct (build_links env h); [| done].
  destruct (from_std env); [destruct (spawn env) |]; constructor; cbn; rewrite ?Hst; try done.
  - eapply rtc_r; [exact Hp | done].
  - intros _. by eexists.
Qed.

Lemma reset_fields env h :
  let h' := snd (do_reset env h) in
  listener h' = false /\ run_stop h' = None /\ abandon h' = None /\ sender_handle h' = None.
Proof.
  unfold do_reset, join_sender, stop_run, abandon_sends.
  destruct (abandon h) eqn:E1; cbn; destruct (run_stop h) eqn:E2; cbn; destruct (sender_handle h) eqn:E3;
    by rewrite ?E1, ?E2, ?E3.
Qed.

Lemma recv_dispatch_ok env cmd h t :
  handler_ok h -> target_state cmd = Some t -> can_transition_to (h_status h) t = true ->
  let '(o, h') := recv_dispatch env cmd h in
  match o with
  | Ok _ => handler_ok (h' <| h_status := t |>)
  | Err _ => handler_ok h'
  end.
Proof.
  intros Hok Ht Hleg. pose proof Hok as [Hp Hr Hi Ha Hse].
  assert (Hpath : rtc legal Idle t) by (by eapply rtc_r).
  destruct cmd as [cfg | | run | | |]; cbn in Ht; try done; injection Ht as <-; cbn [recv_dispatch].
  - by constructor.
  - unfold do_arm, result_bind, map_err.
    destruct (bind_listener env), (local_addr env), (nonblocking env); try done; by constructor.
  - apply start_ok; [done | by destruct (h_status h)].
  - unfold do_stop, stop_run. by destruct (run_stop h); constructor.
  - pose proof (reset_fields env h) as (E1 & E2 & E3 & E4). unfold do_reset in *. cbn [snd] in *.
    constructor; cbn -[join_sender] in *; rewrite ?E1, ?E2, ?E3, ?E4; done.
Qed.

Lemma recv_handle_ok env cmd h : handler_ok h -> handler_ok (snd (handle env cmd h)).
Proof.
  intros Hok. apply recv_latch_ok in Hok. unfold handle.
  change (latch_error h) with (latch_overload h). set (h1 := latch_overload h) in *.
  destruct (target_state cmd) as [t |] eqn:Ht; [| done].
  destruct (negb _) eqn:Hleg; [done |]. apply negb_false_iff in Hleg.
  pose proof (recv_dispatch_ok env cmd h1 t Hok Ht Hleg) as Hd.
  change (dispatch env cmd h1) with (recv_dispatch env cmd h1).
  by destruct (recv_dispatch env cmd h1) as [[] h2].
Qed.

Lemma recv_system_ok p h : rtc recv_step (handler_new p) h -> handler_ok h.
Proof.
  apply (rtc_ind_r (fun h => handler_ok h)); [by constructor |].
  intros h1 h2 _ Hstep Hok. destruct Hstep as [env cmd h0 | m h0]; [by apply recv_handle_ok |].
  destruct Hok. by constructor.
Qed.

(** What [Reset] does to a run in progress. *)
Lemma reset_run env h i :
  run_stop h = Some i -> abandon h = Some i -> sender_handle h = Some i -> flags h !! i = Some false ->
  let h' := snd (do_reset env h) in
  flags h' !! i = Some true /\ i ∈ stopped_runs h' /\ i ∈ joined_runs h'.
Proof.
  intros Hi Ea Ese Hf.
  unfold do_reset, join_sender, stop_run, abandon_sends. rewrite Ea. cbn. rewrite Hi. cbn. rewrite Ese. cbn.
  split_and!; [| by left | by left].
  apply list_lookup_insert_eq. by eapply lookup_lt_Some.
Qed.

(** The receiver's command handler over any life of commands, environment
    answers and task activity: the state moves along legal edges only and every
    reply tells the state the handler is in; while [Running] the handler holds
    the stop channel, the lowered abandon flag and the thread of one and the same
    run, in [Idle] nothing; [Stop] raises no flag and waits for no thread; [Reset]
    of a running run raises its flag, stops its drain task and has joined its
    sender; and once a frame was refused, the next command finds [Error], out of
    which only [Reset] succeeds. *)
Theorem receiver_handler_safe (p : ReceiverParams) (h : ReceiverHandler)
    (Hh : rtc recv_step (handler_new p) h) :
  rtc legal Idle (h_status h) /\
  (h_status h = Running -> exists i, run_stop h = Some i /\ abandon h = Some i /\
     sender_handle h = Some i /\ flags h !! i = Some false /\ listener h = false) /\
  (h_status h = Idle ->
     listener h = false /\ run_stop h = None /\ abandon h = None /\ sender_handle h = None) /\
  forall env cmd, let '(r, h') := recv_handle env cmd h in
    state r = h_status h' /\
    (h_status h' = Idle -> h_status h <> Idle -> cmd = Reset) /\
    (cmd = Stop -> flags h' = flags h /\ joined_runs h' = joined_runs h) /\
    (cmd = Reset -> forall i, h_status h = Running -> run_stop h = Some i ->
       h_status h' = Idle /\ flags h' !! i = Some true /\ i ∈ stopped_runs h' /\ i ∈ joined_runs h') /\
    (overflowed (h_metrics h) = true -> h_status h <> Idle -> cmd <> Reset ->
       h_status h' = Error /\ (success r = true -> cmd = GetStatus)).
Proof.
  pose proof (recv_system_ok p h Hh) as Hok. pose proof Hok as [Hp Hr Hi Ha Hs]. split_and!; try done.
  { intros E. destruct (Hr E) as (i & ? & ? & ? & ?). exists i. by split_and!; auto. }
  intros env cmd. unfold recv_handle.
  pose proof (handle_path env cmd h) as Hpath. pose proof (handle_outcome env cmd h) as Hout.
  pose proof (handle_in_error env cmd h) as Hin.
  assert (Hlatch : h_state (latch_error h) <> Idle \/ h_status h = Idle).
  { destruct (law_latch h) as [-> | [-> _]]; [| by left].
    destruct (decide (h_status h = Idle)); [by right | by left]. }
  assert (Herr : overflowed (h_metrics h) = true -> h_status h <> Idle -> h_state (latch_error h) = Error).
  { intros He Hni. cbn. unfold latch_overload. rewrite He.
    by destruct (h_status h) eqn:E; cbn; rewrite ?E. }
  assert (Hstop : cmd = Stop -> flags (snd (handle env cmd h)) = flags h /\
                  joined_runs (snd (handle env cmd h)) = joined_runs h).
  { intros ->. destruct (latch_fields h) as [<- <-]. unfold handle. cbn [target_state].
    destruct (negb _); [done |]. cbn. unfold stop_run. by destruct (run_stop (latch_overload h)). }
  assert (Hreset : cmd = Reset -> forall i, h_status h = Running -> run_stop h = Some i ->
    h_status (snd (handle env cmd h)) = Idle /\ flags (snd (handle env cmd h)) !! i = Some true /\
    i ∈ stopped_runs (snd (handle env cmd h)) /\ i ∈ joined_runs (snd (handle env cmd h))).
  { intros -> i Hrun Hi'. destruct (Hr Hrun) as (j & E1 & E2 & E3 & _).
    assert (j = i) as -> by congruence.
    assert (Hl : exists h1, latch_error h = h1 /\ run_stop h1 = Some i /\ abandon h1 = Some i /\
      sender_handle h1 = Some i /\ flags h1 !! i = Some false /\ can_transition_to (h_state h1) Idle = true).
    { eexists. split; [reflexivity |]. cbn. unfold latch_overload.
      destruct (bool_decide _ || _ || _); cbn; rewrite ?Hrun; by split_and!; auto. }
    destruct Hl as (h1 & El & F1 & F2 & F3 & F4 & F5). unfold handle. rewrite El. cbn [target_state].
    rewrite F5. cbn [negb]. change (dispatch env Reset h1) with (do_reset env h1).
    destruct (reset_run env h1 i F1 F2 F3 F4) as (G1 & G2 & G3).
    assert (E : do_reset env h1 = (Ok tt, snd (do_reset env h1))) by done.
    rewrite E. cbn -[do_reset]. by split_and!. }
  destruct (handle env cmd h) as [r h']. destruct Hpath as [_ Hst], Hout as [Hout _].
  split_and!; [done | | done | done |].
  - intros Hidle Hni. destruct Hlatch as [Hl |]; [| done].
    change (h_state h') with (h_status h') in Hout. rewrite Hidle in Hout. symmetry in Hout.
    destruct (success r), cmd; done.
  - intros He Hni Hnr. by destruct (Hin (Herr He Hni)).
Qed.

Definition sample_params : ReceiverParams :=
  mkReceiverParams 0 "0.0.0.0:46005" "tcp://*:47110" "tcp://127.0.0.1:47001" "tcp://127.0.0.1:47002"
    8388608 10 1024 1000 64.
Definition link_up : LinkEnv := mkLinkEnv (Ok tt) (Ok tt) (Ok tt) (Ok tt).
Definition sample_env : ReceiverEnv :=
  mkReceiverEnv (Ok tt) (Ok (mkSocketAddr "0.0.0.0:46005" 46005)) (Ok tt) link_up link_up (Ok tt) (Ok tt)
    metrics_default.

Definition life (cmds : list Command) : ReceiverHandler :=
  snd (handle_all (map (pair sample_env) cmds) (handler_new sample_params)).
Definition configure : Command := Configure (mkRunConfig 7 "" JNull).

(** Configure, arm, start, and the queue overflows. *)
Definition overflowed_life : ReceiverHandler :=
  life [configure; Arm; Start 7] <| h_metrics := record_dropped_frame metrics_default |>.

Lemma receiver_handler_safe_witness :
  rtc recv_step (handler_new sample_params) overflowed_life /\
  h_status overflowed_life = Running /\
  (let '(r, h) := recv_handle sample_env Stop overflowed_life in h_status h = Error) /\
  (let '(r, h) := recv_handle sample_env Reset overflowed_life in
   h_status h = Idle /\ flags h !! 0%nat = Some true /\ 0%nat ∈ joined_runs h).
Proof.
  assert (Hr : rtc recv_step (handler_new sample_params) overflowed_life).
  { eapply rtc_l; [apply (recv_command sample_env configure) |].
    eapply rtc_l; [apply (recv_command sample_env Arm) |].
    eapply rtc_l; [apply (recv_command sample_env (Start 7)) |].
    apply rtc_once. apply recv_tasks. }
  destruct (receiver_handler_safe sample_params overflowed_life Hr) as (_ & _ & _ & Hcmd).
  split; [exact Hr |]. split; [reflexivity |].
  pose proof (Hcmd sample_env Stop) as H1. pose proof (Hcmd sample_env Reset) as H2.
  destruct (recv_handle sample_env Stop overflowed_life) as [r1 h1].
  destruct (recv_handle sample_env Reset overflowed_life) as [r2 h2].
  destruct H1 as (_ & _ & _ & _ & H1). destruct H2 as (_ & _ & _ & H2 & _).
  split.
  - apply H1; [reflexivity | discriminate | discriminate].
  - destruct (H2 eq_refl 0%nat eq_refl eq_refl) as (? & ? & _ & ?). by split_and!.
Defined.

(** A second [Start] forgets the first run's sender: its flag is never raised and
    it is never joined, whatever [Reset] does afterwards. *)
Lemma second_start_orphans_sender :
  let h := life [configure; Arm; Start 7; Stop; Arm; Start 8; Reset] in
  flags h = [false; true] /\ joined_runs h = [1%nat].
Proof. vm_compute. by split. Qed.

(** [Configure] aims at the state [Stop] aims at: it is accepted while running,
    and the run goes on in [Configured]; [Stop] is accepted in [Idle]. *)
Lemma configure_while_running :
  let h := life [configure; Arm; Start 7; configure] in
  h_status h = Configured /\ run_stop h = Some 0%nat /\ stopped_runs h = [] /\
  h_status (life [Stop]) = Configured /\ h_run_number (life [Stop]) = None.
Proof. vm_compute. by split_and!. Qed.

(** A [Start] that fails after it took the listener says to arm again, but [Arm]
    is illegal where it leaves the handler. *)
Lemma failed_start_cannot_arm_again :
  let bad := mkReceiverEnv (Ok tt) (Ok (mkSocketAddr "0.0.0.0:46005" 46005)) (Ok tt) link_up link_up
               (Err "no reactor") (Ok tt) metrics_default in
  let h := snd (recv_handle bad (Start 7) (life [configure; Arm])) in
  h_status h = Armed /\
  message (fst (recv_handle sample_env (Start 7) h)) = "no listener: Arm again before Start"%string /\
  success (fst (recv_handle sample_env Arm h)) = false.
Proof. vm_compute. by split_and!. Qed.
