(* ===== verification/RunDecoder.v ===== *)
(** * RunDecoder: the decoder component

    Models [src/decoder.rs]: the core [RunDecoder] that validates, decodes and
    batches what the receivers send and aggregates their end-of-stream
    barriers; the decoder thread, its lossless sends and its heartbeat; and the
    command handler.  Time is a [Z] of nanoseconds the caller passes, as in the
    source.  Log output is not modelled, the flags that silence repeated
    messages are. *)

From stdpp Require Import gmap fin_maps pretty strings.
From S2P Require Import Prelude Bytes Msg Command.
From S2P Require Decode.
Open Scope Z_scope.

Definition POLL_TIMEOUT_MS : Z := 100.
Definition DECODER_SOURCE_ID : Z := 100.
Definition RESTART_GATE_EVENT_IDX : Z := 8.
Definition RESTART_MIN_TIME_GAP : Z := 10000000.

Inductive Emit : Type := Nothing | EmitBatch | FlushAndEndOfStream.

#[export] Instance Emit_eq_dec : EqDecision Emit.
Proof. solve_decision. Defined.

Record SourceEpoch : Type := mkSourceEpoch {
  epoch : Z;
  max_event_idx : Z;
  time_floor : Z;
  data_frames : Z;
}.
#[export] Instance SourceEpoch_eta : Eta SourceEpoch := fun e =>
  mkSourceEpoch (epoch e) (max_event_idx e) (time_floor e) (data_frames e).

Record RunDecoder : Type := mkRunDecoder {
  run_number : Z;
  awaiting_run : bool;
  expected_sources : gset Z;
  eos_received : gset Z;
  decoder : Decode.Decoder;
  pending : list Fragment;
  pending_bytes : Z;
  batch_deadline : option Z;
  batch_max_bytes : Z;
  batch_max : Z;
  out_seq : Z;
  next_seq : gmap Z Z;
  batches_in : gmap Z Z;
  frames_in : Z;
  fragments_out : Z;
  batches_out : Z;
  items_out : Z;
  seq_gaps : Z;
  run_mismatches : Z;
  eos_in : Z;
  heartbeats_in : Z;
  heartbeats_out : Z;
  heartbeats_abandoned : Z;
  eos_out : Z;
  eos_abandoned : Z;
  batches_abandoned : Z;
  cobo_mismatch : Z;
  errored : bool;
  topology_frames : Z;
  logged_unsupported : bool;
  logged_malformed : bool;
  logged_topology : bool;
  logged_cobo_mismatch : bool;
  logged_heartbeat_abandoned : bool;
  source_epochs : gmap Z SourceEpoch;
  min_epoch : Z;
  acquisition_restarts : Z;
  frames_before_restart : gmap Z Z;
  logged_restart : bool;
  logged_compact_mismatch : bool;
}.
#[export] Instance RunDecoder_eta : Eta RunDecoder := fun c =>
  mkRunDecoder (run_number c) (awaiting_run c) (expected_sources c) (eos_received c) (decoder c)
    (pending c) (pending_bytes c) (batch_deadline c) (batch_max_bytes c) (batch_max c) (out_seq c)
    (next_seq c) (batches_in c) (frames_in c) (fragments_out c) (batches_out c) (items_out c)
    (seq_gaps c) (run_mismatches c) (eos_in c) (heartbeats_in c) (heartbeats_out c)
    (heartbeats_abandoned c) (eos_out c) (eos_abandoned c) (batches_abandoned c) (cobo_mismatch c)
    (errored c) (topology_frames c) (logged_unsupported c) (logged_malformed c)
    (logged_topology c) (logged_cobo_mismatch c) (logged_heartbeat_abandoned c) (source_epochs c)
    (min_epoch c) (acquisition_restarts c) (frames_before_restart c) (logged_restart c)
    (logged_compact_mismatch c).

Definition new (run_number : Z) (expected_sources : gset Z) (batch_max_bytes batch_max : Z)
    : RunDecoder :=
  mkRunDecoder run_number false expected_sources ∅ Decode.new [] 0 None batch_max_bytes batch_max
    0 ∅ ∅ 0 0 0 0 0 0 0 0 0 0 0 0 0 0 false 0 false false false false false ∅ 0 0 ∅ false false.

(** ** Input *)

Definition check_run (run : Z) (c : RunDecoder) : RunDecoder :=
  if awaiting_run c then
    let c := c <| awaiting_run := false |> in
    if negb (run =? run_number c) then c <| run_number := run |> else c
  else if negb (run =? run_number c) then
    c <| run_mismatches ::= incr |> <| errored := true |>
  else c.

(** The per-source sequence check of a batch ([u64] arithmetic, release profile). *)
Definition check_sequence (source sequence : Z) (c : RunDecoder) : RunDecoder :=
  let expected := default 0 (next_seq c !! source) in
  let c :=
    if negb (sequence =? expected) then c <| seq_gaps ::= incr |> <| errored := true |> else c in
  c <| next_seq ::= <[source := wrap 64 (sequence + 1)]> |>
    <| batches_in ::= <[source := default 0 (batches_in c !! source) + 1]> |>.

(** The run's generation: the least epoch over the expected sources, 0 for one
    that has not sent anything. *)
Definition epoch_of (epochs : gmap Z SourceEpoch) (s : Z) : Z :=
  match epochs !! s with
  | Some e => epoch e
  | None => 0
  end.

Definition min_list (l : list Z) : option Z :=
  match l with
  | [] => None
  | x :: l => Some (fold_left Z.min l x)
  end.

Definition least_epoch (expected : gset Z) (epochs : gmap Z SourceEpoch) : Z :=
  default 0 (min_list (map (epoch_of epochs) (elements expected))).

Definition saturating_add64 (a b : Z) : Z := Z.min (a + b) (2 ^ 64 - 1).

Definition track_acquisition_restart (source event_idx event_time : Z) (c : RunDecoder)
    : RunDecoder :=
  let state := default (mkSourceEpoch 0 0 (2 ^ 64 - 1) 0) (source_epochs c !! source) in
  let state := state <| data_frames ::= incr |> in
  let restarted :=
    (event_idx =? 0) && (RESTART_GATE_EVENT_IDX <? max_event_idx state) &&
    (saturating_add64 event_time RESTART_MIN_TIME_GAP <? time_floor state) in
  if negb restarted then
    let state := state <| max_event_idx ::= fun m => Z.max m event_idx |>
                       <| time_floor ::= fun t => Z.min t event_time |> in
    c <| source_epochs ::= <[source := state]> |>
  else
    let state := state <| epoch ::= incr |> <| max_event_idx := 0 |>
                       <| time_floor := event_time |> in
    let before := data_frames state - 1 in
    let c := c <| source_epochs ::= <[source := state]> |>
               <| frames_before_restart ::= fun m =>
                    match m !! source with Some _ => m | None => <[source := before]> m end |> in
    let least := least_epoch (expected_sources c) (source_epochs c) in
    let c :=
      if min_epoch c <? least then
        c <| min_epoch := least |> <| acquisition_restarts ::= incr |>
      else c in
    c <| logged_restart := true |>.

(** One fragment out of the decoder: cross-checks, restart tracking, the batch. *)
Definition take_fragment (source : Z) (compact_mismatch : bool) (now : Z) (f : Fragment)
    (c : RunDecoder) : RunDecoder :=
  let c := if compact_mismatch then c <| logged_compact_mismatch := true |> else c in
  let c :=
    if negb (cobo f =? source) then
      c <| cobo_mismatch ::= incr |> <| logged_cobo_mismatch := true |>
    else c in
  let c := track_acquisition_restart source (event_idx f) (event_time f) c in
  c <| pending_bytes ::= Z.add (len (items f)) |>
    <| pending ::= fun p => p ++ [f] |>
    <| batch_deadline ::= fun d => match d with None => Some (now + batch_max c) | d => d end |>.

Definition handle_frame (source now : Z) (frame : bytes) (c : RunDecoder) : rust RunDecoder :=
  let c := c <| frames_in ::= incr |> in
  let before := decoder c in
  let! (decoded, d) := Decode.decode before frame in
  let c := c <| decoder := d |> in
  match decoded with
  | Some f =>
      Val (take_fragment source
             (Decode.compact_size_mismatch before <? Decode.compact_size_mismatch d) now f c)
  | None =>
      if Decode.malformed before <? Decode.malformed d then
        Val (c <| errored := true |> <| logged_malformed := true |>)
      else if Decode.unsupported before <? Decode.unsupported d then
        let! topology := Decode.parse_topology frame in
        match topology with
        | Some _ => Val (c <| topology_frames ::= incr |> <| logged_topology := true |>)
        | None => Val (c <| logged_unsupported := true |>)
        end
      else Val (c <| errored := true |>)
  end.

Fixpoint handle_frames (source now : Z) (frames : list bytes) (c : RunDecoder)
    : rust RunDecoder :=
  match frames with
  | [] => Val c
  | frame :: frames =>
      let! c := handle_frame source now frame c in
      handle_frames source now frames c
  end.

Definition handle_batch (source run sequence : Z) (frames : list bytes) (now : Z)
    (c : RunDecoder) : rust (Emit * RunDecoder) :=
  let c := check_run run c in
  let c := check_sequence source sequence c in
  let! c := handle_frames source now frames c in
  Val (if batch_max_bytes c <=? pending_bytes c then EmitBatch else Nothing, c).

Definition handle_eos (source run : Z) (c : RunDecoder) : Emit * RunDecoder :=
  let c := c <| eos_in ::= incr |> in
  let c := check_run run c in
  let c := c <| eos_received ::= union {[source]} |> in
  (if negb (bool_decide (expected_sources c ⊆ eos_received c)) then Nothing
   else FlushAndEndOfStream, c).

Definition handle_heartbeat (source : Z) (c : RunDecoder) : RunDecoder :=
  c <| heartbeats_in ::= incr |>.

Definition tick (now : Z) (c : RunDecoder) : Emit :=
  match batch_deadline c with
  | Some deadline => if deadline <=? now then EmitBatch else Nothing
  | None => Nothing
  end.

Definition has_pending (c : RunDecoder) : bool :=
  match pending c with
  | [] => false
  | _ => true
  end.

(** ** Output bookkeeping *)

Definition clear_pending (c : RunDecoder) : RunDecoder :=
  c <| pending := [] |> <| pending_bytes := 0 |> <| batch_deadline := None |>.

Definition batch_sent (c : RunDecoder) : RunDecoder :=
  clear_pending
    (c <| batches_out ::= incr |>
       <| fragments_out ::= Z.add (len (pending c)) |>
       <| items_out ::= Z.add (pending_bytes c / 4) |>
       <| out_seq ::= incr |>).

Definition batch_abandoned (c : RunDecoder) : RunDecoder :=
  clear_pending (c <| batches_abandoned ::= incr |> <| out_seq ::= incr |>).

Definition rearm (c : RunDecoder) : RunDecoder :=
  clear_pending
    (c <| eos_received := ∅ |> <| next_seq := ∅ |> <| out_seq := 0 |> <| awaiting_run := true |>
       <| source_epochs := ∅ |> <| min_epoch := 0 |> <| logged_restart := false |>).

Definition eos_sent (c : RunDecoder) : RunDecoder := rearm (c <| eos_out ::= incr |>).
Definition eos_abandon (c : RunDecoder) : RunDecoder := rearm (c <| eos_abandoned ::= incr |>).
Definition heartbeat_sent (c : RunDecoder) : RunDecoder := c <| heartbeats_out ::= incr |>.
Definition heartbeat_abandoned (c : RunDecoder) : RunDecoder :=
  c <| heartbeats_abandoned ::= incr |> <| logged_heartbeat_abandoned := true |>.

(** A [HashMap<u32, u64>] as a JSON object with decimal keys. *)
Definition json_of_map (m : gmap Z Z) : Json :=
  JObj (map (fun kv => (pretty (fst kv), JNum (snd kv))) (map_to_list m)).

Definition metrics_json (c : RunDecoder) : Json :=
  JObj
    [("run_number", JNum (run_number c));
     ("batches_in", json_of_map (batches_in c));
     ("frames_in", JNum (frames_in c));
     ("fragments_out", JNum (fragments_out c));
     ("batches_out", JNum (batches_out c));
     ("items_out", JNum (items_out c));
     ("unsupported", JNum (Decode.unsupported (decoder c)));
     ("topology_frames", JNum (topology_frames c));
     ("malformed", JNum (Decode.malformed (decoder c)));
     ("frames_type1", JNum (Decode.frames_type1 (decoder c)));
     ("frames_type2", JNum (Decode.frames_type2 (decoder c)));
     ("compact_size_mismatch", JNum (Decode.compact_size_mismatch (decoder c)));
     ("seq_gaps", JNum (seq_gaps c));
     ("run_mismatches", JNum (run_mismatches c));
     ("eos_in", JNum (eos_in c));
     ("heartbeats_in", JNum (heartbeats_in c));
     ("heartbeats_out", JNum (heartbeats_out c));
     ("heartbeats_abandoned", JNum (heartbeats_abandoned c));
     ("eos_out", JNum (eos_out c));
     ("eos_abandoned", JNum (eos_abandoned c));
     ("batches_abandoned", JNum (batches_abandoned c));
     ("cobo_mismatch", JNum (cobo_mismatch c));
     ("acquisition_restarts", JNum (acquisition_restarts c));
     ("frames_before_restart", json_of_map (frames_before_restart c))].

(** ** The decoder thread *)

(** What one [push.send] returns; [EAGAIN] (the send timeout) comes with the
    value of the [abandon] flag that [Reset] raises, read right after it. *)
Inductive ZmqSend : Type :=
| SendOk
| EAGAIN (abandon : bool)
| ETERM
| SendError.

Inductive SendOutcome : Type := Sent | Abandoned.

#[export] Instance SendOutcome_eq_dec : EqDecision SendOutcome.
Proof. solve_decision. Defined.

(** The retry loop.  The socket's future answers are a script; a script that
    ends while the loop is still waiting is [OutOfFuel]. *)
Fixpoint send_lossless (script : list ZmqSend) : rust (SendOutcome * list ZmqSend) :=
  match script with
  | [] => OutOfFuel
  | SendOk :: script => Val (Sent, script)
  | EAGAIN abandon :: script => if abandon then Val (Abandoned, script) else send_lossless script
  | ETERM :: script => Val (Abandoned, script)
  | SendError :: script => Val (Abandoned, script)
  end.

(** The thread's state: the core it shares with the command handler, the PUSH
    socket's future answers, and every message it tried to send, with the
    outcome.  Between the two locks of a send nobody else writes the core, so
    the read-encode-send-count sequence is one operation. *)
Record Thread : Type := mkThread {
  core : RunDecoder;
  script : list ZmqSend;
  attempts : list (SendOutcome * Message Fragments);
  heartbeat_counter : Z;
  last_send : Z;
}.
#[export] Instance Thread_eta : Eta Thread := fun t =>
  mkThread (core t) (script t) (attempts t) (heartbeat_counter t) (last_send t).

(** What one turn of the loop observes. *)
Inductive Polled : Type :=
| NoMessage
| Terminated
| Undecodable
| Received (m : Message RawFrames).

Record Turn : Type := mkTurn {
  stop_requested : bool;
  polled : Polled;
  now_batch : Z;
  now_tick : Z;
  unix_nanos : Z;
  now_sent : Z;
  now_heartbeat : Z;
  now_idle : Z;
}.

Section thread.
Variable to_msgpack : Message Fragments -> result bytes string.

(** Encode a message, then send it; what the core counts depends on the outcome. *)
Definition send_message (m : Message Fragments) (sent abandoned : RunDecoder -> RunDecoder)
    (t : Thread) : rust (bool * Thread) :=
  match to_msgpack m with
  | Err _ => Val (false, t <| core ::= abandoned |> <| attempts ::= fun l => l ++ [(Abandoned, m)] |>)
  | Ok _ =>
      let! (outcome, rest) := send_lossless (script t) in
      let t := t <| script := rest |> <| attempts ::= fun l => l ++ [(outcome, m)] |> in
      Val match outcome with
          | Sent => (true, t <| core ::= sent |>)
          | Abandoned => (false, t <| core ::= abandoned |>)
          end
  end.

Definition send_pending (created : Z) (t : Thread) : rust (bool * Thread) :=
  if negb (has_pending (core t)) then Val (true, t)
  else
    send_message
      (Data (mkBatch DECODER_SOURCE_ID (run_number (core t)) (out_seq (core t)) created
               (pending (core t))))
      batch_sent batch_abandoned t.

Definition send_own_eos (t : Thread) : rust (bool * Thread) :=
  send_message (EndOfStream DECODER_SOURCE_ID (run_number (core t))) eos_sent eos_abandon t.

Definition send_heartbeat (counter : Z) (t : Thread) : rust (bool * Thread) :=
  send_message (Heartbeat DECODER_SOURCE_ID (run_number (core t)) counter)
    heartbeat_sent heartbeat_abandoned t.

(** The poll timeout in milliseconds: up to the batch deadline, rounded up,
    and at most [POLL_TIMEOUT_MS]. *)
Definition wait_ms (deadline : option Z) (now : Z) : Z :=
  match deadline with
  | Some deadline =>
      let remaining := Z.max 0 (deadline - now) in
      let ms := (remaining + 1000000 - 1) / 1000000 in
      Z.min (if ms <? 2 ^ 63 then ms else POLL_TIMEOUT_MS) POLL_TIMEOUT_MS
  | None => POLL_TIMEOUT_MS
  end.

(** What the core says to the polled message. *)
Definition consume (p : Polled) (now now' : Z) (c : RunDecoder) : rust (Emit * RunDecoder) :=
  let! (from_message, c) :=
    match p with
    | Received (Data b) =>
        handle_batch (Msg.source_id b) (Msg.run_number b) (sequence_number b) (payload b) now c
    | Received (EndOfStream source run) => Val (handle_eos source run c)
    | Received (Heartbeat source _ _) => Val (Nothing, handle_heartbeat source c)
    | _ => Val (Nothing, c)
    end in
  Val (match from_message with
       | Nothing => tick now' c
       | other => other
       end, c).

Definition obey (e : Emit) (tn : Turn) (t : Thread) : rust Thread :=
  match e with
  | Nothing => Val t
  | EmitBatch =>
      let! (_, t) := send_pending (unix_nanos tn) t in
      Val (t <| last_send := now_sent tn |>)
  | FlushAndEndOfStream =>
      let! (_, t) := send_pending (unix_nanos tn) t in
      let! (_, t) := send_own_eos t in
      Val (t <| last_send := now_sent tn |>)
  end.

Definition idle_heartbeat (heartbeat_interval : Z) (tn : Turn) (t : Thread) : rust Thread :=
  if heartbeat_interval <=? now_heartbeat tn - last_send t then
    if negb (has_pending (core t)) then
      let! (_, t) := send_heartbeat (heartbeat_counter t) t in
      Val (t <| heartbeat_counter ::= incr |> <| last_send := now_idle tn |>)
    else Val t
  else Val t.

(** One turn of [while]: [None] is the way out of the loop. *)
Definition turn (heartbeat_interval : Z) (tn : Turn) (t : Thread) : rust (option Thread) :=
  if stop_requested tn then Val None else
  match polled tn with
  | Terminated => Val None
  | p =>
      let! (emit, c) := consume p (now_batch tn) (now_tick tn) (core t) in
      let! t := obey emit tn (t <| core := c |>) in
      let! t := idle_heartbeat heartbeat_interval tn t in
      Val (Some t)
  end.

(** The loop, then the final flush.  A list of turns that ends without a way
    out is a thread stopped at that point by its last turn's observation. *)
Fixpoint run_decoder_thread (heartbeat_interval : Z) (turns : list Turn) (created : Z) (t : Thread)
    : rust Thread :=
  match turns with
  | [] => let! (_, t) := send_pending created t in Val t
  | tn :: turns =>
      let! t' := turn heartbeat_interval tn t in
      match t' with
      | None => let! (_, t) := send_pending created t in Val t
      | Some t => run_decoder_thread heartbeat_interval turns created t
      end
  end.
End thread.

(** ** The command handler *)

(** The shared [Mutex<RunDecoder>]: poisoned once the thread has panicked
    while it held the lock. *)
Inductive CoreCell : Type :=
| Live (c : RunDecoder)
| Poisoned.

Record DecoderParams : Type := mkDecoderParams {
  push_connect : string;
  p_batch_max_bytes : Z;
  batch_max_ms : Z;
  p_expected_sources : list Z;
}.

Record DecoderHandler : Type := mkDecoderHandler {
  params : DecoderParams;
  h_status : ComponentState;
  h_run_number : option Z;
  pull_socket : bool;
  bind_address : option string;
  h_core : option CoreCell;
  abandon : option bool;
  stop_tx : bool;
  thread : bool;
}.
#[export] Instance DecoderHandler_eta : Eta DecoderHandler := fun h =>
  mkDecoderHandler (params h) (h_status h) (h_run_number h) (pull_socket h) (bind_address h)
    (h_core h) (abandon h) (stop_tx h) (thread h).

Definition handler_new (p : DecoderParams) : DecoderHandler :=
  mkDecoderHandler p Idle None false None None None false false.

(** What ZeroMQ and the threads answer while one command is handled: the
    binding of the PULL socket, the four steps of building the PUSH socket, the
    spawn, and the shared core once the thread has ended. *)
Record DecoderEnv : Type := mkDecoderEnv {
  bind_pull : result string string;
  push_create : result unit string;
  push_hwm : result unit string;
  push_sndtimeo : result unit string;
  push_connected : result unit string;
  spawn : result unit string;
  joined : CoreCell;
}.

Definition cell_errored (cell : CoreCell) : bool :=
  match cell with
  | Live c => errored c
  | Poisoned => true
  end.

Definition dec_latch_error (h : DecoderHandler) : DecoderHandler :=
  if bool_decide (h_status h = Error) || negb (can_transition_to (h_status h) Error) then h
  else
    let is_errored := match h_core h with None => false | Some cell => cell_errored cell end in
    if negb is_errored then h else h <| h_status := Error |>.

Definition build_push (env : DecoderEnv) (h : DecoderHandler) : result unit string :=
  let? _ := map_err (fun e => "cannot create PUSH socket: " +:+ e) (push_create env) in
  let? _ := map_err (fun e => "cannot set PUSH HWM: " +:+ e) (push_hwm env) in
  let? _ := map_err (fun e => "cannot set PUSH send timeout: " +:+ e) (push_sndtimeo env) in
  map_err (fun e => "cannot connect to " +:+ push_connect (params h) +:+ ": " +:+ e)
    (push_connected env).

Definition signal_stop (h : DecoderHandler) : DecoderHandler := h <| stop_tx := false |>.

(** Waits for the thread: the shared core is what the thread left. *)
Definition join_thread (env : DecoderEnv) (h : DecoderHandler) : DecoderHandler :=
  if thread h then
    h <| thread := false |> <| h_core ::= fun c => match c with Some _ => Some (joined env) | None => None end |>
  else h.

Definition dec_configure (cfg : RunConfig) (h : DecoderHandler) : result unit string * DecoderHandler :=
  (Ok tt, h <| h_run_number := Some (cfg_run_number cfg) |>).

Definition dec_arm (env : DecoderEnv) (h : DecoderHandler) : result unit string * DecoderHandler :=
  match bind_pull env with
  | Err e => (Err e, h)
  | Ok endpoint => (Ok tt, h <| bind_address := Some endpoint |> <| pull_socket := true |>)
  end.

Definition dec_start (env : DecoderEnv) (run : Z) (h : DecoderHandler)
    : result unit string * DecoderHandler :=
  if negb (pull_socket h) then (Err "no PULL socket: Arm again before Start", h) else
  let h := h <| pull_socket := false |> in
  match build_push env h with
  | Err e => (Err e, h <| pull_socket := true |>)
  | Ok _ =>
      let h :=
        h <| h_run_number := Some run |>
          <| h_core := Some (Live (new run (list_to_set (p_expected_sources (params h)))
                                  (p_batch_max_bytes (params h))
                                  (batch_max_ms (params h) * 1000000))) |>
          <| abandon := Some false |> <| stop_tx := true |> in
      match spawn env with
      | Err e => (Err ("cannot spawn decoder thread: " +:+ e), h)
      | Ok _ => (Ok tt, h <| thread := true |>)
      end
  end.

Definition dec_stop (h : DecoderHandler) : result unit string * DecoderHandler :=
  (Ok tt, signal_stop h <| bind_address := None |>).

Definition dec_reset (env : DecoderEnv) (h : DecoderHandler) : result unit string * DecoderHandler :=
  let h := h <| abandon ::= fun a => match a with Some _ => Some true | None => None end |> in
  let h := signal_stop h in
  let h := join_thread env h in
  (Ok tt, h <| pull_socket := false |> <| bind_address := None |> <| h_run_number := None |>).

Definition dec_dispatch (env : DecoderEnv) (cmd : Command) (h : DecoderHandler)
    : result unit string * DecoderHandler :=
  match cmd with
  | Configure cfg => dec_configure cfg h
  | Arm => dec_arm env h
  | Start run => dec_start env run h
  | Stop => dec_stop h
  | Reset => dec_reset env h
  | GetStatus => (Ok tt, h)
  end.

Definition dec_respond (h : DecoderHandler) (ok : bool) (m : string) : CommandResponse :=
  let response := if ok then response_success (h_status h) m else response_error (h_status h) m in
  let response :=
    match h_run_number h with
    | Some run => with_run_number response run
    | None => response
    end in
  let metrics :=
    match h_core h with
    | Some (Live c) => metrics_json c
    | _ => JObj []
    end in
  with_metrics response
    (json_set metrics "bind_address"
       match bind_address h with Some addr => JStr addr | None => JNull end).

#[export] Instance decoder_handler : Handler DecoderHandler DecoderEnv := {
  h_state := h_status;
  h_set_state := fun s h => h <| h_status := s |>;
  latch_error := dec_latch_error;
  dispatch := dec_dispatch;
  respond := dec_respond;
}.

(** The component's [handle]: the shared handler body over the parts above. *)
Definition dec_handle (env : DecoderEnv) (cmd : Command) (h : DecoderHandler)
    : CommandResponse * DecoderHandler := handle env cmd h.

(** The handler and the thread behind it: the thread writes the shared core
    between two commands, at any time after [Start] created it. *)
Inductive system_step : DecoderHandler -> DecoderHandler -> Prop :=
| step_command env cmd h : system_step h (snd (dec_handle env cmd h))
| step_thread cell cell' h :
    h_core h = Some cell -> system_step h (h <| h_core := Some cell' |>).

(** ** Lemmas: one frame *)

Definition item_bytes (fs : list Fragment) : Z := foldr (fun f n => len (items f) + n) 0 fs.

Lemma item_bytes_app fs gs : item_bytes (fs ++ gs) = item_bytes fs + item_bytes gs.
Proof.
  unfold item_bytes. induction fs as [| f fs IH]; [done |]. rewrite <- app_comm_cons.
  cbn [foldr]. rewrite IH. lia.
Qed.

(** The fragments a list of frames decodes to, in order. *)
Definition frags_of (frames : list bytes) : list Fragment := omap Decode.frag_of frames.

(** The fields the input side never writes. *)
Definition same_output (c c' : RunDecoder) : Prop :=
  out_seq c' = out_seq c /\ expected_sources c' = expected_sources c /\
  batches_out c' = batches_out c /\ fragments_out c' = fragments_out c /\
  items_out c' = items_out c /\ eos_out c' = eos_out c /\ eos_abandoned c' = eos_abandoned c /\
  batches_abandoned c' = batches_abandoned c /\ heartbeats_out c' = heartbeats_out c /\
  heartbeats_abandoned c' = heartbeats_abandoned c /\ batch_max c' = batch_max c /\
  batch_max_bytes c' = batch_max_bytes c.

Lemma same_output_trans c1 c2 c3 : same_output c1 c2 -> same_output c2 c3 -> same_output c1 c3.
Proof. unfold same_output. intuition congruence. Qed.

(** The input-side fields that neither restart tracking nor batching writes. *)
Definition same_input (c c' : RunDecoder) : Prop :=
  run_number c' = run_number c /\ awaiting_run c' = awaiting_run c /\
  eos_received c' = eos_received c /\ decoder c' = decoder c /\ errored c' = errored c /\
  frames_in c' = frames_in c /\ topology_frames c' = topology_frames c /\
  seq_gaps c' = seq_gaps c /\ run_mismatches c' = run_mismatches c /\
  next_seq c' = next_seq c /\ batches_in c' = batches_in c /\ eos_in c' = eos_in c.

Lemma same_input_trans c1 c2 c3 : same_input c1 c2 -> same_input c2 c3 -> same_input c1 c3.
Proof. unfold same_input. intuition congruence. Qed.

Definition same_pending (c c' : RunDecoder) : Prop :=
  pending c' = pending c /\ pending_bytes c' = pending_bytes c /\
  batch_deadline c' = batch_deadline c.

(** The epochs and their counters. *)
Definition same_epochs (c c' : RunDecoder) : Prop :=
  source_epochs c' = source_epochs c /\ min_epoch c' = min_epoch c /\
  acquisition_restarts c' = acquisition_restarts c.

Lemma track_frame source idx time c :
  let c' := track_acquisition_restart source idx time c in
  same_output c c' /\ same_input c c' /\ same_pending c c'.
Proof.
  unfold track_acquisition_restart. cbv zeta. destruct (negb _); [by split_and! |].
  by destruct (_ <? _).
Qed.

Lemma take_fragment_frame source mis now f c :
  let c' := take_fragment source mis now f c in
  same_output c c' /\ same_input c c' /\ pending c' = pending c ++ [f] /\
  pending_bytes c' = len (items f) + pending_bytes c /\ batch_deadline c' <> None /\
  exists c0, same_epochs c c0 /\ same_output c c0 /\
    same_epochs (track_acquisition_restart source (event_idx f) (event_time f) c0) c'.
Proof.
  unfold take_fragment. cbv zeta.
  set (c2 := if negb (cobo f =? source) then _ else _).
  assert (H2 : same_output c c2 /\ same_input c c2 /\ same_pending c c2 /\ same_epochs c c2).
  { subst c2. by destruct mis, (negb (cobo f =? source)). }
  pose proof (track_frame source (event_idx f) (event_time f) c2) as H3. cbv zeta in H3.
  set (c3 := track_acquisition_restart _ _ _ c2) in *.
  assert (He : same_epochs c c2) by apply H2.
  assert (Ho : same_output c c2) by apply H2.
  assert (Hex : exists c0, same_epochs c c0 /\ same_output c c0 /\
    same_epochs (track_acquisition_restart source (event_idx f) (event_time f) c0) c3).
  { by exists c2. }
  clearbody c3 c2.
  destruct H2 as (S2 & I2 & (P2 & B2 & D2) & _). destruct H3 as (S3 & I3 & (P3 & B3 & D3)).
  split_and!.
  - apply (same_output_trans c c3); [by eapply same_output_trans | done].
  - apply (same_input_trans c c3); [by eapply same_input_trans | done].
  - cbn. congruence.
  - cbn. congruence.
  - cbn. by destruct (batch_deadline c3).
  - exact Hex.
Qed.

(** *** The run's generation *)

Lemma fold_min_step (f g : Z -> Z) l x y :
  x <= y <= x + 1 -> (forall s, f s <= g s <= f s + 1) ->
  fold_left Z.min (map f l) x <= fold_left Z.min (map g l) y <= fold_left Z.min (map f l) x + 1.
Proof.
  revert x y. induction l as [| s l IH]; intros x y Hxy Hfg; [done |]. cbn [map fold_left].
  apply IH; [| done]. specialize (Hfg s). lia.
Qed.

Lemma least_epoch_step expected m m' :
  (forall s, epoch_of m s <= epoch_of m' s <= epoch_of m s + 1) ->
  least_epoch expected m <= least_epoch expected m' <= least_epoch expected m + 1.
Proof.
  intros H. unfold least_epoch. destruct (elements expected) as [| s l]; [cbn; lia |].
  cbn [map min_list default from_option]. by apply fold_min_step.
Qed.

Lemma least_epoch_ext expected m m' :
  (forall s, epoch_of m' s = epoch_of m s) -> least_epoch expected m' = least_epoch expected m.
Proof. intros H. unfold least_epoch. do 2 f_equal. apply map_ext. exact H. Qed.

Lemma least_epoch_empty expected : least_epoch expected ∅ = 0.
Proof.
  unfold least_epoch. destruct (elements expected) as [| s l]; [done |].
  cbn [map min_list default from_option]. unfold epoch_of at 2. rewrite lookup_empty.
  induction l as [| s' l IH]; [done |]. cbn [map fold_left]. unfold epoch_of at 2.
  by rewrite lookup_empty.
Qed.

Definition epochs_ok (c : RunDecoder) : Prop :=
  min_epoch c = least_epoch (expected_sources c) (source_epochs c).

Lemma epoch_of_insert m source e s :
  epoch_of (<[source := e]> m) s = if decide (source = s) then epoch e else epoch_of m s.
Proof.
  unfold epoch_of. destruct (decide (source = s)) as [-> | Hne].
  - by rewrite lookup_insert_eq.
  - by rewrite lookup_insert_ne.
Qed.

(** The restart counter moves with the generation, by one at most. *)
Definition epochs_step (c c' : RunDecoder) : Prop :=
  acquisition_restarts c' - acquisition_restarts c = min_epoch c' - min_epoch c /\
  min_epoch c <= min_epoch c'.

Lemma track_epochs source idx time c :
  epochs_ok c ->
  let c' := track_acquisition_restart source idx time c in
  epochs_ok c' /\ epochs_step c c' /\ min_epoch c' <= min_epoch c + 1.
Proof.
  unfold epochs_ok, epochs_step, track_acquisition_restart. cbv zeta. intros Hok.
  set (st := default _ (source_epochs c !! source)).
  assert (Hst : epoch st = epoch_of (source_epochs c) source).
  { subst st. unfold epoch_of. by destruct (source_epochs c !! source). }
  destruct (negb _); cbn.
  - split; [| lia]. rewrite Hok. symmetry. apply least_epoch_ext. intros s.
    rewrite epoch_of_insert. destruct (decide (source = s)) as [<- |]; [| done]. exact Hst.
  - set (m' := <[source := _]> (source_epochs c)).
    assert (Hstep : least_epoch (expected_sources c) (source_epochs c) <=
      least_epoch (expected_sources c) m' <=
      least_epoch (expected_sources c) (source_epochs c) + 1).
    { apply least_epoch_step. intros s. subst m'. rewrite epoch_of_insert.
      destruct (decide (source = s)) as [<- |]; [| lia]. cbn. rewrite Hst. lia. }
    destruct (Z.ltb_spec (min_epoch c) (least_epoch (expected_sources c) m')); cbn. all: fold m'; lia.
Qed.
(** What one frame does to the core: its fragment, if any, joins the batch. *)
Record frame_effect (c : RunDecoder) (frames : list bytes) (c' : RunDecoder) : Prop := {
  fe_output : same_output c c';
  fe_pending : pending c' = pending c ++ frags_of frames;
  fe_bytes : pending_bytes c' = pending_bytes c + item_bytes (frags_of frames);
  fe_deadline : (batch_deadline c = None <-> pending c = []) ->
    (batch_deadline c' = None <-> pending c' = []);
  fe_run : run_number c' = run_number c /\ awaiting_run c' = awaiting_run c /\
    eos_received c' = eos_received c;
  fe_seq : next_seq c' = next_seq c /\ seq_gaps c' = seq_gaps c /\
    run_mismatches c' = run_mismatches c /\ eos_in c' = eos_in c;
  fe_frames : frames_in c' = frames_in c + len frames;
  fe_counted : Decode.counted (decoder c') = Decode.counted (decoder c) + len frames;
  fe_decoded : Decode.frames (decoder c') = Decode.frames (decoder c) + len (frags_of frames);
  fe_malformed : Decode.malformed (decoder c) <= Decode.malformed (decoder c');
  fe_unsupported : Decode.unsupported (decoder c) <= Decode.unsupported (decoder c');
  fe_errored : errored c' = errored c || (Decode.malformed (decoder c) <? Decode.malformed (decoder c'));
  fe_topology : 0 <= topology_frames c' - topology_frames c <=
    Decode.unsupported (decoder c') - Decode.unsupported (decoder c);
  fe_epochs : epochs_ok c -> epochs_ok c' /\ epochs_step c c';
}.

Lemma frags_of_one frame :
  frags_of [frame] = match Decode.frag_of frame with Some f => [f] | None => [] end.
Proof. unfold frags_of. cbn. by destruct (Decode.frag_of frame). Qed.

Lemma handle_frame_effect source now frame c :
  is_bytes frame ->
  exists c', handle_frame source now frame c = Val c' /\ frame_effect c [frame] c'.
Proof.
  intros Hb. unfold handle_frame. cbv zeta. rewrite Decode.decode_is_ref by done.
  change (decoder (c <| frames_in ::= incr |>)) with (decoder c).
  pose proof (Decode.decode_ref_accounting (decoder c) frame) as Hacc.
  pose proof (Decode.decode_ref_frag (decoder c) frame) as Hfrag.
  destruct (Decode.decode_ref (decoder c) frame) as [out d] eqn:Hdec. cbn [fst] in Hfrag.
  cbn [rust_bind]. destruct Hacc as (Hc & Hout & _ & Ht).
  destruct out as [f |]; [| destruct Hout as (Hf & _ & Hm & Hu);
    destruct (Z.ltb_spec (Decode.malformed (decoder c)) (Decode.malformed d)) as [Hlt | Hge]].
  - destruct Hout as (Hf & Hm & Hu & _). eexists. split; [done |].
    set (c1 := (c <| frames_in ::= incr |>) <| decoder := d |>).
    assert (Hs1 : same_output c c1) by done.
    destruct (take_fragment_frame source (Decode.compact_size_mismatch (decoder c) <?
      Decode.compact_size_mismatch d) now f c1)
      as (So & Si & Hp & Hpb & Hd & c0 & He0 & Ho0 & He).
    set (c' := take_fragment _ _ _ _ c1) in *. clearbody c'.
    destruct Si as (? & ? & ? & Hdd & Her & Hfr & Htp & ? & ? & ? & ? & ?).
    change (decoder c1) with d in Hdd.
    constructor; rewrite ?frags_of_one, <- ?Hfrag, ?Hdd; cbn [item_bytes foldr].
    + by apply (same_output_trans c c1).
    + exact Hp.
    + rewrite Hpb. change (pending_bytes c1) with (pending_bytes c). lia.
    + intros _. rewrite Hp. split; [done | by destruct (pending c1)].
    + done.
    + done.
    + rewrite Hfr. done.
    + unfold len. cbn. lia.
    + unfold len. cbn. lia.
    + lia.
    + lia.
    + rewrite Her, Hm, Z.ltb_irrefl, orb_false_r. done.
    + rewrite Htp. change (topology_frames c1) with (topology_frames c). lia.
    + intros Hok. destruct (track_epochs source (event_idx f) (event_time f) c0) as (Hk & Hs & _).
      { unfold epochs_ok in *. destruct He0 as (-> & -> & _), Ho0 as (_ & -> & _). exact Hok. }
      destruct (track_frame source (event_idx f) (event_time f) c0) as (Hto & _ & _).
      pose proof (same_output_trans _ _ _ Ho0 Hto) as (_ & Hexp & _).
      destruct So as (_ & Hexp' & _). unfold epochs_ok, epochs_step in *.
      destruct He as (-> & -> & ->), He0 as (_ & E2 & E3). rewrite E2, E3 in Hs.
      split; [| exact Hs]. rewrite Hk, Hexp', Hexp. done.
  - eexists. split; [done |]. unfold Decode.counted in Hc.
    constructor; rewrite ?frags_of_one, <- ?Hfrag; cbn -[Decode.counted]; rewrite ?app_nil_r;
      try done; try (unfold len, Decode.counted; cbn; lia).
    intros Hok. split; [exact Hok | unfold epochs_step; cbn; lia].
  - unfold Decode.counted in Hc.
    replace (Decode.unsupported (decoder c) <? Decode.unsupported d) with true by lia.
    destruct (Decode.parse_topology_val frame Hb) as (t & -> & Htopo). cbn [rust_bind].
    destruct t as [x |]; eexists; (split; [done |]);
    constructor; rewrite ?frags_of_one, <- ?Hfrag; cbn -[Decode.counted]; rewrite ?app_nil_r;
      try done; try (unfold len, Decode.counted; cbn; lia).
    all: try (bdecide; by rewrite orb_false_r).
    all: intros Hok; split; [exact Hok | unfold epochs_step; cbn; lia].
Qed.

Lemma frags_of_app fs gs : frags_of (fs ++ gs) = frags_of fs ++ frags_of gs.
Proof. apply omap_app. Qed.

Lemma epochs_step_trans c1 c2 c3 : epochs_step c1 c2 -> epochs_step c2 c3 -> epochs_step c1 c3.
Proof. unfold epochs_step. lia. Qed.

Lemma frame_effect_nil c : frame_effect c [] c.
Proof.
  constructor; cbn; rewrite ?app_nil_r; try done; try (unfold len; cbn; lia).
  - by rewrite Z.ltb_irrefl, orb_false_r.
  - by intros Hok; split; [| unfold epochs_step; lia].
Qed.

Lemma frame_effect_app c fs c1 gs c2 :
  frame_effect c fs c1 -> frame_effect c1 gs c2 -> frame_effect c (fs ++ gs) c2.
Proof.
  intros [O1 P1 B1 D1 (R1 & A1 & S1) (N1 & G1 & M1 & E1) F1 C1 K1 L1 U1 R1' T1 H1]
         [O2 P2 B2 D2 (R2 & A2 & S2) (N2 & G2 & M2 & E2) F2 C2 K2 L2 U2 R2' T2 H2].
  constructor; rewrite ?frags_of_app, ?item_bytes_app, ?len_app; try lia; try (split_and!; congruence).
  - by eapply same_output_trans.
  - by rewrite P2, P1, app_assoc.
  - tauto.
  - rewrite R2', R1'. destruct (errored c); cbn [orb]; lia.
  - intros Hok. destruct (H1 Hok) as [Hok1 Hs1]. destruct (H2 Hok1) as [Hok2 Hs2].
    split; [done | by eapply epochs_step_trans].
Qed.

Lemma handle_frames_effect source now frames c :
  Forall is_bytes frames ->
  exists c', handle_frames source now frames c = Val c' /\ frame_effect c frames c'.
Proof.
  intros Hb. revert c. induction Hb as [| f fs Hf _ IH]; intros c.
  { exists c. split; [done | apply frame_effect_nil]. }
  cbn [handle_frames]. destruct (handle_frame_effect source now f c Hf) as (c1 & -> & H1).
  destruct (IH c1) as (c2 & H2 & H2'). cbn [rust_bind]. exists c2. split; [done |].
  by apply (frame_effect_app c [f] c1).
Qed.

(** ** The core's invariant *)

Record core_ok (c : RunDecoder) : Prop := {
  co_bytes : pending_bytes c = item_bytes (pending c);
  co_deadline : batch_deadline c = None <-> pending c = [];
  co_epochs : epochs_ok c;
  co_counts : 0 <= seq_gaps c /\ 0 <= run_mismatches c /\ 0 <= Decode.malformed (decoder c) /\
    0 <= topology_frames c <= Decode.unsupported (decoder c);
  co_errored : errored c =
    (0 <? seq_gaps c) || (0 <? run_mismatches c) || (0 <? Decode.malformed (decoder c));
  co_frames : frames_in c = Decode.counted (decoder c);
}.

Lemma new_core_ok run expected max_bytes max : core_ok (new run expected max_bytes max).
Proof.
  constructor; try done. unfold epochs_ok. cbn. by rewrite least_epoch_empty.
Qed.

Lemma frame_effect_ok c frames c' : frame_effect c frames c' -> core_ok c -> core_ok c'.
Proof.
  intros [O P B D (R & A & S) (N & G & M & E) F C K L U R' T H] [Hb Hd He (? & ? & ? & ?) Hr Hf].
  constructor.
  - by rewrite B, P, item_bytes_app, Hb.
  - by apply D.
  - by apply H.
  - lia.
  - rewrite R', Hr. rewrite G, M. lia.
  - lia.
Qed.

(** Run and sequence checks: errors are latched exactly with their counters. *)
Definition same_batch (c c' : RunDecoder) : Prop :=
  same_output c c' /\ same_pending c c' /\ same_epochs c c' /\ decoder c' = decoder c /\
  frames_in c' = frames_in c /\ topology_frames c' = topology_frames c.

Lemma same_batch_ok c c' :
  same_batch c c' -> core_ok c ->
  0 <= seq_gaps c' /\ 0 <= run_mismatches c' ->
  errored c' = (0 <? seq_gaps c') || (0 <? run_mismatches c') || (0 <? Decode.malformed (decoder c)) ->
  core_ok c'.
Proof.
  intros ((_ & Hexp & _) & (P & B & D) & (E1 & E2 & E3) & Hd & Hf & Ht) [Hb Hdl He Hn Hr Hfr] [? ?] Herr.
  constructor; rewrite ?P, ?B, ?D, ?Hd, ?Hf, ?Ht; try done; [| lia].
  unfold epochs_ok in *. by rewrite E1, E2, Hexp.
Qed.

Lemma ltb_succ n : 0 <= n -> (0 <? Z.succ n) = true.
Proof. intros. apply Z.ltb_lt. lia. Qed.

Lemma check_run_same run c : same_batch c (check_run run c) /\ eos_received (check_run run c) = eos_received c.
Proof. unfold check_run. destruct (awaiting_run c), (negb _); by split_and!. Qed.

Lemma check_run_ok run c : core_ok c -> core_ok (check_run run c).
Proof.
  intros Hok. pose proof Hok as [_ _ _ (? & ? & ? & ?) Hr _].
  apply (same_batch_ok c); [apply check_run_same | done | |];
    unfold check_run; destruct (awaiting_run c), (negb _); cbn -[Z.ltb]; try done; try lia.
  by rewrite ltb_succ, orb_true_r.
Qed.

Lemma check_sequence_same source sequence c :
  same_batch c (check_sequence source sequence c) /\
  eos_received (check_sequence source sequence c) = eos_received c.
Proof. unfold check_sequence. cbv zeta. by destruct (negb _). Qed.

Lemma check_sequence_ok source sequence c : core_ok c -> core_ok (check_sequence source sequence c).
Proof.
  intros Hok. pose proof Hok as [_ _ _ (? & ? & ? & ?) Hr _].
  apply (same_batch_ok c); [apply check_sequence_same | done | |];
    unfold check_sequence; cbv zeta; destruct (negb _); cbn -[Z.ltb]; try done; try lia.
  by rewrite ltb_succ.
Qed.

(** ** One message *)

Definition frames_of (p : Polled) : list bytes :=
  match p with
  | Received (Data b) => payload b
  | _ => []
  end.

(** The upstream barrier a polled message is, and whether it completes the set. *)
Definition barrier_of (p : Polled) : option Z :=
  match p with
  | Received (EndOfStream source _) => Some source
  | _ => None
  end.

Definition got_after (p : Polled) (got : gset Z) : gset Z :=
  match barrier_of p with
  | Some s => {[s]} ∪ got
  | None => got
  end.

Definition completes (expected : gset Z) (p : Polled) (got : gset Z) : bool :=
  match barrier_of p with
  | Some s => bool_decide (expected ⊆ {[s]} ∪ got)
  | None => false
  end.

Lemma epochs_step_same c c' : same_epochs c c' -> epochs_step c c'.
Proof. intros (_ & E & R). unfold epochs_step. lia. Qed.

Lemma tick_cases now c : tick now c = Nothing \/ tick now c = EmitBatch.
Proof. unfold tick. destruct (batch_deadline c); [destruct (_ <=? _) |]; auto. Qed.

Record consumed (p : Polled) (c : RunDecoder) (e : Emit) (c' : RunDecoder) : Prop := {
  cs_ok : core_ok c';
  cs_output : same_output c c';
  cs_pending : pending c' = pending c ++ frags_of (frames_of p);
  cs_frames : frames_in c' = frames_in c + len (frames_of p);
  cs_epochs : epochs_step c c';
  cs_got : eos_received c' = got_after p (eos_received c);
  cs_emit : e = FlushAndEndOfStream <-> completes (expected_sources c) p (eos_received c) = true;
}.

Lemma handle_batch_effect source run sequence frames now c :
  Forall is_bytes frames -> core_ok c ->
  exists e c', handle_batch source run sequence frames now c = Val (e, c') /\
    e <> FlushAndEndOfStream /\ core_ok c' /\ same_output c c' /\
    pending c' = pending c ++ frags_of frames /\ frames_in c' = frames_in c + len frames /\
    epochs_step c c' /\ eos_received c' = eos_received c.
Proof.
  intros Hb Hok. unfold handle_batch.
  destruct (check_run_same run c) as [(O1 & (P1 & _) & E1 & _ & F1 & _) G1].
  pose proof (check_run_ok run c Hok) as Hok1. set (c1 := check_run run c) in *.
  destruct (check_sequence_same source sequence c1) as [(O2 & (P2 & _) & E2 & _ & F2 & _) G2].
  pose proof (check_sequence_ok source sequence c1 Hok1) as Hok2.
  set (c2 := check_sequence source sequence c1) in *.
  destruct (handle_frames_effect source now frames c2 Hb) as (c3 & -> & Heff).
  pose proof (frame_effect_ok _ _ _ Heff Hok2) as Hok3. cbn [rust_bind].
  exists (if batch_max_bytes c3 <=? pending_bytes c3 then EmitBatch else Nothing), c3.
  split; [done |]. split; [by destruct (_ <=? _) |].
  destruct Heff as [O3 P3 _ _ (_ & _ & G3) _ F3 _ _ _ _ _ _ E3].
  split_and!; [done | | by rewrite P3, P2, P1 | lia | | congruence].
  - eapply same_output_trans; [| exact O3]. by eapply same_output_trans.
  - eapply epochs_step_trans; [by apply epochs_step_same |].
    eapply epochs_step_trans; [by apply epochs_step_same |]. apply E3. apply Hok2.
Qed.

Lemma handle_eos_effect source run c :
  core_ok c ->
  let '(e, c') := handle_eos source run c in
  core_ok c' /\ same_output c c' /\ same_pending c c' /\ frames_in c' = frames_in c /\
  epochs_step c c' /\ eos_received c' = {[source]} ∪ eos_received c /\
  e <> EmitBatch /\
  (e = FlushAndEndOfStream <-> expected_sources c ⊆ {[source]} ∪ eos_received c).
Proof.
  intros Hok. unfold handle_eos. cbv zeta. set (c0 := c <| eos_in ::= incr |>).
  assert (Hok0 : core_ok c0).
  { pose proof Hok as [? ? ? (? & ? & _ & _) ? ?]. by apply (same_batch_ok c). }
  destruct (check_run_same run c0) as [(O1 & P1 & E1 & D1 & F1 & T1) G1].
  pose proof (check_run_ok run c0 Hok0) as Hok1. set (c1 := check_run run c0) in *.
  assert (Hexp : expected_sources c1 = expected_sources c) by apply O1.
  split_and!.
  - pose proof Hok1 as [? ? ? (? & ? & _ & _) ? ?]. by apply (same_batch_ok c1).
  - exact O1.
  - exact P1.
  - exact F1.
  - apply (epochs_step_same c c1) in E1. exact E1.
  - cbn. by rewrite G1.
  - by destruct (negb _).
  - cbn. rewrite Hexp, G1. change (eos_received c0) with (eos_received c).
    case_bool_decide; done.
Qed.

Lemma consume_effect p now now' c :
  Forall is_bytes (frames_of p) -> core_ok c ->
  exists e c', consume p now now' c = Val (e, c') /\ consumed p c e c'.
Proof.
  intros Hb Hok. unfold consume.
  assert (Hidle : forall c1, core_ok c1 -> same_output c c1 -> pending c1 = pending c ->
    frames_in c1 = frames_in c -> epochs_step c c1 -> eos_received c1 = eos_received c ->
    frames_of p = [] -> barrier_of p = None -> consumed p c (tick now' c1) c1).
  { intros c1 H1 H2 H3 H4 H5 H6 H7 H8.
    constructor; unfold got_after, completes; rewrite ?H7, ?H8; try done.
    - by rewrite H3, app_nil_r.
    - unfold len. cbn. lia.
    - split; [| done]. intros He. by destruct (tick_cases now' c1) as [E | E]; rewrite E in He. }
  destruct p as [| | | [b | source run | source run n]]; cbn [rust_bind] in *.
  1-3: exists (tick now' c), c; split; [done |]; apply Hidle; try done; unfold epochs_step; lia.
  - destruct (handle_batch_effect (Msg.source_id b) (Msg.run_number b) (sequence_number b) (payload b)
      now c Hb Hok) as (e & c1 & -> & He & H1 & H2 & H3 & H4 & H5 & H6). cbn [rust_bind].
    exists (match e with Nothing => tick now' c1 | other => other end), c1. split; [done |].
    constructor; try done. unfold completes. cbn [barrier_of].
    split; [| done]. destruct e; [| done | done]. intros E.
    by destruct (tick_cases now' c1) as [E' | E']; rewrite E' in E.
  - pose proof (handle_eos_effect source run c Hok) as Heff.
    destruct (handle_eos source run c) as [e c1].
    destruct Heff as (H1 & H2 & (H3 & _) & H4 & H5 & H6 & H7 & H8). cbn [rust_bind].
    exists (match e with Nothing => tick now' c1 | other => other end), c1. split; [done |].
    constructor; try done; unfold got_after, completes; cbn [frames_of barrier_of].
    + by rewrite H3, app_nil_r.
    + unfold len. cbn. lia.
    + rewrite bool_decide_eq_true, <- H8. destruct e; [| done | done].
      destruct (tick_cases now' c1) as [-> | ->]; by split.
  - exists (tick now' (handle_heartbeat source c)), (handle_heartbeat source c). split; [done |].
    apply Hidle; try done; [| unfold epochs_step; cbn; lia].
    pose proof Hok as [? ? ? (? & ? & _ & _) ? ?]. by apply (same_batch_ok c).
Qed.

(** ** The log of sends *)

Definition attempt : Type := SendOutcome * Message Fragments.

(** Every fragment of every batch tried, in order, delivered or not. *)
Definition log_frags (log : list attempt) : list Fragment :=
  concat (map (fun a => match snd a with Data b => payload b | _ => [] end) log).

(** The numbering: batches count up from the last barrier, heartbeats from the
    start; every message is the decoder's own. *)
Definition log_next (nh : Z * Z) (a : attempt) : option (Z * Z) :=
  match snd a with
  | Data b =>
      if (sequence_number b =? fst nh) && (Msg.source_id b =? DECODER_SOURCE_ID)
      then Some (fst nh + 1, snd nh) else None
  | EndOfStream s _ => if s =? DECODER_SOURCE_ID then Some (0, snd nh) else None
  | Heartbeat s _ n =>
      if (n =? snd nh) && (s =? DECODER_SOURCE_ID) then Some (fst nh, snd nh + 1) else None
  end.

Definition log_numbering (log : list attempt) : option (Z * Z) :=
  fold_left (fun o a => match o with Some nh => log_next nh a | None => None end) log (Some (0, 0)).

Definition is_data {P} (m : Message P) : bool := match m with Data _ => true | _ => false end.
Definition is_eos {P} (m : Message P) : bool := match m with EndOfStream _ _ => true | _ => false end.
Definition is_heartbeat {P} (m : Message P) : bool := match m with Heartbeat _ _ _ => true | _ => false end.

Definition is_outcome (o o' : SendOutcome) : bool :=
  match o, o' with
  | Sent, Sent | Abandoned, Abandoned => true
  | _, _ => false
  end.

(** How many messages of a kind had an outcome. *)
Definition log_count (k : Message Fragments -> bool) (o : SendOutcome) (log : list attempt) : Z :=
  len (filter (fun a => is_outcome (fst a) o && k (snd a) = true) log).

(** The fragments of the batches that were delivered. *)
Definition delivered (log : list attempt) : list Fragment :=
  log_frags (filter (fun a => is_outcome (fst a) Sent = true) log).

Lemma log_frags_app l k : log_frags (l ++ k) = log_frags l ++ log_frags k.
Proof. unfold log_frags. by rewrite map_app, concat_app. Qed.

Lemma log_numbering_snoc l a :
  log_numbering (l ++ [a]) = match log_numbering l with Some nh => log_next nh a | None => None end.
Proof. unfold log_numbering. by rewrite fold_left_app. Qed.

Lemma log_count_snoc k o l o' m :
  log_count k o (l ++ [(o', m)]) = log_count k o l + (if is_outcome o' o && k m then 1 else 0).
Proof.
  unfold log_count. rewrite filter_app, len_app. f_equal.
  rewrite filter_cons. cbn [fst snd]. by destruct (is_outcome o' o && k m).
Qed.

Lemma delivered_snoc l o m :
  delivered (l ++ [(o, m)]) =
  delivered l ++ (if is_outcome o Sent then log_frags [(o, m)] else []).
Proof.
  unfold delivered. rewrite filter_app, log_frags_app. f_equal. rewrite filter_cons. cbn [fst].
  by destruct (is_outcome o Sent).
Qed.

(** The core's output counters are what the log says. *)
Record log_counted (c : RunDecoder) (log : list attempt) : Prop := {
  lc_batches : batches_out c = log_count is_data Sent log;
  lc_abandoned : batches_abandoned c = log_count is_data Abandoned log;
  lc_eos : eos_out c = log_count is_eos Sent log;
  lc_eos_abandoned : eos_abandoned c = log_count is_eos Abandoned log;
  lc_heartbeats : heartbeats_out c = log_count is_heartbeat Sent log;
  lc_heartbeats_abandoned : heartbeats_abandoned c = log_count is_heartbeat Abandoned log;
  lc_fragments : fragments_out c = len (delivered log);
}.

(** The thread's invariant: [frs] is every fragment decoded so far. *)
Record thread_ok (frs : list Fragment) (t : Thread) : Prop := {
  th_core : core_ok (core t);
  th_frags : log_frags (attempts t) ++ pending (core t) = frs;
  th_numbering : log_numbering (attempts t) = Some (out_seq (core t), heartbeat_counter t);
  th_counted : log_counted (core t) (attempts t);
}.

(** *** Bookkeeping keeps the core's invariant *)

Lemma core_ok_clear c c' :
  core_ok c -> pending c' = [] -> pending_bytes c' = 0 -> batch_deadline c' = None ->
  decoder c' = decoder c -> seq_gaps c' = seq_gaps c -> run_mismatches c' = run_mismatches c ->
  errored c' = errored c -> frames_in c' = frames_in c -> topology_frames c' = topology_frames c ->
  epochs_ok c' -> core_ok c'.
Proof.
  intros [_ _ _ Hc He Hf] Hp Hb Hd Hdec Hg Hr Herr Hfr Ht Hep.
  constructor; rewrite ?Hp, ?Hb, ?Hd, ?Hdec, ?Hg, ?Hr, ?Herr, ?Hfr, ?Ht; done.
Qed.

Lemma batch_sent_ok c : core_ok c -> core_ok (batch_sent c).
Proof. intros Hok. apply (core_ok_clear c); try done. apply Hok. Qed.

Lemma batch_abandoned_ok c : core_ok c -> core_ok (batch_abandoned c).
Proof. intros Hok. apply (core_ok_clear c); try done. apply Hok. Qed.

Lemma rearm_ok c : core_ok c -> core_ok (rearm c).
Proof.
  intros Hok. apply (core_ok_clear c); try done. unfold epochs_ok. cbn.
  by rewrite least_epoch_empty.
Qed.

Lemma core_ok_ext c c' :
  core_ok c -> same_pending c c' -> same_epochs c c' -> expected_sources c' = expected_sources c ->
  decoder c' = decoder c -> seq_gaps c' = seq_gaps c -> run_mismatches c' = run_mismatches c ->
  errored c' = errored c -> frames_in c' = frames_in c -> topology_frames c' = topology_frames c ->
  core_ok c'.
Proof.
  intros [Hb Hd Hep Hc He Hf] (P & B & D) (E1 & E2 & _) Hexp Hdec Hg Hr Herr Hfr Ht.
  constructor; rewrite ?P, ?B, ?D, ?Hdec, ?Hg, ?Hr, ?Herr, ?Hfr, ?Ht; try done.
  unfold epochs_ok in *. by rewrite E1, E2, Hexp.
Qed.

(** *** The sends *)

(** The answers of a script that end a wait. *)
Definition ends_wait (z : ZmqSend) : bool :=
  match z with
  | EAGAIN false => false
  | _ => true
  end.

Fixpoint answers (script : list ZmqSend) : nat :=
  match script with
  | [] => O
  | z :: script => if ends_wait z then S (answers script) else answers script
  end.

Lemma send_lossless_answers script :
  (0 < answers script)%nat ->
  exists o rest, send_lossless script = Val (o, rest) /\ (answers script <= S (answers rest))%nat.
Proof.
  induction script as [| z script IH]; cbn; [lia |].
  destruct z as [| [] | |]; cbn; [eauto .. | exact IH | eauto | eauto].
Qed.

Section thread_lemmas.
Variable to_msgpack : Message Fragments -> result bytes string.

(** The parts of the thread a send leaves alone. *)
Lemma send_message_effect m sent abandoned t :
  (0 < answers (script t))%nat ->
  exists ok t' o, send_message to_msgpack m sent abandoned t = Val (ok, t') /\
    attempts t' = attempts t ++ [(o, m)] /\
    core t' = (match o with Sent => sent | Abandoned => abandoned end) (core t) /\
    heartbeat_counter t' = heartbeat_counter t /\ last_send t' = last_send t /\
    (answers (script t) <= S (answers (script t')))%nat.
Proof.
  intros Ha. unfold send_message. destruct (to_msgpack m).
  - destruct (send_lossless_answers _ Ha) as (o & rest & -> & Hrest). cbn [rust_bind].
    destruct o; eexists _, _, _; (split; [done |]); split_and!; try done; cbn; lia.
  - eexists _, _, Abandoned. split; [done |]. split_and!; try done. cbn. lia.
Qed.

Lemma delivered_data o b l :
  delivered (l ++ [(o, Data b)]) = delivered l ++ (if is_outcome o Sent then payload b else []).
Proof.
  rewrite delivered_snoc. f_equal. destruct o; [| done]. unfold log_frags. cbn.
  by rewrite app_nil_r.
Qed.

Lemma delivered_other o m l : is_data m = false -> delivered (l ++ [(o, m)]) = delivered l.
Proof.
  intros Hm. rewrite delivered_snoc. destruct o; [| by rewrite app_nil_r].
  unfold log_frags. destruct m; [done | |]; by rewrite app_nil_r.
Qed.

Lemma log_frags_data o b l : log_frags (l ++ [(o, Data b)]) = log_frags l ++ payload b.
Proof. rewrite log_frags_app. unfold log_frags at 2. cbn. by rewrite app_nil_r. Qed.

Lemma log_frags_other o m l : is_data m = false -> log_frags (l ++ [(o, m)]) = log_frags l.
Proof.
  intros Hm. rewrite log_frags_app. destruct m; [done | |]; by rewrite app_nil_r.
Qed.

Lemma has_pending_false c : has_pending c = false -> pending c = [].
Proof. unfold has_pending. by destruct (pending c). Qed.

(** What stays of the core across the sends of a turn. *)
Definition same_stream (c c' : RunDecoder) : Prop :=
  expected_sources c' = expected_sources c /\ frames_in c' = frames_in c /\
  acquisition_restarts c' = acquisition_restarts c.

(** A batch goes out whole, under the next number, and the buffer is empty after. *)
Lemma send_pending_effect created frs t :
  thread_ok frs t -> (0 < answers (script t))%nat ->
  exists ok t', send_pending to_msgpack created t = Val (ok, t') /\ thread_ok frs t' /\
    pending (core t') = [] /\ same_stream (core t) (core t') /\
    eos_received (core t') = eos_received (core t) /\
    log_count is_eos Sent (attempts t') + log_count is_eos Abandoned (attempts t') =
    log_count is_eos Sent (attempts t) + log_count is_eos Abandoned (attempts t) /\
    (answers (script t) <= S (answers (script t')))%nat.
Proof.
  intros [Hc Hf Hn Hl] Ha. unfold send_pending.
  destruct (has_pending (core t)) eqn:Hp; cbn [negb].
  2: { exists true, t. apply has_pending_false in Hp. by split_and!; try lia. }
  destruct (send_message_effect (Data (mkBatch DECODER_SOURCE_ID (run_number (core t))
    (out_seq (core t)) created (pending (core t)))) batch_sent batch_abandoned t Ha)
    as (ok & t' & o & -> & Hlog & Hcore & Hhb & _ & Hans).
  exists ok, t'. split; [done |]. destruct Hl as [L1 L2 L3 L4 L5 L6 L7].
  assert (Hok' : thread_ok frs t').
  { constructor.
    - rewrite Hcore. destruct o; [by apply batch_sent_ok | by apply batch_abandoned_ok].
    - rewrite Hlog, Hcore, log_frags_data. destruct o; cbn; by rewrite app_nil_r.
    - rewrite Hlog, log_numbering_snoc, Hn, Hhb, Hcore. unfold log_next. cbn [snd fst].
      cbn [sequence_number Msg.source_id]. rewrite !Z.eqb_refl. cbn [andb].
      destruct o; cbn; do 2 f_equal; lia.
    - rewrite Hlog, Hcore. constructor; rewrite ?log_count_snoc, ?delivered_data;
        destruct o; cbn; rewrite ?len_app; unfold len in *; cbn; lia. }
  split_and!; try done; rewrite ?Hcore; try (by destruct o).
  rewrite Hlog, !log_count_snoc. destruct o; cbn; lia.
Qed.

Definition eos_attempts (log : list attempt) : Z :=
  log_count is_eos Sent log + log_count is_eos Abandoned log.

Lemma eos_attempts_snoc l o m : eos_attempts (l ++ [(o, m)]) = eos_attempts l + (if is_eos m then 1 else 0).
Proof. unfold eos_attempts. rewrite !log_count_snoc. destruct o, (is_eos m); cbn; lia. Qed.

Lemma send_own_eos_effect frs t :
  thread_ok frs t -> pending (core t) = [] -> (0 < answers (script t))%nat ->
  exists ok t', send_own_eos to_msgpack t = Val (ok, t') /\ thread_ok frs t' /\
    pending (core t') = [] /\ same_stream (core t) (core t') /\ eos_received (core t') = ∅ /\
    eos_attempts (attempts t') = eos_attempts (attempts t) + 1 /\
    (answers (script t) <= S (answers (script t')))%nat.
Proof.
  intros [Hc Hf Hn Hl] Hp Ha. unfold send_own_eos.
  destruct (send_message_effect (EndOfStream DECODER_SOURCE_ID (run_number (core t)))
    eos_sent eos_abandon t Ha) as (ok & t' & o & -> & Hlog & Hcore & Hhb & _ & Hans).
  exists ok, t'. split; [done |]. destruct Hl as [L1 L2 L3 L4 L5 L6 L7].
  assert (Hok' : thread_ok frs t').
  { constructor.
    - rewrite Hcore. destruct o; apply rearm_ok; by apply (core_ok_ext (core t)).
    - rewrite Hlog, Hcore, log_frags_other by done. rewrite <- Hf, Hp. by destruct o.
    - rewrite Hlog, log_numbering_snoc, Hn, Hhb, Hcore. by destruct o.
    - rewrite Hlog, Hcore. constructor; rewrite ?log_count_snoc, ?delivered_other by done;
        destruct o; cbn; lia. }
  split_and!; try done; rewrite ?Hcore; try (by destruct o).
  by rewrite Hlog, eos_attempts_snoc.
Qed.

Lemma send_heartbeat_effect frs t :
  thread_ok frs t -> (0 < answers (script t))%nat ->
  exists ok t', send_heartbeat to_msgpack (heartbeat_counter t) t = Val (ok, t') /\
    (forall now, thread_ok frs (t' <| heartbeat_counter ::= incr |> <| last_send := now |>)) /\
    same_stream (core t) (core t') /\ eos_received (core t') = eos_received (core t) /\
    eos_attempts (attempts t') = eos_attempts (attempts t) /\
    (answers (script t) <= S (answers (script t')))%nat.
Proof.
  intros [Hc Hf Hn Hl] Ha. unfold send_heartbeat.
  destruct (send_message_effect (Heartbeat DECODER_SOURCE_ID (run_number (core t))
    (heartbeat_counter t)) heartbeat_sent heartbeat_abandoned t Ha)
    as (ok & t' & o & -> & Hlog & Hcore & Hhb & _ & Hans).
  exists ok, t'. split; [done |]. destruct Hl as [L1 L2 L3 L4 L5 L6 L7].
  split_and!; try done; try (rewrite Hcore; by destruct o).
  - intros now.
    constructor; change (core (_ <| last_send := now |>)) with (core t');
      change (attempts (_ <| last_send := now |>)) with (attempts t');
      change (heartbeat_counter (_ <| last_send := now |>)) with (Z.succ (heartbeat_counter t')).
    + rewrite Hcore. destruct o; by apply (core_ok_ext (core t)).
    + rewrite Hlog, Hcore, log_frags_other by done. rewrite <- Hf. by destruct o.
    + rewrite Hlog, log_numbering_snoc, Hn, Hhb, Hcore. unfold log_next. cbn [snd fst].
      rewrite !Z.eqb_refl. cbn [andb]. by destruct o.
    + rewrite Hlog, Hcore. constructor; rewrite ?log_count_snoc, ?delivered_other by done;
        destruct o; cbn; lia.
  - rewrite Hlog, eos_attempts_snoc. cbn. lia.
Qed.

(** One turn that does not leave the loop: the frames it received join the
    stream; the thread's own barrier goes out exactly when the last expected
    upstream barrier came in, and then the set starts over. *)
Lemma turn_effect hb tn frs t :
  thread_ok frs t -> Forall is_bytes (frames_of (polled tn)) ->
  stop_requested tn = false -> polled tn <> Terminated -> (3 <= answers (script t))%nat ->
  let full := completes (expected_sources (core t)) (polled tn) (eos_received (core t)) in
  exists t', turn to_msgpack hb tn t = Val (Some t') /\
    thread_ok (frs ++ frags_of (frames_of (polled tn))) t' /\
    expected_sources (core t') = expected_sources (core t) /\
    frames_in (core t') = frames_in (core t) + len (frames_of (polled tn)) /\
    eos_received (core t') =
      (if full then ∅ else got_after (polled tn) (eos_received (core t))) /\
    eos_attempts (attempts t') = eos_attempts (attempts t) + (if full then 1 else 0) /\
    (answers (script t) <= 3 + answers (script t'))%nat.
Proof.
  intros Hok Hb Hstop Hterm Ha. cbv zeta. unfold turn. rewrite Hstop.
  destruct (consume_effect (polled tn) (now_batch tn) (now_tick tn) (core t) Hb (th_core _ _ Hok))
    as (e & c & Hcons & Hs).
  set (F := frags_of _). set (t1 := t <| core := c |>).
  assert (Hok1 : thread_ok (frs ++ F) t1).
  { destruct Hok as [Hc Hf Hn [L1 L2 L3 L4 L5 L6 L7]]. destruct Hs as [H1 (O1 & O2 & O3 & O4 & O5 & O6 & O7 & O8 & O9 & O10 & O11) H3 _ _ _ _].
    constructor; change (core t1) with c; change (attempts t1) with (attempts t);
      [done | by rewrite H3, app_assoc, Hf | by rewrite O1 | constructor; congruence]. }
  assert (Hgoal : exists t', (let! t := obey to_msgpack e tn t1 in
      let! t := idle_heartbeat to_msgpack hb tn t in Val (Some t)) = Val (Some t') /\
    thread_ok (frs ++ F) t' /\ same_stream c (core t') /\
    eos_received (core t') = (match e with FlushAndEndOfStream => ∅ | _ => eos_received c end) /\
    eos_attempts (attempts t') = eos_attempts (attempts t) +
      (match e with FlushAndEndOfStream => 1 | _ => 0 end) /\
    (answers (script t) <= 3 + answers (script t'))%nat).
  { assert (Hobey : exists t2, obey to_msgpack e tn t1 = Val t2 /\ thread_ok (frs ++ F) t2 /\
      same_stream c (core t2) /\
      eos_received (core t2) = (match e with FlushAndEndOfStream => ∅ | _ => eos_received c end) /\
      eos_attempts (attempts t2) = eos_attempts (attempts t) +
        (match e with FlushAndEndOfStream => 1 | _ => 0 end) /\
      (answers (script t) <= 2 + answers (script t2))%nat).
    { destruct e; cbn [obey].
      - exists t1. split_and!; try done; cbn; lia.
      - destruct (send_pending_effect (unix_nanos tn) _ t1 Hok1 ltac:(cbn; lia))
          as (ok & t2 & -> & [? ? ? ?] & _ & Hs2 & Hg2 & He2 & Ha2). cbn [rust_bind].
        eexists. split; [done |]. split_and!; try done; cbn in *; [| lia].
        unfold eos_attempts in *. lia.
      - destruct (send_pending_effect (unix_nanos tn) _ t1 Hok1 ltac:(cbn; lia))
          as (ok & t2 & -> & Hok2 & Hp2 & Hs2 & Hg2 & He2 & Ha2). cbn [rust_bind].
        cbn [script t1] in Ha2. change (script t1) with (script t) in Ha2.
        destruct (send_own_eos_effect _ t2 Hok2 Hp2 ltac:(lia))
          as (ok' & t3 & -> & [? ? ? ?] & _ & Hs3 & Hg3 & He3 & Ha3). cbn [rust_bind].
        eexists. split; [done |]. change (attempts t1) with (attempts t) in He2.
        split_and!; try done; cbn in *; try lia.
        + unfold same_stream in *. intuition congruence.
        + unfold eos_attempts in *. lia. }
    destruct Hobey as (t2 & -> & Hok2 & Hs2 & Hg2 & He2 & Ha2). cbn [rust_bind].
    unfold idle_heartbeat. destruct (_ <=? _).
    2: { exists t2. split_and!; try done. lia. }
    destruct (negb _).
    2: { exists t2. split_and!; try done. lia. }
    destruct (send_heartbeat_effect _ t2 Hok2 ltac:(lia))
      as (ok & t3 & -> & Hok3 & Hs3 & Hg3 & He3 & Ha3). cbn [rust_bind].
    eexists. split; [done |]. split_and!; [done | | | | cbn in *; lia].
    - cbn. unfold same_stream in *. intuition congruence.
    - cbn. congruence.
    - cbn. lia. }
  destruct Hgoal as (t' & Ht' & Hok' & (Hexp & Hfr & _) & Hg & He & Ha').
  destruct Hs as [_ (_ & Hexp0 & _) _ Hfi _ Hgot Hemit].
  exists t'. split.
  { revert Hcons Hterm. destruct (polled tn); intros Hcons Hterm; try done;
      rewrite Hcons; exact Ht'. }
  assert (Hfull : completes (expected_sources (core t)) (polled tn) (eos_received (core t)) =
    match e with FlushAndEndOfStream => true | _ => false end).
  { destruct (completes _ _ _), e; try done; [by destruct Hemit as [_ H]; specialize (H eq_refl) ..
      | by destruct Hemit as [H _]; specialize (H eq_refl)]. }
  rewrite Hfull. split_and!; try done; try congruence.
  - rewrite Hg, <- Hgot. by destruct e.
  - rewrite He. by destruct e.
Qed.

(** The turns the loop makes before a stop signal or a closed context. *)
Definition leaves (tn : Turn) : bool :=
  stop_requested tn || match polled tn with Terminated => true | _ => false end.

Fixpoint live (turns : list Turn) : list Turn :=
  match turns with
  | [] => []
  | tn :: turns => if leaves tn then [] else tn :: live turns
  end.

Definition turns_frames (turns : list Turn) : list bytes :=
  concat (map (fun tn => frames_of (polled tn)) turns).

(** How many times the expected set of upstream barriers was completed, a set
    starting over each time. *)
Fixpoint barriers (expected got : gset Z) (turns : list Turn) : Z * gset Z :=
  match turns with
  | [] => (0, got)
  | tn :: turns =>
      let full := completes expected (polled tn) got in
      let '(n, got) :=
        barriers expected (if full then ∅ else got_after (polled tn) got) turns in
      ((if full then 1 else 0) + n, got)
  end.

Lemma run_effect hb created turns frs t :
  thread_ok frs t -> Forall is_bytes (turns_frames turns) ->
  (3 * length turns + 1 <= answers (script t))%nat ->
  let b := barriers (expected_sources (core t)) (eos_received (core t)) (live turns) in
  exists t', run_decoder_thread to_msgpack hb turns created t = Val t' /\
    thread_ok (frs ++ frags_of (turns_frames (live turns))) t' /\ pending (core t') = [] /\
    frames_in (core t') = frames_in (core t) + len (turns_frames (live turns)) /\
    eos_attempts (attempts t') = eos_attempts (attempts t) + fst b /\
    eos_received (core t') = snd b.
Proof.
  revert frs t. induction turns as [| tn turns IH]; intros frs t Hok Hb Ha; cbv zeta;
    cbn [run_decoder_thread live].
  - destruct (send_pending_effect created frs t Hok ltac:(cbn in Ha; lia))
      as (ok & t' & -> & Hok' & Hp & (_ & Hf & _) & Hg & He & _). cbn [rust_bind].
    exists t'. cbn. rewrite app_nil_r. split_and!; try done; [unfold len; cbn; lia |].
    unfold eos_attempts in *. lia.
  - unfold turns_frames in Hb. cbn [map concat] in Hb. apply Forall_app in Hb as [Hb1 Hb2].
    cbn [length] in Ha. destruct (leaves tn) eqn:Hl.
    + assert (Hturn : turn to_msgpack hb tn t = Val None).
      { unfold turn, leaves in *. destruct (stop_requested tn); [done |].
        by destruct (polled tn). }
      rewrite Hturn. cbn [rust_bind].
      destruct (send_pending_effect created frs t Hok ltac:(lia))
        as (ok & t' & -> & Hok' & Hp & (_ & Hf & _) & Hg & He & _). cbn [rust_bind].
      exists t'. cbn. rewrite app_nil_r. split_and!; try done; [unfold len; cbn; lia |].
      unfold eos_attempts in *. lia.
    + unfold leaves in Hl. apply orb_false_iff in Hl as [Hstop Hterm].
      destruct (turn_effect hb tn frs t Hok Hb1 Hstop ltac:(by intros E; rewrite E in Hterm) ltac:(lia))
        as (t1 & -> & Hok1 & Hexp & Hf1 & Hg1 & He1 & Ha1). cbn [rust_bind].
      destruct (IH _ t1 Hok1 Hb2 ltac:(lia)) as (t' & -> & Hok' & Hp & Hf & He & Hg).
      exists t'. unfold turns_frames in *. cbn [map concat barriers].
      rewrite frags_of_app, app_assoc, len_app. rewrite Hexp, Hg1 in He, Hg.
      destruct (barriers _ _ (live turns)) as [n g]. cbn [fst snd] in *.
      split_and!; try done; lia.
Qed.
End thread_lemmas.

Definition thread_start (c : RunDecoder) (script : list ZmqSend) (now : Z) : Thread :=
  mkThread c script [] 0 now.

Lemma thread_start_ok run expected max_bytes max script now :
  thread_ok [] (thread_start (new run expected max_bytes max) script now).
Proof. constructor; [apply new_core_ok | done | done | by constructor]. Qed.

(** ** Properties *)

(** C23: the decoder thread loses nothing: whatever the messages, the clock and
    the sockets do, as long as every wait for the downstream ends some time, the
    thread neither panics nor hangs, and when it returns the batches it sent or
    visibly abandoned hold exactly the fragments of all frames it received, in
    order, with nothing left in its buffer; batches are numbered 0, 1, 2, ... from
    each barrier on and heartbeats 0, 1, 2, ... over the run. *)
Theorem decoder_thread_lossless (to_msgpack : Message Fragments -> result bytes string)
    (hb : Z) (turns : list Turn) (created run : Z) (expected : gset Z) (max_bytes max now : Z)
    (script : list ZmqSend)
    (Hframes : Forall is_bytes (turns_frames turns))
    (Hscript : (3 * length turns + 1 <= answers script)%nat) :
  exists t, run_decoder_thread to_msgpack hb turns created
      (thread_start (new run expected max_bytes max) script now) = Val t /\
    log_frags (attempts t) = frags_of (turns_frames (live turns)) /\
    pending (core t) = [] /\
    log_numbering (attempts t) = Some (out_seq (core t), heartbeat_counter t).
Proof.
  destruct (run_effect to_msgpack hb created turns [] _
    (thread_start_ok run expected max_bytes max script now) Hframes Hscript)
    as (t & -> & [_ Hf Hn _] & Hp & _).
  exists t. rewrite Hp, app_nil_r in Hf. by split_and!.
Qed.

(** the decoder's barrier: it emits its own end-of-stream exactly once for
    each time all expected upstream sources have sent theirs, never before, and
    each time starts a new set; sources it does not expect and repeated barriers
    never complete a set. *)
Theorem decoder_barrier_once (to_msgpack : Message Fragments -> result bytes string)
    (hb : Z) (turns : list Turn) (created run : Z) (expected : gset Z) (max_bytes max now : Z)
    (script : list ZmqSend)
    (Hframes : Forall is_bytes (turns_frames turns))
    (Hscript : (3 * length turns + 1 <= answers script)%nat) :
  exists t, run_decoder_thread to_msgpack hb turns created
      (thread_start (new run expected max_bytes max) script now) = Val t /\
    eos_attempts (attempts t) = fst (barriers expected ∅ (live turns)) /\
    eos_received (core t) = snd (barriers expected ∅ (live turns)) /\
    eos_out (core t) + eos_abandoned (core t) = eos_attempts (attempts t).
Proof.
  destruct (run_effect to_msgpack hb created turns [] _
    (thread_start_ok run expected max_bytes max script now) Hframes Hscript)
    as (t & -> & [_ _ _ [_ _ L3 L4 _ _ _]] & _ & _ & He & Hg).
  exists t. rewrite He, L3, L4. unfold eos_attempts in *. cbn in *. by split_and!.
Qed.

(** what the decoder reports is what happened: every received frame is
    counted once as decoded, malformed or unsupported; [errored] is latched
    exactly when a sequence gap, a run mismatch or a malformed frame was counted;
    sent and abandoned batches, barriers and heartbeats are each counted by
    outcome, and [fragments_out] is the number of fragments delivered. *)
Theorem decoder_counters (to_msgpack : Message Fragments -> result bytes string)
    (hb : Z) (turns : list Turn) (created run : Z) (expected : gset Z) (max_bytes max now : Z)
    (script : list ZmqSend)
    (Hframes : Forall is_bytes (turns_frames turns))
    (Hscript : (3 * length turns + 1 <= answers script)%nat) :
  exists t, run_decoder_thread to_msgpack hb turns created
      (thread_start (new run expected max_bytes max) script now) = Val t /\
    frames_in (core t) = len (turns_frames (live turns)) /\
    frames_in (core t) = Decode.frames (decoder (core t)) + Decode.malformed (decoder (core t)) +
      Decode.unsupported (decoder (core t)) /\
    (errored (core t) = true <->
     0 < seq_gaps (core t) \/ 0 < run_mismatches (core t) \/ 0 < Decode.malformed (decoder (core t))) /\
    log_counted (core t) (attempts t).
Proof.
  destruct (run_effect to_msgpack hb created turns [] _
    (thread_start_ok run expected max_bytes max script now) Hframes Hscript)
    as (t & -> & [[_ _ _ _ He Hc] _ _ Hl] & _ & Hf & _).
  exists t. split_and!; try done.
  rewrite He, !orb_true_iff, !Z.ltb_lt. tauto.
Qed.

(** A run of two sources: two batches, one with a topology frame and one with a
    sequence gap, both barriers, a stray heartbeat. *)
Definition sample_frame : bytes :=
  Decode.encode_frame (Decode.sample_header true) (Decode.Partial [mkItem 1 2 3 4]).
Definition sample_topology : bytes := [1; 0; 0; 2; 0; 0; 7; 0; 0; 0; 0; 0].

Definition sample_turn (p : Polled) : Turn := mkTurn false p 0 0 0 0 0 0.
Definition sample_turns : list Turn :=
  [sample_turn (Received (Data (mkBatch 0 7 0 0 [sample_topology; sample_frame])));
   sample_turn (Received (Heartbeat 1 7 3));
   sample_turn (Received (Data (mkBatch 1 7 4 0 [sample_frame])));
   sample_turn (Received (EndOfStream 0 7)); sample_turn (Received (EndOfStream 0 7));
   sample_turn (Received (EndOfStream 1 7))].
Definition sample_script : list ZmqSend := EAGAIN false :: repeat SendOk 20.

Lemma sample_turns_bytes : Forall is_bytes (turns_frames sample_turns).
Proof.
  repeat constructor; try (by apply Decode.encode_frame_bytes, Decode.sample_header_ok);
    vm_compute; congruence.
Qed.

Lemma decoder_thread_lossless_witness :
  exists t, run_decoder_thread (fun _ => Ok []) 1000 sample_turns 0
      (thread_start (new 7 {[0; 1]} 8 10) sample_script 0) = Val t /\
    len (log_frags (attempts t)) = 2 /\ eos_out (core t) = 1.
Proof.
  destruct (decoder_thread_lossless (fun _ => Ok []) 1000 sample_turns 0 7 {[0; 1]} 8 10 0
    sample_script sample_turns_bytes) as (t & Ht & Hlog & _).
  - vm_compute. lia.
  - exists t. split; [exact Ht |]. rewrite Hlog. split; [vm_compute; reflexivity |].
    vm_compute in Ht. injection Ht as <-. reflexivity.
Defined.

Lemma decoder_barrier_once_witness :
  exists t, run_decoder_thread (fun _ => Ok []) 1000 sample_turns 0
      (thread_start (new 7 {[0; 1]} 8 10) sample_script 0) = Val t /\
    eos_attempts (attempts t) = 1 /\ eos_received (core t) = ∅.
Proof.
  destruct (decoder_barrier_once (fun _ => Ok []) 1000 sample_turns 0 7 {[0; 1]} 8 10 0
    sample_script sample_turns_bytes) as (t & Ht & He & Hg & _).
  - vm_compute. lia.
  - exists t. rewrite He, Hg. split; [exact Ht |]. split; vm_compute; reflexivity.
Defined.

Lemma decoder_counters_witness :
  exists t, run_decoder_thread (fun _ => Ok []) 1000 sample_turns 0
      (thread_start (new 7 {[0; 1]} 8 10) sample_script 0) = Val t /\
    frames_in (core t) = 3 /\ errored (core t) = true.
Proof.
  destruct (decoder_counters (fun _ => Ok []) 1000 sample_turns 0 7 {[0; 1]} 8 10 0
    sample_script sample_turns_bytes) as (t & Ht & Hf & _ & He & _).
  - vm_compute. lia.
  - exists t. rewrite Hf. split; [exact Ht |]. split; [vm_compute; reflexivity |].
    apply He. left. vm_compute in Ht. injection Ht as <-. reflexivity.
Defined.

(** a lossless send waits through any number of send timeouts and gives up
    only on the [abandon] flag of a [Reset], a closed context or a socket error:
    it returns [Sent] exactly when the first answer that is not a plain timeout
    is a success, and keeps waiting exactly while all answers are timeouts. *)
Theorem send_lossless_spec (script : list ZmqSend) :
  match send_lossless script with
  | Val (o, rest) =>
      exists n z, script = repeat (EAGAIN false) n ++ z :: rest /\ z <> EAGAIN false /\
        (o = Sent <-> z = SendOk)
  | OutOfFuel => script = repeat (EAGAIN false) (length script)
  | Panic => False
  end.
Proof.
  induction script as [| z script IH]; [done |].
  destruct z as [| [] | |]; cbn [send_lossless];
    try (exists O; eexists; split_and!; [reflexivity | done | by split]).
  destruct (send_lossless script) as [[o rest] | |]; [| done |].
  - destruct IH as (n & z & -> & Hz & Ho). exists (S n), z. by split_and!.
  - cbn [length repeat]. by f_equal.
Qed.

(** the poll never spins and never oversleeps: with a batch waiting, the
    timeout is 0 only when its deadline has passed, otherwise it is at most
    100 ms and wakes less than 1 ms after the deadline. *)
Theorem wait_ms_bounds (deadline : option Z) (now : Z) :
  0 <= wait_ms deadline now <= POLL_TIMEOUT_MS /\
  match deadline with
  | Some d =>
      (wait_ms deadline now = 0 <-> d <= now) /\
      (now < d -> wait_ms deadline now * 1000000 < (d - now) + 1000000) /\
      (wait_ms deadline now < POLL_TIMEOUT_MS -> d <= now + wait_ms deadline now * 1000000)
  | None => wait_ms deadline now = POLL_TIMEOUT_MS
  end.
Proof.
  unfold wait_ms, POLL_TIMEOUT_MS. destruct deadline as [d |]; [| lia].
  set (r := Z.max 0 (d - now)).
  assert (Hr : 0 <= r) by lia.
  destruct (Z.ltb_spec ((r + 1000000 - 1) / 1000000) (2 ^ 63)) as [Hs | Hs];
    Z.div_mod_to_equations; lia.
Qed.

(** *** The handler *)

#[export] Instance decoder_handler_laws : HandlerLaws DecoderHandler DecoderEnv.
Proof.
  constructor.
  - done.
  - intros h. cbn. unfold dec_latch_error. cbv zeta.
    destruct (bool_decide _ || _) eqn:Hb; [by left |]. apply orb_false_iff in Hb as [_ Hb].
    destruct (match h_core h with None => false | Some cell => cell_errored cell end); cbn [negb]; [right | by left].
    split; [done |]. by apply negb_false_iff in Hb.
  - intros env cmd h. destruct cmd; cbn; try done.
    + unfold dec_arm. by destruct (bind_pull env).
    + unfold dec_start. destruct (negb _); [done |]. destruct (build_push _ _); [| done].
      by destruct (spawn env).
    + unfold dec_reset, join_thread. cbn. by destruct (thread h).
  - intros h ok m. cbn. unfold dec_respond. by destruct ok, (h_run_number h).
Qed.

(** What the handler holds in each state. *)
Record handler_ok (h : DecoderHandler) : Prop := {
  ho_path : rtc legal Idle (h_status h);
  ho_running : h_status h = Running ->
    (exists cell, h_core h = Some cell) /\ abandon h = Some false /\ stop_tx h = true /\
    thread h = true;
  ho_idle : h_status h = Idle -> pull_socket h = false /\ thread h = false /\ stop_tx h = false;
  ho_abandon : abandon h = Some true -> thread h = false;
  ho_thread : thread h = true -> exists cell, h_core h = Some cell;
}.

Lemma latch_ok h : handler_ok h -> handler_ok (dec_latch_error h).
Proof.
  intros Hok. pose proof Hok as [Hp Hr Hi Ha Ht]. unfold dec_latch_error. cbv zeta.
  destruct (bool_decide _ || _) eqn:Hb; [done |]. apply orb_false_iff in Hb as [_ Hb].
  apply negb_false_iff in Hb.
  destruct (match h_core h with None => false | Some cell => cell_errored cell end); cbn [negb]; [| done]. constructor; cbn; try done.
  by eapply rtc_r.
Qed.

Lemma dispatch_ok env cmd h t :
  handler_ok h -> target_state cmd = Some t -> can_transition_to (h_status h) t = true ->
  let '(o, h') := dec_dispatch env cmd h in
  match o with
  | Ok _ => handler_ok (h' <| h_status := t |>)
  | Err _ => handler_ok h'
  end.
Proof.
  intros Hok Ht Hleg. pose proof Hok as [Hp Hr Hi Ha Hth].
  assert (Hpath : rtc legal Idle t) by (by eapply rtc_r).
  destruct cmd as [cfg | | run | | |]; cbn in Ht; try done; injection Ht as <-; cbn [dec_dispatch].
  - by constructor.
  - unfold dec_arm. destruct (bind_pull env); [by constructor | done].
  - assert (Hst : h_status h = Armed) by (by destruct (h_status h)). rewrite Hst in Hp, Hr, Hi.
    unfold dec_start. destruct (negb _); [done |]. destruct (build_push _ _).
    + destruct (spawn env); constructor; cbn; rewrite ?Hst; try done; eauto.
    + constructor; cbn; rewrite ?Hst; try done; eauto.
  - by constructor.
  - unfold dec_reset, join_thread. cbn. destruct (thread h) eqn:E; constructor; cbn; try done; by rewrite E.
Qed.

Lemma handle_ok env cmd h : handler_ok h -> handler_ok (snd (handle env cmd h)).
Proof.
  intros Hok. apply latch_ok in Hok. unfold handle.
  change (latch_error h) with (dec_latch_error h). set (h1 := dec_latch_error h) in *.
  destruct (target_state cmd) as [t |] eqn:Ht; [| done].
  destruct (negb _) eqn:Hleg; [done |]. apply negb_false_iff in Hleg.
  pose proof (dispatch_ok env cmd h1 t Hok Ht Hleg) as Hd.
  change (dispatch env cmd h1) with (dec_dispatch env cmd h1).
  by destruct (dec_dispatch env cmd h1) as [[] h2].
Qed.

Lemma system_ok p h : rtc system_step (handler_new p) h -> handler_ok h.
Proof.
  apply (rtc_ind_r (fun h => handler_ok h)); [by constructor |].
  intros h1 h2 _ Hstep Hok. destruct Hstep as [env cmd h0 | cell cell' h0 Hc]; [by apply handle_ok |].
  destruct Hok. constructor; cbn; eauto. intros E.
  destruct (ho_running0 E) as (_ & ? & ? & ?). by eauto.
Qed.

(** the decoder's command handler over any life of commands, environment
    answers and thread activity: the state moves along legal edges only and every
    reply tells the state the handler is in; while [Running] the thread, its stop
    channel, the shared core and a lowered [abandon] flag exist, in [Idle] nothing
    is held; only [Reset] raises [abandon], and it has joined the thread by the time
    it returns; and once the core reports a violation (or the thread died), the
    next command finds [Error], out of which only [Reset] succeeds. *)
Theorem decoder_handler_safe (p : DecoderParams) (h : DecoderHandler)
    (Hh : rtc system_step (handler_new p) h) :
  rtc legal Idle (h_status h) /\
  (h_status h = Running -> (exists cell, h_core h = Some cell) /\ abandon h = Some false /\
     stop_tx h = true /\ thread h = true) /\
  (h_status h = Idle -> pull_socket h = false /\ thread h = false /\ stop_tx h = false) /\
  (abandon h = Some true -> thread h = false) /\
  forall env cmd, let '(r, h') := dec_handle env cmd h in
    state r = h_status h' /\
    (h_status h' = Idle -> h_status h <> Idle -> cmd = Reset) /\
    forall cell, h_core h = Some cell -> cell_errored cell = true ->
      h_status h <> Idle -> cmd <> Reset ->
      h_status h' = Error /\ (success r = true -> cmd = GetStatus).
Proof.
  destruct (system_ok p h Hh) as [Hp Hr Hi Ha Ht]. split_and!; try done. intros env cmd. unfold dec_handle.
  pose proof (handle_path env cmd h) as Hpath. pose proof (handle_outcome env cmd h) as Hout.
  assert (Hlatch : h_state (latch_error h) <> Idle \/ h_status h = Idle).
  { destruct (law_latch h) as [-> | [-> _]]; [| by left].
    destruct (decide (h_status h = Idle)); [by right | by left]. }
  assert (Herr : forall cell, h_core h = Some cell -> cell_errored cell = true ->
    h_status h <> Idle -> h_state (latch_error h) = Error).
  { intros cell Hc He Hni. cbn. unfold dec_latch_error. rewrite Hc, He.
    by destruct (h_status h) eqn:E; cbn; rewrite ?E. }
  pose proof (handle_in_error env cmd h) as Hin.
  destruct (handle env cmd h) as [r h']. destruct Hpath as [_ Hst], Hout as [Hout _].
  split_and!; [done | |].
  - intros Hidle Hni. destruct Hlatch as [Hl |]; [| done].
    change (h_state h') with (h_status h') in Hout. rewrite Hidle in Hout. symmetry in Hout.
    destruct (success r), cmd; done.
  - intros cell Hc He Hni Hnr. by destruct (Hin (Herr cell Hc He Hni)).
Qed.

Definition sample_params : DecoderParams := mkDecoderParams "tcp://127.0.0.1:47003" 8388608 10 [0; 1].
Definition sample_env : DecoderEnv :=
  mkDecoderEnv (Ok "tcp://127.0.0.1:47002") (Ok tt) (Ok tt) (Ok tt) (Ok tt) (Ok tt) Poisoned.

(** Configure, arm, start, and the thread panics. *)
Definition sample_life : DecoderHandler :=
  snd (handle_all [(sample_env, Configure (mkRunConfig 7 "" JNull)); (sample_env, Arm);
                   (sample_env, Start 7)] (handler_new sample_params))
  <| h_core := Some Poisoned |>.

Lemma decoder_handler_safe_witness :
  rtc system_step (handler_new sample_params) sample_life /\
  h_status sample_life = Running /\
  state (fst (handle sample_env GetStatus sample_life)) = Error /\
  success (fst (handle sample_env Stop sample_life)) = false.
Proof.
  assert (Hr : rtc system_step (handler_new sample_params) sample_life).
  { eapply rtc_l; [apply (step_command sample_env (Configure (mkRunConfig 7 "" JNull))) |].
    eapply rtc_l; [apply (step_command sample_env Arm) |].
    eapply rtc_l; [apply (step_command sample_env (Start 7)) |].
    apply rtc_once. eapply step_thread. vm_compute. reflexivity. }
  destruct (decoder_handler_safe sample_params sample_life Hr) as (_ & _ & _ & _ & Hcmd).
  split; [exact Hr |]. split; [reflexivity |].
  pose proof (Hcmd sample_env GetStatus) as H1. pose proof (Hcmd sample_env Stop) as H2.
  unfold dec_handle in H1, H2.
  destruct (handle sample_env GetStatus sample_life) as [r1 h1].
  destruct (handle sample_env Stop sample_life) as [r2 h2] eqn:E2.
  cbn [fst]. destruct H1 as (-> & _ & H1), H2 as (_ & _ & H2). split.
  - apply (H1 Poisoned); [reflexivity | reflexivity | discriminate | discriminate].
  - destruct (H2 Poisoned eq_refl eq_refl ltac:(discriminate) ltac:(discriminate)) as [_ H3].
    destruct (success r2); [| reflexivity]. discriminate (H3 eq_refl).
Defined.

(** *** Acquisition restarts *)

Lemma fold_min_spec (f : Z -> Z) l x :
  (fold_left Z.min (map f l) x <= x /\ forall s, In s l -> fold_left Z.min (map f l) x <= f s) /\
  (fold_left Z.min (map f l) x = x \/ exists s, In s l /\ fold_left Z.min (map f l) x = f s).
Proof.
  revert x. induction l as [| s l IH]; intros x; cbn [map fold_left].
  { split; [split; [lia | done] | by left]. }
  destruct (IH (Z.min x (f s))) as [[H1 H2] H3]. split.
  - split; [lia |]. intros s' [<- | Hin]; [lia | by apply H2].
  - destruct H3 as [H3 | (s' & Hin & H3)]; [| right; exists s'; split; [by right | done]].
    destruct (Z.min_dec x (f s)) as [E | E]; rewrite E in H3.
    + by left; rewrite E.
    + right. exists s. rewrite E. split; [by left | done].
Qed.

(** The generation is the least epoch of the expected sources. *)
Lemma least_epoch_spec expected m :
  (forall s, s ∈ expected -> least_epoch expected m <= epoch_of m s) /\
  (expected <> ∅ -> exists s, s ∈ expected /\ least_epoch expected m = epoch_of m s).
Proof.
  unfold least_epoch. destruct (elements expected) as [| s0 l] eqn:E.
  - apply elements_empty_inv in E. split; [set_solver | intros H; set_solver].
  - cbn [map min_list default from_option].
    destruct (fold_min_spec (epoch_of m) l (epoch_of m s0)) as [[H1 H2] H3]. split.
    + intros s Hs. apply elem_of_elements in Hs. rewrite E in Hs.
      apply elem_of_cons in Hs as [-> | Hs]; [done |]. apply H2. by apply list_elem_of_In.
    + intros _. destruct H3 as [H3 | (s & Hin & H3)].
      * exists s0. split; [| done]. apply elem_of_elements. rewrite E. by left.
      * exists s. split; [| done]. apply elem_of_elements. rewrite E. right. by apply list_elem_of_In.
Qed.

Definition track_all (events : list (Z * Z * Z)) (c : RunDecoder) : RunDecoder :=
  fold_left (fun c ev => track_acquisition_restart (fst (fst ev)) (snd (fst ev)) (snd ev) c) events c.

(** acquisition restarts are counted per run, not per source: after any
    interleaving of fragments of any sources, the counter is the number of
    restarts that every expected source has gone through, that is the least
    per-source epoch, and with no expected source it stays at zero. *)
Theorem restarts_counted (events : list (Z * Z * Z)) (run : Z) (expected : gset Z)
    (max_bytes max : Z) :
  let c := track_all events (new run expected max_bytes max) in
  (forall s, s ∈ expected -> acquisition_restarts c <= epoch_of (source_epochs c) s) /\
  (expected <> ∅ ->
   exists s, s ∈ expected /\ acquisition_restarts c = epoch_of (source_epochs c) s) /\
  (expected = ∅ -> acquisition_restarts c = 0).
Proof.
  assert (Hgen : forall c, epochs_ok c ->
    acquisition_restarts c = min_epoch c ->
    expected_sources (track_all events c) = expected_sources c /\
    acquisition_restarts (track_all events c) =
      least_epoch (expected_sources c) (source_epochs (track_all events c))).
  { induction events as [| [[s i] t] evs IH]; intros c Hok Hr; cbn [track_all fold_left].
    { split; [done |]. by rewrite Hr. }
    destruct (track_epochs s i t c Hok) as (Hok' & [Hst _] & _).
    destruct (track_frame s i t c) as [(_ & Hexp & _) _].
    destruct (IH (track_acquisition_restart s i t c) Hok' ltac:(lia)) as [E1 E2].
    unfold track_all in *. cbn [fst snd]. by rewrite E1, E2, Hexp. }
  intros c. destruct (Hgen (new run expected max_bytes max)) as [_ Hc]; [| done |].
  { unfold epochs_ok. cbn. by rewrite least_epoch_empty. }
  fold c in Hc. cbn in Hc. rewrite Hc.
  destruct (least_epoch_spec expected (source_epochs c)) as [H1 H2]. split_and!; try done.
  intros ->. done.
Qed.
