(* ===== verification/GrawWriter.v ===== *)
(** * GrawWriter: raw frames to per-AsAd files

    Models [src/graw_writer.rs]: the core [RunWriter] that appends every frame,
    byte for byte, to the file of its CoBo and AsAd (or to the CoBo's control
    file) and rotates the files; the writer thread with its data-driven end of
    run; and the command handler.  The file system, its failures and the clock
    are explicit: each fallible system call takes the next answer of a script,
    and a script that has run out answers with success. *)

From Stdlib Require Import Ascii.
From stdpp Require Import gmap fin_maps strings.
From S2P Require Import Prelude Bytes Decimal Msg Command.
From S2P Require Decode.
Open Scope Z_scope.

(** ** The operating system *)

(** A path is the list of its components; [PathBuf::join] appends. *)
Abbreviation path := (list string).

(** One system call's answer; a failing write may have written a prefix. *)
Inductive IoResult : Type :=
| IoOk
| IoErr (written : Z) (what : string).

Record Os : Type := mkOs {
  disk : gmap path bytes;
  dirs : gset path;
  io : list IoResult;
  clock : nat -> string;
  clock_reads : nat;
}.
#[export] Instance Os_eta : Eta Os := fun o =>
  mkOs (disk o) (dirs o) (io o) (clock o) (clock_reads o).

Definition syscall (o : Os) : IoResult * Os :=
  match io o with
  | [] => (IoOk, o)
  | r :: rest => (r, o <| io := rest |>)
  end.

Definition os_create_dir_all (dir : path) (o : Os) : result unit string * Os :=
  let '(r, o) := syscall o in
  match r with
  | IoOk => (Ok tt, o <| dirs ::= union {[dir]} |>)
  | IoErr _ e => (Err e, o)
  end.

(** [File::create]: an existing file is truncated. *)
Definition os_file_create (p : path) (o : Os) : result unit string * Os :=
  let '(r, o) := syscall o in
  match r with
  | IoOk => (Ok tt, o <| disk ::= <[p := []]> |>)
  | IoErr _ e => (Err e, o)
  end.

Definition os_append (p : path) (bs : bytes) (o : Os) : Os :=
  o <| disk ::= fun d => <[p := default [] (d !! p) ++ bs]> d |>.

(** Writes a buffer; the error carries how much of it was written. *)
Definition os_write (p : path) (bs : bytes) (o : Os) : result unit (Z * string) * Os :=
  let '(r, o) := syscall o in
  match r with
  | IoOk => (Ok tt, os_append p bs o)
  | IoErr n e => (Err (n, e), os_append p (take (Z.to_nat n) bs) o)
  end.

Definition os_sync_all (o : Os) : result unit string * Os :=
  let '(r, o) := syscall o in
  match r with
  | IoOk => (Ok tt, o)
  | IoErr _ e => (Err e, o)
  end.

Definition local_timestamp (o : Os) : string * Os :=
  (clock o (clock_reads o), o <| clock_reads ::= S |>).

(** *** [std::io::BufWriter<File>]: the bytes not yet handed to the file *)

Definition BUF_CAPACITY : Z := 8192.

Definition bw_flush_buf (p : path) (buffered : bytes) (o : Os)
    : result unit string * bytes * Os :=
  match buffered with
  | [] => (Ok tt, [], o)
  | _ =>
      match os_write p buffered o with
      | (Ok _, o) => (Ok tt, [], o)
      | (Err (n, e), o) => (Err e, drop (Z.to_nat n) buffered, o)
      end
  end.

Definition bw_write_all (p : path) (bs buffered : bytes) (o : Os)
    : result unit string * bytes * Os :=
  if len bs <? BUF_CAPACITY - len buffered then (Ok tt, buffered ++ bs, o)
  else
    let '(r, buffered, o) :=
      if BUF_CAPACITY - len buffered <? len bs then bw_flush_buf p buffered o
      else (Ok tt, buffered, o) in
    match r with
    | Err e => (Err e, buffered, o)
    | Ok _ =>
        if BUF_CAPACITY <=? len bs then
          match os_write p bs o with
          | (Ok _, o) => (Ok tt, buffered, o)
          | (Err (_, e), o) => (Err e, buffered, o)
          end
        else (Ok tt, buffered ++ bs, o)
    end.

(** [file.flush().and_then(|()| file.get_ref().sync_all())]. *)
Definition bw_flush_sync (p : path) (buffered : bytes) (o : Os)
    : result unit string * bytes * Os :=
  match bw_flush_buf p buffered o with
  | (Err e, buffered, o) => (Err e, buffered, o)
  | (Ok _, buffered, o) => let '(r, o) := os_sync_all o in (r, buffered, o)
  end.

(** Dropping a [BufWriter] writes what is left, ignoring a failure. *)
Definition bw_drop (p : path) (buffered : bytes) (o : Os) : Os :=
  snd (bw_flush_buf p buffered o).

(** ** Files *)

Inductive WriteError : Type :=
| WIo (p : path) (source : string)
| WInternal (what : string).

Inductive FileKey : Type :=
| Asad (cobo asad : Z)
| Ctrl (cobo : Z).

#[export] Instance FileKey_eq_dec : EqDecision FileKey.
Proof. solve_decision. Defined.

#[export] Instance FileKey_countable : Countable FileKey.
Proof.
  apply (inj_countable' (fun k => match k with Asad c a => inl (c, a) | Ctrl c => inr c end)
    (fun x => match x with inl (c, a) => Asad c a | inr c => Ctrl c end)).
  by intros [].
Defined.

Definition key_cobo (k : FileKey) : Z := match k with Asad c _ | Ctrl c => c end.
Definition key_asad (k : FileKey) : option Z :=
  match k with Asad _ a => Some a | Ctrl _ => None end.

Record FileReport : Type := mkFileReport {
  rp_cobo : Z;
  rp_asad : option Z;
  rp_idx : Z;
  rp_path : path;
  rp_bytes : Z;
  rp_frames : Z;
  rp_closed : bool;
}.

Record OutputFile : Type := mkOutputFile {
  of_key : FileKey;
  ts : string;
  idx : Z;
  cur_bytes : Z;
  frames : Z;
  file : bytes;  (* the writer's buffer *)
  of_path : path;
}.
#[export] Instance OutputFile_eta : Eta OutputFile := fun f =>
  mkOutputFile (of_key f) (ts f) (idx f) (cur_bytes f) (frames f) (file f) (of_path f).

Definition report (f : OutputFile) (closed : bool) : FileReport :=
  mkFileReport (key_cobo (of_key f)) (key_asad (of_key f)) (idx f) (of_path f) (cur_bytes f)
    (frames f) closed.

Record RunWriter : Type := mkRunWriter {
  output_root : path;
  run_number : Z;
  max_file_bytes : Z;
  run_dir_created : bool;
  ctrl_dir_created : bool;
  files : gmap FileKey OutputFile;
  closed_files : list FileReport;
  asad_bytes : gmap (Z * Z) Z;
  asad_frames : gmap (Z * Z) Z;
  batches : gmap Z Z;
  next_seq : gmap Z Z;
  seq_gaps : Z;
  run_mismatches : Z;
  ctrl_frames : Z;
  write_errors : Z;
  unexpected_sources : Z;
  decode_errors : Z;
  heartbeats_in : Z;
  errored : bool;
  os : Os;  (* the file system and clock the writer acts on *)
}.
#[export] Instance RunWriter_eta : Eta RunWriter := fun w =>
  mkRunWriter (output_root w) (run_number w) (max_file_bytes w) (run_dir_created w)
    (ctrl_dir_created w) (files w) (closed_files w) (asad_bytes w) (asad_frames w) (batches w)
    (next_seq w) (seq_gaps w) (run_mismatches w) (ctrl_frames w) (write_errors w)
    (unexpected_sources w) (decode_errors w) (heartbeats_in w) (errored w) (os w).

Definition new (output_root : path) (run_number max_file_bytes : Z) (o : Os) : RunWriter :=
  mkRunWriter output_root run_number max_file_bytes false false ∅ [] ∅ ∅ ∅ ∅ 0 0 0 0 0 0 0 false o.

(** Writers thread their state and may fail. *)
Definition W (A : Type) : Type := RunWriter -> result A WriteError * RunWriter.
Definition ret {A} (a : A) : W A := fun w => (Ok a, w).
Definition bind {A B} (m : W A) (k : A -> W B) : W B :=
  fun w => match m w with
           | (Ok a, w) => k a w
           | (Err e, w) => (Err e, w)
           end.
Notation "'do!' x <- m ; k" := (bind m (fun x => k))
  (at level 10, x name, m at level 100, k at level 200) : rust_scope.

(** Counts a failure and latches the error. *)
Definition count_error (w : RunWriter) : RunWriter :=
  w <| write_errors ::= incr |> <| errored := true |>.

Definition record_eos_run_mismatch (w : RunWriter) : RunWriter := w <| run_mismatches ::= incr |>.
Definition record_unexpected_source (w : RunWriter) : RunWriter :=
  w <| unexpected_sources ::= incr |>.
Definition record_decode_error (w : RunWriter) : RunWriter := w <| decode_errors ::= incr |>.
Definition record_heartbeat (w : RunWriter) : RunWriter := w <| heartbeats_in ::= incr |>.

Definition run_dir (w : RunWriter) : path := output_root w ++ ["run" +:+ dec4 (run_number w)].
Definition ctrl_dir (w : RunWriter) : path := run_dir w ++ ["ctrl"].

Definition file_path (w : RunWriter) (key : FileKey) (ts : string) (idx : Z) : path :=
  match key with
  | Asad cobo asad =>
      run_dir w ++
      ["CoBo" +:+ dec cobo +:+ "_AsAd" +:+ dec asad +:+ "_" +:+ ts +:+ "_" +:+ dec4 idx +:+ ".graw"]
  | Ctrl cobo =>
      ctrl_dir w ++ ["CoBo" +:+ dec cobo +:+ "_" +:+ ts +:+ "_" +:+ dec4 idx +:+ ".graw"]
  end.

Definition internal_error {A} (what : string) : W A := fun w => (Err (WInternal what), count_error w).

Definition ensure_run_dir : W unit := fun w =>
  if run_dir_created w then (Ok tt, w)
  else
    let '(r, o) := os_create_dir_all (run_dir w) (os w) in
    let w := w <| os := o |> in
    match r with
    | Err e => (Err (WIo (run_dir w) e), count_error w)
    | Ok _ => (Ok tt, w <| run_dir_created := true |>)
    end.

Definition ensure_ctrl_dir : W unit := fun w =>
  if ctrl_dir_created w then (Ok tt, w)
  else
    let '(r, o) := os_create_dir_all (ctrl_dir w) (os w) in
    let w := w <| os := o |> in
    match r with
    | Err e => (Err (WIo (ctrl_dir w) e), count_error w)
    | Ok _ => (Ok tt, w <| ctrl_dir_created := true |>)
    end.

Definition is_ctrl (k : FileKey) : bool := match k with Ctrl _ => true | _ => false end.

Definition open_new_file (key : FileKey) (ts : string) (idx : Z) : W unit :=
  do! _ <- (if is_ctrl key then ensure_ctrl_dir else ret tt);
  fun w =>
    let p := file_path w key ts idx in
    let '(r, o) := os_file_create p (os w) in
    let w := w <| os := o |> in
    match r with
    | Err e => (Err (WIo p e), count_error w)
    | Ok _ => (Ok tt, w <| files ::= <[key := mkOutputFile key ts idx 0 0 [] p]> |>)
    end.

Definition create_file (key : FileKey) : W unit := fun w =>
  let '(ts, o) := local_timestamp (os w) in
  open_new_file key ts 0 (w <| os := o |>).

Definition rotate (key : FileKey) : W unit := fun w =>
  match files w !! key with
  | None => internal_error "rotate: file must exist" w
  | Some entry =>
      let '(r, buffered, o) := bw_flush_sync (of_path entry) (file entry) (os w) in
      let entry := entry <| file := buffered |> in
      let w := w <| os := o |> <| files ::= <[key := entry]> |> in
      match r with
      | Err e => (Err (WIo (of_path entry) e), count_error w)
      | Ok _ =>
          let next_idx := idx entry + 1 in
          let w := w <| files ::= delete key |>
                     <| closed_files ::= fun l => l ++ [report entry true] |> in
          open_new_file key (ts entry) next_idx w
      end
  end.

Definition add_at {K} `{Countable K} (k : K) (n : Z) (m : gmap K Z) : gmap K Z :=
  <[k := default 0 (m !! k) + n]> m.

Definition write_to (key : FileKey) (frame : bytes) : W unit :=
  do! _ <- ensure_run_dir;
  do! _ <- (fun w => match files w !! key with Some _ => (Ok tt, w) | None => create_file key w end);
  fun w =>
    match files w !! key with
    | None => internal_error "no entry right after create_file" w
    | Some entry =>
        let '(r, buffered, o) := bw_write_all (of_path entry) frame (file entry) (os w) in
        let entry := entry <| file := buffered |> in
        let w := w <| os := o |> <| files ::= <[key := entry]> |> in
        match r with
        | Err e => (Err (WIo (of_path entry) e), count_error w)
        | Ok _ =>
            let entry := entry <| cur_bytes ::= Z.add (len frame) |> <| frames ::= incr |> in
            let w := w <| files ::= <[key := entry]> |> in
            let w :=
              match key with
              | Asad cobo asad =>
                  w <| asad_bytes ::= add_at (cobo, asad) (len frame) |>
                    <| asad_frames ::= add_at (cobo, asad) 1 |>
              | Ctrl _ => w
              end in
            if max_file_bytes w <? cur_bytes entry then rotate key w else (Ok tt, w)
        end
    end.

(** Where a frame goes: its AsAd's file, or the CoBo's control file, counted. *)
Definition write_frame (source : Z) (frame : bytes) (w : RunWriter)
    : rust (result unit WriteError * RunWriter) :=
  let! asad := Decode.peek_asad frame in
  Val match asad with
      | Some asad => write_to (Asad source asad) frame w
      | None => write_to (Ctrl source) frame (w <| ctrl_frames ::= incr |>)
      end.

Fixpoint write_frames (source : Z) (frames : list bytes) (w : RunWriter)
    : rust (result unit WriteError * RunWriter) :=
  match frames with
  | [] => Val (Ok tt, w)
  | frame :: frames =>
      let! (r, w) := write_frame source frame w in
      match r with
      | Ok _ => write_frames source frames w
      | Err e => Val (Err e, w)
      end
  end.

Definition check_sequence (source sequence : Z) (w : RunWriter) : RunWriter :=
  let expected := default 0 (next_seq w !! source) in
  let w :=
    if negb (sequence =? expected) then w <| seq_gaps ::= incr |> <| errored := true |> else w in
  w <| next_seq ::= <[source := wrap 64 (sequence + 1)]> |> <| batches ::= add_at source 1 |>.

Definition handle_batch (source run sequence : Z) (frames : list bytes) (w : RunWriter)
    : rust (result unit WriteError * RunWriter) :=
  if negb (run =? run_number w) then
    Val (Ok tt, w <| run_mismatches ::= incr |> <| errored := true |>)
  else write_frames source frames (check_sequence source sequence w).

(** [first_err.get_or_insert(e)]. *)
Definition or_first {E} (first : option E) (e : E) : option E :=
  match first with
  | Some _ => first
  | None => Some e
  end.

Definition outcome_of {E} (first : option E) : result unit E :=
  match first with
  | Some e => Err e
  | None => Ok tt
  end.

Definition close_file (key : FileKey) : W unit := fun w =>
  match files w !! key with
  | None => (Ok tt, w)
  | Some entry =>
      let w := w <| files ::= delete key |> in
      let '(r, buffered, o) := bw_flush_sync (of_path entry) (file entry) (os w) in
      let w := w <| closed_files ::= fun l => l ++ [report entry true] |> in
      let w := w <| os := bw_drop (of_path entry) buffered o |> in
      match r with
      | Err e => (Err (WIo (of_path entry) e), count_error w)
      | Ok _ => (Ok tt, w)
      end
  end.

Section hash_order.
(** The iteration order of a [HashMap] is unspecified: [order] is any order of
    the keys. *)
Variable order : gmap FileKey OutputFile -> list FileKey.

Fixpoint flush_keys (keys : list FileKey) (first : option (path * string)) (w : RunWriter)
    : option (path * string) * RunWriter :=
  match keys with
  | [] => (first, w)
  | key :: keys =>
      match files w !! key with
      | None => flush_keys keys first w
      | Some entry =>
          let '(r, buffered, o) := bw_flush_buf (of_path entry) (file entry) (os w) in
          let w := w <| os := o |> <| files ::= <[key := entry <| file := buffered |>]> |> in
          flush_keys keys (match r with Err e => or_first first (of_path entry, e) | Ok _ => first end) w
      end
  end.

Definition flush_all : W unit := fun w =>
  let '(first, w) := flush_keys (order (files w)) None w in
  match first with
  | Some (p, e) => (Err (WIo p e), count_error w)
  | None => (Ok tt, w)
  end.

Fixpoint close_keys (keys : list FileKey) (first : option WriteError) (w : RunWriter)
    : option WriteError * RunWriter :=
  match keys with
  | [] => (first, w)
  | key :: keys =>
      let '(r, w) := close_file key w in
      close_keys keys (match r with Err e => or_first first e | Ok _ => first end) w
  end.

Definition finalize : W unit := fun w =>
  let '(first, w) := close_keys (order (files w)) None w in
  (outcome_of first, w).

(** ** The writer thread *)

Inductive WPolled : Type :=
| PNone            (* EAGAIN, or a receive error that is only logged *)
| PTerminated
| PUndecodable
| PMessage (m : Message RawFrames).

(** One turn of the loop: is a stop signal waiting, what the socket had, and
    whether the flush interval has passed. *)
Record WTurn : Type := mkWTurn {
  wt_stop : bool;
  wt_polled : WPolled;
  wt_flush_due : bool;
}.

(** What a turn decides: go on with the barriers seen so far, or leave. *)
Definition receive (expected : gset Z) (run : Z) (p : WPolled) (eos : gset Z) (w : RunWriter)
    : rust (option (gset Z) * RunWriter) :=
  match p with
  | PNone => Val (Some eos, w)
  | PTerminated => Val (None, w)
  | PUndecodable => Val (Some eos, record_decode_error w)
  | PMessage (Data b) =>
      let! (r, w) :=
        handle_batch (Msg.source_id b) (Msg.run_number b) (sequence_number b) (payload b) w in
      Val (match r with Err _ => None | Ok _ => Some eos end, w)
  | PMessage (EndOfStream source eos_run) =>
      if negb (eos_run =? run) then Val (Some eos, record_eos_run_mismatch w)
      else if negb (bool_decide (source ∈ expected)) then Val (Some eos, record_unexpected_source w)
      else
        let eos := {[source]} ∪ eos in
        if bool_decide (expected ⊆ eos) then Val (None, w) else Val (Some eos, w)
  | PMessage (Heartbeat _ _ _) => Val (Some eos, record_heartbeat w)
  end.

Fixpoint consume_until_done (expected : gset Z) (run : Z) (turns : list WTurn) (eos : gset Z)
    (w : RunWriter) : rust RunWriter :=
  match turns with
  | [] => Val w
  | tn :: turns =>
      if wt_stop tn then Val w
      else
        let! (next, w) := receive expected run (wt_polled tn) eos w in
        match next with
        | None => Val w
        | Some eos =>
            let w := if wt_flush_due tn then snd (flush_all w) else w in
            consume_until_done expected run turns eos w
        end
  end.

(** The loop, then [finalize]: a list of turns that ends is a thread stopped
    there. *)
Definition run_writer_thread (expected : gset Z) (run : Z) (turns : list WTurn) (w : RunWriter)
    : rust RunWriter :=
  let! w := consume_until_done expected run turns ∅ w in
  Val (snd (finalize w)).
End hash_order.

(** ** Reports *)

(** The sort key [(cobo, asad, idx)]: [None] comes before [Some]. *)
Definition asad_le (a b : option Z) : bool :=
  match a, b with
  | None, _ => true
  | Some _, None => false
  | Some a, Some b => a <=? b
  end.

Definition report_le (r s : FileReport) : bool :=
  if negb (rp_cobo r =? rp_cobo s) then rp_cobo r <? rp_cobo s
  else if negb (bool_decide (rp_asad r = rp_asad s)) then asad_le (rp_asad r) (rp_asad s)
  else rp_idx r <=? rp_idx s.

(** [sort_by_key] is stable. *)
Fixpoint insert_report (r : FileReport) (l : list FileReport) : list FileReport :=
  match l with
  | [] => [r]
  | s :: l => if report_le r s then r :: s :: l else s :: insert_report r l
  end.
Definition sort_reports (l : list FileReport) : list FileReport := foldr insert_report [] l.

Definition file_report (w : RunWriter) : list FileReport :=
  sort_reports (closed_files w ++ map (fun kf => report (snd kf) false) (map_to_list (files w))).

Definition json_of_report (r : FileReport) : Json :=
  JObj [("cobo", JNum (rp_cobo r));
        ("asad", match rp_asad r with Some a => JNum a | None => JNull end);
        ("idx", JNum (rp_idx r)); ("path", JStr (String.concat "/" (rp_path r)));
        ("bytes", JNum (rp_bytes r)); ("frames", JNum (rp_frames r));
        ("closed", JBool (rp_closed r))].

Definition pair_le (a b : Z * Z) : bool :=
  if negb (fst a =? fst b) then fst a <? fst b else snd a <=? snd b.

Fixpoint insert_pair (a : Z * Z) (l : list (Z * Z)) : list (Z * Z) :=
  match l with
  | [] => [a]
  | b :: l => if pair_le a b then a :: b :: l else b :: insert_pair a l
  end.

Definition metrics_json (w : RunWriter) : Json :=
  let asad_keys := foldr insert_pair [] (map fst (map_to_list (asad_bytes w))) in
  JObj
    [("seq_gaps", JNum (seq_gaps w));
     ("run_mismatches", JNum (run_mismatches w));
     ("ctrl_frames", JNum (ctrl_frames w));
     ("write_errors", JNum (write_errors w));
     ("unexpected_sources", JNum (unexpected_sources w));
     ("decode_errors", JNum (decode_errors w));
     ("heartbeats_in", JNum (heartbeats_in w));
     ("batches", JObj (map (fun kv => (dec (fst kv), JNum (snd kv))) (map_to_list (batches w))));
     ("asad", JArr (map (fun k =>
        JObj [("cobo", JNum (fst k)); ("asad", JNum (snd k));
              ("bytes", JNum (default 0 (asad_bytes w !! k)));
              ("frames", JNum (default 0 (asad_frames w !! k)))]) asad_keys));
     ("files", JArr (map json_of_report (file_report w)));
     ("files_open", JNum (Z.of_nat (size (files w))));
     ("files_closed", JNum (len (closed_files w)))].

(** ** The command handler *)

Inductive WriterCell : Type :=
| WLive (w : RunWriter)
| WPoisoned.

Record GrawWriterParams : Type := mkGrawWriterParams {
  p_output_root : path;
  p_max_file_bytes : Z;
  p_expected_sources : list Z;
}.

Record GrawHandler : Type := mkGrawHandler {
  g_params : GrawWriterParams;
  g_status : ComponentState;
  g_run_number : option Z;
  g_pull_socket : bool;
  g_bind_address : option string;
  g_writer : option WriterCell;
  g_stop_tx : bool;
}.
#[export] Instance GrawHandler_eta : Eta GrawHandler := fun h =>
  mkGrawHandler (g_params h) (g_status h) (g_run_number h) (g_pull_socket h) (g_bind_address h)
    (g_writer h) (g_stop_tx h).

Definition handler_new (p : GrawWriterParams) : GrawHandler :=
  mkGrawHandler p Idle None false None None false.

Record GrawEnv : Type := mkGrawEnv {
  g_bind_pull : result string string;
  g_spawn : result unit string;
  g_os : Os;
}.

Definition writer_errored (cell : WriterCell) : bool :=
  match cell with
  | WLive w => errored w
  | WPoisoned => true
  end.

Definition graw_latch_error (h : GrawHandler) : GrawHandler :=
  if bool_decide (g_status h = Error) || negb (can_transition_to (g_status h) Error) then h
  else
    let is_errored := match g_writer h with None => false | Some cell => writer_errored cell end in
    if negb is_errored then h else h <| g_status := Error |>.

Definition stop_writer (h : GrawHandler) : GrawHandler := h <| g_stop_tx := false |>.

Definition graw_configure (cfg : RunConfig) (h : GrawHandler) : result unit string * GrawHandler :=
  (Ok tt, h <| g_run_number := Some (cfg_run_number cfg) |>).

Definition graw_arm (env : GrawEnv) (h : GrawHandler) : result unit string * GrawHandler :=
  match g_bind_pull env with
  | Err e => (Err e, h)
  | Ok endpoint => (Ok tt, h <| g_bind_address := Some endpoint |> <| g_pull_socket := true |>)
  end.

Definition graw_start (env : GrawEnv) (run : Z) (h : GrawHandler)
    : result unit string * GrawHandler :=
  if negb (g_pull_socket h) then (Err "no PULL socket: Arm again before Start", h) else
  let h :=
    h <| g_pull_socket := false |> <| g_run_number := Some run |>
      <| g_writer := Some (WLive (new (p_output_root (g_params h)) run
                                  (p_max_file_bytes (g_params h)) (g_os env))) |>
      <| g_stop_tx := true |> in
  match g_spawn env with
  | Err e => (Err ("cannot spawn writer thread: " +:+ e), h)
  | Ok _ => (Ok tt, h)
  end.

Definition graw_stop (h : GrawHandler) : result unit string * GrawHandler :=
  (Ok tt, stop_writer h <| g_bind_address := None |>).

Definition graw_reset (h : GrawHandler) : result unit string * GrawHandler :=
  (Ok tt, stop_writer h <| g_pull_socket := false |> <| g_bind_address := None |>
            <| g_run_number := None |> <| g_writer := None |>).

Definition graw_dispatch (env : GrawEnv) (cmd : Command) (h : GrawHandler)
    : result unit string * GrawHandler :=
  match cmd with
  | Configure cfg => graw_configure cfg h
  | Arm => graw_arm env h
  | Start run => graw_start env run h
  | Stop => graw_stop h
  | Reset => graw_reset h
  | GetStatus => (Ok tt, h)
  end.

Definition graw_respond (h : GrawHandler) (ok : bool) (m : string) : CommandResponse :=
  let response := if ok then response_success (g_status h) m else response_error (g_status h) m in
  let response :=
    match g_run_number h with
    | Some run => with_run_number response run
    | None => response
    end in
  let metrics :=
    match g_writer h with
    | Some (WLive w) => metrics_json w
    | _ => JObj []
    end in
  with_metrics response
    (json_set metrics "bind_address"
       match g_bind_address h with Some addr => JStr addr | None => JNull end).

#[export] Instance graw_handler : Handler GrawHandler GrawEnv := {
  h_state := g_status;
  h_set_state := fun s h => h <| g_status := s |>;
  latch_error := graw_latch_error;
  dispatch := graw_dispatch;
  respond := graw_respond;
}.

(** The component's [handle]: the shared handler body over the parts above. *)
Definition graw_handle (env : GrawEnv) (cmd : Command) (h : GrawHandler)
    : CommandResponse * GrawHandler := handle env cmd h.

Inductive graw_step : GrawHandler -> GrawHandler -> Prop :=
| graw_step_command env cmd h : graw_step h (snd (graw_handle env cmd h))
| graw_step_thread cell cell' h :
    g_writer h = Some cell -> graw_step h (h <| g_writer := Some cell' |>).

(** ** File names *)

Definition key_ok (k : FileKey) : Prop :=
  match k with
  | Asad c a => 0 <= c /\ 0 <= a
  | Ctrl c => 0 <= c
  end.

Lemma app_singleton_inj (l : path) x y : l ++ [x] = l ++ [y] -> x = y.
Proof. intros E. apply app_inv_head in E. by injection E. Qed.

(** Two keys never share a file, whatever the timestamps and indices. *)
Lemma file_path_key w k k' t t' i i' :
  key_ok k -> key_ok k' -> file_path w k t i = file_path w k' t' i' -> k = k'.
Proof.
  intros Hk Hk' E. destruct k as [c a | c], k' as [c' a' | c']; cbn [file_path key_ok] in *.
  - apply app_singleton_inj in E. apply append_inj_l in E.
    destruct Hk, Hk'.
    apply (digits_sep "_"%char) in E as [Ec E]; [| done | apply dec_digits | apply dec_digits].
    apply (append_inj_l _ _ "AsAd") in E.
    apply (digits_sep "_"%char) in E as [Ea _]; [| done | apply dec_digits | apply dec_digits].
    by rewrite (dec_inj c c'), (dec_inj a a').
  - exfalso. unfold ctrl_dir in E. apply (f_equal length) in E. rewrite !length_app in E. cbn in E. lia.
  - exfalso. unfold ctrl_dir in E. apply (f_equal length) in E. rewrite !length_app in E. cbn in E. lia.
  - apply app_singleton_inj in E. apply append_inj_l in E.
    apply (digits_sep "_"%char) in E as [Ec _]; [| done | apply dec_digits | apply dec_digits].
    by rewrite (dec_inj c c').
Qed.

(** The files of one key and one timestamp are told apart by their index. *)
Lemma file_path_idx w k t i i' :
  0 <= i -> 0 <= i' -> file_path w k t i = file_path w k t i' -> i = i'.
Proof.
  intros Hi Hi' E. destruct k as [c a | c]; cbn [file_path] in E; apply app_singleton_inj in E.
  - do 7 apply append_inj_l in E. apply append_inj_r in E. by apply dec4_inj.
  - do 5 apply append_inj_l in E. apply append_inj_r in E. by apply dec4_inj.
Qed.

(** ** The rotation rule, as a specification *)

(** Frames fill a file until it is larger than [max]; the frame that crosses
    the limit stays, the next one opens a new file. *)
Definition cut_step (max : Z) (p : list (list bytes) * list bytes) (frame : bytes)
    : list (list bytes) * list bytes :=
  let cur := snd p ++ [frame] in
  if max <? len (concat cur) then (fst p ++ [cur], []) else (fst p, cur).

Definition cut (max : Z) (frames : list bytes) : list (list bytes) * list bytes :=
  fold_left (cut_step max) frames ([], []).

Lemma cut_snoc max fs f : cut max (fs ++ [f]) = cut_step max (cut max fs) f.
Proof. unfold cut. by rewrite fold_left_app. Qed.

(** Nothing is lost or reordered, a full file is over the limit by its last
    frame only, and the file being filled is not over it. *)
Definition cut_bounds (max : Z) (fs : list bytes) : Prop :=
  let '(full, cur) := cut max fs in
  concat full ++ cur = fs /\
  Forall (fun g => max < len (concat g) /\
            exists g' f, g = g' ++ [f] /\ len (concat g') <= max) full /\
  len (concat cur) <= max.

Lemma cut_spec max fs : 0 <= max -> cut_bounds max fs.
Proof.
  intros Hmax. induction fs as [| f fs IH] using rev_ind.
  { unfold cut_bounds. cbn. split_and!; [done | constructor | done]. }
  unfold cut_bounds in *. rewrite cut_snoc. destruct (cut max fs) as [full cur].
  destruct IH as (Hc & Hf & Hb). unfold cut_step. cbn [fst snd].
  destruct (Z.ltb_spec max (len (concat (cur ++ [f])))) as [Hlt | Hle].
  - split_and!.
    + rewrite concat_app. cbn [concat]. rewrite !app_nil_r, app_assoc. by rewrite Hc.
    + apply Forall_app. split; [done |]. constructor; [| constructor].
      split; [done |]. by exists cur, f.
    + done.
  - split_and!; [by rewrite app_assoc, Hc | done | done].
Qed.

(** ** What a writer's files hold *)

Definition same_config (w w' : RunWriter) : Prop :=
  output_root w' = output_root w /\ run_number w' = run_number w /\
  max_file_bytes w' = max_file_bytes w.

Lemma same_config_path w w' k t i : same_config w w' -> file_path w' k t i = file_path w k t i.
Proof.
  intros (Hr & Hn & _). destruct k; cbn; unfold ctrl_dir, run_dir; by rewrite Hr, Hn.
Qed.

Lemma same_config_trans w1 w2 w3 : same_config w1 w2 -> same_config w2 w3 -> same_config w1 w3.
Proof. unfold same_config. intuition congruence. Qed.

(** The reports of one key, in the order the files were closed. *)
Definition of_report_key (k : FileKey) (r : FileReport) : bool :=
  bool_decide (rp_cobo r = key_cobo k /\ rp_asad r = key_asad k).
Definition key_reports (k : FileKey) (w : RunWriter) : list FileReport :=
  filter (fun r => of_report_key k r = true) (closed_files w).

Definition group_report (w : RunWriter) (k : FileKey) (t : string) (i : nat) (g : list bytes)
    : FileReport :=
  mkFileReport (key_cobo k) (key_asad k) (Z.of_nat i) (file_path w k t (Z.of_nat i))
    (len (concat g)) (len g) true.

(** Closed files: the [i]-th holds the [i]-th group, byte for byte. *)
Definition groups_on_disk (w : RunWriter) (k : FileKey) (t : string) (gs : list (list bytes)) : Prop :=
  (forall i g, gs !! i = Some g -> disk (os w) !! file_path w k t (Z.of_nat i) = Some (concat g)) /\
  key_reports k w = imap (group_report w k t) gs.

Definition key_unused (w : RunWriter) (k : FileKey) (fs : list bytes) : Prop :=
  fs = [] /\ files w !! k = None /\ key_reports k w = [].

Record open_entry (w : RunWriter) (k : FileKey) (t : string) (n : nat) (cur : list bytes)
    (f : OutputFile) : Prop := {
  oe_key : of_key f = k;
  oe_ts : ts f = t;
  oe_idx : idx f = Z.of_nat n;
  oe_path : of_path f = file_path w k t (Z.of_nat n);
  oe_bytes : cur_bytes f = len (concat cur);
  oe_frames : frames f = len cur;
  oe_content : exists d, disk (os w) !! of_path f = Some d /\ d ++ file f = concat cur;
}.

Definition key_open (w : RunWriter) (k : FileKey) (fs : list bytes) : Prop :=
  exists t f, files w !! k = Some f /\
    groups_on_disk w k t (fst (cut (max_file_bytes w) fs)) /\
    open_entry w k t (length (fst (cut (max_file_bytes w) fs))) (snd (cut (max_file_bytes w) fs)) f.

(** Everything is on the disk, in files that are all reported closed. *)
Definition key_closed (w : RunWriter) (k : FileKey) (fs : list bytes) : Prop :=
  files w !! k = None /\
  exists t, groups_on_disk w k t
    (fst (cut (max_file_bytes w) fs) ++ [snd (cut (max_file_bytes w) fs)]).

(** ** Operations and the keys they touch *)

(** Nothing of any key changes but the answers left, the directories and counters. *)
Definition same_files (w w' : RunWriter) : Prop :=
  same_config w w' /\ files w' = files w /\ closed_files w' = closed_files w /\
  disk (os w') = disk (os w).

(** Only the files of key [k] change. *)
Definition only_key (k : FileKey) (w w' : RunWriter) : Prop :=
  same_config w w' /\
  forall k', key_ok k' -> k' <> k ->
    files w' !! k' = files w !! k' /\ key_reports k' w' = key_reports k' w /\
    forall t i, disk (os w') !! file_path w k' t i = disk (os w) !! file_path w k' t i.

Lemma same_files_only k w w' : same_files w w' -> only_key k w w'.
Proof.
  intros (Hc & Hf & Hr & Hd). split; [done |]. intros k' _ _. unfold key_reports.
  by rewrite Hf, Hr, Hd.
Qed.

Lemma only_key_trans k w1 w2 w3 : only_key k w1 w2 -> only_key k w2 w3 -> only_key k w1 w3.
Proof.
  intros [C1 H1] [C2 H2]. split; [by eapply same_config_trans |]. intros k' Hk Hne.
  destruct (H1 k' Hk Hne) as (F1 & R1 & D1), (H2 k' Hk Hne) as (F2 & R2 & D2).
  split_and!; [congruence | congruence |]. intros t i. specialize (D2 t i). rewrite (same_config_path w1 w2) in D2 by done.
  by rewrite D2, D1.
Qed.

(** A key's state is a matter of its entry, its reports and its files only. *)
Definition same_key (k : FileKey) (w w' : RunWriter) : Prop :=
  same_config w w' /\ files w' !! k = files w !! k /\ key_reports k w' = key_reports k w /\
  forall t i, disk (os w') !! file_path w k t i = disk (os w) !! file_path w k t i.

Lemma only_key_same k k' w w' : only_key k w w' -> key_ok k' -> k' <> k -> same_key k' w w'.
Proof. intros [Hc H] Hk Hne. destruct (H k' Hk Hne) as (? & ? & ?). by split_and!. Qed.

Lemma groups_same k w w' t gs : same_key k w w' -> groups_on_disk w k t gs -> groups_on_disk w' k t gs.
Proof.
  intros (Hc & Hf & Hr & Hd) [H1 H2]. split.
  - intros i g Hg. rewrite (same_config_path w w') by done. rewrite Hd. by apply H1.
  - rewrite Hr, H2. apply imap_ext. intros i g _. unfold group_report.
    by rewrite (same_config_path w w').
Qed.

Lemma key_unused_same k w w' fs : same_key k w w' -> key_unused w k fs -> key_unused w' k fs.
Proof. intros (Hc & Hf & Hr & Hd) (? & ? & ?). split_and!; congruence. Qed.

Lemma key_open_same k w w' fs : same_key k w w' -> key_open w k fs -> key_open w' k fs.
Proof.
  intros Hs (t & f & Hf & Hg & [E1 E2 E3 E4 E5 E6 (d & E7 & E8)]).
  pose proof Hs as (Hc & Hfs & Hr & Hd). pose proof Hc as (_ & _ & Hm).
  exists t, f. rewrite Hm. split_and!; [congruence | by eapply groups_same |].
  constructor; try done.
  - by rewrite (same_config_path w w').
  - exists d. split; [| done]. rewrite E4, Hd, <- E4. done.
Qed.

Lemma key_closed_same k w w' fs : same_key k w w' -> key_closed w k fs -> key_closed w' k fs.
Proof.
  intros Hs (Hf & t & Hg). pose proof Hs as ((_ & _ & Hm) & Hfs & _). split; [congruence |].
  exists t. rewrite Hm. by eapply groups_same.
Qed.

(** ** System calls and the buffered writer *)

Lemma syscall_disk o : disk (snd (syscall o)) = disk o.
Proof. unfold syscall. by destruct (io o). Qed.

Lemma os_write_ok p bs o :
  match os_write p bs o with
  | (Ok _, o') => disk o' = <[p := default [] (disk o !! p) ++ bs]> (disk o)
  | (Err _, _) => True
  end.
Proof.
  unfold os_write. pose proof (syscall_disk o) as Hd. destruct (syscall o) as [[| n e] o']; [| done].
  cbn [snd] in Hd. cbn. by rewrite Hd.
Qed.

(** What a successful write does to file and buffer together. *)
Definition appended (p : path) (bs buffered buffered' : bytes) (o o' : Os) : Prop :=
  (forall d, disk o !! p = Some d -> exists d', disk o' !! p = Some d' /\
     d' ++ buffered' = d ++ buffered ++ bs) /\
  forall q, q <> p -> disk o' !! q = disk o !! q.

Lemma appended_refl p b o : appended p [] b b o o.
Proof. split; [| done]. intros d Hd. exists d. by rewrite app_nil_r. Qed.

Lemma appended_trans p bs1 bs2 b1 b2 b3 o1 o2 o3 :
  appended p bs1 b1 b2 o1 o2 -> appended p bs2 b2 b3 o2 o3 -> appended p (bs1 ++ bs2) b1 b3 o1 o3.
Proof.
  intros [H1 Q1] [H2 Q2]. split; [| intros q Hq; by rewrite Q2, Q1].
  intros d Hd. destruct (H1 d Hd) as (d1 & Hd1 & E1), (H2 d1 Hd1) as (d2 & Hd2 & E2).
  exists d2. split; [done |]. rewrite E2, app_assoc, E1, <- !app_assoc. done.
Qed.

(** Writing [bs] past an empty buffer, and emptying a buffer. *)
Lemma os_write_appended p bs o o' u :
  os_write p bs o = (Ok u, o') -> appended p bs [] [] o o' /\ appended p [] bs [] o o'.
Proof.
  intros E. pose proof (os_write_ok p bs o) as H. rewrite E in H.
  assert (Hq : forall q, q <> p -> disk o' !! q = disk o !! q).
  { intros q Hq. rewrite H. by rewrite lookup_insert_ne. }
  split; (split; [| done]); intros d Hd; rewrite H, lookup_insert_eq, Hd; cbn;
    exists (d ++ bs); by rewrite ?app_nil_r.
Qed.

Lemma bw_flush_buf_ok p b o :
  match bw_flush_buf p b o with
  | (Ok _, b', o') => b' = [] /\ appended p [] b [] o o'
  | (Err _, _, _) => True
  end.
Proof.
  unfold bw_flush_buf. destruct b as [| x b]; [split; [done | apply appended_refl] |].
  destruct (os_write p (x :: b) o) as [[u | [n e]] o'] eqn:E; [| done].
  split; [done |]. by apply os_write_appended in E as [_ E].
Qed.

Lemma bw_flush_sync_ok p b o :
  match bw_flush_sync p b o with
  | (Ok _, b', o') => b' = [] /\ appended p [] b [] o o'
  | (Err _, _, _) => True
  end.
Proof.
  unfold bw_flush_sync. pose proof (bw_flush_buf_ok p b o) as H.
  destruct (bw_flush_buf p b o) as [[[u | e] b'] o1]; [| done]. destruct H as [-> [H1 H2]].
  unfold os_sync_all. pose proof (syscall_disk o1) as Hd.
  destruct (syscall o1) as [[| n e] o2]; [| done]. cbn [snd] in Hd.
  split; [done |]. split; intros; rewrite Hd; eauto.
Qed.

Lemma bw_write_all_ok p bs b o :
  match bw_write_all p bs b o with
  | (Ok _, b', o') => appended p bs b b' o o'
  | (Err _, _, _) => True
  end.
Proof.
  unfold bw_write_all.
  assert (Hbuf : forall b o, appended p bs b (b ++ bs) o o).
  { intros b0 o0. split; [| done]. intros d Hd. by exists d. }
  destruct (len bs <? BUF_CAPACITY - len b); [apply Hbuf |].
  destruct (BUF_CAPACITY - len b <? len bs) eqn:Hspare.
  - pose proof (bw_flush_buf_ok p b o) as H.
    destruct (bw_flush_buf p b o) as [[[u | e] b1] o1]; [| done]. destruct H as [-> H].
    destruct (BUF_CAPACITY <=? len bs).
    + destruct (os_write p bs o1) as [[u' | [n e]] o2] eqn:E; [| done].
      apply os_write_appended in E as [E _]. by apply (appended_trans p [] bs b [] [] o o1).
    + apply (appended_trans p [] bs b [] ([] ++ bs) o o1 o1); [done | apply Hbuf].
  - destruct (BUF_CAPACITY <=? len bs) eqn:Hbig; [| apply Hbuf].
    destruct (os_write p bs o) as [[u' | [n e]] o2] eqn:E; [| done].
    assert (b = []) as ->.
    { destruct b as [| x b]; [done |]. rewrite len_cons in Hspare. pose proof (len_nonneg b). lia. }
    by apply os_write_appended in E as [E _].
Qed.

(** ** Success or counted failure *)

(** An operation either succeeds with [Q] and no new write error, or fails and
    has counted one. *)
Definition good (w : RunWriter) (x : result unit WriteError * RunWriter) (Q : RunWriter -> Prop)
    : Prop :=
  match fst x with
  | Ok _ => write_errors (snd x) = write_errors w /\ Q (snd x)
  | Err _ => write_errors w < write_errors (snd x)
  end.

Lemma good_bind w (m : W unit) (k : unit -> W unit) (P Q : RunWriter -> Prop) :
  good w (m w) P ->
  (forall w1, P w1 -> good w1 (k tt w1) Q) -> good w (bind m k w) Q.
Proof.
  unfold good, bind. intros Hm Hk. destruct (m w) as [[[] | e] w1]; cbn [fst snd] in *; [| done].
  destruct Hm as [He HP]. specialize (Hk w1 HP). destruct (k tt w1) as [[[] | e] w2]; cbn [fst snd] in *.
  - destruct Hk. split; [congruence | done].
  - lia.
Qed.

Lemma good_mono w x (P Q : RunWriter -> Prop) : good w x P -> (forall w', P w' -> Q w') -> good w x Q.
Proof. unfold good. intros H HPQ. destruct (fst x); [| done]. destruct H. eauto. Qed.

Lemma ensure_run_dir_good w : good w (ensure_run_dir w) (same_files w).
Proof.
  unfold ensure_run_dir. destruct (run_dir_created w); [by split |].
  unfold os_create_dir_all. pose proof (syscall_disk (os w)) as Hd.
  destruct (syscall (os w)) as [[| n e] o]; cbn [snd] in Hd; unfold good; cbn; [| lia].
  split; [done |]. by split_and!.
Qed.

Lemma ensure_ctrl_dir_good w : good w (ensure_ctrl_dir w) (same_files w).
Proof.
  unfold ensure_ctrl_dir. destruct (ctrl_dir_created w); [by split |].
  unfold os_create_dir_all. pose proof (syscall_disk (os w)) as Hd.
  destruct (syscall (os w)) as [[| n e] o]; cbn [snd] in Hd; unfold good; cbn; [| lia].
  split; [done |]. by split_and!.
Qed.

(** The new entry and the truncated file of [open_new_file]. *)
Definition opened (k : FileKey) (t : string) (i : Z) (w w' : RunWriter) : Prop :=
  only_key k w w' /\
  files w' !! k = Some (mkOutputFile k t i 0 0 [] (file_path w k t i)) /\
  closed_files w' = closed_files w /\
  disk (os w') = <[file_path w k t i := []]> (disk (os w)).

Lemma open_new_file_good w k t i : key_ok k -> good w (open_new_file k t i w) (opened k t i w).
Proof.
  intros Hk. unfold open_new_file. apply (good_bind w _ _ (same_files w)).
  { destruct (is_ctrl k); [apply ensure_ctrl_dir_good | by split]. }
  intros w1 (Hc & Hf & Hr & Hd). unfold os_file_create.
  pose proof (syscall_disk (os w1)) as Hd1.
  destruct (syscall (os w1)) as [[| n e] o]; cbn [snd] in Hd1; unfold good; cbn; [| lia].
  split; [done |]. unfold opened. cbn. rewrite (same_config_path w w1) by done.
  rewrite Hf, Hd1, Hd. split_and!; [| by rewrite lookup_insert_eq | done | done].
  split; [done |]. intros k' Hk' Hne. cbn. split_and!.
  - rewrite lookup_insert_ne by done. by rewrite Hf.
  - unfold key_reports. cbn. by rewrite Hr.
  - intros t' i'. rewrite Hd1, Hd, lookup_insert_ne; [done |]. intros E.
    apply file_path_key in E; [congruence | done | done].
Qed.

(** A reports list grows by one report of its own key. *)
Lemma key_reports_snoc k w w' r :
  closed_files w' = closed_files w ++ [r] ->
  key_reports k w' = key_reports k w ++ (if of_report_key k r then [r] else []).
Proof.
  intros E. unfold key_reports. rewrite E, filter_app. f_equal. rewrite filter_cons.
  by destruct (of_report_key k r).
Qed.

Lemma of_report_key_report k f closed : of_key f = k -> of_report_key k (report f closed) = true.
Proof. intros <-. unfold of_report_key. by rewrite bool_decide_true. Qed.

Lemma of_report_key_ne k k' f closed :
  of_key f = k -> k' <> k -> of_report_key k' (report f closed) = false.
Proof.
  intros <- Hne. unfold of_report_key. apply bool_decide_false. cbn. intros [Hc Ha].
  apply Hne. destruct k', (of_key f); cbn in *; congruence.
Qed.

(** A closed entry's report is its group's. *)
Lemma entry_report w k t (gs : list (list bytes)) cur f :
  open_entry w k t (length gs) cur f ->
  report f true = group_report w k t (length gs) cur.
Proof.
  intros [<- E2 E3 E4 E5 E6 _]. unfold report, group_report. by rewrite E3, E4, E5, E6.
Qed.

Lemma groups_snoc w w' k t (gs : list (list bytes)) cur f :
  key_ok k -> groups_on_disk w k t gs -> open_entry w k t (length gs) cur f ->
  same_config w w' -> closed_files w' = closed_files w ++ [report f true] ->
  (forall i, Z.of_nat i <> Z.of_nat (length gs) ->
    disk (os w') !! file_path w k t (Z.of_nat i) = disk (os w) !! file_path w k t (Z.of_nat i)) ->
  disk (os w') !! of_path f = Some (concat cur) ->
  groups_on_disk w' k t (gs ++ [cur]).
Proof.
  intros Hk [G1 G2] He Hc Hr Hd Hcur. pose proof He as [E1 _ _ E4 _ _ _]. split.
  - intros i g Hg. rewrite (same_config_path w w') by done.
    apply lookup_app_Some in Hg as [Hg | [Hlen Hg]].
    + rewrite Hd; [by apply G1 |]. apply lookup_lt_Some in Hg. lia.
    + apply list_lookup_singleton_Some in Hg as [Hi <-].
      replace i with (length gs) by lia. by rewrite <- E4.
  - rewrite (key_reports_snoc k w w' (report f true)) by done.
    rewrite (of_report_key_report k f true E1), G2, imap_app. cbn [imap]. f_equal.
    + apply imap_ext. intros i g _. unfold group_report. by rewrite (same_config_path w w').
    + rewrite (entry_report w k t gs cur f) by done. unfold group_report.
      rewrite (same_config_path w w') by done. by rewrite Nat.add_0_r.
Qed.

Lemma only_key_write k w w' f bs b b' :
  key_ok k -> same_config w w' -> of_path f = file_path w k (ts f) (idx f) ->
  (forall k', k' <> k -> files w' !! k' = files w !! k') ->
  (forall k', k' <> k -> key_reports k' w' = key_reports k' w) ->
  appended (of_path f) bs b b' (os w) (os w') -> only_key k w w'.
Proof.
  intros Hk Hc Hp Hf Hr [_ Hq]. split; [done |]. intros k' Hk' Hne.
  split_and!; [by apply Hf | by apply Hr |]. intros t i. apply Hq. rewrite Hp. intros E.
  by apply file_path_key in E.
Qed.

Lemma rotate_good w k t (gs : list (list bytes)) cur f :
  key_ok k -> files w !! k = Some f -> groups_on_disk w k t gs ->
  open_entry w k t (length gs) cur f ->
  good w (rotate k w) (fun w' => only_key k w w' /\
    exists f', files w' !! k = Some f' /\ groups_on_disk w' k t (gs ++ [cur]) /\
      open_entry w' k t (length (gs ++ [cur])) [] f').
Proof.
  intros Hk Hf Hg He. unfold rotate. rewrite Hf.
  pose proof (bw_flush_sync_ok (of_path f) (file f) (os w)) as Hfl.
  destruct (bw_flush_sync (of_path f) (file f) (os w)) as [[[u | e] b'] o']; [| unfold good; cbn; lia].
  destruct Hfl as [-> Happ]. cbv zeta.
  pose proof He as [E1 E2 E3 E4 E5 E6 (d & E7 & E8)].
  set (f1 := f <| file := [] |>).
  set (w1 := _ <| closed_files ::= _ |>).
  assert (Hc1 : same_config w w1) by done.
  assert (Hr1 : closed_files w1 = closed_files w ++ [report f true]) by done.
  assert (Hcur : disk (os w1) !! of_path f = Some (concat cur)).
  { destruct Happ as [Ha _]. destruct (Ha d E7) as (d' & Hd' & Ed'). cbn.
    rewrite !app_nil_r in Ed'. cbn in Ed'. by rewrite Hd', Ed', E8. }
  assert (Hg1 : groups_on_disk w1 k t (gs ++ [cur])).
  { apply (groups_snoc w w1 k t gs cur f); try done. intros i Hi. apply Happ. rewrite E4.
    intros E. apply file_path_idx in E; lia. }
  assert (Ho1 : only_key k w w1).
  { apply (only_key_write k w w1 f [] (file f) []); try done.
    - by rewrite E4, E2, E3.
    - intros k' Hne. cbn. rewrite lookup_delete_ne, lookup_insert_ne by done. done.
    - intros k' Hne. rewrite (key_reports_snoc k' w w1 (report f true)) by done.
      rewrite (of_report_key_ne k k' f true E1 Hne). by rewrite app_nil_r. }
  assert (Hwe : write_errors w1 = write_errors w) by done. clearbody w1.
  change (ts f1) with (ts f). change (idx f1) with (idx f).
  pose proof (open_new_file_good w1 k (ts f) (idx f + 1) Hk) as Hop.
  assert (He1 : good w1 (open_new_file k (ts f) (idx f + 1) w1) (fun w' => only_key k w w' /\
    exists f', files w' !! k = Some f' /\ groups_on_disk w' k t (gs ++ [cur]) /\
      open_entry w' k t (length (gs ++ [cur])) [] f')).
  { eapply good_mono; [exact Hop |]. intros w2 (Ho & Hf2 & Hr2 & Hd2).
    split; [by eapply only_key_trans |].
    pose proof Ho as [Hc2 _].
    assert (Hi : idx f + 1 = Z.of_nat (length (gs ++ [cur]))) by (rewrite length_app; cbn; lia).
    rewrite E2, Hi in *.
    eexists. split; [exact Hf2 |]. split.
    - destruct Hg1 as [G1 G2]. split.
      + intros i g Hgi. rewrite (same_config_path w1 w2) by done. rewrite Hd2.
        rewrite lookup_insert_ne; [by apply G1 |]. intros E. apply lookup_lt_Some in Hgi.
        apply file_path_idx in E; lia.
      + unfold key_reports in *. rewrite Hr2, G2. apply imap_ext. intros i g _.
        unfold group_report. by rewrite (same_config_path w1 w2).
    - constructor; try done; cbn; [by rewrite (same_config_path w1 w2) |].
      exists []. rewrite Hd2, lookup_insert_eq. done. }
  unfold good in *. by rewrite <- Hwe.
Qed.

Lemma same_files_key k w w' : same_files w w' -> same_key k w w'.
Proof. intros (Hc & Hf & Hr & Hd). unfold same_key, key_reports. by rewrite Hf, Hr, Hd. Qed.

(** The key's state during the run. *)
Definition key_live (w : RunWriter) (k : FileKey) (fs : list bytes) : Prop :=
  key_unused w k fs \/ key_open w k fs.

Lemma key_live_same k w w' fs : same_key k w w' -> key_live w k fs -> key_live w' k fs.
Proof. intros Hs [H | H]; [left; by eapply key_unused_same | right; by eapply key_open_same]. Qed.

Lemma create_file_good w k fs :
  key_ok k -> key_unused w k fs ->
  good w (create_file k w) (fun w' => only_key k w w' /\ key_open w' k fs).
Proof.
  intros Hk (-> & Hn & Hr). unfold create_file. destruct (local_timestamp (os w)) as [t o] eqn:Ht.
  set (w1 := w <| os := o |>).
  assert (Hs : same_files w w1).
  { unfold local_timestamp in Ht. injection Ht as _ <-. by split_and!. }
  change (good w1 (open_new_file k t 0 w1) (fun w' => only_key k w w' /\ key_open w' k [])).
  apply (good_mono w1 _ (opened k t 0 w1)); [by apply open_new_file_good |].
  intros w2 (Ho & Hf2 & Hr2 & Hd2). split.
  { eapply only_key_trans; [by apply same_files_only | exact Ho]. }
  pose proof Ho as [Hc2 _]. destruct Hc2 as (? & ? & Hm) eqn:Ec. clear Ec.
  exists t. eexists. split; [exact Hf2 |]. cbn [cut fold_left fst snd]. split.
  - split; [intros i g Hg; by destruct i |]. unfold key_reports in *. rewrite Hr2.
    destruct Hs as (_ & _ & -> & _). by rewrite Hr.
  - constructor; try done; cbn.
    + by rewrite (same_config_path w1 w2).
    + exists []. rewrite Hd2, lookup_insert_eq. done.
Qed.

Lemma ensure_file_good w k fs :
  key_ok k -> key_live w k fs ->
  good w ((fun w => match files w !! k with Some _ => (Ok tt, w) | None => create_file k w end) w)
    (fun w' => only_key k w w' /\ key_open w' k fs).
Proof.
  intros Hk [Hu | Ho]; cbv beta.
  - pose proof Hu as (_ & -> & _). by apply create_file_good.
  - pose proof Ho as (t & f & -> & _). unfold good. cbn. split; [done |].
    split; [by apply same_files_only | done].
Qed.

(** The entry and file of the key after one frame went through the buffer. *)
Lemma entry_written w k t n cur f frame b' o' w' f' :
  open_entry w k t n cur f -> appended (of_path f) frame (file f) b' (os w) o' ->
  same_config w w' -> os w' = o' ->
  of_key f' = of_key f -> ts f' = ts f -> idx f' = idx f -> of_path f' = of_path f ->
  file f' = b' -> cur_bytes f' = len frame + cur_bytes f -> frames f' = frames f + 1 ->
  open_entry w' k t n (cur ++ [frame]) f'.
Proof.
  intros [E1 E2 E3 E4 E5 E6 (d & E7 & E8)] [Ha _] Hc Ho K T I P B C F.
  constructor; rewrite ?K, ?T, ?I, ?P, ?C, ?F; try done.
  - by rewrite (same_config_path w w').
  - rewrite E5, concat_app, len_app. cbn [concat]. rewrite app_nil_r. lia.
  - rewrite E6, len_app. done.
  - destruct (Ha d E7) as (d' & Hd' & Ed'). exists d'. rewrite Ho, B. split; [done |].
    rewrite Ed', concat_app. cbn [concat]. by rewrite app_nil_r, app_assoc, E8.
Qed.

Lemma write_to_good w k frame fs :
  key_ok k -> key_live w k fs ->
  good w (write_to k frame w) (fun w' => only_key k w w' /\ key_open w' k (fs ++ [frame])).
Proof.
  intros Hk Hl. unfold write_to. apply (good_bind w _ _ (same_files w)); [apply ensure_run_dir_good |].
  intros w1 Hs1. assert (Hl1 : key_live w1 k fs).
  { eapply key_live_same; [by apply same_files_key | done]. }
  eapply good_mono with (P := fun w' => only_key k w1 w' /\ key_open w' k (fs ++ [frame])).
  2: { intros w' [Ho Hop]. split; [| done]. eapply only_key_trans; [by apply same_files_only | done]. }
  apply (good_bind w1 _ _ (fun w' => only_key k w1 w' /\ key_open w' k fs)).
  { by apply ensure_file_good. }
  intros w2 [Ho2 (t & f & Hf & Hg & He)]. rewrite Hf.
  pose proof (bw_write_all_ok (of_path f) frame (file f) (os w2)) as Hw.
  destruct (bw_write_all (of_path f) frame (file f) (os w2)) as [[[u | e] b'] o'];
    [| unfold good; cbn; lia].
  cbv zeta. set (f' := f <| file := b' |> <| cur_bytes ::= Z.add (len frame) |> <| frames ::= incr |>).
  set (w3 := match k with Asad _ _ => _ | Ctrl _ => _ end).
  set (full := fst (cut (max_file_bytes w2) fs)) in *.
  set (cur := snd (cut (max_file_bytes w2) fs)) in *.
  assert (Hcut : cut (max_file_bytes w2) (fs ++ [frame]) =
    if max_file_bytes w2 <? len (concat (cur ++ [frame])) then (full ++ [cur ++ [frame]], [])
    else (full, cur ++ [frame])) by (by rewrite cut_snoc).
  assert (H3 : same_config w2 w3 /\ files w3 = <[k := f']> (<[k := f <| file := b' |>]> (files w2)) /\
    closed_files w3 = closed_files w2 /\ os w3 = o' /\ write_errors w3 = write_errors w2).
  { subst w3. by destruct k. }
  destruct H3 as (Hc3 & Hf3 & Hr3 & Ho3 & Hwe3). clearbody w3.
  pose proof He as [E1 E2 E3 E4 E5 E6 E7].
  assert (He3 : open_entry w3 k t (length full) (cur ++ [frame]) f').
  { by apply (entry_written w2 k t _ cur f frame b' o' w3 f'). }
  assert (Hk3 : only_key k w2 w3).
  { apply (only_key_write k w2 w3 f frame (file f) b'); try done.
    - by rewrite E4, E2, E3.
    - intros k' Hne. by rewrite Hf3, !lookup_insert_ne.
    - intros k' Hne. unfold key_reports. by rewrite Hr3.
    - by rewrite Ho3. }
  assert (Hg3 : groups_on_disk w3 k t full).
  { destruct Hg as [G1 G2]. split.
    - intros i g Hi. rewrite (same_config_path w2 w3) by done. rewrite Ho3.
      rewrite (proj2 Hw); [by apply G1 |]. rewrite E4. intros E. apply lookup_lt_Some in Hi.
      apply file_path_idx in E; lia.
    - unfold key_reports in *. rewrite Hr3, G2. apply imap_ext. intros i g _.
      unfold group_report. by rewrite (same_config_path w2 w3). }
  pose proof Hc3 as (_ & _ & Hm3).
  assert (Hlook : files w3 !! k = Some f') by (by rewrite Hf3, lookup_insert_eq).
  assert (Hbytes : cur_bytes f' = len (concat (cur ++ [frame]))) by apply He3.
  rewrite Hm3, Hbytes. destruct (max_file_bytes w2 <? len (concat (cur ++ [frame]))).
  - pose proof (rotate_good w3 k t full (cur ++ [frame]) f' Hk Hlook Hg3 He3) as Hrot.
    unfold good in *. rewrite <- Hwe3. destruct (fst (rotate k w3)); [| done].
    destruct Hrot as [Hwe4 (Hk4 & f4 & Hf4 & Hg4 & He4)]. split; [done |].
    split; [do 2 (eapply only_key_trans; [done |]); done |].
    pose proof Hk4 as [(_ & _ & Hm4) _].
    exists t, f4. rewrite Hm4, Hm3, Hcut. by split_and!.
  - unfold good. cbn. split; [done |]. split; [by eapply only_key_trans |].
    exists t, f'. rewrite Hm3, Hcut. by split_and!.
Qed.

(** ** Batches *)

(** The file a frame belongs to. *)
Definition route (source : Z) (frame : bytes) : FileKey :=
  match Decode.peek_asad frame with
  | Val (Some asad) => Asad source asad
  | _ => Ctrl source
  end.

Definition routed (source : Z) (frames : list bytes) : list (FileKey * bytes) :=
  map (fun f => (route source f, f)) frames.

Definition frames_for (k : FileKey) (log : list (FileKey * bytes)) : list bytes :=
  map snd (filter (fun e => fst e = k) log).

Lemma frames_for_app k l m : frames_for k (l ++ m) = frames_for k l ++ frames_for k m.
Proof. unfold frames_for. by rewrite filter_app, map_app. Qed.

Lemma frames_for_one k k' f : frames_for k [(k', f)] = if decide (k' = k) then [f] else [].
Proof. unfold frames_for. rewrite filter_cons. cbn [fst]. by destruct (decide (k' = k)). Qed.

(** [log] is every frame written so far: each key's files hold its share. *)
Record writer_ok (w : RunWriter) (log : list (FileKey * bytes)) : Prop := {
  wo_live : forall k, key_ok k -> key_live w k (frames_for k log);
  wo_keys : forall k, is_Some (files w !! k) -> key_ok k;
}.

Lemma new_writer_ok root run max o : writer_ok (new root run max o) [].
Proof. split; [by left | intros k [f Hf]; done]. Qed.

(** Operations that do not look at the files. *)
Lemma writer_ok_same w w' log : same_files w w' -> writer_ok w log -> writer_ok w' log.
Proof.
  intros Hs [Hl Hk]. split; [| destruct Hs as (_ & -> & _); exact Hk].
  intros k Hok. eapply key_live_same; [by apply same_files_key | by apply Hl].
Qed.

Lemma key_open_entry w k fs : key_open w k fs -> is_Some (files w !! k).
Proof. intros (t & f & -> & _). by eexists. Qed.

(** Which entries exist: those there were, and the written key's. *)
Definition keys_within (k : FileKey) (w w' : RunWriter) : Prop :=
  forall k', is_Some (files w' !! k') -> k' = k \/ is_Some (files w !! k').

Lemma open_new_file_keys k t i w : keys_within k w (snd (open_new_file k t i w)).
Proof.
  intros k' Hs. unfold open_new_file, bind, ret, ensure_ctrl_dir, os_create_dir_all, os_file_create in Hs.
  destruct (decide (k' = k)) as [| Hne]; [by left |]. right.
  destruct (is_ctrl k); [destruct (ctrl_dir_created w); [| destruct (syscall (os w)) as [[] ?]] |];
    cbn in Hs; try done;
    match type of Hs with context [syscall ?o] => destruct (syscall o) as [[] ?] end;
    cbn in Hs; try done; by rewrite lookup_insert_ne in Hs.
Qed.

Lemma rotate_keys k w : keys_within k w (snd (rotate k w)).
Proof.
  intros k' Hs. destruct (decide (k' = k)) as [| Hne]; [by left |]. right. unfold rotate in Hs.
  destruct (files w !! k); [| done]. destruct (bw_flush_sync _ _ _) as [[[|] ?] ?].
  - apply open_new_file_keys in Hs as [| Hs]; [done |]. cbn in Hs.
    by rewrite lookup_delete_ne, lookup_insert_ne in Hs.
  - cbn in Hs. by rewrite lookup_insert_ne in Hs.
Qed.

Lemma write_to_keys k frame w : keys_within k w (snd (write_to k frame w)).
Proof.
  intros k' Hs. destruct (decide (k' = k)) as [| Hne]; [by left |]. right.
  unfold write_to, bind in Hs.
  assert (H1 : forall k0, files (snd (ensure_run_dir w)) !! k0 = files w !! k0).
  { intros k0. unfold ensure_run_dir, os_create_dir_all. destruct (run_dir_created w); [done |].
    by destruct (syscall (os w)) as [[] ?]. }
  destruct (ensure_run_dir w) as [[u | e] w1]; cbn [snd] in H1; [| by rewrite <- H1].
  rewrite <- H1. clear H1.
  assert (H2 : keys_within k w1 (snd match files w1 !! k with
    | Some _ => (Ok tt, w1) | None => create_file k w1 end)).
  { destruct (files w1 !! k); [by right |]. unfold create_file, local_timestamp.
    intros k0 Hk0. by apply open_new_file_keys in Hk0. }
  destruct (match files w1 !! k with Some _ => (Ok tt, w1) | None => create_file k w1 end)
    as [[u2 | e] w2]; cbn [snd] in H2; [| by destruct (H2 k' Hs)].
  destruct (H2 k') as [| H3]; [| done | exact H3]. clear H2.
  destruct (files w2 !! k) as [f |] eqn:Ef; [| done].
  destruct (bw_write_all _ _ _ _) as [[[|] ?] ?]; cbn in Hs.
  - set (w3 := match k with Asad _ _ => _ | Ctrl _ => _ end) in Hs.
    assert (H3 : keys_within k w2 w3).
    { intros k0 Hk0. destruct (decide (k0 = k)) as [| Hne0]; [by left |]. right.
      subst w3. destruct k; cbn in Hk0; by rewrite !lookup_insert_ne in Hk0. }
    destruct (_ <? _); [apply rotate_keys in Hs as [| Hs]; [done |] |];
      by destruct (H3 k' Hs).
  - by rewrite lookup_insert_ne in Hs.
Qed.

Lemma write_frame_good source frame w log :
  is_bytes frame -> 0 <= source -> writer_ok w log ->
  exists r w', write_frame source frame w = Val (r, w') /\
    good w (r, w') (fun w' => same_config w w' /\ writer_ok w' (log ++ routed source [frame])).
Proof.
  intros Hb Hs Hok. unfold write_frame, routed, route. cbn [map].
  destruct (Decode.peek_asad_val frame Hb) as (a & -> & Ha). cbn [rust_bind].
  assert (Hgen : forall k w1, key_ok k -> same_files w w1 -> write_errors w1 = write_errors w ->
    good w (write_to k frame w1)
      (fun w' => same_config w w' /\ writer_ok w' (log ++ [(k, frame)]))).
  { intros k w1 Hk Hs1 Hwe. pose proof (writer_ok_same w w1 log Hs1 Hok) as [Hl1 Hk1].
    pose proof (write_to_good w1 k frame _ Hk (Hl1 k Hk)) as Hg.
    unfold good in *. rewrite <- Hwe. destruct (fst (write_to k frame w1)); [| done].
    destruct Hg as [He [Honly Hopen]]. split; [done |].
    split; [eapply same_config_trans; [apply Hs1 | apply Honly] |]. split.
    - intros k' Hk'. rewrite frames_for_app, frames_for_one.
      destruct (decide (k = k')) as [<- | Hne]; [by right |]. rewrite app_nil_r.
      eapply key_live_same; [eapply only_key_same; [exact Honly | done | done] |]. by apply Hl1.
    - intros k' Hk'. apply write_to_keys in Hk' as [-> | Hk']; [done | by apply Hk1]. }
  destruct a as [a |].
  - specialize (Ha a eq_refl). unfold is_byte in Ha.
    destruct (write_to (Asad source a) frame w) as [r w'] eqn:E.
    exists r, w'. split; [done |]. rewrite <- E. apply Hgen; [cbn; lia | by split_and! | done].
  - set (w1 := w <| ctrl_frames ::= incr |>).
    destruct (write_to (Ctrl source) frame w1) as [r w'] eqn:E.
    exists r, w'. split; [done |]. rewrite <- E. apply Hgen; [cbn; lia | by split_and! | done].
Qed.

Lemma write_frames_good source frames w log :
  Forall is_bytes frames -> 0 <= source -> writer_ok w log ->
  exists r w', write_frames source frames w = Val (r, w') /\
    good w (r, w') (fun w' => same_config w w' /\ writer_ok w' (log ++ routed source frames)).
Proof.
  intros Hb Hs. revert w log. induction Hb as [| f fs Hf _ IH]; intros w log Hok; cbn [write_frames].
  { exists (Ok tt), w. split; [done |]. split; [done |]. rewrite app_nil_r. by split. }
  destruct (write_frame_good source f w log Hf Hs Hok) as (r & w1 & -> & Hg). cbn [rust_bind].
  destruct r as [[] | e].
  - destruct Hg as [He [Hc Hok1]]. cbn [snd] in *.
    destruct (IH w1 _ Hok1) as (r & w2 & E & Hg2). exists r, w2. split; [done |].
    unfold good in *. destruct (fst (r, w2)); cbn [snd] in *; [| lia].
    destruct Hg2 as [He2 [Hc2 Hok2]]. split; [lia |]. split; [by eapply same_config_trans |].
    rewrite <- app_assoc in Hok2. exact Hok2.
  - exists (Err e), w1. by split.
Qed.

Lemma check_sequence_files source sequence w :
  same_files w (check_sequence source sequence w) /\
  write_errors (check_sequence source sequence w) = write_errors w.
Proof. unfold check_sequence. cbv zeta. by destruct (negb _). Qed.

Lemma handle_batch_good source run sequence frames w log :
  Forall is_bytes frames -> 0 <= source -> writer_ok w log ->
  exists r w', handle_batch source run sequence frames w = Val (r, w') /\
    good w (r, w') (fun w' => same_config w w' /\
      writer_ok w' (log ++ if run =? run_number w then routed source frames else [])).
Proof.
  intros Hb Hs Hok. unfold handle_batch. destruct (run =? run_number w); cbn [negb].
  - destruct (check_sequence_files source sequence w) as [Hs1 He1].
    destruct (write_frames_good source frames _ log Hb Hs (writer_ok_same _ _ _ Hs1 Hok))
      as (r & w' & E & Hg).
    exists r, w'. split; [done |]. unfold good in *. rewrite He1 in Hg.
    destruct (fst (r, w')); [| done]. destruct Hg as (? & Hc & ?). split; [done |].
    split; [| done]. eapply same_config_trans; [apply Hs1 | exact Hc].
  - eexists _, _. split; [done |]. split; [done |]. rewrite app_nil_r. split; [done |].
    by apply (writer_ok_same w).
Qed.

(** ** Flushing and closing *)

(** Handing buffered bytes to the file changes no key's content. *)
Lemma flush_entry_same w k f o' fs :
  key_ok k -> files w !! k = Some f -> key_open w k fs ->
  appended (of_path f) [] (file f) [] (os w) o' ->
  let w' := w <| os := o' |> <| files ::= <[k := f <| file := [] |>]> |> in
  only_key k w w' /\ key_open w' k fs.
Proof.
  intros Hk Hf (t & f0 & Hf0 & Hg & He) Ha. cbv zeta. rewrite Hf in Hf0. injection Hf0 as <-.
  set (w' := _ <| files ::= _ |>).
  pose proof He as [E1 E2 E3 E4 E5 E6 (d & E7 & E8)].
  assert (Ho : only_key k w w').
  { apply (only_key_write k w w' f [] (file f) []); try done.
    - by rewrite E4, E2, E3.
    - intros k' Hne. cbn. by rewrite lookup_insert_ne. }
  split; [done |]. exists t, (f <| file := [] |>).
  change (max_file_bytes w') with (max_file_bytes w). split; [cbn; by rewrite lookup_insert_eq |]. split.
  - destruct Hg as [G1 G2]. split; [| exact G2]. intros i g Hi.
    change (disk (os w')) with (disk o').
    change (file_path w' k t (Z.of_nat i)) with (file_path w k t (Z.of_nat i)).
    rewrite (proj2 Ha); [by apply G1 |].
    rewrite E4. intros E. apply lookup_lt_Some in Hi. apply file_path_idx in E; lia.
  - constructor; try done. destruct Ha as [Ha _]. destruct (Ha d E7) as (d' & Hd' & Ed').
    exists d'. split; [exact Hd' |]. rewrite !app_nil_r in Ed'. cbn. by rewrite app_nil_r, Ed'.
Qed.

Lemma flush_keys_first keys first w :
  fst (flush_keys keys first w) = None -> first = None.
Proof.
  revert first w. induction keys as [| k keys IH]; intros first w; cbn [flush_keys]; [done |].
  destruct (files w !! k) as [f |]; [| apply IH].
  destruct (bw_flush_buf _ _ _) as [[[u | e] b] o]; intros H; apply IH in H; [done |].
  by destruct first.
Qed.

Lemma flush_keys_mono keys first w :
  let '(_, w') := flush_keys keys first w in
  write_errors w' = write_errors w /\ same_config w w' /\
  errored w' = errored w /\ seq_gaps w' = seq_gaps w.
Proof.
  revert first w. induction keys as [| k keys IH]; intros first w; cbn [flush_keys]; [done |].
  destruct (files w !! k); [| apply IH]. destruct (bw_flush_buf _ _ _) as [[r b0] o0].
  match goal with |- context [flush_keys keys ?f ?w1] => specialize (IH f w1) end.
  destruct (flush_keys _ _ _) as [f' w']. exact IH.
Qed.

Lemma flush_keys_good keys first w log :
  writer_ok w log ->
  let '(first', w') := flush_keys keys first w in
  write_errors w' = write_errors w /\ same_config w w' /\
  (first' = None -> writer_ok w' log).
Proof.
  revert first w. induction keys as [| k keys IH]; intros first w Hok; cbn [flush_keys]; [done |].
  destruct (files w !! k) as [f |] eqn:Hf; [| by apply IH].
  pose proof (bw_flush_buf_ok (of_path f) (file f) (os w)) as Hb.
  destruct (bw_flush_buf (of_path f) (file f) (os w)) as [[r b'] o'].
  set (w1 := w <| os := o' |> <| files ::= <[k := f <| file := b' |>]> |>).
  set (first1 := match r with Err e => or_first first (of_path f, e) | Ok _ => first end).
  destruct r as [u | e].
  - destruct Hb as [-> Ha].
    assert (Hk : key_ok k) by (by apply (wo_keys _ _ Hok); rewrite Hf).
    assert (Hop : key_open w k (frames_for k log)).
    { destruct (wo_live _ _ Hok k Hk) as [(_ & Hn & _) | ?]; [by rewrite Hn in Hf | done]. }
    destruct (flush_entry_same w k f o' _ Hk Hf Hop Ha) as [Ho Hop1]. fold w1 in Ho, Hop1.
    assert (Hok1 : writer_ok w1 log).
    { split.
      - intros k' Hk'. destruct (decide (k' = k)) as [-> | Hne]; [by right |].
        eapply key_live_same; [by eapply only_key_same |]. by apply (wo_live _ _ Hok).
      - intros k' Hs. destruct (decide (k' = k)) as [-> | Hne]; [done |].
        apply (wo_keys _ _ Hok). cbn in Hs. by rewrite lookup_insert_ne in Hs. }
    specialize (IH first1 w1 Hok1). exact IH.
  - pose proof (flush_keys_first keys first1 w1) as Hfirst.
    destruct (flush_keys keys first1 w1) as [first' w'] eqn:E.
    pose proof (flush_keys_mono keys first1 w1) as Hc. rewrite E in Hc. destruct Hc as (Hc1 & Hc2 & _).
    split; [done |]. split; [done |]. intros ->. cbn [fst] in Hfirst.
    specialize (Hfirst eq_refl). subst first1. by destruct first.
Qed.

Lemma flush_all_good order w log :
  writer_ok w log ->
  write_errors w <= write_errors (snd (flush_all order w)) /\
  same_config w (snd (flush_all order w)) /\
  (write_errors (snd (flush_all order w)) = write_errors w -> writer_ok (snd (flush_all order w)) log).
Proof.
  intros Hok. unfold flush_all. pose proof (flush_keys_good (order (files w)) None w log Hok) as H.
  destruct (flush_keys _ _ _) as [[[p e] |] w']; destruct H as (He & Hc & Hw); cbn.
  - split; [lia |]. split; [done |]. intros E. lia.
  - split; [lia |]. split; [done |]. intros _. by apply Hw.
Qed.

(** The end of a key: nothing was ever written, or all is on the disk. *)
Definition key_done (w : RunWriter) (k : FileKey) (fs : list bytes) : Prop :=
  key_unused w k fs \/ key_closed w k fs.

Lemma key_done_same k w w' fs : same_key k w w' -> key_done w k fs -> key_done w' k fs.
Proof. intros Hs [H | H]; [left; by eapply key_unused_same | right; by eapply key_closed_same]. Qed.

Lemma close_file_good w k fs :
  key_ok k -> key_open w k fs ->
  good w (close_file k w) (fun w' => only_key k w w' /\ key_closed w' k fs).
Proof.
  intros Hk (t & f & Hf & Hg & He). unfold close_file. rewrite Hf.
  pose proof (bw_flush_sync_ok (of_path f) (file f) (os w)) as Hfl. cbv zeta.
  change (os (w <| files ::= delete k |>)) with (os w).
  destruct (bw_flush_sync (of_path f) (file f) (os w)) as [[[u | e] b'] o']; [| unfold good; cbn; lia].
  destruct Hfl as [-> Ha]. set (w' := _ <| os := bw_drop _ _ _ |>).
  unfold good. cbn [fst snd]. split; [done |].
  pose proof He as [E1 E2 E3 E4 E5 E6 (d & E7 & E8)].
  assert (Hr : closed_files w' = closed_files w ++ [report f true]) by done.
  assert (Ho : only_key k w w').
  { apply (only_key_write k w w' f [] (file f) []); try done.
    - by rewrite E4, E2, E3.
    - intros k' Hne. cbn. by rewrite lookup_delete_ne.
    - intros k' Hne. rewrite (key_reports_snoc k' w w' (report f true)) by done.
      by rewrite (of_report_key_ne k k' f true E1 Hne), app_nil_r. }
  split; [done |]. split; [cbn; by rewrite lookup_delete_eq |].
  exists t. change (max_file_bytes w') with (max_file_bytes w).
  apply (groups_snoc w w' k t _ _ f); try done.
  - intros i Hi. apply Ha. rewrite E4. intros E. apply file_path_idx in E; lia.
  - destruct Ha as [Ha _]. destruct (Ha d E7) as (d' & Hd' & Ed').
    rewrite !app_nil_r in Ed'. cbn in Ed'. change (disk (os w')) with (disk o').
    by rewrite Hd', Ed', E8.
Qed.

(** Errors are latched together with their counters. *)
Definition latched (w w' : RunWriter) : Prop :=
  errored w' = true \/
  errored w' = errored w /\ write_errors w' = write_errors w /\ seq_gaps w' = seq_gaps w.

Lemma latched_trans w1 w2 w3 : latched w1 w2 -> latched w2 w3 -> latched w1 w3.
Proof.
  intros L1 [L2 | (H1 & H2 & H3)]; [by left |]. destruct L1 as [L1 | (H4 & H5 & H6)].
  - left. by rewrite H1.
  - right. split_and!; congruence.
Qed.

Lemma close_file_mono w k :
  write_errors w <= write_errors (snd (close_file k w)) /\ same_config w (snd (close_file k w)) /\
  latched w (snd (close_file k w)).
Proof.
  unfold close_file. destruct (files w !! k); [| cbn; split_and!; [lia | done | by right]]. cbv zeta.
  destruct (bw_flush_sync _ _ _) as [[[] ?] ?];
    (split_and!; [cbn; lia | by split_and! .. | first [by left | by right]]).
Qed.

Lemma close_keys_mono keys first w :
  write_errors w <= write_errors (snd (close_keys keys first w)) /\
  same_config w (snd (close_keys keys first w)) /\ latched w (snd (close_keys keys first w)).
Proof.
  revert first w. induction keys as [| k keys IH]; intros first w; cbn [close_keys];
    [cbn; split_and!; [lia | done | by right] |].
  pose proof (close_file_mono w k) as (H1 & H2 & H5). destruct (close_file k w) as [r w1]. cbn [snd] in *.
  match goal with |- context [close_keys keys ?f w1] => destruct (IH f w1) as (H3 & H4 & H6) end.
  split_and!; [lia | by eapply same_config_trans | by eapply latched_trans].
Qed.

Lemma close_keys_good keys first w (share : FileKey -> list bytes) :
  NoDup keys -> Forall key_ok keys ->
  (forall k, key_ok k -> if decide (k ∈ keys) then key_open w k (share k) else key_done w k (share k)) ->
  let w' := snd (close_keys keys first w) in
  write_errors w <= write_errors w' /\ same_config w w' /\
  (write_errors w' = write_errors w -> forall k, key_ok k -> key_done w' k (share k)).
Proof.
  intros Hnd. revert first w. induction Hnd as [| k keys Hnot Hnd IH]; intros first w Hall Hst; cbv zeta.
  { cbn. split_and!; [lia | done |]. intros _ k Hk. specialize (Hst k Hk).
    by rewrite decide_False in Hst by (apply not_elem_of_nil). }
  cbn [close_keys]. inversion Hall as [| ? ? Hk Hall']; subst.
  pose proof (Hst k Hk) as Hopen. rewrite decide_True in Hopen by (by left).
  pose proof (close_file_good w k _ Hk Hopen) as Hg. pose proof (close_file_mono w k) as (_ & Hc1 & _).
  destruct (close_file k w) as [[[] | e] w1]; unfold good in Hg; cbn [fst snd] in *.
  - destruct Hg as [He [Ho Hcl]].
    destruct (IH first w1 Hall') as (H1 & H2 & H3).
    { intros k' Hk'. destruct (decide (k' = k)) as [-> | Hne].
      - rewrite decide_False by done. by right.
      - pose proof (only_key_same _ _ _ _ Ho Hk' Hne) as Hs. specialize (Hst k' Hk').
        destruct (decide (k' ∈ keys)).
        + rewrite decide_True in Hst by (by right). by eapply key_open_same.
        + rewrite decide_False in Hst by (by intros [?|?]%elem_of_cons). by eapply key_done_same. }
    split_and!; [lia | eapply same_config_trans; [apply Ho | done] |].
    intros E. apply H3. lia.
  - pose proof (close_keys_mono keys (or_first first e) w1) as (H1 & H2 & _).
    split; [lia |]. split; [by eapply same_config_trans |]. intros E. lia.
Qed.
(** The batches a peer may send: bytes, and an unsigned source id. *)
Definition polled_ok (p : WPolled) : Prop :=
  match p with
  | PMessage (Data b) => Forall is_bytes (payload b) /\ 0 <= Msg.source_id b
  | _ => True
  end.


(** ** The thread *)

(** Errors are never uncounted nor unlatched, and the configuration never changes. *)
Record mono (w w' : RunWriter) : Prop := {
  mo_errors : write_errors w <= write_errors w';
  mo_config : same_config w w';
  mo_latched : latched w w';
}.

Lemma mono_refl w : mono w w.
Proof. split; [lia | done | by right]. Qed.

Lemma mono_trans w1 w2 w3 : mono w1 w2 -> mono w2 w3 -> mono w1 w3.
Proof.
  intros [E1 C1 L1] [E2 C2 L2].
  split; [lia | by eapply same_config_trans | by eapply latched_trans].
Qed.

Lemma bind_mono (m : W unit) (k : unit -> W unit) w :
  (forall w, mono w (snd (m w))) -> (forall u w, mono w (snd (k u w))) -> mono w (snd (bind m k w)).
Proof.
  intros Hm Hk. unfold bind. specialize (Hm w). destruct (m w) as [[u | e] w1]; cbn [snd] in *; [| done].
  eapply mono_trans; [exact Hm | apply Hk].
Qed.

Ltac solve_mono :=
  split; [cbn; lia | by split_and! | first [by left | by right; split_and!]].

Lemma ensure_dirs_mono w : mono w (snd (ensure_run_dir w)) /\ mono w (snd (ensure_ctrl_dir w)).
Proof.
  unfold ensure_run_dir, ensure_ctrl_dir, os_create_dir_all.
  split; [destruct (run_dir_created w) | destruct (ctrl_dir_created w)]; try apply mono_refl;
    destruct (syscall (os w)) as [[] ?]; solve_mono.
Qed.

Lemma open_new_file_mono k t i w : mono w (snd (open_new_file k t i w)).
Proof.
  apply bind_mono; clear w; intros; [destruct (is_ctrl k); [apply ensure_dirs_mono | apply mono_refl] |].
  unfold os_file_create. destruct (syscall (os w)) as [[] ?]; solve_mono.
Qed.

Lemma rotate_mono k w : mono w (snd (rotate k w)).
Proof.
  unfold rotate. destruct (files w !! k); [| solve_mono]. destruct (bw_flush_sync _ _ _) as [[[] ?] ?].
  - eapply mono_trans; [| apply open_new_file_mono]. solve_mono.
  - solve_mono.
Qed.

Lemma write_to_mono k frame w : mono w (snd (write_to k frame w)).
Proof.
  apply bind_mono; clear w; intros; [apply ensure_dirs_mono |].
  apply bind_mono; clear w; intros.
  { destruct (files w !! k); [apply mono_refl |]. unfold create_file, local_timestamp.
    eapply mono_trans; [| apply open_new_file_mono]. solve_mono. }
  destruct (files w !! k); [| solve_mono]. destruct (bw_write_all _ _ _ _) as [[[] ?] ?]; [| solve_mono].
  cbv zeta. set (w3 := match k with Asad _ _ => _ | Ctrl _ => _ end).
  assert (H3 : mono w w3) by (subst w3; destruct k; solve_mono).
  destruct (_ <? _); [| exact H3]. eapply mono_trans; [exact H3 | apply rotate_mono].
Qed.

Lemma handle_batch_mono source run sequence frames w :
  Forall is_bytes frames ->
  exists r w', handle_batch source run sequence frames w = Val (r, w') /\ mono w w'.
Proof.
  intros Hb. unfold handle_batch. destruct (negb _); [eexists _, _; split; [done | solve_mono] |].
  assert (H0 : mono w (check_sequence source sequence w)).
  { unfold check_sequence. cbv zeta. destruct (negb _); solve_mono. }
  revert H0. generalize (check_sequence source sequence w) as w1. intros w1 H0.
  revert w1 H0. induction Hb as [| f fs Hf _ IH]; intros w1 H0; cbn [write_frames]; [by eexists _, _ |].
  unfold write_frame. destruct (Decode.peek_asad_val f Hf) as (a & -> & _). cbn [rust_bind].
  assert (H1 : mono w1 (snd match a with
    | Some asad => write_to (Asad source asad) f w1
    | None => write_to (Ctrl source) f (w1 <| ctrl_frames ::= incr |>) end)).
  { destruct a; [apply write_to_mono |]. eapply mono_trans; [| apply write_to_mono]. solve_mono. }
  destruct (match a with Some _ => _ | None => _ end) as [[[] | e] w2]; cbn [snd] in H1.
  - apply IH. by eapply mono_trans.
  - eexists _, _. split; [done |]. by eapply mono_trans.
Qed.

Lemma receive_mono expected run p eos w :
  polled_ok p -> exists next w', receive expected run p eos w = Val (next, w') /\ mono w w'.
Proof.
  intros Hp. destruct p as [| | | [b | source r | source r n]]; cbn [receive];
    try (eexists _, _; split; [done | solve_mono]).
  - destruct Hp as [Hb _]. destruct (handle_batch_mono (Msg.source_id b) (Msg.run_number b)
      (sequence_number b) (payload b) w Hb) as (r & w' & -> & Hm). eexists _, _. by split.
  - destruct (negb _); [eexists _, _; split; [done | solve_mono] |].
    destruct (negb _); [eexists _, _; split; [done | solve_mono] |].
    destruct (bool_decide _); eexists _, _; (split; [done | solve_mono]).
Qed.

Section thread_lemmas.
Variable order : gmap FileKey OutputFile -> list FileKey.
Hypothesis order_keys : forall m, order m ≡ₚ map fst (map_to_list m).

Lemma order_elem m k : k ∈ order m <-> is_Some (m !! k).
Proof.
  rewrite (order_keys m). change (map fst (map_to_list m)) with (fst <$> map_to_list m).
  rewrite list_elem_of_fmap. split.
  - intros ([k' f] & -> & H). apply elem_of_map_to_list in H. cbn. by rewrite H.
  - intros [f Hf]. exists (k, f). split; [done |]. by apply elem_of_map_to_list.
Qed.

Lemma order_NoDup m : NoDup (order m).
Proof. rewrite (order_keys m). apply NoDup_fst_map_to_list. Qed.

Lemma finalize_good w log :
  writer_ok w log ->
  let w' := snd (finalize order w) in
  write_errors w <= write_errors w' /\ same_config w w' /\
  (write_errors w' = write_errors w -> forall k, key_ok k -> key_done w' k (frames_for k log)).
Proof.
  intros Hok. unfold finalize.
  pose proof (close_keys_good (order (files w)) None w (fun k => frames_for k log)
    (order_NoDup _)) as H.
  destruct (close_keys (order (files w)) None w) as [first w']. cbn [snd] in *. apply H.
  - apply Forall_forall. intros k Hk. apply order_elem in Hk. by apply (wo_keys _ _ Hok).
  - intros k Hk. destruct (wo_live _ _ Hok k Hk) as [Hu | Hop].
    + rewrite decide_False; [by left |]. rewrite order_elem. pose proof Hu as (_ & -> & _).
      by intros [? ?].
    + rewrite decide_True; [done |]. apply order_elem. by eapply key_open_entry.
Qed.

(** What a run of turns writes, as a specification: the frames of the batches of
    this run, until a stop, a closed context or the last expected barrier. *)
Fixpoint accepted (expected : gset Z) (run : Z) (turns : list WTurn) (eos : gset Z)
    : list (FileKey * bytes) :=
  match turns with
  | [] => []
  | tn :: turns =>
      if wt_stop tn then [] else
      match wt_polled tn with
      | PTerminated => []
      | PMessage (Data b) =>
          (if Msg.run_number b =? run then routed (Msg.source_id b) (payload b) else []) ++
          accepted expected run turns eos
      | PMessage (EndOfStream source eos_run) =>
          if negb (eos_run =? run) || negb (bool_decide (source ∈ expected)) then
            accepted expected run turns eos
          else if bool_decide (expected ⊆ {[source]} ∪ eos) then []
          else accepted expected run turns ({[source]} ∪ eos)
      | _ => accepted expected run turns eos
      end
  end.

(** The result of the loop: no frame is lost unless a write error was counted. *)
Definition loop_good (w : RunWriter) (x : rust RunWriter) (log : list (FileKey * bytes)) : Prop :=
  exists w', x = Val w' /\ write_errors w <= write_errors w' /\ same_config w w' /\
    (write_errors w' = write_errors w -> writer_ok w' log).

Lemma loop_good_seq w w1 x log :
  write_errors w = write_errors w1 -> same_config w w1 -> loop_good w1 x log -> loop_good w x log.
Proof.
  intros He Hc (w' & -> & H1 & H2 & H3). exists w'. split_and!; [done | lia | by eapply same_config_trans |].
  intros E. apply H3. lia.
Qed.

Lemma loop_good_total w x : (exists w', x = Val w' /\ mono w w') -> forall w0 log,
  write_errors w0 < write_errors w -> same_config w0 w -> loop_good w0 x log.
Proof.
  intros (w' & -> & [Hm Hc _]) w0 log Hlt Hc0. exists w'.
  split_and!; [done | lia | by eapply same_config_trans | lia].
Qed.

Lemma flush_all_mono w : mono w (snd (flush_all order w)).
Proof.
  unfold flush_all. pose proof (flush_keys_mono (order (files w)) None w) as H.
  destruct (flush_keys _ _ _) as [[[p e] |] w']; destruct H as (H1 & H2 & H3 & H4).
  - split; [cbn; lia | exact H2 | by left].
  - split; [cbn; lia | exact H2 | right; by split_and!].
Qed.

Lemma loop_mono expected run turns eos w :
  Forall (fun tn => polled_ok (wt_polled tn)) turns ->
  exists w', consume_until_done order expected run turns eos w = Val w' /\ mono w w'.
Proof.
  intros Hall. revert eos w. induction Hall as [| tn turns Hp _ IH]; intros eos w; cbn [consume_until_done].
  { exists w. split; [done | apply mono_refl]. }
  destruct (wt_stop tn). { exists w. split; [done | apply mono_refl]. }
  destruct (receive_mono expected run (wt_polled tn) eos w Hp) as (next & w1 & -> & H1). cbn [rust_bind].
  destruct next as [eos' |]; [| by exists w1].
  destruct (IH eos' (if wt_flush_due tn then snd (flush_all order w1) else w1)) as (w2 & -> & H2).
  exists w2. split; [done |]. eapply mono_trans; [exact H1 |].
  eapply mono_trans; [| exact H2]. destruct (wt_flush_due tn); [apply flush_all_mono | apply mono_refl].
Qed.

Lemma loop_ok expected run turns eos w log :
  Forall (fun tn => polled_ok (wt_polled tn)) turns -> run = run_number w -> writer_ok w log ->
  loop_good w (consume_until_done order expected run turns eos w)
    (log ++ accepted expected run turns eos).
Proof.
  intros Hall Hrun. assert (Hstop : forall w log, writer_ok w log -> loop_good w (Val w) (log ++ [])).
  { intros w0 l0 H0. exists w0. rewrite app_nil_r. by split_and!. }
  revert eos w log Hrun. induction Hall as [| tn turns Hp Hall IH]; intros eos w log Hrun Hok;
    cbn [consume_until_done accepted]; [by apply Hstop |].
  destruct (wt_stop tn); [by apply Hstop |].
  assert (Hnext : forall eos' w1 l1, same_config w w1 -> write_errors w1 = write_errors w ->
    writer_ok w1 l1 ->
    loop_good w (consume_until_done order expected run turns eos'
      (if wt_flush_due tn then snd (flush_all order w1) else w1))
      (l1 ++ accepted expected run turns eos')).
  { intros eos' w1 l1 Hc He Hok1. destruct (wt_flush_due tn).
    2: { apply (loop_good_seq w w1); [done | done |]. apply IH; [destruct Hc as (_ & -> & _); done | done]. }
    destruct (flush_all_good order w1 l1 Hok1) as (H1 & H2 & H3).
    set (w2 := snd (flush_all order w1)) in *.
    destruct (Z.eq_dec (write_errors w2) (write_errors w1)) as [E | Hne].
    - apply (loop_good_seq w w2); [lia | by eapply same_config_trans |].
      apply IH; [| by apply H3]. destruct H2 as (_ & -> & _), Hc as (_ & -> & _). done.
    - apply (loop_good_total w2); [by apply loop_mono | lia | by eapply same_config_trans]. }
  destruct (wt_polled tn) as [| | | [b | source r | source r n]]; cbn [receive rust_bind].
  - by apply Hnext.
  - by apply Hstop.
  - apply Hnext; [done | done |]. by apply (writer_ok_same w).
  - destruct Hp as [Hb Hs].
    destruct (handle_batch_good (Msg.source_id b) (Msg.run_number b) (sequence_number b) (payload b)
      w log Hb Hs Hok) as (r & w1 & Ehb & Hg). rewrite Ehb. cbn [rust_bind]. unfold good in Hg. cbn [fst snd] in Hg.
    rewrite <- Hrun in Hg. destruct r as [[] | e].
    + destruct Hg as (He & Hc & Hok1). rewrite app_assoc. by apply Hnext.
    + destruct (handle_batch_mono (Msg.source_id b) (Msg.run_number b) (sequence_number b) (payload b)
        w Hb) as (r' & w1' & Ew & Hm). rewrite Ehb in Ew. injection Ew as <- <-.
      destruct Hm as [? ? _]. exists w1. split_and!; [done | done | done |]. lia.
  - destruct (negb (r =? run)); cbn [orb];
      [by apply Hnext; [| | apply (writer_ok_same w)] |].
    destruct (negb (bool_decide (source ∈ expected)));
      [by apply Hnext; [| | apply (writer_ok_same w)] |].
    destruct (bool_decide _); [by apply Hstop | by apply Hnext].
  - apply Hnext; [done | done |]. by apply (writer_ok_same w).
Qed.

Lemma finalize_mono w : mono w (snd (finalize order w)).
Proof.
  unfold finalize. pose proof (close_keys_mono (order (files w)) None w) as (H1 & H2 & H3).
  destruct (close_keys _ _ _) as [first w']. by split.
Qed.
End thread_lemmas.

(** ** Properties *)

(** The files of a key as the rotation rule prescribes them. *)
Definition stored (w : RunWriter) (k : FileKey) (fs : list bytes) : Prop :=
  files w !! k = None /\
  ((fs = [] /\ key_reports k w = []) \/
   exists t full last,
     concat full ++ last = fs /\
     Forall (fun g => max_file_bytes w < len (concat g) /\
               exists g' f, g = g' ++ [f] /\ len (concat g') <= max_file_bytes w) full /\
     len (concat last) <= max_file_bytes w /\
     groups_on_disk w k t (full ++ [last])).

Lemma key_done_stored w k fs : 0 <= max_file_bytes w -> key_done w k fs -> stored w k fs.
Proof.
  intros Hm [(-> & Hn & Hr) | (Hn & t & Hg)]; (split; [done |]); [by left |]. right.
  pose proof (cut_spec (max_file_bytes w) fs Hm) as Hc. unfold cut_bounds in Hc.
  destruct (cut (max_file_bytes w) fs) as [full last]. destruct Hc as (? & ? & ?).
  by exists t, full, last.
Qed.

Section theorems.
Variable order : gmap FileKey OutputFile -> list FileKey.
Hypothesis order_keys : forall m, order m ≡ₚ map fst (map_to_list m).

Lemma run_writer_good expected run turns root max o :
  Forall (fun tn => polled_ok (wt_polled tn)) turns ->
  exists w', run_writer_thread order expected run turns (new root run max o) = Val w' /\
    same_config (new root run max o) w' /\ latched (new root run max o) w' /\
    (write_errors w' = 0 ->
     forall k, key_ok k -> key_done w' k (frames_for k (accepted expected run turns ∅))).
Proof.
  intros Hall. unfold run_writer_thread.
  destruct (loop_mono order expected run turns ∅ (new root run max o) Hall)
    as (w1 & E1 & [M1 C1 L1]).
  destruct (loop_ok order expected run turns ∅ (new root run max o) [] Hall eq_refl
    (new_writer_ok root run max o)) as (w2 & E2 & _ & _ & Hok).
  rewrite E1 in E2. injection E2 as <-. rewrite E1. cbn [rust_bind].
  destruct (finalize_mono order w1) as [M2 C2 L2].
  exists (snd (finalize order w1)). split; [done |].
  split; [by eapply same_config_trans |]. split; [by eapply latched_trans |].
  intros H0 k Hk. assert (Hw1 : write_errors w1 = 0) by (cbn in M1; lia).
  destruct (finalize_good order order_keys w1 (accepted expected run turns ∅)) as (_ & _ & Hd).
  - by apply Hok.
  - apply Hd; [lia | done].
Qed.

(** C22: graw-writer loses nothing silently: whatever the upstream sends and
    whatever the disk does, if no write error was counted by the end of the run,
    then for every CoBo and AsAd (and every control file) the files on disk, in
    index order, hold byte for byte exactly the frames of the run's batches that
    were accepted for it, none split over two files; every file but the last is
    over the size limit by its last frame only; and all of them are flushed,
    closed and reported with their true sizes and frame counts. *)
Theorem graw_no_silent_loss (expected : gset Z) (run : Z) (turns : list WTurn) (root : path)
    (max : Z) (o : Os) (Hmax : 0 <= max)
    (Hturns : Forall (fun tn => polled_ok (wt_polled tn)) turns) :
  exists w, run_writer_thread order expected run turns (new root run max o) = Val w /\
    (write_errors w = 0 -> forall k, key_ok k ->
     stored w k (frames_for k (accepted expected run turns ∅))).
Proof.
  destruct (run_writer_good expected run turns root max o Hturns) as (w & E & Hc & _ & Hd).
  exists w. split; [done |]. intros H0 k Hk. apply key_done_stored; [| by apply Hd].
  destruct Hc as (_ & _ & ->). exact Hmax.
Qed.

(** graw-writer's error latch: at the end of any run, whatever the disk and
    the upstream did, the writer is in error if it counted a write error or a
    sequence gap; a writer that is not in error has stored everything. *)
Theorem graw_error_latched (expected : gset Z) (run : Z) (turns : list WTurn) (root : path)
    (max : Z) (o : Os) (Hmax : 0 <= max)
    (Hturns : Forall (fun tn => polled_ok (wt_polled tn)) turns) :
  exists w, run_writer_thread order expected run turns (new root run max o) = Val w /\
    (errored w = false ->
     write_errors w = 0 /\ seq_gaps w = 0 /\
     forall k, key_ok k -> stored w k (frames_for k (accepted expected run turns ∅))).
Proof.
  destruct (run_writer_good expected run turns root max o Hturns) as (w & E & Hc & Hl & Hd).
  exists w. split; [done |]. intros He. destruct Hl as [Hl | (_ & H0 & Hg)]; [congruence |].
  cbn in H0, Hg. split_and!; [done | done |]. intros k Hk. apply key_done_stored; [| by apply Hd].
  destruct Hc as (_ & _ & ->). exact Hmax.
Qed.
End theorems.

(** Two frames that overflow a one-frame file, a control frame, both barriers. *)
Definition frame_of (little : bool) : bytes :=
  Decode.encode_frame (Decode.sample_header little) (Decode.Partial [mkItem 1 2 3 4]).
Definition sample_turns : list WTurn :=
  [mkWTurn false (PMessage (Data (mkBatch 1 7 0 0 [frame_of true; [9; 9]; frame_of false]))) true;
   mkWTurn false PNone false;
   mkWTurn false (PMessage (EndOfStream 1 7)) false].
Definition sample_os (script : list IoResult) : Os :=
  mkOs ∅ ∅ script (fun _ => "2026-10-12T08:03:44.531") 0.
Definition sample_order (m : gmap FileKey OutputFile) : list FileKey := map fst (map_to_list m).

Lemma sample_turns_ok : Forall (fun tn => polled_ok (wt_polled tn)) sample_turns.
Proof.
  repeat constructor; try (by apply Decode.encode_frame_bytes, Decode.sample_header_ok);
    vm_compute; congruence.
Qed.

Definition errors_of (x : rust RunWriter) : Z * bool :=
  match x with
  | Val w => (write_errors w, errored w)
  | _ => (-1, true)
  end.

Lemma graw_no_silent_loss_witness :
  exists w, run_writer_thread sample_order {[1]} 7 sample_turns (new ["data"] 7 91 (sample_os []))
      = Val w /\
    write_errors w = 0 /\ stored w (Asad 1 2) [frame_of true; frame_of false] /\
    stored w (Ctrl 1) [[9; 9]].
Proof.
  destruct (graw_no_silent_loss sample_order (fun m => reflexivity _) {[1]} 7 sample_turns ["data"] 91
    (sample_os []) ltac:(lia) sample_turns_ok) as (w & E & H).
  exists w. split; [exact E |].
  assert (H0 : write_errors w = 0).
  { change (fst (errors_of (Val w)) = 0). rewrite <- E. vm_compute. reflexivity. }
  split; [exact H0 |]. split.
  - replace [frame_of true; frame_of false]
      with (frames_for (Asad 1 2) (accepted {[1]} 7 sample_turns ∅)) by (vm_compute; reflexivity).
    apply (H H0). split; lia.
  - replace [[9; 9]] with (frames_for (Ctrl 1) (accepted {[1]} 7 sample_turns ∅))
      by (vm_compute; reflexivity).
    apply (H H0). cbn. lia.
Defined.

Lemma graw_error_latched_witness :
  exists w, run_writer_thread sample_order {[1]} 7 sample_turns (new ["data"] 7 1000 (sample_os []))
      = Val w /\
    errored w = false /\ stored w (Asad 1 2) [frame_of true; frame_of false].
Proof.
  destruct (graw_error_latched sample_order (fun m => reflexivity _) {[1]} 7 sample_turns ["data"] 1000
    (sample_os []) ltac:(lia) sample_turns_ok) as (w & E & H).
  exists w. split; [exact E |].
  assert (He : errored w = false).
  { change (snd (errors_of (Val w)) = false). rewrite <- E. vm_compute. reflexivity. }
  split; [exact He |]. destruct (H He) as (_ & _ & Hs).
  replace [frame_of true; frame_of false]
    with (frames_for (Asad 1 2) (accepted {[1]} 7 sample_turns ∅)) by (vm_compute; reflexivity).
  apply Hs. split; lia.
Defined.

(** *** Two places where the comments promise more than the code does *)

(** A batch of another run is counted and its frames are dropped: no file, no
    sequence check, and the caller is told [Ok]. *)
Lemma mismatched_batch_dropped source run sequence frames w :
  run <> run_number w ->
  handle_batch source run sequence frames w =
  Val (Ok tt, w <| run_mismatches ::= incr |> <| errored := true |>).
Proof. intros Hne. unfold handle_batch. by destruct (Z.eqb_spec run (run_number w)). Qed.

(** A file whose final flush failed is reported [closed = true] all the same. *)
Lemma closed_report_after_failed_flush :
  let w := snd (write_to (Ctrl 1) [1; 2; 3]
                  (new ["data"] 7 1000 (sample_os [IoOk; IoOk; IoOk; IoErr 0 "EIO"; IoErr 0 "EIO"]))) in
  let w' := snd (close_file (Ctrl 1) w) in
  map (fun r => (rp_bytes r, rp_closed r)) (closed_files w') = [(3, true)] /\
  map snd (map_to_list (disk (os w'))) = [[]] /\ write_errors w' = 1.
Proof. by vm_compute. Qed.

(** ** The handler *)

#[export] Instance graw_handler_laws : HandlerLaws GrawHandler GrawEnv.
Proof.
  constructor.
  - done.
  - intros h. cbn. unfold graw_latch_error. cbv zeta.
    destruct (bool_decide _ || _) eqn:Hb; [by left |]. apply orb_false_iff in Hb as [_ Hb].
    destruct (match g_writer h with None => false | Some cell => writer_errored cell end);
      cbn [negb]; [right | by left].
    split; [done |]. by apply negb_false_iff in Hb.
  - intros env cmd h. destruct cmd; cbn; try done.
    + unfold graw_arm. by destruct (g_bind_pull env).
    + unfold graw_start. destruct (negb _); [done |]. by destruct (g_spawn env).
  - intros h ok m. cbn. unfold graw_respond. by destruct ok, (g_run_number h).
Qed.

Record graw_ok (h : GrawHandler) : Prop := {
  gh_path : rtc legal Idle (g_status h);
  gh_running : g_status h = Running ->
    (exists cell, g_writer h = Some cell) /\ g_stop_tx h = true;
  gh_idle : g_status h = Idle ->
    g_pull_socket h = false /\ g_writer h = None /\ g_stop_tx h = false /\ g_run_number h = None;
}.

Lemma graw_latch_ok h : graw_ok h -> graw_ok (graw_latch_error h).
Proof.
  intros Hok. pose proof Hok as [Hp Hr Hi]. unfold graw_latch_error. cbv zeta.
  destruct (bool_decide _ || _) eqn:Hb; [done |]. apply orb_false_iff in Hb as [_ Hb].
  apply negb_false_iff in Hb.
  destruct (match g_writer h with None => false | Some cell => writer_errored cell end);
    cbn [negb]; [| done].
  constructor; cbn; try done. by eapply rtc_r.
Qed.

Lemma graw_dispatch_ok env cmd h t :
  graw_ok h -> target_state cmd = Some t -> can_transition_to (g_status h) t = true ->
  let '(o, h') := graw_dispatch env cmd h in
  match o with
  | Ok _ => graw_ok (h' <| g_status := t |>)
  | Err _ => graw_ok h'
  end.
Proof.
  intros Hok Ht Hleg. pose proof Hok as [Hp Hr Hi].
  assert (Hpath : rtc legal Idle t) by (by eapply rtc_r).
  destruct cmd as [cfg | | run | | |]; cbn in Ht; try done; injection Ht as <-; cbn [graw_dispatch].
  - by constructor.
  - unfold graw_arm. destruct (g_bind_pull env); [by constructor | done].
  - assert (Hst : g_status h = Armed) by (by destruct (g_status h)). rewrite Hst in Hp, Hr, Hi.
    unfold graw_start. destruct (negb _); [done |].
    destruct (g_spawn env); constructor; cbn; rewrite ?Hst; try done; eauto.
  - by constructor.
  - by constructor.
Qed.

Lemma graw_handle_ok env cmd h : graw_ok h -> graw_ok (snd (handle env cmd h)).
Proof.
  intros Hok. apply graw_latch_ok in Hok. unfold handle.
  change (latch_error h) with (graw_latch_error h). set (h1 := graw_latch_error h) in *.
  destruct (target_state cmd) as [t |] eqn:Ht; [| done].
  destruct (negb _) eqn:Hleg; [done |]. apply negb_false_iff in Hleg.
  pose proof (graw_dispatch_ok env cmd h1 t Hok Ht Hleg) as Hd.
  change (dispatch env cmd h1) with (graw_dispatch env cmd h1).
  by destruct (graw_dispatch env cmd h1) as [[] h2].
Qed.

(** graw-writer's command handler over any life of commands, environment
    answers and thread activity: the state moves along legal edges only and every
    reply tells the state the handler is in; while [Running] a writer and its stop
    channel exist, in [Idle] nothing of a run is left; and once the writer reports
    an error (or its thread died) the next command finds [Error], out of which only
    [Reset] leads. *)
Theorem graw_handler_safe (p : GrawWriterParams) (h : GrawHandler)
    (Hh : rtc graw_step (handler_new p) h) :
  rtc legal Idle (g_status h) /\
  (g_status h = Running -> (exists cell, g_writer h = Some cell) /\ g_stop_tx h = true) /\
  (g_status h = Idle -> g_pull_socket h = false /\ g_writer h = None /\ g_stop_tx h = false /\
     g_run_number h = None) /\
  forall env cmd, let '(r, h') := graw_handle env cmd h in
    state r = g_status h' /\
    forall cell, g_writer h = Some cell -> writer_errored cell = true -> g_status h <> Idle ->
      (g_status h' = Error /\ (success r = true -> cmd = GetStatus)) \/ cmd = Reset.
Proof.
  assert (Hok : graw_ok h).
  { revert h Hh. apply (rtc_ind_r (fun h => graw_ok h)); [by constructor |].
    intros h1 h2 _ Hstep Hok. destruct Hstep as [env cmd h0 | cell cell' h0 Hc]; [by apply graw_handle_ok |].
    destruct Hok as [Hp Hr Hi]. constructor; cbn; [done | |].
    - intros E. destruct (Hr E) as (_ & ?). eauto.
    - intros E. destruct (Hi E) as (_ & Hn & _). by rewrite Hn in Hc. }
  destruct Hok as [Hp Hr Hi]. split_and!; try done. intros env cmd. unfold graw_handle.
  assert (Herr : forall cell, g_writer h = Some cell -> writer_errored cell = true ->
    g_status h <> Idle -> h_state (latch_error h) = Error).
  { intros cell Hc He Hni. cbn. unfold graw_latch_error. rewrite Hc, He.
    by destruct (g_status h) eqn:E; cbn; rewrite ?E. }
  pose proof (handle_path env cmd h) as Hpath. pose proof (handle_in_error env cmd h) as Hin.
  destruct (handle env cmd h) as [r h']. split; [apply Hpath |].
  intros cell Hc He Hni. destruct (Hin (Herr cell Hc He Hni)); [by right | by left].
Qed.

Definition sample_params : GrawWriterParams := mkGrawWriterParams ["data"] 1000 [1].
Definition sample_env : GrawEnv := mkGrawEnv (Ok "tcp://127.0.0.1:47001") (Ok tt) (sample_os []).

Lemma graw_handler_safe_witness :
  let h := snd (handle_all [(sample_env, Configure (mkRunConfig 7 "" JNull)); (sample_env, Arm);
                            (sample_env, Start 7)] (handler_new sample_params))
           <| g_writer := Some WPoisoned |> in
  g_status h = Running /\ state (fst (handle sample_env GetStatus h)) = Error.
Proof.
  intros h. assert (Hr : rtc graw_step (handler_new sample_params) h).
  { eapply rtc_l; [apply (graw_step_command sample_env (Configure (mkRunConfig 7 "" JNull))) |].
    eapply rtc_l; [apply (graw_step_command sample_env Arm) |].
    eapply rtc_l; [apply (graw_step_command sample_env (Start 7)) |].
    apply rtc_once. eapply graw_step_thread. vm_compute. reflexivity. }
  destruct (graw_handler_safe sample_params h Hr) as (_ & _ & _ & Hcmd).
  split; [reflexivity |]. specialize (Hcmd sample_env GetStatus).
  unfold graw_handle in Hcmd.
  destruct (handle sample_env GetStatus h) as [r h']. destruct Hcmd as [Hs He]. cbn [fst].
  rewrite Hs. destruct (He WPoisoned eq_refl eq_refl ltac:(discriminate)) as [[E _] | E];
    [exact E | discriminate E].
Defined.
