(* ===== verification/Utf8.v ===== *)
(** * Utf8: the standard library's reading of UTF-8

    [String::from_utf8] and [String::from_utf8_lossy] on byte strings: a Rust
    [String] is the list of its bytes, which are valid UTF-8. *)

From S2P Require Import Prelude Bytes.
Open Scope Z_scope.

(** [String::from_utf8_lossy] on a byte string: each maximal invalid part
    becomes one replacement character. *)
Definition replacement : bytes := [0xEF; 0xBF; 0xBD].

Definition continuation (lo hi : Z) (s : bytes) : bool :=
  match s with b :: _ => (lo <=? b) && (b <=? hi) | [] => false end.

(** How many bytes the first character or invalid part takes, and whether it is
    a character. *)
Definition utf8_step (b : Z) (s : bytes) : Z * bool :=
  let second (lo hi : Z) (rest : Z) :=
    if negb (continuation lo hi s) then (1, false)
    else if rest =? 0 then (2, true)
    else if negb (continuation 0x80 0xBF (drop 1 s)) then (2, false)
    else if rest =? 1 then (3, true)
    else if negb (continuation 0x80 0xBF (drop 2 s)) then (3, false)
    else (4, true) in
  if b <? 0x80 then (1, true)
  else if (0xC2 <=? b) && (b <=? 0xDF) then second 0x80 0xBF 0
  else if b =? 0xE0 then second 0xA0 0xBF 1
  else if b =? 0xED then second 0x80 0x9F 1
  else if (0xE1 <=? b) && (b <=? 0xEF) then second 0x80 0xBF 1
  else if b =? 0xF0 then second 0x90 0xBF 2
  else if (0xF1 <=? b) && (b <=? 0xF3) then second 0x80 0xBF 2
  else if b =? 0xF4 then second 0x80 0x8F 2
  else (1, false).

Fixpoint utf8_lossy_fuel (fuel : nat) (s : bytes) : bytes :=
  match fuel, s with
  | S fuel, b :: rest =>
      let '(n, valid) := utf8_step b rest in
      (if valid then take (Z.to_nat n) s else replacement) ++
      utf8_lossy_fuel fuel (drop (Z.to_nat n) s)
  | _, _ => []
  end.

Definition from_utf8_lossy (s : bytes) : bytes := utf8_lossy_fuel (length s) s.

(** Whether a byte string is valid UTF-8, and [String::from_utf8]. *)
Fixpoint utf8_valid_fuel (fuel : nat) (s : bytes) : bool :=
  match fuel, s with
  | _, [] => true
  | O, _ => false
  | S fuel, b :: rest =>
      let '(n, valid) := utf8_step b rest in
      valid && utf8_valid_fuel fuel (drop (Z.to_nat n) s)
  end.

Definition utf8_valid (s : bytes) : bool := utf8_valid_fuel (length s) s.

Definition from_utf8 (s : bytes) : option bytes := if utf8_valid s then Some s else None.

Lemma lossy_ascii fuel s :
  (length s <= fuel)%nat -> Forall (fun b => 0 <= b < 128) s -> utf8_lossy_fuel fuel s = s.
Proof.
  revert s. induction fuel as [| fuel IH]; intros [| b s] Hf Hs; cbn in Hf; try done; [lia |].
  inversion Hs as [| ? ? Hb Hs']; subst. cbn [utf8_lossy_fuel]. unfold utf8_step.
  rewrite (proj2 (Z.ltb_lt b 128)) by lia. cbn. f_equal. apply IH; [lia | done].
Qed.

Lemma utf8_ascii fuel s :
  (length s <= fuel)%nat -> Forall (fun b => 0 <= b < 128) s -> utf8_valid_fuel fuel s = true.
Proof.
  revert s. induction fuel as [| fuel IH]; intros s Hf Hs; destruct s as [| b s]; [done | cbn in Hf; lia | done |].
  cbn in Hf.
  inversion Hs as [| ? ? Hb Hs']; subst. cbn [utf8_valid_fuel]. unfold utf8_step.
  rewrite (proj2 (Z.ltb_lt b 128)) by lia.
  change (drop (Z.to_nat 1) (b :: s)) with s. apply IH; [lia | done].
Qed.

(** ** Concatenation *)

(** A whole character is recognised by its own bytes. *)
Lemma utf8_step_app b s n rest : utf8_step b s = (n, true) -> utf8_step b (s ++ rest) = (n, true) /\ 1 <= n <= 1 + len s.
Proof.
  unfold utf8_step, continuation. intros E.
  destruct s as [| c1 [| c2 [| c3 s]]]; cbn [app drop] in *;
    repeat match type of E with
    | context [if ?x then _ else _] => destruct x; cbn [negb andb] in *
    end; try discriminate E; injection E as <-; (split; [done | unfold len; cbn [length]; lia]).
Qed.

Lemma utf8_fuel fuel s : (length s <= fuel)%nat -> utf8_valid_fuel fuel s = utf8_valid s.
Proof.
  unfold utf8_valid. assert (H : forall n f g t, (length t <= n)%nat -> (length t <= f)%nat -> (length t <= g)%nat ->
    utf8_valid_fuel f t = utf8_valid_fuel g t); [| intros Hf; by apply (H (length s))].
  induction n as [| n IH]; intros f g [| b t]; cbn [length]; intros Hn Hf Hg; try lia; try (by destruct f, g).
  destruct f as [| f], g as [| g]; try lia. cbn [utf8_valid_fuel]. destruct (utf8_step b t) as [k [|]] eqn:E; [| done].
  apply (utf8_step_app b t k []) in E as [_ Hk]. cbn [andb].
  assert (Hl : (length (drop (Z.to_nat k) (b :: t)) <= length t)%nat) by (rewrite length_drop; cbn [length]; lia).
  apply IH; lia.
Qed.

Lemma utf8_app s rest : utf8_valid s = true -> utf8_valid (s ++ rest) = utf8_valid rest.
Proof.
  assert (H : forall n t, (length t <= n)%nat -> utf8_valid t = true -> utf8_valid (t ++ rest) = utf8_valid rest);
    [| by apply (H (length s))].
  induction n as [| n IH]; intros [| b t]; cbn [length]; intros Hn Ht; try lia; try done.
  unfold utf8_valid in Ht |- *. cbn [length utf8_valid_fuel app] in Ht |- *.
  destruct (utf8_step b t) as [k [|]] eqn:E; [| done]. cbn [andb] in Ht.
  apply (utf8_step_app b t k rest) in E as [-> Hk]. cbn [andb].
  unfold len in Hk.
  assert (Hl : (length (drop (Z.to_nat k) (b :: t)) <= length t)%nat) by (rewrite length_drop; cbn [length]; lia).
  rewrite utf8_fuel in Ht by lia. specialize (IH (drop (Z.to_nat k) (b :: t)) ltac:(lia) Ht).
  change (b :: t ++ rest) with ((b :: t) ++ rest). rewrite drop_app_le by (cbn [length]; lia).
  rewrite utf8_fuel, IH; [done |]. rewrite length_app, length_app. lia.
Qed.
