(* ===== verification/Checks.v ===== *)
(** * Checks: validations, and what they decide

    Shared by the files that model a validation ([Config], [Params]): a check that
    returns the first error it finds decides a condition, and its errors say
    something of the input.  Also duplicates, looked for with a set of what was
    seen. *)

From stdpp Require Import gmap.
From S2P Require Import Prelude.

(** A check that decides [P]; its refusals satisfy [E]. *)
Definition decides {A X : Type} (m : result A X) (P : Prop) (E : X -> Prop) : Prop :=
  match m with
  | Ok _ => P
  | Err e => E e /\ ~ P
  end.

Lemma decides_and {A X : Type} (m : result unit X) (k : result A X) (P Q : Prop) E : decides m P E -> (P -> decides k Q E) -> decides (let? _ := m in k) (P /\ Q) E.
Proof.
  destruct m as [[] | e]; cbn; [| tauto]. intros HP Hk. specialize (Hk HP).
  destruct k; cbn in *; tauto.
Qed.

Lemma decides_iff {A X : Type} (m : result A X) (P Q : Prop) E : decides m P E -> (P <-> Q) -> decides m Q E.
Proof. destruct m; cbn; tauto. Qed.

#[export] Instance decides_proper {A X : Type} (m : result A X) : Proper (iff ==> eq ==> iff) (decides m).
Proof. intros P Q HPQ E F <-. destruct m; cbn; tauto. Qed.

Lemma decides_mono {A X : Type} (m : result A X) P (E F : X -> Prop) : decides m P E -> (forall e, E e -> ~ P -> F e) -> decides m P F.
Proof. destruct m; cbn; [done |]. intros [HE HP] H. split; auto. Qed.

Lemma decides_if {X : Type} (b : bool) (e : X) (P : Prop) (E : X -> Prop) :
  (b = true <-> P) -> (b = false -> E e) -> decides (if b then Ok tt else Err e) P E.
Proof. intros Hb He. destruct b; cbn; [by apply Hb |]. split; [by apply He |]. intros HP. apply Hb in HP. done. Qed.

(** ** Duplicates *)

(** The first key that was seen before. *)
Fixpoint first_dup {K : Type} `{Countable K} (keys : list K) (seen : gset K) : option K :=
  match keys with
  | [] => None
  | k :: keys => if bool_decide (k ∈ seen) then Some k else first_dup keys ({[k]} ∪ seen)
  end.

Definition fresh_keys {K : Type} `{Countable K} (keys : list K) (seen : gset K) : Prop :=
  NoDup keys /\ forall k, k ∈ keys -> k ∉ seen.

Lemma fresh_cons {K : Type} `{Countable K} (k : K) keys (seen : gset K) :
  fresh_keys (k :: keys) seen <-> k ∉ seen /\ fresh_keys keys ({[k]} ∪ seen).
Proof.
  unfold fresh_keys. rewrite list.NoDup_cons. split.
  - intros [[Hk Hd] Hs]. split; [apply Hs; by left |]. split; [done |]. intros k' Hk'. rewrite elem_of_union, elem_of_singleton.
    intros [-> | Hin]; [done | by apply (Hs k'); [right |]].
  - intros [Hk [Hd Hs]]. split; [split; [| done] |].
    + intros Hin. apply (Hs k Hin). apply elem_of_union. left. by apply elem_of_singleton.
    + intros k' Hk'. apply elem_of_cons in Hk' as [-> | Hk']; [done |]. intros Hin. apply (Hs k' Hk'). apply elem_of_union. by right.
Qed.

Lemma first_dup_spec {K : Type} `{Countable K} (keys : list K) (seen : gset K) :
  match first_dup keys seen with
  | None => fresh_keys keys seen
  | Some k => exists l1 l2, keys = l1 ++ k :: l2 /\ (k ∈ l1 \/ k ∈ seen)
  end.
Proof.
  revert seen. induction keys as [| k keys IH]; intros seen; cbn [first_dup].
  { split; [constructor | intros k Hk; by apply elem_of_nil in Hk]. }
  case_bool_decide as Hin; [by exists [], keys; split; [| right] |].
  specialize (IH ({[k]} ∪ seen)). destruct (first_dup keys _) as [k' |].
  - destruct IH as (l1 & l2 & -> & Hk'). exists (k :: l1), l2. split; [done |].
    rewrite elem_of_union, elem_of_singleton in Hk'. rewrite elem_of_cons. tauto.
  - by apply fresh_cons.
Qed.

Lemma duplicated {K : Type} (keys l1 l2 : list K) k : keys = l1 ++ k :: l2 -> k ∈ l1 -> ~ NoDup keys.
Proof. intros -> Hk Hd. apply list.NoDup_app in Hd as (_ & Hd & _). apply (Hd k Hk). by left. Qed.

Lemma decides_first_dup {K X : Type} `{Countable K} (keys : list K) (mk : K -> X) (E : X -> Prop) :
  (forall k l1 l2, keys = l1 ++ k :: l2 -> k ∈ l1 -> E (mk k)) ->
  decides (match first_dup keys ∅ with Some k => Err (mk k) | None => Ok tt end) (NoDup keys) E.
Proof.
  intros HE. pose proof (first_dup_spec keys ∅) as Hf. destruct (first_dup keys ∅) as [k |]; [| by destruct Hf].
  destruct Hf as (l1 & l2 & Hk & [Hin | Hin]); [| by apply elem_of_empty in Hin].
  split; [by eapply HE | by eapply duplicated].
Qed.
