(* ===== verification/ProPar.v ===== *)
(** * ProPar: the Bronkhorst ProPar ASCII codec

    Models [src/slowctl/propar.rs], all of it: the read requests the slow
    control sends to the gas flow controllers and the decoding of their replies.
    Lines are byte strings; a single-precision float is its bit pattern, which
    is all the codec looks at. *)

From stdpp Require Import strings.
From S2P Require Import Prelude Bytes Utf8.
Open Scope Z_scope.

(** ** Data *)

Inductive ParType : Type :=
| TU8
| TU16
| TU32
| TF32
| TStr (expected_len : Z).

Record ReadItem : Type := mkReadItem {
  process : Z;
  param : Z;
  ty : ParType;
}.

Record Request : Type := mkRequest {
  node : Z;
  items : list ReadItem;
}.

(** [VF32] holds the float's bits. *)
Inductive Value : Type :=
| VU8 (n : Z)
| VU16 (n : Z)
| VU32 (n : Z)
| VF32 (bits : Z)
| VStr (s : bytes).

Record Reply : Type := mkReply {
  reply_node : Z;
  values : list Value;
}.

Inductive ProParError : Type :=
| Protocol (code : Z)
| Status (code : Z)
| Framing
| OddHexDigits
| InvalidHex
| LengthMismatch (declared actual : Z)
| NodeMismatch (expected got : Z)
| UnexpectedCommand (command : Z)
| Truncated
| TypeMismatch (process param : Z).

#[export] Instance ParType_eq_dec : EqDecision ParType.
Proof. solve_decision. Defined.
#[export] Instance Value_eq_dec : EqDecision Value.
Proof. solve_decision. Defined.
#[export] Instance Reply_eq_dec : EqDecision Reply.
Proof. solve_decision. Defined.
#[export] Instance ProParError_eq_dec : EqDecision ProParError.
Proof. solve_decision. Defined.

Definition protocol_error_message (code : Z) : string :=
  match code with
  | 1 => "general error"
  | 2 => "general error"
  | 3 => "propar protocol error"
  | 4 => "propar protocol error (or CRC error)"
  | 5 => "destination node address rejected"
  | 8 => "general error"
  | 9 => "response message timeout"
  | _ => "unknown error code"
  end.

Definition status_message (code : Z) : string :=
  match code with
  | 0x00 => "no error"
  | 0x01 => "process claimed"
  | 0x02 => "command error"
  | 0x03 => "process error"
  | 0x04 => "parameter error"
  | 0x05 => "parameter type error"
  | 0x06 => "parameter value error"
  | 0x07 => "network not active"
  | 0x08 => "time-out start character"
  | 0x09 => "time-out serial line"
  | 0x0A => "hardware memory error"
  | 0x0B => "node number error"
  | 0x0C => "general communication error"
  | 0x0D => "read only parameter"
  | 0x0E => "error PC-communication"
  | 0x0F => "no RS232 connection"
  | 0x10 => "PC out of memory"
  | 0x11 => "write only parameter"
  | 0x12 => "system configuration unknown"
  | 0x13 => "no free node address"
  | 0x14 => "wrong interface type"
  | 0x15 => "error serial port connection"
  | 0x16 => "error opening communication"
  | 0x17 => "communication error"
  | 0x18 => "error interface bus master"
  | 0x19 => "timeout answer"
  | 0x1A => "no start character"
  | 0x1B => "error first digit"
  | 0x1C => "buffer overflow in host"
  | 0x1D => "buffer overflow"
  | 0x1E => "no answer found"
  | 0x1F => "error closing communication"
  | 0x20 => "synchronisation error"
  | 0x21 => "send error"
  | 0x22 => "protocol error"
  | 0x23 => "buffer overflow in module"
  | _ => "unknown status code"
  end.

(** The two-bit type tag on the wire. *)
Definition type_bits (t : ParType) : Z :=
  match t with
  | TU8 => 0
  | TU16 => 1
  | TU32 => 2
  | TF32 => 2
  | TStr _ => 3
  end.

(** ** Requests *)

(** [{b:02X}] of a byte. *)
Definition hex_digit (d : Z) : Z := if d <? 10 then 48 + d else 55 + d.
Definition hex_byte (b : Z) : bytes := [hex_digit (b / 16); hex_digit (b mod 16)].

Definition item_bytes (i : ReadItem) : bytes :=
  let param_byte := Z.lor (wrap 8 (Z.shiftl (type_bits (ty i)) 5)) (Z.land (param i) 31) in
  [Z.land (process i) 127; param_byte; Z.land (process i) 127; param_byte] ++
  match ty i with TStr l => [l] | _ => [] end.

(** The bytes of the request, before they are written in hexadecimal. *)
Definition request_body (r : Request) : bytes := [node r; 4] ++ concat (map item_bytes (items r)).

Definition to_ascii_line (r : Request) : bytes :=
  let body := request_body r in
  let length := wrap 8 (len body) in
  [58] ++ hex_byte length ++ concat (map hex_byte body) ++ [13; 10].

(** ** Replies *)

Definition hex_val (c : Z) : option Z :=
  if (48 <=? c) && (c <=? 57) then Some (c - 48)
  else if (65 <=? c) && (c <=? 70) then Some (c - 65 + 10)
  else if (97 <=? c) && (c <=? 102) then Some (c - 97 + 10)
  else None.

(** The loop of [hex_decode], two digits per turn; an odd last digit would be
    an index out of range. *)
Fixpoint hex_pairs (s : bytes) : rust (result bytes ProParError) :=
  match s with
  | [] => Val (Ok [])
  | [c] => match hex_val c with None => Val (Err InvalidHex) | Some _ => Panic end
  | c1 :: c2 :: s =>
      match hex_val c1, hex_val c2 with
      | Some hi, Some lo =>
          let! rest := hex_pairs s in
          Val (let? out := rest in Ok (Z.lor (wrap 8 (Z.shiftl hi 4)) lo :: out))
      | _, _ => Val (Err InvalidHex)
      end
  end.

Definition hex_decode (s : bytes) : rust (result bytes ProParError) :=
  if negb (Z.even (len s)) then Val (Err OddHexDigits) else hex_pairs s.

(** [trim_end_matches(['\0', ' '])]. *)
Fixpoint drop_blank (s : bytes) : bytes :=
  match s with
  | b :: s' => if (b =? 0) || (b =? 32) then drop_blank s' else s
  | [] => []
  end.

Definition trim_end (s : bytes) : bytes := rev (drop_blank (rev s)).

(** One value of the payload at [idx], and the index after it. *)
Definition decode_value (payload : bytes) (t : ParType) (idx : Z) : result (Value * Z) ProParError :=
  match t with
  | TU8 => let? b := ok_or (get payload idx) Truncated in Ok (VU8 b, idx + 1)
  | TU16 => let? s := ok_or (get_range payload idx (idx + 2)) Truncated in Ok (VU16 (be_val s), idx + 2)
  | TU32 => let? s := ok_or (get_range payload idx (idx + 4)) Truncated in Ok (VU32 (be_val s), idx + 4)
  | TF32 => let? s := ok_or (get_range payload idx (idx + 4)) Truncated in Ok (VF32 (be_val s), idx + 4)
  | TStr _ =>
      let? l := ok_or (get payload idx) Truncated in
      let idx := idx + 1 in
      let? raw := ok_or (get_range payload idx (idx + l)) Truncated in
      Ok (VStr (trim_end (from_utf8_lossy raw)), idx + l)
  end.

(** The loop of [decode_items]: [process byte] is expected unless the previous
    parameter byte chained. *)
Fixpoint decode_items_from (payload : bytes) (its : list ReadItem) (idx : Z) (expect_process : bool)
    : result (list Value) ProParError :=
  match its with
  | [] => Ok []
  | item :: its =>
      let? idx :=
        if expect_process then if len payload <=? idx then Err Truncated else Ok (idx + 1) else Ok idx in
      let? param_byte := ok_or (get payload idx) Truncated in
      let idx := idx + 1 in
      let chain := negb (Z.land param_byte 128 =? 0) in
      let wire_type := Z.land (Z.shiftr param_byte 5) 3 in
      if negb (wire_type =? type_bits (ty item)) then Err (TypeMismatch (process item) (param item))
      else
        let? (value, idx) := decode_value payload (ty item) idx in
        let? vs := decode_items_from payload its idx (negb chain) in
        Ok (value :: vs)
  end.

Definition decode_items (payload : bytes) (its : list ReadItem) : result (list Value) ProParError :=
  decode_items_from payload its 0 true.

(** [line.strip_suffix("\r\n")] and [strip_prefix(':')]. *)
Definition strip_crlf (line : bytes) : option bytes :=
  match rev line with
  | 10 :: 13 :: body => Some (rev body)
  | _ => None
  end.

Definition strip_colon (body : bytes) : option bytes :=
  match body with
  | 58 :: hex => Some hex
  | _ => None
  end.

(** What follows the length field, once the hexadecimal is decoded. *)
Definition parse_body (bs : bytes) (request : Request) : rust (result Reply ProParError) :=
  match bs with
  | [] => Val (Err Truncated)
  | length :: _ =>
      if length =? 1 then
        if negb (len bs =? 2) then Val (Err (LengthMismatch 1 (len bs - 1)))
        else let! code := index bs 1 in Val (Err (Protocol code))
      else if negb (len bs =? 1 + length) then Val (Err (LengthMismatch length (len bs - 1)))
      else
        let! got := index bs 1 in
        if negb (got =? node request) then Val (Err (NodeMismatch (node request) got))
        else
          let! command := index bs 2 in
          if command =? 0 then
            Val (let? status := ok_or (get bs 3) Truncated in Err (Status status))
          else if command =? 2 then
            let! payload := slice bs 3 (len bs) in
            Val (let? vs := decode_items payload (items request) in Ok (mkReply got vs))
          else Val (Err (UnexpectedCommand command))
  end.

Definition parse_reply (line : bytes) (request : Request) : rust (result Reply ProParError) :=
  match strip_crlf line with
  | None => Val (Err Framing)
  | Some body =>
      match strip_colon body with
      | None => Val (Err Framing)
      | Some hex =>
          let! bs := hex_decode hex in
          match bs with
          | Err e => Val (Err e)
          | Ok bs => parse_body bs request
          end
      end
  end.

(** ** The requests the driver makes *)

Definition ident_request (node : Z) : Request :=
  mkRequest node [mkReadItem 113 12 TU8; mkReadItem 113 2 (TStr 0); mkReadItem 113 3 (TStr 0);
                  mkReadItem 113 5 (TStr 0); mkReadItem 113 6 (TStr 0)].

Definition capacity_request (node : Z) : Request :=
  mkRequest node [mkReadItem 1 13 TF32; mkReadItem 1 31 (TStr 0); mkReadItem 1 17 (TStr 0);
                  mkReadItem 1 14 TU8].

Definition measure_request (node : Z) : Request :=
  mkRequest node [mkReadItem 33 0 TF32; mkReadItem 33 3 TF32; mkReadItem 1 0 TU16; mkReadItem 1 1 TU16;
                  mkReadItem 114 1 TU32; mkReadItem 33 7 TF32; mkReadItem 1 20 TU8; mkReadItem 1 4 TU8].

(** ** The device's side *)

(** How the device writes a value, and what the driver shows of it: a string
    comes padded with blanks or zeros. *)
Definition value_bytes (v : Value) : bytes :=
  match v with
  | VU8 n => [n]
  | VU16 n => be_bytes 2 n
  | VU32 n => be_bytes 4 n
  | VF32 bits => be_bytes 4 bits
  | VStr s => len s :: s
  end.

Definition shown (v : Value) : Value :=
  match v with
  | VStr s => VStr (trim_end (from_utf8_lossy s))
  | v => v
  end.

Definition typed (t : ParType) (v : Value) : Prop :=
  match t, v with
  | TU8, VU8 n => is_byte n
  | TU16, VU16 n => in_width 16 n
  | TU32, VU32 n => in_width 32 n
  | TF32, VF32 n => in_width 32 n
  | TStr _, VStr s => is_bytes s /\ len s <= 255
  | _, _ => False
  end.

(** One answered item: the item, its value, and whether its parameter byte
    chains; the process byte is repeated only after an item that does not. *)
Record Answer : Type := mkAnswer {
  a_item : ReadItem;
  a_value : Value;
  a_chain : bool;
}.

Definition param_byte (a : Answer) : Z :=
  (if a_chain a then 128 else 0) + 32 * type_bits (ty (a_item a)) + Z.land (param (a_item a)) 31.

Fixpoint answer_payload (expect_process : bool) (l : list Answer) : bytes :=
  match l with
  | [] => []
  | a :: l =>
      (if expect_process then [Z.land (process (a_item a)) 127] else []) ++ [param_byte a] ++
      value_bytes (a_value a) ++ answer_payload (negb (a_chain a)) l
  end.

Definition answer_line (node : Z) (l : list Answer) : bytes :=
  let body := [node; 2] ++ answer_payload true l in
  [58] ++ hex_byte (len body) ++ concat (map hex_byte body) ++ [13; 10].

(** ** Lemmas *)

Lemma hex_digit_val d : 0 <= d < 16 -> hex_val (hex_digit d) = Some d.
Proof.
  intros H. assert (Hd : In d [0;1;2;3;4;5;6;7;8;9;10;11;12;13;14;15]) by (cbn; lia).
  repeat destruct Hd as [<- | Hd]; done.
Qed.

Lemma hex_val_bound c d : hex_val c = Some d -> 0 <= d < 16.
Proof.
  unfold hex_val. intros H. repeat case_match; simplify_eq; lia.
Qed.

Lemma hex_pair_val hi lo : 0 <= hi < 16 -> 0 <= lo < 16 -> Z.lor (wrap 8 (Z.shiftl hi 4)) lo = 16 * hi + lo.
Proof.
  intros Hh Hl. assert (Hs : Z.shiftl hi 4 = hi * 16) by (rewrite Z.shiftl_mul_pow2; lia).
  rewrite Hs, wrap_small by (unfold in_width; lia). rewrite <- Hs.
  rewrite lor_shiftl_add; lia.
Qed.

Lemma hex_pairs_hex bs : is_bytes bs -> hex_pairs (concat (map hex_byte bs)) = Val (Ok bs).
Proof.
  induction 1 as [| b bs Hb _ IH]; [done |]. unfold is_byte in Hb.
  cbn -[Z.div Z.modulo Z.shiftl wrap hex_val]. rewrite !hex_digit_val by (Z.div_mod_to_equations; lia).
  rewrite IH. cbn -[Z.div Z.modulo Z.shiftl wrap]. rewrite hex_pair_val by (Z.div_mod_to_equations; lia).
  repeat f_equal. Z.div_mod_to_equations. lia.
Qed.

Lemma len_hex bs : len (concat (map hex_byte bs)) = 2 * len bs.
Proof.
  induction bs as [| b bs IH]; [done |]. cbn [map concat]. rewrite len_app, len_cons, IH.
  change (len (hex_byte b)) with 2. lia.
Qed.

Lemma hex_decode_hex bs : is_bytes bs -> hex_decode (concat (map hex_byte bs)) = Val (Ok bs).
Proof.
  intros H. unfold hex_decode. rewrite len_hex, Z.even_mul. by apply hex_pairs_hex.
Qed.

Lemma strip_line body : strip_crlf (body ++ [13; 10]) = Some body.
Proof. unfold strip_crlf. rewrite rev_app_distr. cbn. by rewrite rev_involutive. Qed.

(** The hexadecimal of a line is even, so its decoding never indexes past the end. *)
Lemma hex_pairs_even s : Z.even (len s) = true -> hex_pairs s <> Panic /\ hex_pairs s <> OutOfFuel.
Proof.
  revert s. assert (Hn : forall n s, (length s <= n)%nat -> Z.even (len s) = true ->
    hex_pairs s <> Panic /\ hex_pairs s <> OutOfFuel).
  { induction n as [| n IH]; intros [| c1 [| c2 s]] Hl He; cbn in Hl; try lia; try done.
    cbn [hex_pairs]. destruct (hex_val c1), (hex_val c2); try done.
    destruct (IH s) as [? ?]; [lia | |].
    { rewrite !len_cons in He. rewrite <- He. replace (1 + (1 + len s)) with (len s + 2) by lia.
      by rewrite Z.even_add, xorb_false_r || (rewrite Z.even_add; by destruct (Z.even (len s))). }
    by destruct (hex_pairs s). }
  intros s. by eapply Hn.
Qed.

Lemma hex_decode_total s : exists r, hex_decode s = Val r.
Proof.
  unfold hex_decode. destruct (Z.even (len s)) eqn:E; cbn [negb]; [| by eexists].
  destruct (hex_pairs_even s E). destruct (hex_pairs s); [by eexists | done | done].
Qed.

Lemma hex_pairs_bytes s bs : hex_pairs s = Val (Ok bs) -> is_bytes bs /\ len s = 2 * len bs.
Proof.
  revert bs. assert (Hn : forall n s bs, (length s <= n)%nat -> hex_pairs s = Val (Ok bs) ->
    is_bytes bs /\ len s = 2 * len bs).
  { induction n as [| n IH]; intros [| c1 [| c2 s']] bs Hl He; cbn in Hl; try lia;
      cbn [hex_pairs] in He; try (injection He as <-; done).
    - by destruct (hex_val c1).
    - destruct (hex_val c1) as [hi |] eqn:E1; [| done]. destruct (hex_val c2) as [lo |] eqn:E2; [| done].
      apply hex_val_bound in E1, E2. destruct (hex_pairs s') as [[out | e] | |] eqn:Es; [| done | done | done].
      cbn -[wrap Z.shiftl] in He. injection He as <-. destruct (IH s' out) as [? ?]; [lia | done |].
      rewrite !len_cons. split; [| lia]. constructor; [| done]. rewrite hex_pair_val by done.
      unfold is_byte. lia. }
  intros bs. by eapply Hn.
Qed.

Lemma get_at {A : Type} (pre s : list A) x : get (pre ++ x :: s) (len pre) = Some x.
Proof.
  unfold get. pose proof (len_nonneg pre). bdecide. unfold len. rewrite Nat2Z.id.
  by rewrite lookup_app_r, Nat.sub_diag by lia.
Qed.

Lemma get_range_at {A : Type} (pre m s : list A) n :
  n = len m -> get_range (pre ++ m ++ s) (len pre) (len pre + n) = Some m.
Proof.
  intros ->. unfold get_range. pose proof (len_nonneg pre). pose proof (len_nonneg m). pose proof (len_nonneg s).
  rewrite !len_app. bdecide. cbn [andb]. rewrite sub_drop by lia. unfold len. rewrite !Nat2Z.id.
  by rewrite drop_app_length, take_app_length.
Qed.

Lemma param_bits_ok : forallb (fun ct => forallb (fun p =>
    Bool.eqb (negb (Z.land (fst ct + 32 * snd ct + p) 128 =? 0)) (fst ct =? 128) &&
    (Z.land (Z.shiftr (fst ct + 32 * snd ct + p) 5) 3 =? snd ct)) (seqZ 0 32))
  (list_prod [0; 128] (seqZ 0 4)) = true.
Proof. vm_compute. reflexivity. Qed.

Lemma param_byte_bits a :
  negb (Z.land (param_byte a) 128 =? 0) = a_chain a /\
  Z.land (Z.shiftr (param_byte a) 5) 3 = type_bits (ty (a_item a)) /\ is_byte (param_byte a).
Proof.
  unfold param_byte. set (p := Z.land _ 31). set (t := type_bits _). set (c := if a_chain a then 128 else 0).
  assert (Hp : 0 <= p < 32).
  { unfold p. change 31 with (Z.ones 5). rewrite Z.land_ones by lia. by apply Z.mod_pos_bound. }
  assert (Ht : 0 <= t < 4) by (unfold t; destruct (ty (a_item a)); cbn; lia).
  assert (Hc : (c =? 128) = a_chain a) by (unfold c; by destruct (a_chain a)).
  pose proof param_bits_ok as H. rewrite forallb_forall in H. specialize (H (c, t)).
  cbn [fst snd] in H. rewrite forallb_forall in H.
  assert (Hin : In (c, t) (list_prod [0; 128] (seqZ 0 4))).
  { apply in_prod; [unfold c; destruct (a_chain a); cbn; auto |]. apply list_elem_of_In, elem_of_seqZ. lia. }
  specialize (H Hin p).
  assert (Hpin : In p (seqZ 0 32)) by (apply list_elem_of_In, elem_of_seqZ; lia).
  specialize (H Hpin). apply andb_prop in H as [H1 H2]. apply Bool.eqb_prop in H1. rewrite Hc in H1.
  split_and!; [exact H1 | lia |]. unfold is_byte, c. destruct (a_chain a); lia.
Qed.

Lemma be_val_bytes n v : 0 <= v < 256 ^ Z.of_nat n -> be_val (be_bytes n v) = v.
Proof. apply (uint_val_uint_bytes false). Qed.

Lemma decode_value_at t v pre suf :
  typed t v ->
  decode_value (pre ++ value_bytes v ++ suf) t (len pre) = Ok (shown v, len pre + len (value_bytes v)).
Proof.
  intros Ht. destruct t, v; try done; cbn [typed] in Ht; cbn [value_bytes decode_value shown].
  - cbn [app]. by rewrite get_at.
  - rewrite get_range_at by (unfold len; by rewrite length_be_bytes).
    cbn [ok_or result_bind]. rewrite be_val_bytes by (unfold in_width in Ht; lia).
    unfold len. by rewrite length_be_bytes.
  - rewrite get_range_at by (unfold len; by rewrite length_be_bytes).
    cbn [ok_or result_bind]. rewrite be_val_bytes by (unfold in_width in Ht; lia).
    unfold len. by rewrite length_be_bytes.
  - rewrite get_range_at by (unfold len; by rewrite length_be_bytes).
    cbn [ok_or result_bind]. rewrite be_val_bytes by (unfold in_width in Ht; lia).
    unfold len. by rewrite length_be_bytes.
  - cbn [app]. rewrite get_at. cbn [ok_or result_bind].
    pose proof (get_range_at (pre ++ [len s]) s suf (len s) eq_refl) as Hg.
    rewrite <- app_assoc, len_app in Hg. cbn [app] in Hg. change (len [len s]) with 1 in Hg.
    rewrite Hg. cbn [ok_or result_bind]. rewrite len_cons. do 2 f_equal. lia.
Qed.

Lemma decode_items_at l pre suf expect :
  Forall (fun a => typed (ty (a_item a)) (a_value a)) l ->
  decode_items_from (pre ++ answer_payload expect l ++ suf) (map a_item l) (len pre) expect =
  Ok (map (fun a => shown (a_value a)) l).
Proof.
  intros Hl. revert pre expect. induction Hl as [| a l Ha Hl IH]; intros pre expect; [done |].
  cbn [map answer_payload decode_items_from].
  destruct (param_byte_bits a) as (Hchain & Htype & _).
  set (head := if expect then [Z.land (process (a_item a)) 127] else []).
  assert (Hp : forall p, (if expect then if len (pre ++ (head ++ p) ++ suf) <=? len pre then Err Truncated
             else Ok (len pre + 1) else Ok (len pre)) = @Ok Z ProParError (len (pre ++ head))).
  { intros p. unfold head. destruct expect; rewrite !len_app; [| by rewrite len_nil, Z.add_0_r].
    change (len [Z.land (process (a_item a)) 127]) with 1. pose proof (len_nonneg p).
    pose proof (len_nonneg suf). by bdecide. }
  rewrite Hp. cbn [result_bind].
  set (rest := answer_payload (negb (a_chain a)) l). set (vb := value_bytes (a_value a)).
  set (P := pre ++ _ ++ suf).
  assert (E1 : P = (pre ++ head) ++ param_byte a :: (vb ++ rest ++ suf)).
  { unfold P. by rewrite <- !app_assoc. }
  assert (E2 : P = ((pre ++ head) ++ [param_byte a]) ++ vb ++ (rest ++ suf)).
  { rewrite E1. by rewrite <- !app_assoc. }
  assert (E3 : P = (((pre ++ head) ++ [param_byte a]) ++ vb) ++ rest ++ suf).
  { rewrite E2. by rewrite <- !app_assoc. }
  assert (G1 : get P (len (pre ++ head)) = Some (param_byte a)) by (rewrite E1; apply get_at).
  assert (L1 : len ((pre ++ head) ++ [param_byte a]) = len (pre ++ head) + 1) by apply len_app.
  pose proof (decode_value_at _ _ ((pre ++ head) ++ [param_byte a]) (rest ++ suf) Ha) as G2.
  fold vb in G2. rewrite <- E2, L1 in G2.
  pose proof (IH (((pre ++ head) ++ [param_byte a]) ++ vb) (negb (a_chain a))) as G3.
  fold rest in G3. rewrite <- E3, len_app, L1 in G3.
  rewrite G1. cbn [ok_or result_bind]. rewrite Hchain, Htype, Z.eqb_refl. cbn [negb].
  rewrite G2. cbn [result_bind]. by rewrite G3.
Qed.

Lemma answer_payload_bytes expect l :
  Forall (fun a => typed (ty (a_item a)) (a_value a)) l -> is_bytes (answer_payload expect l).
Proof.
  intros Hl. revert expect. induction Hl as [| a l Ha Hl IH]; intros expect; [constructor |].
  cbn [answer_payload]. repeat apply Forall_app_2.
  - destruct expect; [| constructor]. constructor; [| constructor]. unfold is_byte. change 127 with (Z.ones 7).
    rewrite Z.land_ones by lia. pose proof (Z.mod_pos_bound (process (a_item a)) (2 ^ 7)). lia.
  - constructor; [by apply param_byte_bits | constructor].
  - destruct (ty (a_item a)), (a_value a); try done; cbn [typed] in Ha; cbn [value_bytes];
      try (apply (uint_bytes_are_bytes false)); [by constructor |].
    destruct Ha as [? ?]. constructor; [| done]. pose proof (len_nonneg s). unfold is_byte. lia.
  - apply IH.
Qed.

Lemma parse_line body request :
  is_bytes body -> 2 <= len body <= 255 ->
  parse_reply ([58] ++ hex_byte (len body) ++ concat (map hex_byte body) ++ [13; 10]) request =
  parse_body (len body :: body) request.
Proof.
  intros Hb Hl. unfold parse_reply. rewrite !app_assoc, strip_line, <- app_assoc. cbn [app strip_colon].
  change (hex_byte (len body) ++ concat (map hex_byte body)) with (concat (map hex_byte (len body :: body))).
  rewrite hex_decode_hex; [done |]. constructor; [| done]. unfold is_byte. lia.
Qed.

(** ASCII text is shown without its trailing padding. *)
Lemma trim_end_pad s pad :
  Forall (fun b => b = 0 \/ b = 32) pad -> trim_end (s ++ pad) = trim_end s.
Proof.
  intros Hp. unfold trim_end. f_equal. rewrite rev_app_distr.
  apply Forall_rev in Hp. change (rev pad) with (reverse pad) in * || idtac.
  induction Hp as [| b l Hb _ IH]; [done |]. cbn. by destruct Hb as [-> | ->].
Qed.

(** Whatever the device answers is read back exactly: for every list of
    items, values of the requested types and every use the device makes of the
    chain bit (repeating or omitting the process bytes accordingly), the reply
    line decodes to the values in order, a text losing only the blanks and zeros
    it was padded with; and a request line is its node, the read command and its
    items behind their count, whatever they are: the driver cannot write. *)
Theorem propar_roundtrip (n : Z) (l : list Answer) (r : Request)
    (Hn : is_byte n) (Hl : Forall (fun a => typed (ty (a_item a)) (a_value a)) l)
    (Hlen : len (answer_payload true l) <= 253) (Hr : is_bytes (request_body r)) :
  parse_reply (answer_line n l) (mkRequest n (map a_item l)) =
    Val (Ok (mkReply n (map (fun a => shown (a_value a)) l))) /\
  (forall text pad, Forall (fun b => 0 <= b < 128) text -> Forall (fun b => b = 0 \/ b = 32) pad ->
     shown (VStr (text ++ pad)) = VStr (trim_end text)) /\
  exists hex, strip_crlf (to_ascii_line r) = Some (58 :: hex) /\
    hex_decode hex = Val (Ok (wrap 8 (len (request_body r)) :: request_body r)) /\
    request_body r !! 0%nat = Some (node r) /\ request_body r !! 1%nat = Some 4.
Proof.
  split_and!.
  - set (P := answer_payload true l) in *. pose proof (len_nonneg P).
    assert (Hbody : len ([n; 2] ++ P) = 2 + len P) by (rewrite len_app; done).
    unfold answer_line. rewrite parse_line; [| | fold P; lia].
    2: { constructor; [exact Hn |]. constructor; [done | by apply answer_payload_bytes]. }
    fold P. unfold parse_body. rewrite Hbody. bdecide. rewrite len_cons, Hbody. bdecide. cbn [negb].
    change (index (2 + len P :: [n; 2] ++ P) 1) with (Val n). cbn [rust_bind node]. rewrite Z.eqb_refl.
    cbn [negb]. change (index (2 + len P :: [n; 2] ++ P) 2) with (Val 2). cbn [rust_bind].
    rewrite slice_val by (rewrite ?len_cons, ?Hbody; lia). cbn [rust_bind]. change (2 =? 0) with false. change (2 =? 2) with true. cbn iota.
    replace (1 + (2 + len P)) with (3 + len P) by lia. rewrite sub_drop by lia.
    change (drop (Z.to_nat 3) (2 + len P :: [n; 2] ++ P)) with P.
    rewrite take_ge by (unfold len; lia). unfold decode_items. cbn [items].
    pose proof (decode_items_at l [] [] true Hl) as Hd. rewrite app_nil_r in Hd. cbn [app] in Hd.
    change (len []) with 0 in Hd. fold P in Hd. by rewrite Hd.
  - intros text pad Ht Hp. cbn [shown]. f_equal. unfold from_utf8_lossy.
    rewrite lossy_ascii; [by apply trim_end_pad | done |].
    apply Forall_app. split; [done |]. eapply List.Forall_impl; [| exact Hp]. cbn. lia.
  - unfold to_ascii_line. eexists. rewrite !app_assoc, strip_line. split; [reflexivity |]. split; [| by split].
    rewrite <- (hex_decode_hex (wrap 8 (len (request_body r)) :: request_body r)); [done |].
    constructor; [| done]. apply (wrap_in_width 8). lia.
Qed.

(** A decoded value has the requested type and fits it. *)
Definition fits (t : ParType) (v : Value) : Prop :=
  match t, v with
  | TStr _, VStr _ => True
  | t, v => typed t v
  end.

Lemma get_byte payload i b : is_bytes payload -> get payload i = Some b -> is_byte b.
Proof.
  unfold get. intros Hp. destruct (0 <=? i); [| done]. intros Hi. by eapply Forall_lookup_1.
Qed.

Lemma get_range_bytes payload a n s :
  is_bytes payload -> 0 <= n -> get_range payload a (a + n) = Some s -> is_bytes s /\ len s = n.
Proof.
  unfold get_range. intros Hp Hn. destruct ((0 <=? a) && _ && _) eqn:E; [| done]. intros [= <-].
  apply andb_prop in E as [E E3]. apply andb_prop in E as [E1 E2].
  split; [by apply Forall_take, Forall_drop | rewrite len_sub; lia].
Qed.

Lemma be_val_width n s : is_bytes s -> len s = n -> 0 <= be_val s < 256 ^ n.
Proof.
  intros Hs <-. unfold be_val. replace (len s) with (len (rev s)) by (unfold len; by rewrite length_rev).
  by apply le_val_bound, Forall_rev.
Qed.

Lemma decode_value_fits payload t idx v idx' :
  is_bytes payload -> decode_value payload t idx = Ok (v, idx') -> fits t v.
Proof.
  intros Hp. unfold decode_value. destruct t; cbn [fits typed].
  - destruct (get payload idx) eqn:E; [| done]. cbn. intros [= <- <-]. cbn. by eapply get_byte.
  - destruct (get_range _ _ _) eqn:E; [| done]. cbn -[be_val]. intros [= <- <-].
    apply get_range_bytes in E as [? ?]; [| done | lia]. by apply (be_val_width 2).
  - destruct (get_range _ _ _) eqn:E; [| done]. cbn -[be_val]. intros [= <- <-].
    apply get_range_bytes in E as [? ?]; [| done | lia]. by apply (be_val_width 4).
  - destruct (get_range _ _ _) eqn:E; [| done]. cbn -[be_val]. intros [= <- <-].
    apply get_range_bytes in E as [? ?]; [| done | lia]. by apply (be_val_width 4).
  - destruct (get payload idx); [| done]. cbn. destruct (get_range _ _ _); [| done]. cbn.
    by intros [= <- <-].
Qed.

Lemma decode_items_fit payload its idx expect vs :
  is_bytes payload -> decode_items_from payload its idx expect = Ok vs ->
  Forall2 (fun i v => fits (ty i) v) its vs.
Proof.
  intros Hp. revert idx expect vs. induction its as [| i its IH]; intros idx expect vs; cbn [decode_items_from].
  { intros [= <-]. constructor. }
  destruct (if expect then _ else _) as [idx1 | e]; [| done]. cbn [result_bind].
  destruct (get payload idx1) as [pb |]; [| done]. cbn [ok_or result_bind].
  destruct (negb _); [done |].
  destruct (decode_value payload (ty i) (idx1 + 1)) as [[v idx2] | e] eqn:Ev; [| done]. cbn [result_bind].
  destruct (decode_items_from payload its idx2 _) as [vs' | e] eqn:Es; [| done]. cbn [result_bind].
  intros [= <-]. constructor; [by eapply decode_value_fits | by eapply IH].
Qed.

Lemma index_some {A : Type} (l : list A) i : 0 <= i < len l -> exists x, index l i = Val x.
Proof. intros H. destruct (index_in_range l i H) as (x & Hx & _). by exists x. Qed.

(** The body of a reply: only the one-byte reply "00" panics. *)
Lemma parse_body_cases bs request :
  is_bytes bs ->
  (parse_body bs request = Panic <-> bs = [0]) /\ parse_body bs request <> OutOfFuel /\
  forall rep, parse_body bs request = Val (Ok rep) ->
    reply_node rep = node request /\ Forall2 (fun i v => fits (ty i) v) (items request) (values rep) /\
    exists rest, bs = (len bs - 1) :: rest /\ rest !! 0%nat = Some (node request) /\ rest !! 1%nat = Some 2.
Proof.
  intros Hb. destruct bs as [| l bs]; [by split_and! |]. unfold parse_body.
  assert (Hl : is_byte l) by by inversion Hb. unfold is_byte in Hl.
  destruct (Z.eqb_spec l 1) as [-> | Hl1].
  { destruct (Z.eqb_spec (len (1 :: bs)) 2) as [E | E]; cbn [negb]; [| by split_and!].
    destruct (index_some (1 :: bs) 1) as [x ->]; [lia |]. by split_and!. }
  destruct (Z.eqb_spec (len (l :: bs)) (1 + l)) as [E | E]; cbn [negb].
  2: { split_and!; try done. split; [done |]. intros [= -> ->]. by unfold len in E. }
  rewrite len_cons in E. assert (El : len bs = l) by lia.
  destruct bs as [| got bs].
  { change (len []) with 0 in El. subst l. by split_and!. }
  change (index (l :: got :: bs) 1) with (Val got). cbn [rust_bind].
  destruct (Z.eqb_spec got (node request)) as [-> |]; cbn [negb]; [| by split_and!].
  destruct bs as [| command bs]; [by rewrite <- El in Hl1 |].
  change (index (l :: node request :: command :: bs) 2) with (Val command). cbn [rust_bind].
  destruct (Z.eqb_spec command 0) as [-> |]; [by split_and!; destruct (get _ 3) |].
  destruct (Z.eqb_spec command 2) as [-> |]; [| by split_and!].
  rewrite slice_val by (rewrite !len_cons; pose proof (len_nonneg bs); lia). cbn [rust_bind].
  set (payload := sub _ _ _).
  assert (Hp : is_bytes payload) by by apply Forall_take, Forall_drop.
  unfold decode_items. destruct (decode_items_from payload _ _ _) as [vs | e] eqn:Ed; cbn [result_bind];
    split_and!; try done.
  intros rep [= <-]. split_and!; [done | by eapply decode_items_fit |].
  exists (node request :: 2 :: bs). split_and!; [| done | done]. f_equal. rewrite len_cons, El. lia.
Qed.

(** An arbitrary line, decoded. *)
Lemma parse_reply_cases (line : bytes) (request : Request) :
  (parse_reply line request = Panic <-> line = [58; 48; 48; 13; 10]) /\
  parse_reply line request <> OutOfFuel /\
  forall rep, parse_reply line request = Val (Ok rep) ->
    reply_node rep = node request /\ Forall2 (fun i v => fits (ty i) v) (items request) (values rep) /\
    exists hex bs rest, line = 58 :: hex ++ [13; 10] /\ hex_decode hex = Val (Ok bs) /\
      bs = (len bs - 1) :: rest /\ rest !! 0%nat = Some (node request) /\ rest !! 1%nat = Some 2.
Proof.
  destruct (strip_crlf line) as [body |] eqn:Es.
  2: { unfold parse_reply. rewrite Es. split_and!; try done. split; [done |]. by intros ->. }
  assert (Hline : line = body ++ [13; 10]).
  { unfold strip_crlf in Es. rewrite <- (rev_involutive line).
    repeat case_match; simplify_eq. cbn. by rewrite <- app_assoc. }
  destruct (strip_colon body) as [hex |] eqn:Ec.
  2: { unfold parse_reply. rewrite Es, Ec. split_and!; try done. split; [done |]. intros ->.
       injection Es as <-. done. }
  assert (Hbody : body = 58 :: hex).
  { unfold strip_colon in Ec. repeat case_match; by simplify_eq. }
  destruct (hex_decode_total hex) as [r Hr].
  assert (Hp : parse_reply line request = match r with Err e => Val (Err e) | Ok bs => parse_body bs request end).
  { unfold parse_reply. by rewrite Es, Ec, Hr. }
  rewrite Hp. subst body. destruct r as [bs | e].
  2: { split_and!; try done. split; [done |]. intros ->. injection Es as <-. vm_compute in Hr. done. }
  assert (Hbs : is_bytes bs /\ len hex = 2 * len bs).
  { unfold hex_decode in Hr. destruct (negb _); [done |]. by apply hex_pairs_bytes. }
  destruct Hbs as [Hbytes Hlen]. destruct (parse_body_cases bs request Hbytes) as (Hpanic & Hfuel & Hok).
  split_and!; [| done |].
  - rewrite Hpanic. split.
    + intros ->. rewrite Hline. change (len [0]) with 1 in Hlen.
      destruct hex as [| c1 [| c2 [| c3 hex]]]; rewrite ?len_cons in Hlen; try (pose proof (len_nonneg hex); lia);
        try (unfold len in Hlen; cbn in Hlen; lia).
      unfold hex_decode in Hr. cbn -[wrap Z.shiftl hex_val] in Hr.
      destruct (hex_val c1) as [hi |] eqn:E1; [| done]. destruct (hex_val c2) as [lo |] eqn:E2; [| done].
      cbn -[wrap Z.shiftl] in Hr. injection Hr as Hz.
      pose proof (hex_val_bound _ _ E1). pose proof (hex_val_bound _ _ E2).
      rewrite hex_pair_val in Hz by done. assert (hi = 0 /\ lo = 0) as [-> ->] by lia.
      assert (Hc : forall c, hex_val c = Some 0 -> c = 48).
      { intros c. unfold hex_val. intros Hc. repeat case_match; simplify_eq; lia. }
      by rewrite (Hc c1 E1), (Hc c2 E2).
    + intros E. rewrite E in Es. injection Es as <-. vm_compute in Hr. congruence.
  - intros rep Hrep. destruct (Hok rep Hrep) as (? & ? & rest & ? & ? & ?). split_and!; try done.
    exists hex, bs, rest. by split_and!.
Qed.

(** Decoding an arbitrary line never loops and panics on exactly one line,
    the colon followed by a zero length and nothing else; an accepted reply
    comes from the node that was asked and holds one value of the requested type
    and width per item; and nothing is accepted but a framed line whose length
    byte counts the rest. *)
Theorem propar_reply_safe (line : bytes) (request : Request) :
  (parse_reply line request = Panic <-> line = [58; 48; 48; 13; 10]) /\
  parse_reply line request <> OutOfFuel /\
  forall rep, parse_reply line request = Val (Ok rep) ->
    reply_node rep = node request /\ Forall2 (fun i v => fits (ty i) v) (items request) (values rep) /\
    exists hex bs rest, line = 58 :: hex ++ [13; 10] /\ hex_decode hex = Val (Ok bs) /\
      bs = (len bs - 1) :: rest /\ rest !! 0%nat = Some (node request) /\ rest !! 1%nat = Some 2.
Proof. apply parse_reply_cases. Qed.

(** Node 3: the measure omits the process byte of the chained setpoint, the
    unit comes padded. *)
Definition sample_answer : list Answer :=
  [mkAnswer (mkReadItem 1 0 TU16) (VU16 32000) true; mkAnswer (mkReadItem 1 1 TU16) (VU16 1) false;
   mkAnswer (mkReadItem 1 31 (TStr 7)) (VStr [107; 103; 47; 104; 32; 32; 32]) false].

Lemma propar_roundtrip_witness :
  len (answer_line 3 sample_answer) = 43 /\
  parse_reply (answer_line 3 sample_answer) (mkRequest 3 (map a_item sample_answer)) =
    Val (Ok (mkReply 3 [VU16 32000; VU16 1; VStr [107; 103; 47; 104]])) /\
  is_bytes (request_body (measure_request 3)).
Proof.
  assert (Hr : is_bytes (request_body (measure_request 3))).
  { apply (bool_decide_unpack _). vm_compute. exact I. }
  split; [vm_compute; reflexivity |]. split; [| exact Hr].
  destruct (propar_roundtrip 3 sample_answer (measure_request 3)) as [H _].
  - unfold is_byte. lia.
  - constructor; [cbn; unfold in_width; lia |]. constructor; [cbn; unfold in_width; lia |].
    constructor; [| constructor]. split; [| vm_compute; discriminate].
    apply (bool_decide_unpack _). vm_compute. exact I.
  - vm_compute. discriminate.
  - exact Hr.
  - etrans; [exact H |]. vm_compute. reflexivity.
Defined.

(** The line of a zero length and nothing else: an index out of range. *)
Lemma zero_length_reply_panics : parse_reply [58; 48; 48; 13; 10] (measure_request 3) = Panic.
Proof. vm_compute. reflexivity. Qed.

(** The line that panics, and an accepted one. *)
Lemma propar_reply_safe_witness :
  parse_reply [58; 48; 48; 13; 10] (measure_request 3) = Panic /\
  exists rep, parse_reply (answer_line 3 sample_answer) (mkRequest 3 (map a_item sample_answer)) = Val (Ok rep) /\
              reply_node rep = 3.
Proof.
  split; [exact (proj2 (proj1 (propar_reply_safe [58; 48; 48; 13; 10] (measure_request 3))) eq_refl) |].
  eexists. split; [vm_compute; reflexivity |].
  refine (proj1 (proj2 (proj2 (propar_reply_safe (answer_line 3 sample_answer)
    (mkRequest 3 (map a_item sample_answer)))) _ _)).
  vm_compute. reflexivity.
Defined.
