(* ===== verification/State.v ===== *)
(** * State: the persistent run number

    Models [src/state.rs]: how the controller takes the next run number from the
    state file and persists the following one through a temporary file and a
    rename.  The disk is explicit; every system call can fail, the write of the
    temporary file can stop half-way, and the process can die anywhere.  The
    JSON text of the file is [serde_json]'s: an interface with its law. *)

From stdpp Require Import strings sorting.
From S2P Require Import Prelude Bytes.
Open Scope Z_scope.

(** What [serde_json] does to the one-field state file. *)
Class StateJson := {
  to_json : Z -> result bytes string;
  from_json : bytes -> result Z string;
}.

(** A [u32] survives the round trip, and only a [u32] is read. *)
Class StateJsonLaws `{StateJson} : Prop := {
  law_round : forall n, in_width 32 n -> exists text, to_json n = Ok text /\ from_json text = Ok n;
  law_width : forall text n, from_json text = Ok n -> in_width 32 n;
}.

Inductive StateError : Type :=
| Io (path source : string)
| Decode (path source : string)
| Encode (source : string)
| Overflow.

(** The state file and the temporary file beside it. *)
Record Disk : Type := mkDisk {
  state_file : option bytes;
  tmp_file : option bytes;
}.
#[export] Instance Disk_eta : Eta Disk := fun d => mkDisk (state_file d) (tmp_file d).

(** How a system call goes: done, failed, or the process dies in it.  A write
    that does not finish leaves any content; a rename is atomic, and a process
    that dies in it has renamed or not. *)
Inductive WriteGoes : Type := Written | WriteFailed (kept : option bytes) (e : string) | WriteDies (kept : option bytes).
Inductive RenameGoes : Type := Renamed | RenameFailed (e : string) | RenameDies (renamed : bool).

Record Goes : Type := mkGoes {
  read_fails : option string;
  write_goes : WriteGoes;
  rename_goes : RenameGoes;
  dies_before_return : bool;
}.

Section state.
Context `{StateJson}.
Variable path : string.

Definition tmp_path_for (path : string) : string := path +:+ ".tmp".

(** What a call leaves: its result, or nothing if the process died in it. *)
Definition Call (A : Type) : Type := option (result A StateError) * Disk.

Definition read_next_run (g : Goes) (d : Disk) : result Z StateError :=
  match read_fails g with
  | Some e => Err (Io path e)
  | None =>
      match state_file d with
      | None => Ok 1
      | Some text =>
          match from_json text with
          | Ok n => Ok n
          | Err e => Err (Decode path e)
          end
      end
  end.

Definition persist_next_run (next_run : Z) (g : Goes) (d : Disk) : Call unit :=
  match to_json next_run with
  | Err e => (Some (Err (Encode e)), d)
  | Ok json =>
      match write_goes g with
      | WriteFailed kept e => (Some (Err (Io (tmp_path_for path) e)), d <| tmp_file := kept |>)
      | WriteDies kept => (None, d <| tmp_file := kept |>)
      | Written =>
          let d := d <| tmp_file := Some json |> in
          let renamed := mkDisk (tmp_file d) None in
          match rename_goes g with
          | RenameFailed e => (Some (Err (Io path e)), d)
          | RenameDies happened => (None, if happened then renamed else d)
          | Renamed => (Some (Ok tt), renamed)
          end
      end
  end.

Definition take_next_run (g : Goes) (d : Disk) : Call Z :=
  match read_next_run g d with
  | Err e => (Some (Err e), d)
  | Ok current =>
      if 2 ^ 32 <=? current + 1 then (Some (Err Overflow), d)
      else
        match persist_next_run (current + 1) g d with
        | (None, d) => (None, d)
        | (Some (Err e), d) => (Some (Err e), d)
        | (Some (Ok _), d) => (if dies_before_return g then None else Some (Ok current), d)
        end
  end.

Definition set_next_run (n : Z) (g : Goes) (d : Disk) : Call unit := persist_next_run n g d.

(** Calls one after another, through any number of restarts. *)
Fixpoint take_all (gs : list Goes) (d : Disk) : list (option (result Z StateError)) * Disk :=
  match gs with
  | [] => ([], d)
  | g :: gs =>
      let '(r, d) := take_next_run g d in
      let '(rs, d) := take_all gs d in
      (r :: rs, d)
  end.

(** The numbers handed out. *)
Definition handed_out (rs : list (option (result Z StateError))) : list Z :=
  omap (fun r => match r with Some (Ok n) => Some n | _ => None end) rs.

(** The number the disk stands at: what a read that does not fail returns. *)
Definition stands_at (d : Disk) : option Z :=
  match state_file d with
  | None => Some 1
  | Some text => match from_json text with Ok n => Some n | Err _ => None end
  end.
End state.

(** ** Lemmas *)

Section lemmas.
Context `{StateJsonLaws}.

Lemma persist_cases path n g d :
  in_width 32 n ->
  let '(r, d') := persist_next_run path n g d in
  (r = Some (Ok tt) /\ stands_at d' = Some n) \/
  ((r = None \/ exists e, r = Some (Err e)) /\ (state_file d' = state_file d \/ stands_at d' = Some n)).
Proof.
  intros Hn. destruct (law_round n Hn) as (text & Ht & Hf). unfold persist_next_run. rewrite Ht.
  destruct (write_goes g) as [| kept e | kept].
  - destruct (rename_goes g) as [| e | []]; cbn.
    + left. split; [done |]. unfold stands_at. cbn. by rewrite Hf.
    + right. eauto.
    + right. split; [by left |]. right. unfold stands_at. cbn. by rewrite Hf.
    + right. eauto.
  - right. eauto.
  - right. eauto.
Qed.

(** One call: what it returns is what the disk stood at, and the disk then
    stands past it; a call that returns nothing leaves the disk or skips one. *)
Lemma take_cases path g d :
  let '(r, d') := take_next_run path g d in
  match r with
  | Some (Ok n) => in_width 32 n /\ stands_at d = Some n /\ stands_at d' = Some (n + 1)
  | _ => state_file d' = state_file d \/
         exists n, stands_at d = Some n /\ in_width 32 n /\ stands_at d' = Some (n + 1)
  end.
Proof.
  unfold take_next_run.
  destruct (read_next_run path g d) as [n | e] eqn:Er; [| by left].
  assert (Hn : stands_at d = Some n /\ in_width 32 n).
  { unfold read_next_run in Er. destruct (read_fails g); [done |]. unfold stands_at.
    destruct (state_file d) as [text |]; [| by injection Er as <-].
    destruct (from_json text) as [m | e] eqn:Ef; [| done]. injection Er as <-.
    split; [done | by eapply law_width]. }
  destruct Hn as [Hat Hw]. destruct (Z.leb_spec (2 ^ 32) (n + 1)); [by left |].
  assert (Hw' : in_width 32 (n + 1)) by (unfold in_width in *; lia).
  pose proof (persist_cases path (n + 1) g d Hw') as Hp.
  destruct (persist_next_run path (n + 1) g d) as [r d'].
  destruct Hp as [[-> Hd] | [Hr Hd]].
  - destruct (dies_before_return g); [right | by split_and!]. exists n. by split_and!.
  - destruct Hr as [-> | [e ->]]; (destruct Hd as [Hd | Hd]; [by left | right; exists n; by split_and!]).
Qed.

(** No number below where the disk stands is handed out again. *)
Lemma take_all_above path gs d k :
  stands_at d = None \/ (exists n, stands_at d = Some n /\ k <= n) ->
  let '(rs, d') := take_all path gs d in
  Forall (fun n => k <= n) (handed_out rs) /\ StronglySorted Z.lt (handed_out rs) /\
  (stands_at d' = None \/ exists n, stands_at d' = Some n /\ k <= n /\ Forall (fun m => m < n) (handed_out rs)).
Proof.
  revert d k. induction gs as [| g gs IH]; intros d k Hk.
  { cbn. split_and!; [constructor | constructor |]. destruct Hk as [? | (n & ? & ?)]; [by left | right].
    exists n. by split_and!. }
  cbn [take_all]. pose proof (take_cases path g d) as Hc.
  destruct (take_next_run path g d) as [r d1].
  assert (Hnone : (forall n, r <> Some (Ok n)) ->
    let '(rs, d') := (let '(rs, d0) := take_all path gs d1 in (r :: rs, d0)) in
    Forall (fun n => k <= n) (handed_out rs) /\ StronglySorted Z.lt (handed_out rs) /\
    (stands_at d' = None \/ exists n, stands_at d' = Some n /\ k <= n /\ Forall (fun m => m < n) (handed_out rs))).
  { intros Hr. assert (Hk1 : stands_at d1 = None \/ exists n, stands_at d1 = Some n /\ k <= n).
    { assert (Hd : state_file d1 = state_file d \/
        exists n, stands_at d = Some n /\ in_width 32 n /\ stands_at d1 = Some (n + 1)).
      { destruct r as [[n | e] |]; [by destruct (Hr n) | exact Hc | exact Hc]. }
      destruct Hd as [Hd | (n & Hn & _ & Hd)].
      - assert (E : stands_at d1 = stands_at d) by (unfold stands_at; by rewrite Hd). by rewrite E.
      - right. exists (n + 1). split; [done |]. destruct Hk as [Hk | (m & Hm & ?)]; [congruence |].
        rewrite Hn in Hm. injection Hm as ->. lia. }
    specialize (IH d1 k Hk1). destruct (take_all path gs d1) as [rs d2].
    assert (E : handed_out (r :: rs) = handed_out rs).
    { unfold handed_out. cbn. destruct r as [[n | e] |]; [by destruct (Hr n) | done | done]. }
    by rewrite E. }
  destruct r as [[n | e] |]; [| by apply Hnone | by apply Hnone].
  destruct Hc as (Hw & Hn & Hd1).
  assert (Hkn : k <= n).
  { destruct Hk as [Hk | (m & Hm & ?)]; [congruence |]. rewrite Hn in Hm. by injection Hm as ->. }
  specialize (IH d1 (n + 1) (or_intror (ex_intro _ (n + 1) (conj Hd1 (Z.le_refl _))))).
  destruct (take_all path gs d1) as [rs d2]. destruct IH as (Hall & Hsort & Hend).
  change (handed_out (Some (Ok n) :: rs)) with (n :: handed_out rs). split_and!.
  - constructor; [done |]. eapply List.Forall_impl; [| exact Hall]. cbn. lia.
  - constructor; [done |]. eapply List.Forall_impl; [| exact Hall]. cbn. lia.
  - destruct Hend as [? | (m & ? & ? & ?)]; [by left | right]. exists m. split_and!; [done | lia |].
    constructor; [lia | done].
Qed.
End lemmas.

(** ** Without a death no number is skipped *)

Definition survives (g : Goes) : bool :=
  negb (dies_before_return g) &&
  match write_goes g with WriteDies _ => false | _ => true end &&
  match rename_goes g with RenameDies _ => false | _ => true end.

Section consecutive.
Context `{StateJsonLaws}.

Lemma take_survives path g d :
  survives g = true ->
  let '(r, d') := take_next_run path g d in
  match r with
  | Some (Ok n) => stands_at d = Some n /\ stands_at d' = Some (n + 1)
  | Some (Err _) => state_file d' = state_file d
  | None => False
  end.
Proof.
  intros Hs. pose proof (take_cases path g d) as Hc. unfold take_next_run in *.
  destruct (read_next_run path g d) as [n | e]; [| done].
  destruct (2 ^ 32 <=? n + 1); [done |]. unfold persist_next_run in *.
  apply andb_prop in Hs as [Hs Hr]. apply andb_prop in Hs as [Hd Hw]. apply negb_true_iff in Hd.
  destruct (to_json (n + 1)) as [json | e]; [| done].
  destruct (write_goes g) as [| kept e | kept]; try done.
  destruct (rename_goes g) as [| e | happened]; try done.
  rewrite Hd in *. by destruct Hc as (_ & ? & ?).
Qed.

Lemma take_all_consecutive path gs d k :
  Forall (fun g => survives g = true) gs -> stands_at d = Some k ->
  let '(rs, d') := take_all path gs d in
  handed_out rs = seqZ k (len (handed_out rs)).
Proof.
  intros Hgs. revert d k. induction Hgs as [| g gs Hg _ IH]; intros d k Hk; [done |].
  cbn [take_all]. pose proof (take_survives path g d Hg) as Hs.
  destruct (take_next_run path g d) as [[[n | e] |] d1]; [| | done].
  - destruct Hs as [Hn Hd1]. rewrite Hk in Hn. injection Hn as ->. specialize (IH d1 (n + 1) Hd1).
    destruct (take_all path gs d1) as [rs d2]. change (handed_out (Some (Ok n) :: rs)) with (n :: handed_out rs).
    rewrite len_cons, seqZ_cons by (pose proof (len_nonneg (handed_out rs)); lia). f_equal.
    replace (Z.succ n) with (n + 1) by lia. replace (Z.pred (1 + len (handed_out rs))) with (len (handed_out rs)) by lia.
    exact IH.
  - assert (Hd1 : stands_at d1 = Some k) by (unfold stands_at; rewrite Hs; exact Hk).
    specialize (IH d1 k Hd1). by destruct (take_all path gs d1) as [rs d2].
Qed.
End consecutive.

(** C33: However the calls fail and wherever the process dies, the run numbers
    handed out are strictly increasing, so no number is ever handed out twice;
    if the process never dies they are consecutive; and after a set that
    succeeded the next number handed out is the one that was set. *)
Theorem run_numbers_never_repeat `{StateJsonLaws} (path : string) (gs : list Goes) (d : Disk) :
  let rs := fst (take_all path gs d) in
  StronglySorted Z.lt (handed_out rs) /\ NoDup (handed_out rs) /\
  (forall k, stands_at d = Some k -> Forall (fun g => survives g = true) gs ->
     handed_out rs = seqZ k (len (handed_out rs))) /\
  (forall n g g' d1 r, in_width 32 n -> set_next_run path n g d = (Some (Ok tt), d1) ->
     fst (take_next_run path g' d1) = Some (Ok r) -> r = n).
Proof.
  cbv zeta.
  assert (Hs : StronglySorted Z.lt (handed_out (fst (take_all path gs d)))).
  { destruct (stands_at d) as [n |] eqn:E.
    - pose proof (take_all_above path gs d n (or_intror (ex_intro _ n (conj E (Z.le_refl n))))) as Ha.
      destruct (take_all path gs d). by destruct Ha as (_ & ? & _).
    - pose proof (take_all_above path gs d 0 (or_introl E)) as Ha.
      destruct (take_all path gs d). by destruct Ha as (_ & ? & _). }
  split_and!; [done | | |].
  - induction Hs as [| n l Hl IH Hn]; constructor; [| done]. intros Hin.
    rewrite List.Forall_forall in Hn. apply list_elem_of_In in Hin. specialize (Hn n Hin). lia.
  - intros k Hk Hgs. pose proof (take_all_consecutive path gs d k Hgs Hk) as Hc.
    by destruct (take_all path gs d).
  - intros n g g' d1 r Hn Hset Htake. unfold set_next_run in Hset.
    pose proof (persist_cases path n g d Hn) as Hp. rewrite Hset in Hp.
    pose proof (take_cases path g' d1) as Hc. destruct (take_next_run path g' d1) as [r' d2].
    cbn [fst] in Htake. subst r'. destruct Hc as (_ & Hr & _).
    destruct Hp as [[_ Hd] | [[Hd | [e Hd]] _]]; [congruence | done | done].
Qed.

(** A concrete text: four bytes. *)
#[local] Instance sample_json : StateJson := {
  to_json := fun n => if bool_decide (in_width 32 n) then Ok (be_bytes 4 n) else Err "range"%string;
  from_json := fun text =>
    let n := be_val text in if bool_decide (in_width 32 n) then Ok n else Err "range"%string;
}.

#[local] Instance sample_json_laws : StateJsonLaws.
Proof.
  constructor.
  - intros n Hn. exists (be_bytes 4 n). cbn [to_json from_json sample_json].
    rewrite (bool_decide_true (in_width 32 n)) by done. split; [done |].
    assert (E : be_val (be_bytes 4 n) = n) by (apply (uint_val_uint_bytes false 4); unfold in_width in Hn; lia).
    by rewrite E, bool_decide_true.
  - intros text n. cbn [from_json sample_json]. case_bool_decide; [| done]. by intros [= <-].
Qed.

Definition fine : Goes := mkGoes None Written Renamed false.

(** A take, a death before the return (number 2 is skipped), a full disk, a take. *)
Definition sample_calls : list Goes :=
  [fine; mkGoes None Written Renamed true; mkGoes None (WriteFailed (Some [0]) "no space") Renamed false; fine].

Lemma run_numbers_never_repeat_witness :
  handed_out (fst (take_all "state.json" sample_calls (mkDisk None None))) = [1; 3] /\
  StronglySorted Z.lt [1; 3] /\
  fst (take_next_run "state.json" fine (snd (set_next_run "state.json" 17 fine (mkDisk None None)))) = Some (Ok 17).
Proof.
  destruct (run_numbers_never_repeat "state.json" sample_calls (mkDisk None None)) as (H1 & _ & _ & H4).
  split; [vm_compute; reflexivity |]. split.
  - assert (E : handed_out (fst (take_all "state.json" sample_calls (mkDisk None None))) = [1; 3])
      by (vm_compute; reflexivity).
    rewrite <- E. exact H1.
  - destruct (fst (take_next_run "state.json" fine (snd (set_next_run "state.json" 17 fine (mkDisk None None)))))
      as [[r | e] |] eqn:E; [| vm_compute in E; discriminate E | vm_compute in E; discriminate E].
    do 2 f_equal. eapply (H4 17 fine fine); [unfold in_width; lia | | exact E]. vm_compute. reflexivity.
Defined.
