(* ===== verification/IceCodec.v ===== *)
(** * IceCodec: the Ice 1.1 encoding

    Models [src/ice/error.rs] and [src/ice/codec.rs]: the output buffer and the
    input cursor the Ice client speaks through, with the errors of the whole Ice
    layer.  A [BTreeMap] is its sorted list of entries; a [String] the list of
    its bytes. *)

From stdpp Require Import pretty strings sorting.
From S2P Require Import Prelude Bytes Utf8 Decimal.
Open Scope list_scope.
Open Scope Z_scope.

(** ** Errors *)

Record Identity : Type := mkIdentity {
  id_name : bytes;
  id_category : bytes;
}.

Inductive ReplyStatus : Type :=
| StatusOk
| StatusUserException
| ObjectNotExist
| FacetNotExist
| OperationNotExist
| UnknownLocalException
| UnknownUserException
| UnknownException.

Inductive LocalError : Type :=
| Connect (cause : string)
| Lost (cause : string)
| Protocol (cause : string).

Inductive IceError : Type :=
| Local (e : LocalError)
| UserExceptionError (type_id body : bytes)
| RequestFailedError (kind : ReplyStatus) (identity : Identity) (facet operation : bytes)
| UnknownError (kind : ReplyStatus) (message : bytes).

Definition protocol (message : string) : IceError := Local (Protocol message).
Definition lost (message : string) : IceError := Local (Lost message).

#[export] Instance ReplyStatus_eq_dec : EqDecision ReplyStatus.
Proof. solve_decision. Defined.
#[export] Instance Identity_eq_dec : EqDecision Identity.
Proof. solve_decision. Defined.

Definition ENCODING_MAJOR : Z := 1.
Definition ENCODING_MINOR : Z := 1.
Definition ENCAPSULATION_HEADER_SIZE : Z := 6.

(** [i32::try_from] of a [usize]. *)
Definition to_i32 (n : Z) : option Z := if n <? 2 ^ 31 then Some n else None.

(** ** Writing *)

(** The buffer of an [OutputStream]; [write_* v out] appends to it. *)
Abbreviation OutputStream := bytes (only parsing).

Definition write_byte (value : Z) (out : OutputStream) : OutputStream := out ++ [value].
Definition write_bytes (value : bytes) (out : OutputStream) : OutputStream := out ++ value.
Definition write_bool (value : bool) (out : OutputStream) : OutputStream :=
  out ++ [if value then 1 else 0].
Definition write_int (value : Z) (out : OutputStream) : OutputStream := out ++ le_bytes 4 value.
Definition write_long (value : Z) (out : OutputStream) : OutputStream := out ++ le_bytes 8 value.

Definition write_size (value : Z) (out : OutputStream) : result OutputStream IceError :=
  if value <? 255 then Ok (out ++ [value])
  else
    match to_i32 value with
    | None => Err (protocol ("size " +:+ dec value +:+ " does not fit in an Ice int"))
    | Some long => Ok (write_int long (out ++ [255]))
    end.

Definition write_enum (value : Z) (out : OutputStream) : result OutputStream IceError :=
  write_size value out.

Definition write_string (value : bytes) (out : OutputStream) : result OutputStream IceError :=
  let? out := write_size (len value) out in Ok (out ++ value).

Fixpoint write_strings (values : list bytes) (out : OutputStream) : result OutputStream IceError :=
  match values with
  | [] => Ok out
  | value :: values => let? out := write_string value out in write_strings values out
  end.

Definition write_string_seq (values : list bytes) (out : OutputStream) : result OutputStream IceError :=
  let? out := write_size (len values) out in write_strings values out.

(** [BTreeMap<String, String>]: entries in increasing key order. *)
Abbreviation Dict := (list (bytes * bytes)).

Fixpoint write_entries (entries : Dict) (out : OutputStream) : result OutputStream IceError :=
  match entries with
  | [] => Ok out
  | (key, value) :: entries =>
      let? out := write_string key out in
      let? out := write_string value out in
      write_entries entries out
  end.

Definition write_dict (entries : Dict) (out : OutputStream) : result OutputStream IceError :=
  let? out := write_size (len entries) out in write_entries entries out.

(** An open encapsulation remembers where its size goes. *)
Definition start_encapsulation (out : OutputStream) : Z * OutputStream :=
  (len out, write_byte ENCODING_MINOR (write_byte ENCODING_MAJOR (write_int 0 out))).

Definition end_encapsulation (size_pos : Z) (out : OutputStream) : result OutputStream IceError :=
  let size := Z.max 0 (len out - size_pos) in
  match to_i32 size with
  | None => Err (protocol ("encapsulation of " +:+ dec size +:+ " bytes does not fit in an Ice int"))
  | Some size =>
      match get_range out size_pos (size_pos + 4) with
      | None => Err (protocol "encapsulation marker points outside the buffer")
      | Some _ => Ok (sub out 0 size_pos ++ le_bytes 4 size ++ sub out (size_pos + 4) (len out))
      end
  end.

Definition write_encapsulation (payload : bytes) (out : OutputStream) : result OutputStream IceError :=
  let '(marker, out) := start_encapsulation out in
  end_encapsulation marker (write_bytes payload out).

(** ** Reading *)

Record InputStream : Type := mkInput {
  buf : bytes;
  pos : Z;
}.

Definition input_new (bs : bytes) : InputStream := mkInput bs 0.

(** A read either panics, fails, or returns a value and the moved cursor. *)
Definition Read (A : Type) : Type := InputStream -> rust (result (A * InputStream) IceError).

Definition read_ret {A : Type} (a : A) : Read A := fun i => Val (Ok (a, i)).
Definition read_fail {A : Type} (e : IceError) : Read A := fun _ => Val (Err e).
Definition read_bind {A B : Type} (m : Read A) (k : A -> Read B) : Read B := fun i =>
  let! r := m i in
  match r with
  | Err e => Val (Err e)
  | Ok (a, i) => k a i
  end.

Notation "'let*' x := m 'in' k" := (read_bind m (fun x => k))
  (at level 10, x pattern, m at level 100, k at level 200) : rust_scope.

(** [remaining()], an unsigned difference. *)
Definition remaining (i : InputStream) : rust Z := usub (len (buf i)) (pos i).

Definition is_empty (i : InputStream) : rust bool := let! n := remaining i in Val (n =? 0).

Definition read_bytes (count : Z) : Read bytes := fun i =>
  let end_ := pos i + count in
  if 2 ^ 64 <=? end_ then
    Val (Err (protocol ("read of " +:+ dec count +:+ " bytes overflows the cursor")))
  else
    match get_range (buf i) (pos i) end_ with
    | Some s => Val (Ok (s, mkInput (buf i) end_))
    | None =>
        let! left_ := remaining i in
        Val (Err (protocol ("truncated message: need " +:+ dec count +:+ " bytes at offset " +:+
                            dec (pos i) +:+ ", only " +:+ dec left_ +:+ " left")))
    end.

Definition read_remaining : Read bytes := fun i =>
  let! rest := slice (buf i) (pos i) (len (buf i)) in
  Val (Ok (rest, mkInput (buf i) (len (buf i)))).

Definition read_byte : Read Z :=
  let* s := read_bytes 1 in
  fun i => let! b := index s 0 in Val (Ok (b, i)).

Definition read_bool : Read bool :=
  let* b := read_byte in
  match b with
  | 0 => read_ret false
  | 1 => read_ret true
  | other => read_fail (protocol ("bool must be 0 or 1 on the wire, got " +:+ dec other))
  end.

(** Two's complement. *)
Definition read_int : Read Z := let* s := read_bytes 4 in read_ret (signed 32 (le_val s)).
Definition read_long : Read Z := let* s := read_bytes 8 in read_ret (signed 64 (le_val s)).

Definition read_size : Read Z :=
  let* first := read_byte in
  if negb (first =? 255) then read_ret first
  else
    let* long := read_int in
    if long <? 0 then read_fail (protocol ("negative size " +:+ pretty long +:+ " on the wire"))
    else read_ret long.

Definition read_enum : Read Z :=
  let* value := read_size in
  if 2 ^ 32 <=? value then read_fail (protocol ("enumerator " +:+ dec value +:+ " is out of range"))
  else read_ret value.

(** The rendering of a UTF-8 error is the standard library's: not modelled. *)
Definition read_string : Read bytes :=
  let* size := read_size in
  let* s := read_bytes size in
  match from_utf8 s with
  | Some s => read_ret s
  | None => read_fail (protocol "string is not valid UTF-8")
  end.

Fixpoint read_strings (n : nat) : Read (list bytes) :=
  match n with
  | O => read_ret []
  | S n =>
      let* item := read_string in
      let* items := read_strings n in
      read_ret (item :: items)
  end.

Definition read_string_seq : Read (list bytes) :=
  let* size := read_size in read_strings (Z.to_nat size).

(** The order of the keys, and [BTreeMap::insert]. *)
Fixpoint bytes_cmp (a b : bytes) : comparison :=
  match a, b with
  | [], [] => Eq
  | [], _ :: _ => Lt
  | _ :: _, [] => Gt
  | x :: a, y :: b =>
      match x ?= y with
      | Eq => bytes_cmp a b
      | c => c
      end
  end.

Fixpoint dict_insert (key value : bytes) (d : Dict) : Dict :=
  match d with
  | [] => [(key, value)]
  | (k, v) :: d' =>
      match bytes_cmp key k with
      | Lt => (key, value) :: d
      | Eq => (k, value) :: d'
      | Gt => (k, v) :: dict_insert key value d'
      end
  end.

Fixpoint read_entries (n : nat) (entries : Dict) : Read Dict :=
  match n with
  | O => read_ret entries
  | S n =>
      let* key := read_string in
      let* value := read_string in
      read_entries n (dict_insert key value entries)
  end.

Definition read_dict : Read Dict :=
  let* size := read_size in read_entries (Z.to_nat size) [].

Definition read_encapsulation : Read bytes :=
  let* size := read_int in
  if size <? 0 then read_fail (protocol ("negative encapsulation size " +:+ pretty size))
  else if size <? ENCAPSULATION_HEADER_SIZE then
    read_fail (protocol ("encapsulation size " +:+ dec size +:+ " is smaller than its own header"))
  else
    let* major := read_byte in
    let* minor := read_byte in
    if negb ((major =? ENCODING_MAJOR) && (minor =? ENCODING_MINOR)) then
      read_fail (protocol ("encapsulation uses encoding " +:+ dec major +:+ "." +:+ dec minor +:+
                           ", only 1.1 is supported"))
    else read_bytes (size - ENCAPSULATION_HEADER_SIZE).

(** ** What is on the wire *)

Definition size_bytes (n : Z) : bytes := if n <? 255 then [n] else 255 :: le_bytes 4 n.
Definition string_bytes (s : bytes) : bytes := size_bytes (len s) ++ s.
Definition strings_bytes (l : list bytes) : bytes := size_bytes (len l) ++ concat (map string_bytes l).
Definition entry_bytes (e : bytes * bytes) : bytes := string_bytes (fst e) ++ string_bytes (snd e).
Definition dict_bytes (d : Dict) : bytes := size_bytes (len d) ++ concat (map entry_bytes d).
Definition encapsulation_bytes (p : bytes) : bytes :=
  le_bytes 4 (len p + ENCAPSULATION_HEADER_SIZE) ++ [ENCODING_MAJOR; ENCODING_MINOR] ++ p.

(** A string the codec can carry. *)
Definition ice_string (s : bytes) : Prop := utf8_valid s = true /\ len s < 2 ^ 31.

(** The keys of a [BTreeMap] are strictly increasing. *)
Definition dict_sorted (d : Dict) : Prop :=
  StronglySorted (fun a b => bytes_cmp (fst b) (fst a) = Gt) d.

(** [m] reads the bytes [bs], wherever they stand, as [a]. *)
Definition reads {A : Type} (m : Read A) (bs : bytes) (a : A) : Prop :=
  forall pre suf, len (pre ++ bs ++ suf) < 2 ^ 64 ->
    m (mkInput (pre ++ bs ++ suf) (len pre)) =
    Val (Ok (a, mkInput (pre ++ bs ++ suf) (len pre + len bs))).

Lemma reads_ret {A : Type} (a : A) : reads (read_ret a) [] a.
Proof. intros pre suf _. unfold read_ret. by rewrite len_nil, Z.add_0_r. Qed.

Lemma reads_bind {A B : Type} (m : Read A) (k : A -> Read B) bs cs a b :
  reads m bs a -> reads (k a) cs b -> reads (read_bind m k) (bs ++ cs) b.
Proof.
  intros Hm Hk pre suf Hlen. rewrite <- app_assoc in *. unfold read_bind.
  rewrite Hm by done. cbn [rust_bind]. specialize (Hk (pre ++ bs) suf).
  rewrite <- app_assoc in Hk. replace (len (pre ++ bs)) with (len pre + len bs) in Hk by (by rewrite len_app).
  rewrite Hk by done. by rewrite len_app, Z.add_assoc.
Qed.

(** A last reader that consumes nothing more. *)
Lemma reads_map {A B : Type} (m : Read A) (f : A -> B) bs a :
  reads m bs a -> reads (let* x := m in read_ret (f x)) bs (f a).
Proof. intros Hm. rewrite <- (app_nil_r bs). eapply reads_bind; [exact Hm | apply reads_ret]. Qed.

Lemma reads_bytes bs : reads (read_bytes (len bs)) bs bs.
Proof.
  intros pre suf Hlen. unfold read_bytes. cbn [pos buf].
  rewrite !len_app in Hlen. pose proof (len_nonneg suf). pose proof (len_nonneg pre). pose proof (len_nonneg bs).
  rewrite (proj2 (Z.leb_gt (2 ^ 64) (len pre + len bs))) by lia.
  unfold get_range. rewrite !len_app. bdecide. cbn [andb]. rewrite sub_drop by lia.
  unfold len. rewrite !Nat2Z.id. by rewrite drop_app_length, take_app_length.
Qed.

Lemma reads_bytes_n n bs : len bs = n -> reads (read_bytes n) bs bs.
Proof. intros <-. apply reads_bytes. Qed.

Lemma reads_byte b : reads read_byte [b] b.
Proof.
  unfold read_byte. rewrite <- (app_nil_r [b]). eapply reads_bind; [by apply reads_bytes_n |].
  intros pre suf _. cbn. by rewrite Z.add_0_r.
Qed.

Lemma reads_int n : - 2 ^ 31 <= n < 2 ^ 31 -> reads read_int (le_bytes 4 n) n.
Proof.
  intros Hn. unfold read_int.
  assert (E : signed 32 (le_val (le_bytes 4 n)) = n).
  { unfold signed. rewrite le_val_le_bytes. change (256 ^ Z.of_nat 4) with (2 ^ 32).
    unfold wrap. rewrite Z.mod_mod by lia. change (2 ^ (32 - 1)) with (2 ^ 31).
    destruct (Z.ltb_spec (n mod 2 ^ 32) (2 ^ 31)); Z.div_mod_to_equations; lia. }
  rewrite <- E at 2. apply (reads_map _ (fun s => signed 32 (le_val s))), reads_bytes_n. unfold len. by rewrite length_le_bytes.
Qed.

Lemma reads_size n : 0 <= n < 2 ^ 31 -> reads read_size (size_bytes n) n.
Proof.
  intros Hn. unfold read_size, size_bytes. destruct (Z.ltb_spec n 255).
  - rewrite <- (app_nil_r [n]). eapply reads_bind; [apply reads_byte |].
    destruct (Z.eqb_spec n 255); [lia |]. apply reads_ret.
  - change (255 :: le_bytes 4 n) with ([255] ++ le_bytes 4 n). eapply reads_bind; [apply reads_byte |].
    change (negb (255 =? 255)) with false. cbn iota.
    rewrite <- (app_nil_r (le_bytes 4 n)). eapply reads_bind; [apply reads_int; lia |].
    destruct (Z.ltb_spec n 0); [lia |]. apply reads_ret.
Qed.

Lemma reads_string s : ice_string s -> reads read_string (string_bytes s) s.
Proof.
  intros [Hv Hl]. unfold read_string, string_bytes. pose proof (len_nonneg s).
  eapply reads_bind; [by apply reads_size |].
  rewrite <- (app_nil_r s) at 2. eapply reads_bind; [apply reads_bytes |].
  unfold from_utf8. rewrite Hv. apply reads_ret.
Qed.

Lemma reads_strings l :
  Forall ice_string l -> reads (read_strings (length l)) (concat (map string_bytes l)) l.
Proof.
  induction 1 as [| s l Hs _ IH]; cbn [length read_strings map concat]; [apply reads_ret |].
  eapply reads_bind; [by apply reads_string |]. apply (reads_map _ (cons s)), IH.
Qed.

Lemma reads_string_seq l :
  Forall ice_string l -> len l < 2 ^ 31 -> reads read_string_seq (strings_bytes l) l.
Proof.
  intros Hl Hn. pose proof (len_nonneg l). unfold read_string_seq, strings_bytes.
  eapply reads_bind; [by apply reads_size |]. unfold len. rewrite Nat2Z.id. by apply reads_strings.
Qed.

Lemma dict_insert_last k v d :
  Forall (fun e => bytes_cmp k (fst e) = Gt) d -> dict_insert k v d = d ++ [(k, v)].
Proof.
  induction 1 as [| [k' v'] d Hk _ IH]; [done |]. cbn in *. by rewrite Hk, IH.
Qed.

Lemma reads_entries d acc :
  Forall (fun e => ice_string (fst e) /\ ice_string (snd e)) d -> dict_sorted (acc ++ d) ->
  reads (read_entries (length d) acc) (concat (map entry_bytes d)) (acc ++ d).
Proof.
  intros Hd. revert acc. induction Hd as [| [k v] d [Hk Hv] _ IH]; intros acc Hs.
  { rewrite app_nil_r. apply reads_ret. }
  cbn [length read_entries map concat]. unfold entry_bytes. cbn [fst snd]. rewrite <- app_assoc.
  eapply reads_bind; [by apply reads_string |]. eapply reads_bind; [by apply reads_string |].
  rewrite dict_insert_last.
  - change (acc ++ (k, v) :: d) with (acc ++ [(k, v)] ++ d) in *.
    rewrite (app_assoc acc [(k, v)] d) in *. by apply IH.
  - clear -Hs. induction acc as [| [k' v'] acc IH]; [constructor |].
    apply StronglySorted_inv in Hs as [Hs Hall]. constructor; [| by apply IH].
    rewrite Forall_app in Hall. destruct Hall as [_ Hall]. by apply Forall_inv in Hall.
Qed.

Lemma reads_dict d :
  Forall (fun e => ice_string (fst e) /\ ice_string (snd e)) d -> dict_sorted d -> len d < 2 ^ 31 ->
  reads read_dict (dict_bytes d) d.
Proof.
  intros Hd Hs Hn. pose proof (len_nonneg d). unfold read_dict, dict_bytes.
  eapply reads_bind; [by apply reads_size |]. unfold len. rewrite Nat2Z.id.
  by apply (reads_entries d []).
Qed.

Lemma reads_encapsulation p :
  len p + ENCAPSULATION_HEADER_SIZE < 2 ^ 31 -> reads read_encapsulation (encapsulation_bytes p) p.
Proof.
  intros Hn. pose proof (len_nonneg p). unfold read_encapsulation, encapsulation_bytes, ENCAPSULATION_HEADER_SIZE in *.
  eapply reads_bind; [apply reads_int; lia |].
  destruct (Z.ltb_spec (len p + 6) 0); [lia |]. destruct (Z.ltb_spec (len p + 6) 6); [lia |].
  change ([ENCODING_MAJOR; ENCODING_MINOR] ++ p) with ([1] ++ [1] ++ p).
  eapply reads_bind; [apply reads_byte |]. eapply reads_bind; [apply reads_byte |].
  cbn [andb negb Z.eqb Pos.eqb]. apply reads_bytes_n. lia.
Qed.

(** [m], run on the bytes [bs] that end the buffer, reads [a] and all of them. *)
Definition finishes {A : Type} (m : Read A) (bs : bytes) (a : A) : Prop :=
  forall pre, len (pre ++ bs) < 2 ^ 64 ->
    m (mkInput (pre ++ bs) (len pre)) = Val (Ok (a, mkInput (pre ++ bs) (len (pre ++ bs)))).

Lemma finishes_bind {A B : Type} (m : Read A) (k : A -> Read B) bs cs a b :
  reads m bs a -> finishes (k a) cs b -> finishes (read_bind m k) (bs ++ cs) b.
Proof.
  intros Hm Hk pre Hlen. unfold read_bind. rewrite Hm by done. cbn [rust_bind].
  specialize (Hk (pre ++ bs)). rewrite <- app_assoc in Hk.
  replace (len (pre ++ bs)) with (len pre + len bs) in Hk by (by rewrite len_app). by apply Hk.
Qed.

Lemma finishes_remaining {A : Type} bs (f : bytes -> A) :
  finishes (let* rest := read_remaining in read_ret (f rest)) bs (f bs).
Proof.
  intros pre _. unfold read_bind, read_remaining. cbn [buf pos].
  pose proof (len_nonneg pre). pose proof (len_nonneg bs).
  rewrite slice_val by (rewrite ?len_app; lia). cbn [rust_bind]. unfold read_ret.
  do 3 f_equal. f_equal. rewrite len_app, sub_drop by lia. unfold len. rewrite !Nat2Z.id, drop_app_length.
  by rewrite firstn_all.
Qed.

(** ** What the writers append *)

(** [w] appends the bytes [bs], or they are too many for an Ice int and it fails. *)
Definition writes (w : OutputStream -> result OutputStream IceError) (bs : bytes) : Prop :=
  forall out, w out = Ok (out ++ bs) \/ 2 ^ 31 <= len bs /\ exists e, w out = Err e.

Lemma writes_bind w k bs cs :
  writes w bs -> writes k cs -> writes (fun out => let? out := w out in k out) (bs ++ cs).
Proof.
  intros Hw Hk out. pose proof (len_nonneg bs). pose proof (len_nonneg cs). rewrite len_app, app_assoc.
  destruct (Hw out) as [-> | [Hl [e ->]]]; cbn [result_bind]; [| right; split; [lia | by eexists]].
  destruct (Hk (out ++ bs)) as [-> | [Hl [e ->]]]; [by left | right; split; [lia | by eexists]].
Qed.

Lemma writes_nil : writes (fun out => Ok out) [].
Proof. intros out. left. by rewrite app_nil_r. Qed.

(** Bytes that are written whatever they are. *)
Lemma writes_pure bs k cs : writes k cs -> writes (fun out => k (out ++ bs)) (bs ++ cs).
Proof.
  intros Hk out. pose proof (len_nonneg bs). rewrite len_app, app_assoc.
  destruct (Hk (out ++ bs)) as [-> | [Hl He]]; [by left | right; split; [lia | done]].
Qed.

(** A size is followed by at least that many bytes. *)
Lemma writes_size n k cs :
  0 <= n <= len cs -> writes k cs -> writes (fun out => let? out := write_size n out in k out) (size_bytes n ++ cs).
Proof.
  intros Hn Hk out. pose proof (len_nonneg (size_bytes n)). rewrite len_app.
  destruct (Z.lt_ge_cases n (2 ^ 31)) as [Hlt | Hge].
  - assert (E : write_size n out = Ok (out ++ size_bytes n)).
    { unfold write_size, size_bytes, to_i32, write_int. destruct (n <? 255); [done |].
      rewrite (proj2 (Z.ltb_lt n (2 ^ 31))) by lia. by rewrite <- app_assoc. }
    rewrite E. cbn [result_bind]. rewrite app_assoc.
    destruct (Hk (out ++ size_bytes n)) as [-> | [Hl He]]; [by left | right; split; [lia | done]].
  - right. split; [lia |]. unfold write_size, to_i32.
    rewrite (proj2 (Z.ltb_ge n 255)) by lia. rewrite (proj2 (Z.ltb_ge n (2 ^ 31))) by lia. by eexists.
Qed.

Lemma writes_string s : writes (write_string s) (string_bytes s).
Proof.
  unfold write_string, string_bytes. pose proof (len_nonneg s). apply writes_size; [lia |].
  intros out. by left.
Qed.

Lemma string_bytes_pos s : 1 <= len (string_bytes s).
Proof.
  unfold string_bytes, size_bytes. pose proof (len_nonneg s). destruct (_ <? 255); solve_len.
Qed.

Lemma writes_strings l : writes (write_strings l) (concat (map string_bytes l)).
Proof.
  induction l as [| s l IH]; cbn [write_strings map concat]; [apply writes_nil |].
  apply writes_bind; [apply writes_string | exact IH].
Qed.

(** Every element takes a byte at least. *)
Lemma concat_len_ge {A : Type} (f : A -> bytes) l :
  (forall x, 1 <= len (f x)) -> len l <= len (concat (map f l)).
Proof.
  intros Hf. induction l as [| x l IH]; [done |]. cbn [map concat]. specialize (Hf x). solve_len.
Qed.

Lemma writes_string_seq l : writes (write_string_seq l) (strings_bytes l).
Proof.
  unfold write_string_seq, strings_bytes. pose proof (len_nonneg l).
  apply writes_size; [| apply writes_strings].
  split; [lia | apply concat_len_ge, string_bytes_pos].
Qed.

Lemma writes_entries d : writes (write_entries d) (concat (map entry_bytes d)).
Proof.
  induction d as [| [k v] d IH]; cbn [write_entries map concat]; [apply writes_nil |].
  unfold entry_bytes. cbn [fst snd]. rewrite <- app_assoc.
  apply writes_bind; [apply writes_string |]. apply writes_bind; [apply writes_string | exact IH].
Qed.

Lemma writes_dict d : writes (write_dict d) (dict_bytes d).
Proof.
  unfold write_dict, dict_bytes. pose proof (len_nonneg d). apply writes_size; [| apply writes_entries].
  split; [lia |]. apply concat_len_ge. intros [k v]. unfold entry_bytes. cbn [fst snd].
  pose proof (string_bytes_pos k). pose proof (string_bytes_pos v). solve_len.
Qed.

(** The size is written back over the four bytes kept for it. *)
Lemma write_encapsulation_ok p out :
  len p + ENCAPSULATION_HEADER_SIZE < 2 ^ 31 ->
  write_encapsulation p out = Ok (out ++ encapsulation_bytes p).
Proof.
  unfold ENCAPSULATION_HEADER_SIZE. intros Hn. pose proof (len_nonneg p). pose proof (len_nonneg out).
  unfold write_encapsulation, start_encapsulation, write_bytes, write_byte, write_int.
  set (rest := [ENCODING_MAJOR; ENCODING_MINOR] ++ p).
  assert (E : (((out ++ le_bytes 4 0) ++ [ENCODING_MAJOR]) ++ [ENCODING_MINOR]) ++ p =
              out ++ le_bytes 4 0 ++ rest) by (unfold rest; by rewrite <- !app_assoc).
  rewrite E. unfold end_encapsulation, to_i32.
  assert (Hrest : len rest = 2 + len p) by (unfold rest; by rewrite len_app).
  assert (Hlen : len (out ++ le_bytes 4 0 ++ rest) = len out + (len p + 6)).
  { rewrite !len_app, Hrest. change (len (le_bytes 4 0)) with 4. lia. }
  rewrite Hlen. replace (Z.max 0 (len out + (len p + 6) - len out)) with (len p + 6) by lia.
  rewrite (proj2 (Z.ltb_lt (len p + 6) (2 ^ 31))) by lia.
  unfold get_range. rewrite Hlen. bdecide. cbn [andb].
  assert (E1 : sub (out ++ le_bytes 4 0 ++ rest) 0 (len out) = out).
  { unfold sub. rewrite Z.sub_0_r. cbn [Z.to_nat drop]. unfold len. rewrite Nat2Z.id. apply take_app_length. }
  assert (E2 : sub (out ++ le_bytes 4 0 ++ rest) (len out + 4) (len out + (len p + 6)) = rest).
  { unfold sub. rewrite take_ge.
    - replace (Z.to_nat (len out + 4)) with (length (out ++ le_bytes 4 0))
        by (rewrite length_app, length_le_bytes; unfold len; lia).
      rewrite app_assoc. apply drop_app_length.
    - rewrite length_drop. unfold len in *. lia. }
  by rewrite E1, E2.
Qed.

Lemma writes_encapsulation p : writes (write_encapsulation p) (encapsulation_bytes p).
Proof.
  intros out. pose proof (len_nonneg p).
  assert (Hl : len (encapsulation_bytes p) = len p + ENCAPSULATION_HEADER_SIZE).
  { unfold encapsulation_bytes, ENCAPSULATION_HEADER_SIZE. solve_len. }
  destruct (Z.lt_ge_cases (len p + ENCAPSULATION_HEADER_SIZE) (2 ^ 31)) as [Hlt | Hge].
  - left. by apply write_encapsulation_ok.
  - right. split; [lia |]. unfold write_encapsulation, start_encapsulation, end_encapsulation, to_i32.
    replace (Z.max 0 _) with (len p + ENCAPSULATION_HEADER_SIZE).
    + rewrite (proj2 (Z.ltb_ge _ (2 ^ 31))) by lia. by eexists.
    + unfold write_bytes, write_byte, write_int, ENCAPSULATION_HEADER_SIZE.
      pose proof (len_nonneg out). solve_len.
Qed.

Create HintDb writes.
#[export] Hint Resolve writes_string writes_string_seq writes_dict writes_encapsulation writes_nil : writes.

(** ** Reading arbitrary bytes *)

Definition reader_ok (i : InputStream) : Prop := 0 <= pos i <= len (buf i).

(** [m] never panics, and leaves the cursor inside the same buffer, not before
    where it was. *)
Definition safe {A : Type} (m : Read A) : Prop := forall i, reader_ok i ->
  match m i with
  | Val (Ok (_, i')) => buf i' = buf i /\ pos i <= pos i' <= len (buf i)
  | Val (Err _) => True
  | _ => False
  end.

Lemma safe_ret {A : Type} (a : A) : safe (read_ret a).
Proof. intros i Hi. unfold reader_ok in Hi. split; [done | lia]. Qed.

Lemma safe_fail {A : Type} e : safe (@read_fail A e).
Proof. done. Qed.

Lemma safe_bind {A B : Type} (m : Read A) (k : A -> Read B) :
  safe m -> (forall a, safe (k a)) -> safe (read_bind m k).
Proof.
  intros Hm Hk i Hi. unfold read_bind. specialize (Hm i Hi).
  destruct (m i) as [[[a i'] | e] | |]; cbn [rust_bind]; try done. destruct Hm as [Hb Hp].
  unfold reader_ok in Hi. assert (Hi' : reader_ok i') by (unfold reader_ok; rewrite Hb; lia).
  specialize (Hk a i' Hi'). destruct (k a i') as [[[b i''] | e] | |]; try done.
  destruct Hk as [Hb' Hp']. rewrite Hb in *. split; [done | lia].
Qed.

Lemma safe_bytes n : safe (read_bytes n).
Proof.
  intros i Hi. unfold read_bytes. destruct (2 ^ 64 <=? pos i + n); [done |].
  unfold reader_ok in Hi. unfold get_range. destruct ((0 <=? pos i) && _ && _) eqn:E.
  - apply andb_prop in E as [E E3]. apply andb_prop in E as [E1 E2]. cbn. split; [done | lia].
  - unfold remaining. by rewrite usub_val by lia.
Qed.

Lemma safe_byte : safe read_byte.
Proof.
  intros i Hi. unfold read_byte, read_bind, read_bytes. unfold reader_ok in Hi.
  destruct (2 ^ 64 <=? pos i + 1); [done |]. unfold get_range.
  destruct ((0 <=? pos i) && _ && _) eqn:E.
  - cbn [rust_bind]. apply andb_prop in E as [E E3]. apply andb_prop in E as [E1 E2].
    assert (Hl : len (sub (buf i) (pos i) (pos i + 1)) = 1) by (rewrite len_sub; lia).
    destruct (sub (buf i) (pos i) (pos i + 1)) as [| b s]; [done |].
    change (buf i = buf i /\ pos i <= pos i + 1 <= len (buf i)). split; [done | lia].
  - unfold remaining. by rewrite usub_val by lia.
Qed.

Lemma safe_remaining : safe read_remaining.
Proof.
  intros i Hi. unfold read_remaining. unfold reader_ok in Hi. rewrite slice_val by lia. cbn. split; [done | lia].
Qed.

Create HintDb safe.
#[export] Hint Resolve safe_ret safe_fail safe_bytes safe_byte safe_remaining : safe.

(** Walks a reader, one bind and one case at a time. *)
Ltac solve_safe :=
  repeat match goal with
  | |- safe (read_bind _ _) => apply safe_bind; [| intros ?]
  | |- safe (if ?b then _ else _) => let E := fresh "E" in destruct b eqn:E
  | |- safe (match ?x with _ => _ end) => destruct x
  | |- safe _ => solve [auto with safe]
  end.

Lemma safe_int : safe read_int.
Proof. unfold read_int. solve_safe. Qed.
#[export] Hint Resolve safe_int : safe.

Lemma safe_size : safe read_size.
Proof. unfold read_size. solve_safe. Qed.
#[export] Hint Resolve safe_size : safe.

Lemma safe_string : safe read_string.
Proof. unfold read_string. solve_safe. Qed.
#[export] Hint Resolve safe_string : safe.

Lemma safe_strings n : safe (read_strings n).
Proof. induction n as [| n IH]; cbn [read_strings]; solve_safe. Qed.

Lemma safe_string_seq : safe read_string_seq.
Proof. unfold read_string_seq. pose proof safe_strings. solve_safe. Qed.

Lemma safe_entries n d : safe (read_entries n d).
Proof. revert d. induction n as [| n IH]; intros d; cbn [read_entries]; solve_safe. Qed.

Lemma safe_dict : safe read_dict.
Proof. unfold read_dict. pose proof safe_entries. solve_safe. Qed.

Lemma safe_encapsulation : safe read_encapsulation.
Proof. unfold read_encapsulation. solve_safe. Qed.
#[export] Hint Resolve safe_string_seq safe_dict safe_encapsulation : safe.
