(* ===== verification/IceProto.v ===== *)
(** * IceProto: the Ice 1.0 messages

    Models [src/ice/proto.rs]: message headers, requests and replies with their
    exceptions, as they are written and as they are parsed. *)

From stdpp Require Import pretty strings sorting.
From S2P Require Import Prelude Bytes Utf8 Decimal IceCodec.
Open Scope list_scope.
Open Scope Z_scope.

Definition MAGIC : bytes := [73; 99; 101; 80].
Definition PROTOCOL_MAJOR : Z := 1.
Definition PROTOCOL_MINOR : Z := 0.
Definition HEADER_ENCODING_MAJOR : Z := 1.
Definition HEADER_ENCODING_MINOR : Z := 0.
Definition HEADER_SIZE : Z := 14.
Definition MAX_MESSAGE_SIZE : Z := 16 * 1024 * 1024.

Inductive MessageType : Type :=
| RequestMsg
| BatchRequestMsg
| ReplyMsg
| ValidateConnection
| CloseConnection.

#[export] Instance MessageType_eq_dec : EqDecision MessageType.
Proof. solve_decision. Defined.

Definition type_from_byte (value : Z) : result MessageType IceError :=
  match value with
  | 0 => Ok RequestMsg
  | 1 => Ok BatchRequestMsg
  | 2 => Ok ReplyMsg
  | 3 => Ok ValidateConnection
  | 4 => Ok CloseConnection
  | other => Err (protocol ("unknown message type " +:+ dec other +:+ " in the header"))
  end.

Definition type_as_byte (t : MessageType) : Z :=
  match t with
  | RequestMsg => 0
  | BatchRequestMsg => 1
  | ReplyMsg => 2
  | ValidateConnection => 3
  | CloseConnection => 4
  end.

Definition type_name (t : MessageType) : string :=
  match t with
  | RequestMsg => "Request"
  | BatchRequestMsg => "BatchRequest"
  | ReplyMsg => "Reply"
  | ValidateConnection => "ValidateConnection"
  | CloseConnection => "CloseConnection"
  end.

Record MessageHeader : Type := mkHeader {
  message_type : MessageType;
  compression : Z;
  size : Z;
}.

(** The eight fixed bytes of a header. *)
Definition prologue : bytes :=
  MAGIC ++ [PROTOCOL_MAJOR; PROTOCOL_MINOR; HEADER_ENCODING_MAJOR; HEADER_ENCODING_MINOR].

(** [MessageHeader::parse].  The bytes in the messages of the header checks are
    printed by [Debug], which is not modelled. *)
Definition header_parse (bs : bytes) : rust (result MessageHeader IceError) :=
  match get_range bs 0 HEADER_SIZE with
  | None => Val (Err (protocol ("message header needs 14 bytes, got " +:+ dec (len bs))))
  | Some head =>
      let! magic := slice head 0 4 in
      let! h4 := index head 4 in
      let! h5 := index head 5 in
      let! h6 := index head 6 in
      let! h7 := index head 7 in
      let! h8 := index head 8 in
      let! compression := index head 9 in
      let! size_bytes := slice head 10 14 in
      Val (
        if negb (bool_decide (magic = MAGIC)) then Err (protocol "bad magic, expected IceP")
        else if negb ((h4 =? PROTOCOL_MAJOR) && (h5 =? PROTOCOL_MINOR)) then
          Err (protocol ("protocol " +:+ dec h4 +:+ "." +:+ dec h5 +:+ " is not supported (only 1.0)"))
        else if negb ((h6 =? HEADER_ENCODING_MAJOR) && (h7 =? HEADER_ENCODING_MINOR)) then
          Err (protocol ("header encoding " +:+ dec h6 +:+ "." +:+ dec h7 +:+
                         " is not supported (the header is always 1.0)"))
        else
          let? message_type := type_from_byte h8 in
          if negb (compression =? 0) then
            Err (protocol ("compressed message (compressionStatus " +:+ dec compression +:+
                           ") is not supported"))
          else
            let size := signed 32 (le_val size_bytes) in
            if size <? 0 then Err (protocol ("negative message size " +:+ pretty size))
            else if size <? HEADER_SIZE then
              Err (protocol ("message size " +:+ dec size +:+ " is smaller than the 14 byte header"))
            else if MAX_MESSAGE_SIZE <? size then
              Err (protocol ("message size " +:+ dec size +:+ " exceeds the 16777216 byte cap"))
            else Ok (mkHeader message_type compression size))
  end.

Definition build_message (message_type : MessageType) (body : bytes) : result bytes IceError :=
  let size := HEADER_SIZE + len body in
  if MAX_MESSAGE_SIZE <? size then
    Err (protocol ("message of " +:+ dec size +:+ " bytes exceeds the 16777216 byte cap"))
  else
    match to_i32 size with
    | None => Err (protocol ("message of " +:+ dec size +:+ " bytes does not fit in an int"))
    | Some size => Ok (prologue ++ [type_as_byte message_type; 0] ++ le_bytes 4 size ++ body)
    end.

Definition header_only_message (message_type : MessageType) : bytes :=
  prologue ++ [type_as_byte message_type; 0] ++ le_bytes 4 HEADER_SIZE.

Definition validate_connection_message : bytes := header_only_message ValidateConnection.
Definition close_connection_message : bytes := header_only_message CloseConnection.

(** ** Requests *)

Inductive OperationMode : Type := Normal | Idempotent.

Definition mode_from_byte (value : Z) : result OperationMode IceError :=
  match value with
  | 0 => Ok Normal
  | 2 => Ok Idempotent
  | other => Err (protocol ("unsupported operation mode " +:+ dec other +:+ " (0 = normal, 2 = idempotent)"))
  end.

Definition mode_as_byte (m : OperationMode) : Z :=
  match m with Normal => 0 | Idempotent => 2 end.

Record Request : Type := mkRequest {
  request_id : Z;
  identity : Identity;
  facet : bytes;
  operation : bytes;
  mode : OperationMode;
  context : Dict;
  params : bytes;
}.

Definition request_new (request_id : Z) (identity : Identity) (operation : bytes) (mode : OperationMode)
    (params : bytes) : Request :=
  mkRequest request_id identity [] operation mode [] params.

Definition write_facet (facet : bytes) (out : OutputStream) : result OutputStream IceError :=
  if bool_decide (facet = []) then write_string_seq [] out else write_string_seq [facet] out.

Definition request_to_bytes (r : Request) : result bytes IceError :=
  let out := write_int (request_id r) [] in
  let? out := write_string (id_name (identity r)) out in
  let? out := write_string (id_category (identity r)) out in
  let? out := write_facet (facet r) out in
  let? out := write_string (operation r) out in
  let out := write_byte (mode_as_byte (mode r)) out in
  let? out := write_dict (context r) out in
  let? out := write_encapsulation (params r) out in
  build_message RequestMsg out.

Definition message_body (message : bytes) (expected : MessageType) : rust (result bytes IceError) :=
  let! header := header_parse message in
  match header with
  | Err e => Val (Err e)
  | Ok header =>
      if negb (bool_decide (message_type header = expected)) then
        Val (Err (protocol ("expected a " +:+ type_name expected +:+ " message, got " +:+
                            type_name (message_type header))))
      else if negb (size header =? len message) then
        Val (Err (protocol ("header size " +:+ dec (size header) +:+ " disagrees with the " +:+
                            dec (len message) +:+ " bytes on hand")))
      else let! body := slice message HEADER_SIZE (len message) in Val (Ok body)
  end.

Definition read_facet : Read bytes :=
  let* facets := read_string_seq in
  match facets with
  | [] => read_ret []
  | [f] => read_ret f
  | _ => read_fail (protocol ("facet sequence has " +:+ dec (len facets) +:+ " elements, expected 0 or 1"))
  end.

Definition expect_end (what : string) : Read unit := fun i =>
  let! empty := is_empty i in
  if empty then Val (Ok (tt, i))
  else
    let! left_ := remaining i in
    Val (Err (protocol (dec left_ +:+ " bytes left over after the " +:+ what +:+ " body"))).

(** A [Result] computed on the way. *)
Definition lift {A : Type} (r : result A IceError) : Read A :=
  match r with Ok a => read_ret a | Err e => read_fail e end.

(** The value a whole body is read as. *)
Definition read_body {A : Type} (m : Read A) (body : rust (result bytes IceError)) : rust (result A IceError) :=
  let! body := body in
  match body with
  | Err e => Val (Err e)
  | Ok body => let! r := m (input_new body) in Val (let? (a, _) := r in Ok a)
  end.

Definition read_identity : Read Identity :=
  let* name := read_string in
  let* category := read_string in
  read_ret (mkIdentity name category).

Definition read_request : Read Request :=
  let* request_id := read_int in
  let* identity := read_identity in
  let* facet := read_facet in
  let* operation := read_string in
  let* b := read_byte in
  let* mode := lift (mode_from_byte b) in
  let* context := read_dict in
  let* params := read_encapsulation in
  let* _ := expect_end "request" in
  read_ret (mkRequest request_id identity facet operation mode context params).

Definition request_parse (message : bytes) : rust (result Request IceError) :=
  read_body read_request (message_body message RequestMsg).

(** ** Replies *)

Definition status_from_byte (value : Z) : result ReplyStatus IceError :=
  match value with
  | 0 => Ok StatusOk
  | 1 => Ok StatusUserException
  | 2 => Ok ObjectNotExist
  | 3 => Ok FacetNotExist
  | 4 => Ok OperationNotExist
  | 5 => Ok UnknownLocalException
  | 6 => Ok UnknownUserException
  | 7 => Ok UnknownException
  | other => Err (protocol ("unknown reply status " +:+ dec other +:+ " (0-7 are defined)"))
  end.

Definition status_as_byte (s : ReplyStatus) : Z :=
  match s with
  | StatusOk => 0
  | StatusUserException => 1
  | ObjectNotExist => 2
  | FacetNotExist => 3
  | OperationNotExist => 4
  | UnknownLocalException => 5
  | UnknownUserException => 6
  | UnknownException => 7
  end.

Inductive ReplyBody : Type :=
| BodyOk (payload : bytes)
| UserException (type_id body : bytes)
| RequestFailed (status : ReplyStatus) (identity : Identity) (facet operation : bytes)
| Unknown (status : ReplyStatus) (message : bytes).

Record Reply : Type := mkReply {
  reply_id : Z;
  body : ReplyBody;
}.

Definition SLICE_FLAG_HAS_TYPE_ID_STRING : Z := 1.
Definition SLICE_FLAG_HAS_TYPE_ID_INDEX : Z := 2.
Definition SLICE_FLAG_HAS_SLICE_SIZE : Z := 16.
Definition SLICE_FLAG_IS_LAST_SLICE : Z := 32.

Definition read_exception : Read (bytes * bytes) :=
  let* flags := read_byte in
  let* type_id := read_string in
  let* _ :=
    if negb (Z.land flags SLICE_FLAG_HAS_SLICE_SIZE =? 0) then
      let* _ := read_int in read_ret tt
    else read_ret tt in
  let* rest := read_remaining in
  read_ret (type_id, rest).

Definition parse_user_exception (payload : bytes) : rust (result (bytes * bytes) IceError) :=
  read_body read_exception (Val (Ok payload)).

(** A parse of its own inside a read. *)
Definition nested {A : Type} (m : rust (result A IceError)) : Read A := fun i =>
  let! r := m in Val (let? a := r in Ok (a, i)).

Definition read_reply_body (status : ReplyStatus) : Read ReplyBody :=
  match status with
  | StatusOk => let* p := read_encapsulation in read_ret (BodyOk p)
  | StatusUserException =>
      let* p := read_encapsulation in
      let* (type_id, body) := nested (parse_user_exception p) in
      read_ret (UserException type_id body)
  | ObjectNotExist | FacetNotExist | OperationNotExist =>
      let* identity := read_identity in
      let* facet := read_facet in
      let* operation := read_string in
      read_ret (RequestFailed status identity facet operation)
  | UnknownLocalException | UnknownUserException | UnknownException =>
      let* message := read_string in read_ret (Unknown status message)
  end.

Definition read_reply : Read Reply :=
  let* request_id := read_int in
  let* b := read_byte in
  let* status := lift (status_from_byte b) in
  let* body := read_reply_body status in
  let* _ := expect_end "reply" in
  read_ret (mkReply request_id body).

Definition reply_parse (message : bytes) : rust (result Reply IceError) :=
  read_body read_reply (message_body message ReplyMsg).

Definition reply_to_bytes (r : Reply) : result bytes IceError :=
  let out := write_int (reply_id r) [] in
  let? out :=
    match body r with
    | BodyOk payload => write_encapsulation payload (write_byte (status_as_byte StatusOk) out)
    | UserException type_id body =>
        let out := write_byte (status_as_byte StatusUserException) out in
        let? slice := write_string type_id (write_byte SLICE_FLAG_IS_LAST_SLICE []) in
        write_encapsulation (write_bytes body slice) out
    | RequestFailed status identity facet operation =>
        let out := write_byte (status_as_byte status) out in
        let? out := write_string (id_name identity) out in
        let? out := write_string (id_category identity) out in
        let? out := write_facet facet out in
        write_string operation out
    | Unknown status message => write_string message (write_byte (status_as_byte status) out)
    end in
  build_message ReplyMsg out.

Definition into_result (r : Reply) : result bytes IceError :=
  match body r with
  | BodyOk payload => Ok payload
  | UserException type_id body => Err (UserExceptionError type_id body)
  | RequestFailed status identity facet operation =>
      Err (RequestFailedError status identity facet operation)
  | Unknown status message => Err (UnknownError status message)
  end.

(** ** What the messages are on the wire *)

Definition facet_bytes (facet : bytes) : bytes :=
  strings_bytes (if bool_decide (facet = []) then [] else [facet]).

Definition identity_bytes (i : Identity) : bytes := string_bytes (id_name i) ++ string_bytes (id_category i).

Definition request_bytes (r : Request) : bytes :=
  le_bytes 4 (request_id r) ++ identity_bytes (identity r) ++ facet_bytes (facet r) ++
  string_bytes (operation r) ++ [mode_as_byte (mode r)] ++ dict_bytes (context r) ++
  encapsulation_bytes (params r).

Definition reply_body_bytes (b : ReplyBody) : bytes :=
  match b with
  | BodyOk payload => status_as_byte StatusOk :: encapsulation_bytes payload
  | UserException type_id body =>
      status_as_byte StatusUserException ::
      encapsulation_bytes (SLICE_FLAG_IS_LAST_SLICE :: string_bytes type_id ++ body)
  | RequestFailed status identity facet operation =>
      status_as_byte status :: identity_bytes identity ++ facet_bytes facet ++ string_bytes operation
  | Unknown status message => status_as_byte status :: string_bytes message
  end.

Definition reply_bytes (r : Reply) : bytes := le_bytes 4 (reply_id r) ++ reply_body_bytes (body r).

(** The invariants of the Rust types: an [i32], UTF-8 strings, ordered keys; and
    of the reply bodies, whose status is one of their own group. *)
Definition identity_wf (i : Identity) : Prop :=
  utf8_valid (id_name i) = true /\ utf8_valid (id_category i) = true.

Definition request_wf (r : Request) : Prop :=
  - 2 ^ 31 <= request_id r < 2 ^ 31 /\ identity_wf (identity r) /\
  utf8_valid (facet r) = true /\ utf8_valid (operation r) = true /\
  Forall (fun e => utf8_valid (fst e) = true /\ utf8_valid (snd e) = true) (context r) /\
  dict_sorted (context r).

Definition body_wf (b : ReplyBody) : Prop :=
  match b with
  | BodyOk _ => True
  | UserException type_id _ => utf8_valid type_id = true
  | RequestFailed status identity facet operation =>
      status ∈ [ObjectNotExist; FacetNotExist; OperationNotExist] /\ identity_wf identity /\
      utf8_valid facet = true /\ utf8_valid operation = true
  | Unknown status message =>
      status ∈ [UnknownLocalException; UnknownUserException; UnknownException] /\ utf8_valid message = true
  end.

Definition reply_wf (r : Reply) : Prop := - 2 ^ 31 <= reply_id r < 2 ^ 31 /\ body_wf (body r).

(** A whole message. *)
Definition message (t : MessageType) (body : bytes) : bytes :=
  prologue ++ [type_as_byte t; 0] ++ le_bytes 4 (HEADER_SIZE + len body) ++ body.

Lemma len_message t body : len (message t body) = HEADER_SIZE + len body.
Proof. unfold message. rewrite !len_app, len_le_bytes. change (len prologue) with 8. change (len [type_as_byte t; 0]) with 2. unfold HEADER_SIZE. lia. Qed.

Lemma header_head_parse t n rest :
  HEADER_SIZE <= n <= MAX_MESSAGE_SIZE ->
  header_parse (prologue ++ [type_as_byte t; 0] ++ le_bytes 4 n ++ rest) = Val (Ok (mkHeader t 0 n)).
Proof.
  intros Hn. unfold header_parse, get_range, HEADER_SIZE, MAX_MESSAGE_SIZE in *.
  rewrite !len_app, len_le_bytes. change (len prologue) with 8. pose proof (len_nonneg rest).
  change (len [type_as_byte t; 0]) with 2. rewrite (proj2 (Z.leb_le 14 _)) by lia.
  change ((0 <=? 0) && (0 <=? 14) && true) with true. cbn iota.
  assert (E : signed 32 (le_val (le_bytes 4 n)) = n).
  { unfold signed. rewrite le_val_le_bytes_small by (change (256 ^ Z.of_nat 4) with (2 ^ 32); lia).
    rewrite wrap_small by (unfold in_width; lia). change (2 ^ (32 - 1)) with (2 ^ 31).
    by rewrite (proj2 (Z.ltb_lt n (2 ^ 31))) by lia. }
  remember (le_bytes 4 n) as l eqn:Hl. cbn [le_bytes] in Hl.
  assert (Hsz : exists a b c d, l = [a; b; c; d]) by (rewrite Hl; eauto).
  destruct Hsz as (a & b & c & d & ->). clear Hl.
  replace (sub (prologue ++ [type_as_byte t; 0] ++ [a; b; c; d] ++ rest) 0 14)
    with (prologue ++ [type_as_byte t; 0] ++ [a; b; c; d]) by (destruct t; reflexivity).
  set (head := prologue ++ [type_as_byte t; 0] ++ [a; b; c; d]).
  change (slice head 0 4) with (Val MAGIC). change (index head 4) with (Val 1). change (index head 5) with (Val 0).
  change (index head 6) with (Val 1). change (index head 7) with (Val 0).
  change (index head 8) with (Val (type_as_byte t)). change (index head 9) with (Val 0).
  change (slice head 10 14) with (Val [a; b; c; d]).
  cbn [rust_bind]. rewrite E.
  replace (type_from_byte (type_as_byte t)) with (@Ok _ IceError t) by (by destruct t).
  cbn. rewrite bool_decide_eq_true_2 by done. cbn iota.
  by rewrite (proj2 (Z.ltb_ge n 0)), (proj2 (Z.ltb_ge n 14)), (proj2 (Z.ltb_ge (16 * 1024 * 1024) n)) by lia.
Qed.

Lemma message_header t body :
  HEADER_SIZE + len body <= MAX_MESSAGE_SIZE ->
  header_parse (message t body) = Val (Ok (mkHeader t 0 (HEADER_SIZE + len body))).
Proof. intros Hn. pose proof (len_nonneg body). apply header_head_parse. lia. Qed.

Lemma message_body_message t body :
  HEADER_SIZE + len body <= MAX_MESSAGE_SIZE -> message_body (message t body) t = Val (Ok body).
Proof.
  intros Hn. unfold message_body. rewrite message_header by done. cbn [rust_bind message_type size].
  rewrite bool_decide_eq_true_2 by done. cbn [negb]. rewrite len_message, Z.eqb_refl. cbn [negb].
  pose proof (len_nonneg body). rewrite slice_val by (rewrite ?len_message; unfold HEADER_SIZE; lia).
  cbn [rust_bind]. do 2 f_equal. rewrite sub_drop by (unfold HEADER_SIZE; lia).
  unfold len. rewrite Nat2Z.id.
  replace (drop _ (message t body)) with body by (destruct t; reflexivity).
  apply firstn_all.
Qed.

Lemma build_message_spec t body :
  build_message t body =
    if HEADER_SIZE + len body <=? MAX_MESSAGE_SIZE then Ok (message t body)
    else Err (protocol ("message of " +:+ dec (HEADER_SIZE + len body) +:+ " bytes exceeds the 16777216 byte cap")).
Proof.
  unfold build_message. rewrite Z.leb_antisym. destruct (Z.ltb_spec MAX_MESSAGE_SIZE (HEADER_SIZE + len body)); [done |].
  cbn [negb]. unfold to_i32. rewrite (proj2 (Z.ltb_lt _ (2 ^ 31))) by (unfold MAX_MESSAGE_SIZE in *; lia). done.
Qed.

(** Writing a body and building its message: all or nothing, by the size. *)
Lemma writes_build w bs t :
  writes w bs ->
  if HEADER_SIZE + len bs <=? MAX_MESSAGE_SIZE
  then (let? out := w [] in build_message t out) = Ok (message t bs)
  else exists e, (let? out := w [] in build_message t out) = Err e.
Proof.
  intros Hw. destruct (Z.leb_spec (HEADER_SIZE + len bs) MAX_MESSAGE_SIZE);
    (destruct (Hw []) as [-> | [Hl [e ->]]]; cbn [result_bind app];
     [rewrite build_message_spec | unfold HEADER_SIZE, MAX_MESSAGE_SIZE in *]).
  - by rewrite (proj2 (Z.leb_le _ _)).
  - lia.
  - rewrite (proj2 (Z.leb_gt _ _)) by done. by eexists.
  - by eexists.
Qed.

(** A reader that takes a whole body. *)
Lemma read_body_message {A : Type} (m : Read A) t bs a :
  HEADER_SIZE + len bs <= MAX_MESSAGE_SIZE -> finishes m bs a ->
  read_body m (message_body (message t bs) t) = Val (Ok a).
Proof.
  intros Hn Hm. rewrite message_body_message by done. unfold read_body. cbn [rust_bind].
  specialize (Hm []). change (len []) with 0 in Hm. cbn [app] in Hm. unfold input_new.
  rewrite Hm; [done |]. unfold HEADER_SIZE, MAX_MESSAGE_SIZE in Hn. lia.
Qed.

Lemma finishes_end {A : Type} what (a : A) : finishes (let* _ := expect_end what in read_ret a) [] a.
Proof.
  intros pre _. rewrite app_nil_r. unfold read_bind, expect_end, is_empty, remaining. cbn [buf pos].
  rewrite usub_val by lia. rewrite Z.sub_diag. done.
Qed.

Lemma reads_identity i :
  ice_string (id_name i) -> ice_string (id_category i) -> reads read_identity (identity_bytes i) i.
Proof.
  intros Hn Hc. unfold read_identity, identity_bytes. eapply reads_bind; [by apply reads_string |].
  destruct i as [name category]. cbn [id_name id_category] in *.
  apply (reads_map _ (fun c => mkIdentity name c)). by apply reads_string.
Qed.

Lemma reads_facet f : ice_string f -> reads read_facet (facet_bytes f) f.
Proof.
  intros Hf. unfold read_facet, facet_bytes. rewrite <- (app_nil_r (strings_bytes _)).
  case_bool_decide as E.
  - subst. eapply reads_bind; [by apply reads_string_seq; [constructor |] |]. apply reads_ret.
  - eapply reads_bind; [apply reads_string_seq; [by repeat constructor; apply Hf | done] |]. apply reads_ret.
Qed.

Lemma writes_facet f : writes (write_facet f) (facet_bytes f).
Proof. unfold write_facet, facet_bytes. case_bool_decide; apply writes_string_seq. Qed.
#[export] Hint Resolve writes_facet : writes.

Lemma string_bytes_ge s : len s <= len (string_bytes s).
Proof. unfold string_bytes. rewrite len_app. pose proof (len_nonneg (size_bytes (len s))). lia. Qed.

(** A valid string among bytes that fit a message fits an Ice int. *)
Lemma fits_string s n : utf8_valid s = true -> len (string_bytes s) <= n -> n <= MAX_MESSAGE_SIZE -> ice_string s.
Proof.
  intros Hv Hl Hn. split; [done |]. pose proof (string_bytes_ge s). unfold MAX_MESSAGE_SIZE in Hn. lia.
Qed.

(** ** Writing and reading back *)

Definition write_request (r : Request) (out : OutputStream) : result OutputStream IceError :=
  let? out := write_string (id_name (identity r)) (write_int (request_id r) out) in
  let? out := write_string (id_category (identity r)) out in
  let? out := write_facet (facet r) out in
  let? out := write_string (operation r) out in
  let? out := write_dict (context r) (write_byte (mode_as_byte (mode r)) out) in
  write_encapsulation (params r) out.

Definition write_reply_body (b : ReplyBody) (out : OutputStream) : result OutputStream IceError :=
  match b with
  | BodyOk payload => write_encapsulation payload (write_byte (status_as_byte StatusOk) out)
  | UserException type_id body =>
      let out := write_byte (status_as_byte StatusUserException) out in
      let? slice := write_string type_id (write_byte SLICE_FLAG_IS_LAST_SLICE []) in
      write_encapsulation (write_bytes body slice) out
  | RequestFailed status identity facet operation =>
      let? out := write_string (id_name identity) (write_byte (status_as_byte status) out) in
      let? out := write_string (id_category identity) out in
      let? out := write_facet facet out in
      write_string operation out
  | Unknown status message => write_string message (write_byte (status_as_byte status) out)
  end.

Definition write_reply (r : Reply) (out : OutputStream) : result OutputStream IceError :=
  write_reply_body (body r) (write_int (reply_id r) out).

Lemma result_bind_assoc {A B C E : Type} (m : result A E) (k : A -> result B E) (j : B -> result C E) :
  result_bind (result_bind m k) j = result_bind m (fun a => result_bind (k a) j).
Proof. by destruct m. Qed.

Lemma request_to_bytes_write r :
  request_to_bytes r = let? out := write_request r [] in build_message RequestMsg out.
Proof.
  unfold request_to_bytes, write_request.
  repeat (rewrite result_bind_assoc || (match goal with |- result_bind ?m _ = _ => destruct m; [| done]; cbn [result_bind] end)).
  done.
Qed.

Lemma reply_to_bytes_write r :
  reply_to_bytes r = let? out := write_reply r [] in build_message ReplyMsg out.
Proof. done. Qed.

Lemma writes_eq w w' bs : writes w bs -> (forall out, w' out = w out) -> writes w' bs.
Proof. intros Hw E out. rewrite !E. apply Hw. Qed.

Lemma writes_request r : writes (write_request r) (request_bytes r).
Proof.
  unfold request_bytes, identity_bytes. rewrite <- app_assoc.
  apply (writes_pure (le_bytes 4 (request_id r)) (fun out =>
    let? out := write_string (id_name (identity r)) out in
    let? out := write_string (id_category (identity r)) out in
    let? out := write_facet (facet r) out in
    let? out := write_string (operation r) out in
    let? out := write_dict (context r) (write_byte (mode_as_byte (mode r)) out) in
    write_encapsulation (params r) out)).
  repeat (apply writes_bind; [solve [auto with writes] |]).
  apply (writes_pure [mode_as_byte (mode r)] (fun out =>
    let? out := write_dict (context r) out in write_encapsulation (params r) out)).
  apply writes_bind; auto with writes.
Qed.

Lemma writes_reply_body b : writes (write_reply_body b) (reply_body_bytes b).
Proof.
  destruct b as [p | type_id b | status i facet operation | status msg];
    cbn [reply_body_bytes write_reply_body].
  - apply (writes_pure [_] (fun out => write_encapsulation p out)). auto with writes.
  - intros out. unfold write_reply_body.
    pose proof (writes_pure [status_as_byte StatusUserException]
      (write_encapsulation (SLICE_FLAG_IS_LAST_SLICE :: string_bytes type_id ++ b))
      _ (writes_encapsulation _) out) as Henc.
    destruct (writes_string type_id [SLICE_FLAG_IS_LAST_SLICE]) as [E | [Hl [e E]]];
      change (write_byte SLICE_FLAG_IS_LAST_SLICE []) with [SLICE_FLAG_IS_LAST_SLICE]; rewrite E; cbn [result_bind]; [exact Henc |].
    right. split; [| by eexists]. unfold encapsulation_bytes. pose proof (len_nonneg b). solve_len.
  - unfold identity_bytes. rewrite <- app_assoc.
    apply (writes_pure [_] (fun out =>
      let? out := write_string (id_name i) out in
      let? out := write_string (id_category i) out in
      let? out := write_facet facet out in write_string operation out)).
    repeat (apply writes_bind; [solve [auto with writes] |]). auto with writes.
  - apply (writes_pure [_] (fun out => write_string msg out)). auto with writes.
Qed.

Lemma writes_reply r : writes (write_reply r) (reply_bytes r).
Proof. apply (writes_pure _ (write_reply_body (body r))), writes_reply_body. Qed.

Lemma entries_fit d n :
  Forall (fun e => utf8_valid (fst e) = true /\ utf8_valid (snd e) = true) d ->
  len (concat (map entry_bytes d)) <= n -> n <= MAX_MESSAGE_SIZE ->
  Forall (fun e => ice_string (fst e) /\ ice_string (snd e)) d.
Proof.
  intros Hd Hl Hn. induction Hd as [| [k v] d [Hk Hv] _ IH]; constructor.
  - cbn [map concat] in Hl. rewrite len_app in Hl. unfold entry_bytes in Hl at 1. cbn [fst snd] in *.
    rewrite len_app in Hl. pose proof (len_nonneg (concat (map entry_bytes d))).
    pose proof (len_nonneg (string_bytes k)). pose proof (len_nonneg (string_bytes v)).
    split; eapply fits_string; eauto; lia.
  - apply IH. cbn [map concat] in Hl. rewrite len_app in Hl. pose proof (len_nonneg (entry_bytes (k, v))). lia.
Qed.

Lemma reads_dict_fit d n :
  Forall (fun e => utf8_valid (fst e) = true /\ utf8_valid (snd e) = true) d -> dict_sorted d ->
  len (dict_bytes d) <= n -> n <= MAX_MESSAGE_SIZE -> reads read_dict (dict_bytes d) d.
Proof.
  intros Hd Hs Hl Hn. unfold dict_bytes in Hl. rewrite len_app in Hl.
  pose proof (len_nonneg (size_bytes (len d))).
  apply reads_dict; [eapply entries_fit; eauto; lia | done |].
  assert (len d <= len (concat (map entry_bytes d))).
  { apply concat_len_ge. intros [k v]. unfold entry_bytes. cbn [fst snd]. rewrite len_app.
    pose proof (string_bytes_pos k). pose proof (string_bytes_pos v). lia. }
  unfold MAX_MESSAGE_SIZE in Hn. lia.
Qed.

Lemma facet_fits f n :
  utf8_valid f = true -> len (facet_bytes f) <= n -> n <= MAX_MESSAGE_SIZE -> ice_string f.
Proof.
  intros Hv Hl Hn. unfold facet_bytes in Hl. case_bool_decide as E; [by subst |].
  unfold strings_bytes in Hl. cbn [map concat] in Hl. rewrite app_nil_r, len_app in Hl.
  pose proof (len_nonneg (size_bytes (len [f]))). eapply fits_string; eauto; lia.
Qed.

Lemma reads_lift_mode m : reads (lift (mode_from_byte (mode_as_byte m))) [] m.
Proof. destruct m; apply reads_ret. Qed.

Lemma reads_lift_status s : reads (lift (status_from_byte (status_as_byte s))) [] s.
Proof. destruct s; apply reads_ret. Qed.

Lemma finishes_request r :
  request_wf r -> HEADER_SIZE + len (request_bytes r) <= MAX_MESSAGE_SIZE ->
  finishes read_request (request_bytes r) r.
Proof.
  destruct r as [id [name category] fct op md ctx ps].
  unfold request_wf, identity_wf, request_bytes, identity_bytes, HEADER_SIZE.
  cbn [request_id identity facet operation mode context params id_name id_category].
  intros (Hid & (Hname & Hcat) & Hfacet & Hop & Hctx & Hsort) Hn.
  rewrite !len_app, !len_cons in Hn. change (len (@nil Z)) with 0 in Hn.
  pose proof (len_nonneg (string_bytes name)). pose proof (len_nonneg (string_bytes category)).
  pose proof (len_nonneg (facet_bytes fct)). pose proof (len_nonneg (string_bytes op)).
  pose proof (len_nonneg (dict_bytes ctx)). pose proof (len_nonneg (encapsulation_bytes ps)).
  pose proof (len_nonneg (le_bytes 4 id)).
  unfold read_request.
  eapply finishes_bind; [by apply reads_int |].
  eapply finishes_bind; [apply (reads_identity (mkIdentity name category)); cbn [id_name id_category]; (eapply fits_string; [done | reflexivity | lia]) |].
  eapply finishes_bind; [apply reads_facet; (eapply facet_fits; [done | reflexivity | lia]) |].
  eapply finishes_bind; [apply reads_string; (eapply fits_string; [done | reflexivity | lia]) |].
  eapply finishes_bind; [apply reads_byte |]. cbv beta.
  rewrite <- (app_nil_l (dict_bytes _ ++ _)). eapply finishes_bind; [apply reads_lift_mode |].
  eapply finishes_bind; [eapply reads_dict_fit; [done | done | reflexivity | lia] |].
  rewrite <- (app_nil_r (encapsulation_bytes ps)).
  eapply finishes_bind; [apply reads_encapsulation | apply finishes_end].
  unfold encapsulation_bytes in Hn. rewrite !len_app, !len_le_bytes in Hn.
  change (len [ENCODING_MAJOR; ENCODING_MINOR]) with 2 in Hn. unfold ENCAPSULATION_HEADER_SIZE, MAX_MESSAGE_SIZE in *. lia.
Qed.

Lemma parse_user_exception_bytes type_id b :
  ice_string type_id -> len (SLICE_FLAG_IS_LAST_SLICE :: string_bytes type_id ++ b) < 2 ^ 64 ->
  parse_user_exception (SLICE_FLAG_IS_LAST_SLICE :: string_bytes type_id ++ b) = Val (Ok (type_id, b)).
Proof.
  intros Hs Hl. unfold parse_user_exception, read_body. cbn [rust_bind].
  assert (Hf : finishes read_exception ([SLICE_FLAG_IS_LAST_SLICE] ++ string_bytes type_id ++ b) (type_id, b)).
  { unfold read_exception. eapply finishes_bind; [apply reads_byte |].
    eapply finishes_bind; [by apply reads_string |].
    change (negb (Z.land SLICE_FLAG_IS_LAST_SLICE SLICE_FLAG_HAS_SLICE_SIZE =? 0)) with false. cbn iota.
    rewrite <- (app_nil_l b) at 1. eapply finishes_bind; [apply reads_ret |].
    apply (finishes_remaining b (fun rest => (type_id, rest))). }
  specialize (Hf [] Hl). cbn [app] in Hf. change (len []) with 0 in Hf. unfold input_new. by rewrite Hf.
Qed.

Lemma reads_reply_body b status bs :
  body_wf b -> reply_body_bytes b = status_as_byte status :: bs -> len (reply_body_bytes b) <= MAX_MESSAGE_SIZE ->
  reads (read_reply_body status) bs b.
Proof.
  intros Hwf Hbs Hn. rewrite Hbs, len_cons in Hn.
  destruct b as [p | type_id b | st i f op | st msg]; cbn [reply_body_bytes body_wf] in *;
    injection Hbs as Hst <-.
  - assert (status = StatusOk) as -> by (destruct status; by vm_compute in Hst). cbn [read_reply_body].
    apply (reads_map _ BodyOk), reads_encapsulation.
    unfold encapsulation_bytes in Hn. rewrite !len_app, !len_le_bytes in Hn.
    change (len [ENCODING_MAJOR; ENCODING_MINOR]) with 2 in Hn. unfold ENCAPSULATION_HEADER_SIZE, MAX_MESSAGE_SIZE in *. lia.
  - assert (status = StatusUserException) as -> by (destruct status; by vm_compute in Hst). cbn [read_reply_body].
    unfold encapsulation_bytes in Hn. rewrite !len_app, !len_le_bytes, !len_cons, !len_app in Hn.
    change (len (@nil Z)) with 0 in Hn. unfold MAX_MESSAGE_SIZE in Hn.
    pose proof (len_nonneg b). pose proof (string_bytes_ge type_id).
    rewrite <- (app_nil_r (encapsulation_bytes _)).
    eapply reads_bind.
    { apply reads_encapsulation. unfold ENCAPSULATION_HEADER_SIZE. rewrite len_cons, len_app. lia. }
    apply (reads_bind _ _ [] [] (type_id, b)); [| apply reads_ret].
    intros pre suf _. unfold nested. rewrite parse_user_exception_bytes.
    + cbn. by rewrite Z.add_0_r.
    + split; [done | lia].
    + rewrite len_cons, len_app. lia.
  - destruct Hwf as (Hin & [Hname Hcat] & Hf & Hop).
    assert (Hstatus : status = st) by (destruct status, st; by vm_compute in Hst). subst st.
    unfold identity_bytes in *. rewrite !len_app in Hn.
    pose proof (len_nonneg (string_bytes (id_name i))). pose proof (len_nonneg (string_bytes (id_category i))).
    pose proof (len_nonneg (facet_bytes f)). pose proof (len_nonneg (string_bytes op)).
    assert (Hr : reads (let* identity := read_identity in
                        let* facet := read_facet in
                        let* operation := read_string in
                        read_ret (RequestFailed status identity facet operation))
                   (identity_bytes i ++ facet_bytes f ++ string_bytes op) (RequestFailed status i f op)).
    { eapply reads_bind; [apply reads_identity; (eapply fits_string; [done | reflexivity | lia]) |].
      eapply reads_bind; [apply reads_facet; (eapply facet_fits; [done | reflexivity | lia]) |].
      apply (reads_map _ (fun o => RequestFailed status i f o)), reads_string. eapply fits_string; [done | reflexivity | lia]. }
    unfold identity_bytes in Hr. rewrite !elem_of_cons in Hin. destruct Hin as [-> | [-> | [-> | []%elem_of_nil]]]; exact Hr.
  - destruct Hwf as (Hin & Hmsg).
    assert (Hstatus : status = st) by (destruct status, st; by vm_compute in Hst). subst st.
    assert (Hr : reads (let* message := read_string in read_ret (Unknown status message)) (string_bytes msg) (Unknown status msg)).
    { apply (reads_map _ (fun m => Unknown status m)), reads_string. eapply fits_string; [done | reflexivity | lia]. }
    rewrite !elem_of_cons in Hin. destruct Hin as [-> | [-> | [-> | []%elem_of_nil]]]; exact Hr.
Qed.

Lemma finishes_reply r :
  reply_wf r -> HEADER_SIZE + len (reply_bytes r) <= MAX_MESSAGE_SIZE -> finishes read_reply (reply_bytes r) r.
Proof.
  destruct r as [id b]. unfold reply_wf, reply_bytes, HEADER_SIZE. cbn [reply_id body].
  intros [Hid Hb] Hn. rewrite len_app, len_le_bytes in Hn. unfold read_reply.
  assert (Hst : exists status bs, reply_body_bytes b = [status_as_byte status] ++ bs).
  { destruct b; cbn [reply_body_bytes]; by eexists _, _. }
  destruct Hst as (status & bs & Hbs). rewrite Hbs.
  eapply finishes_bind; [by apply reads_int |]. eapply finishes_bind; [apply reads_byte |]. cbv beta.
  rewrite <- (app_nil_l bs). eapply finishes_bind; [apply reads_lift_status |].
  rewrite <- (app_nil_r bs). eapply finishes_bind; [| apply finishes_end].
  apply reads_reply_body; [done | by rewrite Hbs | lia].
Qed.

(** What a message that fits is written as, and read back as. *)
Lemma request_roundtrip r :
  request_wf r -> HEADER_SIZE + len (request_bytes r) <= MAX_MESSAGE_SIZE ->
  request_to_bytes r = Ok (message RequestMsg (request_bytes r)) /\
  request_parse (message RequestMsg (request_bytes r)) = Val (Ok r).
Proof.
  intros Hwf Hn. rewrite request_to_bytes_write. pose proof (writes_build _ _ RequestMsg (writes_request r)) as Hw.
  rewrite (proj2 (Z.leb_le _ _)) in Hw by done. rewrite Hw. split; [done |].
  by apply read_body_message, finishes_request.
Qed.

Lemma reply_roundtrip r :
  reply_wf r -> HEADER_SIZE + len (reply_bytes r) <= MAX_MESSAGE_SIZE ->
  reply_to_bytes r = Ok (message ReplyMsg (reply_bytes r)) /\
  reply_parse (message ReplyMsg (reply_bytes r)) = Val (Ok r).
Proof.
  intros Hwf Hn. rewrite reply_to_bytes_write. pose proof (writes_build _ _ ReplyMsg (writes_reply r)) as Hw.
  rewrite (proj2 (Z.leb_le _ _)) in Hw by done. rewrite Hw. split; [done |].
  by apply read_body_message, finishes_reply.
Qed.

(** ** Arbitrary bytes *)

Lemma list_14 {A : Type} (l : list A) : len l = 14 ->
  exists a b c d e f g h i j k m n o, l = [a; b; c; d; e; f; g; h; i; j; k; m; n; o].
Proof.
  unfold len. intros Hl.
  do 14 (destruct l as [| ? l]; [cbn in Hl; lia |]). destruct l; [| cbn [length] in Hl; lia].
  by repeat eexists.
Qed.

(** A header is read or refused; what is read is a whole size under the cap. *)
Lemma header_parse_total bs :
  (exists e, header_parse bs = Val (Err e)) \/
  exists t n, header_parse bs = Val (Ok (mkHeader t 0 n)) /\ HEADER_SIZE <= n <= MAX_MESSAGE_SIZE /\ HEADER_SIZE <= len bs.
Proof.
  unfold header_parse. destruct (get_range bs 0 HEADER_SIZE) as [head |] eqn:E; [| left; by eexists].
  unfold get_range in E. destruct ((0 <=? 0) && (0 <=? HEADER_SIZE) && (HEADER_SIZE <=? len bs)) eqn:Hb; [| done].
  apply andb_prop in Hb as [_ Hb]. apply Z.leb_le in Hb. injection E as <-.
  assert (Hl : len (sub bs 0 HEADER_SIZE) = 14) by (rewrite len_sub; unfold HEADER_SIZE in *; lia).
  destruct (list_14 _ Hl) as (a & b & c & d & e & f & g & h & i & j & k & m & n & o & ->).
  set (head := [a; b; c; d; e; f; g; h; i; j; k; m; n; o]).
  change (slice head 0 4) with (Val [a; b; c; d]). change (index head 4) with (Val e).
  change (index head 5) with (Val f). change (index head 6) with (Val g). change (index head 7) with (Val h).
  change (index head 8) with (Val i). change (index head 9) with (Val j).
  change (slice head 10 14) with (Val [k; m; n; o]). cbn [rust_bind].
  repeat match goal with |- context [if ?b then Err _ else _] => destruct b eqn:?; [left; by eexists |] end.
  destruct (type_from_byte i) as [t | er]; cbn [result_bind]; [| left; by eexists].
  destruct (Z.eqb_spec j 0) as [-> |]; cbn [negb]; [| left; by eexists].
  set (z := signed 32 (le_val [k; m; n; o])).
  destruct (Z.ltb_spec z 0); [left; by eexists |]. destruct (Z.ltb_spec z HEADER_SIZE); [left; by eexists |].
  destruct (Z.ltb_spec MAX_MESSAGE_SIZE z); [left; by eexists |].
  right. exists t, z. done.
Qed.

Lemma message_body_total t bs :
  (exists e, message_body bs t = Val (Err e)) \/
  exists body, message_body bs t = Val (Ok body) /\ header_parse bs = Val (Ok (mkHeader t 0 (len bs))).
Proof.
  unfold message_body. destruct (header_parse_total bs) as [[e ->] | (t' & n & -> & Hn & Hb)]; cbn [rust_bind].
  { left. by eexists. }
  cbn [message_type size]. case_bool_decide as Ht; cbn [negb]; [| left; by eexists]. subst t'.
  destruct (Z.eqb_spec n (len bs)) as [-> |]; cbn [negb]; [| left; by eexists].
  unfold HEADER_SIZE in *. rewrite slice_val by lia. right. by eexists.
Qed.

Lemma safe_end what : safe (expect_end what).
Proof.
  intros i Hi. unfold reader_ok in Hi. unfold expect_end, is_empty, remaining. rewrite usub_val by lia.
  cbn [rust_bind]. destruct (_ =? 0); cbn; [split; [done | lia] | done].
Qed.

Lemma safe_lift {A : Type} (r : result A IceError) : safe (lift r).
Proof. destruct r; [apply safe_ret | apply safe_fail]. Qed.

Lemma safe_identity : safe read_identity.
Proof. unfold read_identity. solve_safe. Qed.

Lemma safe_facet : safe read_facet.
Proof. unfold read_facet. solve_safe. Qed.
#[export] Hint Resolve safe_end safe_lift safe_identity safe_facet : safe.

(** A safe reader of a whole body gives a value or an error. *)
Lemma safe_read_body {A : Type} (m : Read A) bs : safe m -> exists r, read_body m (Val (Ok bs)) = Val r.
Proof.
  intros Hm. unfold read_body. cbn [rust_bind]. pose proof (len_nonneg bs).
  specialize (Hm (input_new bs)). destruct (m (input_new bs)) as [r | |].
  - cbn [rust_bind]. by eexists.
  - destruct Hm. unfold reader_ok, input_new. cbn. lia.
  - destruct Hm. unfold reader_ok, input_new. cbn. lia.
Qed.

Lemma safe_exception : safe read_exception.
Proof. unfold read_exception. solve_safe. Qed.

Lemma safe_nested p : safe (nested (parse_user_exception p)).
Proof.
  intros i Hi. unfold nested, parse_user_exception. destruct (safe_read_body _ p safe_exception) as [r ->].
  cbn [rust_bind]. unfold reader_ok in Hi. destruct r; cbn; [split; [done | lia] | done].
Qed.
#[export] Hint Resolve safe_nested : safe.

Lemma safe_request : safe read_request.
Proof. unfold read_request. solve_safe. Qed.

Lemma safe_reply_body s : safe (read_reply_body s).
Proof. destruct s; cbn [read_reply_body]; solve_safe. Qed.
#[export] Hint Resolve safe_reply_body : safe.

Lemma safe_reply : safe read_reply.
Proof. unfold read_reply. solve_safe. Qed.

(** A body of the expected type is read, or refused; never a panic. *)
Lemma read_message_total {A : Type} (m : Read A) t bs :
  safe m ->
  (exists e, read_body m (message_body bs t) = Val (Err e)) \/
  exists a, read_body m (message_body bs t) = Val (Ok a) /\
            header_parse bs = Val (Ok (mkHeader t 0 (len bs))).
Proof.
  intros Hm. destruct (message_body_total t bs) as [[e ->] | (body & -> & Hh)]; [left; by eexists |].
  destruct (safe_read_body m body Hm) as [[a | e] ->]; [right | left]; eauto.
Qed.

Lemma reply_parse_total bs :
  (exists e, reply_parse bs = Val (Err e)) \/
  exists r, reply_parse bs = Val (Ok r) /\ header_parse bs = Val (Ok (mkHeader ReplyMsg 0 (len bs))).
Proof. apply read_message_total, safe_reply. Qed.

(** ** The contract of the messages *)

(** C40: Every request and every reply that respects its types (an [i32] id,
    UTF-8 strings, ordered context keys, a status of the body's own group) and
    fits in 16 MiB is written as the header and the body of the Ice protocol
    and read back as itself; a larger one is refused when it is written, and
    never truncated. *)
Theorem ice_roundtrip (q : Request) (r : Reply) (Hq : request_wf q) (Hr : reply_wf r) :
  (if HEADER_SIZE + len (request_bytes q) <=? MAX_MESSAGE_SIZE
   then request_to_bytes q = Ok (message RequestMsg (request_bytes q)) /\
        request_parse (message RequestMsg (request_bytes q)) = Val (Ok q)
   else exists e, request_to_bytes q = Err e) /\
  (if HEADER_SIZE + len (reply_bytes r) <=? MAX_MESSAGE_SIZE
   then reply_to_bytes r = Ok (message ReplyMsg (reply_bytes r)) /\
        reply_parse (message ReplyMsg (reply_bytes r)) = Val (Ok r)
   else exists e, reply_to_bytes r = Err e).
Proof.
  split.
  - destruct (Z.leb_spec (HEADER_SIZE + len (request_bytes q)) MAX_MESSAGE_SIZE); [by apply request_roundtrip |].
    rewrite request_to_bytes_write. pose proof (writes_build _ _ RequestMsg (writes_request q)) as Hw.
    by rewrite (proj2 (Z.leb_gt _ _)) in Hw.
  - destruct (Z.leb_spec (HEADER_SIZE + len (reply_bytes r)) MAX_MESSAGE_SIZE); [by apply reply_roundtrip |].
    rewrite reply_to_bytes_write. pose proof (writes_build _ _ ReplyMsg (writes_reply r)) as Hw.
    by rewrite (proj2 (Z.leb_gt _ _)) in Hw.
Qed.

(** A [configure] call with a facet and a context, refused by the server. *)
Definition sample_request : Request :=
  mkRequest 7 (mkIdentity [69; 99; 99] []) [102] [99; 102; 103] Idempotent [([97], [98]); ([99], [])] [1; 2; 3].
Definition sample_reply : Reply :=
  mkReply 7 (RequestFailed OperationNotExist (mkIdentity [69; 99; 99] []) [] [99; 102; 103]).

Lemma ice_roundtrip_witness :
  request_wf sample_request /\ reply_wf sample_reply /\
  request_parse (message RequestMsg (request_bytes sample_request)) = Val (Ok sample_request) /\
  reply_parse (message ReplyMsg (reply_bytes sample_reply)) = Val (Ok sample_reply).
Proof.
  assert (Hq : request_wf sample_request).
  { unfold request_wf, identity_wf, dict_sorted. cbn. repeat split; try done; try lia; repeat constructor. }
  assert (Hr : reply_wf sample_reply).
  { unfold reply_wf. cbn. repeat split; try lia; try done. repeat constructor. }
  destruct (ice_roundtrip sample_request sample_reply Hq Hr) as [H1 H2].
  split; [exact Hq |]. split; [exact Hr |].
  split; [exact (proj2 H1) | exact (proj2 H2)].
Defined.

(** Whatever bytes arrive, parsing them as a request or as a reply returns a
    value or an error and never panics, exceptions nested in a reply included;
    it accepts only a whole message, of the right type, uncompressed, whose
    declared size is the number of bytes at hand. *)
Theorem ice_parse_safe (bs : bytes) :
  exists q r, request_parse bs = Val q /\ reply_parse bs = Val r /\
    (forall x, q = Ok x -> header_parse bs = Val (Ok (mkHeader RequestMsg 0 (len bs)))) /\
    (forall x, r = Ok x -> header_parse bs = Val (Ok (mkHeader ReplyMsg 0 (len bs)))).
Proof.
  destruct (read_message_total read_request RequestMsg bs safe_request) as [[e Eq] | (a & Eq & Hq)];
    destruct (reply_parse_total bs) as [[e' Er] | (a' & Er & Hr)];
    unfold request_parse; rewrite Eq, Er; eexists _, _; (split; [reflexivity |]); (split; [reflexivity |]);
    split; intros x [=]; done.
Qed.
