(* ===== verification/IceClient.v ===== *)
(** * IceClient: one connection of the Ice client

    Models [src/ice/client.rs]: the connection that waits for its validation,
    numbers its calls and waits for their replies.  The TCP stream is an input:
    the bytes it will deliver, what happens when they are used up, and whether
    each write works.  A call blocked on a silent server is a value of its own. *)

From stdpp Require Import pretty strings.
From S2P Require Import Prelude Bytes Utf8 Decimal IceCodec IceProto.
Open Scope list_scope.
Open Scope Z_scope.

(** What a read finds after the last byte: the end of the stream, an error (as it
    is printed), or nothing at all. *)
Inductive Ending : Type :=
| Eof
| Failing (cause : string)
| Silent.

(** [read_timeout] is [Some] text while a read timeout is set: what the error of
    a read that times out is printed as. *)
Record IceConnection : Type := mkConnection {
  incoming : bytes;
  ending : Ending;
  read_timeout : option string;
  sent : list bytes;
  next_request_id : Z;
}.

#[export] Instance eta_IceConnection : Eta IceConnection := fun c =>
  mkConnection (incoming c) (ending c) (read_timeout c) (sent c) (next_request_id c).

(** A call returns, fails, or is still waiting. *)
Inductive Outcome (A : Type) : Type :=
| Got (a : A)
| Failed (e : IceError)
| Waiting.
Arguments Got {A} a.
Arguments Failed {A} e.
Arguments Waiting {A}.

Definition Io (A : Type) : Type := IceConnection -> rust (Outcome A * IceConnection).

Definition io_ret {A : Type} (a : A) : Io A := fun c => Val (Got a, c).
Definition io_fail {A : Type} (e : IceError) : Io A := fun c => Val (Failed e, c).
Definition io_bind {A B : Type} (m : Io A) (k : A -> Io B) : Io B := fun c =>
  let! (o, c) := m c in
  match o with
  | Got a => k a c
  | Failed e => Val (Failed e, c)
  | Waiting => Val (Waiting, c)
  end.
(** A computation on the way, with its [?]. *)
Definition io_try {A : Type} (m : rust (result A IceError)) : Io A := fun c =>
  let! r := m in
  match r with
  | Ok a => Val (Got a, c)
  | Err e => Val (Failed e, c)
  end.

Notation "'let**' x := m 'in' k" := (io_bind m (fun x => k))
  (at level 10, x pattern, m at level 100, k at level 200) : rust_scope.

Section Client.
(** The peer address, as it is printed. *)
Context (peer : string).

(** [read_exact] and [read_error]. *)
Definition read_exact (n : Z) (what : string) : Io bytes := fun c =>
  if n <=? len (incoming c) then
    Val (Got (sub (incoming c) 0 n), c <| incoming := sub (incoming c) n (len (incoming c)) |>)
  else
    let failed cause := Val (Failed (lost ("reading " +:+ what +:+ " from " +:+ peer +:+ " failed: " +:+ cause)),
                             c <| incoming := [] |>) in
    match ending c, read_timeout c with
    | Eof, _ => Val (Failed (lost (peer +:+ " closed the connection while reading " +:+ what)), c <| incoming := [] |>)
    | Failing cause, _ => failed cause
    | Silent, Some timed_out => failed timed_out
    | Silent, None => Val (Waiting, c <| incoming := [] |>)
    end.

Definition read_message : Io (MessageHeader * bytes) :=
  let** head := read_exact HEADER_SIZE "message header" in
  let** header := io_try (header_parse head) in
  if HEADER_SIZE <? size header then
    let** rest := read_exact (size header - HEADER_SIZE) "message body" in
    io_ret (header, head ++ rest)
  else io_ret (header, head).

Definition take_request_id : Io Z := fun c =>
  let id := next_request_id c in
  Val (Got id, c <| next_request_id := if id =? 2 ^ 31 - 1 then 1 else id + 1 |>).

(** The wait for a reply; each turn reads a message. *)
Fixpoint wait_reply (fuel : nat) (operation : string) (request_id : Z) : Io bytes :=
  match fuel with
  | O => fun _ => OutOfFuel
  | S fuel =>
      let** (header, message) := read_message in
      match message_type header with
      | ReplyMsg =>
          let** reply := io_try (reply_parse message) in
          if negb (reply_id reply =? request_id) then
            io_fail (protocol ("reply carries request id " +:+ pretty (reply_id reply) +:+
                               " while waiting for " +:+ pretty request_id))
          else io_try (Val (into_result reply))
      | ValidateConnection => wait_reply fuel operation request_id
      | CloseConnection =>
          io_fail (lost (peer +:+ " sent CloseConnection while " +:+ operation +:+ " (request " +:+
                         pretty request_id +:+ ") was outstanding; the request was not dispatched"))
      | other => io_fail (protocol ("unexpected " +:+ type_name other +:+ " message from " +:+ peer))
      end
  end.

(** A system call on the stream; [io] is what it returns. *)
Definition io_check (io : result unit string) (verb operation : string) (request_id : Z) : Io unit :=
  match io with
  | Ok _ => io_ret tt
  | Err cause =>
      io_fail (lost (verb +:+ operation +:+ " (request " +:+ pretty request_id +:+ ") to " +:+ peer +:+
                     " failed: " +:+ cause))
  end.

(** The bytes a [write_all] that worked has put on the stream. *)
Definition put (bs : bytes) : Io unit := fun c => Val (Got tt, c <| sent ::= fun l => l ++ [bs] |>).

(** [invoke]; [name] is [operation] as it is printed, [written] and [flushed] what
    the two system calls return.  A message takes 14 bytes at least, so the
    bytes to come bound the turns. *)
Definition invoke (written flushed : result unit string) (identity : Identity) (operation : bytes)
    (name : string) (mode : OperationMode) (params : bytes) : Io bytes :=
  let** request_id := take_request_id in
  let request := request_new request_id identity operation mode params in
  let** bs := io_try (Val (request_to_bytes request)) in
  let** _ := io_check written "sending " name request_id in
  let** _ := put bs in
  let** _ := io_check flushed "flushing " name request_id in
  fun c => wait_reply (S (length (incoming c))) name request_id c.

(** [connect]; the arguments are what the system calls return, what the new
    stream holds, and how the timeout and its error are printed. *)
Definition connect (tcp nodelay arm disarm : result unit string) (timeout timed_out : string)
    (stream : bytes) (ending : Ending) : rust (Outcome IceConnection) :=
  let connect_error cause := Local (Connect cause) in
  match tcp with
  | Err err => Val (Failed (connect_error ("tcp connect to " +:+ peer +:+ " failed: " +:+ err)))
  | Ok _ =>
  match nodelay with
  | Err err => Val (Failed (connect_error ("set_nodelay on " +:+ peer +:+ " failed: " +:+ err)))
  | Ok _ =>
  match arm with
  | Err err => Val (Failed (connect_error ("set_read_timeout on " +:+ peer +:+ " failed: " +:+ err)))
  | Ok _ =>
      let! (first, c) := read_message (mkConnection stream ending (Some timed_out) [] 1) in
      match first with
      | Waiting => Val Waiting
      | Failed (Local (Lost cause)) =>
          Val (Failed (connect_error ("no ValidateConnection from " +:+ peer +:+ " within " +:+ timeout +:+
                                      ": " +:+ cause)))
      | Failed other => Val (Failed other)
      | Got (header, _) =>
          if negb (bool_decide (message_type header = ValidateConnection)) then
            Val (Failed (protocol ("first message from " +:+ peer +:+ " is " +:+
                                   type_name (message_type header) +:+ ", expected ValidateConnection")))
          else
            match disarm with
            | Err err =>
                Val (Failed (connect_error ("clearing the read timeout on " +:+ peer +:+ " failed: " +:+ err)))
            | Ok _ => Val (Got (c <| read_timeout := None |>))
            end
      end
  end end end.
End Client.

(** ** Reading messages *)

(** A message whose declared size is its own. *)
Definition whole (t : MessageType) (m : bytes) : Prop := header_parse m = Val (Ok (mkHeader t 0 (len m))).

(** A header is parsed from its first 14 bytes alone. *)
Lemma header_parse_prefix bs rest :
  HEADER_SIZE <= len bs -> header_parse (bs ++ rest) = header_parse (sub bs 0 HEADER_SIZE).
Proof.
  unfold HEADER_SIZE. intros Hl. unfold header_parse, get_range, HEADER_SIZE. pose proof (len_nonneg rest).
  rewrite len_app. rewrite (proj2 (Z.leb_le 14 (len bs + len rest))) by lia.
  rewrite (proj2 (Z.leb_le 14 (len (sub bs 0 14)))) by (rewrite len_sub; lia).
  change ((0 <=? 0) && (0 <=? 14) && true) with true. cbn iota.
  replace (sub (bs ++ rest) 0 14) with (sub bs 0 14).
  - assert (E : sub (sub bs 0 14) 0 14 = sub bs 0 14).
    { change (firstn 14 (firstn 14 bs) = firstn 14 bs). by rewrite take_take. }
    by rewrite E.
  - change (firstn 14 bs = firstn 14 (bs ++ rest)). rewrite take_prefix; [done | unfold len in Hl; lia].
Qed.

Lemma sub_split (bs : bytes) n : 0 <= n <= len bs -> bs = sub bs 0 n ++ sub bs n (len bs).
Proof.
  intros Hn. unfold sub. rewrite Z.sub_0_r, drop_0.
  rewrite (take_ge (drop _ bs)) by (rewrite length_drop; unfold len; lia). by rewrite take_drop.
Qed.

Lemma sub_app_l (bs rest : bytes) : sub (bs ++ rest) 0 (len bs) = bs.
Proof. unfold sub. rewrite Z.sub_0_r, drop_0. unfold len. rewrite Nat2Z.id. apply take_app_length. Qed.

Lemma sub_app_r (bs rest : bytes) : sub (bs ++ rest) (len bs) (len (bs ++ rest)) = rest.
Proof.
  unfold sub. rewrite take_ge.
  - unfold len at 1. rewrite Nat2Z.id. apply drop_app_length.
  - rewrite length_drop, length_app. unfold len. rewrite length_app. lia.
Qed.

Section Reading.
Context (peer : string).

Lemma read_exact_app n bs rest what c :
  incoming c = bs ++ rest -> len bs = n ->
  read_exact peer n what c = Val (Got bs, c <| incoming := rest |>).
Proof.
  intros Hin Hn. subst n. unfold read_exact. rewrite Hin. pose proof (len_nonneg rest).
  rewrite (proj2 (Z.leb_le _ _)) by (rewrite len_app; lia). by rewrite sub_app_l, sub_app_r.
Qed.

(** What a read does whatever the stream holds: it takes exactly what it returns
    off the front, or it fails, or it waits on a silent stream. *)
Lemma read_exact_cases n what c : 0 <= n ->
  (exists bs rest, read_exact peer n what c = Val (Got bs, c <| incoming := rest |>) /\
     incoming c = bs ++ rest /\ len bs = n) \/
  (exists e, read_exact peer n what c = Val (Failed e, c <| incoming := [] |>)) \/
  (read_exact peer n what c = Val (Waiting, c <| incoming := [] |>) /\ ending c = Silent /\ read_timeout c = None).
Proof.
  intros Hn. unfold read_exact. destruct (Z.leb_spec n (len (incoming c))).
  - left. eexists _, _. split; [done |]. split; [apply sub_split; lia |]. rewrite len_sub by lia. lia.
  - destruct (ending c), (read_timeout c); eauto 6.
Qed.

Lemma read_message_whole t m rest c :
  whole t m -> incoming c = m ++ rest ->
  read_message peer c = Val (Got (mkHeader t 0 (len m), m), c <| incoming := rest |>).
Proof.
  intros Hw Hin. pose proof Hw as Hh. unfold whole in Hw.
  destruct (header_parse_total m) as [[e E] | (t' & n & E & Hn & Hl)]; rewrite Hw in E; [done |].
  injection E as <- <-. clear Hn. unfold HEADER_SIZE in *.
  pose proof (sub_split m 14 ltac:(lia)) as Hm. assert (Hhl : len (sub m 0 14) = 14) by (rewrite len_sub; lia).
  unfold read_message, io_bind, HEADER_SIZE.
  rewrite (read_exact_app 14 (sub m 0 14) (sub m 14 (len m) ++ rest)) by (try done; by rewrite app_assoc, <- Hm).
  cbn [rust_bind]. unfold io_try.
  assert (Hp : header_parse (sub m 0 14) = header_parse m).
  { change (sub m 0 14) with (sub m 0 HEADER_SIZE). rewrite <- (header_parse_prefix m []) by done. by rewrite app_nil_r. }
  rewrite Hp, Hw. cbn [rust_bind size]. destruct (Z.ltb_spec 14 (len m)).
  - rewrite (read_exact_app _ (sub m 14 (len m)) rest) by (try done; rewrite len_sub; lia).
    cbn [rust_bind]. by rewrite <- Hm.
  - assert (Hnil : sub m 14 (len m) = []).
    { replace (len m) with 14 by lia. by unfold sub. }
    rewrite Hnil, app_nil_r in Hm. by rewrite Hnil, <- Hm.
Qed.

(** And whatever the stream holds. *)
Lemma read_message_cases c :
  (exists t m rest, read_message peer c = Val (Got (mkHeader t 0 (len m), m), c <| incoming := rest |>) /\
     incoming c = m ++ rest /\ whole t m /\ HEADER_SIZE <= len m) \/
  (exists e rest, read_message peer c = Val (Failed e, c <| incoming := rest |>) /\ rest `suffix_of` incoming c) \/
  (exists rest, read_message peer c = Val (Waiting, c <| incoming := rest |>) /\ rest `suffix_of` incoming c /\
     ending c = Silent /\ read_timeout c = None).
Proof.
  unfold read_message, io_bind.
  destruct (read_exact_cases HEADER_SIZE "message header" c ltac:(done))
    as [(head & rest & -> & Hin & Hl) | [[e ->] | (-> & Hs & Ht)]]; cbn [rust_bind].
  2: { right. left. exists e, []. split; [done | apply suffix_nil]. }
  2: { right. right. exists []. split; [done |]. split; [apply suffix_nil | done]. }
  unfold io_try. destruct (header_parse_total head) as [[e ->] | (t & n & Hh & Hn & _)]; cbn [rust_bind].
  { right. left. exists e, rest. split; [done |]. by exists head. }
  rewrite Hh. cbn [rust_bind size]. unfold HEADER_SIZE in *. destruct (Z.ltb_spec 14 n).
  - destruct (read_exact_cases (n - 14) "message body" (c <| incoming := rest |>) ltac:(lia))
      as [(body & rest' & -> & Hin' & Hl') | [[e ->] | (-> & Hs & Ht)]]; cbn [rust_bind].
    + left. exists t, (head ++ body), rest'. change (rest = body ++ rest') in Hin'.
      assert (Hln : len (head ++ body) = n) by (rewrite len_app; lia).
      assert (Hw : whole t (head ++ body)).
      { unfold whole. rewrite header_parse_prefix by (unfold HEADER_SIZE; lia).
        rewrite Hln, <- Hh. f_equal. pose proof (sub_app_l head []) as Hs. rewrite app_nil_r, Hl in Hs. exact Hs. }
      rewrite Hln. split; [done |]. split; [by rewrite Hin, Hin', app_assoc |]. split; [done | lia].
    + right. left. exists e, []. split; [done | apply suffix_nil].
    + right. right. exists []. split; [done |]. split; [apply suffix_nil | done].
  - assert (n = len head) as -> by lia. left. exists t, head, rest.
    split; [done |]. split; [done |]. split; [exact Hh | lia].
Qed.
End Reading.

(** ** Calls *)

(** The request a call sends. *)
Definition call_request (c : IceConnection) (i : Identity) (op : bytes) (m : OperationMode) (ps : bytes) : Request :=
  request_new (next_request_id c) i op m ps.

Definition next_id (id : Z) : Z := if id =? 2 ^ 31 - 1 then 1 else id + 1.

(** The connection after a call whose request went out, having read up to [rest]. *)
Definition after_call (c : IceConnection) (q : Request) (rest : bytes) : IceConnection :=
  c <| next_request_id ::= next_id |> <| sent ::= fun l => l ++ [message RequestMsg (request_bytes q)] |>
    <| incoming := rest |>.

(** What the first message that is not a heartbeat ends a call with. *)
Definition answer (peer name : string) (id : Z) (t : MessageType) (m : bytes) : Outcome bytes :=
  match t with
  | ReplyMsg =>
      match reply_parse m with
      | Val (Ok r) =>
          if reply_id r =? id then match into_result r with Ok p => Got p | Err e => Failed e end
          else Failed (protocol ("reply carries request id " +:+ pretty (reply_id r) +:+
                                 " while waiting for " +:+ pretty id))
      | Val (Err e) => Failed e
      | _ => Waiting
      end
  | CloseConnection =>
      Failed (lost (peer +:+ " sent CloseConnection while " +:+ name +:+ " (request " +:+
                    pretty id +:+ ") was outstanding; the request was not dispatched"))
  | _ => Failed (protocol ("unexpected " +:+ type_name t +:+ " message from " +:+ peer))
  end.

Section Calls.
Context (peer : string).

Lemma wait_reply_answer fuel name id hs t m rest c :
  Forall (whole ValidateConnection) hs -> whole t m -> t <> ValidateConnection ->
  incoming c = concat hs ++ m ++ rest -> (length hs < fuel)%nat ->
  wait_reply peer fuel name id c = Val (answer peer name id t m, c <| incoming := rest |>).
Proof.
  intros Hhs Hm Ht. revert fuel c. induction Hhs as [| h hs Hh _ IH]; intros fuel c Hin Hf;
    (destruct fuel as [| fuel]; [lia |]); cbn [wait_reply]; unfold io_bind.
  - rewrite (read_message_whole peer t m rest) by done. cbn [rust_bind message_type answer].
    destruct t; try done. unfold io_try, answer.
    destruct (reply_parse_total m) as [[e ->] | (r & -> & _)]; cbn [rust_bind]; [done |].
    destruct (_ =? _); cbn [negb]; [by destruct (into_result r) | done].
  - cbn [concat] in Hin. rewrite <- app_assoc in Hin.
    rewrite (read_message_whole peer ValidateConnection h (concat hs ++ m ++ rest)) by done.
    cbn [rust_bind message_type]. cbn [length] in Hf. rewrite IH; [done | done | lia].
Qed.

(** The wait always ends, by what the stream holds. *)
Lemma wait_reply_cases fuel name id c : (length (incoming c) < fuel)%nat ->
  exists out rest, wait_reply peer fuel name id c = Val (out, c <| incoming := rest |>) /\
    rest `suffix_of` incoming c /\
    (out = Waiting -> ending c = Silent /\ read_timeout c = None) /\
    (forall p, out = Got p -> exists hs m, Forall (whole ValidateConnection) hs /\
       incoming c = concat hs ++ m ++ rest /\ reply_parse m = Val (Ok (mkReply id (BodyOk p)))).
Proof.
  revert c. induction fuel as [| fuel IH]; intros c Hf; [lia |]. cbn [wait_reply]. unfold io_bind.
  destruct (read_message_cases peer c) as [(t & m & rest & -> & Hin & Hw & Hl) | [(e & rest & -> & Hs) | (rest & -> & Hs & He)]];
    cbn [rust_bind].
  2: { by exists (Failed e), rest. }
  2: { by exists Waiting, rest. }
  assert (Hsuf : rest `suffix_of` incoming c) by (by exists m). cbn [message_type].
  destruct t; try (unfold io_fail; eexists _, rest; split; [reflexivity | done]).
  - unfold io_try. destruct (reply_parse_total m) as [[e ->] | (r & Hr & _)]; [| rewrite Hr]; cbn [rust_bind].
    { by exists (Failed e), rest. }
    destruct (Z.eqb_spec (reply_id r) id) as [Hid |]; cbn [negb]; [| by eexists _, rest].
    destruct r as [rid [p | | |]]; cbn in *; try (by eexists _, rest).
    subst rid. exists (Got p), rest. split; [done |]. split; [done |]. split; [done |].
    intros p' [= <-]. exists [], m. split; [constructor | done].
  - destruct (IH (c <| incoming := rest |>)) as (out & rest' & E & Hs & Hwait & Hgot).
    { change (length rest < fuel)%nat. rewrite Hin, length_app in Hf. unfold HEADER_SIZE, len in Hl. lia. }
    exists out, rest'. split; [exact E |]. split; [by etrans |]. split; [exact Hwait |].
    intros p Hp. destruct (Hgot p Hp) as (hs & m' & Hhs & Hin' & Hr). change (rest = concat hs ++ m' ++ rest') in Hin'.
    exists (m :: hs), m'. split; [by constructor |]. split; [| done]. cbn [concat]. by rewrite Hin, Hin', app_assoc.
Qed.

(** A call numbers its request, sends it whole, skips any number of
    heartbeats, and returns what the next message says: the payload or the
    exception of a reply to that request, a protocol error for a reply to
    another, a lost connection for a CloseConnection.  The stream is left at the
    first byte after that message, and the number moves on, from [i32::MAX] to 1
    and never to 0. *)
Theorem ice_call (c : IceConnection) (i : Identity) (op : bytes) (name : string) (mo : OperationMode)
    (ps : bytes) (hs : list bytes) (t : MessageType) (m rest : bytes)
    (Hid : 1 <= next_request_id c < 2 ^ 31) (Hi : identity_wf i) (Hop : utf8_valid op = true)
    (Hsize : HEADER_SIZE + len (request_bytes (call_request c i op mo ps)) <= MAX_MESSAGE_SIZE)
    (Hhs : Forall (whole ValidateConnection) hs) (Hm : whole t m) (Ht : t <> ValidateConnection)
    (Hin : incoming c = concat hs ++ m ++ rest) :
  invoke peer (Ok tt) (Ok tt) i op name mo ps c =
    Val (answer peer name (next_request_id c) t m, after_call c (call_request c i op mo ps) rest) /\
  request_parse (message RequestMsg (request_bytes (call_request c i op mo ps))) = Val (Ok (call_request c i op mo ps)) /\
  1 <= next_id (next_request_id c) < 2 ^ 31.
Proof.
  destruct (request_roundtrip (call_request c i op mo ps)) as [Hto Hparse]; [| done |].
  { split; [cbn; lia |]. split; [done |]. split; [done |]. split; [done |]. split; constructor. }
  split; [| split; [done |]].
  - unfold invoke, io_bind, take_request_id. cbn [rust_bind]. unfold io_try.
    change (request_new _ i op mo ps) with (call_request c i op mo ps). rewrite Hto. cbn [rust_bind].
    unfold io_check, io_ret, put. cbn [rust_bind].
    rewrite (wait_reply_answer _ _ _ hs t m rest); [done | done | done | done | done |].
    change (length hs < S (length (incoming c)))%nat. rewrite Hin, length_app.
    assert (length hs <= length (concat hs))%nat; [| lia]. clear -Hhs.
    induction Hhs as [| h hs Hh _ IH]; [done |]. cbn [concat length]. rewrite length_app.
    destruct (header_parse_total h) as [[e E] | (t' & n & _ & _ & Hl)]; [unfold whole in Hh; congruence |].
    unfold HEADER_SIZE, len in Hl. lia.
  - unfold next_id. destruct (Z.eqb_spec (next_request_id c) (2 ^ 31 - 1)); lia.
Qed.

Lemma invoke_cases (written flushed : result unit string) (c : IceConnection) (i : Identity)
    (op : bytes) (name : string) (mo : OperationMode) (ps : bytes) :
  exists out c', invoke peer written flushed i op name mo ps c = Val (out, c') /\
    next_request_id c' = next_id (next_request_id c) /\ ending c' = ending c /\ read_timeout c' = read_timeout c /\
    incoming c' `suffix_of` incoming c /\
    (sent c' = sent c \/ sent c' = sent c ++ [message RequestMsg (request_bytes (call_request c i op mo ps))]) /\
    (out = Waiting -> ending c = Silent /\ read_timeout c = None) /\
    (forall p, out = Got p ->
       sent c' = sent c ++ [message RequestMsg (request_bytes (call_request c i op mo ps))] /\
       exists hs m, Forall (whole ValidateConnection) hs /\ incoming c = concat hs ++ m ++ incoming c' /\
                    reply_parse m = Val (Ok (mkReply (next_request_id c) (BodyOk p)))).
Proof.
  unfold invoke, io_bind, take_request_id. cbn [rust_bind]. unfold io_try.
  change (request_new _ i op mo ps) with (call_request c i op mo ps).
  pose proof (writes_build _ _ RequestMsg (writes_request (call_request c i op mo ps))) as Hw.
  rewrite <- request_to_bytes_write in Hw.
  destruct (request_to_bytes (call_request c i op mo ps)) as [bs | e] eqn:E; cbn [rust_bind].
  2: { eexists (Failed e), _. split; [reflexivity |]. split; [done |]. split; [done |]. split; [done |]. split; [done |]. split; [by left | done]. }
  assert (bs = message RequestMsg (request_bytes (call_request c i op mo ps))) as ->.
  { destruct (_ <=? _); [congruence | destruct Hw; congruence]. }
  destruct written as [[] | e1]; cbn [io_check io_ret io_fail rust_bind].
  2: { eexists (Failed _), _. split; [reflexivity |]. split; [done |]. split; [done |]. split; [done |]. split; [done |]. split; [by left | done]. }
  destruct flushed as [[] | e2]; cbn [put io_check io_ret io_fail rust_bind].
  2: { eexists (Failed _), _. split; [reflexivity |]. split; [done |]. split; [done |]. split; [done |]. split; [done |]. split; [by right | done]. }
  match goal with |- context [wait_reply _ ?f ?n ?id ?d] => destruct (wait_reply_cases f n id d) as (out & rest & Er & Hs & Hwait & Hgot); [apply Nat.lt_succ_diag_r |] end.
  eexists out, _. split; [exact Er |]. split; [done |]. split; [done |]. split; [done |]. split; [exact Hs |]. split; [by right |].
  split; [exact Hwait |]. intros p Hp. split; [done |]. exact (Hgot p Hp).
Qed.

(** Whatever the stream holds, however it ends and whatever the system calls
    return, a call ends without a panic; it waits for ever only on a stream that
    falls silent without a timeout; it has sent its request whole or nothing;
    and it returns a payload only when the stream held, after heartbeats and
    nothing else, a reply to this very request that carries this payload. *)
Theorem ice_call_sound (written flushed : result unit string) (c : IceConnection) (i : Identity)
    (op : bytes) (name : string) (mo : OperationMode) (ps : bytes) :
  exists out c', invoke peer written flushed i op name mo ps c = Val (out, c') /\
    next_request_id c' = next_id (next_request_id c) /\ ending c' = ending c /\ read_timeout c' = read_timeout c /\
    incoming c' `suffix_of` incoming c /\
    (sent c' = sent c \/ sent c' = sent c ++ [message RequestMsg (request_bytes (call_request c i op mo ps))]) /\
    (out = Waiting -> ending c = Silent /\ read_timeout c = None) /\
    (forall p, out = Got p ->
       sent c' = sent c ++ [message RequestMsg (request_bytes (call_request c i op mo ps))] /\
       exists hs m, Forall (whole ValidateConnection) hs /\ incoming c = concat hs ++ m ++ incoming c' /\
                    reply_parse m = Val (Ok (mkReply (next_request_id c) (BodyOk p)))).
Proof. apply invoke_cases. Qed.
End Calls.

(** A connection is ready when the first message validates it, and only then. *)
Lemma connect_validated (peer timeout timed_out : string) (t : MessageType) (m rest : bytes) (e : Ending) :
  whole t m ->
  connect peer (Ok tt) (Ok tt) (Ok tt) (Ok tt) timeout timed_out (m ++ rest) e =
    if bool_decide (t = ValidateConnection) then Val (Got (mkConnection rest e None [] 1))
    else Val (Failed (protocol ("first message from " +:+ peer +:+ " is " +:+ type_name t +:+
                                ", expected ValidateConnection"))).
Proof.
  intros Hw. unfold connect. rewrite (read_message_whole peer t m rest) by done.
  cbn [rust_bind message_type]. by case_bool_decide.
Qed.

(** A validated connection whose server sends a heartbeat, the reply to the
    first call and the start of something else. *)
Definition sample_answer : bytes := message ReplyMsg (reply_bytes (mkReply 1 (BodyOk [2; 5]))).
Definition sample_stream : bytes :=
  validate_connection_message ++ validate_connection_message ++ sample_answer ++ [73].

Lemma ice_call_witness :
  exists c,
    connect "ecc" (Ok tt) (Ok tt) (Ok tt) (Ok tt) "5s" "timed out" sample_stream Silent = Val (Got c) /\
    invoke "ecc" (Ok tt) (Ok tt) (mkIdentity [69; 99; 99] []) [103; 101; 116] "get" Normal [] c =
      Val (Got [2; 5], after_call c (call_request c (mkIdentity [69; 99; 99] []) [103; 101; 116] Normal []) [73]).
Proof.
  eexists. split; [reflexivity |].
  refine (proj1 (ice_call "ecc" _ (mkIdentity [69; 99; 99] []) [103; 101; 116] "get" Normal []
    [validate_connection_message] ReplyMsg sample_answer [73] _ _ _ _ _ _ _ _)).
  - cbn. lia.
  - split; reflexivity.
  - reflexivity.
  - by vm_compute.
  - repeat constructor.
  - reflexivity.
  - done.
  - reflexivity.
Defined.
