(* ===== verification/Controller.v ===== *)
(** * Controller: what the run sequences are parameterised by and report

    Models the part of [src/controller/mod.rs], [src/controller/status.rs] and
    [src/controller/transport.rs] the run sequencer works on: the resolved
    parameters, the component endpoints, the [Transport] through which alone the
    controller touches the outside, the component snapshots and the counters and
    files of a [run_stop] record.  Times are milliseconds. *)

From stdpp Require Import gmap pretty strings.
From S2P Require Import Prelude Bytes Decimal Command.
Open Scope list_scope.
Open Scope Z_scope.

(** ** Reading JSON *)

(** [value.get(key)]. *)
Definition json_get (key : string) (v : Json) : option Json :=
  match v with
  | JObj fs => fields_get key fs
  | _ => None
  end.

Definition as_u64 (v : Json) : option Z :=
  match v with
  | JNum n => if (0 <=? n) && (n <? 2 ^ 64) then Some n else None
  | _ => None
  end.

Definition as_str (v : Json) : option string :=
  match v with
  | JStr s => Some s
  | _ => None
  end.

Definition as_array (v : Json) : option (list Json) :=
  match v with
  | JArr l => Some l
  | _ => None
  end.

Definition as_object (v : Json) : option (list (string * Json)) :=
  match v with
  | JObj fs => Some fs
  | _ => None
  end.

(** ** Parameters *)

Record CoboSpec : Type := mkCoboSpec {
  cobo_id_of : Z;
  listen : string;
  data_sender_id_of : string;
}.

Inductive ComponentKind : Type :=
| GrawWriterKind
| DecoderKind
| ReceiverKind (cobo_id : Z).

#[export] Instance ComponentKind_eq_dec : EqDecision ComponentKind.
Proof. solve_decision. Defined.

(** [matches!(kind, ComponentKind::Receiver { .. })]. *)
Definition is_receiver (k : ComponentKind) : bool :=
  match k with
  | ReceiverKind _ => true
  | _ => false
  end.

Record ComponentEndpoint : Type := mkEndpoint {
  name : string;
  endpoint : string;
  kind : ComponentKind;
}.

#[export] Instance ComponentEndpoint_eq_dec : EqDecision ComponentEndpoint.
Proof. solve_decision. Defined.

Record ConfigIds : Type := mkConfigIds {
  describe_id : string;
  prepare_id : string;
  configure_id : string;
}.

(** The parameters the run sequences read; [components] from downstream up. *)
Record ControllerParams : Type := mkParams {
  config_ids : ConfigIds;
  cobos : list CoboSpec;
  components : list ComponentEndpoint;
  router_ip_setting : option string;
  eos_timeout : Z;
  eos_quiesce : Z;
  eos_poll : Z;
}.

Definition DEFAULT_EOS_POLL : Z := 200.
Definition ARM_RETRY_BACKOFF : Z := 20.
Definition ARM_MAX_ATTEMPTS : Z := 6.
Definition ECC_WALK_BACK_MAX_STEPS : Z := 4.

(** [ControllerParams::from_config], of the settings it resolves. *)
Definition receiver_components (cobos : list CoboSpec) (receiver_commands : list string) : list ComponentEndpoint :=
  zip_with (fun cobo endpoint =>
    mkEndpoint ("receiver" +:+ dec (cobo_id_of cobo)) endpoint (ReceiverKind (cobo_id_of cobo)))
    cobos receiver_commands.

Definition params_from_config (graw_writer_command decoder_command : string) (cobos : list CoboSpec)
    (receiver_commands : list string) (ids : ConfigIds) (router_ip : option string)
    (eos_timeout_s eos_quiesce_ms : Z) : ControllerParams :=
  mkParams ids cobos
    ([mkEndpoint "graw-writer" graw_writer_command GrawWriterKind;
      mkEndpoint "decoder" decoder_command DecoderKind] ++ receiver_components cobos receiver_commands)
    router_ip (eos_timeout_s * 1000) eos_quiesce_ms DEFAULT_EOS_POLL.

Definition data_sender_id (params : ControllerParams) (cobo_id : Z) : string :=
  match List.find (fun c => cobo_id_of c =? cobo_id) (cobos params) with
  | Some cobo => data_sender_id_of cobo
  | None => "CoBo[" +:+ dec cobo_id +:+ "]"
  end.

(** ** The transport *)

Record EccReply : Type := mkEccReply {
  ecc_ok : bool;
  ecc_state : string;
  error : string;
  ecc_error : string;
}.

(** The trait [Transport], and the clock [Instant] reads. *)
Class Transport (T : Type) := {
  transport_command : string -> Command -> T -> result CommandResponse string * T;
  transport_ecc : Json -> T -> result EccReply string * T;
  transport_sleep : Z -> T -> T;
  clock_ms : T -> Z;
}.

(** ** Component snapshots *)

Record ComponentStatus : Type := mkStatus {
  status_name : string;
  status_kind : ComponentKind;
  status_endpoint : string;
  reachable : bool;
  status_state : option ComponentState;
  status_run_number : option Z;
  status_metrics : option Json;
  status_error : option string;
}.

Definition status_from_response (c : ComponentEndpoint) (r : CommandResponse) : ComponentStatus :=
  mkStatus (name c) (kind c) (endpoint c) true (Some (state r)) (run_number r) (metrics r)
    (if success r then None else Some (message r)).

Definition status_unreachable (c : ComponentEndpoint) (error : string) : ComponentStatus :=
  mkStatus (name c) (kind c) (endpoint c) false None None None (Some error).

(** A metric of a response or a snapshot. *)
Definition metric_of (key : string) (metrics : option Json) : option Z :=
  match metrics with
  | Some m => match json_get key m with Some v => as_u64 v | None => None end
  | None => None
  end.

Definition metric_u64 (s : ComponentStatus) (key : string) : option Z := metric_of key (status_metrics s).

(** ** The counters and files of a run *)

Inductive FramesBeforeRestart : Type :=
| PerSource (m : gmap string Z)
| Total (n : Z).

Record Counters : Type := mkCounters {
  events_built : option Z;
  events_incomplete : option Z;
  late_fragments : option Z;
  counted_frames : gmap string Z;
  counted_overflow : option Z;
  counted_malformed : option Z;
  counted_restarts : option Z;
  counted_before_restart : option FramesBeforeRestart;
  counted_type1 : option Z;
  counted_type2 : option Z;
  counted_mismatch : option Z;
}.

Record OutputFile : Type := mkOutputFile {
  file_path : string;
  file_bytes : Z;
}.

(** The running totals of [counters_from]. *)
Record Totals : Type := mkTotals {
  t_frames : gmap string Z;
  t_overflow : Z;
  t_malformed : Z;
  t_restarts : option Z;
  t_before_restart : option (gmap string Z);
  t_type1 : option Z;
  t_type2 : option Z;
  t_mismatch : option Z;
}.

#[export] Instance eta_Totals : Eta Totals := fun t =>
  mkTotals (t_frames t) (t_overflow t) (t_malformed t) (t_restarts t) (t_before_restart t)
    (t_type1 t) (t_type2 t) (t_mismatch t).

(** [if let Some(n) = ... { *total.get_or_insert(0) += n; }]. *)
Definition add_some (n : option Z) (total : option Z) : option Z :=
  match n with
  | Some n => Some (default 0 total + n)
  | None => total
  end.

(** [*map.entry(key).or_insert(0) += n]. *)
Definition entry_add (key : string) (n : Z) (m : gmap string Z) : gmap string Z :=
  <[key := default 0 (m !! key) + n]> m.

Definition merge_per_source (per_source : list (string * Json)) (merged : gmap string Z) : gmap string Z :=
  foldl (fun merged '(source, n) => entry_add source (default 0 (as_u64 n)) merged) merged per_source.

Definition count_status (s : ComponentStatus) (t : Totals) : Totals :=
  match status_kind s with
  | ReceiverKind cobo_id =>
      t <| t_frames ::= <[dec cobo_id := default 0 (metric_u64 s "frames")]> |>
        <| t_overflow ::= Z.add (default 0 (metric_u64 s "overflow_frames")) |>
  | DecoderKind =>
      let t := t <| t_malformed ::= Z.add (default 0 (metric_u64 s "malformed")) |>
                 <| t_type1 ::= add_some (metric_u64 s "frames_type1") |>
                 <| t_type2 ::= add_some (metric_u64 s "frames_type2") |>
                 <| t_mismatch ::= add_some (metric_u64 s "compact_size_mismatch") |>
                 <| t_restarts ::= add_some (metric_u64 s "acquisition_restarts") |> in
      match (status_metrics s ≫= json_get "frames_before_restart") ≫= as_object with
      | Some per_source =>
          t <| t_before_restart ::= fun m => Some (merge_per_source per_source (default ∅ m)) |>
      | None => t
      end
  | GrawWriterKind => t
  end.

Definition counters_from (params : ControllerParams) (statuses : list ComponentStatus) : Counters :=
  let t := foldl (fun t s => count_status s t) (mkTotals ∅ 0 0 None None None None None) statuses in
  let frames :=
    foldl (fun m cobo => match m !! dec (cobo_id_of cobo) with
                         | Some _ => m
                         | None => <[dec (cobo_id_of cobo) := 0]> m
                         end) (t_frames t) (cobos params) in
  mkCounters None None None frames (Some (t_overflow t)) (Some (t_malformed t)) (t_restarts t)
    (PerSource <$> t_before_restart t) (t_type1 t) (t_type2 t) (t_mismatch t).

Definition file_from (entry : Json) : option OutputFile :=
  match json_get "path" entry ≫= as_str, json_get "bytes" entry ≫= as_u64 with
  | Some path, Some bytes => Some (mkOutputFile path bytes)
  | _, _ => None
  end.

Definition files_from (statuses : list ComponentStatus) : list OutputFile :=
  concat (map (fun s =>
    if bool_decide (status_kind s = GrawWriterKind) then
      omap file_from (default [] ((status_metrics s ≫= json_get "files") ≫= as_array))
    else []) statuses).
