(* ===== verification/Sequencer.v ===== *)
(** * Sequencer: starting and stopping a run

    Models [src/controller/sequencer.rs]: the walk back of the ECC and of the
    components, the start sequence with its retries and its rollback, the stop
    sequence with its two waits for the end of stream.  Everything goes through a
    [Transport]; the sequencer also records each exchange ([calls]), which is what
    the theorems speak about.  Log output is not modelled. *)

From stdpp Require Import gmap pretty strings.
From Stdlib Require Import Ascii String.
From S2P Require Import Prelude Bytes Decimal Command Controller.
Open Scope string_scope.
Open Scope list_scope.
Open Scope Z_scope.

(** ** Strings *)

Definition QUOTE : ascii := "034"%char.

(** [{:?}] of a [Vec<String>]; states and commands hold nothing else to escape. *)
Fixpoint escape_quotes (s : string) : string :=
  match s with
  | EmptyString => EmptyString
  | String c s =>
      if (c =? QUOTE)%char || (c =? "\"%char)%char then String "\"%char (String c (escape_quotes s))
      else String c (escape_quotes s)
  end.
Definition debug_string (s : string) : string := String QUOTE (escape_quotes s) +:+ String QUOTE EmptyString.
Definition debug_strings (l : list string) : string :=
  "[" +:+ String.concat ", " (map debug_string l) +:+ "]".

(** [rsplit_once(c)]. *)
Fixpoint rsplit_once (c : ascii) (s : string) : option (string * string) :=
  match s with
  | EmptyString => None
  | String a s =>
      match rsplit_once c s with
      | Some (l, r) => Some (String a l, r)
      | None => if (a =? c)%char then Some (EmptyString, s) else None
      end
  end.

Definition is_bracket (c : ascii) : bool := (c =? "["%char)%char || (c =? "]"%char)%char.

Fixpoint trim_start (p : ascii -> bool) (s : string) : string :=
  match s with
  | EmptyString => EmptyString
  | String c s' => if p c then trim_start p s' else s
  end.

Fixpoint trim_end (p : ascii -> bool) (s : string) : string :=
  match s with
  | EmptyString => EmptyString
  | String c s =>
      match trim_end p s with
      | EmptyString => if p c then EmptyString else String c EmptyString
      | t => String c t
      end
  end.

Definition trim_matches (p : ascii -> bool) (s : string) : string := trim_end p (trim_start p s).

(** ** Reports *)

Record WalkedBackRun : Type := mkWalkedBack {
  previous_run : result Z string;
  wb_forced_eos : bool;
  wb_eos_closed : bool;
  wb_counters : Counters;
  wb_files : list OutputFile;
  wb_notes : list string;
}.

Record ArmRetry : Type := mkArmRetry {
  retried : string;
  attempts : Z;
  waited_ms : Z;
}.

Record RouterLink : Type := mkRouterLink {
  link_cobo_id : Z;
  link_router_ip : string;
  link_router_port : Z;
}.

Record StartReport : Type := mkStartReport {
  started_run : Z;
  links : list RouterLink;
  arm_retries : list ArmRetry;
  ecc_state_after_reset : string;
  ecc_walk_back : list string;
  component_walk_back : list string;
  report_walked_back : option WalkedBackRun;
}.

Record StartFailure : Type := mkStartFailure {
  stage : string;
  detail : string;
  rollback_notes : list string;
  failure_walked_back : option WalkedBackRun;
}.

Inductive StopMode : Type :=
| NormalStop
| Abort (why : string).

Record StopReport : Type := mkStopReport {
  stop_ok : bool;
  reason : string;
  stop_counters : Counters;
  stop_files : list OutputFile;
  stop_forced_eos : bool;
  stop_eos_closed : bool;
  stop_notes : list string;
}.

(** ** The sequencer *)

(** One exchange with the outside. *)
Inductive Call : Type :=
| CallCommand (c : ComponentEndpoint) (cmd : Command) (answer : result CommandResponse string)
| CallEcc (request : Json) (answer : result EccReply string)
| CallSleep (ms : Z).

Record Sequencer (T : Type) : Type := mkSequencer {
  transport : T;
  walked_back_run : option WalkedBackRun;
  calls : list Call;
}.
Arguments mkSequencer {T} _ _ _.
Arguments transport {T} _.
Arguments walked_back_run {T} _.
Arguments calls {T} _.

#[export] Instance eta_Sequencer {T} : Eta (Sequencer T) := fun s =>
  mkSequencer (transport s) (walked_back_run s) (calls s).

Definition sequencer_new {T : Type} (t : T) : Sequencer T := mkSequencer t None [].

Definition Seq (T A : Type) : Type := Sequencer T -> rust (A * Sequencer T).

Definition seq_ret {T A : Type} (a : A) : Seq T A := fun s => Val (a, s).
Definition seq_bind {T A B : Type} (m : Seq T A) (k : A -> Seq T B) : Seq T B := fun s =>
  let! (a, s) := m s in k a s.
Notation "'let*' x := m 'in' k" := (seq_bind m (fun x => k))
  (at level 10, x pattern, m at level 100, k at level 200) : rust_scope.

(** The [?] of a fallible step. *)
Definition seq_try {T A B E : Type} (m : Seq T (result A E)) (k : A -> Seq T (result B E)) : Seq T (result B E) :=
  let* r := m in
  match r with
  | Ok a => k a
  | Err e => seq_ret (Err e)
  end.
Notation "'let*?' x := m 'in' k" := (seq_try m (fun x => k))
  (at level 10, x pattern, m at level 100, k at level 200) : rust_scope.

Definition push_once (notes : list string) (note : string) : list string :=
  if bool_decide (note ∈ notes) then notes else notes ++ [note].

Definition previous_run_number (reported : list (string * Z)) : result Z string :=
  match reported with
  | [] => Err "no component reported a run_number — the previous run is unknown; run_stop not written"
  | (_, first) :: _ =>
      if forallb (fun '(_, run) => run =? first) reported then Ok first
      else Err ("components disagree on the previous run number (" +:+
                String.concat ", " (map (fun '(name, run) => name +:+ "=" +:+ dec run) reported) +:+
                ") — run_stop not written")
  end.

(** A component on its way back to [Idle]: its state before, its state now, the
    line of the trail. *)
Record Step : Type := mkStep {
  step_component : ComponentEndpoint;
  before : ComponentState;
  now : ComponentState;
  trail : string;
}.

Section Sequencer.
Context {T : Type} `{Transport T}.
Variable params : ControllerParams.

(** *** Exchanges *)

Definition command (c : ComponentEndpoint) (cmd : Command) : Seq T (result CommandResponse string) := fun s =>
  let '(r, t) := transport_command (endpoint c) cmd (transport s) in
  Val (r, s <| transport := t |> <| calls ::= fun l => l ++ [CallCommand c cmd r] |>).

Definition ecc (request : Json) : Seq T (result EccReply string) := fun s =>
  let '(r, t) := transport_ecc request (transport s) in
  Val (r, s <| transport := t |> <| calls ::= fun l => l ++ [CallEcc request r] |>).

Definition sleep (ms : Z) : Seq T unit := fun s =>
  Val (tt, s <| transport ::= transport_sleep ms |> <| calls ::= fun l => l ++ [CallSleep ms] |>).

Definition elapsed_since (began : Z) : Seq T Z := fun s => Val (clock_ms (transport s) - began, s).
Definition instant_now : Seq T Z := fun s => Val (clock_ms (transport s), s).

Definition applied (c : ComponentEndpoint) (cmd : Command) (answer : result CommandResponse string)
    : result CommandResponse string :=
  match answer with
  | Err e => Err (name c +:+ ": " +:+ command_name cmd +:+ " unreachable: " +:+ e)
  | Ok r =>
      if success r then Ok r
      else Err (name c +:+ ": " +:+ command_name cmd +:+ " refused in state " +:+ state_name (state r) +:+
                ": " +:+ message r)
  end.

Definition apply (c : ComponentEndpoint) (cmd : Command) : Seq T (result CommandResponse string) :=
  let* answer := command c cmd in seq_ret (applied c cmd answer).

Definition ecc_applied (request : Json) (answer : result EccReply string) : result string string :=
  let action := default "<none>" (json_get "action" request ≫= as_str) in
  match answer with
  | Err e => Err ("ecc " +:+ action +:+ " unreachable: " +:+ e)
  | Ok reply =>
      if ecc_ok reply then Ok (ecc_state reply)
      else Err ("ecc " +:+ action +:+ " failed in state " +:+ ecc_state reply +:+ ": " +:+ error reply)
  end.

Definition apply_ecc (request : Json) : Seq T (result string string) :=
  let* answer := ecc request in seq_ret (ecc_applied request answer).

(** A command whose failure is only noted. *)
Definition apply_noted (c : ComponentEndpoint) (cmd : Command) (notes : list string) : Seq T (list string) :=
  let* r := apply c cmd in
  seq_ret (match r with Ok _ => notes | Err note => notes ++ [note] end).

(** *** Watching the end of stream *)

(** [GetStatus], one key of the metrics. *)
Definition read_metric (c : ComponentEndpoint) (r : CommandResponse) (key : string) (notes : list string)
    : option Z * list string :=
  match metric_of key (metrics r) with
  | Some n => (Some n, notes)
  | None => (None, push_once notes (name c +:+ ": GetStatus metrics has no " +:+ key))
  end.

(** Whether one observed component has closed. *)
Definition component_done (c : ComponentEndpoint) (r : CommandResponse) (notes : list string) : bool * list string :=
  match kind c with
  | DecoderKind =>
      let '(eos_in, notes) := read_metric c r "eos_in" notes in
      let '(eos_out, notes) := read_metric c r "eos_out" notes in
      (match eos_in, eos_out with
       | Some eos_in, Some eos_out => (len (cobos params) <=? eos_in) && (1 <=? eos_out)
       | _, _ => false
       end, notes)
  | GrawWriterKind =>
      let '(files_open, notes) := read_metric c r "files_open" notes in
      (match files_open with Some n => n =? 0 | None => false end, notes)
  | ReceiverKind _ => (true, notes)
  end.

Fixpoint eos_complete_of (cs : list ComponentEndpoint) (notes : list string) : Seq T (bool * list string) :=
  match cs with
  | [] => seq_ret (true, notes)
  | c :: cs =>
      if is_receiver (kind c) then eos_complete_of cs notes
      else
        let* r := command c GetStatus in
        match r with
        | Err e => seq_ret (false, push_once notes (name c +:+ ": GetStatus failed: " +:+ e))
        | Ok r =>
            let '(done, notes) := component_done c r notes in
            if done then eos_complete_of cs notes else seq_ret (false, notes)
        end
  end.

Definition eos_complete (notes : list string) : Seq T (bool * list string) :=
  eos_complete_of (components params) notes.

(** The received bytes of every receiver; [None] inside is an unreachable one,
    which is not asked again, [None] outside a receiver that does not tell. *)
Fixpoint receiver_bytes_of (cs : list ComponentEndpoint) (gone notes : list string)
    : Seq T (option (list (option Z)) * list string * list string) :=
  match cs with
  | [] => seq_ret (Some [], gone, notes)
  | c :: cs =>
      if negb (is_receiver (kind c)) then receiver_bytes_of cs gone notes
      else if bool_decide (name c ∈ gone) then
        let* (out, gone, notes) := receiver_bytes_of cs gone notes in
        seq_ret (cons None <$> out, gone, notes)
      else
        let* r := command c GetStatus in
        match r with
        | Err e =>
            let notes := push_once notes (name c +:+ ": GetStatus failed: " +:+ e) in
            let* (out, gone, notes) := receiver_bytes_of cs (gone ++ [name c]) notes in
            seq_ret (cons None <$> out, gone, notes)
        | Ok r =>
            match metric_of "bytes" (metrics r) with
            | Some bytes =>
                let* (out, gone, notes) := receiver_bytes_of cs gone notes in
                seq_ret (cons (Some bytes) <$> out, gone, notes)
            | None => seq_ret (None, gone, push_once notes (name c +:+ ": GetStatus metrics has no bytes"))
            end
        end
  end.

Definition timeout_note : string := "EOS did not propagate within " +:+ dec (eos_timeout params) +:+ " ms".

(** The turns a wait of [eos_timeout] can take. *)
Definition wait_fuel : nat := S (S (Z.to_nat (eos_timeout params / eos_poll params))).

Fixpoint wait_loop (fuel : nat) (waited : Z) (notes : list string) : Seq T (bool * list string) :=
  match fuel with
  | O => fun _ => OutOfFuel
  | S fuel =>
      let* (done, notes) := eos_complete notes in
      if done then seq_ret (true, notes)
      else if eos_timeout params <=? waited then seq_ret (false, push_once notes timeout_note)
      else
        let* _ := sleep (eos_poll params) in
        wait_loop fuel (waited + eos_poll params) notes
  end.

Definition wait_for_eos (notes : list string) : Seq T (bool * list string) := wait_loop wait_fuel 0 notes.

(** What the silence so far is after one more sample. *)
Definition stillness (previous sample : option (list (option Z))) (still : Z) : Z :=
  match previous, sample with
  | Some before, Some now => if bool_decide (before = now) then still + eos_poll params else 0
  | _, _ => 0
  end.

Fixpoint quiesce_loop (fuel : nat) (waited : Z) (previous : option (list (option Z))) (still : Z)
    (gone notes : list string) : Seq T (bool * list string) :=
  match fuel with
  | O => fun _ => OutOfFuel
  | S fuel =>
      let* (done, notes) := eos_complete notes in
      if done then seq_ret (true, notes)
      else
        let* (sample, gone, notes) := receiver_bytes_of (components params) gone notes in
        let still := stillness previous sample still in
        if eos_quiesce params <=? still then seq_ret (false, notes)
        else if eos_timeout params <=? waited then seq_ret (false, push_once notes timeout_note)
        else
          let* _ := sleep (eos_poll params) in
          quiesce_loop fuel (waited + eos_poll params) sample still gone notes
  end.

Definition wait_for_eos_or_quiesce (notes : list string) : Seq T (bool * list string) :=
  quiesce_loop wait_fuel 0 None 0 [] notes.

Fixpoint collect_status_of (cs : list ComponentEndpoint) (notes : list string)
    : Seq T (list ComponentStatus * list string) :=
  match cs with
  | [] => seq_ret ([], notes)
  | c :: cs =>
      let* r := command c GetStatus in
      let '(status, notes) :=
        match r with
        | Ok r => (status_from_response c r, notes)
        | Err e => (status_unreachable c e, push_once notes (name c +:+ ": GetStatus failed: " +:+ e))
        end in
      let* (statuses, notes) := collect_status_of cs notes in
      seq_ret (status :: statuses, notes)
  end.

Definition collect_status (notes : list string) : Seq T (list ComponentStatus * list string) :=
  collect_status_of (components params) notes.

(** *** Walking back to [Idle] *)

Definition action_request (action : string) : Json := JObj [("action", JStr action)].

(** The one action that moves a state of the ECC towards [Idle]. *)
Definition walk_back_action (state : string) : option string :=
  if bool_decide (state ∈ ["Running"; "Paused"]) then Some "stop"
  else if bool_decide (state = "Ready") then Some "breakup"
  else if bool_decide (state ∈ ["Prepared"; "Described"]) then Some "reset"
  else None.

Definition at_rest (state : string) : bool := bool_decide (state = "Idle") || bool_decide (state = "Off").

Fixpoint walk_ecc_loop (fuel : nat) (state : string) (steps : Z) (trail : list string)
    : Seq T (result (string * list string) string) :=
  match fuel with
  | O => fun _ => OutOfFuel
  | S fuel =>
      if at_rest state then seq_ret (Ok (state, trail))
      else
        match walk_back_action state with
        | None =>
            seq_ret (Err ("ecc is in state " +:+ state +:+
                          " — refusing to start a run (cannot walk this state back to Idle)"))
        | Some action =>
            if steps =? ECC_WALK_BACK_MAX_STEPS then
              seq_ret (Err ("ecc did not reach Idle within " +:+ dec ECC_WALK_BACK_MAX_STEPS +:+
                            " steps (stuck in " +:+ state +:+ "; walked " +:+ debug_strings trail +:+
                            ") — refusing to start a run"))
            else
              let*? landed := apply_ecc (action_request action) in
              if bool_decide (landed = state) then
                seq_ret (Err ("ecc " +:+ action +:+ " left the ECC in " +:+ state +:+
                              " — the real ECC ignores undefined transitions in silence; refusing to start a run"))
              else walk_ecc_loop fuel landed (steps + 1) (trail ++ [action +:+ "->" +:+ landed])
        end
  end.

(** [walk_ecc_back_to_idle]: the state it lands in, and the trail. *)
Definition walk_ecc_back_to_idle : Seq T (result (string * list string) string) :=
  let*? state := apply_ecc (action_request "status") in
  walk_ecc_loop (S (S (Z.to_nat ECC_WALK_BACK_MAX_STEPS))) state 0 ["status->" +:+ state].

Definition walk_back_step (cmd : Command) (s : Step) : Seq T (result Step string) :=
  let left := now s in
  let* landed := apply (step_component s) cmd in
  seq_ret (match landed with
           | Err detail =>
               Err (detail +:+ " — " +:+ name (step_component s) +:+ " was left " +:+ state_name left +:+
                    "; refusing to start a run")
           | Ok landed =>
               Ok (mkStep (step_component s) (before s) (state landed)
                     (trail s +:+ "->" +:+ state_name (state landed)))
           end).

(** One command to every step that [which] picks, upstream first; stops at the
    first that fails. *)
Fixpoint step_each (which : Step -> bool) (cmd : Command) (steps : list Step) : Seq T (result (list Step) string) :=
  match steps with
  | [] => seq_ret (Ok [])
  | s :: steps =>
      let*? s := if which s then walk_back_step cmd s else seq_ret (Ok s) in
      let*? steps := step_each which cmd steps in
      seq_ret (Ok (s :: steps))
  end.

(** [GetStatus] of everyone, upstream first: the steps and the run numbers told. *)
Fixpoint survey (cs : list ComponentEndpoint) : Seq T (result (list Step * list (string * Z)) string) :=
  match cs with
  | [] => seq_ret (Ok ([], []))
  | c :: cs =>
      let*? r := apply c GetStatus in
      let*? (steps, reported) := survey cs in
      seq_ret (Ok (mkStep c (state r) (state r) (name c +:+ ": " +:+ state_name (state r)) :: steps,
                   match run_number r with
                   | Some run => (name c, run) :: reported
                   | None => reported
                   end))
  end.

Definition step_is_receiver (s : Step) : bool := is_receiver (kind (step_component s)).
Definition was_running (s : Step) : bool := bool_decide (before s = Running).
Definition was_idle (s : Step) : bool := bool_decide (before s = Idle).

(** Closing the previous run with EOS while the whole chain runs: the steps, and
    whether EOS was forced and seen to close. *)
Definition close_previous (steps : list Step) : Seq T (result (list Step * bool * bool) string) :=
  let* (closed, notes) := wait_for_eos_or_quiesce [] in
  let forced_eos := negb closed in
  let*? (steps, closed) :=
    if forced_eos then
      let*? steps := step_each step_is_receiver Stop steps in
      let* (closed, _) := wait_for_eos notes in
      seq_ret (Ok (steps, closed))
    else seq_ret (Ok (steps, closed)) in
  let*? steps := step_each (fun s => negb (forced_eos && step_is_receiver s)) Stop steps in
  seq_ret (Ok (steps, forced_eos, closed)).

Definition eos_line (closed : bool) : string :=
  if closed then "eos: closed"
  else "eos: did not propagate within " +:+ dec (eos_timeout params) +:+ " ms".

Definition not_awaited_line : string :=
  "eos: not awaited — the chain is broken (not every component is Running)".

Definition remember_run (run : option WalkedBackRun) : Seq T unit := fun s =>
  Val (tt, s <| walked_back_run := run |>).

(** [walk_components_back_to_idle]: the trail. *)
Definition walk_components_back_to_idle : Seq T (result (list string) string) :=
  let*? (steps, reported) := survey (rev (components params)) in
  let running := List.filter was_running steps in
  let chain_intact := negb (bool_decide (running = [])) && (len running =? len steps) in
  let*? (steps, forced_eos, eos_closed, lines) :=
    if chain_intact then
      let*? (steps, forced_eos, eos_closed) := close_previous steps in
      seq_ret (Ok (steps, forced_eos, eos_closed, [eos_line eos_closed]))
    else if negb (bool_decide (running = [])) then
      let*? steps := step_each was_running Stop steps in
      seq_ret (Ok (steps, existsb (fun s => was_running s && step_is_receiver s) steps, false, [not_awaited_line]))
    else seq_ret (Ok (steps, false, false, [])) in
  let* _ :=
    if negb (bool_decide (running = [])) then
      let* (statuses, notes) := collect_status [] in
      remember_run (Some (mkWalkedBack (previous_run_number reported) forced_eos eos_closed
                            (counters_from params statuses) (files_from statuses) notes))
    else seq_ret tt in
  let*? steps := step_each (fun s => negb (was_idle s)) Reset steps in
  seq_ret (Ok (lines ++ map trail (List.filter (fun s => negb (was_idle s)) steps))).

(** *** Starting *)

(** [{attempt}] counts from 1. *)
Fixpoint arm_loop (fuel : nat) (c : ComponentEndpoint) (began attempt backoff : Z) (last : string)
    (retries : list ArmRetry) : Seq T (result CommandResponse string * list ArmRetry) :=
  match fuel with
  | O =>
      let* waited := elapsed_since began in
      seq_ret (Err (last +:+ " (gave up after " +:+ dec ARM_MAX_ATTEMPTS +:+ " attempts over " +:+ dec waited +:+ " ms)"),
               retries ++ [mkArmRetry (name c) ARM_MAX_ATTEMPTS waited])
  | S fuel =>
      let* r := apply c Arm in
      match r with
      | Ok response =>
          if 1 <? attempt then
            let* waited := elapsed_since began in
            seq_ret (Ok response, retries ++ [mkArmRetry (name c) attempt waited])
          else seq_ret (Ok response, retries)
      | Err detail =>
          if attempt <? ARM_MAX_ATTEMPTS then
            let* _ := sleep backoff in
            arm_loop fuel c began (attempt + 1) (backoff * 2) detail retries
          else arm_loop fuel c began (attempt + 1) backoff detail retries
      end
  end.

Definition arm_with_retry (c : ComponentEndpoint) (retries : list ArmRetry)
    : Seq T (result CommandResponse string * list ArmRetry) :=
  let* began := instant_now in
  arm_loop (Z.to_nat ARM_MAX_ATTEMPTS) c began 1 ARM_RETRY_BACKOFF "" retries.

Definition host_of (bind_address : option string) : option string :=
  match bind_address ≫= rsplit_once ":"%char with
  | Some (host, _) => Some (trim_matches is_bracket host)
  | None => None
  end.

Definition router_ip (bind_address : option string) : string :=
  match router_ip_setting params with
  | Some ip => ip
  | None =>
      match host_of bind_address with
      | Some host => if bool_decide (host ∈ [""; "0.0.0.0"; "*"; "::"]) then "127.0.0.1" else host
      | None => "127.0.0.1"
      end
  end.

Definition router_link (cobo_id : Z) (r : CommandResponse) : result RouterLink string :=
  match metric_of "router_port" (metrics r) with
  | Some port =>
      if port <? 2 ^ 16 then
        Ok (mkRouterLink cobo_id (router_ip (metrics r ≫= fun m => json_get "bind_address" m ≫= as_str)) port)
      else Err "Arm response carries no router_port"
  | None => Err "Arm response carries no router_port"
  end.

Definition link_json (l : RouterLink) : Json :=
  JObj [("sender", JStr (data_sender_id params (link_cobo_id l))); ("router_ip", JStr (link_router_ip l));
        ("router_port", JNum (link_router_port l)); ("type", JStr "TCP")].

Definition configure_request (ls : list RouterLink) : Json :=
  JObj [("action", JStr "configure"); ("config_id", JStr (configure_id (config_ids params)));
        ("links", JArr (map link_json ls))].

Definition ecc_requests (ls : list RouterLink) : list Json :=
  [JObj [("action", JStr "describe"); ("config_id", JStr (describe_id (config_ids params)))];
   JObj [("action", JStr "prepare"); ("config_id", JStr (prepare_id (config_ids params)))];
   configure_request ls;
   action_request "start"].

(** What [rollback] folds up: the touched components, upstream first. *)
Definition touched_components (touched : list bool) : list ComponentEndpoint :=
  rev (omap (fun '(c, t) => if (t : bool) then Some c else None) (zip (components params) touched)).

Fixpoint rollback_each (cs : list ComponentEndpoint) (notes : list string) : Seq T (list string) :=
  match cs with
  | [] => seq_ret notes
  | c :: cs =>
      let* notes := apply_noted c Stop notes in
      let* notes := apply_noted c Reset notes in
      rollback_each cs notes
  end.

(** [self.walked_back_run.take()]. *)
Definition take_walked_back : Seq T (option WalkedBackRun) := fun s =>
  Val (walked_back_run s, s <| walked_back_run := None |>).

Definition rollback (stage detail : string) (touched : list bool) : Seq T StartFailure :=
  let* notes := rollback_each (touched_components touched) [] in
  let* run := take_walked_back in
  seq_ret (mkStartFailure stage detail notes run).

(** One command to every component, downstream first, marking those that took
    it; [i] is the index of the first of [cs]. *)
Fixpoint apply_each (cmd : Command) (cs : list ComponentEndpoint) (i : nat) (touched : list bool)
    : Seq T (result unit string * list bool) :=
  match cs with
  | [] => seq_ret (Ok tt, touched)
  | c :: cs =>
      let* r := apply c cmd in
      match r with
      | Err detail => seq_ret (Err detail, touched)
      | Ok _ => apply_each cmd cs (S i) (<[i := true]> touched)
      end
  end.

Fixpoint arm_each (cs : list ComponentEndpoint) (i : nat) (touched : list bool) (ls : list RouterLink)
    (retries : list ArmRetry) : Seq T (result (list RouterLink * list ArmRetry) string * list bool) :=
  match cs with
  | [] => seq_ret (Ok (ls, retries), touched)
  | c :: cs =>
      let* (r, retries) := arm_with_retry c retries in
      match r with
      | Err detail => seq_ret (Err detail, touched)
      | Ok response =>
          let touched := <[i := true]> touched in
          match kind c with
          | ReceiverKind cobo_id =>
              match router_link cobo_id response with
              | Ok link => arm_each cs (S i) touched (ls ++ [link]) retries
              | Err detail => seq_ret (Err (name c +:+ ": " +:+ detail), touched)
              end
          | _ => arm_each cs (S i) touched ls retries
          end
      end
  end.

Fixpoint ecc_each (requests : list Json) : Seq T (result unit string) :=
  match requests with
  | [] => seq_ret (Ok tt)
  | request :: requests =>
      let*? _ := apply_ecc request in ecc_each requests
  end.

(** An error rolls back. *)
Definition or_rollback {A B : Type} (stage : string) (touched : list bool) (r : result A string)
    (k : A -> Seq T (result B StartFailure)) : Seq T (result B StartFailure) :=
  match r with
  | Ok a => k a
  | Err detail => let* f := rollback stage detail touched in seq_ret (Err f)
  end.

Definition run_config (run : Z) (comment run_start_ts : string) : RunConfig :=
  mkRunConfig run comment (JObj [("run_start_ts", JStr run_start_ts)]).

Definition start_run (run : Z) (comment run_start_ts : string) : Seq T (result StartReport StartFailure) :=
  let untouched := repeat false (length (components params)) in
  let* walked := walk_ecc_back_to_idle in
  or_rollback "ecc" untouched walked (fun '(ecc_state_after_reset, ecc_walk_back) =>
  let* component_walk_back := walk_components_back_to_idle in
  or_rollback "walk-back" untouched component_walk_back (fun component_walk_back =>
  let* (configured, touched) :=
    apply_each (Configure (run_config run comment run_start_ts)) (components params) 0 untouched in
  or_rollback "Configure" touched configured (fun _ =>
  let* (armed, touched) := arm_each (components params) 0 touched [] [] in
  or_rollback "Arm" touched armed (fun '(ls, retries) =>
  let* (started, touched) := apply_each (Start run) (components params) 0 touched in
  or_rollback "Start" touched started (fun _ =>
  let* eccs := ecc_each (ecc_requests ls) in
  or_rollback "ecc" touched eccs (fun _ =>
  let* previous := take_walked_back in
  seq_ret (Ok (mkStartReport run ls retries ecc_state_after_reset ecc_walk_back component_walk_back previous)))))))).

(** *** Stopping *)

Fixpoint stop_receivers (cs : list ComponentEndpoint) (notes : list string) : Seq T (list string) :=
  match cs with
  | [] => seq_ret notes
  | c :: cs =>
      if is_receiver (kind c) then
        let* notes := apply_noted c Stop notes in stop_receivers cs notes
      else stop_receivers cs notes
  end.

(** Folding the components up, upstream first; a receiver whose EOS was forced
    has been stopped already. *)
Fixpoint fold_up (forced_eos : bool) (cs : list ComponentEndpoint) (notes : list string) : Seq T (list string) :=
  match cs with
  | [] => seq_ret notes
  | c :: cs =>
      let* notes :=
        if forced_eos && is_receiver (kind c) then seq_ret notes else apply_noted c Stop notes in
      let* notes := apply_noted c Reset notes in
      fold_up forced_eos cs notes
  end.

Definition stop_reason (mode : StopMode) (eos_closed ecc_stop_failed : bool) : string :=
  match mode with
  | Abort why => "abort:" +:+ why
  | NormalStop =>
      if negb eos_closed then "error:eos-timeout"
      else if ecc_stop_failed then "abort:ecc-stop-failed"
      else "normal"
  end.

Definition stop_run (mode : StopMode) : Seq T StopReport :=
  let* stopped := apply_ecc (action_request "stop") in
  let '(ecc_stop_failed, notes) :=
    match stopped with
    | Ok _ => (false, [])
    | Err detail => (true, [detail])
    end in
  let* (eos_closed, notes) :=
    match mode with
    | NormalStop => wait_for_eos_or_quiesce notes
    | Abort _ => seq_ret (false, notes)
    end in
  let forced_eos := negb eos_closed in
  let* (eos_closed, notes) :=
    if forced_eos then
      let* notes := stop_receivers (components params) notes in wait_for_eos notes
    else seq_ret (eos_closed, notes) in
  let* (statuses, notes) := collect_status notes in
  let* notes := fold_up forced_eos (rev (components params)) notes in
  let reason := stop_reason mode eos_closed ecc_stop_failed in
  seq_ret (mkStopReport (bool_decide (reason = "normal")) reason (counters_from params statuses)
             (files_from statuses) forced_eos eos_closed notes).
End Sequencer.

(** ** Reasoning about exchanges *)

Section Traces.
Context {T : Type} `{Transport T}.

(** The calls [l], made from the outside [t], got the answers they record and left
    the outside [t']. *)
Fixpoint happened (l : list Call) (t t' : T) : Prop :=
  match l with
  | [] => t' = t
  | CallCommand c cmd a :: l => exists u, transport_command (endpoint c) cmd t = (a, u) /\ happened l u t'
  | CallEcc request a :: l => exists u, transport_ecc request t = (a, u) /\ happened l u t'
  | CallSleep ms :: l => happened l (transport_sleep ms t) t'
  end.

Lemma happened_app l k t t' u : happened l t u -> happened k u t' -> happened (l ++ k) t t'.
Proof.
  revert t. induction l as [| [c cmd a | r a | ms] l IH]; intros t; cbn [happened app].
  - by intros ->.
  - intros (v & Hv & Hl) Hk. eauto.
  - intros (v & Hv & Hl) Hk. eauto.
  - eauto.
Qed.

Lemma happened_split l k t t' : happened (l ++ k) t t' -> exists u, happened l t u /\ happened k u t'.
Proof.
  revert t. induction l as [| [c cmd a | r a | ms] l IH]; intros t; cbn [happened app].
  - eauto.
  - intros (v & Hv & Hl). destruct (IH _ Hl) as (u & H1 & H2). eauto.
  - intros (v & Hv & Hl). destruct (IH _ Hl) as (u & H1 & H2). eauto.
  - eauto.
Qed.

(** [m] always returns, after calls and with a value related by [P]. *)
Definition does {A : Type} (m : Seq T A) (P : list Call -> A -> Prop) : Prop := forall s,
  exists a s' l, m s = Val (a, s') /\ calls s' = calls s ++ l /\
    happened l (transport s) (transport s') /\ P l a.

Lemma does_ret {A : Type} (a : A) (P : list Call -> A -> Prop) : P [] a -> does (seq_ret a) P.
Proof. intros Hp s. exists a, s, []. split; [done |]. split; [by rewrite app_nil_r |]. done. Qed.

Lemma does_mono {A : Type} (m : Seq T A) (P Q : list Call -> A -> Prop) :
  does m P -> (forall l a, P l a -> Q l a) -> does m Q.
Proof. intros Hm HPQ s. destruct (Hm s) as (a & s1 & l & E & C & Hh & HP). exists a, s1, l. auto. Qed.

Lemma does_bind {A B : Type} (m : Seq T A) (k : A -> Seq T B) (P : list Call -> A -> Prop) Q :
  does m P -> (forall l a, P l a -> does (k a) (fun l' b => Q (l ++ l') b)) -> does (seq_bind m k) Q.
Proof.
  intros Hm Hk s. destruct (Hm s) as (a & s1 & l1 & E1 & C1 & H1 & HP).
  destruct (Hk l1 a HP s1) as (b & s2 & l2 & E2 & C2 & H2 & HQ).
  exists b, s2, (l1 ++ l2). unfold seq_bind. rewrite E1. cbn [rust_bind]. rewrite E2, C2, C1, app_assoc.
  split; [done |]. split; [done |]. split; [by eapply happened_app | done].
Qed.

(** A fallible step: its error is the whole's. *)
Lemma does_try {A B E : Type} (m : Seq T (result A E)) (k : A -> Seq T (result B E)) P Q :
  does m P ->
  (forall l a, P l (Ok a) -> does (k a) (fun l' b => Q (l ++ l') b)) ->
  (forall l e, P l (Err e) -> Q l (Err e)) ->
  does (seq_try m k) Q.
Proof.
  intros Hm Hk He. unfold seq_try. eapply does_bind; [exact Hm |]. intros l [a | e] HP; [by apply Hk |].
  apply does_ret. rewrite app_nil_r. by apply He.
Qed.

Lemma does_command c cmd : does (command c cmd) (fun l r => l = [CallCommand c cmd r]).
Proof.
  intros s. unfold command. destruct (transport_command (endpoint c) cmd (transport s)) as [r t] eqn:E.
  eexists _, _, _. split; [reflexivity |]. split; [reflexivity |]. cbn. eauto.
Qed.

Lemma does_ecc request : does (ecc request) (fun l r => l = [CallEcc request r]).
Proof.
  intros s. unfold ecc. destruct (transport_ecc request (transport s)) as [r t] eqn:E.
  eexists _, _, _. split; [reflexivity |]. split; [reflexivity |]. cbn. eauto.
Qed.

Lemma does_sleep ms : does (sleep ms) (fun l _ => l = [CallSleep ms]).
Proof. intros s. eexists _, _, _. split; [reflexivity |]. split; [reflexivity |]. cbn. eauto. Qed.

Lemma does_apply c cmd :
  does (apply c cmd) (fun l r => exists a, l = [CallCommand c cmd a] /\ r = applied c cmd a).
Proof.
  unfold apply. eapply does_bind; [apply does_command |]. intros l a ->. apply does_ret. eauto.
Qed.

Lemma does_apply_ecc request :
  does (apply_ecc request) (fun l r => exists a, l = [CallEcc request a] /\ r = ecc_applied request a).
Proof.
  unfold apply_ecc. eapply does_bind; [apply does_ecc |]. intros l a ->. apply does_ret. eauto.
Qed.

(** A step that makes no call. *)
Lemma does_instant_now : does instant_now (fun l _ => l = []).
Proof. intros s. eexists _, _, []. split; [reflexivity |]. split; [by rewrite app_nil_r |]. done. Qed.
Lemma does_elapsed began : does (elapsed_since began) (fun l _ => l = []).
Proof. intros s. eexists _, _, []. split; [reflexivity |]. split; [by rewrite app_nil_r |]. done. Qed.
Lemma does_remember run : does (remember_run run) (fun l _ => l = []).
Proof. intros s. eexists _, _, []. split; [reflexivity |]. split; [cbn; by rewrite app_nil_r |]. done. Qed.
Lemma does_take : does take_walked_back (fun l _ => l = []).
Proof. intros s. eexists _, _, []. split; [reflexivity |]. split; [cbn; by rewrite app_nil_r |]. done. Qed.
End Traces.

(** The commands a list of calls sends, and the time it sleeps. *)
Definition commands (l : list Call) : list (ComponentEndpoint * Command) :=
  omap (fun x => match x with CallCommand c cmd _ => Some (c, cmd) | _ => None end) l.

Fixpoint slept (l : list Call) : Z :=
  match l with
  | [] => 0
  | CallSleep ms :: l => ms + slept l
  | _ :: l => slept l
  end.

(** Looking and waiting only. *)
Definition watching (x : Call) : bool :=
  match x with
  | CallCommand _ GetStatus _ | CallSleep _ => true
  | _ => false
  end.
Abbreviation quiet := (Forall (fun x => watching x = true)).

Lemma commands_app l k : commands (l ++ k) = commands l ++ commands k.
Proof. apply omap_app. Qed.

Lemma slept_app l k : slept (l ++ k) = slept l + slept k.
Proof. induction l as [| [] l IH]; cbn [slept app]; lia. Qed.

(** ** Watching *)

Section Watching.
Context {T : Type} `{Transport T} (params : ControllerParams).
Context (Hpoll : 0 < eos_poll params) (Htimeout : 0 <= eos_timeout params).

(** The answer of an observed component says that it has closed. *)
Definition closed (c : ComponentEndpoint) (r : CommandResponse) : Prop :=
  match kind c with
  | DecoderKind => exists eos_in eos_out,
      metric_of "eos_in" (metrics r) = Some eos_in /\ len (cobos params) <= eos_in /\
      metric_of "eos_out" (metrics r) = Some eos_out /\ 1 <= eos_out
  | GrawWriterKind => metric_of "files_open" (metrics r) = Some 0
  | ReceiverKind _ => True
  end.

(** The components whose [GetStatus] stands for the end of the chain. *)
Definition observed (cs : list ComponentEndpoint) : list ComponentEndpoint :=
  List.filter (fun c => negb (is_receiver (kind c))) cs.

Definition observation (c : ComponentEndpoint) (x : Call) : Prop :=
  exists r, x = CallCommand c GetStatus (Ok r) /\ closed c r.

(** The last calls of [l] ask every observed component, and each has closed. *)
Definition seen_closed (l : list Call) : Prop :=
  exists l0 obs, l = l0 ++ obs /\ Forall2 observation (observed (components params)) obs.

Lemma seen_closed_app l k : seen_closed k -> seen_closed (l ++ k).
Proof. intros (l0 & obs & -> & Ho). exists (l ++ l0), obs. by rewrite app_assoc. Qed.

Lemma read_metric_value c r key notes :
  fst (read_metric c r key notes) = metric_of key (metrics r).
Proof. unfold read_metric. by destruct (metric_of key (metrics r)). Qed.

Lemma component_done_closed c r notes : fst (component_done params c r notes) = true -> closed c r.
Proof.
  unfold component_done, closed. destruct (kind c) as [| | id].
  - pose proof (read_metric_value c r "files_open" notes) as Hv. destruct (read_metric c r "files_open" notes) as [n ns].
    cbn [fst] in *. subst n. destruct (metric_of _ _) as [n |]; [| done]. intros Hn. by apply Z.eqb_eq in Hn as ->.
  - pose proof (read_metric_value c r "eos_in" notes) as Hi. destruct (read_metric c r "eos_in" notes) as [i ns].
    pose proof (read_metric_value c r "eos_out" ns) as Ho. destruct (read_metric c r "eos_out" ns) as [o ns'].
    cbn [fst] in *. subst i o. destruct (metric_of "eos_in" _) as [i |]; [| done].
    destruct (metric_of "eos_out" _) as [o |]; [| done]. intros Hb. apply andb_prop in Hb as [H1 H2].
    exists i, o. split; [done |]. split; [by apply Z.leb_le |]. split; [done | by apply Z.leb_le].
  - done.
Qed.

Lemma push_once_incl notes note : incl notes (push_once notes note).
Proof. unfold push_once. case_bool_decide; [apply incl_refl | by apply incl_appl, incl_refl]. Qed.

Lemma read_metric_incl c r key notes : incl notes (snd (read_metric c r key notes)).
Proof. unfold read_metric. destruct (metric_of key (metrics r)); [apply incl_refl | apply push_once_incl]. Qed.

Lemma component_done_incl c r notes : incl notes (snd (component_done params c r notes)).
Proof.
  unfold component_done. destruct (kind c) as [| | id].
  - pose proof (read_metric_incl c r "files_open" notes). by destruct (read_metric c r "files_open" notes).
  - pose proof (read_metric_incl c r "eos_in" notes). destruct (read_metric c r "eos_in" notes) as [i ns].
    pose proof (read_metric_incl c r "eos_out" ns). destruct (read_metric c r "eos_out" ns) as [o ns'].
    by eapply incl_tran.
  - apply incl_refl.
Qed.

Lemma does_eos_complete_of cs notes :
  does (eos_complete_of params cs notes) (fun l r =>
    quiet l /\ slept l = 0 /\ (fst r = true -> Forall2 observation (observed cs) l) /\ incl notes (snd r)).
Proof.
  revert notes. induction cs as [| c cs IH]; intros notes; cbn [eos_complete_of].
  { apply does_ret. split; [constructor |]. split; [done |]. split; [constructor | apply incl_refl]. }
  unfold observed. cbn [List.filter]. destruct (is_receiver (kind c)) eqn:Er; cbn [negb]; [apply IH |].
  eapply does_bind; [apply does_command |]. intros l [r | e] ->.
  - pose proof (component_done_closed c r notes) as Hc. pose proof (component_done_incl c r notes) as Hi.
    destruct (component_done params c r notes) as [done ns]. cbn [fst snd] in Hc, Hi. destruct done.
    + eapply does_mono; [apply IH |]. intros l [b ns'] (Hq & Hs & Ho & Hi'). cbn [app slept fst snd] in *.
      split; [by constructor |]. split; [done |]. split; [| by eapply incl_tran].
      intros Hb. constructor; [| by apply Ho]. exists r. split; [done | by apply Hc].
    + apply does_ret. split; [by repeat constructor |]. split; [done |]. by split.
  - apply does_ret. split; [by repeat constructor |]. split; [done |]. split; [done | apply push_once_incl].
Qed.

Lemma does_eos_complete notes :
  does (eos_complete params notes) (fun l r =>
    quiet l /\ slept l = 0 /\ (fst r = true -> seen_closed l) /\ incl notes (snd r)).
Proof.
  eapply does_mono; [apply does_eos_complete_of |]. intros l [b ns] (Hq & Hs & Ho & Hi).
  split; [done |]. split; [done |]. split; [| done]. intros Hb. exists [], l. split; [done | by apply Ho].
Qed.

(** What a wait does: it watches, sleeps no longer than its limit and one poll,
    returns [true] only having seen everything closed, and keeps the notes. *)
Definition waits (budget : Z) (notes : list string) (l : list Call) (r : bool * list string) : Prop :=
  quiet l /\ 0 <= slept l <= budget /\ (fst r = true -> seen_closed l) /\ incl notes (snd r).

Definition enough_turns (fuel : nat) (waited : Z) : Prop :=
  eos_timeout params < waited + Z.of_nat fuel * eos_poll params.

Lemma enough_turns_step fuel waited :
  enough_turns (S fuel) waited -> enough_turns fuel (waited + eos_poll params).
Proof. unfold enough_turns. lia. Qed.

Lemma wait_fuel_enough : enough_turns (pred (wait_fuel params)) 0.
Proof.
  unfold enough_turns, wait_fuel. cbn [pred]. rewrite Nat2Z.inj_succ, Z2Nat.id by (apply Z.div_pos; lia).
  pose proof (Z.mul_succ_div_gt (eos_timeout params) (eos_poll params) Hpoll). lia.
Qed.

Lemma does_wait_loop fuel waited notes :
  enough_turns fuel waited -> waited <= eos_timeout params + eos_poll params ->
  does (wait_loop params (S fuel) waited notes) (waits (eos_timeout params + eos_poll params - waited) notes).
Proof.
  revert waited notes. induction fuel as [| fuel IH]; intros waited notes Hf Hw;
    (eapply does_bind; [apply does_eos_complete |]; intros l [b ns] (Hq & Hs & Ho & Hi); cbn [fst snd] in Ho, Hi;
     destruct b;
     [apply does_ret; rewrite app_nil_r; split; [done |]; split; [lia | done] |];
     destruct (Z.leb_spec (eos_timeout params) waited);
     [apply does_ret; rewrite app_nil_r; split; [done |]; split; [lia |]; split;
        [done | eapply incl_tran; [exact Hi | apply push_once_incl]] |]).
  - unfold enough_turns in Hf. lia.
  - eapply does_bind; [apply does_sleep |]. intros l' [] ->.
    eapply does_mono; [apply IH; [by apply enough_turns_step | lia] |].
    intros k [b ns'] (Hq' & Hs' & Ho' & Hi'). cbn [fst snd] in *.
    split; [apply Forall_app; split; [done |]; by constructor |].
    rewrite slept_app. cbn [slept app]. split; [lia |]. split; [| by eapply incl_tran].
    intros Hb. apply seen_closed_app, (seen_closed_app [_]), Ho', Hb.
Qed.

Lemma does_wait_for_eos notes :
  does (wait_for_eos params notes) (waits (eos_timeout params + eos_poll params) notes).
Proof.
  unfold wait_for_eos. rewrite <- (Z.sub_0_r (_ + _)). apply does_wait_loop; [apply wait_fuel_enough | lia].
Qed.

Lemma does_receiver_bytes cs gone notes :
  does (receiver_bytes_of cs gone notes) (fun l r => quiet l /\ slept l = 0 /\ incl notes (snd r)).
Proof.
  revert gone notes. induction cs as [| c cs IH]; intros gone notes; cbn [receiver_bytes_of].
  { apply does_ret. split; [constructor |]. split; [done | apply incl_refl]. }
  destruct (negb _); [apply IH |]. case_bool_decide.
  { eapply does_bind; [apply IH |]. intros l [[out g] ns] (Hq & Hs & Hi). apply does_ret. by rewrite app_nil_r. }
  eapply does_bind; [apply does_command |]. intros l [r | e] ->.
  - destruct (metric_of "bytes" (metrics r)).
    2: { apply does_ret. split; [by repeat constructor |]. split; [done | apply push_once_incl]. }
    eapply does_bind; [apply IH |]. intros l [[out g] ns] (Hq & Hs & Hi). apply does_ret. rewrite app_nil_r.
    split; [by constructor | done].
  - eapply does_bind; [apply IH |]. intros l [[out g] ns] (Hq & Hs & Hi). apply does_ret. rewrite app_nil_r.
    split; [by constructor |]. split; [done |]. eapply incl_tran; [apply push_once_incl | exact Hi].
Qed.

Lemma does_quiesce_loop fuel waited previous still gone notes :
  enough_turns fuel waited -> waited <= eos_timeout params + eos_poll params ->
  does (quiesce_loop params (S fuel) waited previous still gone notes)
    (waits (eos_timeout params + eos_poll params - waited) notes).
Proof.
  revert waited previous still gone notes. induction fuel as [| fuel IH]; intros waited previous still gone notes Hf Hw;
    (eapply does_bind; [apply does_eos_complete |]; intros l [b ns] (Hq & Hs & Ho & Hi); cbn [fst snd] in Ho, Hi;
     destruct b;
     [apply does_ret; rewrite app_nil_r; split; [done |]; split; [lia | done] |];
     eapply does_bind; [apply does_receiver_bytes |]; intros l' [[sample g] ns'] (Hq' & Hs' & Hi'); cbn [snd] in Hi';
     assert (Hi2 : incl notes ns') by (by eapply incl_tran);
     assert (Hq2 : quiet (l ++ l')) by (by apply Forall_app);
     assert (Hs2 : slept (l ++ l') = 0) by (rewrite slept_app; lia);
     set (still' := stillness params previous sample still); cbv zeta;
     destruct (eos_quiesce params <=? still');
     [apply does_ret; rewrite app_nil_r; split; [done |]; split; [lia | done] |];
     destruct (Z.leb_spec (eos_timeout params) waited);
     [apply does_ret; rewrite app_nil_r; split; [done |]; split; [lia |]; split;
        [done | eapply incl_tran; [exact Hi2 | apply push_once_incl]] |]).
  - unfold enough_turns in Hf. lia.
  - eapply does_bind; [apply does_sleep |]. intros l2 [] ->.
    eapply does_mono; [apply IH; [by apply enough_turns_step | lia] |].
    intros k [b ns2] (Hq3 & Hs3 & Ho3 & Hi3). cbn [fst snd] in *. rewrite app_assoc.
    split; [apply Forall_app; split; [done |]; by constructor |].
    rewrite slept_app. cbn [slept app]. split; [lia |]. split; [| by eapply incl_tran].
    intros Hb. apply seen_closed_app, (seen_closed_app [_]), Ho3, Hb.
Qed.

Lemma does_wait_for_eos_or_quiesce notes :
  does (wait_for_eos_or_quiesce params notes) (waits (eos_timeout params + eos_poll params) notes).
Proof.
  unfold wait_for_eos_or_quiesce. rewrite <- (Z.sub_0_r (_ + _)). apply does_quiesce_loop; [apply wait_fuel_enough | lia].
Qed.

Lemma does_collect_status_of cs notes :
  does (collect_status_of cs notes) (fun l r =>
    quiet l /\ slept l = 0 /\ commands l = map (fun c => (c, GetStatus)) cs /\ incl notes (snd r) /\
    length (fst r) = length cs).
Proof.
  revert notes. induction cs as [| c cs IH]; intros notes; cbn [collect_status_of].
  { apply does_ret. split; [constructor |]. split; [done |]. split; [done |]. split; [apply incl_refl | done]. }
  eapply does_bind; [apply does_command |]. intros l r ->.
  assert (Hinc : exists st ns, (match r with
        | Ok r => (status_from_response c r, notes)
        | Err e => (status_unreachable c e, push_once notes (name c +:+ ": GetStatus failed: " +:+ e))
        end) = (st, ns) /\ incl notes ns).
  { destruct r; eexists _, _; (split; [reflexivity |]); [apply incl_refl | apply push_once_incl]. }
  destruct Hinc as (st & ns & -> & Hinc).
  eapply does_bind; [apply IH |]. intros l [sts ns'] (Hq & Hs & Hc & Hi & Hl). apply does_ret. rewrite app_nil_r.
  cbn [fst snd length] in *. split; [by constructor |]. split; [done |]. split; [by rewrite commands_app, Hc |].
  split; [by eapply incl_tran | lia].
Qed.
End Watching.

(** ** Stopping *)

(** The commands of [l] that were refused or did not arrive, as they are noted. *)
Definition failures (l : list Call) : list string :=
  omap (fun x => match x with
                 | CallCommand c cmd a => match applied c cmd a with Err e => Some e | Ok _ => None end
                 | _ => None
                 end) l.

Lemma failures_app l k : failures (l ++ k) = failures l ++ failures k.
Proof. apply omap_app. Qed.

(** The commands a stop sends to end the stream, and then to fold up. *)
Definition forced_stops (params : ControllerParams) : list (ComponentEndpoint * Command) :=
  map (fun c => (c, Stop)) (List.filter (fun c => is_receiver (kind c)) (components params)).

Definition folding (forced_eos : bool) (cs : list ComponentEndpoint) : list (ComponentEndpoint * Command) :=
  flat_map (fun c => (if forced_eos && is_receiver (kind c) then [] else [(c, Stop)]) ++ [(c, Reset)]) cs.

Section Stopping.
Context {T : Type} `{Transport T} (params : ControllerParams).
Context (Hpoll : 0 < eos_poll params) (Htimeout : 0 <= eos_timeout params).

(** A stretch of commands whose failures are noted. *)
Definition noting (notes : list string) (cmds : list (ComponentEndpoint * Command)) (l : list Call)
    (r : list string) : Prop :=
  commands l = cmds /\ r = notes ++ failures l /\ Forall (fun x => exists c cmd a, x = CallCommand c cmd a) l.

Lemma noting_app notes cmds cmds' l l' r r' :
  noting notes cmds l r -> noting r cmds' l' r' -> noting notes (cmds ++ cmds') (l ++ l') r'.
Proof.
  intros (<- & -> & F1) (<- & -> & F2). unfold noting.
  rewrite commands_app, failures_app, Forall_app. by rewrite (assoc_L (++)).
Qed.

Lemma does_apply_noted c cmd notes : does (apply_noted c cmd notes) (noting notes [(c, cmd)]).
Proof.
  unfold apply_noted. eapply does_bind; [apply does_apply |]. intros l r (a & -> & ->). apply does_ret.
  unfold noting. cbn. destruct (applied c cmd a); (split; [done |]);
    (split; [by rewrite ?app_nil_r | repeat constructor; eauto]).
Qed.

Lemma noting_nil notes : noting notes [] [] notes.
Proof. unfold noting. cbn. by rewrite app_nil_r. Qed.

Lemma does_noting_bind {A : Type} (m : Seq T (list string)) (k : list string -> Seq T A) notes cmds Q :
  does m (noting notes cmds) ->
  (forall l r, noting notes cmds l r -> does (k r) (fun l' b => Q (l ++ l') b)) -> does (seq_bind m k) Q.
Proof. apply does_bind. Qed.

Lemma does_stop_receivers cs notes :
  does (stop_receivers cs notes)
    (noting notes (map (fun c => (c, Stop)) (List.filter (fun c => is_receiver (kind c)) cs))).
Proof.
  revert notes. induction cs as [| c cs IH]; intros notes; cbn [stop_receivers List.filter].
  { apply does_ret, noting_nil. }
  destruct (is_receiver (kind c)); [| apply IH].
  eapply does_bind; [apply does_apply_noted |]. intros l r Hr.
  eapply does_mono; [apply IH |]. intros l' r' Hr'. apply (noting_app _ [_] _ _ _ _ _ Hr Hr').
Qed.

Lemma does_fold_up forced_eos cs notes : does (fold_up forced_eos cs notes) (noting notes (folding forced_eos cs)).
Proof.
  revert notes. induction cs as [| c cs IH]; intros notes; cbn [fold_up folding flat_map].
  { apply does_ret, noting_nil. }
  eapply (does_bind _ _ (noting notes (if forced_eos && is_receiver (kind c) then [] else [(c, Stop)]))).
  { destruct (forced_eos && is_receiver (kind c)); [apply does_ret, noting_nil | apply does_apply_noted]. }
  intros l1 r1 H1. eapply does_bind; [apply does_apply_noted |]. intros l2 r2 H2.
  eapply does_mono; [apply IH |]. intros l3 r3 H3. rewrite <- !app_assoc.
  eapply noting_app; [exact H1 |]. exact (noting_app _ _ _ _ _ _ _ H2 H3).
Qed.

(** The first wait of a stop, and what follows when it has not seen the run close. *)
Definition first_wait (mode : StopMode) (notes : list string) (l : list Call) (r : bool * list string) : Prop :=
  waits params (eos_timeout params + eos_poll params) notes l r /\
  match mode with NormalStop => True | Abort _ => l = [] /\ fst r = false end.

Definition second_stage (closed1 : bool) (notes : list string) (l : list Call) (r : bool * list string) : Prop :=
  exists stops w2, l = stops ++ w2 /\
    if closed1 then stops = [] /\ w2 = [] /\ r = (true, notes)
    else exists notes', noting notes (forced_stops params) stops notes' /\
                        waits params (eos_timeout params + eos_poll params) notes' w2 r.

Lemma stop_reason_normal mode closed a :
  stop_reason mode closed (match ecc_applied (action_request "stop") a with Ok _ => false | Err _ => true end) = "normal" <->
  mode = NormalStop /\ closed = true /\ exists r, a = Ok r /\ ecc_ok r = true.
Proof.
  unfold stop_reason, ecc_applied. destruct mode as [| why]; [| split; [done | by intros [[=] _]]].
  destruct closed; cbn [negb]; [| split; [done | by intros (_ & [=] & _)]].
  destruct a as [r | e]; [destruct (ecc_ok r) eqn:E |]; split; try done; eauto 6.
  - intros (_ & _ & r' & [= <-] & E'). congruence.
  - by intros (_ & _ & r' & [=] & _).
Qed.

(** What a stop does. *)
Definition stop_done (mode : StopMode) (l : list Call) (rep : StopReport) : Prop :=
  exists ecc_answer w1 stops w2 status fold,
    l = CallEcc (action_request "stop") ecc_answer :: w1 ++ stops ++ w2 ++ status ++ fold /\
    quiet w1 /\ quiet w2 /\ quiet status /\
    (match mode with NormalStop => 0 <= slept w1 <= eos_timeout params + eos_poll params | Abort _ => w1 = [] end) /\
    0 <= slept w2 <= eos_timeout params + eos_poll params /\
    (if stop_forced_eos rep
     then commands stops = forced_stops params
     else mode = NormalStop /\ stops = [] /\ w2 = []) /\
    commands fold = folding (stop_forced_eos rep) (rev (components params)) /\
    (stop_eos_closed rep = true -> seen_closed params (if stop_forced_eos rep then w2 else w1)) /\
    reason rep = stop_reason mode (stop_eos_closed rep)
                   (match ecc_applied (action_request "stop") ecc_answer with Ok _ => false | Err _ => true end) /\
    (stop_ok rep = true <-> mode = NormalStop /\ stop_eos_closed rep = true /\
       exists r, ecc_answer = Ok r /\ ecc_ok r = true) /\
    incl (failures (stops ++ fold)) (stop_notes rep).

Lemma does_stop_run (mode : StopMode) : does (stop_run params mode) (stop_done mode).
Proof.
  unfold stop_run. eapply does_bind; [apply does_apply_ecc |]. intros l0 stopped (ecc_answer & -> & ->).
  set (failed := match ecc_applied (action_request "stop") ecc_answer with Ok _ => false | Err _ => true end).
  destruct (match ecc_applied _ ecc_answer with Ok _ => (false, []) | Err detail => (true, [detail]) end)
    as [failed' notes0] eqn:Ef.
  assert (failed' = failed) as -> by (subst failed; destruct (ecc_applied _ ecc_answer); congruence).
  eapply (does_bind _ _ (first_wait mode notes0)).
  { destruct mode as [| why]; 
      [| apply does_ret; split; [split; [constructor |]; split; [cbn; lia |]; split; [done | apply incl_refl] | done]].
    eapply does_mono; [by apply does_wait_for_eos_or_quiesce |]. intros l r Hw. by split. }
  intros w1 [closed1 notes1] [Hw1 Hmode1]. cbn [fst snd] in *.
  eapply (does_bind _ _ (second_stage closed1 notes1)).
  { destruct closed1; cbn [negb]; [by apply does_ret; exists [], [] |].
    eapply does_bind; [apply does_stop_receivers |]. intros l1 r1 Hn1.
    eapply does_mono; [by apply does_wait_for_eos |]. intros l2 r2 Hw2. exists l1, l2. eauto 6. }
  intros l2 [closed2 notes2] (stops & w2 & -> & Hstage).
  eapply does_bind; [apply does_collect_status_of |]. intros st [statuses notes3] (Hqs & _ & _ & Hi3 & _).
  eapply does_bind; [apply does_fold_up |]. intros fold notes4 (Hc4 & -> & _).
  apply does_ret. unfold stop_done. cbn [stop_forced_eos stop_eos_closed stop_notes reason stop_ok] in *.
  destruct Hw1 as (Hq1 & Hs1 & Hc1 & Hi1). cbn [fst snd] in *.
  assert (Hrest : quiet w2 /\ 0 <= slept w2 <= eos_timeout params + eos_poll params /\
    (if negb closed1 then commands stops = forced_stops params else mode = NormalStop /\ stops = [] /\ w2 = []) /\
    (closed2 = true -> seen_closed params (if negb closed1 then w2 else w1)) /\ incl (failures stops) notes2).
  { destruct closed1; cbn [negb].
    - destruct Hstage as (-> & -> & [= -> ->]). split; [constructor |]. split; [cbn; lia |].
      split; [| split; [intros _; by apply Hc1 | apply incl_nil_l]]. destruct mode as [| why]; [done | by destruct Hmode1].
    - destruct Hstage as (notes' & (Hcs & -> & _) & Hq2 & Hs2 & Hc2 & Hi2). cbn [fst snd] in *.
      split; [done |]. split; [done |]. split; [done |]. split; [done |].
      intros x Hx. apply Hi2, in_app_iff. by right. }
  destruct Hrest as (Hq2 & Hs2 & Hforced & Hc2 & Hf2).
  exists ecc_answer, w1, stops, w2, st, fold. rewrite !app_nil_r, <- !app_assoc.
  split; [done |]. split; [done |]. split; [done |]. split; [done |].
  split; [destruct mode as [| why]; [done | by destruct Hmode1] |]. split; [done |]. split; [done |].
  split; [done |]. split; [done |]. split; [done |].
  split; [rewrite bool_decide_eq_true; by apply stop_reason_normal |].
  rewrite failures_app. apply incl_app; [| by apply incl_appr, incl_refl].
  apply incl_appl. by eapply incl_tran.
Qed.
End Stopping.

(** ** Walking back *)

(** A command that was taken. *)
Definition accepted (c : ComponentEndpoint) (cmd : Command) (x : Call) : Prop :=
  exists r, x = CallCommand c cmd (Ok r) /\ success r = true.

Definition ecc_accepted (request : Json) (x : Call) : Prop :=
  exists r, x = CallEcc request (Ok r) /\ ecc_ok r = true.

(** The actions [l] take the ECC from [state] to [final], each from the state the
    one before left, and each moving it. *)
Inductive walks : string -> list Call -> string -> Prop :=
| walks_rest state : at_rest state = true -> walks state [] state
| walks_step state action r l final :
    at_rest state = false -> walk_back_action state = Some action -> ecc_ok r = true -> ecc_state r <> state ->
    walks (ecc_state r) l final -> walks state (CallEcc (action_request action) (Ok r) :: l) final.

Lemma walks_at_rest state l final : walks state l final -> at_rest final = true.
Proof. induction 1; done. Qed.

Definition only_ecc (l : list Call) : Prop := Forall (fun x => exists q a, x = CallEcc q a) l.

(** Calls that neither configure nor arm nor start. *)
Definition folding_only (x : Call) : bool :=
  match x with
  | CallCommand _ (Configure _ | Arm | Start _) _ => false
  | _ => true
  end.

(** Calls that only watch, or stop. *)
Definition stopping (x : Call) : bool :=
  match x with
  | CallCommand _ Stop _ => true
  | x => watching x
  end.

Lemma applied_accepted c cmd a r : applied c cmd a = Ok r -> a = Ok r /\ success r = true.
Proof. unfold applied. destruct a as [r' | e]; [| done]. destruct (success r') eqn:E; [| done]. by intros [= ->]. Qed.

Lemma ecc_applied_accepted q a state :
  ecc_applied q a = Ok state -> exists r, a = Ok r /\ ecc_ok r = true /\ ecc_state r = state.
Proof. unfold ecc_applied. destruct a as [r | e]; [| done]. destruct (ecc_ok r) eqn:E; [| done]. intros [= <-]. eauto. Qed.

Lemma watching_stopping l : quiet l -> Forall (fun x => stopping x = true) l.
Proof. apply List.Forall_impl. intros [c [] a | |]; done. Qed.

Lemma stopping_folding l : Forall (fun x => stopping x = true) l -> Forall (fun x => folding_only x = true) l.
Proof. apply List.Forall_impl. intros [c [] a | |]; done. Qed.

Section WalkingBack.
Context {T : Type} `{Transport T} (params : ControllerParams).

Lemma does_walk_ecc_loop fuel state steps trail :
  0 <= steps <= ECC_WALK_BACK_MAX_STEPS -> ECC_WALK_BACK_MAX_STEPS - steps < Z.of_nat fuel ->
  does (walk_ecc_loop fuel state steps trail) (fun l r => only_ecc l /\
    match r with
    | Ok (final, _) => walks state l final /\ len l <= ECC_WALK_BACK_MAX_STEPS - steps
    | Err _ => True
    end).
Proof.
  unfold ECC_WALK_BACK_MAX_STEPS. revert state steps trail.
  induction fuel as [| fuel IH]; intros state steps trail Hs Hf; [lia |]. cbn [walk_ecc_loop].
  destruct (at_rest state) eqn:Er.
  { apply does_ret. split; [constructor |]. split; [by constructor |]. rewrite len_nil. lia. }
  destruct (walk_back_action state) as [action |] eqn:Ea; [| apply does_ret; by split; [constructor |]].
  unfold ECC_WALK_BACK_MAX_STEPS. destruct (Z.eqb_spec steps 4); [apply does_ret; by split; [constructor |] |].
  eapply does_try; [apply does_apply_ecc | |].
  2: { intros l e (a & -> & _). split; [| done]. repeat constructor. eauto. }
  intros l landed (a & -> & Hl). symmetry in Hl. apply ecc_applied_accepted in Hl as (r & -> & Hok & <-).
  case_bool_decide as Hmove.
  { apply does_ret. split; [| done]. repeat constructor. eauto. }
  eapply does_mono; [apply IH; lia |]. intros l b [Ho Hr]. cbn [app].
  split; [constructor; eauto |]. destruct b as [[final tr] | e]; [| done]. destruct Hr as [Hw Hlen].
  split; [by econstructor | rewrite len_cons; lia].
Qed.

Lemma does_walk_ecc :
  does walk_ecc_back_to_idle (fun l r => only_ecc l /\
    match r with
    | Ok (final, _) => exists r0 walk, l = CallEcc (action_request "status") (Ok r0) :: walk /\ ecc_ok r0 = true /\
        walks (ecc_state r0) walk final /\ len walk <= ECC_WALK_BACK_MAX_STEPS
    | Err _ => True
    end).
Proof.
  unfold walk_ecc_back_to_idle. eapply does_try; [apply does_apply_ecc | |].
  2: { intros l e (a & -> & _). split; [| done]. repeat constructor. eauto. }
  intros l state (a & -> & Hl). symmetry in Hl. apply ecc_applied_accepted in Hl as (r & -> & Hok & <-).
  eapply does_mono; [apply does_walk_ecc_loop; unfold ECC_WALK_BACK_MAX_STEPS; lia |].
  intros l b [Ho Hr]. split; [constructor; eauto |].
  destruct b as [[final tr] | e]; [| done]. destruct Hr as [Hw Hlen]. exists r, l. split; [done |].
  split; [done |]. split; [done |]. unfold ECC_WALK_BACK_MAX_STEPS in *. lia.
Qed.

(** The survey as calls. *)
Definition surveyed (cs : list ComponentEndpoint) (rs : list CommandResponse) : list Call :=
  zip_with (fun c r => CallCommand c GetStatus (Ok r)) cs rs.

(** The component of a step, and the state the survey found it in. *)
Definition step_at (c : ComponentEndpoint) (r : CommandResponse) (s : Step) : Prop :=
  step_component s = c /\ before s = state r.

Lemma does_survey cs :
  does (survey cs) (fun l r =>
    Forall (fun x => watching x = true) l /\
    match r with
    | Ok (steps, _) => exists rs, l = surveyed cs rs /\ Forall (fun r => success r = true) rs /\
        length rs = length cs /\ Forall2 (fun s '(c, r) => step_at c r s) steps (zip cs rs)
    | Err _ => True
    end).
Proof.
  induction cs as [| c cs IH]; cbn [survey].
  { apply does_ret. split; [constructor |]. exists []. split; [done |]. split; [constructor |]. split; [done | constructor]. }
  eapply does_try; [apply does_apply | |].
  2: { intros l e (a & -> & _). split; [by repeat constructor | done]. }
  intros l r (a & -> & Hr). symmetry in Hr. apply applied_accepted in Hr as [-> Hok].
  eapply does_try; [apply IH | |].
  2: { intros l e (Hq & _). split; [by constructor | done]. }
  intros l [steps reported] (Hq & rs & -> & Hs & Hlen & Hf). apply does_ret. rewrite app_nil_r.
  split; [by constructor |]. exists (r :: rs). split; [done |]. split; [by constructor |].
  split; [cbn; lia |]. cbn. by constructor.
Qed.

(** What a round of [step_each] does: the command, taken, for each picked step; the
    components and their first states stay. *)
Lemma does_step_each which cmd steps :
  does (step_each which cmd steps) (fun l r =>
    Forall (fun x => exists c a, x = CallCommand c cmd a) l /\
    match r with
    | Ok steps' =>
        Forall2 (fun s x => accepted (step_component s) cmd x) (List.filter which steps) l /\
        Forall2 (fun s s' => step_component s' = step_component s /\ before s' = before s) steps steps'
    | Err _ => True
    end).
Proof.
  induction steps as [| s steps IH]; cbn [step_each].
  { apply does_ret. split; [constructor |]. split; constructor. }
  eapply (does_try _ _ (fun l r => Forall (fun x => exists c a, x = CallCommand c cmd a) l /\
    match r with
    | Ok s' => (step_component s' = step_component s /\ before s' = before s) /\
        (if which s then exists x, l = [x] /\ accepted (step_component s) cmd x else l = [])
    | Err _ => True
    end)).
  - destruct (which s); [| apply does_ret; by split; [constructor |]].
    unfold walk_back_step. eapply does_bind; [apply does_apply |]. intros l r (a & -> & Hr). apply does_ret.
    rewrite app_nil_r. split; [repeat constructor; eauto |]. destruct r as [landed | e]; [| done].
    symmetry in Hr. apply applied_accepted in Hr as [-> Hok]. split; [done |].
    eexists. split; [done |]. by exists landed.
  - intros l s' (Hl & Hs & Hx). eapply does_try; [apply IH | |].
    2: { intros l' e (Hl' & _). split; [by apply Forall_app | done]. }
    intros l' steps' (Hl' & Hacc & Hst). apply does_ret. rewrite app_nil_r.
    split; [by apply Forall_app |]. split; [| by constructor]. cbn [List.filter].
    destruct (which s); [destruct Hx as (x & -> & Hx); by constructor | by subst l].
  - intros l e (Hl & _). done.
Qed.
End WalkingBack.

(** The components of a survey that were found in a state that [f] picks. *)
Definition found (f : ComponentState -> bool) (cs : list ComponentEndpoint) (rs : list CommandResponse)
    : list ComponentEndpoint :=
  omap (fun '(c, r) => if f (state r) then Some c else None) (zip cs rs).

Definition running_state (s : ComponentState) : bool := bool_decide (s = Running).
Definition not_idle (s : ComponentState) : bool := negb (bool_decide (s = Idle)).

(** A whole walk back: everyone is asked, everyone found running takes a [Stop],
    and after that everyone not found idle takes a [Reset]. *)
Definition walked_back (params : ControllerParams) (l : list Call) : Prop :=
  exists rs mid resets,
    l = surveyed (rev (components params)) rs ++ mid ++ resets /\
    length rs = length (components params) /\ Forall (fun r => success r = true) rs /\
    Forall (fun x => stopping x = true) mid /\
    (forall c, c ∈ found running_state (rev (components params)) rs -> exists x, x ∈ mid /\ accepted c Stop x) /\
    Forall2 (fun c x => accepted c Reset x) (found not_idle (rev (components params)) rs) resets.

Section Components.
Context {T : Type} `{Transport T} (params : ControllerParams).
Context (Hpoll : 0 < eos_poll params) (Htimeout : 0 <= eos_timeout params).

Definition same_step (s s' : Step) : Prop := step_component s' = step_component s /\ before s' = before s.

Lemma same_steps_filter f steps steps' :
  Forall2 same_step steps steps' ->
  map step_component (List.filter (fun s => f (before s)) steps') =
  map step_component (List.filter (fun s => f (before s)) steps).
Proof.
  induction 1 as [| s s' steps steps' [Hc Hb] _ IH]; [done |]. cbn [List.filter]. rewrite Hb.
  destruct (f (before s)); cbn [map]; by rewrite ?Hc, IH.
Qed.

Lemma same_steps_trans a b c : Forall2 same_step a b -> Forall2 same_step b c -> Forall2 same_step a c.
Proof.
  intros Hab. revert c. induction Hab as [| x y a b [H1 H2] _ IH]; intros c Hbc; inversion Hbc as [| ? z ? c' [H3 H4] Hr]; subst.
  - constructor.
  - constructor; [split; congruence | by apply IH].
Qed.

Lemma same_steps_refl steps : Forall2 same_step steps steps.
Proof. by induction steps as [| s steps IH]; constructor. Qed.

Lemma found_steps f cs rs steps :
  Forall2 (fun s '(c, r) => step_at c r s) steps (zip cs rs) ->
  map step_component (List.filter (fun s => f (before s)) steps) = found f cs rs.
Proof.
  unfold found. generalize (zip cs rs). intros z. induction 1 as [| s [c r] steps z [Hc Hb] _ IH]; [done |].
  cbn [List.filter]. rewrite Hb. cbn. destruct (f (state r)); cbn [map]; by rewrite ?Hc, IH.
Qed.

Lemma same_steps_components steps steps' :
  Forall2 same_step steps steps' -> map step_component steps' = map step_component steps.
Proof. induction 1 as [| s s' steps steps' [Hc Hb] _ IH]; [done |]. cbn. by rewrite Hc, IH. Qed.

Lemma stops_stopping l :
  Forall (fun x => exists c a, x = CallCommand c Stop a) l -> Forall (fun x => stopping x = true) l.
Proof. apply List.Forall_impl. by intros x (c & a & ->). Qed.

Lemma resets_folding l :
  Forall (fun x => exists c a, x = CallCommand c Reset a) l -> Forall (fun x => folding_only x = true) l.
Proof. apply List.Forall_impl. by intros x (c & a & ->). Qed.

(** A round that was taken covers each component it picked. *)
Lemma round_covers which steps l c :
  Forall2 (fun s x => accepted (step_component s) Stop x) (List.filter which steps) l ->
  c ∈ map step_component (List.filter which steps) -> exists x, x ∈ l /\ accepted c Stop x.
Proof.
  induction 1 as [| s x ss l Ha _ IH]; cbn [map]; [by intros ?%elem_of_nil |].
  intros [-> | Hc]%elem_of_cons.
  - exists x. split; [left | done].
  - destruct (IH Hc) as (y & Hy & Hacc). exists y. split; [by right | done].
Qed.

Lemma does_close_previous steps :
  does (close_previous params steps) (fun l r =>
    Forall (fun x => stopping x = true) l /\
    match r with
    | Ok (steps', _, _) => Forall2 same_step steps steps' /\
        forall c, c ∈ map step_component steps -> exists x, x ∈ l /\ accepted c Stop x
    | Err _ => True
    end).
Proof.
  unfold close_previous. eapply does_bind; [by apply does_wait_for_eos_or_quiesce |].
  intros l1 [closed1 notes] (Hq1 & _). apply watching_stopping in Hq1.
  eapply (does_try _ _ (fun l r => Forall (fun x => stopping x = true) l /\
    match r with
    | Ok (steps', _) => Forall2 same_step steps steps' /\
        forall c, negb closed1 = true -> c ∈ map step_component (List.filter step_is_receiver steps) ->
          exists x, x ∈ l /\ accepted c Stop x
    | Err _ => True
    end)).
  - destruct closed1; cbn [negb].
    + apply does_ret. split; [constructor |]. split; [| done]. apply same_steps_refl.
    + eapply does_try; [apply does_step_each | |].
      2: { intros l e (Hl & _). split; [by apply stops_stopping | done]. }
      intros l steps' (Hl & Hacc & Hst). apply stops_stopping in Hl.
      eapply does_bind; [by apply does_wait_for_eos |]. intros l2 [closed2 ns] (Hq2 & _).
      apply does_ret. rewrite app_nil_r. split; [apply Forall_app; split; [done | by apply watching_stopping] |].
      split; [done |]. intros c _ Hc. destruct (round_covers _ _ _ _ Hacc Hc) as (x & Hx & Ha).
      exists x. split; [apply elem_of_app; by left | done].
  - intros l2 [steps' closed2] (Hl2 & Hst & Hcov). eapply does_try; [apply does_step_each | |].
    2: { intros l e (Hl & _). split; [| done]. rewrite !Forall_app. eauto using stops_stopping. }
    intros l3 steps'' (Hl3 & Hacc & Hst'). apply does_ret. rewrite app_nil_r.
    split; [rewrite !Forall_app; eauto using stops_stopping |]. split; [by eapply same_steps_trans |].
    intros c Hc. rewrite <- (same_steps_components _ _ Hst) in Hc.
    apply list_elem_of_In, in_map_iff in Hc as (s & <- & Hs).
    destruct (negb closed1 && step_is_receiver s) eqn:E.
    + apply andb_prop in E as [E1 E2]. destruct (Hcov (step_component s) E1) as (x & Hx & Ha).
      { clear -Hst Hs E2.
        induction Hst as [| s0 s0' steps steps' [Hc Hb] _ IH]; [done |]. destruct Hs as [-> | Hs].
        - cbn [List.filter]. unfold step_is_receiver in *. rewrite <- Hc, E2. cbn [map]. rewrite Hc. left.
        - specialize (IH Hs). cbn [List.filter]. destruct (step_is_receiver s0); [by right | done]. }
      exists x. split; [rewrite !elem_of_app; eauto | done].
    + destruct (round_covers _ _ _ (step_component s) Hacc) as (x & Hx & Ha).
      { apply list_elem_of_In, in_map, filter_In. split; [done |]. by rewrite E. }
      exists x. split; [rewrite !elem_of_app; eauto | done].
  - intros l e (Hl & _). split; [rewrite Forall_app; auto | done].
Qed.

Lemma watching_folding l : quiet l -> Forall (fun x => folding_only x = true) l.
Proof. intros Hq. by apply stopping_folding, watching_stopping. Qed.

(** The middle of a walk back, by how much of the chain runs. *)
Lemma does_middle steps :
  does (let running := List.filter was_running steps in
        if negb (bool_decide (running = [])) && (len running =? len steps) then
          let*? (steps, forced_eos, eos_closed) := close_previous params steps in
          seq_ret (Ok (steps, forced_eos, eos_closed, [eos_line params eos_closed]))
        else if negb (bool_decide (running = [])) then
          let*? steps := step_each was_running Stop steps in
          seq_ret (Ok (steps, existsb (fun s => was_running s && step_is_receiver s) steps, false, [not_awaited_line]))
        else seq_ret (Ok (steps, false, false, [])))
    (fun l r => Forall (fun x => stopping x = true) l /\
      match r with
      | Ok (steps', _, _, _) => Forall2 same_step steps steps' /\
          forall c, c ∈ map step_component (List.filter was_running steps) -> exists x, x ∈ l /\ accepted c Stop x
      | Err _ => True
      end).
Proof.
  cbv zeta. destruct (negb _ && _) eqn:Hchain.
  - eapply does_try; [apply does_close_previous | |]; [| by intros l e (Hl & _)].
    intros l [[steps' forced] closed] (Hl & Hst & Hcov). apply does_ret. rewrite app_nil_r.
    split; [done |]. split; [done |]. intros c Hc. apply Hcov.
    apply list_elem_of_In, in_map_iff in Hc as (s & <- & Hs). apply filter_In in Hs as [Hs _].
    apply list_elem_of_In, in_map_iff. eauto.
  - case_bool_decide as Hrun; cbn [negb].
    + rewrite Hrun. apply does_ret. split; [constructor |]. split; [apply same_steps_refl |]. by intros c ?%elem_of_nil.
    + eapply does_try; [apply does_step_each | |]; [| by intros l e (Hl & _); split; [by apply stops_stopping |]].
      intros l steps' (Hl & Hacc & Hst). apply does_ret. rewrite app_nil_r. split; [by apply stops_stopping |].
      split; [done |]. intros c. by apply round_covers.
Qed.

Lemma does_walk_components :
  does (walk_components_back_to_idle params) (fun l r =>
    Forall (fun x => folding_only x = true) l /\
    match r with Ok _ => walked_back params l | Err _ => True end).
Proof.
  unfold walk_components_back_to_idle. eapply does_try; [apply does_survey | |].
  2: { intros l e (Hl & _). split; [by apply watching_folding | done]. }
  intros l1 [steps reported] (Hq1 & rs & -> & Hok & Hlen & Hst). apply watching_folding in Hq1.
  eapply does_try; [apply does_middle | |].
  2: { intros l e (Hl & _). split; [| done]. rewrite Forall_app. eauto using stopping_folding. }
  intros l2 [[[steps' forced] closed] lines] (Hl2 & Hsame & Hcov).
  eapply (does_bind _ _ (fun l _ => quiet l)).
  { destruct (negb _); [| apply does_ret; constructor].
    eapply does_bind; [apply does_collect_status_of |]. intros l [statuses notes] (Hq & _).
    eapply does_mono; [apply does_remember |]. intros l' [] ->. by rewrite app_nil_r. }
  intros l3 [] Hq3. apply watching_stopping in Hq3. pose proof (stopping_folding _ Hl2). pose proof (stopping_folding _ Hq3).
  eapply does_try; [apply does_step_each | |].
  2: { intros l e (Hl & _). split; [| done]. rewrite !Forall_app. eauto using resets_folding. }
  intros l4 steps'' (Hl4 & Hacc & _). apply does_ret. rewrite app_nil_r.
  split; [rewrite !Forall_app; eauto using resets_folding |].
  exists rs, (l2 ++ l3), l4. rewrite <- !app_assoc. split; [done |].
  split; [by rewrite Hlen, length_rev |]. split; [done |]. split; [by apply Forall_app |].
  rewrite <- !(found_steps _ _ _ _ Hst). split.
  - intros c Hc. destruct (Hcov c Hc) as (x & Hx & Ha). exists x. rewrite elem_of_app. eauto.
  - rewrite <- (same_steps_filter not_idle _ _ Hsame). apply Forall2_fmap_l. exact Hacc.
Qed.
End Components.

(** ** Starting *)

(** Arms of [c] that failed, and the pauses between them. *)
Definition tried (c : ComponentEndpoint) (l : list Call) : Prop :=
  Forall (fun x => (exists a e, x = CallCommand c Arm a /\ applied c Arm a = Err e) \/ exists ms, x = CallSleep ms) l.

(** The time between [n] tries, the first pause being [backoff]. *)
Definition backoff_sum (backoff n : Z) : Z := backoff * (2 ^ (n - 1) - 1).

(** [c] is armed: [r] answers the last try. *)
Definition arm_segment (c : ComponentEndpoint) (r : CommandResponse) (seg : list Call) : Prop :=
  exists tries, seg = tries ++ [CallCommand c Arm (Ok r)] /\ success r = true /\ tried c tries /\
    len (commands seg) <= ARM_MAX_ATTEMPTS /\ slept seg = backoff_sum ARM_RETRY_BACKOFF (len (commands seg)).

(** The link an Arm response gives. *)
Definition link_of (params : ControllerParams) (cr : ComponentEndpoint * CommandResponse) : option RouterLink :=
  match kind (fst cr) with
  | ReceiverKind cobo_id =>
      match router_link params cobo_id (snd cr) with
      | Ok link => Some link
      | Err _ => None
      end
  | _ => None
  end.

Definition undoing (cs : list ComponentEndpoint) : list (ComponentEndpoint * Command) :=
  flat_map (fun c => [(c, Stop); (c, Reset)]) cs.

(** A call that moved a component forward is to one of [cs]. *)
Definition covered (cs : list ComponentEndpoint) (x : Call) : Prop :=
  forall c cmd, accepted c cmd x -> folding_only x = false -> c ∈ cs.

(** The ECC has been brought to rest, and then the components walked back. *)
Definition prepared (params : ControllerParams) (l : list Call) (final : string) : Prop :=
  exists r0 walk back, l = CallEcc (action_request "status") (Ok r0) :: walk ++ back /\ ecc_ok r0 = true /\
    walks (ecc_state r0) walk final /\ len walk <= ECC_WALK_BACK_MAX_STEPS /\ walked_back params back.

Definition start_done (params : ControllerParams) (run : Z) (comment ts : string) (l : list Call) (rep : StartReport) : Prop :=
  exists walk configures rs arms starts eccs,
    l = walk ++ configures ++ concat arms ++ starts ++ eccs /\
    prepared params walk (ecc_state_after_reset rep) /\
    Forall2 (fun c x => accepted c (Configure (run_config run comment ts)) x) (components params) configures /\
    length rs = length (components params) /\
    Forall2 (fun cr seg => arm_segment (fst cr) (snd cr) seg) (zip (components params) rs) arms /\
    Forall2 (fun c x => accepted c (Start run) x) (components params) starts /\
    Forall2 ecc_accepted (ecc_requests params (links rep)) eccs /\
    links rep = omap (link_of params) (zip (components params) rs) /\
    length (links rep) = length (List.filter (fun c => is_receiver (kind c)) (components params)) /\
    started_run rep = run.

Definition start_failed (params : ControllerParams) (l : list Call) (f : StartFailure) : Prop :=
  exists pre k roll,
    l = pre ++ roll /\
    commands roll = undoing (rev (take k (components params))) /\
    rollback_notes f = failures roll /\
    Forall (covered (take k (components params))) pre /\
    (Forall (fun x => folding_only x = true) pre /\ k = 0%nat \/
     exists walk rest final, pre = walk ++ rest /\ prepared params walk final).

(** Marking [k] components from [i] on. *)
Fixpoint marks (i k : nat) (touched : list bool) : list bool :=
  match k with
  | O => touched
  | S k => marks (S i) k (<[i := true]> touched)
  end.

Lemma marks_true i k n : marks i k (repeat true n) = repeat true n.
Proof.
  revert i. induction k as [| k IH]; intros i; [done |]. cbn [marks].
  replace (<[i := true]> (repeat true n)) with (repeat true n); [apply IH |].
  symmetry. clear IH. revert i. induction n as [| n IH]; intros i; [done |].
  destruct i as [| i]; cbn; [done | by rewrite IH].
Qed.

Lemma marks_false j k m :
  (k <= m)%nat -> marks j k (repeat true j ++ repeat false m) = repeat true (j + k) ++ repeat false (m - k).
Proof.
  revert j m. induction k as [| k IH]; intros j m Hk; [by rewrite Nat.add_0_r, Nat.sub_0_r |].
  destruct m as [| m]; [lia |]. cbn [marks repeat].
  replace (<[j := true]> (repeat true j ++ false :: repeat false m)) with (repeat true (S j) ++ repeat false m).
  - rewrite IH by lia. by replace (S j + k)%nat with (j + S k)%nat by lia.
  - symmetry. clear IH Hk. induction j as [| j IH]; [done |]. cbn [repeat app].
    change (true :: <[j := true]> (repeat true j ++ false :: repeat false m) =
            true :: (repeat true (S j) ++ repeat false m)). by rewrite IH.
Qed.

Lemma touched_components_take params k m :
  (k + m = length (components params))%nat ->
  touched_components params (repeat true k ++ repeat false m) = rev (take k (components params)).
Proof.
  unfold touched_components. intros Hk. f_equal. revert k m Hk.
  induction (components params) as [| c cs IH]; intros k m Hk; [by destruct k |].
  cbn in Hk. destruct k as [| k]; cbn [repeat app take].
  - destruct m as [| m]; [lia |]. pose proof (IH 0%nat m ltac:(lia)) as E. rewrite take_0 in E. exact E.
  - pose proof (IH k m ltac:(lia)) as E. exact (f_equal (cons c) E).
Qed.

Section Starting.
Context {T : Type} `{Transport T} (params : ControllerParams).
Context (Hpoll : 0 < eos_poll params) (Htimeout : 0 <= eos_timeout params).

Lemma does_arm_loop fuel c began attempt backoff last retries :
  attempt = ARM_MAX_ATTEMPTS + 1 - Z.of_nat fuel ->
  does (arm_loop fuel c began attempt backoff last retries) (fun l r =>
    len (commands l) <= Z.of_nat fuel /\
    match fst r with
    | Ok resp => exists tries, l = tries ++ [CallCommand c Arm (Ok resp)] /\ success resp = true /\ tried c tries /\
        1 <= len (commands l) /\ slept l = backoff_sum backoff (len (commands l))
    | Err _ => tried c l
    end).
Proof.
  unfold ARM_MAX_ATTEMPTS. revert attempt backoff last retries.
  induction fuel as [| fuel IH]; intros attempt backoff last retries Ha; cbn [arm_loop].
  { eapply does_bind; [apply does_elapsed |]. intros l w ->. apply does_ret. by split; [| constructor]. }
  eapply does_bind; [apply does_apply |]. intros l r (a & -> & Hr). symmetry in Hr. destruct r as [resp | detail].
  - apply applied_accepted in Hr as [-> Hok].
    assert (Hone : forall rs, len (commands [CallCommand c Arm (Ok resp)]) <= Z.of_nat (S fuel) /\
      match fst (Ok resp : result CommandResponse string, rs : list ArmRetry) with
      | Ok resp' => exists tries, [CallCommand c Arm (Ok resp)] = tries ++ [CallCommand c Arm (Ok resp')] /\
          success resp' = true /\ tried c tries /\ 1 <= len (commands [CallCommand c Arm (Ok resp)]) /\
          slept [CallCommand c Arm (Ok resp)] = backoff_sum backoff (len (commands [CallCommand c Arm (Ok resp)]))
      | Err _ => tried c [CallCommand c Arm (Ok resp)]
      end).
    { intros rs. cbn [fst]. change (len (commands _)) with 1. split; [lia |]. exists []. split; [done |]. split; [done |].
      split; [constructor |]. split; [done |]. unfold backoff_sum. cbn. lia. }
    destruct (1 <? attempt).
    + eapply does_bind; [apply does_elapsed |]. intros l w ->. apply does_ret. rewrite !app_nil_r. apply Hone.
    + apply does_ret. rewrite app_nil_r. apply Hone.
  - unfold ARM_MAX_ATTEMPTS. destruct (Z.ltb_spec attempt 6).
    + eapply does_bind; [apply does_sleep |]. intros l [] ->.
      eapply does_mono; [apply IH; lia |]. intros l [r rs] [Hlen Hl]. cbn [fst app] in *.
      change (commands (CallCommand c Arm a :: CallSleep backoff :: l)) with ((c, Arm) :: commands l).
      rewrite len_cons. split; [lia |]. destruct r as [resp | e].
      * destruct Hl as (tries & -> & Hok & Ht & H1 & Hs). exists (CallCommand c Arm a :: CallSleep backoff :: tries).
        split; [done |]. split; [done |]. split; [constructor; [left; eauto |]; constructor; [right; eauto | done] |].
        split; [lia |]. cbn [slept app]. rewrite Hs. unfold backoff_sum. set (n := len _) in *.
        replace (1 + n - 1) with (Z.succ (n - 1)) by lia. rewrite Z.pow_succ_r by lia. lia.
      * constructor; [left; eauto |]. constructor; [right; eauto | done].
    + assert (fuel = 0%nat) as -> by lia. cbn [arm_loop].
      eapply does_bind; [apply does_elapsed |]. intros l w ->. apply does_ret. cbn [app fst].
      split; [done |]. repeat constructor. eauto.
Qed.

Lemma does_arm c retries :
  does (arm_with_retry c retries) (fun l r =>
    match fst r with
    | Ok resp => arm_segment c resp l
    | Err _ => tried c l
    end).
Proof.
  unfold arm_with_retry. eapply does_bind; [apply does_instant_now |]. intros l0 w ->.
  eapply does_mono; [by apply does_arm_loop |]. intros l [r rs] [Hlen Hl]. cbn [app fst] in *.
  destruct r as [resp | e]; [| done]. destruct Hl as (tries & E & Hok & Ht & H1 & Hs). exists tries.
  split; [done |]. split; [done |]. split; [done |]. split; [exact Hlen | exact Hs].
Qed.

(** Any call to a component of [cs]. *)
Definition towards (cs : list ComponentEndpoint) (x : Call) : Prop :=
  forall c cmd a, x = CallCommand c cmd a -> c ∈ cs.

Lemma towards_covered cs x : towards cs x -> covered cs x.
Proof. intros Ht c cmd (r & -> & _) _. by eapply Ht. Qed.

Lemma folding_covered cs x : folding_only x = true -> covered cs x.
Proof. intros Hf c cmd _. congruence. Qed.

Lemma tried_towards c cs l : c ∈ cs -> tried c l -> Forall (towards cs) l.
Proof.
  intros Hc. apply List.Forall_impl. intros x [(a & e & -> & _) | (ms & ->)] c' cmd' a' [=]. by subst.
Qed.

Lemma does_arm_each cs i touched ls retries :
  incl cs (components params) -> touched = repeat true (length touched) ->
  does (arm_each params cs i touched ls retries) (fun l r =>
    Forall (towards (components params)) l /\ snd r = touched /\
    match fst r with
    | Ok (ls', _) => exists rs segs, l = concat segs /\ length rs = length cs /\
        Forall2 (fun cr seg => arm_segment (fst cr) (snd cr) seg) (zip cs rs) segs /\
        ls' = ls ++ omap (link_of params) (zip cs rs) /\
        length (omap (link_of params) (zip cs rs)) = length (List.filter (fun c => is_receiver (kind c)) cs)
    | Err _ => True
    end).
Proof.
  revert i touched ls retries. induction cs as [| c cs IH]; intros i touched ls retries Hin Ht; cbn [arm_each].
  { apply does_ret. split; [constructor |]. split; [done |]. exists [], []. split; [done |]. split; [done |].
    split; [constructor |]. split; [by rewrite app_nil_r | done]. }
  assert (Hc : c ∈ components params) by (apply list_elem_of_In, Hin; by left).
  eapply does_bind; [apply does_arm |]. intros l [r rs] Hr. cbn [fst] in Hr. destruct r as [resp | e].
  2: { apply does_ret. rewrite app_nil_r. split; [by eapply tried_towards |]. done. }
  assert (Htow : Forall (towards (components params)) l).
  { destruct Hr as (tries & -> & _ & Htr & _). apply Forall_app. split; [by eapply tried_towards |].
    constructor; [| constructor]. intros c' cmd' a' [=]. by subst. }
  assert (Htouch : <[i := true]> touched = touched) by (rewrite Ht; apply (marks_true i 1)).
  rewrite Htouch.
  assert (Hnext : forall ls' extra,
    link_of params (c, resp) = extra -> ls' = ls ++ option_list extra ->
    (is_receiver (kind c) = true <-> extra <> None) ->
    does (arm_each params cs (S i) touched ls' rs) (fun l' r =>
      Forall (towards (components params)) (l ++ l') /\ snd r = touched /\
      match fst r with
      | Ok (ls', _) => exists rs segs, l ++ l' = concat segs /\ length rs = length (c :: cs) /\
          Forall2 (fun cr seg => arm_segment (fst cr) (snd cr) seg) (zip (c :: cs) rs) segs /\
          ls' = ls ++ omap (link_of params) (zip (c :: cs) rs) /\
          length (omap (link_of params) (zip (c :: cs) rs)) =
          length (List.filter (fun c => is_receiver (kind c)) (c :: cs))
      | Err _ => True
      end)).
  { intros ls' extra Hextra -> Hrec.
    eapply does_mono; [apply IH; [by intros x Hx; apply Hin; right | done] |].
    intros l' [r' touched'] (Htow' & Hsnd & Hres). cbn [fst snd] in *.
    split; [by apply Forall_app |]. split; [done |]. destruct r' as [[ls' rets] | e]; [| done].
    destruct Hres as (rs' & segs & -> & Hlen & Hsegs & -> & Hcount).
    exists (resp :: rs'), (l :: segs). split; [done |]. split; [cbn; lia |]. split; [by constructor |].
    change (omap (link_of params) (zip (c :: cs) (resp :: rs'))) with
      (match link_of params (c, resp) with
       | Some y => y :: omap (link_of params) (zip cs rs')
       | None => omap (link_of params) (zip cs rs') end).
    rewrite Hextra. cbn [List.filter]. destruct extra as [y |].
    - rewrite (proj2 Hrec) by done. cbn [option_list length]. split; [by rewrite <- app_assoc | lia].
    - destruct (is_receiver (kind c)); [by destruct (proj1 Hrec) |].
      cbn [option_list]. by rewrite app_nil_r. }
  destruct (kind c) as [| | cobo_id] eqn:Hk.
  - apply (Hnext ls None); [unfold link_of; cbn; by rewrite Hk | by rewrite app_nil_r | done].
  - apply (Hnext ls None); [unfold link_of; cbn; by rewrite Hk | by rewrite app_nil_r | done].
  - destruct (router_link params cobo_id resp) as [link | detail] eqn:Hlink.
    + apply (Hnext _ (Some link)); [unfold link_of; cbn; by rewrite Hk, Hlink | done | done].
    + apply does_ret. by rewrite app_nil_r.
Qed.

Lemma does_apply_each cmd cs i touched :
  does (apply_each cmd cs i touched) (fun l r => exists k, snd r = marks i k touched /\ (k <= length cs)%nat /\
    Forall (towards cs) l /\
    match fst r with
    | Ok _ => k = length cs /\ Forall2 (fun c x => accepted c cmd x) cs l
    | Err _ => Forall (covered (take k cs)) l
    end).
Proof.
  revert i touched. induction cs as [| c cs IH]; intros i touched; cbn [apply_each].
  { apply does_ret. exists 0%nat. split; [done |]. split; [done |]. split; [constructor |]. by split; [| constructor]. }
  assert (Hsub : forall l, Forall (towards cs) l -> Forall (towards (c :: cs)) l).
  { intros l. apply List.Forall_impl. intros x Hx c' cmd' a' E. right. by eapply Hx. }
  assert (Hone : forall a, towards (c :: cs) (CallCommand c cmd a)).
  { intros a c' cmd' a' [=]. subst. left. }
  eapply does_bind; [apply does_apply |]. intros l r (a & -> & Hr). destruct r as [resp | e]; symmetry in Hr.
  - apply applied_accepted in Hr as [-> Hok].
    eapply does_mono; [apply IH |]. intros l [r touched'] (k & Hm & Hk & Htow & Hres). cbn [fst snd app] in *.
    exists (S k). split; [done |]. split; [cbn [length]; lia |]. split; [constructor; auto |]. destruct r as [[] | e].
    + destruct Hres as [-> Hacc]. split; [done |]. constructor; [by exists resp | done].
    + cbn [take]. constructor.
      * intros c' cmd' (r & [=] & _) _. subst. left.
      * eapply List.Forall_impl; [| exact Hres]. intros x Hx c' cmd' Ha Hf. right. by eapply Hx.
  - apply does_ret. rewrite app_nil_r. exists 0%nat. cbn [fst snd]. split; [done |]. split; [lia |].
    split; [by constructor |]. constructor; [| constructor].
    intros c' cmd' (r & [=] & Hok) _. subst. unfold applied in Hr. by rewrite Hok in Hr.
Qed.

Lemma does_ecc_each qs :
  does (ecc_each qs) (fun l r => only_ecc l /\
    match r with Ok _ => Forall2 ecc_accepted qs l | Err _ => True end).
Proof.
  induction qs as [| q qs IH]; cbn [ecc_each].
  { apply does_ret. split; constructor. }
  eapply does_try; [apply does_apply_ecc | |].
  2: { intros l e (a & -> & _). split; [| done]. repeat constructor. eauto. }
  intros l landed (a & -> & Hl). symmetry in Hl. apply ecc_applied_accepted in Hl as (r & -> & Hok & _).
  eapply does_mono; [apply IH |]. intros l b [Ho Hb]. split; [constructor; eauto |].
  destruct b; [| done]. constructor; [by exists r | done].
Qed.

Lemma does_rollback_each cs notes : does (rollback_each cs notes) (noting notes (undoing cs)).
Proof.
  revert notes. induction cs as [| c cs IH]; intros notes; cbn [rollback_each undoing flat_map].
  { apply does_ret, noting_nil. }
  eapply does_bind; [apply does_apply_noted |]. intros l1 r1 H1.
  eapply does_bind; [apply does_apply_noted |]. intros l2 r2 H2.
  eapply does_mono; [apply IH |]. intros l3 r3 H3. rewrite app_assoc.
  eapply noting_app; [| exact H3]. exact (noting_app _ _ _ _ _ _ _ H1 H2).
Qed.

(** A stage that fails after the calls [pre] rolls back. *)
Lemma does_or_rollback {A B : Type} (stg : string) touched (r : result A string) (k : A -> Seq T (result B StartFailure))
    cs (Q : list Call -> result B StartFailure -> Prop) :
  touched_components params touched = cs ->
  (forall a, r = Ok a -> does (k a) Q) ->
  (forall e l f, r = Err e -> commands l = undoing cs -> rollback_notes f = failures l -> Q l (Err f)) ->
  does (or_rollback params stg touched r k) Q.
Proof.
  intros Hcs Hk He. unfold or_rollback. destruct r as [a | e]; [by apply Hk |].
  unfold rollback. rewrite Hcs.
  eapply (does_bind _ _ (fun l f => commands l = undoing cs /\ rollback_notes f = failures l)).
  - eapply does_bind; [apply does_rollback_each |]. intros l notes (Hc & Hn & _).
    eapply does_bind; [apply does_take |]. intros l' w ->. apply does_ret.
    rewrite !app_nil_r. cbn. by rewrite Hn.
  - intros l f [Hc Hn]. apply does_ret. rewrite app_nil_r. by eapply He.
Qed.

(** The calls of a failed start, whatever came before the rollback. *)
Lemma failed_intro pre k roll f :
  commands roll = undoing (rev (take k (components params))) -> rollback_notes f = failures roll ->
  Forall (covered (take k (components params))) pre ->
  (Forall (fun x => folding_only x = true) pre /\ k = 0%nat \/
   exists walk rest final, pre = walk ++ rest /\ prepared params walk final) ->
  start_failed params (pre ++ roll) f.
Proof. intros. by exists pre, k, roll. Qed.

Lemma only_ecc_folding l : only_ecc l -> Forall (fun x => folding_only x = true) l.
Proof. apply List.Forall_impl. by intros x (q & a & ->). Qed.

Lemma folding_covered_all cs l : Forall (fun x => folding_only x = true) l -> Forall (covered cs) l.
Proof. apply List.Forall_impl. intros x. apply folding_covered. Qed.

Lemma towards_covered_all cs l : Forall (towards cs) l -> Forall (covered cs) l.
Proof. apply List.Forall_impl. intros x. apply towards_covered. Qed.
End Starting.

Section Start.
Context {T : Type} `{Transport T} (params : ControllerParams).
Context (Hpoll : 0 < eos_poll params) (Htimeout : 0 <= eos_timeout params).

Lemma untouched_none : touched_components params (repeat false (length (components params))) = [].
Proof.
  pose proof (touched_components_take params 0 (length (components params)) eq_refl) as E.
  rewrite take_0 in E. exact E.
Qed.

Lemma all_touched : touched_components params (repeat true (length (components params))) = rev (components params).
Proof.
  pose proof (touched_components_take params (length (components params)) 0 (Nat.add_0_r _)) as E.
  rewrite firstn_all in E. cbn [repeat] in E. by rewrite app_nil_r in E.
Qed.

(** Nothing was moved yet: nothing to roll back. *)
Lemma failed_before l roll f :
  Forall (fun x => folding_only x = true) l -> commands roll = undoing [] -> rollback_notes f = failures roll ->
  start_failed params (l ++ roll) f.
Proof.
  intros Hl Hc Hn. apply (failed_intro params l 0); [by rewrite take_0 | done | | by left].
  by apply folding_covered_all.
Qed.

(** After the walk back, with every component possibly moved. *)
Lemma failed_after l walk rest roll final f :
  l = walk ++ rest ++ roll ->
  prepared params walk final -> Forall (fun x => folding_only x = true) walk ->
  Forall (covered (components params)) rest ->
  commands roll = undoing (rev (components params)) -> rollback_notes f = failures roll ->
  start_failed params l f.
Proof.
  intros -> Hw Hwf Hr Hc Hn. rewrite app_assoc. apply (failed_intro params (walk ++ rest) (length (components params))).
  - by rewrite firstn_all.
  - done.
  - rewrite firstn_all. apply Forall_app. split; [by apply folding_covered_all | done].
  - right. eauto.
Qed.

Lemma does_start_run run comment ts :
  does (start_run params run comment ts) (fun l r =>
    match r with
    | Ok rep => start_done params run comment ts l rep
    | Err f => start_failed params l f
    end).
Proof.
  unfold start_run. set (n := length (components params)).
  eapply does_bind; [apply does_walk_ecc |]. intros l1 walked [Ho1 Hwalk]. apply only_ecc_folding in Ho1.
  eapply (does_or_rollback params); [apply untouched_none | | by intros e l f _ Hc Hn; apply failed_before].
  intros [final trail] ->. destruct Hwalk as (r0 & walk & -> & Hok0 & Hwalks & Hlen).
  eapply does_bind; [by apply does_walk_components |]. intros l2 back [Hf2 Hback].
  eapply (does_or_rollback params); [apply untouched_none | |].
  2: { intros e l f _ Hc Hn. rewrite app_assoc. apply failed_before; [by apply Forall_app | done | done]. }
  intros clines ->. set (pre := (CallEcc (action_request "status") (Ok r0) :: walk) ++ l2).
  assert (Hpre : prepared params pre final) by (by exists r0, walk, l2).
  assert (Hpref : Forall (fun x => folding_only x = true) pre) by (by apply Forall_app).
  eapply does_bind; [apply does_apply_each |]. intros l3 [configured touched] (k & Hm3 & Hk & Htow3 & Hc3). cbn [fst snd] in *. subst touched.
  assert (Hmarks : touched_components params (marks 0 k (repeat false n)) = rev (take k (components params))).
  { pose proof (marks_false 0 k n Hk) as E. cbn [repeat app Nat.add] in E. rewrite E.
    apply touched_components_take. subst n. lia. }
  eapply (does_or_rollback params); [exact Hmarks | |].
  2: { intros e l f -> Hc Hn. rewrite !app_assoc. fold pre. apply (failed_intro params _ k); [done | done | |].
    - apply Forall_app. split; [by apply folding_covered_all | done].
    - right. exists pre, l3, final. done. }
  intros [] ->. destruct Hc3 as [-> Hacc3].
  assert (Hall : marks 0 n (repeat false n) = repeat true n).
  { pose proof (marks_false 0 n n ltac:(lia)) as E. cbn [repeat app Nat.add] in E. by rewrite E, Nat.sub_diag, app_nil_r. }
  fold n. rewrite Hall. clear Hmarks Hk.
  eapply does_bind; [apply does_arm_each; [apply incl_refl | by rewrite repeat_length] |].
  intros l4 [armed touched] (Htow4 & Hm4 & Harm). cbn [fst snd] in *. subst touched.
  apply towards_covered_all in Htow3, Htow4.
  eapply (does_or_rollback params); [apply all_touched | |].
  2: { intros e l f -> Hc Hn. 
    apply (failed_after _ pre (l3 ++ l4) l final); [by simplify_list_eq | done | done | by apply Forall_app | done | done]. }
  intros [ls retries] ->. destruct Harm as (rs & segs & -> & Hlrs & Hsegs & -> & Hcount). cbn [app] in *.
  eapply does_bind; [apply does_apply_each |]. intros l5 [started touched] (k5 & Hm5 & _ & Htow5 & Hc5). cbn [fst snd] in *.
  rewrite marks_true in Hm5. subst touched. apply towards_covered_all in Htow5.
  eapply (does_or_rollback params); [apply all_touched | |].
  2: { intros e l f -> Hc Hn. 
    apply (failed_after _ pre (l3 ++ concat segs ++ l5) l final);
      [by simplify_list_eq | done | done | by rewrite !Forall_app | done | done]. }
  intros [] ->. destruct Hc5 as [_ Hacc5].
  eapply does_bind; [apply does_ecc_each |]. intros l6 eccs [Ho6 Hacc6].
  apply only_ecc_folding in Ho6. apply (folding_covered_all (components params)) in Ho6.
  eapply (does_or_rollback params); [apply all_touched | |].
  2: { intros e l f -> Hc Hn. 
    apply (failed_after _ pre (l3 ++ concat segs ++ l5 ++ l6) l final);
      [by simplify_list_eq | done | done | by rewrite !Forall_app | done | done]. }
  intros [] ->. eapply does_bind; [apply does_take |]. intros l7 w ->. apply does_ret.
  exists pre, l3, rs, segs, l5, l6. cbn [links ecc_state_after_reset started_run].
  unfold pre. rewrite !app_nil_r. rewrite <- !app_comm_cons, <- !app_assoc.
  done.
Qed.
End Start.

(** ** What the components promise *)

(** The table of [Command.can_transition_to], seen from outside: a [Reset] that is
    taken leaves the component idle, and an idle component stays so until it is
    sent a command of its own. *)
Class ComponentLaws (T : Type) `{Transport T} := {
  component_state : T -> string -> ComponentState;
  law_reset : forall ep t r u,
    transport_command ep Reset t = (Ok r, u) -> success r = true -> component_state u ep = Idle;
  law_command : forall ep ep' cmd t a u,
    transport_command ep' cmd t = (a, u) -> ep' <> ep ->
    component_state t ep = Idle -> component_state u ep = Idle;
  law_ecc : forall ep request t a u,
    transport_ecc request t = (a, u) -> component_state t ep = Idle -> component_state u ep = Idle;
  law_sleep : forall ep ms t,
    component_state t ep = Idle -> component_state (transport_sleep ms t) ep = Idle;
}.

(** The call of one command among the commands of [l]. *)
Lemma commands_split l k1 c cmd k2 :
  commands l = k1 ++ (c, cmd) :: k2 ->
  exists l1 a l2, l = l1 ++ CallCommand c cmd a :: l2 /\ commands l1 = k1 /\ commands l2 = k2.
Proof.
  revert k1. induction l as [| x l IH]; intros k1 E; [by destruct k1 |].
  destruct x as [c' cmd' a | q a | ms].
  - change (commands (CallCommand c' cmd' a :: l)) with ((c', cmd') :: commands l) in E.
    destruct k1 as [| p k1].
    + injection E as -> -> E2. by exists [], a, l.
    + injection E as E1 E2. destruct (IH k1 E2) as (l1 & a' & l2 & -> & E3 & E4). exists (CallCommand c' cmd' a :: l1), a', l2.
      split; [done |]. split; [| done].
      change (commands (CallCommand c' cmd' a :: l1)) with ((c', cmd') :: commands l1). by rewrite E3, E1.
  - destruct (IH k1 E) as (l1 & a' & l2 & -> & E3 & E4). by exists (CallEcc q a :: l1), a', l2.
  - destruct (IH k1 E) as (l1 & a' & l2 & -> & E3 & E4). by exists (CallSleep ms :: l1), a', l2.
Qed.

(** Commands that leave [c] alone. *)
Definition elsewhere (c : ComponentEndpoint) (p : ComponentEndpoint * Command) : Prop :=
  endpoint (fst p) <> endpoint c.

Section Honest.
Context {T : Type} `{ComponentLaws T}.

Lemma stays_idle c l t t' :
  Forall (elsewhere c) (commands l) -> happened l t t' ->
  component_state t (endpoint c) = Idle -> component_state t' (endpoint c) = Idle.
Proof.
  revert t. induction l as [| x l IH]; intros t Hl; cbn [happened]; [by intros -> |].
  destruct x as [c' cmd a | q a | ms].
  - change (commands (CallCommand c' cmd a :: l)) with ((c', cmd) :: commands l) in Hl.
    apply List.Forall_cons_iff in Hl as [Hc Hl]. intros (u & Hu & Hh) Hi. apply (IH u Hl Hh). by eapply law_command.
  - intros (u & Hu & Hh) Hi. apply (IH u Hl Hh). by eapply law_ecc.
  - intros Hh Hi. apply (IH _ Hl Hh). by apply law_sleep.
Qed.

(** After a stretch that resets [c] and then leaves it alone, [c] is idle, or its
    [Reset] failed. *)
Lemma reset_leaves_idle c l k1 k2 t t' :
  commands l = k1 ++ (c, Reset) :: k2 -> Forall (elsewhere c) k2 -> happened l t t' ->
  component_state t' (endpoint c) = Idle \/
  exists a e, applied c Reset a = Err e /\ e ∈ failures l.
Proof.
  intros Hc Hk Hh. apply commands_split in Hc as (l1 & a & l2 & -> & _ & <-).
  apply happened_split in Hh as (u & _ & Hu). cbn [happened] in Hu. destruct Hu as (v & Hv & Hh2).
  destruct (applied c Reset a) as [r | e] eqn:Ea.
  - left. apply applied_accepted in Ea as [-> Hok]. eapply stays_idle; [exact Hk | exact Hh2 |]. by eapply law_reset.
  - right. exists a, e. split; [done |]. rewrite failures_app, elem_of_app. right. apply list_elem_of_omap.
    exists (CallCommand c Reset a). split; [left |]. by rewrite Ea.
Qed.
End Honest.

(** The last command a fold up or a rollback sends to one of its components is its
    [Reset]. *)
Lemma last_reset (f : ComponentEndpoint -> list (ComponentEndpoint * Command)) cs c :
  (forall c', Forall (fun p => fst p = c') (f c')) -> NoDup (map endpoint cs) -> c ∈ cs ->
  exists k1 k2, flat_map (fun c' => f c' ++ [(c', Reset)]) cs = k1 ++ (c, Reset) :: k2 /\ Forall (elsewhere c) k2.
Proof.
  intros Hf. induction cs as [| c' cs IH]; [by intros _ ?%elem_of_nil |]. cbn [map flat_map].
  intros [Hnew Hnd]%list.NoDup_cons [-> | Hc]%elem_of_cons.
  - exists (f c'), (flat_map (fun c' => f c' ++ [(c', Reset)]) cs). split; [by rewrite <- app_assoc |].
    apply List.Forall_forall. intros p Hp. apply in_flat_map in Hp as (c2 & Hc2 & Hp).
    assert (Hfst : fst p = c2).
    { apply in_app_iff in Hp as [Hp | [<- | []]]; [| done]. specialize (Hf c2). rewrite List.Forall_forall in Hf. auto. }
    unfold elsewhere. rewrite Hfst. intros E. apply Hnew. rewrite <- E. by apply list_elem_of_In, in_map.
  - destruct (IH Hnd Hc) as (k1 & k2 & E & Hk). rewrite E. exists ((f c' ++ [(c', Reset)]) ++ k1), k2.
    split; [by rewrite app_assoc | done].
Qed.

Lemma NoDup_endpoints_rev cs : NoDup (map endpoint cs) -> NoDup (map endpoint (rev cs)).
Proof. intros Hn. rewrite map_rev, <- (Permutation_rev (map endpoint cs)). exact Hn. Qed.

Lemma NoDup_endpoints_take k cs : NoDup (map endpoint cs) -> NoDup (map endpoint (take k cs)).
Proof. intros Hn. rewrite <- (take_drop k cs), map_app in Hn. by apply list.NoDup_app in Hn as [Hn _]. Qed.

(** ** The contract of the sequencer *)

(** A rollback only stops and resets. *)
Lemma rollback_folds cs l c cmd a : commands l = undoing cs -> CallCommand c cmd a ∈ l -> cmd = Stop \/ cmd = Reset.
Proof.
  intros Hl Hx. assert (Hc : (c, cmd) ∈ commands l) by (apply list_elem_of_omap; eauto).
  rewrite Hl, list_elem_of_In in Hc. apply in_flat_map in Hc as (c' & _ & [[= _ <-] | [[= _ <-] | []]]); auto.
Qed.

Section Contract.
Context {T : Type} `{Transport T} (params : ControllerParams).

(** A start that succeeds has made exactly these calls, in this order: the
    status of the ECC and at most four actions that each move it closer to rest;
    the walk back of the components, in which everyone found running took a
    [Stop] before anyone took a [Reset]; a [Configure] taken by every component
    from downstream up; an [Arm] of every component in the same order, tried at
    most six times with doubling pauses; a [Start] taken by every component; and
    the ECC's describe, prepare, configure and start, taken, with the links the
    receivers reported when they were armed, one for each receiver. *)
Theorem start_sequence (run : Z) (comment ts : string)
    (Hpoll : 0 < eos_poll params) (Htimeout : 0 <= eos_timeout params) :
  does (start_run params run comment ts) (fun l r =>
    match r with
    | Ok rep => start_done params run comment ts l rep
    | Err _ => True
    end).
Proof. eapply does_mono; [by apply does_start_run |]. by intros l [rep | f]. Qed.

(** C11: A start that fails ends with its rollback: from upstream, a [Stop] and a
    [Reset] to the [k] first components, which are all those that took a
    [Configure], an [Arm] or a [Start]; every one of these commands that failed
    is in the notes.  Before the ECC is at rest and the components are walked
    back, no component has been moved forward at all. *)
Theorem start_rolls_back (run : Z) (comment ts : string)
    (Hpoll : 0 < eos_poll params) (Htimeout : 0 <= eos_timeout params) :
  does (start_run params run comment ts) (fun l r =>
    match r with
    | Ok _ => True
    | Err f => start_failed params l f
    end).
Proof. eapply does_mono; [by apply does_start_run |]. by intros l [rep | f]. Qed.

(** C12: Stopping a run always ends, whatever the components and the ECC answer,
    and it ends the stream before it folds anything up.  The calls are: the ECC's
    stop; a wait that only watches; if that wait has not seen the run close, a
    [Stop] to every receiver and a second wait; a status of everyone; and only
    then, from upstream, a [Stop] (except to receivers already stopped) and a
    [Reset] to every component.  Each wait sleeps at most the limit and one poll,
    an abort does not wait the first time, the report says closed only when the
    last thing the wait saw was every observed component closed, it says normal
    exactly for a normal stop that the ECC took and that closed, and every
    command that failed is in its notes. *)
Theorem stop_sequence (mode : StopMode) (Hpoll : 0 < eos_poll params) (Htimeout : 0 <= eos_timeout params) :
  does (stop_run params mode) (stop_done params mode).
Proof. by apply does_stop_run. Qed.

(** C10: With components that keep their word (a [Reset] taken leaves one idle, and
    it stays idle until it is configured), nobody is left half running: after a
    start that failed, every component that had taken a [Configure], an [Arm] or
    a [Start] is idle; after a stop, every component is; and the only exceptions
    are components whose [Reset] failed, which the report notes. *)
Theorem no_half_run `{!ComponentLaws T} (Hpoll : 0 < eos_poll params) (Htimeout : 0 <= eos_timeout params)
    (Hends : NoDup (map endpoint (components params))) :
  (forall run comment ts s f s', start_run params run comment ts s = Val (Err f, s') ->
     forall x c cmd, x ∈ drop (length (calls s)) (calls s') -> accepted c cmd x -> folding_only x = false ->
       component_state (transport s') (endpoint c) = Idle \/
       exists a e, applied c Reset a = Err e /\ e ∈ rollback_notes f) /\
  (forall mode s rep s', stop_run params mode s = Val (rep, s') ->
     forall c, c ∈ components params ->
       component_state (transport s') (endpoint c) = Idle \/
       exists a e, applied c Reset a = Err e /\ e ∈ stop_notes rep).
Proof.
  split.
  - intros run comment ts s f s' E x c cmd Hx Hacc Hx'.
    destruct (does_start_run params Hpoll Htimeout run comment ts s) as (r & s2 & l & E2 & Hcalls & Hh & Hpost).
    rewrite E in E2. injection E2 as <- <-. destruct Hpost as (pre & k & roll & -> & Hroll & Hnotes & Hcov & _).
    rewrite Hcalls, drop_app_length in Hx. apply happened_split in Hh as (u & _ & Hh).
    assert (Hlast : forall c, c ∈ take k (components params) ->
      exists k1 k2, commands roll = k1 ++ (c, Reset) :: k2 /\ Forall (elsewhere c) k2).
    { intros c' Hc'. rewrite Hroll. apply (last_reset (fun c => [(c, Stop)])).
      - intros c2. by repeat constructor.
      - by apply NoDup_endpoints_rev, NoDup_endpoints_take.
      - by rewrite list_elem_of_In, <- in_rev, <- list_elem_of_In. }
    assert (Hcs : c ∈ take k (components params)).
    { apply elem_of_app in Hx as [Hx | Hx].
      - rewrite List.Forall_forall in Hcov. apply list_elem_of_In, Hcov in Hx. exact (Hx c cmd Hacc Hx').
      - exfalso. destruct Hacc as (r & -> & _). apply (rollback_folds _ _ _ _ _ Hroll) in Hx as [-> | ->]; done. }
    destruct (Hlast c Hcs) as (k1 & k2 & Ek & Hk). rewrite Hnotes.
    by eapply reset_leaves_idle.
  - intros mode s rep s' E c Hc.
    destruct (does_stop_run params Hpoll Htimeout mode s) as (r & s2 & l & E2 & Hcalls & Hh & Hpost).
    rewrite E in E2. injection E2 as <- <-.
    destruct Hpost as (ea & w1 & stops & w2 & st & fold & -> & _ & _ & _ & _ & _ & _ & Hfold & _ & _ & _ & Hincl).
    rewrite app_comm_cons, !app_assoc in Hh. apply happened_split in Hh as (u & _ & Hh).
    destruct (last_reset (fun c => if stop_forced_eos rep && is_receiver (kind c) then [] else [(c, Stop)])
                (rev (components params)) c) as (k1 & k2 & Ek & Hk).
    + intros c'. destruct (_ && _); by repeat constructor.
    + by apply NoDup_endpoints_rev.
    + by rewrite list_elem_of_In, <- in_rev, <- list_elem_of_In.
    + unfold folding in Hfold. rewrite Ek in Hfold.
      destruct (reset_leaves_idle c fold k1 k2 u (transport s') Hfold Hk Hh) as [Hi | (a & e & Ha & He)]; [by left | right].
      exists a, e. split; [done |]. apply list_elem_of_In, Hincl. rewrite failures_app. apply in_app_iff.
      right. by apply list_elem_of_In.
Qed.
End Contract.

(** ** A plant to run it on *)

(** Components that follow the table, with the metrics of a run that has closed;
    those in [broken] refuse their [Start].  An ECC that does as it is told. *)
Record Plant : Type := mkPlant {
  plant_states : list (string * ComponentState);
  plant_ecc : string;
  broken : list string;
}.

Definition plant_state (p : Plant) (ep : string) : ComponentState :=
  match List.find (fun '(e, _) => bool_decide (e = ep)) (plant_states p) with
  | Some (_, s) => s
  | None => Idle
  end.

Definition plant_metrics : Json :=
  JObj [("bytes", JNum 5); ("eos_in", JNum 1); ("eos_out", JNum 1); ("files_open", JNum 0);
        ("router_port", JNum 46100); ("bind_address", JStr "10.0.0.7:46100")].

Definition plant_command (ep : string) (cmd : Command) (p : Plant) : result CommandResponse string * Plant :=
  let answer ok s := Ok (mkResponse ok s "" (Some 7) (Some plant_metrics)) in
  match target_state cmd with
  | None => (answer true (plant_state p ep), p)
  | Some target =>
      if can_transition_to (plant_state p ep) target &&
         negb (bool_decide (target = Running) && bool_decide (ep ∈ broken p))
      then (answer true target, mkPlant ((ep, target) :: plant_states p) (plant_ecc p) (broken p))
      else (answer false (plant_state p ep), p)
  end.

Definition plant_ecc_command (request : Json) (p : Plant) : result EccReply string * Plant :=
  let next :=
    match json_get "action" request ≫= as_str with
    | Some "stop" => "Ready"
    | Some "breakup" => "Prepared"
    | Some "reset" => if bool_decide (plant_ecc p = "Prepared") then "Described" else "Idle"
    | Some "start" => "Running"
    | _ => plant_ecc p
    end in
  (Ok (mkEccReply true next "" "NO_ERR"), mkPlant (plant_states p) next (broken p)).

#[local] Instance plant_transport : Transport Plant := {
  transport_command := plant_command;
  transport_ecc := plant_ecc_command;
  transport_sleep := fun _ p => p;
  clock_ms := fun _ => 0;
}.

Lemma plant_reset ep p r q :
  plant_command ep Reset p = (Ok r, q) -> success r = true -> plant_state q ep = Idle.
Proof.
  unfold plant_command. cbn [target_state]. destruct (can_transition_to _ _ && _); intros [= <- <-]; [| done].
  intros _. unfold plant_state. cbn. by rewrite bool_decide_eq_true_2.
Qed.

Lemma plant_idle ep ep' cmd p a q :
  plant_command ep' cmd p = (a, q) -> ep' <> ep -> plant_state p ep = Idle -> plant_state q ep = Idle.
Proof.
  unfold plant_command. destruct (target_state cmd) as [target |]; [| by intros [= _ <-]].
  destruct (can_transition_to _ _ && _); [| by intros [= _ <-]]. intros [= _ <-] Hne Hi.
  unfold plant_state. cbn. rewrite bool_decide_eq_false_2 by done. exact Hi.
Qed.

Lemma plant_ecc_idle ep request p a q :
  plant_ecc_command request p = (a, q) -> plant_state p ep = Idle -> plant_state q ep = Idle.
Proof. by intros [= _ <-] Hi. Qed.

Lemma plant_sleep_idle (ep : string) (ms : Z) p : plant_state p ep = Idle -> plant_state p ep = Idle.
Proof. done. Qed.

#[local] Instance plant_laws : ComponentLaws Plant := {
  component_state := plant_state;
  law_reset := plant_reset;
  law_command := plant_idle;
  law_ecc := plant_ecc_idle;
  law_sleep := plant_sleep_idle;
}.

Definition sample_params : ControllerParams :=
  params_from_config "tcp://gw" "tcp://dec" [mkCoboSpec 0 "0.0.0.0:46005" "CoBo[0]"] ["tcp://rx0"]
    (mkConfigIds "d" "p" "c") None 5 1000.

(** The controller restarted in the middle of a run: everything still runs. *)
Definition mid_run (broken : list string) : Sequencer Plant :=
  sequencer_new (mkPlant [("tcp://gw", Running); ("tcp://dec", Running); ("tcp://rx0", Running)] "Running" broken).

Lemma sample_times : 0 < eos_poll sample_params /\ 0 <= eos_timeout sample_params.
Proof. vm_compute. split; [reflexivity | discriminate]. Qed.

Lemma sample_endpoints : NoDup (map endpoint (components sample_params)).
Proof. apply (bool_decide_unpack _). vm_compute. exact I. Qed.

(** What those runs come to. *)
Lemma mid_run_starts :
  match start_run sample_params 8 "gas" "ts" (mid_run []) with
  | Val (Ok rep, _) => Some (ecc_walk_back rep, links rep)
  | _ => None
  end = Some (["status->Running"; "stop->Ready"; "breakup->Prepared"; "reset->Described"; "reset->Idle"],
              [mkRouterLink 0 "10.0.0.7" 46100]).
Proof. vm_compute. reflexivity. Qed.

Lemma mid_run_fails :
  match start_run sample_params 8 "gas" "ts" (mid_run ["tcp://dec"]) with
  | Val (Err f, _) => Some (stage f)
  | _ => None
  end = Some "Start".
Proof. vm_compute. reflexivity. Qed.

Lemma mid_run_stops :
  match stop_run sample_params NormalStop (mid_run []) with
  | Val (rep, _) => Some (reason rep)
  | _ => None
  end = Some "normal".
Proof. vm_compute. reflexivity. Qed.

Lemma start_sequence_witness :
  exists rep s', start_run sample_params 8 "gas" "ts" (mid_run []) = Val (Ok rep, s') /\
    start_done sample_params 8 "gas" "ts" (calls s') rep /\
    ecc_walk_back rep = ["status->Running"; "stop->Ready"; "breakup->Prepared"; "reset->Described"; "reset->Idle"] /\
    links rep = [mkRouterLink 0 "10.0.0.7" 46100].
Proof.
  destruct (start_sequence sample_params 8 "gas" "ts" (proj1 sample_times) (proj2 sample_times) (mid_run []))
    as (r & s' & l & E & Hc & _ & Hp).
  pose proof mid_run_starts as Hm. rewrite E in Hm. destruct r as [rep | f]; [| discriminate Hm].
  injection Hm as Hw Hl. exists rep, s'. split; [exact E |]. split; [| by split].
  cbn [mid_run sequencer_new calls app] in Hc. rewrite Hc. exact Hp.
Defined.

Lemma start_rolls_back_witness :
  exists f s', start_run sample_params 8 "gas" "ts" (mid_run ["tcp://dec"]) = Val (Err f, s') /\
    start_failed sample_params (calls s') f /\ stage f = "Start".
Proof.
  destruct (start_rolls_back sample_params 8 "gas" "ts" (proj1 sample_times) (proj2 sample_times) (mid_run ["tcp://dec"]))
    as (r & s' & l & E & Hc & _ & Hp).
  pose proof mid_run_fails as Hm. rewrite E in Hm. destruct r as [rep | f]; [discriminate Hm |].
  injection Hm as Hs. exists f, s'. split; [exact E |]. split; [| exact Hs].
  cbn [mid_run sequencer_new calls app] in Hc. rewrite Hc. exact Hp.
Defined.

Lemma stop_sequence_witness :
  exists rep s', stop_run sample_params NormalStop (mid_run []) = Val (rep, s') /\
    stop_done sample_params NormalStop (calls s') rep /\ reason rep = "normal".
Proof.
  destruct (stop_sequence sample_params NormalStop (proj1 sample_times) (proj2 sample_times) (mid_run []))
    as (rep & s' & l & E & Hc & _ & Hp).
  pose proof mid_run_stops as Hm. rewrite E in Hm. injection Hm as Hr.
  exists rep, s'. split; [exact E |]. split; [| exact Hr].
  cbn [mid_run sequencer_new calls app] in Hc. rewrite Hc. exact Hp.
Defined.

(** The receiver had taken its [Arm] when the decoder refused to start. *)
Definition receiver0 : ComponentEndpoint := mkEndpoint "receiver0" "tcp://rx0" (ReceiverKind 0).

Definition armed_reply : result CommandResponse string :=
  Ok (mkResponse true Armed "" (Some 7) (Some plant_metrics)).

Lemma mid_run_armed :
  match start_run sample_params 8 "gas" "ts" (mid_run ["tcp://dec"]) with
  | Val (Err _, s') => calls s' !! 24%nat
  | _ => None
  end = Some (CallCommand receiver0 Arm armed_reply).
Proof. vm_compute. reflexivity. Qed.

Lemma no_half_run_witness :
  exists f s', start_run sample_params 8 "gas" "ts" (mid_run ["tcp://dec"]) = Val (Err f, s') /\
    (plant_state (transport s') "tcp://rx0" = Idle \/
     exists a e, applied receiver0 Reset a = Err e /\ e ∈ rollback_notes f).
Proof.
  pose proof mid_run_armed as Hm.
  destruct (start_run sample_params 8 "gas" "ts" (mid_run ["tcp://dec"])) as [[[rep | f] s'] | |] eqn:E; [discriminate Hm | | discriminate Hm | discriminate Hm].
  exists f, s'. split; [reflexivity |].
  refine (proj1 (no_half_run sample_params (proj1 sample_times) (proj2 sample_times) sample_endpoints) 8 "gas" "ts"
    (mid_run ["tcp://dec"]) f s' E (CallCommand receiver0 Arm armed_reply) receiver0 Arm _ _ _).
  - exact (list_elem_of_lookup_2 _ 24 _ Hm).
  - eexists. split; reflexivity.
  - reflexivity.
Defined.

