(* ===== verification/Logbook.v ===== *)
(** * Logbook: the append-only JSONL logbook

    Models [src/logbook.rs]: the records, the writer that numbers and appends
    them, the recovery of the next number when a file is opened, and the reader.
    The file is its bytes; a write can stop half-way, or the process can die in
    it.  The JSON text of a line is [serde_json]'s: an interface with its laws,
    and [reread_line] what its reader makes of a line.  Sequence numbers are
    unbounded. *)

From Stdlib Require Import Ascii SpecFloat.
From stdpp Require Import gmap pretty strings.
From S2P Require Import Prelude Bytes Utf8 Decimal Text Float Command Controller.
Open Scope list_scope.
Open Scope Z_scope.

(** ** Records *)

Record Geometry : Type := mkGeometry {
  geometry_path : string;
  sha256 : string;
}.

Record CoboListen : Type := mkCoboListen {
  listen_id : Z;
  listen_at : string;
}.

Inductive LogbookRecord : Type :=
| RunStart (actor : string) (run : Z) (config_id : string) (config_ids : option ConfigIds) (geometry : Geometry)
    (cobos : list CoboListen) (operator comment : string) (expected_fragments : list (Z * Z))
    (slow params : option Json)
| RunStop (actor : string) (run : Z) (duration_s : option f64) (ok : bool) (reason : string)
    (forced_eos eos_closed : bool) (counters : Counters) (files : list OutputFile) (slow : option Json)
| Audit (actor action : string) (params : Json) (operator : string) (ok : bool) (error : option string)
| Comment (actor author text : string)
| Slow (actor device : string) (node : option Z) (event : string) (values : Json).

Record LogbookLine : Type := mkLine {
  ts : string;
  seq : Z;
  record : LogbookRecord;
}.

(** What [serde_json] makes of a line; and what a finite [f64] it wrote is read
    back as: near it, without [float_roundtrip], which is not enabled. *)
Class LineJson := {
  line_text : LogbookLine -> result bytes string;
  parse_line : bytes -> result LogbookLine string;
  reread_f64 : f64 -> f64;
}.

(** ** What a line is read back as *)

Section Reread.
Context `{LineJson}.

(** A [Map] is a [BTreeMap]: by key, the last value of a key. *)
Fixpoint insert_field (k : string) (v : Json) (fields : list (string * Json)) : list (string * Json) :=
  match fields with
  | [] => [(k, v)]
  | (k', v') :: fields =>
      match String.compare k k' with
      | Lt => (k, v) :: (k', v') :: fields
      | Eq => (k, v) :: fields
      | Gt => (k', v') :: insert_field k v fields
      end
  end.

Fixpoint reread_json (v : Json) : Json :=
  match v with
  | JFloat x => JFloat (reread_f64 x)
  | JArr l => JArr (map reread_json l)
  | JObj fields =>
      JObj ((fix go fields acc :=
        match fields with
        | [] => acc
        | (k, v) :: fields => go fields (insert_field k (reread_json v) acc)
        end) fields [])
  | v => v
  end.

(** An [Option<Value>]: [null] is [None]. *)
Definition reread_value (v : option Json) : option Json :=
  match reread_json <$> v with
  | Some JNull => None
  | v => v
  end.

(** An [Option<f64>]: what is not finite is written as [null]. *)
Definition reread_seconds (s : option f64) : option f64 :=
  match s with
  | Some s => if is_finite s then Some (reread_f64 s) else None
  | None => None
  end.

Definition reread_record (r : LogbookRecord) : LogbookRecord :=
  match r with
  | RunStart actor run config_id config_ids geometry cobos operator comment expected slow params =>
      RunStart actor run config_id config_ids geometry cobos operator comment expected (reread_value slow) (reread_value params)
  | RunStop actor run duration_s ok reason forced_eos eos_closed counters files slow =>
      RunStop actor run (reread_seconds duration_s) ok reason forced_eos eos_closed counters files (reread_value slow)
  | Audit actor action params operator ok error => Audit actor action (reread_json params) operator ok error
  | Comment actor author text => Comment actor author text
  | Slow actor device node event values => Slow actor device node event (reread_json values)
  end.

Definition reread_line (l : LogbookLine) : LogbookLine := mkLine (ts l) (seq l) (reread_record (record l)).
End Reread.

(** A reader that is not exact can take what is near the largest [f64] for more
    than it: no further than 2 ^ 1000 it cannot. *)
Definition reach : f64 := S754_finite false 4503599627370496 948.

Definition in_reach (x : f64) : bool := negb (is_finite x) || f64_le (f64_abs x) reach.

Fixpoint json_in_reach (v : Json) : bool :=
  match v with
  | JFloat x => in_reach x
  | JArr l => forallb json_in_reach l
  | JObj fields => forallb (fun kv => json_in_reach (snd kv)) fields
  | _ => true
  end.

Definition value_in_reach (v : option Json) : bool := default true (json_in_reach <$> v).

Definition record_in_reach (r : LogbookRecord) : bool :=
  match r with
  | RunStart _ _ _ _ _ _ _ _ _ slow params => value_in_reach slow && value_in_reach params
  | RunStop _ _ duration_s _ _ _ _ _ _ slow => default true (in_reach <$> duration_s) && value_in_reach slow
  | Audit _ _ params _ _ _ => json_in_reach params
  | Comment _ _ _ => true
  | Slow _ _ _ _ values => json_in_reach values
  end.

Inductive LogbookError : Type :=
| Io (path source : string)
| Encode (source : string)
| CorruptLine (path : string) (line_no : Z) (source : string).

(** ** The file *)

(** What [read_to_string] finds. *)
Inductive FileContent : Type :=
| Missing
| Unreadable (e : string)
| Content (bs : bytes).

Definition not_utf8 : string := "stream did not contain valid UTF-8".

(** [read_to_string]; [None] is [NotFound]. *)
Definition read_to_string (f : FileContent) : option (result bytes string) :=
  match f with
  | Missing => None
  | Unreadable e => Some (Err e)
  | Content bs => Some (match from_utf8 bs with Some s => Ok s | None => Err not_utf8 end)
  end.

(** How the write of a line goes: all of it, or [k] bytes and an error, or [k]
    bytes and the process dies. *)
Inductive WriteGoes : Type :=
| Written
| WriteFailed (k : nat) (e : string)
| WriteDies (k : nat).

Section Logbook.
Context `{LineJson}.
Variable path : string.

(** ** The writer *)

(** From the last line up: the number after the first that can be read, and how
    many could not. *)
Fixpoint recover_loop (rev_lines : list bytes) (skipped : Z) : Z * Z :=
  match rev_lines with
  | [] => (1, skipped)
  | line :: rev_lines =>
      match parse_line line with
      | Ok parsed => (seq parsed + 1, skipped)
      | Err _ => recover_loop rev_lines (skipped + 1)
      end
  end.

Definition recover_next_seq_with_skip (f : FileContent) : result (Z * Z) LogbookError :=
  match read_to_string f with
  | None => Ok (1, 0)
  | Some (Err e) => Err (Io path e)
  | Some (Ok content) => Ok (recover_loop (rev (lines content)) 0)
  end.

(** The warning about more than one unreadable line is only a log line. *)
Definition recover_next_seq (f : FileContent) : result Z LogbookError :=
  let? (next_seq, _) := recover_next_seq_with_skip f in Ok next_seq.

Record LogbookWriter : Type := mkWriter { next_seq : Z }.

(** [open]; [opened] is how the append open goes. *)
Definition open (opened : result unit string) (f : FileContent) : result LogbookWriter LogbookError :=
  let? next_seq := recover_next_seq f in
  match opened with
  | Ok _ => Ok (mkWriter next_seq)
  | Err e => Err (Io path e)
  end.

(** [append]: the answer ([None] if the process died), the writer, the file. *)
Definition append (goes : WriteGoes) (now : string) (r : LogbookRecord) (w : LogbookWriter) (file : bytes)
    : option (result Z LogbookError) * LogbookWriter * bytes :=
  match line_text (mkLine now (next_seq w) r) with
  | Err e => (Some (Err (Encode e)), w, file)
  | Ok json =>
      let json := json ++ [10] in
      match goes with
      | WriteFailed k e => (Some (Err (Io path e)), w, file ++ take k json)
      | WriteDies k => (None, w, file ++ take k json)
      | Written => (Some (Ok (next_seq w)), mkWriter (next_seq w + 1), file ++ json)
      end
  end.

(** ** The reader *)

Record ReadResult : Type := mkRead {
  records : list LogbookLine;
  tail_corrupt : bool;
}.

Fixpoint read_lines (since_seq : Z) (idx : Z) (ls : list bytes) (acc : list LogbookLine)
    : result ReadResult LogbookError :=
  match ls with
  | [] => Ok (mkRead acc false)
  | line :: ls =>
      match parse_line line with
      | Ok parsed =>
          read_lines since_seq (idx + 1) ls (if since_seq <? seq parsed then acc ++ [parsed] else acc)
      | Err source =>
          match ls with
          | [] => Ok (mkRead acc true)
          | _ => Err (CorruptLine path (idx + 1) source)
          end
      end
  end.

Definition read_since (f : FileContent) (since_seq : Z) : result ReadResult LogbookError :=
  match read_to_string f with
  | None => Ok (mkRead [] false)
  | Some (Err e) => Err (Io path e)
  | Some (Ok content) => read_lines since_seq 0 (lines content) []
  end.

(** Records appended one after another, all writes working. *)
Fixpoint append_all (rs : list (string * LogbookRecord)) (w : LogbookWriter) (file : bytes)
    : list (option (result Z LogbookError)) * LogbookWriter * bytes :=
  match rs with
  | [] => ([], w, file)
  | (now, r) :: rs =>
      let '(answer, w, file) := append Written now r w file in
      let '(answers, w, file) := append_all rs w file in
      (answer :: answers, w, file)
  end.
End Logbook.

(** ** Laws of the JSON of a line *)

(** The text [t] of a line [l] whose numbers are in reach. *)
Definition is_text `{LineJson} (l : LogbookLine) (t : bytes) : Prop :=
  line_text l = Ok t /\ record_in_reach (record l) = true.

(** What is written is one line of UTF-8 that is read back, as [reread_line]; an
    object that stops short is not an object, nor is it with another object
    behind it. *)
Class LineJsonLaws `{LineJson} : Prop := {
  law_read : forall l text, is_text l text -> parse_line text = Ok (reread_line l);
  law_line : forall l text, is_text l text -> text <> [] /\ 10 ∉ text /\ list.last text <> Some 13;
  law_utf8 : forall l text, is_text l text -> utf8_valid text = true;
  law_torn : forall l text k, is_text l text -> (0 < k < length text)%nat ->
    exists e, parse_line (take k text) = Err e;
  law_buried : forall l text k l' text', is_text l text -> (0 < k < length text)%nat -> is_text l' text' ->
    exists e, parse_line (take k text ++ text') = Err e;
}.

(** The file of [ls]: a line each. *)
Definition file_of `{LineJson} (ls : list LogbookLine) (file : bytes) : Prop :=
  exists texts, Forall2 is_text ls texts /\ file = concat (map (fun t => t ++ [10]) texts).

(** What a reader makes of [ls] who asks for the lines after [since]. *)
Definition reread_since `{LineJson} (since : Z) (ls : list LogbookLine) : list LogbookLine :=
  map reread_line (List.filter (fun l => since <? seq l) ls).

Section Lemmas.
Context `{LineJsonLaws} (path : string).

Lemma lines_file ls texts rest : Forall2 is_text ls texts -> 10 ∉ rest ->
  lines (concat (map (fun t => t ++ [10]) texts) ++ rest) = texts ++ match rest with [] => [] | _ => [rest] end.
Proof.
  intros Hls Hr. unfold lines. induction Hls as [| l t ls texts Hl _ IH].
  - cbn [map concat app]. by rewrite lines_loop_rest.
  - cbn [map concat]. destruct (law_line l t Hl) as (_ & H10 & H13). rewrite <- !app_assoc. cbn [app].
    rewrite lines_loop_line, IH, strip_cr_text by done. done.
Qed.

Lemma utf8_file ls texts : Forall2 is_text ls texts ->
  utf8_valid (concat (map (fun t => t ++ [10]) texts)) = true.
Proof.
  induction 1 as [| l t ls texts Hl _ IH]; [done |]. cbn [map concat].
  rewrite <- app_assoc, utf8_app by (by eapply law_utf8). by rewrite (utf8_app [10]).
Qed.

Lemma read_lines_texts since ls texts idx acc tail :
  Forall2 is_text ls texts ->
  read_lines path since idx (texts ++ tail) acc =
    read_lines path since (idx + len ls) tail (acc ++ reread_since since ls).
Proof.
  intros Hls. revert idx acc. induction Hls as [| l t ls texts Hl _ IH]; intros idx acc.
  - unfold reread_since. cbn [app List.filter map]. by rewrite app_nil_r, len_nil, Z.add_0_r.
  - unfold reread_since. cbn [app read_lines List.filter]. rewrite (law_read l t Hl), IH, len_cons. cbn [reread_line seq].
    f_equal; [lia |]. destruct (since <? seq l); [cbn [map]; by rewrite <- app_assoc | done].
Qed.

(** The number after the last line. *)
Definition following (ls : list LogbookLine) : Z :=
  match list.last ls with
  | Some l => seq l + 1
  | None => 1
  end.

Lemma recover_texts ls texts skipped : Forall2 is_text ls texts ->
  recover_loop (rev texts) skipped = (following ls, skipped).
Proof.
  intros Hls. destruct (decide (ls = [])) as [-> | Hne]; [by inversion Hls |].
  destruct ls as [| l ls _] using rev_ind; [done |]. apply Forall2_app_inv_l in Hls as (texts' & t' & _ & Ht & ->).
  inversion Ht as [| ? t ? ? Hl Ht']; subst. inversion Ht'; subst. rewrite rev_app_distr. cbn [rev app recover_loop].
  rewrite (law_read l t Hl). unfold following. by rewrite last_snoc.
Qed.

(** An intact file. *)
Lemma read_intact ls file since : file_of ls file ->
  read_since path (Content file) since = Ok (mkRead (reread_since since ls) false) /\
  recover_next_seq_with_skip path (Content file) = Ok (following ls, 0).
Proof.
  intros (texts & Hls & ->). unfold read_since, recover_next_seq_with_skip. cbn [read_to_string]. unfold from_utf8.
  rewrite (utf8_file ls texts Hls). pose proof (lines_file ls texts [] Hls (not_elem_of_nil _)) as E.
  rewrite !app_nil_r in E. rewrite E. split; [| by rewrite (recover_texts ls)].
  pose proof (read_lines_texts since ls texts 0 [] [] Hls) as R. by rewrite app_nil_r in R.
Qed.

Lemma file_of_app ls ls' file file' : file_of ls file -> file_of ls' file' -> file_of (ls ++ ls') (file ++ file').
Proof.
  intros (texts & Hls & ->) (texts' & Hls' & ->). exists (texts ++ texts'). split; [by apply Forall2_app |].
  by rewrite map_app, concat_app.
Qed.

Lemma file_of_line l t : is_text l t -> file_of [l] (t ++ [10]).
Proof. intros Hl. exists [t]. split; [by apply Forall2_cons |]. cbn. by rewrite app_nil_r. Qed.

(** The lines [append_all] writes. *)
Fixpoint numbered (n : Z) (rs : list (string * LogbookRecord)) : list LogbookLine :=
  match rs with
  | [] => []
  | (now, r) :: rs => mkLine now n r :: numbered (n + 1) rs
  end.

Lemma append_all_file rs : forall w file ls,
  file_of ls file -> Forall (fun l => exists t, is_text l t) (numbered (next_seq w) rs) ->
  exists file', append_all path rs w file =
      (map (fun l => Some (Ok (seq l))) (numbered (next_seq w) rs), mkWriter (next_seq w + len rs), file') /\
    file_of (ls ++ numbered (next_seq w) rs) file'.
Proof.
  induction rs as [| [now r] rs IH]; intros w file ls Hf Hrs; cbn [append_all numbered map].
  - exists file. rewrite len_nil, Z.add_0_r, app_nil_r. split; [by destruct w | done].
  - cbn [numbered] in Hrs. apply List.Forall_cons_iff in Hrs as [[t Ht] Hrs]. unfold append. rewrite (proj1 Ht).
    destruct (IH (mkWriter (next_seq w + 1)) (file ++ t ++ [10]) (ls ++ [mkLine now (next_seq w) r])) as (file' & E & Hf').
    + apply file_of_app; [done | by apply file_of_line].
    + exact Hrs.
    + rewrite E. exists file'. cbn [next_seq]. rewrite <- app_assoc in Hf'. split; [| exact Hf'].
      cbn [seq]. rewrite len_cons. do 2 f_equal. f_equal. lia.
Qed.
End Lemmas.

Section Crash.
Context `{LineJsonLaws} (path : string).

(** C34: Records appended to a new logbook are answered 1, 2, 3, ... and are all
    read back, in order, by a reader that asks for those after any number: times,
    numbers and texts as they were written, floats as the JSON reader takes them,
    an absent value for a [null] one, and the fields of free JSON by key.  A
    logbook opened again goes on with the next number. *)
Theorem logbook_appends (rs : list (string * LogbookRecord)) (since : Z)
    (Hrs : Forall (fun l => exists t, is_text l t) (numbered 1 rs)) :
  exists w file, open path (Ok tt) Missing = Ok (mkWriter 1) /\
    append_all path rs (mkWriter 1) [] = (map (fun l => Some (Ok (seq l))) (numbered 1 rs), w, file) /\
    read_since path (Content file) since = Ok (mkRead (reread_since since (numbered 1 rs)) false) /\
    open path (Ok tt) (Content file) = Ok (mkWriter (1 + len rs)).
Proof.
  destruct (append_all_file path rs (mkWriter 1) [] []) as (file & E & Hf); [by exists [] | exact Hrs |].
  destruct (read_intact path _ _ since Hf) as [Hr Hn]. eexists _, file. split; [done |]. split; [exact E |].
  split; [exact Hr |]. unfold open, recover_next_seq. cbn [app] in Hn. rewrite Hn. cbn [result_bind]. do 2 f_equal.
  cbn [next_seq]. clear. unfold following. assert (Hl : forall n rs, match list.last (numbered n rs) with Some l => seq l + 1 | None => n end = n + len rs).
  { intros n rs'. revert n. induction rs' as [| [now r] rs' IH]; intros n; [cbn; rewrite len_nil; lia |].
    cbn [numbered]. specialize (IH (n + 1)). rewrite len_cons. destruct rs' as [| [now' r'] rs']; [rewrite len_nil; cbn; lia |].
    cbn [numbered] in *. rewrite last_cons_cons. rewrite len_cons in *. pose proof (len_nonneg rs').
    destruct (list.last _); lia. }
  exact (Hl 1 rs).
Qed.

Lemma torn_cases l t k : is_text l t ->
  (take k (t ++ [10]) = [] \/
   (0 < k < length t)%nat /\ take k (t ++ [10]) = take k t) \/
  (take k (t ++ [10]) = t \/ take k (t ++ [10]) = t ++ [10]).
Proof.
  intros Hl. destruct (law_line l t Hl) as (Hne & _). destruct (decide (k = 0)%nat) as [-> |]; [by left; left |].
  destruct (decide (k < length t)%nat); [left; right; split; [lia |]; by apply take_app_le; lia |].
  right. destruct (decide (k = length t)) as [-> |]; [left; by apply take_app_length |].
  right. apply take_ge. rewrite length_app. cbn. lia.
Qed.

Lemma utf8_line l t : is_text l t -> utf8_valid (t ++ [10]) = true.
Proof. intros Hl. by rewrite (utf8_app t) by (by eapply law_utf8). Qed.

Lemma file_of_utf8 ls file rest : file_of ls file -> utf8_valid (file ++ rest) = utf8_valid rest.
Proof. intros (texts & Hls & ->). apply utf8_app. by eapply utf8_file. Qed.

Lemma lines_torn ls texts t k : Forall2 is_text ls texts ->
  (exists l, is_text l t) -> (0 < k < length t)%nat ->
  lines (concat (map (fun t => t ++ [10]) texts) ++ take k t) = texts ++ [take k t].
Proof.
  intros Hls (l & Hl) Hk. rewrite (lines_file ls) by (done || intros Hin; apply elem_of_take in Hin as (i & Hi & _);
    destruct (law_line l t Hl) as (_ & H10 & _); apply H10; by eapply list_elem_of_lookup_2).
  destruct t as [| b t]; [cbn in Hk; lia |]. by destruct k; [lia |].
Qed.

(** A crash in the middle of an append loses at most the line being written,
    if it cut between two characters: every earlier record is read, the reader
    says that the end is damaged, and the next number is the one that was being
    written (or the following one, if the whole line was there).  If it cut a
    character in two, the file is no longer text: nothing at all can be read,
    and the logbook cannot be opened again. *)
Theorem logbook_after_crash (ls : list LogbookLine) (file : bytes) (now : string) (r : LogbookRecord) (t : bytes)
    (k : nat) (since : Z)
    (Hfile : file_of ls file) (Htext : is_text (mkLine now (following ls) r) t) :
  let line := mkLine now (following ls) r in
  let file' := snd (append path (WriteDies k) now r (mkWriter (following ls)) file) in
  let whole := (length t <=? k)%nat in
  let ls' := if whole then ls ++ [line] else ls in
  if utf8_valid (take k (t ++ [10])) then
    read_since path (Content file') since =
      Ok (mkRead (reread_since since ls') (negb whole && (0 <? k)%nat)) /\
    open path (Ok tt) (Content file') = Ok (mkWriter (following ls'))
  else
    read_since path (Content file') since = Err (Io path not_utf8) /\
    open path (Ok tt) (Content file') = Err (Io path not_utf8).
Proof.
  cbv zeta. unfold append. cbn [next_seq]. rewrite (proj1 Htext). cbn [snd].
  destruct (utf8_valid (take k (t ++ [10]))) eqn:Hu.
  2: { unfold read_since, open, recover_next_seq, recover_next_seq_with_skip, read_to_string, from_utf8.
       by rewrite (file_of_utf8 ls) , Hu by done. }
  assert (Hopen : forall n f skipped, recover_next_seq_with_skip path f = Ok (n, skipped) -> open path (Ok tt) f = Ok (mkWriter n)).
  { intros n f skipped E. unfold open, recover_next_seq. by rewrite E. }
  pose proof (law_line _ _ Htext) as (Hne & H10 & H13).
  destruct (Nat.leb_spec (length t) k) as [Hk | Hk].
  - assert (Hf : file_of (ls ++ [mkLine now (following ls) r]) (file ++ t ++ [10])) by (apply file_of_app; [done | by apply file_of_line]).
    destruct (decide (k = length t)) as [-> |].
    + rewrite take_app_length. destruct Hfile as (texts & Hls & ->). unfold read_since.
      assert (E : read_to_string (Content (concat (map (fun t => t ++ [10]) texts) ++ t)) = Some (Ok (concat (map (fun t => t ++ [10]) texts) ++ t))).
      { unfold read_to_string, from_utf8. rewrite (utf8_app _ t) by (by eapply utf8_file). by rewrite (law_utf8 _ _ Htext). }
      assert (El : lines (concat (map (fun t => t ++ [10]) texts) ++ t) = texts ++ [t]).
      { rewrite (lines_file ls) by done. by destruct t. }
      assert (Hall : Forall2 is_text (ls ++ [mkLine now (following ls) r]) (texts ++ [t]))
        by (apply Forall2_app; [done | by apply Forall2_cons]).
      rewrite E, El. split.
      * rewrite <- (app_nil_r (texts ++ [t])), (read_lines_texts path since (ls ++ [mkLine now (following ls) r])) by done.
        reflexivity.
      * eapply Hopen. unfold recover_next_seq_with_skip. by rewrite E, El, (recover_texts (ls ++ [mkLine now (following ls) r])).
    + rewrite take_ge by (rewrite length_app; cbn; lia). destruct (read_intact path _ _ since Hf) as [Hr Hn].
      split; [exact Hr | by eapply Hopen].
  - rewrite take_app_le in * by lia. destruct (decide (k = 0)%nat) as [-> |].
    + rewrite take_0, app_nil_r. destruct (read_intact path _ _ since Hfile) as [Hr Hn]. split; [exact Hr | by eapply Hopen].
    + destruct Hfile as (texts & Hls & ->). assert (Hk' : (0 < k < length t)%nat) by lia.
      assert (E : read_to_string (Content (concat (map (fun t => t ++ [10]) texts) ++ take k t)) = Some (Ok (concat (map (fun t => t ++ [10]) texts) ++ take k t))).
      { unfold read_to_string, from_utf8. rewrite (utf8_app _ (take k t)) by (by eapply utf8_file). by rewrite Hu. }
      assert (El := lines_torn ls texts t k Hls (ex_intro (fun l => is_text l t) _ Htext) Hk').
      destruct (law_torn _ _ k Htext Hk') as [e Ee]. unfold read_since. rewrite E, El. split.
      * rewrite (read_lines_texts path since ls) by done. cbn [read_lines app]. rewrite Ee.
        destruct (Nat.ltb_spec 0 k); [done | lia].
      * eapply Hopen. unfold recover_next_seq_with_skip. rewrite E, El, rev_app_distr. cbn [rev app recover_loop].
        rewrite Ee, (recover_texts ls) by done. reflexivity.
Qed.

(** After such a crash the next append says [Ok], but its record joins the torn
    line and is never read; the one after makes the whole logbook unreadable. *)
Lemma crash_buries_next_record ls file now r t k now1 r1 t1 now2 r2 t2 since :
  file_of ls file -> is_text (mkLine now (following ls) r) t -> (0 < k < length t)%nat -> utf8_valid (take k t) = true ->
  is_text (mkLine now1 (following ls) r1) t1 -> is_text (mkLine now2 (following ls + 1) r2) t2 ->
  let file1 := file ++ take k t in
  let w := mkWriter (following ls) in
  let '(a1, w1, file2) := append path Written now1 r1 w file1 in
  let '(a2, _, file3) := append path Written now2 r2 w1 file2 in
  open path (Ok tt) (Content file1) = Ok w /\
  a1 = Some (Ok (following ls)) /\ a2 = Some (Ok (following ls + 1)) /\
  read_since path (Content file2) since = Ok (mkRead (reread_since since ls) true) /\
  exists e, read_since path (Content file3) since = Err (CorruptLine path (len ls + 1) e).
Proof.
  intros Hfile Ht Hk Hu Ht1 Ht2. cbv zeta. unfold append. cbn [next_seq]. rewrite (proj1 Ht1). cbn [next_seq]. rewrite (proj1 Ht2).
  destruct (law_line _ _ Ht) as (_ & H10 & _). destruct (law_line _ _ Ht1) as (Hne1 & H101 & H131).
  destruct (law_buried _ _ k _ _ Ht Hk Ht1) as [e Ee]. destruct (law_torn _ _ k Ht Hk) as [e' Ee'].
  assert (Hfile0 := Hfile). destruct Hfile as (texts & Hls & Efile).
  assert (H10' : 10 ∉ take k t).
  { intros Hin. apply H10. apply elem_of_take in Hin as (i & Hi & _). by eapply list_elem_of_lookup_2. }
  assert (Hjoin : 10 ∉ take k t ++ t1) by (intros [Hin | Hin]%elem_of_app; auto).
  assert (Hcr : strip_cr (take k t ++ t1) = take k t ++ t1).
  { apply strip_cr_text. destruct t1 as [| x t1' _] using rev_ind; [done |]. rewrite app_assoc, last_snoc.
    rewrite last_snoc in H131. exact H131. }
  assert (E2 : forall rest, lines ((((file ++ take k t) ++ t1 ++ [10])) ++ rest) = texts ++ (take k t ++ t1) :: lines rest).
  { intros rest. rewrite Efile, <- !app_assoc. cbn [app].
    clear -Hls Hjoin Hcr H10 H H0. unfold lines at 1. induction Hls as [| l u ls texts Hl _ IH].
    - cbn [map concat app]. rewrite app_assoc, lines_loop_line by done. rewrite app_nil_l. by rewrite Hcr.
    - cbn [map concat]. destruct (law_line l u Hl) as (_ & Hu10 & Hu13). rewrite <- !app_assoc. cbn [app].
      rewrite lines_loop_line, IH, strip_cr_text by done. done. }
  assert (Hu2 : forall rest, utf8_valid rest = true -> utf8_valid (((file ++ take k t) ++ t1 ++ [10]) ++ rest) = true).
  { intros rest Hr. rewrite <- !app_assoc, (file_of_utf8 ls), utf8_app by done. rewrite (utf8_app t1) by (by eapply law_utf8).
    by rewrite (utf8_app [10]). }
  split; [| split; [done |]; split; [done |]; split].
  - unfold open, recover_next_seq, recover_next_seq_with_skip, read_to_string, from_utf8.
    rewrite (file_of_utf8 ls), Hu by done. rewrite Efile, (lines_torn ls) by eauto. rewrite rev_app_distr.
    cbn [rev app recover_loop]. by rewrite Ee', (recover_texts ls).
  - unfold read_since, read_to_string, from_utf8. pose proof (Hu2 [] eq_refl) as Hv. rewrite app_nil_r in Hv. rewrite Hv.
    pose proof (E2 []) as El. rewrite app_nil_r in El. rewrite El.
    rewrite (read_lines_texts path since ls) by done. cbn [lines lines_loop read_lines app]. by rewrite Ee.
  - exists e. unfold read_since, read_to_string, from_utf8. rewrite Hu2 by (by eapply utf8_line). rewrite E2.
    rewrite (read_lines_texts path since ls) by done. cbn [read_lines]. rewrite Ee.
    destruct (law_line _ _ Ht2) as (_ & H102 & _). unfold lines. rewrite lines_loop_line by done. by rewrite Z.add_0_l.
Qed.
End Crash.
(** ** A codec to run it on *)

(** Empty comments and tenths of nothing, their number in unary after a character
    of two bytes that tells them apart; a tenth is read back one step too large. *)
Definition tenth : f64 := S754_finite false 7205759403792794 (-56).
Definition next_tenth : f64 := S754_finite false 7205759403792795 (-56).

Definition empty_comment : LogbookRecord := Comment EmptyString EmptyString EmptyString.
Definition value_of (x : f64) : LogbookRecord := Slow EmptyString EmptyString None EmptyString (JFloat x).

Fixpoint read_ones (s : bytes) : option nat :=
  match s with
  | [125] => Some O
  | 49 :: s => S <$> read_ones s
  | _ => None
  end.

Definition mark (r : LogbookRecord) : option Z :=
  match r with
  | Comment EmptyString EmptyString EmptyString => Some 169
  | Slow EmptyString EmptyString None EmptyString (JFloat x) => if decide (x = tenth) then Some 170 else None
  | _ => None
  end.

Definition unary_text (l : LogbookLine) : result bytes string :=
  match ts l, mark (record l) with
  | EmptyString, Some b =>
      if 0 <=? seq l then Ok ([123; 195; b] ++ repeat 49 (Z.to_nat (seq l)) ++ [125]) else Err "negative"
  | _, _ => Err "another record"
  end.

Definition unary_line (r : LogbookRecord) (s : bytes) : result LogbookLine string :=
  match read_ones s with
  | Some n => Ok (mkLine EmptyString (Z.of_nat n) r)
  | None => Err "torn"
  end.

Definition unary_parse (s : bytes) : result LogbookLine string :=
  match s with
  | 123 :: 195 :: 169 :: s => unary_line empty_comment s
  | 123 :: 195 :: 170 :: s => unary_line (value_of next_tenth) s
  | _ => Err "torn"
  end.

#[local] Instance unary_codec : LineJson := {
  line_text := unary_text;
  parse_line := unary_parse;
  reread_f64 x := if decide (x = tenth) then next_tenth else x;
}.

Lemma unary_cases l t : is_text l t ->
  exists n r b, l = mkLine EmptyString (Z.of_nat n) r /\ t = [123; 195; b] ++ repeat 49 n ++ [125] /\
    (r = empty_comment /\ b = 169 \/ r = value_of tenth /\ b = 170).
Proof.
  intros [Ht _]. cbn [line_text unary_codec] in Ht. unfold unary_text in Ht. destruct l as [[|] n r]; cbn [ts record seq] in Ht; [| done].
  destruct (mark r) as [b |] eqn:Hb; [| done]. destruct (Z.leb_spec 0 n); [| done]. injection Ht as <-.
  exists (Z.to_nat n), r, b. rewrite Z2Nat.id by lia. split; [done |]. split; [done |].
  destruct r as [| | | [|] [|] [|] | [|] [|] [] [|] []]; try done.
  - injection Hb as <-. by left.
  - cbn [mark] in Hb. destruct (decide _) as [-> |]; [| done]. injection Hb as <-. by right.
Qed.

Lemma read_ones_app n s : read_ones (repeat 49 n ++ s) = Nat.add n <$> read_ones s.
Proof.
  induction n as [| n IH]; [cbn [repeat app]; by destruct (read_ones s) |].
  change (read_ones (repeat 49 (S n) ++ s)) with (S <$> read_ones (repeat 49 n ++ s)). rewrite IH. by destruct (read_ones s).
Qed.

Lemma take_unary b k n : (3 <= k)%nat -> (k < length ([123; 195; b] ++ repeat 49 n ++ [125])%Z)%nat ->
  take k ([123; 195; b] ++ repeat 49 n ++ [125]) = [123; 195; b] ++ repeat 49 (k - 3).
Proof.
  rewrite !length_app, repeat_length. cbn [length]. intros Hk3 Hk.
  replace k with (3 + (k - 3))%nat at 1 by lia. cbn [take app Nat.add]. do 3 f_equal.
  rewrite take_app_le by (rewrite repeat_length; lia). assert (Hj : (k - 3 <= n)%nat) by lia. revert Hj.
  generalize (k - 3)%nat as j. clear. intros j. revert n. induction j as [| j IH]; intros [| n] Hj; try lia; try done.
  cbn. f_equal. apply IH. lia.
Qed.

Lemma ones_ascii n : Forall (fun b => 0 <= b < 128) (repeat 49 n ++ [125]).
Proof. apply Forall_app. split; [| by repeat constructor; lia]. induction n; [constructor | constructor; [lia | done]]. Qed.

Lemma unary_parse_line b s : b = 169 \/ b = 170 ->
  unary_parse ([123; 195; b] ++ s) = unary_line (if decide (b = 169) then empty_comment else value_of next_tenth) s.
Proof. by intros [-> | ->]. Qed.

Lemma unary_torn b k n rest : b = 169 \/ b = 170 -> (0 < k < length ([123; 195; b] ++ repeat 49 n ++ [125])%Z)%nat ->
  (rest = [] \/ exists rest', rest = 123 :: rest') ->
  exists e, unary_parse (take k ([123; 195; b] ++ repeat 49 n ++ [125]) ++ rest) = Err e.
Proof.
  intros Hb Hk Hrest. destruct k as [| [| [| k]]]; [lia | by destruct Hrest as [-> | [rest' ->]]; eexists | |].
  { by destruct Hrest as [-> | [rest' ->]]; eexists. }
  rewrite (take_unary b (S (S (S k))) n), <- app_assoc by (lia || exact (proj2 Hk)). rewrite unary_parse_line by done.
  unfold unary_line. rewrite read_ones_app. by destruct Hrest as [-> | [rest' ->]]; eexists.
Qed.

#[local] Instance unary_laws : LineJsonLaws.
Proof.
  split; cbn [parse_line unary_codec].
  - intros l t (n & r & b & -> & -> & Hr)%unary_cases. rewrite unary_parse_line by (destruct Hr as [[_ ?] | [_ ?]]; auto).
    unfold unary_line. rewrite read_ones_app. cbn [read_ones fmap option_fmap option_map]. rewrite Nat.add_0_r.
    by destruct Hr as [[-> ->] | [-> ->]].
  - intros l t (n & r & b & -> & -> & Hr)%unary_cases. split; [done |]. split.
    + intros Hin. cbn [app] in Hin. do 2 (apply elem_of_cons in Hin as [Hin | Hin]; [done |]).
      apply elem_of_cons in Hin as [Hin | Hin]; [by destruct Hr as [[_ ->] | [_ ->]] |].
      pose proof (ones_ascii n) as Ha. apply elem_of_app in Hin as [Hin | Hin].
      * apply list_elem_of_In, repeat_spec in Hin. done.
      * by apply list_elem_of_singleton in Hin.
    + rewrite !app_assoc, last_snoc. done.
  - intros l t (n & r & b & -> & -> & Hr)%unary_cases. rewrite (utf8_app [123; 195; b]) by (by destruct Hr as [[_ ->] | [_ ->]]).
    unfold utf8_valid. by apply utf8_ascii; [| apply ones_ascii].
  - intros l t k (n & r & b & -> & -> & Hr)%unary_cases Hk. destruct (unary_torn b k n []) as [e He];
      [by destruct Hr as [[_ ?] | [_ ?]]; auto | done | by left |]. exists e. by rewrite app_nil_r in He.
  - intros l t k l' t' (n & r & b & -> & -> & Hr)%unary_cases Hk (n' & r' & b' & -> & -> & _)%unary_cases.
    apply unary_torn; [by destruct Hr as [[_ ?] | [_ ?]]; auto | done | right; by eexists].
Qed.

(** A comment, and a tenth that comes back one step larger. *)
Definition two_records : list (string * LogbookRecord) := [(EmptyString, empty_comment); (EmptyString, value_of tenth)].

Lemma logbook_appends_witness :
  exists w file, open "log" (Ok tt) Missing = Ok (mkWriter 1) /\
    append_all "log" two_records (mkWriter 1) [] = ([Some (Ok 1); Some (Ok 2)], w, file) /\
    read_since "log" (Content file) 1 = Ok (mkRead [mkLine EmptyString 2 (value_of next_tenth)] false) /\
    open "log" (Ok tt) (Content file) = Ok (mkWriter 3).
Proof.
  destruct (logbook_appends "log" two_records 1) as (w & file & Ho & Ha & Hr & Hn).
  - apply List.Forall_cons; [by eexists |]. apply List.Forall_cons; [by eexists |]. constructor.
  - exists w, file. split; [exact Ho |]. split; [exact Ha |]. split; [| exact Hn]. rewrite Hr. reflexivity.
Defined.

(** The second line is cut inside its two-byte character. *)
Lemma logbook_after_crash_witness :
  exists file, file_of [mkLine EmptyString 1 empty_comment] file /\
    open "log" (Ok tt) (Content (snd (append "log" (WriteDies 2) EmptyString empty_comment (mkWriter 2) file))) =
      Err (Io "log" not_utf8).
Proof.
  exists [123; 195; 169; 49; 125; 10].
  assert (Hf : file_of [mkLine EmptyString 1 empty_comment] [123; 195; 169; 49; 125; 10]).
  { exists [[123; 195; 169; 49; 125]]. split; [by apply Forall2_cons | done]. }
  split; [exact Hf |].
  refine (proj2 (logbook_after_crash "log" [mkLine EmptyString 1 empty_comment] _ EmptyString empty_comment
    [123; 195; 169; 49; 49; 125] 2 0 Hf _)).
  done.
Defined.
