(* ===== verification/EccCore.v ===== *)
(** * EccCore: the part of the ECC bridge that knows neither Ice nor ZeroMQ

    Models [src/ecc/core.rs]: the states and the error flag of the ECC with their
    names, the XML of a DataLinkSet and its reader, the reading of a request and
    the text of a response, and the table of transitions of the ECC.  Text is
    the string of its UTF-8 bytes: the characters these functions look for are
    ASCII, so going byte by byte is going character by character, and every
    position they cut at is a character boundary. *)

From Stdlib Require Import Ascii.
From stdpp Require Import pretty strings.
From S2P Require Import Prelude Bytes Decimal Text Float Command Controller.
Open Scope list_scope.
Open Scope Z_scope.

(** ** States and error flag *)

Inductive State : Type :=
| Off | Idle | Described | Prepared | Ready | Running | Paused | Unknown.

Inductive Error : Type :=
| NoErr | WhenDescribe | WhenPrepare | WhenConfigure | WhenStart | WhenStop
| WhenPause | WhenResume | WhenBreakup | WhenReset | ErrorUnknown.

#[export] Instance State_eq_dec : EqDecision State.
Proof. solve_decision. Defined.
#[export] Instance Error_eq_dec : EqDecision Error.
Proof. solve_decision. Defined.

Definition state_as_str (s : State) : string :=
  match s with
  | Off => "Off" | Idle => "Idle" | Described => "Described" | Prepared => "Prepared"
  | Ready => "Ready" | Running => "Running" | Paused => "Paused" | Unknown => "Unknown"
  end.

Definition state_from_name (name : string) : State :=
  if bool_decide (name = "Off") then Off
  else if bool_decide (name = "Idle") then Idle
  else if bool_decide (name = "Described") then Described
  else if bool_decide (name = "Prepared") then Prepared
  else if bool_decide (name = "Ready") then Ready
  else if bool_decide (name = "Running") then Running
  else if bool_decide (name = "Paused") then Paused
  else Unknown.

Definition error_as_str (e : Error) : string :=
  match e with
  | NoErr => "NO_ERR" | WhenDescribe => "WHEN_DESCRIBE" | WhenPrepare => "WHEN_PREPARE"
  | WhenConfigure => "WHEN_CONFIGURE" | WhenStart => "WHEN_START" | WhenStop => "WHEN_STOP"
  | WhenPause => "WHEN_PAUSE" | WhenResume => "WHEN_RESUME" | WhenBreakup => "WHEN_BREAKUP"
  | WhenReset => "WHEN_RESET" | ErrorUnknown => "Unknown"
  end.

(** ** The DataLinkSet *)

Record Link : Type := mkLink {
  sender : string;
  router_ip : string;
  router_port : Z;
  flow_type : string;
}.

Definition link_new (sender router_ip : string) (router_port : Z) : Link :=
  mkLink sender router_ip router_port "TCP".

Definition QUOTE : ascii := "034"%char.
Definition quote : string := String QUOTE EmptyString.

Definition escape_char (c : ascii) : string :=
  if (c =? "&")%char then "&amp;"
  else if (c =? "<")%char then "&lt;"
  else if (c =? ">")%char then "&gt;"
  else if (c =? QUOTE)%char then "&quot;"
  else String c EmptyString.

Fixpoint xml_escape (s : string) : string :=
  match s with
  | EmptyString => EmptyString
  | String c s => escape_char c +:+ xml_escape s
  end.

Definition ENTITIES : list (string * ascii) :=
  [("&quot;", QUOTE); ("&apos;", "'"%char); ("&lt;", "<"%char); ("&gt;", ">"%char); ("&amp;", "&"%char)].

Fixpoint str_drop (n : nat) (s : string) : string :=
  match n, s with
  | O, s => s
  | S n, String _ s => str_drop n s
  | S _, EmptyString => EmptyString
  end.

Fixpoint str_take (n : nat) (s : string) : string :=
  match n, s with
  | S n, String c s => String c (str_take n s)
  | _, _ => EmptyString
  end.

(** The first entity that [rest] starts with. *)
Fixpoint match_entity (entities : list (string * ascii)) (rest : string) : option (ascii * string) :=
  match entities with
  | [] => None
  | (entity, ch) :: entities =>
      if String.prefix entity rest then Some (ch, str_drop (String.length entity) rest)
      else match_entity entities rest
  end.

(** Each turn takes a character at least. *)
Fixpoint unescape_loop (fuel : nat) (rest : string) : string :=
  match fuel, rest with
  | S fuel, String c tail =>
      match (if (c =? "&")%char then match_entity ENTITIES rest else None) with
      | Some (ch, rest) => String ch (unescape_loop fuel rest)
      | None => String c (unescape_loop fuel tail)
      end
  | _, _ => EmptyString
  end.

Definition xml_unescape (s : string) : string := unescape_loop (String.length s) s.

Definition link_xml (l : Link) : string :=
  "<DataLink><DataSender id=" +:+ quote +:+ xml_escape (sender l) +:+ quote +:+
  "/><DataRouter ipAddress=" +:+ quote +:+ xml_escape (router_ip l) +:+ quote +:+
  " port=" +:+ quote +:+ dec (router_port l) +:+ quote +:+
  " type=" +:+ quote +:+ xml_escape (flow_type l) +:+ quote +:+ "/></DataLink>".

Fixpoint links_xml (links : list Link) : string :=
  match links with
  | [] => EmptyString
  | l :: links => link_xml l +:+ links_xml links
  end.

Definition data_link_set_xml (links : list Link) : string :=
  "<DataLinkSet>" +:+ links_xml links +:+ "</DataLinkSet>".

(** *** Reading it back *)

(** [str::find]. *)
Fixpoint find (pat s : string) : option nat :=
  if String.prefix pat s then Some O
  else match s with
       | EmptyString => None
       | String _ s => S <$> find pat s
       end.

(** [&s[n..]]. *)
Definition str_from (s : string) (n : nat) : rust string :=
  if (String.length s <? n)%nat then Panic else Val (str_drop n s).

(** The value of [name="..."] in [xml[from..to]], the empty string without one. *)
Definition attr (xml : string) (from to : nat) (name : string) : rust string :=
  let key := name +:+ "=" +:+ quote in
  let! tail := str_from xml from in
  match find key tail with
  | None => Val EmptyString
  | Some rel =>
      let p := (from + rel)%nat in
      if (to <=? p)%nat then Val EmptyString
      else
        let b := (p + String.length key)%nat in
        let! tail := str_from xml b in
        match find quote tail with
        | None => Val EmptyString
        | Some rel_end =>
            let e := (b + rel_end)%nat in
            if (to <? e)%nat then Val EmptyString else Val (xml_unescape (str_take rel_end tail))
        end
  end.

(** [str::parse::<u16>]. *)
Definition parse_u16 (s : string) : option Z :=
  let digits := match s with String c (String _ _ as tail) => if (c =? "+")%char then tail else s | _ => s end in
  match digits with
  | EmptyString => None
  | _ =>
      if all_digits digits then
        let n := Z.of_N (digits_val 0 digits) in if n <? 2 ^ 16 then Some n else None
      else None
  end.

(** The body of one turn: the link in [xml[begin..finish]]. *)
Definition read_link (xml : string) (begin finish : nat) : rust Link :=
  let! port := attr xml begin finish "port" in
  let! sender := attr xml begin finish "id" in
  let! router_ip := attr xml begin finish "ipAddress" in
  let! flow_type := attr xml begin finish "type" in
  Val (mkLink sender router_ip (default 0 (parse_u16 port)) flow_type).

Fixpoint read_links (fuel : nat) (xml : string) (pos : nat) (links : list Link) : rust (list Link) :=
  match fuel with
  | O => OutOfFuel
  | S fuel =>
      let! tail := str_from xml pos in
      match find "<DataLink>" tail with
      | None => Val links
      | Some rel =>
          let begin := (pos + rel)%nat in
          let! tail := str_from xml begin in
          let finish := match find "</DataLink>" tail with
                        | Some rel_end => (begin + rel_end)%nat
                        | None => String.length xml
                        end in
          let! link := read_link xml begin finish in
          let links := links ++ [link] in
          if (String.length xml <=? finish + 1)%nat then Val links
          else read_links fuel xml (finish + 1) links
      end
  end.

(** Each turn moves [pos] forward. *)
Definition parse_data_link_set (xml : string) : rust (list Link) :=
  read_links (S (String.length xml)) xml 0 [].

(** ** Requests *)

Definition is_known_action (action : string) : bool :=
  bool_decide (action ∈ ["describe"; "prepare"; "configure"; "start"; "stop"; "breakup"; "reset"; "status"]).

Record Request : Type := mkRequest {
  action : string;
  config_id : string;
  links : list Link;
}.

(** [Some(Value::String(s)) if !s.is_empty()]. *)
Definition non_empty (v : option Json) : option string :=
  match v with
  | Some (JStr (String _ _ as s)) => Some s
  | _ => None
  end.

(** [n.as_i64()]; what is no [i64] goes through [f64], cut to an integer: the cast
    saturates. *)
Definition port_number (v : Json) : option Z :=
  match v with
  | JNum n => Some (Z.max (- 2 ^ 63) (Z.min n (2 ^ 63 - 1)))
  | JFloat x => Some (Z.max (- 2 ^ 63) (Z.min (f64_to_Z x) (2 ^ 63 - 1)))
  | _ => None
  end.

(** An entry of [links]. *)
Definition parse_link (item : Json) : result Link string :=
  match item with
  | JObj item =>
      match non_empty (fields_get "sender" item) with
      | None => Err ("link needs a non-empty sender (e.g. " +:+ quote +:+ "CoBo[0]" +:+ quote +:+ ")")
      | Some sender =>
      match non_empty (fields_get "router_ip" item) with
      | None => Err "link needs a non-empty router_ip"
      | Some router_ip =>
      match fields_get "router_port" item ≫= port_number with
      | Some port =>
          if negb ((1 <=? port) && (port <=? 65535)) then
            Err ("router_port out of range (1..65535): " +:+ pretty port)
          else
            let link := link_new sender router_ip port in
            match fields_get "type" item with
            | None => Ok link
            | Some (JStr flow_type) =>
                if negb (bool_decide (flow_type = "TCP")) then
                  Err ("link type must be upper-case " +:+ quote +:+ "TCP" +:+ quote +:+ ", got " +:+
                       quote +:+ flow_type +:+ quote)
                else Ok (mkLink sender router_ip port flow_type)
            | Some _ => Err "link type must be a string"
            end
      | None => Err "link needs a numeric router_port"
      end end end
  | _ => Err "each entry of links must be an object"
  end.

Fixpoint parse_links (items : list Json) : result (list Link) string :=
  match items with
  | [] => Ok []
  | item :: items =>
      let? link := parse_link item in
      let? links := parse_links items in
      Ok (link :: links)
  end.

(** [parse_request], of what [serde_json] makes of the text: a value, or the
    error it prints. *)
Definition parse_request (json : result Json string) : result Request string :=
  match json with
  | Err e => Err ("parse error: " +:+ e)
  | Ok (JObj map) =>
      match non_empty (fields_get "action" map) with
      | None => Err "missing action"
      | Some action =>
      if negb (is_known_action action) then Err ("unknown action: " +:+ action)
      else
      let? config_id :=
        match fields_get "config_id" map with
        | None => Ok "default"
        | Some (JStr (String _ _ as c)) => Ok c
        | Some _ => Err "config_id must be a non-empty string"
        end in
      let? links :=
        match fields_get "links" map with
        | None => Ok []
        | Some (JArr items) => parse_links items
        | Some _ => Err "links must be an array"
        end in
      if bool_decide (action = "configure") && bool_decide (links = []) then
        Err "configure needs a non-empty links array"
      else Ok (mkRequest action config_id links)
      end
  | Ok _ => Err "top-level JSON value must be an object"
  end.

(** ** Responses *)

Definition hex_digit (n : N) : ascii :=
  ascii_of_N (if (n <? 10)%N then 48 + n else 87 + n).

Definition json_escape_char (c : ascii) : string :=
  let n := N_of_ascii c in
  if (c =? QUOTE)%char then "\" +:+ quote
  else if (c =? "\")%char then "\\"
  else if (n =? 10)%N then "\n"
  else if (n =? 13)%N then "\r"
  else if (n =? 9)%N then "\t"
  else if (n =? 8)%N then "\b"
  else if (n =? 12)%N then "\f"
  else if (n <? 32)%N then "\u00" +:+ String (hex_digit (n / 16)) (String (hex_digit (n mod 16)) EmptyString)
  else String c EmptyString.

Fixpoint json_escape (s : string) : string :=
  match s with
  | EmptyString => EmptyString
  | String c s => json_escape_char c +:+ json_escape s
  end.

Definition make_response (ok : bool) (state : State) (error : string) (ecc_error : Error) : string :=
  "{" +:+ quote +:+ "ok" +:+ quote +:+ ":" +:+ (if ok then "true" else "false") +:+
  "," +:+ quote +:+ "state" +:+ quote +:+ ":" +:+ quote +:+ state_as_str state +:+ quote +:+
  "," +:+ quote +:+ "error" +:+ quote +:+ ":" +:+ quote +:+ json_escape error +:+ quote +:+
  "," +:+ quote +:+ "ecc_error" +:+ quote +:+ ":" +:+ quote +:+ error_as_str ecc_error +:+ quote +:+ "}".

(** ** The transitions of the ECC *)

Inductive Step : Type := Applied | Ignored | Denied.

#[export] Instance Step_eq_dec : EqDecision Step.
Proof. solve_decision. Defined.

Record Transition : Type := mkTransition {
  step : Step;
  next : State;
  transition_error : string;
}.

Definition active (s : State) : bool := bool_decide (s ∈ [Ready; Running; Paused]).

Definition next_state (from : State) (action : string) : Transition :=
  let stay step := mkTransition step from EmptyString in
  let applied next := mkTransition Applied next EmptyString in
  let denied := mkTransition Denied from ("invalid transition: " +:+ action +:+ " in state " +:+ state_as_str from) in
  if bool_decide (action = "status") then stay Applied
  else if bool_decide (action = "reset") then
    match from with
    | Described => applied Idle
    | Prepared => applied Described
    | _ => stay Ignored
    end
  else if bool_decide (action = "breakup") then
    if active from then applied Prepared else stay Ignored
  else if bool_decide (action = "configure") then
    if bool_decide (from = Prepared) then applied Ready else stay Ignored
  else if bool_decide (action = "describe") then
    if bool_decide (from ∈ [Off; Idle; Described]) then applied Described else denied
  else if bool_decide (action = "prepare") then
    if bool_decide (from ∈ [Described; Prepared]) then applied Prepared else denied
  else if bool_decide (action = "start") then
    if bool_decide (from = Ready) then applied Running else denied
  else if bool_decide (action = "stop") then
    if bool_decide (from ∈ [Running; Paused]) then applied Ready else denied
  else mkTransition Denied from ("unknown action: " +:+ action).

(** ** Names *)

Lemma state_from_as_str s : state_from_name (state_as_str s) = s.
Proof. by destruct s. Qed.

(** ** Searching text *)

Lemma str_drop_app p s n : str_drop (String.length p + n) (p +:+ s) = str_drop n s.
Proof. by induction p as [| c p IH]. Qed.

Lemma str_drop_app_all p s : str_drop (String.length p) (p +:+ s) = s.
Proof. pose proof (str_drop_app p s 0) as E. by rewrite Nat.add_0_r in E. Qed.

Lemma str_take_app p s : str_take (String.length p) (p +:+ s) = p.
Proof. induction p as [| c p IH]; [by destruct s |]. cbn. f_equal. exact IH. Qed.

Lemma str_drop_drop m n s : str_drop m (str_drop n s) = str_drop (n + m) s.
Proof. revert s. induction n as [| n IH]; intros [| c s]; cbn; [done | done | by destruct m | apply IH]. Qed.

Lemma str_drop_length n s : String.length (str_drop n s) = (String.length s - n)%nat.
Proof. revert s. induction n as [| n IH]; intros [| c s]; cbn; [done | done | done | apply IH]. Qed.

Lemma prefix_nil s : String.prefix EmptyString s = true.
Proof. by destruct s. Qed.

Lemma prefix_length a s : String.prefix a s = true -> (String.length a <= String.length s)%nat.
Proof.
  revert s. induction a as [| c a IH]; intros [| d s]; cbn; try done; [lia |].
  destruct (ascii_dec c d); [| done]. intros Hp. apply IH in Hp. lia.
Qed.

Lemma find_bound pat s k : find pat s = Some k -> (k + String.length pat <= String.length s)%nat.
Proof.
  revert k. induction s as [| c s IH]; intros k; cbn [find];
    (destruct (String.prefix pat _) eqn:E; [intros [= <-]; by apply prefix_length in E |]); [done |].
  intros (k' & Hk & ->)%fmap_Some_1. apply IH in Hk. cbn [String.length]. lia.
Qed.

(** [c] does not occur in [s]. *)
Fixpoint free (c : ascii) (s : string) : bool :=
  match s with
  | EmptyString => true
  | String d s => negb (c =? d)%char && free c s
  end.

Lemma free_app c s t : free c (s +:+ t) = free c s && free c t.
Proof. induction s as [| d s IH]; [done |]. change (free c (String d s +:+ t)) with (negb (c =? d)%char && free c (s +:+ t)). rewrite IH. apply andb_assoc. Qed.

(** [p] ends with [name]. *)
Fixpoint ends (name p : string) : bool :=
  bool_decide (p = name) ||
  match p with
  | EmptyString => false
  | String _ p => ends name p
  end.

Lemma ends_length name p : ends name p = true -> (String.length name <= String.length p)%nat.
Proof.
  induction p as [| c p IH]; cbn [ends]; case_bool_decide as E; subst; cbn [orb]; try done.
  intros Hp%IH. cbn. lia.
Qed.

(** Two texts without [c] that are followed by [c]. *)
Lemma prefix_closed c a b r : free c a = true -> free c b = true ->
  String.prefix (a +:+ String c EmptyString) (b +:+ String c r) = bool_decide (b = a).
Proof.
  revert b. induction a as [| x a IH]; intros [| y b]; cbn [free String.prefix]; intros Ha Hb.
  - rewrite !append_nil_l. cbn. by destruct (ascii_dec c c), r.
  - apply andb_prop in Hb as [Hy _]. rewrite append_nil_l, append_cons. cbn. destruct (ascii_dec c y) as [<- | _]; [by rewrite Ascii.eqb_refl in Hy |].
    by case_bool_decide.
  - apply andb_prop in Ha as [Hx _]. rewrite append_nil_l, append_cons. cbn. destruct (ascii_dec x c) as [-> | _]; [by rewrite Ascii.eqb_refl in Hx |].
    by case_bool_decide.
  - apply andb_prop in Ha as [_ Ha], Hb as [_ Hb]. rewrite !append_cons. cbn. destruct (ascii_dec x y) as [<- | Hne].
    + rewrite IH by done. apply bool_decide_ext. naive_solver.
    + rewrite bool_decide_eq_false_2 by naive_solver. done.
Qed.

(** Looking for a name with a quote behind it goes from quote to quote. *)
Lemma find_closed c name p r : free c name = true -> free c p = true ->
  find (name +:+ String c EmptyString) (p +:+ String c r) =
    if ends name p then Some (String.length p - String.length name)%nat
    else (fun i => String.length p + 1 + i)%nat <$> find (name +:+ String c EmptyString) r.
Proof.
  intros Hn. induction p as [| d p IH]; intros Hp.
  - pose proof (prefix_closed c name EmptyString r Hn eq_refl) as E. rewrite !append_nil_l in *. cbn [find]. rewrite E.
    cbn [ends]. case_bool_decide as Hb; cbn [orb]; [by subst |].
    destruct (find _ r); reflexivity.
  - pose proof (prefix_closed c name (String d p) r Hn Hp) as E. rewrite !append_cons in *. cbn [find]. rewrite E.
    cbn [ends]. case_bool_decide as Hb; cbn [orb].
    + subst. by rewrite Nat.sub_diag.
    + cbn in Hp. apply andb_prop in Hp as [_ Hp]. rewrite (IH Hp). destruct (ends name p) eqn:He.
      * apply ends_length in He. cbn. f_equal. lia.
      * by destruct (find _ r).
Qed.

(** Looking for a text that opens with [c] goes from [c] to [c]. *)
Lemma find_open c pat q r : free c q = true ->
  find (String c pat) (q +:+ String c r) =
    if String.prefix pat r then Some (String.length q)
    else (fun i => String.length q + 1 + i)%nat <$> find (String c pat) r.
Proof.
  induction q as [| d q IH]; intros Hq.
  - rewrite append_nil_l. cbn [find String.prefix]. destruct (ascii_dec c c); [| done].
    destruct (String.prefix pat r); [done |]. by destruct (find _ r).
  - cbn in Hq. apply andb_prop in Hq as [Hd Hq]. rewrite append_cons. cbn [find String.prefix].
    destruct (ascii_dec c d) as [<- | _]; [by rewrite Ascii.eqb_refl in Hd |]. rewrite (IH Hq).
    destruct (String.prefix pat r); [done |]. by destruct (find _ r).
Qed.

(** ** Escaping *)

Lemma unescape_escape_loop s fuel : (String.length (xml_escape s) <= fuel)%nat -> unescape_loop fuel (xml_escape s) = s.
Proof.
  revert fuel. induction s as [| c s IH]; intros fuel; [by destruct fuel |]. cbn [xml_escape]. unfold escape_char.
  destruct (Ascii.eqb_spec c "&") as [-> | H1]; [| destruct (Ascii.eqb_spec c "<") as [-> | H2];
    [| destruct (Ascii.eqb_spec c ">") as [-> | H3]; [| destruct (Ascii.eqb_spec c QUOTE) as [-> | H4]]]];
    rewrite ?append_cons, ?append_nil_l; cbn [String.length]; intros Hf; (destruct fuel as [| fuel]; [lia |]); cbn;
    rewrite ?prefix_nil, ?IH by lia; try done.
  destruct (Ascii.eqb_spec c "&"); [done |]. rewrite ?IH by lia. done.
Qed.

Lemma unescape_escape s : xml_unescape (xml_escape s) = s.
Proof. by apply unescape_escape_loop. Qed.

(** The text [c] does not occur in what [escape_char] writes. *)
Lemma escape_free c s : c = QUOTE \/ c = "<"%char -> free c (xml_escape s) = true.
Proof.
  intros Hc. induction s as [| d s IH]; [done |]. cbn [xml_escape]. rewrite free_app, IH, andb_true_r.
  unfold escape_char. destruct (Ascii.eqb_spec d "&"); [by destruct Hc as [-> | ->] |].
  destruct (Ascii.eqb_spec d "<"); [by destruct Hc as [-> | ->] |]. destruct (Ascii.eqb_spec d ">"); [by destruct Hc as [-> | ->] |].
  destruct (Ascii.eqb_spec d QUOTE); [by destruct Hc as [-> | ->] |]. cbn. rewrite andb_true_r.
  destruct (Ascii.eqb_spec c d); [| done]. by destruct Hc; subst.
Qed.

(** ** Attributes *)

(** The texts [ps], each closed by a quote. *)
Definition joined (ps : list string) (tail : string) : string :=
  foldr (fun p s => p +:+ String QUOTE s) tail ps.

(** The text after the first that ends with [name]. *)
Fixpoint value_of (name : string) (ps : list string) : option string :=
  match ps with
  | p :: ((v :: _) as ps) => if ends name p then Some v else value_of name ps
  | _ => None
  end.

Lemma value_of_hit name p v ps : ends name p = true -> value_of name (p :: v :: ps) = Some v.
Proof. cbn. by intros ->. Qed.

Lemma value_of_miss name p v ps : ends name p = false -> value_of name (p :: v :: ps) = value_of name (v :: ps).
Proof. intros E. cbn. by rewrite E. Qed.

Lemma joined_cons p ps tail : joined (p :: ps) tail = p +:+ String QUOTE (joined ps tail).
Proof. done. Qed.

Lemma find_joined name ps tail v :
  free QUOTE name = true -> Forall (fun p => free QUOTE p = true) ps -> value_of name ps = Some v ->
  exists k r, find (name +:+ quote) (joined ps tail) = Some k /\
    str_drop (k + String.length name + 1) (joined ps tail) = v +:+ String QUOTE r /\
    (k + String.length name + 1 + String.length v < String.length (joined ps EmptyString))%nat.
Proof.
  intros Hn. induction 1 as [| p ps Hp Hps IH]; [done |]. destruct ps as [| v' ps]; [done |].
  unfold quote. rewrite joined_cons, (find_closed QUOTE name p) by done.
  rewrite (joined_cons p (v' :: ps) EmptyString), string_length_app. cbn [value_of String.length].
  destruct (ends name p) eqn:E; intros Hv.
  - injection Hv as <-. apply ends_length in E. eexists _, _. split; [done |]. split.
    + replace (String.length p - String.length name + String.length name + 1)%nat with (String.length p + 1)%nat by lia.
      rewrite str_drop_app. reflexivity.
    + rewrite joined_cons, string_length_app. cbn [String.length]. lia.
  - destruct (IH Hv) as (k & r & Hk & Hr & Hl). unfold quote in Hk. rewrite Hk. eexists _, r. split; [done |]. split.
    + replace (String.length p + 1 + k + String.length name + 1)%nat
        with (String.length p + (1 + (k + String.length name + 1)))%nat by lia.
      by rewrite str_drop_app.
    + lia.
Qed.

Lemma ends_nil p : ends EmptyString p = true.
Proof. induction p as [| c p IH]; [done |]. cbn [ends]. by rewrite IH, orb_true_r. Qed.

Lemma find_quote v r : free QUOTE v = true -> find quote (v +:+ String QUOTE r) = Some (String.length v).
Proof.
  intros Hv. pose proof (find_closed QUOTE EmptyString v r eq_refl Hv) as E. rewrite ends_nil, append_nil_l in E.
  unfold quote. rewrite E. cbn. f_equal. lia.
Qed.

Lemma joined_length ps tail :
  String.length (joined ps tail) = (String.length (joined ps EmptyString) + String.length tail)%nat.
Proof.
  induction ps as [| p ps IH]; [done |]. rewrite !joined_cons, !string_length_app. cbn [String.length]. lia.
Qed.

Lemma str_from_val s n : (n <= String.length s)%nat -> str_from s n = Val (str_drop n s).
Proof. intros Hn. unfold str_from. destruct (Nat.ltb_spec (String.length s) n); [lia | done]. Qed.

Lemma attr_joined xml from to name ps tail v :
  str_drop from xml = joined ps tail -> (from <= String.length xml)%nat ->
  (from + String.length (joined ps EmptyString) <= to)%nat ->
  free QUOTE (name +:+ "=") = true -> Forall (fun p => free QUOTE p = true) ps -> free QUOTE v = true ->
  value_of (name +:+ "=") ps = Some v ->
  attr xml from to name = Val (xml_unescape v).
Proof.
  intros Hd Hfrom Hto Hn Hps Hv Hval. destruct (find_joined _ _ tail _ Hn Hps Hval) as (k & r & Hk & Hr & Hl).
  unfold attr. rewrite str_from_val by done. cbn [rust_bind].
  rewrite <- append_assoc, Hd, Hk, string_length_app. cbn [quote String.length].
  destruct (Nat.leb_spec to (from + k)); [lia |].
  assert (Hlen : String.length (str_drop from xml) = String.length (joined ps tail)) by (by rewrite Hd).
  rewrite str_drop_length, joined_length in Hlen.
  rewrite str_from_val by lia. cbn [rust_bind].
  replace (from + k + (String.length (name +:+ "=") + 1))%nat
    with (from + (k + String.length (name +:+ "=") + 1))%nat by lia.
  rewrite <- str_drop_drop, Hd, Hr, find_quote by done.
  match goal with |- context [(to <? ?e)%nat] => destruct (Nat.ltb_spec to e); [lia |] end.
  by rewrite str_take_app.
Qed.

(** ** The DataLinkSet round trip *)

Lemma ends_spec name p : ends name p = true <-> exists q, p = q +:+ name.
Proof.
  induction p as [| c p IH]; cbn [ends].
  - rewrite orb_false_r, bool_decide_eq_true. split; [intros <-; by exists EmptyString |].
    intros ([| d q] & E); [by rewrite append_nil_l in E | by rewrite append_cons in E].
  - rewrite orb_true_iff, bool_decide_eq_true, IH. split.
    + intros [-> | (q & ->)]; [by exists EmptyString | by exists (String c q)].
    + intros ([| d q] & E); [left; by rewrite append_nil_l in E |]. rewrite append_cons in E. injection E as -> ->.
      right. by exists q.
Qed.

Lemma ends_equals name p : ends "=" p = false -> ends (name +:+ "=") p = false.
Proof.
  intros E. apply not_true_iff_false. rewrite ends_spec. intros (q & ->). apply not_true_iff_false in E. apply E.
  rewrite ends_spec. exists (q +:+ name). by rewrite append_assoc.
Qed.

Lemma free_ends c p : free c p = true -> ends (String c EmptyString) p = false.
Proof.
  induction p as [| d p IH]; [done |]. cbn [free ends]. intros [Hd Hp]%andb_prop.
  rewrite bool_decide_eq_false_2; [by apply IH |]. intros [= -> _]. by rewrite Ascii.eqb_refl in Hd.
Qed.

Lemma ends_last c a x b : ends (String c EmptyString) (a +:+ String x b) = ends (String c EmptyString) (String x b).
Proof.
  induction a as [| y a IH]; [done |]. rewrite append_cons, <- IH. cbn [ends].
  rewrite bool_decide_eq_false_2; [done |]. intros [= _ E]. by destruct a.
Qed.

Lemma ends_escape s : ends "=" (xml_escape s) = ends "=" s.
Proof.
  induction s as [| c [| d s] IH]; [done | |].
  - cbn [xml_escape]. unfold escape_char.
    destruct (Ascii.eqb_spec c "&") as [-> |]; [done |]. destruct (Ascii.eqb_spec c "<") as [-> |]; [done |].
    destruct (Ascii.eqb_spec c ">") as [-> |]; [done |]. by destruct (Ascii.eqb_spec c QUOTE) as [-> |].
  - change (String c (String d s)) with (String c EmptyString +:+ String d s). rewrite (ends_last _ _ d s), <- IH.
    change (xml_escape (String c EmptyString +:+ String d s)) with (escape_char c +:+ xml_escape (String d s)).
    destruct (xml_escape (String d s)) as [| y t] eqn:E; [| by rewrite ends_last].
    exfalso. cbn [xml_escape] in E. unfold escape_char in E. by repeat destruct (Ascii.eqb _ _).
Qed.

Lemma digits_free c s : is_digit c = false -> all_digits s = true -> free c s = true.
Proof.
  intros Hc. induction s as [| d s IH]; [done |]. cbn. intros [Hd Hs]%andb_prop. rewrite (IH Hs), andb_true_r.
  destruct (Ascii.eqb_spec c d) as [<- |]; [congruence | done].
Qed.

(** A link whose port is a port and whose texts do not end with an equals sign
    (which would make the text before a quote look like the name of an
    attribute). *)
Definition link_readable (l : Link) : Prop :=
  0 <= router_port l < 2 ^ 16 /\ ends "=" (sender l) = false /\ ends "=" (router_ip l) = false.

Definition link_pieces (l : Link) : list string :=
  ["<DataLink><DataSender id="; xml_escape (sender l); "/><DataRouter ipAddress="; xml_escape (router_ip l);
   " port="; dec (router_port l); " type="; xml_escape (flow_type l)].

Lemma link_xml_joined l post : link_xml l +:+ post = joined (link_pieces l) ("/></DataLink>" +:+ post).
Proof.
  unfold link_xml, link_pieces, joined, quote. cbn [foldr]. rewrite !append_assoc, ?append_cons, ?append_nil_l.
  by rewrite ?append_assoc, ?append_cons, ?append_nil_l.
Qed.

Lemma link_pieces_free l : Forall (fun p => free QUOTE p = true) (link_pieces l).
Proof.
  assert (Hd : free QUOTE (dec (router_port l)) = true) by (apply digits_free; [done | apply dec_digits]).
  repeat constructor; try done; apply escape_free; by left.
Qed.

Lemma parse_u16_dec n : 0 <= n < 2 ^ 16 -> parse_u16 (dec n) = Some n.
Proof.
  intros Hn. unfold parse_u16. pose proof (dec_digits n) as Hd. pose proof (dec_val n) as Hv.
  destruct (dec n) as [| c s] eqn:E.
  { exfalso. pose proof (dec_inj n 1). cbn in Hv. assert (n = 0) as -> by lia. by vm_compute in E. }
  assert (Hc : (c =? "+")%char = false).
  { destruct (Ascii.eqb_spec c "+") as [-> |]; [by cbn in Hd | done]. }
  assert (Hdig : match s with EmptyString => String c s | String _ _ => if (c =? "+")%char then s else String c s end = String c s)
    by (rewrite Hc; by destruct s).
  rewrite Hdig, Hd, Hv, Z2N.id by lia. destruct (Z.ltb_spec n (2 ^ 16)); [done | lia].
Qed.

Lemma unescape_digits s : all_digits s = true -> xml_unescape s = s.
Proof.
  intros Hs. assert (E : xml_escape s = s); [| by rewrite <- E at 1; apply unescape_escape].
  revert Hs. induction s as [| c s IH]; [done |]. cbn [all_digits xml_escape]. intros [Hc Hs]%andb_prop. rewrite (IH Hs).
  unfold escape_char. destruct (Ascii.eqb_spec c "&") as [-> |]; [done |]. destruct (Ascii.eqb_spec c "<") as [-> |]; [done |].
  destruct (Ascii.eqb_spec c ">") as [-> |]; [done |]. by destruct (Ascii.eqb_spec c QUOTE) as [-> |].
Qed.

Ltac value_of_step :=
  first [ apply value_of_hit; reflexivity
        | rewrite value_of_miss; [| first [reflexivity | apply ends_equals; rewrite ?ends_escape; assumption
                                          | apply ends_equals, free_ends, digits_free; [reflexivity | apply dec_digits]]] ].

Lemma read_link_xml xml begin finish l post :
  link_readable l -> str_drop begin xml = link_xml l +:+ post -> (begin <= String.length xml)%nat ->
  (begin + String.length (joined (link_pieces l) EmptyString) <= finish)%nat ->
  read_link xml begin finish = Val l.
Proof.
  intros (Hport & Hs & Hi) Hd Hb Hf. rewrite link_xml_joined in Hd. unfold read_link.
  assert (Hv : forall name v, value_of (name +:+ "=") (link_pieces l) = Some v -> free QUOTE (name +:+ "=") = true ->
    free QUOTE v = true -> attr xml begin finish name = Val (xml_unescape v)).
  { intros name v Hv Hn Hfree. eapply attr_joined; [exact Hd | done | done | done | apply link_pieces_free | done | done]. }
  rewrite (Hv "port" (dec (router_port l))); cbn [rust_bind].
  2: { unfold link_pieces. repeat value_of_step. }
  2: { done. }
  2: { apply digits_free; [done | apply dec_digits]. }
  rewrite (Hv "id" (xml_escape (sender l))); cbn [rust_bind]; [| by unfold link_pieces; repeat value_of_step | done | apply escape_free; by left].
  rewrite (Hv "ipAddress" (xml_escape (router_ip l))); cbn [rust_bind]; [| by unfold link_pieces; repeat value_of_step | done | apply escape_free; by left].
  rewrite (Hv "type" (xml_escape (flow_type l))); cbn [rust_bind]; [| by unfold link_pieces; repeat value_of_step | done | apply escape_free; by left].
  rewrite !unescape_escape.
  rewrite unescape_digits by apply dec_digits.
  rewrite parse_u16_dec by done. by destruct l.
Qed.

(** The text of a link up to its closing tag. *)
Lemma find_link_end l post : exists k, find "</DataLink>" (link_xml l +:+ post) = Some k /\
  (k + 11 = String.length (link_xml l))%nat.
Proof.
  set (m1 := "DataSender id=" +:+ quote +:+ xml_escape (sender l) +:+ quote +:+ "/>").
  set (m2 := "DataRouter ipAddress=" +:+ quote +:+ xml_escape (router_ip l) +:+ quote +:+ " port=" +:+ quote +:+
             dec (router_port l) +:+ quote +:+ " type=" +:+ quote +:+ xml_escape (flow_type l) +:+ quote +:+ "/>").
  assert (E : forall post, link_xml l +:+ post =
    EmptyString +:+ String "<" ("DataLink>" +:+ String "<" (m1 +:+ String "<" (m2 +:+ String "<" ("/DataLink>" +:+ post))))).
  { intros p. unfold link_xml, m1, m2, quote. rewrite ?append_nil_l, !append_assoc, ?append_cons, ?append_nil_l.
    by rewrite ?append_assoc, ?append_cons, ?append_nil_l. }
  assert (H1 : free "<" m1 = true).
  { unfold m1. rewrite !free_app, (escape_free "<") by (by right). done. }
  assert (H2 : free "<" m2 = true).
  { unfold m2. rewrite !free_app, !(escape_free "<"), (digits_free "<" (dec (router_port l))) by (try apply dec_digits; try reflexivity; by right). done. }
  assert (Hpre : forall a b, String.prefix a (a +:+ b) = true).
  { intros a b. induction a as [| c a IH]; [apply prefix_nil |]. rewrite append_cons. cbn. by destruct (ascii_dec c c). }
  rewrite E. rewrite !(find_open "<" "/DataLink>") by done. rewrite Hpre.
  assert (Hlen := E EmptyString). apply (f_equal String.length) in Hlen.
  repeat (rewrite string_length_app in Hlen; cbn [String.length] in Hlen).
  eexists. split; [reflexivity |]. cbn [String.length]. lia.
Qed.

Lemma append_nil_r (s : string) : s +:+ EmptyString = s.
Proof. induction s as [| c s IH]; [done | exact (f_equal (String c) IH)]. Qed.

Lemma joined_app ps a b : joined ps a +:+ b = joined ps (a +:+ b).
Proof. induction ps as [| p ps IH]; [done |]. by rewrite !joined_cons, append_assoc, append_cons, IH. Qed.

(** Text that holds no link and starts none. *)
Definition skipped (q : string) : Prop :=
  forall r, find "<DataLink>" (q +:+ r) = Nat.add (String.length q) <$> find "<DataLink>" r.

Lemma skipped_open : skipped "<DataLinkSet>".
Proof. intros r. unfold skipped. rewrite !append_cons, append_nil_l. cbn. by destruct (find _ r). Qed.

Lemma skipped_close : skipped "/DataLink>".
Proof. intros r. unfold skipped. rewrite !append_cons, append_nil_l. cbn. by destruct (find _ r). Qed.

Lemma read_links_xml xml ls : forall fuel pos q acc,
  skipped q -> str_drop pos xml = q +:+ links_xml ls +:+ "</DataLinkSet>" -> (pos <= String.length xml)%nat ->
  (length ls < fuel)%nat -> Forall link_readable ls ->
  read_links fuel xml pos acc = Val (acc ++ ls).
Proof.
  induction ls as [| l ls IH]; intros [| fuel] pos q acc Hq Hd Hpos Hf Hls; cbn [length] in Hf; try lia;
    cbn [read_links]; rewrite str_from_val by done; cbn [rust_bind]; rewrite Hd, Hq.
  { cbn [links_xml]. rewrite append_nil_l. cbn. by rewrite app_nil_r. }
  inversion Hls as [| ? ? Hl Hls']; subst. cbn [links_xml]. rewrite append_assoc.
  assert (H0 : forall post, find "<DataLink>" (link_xml l +:+ post) = Some O).
  { intros post. unfold link_xml. rewrite append_assoc, !append_cons. reflexivity. }
  rewrite H0. cbn [fmap option_fmap option_map]. rewrite Nat.add_0_r.
  assert (Hlen := f_equal String.length Hd). cbn [links_xml] in Hlen.
  rewrite str_drop_length, !string_length_app in Hlen. cbn [String.length] in Hlen.
  rewrite str_from_val by lia. cbn [rust_bind].
  assert (Hd2 : str_drop (pos + String.length q) xml = link_xml l +:+ links_xml ls +:+ "</DataLinkSet>").
  { rewrite <- str_drop_drop, Hd, str_drop_app_all. cbn [links_xml]. apply append_assoc. }
  rewrite Hd2. destruct (find_link_end l (links_xml ls +:+ "</DataLinkSet>")) as (k & -> & Hk).
  assert (Hj := f_equal String.length (link_xml_joined l EmptyString)).
  rewrite joined_length, !string_length_app in Hj. cbn [String.length] in Hj.
  rewrite (read_link_xml xml _ _ l (links_xml ls +:+ "</DataLinkSet>")) by (done || lia). cbn [rust_bind].
  destruct (Nat.leb_spec (String.length xml) (pos + String.length q + k + 1)); [lia |].
  rewrite (IH fuel _ "/DataLink>" (acc ++ [l])); [| apply skipped_close | | lia | lia | done].
  - by rewrite <- app_assoc.
  - replace (pos + String.length q + k + 1)%nat with (pos + String.length q + (k + 1))%nat by lia.
    rewrite <- str_drop_drop, Hd2.
    assert (E : exists p, link_xml l = p +:+ "</DataLink>" /\ String.length p = k).
    { pose proof (link_xml_joined l EmptyString) as E. rewrite append_nil_r in E.
      exists (joined (link_pieces l) "/>"). split; [| rewrite joined_length; cbn [String.length]; lia].
      by rewrite E, joined_app. }
    destruct E as (p & -> & <-). by rewrite append_assoc, str_drop_app.
Qed.

(** A DataLinkSet written for the ECC is read back as the links it was
    written for, whatever characters their texts hold (so a sender or an address
    can never break out of its attribute), as long as no text ends with an
    equals sign and the ports are ports. *)
Theorem link_set_roundtrip (links : list Link) (Hlinks : Forall link_readable links) :
  parse_data_link_set (data_link_set_xml links) = Val links.
Proof.
  unfold parse_data_link_set. rewrite (read_links_xml _ links _ 0 "<DataLinkSet>" []); try done.
  - apply skipped_open.
  - lia.
  - unfold data_link_set_xml. rewrite !string_length_app. cbn [String.length].
    assert (length links <= String.length (links_xml links))%nat; [| lia].
    clear. induction links as [| l links IH]; [done |]. cbn [length links_xml]. rewrite string_length_app.
    unfold link_xml. rewrite string_length_app. cbn [String.length]. lia.
Qed.

Lemma link_set_roundtrip_witness :
  parse_data_link_set (data_link_set_xml [mkLink "CoBo[0]" "10.0.0.7" 46005 "TCP"; mkLink "<&>" (quote +:+ "/><DataLink>") 0 "tcp"]) =
    Val [mkLink "CoBo[0]" "10.0.0.7" 46005 "TCP"; mkLink "<&>" (quote +:+ "/><DataLink>") 0 "tcp"].
Proof.
  apply link_set_roundtrip. repeat constructor; try done; cbn; lia.
Defined.

(** *** Any text *)

Lemma attr_total xml from to name : (from <= String.length xml)%nat -> exists v, attr xml from to name = Val v.
Proof.
  intros Hf. unfold attr. rewrite str_from_val by done. cbn [rust_bind].
  destruct (find _ _) as [rel |] eqn:E; [| by eexists]. apply find_bound in E. rewrite str_drop_length in E.
  destruct (to <=? _)%nat; [by eexists |]. rewrite str_from_val by lia. cbn [rust_bind].
  destruct (find quote _); [| by eexists]. destruct (to <? _)%nat; by eexists.
Qed.

Lemma read_links_total xml : forall fuel pos acc,
  (pos <= String.length xml)%nat -> (String.length xml < fuel + pos)%nat ->
  exists links, read_links fuel xml pos acc = Val links.
Proof.
  induction fuel as [| fuel IH]; intros pos acc Hpos Hf; [lia |]. cbn [read_links].
  rewrite str_from_val by done. cbn [rust_bind].
  destruct (find "<DataLink>" _) as [rel |] eqn:E; [| by eexists].
  apply find_bound in E. rewrite str_drop_length in E. cbn [String.length] in E.
  rewrite str_from_val by lia. cbn [rust_bind]. unfold read_link.
  set (finish := match find "</DataLink>" _ with Some _ => _ | None => _ end).
  assert (Hfin : (pos + rel <= finish)%nat) by (subst finish; destruct (find "</DataLink>" _); lia). clearbody finish.
  destruct (attr_total xml (pos + rel) finish "port") as (v1 & ->); [lia |]. cbn [rust_bind].
  destruct (attr_total xml (pos + rel) finish "id") as (v2 & ->); [lia |]. cbn [rust_bind].
  destruct (attr_total xml (pos + rel) finish "ipAddress") as (v3 & ->); [lia |]. cbn [rust_bind].
  destruct (attr_total xml (pos + rel) finish "type") as (v4 & ->); [lia |]. cbn [rust_bind].
  destruct (Nat.leb_spec (String.length xml) (finish + 1)); [by eexists |]. apply IH; lia.
Qed.

(** Reading a DataLinkSet ends on any text, and never cuts outside it. *)
Theorem link_reader_ends (xml : string) : exists links, parse_data_link_set xml = Val links.
Proof. apply read_links_total; lia. Qed.
(** ** Requests *)

Definition link_ok (l : Link) : Prop :=
  sender l <> EmptyString /\ router_ip l <> EmptyString /\ 1 <= router_port l <= 65535 /\ flow_type l = "TCP".

Definition request_ok (r : Request) : Prop :=
  is_known_action (action r) = true /\ config_id r <> EmptyString /\ Forall link_ok (links r) /\
  (action r = "configure" -> links r <> []).

(** A request as the controller writes it. *)
Definition link_object (l : Link) : Json :=
  JObj [("sender", JStr (sender l)); ("router_ip", JStr (router_ip l)); ("router_port", JNum (router_port l));
        ("type", JStr (flow_type l))].

Definition request_object (r : Request) : Json :=
  JObj [("action", JStr (action r)); ("config_id", JStr (config_id r)); ("links", JArr (map link_object (links r)))].

Lemma non_empty_ok v s : non_empty v = Some s -> s <> EmptyString /\ v = Some (JStr s).
Proof. by destruct v as [[| | | | [| c t] | |] |]; intros [= <-]. Qed.

Lemma non_empty_str s : s <> EmptyString -> non_empty (Some (JStr s)) = Some s.
Proof. by destruct s. Qed.

Lemma parse_link_ok item l : parse_link item = Ok l -> link_ok l.
Proof.
  unfold parse_link. destruct item as [| | | | | | item]; try done.
  destruct (non_empty _) as [s |] eqn:Es; [| done]. destruct (non_empty (fields_get "router_ip" item)) as [i |] eqn:Ei; [| done].
  apply non_empty_ok in Es as [Es _], Ei as [Ei _].
  destruct (fields_get "router_port" item ≫= port_number) as [port |]; [| done].
  destruct ((1 <=? port) && (port <=? 65535)) eqn:Ep; cbn [negb]; [| done].
  apply andb_prop in Ep as [H1 H2]. apply Z.leb_le in H1, H2.
  destruct (fields_get "type" item) as [[| | | | f | |] |]; try done.
  - case_bool_decide as Hf; cbn [negb]; [| done]. by intros [= <-].
  - by intros [= <-].
Qed.

Lemma parse_link_object l : link_ok l -> parse_link (link_object l) = Ok l.
Proof.
  intros (Hs & Hi & Hp & Hf). destruct l as [s i p f]. cbn [sender router_ip router_port flow_type] in *. subst f.
  unfold parse_link, link_object. cbn [sender router_ip router_port flow_type].
  change (fields_get "sender" _) with (Some (JStr s)). change (fields_get "router_ip" _) with (Some (JStr i)).
  change (fields_get "router_port" _) with (Some (JNum p)). change (fields_get "type" _) with (Some (JStr "TCP")).
  rewrite !non_empty_str by done.
  assert (Some (JNum p) ≫= port_number = Some p) as -> by (cbn; f_equal; lia).
  destruct (Z.leb_spec 1 p), (Z.leb_spec p 65535); try lia. done.
Qed.

Lemma parse_links_ok items ls : parse_links items = Ok ls -> Forall link_ok ls.
Proof.
  revert ls. induction items as [| item items IH]; intros ls; cbn [parse_links]; [intros [= <-]; constructor |].
  destruct (parse_link item) as [l |] eqn:E; cbn [result_bind]; [| done].
  destruct (parse_links items) as [ls' |]; cbn [result_bind]; [| done]. intros [= <-].
  constructor; [by eapply parse_link_ok | by apply IH].
Qed.

Lemma parse_links_objects ls : Forall link_ok ls -> parse_links (map link_object ls) = Ok ls.
Proof. induction 1 as [| l ls Hl _ IH]; [done |]. cbn [map parse_links]. by rewrite parse_link_object, IH. Qed.

(** The bridge only ever acts on well-formed requests: a request that is
    accepted has a known action, a config id, links with a sender, an address, a
    port of 1 to 65535 and the flow type in capitals, and at least one of them
    to configure; and every such request is accepted as it is. *)
Theorem accepted_requests (r : Request) :
  request_ok r <-> exists json, parse_request json = Ok r.
Proof.
  split.
  - intros (Ha & Hc & Hl & Hcfg). exists (Ok (request_object r)). unfold parse_request, request_object.
    assert (Hne : action r <> EmptyString) by (intros E; by rewrite E in Ha).
    change (fields_get "action" _) with (Some (JStr (action r))). rewrite non_empty_str, Ha by done. cbn [negb].
    change (fields_get "config_id" _) with (Some (JStr (config_id r))).
    change (fields_get "links" _) with (Some (JArr (map link_object (links r)))).
    cbv beta iota. rewrite parse_links_objects by done.
    destruct r as [a c ls]. cbn [action config_id links] in *. destruct c as [| x c]; [done |]. cbn [result_bind].
    case_bool_decide as E; [| done]. rewrite bool_decide_eq_false_2 by auto. done.
  - intros ([json | e] & E); [| done]. unfold parse_request in E. destruct json as [| | | | | | map]; try done.
    destruct (non_empty _) as [a |]; [| done]. destruct (is_known_action a) eqn:Ha; cbn [negb] in E; [| done].
    destruct (match fields_get "config_id" map with Some _ => _ | None => _ end) as [c |] eqn:Ec; cbn [result_bind] in E; [| done].
    destruct (match fields_get "links" map with Some _ => _ | None => _ end) as [ls |] eqn:El; cbn [result_bind] in E; [| done].
    assert (Hls : Forall link_ok ls).
    { destruct (fields_get "links" map) as [[| | | | | items |] |]; try done; [by eapply parse_links_ok |]. injection El as <-. constructor. }
    assert (Hc : c <> EmptyString).
    { destruct (fields_get "config_id" map) as [[| | | | [|] | |] |]; try done; by injection Ec as <-. }
    destruct (bool_decide (a = "configure") && bool_decide (ls = [])) eqn:Eb; [done |]. injection E as <-.
    split; [done |]. split; [done |]. split; [done |]. cbn [action links]. intros -> ->. done.
Qed.

(** ** Responses *)

Definition hex_val (c : ascii) : option N :=
  let n := N_of_ascii c in
  if (48 <=? n)%N && (n <=? 57)%N then Some (n - 48)%N
  else if (97 <=? n)%N && (n <=? 102)%N then Some (n - 87)%N
  else None.

(** The character a two-character escape stands for. *)
Definition escaped (e : ascii) : option ascii :=
  if (e =? "n")%char then Some (ascii_of_N 10)
  else if (e =? "r")%char then Some (ascii_of_N 13)
  else if (e =? "t")%char then Some (ascii_of_N 9)
  else if (e =? "b")%char then Some (ascii_of_N 8)
  else if (e =? "f")%char then Some (ascii_of_N 12)
  else if (e =? QUOTE)%char || (e =? "\")%char || (e =? "/")%char then Some e
  else None.

(** A JSON string read up to its closing quote: no raw control character, the
    escapes of the grammar ([\u] up to 7f). *)
Fixpoint read_literal (s : string) : option (string * string) :=
  match s with
  | EmptyString => None
  | String c s =>
      let continue ch rest := match rest with Some (t, r) => Some (String ch t, r) | None => None end in
      if (c =? QUOTE)%char then Some (EmptyString, s)
      else if (c =? "\")%char then
        match s with
        | String e s =>
            if (e =? "u")%char then
              match s with
              | String h1 (String h2 (String h3 (String h4 s))) =>
                  match hex_val h1, hex_val h2, hex_val h3, hex_val h4 with
                  | Some 0%N, Some 0%N, Some a, Some b =>
                      if (16 * a + b <? 128)%N then continue (ascii_of_N (16 * a + b)) (read_literal s) else None
                  | _, _, _, _ => None
                  end
              | _ => None
              end
            else match escaped e with
                 | Some ch => continue ch (read_literal s)
                 | None => None
                 end
        | EmptyString => None
        end
      else if (N_of_ascii c <? 32)%N then None
      else continue c (read_literal s)
  end.

Lemma read_escaped_char c s :
  read_literal (json_escape_char c +:+ s) =
    match read_literal s with Some (t, r) => Some (String c t, r) | None => None end.
Proof. destruct c as [[] [] [] [] [] [] [] []]; reflexivity. Qed.

Lemma read_escaped s r : read_literal (json_escape s +:+ String QUOTE r) = Some (s, r).
Proof.
  induction s as [| c s IH]; [done |]. cbn [json_escape]. by rewrite append_assoc, read_escaped_char, IH.
Qed.

Definition expect (lit s : string) : option string :=
  if String.prefix lit s then Some (str_drop (String.length lit) s) else None.

(** The four keys of a response, read as JSON. *)
Definition read_response (s : string) : option (bool * string * string * string) :=
  s ← expect ("{" +:+ quote +:+ "ok" +:+ quote +:+ ":") s;
  '(ok, s) ← match expect "true" s with
             | Some s => Some (true, s)
             | None => s ← expect "false" s; Some (false, s)
             end;
  s ← expect ("," +:+ quote +:+ "state" +:+ quote +:+ ":" +:+ quote) s;
  '(state, s) ← read_literal s;
  s ← expect ("," +:+ quote +:+ "error" +:+ quote +:+ ":" +:+ quote) s;
  '(error, s) ← read_literal s;
  s ← expect ("," +:+ quote +:+ "ecc_error" +:+ quote +:+ ":" +:+ quote) s;
  '(ecc_error, s) ← read_literal s;
  s ← expect "}" s;
  match s with EmptyString => Some (ok, state, error, ecc_error) | _ => None end.

Lemma expect_app lit s : expect lit (lit +:+ s) = Some s.
Proof.
  unfold expect. assert (E : String.prefix lit (lit +:+ s) = true); [| by rewrite E, str_drop_app_all].
  induction lit as [| c lit IH]; [apply prefix_nil |]. rewrite append_cons. cbn. by destruct (ascii_dec c c).
Qed.

Lemma read_state_name st r : read_literal (state_as_str st +:+ String QUOTE r) = Some (state_as_str st, r).
Proof. by destruct st. Qed.

Lemma read_error_name e r : read_literal (error_as_str e +:+ String QUOTE r) = Some (error_as_str e, r).
Proof. by destruct e. Qed.

(** A response is one JSON object that says exactly what the bridge meant,
    whatever characters the error text holds: all four keys, and the names of the
    state and of the error flag. *)
Theorem response_read_back (ok : bool) (state : State) (error : string) (ecc_error : Error) :
  read_response (make_response ok state error ecc_error) = Some (ok, state_as_str state, error, error_as_str ecc_error).
Proof.
  assert (E : make_response ok state error ecc_error =
    ("{" +:+ quote +:+ "ok" +:+ quote +:+ ":") +:+ (if ok then "true" else "false") +:+
    ("," +:+ quote +:+ "state" +:+ quote +:+ ":" +:+ quote) +:+ state_as_str state +:+ String QUOTE
    (("," +:+ quote +:+ "error" +:+ quote +:+ ":" +:+ quote) +:+ json_escape error +:+ String QUOTE
    (("," +:+ quote +:+ "ecc_error" +:+ quote +:+ ":" +:+ quote) +:+ error_as_str ecc_error +:+ String QUOTE
    ("}" +:+ EmptyString)))) by (destruct ok; reflexivity).
  rewrite E. unfold read_response. rewrite expect_app. cbn [mbind option_bind].
  destruct ok; [| change (expect "true" _) with (@None string)]; rewrite expect_app; cbn [mbind option_bind];
    rewrite expect_app; cbn [mbind option_bind]; rewrite read_state_name; cbn [mbind option_bind];
    rewrite expect_app; cbn [mbind option_bind]; rewrite read_escaped; cbn [mbind option_bind];
    rewrite expect_app; cbn [mbind option_bind]; rewrite read_error_name; cbn [mbind option_bind];
    by rewrite expect_app.
Qed.
