(* ===== verification/EccRun.v ===== *)
(** * EccRun: the run sequence and the ECC's transition table together

    The controller ([src/controller/sequencer.rs]) walks the ECC back before a
    run and drives it to [Running]; [src/ecc/core.rs] holds the table of what
    the ECC does with each action, silent refusals included.  The theorems put
    the two together: against an ECC that follows the table the walk always
    arrives, and no start fails because of the ECC. *)

From stdpp Require Import gmap strings.
From S2P Require Import Prelude Command Controller Sequencer EccCore.
Open Scope list_scope.
Open Scope Z_scope.

(** ** What leaves the ECC alone *)

(** A run sequence step that keeps [I], if commands to components and pauses do. *)
Definition keeps {T A : Type} (I : T -> Prop) (m : Seq T A) : Prop := forall s a s',
  m s = Val (a, s') -> I (transport s) -> I (transport s').

Create HintDb keeps.

Section Keeps.
Context {T : Type} `{Transport T} (params : ControllerParams) (I : T -> Prop).
Hypothesis I_command : forall ep cmd t a u, transport_command ep cmd t = (a, u) -> I t -> I u.
Hypothesis I_sleep : forall ms t, I t -> I (transport_sleep ms t).

Lemma keeps_ret {A} (a : A) : keeps I (seq_ret a).
Proof. by intros s a' s' [= _ <-]. Qed.

Lemma keeps_bind {A B} (m : Seq T A) (k : A -> Seq T B) : keeps I m -> (forall a, keeps I (k a)) -> keeps I (seq_bind m k).
Proof.
  intros Hm Hk s b s' E Hi. unfold seq_bind in E. destruct (m s) as [[a s1] | |] eqn:Em; cbn [rust_bind] in E; try done.
  exact (Hk a s1 b s' E (Hm s a s1 Em Hi)).
Qed.

Lemma keeps_try {A B E} (m : Seq T (result A E)) (k : A -> Seq T (result B E)) :
  keeps I m -> (forall a, keeps I (k a)) -> keeps I (seq_try m k).
Proof. intros Hm Hk. apply keeps_bind; [done |]. intros [a | e]; [apply Hk | apply keeps_ret]. Qed.

Lemma keeps_command c cmd : keeps I (command c cmd).
Proof.
  intros s a s' E Hi. unfold command in E. destruct (transport_command _ _ _) as [r t] eqn:Ec.
  injection E as <- <-. by eapply I_command.
Qed.

Lemma keeps_sleep ms : keeps I (sleep ms).
Proof. intros s a s' [= _ <-] Hi. by apply I_sleep. Qed.

Lemma keeps_fuel {A} : keeps I (fun _ => OutOfFuel : rust (A * Sequencer T)).
Proof. by intros s a s'. Qed.

Lemma keeps_now : keeps I instant_now.
Proof. by intros s a s' [= _ <-]. Qed.
Lemma keeps_elapsed b : keeps I (elapsed_since b).
Proof. by intros s a s' [= _ <-]. Qed.
Lemma keeps_remember run : keeps I (remember_run run).
Proof. by intros s a s' [= _ <-]. Qed.
Lemma keeps_take : keeps I take_walked_back.
Proof. by intros s a s' [= _ <-]. Qed.

#[local] Hint Resolve keeps_ret keeps_command keeps_sleep keeps_fuel keeps_now keeps_elapsed keeps_remember keeps_take : keeps.

(** Follows the code: binds, then a case for every case. *)
Ltac keeps_step :=
  match goal with
  | |- forall _, _ => intro
  | |- keeps _ (seq_bind _ _) => apply keeps_bind
  | |- keeps _ (seq_try _ _) => apply keeps_try
  | |- keeps _ (let x := _ in _) => cbv zeta
  | |- keeps _ (let '(_, _) := ?x in _) => destruct x
  | |- keeps _ (if ?x then _ else _) => destruct x
  | |- keeps _ (match ?x with _ => _ end) => destruct x
  | |- keeps _ _ => solve [eauto with keeps]
  end.
Ltac keeps_tac := repeat keeps_step.

Lemma keeps_apply c cmd : keeps I (apply c cmd).
Proof. unfold apply. keeps_tac. Qed.
#[local] Hint Resolve keeps_apply : keeps.

Lemma keeps_apply_noted c cmd notes : keeps I (apply_noted c cmd notes).
Proof. unfold apply_noted. keeps_tac. Qed.
#[local] Hint Resolve keeps_apply_noted : keeps.

Lemma keeps_eos_complete notes : keeps I (eos_complete params notes).
Proof.
  unfold eos_complete. generalize (components params) as cs. intros cs. revert notes.
  induction cs as [| c cs IH]; intros notes; cbn [eos_complete_of]; keeps_tac.
Qed.
#[local] Hint Resolve keeps_eos_complete : keeps.

Lemma keeps_receiver_bytes cs gone notes : keeps I (receiver_bytes_of cs gone notes).
Proof. revert gone notes. induction cs as [| c cs IH]; intros gone notes; cbn [receiver_bytes_of]; keeps_tac. Qed.
#[local] Hint Resolve keeps_receiver_bytes : keeps.

Lemma keeps_wait_for_eos notes : keeps I (wait_for_eos params notes).
Proof.
  unfold wait_for_eos. generalize (wait_fuel params) as fuel, 0 as waited. intros fuel. revert notes.
  induction fuel as [| fuel IH]; intros notes waited; cbn [wait_loop]; keeps_tac.
Qed.

Lemma keeps_quiesce_loop fuel : forall waited previous still gone notes,
  keeps I (quiesce_loop params fuel waited previous still gone notes).
Proof. induction fuel as [| fuel IH]; intros; cbn [quiesce_loop]; keeps_tac. Qed.

Lemma keeps_wait_or_quiesce notes : keeps I (wait_for_eos_or_quiesce params notes).
Proof. apply keeps_quiesce_loop. Qed.
#[local] Hint Resolve keeps_wait_for_eos keeps_wait_or_quiesce : keeps.

Lemma keeps_collect_status notes : keeps I (collect_status params notes).
Proof.
  unfold collect_status. generalize (components params) as cs. intros cs. revert notes.
  induction cs as [| c cs IH]; intros notes; cbn [collect_status_of]; keeps_tac.
Qed.

Lemma keeps_step_each which cmd steps : keeps I (step_each which cmd steps).
Proof. induction steps as [| s steps IH]; cbn [step_each]; unfold walk_back_step; keeps_tac. Qed.

Lemma keeps_survey cs : keeps I (survey cs).
Proof. induction cs as [| c cs IH]; cbn [survey]; keeps_tac. Qed.
#[local] Hint Resolve keeps_collect_status keeps_step_each keeps_survey : keeps.

Lemma keeps_walk_components : keeps I (walk_components_back_to_idle params).
Proof. unfold walk_components_back_to_idle, close_previous. keeps_tac. Qed.

Lemma keeps_apply_each cmd cs i touched : keeps I (apply_each cmd cs i touched).
Proof. revert i touched. induction cs as [| c cs IH]; intros i touched; cbn [apply_each]; keeps_tac. Qed.

Lemma keeps_arm_loop fuel c began attempt backoff last retries : keeps I (arm_loop fuel c began attempt backoff last retries).
Proof.
  revert attempt backoff last. induction fuel as [| fuel IH]; intros attempt backoff last; cbn [arm_loop]; keeps_tac.
Qed.
#[local] Hint Resolve keeps_arm_loop : keeps.

Lemma keeps_arm_each cs i touched ls retries : keeps I (arm_each params cs i touched ls retries).
Proof.
  revert i touched ls retries. induction cs as [| c cs IH]; intros i touched ls retries; cbn [arm_each];
    unfold arm_with_retry; keeps_tac.
Qed.

Lemma keeps_rollback stage detail touched : keeps I (rollback params stage detail touched).
Proof.
  unfold rollback. apply keeps_bind; [| keeps_tac]. generalize (touched_components params touched) as cs, (@nil string) as notes.
  induction cs as [| c cs IH]; intros notes; cbn [rollback_each]; keeps_tac.
Qed.
End Keeps.

(** ** An ECC that follows the table *)

(** The ECC behind the transport takes every action as [next_state] says, refuses
    what is denied, and is moved by nothing else. *)
Class EccLaws (T : Type) `{Transport T} := {
  ecc_at : T -> State;
  law_step : forall a fields t, exists reply u,
    transport_ecc (JObj (("action", JStr a) :: fields)) t = (Ok reply, u) /\
    ecc_ok reply = negb (bool_decide (step (next_state (ecc_at t) a) = Denied)) /\
    ecc_state reply = state_as_str (next (next_state (ecc_at t) a)) /\
    ecc_at u = next (next_state (ecc_at t) a);
  law_component : forall ep cmd t a u, transport_command ep cmd t = (a, u) -> ecc_at u = ecc_at t;
  law_pause : forall ms t, ecc_at (transport_sleep ms t) = ecc_at t;
}.

(** The actions a state is away from rest. *)
Definition distance (st : State) : nat :=
  match st with
  | Described => 1
  | Prepared => 2
  | Ready => 3
  | Running | Paused => 4
  | _ => 0
  end.

Definition resting (st : State) : Prop := st = Idle \/ st = Off.

Section Ecc.
Context {T : Type} `{EccLaws T} (params : ControllerParams).

(** One action that is not denied. *)
Lemma apply_ecc_step a fields s st st' :
  ecc_at (transport s) = st -> step (next_state st a) <> Denied -> next (next_state st a) = st' ->
  exists s', apply_ecc (JObj (("action", JStr a) :: fields)) s = Val (Ok (state_as_str st'), s') /\
    ecc_at (transport s') = st'.
Proof.
  intros Hst Hok Hnext. unfold apply_ecc, seq_bind, ecc. cbn [rust_bind].
  destruct (law_step a fields (transport s)) as (reply & u & -> & Hr & Hs & Hu). rewrite Hst, Hnext in *.
  cbn [rust_bind]. unfold seq_ret, ecc_applied. rewrite Hr, Hs, bool_decide_eq_false_2 by done. by eexists.
Qed.

Lemma walk_turn a st st' fuel steps trail s :
  ecc_at (transport s) = st -> at_rest (state_as_str st) = false -> walk_back_action (state_as_str st) = Some a ->
  step (next_state st a) <> Denied -> next (next_state st a) = st' -> st' <> st -> steps <> 4 ->
  exists s', ecc_at (transport s') = st' /\
    walk_ecc_loop (S fuel) (state_as_str st) steps trail s =
      walk_ecc_loop fuel (state_as_str st') (steps + 1) (trail ++ [a +:+ "->" +:+ state_as_str st']) s'.
Proof.
  intros Hst Hr Ha Hok Hnext Hne Hsteps. cbn [walk_ecc_loop]. rewrite Hr, Ha.
  destruct (Z.eqb_spec steps ECC_WALK_BACK_MAX_STEPS) as [E | _]; [done |].
  unfold seq_try, seq_bind, action_request. destruct (apply_ecc_step a [] s st st' Hst Hok Hnext) as (s' & -> & Hs').
  cbn [rust_bind]. exists s'. split; [done |]. rewrite bool_decide_eq_false_2; [done |].
  intros E. apply Hne. by rewrite <- (state_from_as_str st), <- (state_from_as_str st'), E.
Qed.

Lemma walk_arrives fuel : forall st steps trail s,
  st <> Unknown -> ecc_at (transport s) = st -> (distance st < fuel)%nat -> steps + Z.of_nat (distance st) <= 4 ->
  exists st' trail' s', walk_ecc_loop fuel (state_as_str st) steps trail s = Val (Ok (state_as_str st', trail'), s') /\
    resting st' /\ ecc_at (transport s') = st' /\ length trail' = (length trail + distance st)%nat.
Proof.
  induction fuel as [| fuel IH]; intros st steps trail s Hst Hs Hf Hsteps; [lia |].
  assert (Hstep : forall a st', at_rest (state_as_str st) = false -> walk_back_action (state_as_str st) = Some a ->
    step (next_state st a) <> Denied -> next (next_state st a) = st' -> st' <> st -> st' <> Unknown ->
    distance st = S (distance st') ->
    exists st' trail' s', walk_ecc_loop (S fuel) (state_as_str st) steps trail s = Val (Ok (state_as_str st', trail'), s') /\
      resting st' /\ ecc_at (transport s') = st' /\ length trail' = (length trail + distance st)%nat).
  { intros a st' Hr Ha Hok Hnext Hne Hun Hd.
    destruct (walk_turn a st st' fuel steps trail s Hs Hr Ha Hok Hnext Hne) as (s1 & Hs1 & ->); [lia |].
    destruct (IH st' (steps + 1) (trail ++ [a +:+ "->" +:+ state_as_str st']) s1 Hun Hs1)
      as (st2 & t2 & s2 & E & Hrest & Hs2 & Hl); [lia | lia |].
    exists st2, t2, s2. split; [done |]. split; [done |]. split; [done |]. rewrite Hl, length_app. cbn [length]. lia. }
  destruct st; try done.
  - exists Off, trail, s. split; [done |]. split; [by right |]. split; [done |]. cbn. lia.
  - exists Idle, trail, s. split; [done |]. split; [by left |]. split; [done |]. cbn. lia.
  - by apply (Hstep "reset" Idle).
  - by apply (Hstep "reset" Described).
  - by apply (Hstep "breakup" Prepared).
  - by apply (Hstep "stop" Ready).
  - by apply (Hstep "stop" Ready).
Qed.

Lemma walk_ecc_arrives s :
  ecc_at (transport s) <> Unknown ->
  exists st trail s', walk_ecc_back_to_idle s = Val (Ok (state_as_str st, trail), s') /\
    resting st /\ ecc_at (transport s') = st /\ length trail = S (distance (ecc_at (transport s))).
Proof.
  intros Hst. unfold walk_ecc_back_to_idle, seq_try, seq_bind, action_request.
  destruct (apply_ecc_step "status" [] s (ecc_at (transport s)) (ecc_at (transport s))) as (s1 & -> & Hs1); [done | done | done |].
  cbn [rust_bind].
  destruct (walk_arrives (S (S (Z.to_nat ECC_WALK_BACK_MAX_STEPS))) (ecc_at (transport s)) 0
    ["status->" +:+ state_as_str (ecc_at (transport s))] s1 Hst Hs1) as (st & trail & s2 & E & Hr & Hs2 & Hl).
  - unfold ECC_WALK_BACK_MAX_STEPS. destruct (ecc_at (transport s)); cbn [distance]; lia.
  - unfold ECC_WALK_BACK_MAX_STEPS. destruct (ecc_at (transport s)); cbn [distance]; lia.
  - by exists st, trail, s2.
Qed.

(** The four requests of a start. *)
Lemma requests_reach_running ls s :
  resting (ecc_at (transport s)) ->
  exists s', ecc_each (ecc_requests params ls) s = Val (Ok tt, s') /\ ecc_at (transport s') = Running.
Proof.
  intros Hr. unfold ecc_requests, configure_request, action_request. cbn [ecc_each]. unfold seq_try, seq_bind.
  assert (H1 : forall fields, exists s', apply_ecc (JObj (("action", JStr "describe") :: fields)) s = Val (Ok "Described", s') /\
    ecc_at (transport s') = Described).
  { intros fields. destruct Hr as [E | E]; by apply (apply_ecc_step "describe" fields s _ Described E). }
  edestruct H1 as (s1 & -> & E1). cbn [rust_bind].
  edestruct (apply_ecc_step "prepare") as (s2 & -> & H2); [exact E1 | done | reflexivity |]. cbn [rust_bind].
  edestruct (apply_ecc_step "configure") as (s3 & -> & H3); [exact H2 | done | reflexivity |]. cbn [rust_bind].
  edestruct (apply_ecc_step "start" []) as (s4 & -> & H4); [exact H3 | done | reflexivity |]. cbn [rust_bind].
  exists s4. split; [done | exact H4].
Qed.

Lemma rollback_stage stage detail touched s f s' : rollback params stage detail touched s = Val (f, s') -> Sequencer.stage f = stage.
Proof.
  unfold rollback, seq_bind, take_walked_back. destruct (rollback_each _ _ s) as [[notes s1] | |]; cbn [rust_bind]; [| done | done].
  by intros [= <- _].
Qed.
End Ecc.

Section EccTheorems.
Context {T : Type} `{EccLaws T} (params : ControllerParams).

(** From every state the ECC can be in, running and paused included, the walk
    back ends in [Idle] (or [Off], before the first describe) after exactly the
    actions the state is away from it, and the four requests of a start then
    take it to [Running]; a single [reset], or a [configure] out of turn, is
    taken in silence and changes nothing. *)
Theorem ecc_walk_arrives (s : Sequencer T) (ls : list RouterLink) (Hknown : ecc_at (transport s) <> Unknown) :
  exists st trail s' s'',
    walk_ecc_back_to_idle s = Val (Ok (state_as_str st, trail), s') /\
    resting st /\ length trail = S (distance (ecc_at (transport s))) /\
    ecc_each (ecc_requests params ls) s' = Val (Ok tt, s'') /\ ecc_at (transport s'') = Running /\
    (active (ecc_at (transport s)) = true ->
     next_state (ecc_at (transport s)) "reset" = mkTransition Ignored (ecc_at (transport s)) EmptyString /\
     next_state (ecc_at (transport s)) "configure" = mkTransition Ignored (ecc_at (transport s)) EmptyString).
Proof.
  destruct (walk_ecc_arrives s Hknown) as (st & trail & s1 & E & Hr & Hs1 & Hl).
  destruct (requests_reach_running params ls s1) as (s2 & E2 & H2); [by rewrite Hs1 |].
  exists st, trail, s1, s2. split; [done |]. split; [done |]. split; [done |]. split; [done |]. split; [done |].
  by destruct (ecc_at (transport s)).
Qed.

(** Against an ECC that follows the table a start never fails because of the
    ECC: it returns, and either the ECC is running or a component refused, the
    ECC has not been started and is at rest. *)
Theorem start_never_blames_ecc (run : Z) (comment ts : string) (s : Sequencer T)
    (Hpoll : 0 < eos_poll params) (Htimeout : 0 <= eos_timeout params) (Hknown : ecc_at (transport s) <> Unknown) :
  exists r s', start_run params run comment ts s = Val (r, s') /\
    match r with
    | Ok _ => ecc_at (transport s') = Running
    | Err f => resting (ecc_at (transport s')) /\ stage f <> "ecc"
    end.
Proof.
  destruct (does_start_run params Hpoll Htimeout run comment ts s) as (r & s' & _ & E & _).
  exists r, s'. split; [exact E |]. revert E.
  assert (Hk : forall st, (forall ep cmd t a u, transport_command ep cmd t = (a, u) -> ecc_at t = st -> ecc_at u = st) /\
                          (forall ms t, ecc_at t = st -> ecc_at (transport_sleep ms t) = st)).
  { intros st. split; [intros ep cmd t a u Hc <-; by eapply law_component | intros ms t <-; apply law_pause]. }
  unfold start_run, seq_bind at 1.
  destruct (walk_ecc_arrives s Hknown) as (st & trail & s1 & -> & Hr & Hs1 & _). cbn [rust_bind or_rollback].
  destruct (Hk st) as [Kc Ks]. clear Hk.
  assert (Hroll : forall (A : Type) (stage detail : string) touched (r : result A StartFailure) s1 s2,
    stage <> "ecc" -> ecc_at (transport s1) = st ->
    (let* f := rollback params stage detail touched in seq_ret (Err f)) s1 = Val (r, s2) ->
    match r with Ok _ => ecc_at (transport s2) = Running | Err f => resting (ecc_at (transport s2)) /\ Sequencer.stage f <> "ecc" end).
  { intros A stage detail touched r0 s2 s3 Hne Hs2. unfold seq_bind.
    destruct (rollback params stage detail touched s2) as [[f s4] | |] eqn:Er; cbn [rust_bind]; [| done | done].
    intros [= <- <-]. rewrite (keeps_rollback params (fun t => ecc_at t = st) Kc _ _ _ _ _ _ Er Hs2).
    split; [done |]. by rewrite (rollback_stage _ _ _ _ _ _ _ Er). }
  unfold seq_bind at 1. destruct (walk_components_back_to_idle params s1) as [[w s2] | |] eqn:Ew; cbn [rust_bind]; [| done | done].
  pose proof (keeps_walk_components params (fun t => ecc_at t = st) Kc Ks _ _ _ Ew Hs1) as Hs2.
  destruct w as [trail' | detail]; cbn [or_rollback]; [| by apply Hroll].
  unfold seq_bind at 1. destruct (apply_each _ _ _ _ s2) as [[[c touched] s3] | |] eqn:Ec; cbn [rust_bind]; [| done | done].
  pose proof (keeps_apply_each (fun t => ecc_at t = st) Kc _ _ _ _ _ _ _ Ec Hs2) as Hs3.
  destruct c as [[] | detail]; cbn [or_rollback]; [| by apply Hroll].
  unfold seq_bind at 1. destruct (arm_each _ _ _ _ _ _ s3) as [[[a touched'] s4] | |] eqn:Ea; cbn [rust_bind]; [| done | done].
  pose proof (keeps_arm_each params (fun t => ecc_at t = st) Kc Ks _ _ _ _ _ _ _ _ Ea Hs3) as Hs4.
  destruct a as [[links retries] | detail]; cbn [or_rollback]; [| by apply Hroll].
  unfold seq_bind at 1. destruct (apply_each _ _ _ _ s4) as [[[c touched''] s5] | |] eqn:Es; cbn [rust_bind]; [| done | done].
  pose proof (keeps_apply_each (fun t => ecc_at t = st) Kc _ _ _ _ _ _ _ Es Hs4) as Hs5.
  destruct c as [[] | detail]; cbn [or_rollback]; [| by apply Hroll].
  unfold seq_bind at 1. destruct (requests_reach_running params links s5) as (s6 & -> & H6); [by rewrite Hs5 |].
  cbn [rust_bind or_rollback]. unfold seq_bind, take_walked_back, seq_ret. cbn [rust_bind]. intros [= <- <-]. exact H6.
Qed.
End EccTheorems.

(** ** A plant with such an ECC *)

Record TablePlant : Type := mkTablePlant {
  table_state : State;
  refusing : list string;
}.

Definition table_command (ep : string) (cmd : Command) (p : TablePlant) : result CommandResponse string * TablePlant :=
  let refused := bool_decide (ep ∈ refusing p) && match cmd with Start _ => true | _ => false end in
  (Ok (mkResponse (negb refused) Command.Idle "" None (Some (JObj [("router_port", JNum 46005)]))), p).

Definition table_ecc (request : Json) (p : TablePlant) : result EccReply string * TablePlant :=
  let a := default EmptyString (json_get "action" request ≫= as_str) in
  let t := next_state (table_state p) a in
  (Ok (mkEccReply (negb (bool_decide (step t = Denied))) (state_as_str (next t)) (transition_error t) "NO_ERR"),
   mkTablePlant (next t) (refusing p)).

#[local] Instance table_transport : Transport TablePlant := {
  transport_command := table_command;
  transport_ecc := table_ecc;
  transport_sleep := fun _ p => p;
  clock_ms := fun _ => 0;
}.

Lemma table_step a fields p : exists reply u,
  table_ecc (JObj (("action", JStr a) :: fields)) p = (Ok reply, u) /\
  ecc_ok reply = negb (bool_decide (step (next_state (table_state p) a) = Denied)) /\
  ecc_state reply = state_as_str (next (next_state (table_state p) a)) /\
  table_state u = next (next_state (table_state p) a).
Proof. eexists _, _. split; [reflexivity |]. done. Qed.

Lemma table_component ep cmd p a u : table_command ep cmd p = (a, u) -> table_state u = table_state p.
Proof. by intros [= _ <-]. Qed.

#[local] Instance table_laws : EccLaws TablePlant := {
  ecc_at := table_state;
  law_step := table_step;
  law_component := table_component;
  law_pause := fun _ _ => eq_refl;
}.

Lemma ecc_walk_arrives_witness :
  exists st trail s' s'',
    walk_ecc_back_to_idle (sequencer_new (mkTablePlant Paused [])) = Val (Ok (state_as_str st, trail), s') /\
    resting st /\ length trail = 5%nat /\
    ecc_each (ecc_requests sample_params []) s' = Val (Ok tt, s'') /\ ecc_at (transport s'') = Running /\
    (active Paused = true ->
     next_state Paused "reset" = mkTransition Ignored Paused EmptyString /\
     next_state Paused "configure" = mkTransition Ignored Paused EmptyString).
Proof. exact (@ecc_walk_arrives TablePlant table_transport table_laws sample_params (sequencer_new (mkTablePlant Paused [])) [] ltac:(vm_compute; discriminate)). Defined.

Lemma start_never_blames_ecc_witness :
  exists r s', start_run sample_params 8 "gas" "ts" (sequencer_new (mkTablePlant Ready ["tcp://dec"])) = Val (r, s') /\
    match r with
    | Ok _ => table_state (transport s') = Running
    | Err f => resting (table_state (transport s')) /\ stage f <> "ecc"
    end.
Proof.
  refine (@start_never_blames_ecc TablePlant table_transport table_laws sample_params 8 "gas" "ts" (sequencer_new (mkTablePlant Ready ["tcp://dec"])) (proj1 sample_times) (proj2 sample_times) _).
  vm_compute. discriminate.
Defined.
