(* ===== verification/EccBridge.v ===== *)
(** * EccBridge: the proxy of the ECC's state machine and the bridge's handler

    Models [src/ecc/proxy.rs] (the typed proxy: connecting on demand, the calls,
    what becomes of a failure) and the request handler of
    [src/bin/ecc_bridge.rs].  The network is a parameter: what a name resolves
    to, what becomes of each connection attempt and of each write, and the bytes
    every connection will deliver.  [wire] records the requests that went out,
    over all connections.  The REP socket, the signals and the log are not
    modelled. *)

From Stdlib Require Import Ascii.
From stdpp Require Import pretty strings.
From S2P Require Import Prelude Bytes Utf8 Decimal Text Command IceCodec IceProto IceClient EccCore.
Open Scope list_scope.
Open Scope Z_scope.

(** ** Text *)

Definition status_name (k : ReplyStatus) : string :=
  match k with
  | StatusOk => "Ok"
  | StatusUserException => "UserException"
  | ObjectNotExist => "ObjectNotExist"
  | FacetNotExist => "FacetNotExist"
  | OperationNotExist => "OperationNotExist"
  | UnknownLocalException => "UnknownLocalException"
  | UnknownUserException => "UnknownUserException"
  | UnknownException => "UnknownException"
  end.

Definition identity_text (i : Identity) : string :=
  if bool_decide (id_category i = []) then bytes_text (id_name i)
  else bytes_text (id_category i) +:+ "/" +:+ bytes_text (id_name i).

Definition local_text (e : LocalError) : string :=
  match e with
  | Connect cause => "connect failed: " +:+ cause
  | Lost cause => "connection lost: " +:+ cause
  | Protocol cause => "protocol violation: " +:+ cause
  end.

(** ** Values on the wire *)

Definition WIRE_STATES : list State := [Off; Idle; Described; Prepared; Ready; Running; Paused].

Definition WIRE_ERRORS : list Error :=
  [NoErr; WhenDescribe; WhenPrepare; WhenConfigure; WhenStart; WhenStop; WhenPause; WhenResume; WhenBreakup; WhenReset].

Definition CMD_EXCEPTION_TYPE_ID : string := "::mdaq::utl::CmdException".

Definition state_from_wire (value : Z) : State := default Unknown (get WIRE_STATES value).
Definition error_from_wire (value : Z) : Error := default ErrorUnknown (get WIRE_ERRORS value).

Record Observed : Type := mkObserved {
  observed_state : State;
  observed_error : Error;
}.

Definition observed_default : Observed := mkObserved Unknown ErrorUnknown.

Record ProxySpec : Type := mkProxySpec {
  spec_identity : string;
  host : string;
  port : Z;
}.

(** ** The network *)

(** What becomes of one connection attempt. *)
Record Dial : Type := mkDial {
  tcp : result unit string;
  nodelay : result unit string;
  arm : result unit string;
  disarm : result unit string;
  timed_out : string;
  stream : bytes;
  stream_ending : Ending;
}.

Class Net (W : Type) := {
  net_lookup : string -> Z -> W -> result (list string) string * W;
  net_dial : string -> W -> Dial * W;
  net_io : W -> result unit string * result unit string * W;
}.

(** The proxy: its connection (with the peer it is to), the world, and the
    requests that went out so far. *)
Record EccProxy (W : Type) : Type := mkProxy {
  connection : option (string * IceConnection);
  world : W;
  wire : list IceProto.Request;
}.
Arguments mkProxy {W} _ _ _.
Arguments connection {W} _.
Arguments world {W} _.
Arguments wire {W} _.

#[export] Instance eta_EccProxy {W} : Eta (EccProxy W) := fun p => mkProxy (connection p) (world p) (wire p).

(** A proxy operation returns a value or the line that says what failed, or
    ([None]) is still waiting for the server. *)
Definition Br (W A : Type) : Type := EccProxy W -> rust (option (result A string) * EccProxy W).

Definition br_ret {W A : Type} (a : A) : Br W A := fun p => Val (Some (Ok a), p).
Definition br_fail {W A : Type} (e : string) : Br W A := fun p => Val (Some (Err e), p).
Definition br_bind {W A B : Type} (m : Br W A) (k : A -> Br W B) : Br W B := fun p =>
  let! (r, p) := m p in
  match r with
  | Some (Ok a) => k a p
  | Some (Err e) => Val (Some (Err e), p)
  | None => Val (None, p)
  end.
Notation "'let+' x := m 'in' k" := (br_bind m (fun x => k))
  (at level 10, x pattern, m at level 100, k at level 200) : rust_scope.

Section Proxy.
Context {W : Type} `{Net W}.
Variable spec : ProxySpec.
(** [CONNECT_TIMEOUT], as it is printed. *)
Variable timeout : string.
(** The standard library's [Debug] of a [str]. *)
Variable debug_str : bytes -> string.

Definition ice_text (e : IceError) : string :=
  match e with
  | Local e => "ice local error: " +:+ local_text e
  | UserExceptionError type_id body =>
      "ice user exception " +:+ bytes_text type_id +:+ " (" +:+ dec (len body) +:+ " bytes of members)"
  | RequestFailedError kind identity facet operation =>
      "ice request failed (" +:+ status_name kind +:+ "): identity=" +:+ identity_text identity +:+
      " facet=" +:+ debug_str facet +:+ " operation=" +:+ bytes_text operation
  | UnknownError kind message => "ice unknown exception (" +:+ status_name kind +:+ "): " +:+ bytes_text message
  end.

Definition proxy_identity : Identity := mkIdentity (text_bytes (spec_identity spec)) [].

(** One [invoke] on a connection; a request that went out is recorded. *)
Definition exchange (peer : string) (c : IceConnection) (operation : string) (mode : OperationMode) (params : bytes)
    : EccProxy W -> rust (Outcome bytes * IceConnection * EccProxy W) := fun p =>
  let '(written, flushed, w) := net_io (world p) in
  let! (out, c') := invoke peer written flushed proxy_identity (text_bytes operation) operation mode params c in
  let went_out := (length (sent c) <? length (sent c'))%nat in
  let request := call_request c proxy_identity (text_bytes operation) mode params in
  Val (out, c', p <| world := w |> <| wire ::= fun l => if went_out then l ++ [request] else l |>).

Definition resolve : Br W string := fun p =>
  let '(addrs, w) := net_lookup (host spec) (port spec) (world p) in
  let target := host spec +:+ ":" +:+ dec (port spec) in
  let p := p <| world := w |> in
  match addrs with
  | Err e => br_fail ("cannot resolve " +:+ target +:+ ": " +:+ e) p
  | Ok [] => br_fail (target +:+ " resolved to no address") p
  | Ok (peer :: _) => br_ret peer p
  end.

Definition connect : Br W unit := fun p =>
  match connection p with
  | Some _ => br_ret tt p
  | None =>
      (let+ peer := resolve in fun p =>
       let '(d, w) := net_dial peer (world p) in
       let! opened := IceClient.connect peer (tcp d) (nodelay d) (arm d) (disarm d) timeout (timed_out d)
                        (stream d) (stream_ending d) in
       let p := p <| world := w |> in
       match opened with
       | Waiting => Val (None, p)
       | Failed e => br_fail (ice_text e) p
       | Got c =>
           let! (out, c, p) := exchange peer c "ice_ping" Idempotent [] p in
           match out with
           | Waiting => Val (None, p)
           | Failed e => br_fail (ice_text e) p
           | Got _ => br_ret tt (p <| connection := Some (peer, c) |>)
           end
       end) p
  end.

(** The line for a failure, and whether the connection is dropped. *)
Definition fail (e : IceError) : rust (string * bool) :=
  match e with
  | UserExceptionError type_id body =>
      if bool_decide (type_id = text_bytes CMD_EXCEPTION_TYPE_ID) then
        let! reason := read_string (input_new body) in
        match reason with
        | Ok (reason, _) => Val (bytes_text reason, false)
        | Err e => Val (bytes_text type_id +:+ " with an unreadable reason: " +:+ ice_text e, false)
        end
      else Val ("unexpected user exception " +:+ bytes_text type_id, false)
  | other => Val (ice_text other, true)
  end.

Definition call (operation : string) (mode : OperationMode) (params : bytes) : Br W bytes :=
  let+ _ := connect in fun p =>
  match connection p with
  | None => br_fail "ECC proxy not available" p
  | Some (peer, c) =>
      let! (out, c, p) := exchange peer c operation mode params p in
      let p := p <| connection := Some (peer, c) |> in
      match out with
      | Waiting => Val (None, p)
      | Got out => br_ret out p
      | Failed e =>
          let! (line, dropped) := fail e in
          br_fail line (if dropped then p <| connection := None |> else p)
      end
  end.

Fixpoint write_strings_of (values : list string) (out : bytes) : result bytes IceError :=
  match values with
  | [] => Ok out
  | v :: values => let? out := write_string (text_bytes v) out in write_strings_of values out
  end.

Definition string_params (values : list string) : Br W bytes := fun p =>
  match write_strings_of values [] with
  | Ok out => br_ret out p
  | Err e => br_fail ("cannot marshal a string argument: " +:+ ice_text e) p
  end.

Definition call_unit (operation : string) (values : list string) : Br W unit :=
  let+ params := string_params values in
  let+ _ := call operation Normal params in br_ret tt.

Definition describe (config_id : string) : Br W unit := call_unit "describe" [config_id].
Definition prepare (config_id : string) : Br W unit := call_unit "prepare" [config_id].
Definition configure (config_id data_link_set : string) : Br W unit := call_unit "configure" [config_id; data_link_set].
Definition start : Br W unit := call_unit "start" [].
Definition stop : Br W unit := call_unit "stop" [].
Definition breakup : Br W unit := call_unit "breakup" [].
Definition reset : Br W unit := call_unit "reset" [].

Definition read_status (out : bytes) : rust (result Observed string) :=
  let! s := read_enum (input_new out) in
  match s with
  | Err e => Val (Err ("getStatus reply: cannot read Status::s: " +:+ ice_text e))
  | Ok (s, input) =>
      let! e := read_enum input in
      match e with
      | Err e => Val (Err ("getStatus reply: cannot read Status::e: " +:+ ice_text e))
      | Ok (e, input) =>
          let! surplus := remaining input in
          if negb (surplus =? 0) then
            Val (Err ("getStatus reply has " +:+ dec surplus +:+ " unexpected trailing bytes"))
          else Val (Ok (mkObserved (state_from_wire s) (error_from_wire e)))
      end
  end.

Definition get_status : Br W Observed :=
  let+ out := call "getStatus" Normal [] in fun p =>
  let! r := read_status out in Val (Some r, p).

(** ** The handler of the bridge *)

(** A failure is taken for a value. *)
Definition attempt {A : Type} (m : Br W A) : Br W (result A string) := fun p =>
  let! (r, p) := m p in
  match r with
  | Some r => Val (Some (Ok r), p)
  | None => Val (None, p)
  end.

Definition observe : Br W Observed :=
  let+ r := attempt get_status in
  br_ret (match r with Ok observed => observed | Err _ => observed_default end).

Definition dispatch (r : Request) : Br W unit :=
  if bool_decide (action r = "describe") then describe (config_id r)
  else if bool_decide (action r = "prepare") then prepare (config_id r)
  else if bool_decide (action r = "configure") then configure (config_id r) (data_link_set_xml (links r))
  else if bool_decide (action r = "start") then start
  else if bool_decide (action r = "stop") then stop
  else if bool_decide (action r = "breakup") then breakup
  else if bool_decide (action r = "reset") then reset
  else br_fail ("unknown action: " +:+ action r).

Definition handle (json : result Json string) : Br W string :=
  match parse_request json with
  | Err reason =>
      let+ observed := observe in
      br_ret (make_response false (observed_state observed) reason (observed_error observed))
  | Ok request =>
      if bool_decide (action request = "status") then
        let+ r := attempt get_status in
        br_ret (match r with
                | Ok observed => make_response true (observed_state observed) EmptyString (observed_error observed)
                | Err e => make_response false (observed_state observed_default) e (observed_error observed_default)
                end)
      else
        let+ result := attempt (dispatch request) in
        let ok := match result with Ok _ => true | Err _ => false end in
        let+ observed := observe in
        let error := match result with Ok _ => EmptyString | Err e => e end in
        br_ret (make_response ok (observed_state observed) error (observed_error observed))
  end.
End Proxy.

(** ** What an operation of the proxy does *)

Section Talk.
Context {W : Type} `{Net W}.
Variables (spec : ProxySpec) (timeout : string) (debug_str : bytes -> string).

(** No connection ever falls silent: the server answers, closes or fails. *)
Definition responsive : Prop :=
  forall peer w d w', net_dial peer w = (d, w') -> stream_ending d <> Silent.

Definition talks (p : EccProxy W) : Prop :=
  match connection p with
  | Some (_, c) => ending c <> Silent
  | None => True
  end.

(** [m] ends without a panic, having sent [ms] with [P ms r]; with servers that
    are never silent it does not wait for ever. *)
Definition answers {A : Type} (m : Br W A) (P : list IceProto.Request -> option (result A string) -> Prop) : Prop :=
  forall p, exists r p' ms, m p = Val (r, p') /\ wire p' = wire p ++ ms /\ P ms r /\
    (responsive -> talks p -> talks p' /\ r <> None).

Lemma answers_ret {A} (a : A) P : P [] (Some (Ok a)) -> answers (br_ret a) P.
Proof. intros Hp p. exists (Some (Ok a)), p, []. split; [done |]. split; [by rewrite app_nil_r |]. done. Qed.

Lemma answers_fail {A} e P : P [] (Some (Err e)) -> answers (@br_fail W A e) P.
Proof. intros Hp p. exists (Some (Err e)), p, []. split; [done |]. split; [by rewrite app_nil_r |]. done. Qed.

Lemma answers_mono {A} (m : Br W A) (P Q : list IceProto.Request -> option (result A string) -> Prop) :
  answers m P -> (forall ms r, P ms r -> Q ms r) -> answers m Q.
Proof. intros Hm HPQ p. destruct (Hm p) as (r & p' & ms & E & Hw & Hp & Ht). exists r, p', ms. auto. Qed.

Lemma answers_bind {A B} (m : Br W A) (k : A -> Br W B) P Q :
  answers m P ->
  (forall ms a, P ms (Some (Ok a)) -> answers (k a) (fun ms' r => Q (ms ++ ms') r)) ->
  (forall ms e, P ms (Some (Err e)) -> Q ms (Some (Err e))) -> (forall ms, P ms None -> Q ms None) ->
  answers (br_bind m k) Q.
Proof.
  intros Hm Hk He Hn p. destruct (Hm p) as (r & p1 & ms & E & Hw & Hp & Ht). unfold br_bind. rewrite E. cbn [rust_bind].
  destruct r as [[a | e] |].
  - destruct (Hk ms a Hp p1) as (r & p2 & ms' & E2 & Hw2 & Hp2 & Ht2). exists r, p2, (ms ++ ms').
    split; [done |]. split; [by rewrite Hw2, Hw, app_assoc |]. split; [done |]. intros Hr Ht0.
    destruct (Ht Hr Ht0) as [Ht1 _]. auto.
  - exists (Some (Err e)), p1, ms. split; [done |]. split; [done |]. split; [auto |]. intros Hr Ht0.
    split; [by apply Ht | done].
  - exists None, p1, ms. split; [done |]. split; [done |]. split; [auto |]. intros Hr Ht0. by destruct (Ht Hr Ht0).
Qed.

Lemma answers_attempt {A} (m : Br W A) P :
  answers m P ->
  answers (attempt m) (fun ms r => match r with Some (Ok r) => P ms (Some r) | Some (Err _) => False | None => P ms None end).
Proof.
  intros Hm p. destruct (Hm p) as (r & p1 & ms & E & Hw & Hp & Ht). unfold attempt. rewrite E. cbn [rust_bind].
  destruct r as [r |].
  - exists (Some (Ok r)), p1, ms. split; [done |]. split; [done |]. split; [done |]. intros Hr Ht0.
    split; [by apply Ht | done].
  - exists None, p1, ms. split; [done |]. split; [done |]. split; [done |]. intros Hr Ht0. by destruct (Ht Hr Ht0).
Qed.

(** Requests that change nothing at the ECC. *)
Definition quiet (ms : list IceProto.Request) : Prop :=
  Forall (fun q => operation q = text_bytes "ice_ping" \/ operation q = text_bytes "getStatus") ms.

(** The ping of a new connection at most, then one request at most. *)
Definition one_call (op : string) (ps : bytes) (got : bool) (ms : list IceProto.Request) : Prop :=
  exists pings calls, ms = pings ++ calls /\ quiet pings /\
    ((calls = [] /\ got = false) \/
     exists q, calls = [q] /\ operation q = text_bytes op /\ mode q = Normal /\ params q = ps).

Lemma exchange_cases peer c op mo ps p :
  exists out c' p' ms, exchange spec peer c op mo ps p = Val (out, c', p') /\
    connection p' = connection p /\ wire p' = wire p ++ ms /\ ending c' = ending c /\ read_timeout c' = read_timeout c /\
    (ms = [] \/ ms = [call_request c (proxy_identity spec) (text_bytes op) mo ps]) /\
    (forall v, out = Got v -> ms <> []) /\
    (out = Waiting -> ending c = Silent).
Proof.
  unfold exchange. destruct (net_io (world p)) as [[written flushed] w].
  destruct (invoke_cases peer written flushed c (proxy_identity spec) (text_bytes op) op mo ps)
    as (out & c' & -> & _ & He & Hrt & _ & Hsent & Hwait & Hgot). cbn [rust_bind].
  destruct Hsent as [E | E].
  - eexists out, c', _, []. split; [reflexivity |]. rewrite E, Nat.ltb_irrefl.
    split; [done |]. split; [cbn; by rewrite app_nil_r |]. split; [done |]. split; [done |]. split; [by left |].
    split; [| intros Hw; by apply Hwait]. intros v Hv. destruct (Hgot v Hv) as [E2 _]. rewrite E in E2.
    apply (f_equal length) in E2. rewrite length_app in E2. cbn in E2. lia.
  - eexists out, c', _, [call_request c (proxy_identity spec) (text_bytes op) mo ps]. split; [reflexivity |].
    assert (Hlt : (length (sent c) <? length (sent c'))%nat = true).
    { apply Nat.ltb_lt. rewrite E, length_app. cbn. lia. }
    rewrite Hlt. split; [done |]. split; [done |]. split; [done |]. split; [done |]. split; [by right |].
    split; [done |]. intros Hw. by apply Hwait.
Qed.

Lemma connect_cases peer tcp nodelay arm disarm tout timed_out bs e :
  exists out, IceClient.connect peer tcp nodelay arm disarm tout timed_out bs e = Val out /\ out <> Waiting /\
    (forall c, out = Got c -> ending c = e).
Proof.
  unfold IceClient.connect. destruct tcp as [[] |]; [| by eexists]. destruct nodelay as [[] |]; [| by eexists].
  destruct arm as [[] |]; [| by eexists].
  destruct (read_message_cases peer (mkConnection bs e (Some timed_out) [] 1))
    as [(t & m & rest & -> & _) | [(err & rest & -> & _) | (rest & -> & _ & _ & Ht)]]; cbn [rust_bind].
  - destruct (bool_decide _); cbn [negb]; [| by eexists]. destruct disarm as [[] |]; [| by eexists].
    eexists. split; [reflexivity |]. split; [done |]. by intros c [= <-].
  - destruct err as [[] | | |]; by eexists.
  - done.
Qed.

Lemma answers_connect : answers (connect spec timeout debug_str) (fun ms _ => quiet ms).
Proof.
  intros p. unfold connect. destruct (connection p) as [[peer c] |] eqn:Ec.
  { exists (Some (Ok tt)), p, []. split; [done |]. split; [by rewrite app_nil_r |]. split; [constructor | done]. }
  unfold br_bind, resolve. destruct (net_lookup _ _ _) as [addrs w].
  destruct addrs as [[| peer addrs] | e]; cbn [rust_bind br_fail br_ret].
  1, 3: (eexists _, _, []; split; [reflexivity |]; split; [cbn; by rewrite app_nil_r |]; split; [constructor | done]).
  destruct (net_dial peer _) as [d w'] eqn:Ed.
  destruct (connect_cases peer (tcp d) (nodelay d) (arm d) (disarm d) timeout (timed_out d) (stream d) (stream_ending d))
    as (out & -> & Hw & Hgot). cbn [rust_bind]. destruct out as [c | e |]; [| | done].
  2: { eexists _, _, []. split; [reflexivity |]. split; [cbn; by rewrite app_nil_r |]. split; [constructor |].
       intros _ _. split; [| done]. unfold talks. cbn. by rewrite Ec. }
  match goal with |- context [exchange _ _ _ _ _ _ ?q] =>
    destruct (exchange_cases peer c "ice_ping" Idempotent [] q) as (out & c' & p' & ms & -> & Hc & Hwire & He & _ & Hms & _ & Hwait) end.
  assert (Hq : quiet ms) by (destruct Hms as [-> | ->]; repeat constructor). cbn [rust_bind].
  destruct out as [v | e |].
  - eexists _, _, ms. split; [reflexivity |]. split; [exact Hwire |]. split; [done |]. intros Hr _. split; [| done].
    unfold talks. cbn. rewrite He, (Hgot c eq_refl). by eapply Hr.
  - eexists _, _, ms. split; [reflexivity |]. split; [exact Hwire |]. split; [done |]. intros Hr _. split; [| done].
    unfold talks. rewrite Hc. cbn. by rewrite Ec.
  - eexists _, _, ms. split; [reflexivity |]. split; [exact Hwire |]. split; [done |]. intros Hr _.
    exfalso. eapply Hr; [exact Ed |]. rewrite <- (Hgot c eq_refl). by apply Hwait.
Qed.

Lemma fail_total e : exists line dropped, fail debug_str e = Val (line, dropped).
Proof.
  unfold fail. destruct e as [e | type_id body | k i f o | k m]; try by eexists _, _.
  destruct (bool_decide _); [| by eexists _, _].
  pose proof (safe_string (input_new body)) as Hs. destruct (read_string (input_new body)) as [[[s i] | e] | |]; cbn [rust_bind].
  - by eexists _, _.
  - by eexists _, _.
  - destruct Hs. unfold reader_ok. cbn. pose proof (len_nonneg body). lia.
  - destruct Hs. unfold reader_ok. cbn. pose proof (len_nonneg body). lia.
Qed.

Lemma answers_call op ps :
  answers (call spec timeout debug_str op Normal ps)
    (fun ms r => one_call op ps (match r with Some (Ok _) => true | _ => false end) ms).
Proof.
  unfold call. eapply answers_bind; [apply answers_connect | | |].
  2: { intros ms e Hq. exists ms, []. split; [by rewrite app_nil_r |]. auto. }
  2: { intros ms Hq. exists ms, []. split; [by rewrite app_nil_r |]. auto. }
  intros pings a Hq p. cbn beta in Hq. destruct (connection p) as [[peer c] |] eqn:Ec.
  2: { eexists _, _, []. split; [reflexivity |]. split; [by rewrite app_nil_r |]. split; [| done].
       exists pings, []. split; [done |]. auto. }
  destruct (exchange_cases peer c op Normal ps p) as (out & c' & p' & ms & -> & _ & Hwire & He & _ & Hms & Hgot & Hwait).
  cbn [rust_bind].
  assert (Hone : forall got, (got = true -> ms <> []) -> one_call op ps got (pings ++ ms)).
  { intros got Hg. exists pings, ms. split; [done |]. split; [done |]. destruct Hms as [-> | ->].
    - left. split; [done |]. destruct got; [by destruct Hg | done].
    - right. eexists. split; [reflexivity |]. done. }
  assert (Ht : talks p -> talks (p' <| connection := Some (peer, c') |>)).
  { unfold talks. rewrite Ec. cbn. by rewrite He. }
  destruct out as [v | e |].
  - eexists _, _, ms. split; [reflexivity |]. split; [exact Hwire |]. split; [apply Hone; intros _; by eapply Hgot |]. auto.
  - destruct (fail_total e) as (line & dropped & ->). cbn [rust_bind].
    eexists _, _, ms. split; [reflexivity |]. split; [destruct dropped; exact Hwire |]. split; [by apply Hone |].
    intros _ Ht0. split; [| done]. destruct dropped; [done | auto].
  - eexists _, _, ms. split; [reflexivity |]. split; [exact Hwire |]. split; [by apply Hone |]. intros _ Ht0.
    exfalso. unfold talks in Ht0. rewrite Ec in Ht0. auto.
Qed.
End Talk.

(** ** The handler *)

(** The strings an action carries. *)
Definition action_values (q : Request) : list string :=
  if bool_decide (action q ∈ ["describe"; "prepare"]) then [config_id q]
  else if bool_decide (action q = "configure") then [config_id q; data_link_set_xml (links q)]
  else [].

(** [r] asks the ECC for the action of [q], with its arguments. *)
Definition sent_action (q : Request) (r : IceProto.Request) : Prop :=
  operation r = text_bytes (action q) /\ mode r = Normal /\ write_strings_of (action_values q) [] = Ok (params r).

(** After a ping at most, the action was sent once, or ([got] is false) not at all. *)
Definition dispatched (q : Request) (got : bool) (ms : list IceProto.Request) : Prop :=
  exists pings calls, ms = pings ++ calls /\ quiet pings /\
    ((calls = [] /\ got = false) \/ exists r, calls = [r] /\ sent_action q r).

(** What the handler has sent and answered. *)
Definition handled (json : result Json string) (ms : list IceProto.Request) (r : option (result string string)) : Prop :=
  (forall e, r <> Some (Err e)) /\
  match parse_request json with
  | Err reason =>
      quiet ms /\ forall text, r = Some (Ok text) -> exists st flag, text = make_response false st reason flag
  | Ok q =>
      if bool_decide (action q = "status") then
        quiet ms /\ forall text, r = Some (Ok text) -> exists ok st error flag, text = make_response ok st error flag
      else
        exists acts after got, ms = acts ++ after /\ dispatched q got acts /\ quiet after /\
          forall text, r = Some (Ok text) -> exists st error flag, text = make_response got st error flag
  end.

Section Handler.
Context {W : Type} `{Net W}.
Variables (spec : ProxySpec) (timeout : string) (debug_str : bytes -> string).

Lemma quiet_app ms ms' : quiet (ms ++ ms') <-> quiet ms /\ quiet ms'.
Proof. apply List.Forall_app. Qed.

Lemma one_call_quiet ps got ms : one_call "getStatus" ps got ms -> quiet ms.
Proof.
  intros (pings & calls & -> & Hq & [[-> _] | (q & -> & Hop & _)]); apply quiet_app; split; try done; [constructor |].
  constructor; [by right | constructor].
Qed.

Lemma read_status_total out : exists r, read_status debug_str out = Val r.
Proof.
  unfold read_status. assert (Hsafe : safe read_enum) by (unfold read_enum; solve_safe).
  assert (H0 : reader_ok (input_new out)) by (unfold reader_ok; cbn; pose proof (len_nonneg out); lia).
  pose proof (Hsafe _ H0) as Hs. destruct (read_enum (input_new out)) as [[[s i] | e] | |]; cbn [rust_bind]; try done; [| by eexists].
  destruct Hs as [Hb Hp]. assert (H1 : reader_ok i) by (unfold reader_ok in *; rewrite Hb; cbn in *; lia).
  pose proof (Hsafe _ H1) as Hs. destruct (read_enum i) as [[[e j] | e] | |]; cbn [rust_bind]; try done; [| by eexists].
  destruct Hs as [Hb2 Hp2]. unfold remaining. rewrite usub_val by (rewrite Hb2; lia). cbn [rust_bind].
  destruct (negb _); by eexists.
Qed.

Lemma answers_get_status : answers (get_status spec timeout debug_str) (fun ms _ => quiet ms).
Proof.
  unfold get_status. eapply answers_bind; [apply answers_call | | |].
  - intros ms out Hms p. destruct (read_status_total out) as (r & ->). cbn [rust_bind].
    eexists _, _, []. split; [reflexivity |]. split; [by rewrite app_nil_r |]. split; [| done].
    rewrite app_nil_r. exact (one_call_quiet _ _ _ Hms).
  - intros ms e Hms. exact (one_call_quiet _ _ _ Hms).
  - intros ms Hms. exact (one_call_quiet _ _ _ Hms).
Qed.

Lemma answers_observe :
  answers (observe spec timeout debug_str) (fun ms r => quiet ms /\ forall e, r <> Some (Err e)).
Proof.
  unfold observe. eapply answers_bind; [apply answers_attempt, answers_get_status | | |].
  - intros ms [o | e] Hq; apply answers_ret; rewrite app_nil_r; (split; [exact Hq | done]).
  - intros ms e [].
  - intros ms Hq. done.
Qed.

Lemma answers_call_unit op values q : action q = op -> action_values q = values ->
  answers (call_unit spec timeout debug_str op values)
    (fun ms r => dispatched q (match r with Some (Ok _) => true | _ => false end) ms).
Proof.
  intros Hop Hvals. unfold call_unit.
  eapply (answers_bind _ _ (fun ms r => ms = [] /\ forall ps, r = Some (Ok ps) -> write_strings_of values [] = Ok ps)).
  - intros p. unfold string_params. destruct (write_strings_of values []) as [ps | e].
    + exists (Some (Ok ps)), p, []. split; [done |]. split; [by rewrite app_nil_r |]. split; [| done]. split; [done |].
      by intros ps' [= <-].
    + eexists _, p, []. split; [reflexivity |]. split; [by rewrite app_nil_r |]. done.
  - intros ms ps [-> Hps]. specialize (Hps ps eq_refl).
    assert (Hd : forall got ms, one_call op ps got ms -> dispatched q got ms).
    { intros got ms (pings & calls & -> & Hq & Hc). exists pings, calls. split; [done |]. split; [done |].
      destruct Hc as [Hc | (r & -> & Hr1 & Hr2 & Hr3)]; [by left | right]. exists r. split; [done |].
      split; [by rewrite Hr1, Hop |]. split; [done |]. by rewrite Hvals, Hr3. }
    eapply answers_bind; [apply answers_call | | |].
    + intros ms out Hms. apply answers_ret. rewrite app_nil_r. by apply Hd.
    + intros ms e Hms. by apply Hd.
    + intros ms Hms. by apply Hd.
  - intros ms e [-> _]. exists [], []. split; [done |]. split; [constructor | by left].
  - intros ms [-> _]. exists [], []. split; [done |]. split; [constructor | by left].
Qed.

Lemma answers_dispatch q :
  answers (dispatch spec timeout debug_str q)
    (fun ms r => dispatched q (match r with Some (Ok _) => true | _ => false end) ms).
Proof.
  unfold dispatch.
  repeat match goal with
  | |- answers (if bool_decide (action q = ?a) then _ else _) _ =>
      let E := fresh "E" in destruct (bool_decide (action q = a)) eqn:E;
        [apply bool_decide_eq_true in E;
         apply answers_call_unit; [exact E | unfold action_values; by rewrite E] | clear E]
  end.
  apply answers_fail. exists [], []. split; [done |]. split; [constructor | by left].
Qed.

(** C13: Every request the bridge receives gets exactly one response and no panic
    (as long as the server never falls silent), and nothing is ever sent twice:
    a request that is rejected, or that asks for the status, changes nothing at
    the ECC and a rejection says why; any other sends its action, with its
    arguments, at most once, whatever happens to the connection, and is answered
    ok only if it did send it; pings and status queries are all there is
    besides. *)
Theorem bridge_handles (json : result Json string) :
  answers (handle spec timeout debug_str json) (handled json).
Proof.
  unfold handle, handled. destruct (parse_request json) as [q | reason].
  2: { eapply answers_bind; [apply answers_observe | | |].
       - intros ms o [Hq _]. apply answers_ret. rewrite app_nil_r. split; [done |]. split; [done |].
         intros text [= <-]. by eexists _, _.
       - intros ms e [_ He]. by destruct (He e).
       - intros ms [Hq _]. done. }
  case_bool_decide as Ha.
  - eapply answers_bind; [apply answers_attempt, answers_get_status | | |].
    + intros ms r Hq. apply answers_ret. rewrite app_nil_r. split; [done |].
      assert (quiet ms) by (by destruct r). split; [done |]. intros text [= <-].
      destruct r; by eexists _, _, _, _.
    + intros ms e [].
    + intros ms Hq. done.
  - eapply answers_bind; [apply answers_attempt, answers_dispatch | | |].
    + intros acts r Hacts. eapply answers_bind; [apply answers_observe | | |].
      * intros after o [Hq _]. apply answers_ret. rewrite app_nil_r. split; [done |].
        exists acts, after, (match r with Ok _ => true | Err _ => false end). split; [done |].
        split; [by destruct r |]. split; [done |]. intros text [= <-]. by eexists _, _, _.
      * intros after e [_ He]. by destruct (He e).
      * intros after [Hq _]. split; [done |]. exists acts, after, (match r with Ok _ => true | Err _ => false end).
        split; [done |]. split; [by destruct r | done].
    + intros ms e [].
    + intros ms Hms. split; [done |]. exists ms, [], false. split; [by rewrite app_nil_r |].
      split; [done |]. split; [constructor | done].
Qed.
End Handler.

(** A server that answers: the first connection is validated, pinged, takes the
    [start] and tells its status; it is then closed. *)
Definition sample_answers : bytes :=
  validate_connection_message ++
  message ReplyMsg (reply_bytes (mkReply 1 (BodyOk []))) ++
  message ReplyMsg (reply_bytes (mkReply 2 (BodyOk []))) ++
  message ReplyMsg (reply_bytes (mkReply 3 (BodyOk [5; 0]))).

#[local] Instance sample_net : Net unit := {
  net_lookup := fun _ _ w => (Ok ["10.0.0.1:46002"], w);
  net_dial := fun _ w => (mkDial (Ok tt) (Ok tt) (Ok tt) (Ok tt) "timed out" sample_answers Eof, w);
  net_io := fun w => (Ok tt, Ok tt, w);
}.

Definition sample_handle (a : string) : option string :=
  match handle (mkProxySpec "Ecc" "ecc" 46002) "10s" bytes_text (Ok (JObj [("action", JStr a)])) (mkProxy None tt []) with
  | Val (Some (Ok text), _) => Some text
  | _ => None
  end.

Example start_runs : sample_handle "start" = Some (make_response true Running EmptyString NoErr).
Proof. vm_compute. reflexivity. Qed.

(** An action the bridge does not know is refused, with the state as it is. *)
Example launch_refused :
  sample_handle "launch" = Some (make_response false Unknown "unknown action: launch" ErrorUnknown).
Proof. vm_compute. reflexivity. Qed.
