(* ===== verification/Programs.v ===== *)
(** * Programs: request handlers that interleave

    The REST handlers of the controller run concurrently and touch what they
    share only inside short sections under a lock.  A handler is here a program:
    a tree of such sections, each of which sees the shared state, changes it at
    once and leaves a trace; between two sections any other handler may run.  A
    program logic says what a handler does to an abstract state that accepts or
    refuses what is on the trace; a theorem carries it to every interleaving. *)

From S2P Require Import Prelude.
Open Scope list_scope.

Section Programs.
Context {E C V : Type}.

(** [E]: what a section finds outside.  [C]: the shared state.  [V]: what is on
    the trace.  A blocking task can die. *)
#[warnings="-register-all"]
Inductive Prog (A : Type) : Type :=
| Ret (a : A)
| Die
| Section_ (section : E -> C -> list V * C * Prog A).

Arguments Ret {A} _.
Arguments Die {A}.
Arguments Section_ {A} _.

Definition Prog_sections {A : Type} (P : Prog A -> Prop) (Hret : forall a, P (Ret a)) (Hdie : P Die)
    (Hsection : forall section, (forall e c, P (section e c).2) -> P (Section_ section)) : forall p, P p :=
  fix go p :=
    match p with
    | Ret a => Hret a
    | Die => Hdie
    | Section_ section =>
        Hsection section (fun e c => match section e c as r return P r.2 with (_, _, p) => go p end)
    end.

Fixpoint bind {A B : Type} (p : Prog A) (k : A -> Prog B) : Prog B :=
  match p with
  | Ret a => k a
  | Die => Die
  | Section_ section => Section_ (fun e c => let '(evs, c, p) := section e c in (evs, c, bind p k))
  end.

(** The task of [spawn_blocking]: when it dies, its caller takes over. *)
Fixpoint spawn_blocking {A : Type} (task died : Prog A) : Prog A :=
  match task with
  | Ret a => Ret a
  | Die => died
  | Section_ section => Section_ (fun e c => let '(evs, c, p) := section e c in (evs, c, spawn_blocking p died))
  end.

(** One section that answers. *)
Definition atomically {A : Type} (section : E -> C -> A * list V * C) : Prog A :=
  Section_ (fun e c => let '(a, evs, c) := section e c in (evs, c, Ret a)).

(** The trace, the handlers in the order their requests came, and what they share:
    a request comes in, or some handler goes through its next section. *)
Inductive reaches {A : Type} (arrives : Prog A -> Prop) (c0 : C) : list (nat * V) -> list (Prog A) -> C -> Prop :=
| reaches_start : reaches arrives c0 [] [] c0
| reaches_request trace pool c p :
    reaches arrives c0 trace pool c -> arrives p -> reaches arrives c0 trace (pool ++ [p]) c
| reaches_section trace pool c i section e evs c' p :
    reaches arrives c0 trace pool c ->
    pool !! i = Some (Section_ section) -> section e c = (evs, c', p) ->
    reaches arrives c0 (trace ++ map (pair i) evs) (<[i := p]> pool) c'.

(** A handler through sections that find the given things outside and the given
    shared states: its trace, each shared state before and after, what is left. *)
Fixpoint run_among {A : Type} (founds : list (E * C)) (p : Prog A) : list V * list (C * C) * Prog A :=
  match founds, p with
  | (e, c) :: founds, Section_ section =>
      let '(evs, c', p) := section e c in
      let '(evs', changes, p) := run_among founds p in (evs ++ evs', (c, c') :: changes, p)
  | _, _ => ([], [], p)
  end.

(** A schedule: a request, or the next section of a handler. *)
Fixpoint play {A : Type} (moves : list (Prog A + nat * E)) (trace : list (nat * V)) (pool : list (Prog A)) (c : C)
    : list (nat * V) * list (Prog A) * C :=
  match moves with
  | [] => (trace, pool, c)
  | inl p :: moves => play moves trace (pool ++ [p]) c
  | inr (i, e) :: moves =>
      match pool !! i with
      | Some (Section_ section) =>
          let '(evs, c, p) := section e c in play moves (trace ++ map (pair i) evs) (<[i := p]> pool) c
      | _ => play moves trace pool c
      end
  end.

(** Its answer comes after at most [n] sections, unless the process goes first. *)
Fixpoint answers_within {A : Type} (n : nat) (p : Prog A) : Prop :=
  match p with
  | Ret _ | Die => True
  | Section_ section =>
      match n with
      | O => False
      | S n => forall e c, answers_within n (section e c).2
      end
  end.

Lemma play_reaches {A} arrives c0 (moves : list (Prog A + nat * E)) trace pool c :
  (forall p, inl p ∈ moves -> arrives p) -> reaches arrives c0 trace pool c ->
  let '(trace', pool', c') := play moves trace pool c in reaches arrives c0 trace' pool' c'.
Proof.
  revert trace pool c. induction moves as [| [p | [i e]] moves IH]; intros trace pool c Hm Hr; cbn [play]; [done | |].
  - apply IH; [intros q Hq; apply Hm; by right |]. apply reaches_request; [done |]. apply Hm. by left.
  - assert (Hm' : forall p, inl p ∈ moves -> arrives p) by (intros q Hq; apply Hm; by right).
    destruct (pool !! i) as [[a | | section] |] eqn:Ei; try by apply IH.
    destruct (section e c) as [[evs c'] p] eqn:Es. apply IH; [done |]. by eapply reaches_section.
Qed.

Lemma replies_more {A} n m (p : Prog A) : answers_within n p -> (n <= m)%nat -> answers_within m p.
Proof.
  revert n m. induction p as [a | | section IH] using Prog_sections; intros n m Hp Hm; [by destruct m | by destruct m |].
  destruct n as [| n]; [done |]. destruct m as [| m]; [lia |]. cbn in *. intros e c.
  apply (IH e c n); [apply Hp | lia].
Qed.

(** Bounds add up along a program. *)
Lemma replies_bind {A B} n m (p : Prog A) (k : A -> Prog B) :
  answers_within n p -> (forall a, answers_within m (k a)) -> answers_within (n + m) (bind p k).
Proof.
  intros Hp Hk. revert n Hp. induction p as [a | | section IH] using Prog_sections; intros n Hp; cbn [bind].
  - eapply replies_more; [apply Hk | lia].
  - by destruct (n + m)%nat.
  - destruct n as [| n]; [done |]. cbn. intros e c. specialize (IH e c). cbn in Hp. specialize (Hp e c).
    destruct (section e c) as [[evs c'] p]. by apply IH.
Qed.

Lemma replies_spawn {A} n m (task died : Prog A) :
  answers_within n task -> answers_within m died -> answers_within (n + m) (spawn_blocking task died).
Proof.
  intros Hp Hk. revert n Hp. induction task as [a | | section IH] using Prog_sections; intros n Hp; cbn [spawn_blocking].
  - by destruct (n + m)%nat.
  - eapply replies_more; [apply Hk | lia].
  - destruct n as [| n]; [done |]. cbn. intros e c. specialize (IH e c). cbn in Hp. specialize (Hp e c).
    destruct (section e c) as [[evs c'] p]. by apply IH.
Qed.

(** ** The logic *)

(** An abstract state [S] takes what handler [i] leaves on the trace, or does not
    accept it; [view i] is what it holds of handler [i], which what the others do
    does not change. *)
Context {S W : Type} (accept : nat -> V -> S -> option S) (view : nat -> S -> W) (agrees : S -> C -> Prop).

Fixpoint accepts (i : nat) (evs : list V) (s : S) : option S :=
  match evs with
  | [] => Some s
  | ev :: evs => match accept i ev s with Some s => accepts i evs s | None => None end
  end.

Fixpoint accepts_trace (trace : list (nat * V)) (s : S) : option S :=
  match trace with
  | [] => Some s
  | (i, ev) :: trace => match accept i ev s with Some s => accepts_trace trace s | None => None end
  end.

(** Handler [i] goes on as [p] while the abstract state holds [w] of it: whatever
    it does is accepted and keeps the shared state in agreement; [Q] holds when it
    has answered, [D] if it dies. *)
Fixpoint obeys {A : Type} (i : nat) (p : Prog A) (w : W) (Q : A -> W -> Prop) (D : W -> Prop) : Prop :=
  match p with
  | Ret a => Q a w
  | Die => D w
  | Section_ section => forall e c s, agrees s c -> view i s = w ->
      let '(evs, c', p') := section e c in
      exists s', accepts i evs s = Some s' /\ agrees s' c' /\ obeys i p' (view i s') Q D
  end.

Lemma obeys_bind {A B} i (p : Prog A) (k : A -> Prog B) w Q D :
  obeys i p w (fun a w => obeys i (k a) w Q D) D -> obeys i (bind p k) w Q D.
Proof.
  revert w. induction p as [a | | section IH] using Prog_sections; intros w; cbn [obeys bind]; [done | done |].
  intros H e c s Ha Hw. specialize (H e c s Ha Hw). destruct (section e c) as [[evs c'] p'] eqn:Es.
  destruct H as (s' & H1 & H2 & H3). exists s'. split_and!; [done | done |].
  specialize (IH e c). rewrite Es in IH. cbn in IH. by apply IH.
Qed.

Lemma obeys_spawn {A} i (task died : Prog A) w Q D :
  obeys i task w Q (fun w => obeys i died w Q D) -> obeys i (spawn_blocking task died) w Q D.
Proof.
  revert w. induction task as [a | | section IH] using Prog_sections; intros w; cbn [obeys spawn_blocking]; [done | done |].
  intros H e c s Ha Hw. specialize (H e c s Ha Hw). destruct (section e c) as [[evs c'] p'] eqn:Es.
  destruct H as (s' & H1 & H2 & H3). exists s'. split_and!; [done | done |].
  specialize (IH e c). rewrite Es in IH. cbn in IH. by apply IH.
Qed.

Lemma obeys_mono {A} i (p : Prog A) w (Q Q' : A -> W -> Prop) (D D' : W -> Prop) :
  obeys i p w Q D -> (forall a w, Q a w -> Q' a w) -> (forall w, D w -> D' w) -> obeys i p w Q' D'.
Proof.
  intros H HQ HD. revert w H. induction p as [a | | section IH] using Prog_sections; intros w; cbn [obeys]; [auto | auto |].
  intros H e c s Ha Hw. specialize (H e c s Ha Hw). specialize (IH e c). destruct (section e c) as [[evs c'] p'].
  destruct H as (s' & H1 & H2 & H3). exists s'. split_and!; [done | done | by apply IH].
Qed.

Lemma accepts_trace_app t1 t2 s :
  accepts_trace (t1 ++ t2) s = match accepts_trace t1 s with Some s => accepts_trace t2 s | None => None end.
Proof. revert s. induction t1 as [| [i ev] t1 IH]; intros s; cbn; [done |]. by destruct (accept i ev s). Qed.

Lemma accepts_trace_of i evs s : accepts_trace (map (pair i) evs) s = accepts i evs s.
Proof. revert s. induction evs as [| ev evs IH]; intros s; cbn; [done |]. by destruct (accept i ev s). Qed.

Lemma obeys_section {A} i (p : Prog A) section w Q D e c s :
  obeys i p w Q D -> p = Section_ section -> agrees s c -> view i s = w ->
  let '(evs, c', p') := section e c in
  exists s', accepts i evs s = Some s' /\ agrees s' c' /\ obeys i p' (view i s') Q D.
Proof. intros H -> Ha Hw. by apply H. Qed.

(** ** Every interleaving *)

Context (frame : forall i j ev s s', accept i ev s = Some s' -> j <> i -> view j s' = view j s).

Lemma frame_all i j evs s s' : accepts i evs s = Some s' -> j <> i -> view j s' = view j s.
Proof.
  revert s. induction evs as [| ev evs IH]; intros s; cbn; [by intros [= ->] |].
  destruct (accept i ev s) as [s1 |] eqn:E1; [| done]. intros Hs Hj.
  rewrite (IH s1 Hs Hj). by apply (frame i j ev).
Qed.

Theorem pool_obeys {A : Type} (arrives : Prog A -> Prop) (idle : W) (Q : A -> W -> Prop) (D : W -> Prop) (s0 : S) (c0 : C) :
  agrees s0 c0 -> (forall i, view i s0 = idle) ->
  (forall i p, arrives p -> obeys i p idle Q D) ->
  forall trace pool c, reaches arrives c0 trace pool c ->
  exists s, accepts_trace trace s0 = Some s /\ agrees s c /\
    (forall i p, pool !! i = Some p -> obeys i p (view i s) Q D) /\
    (forall i, (length pool <= i)%nat -> view i s = idle).
Proof.
  intros Ha Hv Harr trace pool c H. induction H as [| trace pool c p H IH Hp | trace pool c i section e evs c' p H IH Hi Es].
  - exists s0. split_and!; try done.
  - destruct IH as (s & H1 & H2 & H3 & H4). exists s. split_and!; try done.
    + intros i q Hq. apply lookup_app_Some in Hq as [Hq | [Hi Hq]]; [by apply H3 |].
      apply list_lookup_singleton_Some in Hq as [_ <-]. rewrite H4 by lia. by apply Harr.
    + intros i. rewrite length_app. cbn. intros Hi. apply H4. lia.
  - destruct IH as (s & H1 & H2 & H3 & H4).
    pose proof (obeys_section i _ section _ _ _ e c s (H3 _ _ Hi) eq_refl H2 eq_refl) as Hs. rewrite Es in Hs.
    destruct Hs as (s' & Hs1 & Hs2 & Hs3). exists s'. apply lookup_lt_Some in Hi. split_and!; [| done | |].
    + by rewrite accepts_trace_app, H1, accepts_trace_of.
    + intros j q Hq. destruct (decide (i = j)) as [<- | Hij].
      * rewrite list_lookup_insert_eq in Hq by done. by injection Hq as <-.
      * rewrite list_lookup_insert_ne in Hq by done. rewrite (frame_all i j evs s s') by done. by apply H3.
    + intros j Hj. rewrite length_insert in Hj. rewrite (frame_all i j evs s s') by (done || lia). by apply H4.
Qed.
(** ** One thread and the others *)

(** The given thread, the handlers that have come beside it, and what they share:
    the thread and the handlers go on section by section, in any order. *)
Inductive beside {A B : Type} (arrives : Prog B -> Prop) (p0 : Prog A) (c0 : C) : Prog A -> list (Prog B) -> C -> Prop :=
| beside_start : beside arrives p0 c0 p0 [] c0
| beside_comes p pool c q : beside arrives p0 c0 p pool c -> arrives q -> beside arrives p0 c0 p (pool ++ [q]) c
| beside_thread section pool c e evs c' p :
    beside arrives p0 c0 (Section_ section) pool c -> section e c = (evs, c', p) -> beside arrives p0 c0 p pool c'
| beside_other p pool c i section e evs c' q :
    beside arrives p0 c0 p pool c -> pool !! i = Some (Section_ section) -> section e c = (evs, c', q) ->
    beside arrives p0 c0 p (<[i := q]> pool) c'.

(** A schedule of these: a handler comes, the thread goes on, or a handler does. *)
Inductive Turn_ {B : Type} : Type :=
| Comes (q : Prog B)
| Thread_ (e : E)
| Other (i : nat) (e : E).

Fixpoint play_beside {A B : Type} (turns : list (@Turn_ B)) (p : Prog A) (pool : list (Prog B)) (c : C) : Prog A * list (Prog B) * C :=
  match turns with
  | [] => (p, pool, c)
  | Comes q :: turns => play_beside turns p (pool ++ [q]) c
  | Thread_ e :: turns =>
      match p with
      | Section_ section => let '(_, c, p) := section e c in play_beside turns p pool c
      | _ => play_beside turns p pool c
      end
  | Other i e :: turns =>
      match pool !! i with
      | Some (Section_ section) => let '(_, c, q) := section e c in play_beside turns p (<[i := q]> pool) c
      | _ => play_beside turns p pool c
      end
  end.

Lemma play_beside_reaches {A B : Type} arrives (p0 : Prog A) c0 (turns : list (@Turn_ B)) : forall p pool c,
  (forall q, Comes q ∈ turns -> arrives q) -> beside arrives p0 c0 p pool c ->
  let '(p', pool', c') := play_beside turns p pool c in beside arrives p0 c0 p' pool' c'.
Proof.
  induction turns as [| t turns IH]; intros p pool c Ht Hb; cbn [play_beside]; [done |].
  assert (Ht' : forall q, Comes q ∈ turns -> arrives q) by (intros q Hq; apply Ht; by right).
  destruct t as [q | e | i e].
  - apply IH; [done |]. apply beside_comes; [done | apply Ht; by left].
  - destruct p as [a | | section]; [by apply IH | by apply IH |]. destruct (section e c) as [[evs c'] p'] eqn:Es.
    apply IH; [done |]. by eapply beside_thread.
  - destruct (pool !! i) as [[a | | section] |] eqn:Ei; [by apply IH | by apply IH | | by apply IH].
    destruct (section e c) as [[evs c'] q] eqn:Es. apply IH; [done |]. by eapply beside_other.
Qed.

(** What a handler does to the shared state is always of the kind [G]. *)
Fixpoint abides {B : Type} (G : C -> C -> Prop) (q : Prog B) : Prop :=
  match q with
  | Ret _ | Die => True
  | Section_ section => forall e c, let '(_, c', q') := section e c in G c c' /\ abides G q'
  end.

Lemma abides_bind {A B : Type} G (p : Prog A) (k : A -> Prog B) : abides G p -> (forall a, abides G (k a)) -> abides G (bind p k).
Proof.
  intros Hp Hk. induction p as [a | | section IH] using Prog_sections; cbn [bind abides] in *; [done | done |].
  intros e c. specialize (Hp e c). specialize (IH e c). destruct (section e c) as [[evs c'] p']. destruct Hp as [HG Hp]. split; [done | by apply IH].
Qed.

Lemma abides_atomically {A : Type} (G : C -> C -> Prop) (section : E -> C -> A * list V * C) :
  (forall e c, G c (section e c).2) -> abides G (atomically section).
Proof. intros H. cbn. intros e c. specialize (H e c). by destruct (section e c) as [[a evs] c']. Qed.

(** Steps of the kind [G] keep what is claimed of the shared state. *)
Definition unmoved (G : C -> C -> Prop) (P : C -> Prop) : Prop := forall c c', G c c' -> P c -> P c'.

(** The thread goes on as [p] where the shared state is known to be [P], whatever
    steps of the kind [G] come between: at its end [Q] holds. *)
Fixpoint outlines {A : Type} (G : C -> C -> Prop) (P : C -> Prop) (p : Prog A) (Q : A -> C -> Prop) : Prop :=
  match p with
  | Ret a => forall c, P c -> Q a c
  | Die => True
  | Section_ section => forall e c, P c ->
      let '(_, c', p') := section e c in exists P', unmoved G P' /\ P' c' /\ outlines G P' p' Q
  end.

Lemma outlines_bind {A B : Type} G (p : Prog A) (k : A -> Prog B) (M : A -> C -> Prop) Q : forall P, unmoved G P ->
  outlines G P p M -> (forall a, unmoved G (M a) /\ outlines G (M a) (k a) Q) -> outlines G P (bind p k) Q.
Proof.
  intros P HP Hp Hk. revert P HP Hp. induction p as [a | | section IH] using Prog_sections; intros P HP Hp; cbn [bind outlines] in *; [| done |].
  - destruct (Hk a) as [HM Hq]. revert Hp Hq. generalize (k a) as q. generalize (M a) as R. intros R q Hp Hq.
    destruct q as [b | | section]; cbn [outlines] in *; [by auto | done |]. intros e c Hc. by apply Hq, Hp.
  - intros e c Hc. specialize (Hp e c Hc). specialize (IH e c). destruct (section e c) as [[evs c'] p'].
    destruct Hp as (P' & H1 & H2 & H3). exists P'. split_and!; [done | done | by apply IH].
Qed.

Lemma outlines_atomically {A : Type} G P (section : E -> C -> A * list V * C) (Q : A -> C -> Prop) :
  (forall a, unmoved G (Q a)) -> (forall e c, P c -> let '(a, _, c') := section e c in Q a c') -> outlines G P (atomically section) Q.
Proof.
  intros HQ H e c Hc. specialize (H e c Hc). destruct (section e c) as [[a evs] c']. exists (Q a). split_and!; [apply HQ | exact H | cbn; auto].
Qed.

Lemma outlines_weaken {A : Type} G (P P' : C -> Prop) (p : Prog A) Q : (forall c, P' c -> P c) -> outlines G P p Q -> outlines G P' p Q.
Proof. intros HP. destruct p as [a | | section]; cbn [outlines]; [by auto | done |]. intros H e c Hc. by apply H, HP. Qed.

(** What is known whatever the shared state can be taken out. *)
Lemma outlines_fact {A : Type} G (phi : Prop) (P : C -> Prop) (p : Prog A) Q : (phi -> outlines G P p Q) -> outlines G (fun c => phi /\ P c) p Q.
Proof.
  intros H. destruct p as [a | | section]; cbn [outlines] in *; [| done |].
  - intros c [Hphi Hc]. by apply H.
  - intros e c [Hphi Hc]. by apply (H Hphi).
Qed.

Lemma outlines_mono {A : Type} G P (p : Prog A) (Q Q' : A -> C -> Prop) : (forall a c, Q a c -> Q' a c) -> outlines G P p Q -> outlines G P p Q'.
Proof.
  intros HQ. revert P. induction p as [a | | section IH] using Prog_sections; intros P; cbn [outlines]; [by auto | done |].
  intros H e c Hc. specialize (H e c Hc). specialize (IH e c). destruct (section e c) as [[evs c'] p']. destruct H as (P' & H1 & H2 & H3).
  exists P'. split_and!; [done | done | by apply IH].
Qed.

Lemma abides_mono {B : Type} (G G' : C -> C -> Prop) (q : Prog B) : (forall c c', G c c' -> G' c c') -> abides G q -> abides G' q.
Proof.
  intros HG. induction q as [a | | section IH] using Prog_sections; cbn [abides]; [done | done |].
  intros H e c. specialize (H e c). specialize (IH e c). destruct (section e c) as [[evs c'] q']. destruct H as [H1 H2]. split; [by apply HG | by apply IH].
Qed.

(** What every step keeps, holds all the time. *)
Theorem beside_abides {A B : Type} (arrives : Prog B -> Prop) (G : C -> C -> Prop) (I : C -> Prop) (p0 : Prog A) c0 :
  unmoved G I -> I c0 -> abides G p0 -> (forall q, arrives q -> abides G q) ->
  forall p pool c, beside arrives p0 c0 p pool c -> I c /\ abides G p /\ Forall (abides G) pool.
Proof.
  intros HI H0 Hp Harr p pool c H. induction H as [| p pool c q H IH Hq | section pool c e evs c' p H IH Es | p pool c i section e evs c' q H IH Hi Es].
  - by split_and!.
  - destruct IH as (H1 & H2 & H3). split_and!; [done | done |]. apply Forall_app; split; [done |]. constructor; [by apply Harr | done].
  - destruct IH as (H1 & H2 & H3). specialize (H2 e c). rewrite Es in H2. destruct H2 as [HG H2]. split_and!; [by eapply HI | done | done].
  - destruct IH as (H1 & H2 & H3). pose proof (Forall_lookup_1 _ _ _ _ H3 Hi) as Ha. specialize (Ha e c). rewrite Es in Ha.
    destruct Ha as [HG Hq]. split_and!; [by eapply HI | done | by apply Forall_insert].
Qed.

Theorem beside_outlines {A B : Type} (arrives : Prog B -> Prop) (G : C -> C -> Prop) (P : C -> Prop) (p0 : Prog A) c0 Q :
  unmoved G P -> P c0 -> outlines G P p0 Q -> (forall q, arrives q -> abides G q) ->
  forall p pool c, beside arrives p0 c0 p pool c ->
  exists P', unmoved G P' /\ P' c /\ outlines G P' p Q /\ Forall (abides G) pool.
Proof.
  intros HP H0 Hp Harr p pool c H. induction H as [| p pool c q H IH Hq | section pool c e evs c' p H IH Es | p pool c i section e evs c' q H IH Hi Es].
  - exists P. by split_and!.
  - destruct IH as (P' & H1 & H2 & H3 & H4). exists P'. split_and!; [done | done | done |]. apply Forall_app; split; [done |]. constructor; [by apply Harr | done].
  - destruct IH as (P' & H1 & H2 & H3 & H4). specialize (H3 e c H2). rewrite Es in H3. destruct H3 as (P1 & H5 & H6 & H7). exists P1. by split_and!.
  - destruct IH as (P' & H1 & H2 & H3 & H4). pose proof (Forall_lookup_1 _ _ _ _ H4 Hi) as Ha. specialize (Ha e c). rewrite Es in Ha.
    destruct Ha as [HG Hq]. exists P'. split_and!; [done | by eapply H1 | done |]. by apply Forall_insert.
Qed.
End Programs.

Arguments Prog : clear implicits.
Arguments Turn_ : clear implicits.
Arguments Ret {E C V A} _.
Arguments Die {E C V A}.
Arguments Section_ {E C V A} _.
Arguments Comes {E C V B} _.
Arguments Thread_ {E C V B} _.
Arguments Other {E C V B} _ _.

Notation "'let&' x := p 'in' k" := (bind p (fun x => k))
  (at level 10, x pattern, p at level 100, k at level 200) : rust_scope.
