(* ===== verification/Handlers.v ===== *)
(** * Handlers: the REST handlers of the controller

    Models [src/controller/rest.rs], [src/controller/power.rs] and what
    [src/controller/mod.rs] keeps behind its locks: the operator's session, the
    run state and the state file.  A handler is a program of sections (see
    [Programs]); one section is one stretch under a lock, one call of the
    sequencer, or one record handed to the logbook.  The sequencer's sequences run
    on whatever transport they find.  The JSON printer, RFC 3339 and the geometry
    and parameter files are outside. *)

From stdpp Require Import gmap pretty strings.
From S2P Require State.
From S2P Require Import Prelude Bytes Decimal Float Command Controller Logbook Sequencer Programs.
Open Scope list_scope.
Open Scope Z_scope.

(** ** The shared state *)

Module Phase.
Inductive Phase : Type := Idle | Starting | Running | Stopping.

#[global] Instance Phase_eq_dec : EqDecision Phase.
Proof. solve_decision. Defined.

Definition to_string (p : Phase) : string :=
  match p with
  | Idle => "Idle"
  | Starting => "Starting"
  | Running => "Running"
  | Stopping => "Stopping"
  end.
End Phase.

Record Session : Type := mkSession {
  token : string;
  session_operator : string;
}.

Record ActiveRun : Type := mkActive {
  active_number : Z;
  active_operator : string;
  active_comment : string;
  started_ts : string;
  started_at : Z;
}.

Record PowerInflight : Type := mkInflight {
  inflight_device : string;
  inflight_ch : Z;
  inflight_on : bool;
  inflight_operator : string;
}.

Record RunState : Type := mkRunState {
  phase : Phase.Phase;
  active : option ActiveRun;
  power_inflight : option PowerInflight;
}.
#[export] Instance eta_RunState : Eta RunState := fun r => mkRunState (phase r) (active r) (power_inflight r).

(** What the handlers share, and the disk the state file is on. *)
Record Shared : Type := mkShared {
  session : option Session;
  run_state : RunState;
  disk : State.Disk;
}.
#[export] Instance eta_Shared : Eta Shared := fun c => mkShared (session c) (run_state c) (disk c).

(** [Controller::new] over a disk. *)
Definition controller_new (d : State.Disk) : Shared := mkShared None (mkRunState Phase.Idle None None) d.

(** ** Requests, settings and answers *)

Record Settings : Type := mkSettings {
  params : ControllerParams;
  passphrase : string;
  ecc_config_dir : option string;
  slow_cmd : option string;
  slow_devices : list (string * string);
  state_path : string;
  logbook_path : string;
}.

Inductive StatusCode : Type :=
| OK
| BAD_REQUEST
| UNAUTHORIZED
| FORBIDDEN
| CONFLICT
| INTERNAL_SERVER_ERROR
| BAD_GATEWAY
| SERVICE_UNAVAILABLE
| GATEWAY_TIMEOUT.

Definition Reply : Type := StatusCode * Json.

Definition ok_json (body : Json) : Reply := (OK, body).
Definition err_json (code : StatusCode) (message : string) : Reply := (code, JObj [("error", JStr message)]).

Record SlowPowerRequest : Type := mkPowerRequest {
  power_token : string;
  power_device : Json;
  power_ch : Json;
  power_on : Json;
}.

Record PowerCommand : Type := mkPowerCommand {
  device : string;
  device_type : string;
  ch : Z;
  on : bool;
}.
#[export] Instance PowerCommand_eq_dec : EqDecision PowerCommand.
Proof. solve_decision. Defined.

Inductive SlowCmdFailure : Type :=
| Timeout
| Unreachable (why : string)
| BadReply (why : string).

(** The parameters in [current.json], as the controller uses them. *)
Record CurrentParams : Type := mkCurrent {
  template : string;
  params_sha256 : string;
  exceptions : Z;
}.

Inductive Request : Type :=
| Acquire (operator passphrase : string)
| Release (token : string)
| RunStartRequest (token comment : string)
| RunNext (token : string) (next_run : Json)
| RunStopRequest (token : string)
| EccAction (action token : string)
| SlowPower (request : SlowPowerRequest)
| PostComment (author text : string).

(** ** The trace *)

Inductive Event : Type :=
| SetPhase (p : Phase.Phase)
| Took (run : Z)
| SetNext (run : Z)
| Sequence (run : Z)
| StopSequence
| Ecc (request : Json)
| MarkPower (command : PowerCommand)
| SendPower (command : PowerCommand)
| ClearPower
| Wrote (r : LogbookRecord)
| Died.

(** What one section finds outside: a fresh token, the clocks, the files, how the
    disk behaves, the transport, the slow-control values and answer, and whether
    the blocking task it runs in dies. *)
Record Outside (T : Type) : Type := mkOutside {
  fresh_token : string;
  instant : Z; (* nanoseconds *)
  now_ms : Z;
  local_time : string;
  geometry_read : result (Geometry * list (Z * Z)) string;
  current_params : result (option CurrentParams) string;
  rendered : result string string;
  disk_goes : State.Goes;
  logbook_file : FileContent;
  found : T;
  slow_found : option Json;
  slow_answer : result Json SlowCmdFailure;
  dies : bool;
  join_error : string;
}.
Arguments fresh_token {T} _.
Arguments instant {T} _.
Arguments now_ms {T} _.
Arguments local_time {T} _.
Arguments geometry_read {T} _.
Arguments current_params {T} _.
Arguments rendered {T} _.
Arguments disk_goes {T} _.
Arguments logbook_file {T} _.
Arguments found {T} _.
Arguments slow_found {T} _.
Arguments slow_answer {T} _.
Arguments dies {T} _.
Arguments join_error {T} _.

(** ** Pure parts *)

Definition ACTOR : string := "controller".
Definition SLOW_POWER_ACTION : string := "slow/power".
Definition SLOW_CMD_NOT_CONFIGURED : string := "slow_cmd is not configured".
Definition HV_ON_REFUSED : string := "HV ON is allowed only while no run is active".
Definition LV_OFF_REFUSED : string := "LV OFF is refused while a run is active — stop the run first".
Definition POWER_IN_FLIGHT : string := "another power command is in flight".
Definition RUN_START_POWER_IN_FLIGHT : string := "slow-control power command in flight — retry in a few seconds".
Definition STATE_UNKNOWN : string := "state unknown — check the table".
Definition SLOW_CMD_TIMEOUT_S : Z := 10.

Definition opt_json {A : Type} (f : A -> Json) (o : option A) : Json :=
  match o with
  | Some a => f a
  | None => JNull
  end.

Definition as_bool (v : Json) : option bool :=
  match v with
  | JBool b => Some b
  | _ => None
  end.

(** [ConfigIds::same_value] and [ConfigIds::for_action]. *)
Definition same_value (ids : ConfigIds) : option string :=
  if bool_decide (describe_id ids = prepare_id ids) && bool_decide (prepare_id ids = configure_id ids)
  then Some (describe_id ids)
  else None.

Definition for_action (ids : ConfigIds) (action : string) : option string :=
  if bool_decide (action = "describe") then Some (describe_id ids)
  else if bool_decide (action = "prepare") then Some (prepare_id ids)
  else if bool_decide (action = "configure") then Some (configure_id ids)
  else None.

Definition run_start_config_fields (ids : ConfigIds) : string * option ConfigIds :=
  match same_value ids with
  | Some id => (id, None)
  | None => (configure_id ids, Some ids)
  end.

Definition cobo_listens (p : ControllerParams) : list CoboListen :=
  map (fun c => mkCoboListen (cobo_id_of c) (listen c)) (cobos p).

(** The [Display] of the errors. *)
Definition state_error_text (e : State.StateError) : string :=
  match e with
  | State.Io path source => "io error on " +:+ path +:+ ": " +:+ source
  | State.Decode path source => "failed to parse state file " +:+ path +:+ ": " +:+ source
  | State.Encode source => "failed to encode state: " +:+ source
  | State.Overflow => "next_run overflowed u32::MAX"
  end.

Definition logbook_error_text (e : LogbookError) : string :=
  match e with
  | Io path source => "io error on " +:+ path +:+ ": " +:+ source
  | Encode source => "failed to encode logbook line: " +:+ source
  | CorruptLine path line_no source =>
      "logbook line " +:+ dec line_no +:+ " in " +:+ path +:+ " is corrupt: " +:+ source
  end.

Definition failure_text (f : StartFailure) : string :=
  stage f +:+ " stage failed: " +:+ detail f +:+
  match rollback_notes f with
  | [] => ""
  | notes => " (rollback: " +:+ String.concat "; " notes +:+ ")"
  end.

Definition retry_json (r : ArmRetry) : Json :=
  JObj [("component", JStr (retried r)); ("attempts", JNum (attempts r)); ("waited_ms", JNum (waited_ms r))].

Definition started_link_json (l : RouterLink) : Json :=
  JObj [("cobo", JNum (link_cobo_id l)); ("router_ip", JStr (link_router_ip l)); ("router_port", JNum (link_router_port l))].

Definition on_off (on : bool) : string := if on then "ON" else "OFF".

Definition power_rule (device_type : string) (on : bool) (p : Phase.Phase) : result unit string :=
  if bool_decide (p = Phase.Idle) then Ok tt
  else if bool_decide (device_type = "hivolta") && on then Err HV_ON_REFUSED
  else if bool_decide (device_type = "hmp2020") && negb on then Err LV_OFF_REFUSED
  else Ok tt.

(** The channels of the devices that have a power switch. *)
Definition channels_of (device_type : string) : option (Z * Z) :=
  if bool_decide (device_type = "hivolta") then Some (0, 7)
  else if bool_decide (device_type = "hmp2020") then Some (1, 2)
  else None.

Section Pure.
Variable show : Json -> string.

Definition validate_power_request (devices : list (string * string)) (request : SlowPowerRequest)
    : result PowerCommand string :=
  let? device := ok_or (as_str (power_device request))
    ("device must be a slow-control device name, got " +:+ show (power_device request)) in
  let? (_, device_type) := ok_or (List.find (fun '(name, _) => bool_decide (name = device)) devices)
    ("unknown slow-control device " +:+ debug_string device +:+ " (not in [[slowctl.device]])") in
  let? (first, last) := ok_or (channels_of device_type)
    ("device " +:+ debug_string device +:+ " is a " +:+ device_type +:+
     " — only hivolta / hmp2020 have a power switch") in
  let? ch := ok_or (match as_u64 (power_ch request) with
                    | Some ch => if (ch <? 256) && (first <=? ch) && (ch <=? last) then Some ch else None
                    | None => None
                    end)
    ("ch must be an integer in " +:+ dec first +:+ "–" +:+ dec last +:+ " for " +:+ device_type +:+
     ", got " +:+ show (power_ch request)) in
  let? on := ok_or (as_bool (power_on request))
    ("on must be true or false, got " +:+ show (power_on request)) in
  Ok (mkPowerCommand device device_type ch on).

Definition power_audit_params (request : SlowPowerRequest) (p : Phase.Phase) (before after : Json) : Json :=
  JObj [("device", power_device request); ("ch", power_ch request); ("on", power_on request);
        ("phase", JStr (Phase.to_string p)); ("before", before); ("after", after)].

(** What a REST client and the audit get of slowctl's answer: the code, the body,
    the values before and after, the error. *)
Definition slow_power_outcome (outcome : result Json SlowCmdFailure)
    : StatusCode * Json * Json * Json * option string :=
  match outcome with
  | Ok reply =>
      let before := default JNull (json_get "before" reply) in
      let after := default JNull (json_get "after" reply) in
      match json_get "ok" reply ≫= as_bool, json_get "error" reply ≫= as_str with
      | Some true, _ => (OK, reply, before, after, None)
      | Some false, Some error => (BAD_GATEWAY, reply, before, after, Some error)
      | _, _ =>
          let why := "slowctl reply is not {ok, error, ...}: " +:+ show reply in
          (BAD_GATEWAY, JObj [("error", JStr why)], before, after, Some why)
      end
  | Err (BadReply why) => (BAD_GATEWAY, JObj [("error", JStr why)], JNull, JNull, Some why)
  | Err Timeout =>
      (GATEWAY_TIMEOUT,
       JObj [("error", JStr ("slowctl did not reply within " +:+ dec SLOW_CMD_TIMEOUT_S +:+ " s — " +:+ STATE_UNKNOWN))],
       JNull, JNull, Some "timeout")
  | Err (Unreachable why) =>
      (GATEWAY_TIMEOUT, JObj [("error", JStr (why +:+ " — " +:+ STATE_UNKNOWN))], JNull, JNull, Some why)
  end.
End Pure.

(** ** The handlers *)

Section Handlers.
Context {T : Type} `{Transport T} `{State.StateJson} `{LineJson}.
Variable settings : Settings.
Variable show : Json -> string.
Variable parse_rfc3339 : string -> option Z.

Notation Program := (Prog (Outside T) Shared Event).

(** *** Sections *)

Definition emit (ev : Event) : Program unit := atomically (fun _ c => (tt, [ev], c)).
Definition look {A : Type} (f : Outside T -> A) : Program A := atomically (fun e c => (f e, [], c)).

(** A call inside a blocking task: the task may die in it. *)
Definition call {A : Type} (begun : list Event) (f : Outside T -> option (A * list Event)) : Program A :=
  Section_ (fun e c =>
    if dies e then (begun ++ [Died], c, Die)
    else match f e with
         | Some (a, evs) => (begun ++ evs, c, Ret a)
         | None => (begun ++ [Died], c, Die)
         end).

(** [Controller::append], [Controller::audit] and [Controller::slow_snapshot]. *)
Definition append_record (r : LogbookRecord) : Program unit := emit (Wrote r).

Definition audit (action : string) (params : Json) (operator : string) (ok : bool) (error : option string)
    : Program unit :=
  append_record (Audit ACTOR action params operator ok error).

Definition slow_snapshot : Program (option Json) := look slow_found.

(** *** The operator's session *)

Definition acquire (operator : string) : Program (string * option string) :=
  atomically (fun e c =>
    ((fresh_token e, session_operator <$> session c), [],
     c <| session := Some (mkSession (fresh_token e) operator) |>)).

Definition authorized (tok : string) (s : option Session) : result string string :=
  match s with
  | None => Err "no operator holds the control token"
  | Some s => if bool_decide (token s = tok) then Ok (session_operator s) else Err "stale or unknown token"
  end.

Definition authorize (tok : string) : Program (result string string) :=
  atomically (fun _ c => (authorized tok (session c), [], c)).

Definition unauthorized (action : string) (params : Json) (why : string) : Program Reply :=
  let& _ := audit action params "<unauthorized>" false (Some why) in
  Ret (err_json UNAUTHORIZED why).

Definition post_acquire (operator pass : string) : Program Reply :=
  if bool_decide (pass = passphrase settings) then
    let& (tok, preempted) := acquire operator in
    let& _ := audit "control/acquire"
      (JObj [("operator", JStr operator); ("preempted", opt_json JStr preempted)]) operator true None in
    Ret (ok_json (JObj [("token", JStr tok); ("preempted", opt_json JStr preempted)]))
  else
    let& _ := audit "control/acquire" (JObj [("operator", JStr operator)]) operator false (Some "wrong passphrase") in
    Ret (err_json FORBIDDEN "wrong passphrase").

Definition post_release (tok : string) : Program Reply :=
  let& r := authorize tok in
  match r with
  | Err why => unauthorized "control/release" (JObj []) why
  | Ok operator =>
      let& _ := atomically (fun _ c => (tt, [], c <| session := None |>)) in
      let& _ := audit "control/release" (JObj []) operator true None in
      Ret (ok_json (JObj [("released", JBool true)]))
  end.

(** *** Starting a run *)

(** [state::take_next_run] and [state::set_next_run]; a call that does not return
    takes its task with it. *)
Definition take_next_run : Program (result Z State.StateError) :=
  Section_ (fun e c =>
    let '(r, d) := State.take_next_run (state_path settings) (disk_goes e) (disk c) in
    let c := c <| disk := d |> in
    match r with
    | Some (Ok n) => ([Took n], c, Ret (Ok n))
    | Some (Err error) => ([], c, Ret (Err error))
    | None => ([Died], c, Die)
    end).

Definition set_next_run (n : Z) : Program (result unit State.StateError) :=
  Section_ (fun e c =>
    let '(r, d) := State.set_next_run (state_path settings) n (disk_goes e) (disk c) in
    let c := c <| disk := d |> in
    match r with
    | Some r => ([SetNext n], c, Ret r)
    | None => ([SetNext n; Died], c, Die)
    end).

Definition run_start_params_snapshot : Program (result (option (CurrentParams * string)) string) :=
  call [] (fun e => Some (
    (let? current := current_params e in
     match current with
     | None => Ok None
     | Some current =>
         let? _ := ok_or (ecc_config_dir settings)
           ("params/current.json exists but ecc_config_dir is not configured — " +:+
            "refusing to start a run with a stale config_id") in
         let? config_id := rendered e in
         Ok (Some (current, config_id))
     end), [])).

(** The note that the parameters replace the ConfigIds of the settings, and the
    parameters the run goes with. *)
Definition params_note (id : string) (current : CurrentParams) : string :=
  let ids := config_ids (params settings) in
  "prepare/configure config_id taken from params " +:+ id +:+ " (template " +:+ template current +:+
  "), not from daq.toml (" +:+ prepare_id ids +:+ "/" +:+ configure_id ids +:+ ")".

Definition params_for_run (params_id : option string) : ControllerParams :=
  match params_id with
  | None => params settings
  | Some id =>
      let p := params settings in
      mkParams (mkConfigIds (describe_id (config_ids p)) id id) (cobos p) (components p)
        (router_ip_setting p) (eos_timeout p) (eos_quiesce p) (eos_poll p)
  end.

Definition sequence (p : ControllerParams) (run : Z) (comment ts : string) : Program (result StartReport StartFailure) :=
  call [Sequence run] (fun e =>
    match start_run p run comment ts (sequencer_new (found e)) with
    | Val (r, _) => Some (r, [])
    | _ => None
    end).

(** From the [ts] of a [run_start] to [now], which is in milliseconds. *)
Definition seconds_since (ts : string) (now : Z) : option f64 :=
  match parse_rfc3339 ts with
  | Some started => Some (f64_div (f64_of_Z (now - started)) (f64_of_Z 1000))
  | None => None
  end.

(** The run numbers and times of the [run_start] records. *)
Definition run_starts (ls : list LogbookLine) : list (Z * string) :=
  omap (fun l => match record l with RunStart _ run _ _ _ _ _ _ _ _ _ => Some (run, ts l) | _ => None end) ls.

Definition reopened_duration (run : Z) (starts : list (Z * string)) (now : Z) : option f64 * list string :=
  match List.find (fun '(r, _) => r =? run) (rev starts) with
  | None => (None, ["no run_start for run " +:+ dec run +:+ " in the logbook — duration_s is null"])
  | Some (_, ts) =>
      match seconds_since ts now with
      | Some d => (Some d, [])
      | None => (None, ["run_start.ts " +:+ debug_string ts +:+ " of run " +:+ dec run +:+
                        " is not RFC3339 — duration_s is null"])
      end
  end.

(** What the logbook says of the run a walk-back closed: its duration, and notes. *)
Definition walked_back_facts (run : Z) (read : result ReadResult LogbookError) (now : Z) : option f64 * list string :=
  let (found, notes) :=
    match read with
    | Ok r => (records r, [])
    | Err e => ([], ["cannot read the logbook: " +:+ logbook_error_text e])
    end in
  let starts := run_starts found in
  let notes := notes ++
    match list.last starts with
    | Some (last, _) =>
        if last =? run then []
        else ["the last run_start in the logbook is run " +:+ dec last +:+ ", not " +:+ dec run]
    | None => []
    end in
  let (duration, more) := reopened_duration run starts now in
  (duration, notes ++ more).

Definition previous_json (run : option Z) (notes : list string) : Json :=
  JObj [("run", opt_json JNum run); ("notes", JArr (map JStr notes))].

Definition append_walked_back_run_stop (closed : WalkedBackRun) : Program Json :=
  match previous_run closed with
  | Err why => Ret (previous_json None (wb_notes closed ++ [why]))
  | Ok run =>
      let& (duration, notes) :=
        call [] (fun e => Some (walked_back_facts run (read_since (logbook_path settings) (logbook_file e) 0) (now_ms e), [])) in
      let notes := wb_notes closed ++ notes in
      let& slow := slow_snapshot in
      let& _ := append_record (RunStop ACTOR run duration false "abort:controller-restart"
        (wb_forced_eos closed) (wb_eos_closed closed) (wb_counters closed) (wb_files closed) slow) in
      Ret (previous_json (Some run) notes)
  end.

Definition walked_back_of (r : result StartReport StartFailure) : option WalkedBackRun :=
  match r with
  | Ok report => report_walked_back report
  | Err failure => failure_walked_back failure
  end.

Definition previous_run_stop_of (r : result StartReport StartFailure) : Program (option Json) :=
  match walked_back_of r with
  | None => Ret None
  | Some closed => let& j := append_walked_back_run_stop closed in Ret (Some j)
  end.

Definition StartedRun : Type := Z * string * option string * list string.

(** A start that fails before a number is taken. *)
Definition refuse_start (operator comment detail : string) : Program (result StartedRun string) :=
  let& _ := audit "run/start" (JObj [("comment", JStr comment)]) operator false (Some detail) in
  Ret (Err detail).

Definition params_json (snapshot : option (CurrentParams * string)) : option Json :=
  match snapshot with
  | Some (current, id) =>
      Some (JObj [("id", JStr id); ("sha256", JStr (params_sha256 current)); ("exceptions", JNum (exceptions current))])
  | None => None
  end.

(** The records of a run that started. *)
Definition record_started (operator comment : string) (run : Z) (p : ControllerParams)
    (geometry : Geometry * list (Z * Z)) (snapshot : option (CurrentParams * string)) (previous : option Json)
    (report : StartReport) : Program unit :=
  let (config_id, ids) := run_start_config_fields (config_ids p) in
  let& slow := slow_snapshot in
  let& _ := append_record (RunStart ACTOR run config_id ids (fst geometry) (cobo_listens (params settings))
    operator comment (snd geometry) slow (params_json snapshot)) in
  audit "run/start"
    (JObj [("run", JNum run); ("comment", JStr comment);
           ("links", JArr (map started_link_json (links report)));
           ("arm_retries", JArr (map retry_json (arm_retries report)));
           ("ecc_state_after_reset", JStr (ecc_state_after_reset report));
           ("ecc_walk_back", JArr (map JStr (ecc_walk_back report)));
           ("component_walk_back", JArr (map JStr (component_walk_back report)));
           ("previous_run_stop", default JNull previous);
           ("params_id", opt_json JStr (snd <$> snapshot))]) operator true None.

(** The number goes back, and the failure is on record. *)
Definition record_failed (operator comment : string) (run : Z) (params_id : option string) (previous : option Json)
    (failure : StartFailure) : Program string :=
  let& rewound := set_next_run run in
  let detail := failure_text failure in
  let& _ := audit "run/start"
    (JObj [("run", JNum run); ("comment", JStr comment); ("stage", JStr (stage failure));
           ("next_run_rewound", JBool (match rewound with Ok _ => true | Err _ => false end));
           ("previous_run_stop", default JNull previous); ("params_id", opt_json JStr params_id)])
    operator false (Some detail) in
  Ret detail.

Definition start_run_blocking (operator comment : string) : Program (result StartedRun string) :=
  let& geometry := call [] (fun e => Some (geometry_read e, [])) in
  match geometry with
  | Err detail => refuse_start operator comment detail
  | Ok geometry =>
  let& snapshot := run_start_params_snapshot in
  match snapshot with
  | Err detail => refuse_start operator comment detail
  | Ok snapshot =>
  let params_id := snd <$> snapshot in
  let notes := match snapshot with Some (current, id) => [params_note id current] | None => [] end in
  let p := params_for_run params_id in
  let& run := take_next_run in
  match run with
  | Err e => refuse_start operator comment ("cannot take the next run number: " +:+ state_error_text e)
  | Ok run =>
  let& ts := look local_time in
  let& result := sequence p run comment ts in
  let& previous := previous_run_stop_of result in
  match result with
  | Ok report =>
      let& _ := record_started operator comment run p geometry snapshot previous report in
      Ret (Ok (run, ts, params_id, notes))
  | Err failure =>
      let& detail := record_failed operator comment run params_id previous failure in
      Ret (Err detail)
  end end end end.

(** The sections under the lock of the run state. *)
Definition claim_start : Program (option string) :=
  atomically (fun _ c =>
    if negb (bool_decide (phase (run_state c) = Phase.Idle)) then
      (Some ("controller is " +:+ Phase.to_string (phase (run_state c)) +:+ " — not Idle"), [], c)
    else
      match power_inflight (run_state c) with
      | Some _ => (Some RUN_START_POWER_IN_FLIGHT, [], c)
      | None => (None, [SetPhase Phase.Starting], c <| run_state ::= (fun r => r <| phase := Phase.Starting |>) |>)
      end).

Definition back_to_idle : Program unit :=
  atomically (fun _ c =>
    (tt, [SetPhase Phase.Idle], c <| run_state ::= (fun r => r <| phase := Phase.Idle |> <| active := None |>) |>)).

Definition now_running (run : Z) (operator comment ts : string) : Program unit :=
  atomically (fun e c =>
    (tt, [SetPhase Phase.Running],
     c <| run_state ::= (fun r => r <| phase := Phase.Running |>
            <| active := Some (mkActive run operator comment ts (instant e)) |>) |>)).

Definition start_task (operator comment : string) : Program Reply :=
  let& outcome := start_run_blocking operator comment in
  match outcome with
  | Ok (run, ts, params_id, notes) =>
      let& _ := now_running run operator comment ts in
      Ret (ok_json (JObj [("run", JNum run); ("phase", JStr "Running");
                          ("params_id", opt_json JStr params_id); ("notes", JArr (map JStr notes))]))
  | Err detail =>
      let& _ := back_to_idle in
      Ret (err_json INTERNAL_SERVER_ERROR detail)
  end.

(** The caller of a task that died. *)
Definition task_died (what : string) : Program Reply :=
  let& e := look join_error in
  let& _ := back_to_idle in
  Ret (err_json INTERNAL_SERVER_ERROR (what +:+ ": " +:+ e)).

Definition post_run_start (tok comment : string) : Program Reply :=
  let& r := authorize tok in
  match r with
  | Err why => unauthorized "run/start" (JObj [("comment", JStr comment)]) why
  | Ok operator =>
      let& refused := claim_start in
      match refused with
      | Some why =>
          let& _ := audit "run/start" (JObj [("comment", JStr comment)]) operator false (Some why) in
          Ret (err_json CONFLICT why)
      | None => spawn_blocking (start_task operator comment) (task_died "run start task")
      end
  end.

(** *** The next run number *)

Definition read_next_run (v : Json) : option Z :=
  match as_u64 v with
  | Some n => if (0 <? n) && (n <=? 2 ^ 32 - 1) then Some n else None
  | None => None
  end.

Definition not_idle_now : Program (option string) :=
  atomically (fun _ c =>
    (if bool_decide (phase (run_state c) = Phase.Idle) then None
     else Some ("controller is " +:+ Phase.to_string (phase (run_state c)) +:+
                " — cannot set next_run while a run is active"), [], c)).

Definition post_run_next (tok : string) (next_run : Json) : Program Reply :=
  let& r := authorize tok in
  match r with
  | Err why => unauthorized "run/next" (JObj []) why
  | Ok operator =>
      match read_next_run next_run with
      | None =>
          let why := "next_run must be a positive integer, got " +:+ show next_run in
          let& _ := audit "run/next" (JObj [("next_run", next_run)]) operator false (Some why) in
          Ret (err_json BAD_REQUEST why)
      | Some n =>
          let& refused := not_idle_now in
          match refused with
          | Some why =>
              let& _ := audit "run/next" (JObj [("next_run", JNum n)]) operator false (Some why) in
              Ret (err_json CONFLICT why)
          | None =>
              let& set := set_next_run n in
              match set with
              | Ok _ =>
                  let& _ := audit "run/next" (JObj [("next_run", JNum n)]) operator true None in
                  Ret (ok_json (JObj [("next_run", JNum n)]))
              | Err e =>
                  let why := "cannot persist next_run: " +:+ state_error_text e in
                  let& _ := audit "run/next" (JObj [("next_run", JNum n)]) operator false (Some why) in
                  Ret (err_json INTERNAL_SERVER_ERROR why)
              end
          end
      end
  end.

(** *** Stopping a run *)

Definition claim_stop : Program (result (option ActiveRun) string) :=
  atomically (fun _ c =>
    if bool_decide (phase (run_state c) = Phase.Running) then
      (Ok (active (run_state c)), [SetPhase Phase.Stopping],
       c <| run_state ::= (fun r => r <| phase := Phase.Stopping |>) |>)
    else
      (Err ("controller is " +:+ Phase.to_string (phase (run_state c)) +:+ " — no run to stop"), [], c)).

(** The components that make a stop an abort. *)
Definition broken_of (statuses : list ComponentStatus) : list string :=
  map status_name
    (List.filter (fun s => bool_decide (status_state s = Some Command.Error) || negb (reachable s)) statuses).

Definition stop_mode (statuses : list ComponentStatus) : StopMode :=
  match broken_of statuses with
  | [] => NormalStop
  | names => Abort ("component-error:" +:+ String.concat "," names)
  end.

(** Both sequences of a stop, on one transport. *)
Definition stop_sequences : Program StopReport :=
  call [StopSequence] (fun e =>
    match collect_status (params settings) [] (sequencer_new (found e)) with
    | Val ((statuses, _), s) =>
        match stop_run (params settings) (stop_mode statuses) (sequencer_new (transport s)) with
        | Val (report, _) => Some (report, [])
        | _ => None
        end
    | _ => None
    end).

(** [started_at.elapsed().as_secs_f64()]: instants are in nanoseconds. *)
Definition elapsed_secs (started now : Z) : f64 :=
  let elapsed := Z.max 0 (now - started) in
  f64_add (f64_of_Z (elapsed / 10 ^ 9)) (f64_div (f64_of_Z (elapsed mod 10 ^ 9)) (f64_of_Z (10 ^ 9))).

Definition stop_run_blocking (operator : string) (active : option ActiveRun) : Program Json :=
  let& report := stop_sequences in
  let run := match active with Some a => active_number a | None => 0 end in
  let& now := look instant in
  let duration := match active with Some a => elapsed_secs (started_at a) now | None => f64_of_Z 0 end in
  let& slow := slow_snapshot in
  let& _ := append_record (RunStop ACTOR run (Some duration) (stop_ok report) (reason report)
    (stop_forced_eos report) (stop_eos_closed report) (stop_counters report) (stop_files report) slow) in
  let& _ := audit "run/stop"
    (JObj [("run", JNum run); ("reason", JStr (reason report)); ("forced_eos", JBool (stop_forced_eos report));
           ("eos_closed", JBool (stop_eos_closed report))])
    operator (stop_ok report)
    (match stop_notes report with [] => None | notes => Some (String.concat "; " notes) end) in
  Ret (JObj [("run", JNum run); ("ok", JBool (stop_ok report)); ("reason", JStr (reason report));
             ("forced_eos", JBool (stop_forced_eos report)); ("eos_closed", JBool (stop_eos_closed report));
             ("notes", JArr (map JStr (stop_notes report)))]).

Definition stop_task (operator : string) (active : option ActiveRun) : Program Reply :=
  let& body := stop_run_blocking operator active in
  let& _ := back_to_idle in
  Ret (ok_json body).

Definition post_run_stop (tok : string) : Program Reply :=
  let& r := authorize tok in
  match r with
  | Err why => unauthorized "run/stop" (JObj []) why
  | Ok operator =>
      let& claimed := claim_stop in
      match claimed with
      | Err why =>
          let& _ := audit "run/stop" (JObj []) operator false (Some why) in
          Ret (err_json CONFLICT why)
      | Ok active => spawn_blocking (stop_task operator active) (task_died "run stop task")
      end
  end.

(** *** One step of the ECC *)

Definition ECC_ACTIONS : list string := ["describe"; "prepare"; "configure"; "start"; "stop"; "breakup"; "reset"].

Fixpoint links_now (cs : list ComponentEndpoint) : Seq T (result (list RouterLink) string) :=
  match cs with
  | [] => seq_ret (Ok [])
  | c :: cs =>
      match kind c with
      | ReceiverKind cobo_id =>
          let*? response := apply c GetStatus in
          match router_link (params settings) cobo_id response with
          | Err e => seq_ret (Err (name c +:+ ": " +:+ e +:+ " (Arm the receivers first)"))
          | Ok link => let*? links := links_now cs in seq_ret (Ok (link :: links))
          end
      | _ => links_now cs
      end
  end.

Definition configure_request_now : Seq T (result Json string) :=
  let*? links := links_now (components (params settings)) in
  seq_ret (Ok (configure_request (params settings) links)).

Definition ecc_request_body (action : string) : Seq T (result Json string) :=
  if bool_decide (action = "configure") then configure_request_now
  else seq_ret (Ok (JObj (("action", JStr action) ::
    match for_action (config_ids (params settings)) action with
    | Some id => [("config_id", JStr id)]
    | None => []
    end))).

(** The request sent and its answer, or why none was sent. *)
Definition ecc_exchange (action : string) : Program (result (Json * result EccReply string) string) :=
  call [] (fun e =>
    match ecc_request_body action (sequencer_new (found e)) with
    | Val (Err why, _) => Some (Err why, [])
    | Val (Ok body, s) => Some (Ok (body, fst (transport_ecc body (transport s))), [Ecc body])
    | _ => None
    end).

Definition ecc_task (operator endpoint action : string) : Program Reply :=
  let& exchanged := ecc_exchange action in
  match exchanged with
  | Err why =>
      let& _ := audit endpoint (JObj []) operator false (Some why) in
      Ret (err_json CONFLICT why)
  | Ok (body, Ok reply) =>
      let& _ := audit endpoint body operator (ecc_ok reply) (if ecc_ok reply then None else Some (error reply)) in
      Ret (ok_json (JObj [("ok", JBool (ecc_ok reply)); ("state", JStr (ecc_state reply)); ("error", JStr (error reply))]))
  | Ok (body, Err e) =>
      let& _ := audit endpoint body operator false (Some e) in
      Ret (err_json BAD_GATEWAY e)
  end.

Definition post_ecc (action tok : string) : Program Reply :=
  let endpoint := "ecc/" +:+ action in
  let& r := authorize tok in
  match r with
  | Err why => unauthorized endpoint (JObj []) why
  | Ok operator =>
      if bool_decide (action ∈ ECC_ACTIONS) then
        spawn_blocking (ecc_task operator endpoint action)
          (let& e := look join_error in Ret (err_json INTERNAL_SERVER_ERROR ("ecc task: " +:+ e)))
      else
        let why := "unknown ecc action: " +:+ action in
        let& _ := audit endpoint (JObj []) operator false (Some why) in
        Ret (err_json BAD_REQUEST why)
  end.

(** *** Slow-control power *)

Definition phase_now : Program Phase.Phase := atomically (fun _ c => (phase (run_state c), [], c)).

Definition refuse_power (request : SlowPowerRequest) (operator : string) (code : StatusCode) (p : Phase.Phase)
    (why : string) : Program Reply :=
  let& _ := audit SLOW_POWER_ACTION (power_audit_params request p JNull JNull) operator false (Some why) in
  Ret (err_json code why).

Definition claim_power (command : PowerCommand) (operator : string) : Program (Phase.Phase * option string) :=
  atomically (fun _ c =>
    let p := phase (run_state c) in
    let refused :=
      match power_inflight (run_state c) with
      | Some i => Some (POWER_IN_FLIGHT +:+ " (" +:+ inflight_device i +:+ " ch " +:+ dec (inflight_ch i) +:+ " " +:+
                        on_off (inflight_on i) +:+ " by " +:+ inflight_operator i +:+ ")")
      | None => match power_rule (device_type command) (on command) p with Ok _ => None | Err why => Some why end
      end in
    match refused with
    | Some why => ((p, Some why), [], c)
    | None =>
        let mark := mkInflight (device command) (ch command) (on command) operator in
        ((p, None), [MarkPower command], c <| run_state ::= (fun r => r <| power_inflight := Some mark |>) |>)
    end).

Definition clear_power : Program unit :=
  atomically (fun _ c => (tt, [ClearPower], c <| run_state ::= (fun r => r <| power_inflight := None |>) |>)).

Definition slow_power_request (command : PowerCommand) : Program (result Json SlowCmdFailure) :=
  call [SendPower command] (fun e => Some (slow_answer e, [])).

Definition finish_slow_power (request : SlowPowerRequest) (p : Phase.Phase) (operator : string)
    (outcome : result Json SlowCmdFailure) : Program Reply :=
  let '(code, body, before, after, error) := slow_power_outcome show outcome in
  let& _ := audit SLOW_POWER_ACTION (power_audit_params request p before after) operator
    (match code with OK => true | _ => false end) error in
  Ret (code, body).

Definition power_task (request : SlowPowerRequest) (p : Phase.Phase) (operator : string) (command : PowerCommand)
    : Program Reply :=
  let& outcome := slow_power_request command in
  let& _ := clear_power in
  finish_slow_power request p operator outcome.

Definition power_died (request : SlowPowerRequest) (p : Phase.Phase) (operator : string) : Program Reply :=
  let& e := look join_error in
  let& _ := clear_power in
  let why := "slow/power task: " +:+ e in
  let& _ := audit SLOW_POWER_ACTION (power_audit_params request p JNull JNull) operator false (Some why) in
  Ret (err_json INTERNAL_SERVER_ERROR why).

Definition post_slow_power (request : SlowPowerRequest) : Program Reply :=
  let& at_first := phase_now in
  let& r := authorize (power_token request) in
  match r with
  | Err why => unauthorized SLOW_POWER_ACTION (power_audit_params request at_first JNull JNull) why
  | Ok operator =>
      match slow_cmd settings with
      | None => refuse_power request operator SERVICE_UNAVAILABLE at_first SLOW_CMD_NOT_CONFIGURED
      | Some _ =>
          match validate_power_request show (slow_devices settings) request with
          | Err why => refuse_power request operator BAD_REQUEST at_first why
          | Ok command =>
              let& (p, refused) := claim_power command operator in
              match refused with
              | Some why => refuse_power request operator CONFLICT p why
              | None => spawn_blocking (power_task request p operator command) (power_died request p operator)
              end
          end
      end
  end.

(** *** Comments *)

Definition post_comment (author text : string) : Program Reply :=
  let& _ := append_record (Comment "ui" author text) in
  Ret (ok_json (JObj [("appended", JBool true)])).

(** The routes that change something. *)
Definition handle (request : Request) : Program Reply :=
  match request with
  | Acquire operator pass => post_acquire operator pass
  | Release tok => post_release tok
  | RunStartRequest tok comment => post_run_start tok comment
  | RunNext tok n => post_run_next tok n
  | RunStopRequest tok => post_run_stop tok
  | EccAction action tok => post_ecc action tok
  | SlowPower request => post_slow_power request
  | PostComment author text => post_comment author text
  end.
End Handlers.
