(* ===== verification/Lifecycle.v ===== *)
(** * Lifecycle: the runs and the power commands, whatever interleaves

    What the handlers of [Handlers] promise together, as an abstract machine that
    accepts their trace: one start or stop at a time works through its steps in
    order, a number that reached the logbook is never handed back, a power
    command is sent under its mark and under the rule, and every claim is given
    back.  Each handler keeps its part; [pool_obeys] carries it to every
    interleaving of any requests.  At the end, two interleavings the handlers
    allow and did not mean to. *)

From stdpp Require Import gmap pretty strings.
From S2P Require State.
From S2P Require Import Prelude Bytes Decimal Command Controller Logbook Sequencer Programs Handlers.
Open Scope list_scope.
Open Scope Z_scope.

(** ** The abstract machine *)

(** How far a start has come: claimed, number taken, sequence run, on record,
    number handed back, or its task died. *)
Inductive Starting : Type :=
| StartClaimed
| StartTaken (n : Z)
| StartSequenced (n : Z)
| StartOnRecord (n : Z)
| StartRewound
| StartLost.

Inductive Stopping : Type :=
| StopClaimed
| StopSequenced
| StopOnRecord
| StopLost.

(** Who works on the run: nobody, the handler that starts it, nobody while it is
    up, the handler that stops it. *)
Inductive Runner : Type :=
| Free
| StartBy (i : nat) (st : Starting)
| Up (n : Z)
| StopBy (i : nat) (n : Z) (st : Stopping).

Record Spec : Type := mkSpec {
  runner : Runner;
  power : option (nat * PowerCommand);
}.
#[export] Instance eta_Spec : Eta Spec := fun s => mkSpec (runner s) (power s).

Definition spec0 : Spec := mkSpec Free None.

Definition phase_of (r : Runner) : Phase.Phase :=
  match r with
  | Free => Phase.Idle
  | StartBy _ _ => Phase.Starting
  | Up _ => Phase.Running
  | StopBy _ _ _ => Phase.Stopping
  end.

Definition number_of (r : Runner) : option Z :=
  match r with
  | Up n | StopBy _ n _ => Some n
  | _ => None
  end.

(** The next step of the start or the stop handler [i] is at. *)
Definition start_step (i : nat) (s : Spec) (step : Starting -> option Runner) : option Spec :=
  match runner s with
  | StartBy j st =>
      if decide (i = j) then match step st with Some r => Some (s <| runner := r |>) | None => None end else None
  | _ => None
  end.

Definition stop_step (i : nat) (s : Spec) (step : Z -> Stopping -> option Runner) : option Spec :=
  match runner s with
  | StopBy j n st =>
      if decide (i = j) then match step n st with Some r => Some (s <| runner := r |>) | None => None end else None
  | _ => None
  end.

Definition or_else {A : Type} (o o' : option A) : option A := match o with Some _ => o | None => o' end.

(** The reason of a [run_stop] that only a walk-back writes. *)
Definition RESTARTED : string := "abort:controller-restart".

Definition accept_record (i : nat) (r : LogbookRecord) (s : Spec) : option Spec :=
  match r with
  | RunStart _ run _ _ _ _ _ _ _ _ _ =>
      start_step i s (fun st => match st with
        | StartSequenced n => if decide (n = run) then Some (StartBy i (StartOnRecord n)) else None
        | _ => None
        end)
  | RunStop _ run _ _ reason _ _ _ _ _ =>
      or_else
        (start_step i s (fun st => match st with
          | StartSequenced n => if decide (reason = RESTARTED) then Some (StartBy i st) else None
          | _ => None
          end))
        (stop_step i s (fun n st => match st with
          | StopSequenced => if decide (n = run) then Some (StopBy i n StopOnRecord) else None
          | _ => None
          end))
  | Slow _ _ _ _ _ => None
  | Audit _ _ _ _ _ _ | Comment _ _ _ => Some s
  end.

(** Is handler [i] the one that starts or stops the run? *)
Definition works (i : nat) (r : Runner) : bool :=
  match r with
  | StartBy j _ | StopBy j _ _ => bool_decide (i = j)
  | _ => false
  end.

Definition accept_phase (i : nat) (p : Phase.Phase) (s : Spec) : option Spec :=
  match p with
  | Phase.Starting =>
      match runner s, power s with
      | Free, None => Some (s <| runner := StartBy i StartClaimed |>)
      | _, _ => None
      end
  | Phase.Running =>
      start_step i s (fun st => match st with StartOnRecord n => Some (Up n) | _ => None end)
  | Phase.Stopping =>
      match runner s with
      | Up n => Some (s <| runner := StopBy i n StopClaimed |>)
      | _ => None
      end
  | Phase.Idle =>
      or_else
        (start_step i s (fun st => match st with
          | StartClaimed | StartRewound | StartLost => Some Free
          | _ => None
          end))
        (stop_step i s (fun _ st => match st with StopOnRecord | StopLost => Some Free | _ => None end))
  end.

Definition accept (i : nat) (ev : Event) (s : Spec) : option Spec :=
  match ev with
  | SetPhase p => accept_phase i p s
  | Took n => start_step i s (fun st => match st with StartClaimed => Some (StartBy i (StartTaken n)) | _ => None end)
  | SetNext n =>
      if works i (runner s) then
        start_step i s (fun st => match st with
          | StartSequenced m => if decide (m = n) then Some (StartBy i StartRewound) else None
          | _ => None
          end)
      else Some s
  | Sequence n =>
      start_step i s (fun st => match st with
        | StartTaken m => if decide (m = n) then Some (StartBy i (StartSequenced n)) else None
        | _ => None
        end)
  | StopSequence =>
      stop_step i s (fun n st => match st with StopClaimed => Some (StopBy i n StopSequenced) | _ => None end)
  | Ecc _ => Some s
  | MarkPower command =>
      match power s, power_rule (device_type command) (on command) (phase_of (runner s)) with
      | None, Ok _ => Some (s <| power := Some (i, command) |>)
      | _, _ => None
      end
  | SendPower command =>
      match power s with
      | Some (j, marked) => if decide (i = j /\ command = marked) then Some s else None
      | None => None
      end
  | ClearPower =>
      match power s with
      | Some (j, _) => if decide (i = j) then Some (s <| power := None |>) else None
      | None => None
      end
  | Wrote r => accept_record i r s
  | Died =>
      match runner s with
      | StartBy j _ => Some (if decide (i = j) then s <| runner := StartBy i StartLost |> else s)
      | StopBy j n _ => Some (if decide (i = j) then s <| runner := StopBy i n StopLost |> else s)
      | _ => Some s
      end
  end.

(** ** What it says of one handler, and of the shared state *)

Definition Work : Type := option (Starting + Z * Stopping) * option PowerCommand.
Definition no_work : Work := (None, None).

Definition view (i : nat) (s : Spec) : Work :=
  (match runner s with
   | StartBy j st => if decide (i = j) then Some (inl st) else None
   | StopBy j n st => if decide (i = j) then Some (inr (n, st)) else None
   | _ => None
   end,
   match power s with
   | Some (j, command) => if decide (i = j) then Some command else None
   | None => None
   end).

Definition marked (command : PowerCommand) : string * Z * bool := (device command, ch command, on command).
Definition in_flight (p : PowerInflight) : string * Z * bool := (inflight_device p, inflight_ch p, inflight_on p).

(** A power command in flight keeps to the rule. *)
Definition ruled (s : Spec) : Prop :=
  match power s with
  | Some (_, command) => power_rule (device_type command) (on command) (phase_of (runner s)) = Ok tt
  | None => True
  end.

Definition agrees (s : Spec) (c : Shared) : Prop :=
  phase (run_state c) = phase_of (runner s) /\
  active_number <$> active (run_state c) = number_of (runner s) /\
  in_flight <$> power_inflight (run_state c) = (fun p => marked (snd p)) <$> power s /\
  ruled s.

(** ** Lemmas *)

Lemma view_starts i s st p : view i s = (Some (inl st), p) -> runner s = StartBy i st.
Proof. unfold view. destruct (runner s) as [| j st' | n | j n st']; try done; destruct (decide (i = j)); congruence. Qed.

Lemma view_stops i s n st p : view i s = (Some (inr (n, st)), p) -> runner s = StopBy i n st.
Proof. unfold view. destruct (runner s) as [| j st' | m | j m st']; try done; destruct (decide (i = j)); congruence. Qed.

Lemma view_power i s r command : view i s = (r, Some command) -> power s = Some (i, command).
Proof. unfold view. destruct (power s) as [[j c] |]; [| done]. destruct (decide (i = j)); congruence. Qed.

Lemma view_works i s p : view i s = (None, p) -> works i (runner s) = false.
Proof.
  unfold view, works. destruct (runner s) as [| j st | n | j n st]; try done;
    destruct (decide (i = j)); try done; intros _; by apply bool_decide_eq_false_2.
Qed.

(** The handler that starts, or stops, the run goes on. *)
Lemma start_step_view i s st p step r :
  view i s = (Some (inl st), p) -> step st = Some r -> start_step i s step = Some (s <| runner := r |>).
Proof. intros Hv Hs. unfold start_step. rewrite (view_starts i s st p Hv), decide_True by done. by rewrite Hs. Qed.

Lemma start_step_cases i s s' step :
  start_step i s step = Some s' -> exists st r, runner s = StartBy i st /\ step st = Some r /\ s' = s <| runner := r |>.
Proof.
  unfold start_step. destruct (runner s) as [| j st | n | j n st]; try done. destruct (decide (i = j)) as [<- |]; [| done].
  destruct (step st) as [r |] eqn:E; [| done]. intros [= <-]. eauto.
Qed.

Lemma stop_step_cases i s s' step :
  stop_step i s step = Some s' -> exists n st r, runner s = StopBy i n st /\ step n st = Some r /\ s' = s <| runner := r |>.
Proof.
  unfold stop_step. destruct (runner s) as [| j st | n | j n st]; try done. destruct (decide (i = j)) as [<- |]; [| done].
  destruct (step n st) as [r |] eqn:E; [| done]. intros [= <-]. eauto 6.
Qed.

Lemma or_else_cases {A} (o o' : option A) a : or_else o o' = Some a -> o = Some a \/ o' = Some a.
Proof. destruct o; cbn; auto. Qed.

(** Who a runner belongs to. *)
Definition owner (r : Runner) : option nat :=
  match r with
  | StartBy i _ | StopBy i _ _ => Some i
  | _ => None
  end.

Lemma view_runner j s r :
  owner (runner s) <> Some j -> owner r <> Some j -> view j (s <| runner := r |>) = view j s.
Proof.
  destruct s as [r0 p]. unfold view. cbn. intros H0 H1. f_equal.
  assert (Hn : forall r, owner r <> Some j ->
    match r with
    | StartBy j0 st => if decide (j = j0) then Some (inl st) else None
    | StopBy j0 n st => if decide (j = j0) then Some (inr (n, st)) else None
    | _ => None
    end = @None (Starting + Z * Stopping)).
  { intros [| j0 st | n | j0 n st] Hr; cbn in *; try done; destruct (decide (j = j0)); congruence. }
  by rewrite !Hn.
Qed.

Lemma step_frame i j s (step : Starting -> option Runner) s' :
  start_step i s step = Some s' -> (forall st r, step st = Some r -> owner r = Some i \/ owner r = None) -> j <> i ->
  view j s' = view j s.
Proof.
  intros H Hstep Hj. apply start_step_cases in H as (st & r & Hr & Hs & ->).
  apply view_runner; [rewrite Hr; cbn; congruence |]. destruct (Hstep st r Hs); congruence.
Qed.

Lemma stop_frame i j s (step : Z -> Stopping -> option Runner) s' :
  stop_step i s step = Some s' -> (forall n st r, step n st = Some r -> owner r = Some i \/ owner r = None) -> j <> i ->
  view j s' = view j s.
Proof.
  intros H Hstep Hj. apply stop_step_cases in H as (n & st & r & Hr & Hs & ->).
  apply view_runner; [rewrite Hr; cbn; congruence |]. destruct (Hstep n st r Hs); congruence.
Qed.

Ltac steps_own :=
  intros; repeat match goal with
  | st : Starting |- _ => destruct st
  | st : Stopping |- _ => destruct st
  end; repeat case_decide; simplify_eq/=; auto.

(** What handler [i] does leaves what the machine holds of the others alone. *)
Lemma accept_frame i j ev s s' : accept i ev s = Some s' -> j <> i -> view j s' = view j s.
Proof.
  intros H Hj. destruct ev as [p | n | n | n | | q | command | command | | r |]; cbn [accept] in H.
  - destruct p; cbn [accept_phase] in H.
    + apply or_else_cases in H as [H | H]; [eapply step_frame | eapply stop_frame]; eauto; steps_own.
    + destruct (runner s) eqn:Er, (power s); simplify_eq. apply view_runner; [by rewrite Er | cbn; congruence].
    + eapply step_frame; eauto; steps_own.
    + destruct (runner s) eqn:Er; simplify_eq. apply view_runner; [by rewrite Er | cbn; congruence].
  - eapply step_frame; eauto; steps_own.
  - destruct (works i (runner s)); [| congruence]. eapply step_frame; eauto; steps_own.
  - eapply step_frame; eauto; steps_own.
  - eapply stop_frame; eauto; steps_own.
  - congruence.
  - destruct (power s) eqn:Ep; [done |]. destruct (power_rule _ _ _); simplify_eq.
    unfold view. cbn. rewrite Ep. by rewrite decide_False by done.
  - destruct (power s) as [[k m] |] eqn:Ep; [| done]. by case_decide; simplify_eq.
  - destruct (power s) as [[k m] |] eqn:Ep; [| done]. case_decide; simplify_eq.
    unfold view. cbn. rewrite Ep. by rewrite decide_False by done.
  - destruct r; cbn [accept_record] in H; simplify_eq; try done.
    + eapply step_frame; eauto; steps_own.
    + apply or_else_cases in H as [H | H]; [eapply step_frame | eapply stop_frame]; eauto; steps_own.
  - destruct (runner s) as [| k st | n | k n st] eqn:Er; simplify_eq; try done;
      case_decide; simplify_eq; try done; apply view_runner; [rewrite Er | | rewrite Er |]; cbn; congruence.
Qed.

(** What the shared state shows of the machine. *)
Definition outer (s : Spec) : Phase.Phase * option Z * option (nat * PowerCommand) :=
  (phase_of (runner s), number_of (runner s), power s).

Lemma agrees_outer s s' c : outer s' = outer s -> agrees s c -> agrees s' c.
Proof.
  unfold outer, agrees, ruled. intros [= Hp Hn Hw]. by rewrite Hp, Hn, Hw.
Qed.

Lemma agrees_run_state s c c' : run_state c' = run_state c -> agrees s c -> agrees s c'.
Proof. unfold agrees. by intros ->. Qed.

(** What is left of a handler's work when its task has died. *)
Definition lost (w : Work) : Work :=
  (match fst w with
   | Some (inl _) => Some (inl StartLost)
   | Some (inr (n, _)) => Some (inr (n, StopLost))
   | None => None
   end, snd w).

Lemma accept_died i s : exists s', accept i Died s = Some s' /\ outer s' = outer s /\ view i s' = lost (view i s).
Proof.
  destruct s as [[| j st | n | j n st] p]; cbn [accept runner]; [by exists (mkSpec Free p) | | by exists (mkSpec (Up n) p) |];
    (destruct (decide (i = j)) as [<- | Hj]; (eexists; split; [done |]; split; [done |]));
    unfold view, lost; cbn; repeat case_decide; simplify_eq; done.
Qed.

Section Keeping.
Context {T : Type} `{HT : Transport T} `{HS : State.StateJson} `{HL : LineJson}.
Variable settings : Settings.
Variable show : Json -> string.
Variable parse_rfc3339 : string -> option Z.
Notation Program := (Prog (Outside T) Shared Event).
Notation keeps i p w Q D := (obeys accept view agrees i p w Q D).

Lemma keeps_atomically {A} i (section : Outside T -> Shared -> A * list Event * Shared) w (Q : A -> Work -> Prop) D :
  (forall e c s, agrees s c -> view i s = w ->
     let '(a, evs, c') := section e c in
     exists s', accepts accept i evs s = Some s' /\ agrees s' c' /\ Q a (view i s')) ->
  keeps i (atomically section) w Q D.
Proof. intros Hs e c s Ha Hw. specialize (Hs e c s Ha Hw). by destruct (section e c) as [[a evs] c']. Qed.

(** A section that leaves the run state and the trace alone. *)
Lemma keeps_quiet {A} i (section : Outside T -> Shared -> A * list Event * Shared) w (Q : A -> Work -> Prop) D :
  (forall e c, let '(a, evs, c') := section e c in evs = [] /\ run_state c' = run_state c /\ Q a w) ->
  keeps i (atomically section) w Q D.
Proof.
  intros Hs. apply keeps_atomically. intros e c s Ha Hw. specialize (Hs e c).
  destruct (section e c) as [[a evs] c']. destruct Hs as (-> & Hr & HQ). exists s. rewrite Hw.
  split_and!; [done | by eapply agrees_run_state | done].
Qed.

Lemma keeps_look {A} i (f : Outside T -> A) w (Q : A -> Work -> Prop) D : (forall a, Q a w) -> keeps i (look f) w Q D.
Proof. intros HQ. apply keeps_quiet. by intros e c. Qed.

Lemma keeps_emit i ev w (Q : unit -> Work -> Prop) D :
  (forall s, view i s = w -> exists s', accept i ev s = Some s' /\ outer s' = outer s /\ Q tt (view i s')) ->
  keeps i (emit (T := T) ev) w Q D.
Proof.
  intros He. apply keeps_atomically. intros e c s Ha Hw. destruct (He s Hw) as (s' & H1 & H2 & H3).
  exists s'. cbn. rewrite H1. split_and!; [done | by eapply agrees_outer | done].
Qed.

Lemma keeps_audit i action params operator ok error w (Q : unit -> Work -> Prop) D :
  Q tt w -> keeps i (audit (T := T) action params operator ok error) w Q D.
Proof. intros HQ. apply keeps_emit. intros s Hs. exists s. by rewrite Hs. Qed.

Lemma keeps_slow_snapshot i w (Q : option Json -> Work -> Prop) D :
  (forall a, Q a w) -> keeps i (slow_snapshot (T := T)) w Q D.
Proof. apply keeps_look. Qed.

Lemma keeps_call {A} i begun (f : Outside T -> option (A * list Event)) w w1 (Q : A -> Work -> Prop) (D : Work -> Prop) :
  (forall s, view i s = w -> exists s1, accepts accept i begun s = Some s1 /\ outer s1 = outer s /\ view i s1 = w1) ->
  (forall e a evs, f e = Some (a, evs) -> Forall (fun ev => exists q, ev = Ecc q) evs /\ Q a w1) ->
  D (lost w1) -> keeps i (call begun f) w Q D.
Proof.
  intros Hb Hf HD e c s Ha Hw. destruct (Hb s Hw) as (s1 & H1 & H2 & H3).
  assert (Happ : forall evs s2, accepts accept i evs s1 = Some s2 -> accepts accept i (begun ++ evs) s = Some s2).
  { intros evs s2 E. rewrite <- accepts_trace_of, map_app, accepts_trace_app, accepts_trace_of, H1.
    by rewrite accepts_trace_of. }
  assert (Hdied : exists s', accepts accept i (begun ++ [Died]) s = Some s' /\ agrees s' c /\ D (view i s')).
  { destruct (accept_died i s1) as (s2 & E1 & E2 & E3). exists s2. split_and!.
    - apply Happ. cbn [accepts]. by rewrite E1.
    - eapply agrees_outer; [| exact Ha]. congruence.
    - by rewrite E3, H3. }
  destruct (dies e); [exact Hdied |].
  destruct (f e) as [[a evs] |] eqn:Ef; [| exact Hdied].
  destruct (Hf e a evs Ef) as [Hevs HQ]. exists s1. split_and!.
  - apply Happ. clear -Hevs. induction Hevs as [| ev evs [q ->] _ IH]; [done |]. exact IH.
  - by eapply agrees_outer.
  - by rewrite H3.
Qed.

(** A call with nothing on the trace. *)
Lemma keeps_call_quiet {A} i (f : Outside T -> option (A * list Event)) w (Q : A -> Work -> Prop) (D : Work -> Prop) :
  (forall e a evs, f e = Some (a, evs) -> Forall (fun ev => exists q, ev = Ecc q) evs /\ Q a w) ->
  D (lost w) -> keeps i (call [] f) w Q D.
Proof. intros Hf HD. eapply keeps_call; [| exact Hf | exact HD]. intros s Hs. by exists s. Qed.

(** The answer of a handler that has nothing in hand. *)
Lemma keeps_audited i action params operator ok error (r : Reply) w D :
  w = no_work -> keeps i (let& _ := audit (T := T) action params operator ok error in Ret r) w (fun _ w => w = no_work) D.
Proof. intros ->. apply obeys_bind, keeps_audit. done. Qed.

Lemma keeps_authorize i tok w (Q : result string string -> Work -> Prop) D :
  (forall r, Q r w) -> keeps i (authorize (T := T) tok) w Q D.
Proof. intros HQ. apply keeps_quiet. by intros e c. Qed.

(** *** Starting *)

Definition starting (st : Starting) : Work := (Some (inl st), None).
Definition stopping (n : Z) (st : Stopping) : Work := (Some (inr (n, st)), None).

Lemma start_moves i s st step st' :
  view i s = starting st -> step st = Some (StartBy i st') ->
  exists s', start_step i s step = Some s' /\ outer s' = outer s /\ view i s' = starting st'.
Proof.
  intros Hv Hs. exists (s <| runner := StartBy i st' |>). split_and!.
  - by eapply start_step_view.
  - unfold outer. by rewrite (view_starts _ _ _ _ Hv).
  - destruct s as [r p]. revert Hv. unfold view, starting. cbn. rewrite decide_True by done.
    intros Hv. f_equal. by injection Hv.
Qed.

Lemma stop_moves i s n st step st' :
  view i s = stopping n st -> step n st = Some (StopBy i n st') ->
  exists s', stop_step i s step = Some s' /\ outer s' = outer s /\ view i s' = stopping n st'.
Proof.
  intros Hv Hs. pose proof (view_stops _ _ _ _ _ Hv) as Hr. exists (s <| runner := StopBy i n st' |>). split_and!.
  - unfold stop_step. rewrite Hr, decide_True by done. by rewrite Hs.
  - unfold outer. by rewrite Hr.
  - destruct s as [r p]. revert Hv. unfold view, stopping. cbn. rewrite decide_True by done.
    intros Hv. f_equal. by injection Hv.
Qed.

Definition start_died (w : Work) : Prop := w = starting StartLost.
Definition stop_died (w : Work) : Prop := exists n, w = stopping n StopLost.

Definition start_ended (r : result StartedRun string) (w : Work) : Prop :=
  match r with
  | Ok (run, _, _, _) => w = starting (StartOnRecord run)
  | Err _ => w = starting StartClaimed \/ w = starting StartRewound
  end.

Lemma keeps_refuse_start i operator comment detail :
  keeps i (refuse_start (T := T) operator comment detail) (starting StartClaimed) start_ended start_died.
Proof. apply obeys_bind, keeps_audit. by left. Qed.

Lemma keeps_take_next_run i (Q : result Z State.StateError -> Work -> Prop) :
  (forall n, Q (Ok n) (starting (StartTaken n))) -> (forall e, Q (Err e) (starting StartClaimed)) ->
  keeps i (take_next_run (T := T) settings) (starting StartClaimed) Q start_died.
Proof.
  intros HQ He e c s Ha Hw. destruct (State.take_next_run _ _ _) as [r d].
  destruct r as [[n | err] |].
  - destruct (start_moves i s _ (fun st => match st with StartClaimed => Some (StartBy i (StartTaken n)) | _ => None end)
      (StartTaken n) Hw eq_refl) as (s' & E1 & E2 & E3).
    exists s'. cbn. rewrite E1, E3. split_and!; [done | by eapply agrees_run_state, agrees_outer | apply HQ].
  - exists s. rewrite Hw. split_and!; [done | by eapply agrees_run_state | apply He].
  - destruct (accept_died i s) as (s' & E1 & E2 & E3). exists s'. cbn [accepts]. rewrite E1, E3, Hw.
    split_and!; [done | by eapply agrees_run_state, agrees_outer | done].
Qed.

Lemma keeps_rewind i n (Q : result unit State.StateError -> Work -> Prop) :
  (forall r, Q r (starting StartRewound)) ->
  keeps i (set_next_run (T := T) settings n) (starting (StartSequenced n)) Q start_died.
Proof.
  intros HQ e c s Ha Hw.
  destruct (start_moves i s _ (fun st => match st with
      | StartSequenced m => if decide (m = n) then Some (StartBy i StartRewound) else None | _ => None end)
    StartRewound Hw) as (s' & E1 & E2 & E3); [by rewrite decide_True |].
  assert (Ea : accept i (SetNext n) s = Some s').
  { cbn [accept]. unfold works. rewrite (view_starts _ _ _ _ Hw). by rewrite bool_decide_eq_true_2. }
  destruct (State.set_next_run _ _ _ _) as [[r |] d].
  - exists s'. cbn [accepts]. rewrite Ea, E3.
    split_and!; [done | by eapply agrees_run_state, agrees_outer | apply HQ].
  - destruct (accept_died i s') as (s2 & F1 & F2 & F3). exists s2. cbn [accepts]. rewrite Ea, F1, F3, E3.
    split_and!; [done | eapply agrees_run_state; [done |]; eapply agrees_outer; [| exact Ha]; congruence | done].
Qed.

Lemma keeps_sequence i p n comment ts (Q : result StartReport StartFailure -> Work -> Prop) :
  (forall r, Q r (starting (StartSequenced n))) ->
  keeps i (sequence (T := T) p n comment ts) (starting (StartTaken n)) Q start_died.
Proof.
  intros HQ. apply (keeps_call i _ _ _ (starting (StartSequenced n))); [| | done].
  - intros s Hs.
    destruct (start_moves i s _ (fun st => match st with
        | StartTaken m => if decide (m = n) then Some (StartBy i (StartSequenced n)) else None | _ => None end)
      (StartSequenced n) Hs) as (s' & E1 & E2); [by rewrite decide_True |].
    exists s'. cbn [accepts accept]. by rewrite E1.
  - intros e a evs. destruct (start_run _ _ _ _ _) as [[r s'] | |]; intros [= <- <-]. by split.
Qed.

(** The records a start may write at its stage. *)
Lemma keeps_restart_record i n run duration ok eos closed counters files slow (Q : unit -> Work -> Prop) D :
  Q tt (starting (StartSequenced n)) ->
  keeps i (append_record (T := T) (RunStop ACTOR run duration ok RESTARTED eos closed counters files slow))
    (starting (StartSequenced n)) Q D.
Proof.
  intros HQ. apply keeps_emit. intros s Hs. cbn [accept accept_record].
  destruct (start_moves i s _ (fun st => match st with
      | StartSequenced n => if decide (RESTARTED = RESTARTED) then Some (StartBy i st) else None | _ => None end)
    (StartSequenced n) Hs) as (s' & E1 & E2 & E3); [by rewrite decide_True |].
  exists s'. rewrite E1, E3. by split.
Qed.

Lemma keeps_start_record i n config_id ids geometry listens operator comment fragments slow ps (Q : unit -> Work -> Prop) D :
  Q tt (starting (StartOnRecord n)) ->
  keeps i (append_record (T := T) (RunStart ACTOR n config_id ids geometry listens operator comment fragments slow ps))
    (starting (StartSequenced n)) Q D.
Proof.
  intros HQ. apply keeps_emit. intros s Hs. cbn [accept accept_record].
  destruct (start_moves i s _ (fun st => match st with
      | StartSequenced m => if decide (m = n) then Some (StartBy i (StartOnRecord m)) else None | _ => None end)
    (StartOnRecord n) Hs) as (s' & E1 & E2 & E3); [by rewrite decide_True |].
  exists s'. rewrite E1, E3. by split.
Qed.

Lemma keeps_previous_run_stop i n r (Q : option Json -> Work -> Prop) :
  (forall j, Q j (starting (StartSequenced n))) ->
  keeps i (previous_run_stop_of (T := T) settings parse_rfc3339 r) (starting (StartSequenced n)) Q start_died.
Proof.
  intros HQ. unfold previous_run_stop_of. destruct (walked_back_of r) as [closed |]; [| apply HQ].
  apply obeys_bind. unfold append_walked_back_run_stop. destruct (previous_run closed) as [run | why]; [| apply HQ].
  apply obeys_bind, keeps_call_quiet; [| done].
  intros e [duration notes] evs [= Hf <-]. split; [done |].
  apply obeys_bind, keeps_slow_snapshot. intros slow.
  apply obeys_bind. apply keeps_restart_record. apply HQ.
Qed.

Lemma keeps_start_run_blocking i operator comment :
  keeps i (start_run_blocking (T := T) settings parse_rfc3339 operator comment) (starting StartClaimed) start_ended start_died.
Proof.
  apply obeys_bind, keeps_call_quiet; [| done]. intros e0 geometry evs [= _ <-]. split; [done |].
  destruct geometry as [geometry | detail]; [| apply keeps_refuse_start].
  apply obeys_bind, keeps_call_quiet; [| done]. intros e1 snapshot evs [= _ <-]. split; [done |].
  destruct snapshot as [snapshot | detail]; [| apply keeps_refuse_start].
  apply obeys_bind, keeps_take_next_run; [intros run | intros err; apply keeps_refuse_start].
  apply obeys_bind, keeps_look. intros ts.
  apply obeys_bind, keeps_sequence. intros r.
  apply obeys_bind, keeps_previous_run_stop. intros previous.
  destruct r as [report | failure]; apply obeys_bind.
  - unfold record_started. destruct (run_start_config_fields _) as [config_id ids].
    apply obeys_bind, keeps_slow_snapshot. intros slow.
    apply obeys_bind, keeps_start_record, keeps_audit. done.
  - apply obeys_bind, keeps_rewind. intros rewound. apply obeys_bind, keeps_audit. by right.
Qed.

(** *** Claims and their ends *)

Lemma view_claims i s st :
  view i s = no_work -> power s = None -> view i (s <| runner := StartBy i st |>) = starting st.
Proof. intros _ Hp. destruct s as [r p]. cbn in Hp. subst p. unfold view, starting. cbn. by rewrite decide_True. Qed.

Lemma keeps_back_to_idle i w (Q : unit -> Work -> Prop) D :
  w ∈ [starting StartClaimed; starting StartRewound; starting StartLost] \/
  (exists n st, w = stopping n st /\ st ∈ [StopOnRecord; StopLost]) ->
  Q tt no_work -> keeps i (back_to_idle (T := T)) w Q D.
Proof.
  intros Hw HQ. apply keeps_atomically. intros e c s Ha Hs.
  assert (Hr : accept_phase i Phase.Idle s = Some (s <| runner := Free |>) /\
               (phase_of (runner s) <> Phase.Idle /\ view i (s <| runner := Free |>) = no_work)).
  { destruct Hw as [Hw | (n & st & -> & Hst)].
    - assert (exists st, w = starting st /\ st ∈ [StartClaimed; StartRewound; StartLost]) as (st & -> & Hst).
      { rewrite !elem_of_cons, elem_of_nil in Hw. destruct Hw as [-> | [-> | [-> | []]]]; eexists; split; try done; set_solver. }
      pose proof (view_starts _ _ _ _ Hs) as Hr. cbn [accept_phase]. unfold start_step. rewrite Hr, decide_True by done.
      rewrite !elem_of_cons, elem_of_nil in Hst.
      split_and!; [by destruct Hst as [-> | [-> | [-> | []]]] | done |].
      destruct s as [r p]. cbn in Hr. subst r. unfold view, starting, no_work in *. cbn in *. f_equal. congruence.
    - pose proof (view_stops _ _ _ _ _ Hs) as Hr. cbn [accept_phase]. unfold start_step, stop_step. rewrite Hr, decide_True by done.
      rewrite !elem_of_cons, elem_of_nil in Hst.
      split_and!; [by destruct Hst as [-> | [-> | []]] | done |].
      destruct s as [r p]. cbn in Hr. subst r. unfold view, stopping, no_work in *. cbn in *. f_equal. congruence. }
  destruct Hr as (E1 & _ & E3). exists (s <| runner := Free |>). cbn [accepts accept]. rewrite E1, E3.
  split_and!; [done | | done].
  destruct Ha as (_ & _ & Hpow & Hrule). unfold agrees, ruled. cbn. split_and!; [done | done | done |].
  destruct (power s) as [[j command] |]; [| done]. unfold power_rule. by rewrite bool_decide_eq_true_2.
Qed.

Lemma keeps_claim_start i (Q : option string -> Work -> Prop) D :
  (forall why, Q (Some why) no_work) -> Q None (starting StartClaimed) ->
  keeps i (claim_start (T := T)) no_work Q D.
Proof.
  intros Hr HQ. apply keeps_atomically. intros e c s Ha Hs. pose proof Ha as (Hp & Hn & Hw & _).
  destruct (bool_decide_reflect (phase (run_state c) = Phase.Idle)) as [Hi | Hi]; cbn [negb].
  - destruct (power_inflight (run_state c)) as [p |] eqn:Ei; [by exists s; rewrite Hs |].
    assert (Hf : runner s = Free) by (destruct (runner s); cbn in Hp; congruence).
    assert (Hnone : power s = None) by (destruct (power s); [discriminate Hw | done]).
    exists (s <| runner := StartBy i StartClaimed |>). cbn [accepts accept accept_phase]. rewrite Hf, Hnone.
    split_and!; [done | | by rewrite view_claims].
    unfold agrees, ruled. cbn. rewrite Hf in Hn. rewrite Hnone, Ei in *. by split_and!.
  - exists s. rewrite Hs. split_and!; [done | done | apply Hr].
Qed.

Lemma keeps_now_running i n operator comment ts (Q : unit -> Work -> Prop) D :
  Q tt no_work -> keeps i (now_running (T := T) n operator comment ts) (starting (StartOnRecord n)) Q D.
Proof.
  intros HQ. apply keeps_atomically. intros e c s Ha Hs. pose proof (view_starts _ _ _ _ Hs) as Hr.
  exists (s <| runner := Up n |>). cbn [accepts accept accept_phase]. unfold start_step.
  rewrite Hr, decide_True by done. destruct Ha as (_ & _ & Hw & Hrule). split_and!; [done | |].
  - unfold agrees, ruled in *. cbn. split_and!; [done | done | done |]. rewrite Hr in Hrule. exact Hrule.
  - replace (view i (s <| runner := Up n |>)) with no_work; [done |].
    destruct s as [r p]. unfold view, starting, no_work in *. cbn in *. f_equal. congruence.
Qed.

Lemma keeps_claim_stop i (Q : result (option ActiveRun) string -> Work -> Prop) D :
  (forall why, Q (Err why) no_work) -> (forall a, Q (Ok (Some a)) (stopping (active_number a) StopClaimed)) ->
  keeps i (claim_stop (T := T)) no_work Q D.
Proof.
  intros Hr HQ. apply keeps_atomically. intros e c s Ha Hs. pose proof Ha as (Hp & Hn & Hw & Hrule).
  destruct (bool_decide_reflect (phase (run_state c) = Phase.Running)) as [Hi | Hi].
  - destruct (runner s) as [| j st | n | j n st] eqn:Er; cbn in Hp; try congruence.
    cbn in Hn. destruct (active (run_state c)) as [a |] eqn:Eact; [| done]. injection Hn as <-.
    exists (s <| runner := StopBy i (active_number a) StopClaimed |>). cbn [accepts accept accept_phase]. rewrite Er.
    split_and!; [done | |].
    + unfold agrees, ruled in *. cbn. rewrite Eact, Er in *. by split_and!.
    + replace (view i _) with (stopping (active_number a) StopClaimed); [apply HQ |].
      destruct s as [r p]. unfold view, stopping, no_work in *. cbn in *. rewrite decide_True by done. f_equal. congruence.
  - exists s. rewrite Hs. split_and!; [done | done | apply Hr].
Qed.

Lemma keeps_stop_sequences i n (Q : StopReport -> Work -> Prop) :
  (forall r, Q r (stopping n StopSequenced)) ->
  keeps i (stop_sequences (T := T) settings) (stopping n StopClaimed) Q stop_died.
Proof.
  intros HQ. apply (keeps_call i _ _ _ (stopping n StopSequenced)); [| | by exists n].
  - intros s Hs.
    destruct (stop_moves i s n _ (fun n st => match st with StopClaimed => Some (StopBy i n StopSequenced) | _ => None end)
      StopSequenced Hs eq_refl) as (s' & E1 & E2).
    exists s'. cbn [accepts accept]. by rewrite E1.
  - intros e a evs. destruct (collect_status _ _ _) as [[[statuses notes] s] | |]; [| done | done].
    destruct (stop_run _ _ _) as [[r s'] | |]; intros [= <- <-]. by split.
Qed.

Lemma keeps_stop_record i n duration ok reason eos closed counters files slow (Q : unit -> Work -> Prop) D :
  Q tt (stopping n StopOnRecord) ->
  keeps i (append_record (T := T) (RunStop ACTOR n duration ok reason eos closed counters files slow))
    (stopping n StopSequenced) Q D.
Proof.
  intros HQ. apply keeps_emit. intros s Hs. cbn [accept accept_record].
  destruct (stop_moves i s n _ (fun m st => match st with
      | StopSequenced => if decide (m = n) then Some (StopBy i m StopOnRecord) else None | _ => None end)
    StopOnRecord Hs) as (s' & E1 & E2 & E3); [by rewrite decide_True |].
  exists s'. unfold start_step at 1. rewrite (view_stops _ _ _ _ _ Hs). cbn [or_else]. rewrite E1, E3. by split.
Qed.

(** *** The handlers *)

Definition answered (r : Reply) (w : Work) : Prop := w = no_work.

Lemma keeps_unauthorized i action ps why D : keeps i (unauthorized (T := T) action ps why) no_work answered D.
Proof. by apply keeps_audited. Qed.

Lemma keeps_task_died i what w D :
  start_died w \/ stop_died w -> keeps i (task_died (T := T) what) w answered D.
Proof.
  intros Hw. apply obeys_bind, keeps_look. intros e. apply obeys_bind, keeps_back_to_idle; [| done].
  destruct Hw as [-> | [n ->]]; [left; set_solver | right; exists n, StopLost; set_solver].
Qed.

Lemma keeps_post_run_start i tok comment :
  keeps i (post_run_start (T := T) settings parse_rfc3339 tok comment) no_work answered (fun w => w = no_work).
Proof.
  apply obeys_bind, keeps_authorize. intros [operator | why]; [| apply keeps_unauthorized].
  apply obeys_bind, keeps_claim_start; [intros why; by apply keeps_audited |].
  apply obeys_spawn, obeys_bind.
  eapply obeys_mono; [apply keeps_start_run_blocking | |].
  - intros [[[[run ts] params_id] notes] | detail] w Hw; apply obeys_bind.
    + rewrite Hw. by apply keeps_now_running.
    + apply keeps_back_to_idle; [| done]. left. destruct Hw as [-> | ->]; set_solver.
  - intros w Hw. apply keeps_task_died. by left.
Qed.

Lemma keeps_post_run_stop i tok :
  keeps i (post_run_stop (T := T) settings tok) no_work answered (fun w => w = no_work).
Proof.
  apply obeys_bind, keeps_authorize. intros [operator | why]; [| apply keeps_unauthorized].
  apply obeys_bind, keeps_claim_stop; [intros why; by apply keeps_audited |]. intros a.
  apply obeys_spawn, obeys_bind. unfold stop_run_blocking.
  apply obeys_bind. eapply obeys_mono; [apply (keeps_stop_sequences _ _ (fun _ w => w = stopping (active_number a) StopSequenced)); done | |].
  - intros report w ->. apply obeys_bind, keeps_look. intros now. apply obeys_bind, keeps_slow_snapshot. intros slow.
    apply obeys_bind, keeps_stop_record. apply obeys_bind, keeps_audit.
    apply obeys_bind, keeps_back_to_idle; [| done]. right. eexists _, _. split; [done | set_solver].
  - intros w Hw. apply keeps_task_died. by right.
Qed.

Lemma keeps_post_run_next i tok next_run :
  keeps i (post_run_next (T := T) settings show tok next_run) no_work answered (fun w => w = no_work).
Proof.
  apply obeys_bind, keeps_authorize. intros [operator | why]; [| apply keeps_unauthorized].
  destruct (read_next_run next_run) as [n |]; [| by apply keeps_audited].
  apply obeys_bind, keeps_quiet. intros _ c0. split_and!; [done | done |].
  case_bool_decide; [| by apply keeps_audited].
  apply obeys_bind. intros e c s Ha Hw. pose proof (view_works i s None Hw) as Hworks.
  assert (Hset : accept i (SetNext n) s = Some s) by (cbn [accept]; by rewrite Hworks).
  destruct (State.set_next_run _ _ _ _) as [[r |] d].
  - exists s. cbn [accepts]. rewrite Hset, Hw. split_and!; [done | by eapply agrees_run_state |].
    destruct r; by apply keeps_audited.
  - destruct (accept_died i s) as (s' & E1 & E2 & E3). exists s'. cbn [accepts]. rewrite Hset, E1, E3, Hw.
    split_and!; [done | by eapply agrees_run_state, agrees_outer | done].
Qed.

Lemma keeps_post_acquire i operator pass :
  keeps i (post_acquire (T := T) settings operator pass) no_work answered (fun w => w = no_work).
Proof.
  unfold post_acquire. case_bool_decide; [| by apply keeps_audited].
  apply obeys_bind, keeps_quiet. intros e c. split_and!; [done | done | by apply keeps_audited].
Qed.

Lemma keeps_post_release i tok :
  keeps i (post_release (T := T) tok) no_work answered (fun w => w = no_work).
Proof.
  apply obeys_bind, keeps_authorize. intros [operator | why]; [| apply keeps_unauthorized].
  apply obeys_bind, keeps_quiet. intros e c. split_and!; [done | done | by apply keeps_audited].
Qed.

Lemma keeps_post_ecc i action tok :
  keeps i (post_ecc (T := T) settings action tok) no_work answered (fun w => w = no_work).
Proof.
  apply obeys_bind, keeps_authorize. intros [operator | why]; [| apply keeps_unauthorized].
  case_bool_decide; [| by apply keeps_audited].
  apply obeys_spawn, obeys_bind, keeps_call_quiet.
  - intros e a evs. destruct (ecc_request_body _ _ _) as [[[body | why] s] | |]; [| | done | done]; intros [= <- <-].
    + split; [by repeat constructor; eexists |]. destruct (fst _) as [reply | err]; by apply keeps_audited.
    + split; [done | by apply keeps_audited].
  - by apply obeys_bind, keeps_look.
Qed.

(** *** Power *)

Definition powering (command : PowerCommand) : Work := (None, Some command).

Lemma keeps_claim_power i command operator (Q : Phase.Phase * option string -> Work -> Prop) D :
  (forall p why, Q (p, Some why) no_work) -> (forall p, Q (p, None) (powering command)) ->
  keeps i (claim_power (T := T) command operator) no_work Q D.
Proof.
  intros Hr HQ. apply keeps_atomically. intros e c s Ha Hs. pose proof Ha as (Hp & Hn & Hw & _).
  destruct (power_inflight (run_state c)) as [p |] eqn:Ei; [by exists s; rewrite Hs |].
  assert (Hnone : power s = None) by (destruct (power s); [discriminate Hw | done]). rewrite Hp. cbv zeta.
  destruct (power_rule (device_type command) (on command) (phase_of (runner s))) as [[] | why] eqn:Erule; [| by exists s; rewrite Hs].
  exists (s <| power := Some (i, command) |>). cbn [accepts accept]. rewrite Hnone, Erule. split_and!; [done | |].
  - unfold agrees, ruled. cbn. by split_and!.
  - replace (view i _) with (powering command); [apply HQ |].
    destruct s as [r p]. unfold view, powering, no_work in *. cbn in *. rewrite decide_True by done. f_equal. congruence.
Qed.

Lemma keeps_clear_power i command (Q : unit -> Work -> Prop) D :
  Q tt no_work -> keeps i (clear_power (T := T)) (powering command) Q D.
Proof.
  intros HQ. apply keeps_atomically. intros e c s Ha Hs. pose proof (view_power _ _ _ _ Hs) as Hp.
  exists (s <| power := None |>). cbn [accepts accept]. rewrite Hp, decide_True by done. destruct Ha as (H1 & H2 & _ & _).
  split_and!; [done | by split_and! |].
  replace (view i _) with no_work; [done |].
  destruct s as [r p]. unfold view, powering, no_work in *. cbn in *. f_equal. congruence.
Qed.

Lemma keeps_post_slow_power i request :
  keeps i (post_slow_power (T := T) settings show request) no_work answered (fun w => w = no_work).
Proof.
  apply obeys_bind, keeps_quiet. intros _ c0. split_and!; [done | done |].
  apply obeys_bind, keeps_authorize. intros [operator | why]; [| apply keeps_unauthorized].
  destruct (slow_cmd settings) as [cmd_at |]; [| by apply keeps_audited].
  destruct (validate_power_request _ _ _) as [command | why]; [| by apply keeps_audited].
  apply obeys_bind, keeps_claim_power; [intros p why; by apply keeps_audited |]. intros p.
  apply obeys_spawn, obeys_bind, (keeps_call i _ _ _ (powering command)).
  - intros s Hs. exists s. cbn [accepts accept]. rewrite (view_power _ _ _ _ Hs), decide_True by done. by split_and!.
  - intros e a evs [= <- <-]. split; [done |]. apply obeys_bind, (keeps_clear_power i command).
    unfold finish_slow_power. destruct (slow_power_outcome _ _) as [[[[code body] before] after] err]. by apply keeps_audited.
  - apply obeys_bind, keeps_look. intros e. apply obeys_bind, (keeps_clear_power i command). by apply keeps_audited.
Qed.

Lemma keeps_handle i request :
  keeps i (handle (T := T) settings show parse_rfc3339 request) no_work answered (fun w => w = no_work).
Proof.
  destruct request; [apply keeps_post_acquire | apply keeps_post_release | apply keeps_post_run_start |
    apply keeps_post_run_next | apply keeps_post_run_stop | apply keeps_post_ecc | apply keeps_post_slow_power |].
  apply obeys_bind, keeps_emit. intros s Hs. by exists s.
Qed.
End Keeping.

(** ** What the trace shows *)

(** The phase after a trace. *)
Definition phase_after (trace : list (nat * Event)) : Phase.Phase :=
  foldl (fun p '(_, ev) => match ev with SetPhase p => p | _ => p end) Phase.Idle trace.

(** The run records on the trace, in order. *)
Definition run_record (ev : nat * Event) : option LogbookRecord :=
  match ev with
  | (_, Wrote (RunStart a n id ids g cs o cm fr sl ps)) => Some (RunStart a n id ids g cs o cm fr sl ps)
  | (_, Wrote (RunStop a n d ok re fo eo co fi sl)) => Some (RunStop a n d ok re fo eo co fi sl)
  | _ => None
  end.

(** A ledger of runs: what is open is closed before the next is opened, under its
    own number; with nothing open, only the stop of a run an earlier controller
    left. *)
Definition enter (open : option Z) (r : LogbookRecord) : option (option Z) :=
  match r, open with
  | RunStart _ n _ _ _ _ _ _ _ _ _, None => Some (Some n)
  | RunStop _ m _ _ _ _ _ _ _ _, Some n => if decide (m = n) then Some None else None
  | RunStop _ _ _ _ reason _ _ _ _ _, None => if decide (reason = RESTARTED) then Some None else None
  | _, _ => None
  end.

Fixpoint ledger (open : option Z) (rs : list LogbookRecord) : option (option Z) :=
  match rs with
  | [] => Some open
  | r :: rs => match enter open r with Some open => ledger open rs | None => None end
  end.

(** The run that is open, as the machine sees it. *)
Definition open_of (r : Runner) : option Z :=
  match r with
  | StartBy _ (StartOnRecord n) | Up n | StopBy _ n (StopClaimed | StopSequenced) => Some n
  | _ => None
  end.

Ltac run_accept H :=
  cbn [accept accept_phase accept_record] in H;
  repeat first
    [ apply or_else_cases in H as [H | H]
    | let st := fresh "st" in let r := fresh "r" in
      apply start_step_cases in H as (st & r & ? & H & ->); destruct st
    | let n := fresh "n" in let st := fresh "st" in let r := fresh "r" in
      apply stop_step_cases in H as (n & st & r & ? & H & ->); destruct st
    | case_match; simplify_eq/= ].

Lemma accept_ledger i ev s s' rs :
  accept i ev s = Some s' -> ev <> Died ->
  ledger (open_of (runner s)) (omap run_record [(i, ev)] ++ rs) = ledger (open_of (runner s')) rs.
Proof.
  intros H Hd. destruct s as [r p].
  destruct ev as [ph | n | n | n | | q | command | command | | rec |]; [destruct ph | | | | | | | | | destruct rec |];
    try done; run_accept H; simplify_eq/=; try done; repeat case_decide; simplify_eq/=; done.
Qed.

Lemma trace_ledger trace s s' :
  accepts_trace accept trace s = Some s' -> Died ∉ map snd trace ->
  ledger (open_of (runner s)) (omap run_record trace) = Some (open_of (runner s')).
Proof.
  revert s. induction trace as [| [i ev] trace IH]; intros s; cbn [accepts_trace map]; [by intros [= ->] |].
  destruct (accept i ev s) as [s1 |] eqn:E; [| done]. intros Ht Hd.
  apply not_elem_of_cons in Hd as [Hev Hd]. change ((i, ev) :: trace) with ([(i, ev)] ++ trace).
  rewrite omap_app, (accept_ledger i ev s s1) by (done || congruence). by apply IH.
Qed.

Lemma accept_phase_after i ev s s' : accept i ev s = Some s' ->
  phase_of (runner s') = match ev with SetPhase p => p | _ => phase_of (runner s) end.
Proof.
  intros H. destruct s as [r p].
  destruct ev as [ph | n | n | n | | q | command | command | | rec |]; [destruct ph | | | | | | | | | destruct rec |];
    run_accept H; simplify_eq/=; repeat case_decide; simplify_eq/=; done.
Qed.

Lemma trace_phase trace s s' : accepts_trace accept trace s = Some s' ->
  phase_of (runner s') = foldl (fun p '(_, ev) => match ev with SetPhase p => p | _ => p end) (phase_of (runner s)) trace.
Proof.
  revert s. induction trace as [| [i ev] trace IH]; intros s; cbn [accepts_trace foldl]; [by intros [= ->] |].
  destruct (accept i ev s) as [s1 |] eqn:E; [| done]. intros Ht. by rewrite (IH s1 Ht), (accept_phase_after i ev s s1).
Qed.

(** The rule holds as long as the mark stands. *)
Lemma accept_ruled i ev s s' : accept i ev s = Some s' -> ruled s -> ruled s'.
Proof.
  assert (Hidle : forall ty on, power_rule ty on Phase.Idle = Ok tt).
  { intros ty sw. unfold power_rule. by rewrite bool_decide_eq_true_2. }
  assert (Hbusy : forall ty on p q, p <> Phase.Idle -> q <> Phase.Idle ->
    power_rule ty on p = Ok tt -> power_rule ty on q = Ok tt).
  { intros ty sw a b Ha Hb. unfold power_rule.
    by rewrite (bool_decide_eq_false_2 (a = _)), (bool_decide_eq_false_2 (b = _)). }
  intros H Hr. destruct s as [r p]. unfold ruled in *.
  destruct ev as [ph | n | n | n | | q | command | command | | rec |]; [destruct ph | | | | | | | | | destruct rec |];
    run_accept H; simplify_eq/=; repeat case_decide; simplify_eq/=; try done; eauto; repeat case_match; simplify_eq/=; eauto.
  match goal with u : unit |- _ => by destruct u end.
Qed.

Lemma trace_ruled trace s s' : accepts_trace accept trace s = Some s' -> ruled s -> ruled s'.
Proof.
  revert s. induction trace as [| [i ev] trace IH]; intros s; cbn [accepts_trace]; [by intros [= ->] |].
  destruct (accept i ev s) as [s1 |] eqn:E; [| done]. intros Ht Hr. by eapply IH, accept_ruled.
Qed.

(** A command goes out only under its mark, which nothing but its own handler
    takes away. *)
Lemma sent_under_mark i command trace s s' :
  accepts_trace accept (trace ++ [(i, SendPower command)]) s = Some s' ->
  exists s1, accepts_trace accept trace s = Some s1 /\ power s1 = Some (i, command).
Proof.
  rewrite accepts_trace_app. destruct (accepts_trace accept trace s) as [s1 |]; [| done]. cbn.
  destruct (power s1) as [[j m] |] eqn:Ep; [| done]. case_decide as Hd; [| done]. destruct Hd as [-> ->].
  intros _. by exists s1.
Qed.

Lemma mark_stays i command trace s s' :
  accepts_trace accept trace s = Some s' -> power s = Some (i, command) -> (i, ClearPower) ∉ trace ->
  power s' = Some (i, command).
Proof.
  revert s. induction trace as [| [j ev] trace IH]; intros s; cbn [accepts_trace]; [by intros [= ->] |].
  destruct (accept j ev s) as [s1 |] eqn:E; [| done]. intros Ht Hp Hc. apply not_elem_of_cons in Hc as [Hne Hc].
  apply (IH s1 Ht); [| done]. destruct s as [r p]. cbn in Hp. subst p.
  destruct ev as [ph | n | n | n | | q | cmd | cmd | | rec |]; [destruct ph | | | | | | | | | destruct rec |];
    run_accept E; simplify_eq/=; repeat case_decide; simplify_eq/=; done.
Qed.

Lemma accepts_prefix t1 t2 s s' :
  accepts_trace accept (t1 ++ t2) s = Some s' ->
  exists s1, accepts_trace accept t1 s = Some s1 /\ accepts_trace accept t2 s1 = Some s'.
Proof. rewrite accepts_trace_app. destruct (accepts_trace accept t1 s) as [s1 |]; [| done]. eauto. Qed.

(** ** The contract *)

Section Lifecycle.
Context {T : Type} `{HT : Transport T} `{HS : State.StateJson} `{HL : LineJson}.
Variable settings : Settings.
Variable show : Json -> string.
Variable parse_rfc3339 : string -> option Z.
Notation Program := (Prog (Outside T) Shared Event).

(** Any requests at all, in any interleaving, over a controller that has just
    started. *)
Definition happens (d : State.Disk) : list (nat * Event) -> list (Program Reply) -> Shared -> Prop :=
  reaches (fun p => exists request, p = handle settings show parse_rfc3339 request) (controller_new d).

Lemma happens_obeys d trace pool c : happens d trace pool c ->
  exists s, accepts_trace accept trace spec0 = Some s /\ agrees s c /\
    (forall i p, pool !! i = Some p -> obeys accept view agrees i p (view i s) answered (fun w => w = no_work)) /\
    (forall i, (length pool <= i)%nat -> view i s = no_work).
Proof.
  apply (pool_obeys accept view agrees accept_frame).
  - done.
  - done.
  - intros i p [request ->]. apply keeps_handle.
Qed.

(** C1: Whatever requests come in, however their handlers interleave, whatever the
    files, the transport and slowctl do and whichever blocking task dies, the
    trace is one the abstract machine takes, and the controller's run state is
    the machine's: starts and stops exclude each other and go through their
    steps in order, a run number is handed back only if it never reached the
    logbook, and a power command goes out under its mark. *)
Theorem lifecycle_refines (d : State.Disk) (trace : list (nat * Event)) (pool : list (Program Reply)) (c : Shared) :
  happens d trace pool c ->
  exists s, accepts_trace accept trace spec0 = Some s /\
    phase (run_state c) = phase_of (runner s) /\
    active_number <$> active (run_state c) = number_of (runner s) /\
    in_flight <$> power_inflight (run_state c) = (fun p => marked (snd p)) <$> power s.
Proof. intros Hh. apply happens_obeys in Hh as (s & Ht & (H1 & H2 & H3 & _) & _). by exists s. Qed.

(** C2: When every handler has answered (or the process went with it), nothing is
    left claimed: the controller is idle with no run, or running with one, and no
    power command is in flight.  Neither a task that died nor an error path
    leaves it stuck in between. *)
Theorem claims_given_back (d : State.Disk) (trace : list (nat * Event)) (pool : list (Program Reply)) (c : Shared) :
  happens d trace pool c ->
  (forall p, p ∈ pool -> (exists r, p = Ret r) \/ p = Die) ->
  power_inflight (run_state c) = None /\
  ((phase (run_state c) = Phase.Idle /\ active (run_state c) = None) \/
   (phase (run_state c) = Phase.Running /\ exists a, active (run_state c) = Some a)).
Proof.
  intros Hh Hp. apply happens_obeys in Hh as (s & _ & (H1 & H2 & H3 & _) & H4 & H5).
  assert (Hv : forall i, view i s = no_work).
  { intros i. destruct (pool !! i) as [p |] eqn:E; [| by apply H5, lookup_ge_None].
    pose proof (H4 i p E) as Ho. apply list_elem_of_lookup_2, Hp in E as [[r ->] | ->]; exact Ho. }
  split.
  - destruct (power s) as [[i command] |] eqn:Ep; [| destruct (power_inflight (run_state c)); [discriminate H3 | done]].
    specialize (Hv i). unfold view in Hv. rewrite Ep, decide_True in Hv by done. discriminate Hv.
  - destruct (runner s) as [| i st | n | i n st] eqn:Er.
    + left. split; [done |]. destruct (active (run_state c)); [discriminate H2 | done].
    + specialize (Hv i). unfold view in Hv. rewrite Er, decide_True in Hv by done. discriminate Hv.
    + right. destruct (active (run_state c)) as [a |]; [by eauto | discriminate H2].
    + specialize (Hv i). unfold view in Hv. rewrite Er, decide_True in Hv by done. discriminate Hv.
Qed.

(** C4: The rule of high and low voltage holds for as long as a command is out: from
    the moment it is sent until its handler clears the mark, whatever else runs,
    the phase is one in which the command is allowed, so HV is never switched on
    and LV never switched off while a run starts, runs or stops. *)
Theorem power_rule_kept (d : State.Disk) (trace : list (nat * Event)) (pool : list (Program Reply)) (c : Shared) :
  happens d trace pool c ->
  forall t1 t2 t3 i command, trace = t1 ++ (i, SendPower command) :: t2 ++ t3 -> (i, ClearPower) ∉ t2 ->
  power_rule (device_type command) (on command) (phase_after (t1 ++ (i, SendPower command) :: t2)) = Ok tt.
Proof.
  intros Hh t1 t2 t3 i command -> Hc. apply happens_obeys in Hh as (s & Ht & _).
  assert (E : t1 ++ (i, SendPower command) :: t2 ++ t3 = ((t1 ++ [(i, SendPower command)]) ++ t2) ++ t3)
    by (by rewrite <- !app_assoc).
  rewrite E in Ht. apply accepts_prefix in Ht as (s2 & Ht & _). pose proof Ht as Hall.
  apply accepts_prefix in Ht as (s1 & Ht1 & Ht2). pose proof Ht1 as Hsend.
  apply sent_under_mark in Hsend as (s0 & Ht0 & Hp0).
  assert (Hp1 : power s1 = Some (i, command)).
  { apply (mark_stays i command [(i, SendPower command)] s0 s1); [| done | by intros Hin%list_elem_of_singleton].
    rewrite accepts_trace_app, Ht0 in Ht1. exact Ht1. }
  pose proof (mark_stays i command t2 s1 s2 Ht2 Hp1 Hc) as Hp2.
  pose proof (trace_ruled _ _ _ Hall I) as Hr. unfold ruled in Hr. rewrite Hp2 in Hr.
  rewrite (trace_phase _ _ _ Hall) in Hr. rewrite <- app_assoc in Hr. exact Hr.
Qed.

(** C3: As long as no blocking task dies, the run records that reach the logbook
    are a well-kept ledger, whatever interleaves: every run that is put on record
    is closed, under its own number, before the next is, nothing else is closed
    except the run an earlier controller left behind, and the run that is open
    is the one the controller is running. *)
Theorem runs_on_record (d : State.Disk) (trace : list (nat * Event)) (pool : list (Program Reply)) (c : Shared) :
  happens d trace pool c -> Died ∉ map snd trace ->
  exists open, ledger None (omap run_record trace) = Some open /\
    (phase (run_state c) = Phase.Running -> open = active_number <$> active (run_state c)) /\
    (phase (run_state c) = Phase.Idle -> open = None).
Proof.
  intros Hh Hd. apply happens_obeys in Hh as (s & Ht & (H1 & H2 & _) & _).
  exists (open_of (runner s)). split; [by apply (trace_ledger trace spec0 s) |]. rewrite H1, H2.
  destruct (runner s) as [| i st | n | i n st]; by cbn.
Qed.
End Lifecycle.

(** ** One handler at a time *)

Definition token_of (request : Request) : option string :=
  match request with
  | Release tok | RunStartRequest tok _ | RunNext tok _ | RunStopRequest tok | EccAction _ tok => Some tok
  | SlowPower request => Some (power_token request)
  | Acquire _ _ | PostComment _ _ => None
  end.

Definition refuses (tok : string) (c : Shared) : bool :=
  match authorized tok (session c) with
  | Ok _ => false
  | Err _ => true
  end.

Section Answers.
Context {T : Type} `{HT : Transport T} `{HS : State.StateJson} `{HL : LineJson}.
Variable settings : Settings.
Variable show : Json -> string.
Variable parse_rfc3339 : string -> option Z.

(** A request whose token is not the session's is refused: the answer is 401,
    one failed audit record goes to the logbook, and nothing else happens - every
    section leaves the session, the run state and the disk as it finds them,
    whatever the other handlers do in between. *)
Theorem unauthorized_changes_nothing (request : Request) (tok : string) (founds : list (Outside T * Shared)) :
  token_of request = Some tok ->
  Forall (fun '(_, c) => refuses tok c = true) founds -> length founds = 3%nat ->
  let '(evs, changes, p) := run_among founds (handle settings show parse_rfc3339 request) in
  Forall (fun '(c, c') => c' = c) changes /\
  exists action ps why,
    evs = [Wrote (Audit ACTOR action ps "<unauthorized>" false (Some why))] /\
    p = Ret (err_json UNAUTHORIZED why).
Proof.
  intros Htok Hf Hlen. destruct founds as [| [e0 c0] [| [e1 c1] [| [e2 c2] [| ? ?]]]]; try discriminate Hlen.
  pose proof (Forall_inv Hf) as H0. pose proof (Forall_inv (Forall_inv_tail Hf)) as H1. cbn in H0, H1.
  unfold refuses in H0, H1.
  destruct request as [| t | t comment | t n | t | action t | r |]; try discriminate Htok; injection Htok as <-;
    cbn [handle post_release post_run_start post_run_next post_run_stop post_ecc post_slow_power run_among bind
      authorize phase_now atomically] in *;
    try (destruct (authorized t (session c0)) as [operator | why]; [discriminate H0 |]; cbn;
         split; [by repeat constructor | eexists _, _, why; by split]).
  destruct (authorized (power_token r) (session c1)) as [operator | why]; [discriminate H1 |]. cbn.
  split; [by repeat constructor | eexists _, _, why; by split].
Qed.

Lemma answers_section {A} n (section : Outside T -> Shared -> A * list Event * Shared) :
  answers_within (S n) (atomically section).
Proof. intros e c. cbn. by destruct (section e c) as [[a evs] c']; destruct n. Qed.

Lemma replies_call {A} n begun (f : Outside T -> option (A * list Event)) : answers_within (S n) (call begun f).
Proof. intros e c. destruct (dies e); [by destruct n |]. by destruct (f e) as [[a evs] |]; destruct n. Qed.

Lemma answers_take n : answers_within (S n) (take_next_run (T := T) settings).
Proof. intros e c. by destruct (State.take_next_run _ _ _) as [[[] |] d]; destruct n. Qed.

Lemma answers_set n run : answers_within (S n) (set_next_run (T := T) settings run).
Proof. intros e c. by destruct (State.set_next_run _ _ _ _) as [[] d]; destruct n. Qed.

Lemma replies_ret {A} n (a : A) : answers_within n (Ret (E := Outside T) (C := Shared) (V := Event) a).
Proof. by destruct n. Qed.


Lemma answers_emit n ev : answers_within (S n) (emit (T := T) ev).
Proof. apply answers_section. Qed.
Lemma answers_look {A} n (f : Outside T -> A) : answers_within (S n) (look f).
Proof. apply answers_section. Qed.
End Answers.

(** Through a handler, one section after another. *)
Ltac section_answers :=
  first [apply replies_ret | apply replies_call | apply answers_emit | apply answers_look | apply answers_take
        | apply answers_set | apply answers_section].

Ltac answer :=
  repeat match goal with
    | |- answers_within _ (Ret _) => apply replies_ret
    | |- answers_within _ (match ?x with _ => _ end) => destruct x
    | |- answers_within (S ?n) (bind _ _) => apply (replies_bind 1 n); [section_answers | intros ?]
    | |- _ => progress cbv beta zeta
    end.

Section Termination.
Context {T : Type} `{HT : Transport T} `{HS : State.StateJson} `{HL : LineJson}.
Variable settings : Settings.
Variable show : Json -> string.
Variable parse_rfc3339 : string -> option Z.

Lemma answers_refuse_start operator comment detail : answers_within 1 (refuse_start (T := T) operator comment detail).
Proof. unfold refuse_start. answer. Qed.

Lemma answers_previous r : answers_within 3 (previous_run_stop_of (T := T) settings parse_rfc3339 r).
Proof.
  unfold previous_run_stop_of. destruct (walked_back_of r) as [closed |]; [| answer].
  apply (replies_bind 3 0); [| intros; answer]. unfold append_walked_back_run_stop. answer.
Qed.

Lemma answers_start_run operator comment :
  answers_within 11 (start_run_blocking (T := T) settings parse_rfc3339 operator comment).
Proof.
  assert (Hr : forall detail n, answers_within (S n) (refuse_start (T := T) operator comment detail))
    by (intros; eapply replies_more; [apply answers_refuse_start | lia]).
  unfold start_run_blocking.
  apply (replies_bind 1 10); [apply replies_call |]. intros [geometry |]; [| apply Hr].
  apply (replies_bind 1 9); [apply replies_call |]. intros [snapshot |]; [| apply Hr].
  apply (replies_bind 1 8); [apply answers_take |]. intros [run |]; [| apply Hr].
  apply (replies_bind 1 7); [apply answers_look |]. intros ts.
  apply (replies_bind 1 6); [apply replies_call |]. intros r.
  apply (replies_bind 3 3); [apply answers_previous |]. intros previous.
  destruct r as [report | failure].
  - apply (replies_bind 3 0); [| intros; apply replies_ret]. unfold record_started.
    destruct (run_start_config_fields _). apply (replies_bind 1 2); [apply answers_look |]. intros slow. answer.
    apply answers_emit.
  - apply (replies_bind 3 0); [| intros; apply replies_ret]. unfold record_failed. answer.
Qed.

(** Every handler answers: however the others interleave, whatever fails and
    whether or not its blocking task dies, after at most sixteen sections of its
    own the reply is there (or the process went in a system call). *)
Theorem handlers_answer (request : Request) :
  answers_within 16 (handle (T := T) settings show parse_rfc3339 request).
Proof.
  destruct request as [operator pass | tok | tok comment | tok n | tok | action tok | r | author text]; cbn [handle].
  - unfold post_acquire. answer.
  - unfold post_release, unauthorized. answer.
  - unfold post_run_start, unauthorized. answer.
    apply (replies_spawn 12 2); [| unfold task_died; answer].
    apply (replies_bind 11 1); [apply answers_start_run |]. intros. answer.
  - unfold post_run_next, unauthorized. answer.
  - unfold post_run_stop, unauthorized. answer.
    apply (replies_spawn 12 2); [| unfold task_died; answer].
    apply (replies_bind 11 1); [unfold stop_run_blocking | intros]; answer.
  - unfold post_ecc, unauthorized. answer.
    apply (replies_spawn 13 2); [unfold ecc_task | ]; answer.
  - unfold post_slow_power, unauthorized, refuse_power. answer.
    apply (replies_spawn 9 4); [unfold power_task, finish_slow_power | unfold power_died]; answer.
  - unfold post_comment. answer.
Qed.
End Termination.

(** ** Runs of the controller *)

Section Runs.
#[local] Instance no_lines : LineJson := { line_text := fun _ => Err ""; parse_line := fun _ => Err ""; reread_f64 := fun x => x }.
#[local] Existing Instance plant_transport.
#[local] Existing Instance State.sample_json.

Definition lab : Settings :=
  mkSettings sample_params "beam" None (Some "tcp://slow") [("hv0", "hivolta"); ("lv0", "hmp2020")]
    "state.json" "logbook.jsonl".

Definition outside (tok : string) (plant : Plant) : Outside Plant :=
  mkOutside _ tok 0 0 "2026-01-01T00:00:00.000" (Ok (mkGeometry "geo.txt" "00", [(0, 0)])) (Ok None) (Err "")
    State.fine Missing plant None (Ok (JObj [("ok", JBool true)])) false "".

(** A plant at rest, one whose decoder will not start, and one in a run. *)
Definition rested : Plant := mkPlant [] "Idle" [].
Definition unwilling : Plant := mkPlant [] "Idle" ["tcp://dec"].
Definition in_run : Plant := transport (mid_run []).

Definition Move : Type := Prog (Outside Plant) Shared Event Reply + nat * Outside Plant.

Definition asks (r : Request) : Move := inl (handle lab (fun _ => "?") (fun _ => None) r).
Definition goes (i n : nat) (e : Outside Plant) : list Move := repeat (inr (i, e)) n.

Definition fresh_disk : State.Disk := State.mkDisk None None.

Definition played (moves : list Move) : list (nat * Event) * list (Prog (Outside Plant) Shared Event Reply) * Shared :=
  play moves [] [] (controller_new fresh_disk).

Lemma played_happens (rs : list Request) (moves : list (nat * Outside Plant)) (schedule : list Move) :
  schedule = map asks rs ++ map inr moves ->
  let '(trace, pool, c) := played schedule in happens lab (fun _ => "?") (fun _ => None) fresh_disk trace pool c.
Proof.
  intros ->. apply play_reaches; [| constructor]. intros p Hp. apply elem_of_app in Hp as [Hp | Hp].
  - apply list_elem_of_In, in_map_iff in Hp as (r & Hr & _). injection Hr as <-. by exists r.
  - apply list_elem_of_In, in_map_iff in Hp as (m & Hm & _). done.
Qed.

Definition answers (pool : list (Prog (Outside Plant) Shared Event Reply)) : list (option Reply) :=
  map (fun p => match p with Ret r => Some r | _ => None end) pool.

(** A shift: the operator acquires, switches HV on, starts a run, stops it. *)
Definition shift_requests : list Request :=
  [Acquire "ada" "beam"; SlowPower (mkPowerRequest "a" (JStr "hv0") (JNum 3) (JBool true));
   RunStartRequest "a" "gas"; RunStopRequest "a"].
Definition shift_moves : list (nat * Outside Plant) :=
  repeat (0%nat, outside "a" rested) 2 ++ repeat (1%nat, outside "b" rested) 6 ++
  repeat (2%nat, outside "b" rested) 11 ++ repeat (3%nat, outside "b" in_run) 8.
Definition shift : list Move := map asks shift_requests ++ map inr shift_moves.


Definition shift_trace : list (nat * Event) := (played shift).1.1.

Lemma shift_happens :
  happens lab (fun _ => "?") (fun _ => None) fresh_disk shift_trace (played shift).1.2 (played shift).2.
Proof.
  pose proof (played_happens shift_requests shift_moves shift eq_refl) as H. unfold shift_trace.
  by destruct (played shift) as [[trace pool] c].
Qed.

(** What it comes to: everyone is answered, and the run is opened and closed. *)
Lemma shift_ends :
  map (option_map fst) (answers (played shift).1.2) = [Some OK; Some OK; Some OK; Some OK] /\
  omap (fun '(_, ev) => match ev with SetPhase p => Some p | _ => None end) shift_trace =
    [Phase.Starting; Phase.Running; Phase.Stopping; Phase.Idle] /\
  omap (fun r => match r with RunStart _ n _ _ _ _ _ _ _ _ _ => Some (n, true) | RunStop _ n _ _ _ _ _ _ _ _ => Some (n, false) | _ => None end)
    (omap run_record shift_trace) = [(1, true); (1, false)].
Proof. vm_compute. by split_and!. Qed.

Lemma answered_all (pool : list (Prog (Outside Plant) Shared Event Reply)) :
  forallb (fun p => match p with Ret _ => true | _ => false end) pool = true ->
  forall p, p ∈ pool -> (exists r, p = Ret r) \/ p = Die.
Proof.
  intros Hp p Hin. rewrite forallb_forall in Hp. apply list_elem_of_In, Hp in Hin. destruct p; [by left; eexists | done | done].
Qed.

Lemma nobody_died (trace : list (nat * Event)) :
  forallb (fun '(_, ev) => match ev with Died => false | _ => true end) trace = true -> Died ∉ map snd trace.
Proof.
  intros Ht Hin. rewrite forallb_forall in Ht. apply list_elem_of_In, in_map_iff in Hin as ([i ev] & Hev & Hin).
  apply Ht in Hin. cbn in Hev. by subst ev.
Qed.

Lemma lifecycle_refines_witness :
  exists s, accepts_trace accept shift_trace spec0 = Some s /\ phase_of (runner s) = Phase.Idle.
Proof.
  destruct (lifecycle_refines lab (fun _ => "?") (fun _ => None) fresh_disk _ _ _ shift_happens) as (s & Ht & Hp & _).
  exists s. split; [exact Ht |]. rewrite <- Hp. vm_compute. reflexivity.
Defined.

Lemma claims_given_back_witness :
  length (played shift).1.2 = 4%nat /\ power_inflight (run_state (played shift).2) = None /\
  phase (run_state (played shift).2) <> Phase.Stopping.
Proof.
  assert (Hall : forallb (fun p => match p with Ret _ => true | _ => false end) (played shift).1.2 = true)
    by (vm_compute; reflexivity).
  destruct (claims_given_back lab (fun _ => "?") (fun _ => None) fresh_disk _ _ _ shift_happens (answered_all _ Hall))
    as [Hp Hphase].
  split; [vm_compute; reflexivity |]. split; [exact Hp |].
  destruct Hphase as [[Hphase _] | [Hphase _]]; rewrite Hphase; discriminate.
Defined.

(** HV on channel 3, sent before the run started. *)
Definition hv_on : PowerCommand := mkPowerCommand "hv0" "hivolta" 3 true.

Lemma shift_split : shift_trace = take 2 shift_trace ++ (1%nat, SendPower hv_on) :: [] ++ drop 3 shift_trace.
Proof. vm_compute. reflexivity. Qed.

Lemma power_rule_kept_witness :
  power_rule "hivolta" true (phase_after (take 2 shift_trace ++ [(1%nat, SendPower hv_on)])) = Ok tt.
Proof.
  refine (power_rule_kept lab (fun _ => "?") (fun _ => None) fresh_disk _ _ _ shift_happens
    (take 2 shift_trace) [] (drop 3 shift_trace) 1%nat hv_on shift_split _).
  apply not_elem_of_nil.
Defined.

Lemma runs_on_record_witness :
  exists open, ledger None (omap run_record shift_trace) = Some open /\ open = None.
Proof.
  assert (Hd : forallb (fun '(_, ev) => match ev with Died => false | _ => true end) shift_trace = true)
    by (vm_compute; reflexivity).
  destruct (runs_on_record lab (fun _ => "?") (fun _ => None) fresh_disk _ _ _ shift_happens (nobody_died _ Hd))
    as (open & Hl & _ & Hi).
  exists open. split; [exact Hl |]. apply Hi. vm_compute. reflexivity.
Defined.

Lemma unauthorized_changes_nothing_witness :
  exists action ps why,
    (run_among (repeat (outside "x" rested, controller_new fresh_disk) 3)
       (handle lab (fun _ => "?") (fun _ => None) (RunStopRequest "stale"))).1.1 =
    [Wrote (Audit ACTOR action ps "<unauthorized>" false (Some why))].
Proof.
  pose proof (unauthorized_changes_nothing lab (fun _ => "?") (fun _ => None) (RunStopRequest "stale") "stale"
    (repeat (outside "x" rested, controller_new fresh_disk) 3) eq_refl ltac:(repeat constructor) eq_refl) as H.
  destruct (run_among _ _) as [[evs changes] p]. destruct H as (_ & action & ps & why & H & _).
  by exists action, ps, why.
Defined.

(** ** Two races *)

(** [run/next] looks at the phase and sets the number in different sections: a
    start that claims the phase in between, and fails, hands its own number back
    over the one the operator was told is set. *)
Definition overwriting_requests : list Request :=
  [Acquire "ada" "beam"; RunNext "a" (JNum 100); RunStartRequest "a" "gas"].
Definition overwriting_moves : list (nat * Outside Plant) :=
  repeat (0%nat, outside "a" rested) 2 ++ repeat (1%nat, outside "b" rested) 2 ++
  repeat (2%nat, outside "b" unwilling) 7 ++ repeat (1%nat, outside "b" rested) 2 ++
  repeat (2%nat, outside "b" unwilling) 3.
Definition overwriting : list Move := map asks overwriting_requests ++ map inr overwriting_moves.

Lemma next_run_overwritten :
  let '(trace, pool, c) := played overwriting in
  happens lab (fun _ => "?") (fun _ => None) fresh_disk trace pool c /\
  answers pool !! 1%nat = Some (Some (ok_json (JObj [("next_run", JNum 100)]))) /\
  answers pool !! 2%nat ≫= option_map fst = Some INTERNAL_SERVER_ERROR /\
  omap (fun '(i, ev) => match ev with SetPhase _ | SetNext _ => Some (i, ev) | _ => None end) trace =
    [(2%nat, SetPhase Phase.Starting); (1%nat, SetNext 100); (2%nat, SetNext 1); (2%nat, SetPhase Phase.Idle)] /\
  State.stands_at (disk c) = Some 1.
Proof.
  pose proof (played_happens overwriting_requests overwriting_moves overwriting eq_refl) as H.
  destruct (played overwriting) as [[trace pool] c] eqn:E. split; [exact H |].
  assert (Ht : trace = (played overwriting).1.1) by (by rewrite E).
  assert (Hp : pool = (played overwriting).1.2) by (by rewrite E).
  assert (Hc : c = (played overwriting).2) by (by rewrite E).
  rewrite Ht, Hp, Hc. vm_compute. by split_and!.
Qed.

(** [control/release] checks the token and clears the session in different
    sections: it can clear the session of somebody who took over in between, who
    holds a token the controller has just given out and does not know. *)
Definition releasing_requests : list Request :=
  [Acquire "ada" "beam"; Release "a"; Acquire "bob" "beam"; RunStartRequest "b" "gas"].
Definition releasing_moves : list (nat * Outside Plant) :=
  repeat (0%nat, outside "a" rested) 2 ++ repeat (1%nat, outside "b" rested) 1 ++
  repeat (2%nat, outside "b" rested) 2 ++ repeat (1%nat, outside "b" rested) 2 ++
  repeat (3%nat, outside "b" rested) 2.
Definition releasing : list Move := map asks releasing_requests ++ map inr releasing_moves.

Lemma release_clears_anothers_session :
  let '(trace, pool, c) := played releasing in
  happens lab (fun _ => "?") (fun _ => None) fresh_disk trace pool c /\
  answers pool !! 2%nat = Some (Some (ok_json (JObj [("token", JStr "b"); ("preempted", JStr "ada")]))) /\
  answers pool !! 3%nat = Some (Some (err_json UNAUTHORIZED "no operator holds the control token")) /\
  session c = None.
Proof.
  pose proof (played_happens releasing_requests releasing_moves releasing eq_refl) as H.
  destruct (played releasing) as [[trace pool] c] eqn:E. split; [exact H |].
  assert (Hp : pool = (played releasing).1.2) by (by rewrite E).
  assert (Hc : c = (played releasing).2) by (by rewrite E).
  rewrite Hp, Hc. vm_compute. by split_and!.
Qed.
End Runs.
