(* ===== verification/Slowctl.v ===== *)
(** * Slowctl: what the slow-control drivers share

    Models the types of [src/slowctl/mod.rs] - samples, identities, the errors of
    a driver, the outcome of a power command, the [Driver] trait - and the port
    the drivers talk through: a byte stream that can fail at any point.  What goes
    out, what comes back and how long a driver sleeps are on a trace. *)

From Stdlib Require Import Ascii.
From stdpp Require Import gmap pretty strings.
From S2P Require Import Prelude Bytes Utf8 Decimal Text Float Command.
Open Scope list_scope.
Open Scope Z_scope.

(** ** Values *)

Record Sample : Type := mkSample {
  sample_device : string;
  sample_node : option Z;
  param : string;
  value : f64;
  unit_ : string;
  ts_ms : Z;
  alarm : bool;
}.

Record Ident : Type := mkIdent {
  ident_device : string;
  ident_node : option Z;
  ident_fields : gmap string string;
}.

(** [latest_key], [Sample::key]. *)
Definition NODELESS : string := "-".

Definition latest_key (device : string) (node : option Z) (param : string) : string :=
  match node with
  | Some node => device +:+ "/" +:+ dec node +:+ "/" +:+ param
  | None => device +:+ "/" +:+ NODELESS +:+ "/" +:+ param
  end.

Definition key (s : Sample) : string := latest_key (sample_device s) (sample_node s) (param s).

(** ** Rules *)

Inductive AlarmEvent : Type := Alarm | Recover.

Definition alarm_text (e : AlarmEvent) : string :=
  match e with
  | Alarm => "ALARM"
  | Recover => "RECOVER"
  end.

Record AlarmRule : Type := mkRule {
  rule_node : option Z;
  rule_param : string;
  lo : f64;
  hi : f64;
}.

Definition matches (r : AlarmRule) (s : Sample) : bool :=
  bool_decide (rule_param r = param s) && (bool_decide (rule_node r = None) || bool_decide (rule_node r = sample_node s)).

Definition is_out_of_range (r : AlarmRule) (v : f64) : bool := f64_lt v (lo r) || f64_gt v (hi r).

Definition evaluate (r : AlarmRule) (was_alarm : bool) (s : Sample) : option AlarmEvent :=
  if negb (matches r s) then None
  else
    match was_alarm, is_out_of_range r (value s) with
    | false, true => Some Alarm
    | true, false => Some Recover
    | _, _ => None
    end.

(** [LogPolicy]: what of the values goes to the logbook. *)
Record LogPolicy : Type := mkPolicy { log_every_s : Z }.

Definition LOG_RELATIVE_THRESHOLD : f64 := f64_of_decimal false 2 (-2).
Definition LOG_ABSOLUTE_FLOOR : f64 := f64_of_decimal false 1 (-9).

Definition U64_MAX : Z := 2 ^ 64 - 1.

Definition should_log (p : LogPolicy) (last : option (f64 * Z)) (v : f64) (ts : Z) : bool :=
  match last with
  | None => true
  | Some (last_value, last_ts) =>
      let threshold := f64_max (f64_mul LOG_RELATIVE_THRESHOLD (f64_abs last_value)) LOG_ABSOLUTE_FLOOR in
      if f64_ge (f64_abs (f64_sub v last_value)) threshold then true
      else Z.min U64_MAX (log_every_s p * 1000) <=? Z.max 0 (ts - last_ts)
  end.

(** [NodesSpec]: which nodes of a bus to ask. *)
Inductive NodesSpec : Type :=
| Keyword (word : string)
| NodeList (nodes : list Z).

Definition scan_nodes : list Z := 128 :: map Z.of_nat (seq 3 118).

Definition QUOTED_SCAN : string := String "034"%char "scan" +:+ String "034"%char EmptyString.

Definition resolve (debug : string -> string) (spec : NodesSpec) : result (list Z) string :=
  match spec with
  | Keyword word =>
      if bool_decide (word = "scan") then Ok scan_nodes
      else Err ("nodes must be " +:+ QUOTED_SCAN +:+ " or a list of node numbers, got " +:+ debug word)
  | NodeList nodes => Ok nodes
  end.

Record SlowCounters : Type := mkSlowCounters {
  poll_ok : Z;
  poll_err : Z;
  parse_err : Z;
  reconnects : Z;
  identity_mismatch : Z;
  influx_points_written : Z;
  influx_points_dropped : Z;
  influx_write_errors : Z;
  influx_last_error : option string;
}.
#[export] Instance eta_SlowCounters : Eta SlowCounters := fun c =>
  mkSlowCounters (poll_ok c) (poll_err c) (parse_err c) (reconnects c) (identity_mismatch c)
    (influx_points_written c) (influx_points_dropped c) (influx_write_errors c) (influx_last_error c).

Definition counters_default : SlowCounters := mkSlowCounters 0 0 0 0 0 0 0 0 None.

Record SlowPayload : Type := mkSlowPayload {
  payload_kind : string;
  payload_ts_ms : Z;
  payload_samples : list Sample;
  payload_counters : SlowCounters;
}.

Definition SLOW_KIND : string := "slow".

(** ** The port *)

Inductive IoKind : Type := WouldBlock | TimedOut | UnexpectedEof | InvalidData | OtherKind.

Record IoError : Type := mkIoError {
  io_kind : IoKind;
  io_text : string;
}.

Inductive ReadAnswer : Type :=
| ReadByte (b : Z)
| ReadEof
| ReadFails (e : IoError).

(** [write_all] of a line and [read] of one byte. *)
Class Port (W : Type) := {
  port_write : string -> W -> result unit IoError * W;
  port_read : W -> ReadAnswer * W;
}.

Inductive PortEvent : Type :=
| Opened
| Sent (line : string)
| Got (line : string)
| Slept (ms : Z).

Definition Io (W A : Type) : Type := W -> list PortEvent * A * W.

Definition io_ret {W A : Type} (a : A) : Io W A := fun w => ([], a, w).
Definition io_bind {W A B : Type} (m : Io W A) (k : A -> Io W B) : Io W B := fun w =>
  let '(evs, a, w) := m w in
  let '(evs', b, w) := k a w in (evs ++ evs', b, w).
Notation "'let@' x := m 'in' k" := (io_bind m (fun x => k))
  (at level 10, x pattern, m at level 100, k at level 200) : rust_scope.

(** The [?] of a fallible operation. *)
Definition io_try {W A B E : Type} (m : Io W (result A E)) (k : A -> Io W (result B E)) : Io W (result B E) :=
  let@ r := m in
  match r with
  | Ok a => k a
  | Err e => io_ret (Err e)
  end.
Notation "'let@?' x := m 'in' k" := (io_try m (fun x => k))
  (at level 10, x pattern, m at level 100, k at level 200) : rust_scope.

Definition note {W : Type} (ev : PortEvent) : Io W unit := fun w => ([ev], tt, w).

(** ** Lines *)

Definition ends_with (term buf : bytes) : bool :=
  match drop_prefix (rev term) (rev buf) with
  | Some _ => true
  | None => false
  end.

Section Lines.
Context {W : Type} `{Port W}.

Definition write_all (line : string) : Io W (result unit IoError) := fun w =>
  let '(r, w) := port_write line w in ([Sent line], r, w).

Definition read : Io W ReadAnswer := fun w => let '(a, w) := port_read w in ([], a, w).

(** The loop that reads a reply byte by byte up to its terminator: an end of
    stream and a failure end it, and so does the 257th byte. *)
Fixpoint read_reply {E : Type} (room : nat) (term : bytes) (eof too_long : E) (io : IoError -> E) (buf : bytes)
    : Io W (result bytes E) :=
  let@ a := read in
  match a with
  | ReadEof => io_ret (Err eof)
  | ReadFails e => io_ret (Err (io e))
  | ReadByte b =>
      let buf := buf ++ [b] in
      if ends_with term buf then
        let@ _ := note (Got (bytes_text (from_utf8_lossy buf))) in
        io_ret (Ok buf)
      else
        match room with
        | O => io_ret (Err too_long)
        | S room => read_reply room term eof too_long io buf
        end
  end.
End Lines.

(** A reply without its end can be this long. *)
Definition REPLY_MAX : nat := 256.

(** ** Drivers *)

Inductive DriverError : Type :=
| DriverIo (e : IoError)
| DriverTimeout
| Protocol (why : string)
| Identity (expected got : string)
| Unsupported.

Definition driver_error_text (e : DriverError) : string :=
  match e with
  | DriverIo e => "io error: " +:+ io_text e
  | DriverTimeout => "device did not answer in time"
  | Protocol why => "protocol error: " +:+ why
  | Identity expected got => "device identity mismatch: expected " +:+ expected +:+ ", got " +:+ got
  | Unsupported => "this device has no power on/off"
  end.

Record PowerRefused : Type := mkRefused {
  refused_error : string;
  refused_after : option Json;
}.

Definition without_after (error : string) : PowerRefused := mkRefused error None.

Record PowerOutcome : Type := mkOutcome {
  before : Json;
  outcome : result Json PowerRefused;
}.

Definition POWER_CHECK_INTERVAL : Z := 100.
Definition POWER_CHECK_TRIES : nat := 10.

(** The trait [Driver]: an operation answers and leaves the driver. *)
Class Driver (W D : Type) := {
  ident : D -> Io W (result (list Ident) DriverError * D);
  poll : Z -> D -> Io W (result (list Sample) DriverError * D);
  set_power : Z -> bool -> D -> Io W (result PowerOutcome DriverError * D);
}.

(** ** The trace *)

Definition sent (evs : list PortEvent) : list string :=
  omap (fun ev => match ev with Sent l => Some l | _ => None end) evs.
Definition got (evs : list PortEvent) : list string :=
  omap (fun ev => match ev with Got l => Some l | _ => None end) evs.
Definition slept (evs : list PortEvent) : Z :=
  fold_right (fun ev n => match ev with Slept ms => ms + n | _ => n end) 0 evs.

Lemma sent_app l l' : sent (l ++ l') = sent l ++ sent l'.
Proof. apply omap_app. Qed.
Lemma got_app l l' : got (l ++ l') = got l ++ got l'.
Proof. apply omap_app. Qed.
Lemma naps_app l l' : slept (l ++ l') = slept l + slept l'.
Proof. unfold slept. induction l as [| [] l IH]; cbn in *; lia. Qed.

(** What an operation does, whatever is at the other end. *)
Definition always {W A : Type} (m : Io W A) (P : list PortEvent -> A -> Prop) : Prop :=
  forall w, let '(evs, a, _) := m w in P evs a.

Section Always.
Context {W : Type}.

Lemma always_ret {A} (a : A) (P : list PortEvent -> A -> Prop) : P [] a -> always (W := W) (io_ret a) P.
Proof. intros HP w. exact HP. Qed.

Lemma always_bind {A B} (m : Io W A) (k : A -> Io W B) P (Q : list PortEvent -> B -> Prop) :
  always m P -> (forall evs a, P evs a -> always (k a) (fun evs' b => Q (evs ++ evs') b)) -> always (io_bind m k) Q.
Proof.
  intros Hm Hk w. unfold io_bind. specialize (Hm w). destruct (m w) as [[evs a] w1].
  specialize (Hk evs a Hm w1). by destruct (k a w1) as [[evs' b] w2].
Qed.

Lemma always_mono {A} (m : Io W A) (P Q : list PortEvent -> A -> Prop) :
  always m P -> (forall evs a, P evs a -> Q evs a) -> always m Q.
Proof. intros Hm HPQ w. specialize (Hm w). destruct (m w) as [[evs a] w1]. auto. Qed.

Lemma always_try {A B E} (m : Io W (result A E)) (k : A -> Io W (result B E)) P (Q : list PortEvent -> result B E -> Prop) :
  always m P -> (forall evs e, P evs (Err e) -> Q evs (Err e)) ->
  (forall evs a, P evs (Ok a) -> always (k a) (fun evs' b => Q (evs ++ evs') b)) -> always (io_try m k) Q.
Proof.
  intros Hm He Hk. apply (always_bind m _ P); [done |]. intros evs [a | e] Hp; [by apply Hk |].
  apply always_ret. rewrite app_nil_r. by apply He.
Qed.

Lemma always_note ev (P : list PortEvent -> unit -> Prop) : P [ev] tt -> always (W := W) (note ev) P.
Proof. intros HP w. exact HP. Qed.

Lemma always_write `{Port W} line (P : list PortEvent -> result unit IoError -> Prop) :
  (forall r, P [Sent line] r) -> always (write_all line) P.
Proof. intros HP w. unfold write_all. destruct (port_write line w) as [r w']. apply HP. Qed.

(** A reply is one line, or none and an error. *)
Lemma always_read_reply `{Port W} {E} room term (eof too_long : E) io buf (P : list PortEvent -> result bytes E -> Prop) :
  (forall e, P [] (Err e)) -> (forall line, P [Got (bytes_text (from_utf8_lossy line))] (Ok line)) ->
  always (read_reply room term eof too_long io buf) P.
Proof.
  intros He Ho. revert buf. induction room as [| room IH]; intros buf w; cbn [read_reply]; unfold io_bind at 1, read;
    destruct (port_read w) as [[b | | e] w1]; cbn; try apply He; destruct (ends_with term (buf ++ [b])); cbn; try apply He; try apply Ho.
  specialize (IH (buf ++ [b]) w1). by destruct (read_reply _ _ _ _ _ _ w1) as [[evs a] w2].
Qed.
End Always.

(** ** Sessions with a driver *)

Inductive Op : Type :=
| OpIdent
| OpPoll (now : Z)
| OpPower (node : Z) (on : bool).

Section Sessions.
Context {W D : Type}.

(** One operation, for what it leaves. *)
Definition operate (drv : Driver W D) (op : Op) (d : D) : Io W D :=
  match op with
  | OpIdent => let@ r := ident d in io_ret (snd r)
  | OpPoll now => let@ r := poll now d in io_ret (snd r)
  | OpPower node on => let@ r := set_power node on d in io_ret (snd r)
  end.

Fixpoint session (drv : Driver W D) (ops : list Op) (d : D) : Io W D :=
  match ops with
  | [] => io_ret d
  | op :: ops => let@ d := operate drv op d in session drv ops d
  end.

(** What a driver promises of the lines that switch something: reading sends
    none, and a power command at most the one it was given, for a channel that
    exists. *)
Class SwitchLaws (drv : Driver W D) (is_switch : string -> bool) (line : Z -> bool -> string) (channel : Z -> Prop)
    (good : D -> Prop) : Prop := {
  law_ident : forall d, good d -> always (ident d) (fun evs r => List.filter is_switch (sent evs) = [] /\ good (snd r));
  law_poll : forall now d, good d -> always (poll now d) (fun evs r => List.filter is_switch (sent evs) = [] /\ good (snd r));
  law_power : forall node on d, good d -> always (set_power node on d) (fun evs r =>
    (List.filter is_switch (sent evs) = [] \/ (channel node /\ List.filter is_switch (sent evs) = [line node on])) /\ good (snd r));
}.

Definition asked_for (line : Z -> bool -> string) (ops : list Op) : list string :=
  omap (fun op => match op with OpPower node on => Some (line node on) | _ => None end) ops.

(** The switching lines of a session are, in order, among those asked for, and
    each is for a channel that exists. *)
Definition only_asked (is_switch : string -> bool) (line : Z -> bool -> string) (channel : Z -> Prop) (ops : list Op)
    (evs : list PortEvent) : Prop :=
  List.filter is_switch (sent evs) `sublist_of` asked_for line ops /\
  Forall (fun l => exists node on, OpPower node on ∈ ops /\ channel node /\ l = line node on) (List.filter is_switch (sent evs)).

Lemma session_switches drv is_switch line channel good `{!SwitchLaws drv is_switch line channel good} ops d :
  good d -> always (session drv ops d) (fun evs d' => only_asked is_switch line channel ops evs /\ good d').
Proof.
  revert d. induction ops as [| op ops IH]; intros d Hd; [by apply always_ret; split; [split; constructor |] |].
  apply (always_bind _ _ (fun evs d' =>
    (List.filter is_switch (sent evs) = [] \/
     exists node on, op = OpPower node on /\ channel node /\ List.filter is_switch (sent evs) = [line node on]) /\ good d')).
  - destruct op as [| now | node on]; cbn [operate]; eapply always_bind;
      [by apply law_ident | | by apply law_poll | | by apply law_power |];
      intros evs r Hr; apply always_ret; rewrite app_nil_r; destruct Hr as [Hs Hg]; (split; [| done]).
    + by left.
    + by left.
    + destruct Hs as [Hs | [Hc Hs]]; [by left | right; by exists node, on].
  - intros evs d1 [Hs Hg]. eapply always_mono; [by apply IH |]. intros evs' d' [[H1 H2] H3].
    split; [| done]. unfold only_asked. rewrite sent_app, filter_app.
    assert (H2' : Forall (fun l => exists node on, OpPower node on ∈ op :: ops /\ channel node /\ l = line node on)
      (List.filter is_switch (sent evs'))).
    { apply (list.Forall_impl _ _ _ H2). intros l (node & on & Hin & Hc & Hl). exists node, on. split; [by right | by split]. }
    destruct Hs as [-> | (node & on & -> & Hc & ->)].
    + split; [| exact H2']. destruct op; cbn; [done | done | by apply sublist_cons].
    + split; [by apply sublist_skip |]. constructor; [| exact H2'].
      exists node, on. split; [by left | by split].
Qed.
End Sessions.
