(* ===== verification/HiVolta.v ===== *)
(** * HiVolta: the CAEN DT1415ET high-voltage supply

    Models [src/slowctl/hivolta.rs] and [src/slowctl/hivolta_driver.rs]: the
    requests and replies, the status and alarm bits, the link, the driver with its
    power command, and the driver that opens the serial port only for the time of
    an operation.  How the ports are set up is not modelled.  [debug] is the
    standard library's [{:?}] of a string. *)

From Stdlib Require Import Ascii.
From stdpp Require Import gmap pretty strings.
From S2P Require Import Prelude Bytes Utf8 Decimal Text Float Command Slowctl.
Open Scope list_scope.
Open Scope Z_scope.

(** ** The codec *)

Definition NUM_CH : Z := 8.
Definition ALL_CH : Z := NUM_CH.

Inductive ChPar : Type :=
| Vset | Vmin | Vmax | Vdec | Vres | Vmon | Iset | Imin | Imax | Imon | Imres | Isres | ImRange | ImDec | IsDec
| SwVmax | Rup | RupMin | RupMax | RupDec | RupRes | Rdwn | RdwMin | RdwMax | RdwRes | RdwDec | Trip | TripMin
| TripMax | TripRes | TripDec | Pdwn | Status | ChToGr | OnOrd | OffOrd | Zcdtc | Zcadj.

Definition ch_token (p : ChPar) : string :=
  match p with
  | Vset => "VSET" | Vmin => "VMIN" | Vmax => "VMAX" | Vdec => "VDEC" | Vres => "VRES" | Vmon => "VMON"
  | Iset => "ISET" | Imin => "IMIN" | Imax => "IMAX" | Imon => "IMON" | Imres => "IMRES" | Isres => "ISRES"
  | ImRange => "IMRANGE" | ImDec => "IMDEC" | IsDec => "ISDEC" | SwVmax => "SWVMAX"
  | Rup => "RUP" | RupMin => "RUPMIN" | RupMax => "RUPMAX" | RupDec => "RUPDEC" | RupRes => "RUPRES"
  | Rdwn => "RDWN" | RdwMin => "RDWMIN" | RdwMax => "RDWMAX" | RdwRes => "RDWRES" | RdwDec => "RDWDEC"
  | Trip => "TRIP" | TripMin => "TRIPMIN" | TripMax => "TRIPMAX" | TripRes => "TRIPRES" | TripDec => "TRIPDEC"
  | Pdwn => "PDWN" | Status => "STATUS" | ChToGr => "CHTOGR" | OnOrd => "ONORD" | OffOrd => "OFFORD"
  | Zcdtc => "ZCDTC" | Zcadj => "ZCADJ"
  end.

Inductive BdPar : Type := Name | Nch | Frel | Snum | Ilk | IlkMode | Ctr | BdAlarm.

Definition bd_token (p : BdPar) : string :=
  match p with
  | Name => "BDNAME" | Nch => "BDNCH" | Frel => "BDFREL" | Snum => "BDSNUM"
  | Ilk => "BDILK" | IlkMode => "BDILKM" | Ctr => "BDCTR" | BdAlarm => "BDALARM"
  end.

Definition CRLF : string := String "013"%char (String "010"%char EmptyString).

Definition mon_ch (ch : Z) (p : ChPar) : string := "$CMD:MON,CH:" +:+ dec ch +:+ ",PAR:" +:+ ch_token p +:+ CRLF.
Definition mon_bd (p : BdPar) : string := "$CMD:MON,PAR:" +:+ bd_token p +:+ CRLF.
Definition set_line (ch : Z) (on : bool) : string :=
  "$CMD:SET,CH:" +:+ dec ch +:+ ",PAR:" +:+ (if on then "ON" else "OFF") +:+ CRLF.

Inductive HvError : Type :=
| Cmd | Val_ | Loc | Ch | Par
| Malformed (why : string).

Definition hv_error_text (e : HvError) : string :=
  match e with
  | Cmd => "hivolta #CMD:ERR (wrong command format or command not recognized)"
  | Val_ => "hivolta #VAL:ERR (wrong value)"
  | Loc => "hivolta #LOC:ERR (command rejected: module in LOCAL mode)"
  | Ch => "hivolta #CH:ERR (channel field missing or invalid)"
  | Par => "hivolta #PAR:ERR (parameter field missing or unrecognized)"
  | Malformed why => "hivolta malformed reply: " +:+ why
  end.

(** *** The status and alarm words *)

Definition has (word bit : Z) : bool := Z.testbit word bit.

Definition without (status ignore : Z) : Z := Z.ldiff status ignore.

Definition FLAG_NAMES : list string :=
  ["ON"; "UP"; "DOWN"; "OVC"; "OVV"; "UNV"; "TRIP"; "OVP"; "TWN"; "OVT"; "KILL"; "INTLK"; "DIS"; "FAIL"; "LOCK"; "B15"].

Definition flag_names (status : Z) : list string :=
  omap (fun '(bit, name) => if has status (Z.of_nat bit) then Some name else None) (imap pair FLAG_NAMES).

Definition on_bit (status : Z) : bool := has status 0.
Definition ramp_down (status : Z) : bool := has status 2.
Definition isdis (status : Z) : bool := has status 12.

(** What a channel is in alarm for. *)
Definition ch_alarm (judged : Z) : bool :=
  has judged 3 || has judged 4 || has judged 5 || has judged 6 || has judged 7 || has judged 9 || has judged 10
  || has judged 11 || has judged 13.

Record StatusIgnore : Type := mkIgnore {
  ignore_ch : Z;
  ignore_flags : list string;
}.

Section Codec.
Variable debug : string -> string.

Definition debug_list (l : list string) : string := "[" +:+ String.concat ", " (map debug l) +:+ "]".

Definition parse_reply (line : string) : result (list string) HvError :=
  match strip_suffix CRLF line with
  | None => Err (Malformed ("missing CRLF terminator: " +:+ debug line))
  | Some body =>
      if bool_decide (body = "#CMD:ERR") then Err Cmd
      else if bool_decide (body = "#VAL:ERR") then Err Val_
      else if bool_decide (body = "#LOC:ERR") then Err Loc
      else if bool_decide (body = "#CH:ERR") then Err Ch
      else if bool_decide (body = "#PAR:ERR") then Err Par
      else if bool_decide (body = "#CMD:OK") then Ok []
      else match strip_prefix "#" body with
      | None => Err (Malformed ("missing '#' prefix: " +:+ debug body))
      | Some _ =>
          match strip_prefix "#CMD:OK,VAL:" body with
          | None => Err (Malformed ("unrecognized response (missing 'VAL:'): " +:+ debug body))
          | Some values =>
              let parts := split_on ";"%char values in
              if existsb (fun p => bool_decide (p = EmptyString)) parts
              then Err (Malformed ("value list has an empty entry: " +:+ debug body))
              else Ok parts
          end
      end
  end.

(** The flags of a rule are added to its channel's mask, one by one. *)
Fixpoint mask_of (flags : list string) (mask : Z) : result Z string :=
  match flags with
  | [] => Ok mask
  | flag :: flags =>
      if bool_decide (flag = "OVV") then mask_of flags (Z.lor mask 16)
      else if bool_decide (flag = "UNV") then mask_of flags (Z.lor mask 32)
      else Err ("status_ignore: flag " +:+ debug flag +:+ " cannot be ignored (only UNV / OVV)")
  end.

Fixpoint ignore_masks_from (rules : list StatusIgnore) (masks : list Z) : result (list Z) string :=
  match rules with
  | [] => Ok masks
  | rule :: rules =>
      match get masks (ignore_ch rule) with
      | None => Err ("status_ignore: ch " +:+ dec (ignore_ch rule) +:+ " is out of range 0..=7")
      | Some slot =>
          let? slot := mask_of (ignore_flags rule) slot in
          ignore_masks_from rules (<[Z.to_nat (ignore_ch rule) := slot]> masks)
      end
  end.

Definition ignore_masks (rules : list StatusIgnore) : result (list Z) string :=
  ignore_masks_from rules (repeat 0 8).

Definition ignore_notices (masks : list Z) : list (Z * list string) :=
  omap (fun '(ch, mask) =>
    let flags := (if has mask 4 then ["OVV"] else []) ++ (if has mask 5 then ["UNV"] else []) in
    match flags with [] => None | _ => Some (Z.of_nat ch, flags) end) (imap pair masks).

Definition parse_status (s : string) : result Z HvError :=
  ok_or (parse_uint 16 (trim s)) (Malformed ("bad STATUS value: " +:+ debug s)).

Definition parse_alarm (s : string) : result Z HvError :=
  ok_or (parse_uint 16 (trim s)) (Malformed ("bad BDALARM value: " +:+ debug s)).

(** ** The link *)

Inductive HvLinkError : Type :=
| LinkIo (e : IoError)
| LinkProtocol (e : HvError).

Context {W : Type} `{Port W}.

Definition exchange (line : string) : Io W (result (list string) HvLinkError) :=
  let@ w := write_all line in
  match w with
  | Err e => io_ret (Err (LinkIo e))
  | Ok _ =>
      let@? buf := read_reply REPLY_MAX [13; 10]
        (LinkIo (mkIoError UnexpectedEof "hivolta: EOF before CRLF"))
        (LinkProtocol (Malformed "reply exceeded 256 bytes")) LinkIo [] in
      io_ret (match parse_reply (bytes_text (from_utf8_lossy buf)) with
              | Ok values => Ok values
              | Err e => Err (LinkProtocol e)
              end)
  end.

(** ** The driver *)

Record HiVoltaDriver : Type := mkHiVolta {
  hv_device : string;
  expect_serial : string;
  nch : Z;
  status_ignore : list Z;
}.

Definition hivolta_new (device serial : string) : HiVoltaDriver := mkHiVolta device serial 0 (repeat 0 8).

Definition driver_error (e : HvLinkError) : DriverError :=
  match e with
  | LinkIo e =>
      match io_kind e with
      | WouldBlock | TimedOut | UnexpectedEof => DriverTimeout
      | _ => DriverIo e
      end
  | LinkProtocol e => Protocol (hv_error_text e)
  end.

Definition single_value (values : list string) (what : string) : result string DriverError :=
  match values with
  | [v] => Ok v
  | _ => Err (Protocol (what +:+ ": expected a single value, got " +:+ debug_list values))
  end.

Definition parse_f64_value (v what : string) : result f64 DriverError :=
  ok_or (parse_f64 (trim v)) (Protocol (what +:+ ": not a number: " +:+ debug v)).

Definition parse_bdilk (v : string) : result f64 DriverError :=
  if bool_decide (trim v = "YES") then Ok (f64_of_Z 1)
  else if bool_decide (trim v = "NO") then Ok (f64_of_Z 0)
  else Err (Protocol ("BDILK: expected YES/NO, got " +:+ debug (trim v))).

Definition status_json (status : Z) : Json :=
  JObj [("status", JNum status); ("flags", JArr (map JStr (flag_names status)))].

Definition switched (on : bool) (after : Z) : bool :=
  if on then on_bit after else negb (on_bit after) || ramp_down after.

Definition check_channel (node nch : Z) : result unit DriverError :=
  if node <? nch then Ok tt
  else Err (Protocol ("ch " +:+ dec node +:+ " is out of range (this module has " +:+ dec nch +:+
                      " channels, 0.." +:+ dec nch +:+ ")")).

(** An exchange whose failure is the driver's. *)
Definition ask (line : string) : Io W (result (list string) DriverError) :=
  let@ r := exchange line in
  io_ret (match r with Ok values => Ok values | Err e => Err (driver_error e) end).

Definition ask_one (line what : string) : Io W (result string DriverError) :=
  let@? values := ask line in io_ret (single_value values what).

Definition protocol_of {A : Type} (r : result A HvError) : result A DriverError :=
  match r with
  | Ok a => Ok a
  | Err e => Err (Protocol (hv_error_text e))
  end.

Definition read_status (ch : Z) : Io W (result Z DriverError) :=
  let@? v := ask_one (mon_ch ch Status) "STATUS" in io_ret (protocol_of (parse_status v)).

(** The readings of the status after a [SET], until one shows the switch. *)
Fixpoint check_switched (tries : nat) (first : bool) (ch : Z) (on : bool) (after : Z) : Io W (result Z PowerRefused) :=
  match tries with
  | O => io_ret (Ok after)
  | S tries =>
      let@ _ := if first then io_ret tt else note (Slept POWER_CHECK_INTERVAL) in
      let@ r := read_status ch in
      match r with
      | Err e =>
          io_ret (Err (without_after
            ("SET was sent but reading the STATUS back failed (" +:+ driver_error_text e +:+ ")")))
      | Ok after =>
          if switched on after then io_ret (Ok after) else check_switched tries false ch on after
      end
  end.

Definition switch (ch : Z) (on : bool) (before : Z) : Io W (result Json PowerRefused) :=
  if isdis before then io_ret (Err (without_after "front switch is OFF (DIS)"))
  else
    let@ r := exchange (set_line ch on) in
    match r with
    | Err (LinkProtocol Loc) => io_ret (Err (without_after "module is in LOCAL mode"))
    | Err e =>
        io_ret (Err (without_after
          ("SET failed (" +:+ driver_error_text (driver_error e) +:+ ") — state unknown, check the table")))
    | Ok _ =>
        let@? after := check_switched POWER_CHECK_TRIES true ch on 0 in
        io_ret (if switched on after then Ok (status_json after)
                else Err (mkRefused ("channel did not switch (status=" +:+ dec after +:+ ")")
                            (Some (status_json after))))
    end.

Definition hv_set_power (node : Z) (on : bool) (d : HiVoltaDriver) : Io W (result PowerOutcome DriverError) :=
  match check_channel node (nch d) with
  | Err e => io_ret (Err e)
  | Ok _ =>
      let@? before := read_status node in
      let@ result := switch node on before in
      io_ret (Ok (mkOutcome (status_json before) result))
  end.

(** [bulk]: one parameter of all channels. *)
Definition bulk (d : HiVoltaDriver) (p : ChPar) (what : string) : Io W (result (list string) DriverError) :=
  let@? values := ask (mon_ch ALL_CH p) in
  io_ret (if len values =? nch d then Ok values
          else Err (Protocol (what +:+ ": expected " +:+ dec (nch d) +:+ " values, got " +:+ dec (len values) +:+
                              ": " +:+ debug_list values))).

Definition hv_ident (d : HiVoltaDriver) : Io W (result (list Ident) DriverError * HiVoltaDriver) :=
  let@ r :=
    let@? name := ask_one (mon_bd Name) "BDNAME" in
    let@? nch_str := ask_one (mon_bd Nch) "BDNCH" in
    match parse_uint 8 (trim nch_str) with
    | None => io_ret (Err (Protocol ("BDNCH: not a number: " +:+ debug nch_str)))
    | Some n =>
        if negb (n =? ALL_CH) then
          io_ret (Err (Protocol ("BDNCH: expected " +:+ dec ALL_CH +:+ " channels, got " +:+ dec n)))
        else
          let@? frel := ask_one (mon_bd Frel) "BDFREL" in
          let@? snum := ask_one (mon_bd Snum) "BDSNUM" in
          if negb (bool_decide (expect_serial d = EmptyString)) && negb (bool_decide (expect_serial d = snum)) then
            io_ret (Err (Identity (expect_serial d) snum))
          else
            let@? ctr := ask_one (mon_bd Ctr) "BDCTR" in
            let@? ilkm := ask_one (mon_bd IlkMode) "BDILKM" in
            let fields : gmap string string :=
              list_to_map [("name", name); ("nch", dec n); ("frel", frel); ("snum", snum); ("ctr", ctr); ("ilkm", ilkm)] in
            io_ret (Ok (n, [mkIdent (hv_device d) None fields]))
    end in
  io_ret (match r with
          | Ok (n, idents) => (Ok idents, mkHiVolta (hv_device d) (expect_serial d) n (status_ignore d))
          | Err e => (Err e, d)
          end).

(** The five samples of a channel. *)
Definition channel_samples (d : HiVoltaDriver) (now ch : Z) (vmon imon : f64) (status : Z) (vset iset : f64) : list Sample :=
  let judged := without status (default 0 (get (status_ignore d) (ch mod 8))) in
  let a := ch_alarm judged in
  [mkSample (hv_device d) (Some ch) "vmon" vmon "V" now a;
   mkSample (hv_device d) (Some ch) "imon" imon "µA" now a;
   mkSample (hv_device d) (Some ch) "status" (f64_of_Z status) "bitmask" now a;
   mkSample (hv_device d) (Some ch) "vset" vset "V" now a;
   mkSample (hv_device d) (Some ch) "iset" iset "µA" now a].

Definition one_channel (d : HiVoltaDriver) (now ch : Z) (vmon imon status vset iset : string)
    : result (list Sample) DriverError :=
  let? vmon := parse_f64_value vmon "VMON" in
  let? imon := parse_f64_value imon "IMON" in
  let? status := protocol_of (parse_status status) in
  let? vset := parse_f64_value vset "VSET" in
  let? iset := parse_f64_value iset "ISET" in
  Ok (channel_samples d now ch vmon imon status vset iset).

(** The channels from [ch] up; the lists are as long as there are channels. *)
Fixpoint channels (d : HiVoltaDriver) (now ch : Z) (vmons imons statuses vsets isets : list string)
    : result (list Sample) DriverError :=
  match vmons, imons, statuses, vsets, isets with
  | vmon :: vmons, imon :: imons, status :: statuses, vset :: vsets, iset :: isets =>
      let? here := one_channel d now ch vmon imon status vset iset in
      let? rest := channels d now (ch + 1) vmons imons statuses vsets isets in
      Ok (here ++ rest)
  | _, _, _, _, _ => Ok []
  end.

Definition hv_poll (now : Z) (d : HiVoltaDriver) : Io W (result (list Sample) DriverError) :=
  let@? vmons := bulk d Vmon "VMON" in
  let@? imons := bulk d Imon "IMON" in
  let@? statuses := bulk d Status "STATUS" in
  let@? vsets := bulk d Vset "VSET" in
  let@? isets := bulk d Iset "ISET" in
  let@? samples := io_ret (channels d now 0 vmons imons statuses vsets isets) in
  let@? alarm_text := ask_one (mon_bd BdAlarm) "BDALARM" in
  let@? bdalarm := io_ret (protocol_of (parse_alarm alarm_text)) in
  let@? ilk_text := ask_one (mon_bd Ilk) "BDILK" in
  let@? bdilk := io_ret (parse_bdilk ilk_text) in
  io_ret (Ok (samples ++
    [mkSample (hv_device d) None "bdalarm" (f64_of_Z bdalarm) "bitmask" now (negb (bdalarm =? 0));
     mkSample (hv_device d) None "bdilk" bdilk "flag" now false])).

#[export] Instance hivolta : Driver W HiVoltaDriver := {
  ident := hv_ident;
  poll := fun now d => let@ r := hv_poll now d in io_ret (r, d);
  set_power := fun node on d => let@ r := hv_set_power node on d in io_ret (r, d);
}.

(** ** Opening the port only for an operation *)

Record OnDemandHiVolta : Type := mkOnDemand { inner : HiVoltaDriver }.

Variable open_port : W -> result unit DriverError * W.

Definition open : Io W (result unit DriverError) := fun w =>
  let '(r, w) := open_port w in ([Opened], r, w).

(** A driver over the port just opened: only what the operation needs goes over. *)
Definition fresh (d : HiVoltaDriver) : HiVoltaDriver := hivolta_new (hv_device d) (expect_serial d).
Definition with_nch (n : Z) (d : HiVoltaDriver) : HiVoltaDriver :=
  mkHiVolta (hv_device d) (expect_serial d) n (status_ignore d).

Definition od_ident (o : OnDemandHiVolta) : Io W (result (list Ident) DriverError * OnDemandHiVolta) :=
  let@ opened := open in
  match opened with
  | Err e => io_ret (Err e, o)
  | Ok _ =>
      let@ (r, d) := hv_ident (fresh (inner o)) in
      io_ret (match r with
              | Ok idents => (Ok idents, mkOnDemand (with_nch (nch d) (inner o)))
              | Err e => (Err e, o)
              end)
  end.

Definition od_poll (now : Z) (o : OnDemandHiVolta) : Io W (result (list Sample) DriverError) :=
  let@? _ := open in hv_poll now (inner o).

Definition od_set_power (node : Z) (on : bool) (o : OnDemandHiVolta) : Io W (result PowerOutcome DriverError) :=
  match check_channel node (nch (inner o)) with
  | Err e => io_ret (Err e)
  | Ok _ => let@? _ := open in hv_set_power node on (with_nch (nch (inner o)) (fresh (inner o)))
  end.

Definition on_demand_hivolta : Driver W OnDemandHiVolta := {|
  ident := od_ident;
  poll := fun now o => let@ r := od_poll now o in io_ret (r, o);
  set_power := fun node on o => let@ r := od_set_power node on o in io_ret (r, o);
|}.
End Codec.

(** ** What goes over the port *)

Section Exchanges.
Variable debug : string -> string.
Context {W : Type} `{HP : Port W}.

(** A reply that shows a status. *)
Definition shows (reply : string) (status : Z) : Prop :=
  exists v, parse_reply debug reply = Ok [v] /\ parse_status debug v = Ok status.

Lemma always_exchange line (P : list PortEvent -> result (list string) HvLinkError -> Prop) :
  (forall e, P [Sent line] (Err e)) ->
  (forall reply, P [Sent line; Got reply]
     (match parse_reply debug reply with Ok vs => Ok vs | Err e => Err (LinkProtocol e) end)) ->
  always (exchange debug line) P.
Proof.
  intros He Hr. eapply always_bind; [apply (always_write line (fun evs _ => evs = [Sent line])); done |].
  intros evs [[] | e] ->; [| by apply always_ret].
  eapply always_try.
  - apply (always_read_reply _ _ _ _ _ _ (fun evs r => match r with
      | Ok line => evs = [Got (bytes_text (from_utf8_lossy line))] | Err _ => evs = [] end)); done.
  - intros evs e ->. apply He.
  - intros evs buf ->. apply always_ret. rewrite app_nil_r. apply Hr.
Qed.

(** One exchange: its request went out, and values came out of its reply. *)
Definition asked (line : string) (evs : list PortEvent) (r : result (list string) DriverError) : Prop :=
  sent evs = [line] /\ slept evs = 0 /\
  (forall vs, r = Ok vs -> exists reply, got evs = [reply] /\ parse_reply debug reply = Ok vs).

Lemma always_ask line : always (ask debug line) (asked line).
Proof.
  eapply always_bind.
  - apply (always_exchange line (fun evs r => sent evs = [line] /\ slept evs = 0 /\
      (forall vs, r = Ok vs -> exists reply, got evs = [reply] /\ parse_reply debug reply = Ok vs))).
    + intros e. by split_and!.
    + intros reply. split_and!; [done | done |]. destruct (parse_reply debug reply) as [vs | e] eqn:E; [| done].
      intros vs' [= ->]. by exists reply.
  - intros evs r (H1 & H2 & H3). apply always_ret. rewrite app_nil_r. split_and!; [done | done |].
    destruct r as [vs | e]; [| done]. by intros vs' [= ->]; apply H3.
Qed.

Definition asked_one (line : string) (evs : list PortEvent) (r : result string DriverError) : Prop :=
  sent evs = [line] /\ slept evs = 0 /\
  (forall v, r = Ok v -> exists reply, got evs = [reply] /\ parse_reply debug reply = Ok [v]).

Lemma always_ask_one line what : always (ask_one debug line what) (asked_one line).
Proof.
  eapply always_try; [apply always_ask | |].
  - intros evs e (H1 & H2 & _). by split_and!.
  - intros evs vs (H1 & H2 & H3). apply always_ret. rewrite app_nil_r. split_and!; [done | done |].
    intros v Hv. unfold single_value in Hv. destruct vs as [| v' [| ? ?]]; try discriminate Hv. injection Hv as <-.
    by apply H3.
Qed.

Lemma always_read_status ch :
  always (read_status debug ch) (fun evs r =>
    sent evs = [mon_ch ch Status] /\ slept evs = 0 /\
    (forall status, r = Ok status -> exists reply, got evs = [reply] /\ shows reply status)).
Proof.
  eapply always_try; [apply always_ask_one | |].
  - intros evs e (H1 & H2 & _). by split_and!.
  - intros evs v (H1 & H2 & H3). apply always_ret. rewrite app_nil_r. split_and!; [done | done |].
    intros status Hs. destruct (H3 v eq_refl) as (reply & Hg & Hp). exists reply. split; [done |]. exists v.
    split; [done |]. unfold protocol_of in Hs. destruct (parse_status debug v); [| done]. by injection Hs as ->.
Qed.

(** The readings after a [SET]: as many as it takes, at most [tries]. *)
Definition read_back (tries : nat) (first : bool) (ch : Z) (on : bool) (evs : list PortEvent)
    (r : result Z PowerRefused) : Prop :=
  exists k, (k <= tries)%nat /\ sent evs = repeat (mon_ch ch Status) k /\
    slept evs = POWER_CHECK_INTERVAL * (Z.of_nat k - if first then 1 else 0) /\
    match r with
    | Ok status => (exists reply, list.last (got evs) = Some reply /\ shows reply status) /\
                   (switched on status = true \/ k = tries)
    | Err e => refused_after e = None
    end.

Lemma check_switched_eq tries first ch on after :
  check_switched debug (S tries) first ch on after =
    (let@ _ := if first then io_ret tt else note (Slept POWER_CHECK_INTERVAL) in
     let@ r := read_status debug ch in
     match r with
     | Err e =>
         io_ret (Err (without_after
           ("SET was sent but reading the STATUS back failed (" +:+ driver_error_text e +:+ ")")))
     | Ok after =>
         if switched on after then io_ret (Ok after) else check_switched debug tries false ch on after
     end).
Proof. done. Qed.

Lemma always_check_switched tries first ch on after :
  always (check_switched debug (S tries) first ch on after) (read_back (S tries) first ch on).
Proof.
  revert first after. induction tries as [| tries IH]; intros first after.
  all: rewrite check_switched_eq; eapply (always_bind _ _ (fun evs _ => sent evs = [] /\ got evs = [] /\
         slept evs = if first then 0 else POWER_CHECK_INTERVAL)); [destruct first; [by apply always_ret | by apply always_note] |].
  all: intros evs0 [] (Hs0 & Hg0 & Ht0); eapply always_bind; [apply always_read_status |].
  all: intros evs1 [status | e] (Hs1 & Ht1 & Hr1).
  - destruct (Hr1 status eq_refl) as (reply & Hg1 & Hshow).
    assert (Hdone : read_back 1 first ch on (evs0 ++ evs1 ++ []) (Ok status)).
    { exists 1%nat. rewrite app_nil_r, sent_app, got_app, naps_app, Hs0, Hs1, Hg0, Hg1, Ht0, Ht1. split_and!; [lia | done | destruct first; lia | by exists reply | by right]. }
    destruct (switched on status); by apply always_ret.
  - apply always_ret. exists 1%nat. rewrite app_nil_r, sent_app, naps_app, Hs0, Hs1, Ht0, Ht1.
    split_and!; [lia | done | destruct first; lia | done].
  - destruct (Hr1 status eq_refl) as (reply & Hg1 & Hshow). destruct (switched on status) eqn:Esw.
    + apply always_ret. exists 1%nat. rewrite app_nil_r, sent_app, got_app, naps_app, Hs0, Hs1, Hg0, Hg1, Ht0, Ht1.
      split_and!; [lia | done | destruct first; lia | by exists reply | by left].
    + eapply always_mono; [apply IH |]. intros evs2 r (k & Hk & Hs2 & Ht2 & Hr2). exists (S k).
      rewrite !sent_app, !naps_app, Hs0, Hs1, Hs2, Ht0, Ht1, Ht2. split_and!; [lia | done | destruct first; lia |].
      destruct r as [status2 | e]; [| done]. destruct Hr2 as ((reply2 & Hl & Hsh) & Hor).
      split; [| destruct Hor as [-> | ->]; [by left | by right]].
      exists reply2. split; [| done]. rewrite !got_app, Hg0, Hg1. cbn. destruct (got evs2); [done | exact Hl].
  - apply always_ret. exists 1%nat. rewrite app_nil_r, sent_app, naps_app, Hs0, Hs1, Ht0, Ht1.
    split_and!; [lia | done | destruct first; lia | done].
Qed.

(** What a switch does once the status is read. *)
Definition switch_done (ch : Z) (on : bool) (before : Z) (evs : list PortEvent) (r : result Json PowerRefused) : Prop :=
  if isdis before then evs = [] /\ r = Err (without_after "front switch is OFF (DIS)")
  else exists k, (k <= POWER_CHECK_TRIES)%nat /\ sent evs = set_line ch on :: repeat (mon_ch ch Status) k /\
    slept evs <= 900 /\
    (forall after, r = Ok after -> exists reply status,
       list.last (got evs) = Some reply /\ shows reply status /\ switched on status = true /\ after = status_json status) /\
    (forall e j, r = Err e -> refused_after e = Some j -> k = POWER_CHECK_TRIES /\ exists reply status,
       list.last (got evs) = Some reply /\ shows reply status /\ switched on status = false /\ j = status_json status).

Lemma last_got_app l l' reply : list.last (got l') = Some reply -> list.last (got (l ++ l')) = Some reply.
Proof. intros Hl. rewrite got_app, last_app. by rewrite Hl. Qed.

Lemma always_switch ch on before : always (switch debug ch on before) (switch_done ch on before).
Proof.
  unfold switch, switch_done. destruct (isdis before); [by apply always_ret |].
  assert (Hfail : forall evs e, sent evs = [set_line ch on] -> slept evs = 0 ->
    exists k, (k <= POWER_CHECK_TRIES)%nat /\ sent evs = set_line ch on :: repeat (mon_ch ch Status) k /\ slept evs <= 900 /\
    (forall after, @Err Json PowerRefused (without_after e) = Ok after -> exists reply status,
       list.last (got evs) = Some reply /\ shows reply status /\ switched on status = true /\ after = status_json status) /\
    (forall e0 j, @Err Json PowerRefused (without_after e) = Err e0 -> refused_after e0 = Some j ->
       k = POWER_CHECK_TRIES /\ exists reply status,
       list.last (got evs) = Some reply /\ shows reply status /\ switched on status = false /\ j = status_json status)).
  { intros evs e Hs Ht. exists O. split_and!; [unfold POWER_CHECK_TRIES; lia | done | lia | done |].
    intros e0 j [= <-] Hj. discriminate Hj. }
  eapply always_bind.
  - apply (always_exchange _ (fun evs _ => sent evs = [set_line ch on] /\ slept evs = 0)); by split.
  - intros evs r (Hs & Ht). destruct r as [vs | [e | []]];
      try (apply always_ret; rewrite app_nil_r; by apply Hfail).
    eapply always_try; [apply (always_check_switched 9) | |].
    + intros evs1 e (k & Hk & Hs1 & Ht1 & Hr). exists k. rewrite sent_app, naps_app, Hs, Ht, Hs1, Ht1.
      split_and!; [done | done | unfold POWER_CHECK_INTERVAL; lia | done |].
      intros e0 j [= <-] Hj. congruence.
    + intros evs1 status (k & Hk & Hs1 & Ht1 & (reply & Hl & Hsh) & Hor). apply always_ret. rewrite app_nil_r.
      exists k. rewrite sent_app, naps_app, Hs, Ht, Hs1, Ht1.
      split_and!; [done | done | unfold POWER_CHECK_INTERVAL; lia | |].
      * intros after Ha. exists reply, status. destruct (switched on status); [| discriminate Ha].
        injection Ha as <-. split_and!; [by apply last_got_app | done | done | done].
      * intros e j He Hj. destruct (switched on status) eqn:Esw; [discriminate He |]. injection He as <-.
        injection Hj as <-. destruct Hor as [? | ->]; [done |]. split; [done |].
        exists reply, status. split_and!; [by apply last_got_app | done | done | done].
Qed.

(** What a power command does, whatever the device answers. *)
Definition power_done (n node : Z) (on : bool) (evs : list PortEvent) (r : result PowerOutcome DriverError) : Prop :=
  if node <? n then
    (sent evs = [mon_ch node Status] /\ exists e, r = Err e) \/
    exists reply status res evs1 evs2, evs = evs1 ++ evs2 /\
      sent evs1 = [mon_ch node Status] /\ got evs1 = [reply] /\ shows reply status /\ slept evs1 = 0 /\
      switch_done node on status evs2 res /\ r = Ok (mkOutcome (status_json status) res)
  else evs = [] /\ exists why, r = Err (Protocol why).

Lemma hv_power_done (node : Z) (on : bool) (d : HiVoltaDriver) :
  always (hv_set_power debug node on d) (power_done (nch d) node on).
Proof.
  unfold hv_set_power, check_channel, power_done. destruct (node <? nch d); [| apply always_ret; by split; [| eexists]].
  eapply always_try; [apply always_read_status | |].
  - intros evs e (Hs & _). left. split; [done | by exists e].
  - intros evs status (Hs & Ht & Hr). destruct (Hr status eq_refl) as (reply & Hg & Hsh).
    eapply always_bind; [apply always_switch |]. intros evs1 res Hsw. apply always_ret. rewrite app_nil_r.
    right. exists reply, status, res, evs, evs1. by split_and!.
Qed.

(** C7: Whatever the supply answers, a power command reads the channel's status,
    and if it can be read and the front switch is on it sends that channel's one
    ON or OFF line and reads the status back at most ten times, sleeping at most
    900 ms; with the front switch off, or the channel out of range, no SET goes
    out at all.  It answers with an [after] exactly as the last reply showed it:
    success only when that shows the channel switched, and "did not switch" only
    after ten readings of which the last shows it has not. *)
Theorem hv_power_honest (node : Z) (on : bool) (d : HiVoltaDriver) :
  always (hv_set_power debug node on d) (power_done (nch d) node on).
Proof. apply hv_power_done. Qed.

(** ** The other operations only read *)

Definition BOARD_LINES : list string := map mon_bd [Name; Nch; Frel; Snum; Ctr; IlkMode; BdAlarm; Ilk].

Definition reading (line : string) : Prop := (exists ch p, line = mon_ch ch p) \/ line ∈ BOARD_LINES.

Definition only_reads {A : Type} (evs : list PortEvent) (r : A) : Prop := Forall reading (sent evs).

Lemma only_reads_try {A B E} (m : Io W (result A E)) (k : A -> Io W (result B E)) :
  always m only_reads -> (forall a, always (k a) only_reads) -> always (io_try m k) only_reads.
Proof.
  intros Hm Hk. eapply always_try; [exact Hm | done |]. intros evs a He. eapply always_mono; [apply Hk |].
  intros evs' b He'. unfold only_reads. rewrite sent_app. by apply Forall_app.
Qed.

Lemma only_reads_ret {A} (a : A) : always (W := W) (io_ret a) only_reads.
Proof. apply always_ret. constructor. Qed.

Lemma only_reads_one line what : reading line -> always (ask_one debug line what) only_reads.
Proof.
  intros Hl. eapply always_mono; [apply always_ask_one |]. intros evs r (Hs & _). unfold only_reads. rewrite Hs. by constructor.
Qed.

Lemma reading_board p : reading (mon_bd p).
Proof. right. destruct p; set_solver. Qed.

Lemma only_reads_bulk d p what : always (bulk debug d p what) only_reads.
Proof.
  eapply always_try; [apply always_ask | |].
  - intros evs e (Hs & _). unfold only_reads. rewrite Hs. constructor; [left; by eexists _, _ | constructor].
  - intros evs vs (Hs & _). apply always_ret. rewrite app_nil_r. unfold only_reads. rewrite Hs.
    constructor; [left; by eexists _, _ | constructor].
Qed.

Create HintDb reads.
#[local] Hint Resolve only_reads_try only_reads_ret only_reads_one only_reads_bulk reading_board : reads.

Lemma hv_poll_reads now d : always (hv_poll debug now d) only_reads.
Proof. unfold hv_poll. eauto 30 with reads. Qed.

Definition is_set (line : string) : bool :=
  match strip_prefix "$CMD:SET," line with
  | Some _ => true
  | None => false
  end.

Lemma reading_not_set l : reading l -> is_set l = false.
Proof.
  intros [(ch & p & ->) | Hl]; [done |]. unfold BOARD_LINES in Hl. cbn [map] in Hl.
  repeat (apply elem_of_cons in Hl as [-> | Hl]; [done |]). by apply elem_of_nil in Hl.
Qed.

Lemma only_reads_sets {A} evs (r : A) : only_reads evs r -> List.filter is_set (sent evs) = [].
Proof.
  unfold only_reads. intros H. induction H as [| l ls Hl _ IH]; [done |]. cbn. by rewrite reading_not_set.
Qed.

Lemma set_line_channel a b on on' : 0 <= a -> 0 <= b -> set_line a on = set_line b on' -> a = b.
Proof.
  intros Ha Hb E. unfold set_line in E. apply append_inj_l in E.
  apply (digits_sep ","%char (dec a) (dec b)) in E as [E _]; [by apply dec_inj | done | apply dec_digits | apply dec_digits].
Qed.

(** A driver knows eight channels, or none yet. *)
Definition at_most_eight (d : HiVoltaDriver) : Prop := nch d <= NUM_CH.

(** What holds of the value of an operation that works. *)
Definition yields {A E : Type} (m : Io W (result A E)) (P : A -> Prop) : Prop :=
  always m (fun _ r => match r with Ok a => P a | Err _ => True end).

Lemma yields_try {A B E} (m : Io W (result A E)) (k : A -> Io W (result B E)) P :
  (forall a, yields (k a) P) -> yields (io_try m k) P.
Proof.
  intros Hk. eapply (always_try _ _ (fun _ _ => True)); [intros w; by destruct (m w) as [[? ?] ?] | done |].
  intros evs a _. apply Hk.
Qed.

Lemma yields_err {A E} (e : E) (P : A -> Prop) : yields (io_ret (Err e)) P.
Proof. by apply always_ret. Qed.

Lemma always_both {A} (m : Io W A) (P Q : list PortEvent -> A -> Prop) :
  always m P -> always m Q -> always m (fun evs a => P evs a /\ Q evs a).
Proof. intros H1 H2 w. specialize (H1 w). specialize (H2 w). by destruct (m w) as [[evs r] w']. Qed.

Lemma hv_ident_reads d :
  always (hv_ident debug d) (fun evs r => only_reads evs r /\ (nch (snd r) = nch d \/ nch (snd r) = NUM_CH)).
Proof.
  unfold hv_ident. eapply (always_bind _ _ (fun evs r =>
    only_reads evs r /\ match r with Ok (n, _) => n = NUM_CH | Err _ => True end)).
  - apply always_both.
    + apply only_reads_try; [auto with reads | intros name]. apply only_reads_try; [auto with reads | intros nch_str].
      destruct (parse_uint 8 (trim nch_str)) as [n |]; [| auto with reads].
      destruct (negb (n =? ALL_CH)); [auto with reads |].
      apply only_reads_try; [auto with reads | intros frel]. apply only_reads_try; [auto with reads | intros snum].
      destruct (_ && _); eauto with reads.
    + apply (always_mono _ (fun _ r => match r with Ok a => (fun '(n, _) => n = NUM_CH) a | Err _ => True end));
        [| by intros _ [[] |]].
      apply yields_try. intros name. apply yields_try. intros nch_str.
      destruct (parse_uint 8 (trim nch_str)) as [n |]; [| apply yields_err].
      destruct (Z.eqb_spec n ALL_CH) as [-> |]; cbn [negb]; [| apply yields_err].
      apply yields_try. intros frel. apply yields_try. intros snum. destruct (_ && _); [apply yields_err |].
      apply yields_try. intros ctr. apply yields_try. intros ilkm. by apply always_ret.
  - intros evs [[n idents] | e] [Hr Hn]; apply always_ret; rewrite app_nil_r.
    + split; [exact Hr | by right].
    + split; [exact Hr | by left].
Qed.

Lemma power_done_sets n node on evs r :
  power_done n node on evs r ->
  List.filter is_set (sent evs) = [] \/ (node < n /\ List.filter is_set (sent evs) = [set_line node on]).
Proof.
  assert (Hrep : forall k, List.filter is_set (repeat (mon_ch node Status) k) = []) by (induction k as [| k IH]; [done | exact IH]).
  unfold power_done. destruct (Z.ltb_spec node n) as [Hlt |]; [| intros [-> _]; by left].
  intros [[-> _] | (reply & status & res & evs1 & evs2 & -> & Hs1 & _ & _ & _ & Hsw & _)]; [by left |].
  rewrite sent_app, Hs1. unfold switch_done in Hsw. destruct (isdis status).
  - destruct Hsw as [-> _]. by left.
  - destruct Hsw as (k & _ & Hs2 & _). right. split; [done |]. rewrite Hs2. cbn. by rewrite Hrep.
Qed.

#[export] Instance hivolta_switches : SwitchLaws (hivolta debug (W := W)) is_set set_line (fun node => node < NUM_CH) at_most_eight.
Proof.
  constructor.
  - intros d Hd. eapply always_mono; [apply hv_ident_reads |]. intros evs r [Hr Hn].
    split; [by eapply only_reads_sets |]. unfold at_most_eight in *. destruct Hn as [-> | ->]; lia.
  - intros now d Hd. eapply always_bind; [apply hv_poll_reads |]. intros evs r Hr. apply always_ret. rewrite app_nil_r.
    split; [by eapply only_reads_sets | done].
  - intros node on d Hd. eapply always_bind; [apply hv_power_done |]. intros evs r Hr. apply always_ret. rewrite app_nil_r.
    split; [| done]. apply power_done_sets in Hr as [Hr | [Hlt Hr]]; [by left | right].
    unfold at_most_eight in Hd. split; [lia | done].
Qed.

(** *** The driver that opens the port for each operation *)

Variable open_port : W -> result unit DriverError * W.

Lemma always_open : always (open open_port) (fun evs _ => evs = [Opened]).
Proof. intros w. unfold open. by destruct (open_port w). Qed.

Definition inner_at_most_eight (o : OnDemandHiVolta) : Prop := at_most_eight (inner o).

#[local] Instance on_demand_switches :
  SwitchLaws (on_demand_hivolta debug open_port) is_set set_line (fun node => node < NUM_CH) inner_at_most_eight.
Proof.
  constructor.
  - intros o Ho. unfold ident, on_demand_hivolta, od_ident. eapply always_bind; [apply always_open |].
    intros evs [[] | e] ->; [| by apply always_ret].
    eapply always_bind; [apply hv_ident_reads |]. intros evs [r d] [Hr Hn]. apply always_ret. rewrite app_nil_r.
    change (sent ([Opened] ++ evs)) with (sent evs). split; [by eapply only_reads_sets |].
    destruct r as [idents | e]; [| done]. unfold inner_at_most_eight, at_most_eight in *. cbn in *.
    destruct Hn as [-> | ->]; unfold NUM_CH; lia.
  - intros now o Ho. unfold poll, on_demand_hivolta, od_poll.
    eapply (always_bind _ _ (fun evs _ => List.filter is_set (sent evs) = [])).
    + eapply always_try; [apply always_open | by intros evs e -> |]. intros evs [] ->.
      eapply always_mono; [apply hv_poll_reads |]. intros evs r Hr. exact (only_reads_sets evs r Hr).
    + intros evs r Hr. apply always_ret. by rewrite app_nil_r.
  - intros node on o Ho. unfold set_power, on_demand_hivolta, od_set_power.
    eapply (always_bind _ _ (fun evs _ => List.filter is_set (sent evs) = [] \/
      (node < NUM_CH /\ List.filter is_set (sent evs) = [set_line node on]))).
    + destruct (check_channel node (nch (inner o))) as [[] | e]; [| by apply always_ret; left].
      eapply always_try; [apply always_open | intros evs e ->; by left |]. intros evs [] ->.
      eapply always_mono; [apply hv_power_done |]. intros evs r Hr.
      apply power_done_sets in Hr as [Hr | [Hlt Hr]]; [by left | right]. cbn in Hlt.
      unfold inner_at_most_eight, at_most_eight in Ho. split; [lia | exact Hr].
    + intros evs r Hr. apply always_ret. by rewrite app_nil_r.
Qed.

(** C6: Over any session with the supply - identifications, polls and power commands
    in any order, over a port that fails and answers as it likes, on a TCP link or
    with the serial port opened for each operation - the only lines that write
    anything are ON and OFF of a single channel 0 to 7, they are, in order, among
    the power commands given, and the group of all channels is never switched. *)
Theorem hv_session_safe (device serial : string) (ops : list Op) :
  Forall (fun op => match op with OpPower node _ => 0 <= node | _ => True end) ops ->
  let ok evs := only_asked is_set set_line (fun node => node < NUM_CH) ops evs /\
                forall on, set_line ALL_CH on ∉ sent evs in
  always (session (hivolta debug) ops (hivolta_new device serial)) (fun evs _ => ok evs) /\
  always (session (on_demand_hivolta debug open_port) ops (mkOnDemand (hivolta_new device serial))) (fun evs _ => ok evs).
Proof.
  intros Hnodes ok.
  assert (Hall : forall evs, only_asked is_set set_line (fun node => node < NUM_CH) ops evs -> ok evs).
  { intros evs H. split; [done |]. intros on Hin. destruct H as [_ H]. rewrite List.Forall_forall in H.
    assert (Hin' : In (set_line ALL_CH on) (List.filter is_set (sent evs))).
    { apply filter_In. split; [by apply list_elem_of_In | done]. }
    apply H in Hin' as (node & on' & Hop & Hlt & E). rewrite List.Forall_forall in Hnodes.
    apply list_elem_of_In in Hop. apply Hnodes in Hop. apply set_line_channel in E; [unfold ALL_CH in *; lia | done | exact Hop]. }
  split; (eapply always_mono; [apply session_switches; [apply _ | cbn; unfold inner_at_most_eight, at_most_eight, NUM_CH; cbn; lia] |]);
    intros evs d [H _]; by apply Hall.
Qed.

(** ** Alarms *)

(** The bits a rule may hide. *)
Definition hideable (mask : Z) : Prop := forall bit, has mask bit = true -> bit = 4 \/ bit = 5.

Lemma hideable_lor mask k : k = 4 \/ k = 5 -> hideable mask -> hideable (Z.lor mask (2 ^ k)).
Proof.
  intros Hk Hm bit. unfold has. rewrite Z.lor_spec. intros Hb. apply orb_prop in Hb as [Hb | Hb]; [by apply Hm |].
  rewrite Z.pow2_bits_eqb in Hb by lia. apply Z.eqb_eq in Hb. lia.
Qed.

Lemma mask_of_hideable flags mask mask' : mask_of debug flags mask = Ok mask' -> hideable mask -> hideable mask'.
Proof.
  revert mask. induction flags as [| flag flags IH]; intros mask; cbn [mask_of]; [by intros [= ->] |].
  case_bool_decide; [intros Hm Hh; apply (IH _ Hm); apply (hideable_lor mask 4); auto |].
  case_bool_decide; [intros Hm Hh; apply (IH _ Hm); apply (hideable_lor mask 5); auto | done].
Qed.

Lemma ignore_masks_hideable rules masks : ignore_masks debug rules = Ok masks -> Forall hideable masks.
Proof.
  unfold ignore_masks. assert (H0 : Forall hideable (repeat 0 8)).
  { apply List.Forall_forall. intros m Hm bit Hb. apply repeat_spec in Hm as ->. unfold has in Hb. by rewrite Z.testbit_0_l in Hb. }
  revert H0. generalize (repeat 0 8). induction rules as [| rule rules IH]; intros m Hm; cbn [ignore_masks_from]; [by intros [= <-] |].
  destruct (get m (ignore_ch rule)) as [slot |] eqn:Eg; [| done].
  destruct (mask_of debug (ignore_flags rule) slot) as [slot' |] eqn:Es; [| done]. cbn. apply IH.
  unfold get in Eg. destruct (0 <=? ignore_ch rule); [| done].
  apply list.Forall_insert; [done |]. eapply mask_of_hideable; [exact Es |]. eapply Forall_lookup_1; [exact Hm | exact Eg].
Qed.

(** The samples of the channels, one row of readings after another. *)
Definition row : Type := f64 * f64 * Z * f64 * f64.
Definition row_status (r : row) : Z := let '(_, _, status, _, _) := r in status.
Definition row_samples (d : HiVoltaDriver) (now ch : Z) (r : row) : list Sample :=
  let '(vmon, imon, status, vset, iset) := r in channel_samples d now ch vmon imon status vset iset.

Fixpoint rows_samples (d : HiVoltaDriver) (now ch : Z) (rows : list row) : list Sample :=
  match rows with
  | [] => []
  | r :: rows => row_samples d now ch r ++ rows_samples d now (ch + 1) rows
  end.

Lemma channels_rows d now ch vmons imons statuses vsets isets ss :
  channels debug d now ch vmons imons statuses vsets isets = Ok ss ->
  exists rows, ss = rows_samples d now ch rows /\ Forall (fun r => 0 <= row_status r < 65536) rows.
Proof.
  revert ch imons statuses vsets isets ss. induction vmons as [| vmon vmons IH]; intros ch imons statuses vsets isets ss H.
  { injection H as <-. exists []. by split; [| constructor]. }
  destruct imons as [| imon imons], statuses as [| status statuses], vsets as [| vset vsets], isets as [| iset isets];
    try (injection H as <-; exists []; by split; [| constructor]).
  cbn [channels] in H. destruct (one_channel debug d now ch vmon imon status vset iset) as [here | e] eqn:E1; [| done].
  cbn [result_bind] in H.
  destruct (channels debug d now (ch + 1) vmons imons statuses vsets isets) as [rest | e] eqn:E2; [| done].
  injection H as <-. apply IH in E2 as (rows & -> & Hrows). unfold one_channel in E1.
  destruct (parse_f64_value debug vmon "VMON") as [v |]; [cbn [result_bind] in E1 | done].
  destruct (parse_f64_value debug imon "IMON") as [i |]; [cbn [result_bind] in E1 | done].
  unfold protocol_of, parse_status in E1. destruct (parse_uint 16 (trim status)) as [st |] eqn:Est; [cbn in E1 | done].
  destruct (parse_f64_value debug vset "VSET") as [v' |]; [cbn [result_bind] in E1 | done].
  destruct (parse_f64_value debug iset "ISET") as [i' |]; [cbn [result_bind] in E1 | done].
  injection E1 as <-. exists ((v, i, st, v', i') :: rows). split; [done |]. constructor; [| done].
  exact (parse_uint_bound _ _ _ Est).
Qed.

Lemma row_sample d now ch r s : s ∈ row_samples d now ch r ->
  let '(_, _, status, _, _) := r in
  sample_node s = Some ch /\
  alarm s = ch_alarm (without status (default 0 (get (status_ignore d) (ch mod 8)))) /\
  (param s = "status" -> value s = f64_of_Z status).
Proof.
  destruct r as [[[[vmon imon] status] vset] iset]. cbn [row_samples]. unfold channel_samples.
  rewrite !elem_of_cons, elem_of_nil. intros [-> | [-> | [-> | [-> | [-> | []]]]]]; by split_and!.
Qed.

Lemma rows_sample d now ch rows s : s ∈ rows_samples d now ch rows ->
  exists i r, rows !! i = Some r /\ s ∈ row_samples d now (ch + Z.of_nat i) r.
Proof.
  revert ch. induction rows as [| r rows IH]; intros ch; cbn [rows_samples]; [by rewrite elem_of_nil |].
  rewrite elem_of_app. intros [Hs | Hs]; [exists O, r; by replace (ch + Z.of_nat 0) with ch by lia |].
  apply IH in Hs as (i & r' & Hi & Hs). exists (S i), r'. split; [done |].
  by replace (ch + Z.of_nat (S i)) with (ch + 1 + Z.of_nat i) by lia.
Qed.

Lemma poll_samples now d :
  always (hv_poll debug now d) (fun _ r => match r with
    | Ok ss => exists rows a b, ss = rows_samples d now 0 rows ++ [a; b] /\
        Forall (fun r => 0 <= row_status r < 65536) rows /\ sample_node a = None /\ sample_node b = None
    | Err _ => True
    end).
Proof.
  unfold hv_poll. do 5 (apply yields_try; intros ?).
  eapply always_try; [apply (always_ret _ (fun _ r => r = channels debug d now 0 a a0 a1 a2 a3)); done | done |].
  intros evs ss Hss. cbn beta in Hss. symmetry in Hss. apply channels_rows in Hss as (rows & -> & Hrows).
  do 4 (apply yields_try; intros ?). apply always_ret. by eexists rows, _, _.
Qed.

(** What a channel is in alarm for and no rule can hide: over-current, trip,
    over-power, over-temperature, kill, interlock, failure. *)
Definition SERIOUS : list Z := [3; 6; 7; 9; 10; 11; 13].

(** In what a poll reports, all five samples of a channel carry the same alarm,
    and it is raised whenever that channel's status has a bit for over-current,
    trip, over-power, over-temperature, kill, interlock or failure: no
    [status_ignore] the configuration accepts can hide one of them. *)
Theorem hv_alarms_kept (rules : list StatusIgnore) (masks : list Z) (d : HiVoltaDriver) (now : Z) :
  ignore_masks debug rules = Ok masks -> status_ignore d = masks ->
  always (hv_poll debug now d) (fun _ r => forall ss s s' ch, r = Ok ss ->
    s ∈ ss -> s' ∈ ss -> sample_node s = Some ch -> sample_node s' = Some ch ->
    param s' = "status" ->
    alarm s = alarm s' /\ (forall bit, bit ∈ SERIOUS -> has (f64_to_Z (value s')) bit = true -> alarm s = true)).
Proof.
  intros Hm Hd. apply ignore_masks_hideable in Hm. eapply always_mono; [apply poll_samples |].
  intros _ r Hr ss s s' ch -> Hs Hs' Hn Hn' Hp. destruct Hr as (rows & a & b & -> & Hrows & Ha & Hb).
  assert (Hrow : forall s, s ∈ rows_samples d now 0 rows ++ [a; b] -> sample_node s = Some ch ->
    exists i r, rows !! i = Some r /\ s ∈ row_samples d now (Z.of_nat i) r /\ ch = Z.of_nat i).
  { intros x Hx Hxn. apply elem_of_app in Hx as [Hx | Hx].
    - apply rows_sample in Hx as (i & r & Hi & Hx). change (0 + Z.of_nat i) with (Z.of_nat i) in Hx. exists i, r. split_and!; [done | done |].
      apply row_sample in Hx. destruct r as [[[[? ?] ?] ?] ?]. destruct Hx as (Hx & _). congruence.
    - rewrite !elem_of_cons, elem_of_nil in Hx. destruct Hx as [-> | [-> | []]]; congruence. }
  destruct (Hrow s Hs Hn) as (i & r & Hi & Hr & ->). destruct (Hrow s' Hs' Hn') as (j & r' & Hj & Hr' & Hij).
  apply Nat2Z.inj in Hij. subst j. rewrite Hi in Hj. injection Hj as <-.
  apply row_sample in Hr, Hr'. destruct r as [[[[vmon imon] st] vset] iset].
  destruct Hr as (_ & Hal & _), Hr' as (_ & Hal' & Hst). rewrite (Hst Hp).
  rewrite f64_of_u16 by exact (Forall_lookup_1 _ _ _ _ Hrows Hi). rename st into status.
  split; [congruence |]. intros bit Hbit Hset. rewrite Hal. rewrite Hd.
  set (mask := default 0 (get masks (Z.of_nat i mod 8))).
  assert (Hmask : hideable mask).
  { unfold mask, get. destruct (0 <=? _); cbn; [| intros b' Hb'; unfold has in Hb'; by rewrite Z.testbit_0_l in Hb'].
    destruct (masks !! _) as [m |] eqn:Em; cbn; [by eapply Forall_lookup_1 |].
    intros b' Hb'. unfold has in Hb'. by rewrite Z.testbit_0_l in Hb'. }
  assert (Hkeep : has (without status mask) bit = true).
  { unfold has, without in *. rewrite Z.ldiff_spec, Hset. destruct (Z.testbit mask bit) eqn:Eb; [| done].
    apply Hmask in Eb. unfold SERIOUS in Hbit. rewrite !elem_of_cons, elem_of_nil in Hbit. lia. }
  unfold ch_alarm. unfold SERIOUS in Hbit. rewrite !elem_of_cons, elem_of_nil in Hbit.
  destruct Hbit as [-> | [-> | [-> | [-> | [-> | [-> | [-> | []]]]]]]]; rewrite Hkeep; by rewrite ?orb_true_r.
Qed.

(** ** Replies *)

Definition reply_line (values : list string) : string := "#CMD:OK,VAL:" +:+ String.concat ";" values +:+ CRLF.

Lemma hv_reply_roundtrip values :
  values <> [] -> Forall (fun v => v <> EmptyString /\ lacks ";"%char v = true) values ->
  parse_reply debug (reply_line values) = Ok values.
Proof.
  intros Hne Hv. unfold parse_reply, reply_line. rewrite <- append_assoc, strip_suffix_app.
  repeat (rewrite bool_decide_eq_false_2; [| intros E; discriminate E]).
  replace (strip_prefix "#" _) with (Some ("CMD:OK,VAL:" +:+ String.concat ";" values)) by done.
  rewrite strip_prefix_app, split_on_concat; [| done | by eapply list.Forall_impl; [exact Hv |]; intros v []].
  replace (existsb _ values) with false; [done |]. symmetry. apply not_true_iff_false. intros Hex.
  apply existsb_exists in Hex as (v & Hin & Hve). apply bool_decide_eq_true in Hve.
  rewrite List.Forall_forall in Hv. by destruct (Hv v Hin).
Qed.
End Exchanges.

(** ** A supply to run it on *)

(** A port that delivers the given bytes whatever is sent. *)
#[local] Instance tape : Port bytes := {
  port_write := fun _ w => (Ok tt, w);
  port_read := fun w => match w with [] => (ReadEof, []) | b :: w => (ReadByte b, w) end;
}.

Definition quoted (s : string) : string := "'" +:+ s +:+ "'".
Definition replies (ls : list string) : bytes := text_bytes (String.concat EmptyString (map (fun l => l +:+ CRLF) ls)).

(** It names itself, then channel 3 is off, takes the SET, ramps up. *)
Definition shift : bytes :=
  replies ["#CMD:OK,VAL:DT1415ET"; "#CMD:OK,VAL:8"; "#CMD:OK,VAL:1.0"; "#CMD:OK,VAL:42"; "#CMD:OK,VAL:REMOTE";
           "#CMD:OK,VAL:CLOSED"; "#CMD:OK,VAL:0"; "#CMD:OK"; "#CMD:OK,VAL:0"; "#CMD:OK,VAL:3"].

Definition shift_ops : list Op := [OpIdent; OpPower 3 true].

Definition open_tape (w : bytes) : result unit DriverError * bytes := (Ok tt, w).

Lemma shift_sent :
  let '(evs, _, _) := session (hivolta quoted) shift_ops (hivolta_new "hv0" "42") shift in
  List.filter is_set (sent evs) = [set_line 3 true] /\ length (sent evs) = 10%nat /\ slept evs = 100.
Proof. vm_compute. by split_and!. Qed.

Lemma hv_session_safe_witness :
  exists evs d w, session (hivolta quoted) shift_ops (hivolta_new "hv0" "42") shift = (evs, d, w) /\
    length (sent evs) = 10%nat /\ only_asked is_set set_line (fun node => node < NUM_CH) shift_ops evs.
Proof.
  assert (Hops : Forall (fun op => match op with OpPower node _ => 0 <= node | _ => True end) shift_ops).
  { apply Forall_cons_2; [exact I |]. apply Forall_cons_2; [discriminate | apply Forall_nil_2]. }
  pose proof (proj1 (hv_session_safe quoted open_tape "hv0" "42" shift_ops Hops) shift) as H.
  pose proof shift_sent as Hs.
  destruct (session (hivolta quoted) shift_ops (hivolta_new "hv0" "42") shift) as [[evs d] w].
  exists evs, d, w. split; [reflexivity |]. split; [exact (proj1 (proj2 Hs)) | exact (proj1 H)].
Defined.

(** A poll of eight channels, the first tripped and its under-voltage ignored. *)
Definition eight (first : string) : string := "#CMD:OK,VAL:" +:+ String.concat ";" (first :: repeat "0" 7).
Definition tripped : bytes :=
  replies [eight "0.1"; eight "0.0"; eight "96"; eight "100"; eight "5"; "#CMD:OK,VAL:64"; "#CMD:OK,VAL:NO"].

Definition ignoring : list StatusIgnore := [mkIgnore 0 ["UNV"]].
Definition masked : HiVoltaDriver := mkHiVolta "hv0" "" 8 (32 :: repeat 0 7).

Definition is_status_of (ch : Z) (s : Sample) : bool :=
  bool_decide (sample_node s = Some ch) && bool_decide (param s = "status").

Lemma tripped_polled :
  match hv_poll quoted 7 masked tripped with
  | (_, Ok ss, _) => exists s, s ∈ ss /\ sample_node s = Some 0 /\ param s = "status" /\ value s = f64_of_Z 96
  | _ => False
  end.
Proof.
  destruct (hv_poll quoted 7 masked tripped) as [[evs [ss | e]] w] eqn:E.
  - assert (Hc : ss = match hv_poll quoted 7 masked tripped with (_, Ok ss, _) => ss | _ => [] end) by (by rewrite E).
    exists (nth 2 ss (mkSample "" None "" (f64_of_Z 0) "" 0 false)). rewrite Hc. vm_compute.
    split; [do 2 apply list_elem_of_further; apply list_elem_of_here | by split_and!].
  - assert (Hc : match hv_poll quoted 7 masked tripped with (_, Ok _, _) => true | _ => false end = true) by (vm_compute; reflexivity).
    rewrite E in Hc. discriminate Hc.
Qed.

Lemma hv_alarms_kept_witness :
  exists evs ss w s, hv_poll quoted 7 masked tripped = (evs, Ok ss, w) /\ s ∈ ss /\ value s = f64_of_Z 96 /\ alarm s = true.
Proof.
  pose proof (hv_alarms_kept quoted ignoring (32 :: repeat 0 7) masked 7 eq_refl eq_refl tripped) as H.
  pose proof tripped_polled as Hp.
  destruct (hv_poll quoted 7 masked tripped) as [[evs [ss | e]] w]; [| contradiction Hp].
  destruct Hp as (s & Hs & Hn & Hst & Hv). exists evs, ss, w, s.
  split; [reflexivity |]. split; [exact Hs |]. split; [exact Hv |].
  refine (proj2 (H ss s s 0 eq_refl Hs Hs Hn Hn Hst) 6 _ _); [| rewrite Hv; reflexivity].
  unfold SERIOUS. apply list_elem_of_further. apply list_elem_of_here.
Defined.
