(* ===== verification/Hmp.v ===== *)
(** * Hmp: the HMP2020 low-voltage supply

    Models [src/slowctl/hmp.rs] and [src/slowctl/hmp_driver.rs]: the SCPI lines, the
    link and the driver.  The supply has one channel selected at a time, and what is
    asked, set or read is of that channel: the theorems follow the selection through
    what goes over the port.  How the serial port is set up is not modelled. *)

From Stdlib Require Import Ascii.
From stdpp Require Import gmap pretty strings.
From S2P Require Import Prelude Bytes Utf8 Decimal Text Float Command Slowctl.
Open Scope list_scope.
Open Scope Z_scope.

(** ** The codec *)

Definition MIN_CH : Z := 1.
Definition MAX_CH : Z := 2.

Definition in_range (ch : Z) : bool := (MIN_CH <=? ch) && (ch <=? MAX_CH).

Inductive HmpError : Type :=
| ChannelOutOfRange (ch : Z)
| HmpMalformed (why : string).

Definition hmp_error_text (e : HmpError) : string :=
  match e with
  | ChannelOutOfRange ch => "hmp2020 channel " +:+ dec ch +:+ " is out of range (valid: 1..=2)"
  | HmpMalformed why => "hmp malformed response: " +:+ why
  end.

Definition idn : string := "*IDN?".
Definition nsel (ch : Z) : result string HmpError :=
  if negb (in_range ch) then Err (ChannelOutOfRange ch) else Ok ("INST:NSEL " +:+ dec ch).
Definition meas_volt : string := "MEAS:VOLT?".
Definition meas_curr : string := "MEAS:CURR?".
Definition volt_query : string := "VOLT?".
Definition curr_query : string := "CURR?".
Definition outp_query : string := "OUTP?".
Definition outp_set (on : bool) : string := if on then "OUTP ON" else "OUTP OFF".
Definition syst_err : string := "SYST:ERR?".
Definition nsel_query : string := "INST:NSEL?".

Record Idn : Type := mkIdn {
  vendor : string;
  model : string;
  serial : string;
  fw : string;
}.

Definition LF : string := String "010"%char EmptyString.

Section Codec.
Variable debug : string -> string.

Definition parse_idn (line : string) : result Idn HmpError :=
  match splitn 4 ","%char (trim line) with
  | [vendor; model; serial; fw] => Ok (mkIdn vendor model serial fw)
  | _ => Err (HmpMalformed ("expected 4 comma-separated fields, got " +:+ debug line))
  end.

Definition parse_f64 (line : string) : result f64 HmpError :=
  ok_or (Float.parse_f64 (trim line)) (HmpMalformed ("not a number: " +:+ debug line)).

Definition parse_bool01 (line : string) : result bool HmpError :=
  let l := trim line in
  if bool_decide (l = "1") then Ok true
  else if bool_decide (l = "0") then Ok false
  else Err (HmpMalformed ("expected '0' or '1', got " +:+ debug l)).

Definition parse_syst_err (line : string) : result (Z * string) HmpError :=
  match split_once ","%char (trim line) with
  | None => Err (HmpMalformed ("missing ',': " +:+ debug line))
  | Some (code_str, msg_str) =>
      match parse_i32 (trim code_str) with
      | None => Err (HmpMalformed ("bad error code: " +:+ debug code_str))
      | Some code => Ok (code, trim_matches [34] (trim msg_str))
      end
  end.

(** ** The link: [ScpiLink] *)

Context {W : Type} `{Port W}.

(** What is left of a line when its end is cut off. *)
Definition reply_of (raw : string) : string := trim_end_matches [13; 10] raw.

Definition exchange (cmd : string) : Io W (result string IoError) :=
  let@? _ := write_all (cmd +:+ LF) in
  let@? buf := read_reply REPLY_MAX [10]
    (mkIoError UnexpectedEof "hmp: EOF before LF") (mkIoError InvalidData "hmp: reply too long") (fun e => e) [] in
  io_ret (Ok (reply_of (bytes_text (from_utf8_lossy buf)))).

Definition send (cmd : string) : Io W (result unit IoError) := write_all (cmd +:+ LF).

(** ** The driver *)

Record HmpDriver : Type := mkHmp {
  hmp_device : string;
  hmp_serial : string;
}.

Definition driver_error (e : IoError) : DriverError :=
  match io_kind e with
  | WouldBlock | TimedOut | UnexpectedEof => DriverTimeout
  | _ => DriverIo e
  end.

Definition protocol_of {A : Type} (r : result A HmpError) : result A DriverError :=
  match r with
  | Ok a => Ok a
  | Err e => Err (Protocol (hmp_error_text e))
  end.

(** An exchange whose failure is the driver's, and its reply read. *)
Definition ask {A : Type} (cmd : string) (parse : string -> result A HmpError) : Io W (result A DriverError) :=
  let@ r := exchange cmd in
  io_ret (match r with
          | Ok reply => protocol_of (parse reply)
          | Err e => Err (driver_error e)
          end).

Definition select (ch : Z) : Io W (result unit DriverError) :=
  match nsel ch with
  | Err e => io_ret (Err (Protocol (hmp_error_text e)))
  | Ok nsel_cmd =>
      let@ s := send nsel_cmd in
      match s with
      | Err e => io_ret (Err (driver_error e))
      | Ok _ =>
          let@ r := exchange nsel_query in
          io_ret (match r with
                  | Err e => Err (driver_error e)
                  | Ok reply =>
                      match parse_uint 8 (trim reply) with
                      | None => Err (Protocol ("INST:NSEL?: not a channel number: " +:+ debug reply))
                      | Some selected =>
                          if selected =? ch then Ok tt
                          else Err (Protocol ("INST:NSEL " +:+ dec ch +:+ " did not take effect (INST:NSEL? reports " +:+
                                              dec selected +:+ ")"))
                      end
                  end)
      end
  end.

Definition bit (on : bool) : Json := JNum (if on then 1 else 0).

(** The channels of [MIN_CH..=MAX_CH] in turn, into the map of the answer. *)
Fixpoint outputs_of (chs : list Z) (outputs : list (string * Json)) : Io W (result (list (string * Json)) DriverError) :=
  match chs with
  | [] => io_ret (Ok outputs)
  | ch :: chs =>
      let@? _ := select ch in
      let@? on := ask outp_query parse_bool01 in
      outputs_of chs (fields_set (dec ch) (bit on) outputs)
  end.

Definition CHANNELS : list Z := [MIN_CH; MAX_CH].

Definition read_outputs : Io W (result Json DriverError) :=
  let@? outputs := outputs_of CHANNELS [] in io_ret (Ok (JObj [("outp", JObj outputs)])).

(** [value[key]]: a missing key reads as null. *)
Definition json_index (j : Json) (k : string) : Json :=
  match j with
  | JObj fs => default JNull (fields_get k fs)
  | _ => JNull
  end.

Definition outp_at (after : Json) (ch : Z) : Json := json_index (json_index after "outp") (dec ch).

(** What [{}] prints of the value of an output. *)
Definition outp_text (j : Json) : string :=
  match j with
  | JNum n => dec n
  | _ => "null"
  end.

Fixpoint check_outputs (tries : nat) (first : bool) (ch : Z) (on : bool) (after : Json) : Io W (result Json PowerRefused) :=
  match tries with
  | O => io_ret (Ok after)
  | S tries =>
      let@ _ := if first then io_ret tt else note (Slept POWER_CHECK_INTERVAL) in
      let@ r := read_outputs in
      match r with
      | Err e =>
          io_ret (Err (without_after
            (outp_set on +:+ " was sent but reading OUTP? back failed (" +:+ driver_error_text e +:+ ")")))
      | Ok after =>
          if bool_decide (outp_at after ch = bit on) then io_ret (Ok after)
          else check_outputs tries false ch on after
      end
  end.

(** What follows once the outputs are read: the error queue, then the verdict. *)
Definition verdict (ch : Z) (on : bool) (after : Json) : Io W (result Json PowerRefused) :=
  let refused error := mkRefused error (Some after) in
  let@ r := exchange syst_err in
  io_ret (match r with
          | Err e => Err (refused ("SYST:ERR? failed (" +:+ driver_error_text (driver_error e) +:+ ")"))
          | Ok reply =>
              match parse_syst_err reply with
              | Err e => Err (refused (hmp_error_text e))
              | Ok (code, message) =>
                  if negb (code =? 0) then Err (refused ("SYST:ERR " +:+ pretty code +:+ ": " +:+ message))
                  else if bool_decide (outp_at after ch = bit on) then Ok after
                  else Err (refused ("channel did not switch (outp=" +:+ outp_text (outp_at after ch) +:+ ")"))
              end
          end).

Definition switch (ch : Z) (on : bool) : Io W (result Json PowerRefused) :=
  let@ selected := select ch in
  match selected with
  | Err e =>
      io_ret (Err (without_after
        ("cannot select ch " +:+ dec ch +:+ " (" +:+ driver_error_text e +:+ ") — nothing was switched")))
  | Ok _ =>
      let@ s := send (outp_set on) in
      match s with
      | Err e => io_ret (Err (without_after ("sending " +:+ outp_set on +:+ " failed (io error: " +:+ io_text e +:+ ")")))
      | Ok _ => let@? after := check_outputs POWER_CHECK_TRIES true ch on JNull in verdict ch on after
      end
  end.

Definition hmp_ident (d : HmpDriver) : Io W (result (list Ident) DriverError) :=
  let@? parsed := ask idn parse_idn in
  if negb (bool_decide (hmp_serial d = EmptyString)) && negb (bool_decide (hmp_serial d = serial parsed)) then
    io_ret (Err (Identity (hmp_serial d) (serial parsed)))
  else
    let fields : gmap string string :=
      list_to_map [("vendor", vendor parsed); ("model", model parsed); ("serial", serial parsed); ("fw", fw parsed)] in
    io_ret (Ok [mkIdent (hmp_device d) None fields]).

Definition one_channel (d : HmpDriver) (now ch : Z) : Io W (result (list Sample) DriverError) :=
  let@? _ := select ch in
  let@? volt := ask meas_volt parse_f64 in
  let@? curr := ask meas_curr parse_f64 in
  let@? outp := ask outp_query parse_bool01 in
  let@? vset := ask volt_query parse_f64 in
  let@? iset := ask curr_query parse_f64 in
  io_ret (Ok
    [mkSample (hmp_device d) (Some ch) "volt" volt "V" now false;
     mkSample (hmp_device d) (Some ch) "curr" curr "A" now false;
     mkSample (hmp_device d) (Some ch) "outp" (f64_of_Z (if outp then 1 else 0)) "on" now false;
     mkSample (hmp_device d) (Some ch) "vset" vset "V" now false;
     mkSample (hmp_device d) (Some ch) "iset" iset "A" now false]).

Fixpoint all_channels (d : HmpDriver) (now : Z) (chs : list Z) (samples : list Sample)
    : Io W (result (list Sample) DriverError) :=
  match chs with
  | [] => io_ret (Ok samples)
  | ch :: chs => let@? here := one_channel d now ch in all_channels d now chs (samples ++ here)
  end.

Definition hmp_poll (now : Z) (d : HmpDriver) : Io W (result (list Sample) DriverError) :=
  let@? samples := all_channels d now CHANNELS [] in
  let@? err := ask syst_err parse_syst_err in
  let '(code, message) := err in
  io_ret (if negb (code =? 0) then Err (Protocol ("SYST:ERR " +:+ pretty code +:+ ": " +:+ message)) else Ok samples).

Definition hmp_set_power (node : Z) (on : bool) : Io W (result PowerOutcome DriverError) :=
  if negb (in_range node) then
    io_ret (Err (Protocol ("ch " +:+ dec node +:+ " is out of range (HMP2020: " +:+ dec MIN_CH +:+ "..=" +:+ dec MAX_CH +:+ ")")))
  else
    let@? before := read_outputs in
    let@ result := switch node on in
    io_ret (Ok (mkOutcome before result)).

#[export] Instance hmp : Driver W HmpDriver := {
  ident := fun d => let@ r := hmp_ident d in io_ret (r, d);
  poll := fun now d => let@ r := hmp_poll now d in io_ret (r, d);
  set_power := fun node on d => let@ r := hmp_set_power node on in io_ret (r, d);
}.
End Codec.

(** ** The selection, followed through the trace *)

(** What the lines sent and the replies got say of the channel selected. *)
Inductive Selection : Type :=
| Unselected
| Asked (ch : Z)
| Querying (ch : Z)
| Confirmed (ch : Z)
| Reading (ch : Z) (query : string).

(** What was done to a channel, or read of it. *)
Inductive Act : Type :=
| Read (ch : Z) (query reply : string)
| Switched (ch : Z) (on : bool).

Definition nsel_of (line : string) : option Z :=
  find (fun ch => bool_decide (line = "INST:NSEL " +:+ dec ch +:+ LF)) CHANNELS.

Definition switch_of (line : string) : option bool :=
  find (fun on => bool_decide (line = outp_set on +:+ LF)) [true; false].

Definition QUERIES : list string := [meas_volt; meas_curr; outp_query; volt_query; curr_query].

Definition is_query (line : string) : bool := existsb (fun q => bool_decide (line = q +:+ LF)) QUERIES.

Definition confirmed (sel : Selection) : option Z :=
  match sel with
  | Confirmed ch => Some ch
  | _ => None
  end.

(** [None]: a line that means the selected channel went out when no channel was
    known to be selected. *)
Definition watch_sent (sel : Selection) (line : string) : option (Selection * list Act) :=
  match nsel_of line with
  | Some ch => Some (Asked ch, [])
  | None =>
      if bool_decide (line = nsel_query +:+ LF) then
        Some (match sel with Asked ch => Querying ch | _ => Unselected end, [])
      else
        match switch_of line with
        | Some on => match confirmed sel with Some ch => Some (sel, [Switched ch on]) | None => None end
        | None =>
            if is_query line then
              match confirmed sel with Some ch => Some (Reading ch line, []) | None => None end
            else Some (match confirmed sel with Some _ => sel | None => Unselected end, [])
        end
  end.

Definition watch_got (sel : Selection) (raw : string) : Selection * list Act :=
  match sel with
  | Querying ch => (if bool_decide (parse_uint 8 (trim (reply_of raw)) = Some ch) then Confirmed ch else Unselected, [])
  | Reading ch q => (Confirmed ch, [Read ch q (reply_of raw)])
  | _ => (sel, [])
  end.

Definition watch_step (sel : Selection) (ev : PortEvent) : option (Selection * list Act) :=
  match ev with
  | Sent line => watch_sent sel line
  | Got raw => Some (watch_got sel raw)
  | _ => Some (sel, [])
  end.

Fixpoint watch (sel : Selection) (evs : list PortEvent) : option (Selection * list Act) :=
  match evs with
  | [] => Some (sel, [])
  | ev :: evs =>
      match watch_step sel ev with
      | None => None
      | Some (sel, acts) =>
          match watch sel evs with
          | None => None
          | Some (sel, acts') => Some (sel, acts ++ acts')
          end
      end
  end.

Lemma watch_app sel l l' sel1 acts1 sel2 acts2 :
  watch sel l = Some (sel1, acts1) -> watch sel1 l' = Some (sel2, acts2) ->
  watch sel (l ++ l') = Some (sel2, acts1 ++ acts2).
Proof.
  revert sel acts1. induction l as [| ev l IH]; intros sel acts1; cbn [watch app]; [by intros [= -> <-] |].
  destruct (watch_step sel ev) as [[s a] |]; [| done].
  destruct (watch s l) as [[s' a'] |] eqn:E; [| done]. intros [= -> <-] H2.
  rewrite (IH s a' E H2). by rewrite app_assoc.
Qed.

Definition switches (acts : list Act) : list (Z * bool) :=
  omap (fun a => match a with Switched ch on => Some (ch, on) | _ => None end) acts.

(** At most [n] readings, and nothing switched. *)
Definition quiet (n : nat) (acts : list Act) : Prop := switches acts = [] /\ (length acts <= n)%nat.

Lemma switches_app l l' : switches (l ++ l') = switches l ++ switches l'.
Proof. apply omap_app. Qed.

(** Programs, by what they do to the selected channel. *)
Section Follows.
Context {W : Type} `{HP : Port W} (debug : string -> string).

Definition follows {A : Type} (sel : Selection) (m : Io W A) (Q : Selection -> list Act -> A -> Prop) : Prop :=
  always m (fun evs a => exists sel' acts, watch sel evs = Some (sel', acts) /\ Q sel' acts a).

Lemma follows_ret {A} sel (a : A) (Q : Selection -> list Act -> A -> Prop) : Q sel [] a -> follows sel (io_ret a) Q.
Proof. intros HQ. apply always_ret. by exists sel, []. Qed.

Lemma follows_bind {A B} sel (m : Io W A) (k : A -> Io W B) P (Q : Selection -> list Act -> B -> Prop) :
  follows sel m P -> (forall s acts a, P s acts a -> follows s (k a) (fun s' acts' b => Q s' (acts ++ acts') b)) ->
  follows sel (io_bind m k) Q.
Proof.
  intros Hm Hk. eapply always_bind; [exact Hm |]. intros evs a (s & acts & Hw & HP').
  eapply always_mono; [by eapply Hk |]. intros evs' b (s' & acts' & Hw' & HQ).
  exists s', (acts ++ acts'). split; [by eapply watch_app | done].
Qed.

Lemma follows_mono {A} sel (m : Io W A) (P Q : Selection -> list Act -> A -> Prop) :
  follows sel m P -> (forall s acts a, P s acts a -> Q s acts a) -> follows sel m Q.
Proof. intros Hm HPQ. eapply always_mono; [exact Hm |]. intros evs a (s & acts & Hw & HP'). exists s, acts. auto. Qed.

Lemma follows_try {A B E} sel (m : Io W (result A E)) (k : A -> Io W (result B E)) P (Q : Selection -> list Act -> result B E -> Prop) :
  follows sel m P -> (forall s acts e, P s acts (Err e) -> Q s acts (Err e)) ->
  (forall s acts a, P s acts (Ok a) -> follows s (k a) (fun s' acts' b => Q s' (acts ++ acts') b)) ->
  follows sel (io_try m k) Q.
Proof.
  intros Hm He Hk. eapply follows_bind; [exact Hm |]. intros s acts [a | e] HP'; [by apply Hk |].
  apply follows_ret. rewrite app_nil_r. by apply He.
Qed.

(** One exchange: its line goes out, and at most one reply comes. *)
Lemma follows_exchange sel line s acts (Q : Selection -> list Act -> result string IoError -> Prop) :
  watch_sent sel (line +:+ LF) = Some (s, acts) ->
  (forall e, Q s acts (Err e)) ->
  (forall raw, Q (fst (watch_got s raw)) (acts ++ snd (watch_got s raw)) (Ok (reply_of raw))) ->
  follows sel (exchange line) Q.
Proof.
  intros Hs He Ho. eapply always_try; [apply (always_write _ (fun evs _ => evs = [Sent (line +:+ LF)])); done | |].
  - intros evs e ->. exists s, acts. cbn. rewrite Hs, app_nil_r. by split.
  - intros evs [] ->. eapply always_try.
    + apply (always_read_reply _ _ _ _ _ _ (fun evs r => match r with
        | Ok line => evs = [Got (bytes_text (from_utf8_lossy line))] | Err _ => evs = [] end)); done.
    + intros evs e ->. exists s, acts. cbn. rewrite Hs, app_nil_r. by split.
    + intros evs buf ->. apply always_ret. specialize (Ho (bytes_text (from_utf8_lossy buf))).
      cbn [app watch watch_step]. rewrite Hs. destruct (watch_got s _) as [s' acts']. cbn [fst snd] in Ho.
      exists s', (acts ++ acts'). rewrite app_nil_r. by split.
Qed.

Lemma follows_send sel line s acts (Q : Selection -> list Act -> result unit IoError -> Prop) :
  watch_sent sel (line +:+ LF) = Some (s, acts) -> (forall r, Q s acts r) -> follows sel (send line) Q.
Proof.
  intros Hs HQ. eapply always_write. intros r. exists s, acts. cbn. rewrite Hs, app_nil_r. by split.
Qed.

(** A query of the selected channel. *)
Lemma follows_query {A} ch q (parse : string -> result A HmpError) (Q : Selection -> list Act -> result A DriverError -> Prop) :
  In q QUERIES ->
  (forall s acts e, quiet 1 acts -> Q s acts (Err e)) ->
  (forall reply a, parse reply = Ok a -> Q (Confirmed ch) [Read ch (q +:+ LF) reply] (Ok a)) ->
  follows (Confirmed ch) (ask q parse) Q.
Proof.
  intros Hq He Ho. assert (Hs : watch_sent (Confirmed ch) (q +:+ LF) = Some (Reading ch (q +:+ LF), [])).
  { unfold QUERIES in Hq. cbn in Hq. by repeat destruct Hq as [<- | Hq]. }
  eapply follows_bind; [apply (follows_exchange _ _ _ _ (fun s acts r => match r with
    | Err _ => acts = [] | Ok reply => s = Confirmed ch /\ acts = [Read ch (q +:+ LF) reply] end) Hs); done |].
  intros s acts [reply | e].
  - intros [-> ->]. apply follows_ret. cbn [app]. destruct (parse reply) as [a | e] eqn:E; [by apply Ho |].
    apply He. split; [done | cbn; lia].
  - intros ->. apply follows_ret. apply He. split; [done | cbn; lia].
Qed.

(** A line that is of no channel. *)
Lemma follows_other {A} sel q (parse : string -> result A HmpError) (Q : Selection -> list Act -> result A DriverError -> Prop) :
  q = idn \/ q = syst_err -> (forall s r, Q s [] r) -> follows sel (ask q parse) Q.
Proof.
  intros Hq HQ. eapply follows_bind.
  - eapply (follows_exchange _ _ _ _ (fun s acts r => acts = [])); [by destruct Hq as [-> | ->] | done |].
    intros raw. by destruct sel.
  - intros s acts r ->. by apply follows_ret.
Qed.

Lemma in_range_spec ch : in_range ch = true -> ch = MIN_CH \/ ch = MAX_CH.
Proof. unfold in_range, MIN_CH, MAX_CH. lia. Qed.

(** A channel is selected only when the supply says so. *)
Lemma follows_select sel ch (Q : Selection -> list Act -> result unit DriverError -> Prop) :
  (forall s e, Q s [] (Err e)) -> Q (Confirmed ch) [] (Ok tt) -> follows sel (select debug ch) Q.
Proof.
  intros He Ho. unfold select, nsel. destruct (in_range ch) eqn:Er; cbn [negb]; [| by apply follows_ret].
  eapply follows_bind; [apply (follows_send _ _ (Asked ch) [] (fun s acts _ => s = Asked ch /\ acts = [])) |].
  - apply in_range_spec in Er as [-> | ->]; reflexivity.
  - done.
  - intros s acts [[] | e] [-> ->]; [| apply follows_ret; apply He].
    eapply follows_bind; [apply (follows_exchange _ _ (Querying ch) [] (fun s acts r => acts = [] /\
      match r with Ok reply => parse_uint 8 (trim reply) = Some ch -> s = Confirmed ch | Err _ => True end)) |].
    + done.
    + done.
    + intros raw. split; [done |]. intros Hp. cbn. by rewrite bool_decide_eq_true_2.
    + intros s acts [reply | e] [-> Hc]; apply follows_ret; [| apply He].
      destruct (parse_uint 8 (trim reply)) as [selected |]; [| apply He].
      destruct (Z.eqb_spec selected ch) as [-> |]; [| apply He]. by rewrite (Hc eq_refl).
Qed.

Lemma quiet_acts_app n m l l' : quiet n l -> quiet m l' -> quiet (n + m) (l ++ l').
Proof. intros [H1 H2] [H3 H4]. split; [by rewrite switches_app, H1, H3 | rewrite length_app; lia]. Qed.

(** The outputs of some channels as replies showed them, one after another. *)
Fixpoint read_as (chs : list Z) (fs : list (string * Json)) (acts : list Act) (fs' : list (string * Json)) : Prop :=
  match chs with
  | [] => acts = [] /\ fs' = fs
  | ch :: chs => exists reply on acts', acts = Read ch (outp_query +:+ LF) reply :: acts' /\
      parse_bool01 debug reply = Ok on /\ read_as chs (fields_set (dec ch) (bit on) fs) acts' fs'
  end.

Lemma read_as_quiet chs fs acts fs' : read_as chs fs acts fs' -> quiet (length chs) acts.
Proof.
  revert fs acts. induction chs as [| ch chs IH]; intros fs acts; cbn [read_as]; [intros [-> _]; split; [done | cbn; lia] |].
  intros (reply & on & acts' & -> & _ & H). apply IH in H as [H1 H2]. split; [exact H1 | cbn; lia].
Qed.

Lemma follows_outputs_of chs fs sel (Q : Selection -> list Act -> result (list (string * Json)) DriverError -> Prop) :
  (forall s acts e, quiet (length chs) acts -> Q s acts (Err e)) ->
  (forall s acts fs', read_as chs fs acts fs' -> Q s acts (Ok fs')) ->
  follows sel (outputs_of debug chs fs) Q.
Proof.
  revert fs sel Q. induction chs as [| ch chs IH]; intros fs sel Q He Ho; cbn [outputs_of].
  { apply follows_ret. by apply Ho. }
  eapply follows_try; [apply (follows_select _ _ (fun s acts r => acts = [] /\ match r with Ok _ => s = Confirmed ch | _ => True end)); done | |].
  { intros s acts e [-> _]. apply He. split; [done | cbn; lia]. }
  intros s acts [] [-> ->]. eapply follows_try.
  - apply (follows_query _ _ _ (fun s acts r => match r with
      | Err _ => quiet 1 acts
      | Ok on => exists reply, acts = [Read ch (outp_query +:+ LF) reply] /\ parse_bool01 debug reply = Ok on end));
      [cbn; auto | done |]. intros reply a Hp. by exists reply.
  - intros s acts e [H1 H2]. apply He. split; [exact H1 | cbn in *; lia].
  - intros s acts on (reply & -> & Hp). apply IH.
    + intros s' acts' e [H1 H2]. apply He. split; [exact H1 | cbn; lia].
    + intros s' acts' fs' H. apply Ho. by exists reply, on, acts'.
Qed.

(** Both outputs, as two replies showed them. *)
Definition outputs_read (acts : list Act) (j : Json) : Prop :=
  exists fs, read_as CHANNELS [] acts fs /\ j = JObj [("outp", JObj fs)].

Lemma outputs_read_quiet acts j : outputs_read acts j -> quiet 2 acts.
Proof. intros (fs & H & _). exact (read_as_quiet _ _ _ _ H). Qed.

Lemma follows_read_outputs sel (Q : Selection -> list Act -> result Json DriverError -> Prop) :
  (forall s acts e, quiet 2 acts -> Q s acts (Err e)) ->
  (forall s acts j, outputs_read acts j -> Q s acts (Ok j)) ->
  follows sel (read_outputs debug) Q.
Proof.
  intros He Ho. eapply follows_try.
  - apply (follows_outputs_of _ _ _ (fun s acts r => match r with
      | Err _ => quiet 2 acts | Ok fs => read_as CHANNELS [] acts fs end)); done.
  - intros s acts e. apply He.
  - intros s acts fs H. apply follows_ret. rewrite app_nil_r. apply Ho. by exists fs.
Qed.

(** What the outputs read say, at the end of some readings. *)
Definition last_read (acts : list Act) (j : Json) : Prop := exists l l', acts = l ++ l' /\ outputs_read l' j.

Lemma last_read_app l acts j : last_read acts j -> last_read (l ++ acts) j.
Proof. intros (l1 & l2 & -> & H). exists (l ++ l1), l2. by rewrite app_assoc. Qed.

Lemma check_outputs_eq tries first ch on after :
  check_outputs debug (S tries) first ch on after =
    (let@ _ := if first then io_ret tt else note (Slept POWER_CHECK_INTERVAL) in
     let@ r := read_outputs debug in
     match r with
     | Err e =>
         io_ret (Err (without_after
           (outp_set on +:+ " was sent but reading OUTP? back failed (" +:+ driver_error_text e +:+ ")")))
     | Ok after =>
         if bool_decide (outp_at after ch = bit on) then io_ret (Ok after)
         else check_outputs debug tries false ch on after
     end).
Proof. done. Qed.

(** The readings after a switch: at most [tries] of both outputs. *)
Lemma follows_check_outputs tries first ch on after sel (Q : Selection -> list Act -> result Json PowerRefused -> Prop) :
  (forall s acts why, quiet (2 * S tries) acts -> Q s acts (Err (without_after why))) ->
  (forall s acts j, quiet (2 * S tries) acts -> last_read acts j -> Q s acts (Ok j)) ->
  follows sel (check_outputs debug (S tries) first ch on after) Q.
Proof.
  revert first after sel Q. induction tries as [| tries IH]; intros first after sel Q He Ho.
  all: rewrite check_outputs_eq; eapply (follows_bind _ _ _ (fun s acts _ => acts = [])).
  all: try (destruct first; [by apply follows_ret | apply always_note; by exists sel, []]).
  all: intros s acts [] ->; eapply follows_bind.
  all: try (apply (follows_read_outputs _ (fun s acts r => quiet 2 acts /\ match r with Ok j => outputs_read acts j | _ => True end));
    [done | intros s1 acts1 j Hj; split; [by eapply outputs_read_quiet | done]]).
  all: intros s1 acts1 [j | e] [Hq Hj]; try (apply follows_ret; rewrite app_nil_r; apply He; destruct Hq; split; [done | cbn in *; lia]).
  all: assert (Hl : last_read acts1 j) by (exists [], acts1; by split).
  - case_bool_decide; apply follows_ret; rewrite app_nil_r; by apply Ho.
  - case_bool_decide.
    + apply follows_ret. rewrite app_nil_r. apply Ho; [| done]. destruct Hq. split; [done | cbn in *; lia].
    + apply IH.
      * intros s2 acts2 why Hq2. apply He. cbn [app]. replace (2 * S (S tries))%nat with (2 + 2 * S tries)%nat by lia. by apply quiet_acts_app.
      * intros s2 acts2 j2 Hq2 Hl2. apply Ho; cbn [app]; [| by apply last_read_app].
        replace (2 * S (S tries))%nat with (2 + 2 * S tries)%nat by lia. by apply quiet_acts_app.
Qed.

Lemma follows_syst_err sel (Q : Selection -> list Act -> result string IoError -> Prop) :
  (forall s r, Q s [] r) -> follows sel (exchange syst_err) Q.
Proof. intros HQ. eapply follows_exchange; [done | by intros e |]. intros raw. by destruct sel. Qed.

Lemma follows_verdict sel ch on after (Q : Selection -> list Act -> result Json PowerRefused -> Prop) :
  (forall s why, Q s [] (Err (mkRefused why (Some after)))) ->
  (forall s, outp_at after ch = bit on -> Q s [] (Ok after)) ->
  follows sel (verdict debug ch on after) Q.
Proof.
  intros He Ho. eapply follows_bind; [apply (follows_syst_err _ (fun s acts _ => acts = [])); done |].
  intros s acts r ->. apply follows_ret. destruct r as [reply | e]; [| apply He].
  destruct (parse_syst_err debug reply) as [[code message] | e]; [| apply He].
  destruct (negb (code =? 0)); [apply He |]. case_bool_decide; [by apply Ho | apply He].
Qed.

(** What a switch does: nothing at all, or one line to its channel and at most ten
    readings of both outputs; what it says of them is what the last of these said. *)
Definition switch_done (ch : Z) (on : bool) (acts : list Act) (r : result Json PowerRefused) : Prop :=
  (acts = [] /\ exists why, r = Err (without_after why)) \/
  exists reads, acts = Switched ch on :: reads /\ quiet 20 reads /\
    match r with
    | Ok after => last_read reads after /\ outp_at after ch = bit on
    | Err e => forall after, refused_after e = Some after -> last_read reads after
    end.

Lemma watch_switch ch on : watch_sent (Confirmed ch) (outp_set on +:+ LF) = Some (Confirmed ch, [Switched ch on]).
Proof. by destruct on. Qed.

Lemma follows_switch sel ch on (Q : Selection -> list Act -> result Json PowerRefused -> Prop) :
  (forall s acts r, switch_done ch on acts r -> Q s acts r) -> follows sel (switch debug ch on) Q.
Proof.
  intros HQ. eapply follows_bind.
  { apply (follows_select _ _ (fun s acts r => acts = [] /\ match r with Ok _ => s = Confirmed ch | _ => True end)); done. }
  intros s acts [[] | e] [-> Hs]; [| apply follows_ret; apply HQ; left; split; [done | by eexists]].
  subst s. eapply follows_bind; [apply (follows_send _ _ _ _ (fun s acts _ => acts = [Switched ch on]) (watch_switch ch on)); done |].
  intros s acts r ->. destruct r as [[] | e]; cbn [app].
  2: { apply follows_ret. apply HQ. right. exists []. split; [done |]. split; [split; [done | cbn; lia] | done]. }
  eapply follows_try.
  - apply (follows_check_outputs 9 _ _ _ _ _ (fun s acts r => quiet 20 acts /\ match r with
      | Ok j => last_read acts j | Err e => refused_after e = None end)); done.
  - intros s1 reads e [Hq He]. apply HQ. right. exists reads. split_and!; [done | done |]. intros after. congruence.
  - intros s1 reads after [Hq Hl]. apply follows_verdict.
    + intros s2 why. rewrite app_nil_r. apply HQ. right. exists reads. split_and!; [done | done |]. by intros j [= <-].
    + intros s2 Hon. rewrite app_nil_r. apply HQ. right. by exists reads.
Qed.

(** What a power command does, whatever the supply answers. *)
Definition power_done (node : Z) (on : bool) (acts : list Act) (r : result PowerOutcome DriverError) : Prop :=
  if in_range node then
    (quiet 2 acts /\ exists e, r = Err e) \/
    exists reads acts' before res, acts = reads ++ acts' /\ outputs_read reads before /\
      switch_done node on acts' res /\ r = Ok (mkOutcome before res)
  else acts = [] /\ exists why, r = Err (Protocol why).

Lemma hmp_power_done sel node on : follows sel (hmp_set_power debug node on) (fun _ => power_done node on).
Proof.
  unfold hmp_set_power, power_done. destruct (in_range node); cbn [negb]; [| apply follows_ret; by split; [| eexists]].
  eapply follows_try.
  - apply (follows_read_outputs _ (fun s acts r => match r with Err _ => quiet 2 acts | Ok j => outputs_read acts j end)); done.
  - intros s acts e Hq. left. split; [done | by exists e].
  - intros s reads before Hr. eapply follows_bind; [apply (follows_switch _ _ _ (fun s acts r => switch_done node on acts r)); done |].
    intros s' acts res Hsw. apply follows_ret. right. exists reads, acts, before, res. rewrite app_nil_r. by split_and!.
Qed.

(** Whatever the supply answers, a power command for a channel that exists reads
    both outputs first, and sends ON or OFF at most once, to that channel and only
    while the supply has confirmed it is the one selected; then it reads both outputs
    back at most ten times.  Every output it reports, before and after, is what
    replies showed while that output's channel was confirmed, success only when the
    last of them shows the channel as asked; for a channel that does not exist
    nothing is sent. *)
Theorem hmp_power_honest (sel : Selection) (node : Z) (on : bool) :
  follows sel (hmp_set_power debug node on) (fun _ => power_done node on).
Proof. apply hmp_power_done. Qed.

(** ** The other operations *)

(** The samples of a channel, each from the reply to its own query. *)
Definition channel_read (d : HmpDriver) (now ch : Z) (acts : list Act) (ss : list Sample) : Prop :=
  exists rv ri ro rvs ris volt curr outp vset iset,
    acts = [Read ch (meas_volt +:+ LF) rv; Read ch (meas_curr +:+ LF) ri; Read ch (outp_query +:+ LF) ro;
            Read ch (volt_query +:+ LF) rvs; Read ch (curr_query +:+ LF) ris] /\
    parse_f64 debug rv = Ok volt /\ parse_f64 debug ri = Ok curr /\ parse_bool01 debug ro = Ok outp /\
    parse_f64 debug rvs = Ok vset /\ parse_f64 debug ris = Ok iset /\
    ss = [mkSample (hmp_device d) (Some ch) "volt" volt "V" now false;
          mkSample (hmp_device d) (Some ch) "curr" curr "A" now false;
          mkSample (hmp_device d) (Some ch) "outp" (f64_of_Z (if outp then 1 else 0)) "on" now false;
          mkSample (hmp_device d) (Some ch) "vset" vset "V" now false;
          mkSample (hmp_device d) (Some ch) "iset" iset "A" now false].

(** One more query of the channel, among others. *)
Lemma follows_query_then {A B} ch q (parse : string -> result A HmpError) (k : A -> Io W (result B DriverError))
    (Q : Selection -> list Act -> result B DriverError -> Prop) :
  In q QUERIES ->
  (forall s acts e, quiet 1 acts -> Q s acts (Err e)) ->
  (forall reply a, parse reply = Ok a ->
     follows (Confirmed ch) (k a) (fun s acts b => Q s ([Read ch (q +:+ LF) reply] ++ acts) b)) ->
  follows (Confirmed ch) (io_try (ask q parse) k) Q.
Proof.
  intros Hq He Hk. eapply follows_try.
  - apply (follows_query _ _ _ (fun s acts r => match r with
      | Err _ => quiet 1 acts
      | Ok a => s = Confirmed ch /\ exists reply, parse reply = Ok a /\ acts = [Read ch (q +:+ LF) reply] end) Hq); [done |].
    intros reply a Hp. split; [done | by exists reply].
  - intros s acts e. apply He.
  - intros s acts a [-> (reply & Hp & ->)]. by apply Hk.
Qed.

Lemma quiet_le n m acts : (n <= m)%nat -> quiet n acts -> quiet m acts.
Proof. intros Hn [H1 H2]. split; [done | lia]. Qed.

Lemma quiet_read n ch q reply acts : quiet n acts -> quiet (S n) ([Read ch q reply] ++ acts).
Proof. intros [H1 H2]. split; [done | cbn; lia]. Qed.

Lemma follows_one_channel d now ch sel (Q : Selection -> list Act -> result (list Sample) DriverError -> Prop) :
  (forall s acts e, quiet 5 acts -> Q s acts (Err e)) ->
  (forall s acts ss, channel_read d now ch acts ss -> Q s acts (Ok ss)) ->
  follows sel (one_channel debug d now ch) Q.
Proof.
  intros He Ho. eapply follows_try.
  { apply (follows_select _ _ (fun s acts r => acts = [] /\ match r with Ok _ => s = Confirmed ch | _ => True end)); done. }
  { intros s acts e [-> _]. apply He. split; [done | cbn; lia]. }
  intros s acts [] [-> ->]. cbn [app].
  do 5 (apply follows_query_then; [cbn; tauto |
    intros s acts e Hq; apply He; repeat apply quiet_read; eapply quiet_le; [| exact Hq]; lia |]; intros ? ? ?).
  apply follows_ret. apply Ho. eexists _, _, _, _, _, _, _, _, _, _. split_and!; [reflexivity | eassumption .. | reflexivity].
Qed.

(** The samples of a poll: channel 1's, then channel 2's. *)
Definition poll_read (d : HmpDriver) (now : Z) (acts : list Act) (ss : list Sample) : Prop :=
  exists acts1 acts2 ss1 ss2, acts = acts1 ++ acts2 /\ ss = ss1 ++ ss2 /\
    channel_read d now MIN_CH acts1 ss1 /\ channel_read d now MAX_CH acts2 ss2.

Lemma channel_read_quiet d now ch acts ss : channel_read d now ch acts ss -> quiet 5 acts.
Proof. intros (rv & ri & ro & rvs & ris & ? & ? & ? & ? & ? & -> & _). split; [done | cbn; lia]. Qed.

(** A poll that answers reports of each channel what replies said while that channel
    was confirmed. *)
Lemma hmp_poll_read d now sel :
  follows sel (hmp_poll debug now d) (fun _ acts r => quiet 10 acts /\
    match r with Ok ss => poll_read d now acts ss | Err _ => True end).
Proof.
  unfold hmp_poll, CHANNELS. cbn [all_channels]. eapply follows_try.
  - eapply (follows_try _ _ _ (fun s acts r => match r with Err _ => quiet 5 acts | Ok ss => channel_read d now MIN_CH acts ss end)
      (fun s acts r => quiet 10 acts /\ match r with Ok ss => poll_read d now acts ss | Err _ => True end)).
    + by apply follows_one_channel.
    + intros s acts e Hq. split; [| done]. eapply quiet_le; [| exact Hq]. lia.
    + intros s acts1 ss1 H1. pose proof (channel_read_quiet _ _ _ _ _ H1) as Hq1. eapply follows_try.
      * by apply (follows_one_channel _ _ _ _ (fun s acts r => match r with Err _ => quiet 5 acts | Ok ss => channel_read d now MAX_CH acts ss end)).
      * intros s2 acts2 e Hq2. split; [| done]. by apply (quiet_acts_app 5 5).
      * intros s2 acts2 ss2 H2. apply follows_ret. rewrite app_nil_r. split; [| by exists acts1, acts2, ss1, ss2].
        apply (quiet_acts_app 5 5); [done | exact (channel_read_quiet _ _ _ _ _ H2)].
  - intros s acts e [Hq _]. by split.
  - intros s acts ss [Hq Hss]. eapply follows_try; [apply follows_other; [by right |] | |].
    + instantiate (1 := fun s acts r => acts = []). done.
    + intros s' acts' e ->. rewrite app_nil_r. by split.
    + intros s' acts' [code message] ->. apply follows_ret. rewrite !app_nil_r. split; [done |]. by destruct (negb (code =? 0)).
Qed.

Lemma hmp_ident_quiet d sel : follows sel (hmp_ident debug d) (fun _ acts _ => acts = []).
Proof.
  eapply follows_try; [apply follows_other; [by left |]; instantiate (1 := fun s acts r => acts = []); done | done |].
  intros s acts parsed ->. destruct (_ && _); by apply follows_ret.
Qed.

(** ** Sessions *)

Definition asked_of (op : Op) : option (Z * bool) :=
  match op with
  | OpPower node on => Some (node, on)
  | _ => None
  end.

(** What was switched is what was asked, of channels that exist. *)
Definition as_asked (ops : list Op) (acts : list Act) : Prop :=
  switches acts `sublist_of` omap asked_of ops /\ Forall (fun '(ch, _) => in_range ch = true) (switches acts).

Lemma power_switches node on acts r : power_done node on acts r ->
  switches acts = [] \/ (in_range node = true /\ switches acts = [(node, on)]).
Proof.
  unfold power_done. destruct (in_range node); [| intros [-> _]; by left].
  intros [[[Hq _] _] | (reads & acts' & before & res & -> & Hr & Hsw & _)]; [by left |].
  apply outputs_read_quiet in Hr as [Hr _]. rewrite switches_app, Hr.
  destruct Hsw as [[-> _] | (reads' & -> & [Hq _] & _)]; [by left | right; split; [done |]].
  change (switches (Switched node on :: reads')) with ((node, on) :: switches reads'). by rewrite Hq.
Qed.

Lemma follows_operate op d sel : follows sel (operate (hmp debug) op d) (fun _ acts d' => as_asked [op] acts /\ d' = d).
Proof.
  destruct op as [| now | node on]; cbn [operate ident poll set_power hmp].
  - eapply follows_bind; [eapply follows_bind; [apply hmp_ident_quiet |] |].
    + intros s acts r ->. apply follows_ret. instantiate (1 := fun s acts r => acts = [] /\ snd r = d). done.
    + intros s acts r [-> ->]. apply follows_ret. by repeat constructor.
  - eapply follows_bind; [eapply follows_bind; [apply hmp_poll_read |] |].
    + intros s acts r [[Hq _] _]. apply follows_ret. rewrite app_nil_r.
      instantiate (1 := fun s acts r => switches acts = [] /\ snd r = d). done.
    + intros s acts r [Hq ->]. apply follows_ret. rewrite app_nil_r. unfold as_asked. rewrite Hq. by repeat constructor.
  - eapply follows_bind; [eapply follows_bind; [apply hmp_power_done |] |].
    + intros s acts r Hp. apply follows_ret. rewrite app_nil_r. apply power_switches in Hp.
      instantiate (1 := fun s acts r => (switches acts = [] \/ (in_range node = true /\ switches acts = [(node, on)])) /\ snd r = d). done.
    + intros s acts r [Hs ->]. apply follows_ret. rewrite app_nil_r. split; [| done]. unfold as_asked.
      destruct Hs as [-> | [Hr ->]]; [split; [apply sublist_nil_l | constructor] |].
      split; [done | by constructor].
Qed.

Lemma follows_session ops d sel : follows sel (session (hmp debug) ops d) (fun _ acts _ => as_asked ops acts).
Proof.
  revert d sel. induction ops as [| op ops IH]; intros d sel; cbn [session]; [apply follows_ret; by repeat constructor |].
  eapply follows_bind; [apply follows_operate |]. intros s acts d' [[Hs Hr] ->].
  eapply follows_mono; [apply IH |]. intros s' acts' _ [Hs' Hr']. unfold as_asked. rewrite switches_app.
  split; [| by apply Forall_app]. change (op :: ops) with ([op] ++ ops). rewrite omap_app. by apply sublist_app.
Qed.

(** Whatever the supply answers, in a session of any operations every line that
    means the selected channel - a measurement, a set value, an output, ON or OFF -
    goes out only while the supply has confirmed, in answer to [INST:NSEL?], the
    channel it was last told to select; and what is switched is, in order, among what
    was asked for, of channels 1 and 2 only. *)
Theorem hmp_session_safe (ops : list Op) (d : HmpDriver) (sel : Selection) :
  follows sel (session (hmp debug) ops d) (fun _ acts _ => as_asked ops acts).
Proof. apply follows_session. Qed.

(** ** What the power commands rely on *)

Definition is_switch (line : string) : bool := bool_decide (switch_of line <> None).
Definition switch_line (_ : Z) (on : bool) : string := outp_set on +:+ LF.

Lemma switch_of_line line on : switch_of line = Some on -> line = outp_set on +:+ LF.
Proof.
  unfold switch_of. intros H. apply find_some in H as [_ H]. by apply bool_decide_eq_true in H.
Qed.

Lemma nsel_not_switch line ch : nsel_of line = Some ch -> is_switch line = false.
Proof.
  unfold nsel_of. intros H. apply find_some in H as [Hin H]. apply bool_decide_eq_true in H as ->.
  cbn in Hin. by repeat destruct Hin as [<- | Hin].
Qed.

Lemma watched_switches sel evs s acts : watch sel evs = Some (s, acts) ->
  List.filter is_switch (sent evs) = map (fun '(ch, on) => switch_line ch on) (switches acts).
Proof.
  revert sel s acts. induction evs as [| ev evs IH]; intros sel s acts; cbn [watch]; [by intros [= _ <-] |].
  destruct (watch_step sel ev) as [[s1 a1] |] eqn:E1; [| done].
  destruct (watch s1 evs) as [[s2 a2] |] eqn:E2; [| done]. intros [= _ <-]. apply IH in E2. rewrite switches_app, map_app.
  destruct ev as [| line | raw | ms]; cbn in E1.
  - injection E1 as _ <-. exact E2.
  - change (sent (Sent line :: evs)) with (line :: sent evs). cbn [List.filter]. rewrite <- E2. clear E2 IH.
    unfold watch_sent in E1. destruct (nsel_of line) as [ch |] eqn:En.
    { injection E1 as _ <-. by rewrite (nsel_not_switch line ch En). }
    case_bool_decide as Hq. { subst line. by injection E1 as _ <-. }
    unfold is_switch. destruct (switch_of line) as [on |] eqn:Esw.
    + destruct (confirmed sel); [| done]. injection E1 as _ <-. rewrite bool_decide_eq_true_2 by done.
      by rewrite (switch_of_line line on Esw).
    + rewrite bool_decide_eq_false_2 by auto. destruct (is_query line); [destruct (confirmed sel); [| done] |]; by injection E1 as _ <-.
  - injection E1 as E1. unfold watch_got in E1. destruct sel; injection E1 as _ <-; exact E2.
  - injection E1 as _ <-. exact E2.
Qed.

Lemma law_of {A} sel (m : Io W (A * HmpDriver)) (P : list (Z * bool) -> Prop) :
  follows sel m (fun _ acts _ => P (switches acts)) ->
  always m (fun evs r => exists l, List.filter is_switch (sent evs) = map (fun '(ch, on) => switch_line ch on) l /\ P l).
Proof.
  intros H. eapply always_mono; [exact H |]. intros evs r (s & acts & Hw & HP').
  exists (switches acts). split; [by eapply watched_switches | done].
Qed.

#[export] Instance hmp_switches :
  SwitchLaws (hmp debug (W := W)) is_switch switch_line (fun node => in_range node = true) (fun _ => True).
Proof.
  constructor.
  - intros d _. eapply always_mono; [apply (law_of Unselected _ (fun l => l = [])) |].
    + eapply follows_bind; [apply hmp_ident_quiet |]. intros s acts r ->. apply follows_ret. done.
    + by intros evs r (l & -> & ->).
  - intros now d _. eapply always_mono; [apply (law_of Unselected _ (fun l => l = [])) |].
    + eapply follows_bind; [apply hmp_poll_read |]. intros s acts r [[Hq _] _]. apply follows_ret. by rewrite app_nil_r.
    + by intros evs r (l & -> & ->).
  - intros node on d _. eapply always_mono; [apply (law_of Unselected _ (fun l => l = [] \/ (in_range node = true /\ l = [(node, on)]))) |].
    + eapply follows_bind; [apply hmp_power_done |]. intros s acts r Hp. apply follows_ret. rewrite app_nil_r.
      exact (power_switches _ _ _ _ Hp).
    + intros evs r (l & -> & [-> | [Hr ->]]); (split; [| done]); [by left | by right].
Qed.
End Follows.

(** ** A supply to run it on *)

(** It answers as the manual says; ON turns the selected channel's output on. *)
Record Supply : Type := mkSupply {
  chosen : Z;
  outs : Z -> bool;
  outbox : bytes;
}.

Definition answer (line : string) (w : Supply) : Supply :=
  let say r := mkSupply (chosen w) (outs w) (text_bytes (r +:+ LF)) in
  match nsel_of line with
  | Some ch => mkSupply ch (outs w) []
  | None =>
      match switch_of line with
      | Some on => mkSupply (chosen w) (fun ch => if ch =? chosen w then on else outs w ch) []
      | None =>
          if bool_decide (line = nsel_query +:+ LF) then say (dec (chosen w))
          else if bool_decide (line = outp_query +:+ LF) then say (if outs w (chosen w) then "1" else "0")
          else if bool_decide (line = syst_err +:+ LF) then say "0, no error"
          else if bool_decide (line = idn +:+ LF) then say "HAMEG,HMP2020,123,1.0"
          else say (if chosen w =? 1 then "5.000" else "12.500")
      end
  end.

#[local] Instance supply_port : Port Supply := {
  port_write := fun line w => (Ok tt, answer line w);
  port_read := fun w => match outbox w with
    | [] => (ReadFails (mkIoError TimedOut "timed out"), w)
    | b :: rest => (ReadByte b, mkSupply (chosen w) (outs w) rest)
    end;
}.

Definition bare (s : string) : string := s.
Definition both_off : Supply := mkSupply 1 (fun _ => false) [].

(** Channel 2 is switched on: its output alone changes, and the answer says so. *)
Example second_on :
  match hmp_set_power bare 2 true both_off with
  | (evs, Ok o, w) =>
      before o = JObj [("outp", JObj [("1", JNum 0); ("2", JNum 0)])] /\
      outcome o = Ok (JObj [("outp", JObj [("1", JNum 0); ("2", JNum 1)])]) /\
      List.filter is_switch (sent evs) = ["OUTP ON" +:+ LF] /\ (outs w 1, outs w 2) = (false, true)
  | _ => False
  end.
Proof. by vm_compute. Qed.
