(* ===== verification/Bronkhorst.v ===== *)
(** * Bronkhorst: the gas flow controllers

    Models [src/slowctl/link.rs] and [src/slowctl/bronkhorst.rs]: the ProPar link
    with its statistics, the scan of the bus and the poll.  The codec is [ProPar]; a
    reply that makes it panic ends the thread of the device, so the operations
    return [rust] values.  [show_f32] is the printing of a single-precision float.
    How the serial port is set up is not modelled. *)

From Stdlib Require Import Ascii SpecFloat.
From stdpp Require Import gmap pretty strings.
From S2P Require Import Prelude Bytes Utf8 Decimal Text Float Command ProPar Slowctl.
Open Scope list_scope.
Open Scope Z_scope.

(** ** Errors as they are printed *)

(** [{:#04x}] of a byte. *)
Definition hex04 (n : Z) : string :=
  let d x := ascii_of_N (Z.to_N (if x <? 10 then 48 + x else 87 + x)) in
  "0x" +:+ String (d (n / 16)) (String (d (n mod 16)) EmptyString).

Definition propar_error_text (e : ProParError) : string :=
  match e with
  | ProPar.Protocol code => "propar protocol error " +:+ hex04 code +:+ ": " +:+ protocol_error_message code
  | Status code => "propar status error " +:+ hex04 code +:+ ": " +:+ status_message code
  | Framing => "propar framing error: missing ':' prefix or CRLF terminator"
  | OddHexDigits => "propar hex payload has an odd digit count"
  | InvalidHex => "propar payload contains a non-hex character"
  | LengthMismatch declared actual =>
      "propar length field declared " +:+ dec declared +:+ " bytes but " +:+ dec actual +:+ " were present"
  | NodeMismatch expected got =>
      "propar reply node " +:+ hex04 got +:+ " does not match requested node " +:+ hex04 expected
  | UnexpectedCommand command => "propar reply has unexpected command byte " +:+ hex04 command
  | Truncated => "propar reply payload is shorter than the requested item list"
  | TypeMismatch process param =>
      "propar reply type tag for process " +:+ dec process +:+ " parameter " +:+ dec param +:+ " does not match the request"
  end.

(** [f64::from] of a single-precision float given by its bits: exact. *)
Definition f64_of_f32 (bits : Z) : f64 :=
  let negative := Z.testbit bits 31 in
  let e := Z.land (Z.shiftr bits 23) 255 in
  let m := Z.land bits (2 ^ 23 - 1) in
  let signed m := if negative then - m else m in
  if e =? 255 then if m =? 0 then S754_infinity negative else S754_nan
  else if e =? 0 then binary_normalize PREC EMAX (signed m) (-149) negative
  else binary_normalize PREC EMAX (signed (m + 2 ^ 23)) (e - 150) negative.

Example f64_of_f32_values :
  map f64_of_f32 [0x3F800000; 0xC2C80000; 0x00000001; 0x80000000; 0x7F800000; 0x7FC00000; 0x3DCCCCCD] =
  [f64_of_Z 1; f64_of_Z (-100); S754_finite false 4503599627370496 (-201); S754_zero true; S754_infinity false;
   S754_nan; S754_finite false 7205759511166976 (-56)].
Proof. by vm_compute. Qed.

(** ** The link *)

Record LinkStats : Type := mkStats {
  stat_ok : Z;
  stat_timeout : Z;
  stat_malformed : Z;
  stat_mismatch : Z;
}.
#[export] Instance eta_LinkStats : Eta LinkStats := fun s =>
  mkStats (stat_ok s) (stat_timeout s) (stat_malformed s) (stat_mismatch s).

Definition stats_default : LinkStats := mkStats 0 0 0 0.

Inductive LinkError : Type :=
| LinkIo (e : IoError)
| LinkProtocol (e : ProParError).

Definition count_reply (r : result Reply ProParError) (s : LinkStats) : LinkStats :=
  match r with
  | Ok _ => s <| stat_ok ::= incr |>
  | Err (NodeMismatch _ _) => s <| stat_mismatch ::= incr |>
  | Err _ => s <| stat_malformed ::= incr |>
  end.

(** What ends the reading of a reply is counted, but for the other I/O errors. *)
Inductive ReplyEnd : Type :=
| EndEof
| EndTooLong
| EndFails (e : IoError).

Definition reply_end_error (e : ReplyEnd) : LinkError :=
  match e with
  | EndEof => LinkIo (mkIoError UnexpectedEof "propar: EOF before CRLF")
  | EndTooLong => LinkProtocol Framing
  | EndFails e => LinkIo e
  end.

Definition count_end (e : ReplyEnd) (s : LinkStats) : LinkStats :=
  match e with
  | EndEof => s <| stat_timeout ::= incr |>
  | EndTooLong => s <| stat_malformed ::= incr |>
  | EndFails e =>
      match io_kind e with
      | WouldBlock | TimedOut => s <| stat_timeout ::= incr |>
      | _ => s
      end
  end.

(** What an operation returns, unless it panics. *)
Definition Panics (W A : Type) : Type := Io W (rust A).

Definition may_bind {W A B : Type} (m : Panics W A) (k : A -> Panics W B) : Panics W B :=
  let@ r := m in
  match r with
  | Val a => k a
  | Panic => io_ret Panic
  | OutOfFuel => io_ret OutOfFuel
  end.
Notation "'let@!' x := m 'in' k" := (may_bind m (fun x => k))
  (at level 10, x pattern, m at level 100, k at level 200) : rust_scope.

Definition may_ret {W A : Type} (a : A) : Panics W A := io_ret (Val a).

Section Devices.
Context {W : Type} `{Port W} (debug : string -> string) (show_f32 : Z -> string).

(** What is sent is shown as text. *)
Definition request_line (request : Request) : string := bytes_text (to_ascii_line request).

Definition exchange (request : Request) (s : LinkStats) : Panics W (result Reply LinkError * LinkStats) :=
  let@ w := write_all (request_line request) in
  match w with
  | Err e => may_ret (Err (LinkIo e), s)
  | Ok _ =>
      let@ r := read_reply REPLY_MAX [13; 10] EndEof EndTooLong EndFails [] in
      match r with
      | Err e => may_ret (Err (reply_end_error e), count_end e s)
      | Ok buf =>
          io_ret (let! r := parse_reply (from_utf8_lossy buf) request in
                  Val (match r with Ok reply => Ok reply | Err e => Err (LinkProtocol e) end, count_reply r s))
      end
  end.

(** The link's own scan, which the driver does without. *)
Record LinkIdent : Type := mkLinkIdent {
  identification_number : Z;
  link_model : string;
  link_serial : string;
  link_firmware : string;
  link_user_tag : string;
}.

Definition ident_from_values (vs : list Value) : option LinkIdent :=
  match vs with
  | [VU8 n; VStr model; VStr serial; VStr firmware; VStr user_tag] =>
      Some (mkLinkIdent n (bytes_text model) (bytes_text serial) (bytes_text firmware) (bytes_text user_tag))
  | _ => None
  end.

Fixpoint link_scan (nodes : list Z) (found : list (Z * LinkIdent)) (s : LinkStats)
    : Panics W (list (Z * LinkIdent) * LinkStats) :=
  match nodes with
  | [] => may_ret (found, s)
  | node :: nodes =>
      let@! (reply, s) := exchange (ident_request node) s in
      match reply with
      | Err _ => link_scan nodes found s
      | Ok reply =>
          match ident_from_values (values reply) with
          | Some ident => link_scan nodes (found ++ [(node, ident)]) s
          | None => link_scan nodes found (s <| stat_malformed ::= incr |>)
          end
      end
  end.

(** ** The driver *)

Record NodeInfo : Type := mkNode {
  info_node : Z;
  info_unit : string;
  controller : bool;
}.

Record BronkhorstDriver : Type := mkBronkhorst {
  bk_device : string;
  stats : LinkStats;
  bk_nodes : NodesSpec;
  bk_serial : string;
  found : list NodeInfo;
}.
#[export] Instance eta_BronkhorstDriver : Eta BronkhorstDriver := fun d =>
  mkBronkhorst (bk_device d) (stats d) (bk_nodes d) (bk_serial d) (found d).

Definition bronkhorst_new (device : string) (nodes : NodesSpec) (expect_serial : string) : BronkhorstDriver :=
  mkBronkhorst device stats_default nodes expect_serial [].

Definition measure_request_for (node : Z) (controller : bool) : Request :=
  mkRequest node ([mkReadItem 33 0 TF32; mkReadItem 33 3 TF32; mkReadItem 33 7 TF32; mkReadItem 1 20 TU8] ++
                  (if controller then [mkReadItem 114 1 TU32] else [])).

Definition driver_error (e : LinkError) : DriverError :=
  match e with
  | LinkIo e =>
      match io_kind e with
      | WouldBlock | TimedOut | UnexpectedEof => DriverTimeout
      | _ => DriverIo e
      end
  | LinkProtocol e => Protocol (propar_error_text e)
  end.

Definition shape_error (node : Z) (what : string) : DriverError :=
  Protocol ("node " +:+ dec node +:+ ": " +:+ what +:+ " reply does not have the requested shape").

Definition ident_fields (identification : Z) (model serial firmware user_tag : bytes) (capacity_100 : Z)
    (unit fluid : bytes) (sensor_type : Z) : gmap string string :=
  list_to_map [("identification_number", dec identification); ("model", bytes_text model); ("serial", bytes_text serial);
    ("firmware", bytes_text firmware); ("user_tag", bytes_text user_tag); ("capacity_100", show_f32 capacity_100);
    ("capacity_unit", bytes_text unit); ("fluid_name", bytes_text fluid); ("sensor_type", dec sensor_type)].

(** One node of a scan that answered its identification: what it is, or what ends
    the scan. *)
Definition identify_node (d : BronkhorstDriver) (node : Z) (reply : Reply) (s : LinkStats)
    : Panics W (result (Ident * NodeInfo) DriverError * LinkStats) :=
  match values reply with
  | [VU8 identification; VStr model; VStr serial; VStr firmware; VStr user_tag] =>
      if negb (bool_decide (bk_serial d = EmptyString)) && negb (bool_decide (bk_serial d = bytes_text serial)) then
        may_ret (Err (Identity (bk_serial d) (bytes_text serial)), s)
      else
        let@! (capacity, s) := exchange (capacity_request node) s in
        may_ret (match capacity with
                 | Err e => Err (driver_error e)
                 | Ok capacity =>
                     match values capacity with
                     | [VF32 capacity_100; VStr unit; VStr fluid; VU8 sensor_type] =>
                         Ok (mkIdent (bk_device d) (Some node)
                               (ident_fields identification model serial firmware user_tag capacity_100 unit fluid sensor_type),
                             mkNode node (bytes_text unit) (Z.land sensor_type 128 =? 0))
                     | _ => Err (shape_error node "capacity")
                     end
                 end, s)
  | _ => may_ret (Err (shape_error node "ident"), s)
  end.

(** The loop over the nodes: one that does not answer is passed over. *)
Fixpoint scan (d : BronkhorstDriver) (nodes : list Z) (idents : list Ident) (found : list NodeInfo) (s : LinkStats)
    : Panics W (result (list Ident * list NodeInfo) DriverError * LinkStats) :=
  match nodes with
  | [] => may_ret (Ok (idents, found), s)
  | node :: nodes =>
      let@! (reply, s) := exchange (ident_request node) s in
      match reply with
      | Err _ => scan d nodes idents found s
      | Ok reply =>
          let@! (r, s) := identify_node d node reply s in
          match r with
          | Err e => may_ret (Err e, s)
          | Ok (ident, info) => scan d nodes (idents ++ [ident]) (found ++ [info]) s
          end
      end
  end.

Definition bk_ident (d : BronkhorstDriver) : Panics W (result (list Ident) DriverError * BronkhorstDriver) :=
  match resolve debug (bk_nodes d) with
  | Err why => may_ret (Err (Protocol why), d)
  | Ok nodes =>
      let@! (r, s) := scan d nodes [] [] (stats d) in
      may_ret (match r with
               | Err e => (Err e, d <| stats := s |>)
               | Ok (idents, found_) => (Ok idents, d <| stats := s |> <| found := found_ |>)
               end)
  end.

(** What one measure reply says: the first four values, and a fifth if there is one. *)
Definition measure_samples (d : BronkhorstDriver) (now : Z) (info : NodeInfo) (reply : Reply)
    : result (list Sample) DriverError :=
  let node := info_node info in
  match take 4 (values reply), get (values reply) 4 with
  | [VF32 fmeasure; VF32 fsetpoint; VF32 temperature; VU8 alarm_info], valve =>
      let push param value unit := mkSample (bk_device d) (Some node) param value unit now (negb (alarm_info =? 0)) in
      let four := [push "fmeasure" (f64_of_f32 fmeasure) (info_unit info);
                   push "fsetpoint" (f64_of_f32 fsetpoint) (info_unit info);
                   push "temperature" (f64_of_f32 temperature) "degC";
                   push "alarm_info" (f64_of_Z alarm_info) "bitmask"] in
      match valve with
      | Some (VU32 valve_output) => Ok (four ++ [push "valve_output" (f64_of_Z valve_output) "raw"])
      | Some _ => Err (shape_error node "valve output")
      | None => Ok four
      end
  | _, _ => Err (shape_error node "measure")
  end.

Fixpoint poll_nodes (d : BronkhorstDriver) (now : Z) (infos : list NodeInfo) (samples : list Sample) (s : LinkStats)
    : Panics W (result (list Sample) DriverError * LinkStats) :=
  match infos with
  | [] => may_ret (Ok samples, s)
  | info :: infos =>
      let@! (reply, s) := exchange (measure_request_for (info_node info) (controller info)) s in
      match reply with
      | Err e => may_ret (Err (driver_error e), s)
      | Ok reply =>
          match measure_samples d now info reply with
          | Err e => may_ret (Err e, s)
          | Ok here => poll_nodes d now infos (samples ++ here) s
          end
      end
  end.

Definition bk_poll (now : Z) (d : BronkhorstDriver) : Panics W (result (list Sample) DriverError * BronkhorstDriver) :=
  let@! (r, s) := poll_nodes d now (found d) [] (stats d) in may_ret (r, d <| stats := s |>).

(** The trait's own [set_power]: there is nothing to switch. *)
Definition bk_set_power (node : Z) (on : bool) (d : BronkhorstDriver)
    : Panics W (result PowerOutcome DriverError * BronkhorstDriver) := may_ret (Err Unsupported, d).
End Devices.

(** ** What goes over the port *)

Definition total (s : LinkStats) : Z := stat_ok s + stat_timeout s + stat_malformed s + stat_mismatch s.

Definition ZERO_LENGTH : string := ":00" +:+ String "013"%char (String "010"%char EmptyString).

Section Traces.
Context {W : Type} `{HP : Port W} (debug : string -> string) (show_f32 : Z -> string).

(** An operation that does not panic does [P]; one that does has got the line of a
    zero length last. *)
Definition settles {A : Type} (m : Panics W A) (P : list PortEvent -> A -> Prop) : Prop :=
  always m (fun evs r => match r with
    | Val a => P evs a
    | Panic => list.last (got evs) = Some ZERO_LENGTH
    | OutOfFuel => False
    end).

Lemma settles_ret {A} (a : A) (P : list PortEvent -> A -> Prop) : P [] a -> settles (may_ret a) P.
Proof. intros HP'. by apply always_ret. Qed.

Lemma settles_bind {A B} (m : Panics W A) (k : A -> Panics W B) P (Q : list PortEvent -> B -> Prop) :
  settles m P -> (forall evs a, P evs a -> settles (k a) (fun evs' b => Q (evs ++ evs') b)) -> settles (may_bind m k) Q.
Proof.
  intros Hm Hk. eapply always_bind; [exact Hm |]. intros evs [a | |]; [| | done].
  - intros HP'. eapply always_mono; [by apply (Hk evs a) |]. intros evs' [b | |]; [done | | done].
    intros Hl. rewrite got_app, last_app. by rewrite Hl.
  - intros Hl. apply always_ret. by rewrite app_nil_r.
Qed.

Lemma settles_mono {A} (m : Panics W A) (P Q : list PortEvent -> A -> Prop) :
  settles m P -> (forall evs a, P evs a -> Q evs a) -> settles m Q.
Proof. intros Hm HPQ. eapply always_mono; [exact Hm |]. intros evs [a | |]; auto. Qed.

(** One exchange: one request goes out; a reply that is taken is the reply to it,
    from the node that was asked; the statistics count every reply, once, and every
    failure but some of the port's. *)
Definition exchanged (request : Request) (s : LinkStats) (evs : list PortEvent)
    (r : result Reply LinkError * LinkStats) : Prop :=
  sent evs = [request_line request] /\
  match r with
  | (Ok reply, s') => s' = s <| stat_ok ::= incr |> /\
      exists line, got evs = [bytes_text line] /\ parse_reply line request = Val (Ok reply)
  | (Err (LinkProtocol e), s') => stat_ok s' = stat_ok s /\ total s' = total s + 1 /\
      (got evs = [] /\ e = Framing \/ exists line, got evs = [bytes_text line] /\ parse_reply line request = Val (Err e))
  | (Err (LinkIo e), s') => (s' = s \/ s' = s <| stat_timeout ::= incr |>) /\ got evs = []
  end.

Lemma settles_exchange request s : settles (exchange request s) (exchanged request s).
Proof.
  unfold exchange. eapply always_bind; [apply (always_write _ (fun evs _ => evs = [Sent (request_line request)])); done |].
  intros evs [[] | e] ->; [| apply settles_ret; split; [done | split; [by left | done]]].
  eapply always_bind.
  - apply (always_read_reply _ _ _ _ _ _ (fun evs r => match r with
      | Ok line => evs = [Got (bytes_text (from_utf8_lossy line))] | Err _ => evs = [] end)); done.
  - intros evs [buf | e] ->.
    + destruct (parse_reply_cases (from_utf8_lossy buf) request) as (Hp & Hf & _). apply always_ret.
      destruct (parse_reply (from_utf8_lossy buf) request) as [r | |] eqn:E; cbn [rust_bind]; [| | done].
      * split; [done |]. destruct r as [reply | e]; [split; [done |]; by exists (from_utf8_lossy buf) |].
        unfold total. split_and!; [by destruct e | destruct e; cbn; lia | right; by exists (from_utf8_lossy buf)].
      * by rewrite (proj1 Hp eq_refl).
    + apply settles_ret. split; [done |]. destruct e as [| | e]; cbn; [split; [by right | done] | unfold total; cbn; split_and!; [done | lia | by left] |].
      split; [| done]. destruct (io_kind e); auto.
Qed.

(** ** A poll *)

(** What a node is asked: process 33, parameters 0, 3 and 7 (flow, set point and
    temperature), the alarm byte at 1, 20 and, of a controller, the valve at 114, 1. *)
Definition asks (info : NodeInfo) : Request :=
  mkRequest (info_node info)
    (if controller info
     then [mkReadItem 33 0 TF32; mkReadItem 33 3 TF32; mkReadItem 33 7 TF32; mkReadItem 1 20 TU8; mkReadItem 114 1 TU32]
     else [mkReadItem 33 0 TF32; mkReadItem 33 3 TF32; mkReadItem 33 7 TF32; mkReadItem 1 20 TU8]).

(** What the values of the answer mean: each its parameter, in the unit of the node
    or its own; the node is in alarm when the alarm byte is not zero. *)
Definition means (d : BronkhorstDriver) (now : Z) (info : NodeInfo) (vs : list Value) (ss : list Sample) : Prop :=
  exists flow setpoint temperature alarms,
    let sample param value unit :=
      mkSample (bk_device d) (Some (info_node info)) param value unit now (if alarms =? 0 then false else true) in
    let four := [sample "fmeasure" (f64_of_f32 flow) (info_unit info); sample "fsetpoint" (f64_of_f32 setpoint) (info_unit info);
                 sample "temperature" (f64_of_f32 temperature) "degC"; sample "alarm_info" (f64_of_Z alarms) "bitmask"] in
    if controller info
    then exists valve, vs = [VF32 flow; VF32 setpoint; VF32 temperature; VU8 alarms; VU32 valve] /\
           ss = four ++ [sample "valve_output" (f64_of_Z valve) "raw"]
    else vs = [VF32 flow; VF32 setpoint; VF32 temperature; VU8 alarms] /\ ss = four.

(** The samples of the nodes, each node's from the reply to its own request. *)
Definition node_read (d : BronkhorstDriver) (now : Z) (info : NodeInfo) (line : string) (ss : list Sample) : Prop :=
  exists bs reply, line = bytes_text bs /\ parse_reply bs (asks info) = Val (Ok reply) /\
    reply_node reply = info_node info /\ means d now info (values reply) ss.

Fixpoint nodes_read (d : BronkhorstDriver) (now : Z) (infos : list NodeInfo) (lines : list string) (ss : list Sample) : Prop :=
  match infos, lines with
  | [], [] => ss = []
  | info :: infos, line :: lines =>
      exists here rest, ss = here ++ rest /\ node_read d now info line here /\ nodes_read d now infos lines rest
  | _, _ => False
  end.

(** An exchange that failed: nothing came that ends as a reply does, or what came is
    no reply to the request. *)
Definition failed (info : NodeInfo) (evs : list PortEvent) (e : DriverError) : Prop :=
  sent evs = [request_line (asks info)] /\
  ((got evs = [] /\ (e = Protocol (propar_error_text Framing) \/ exists io, e = driver_error (LinkIo io))) \/
   (exists bs why, got evs = [bytes_text bs] /\ parse_reply bs (asks info) = Val (Err why) /\ e = Protocol (propar_error_text why))).

(** What a poll of these nodes does: it gets to the end, or to the first exchange
    that failed. *)
Definition polled (d : BronkhorstDriver) (now : Z) (infos : list NodeInfo) (samples : list Sample) (s : LinkStats)
    (evs : list PortEvent) (r : result (list Sample) DriverError * LinkStats) : Prop :=
  match fst r with
  | Ok ss =>
      sent evs = map (fun info => request_line (asks info)) infos /\
      stat_ok (snd r) = stat_ok s + len infos /\ total (snd r) = total s + len infos /\
      exists new, ss = samples ++ new /\ nodes_read d now infos (got evs) new
  | Err e =>
      exists before info after evs1 evs2, infos = before ++ info :: after /\ evs = evs1 ++ evs2 /\
        sent evs1 = map (fun info => request_line (asks info)) before /\ (exists lost, nodes_read d now before (got evs1) lost) /\
        failed info evs2 e /\ stat_ok (snd r) = stat_ok s + len before
  end.

Lemma asks_measure info : measure_request_for (info_node info) (controller info) = asks info.
Proof. unfold measure_request_for, asks. by destruct (controller info). Qed.

Lemma node_replied request line reply : parse_reply line request = Val (Ok reply) -> reply_node reply = node request.
Proof. intros E. destruct (parse_reply_cases line request) as (_ & _ & H). by apply H. Qed.

(** A reply to the request has the shape of it. *)
Lemma measure_means d now info line reply : parse_reply line (asks info) = Val (Ok reply) ->
  exists ss, measure_samples d now info reply = Ok ss /\ means d now info (values reply) ss.
Proof.
  intros E. destruct (parse_reply_cases line (asks info)) as (_ & _ & H). destruct (H reply E) as (_ & Hv & _). clear H E.
  unfold measure_samples, means, asks in *. cbn [items] in Hv. destruct reply as [n vs]. cbn [values] in *. destruct (controller info).
  all: repeat match goal with H : Forall2 _ (_ :: _) _ |- _ => apply Forall2_cons_inv_l in H as (? & ? & ? & H & ->) | H : Forall2 _ [] _ |- _ => apply Forall2_nil_inv_l in H as -> end.
  all: repeat match goal with H : fits (ty _) ?v |- _ => cbn [ty] in H; destruct v; cbn in H; try done; clear H end.
  all: cbn [take]; eexists; (split; [reflexivity |]); do 4 eexists; cbv zeta.
  - eexists. split; [reflexivity |]. by destruct (_ =? 0).
  - split; [reflexivity |]. by destruct (_ =? 0).
Qed.

Lemma settles_poll_nodes d now infos samples s :
  settles (poll_nodes d now infos samples s) (polled d now infos samples s).
Proof.
  revert samples s. induction infos as [| info infos IH]; intros samples s; cbn [poll_nodes].
  { apply settles_ret. unfold polled. cbn. split_and!; [done | unfold len; cbn; lia | unfold len; cbn; lia |]. exists []. by rewrite app_nil_r. }
  rewrite asks_measure. eapply settles_bind; [apply settles_exchange |]. intros evs [[reply | e] s1] [Hs Hr].
  2: { apply settles_ret. exists [], info, infos, [], (evs ++ []). rewrite app_nil_r. cbn [fst snd]. split_and!; try done.
       - by exists [].
       - split; [done |]. destruct e as [io | why]; [left; split; [by destruct Hr | right; by exists io] |].
         destruct Hr as (_ & _ & [[Hg ->] | (bs & Hg & Hp)]); [left; split; [done | by left] | right; by exists bs, why].
       - destruct e as [io | why]; [destruct Hr as [[-> | ->] _] | destruct Hr as (-> & _)]; unfold len; cbn; lia. }
  destruct Hr as [-> (line & Hg & Hp)]. destruct (measure_means d now info line reply Hp) as (here & -> & Hm).
  assert (Hread : node_read d now info (bytes_text line) here).
  { exists line, reply. split_and!; [done | done | by apply node_replied in Hp | done]. }
  eapply settles_mono; [apply IH |]. intros evs' [r s2] Hr. unfold polled in *. cbn [fst snd] in *. destruct r as [ss | e].
  - destruct Hr as (Hs' & Ho & Ht & new & -> & Hn). unfold total in *. cbn [stat_ok stat_timeout stat_malformed stat_mismatch] in *.
    rewrite sent_app, Hs, Hs', len_cons. unfold incr, update in *. cbn in *. split_and!; [done | lia | lia |].
    exists (here ++ new). split; [by rewrite app_assoc |]. rewrite got_app, Hg. cbn. by exists here, new.
  - destruct Hr as (before & bad & after & evs1 & evs2 & -> & -> & Hs1 & (lost & Hl) & Hf & Ho).
    exists (info :: before), bad, after, (evs ++ evs1), evs2. rewrite sent_app, Hs, Hs1, got_app, Hg, len_cons, <- app_assoc.
    split_and!; try done; [| unfold incr, update in *; cbn in *; lia]. exists (here ++ lost). cbn. by exists here, lost.
Qed.

(** C39: Whatever comes back, a poll of the gas flow controllers asks the nodes found,
    in order, one request each, for the same parameters.  If it answers, the samples
    of every node are what the reply to its own request, from that node, says: the
    measured flow, the set point and the temperature as the floats they are, the
    alarm byte and, of a controller, the valve; all in alarm exactly when that byte
    is not zero; and every exchange was counted as good.  If it fails, it stopped at
    the first exchange that did - the nodes before that one were read, the ones
    after it were not asked - and the error is what came of that exchange.  The
    thread dies only on the one line that the codec panics on. *)
Theorem bk_poll_honest (now : Z) (d : BronkhorstDriver) :
  settles (bk_poll now d) (fun evs r => polled d now (found d) [] (stats d) evs (fst r, stats (snd r)) /\
    snd r = d <| stats := stats (snd r) |>).
Proof.
  eapply settles_bind; [apply settles_poll_nodes |]. intros evs [r s] Hp. apply settles_ret. by rewrite app_nil_r.
Qed.

(** ** A scan *)

(** Who was identified: nodes of the list, in order, with the serial expected. *)
Definition identified (d : BronkhorstDriver) (nodes : list Z) (idents : list Ident) (infos : list NodeInfo) : Prop :=
  map info_node infos `sublist_of` nodes /\
  Forall2 (fun i info => Slowctl.ident_node i = Some (info_node info) /\ ident_device i = bk_device d /\
    (bk_serial d <> EmptyString -> Slowctl.ident_fields i !! "serial" = Some (bk_serial d))) idents infos.

Lemma ident_fields_serial identification model serial firmware user_tag capacity_100 unit fluid sensor_type :
  ident_fields show_f32 identification model serial firmware user_tag capacity_100 unit fluid sensor_type !! "serial"
    = Some (bytes_text serial).
Proof. done. Qed.

Lemma settles_identify d node reply s :
  settles (identify_node show_f32 d node reply s) (fun evs r =>
    sent evs `sublist_of` [request_line (capacity_request node)] /\
    match fst r with
    | Ok (i, info) => Slowctl.ident_node i = Some node /\ info_node info = node /\ ident_device i = bk_device d /\
        (bk_serial d <> EmptyString -> Slowctl.ident_fields i !! "serial" = Some (bk_serial d))
    | Err _ => True
    end).
Proof.
  unfold identify_node.
  repeat match goal with |- settles (match ?x with _ => _ end) _ =>
    destruct x as [] eqn:?; try (apply settles_ret; split; [apply sublist_nil_l | done]) end.
  rename s1 into serial. rename Heqb into Eser.
  eapply settles_bind; [apply settles_exchange |]. intros evs [[capacity | e] st] [Hs _]; apply settles_ret; rewrite app_nil_r, Hs;
    (split; [done |]); [| done].
  repeat match goal with |- match fst (match ?x with _ => _ end, _) with _ => _ end => destruct x; try done end.
  cbn [fst]. split_and!; [done | done | done |]. intros Hne. cbn [Slowctl.ident_fields]. rewrite ident_fields_serial.
  rewrite (bool_decide_eq_false_2 (bk_serial d = EmptyString)) in Eser by done. cbn in Eser.
  apply negb_false_iff, bool_decide_eq_true in Eser. by rewrite Eser.
Qed.

Definition scan_lines (nodes : list Z) : list string :=
  concat (map (fun node => [request_line (ident_request node); request_line (capacity_request node)]) nodes).

Lemma settles_scan d nodes idents infos s :
  settles (scan show_f32 d nodes idents infos s) (fun evs r =>
    sent evs `sublist_of` scan_lines nodes /\
    match fst r with
    | Ok (idents', infos') => exists new infos_new, idents' = idents ++ new /\ infos' = infos ++ infos_new /\
        identified d nodes new infos_new
    | Err _ => True
    end).
Proof.
  revert idents infos s. induction nodes as [| node nodes IH]; intros idents infos s; cbn [scan].
  { apply settles_ret. split; [constructor |]. exists [], []. rewrite !app_nil_r. by repeat constructor. }
  change (scan_lines (node :: nodes))
    with ([request_line (ident_request node)] ++ [request_line (capacity_request node)] ++ scan_lines nodes).
  eapply settles_bind; [apply settles_exchange |]. intros evs [[reply | e] s1] [Hs _].
  2: { eapply settles_mono; [apply IH |]. intros evs' [r s2] [Hl Hr]. rewrite sent_app, Hs. split.
       - apply sublist_app; [done |]. by apply sublist_inserts_l.
       - destruct r as [[idents' infos'] |]; [| done]. destruct Hr as (new & infos_new & -> & -> & [H1 H2]).
         exists new, infos_new. split_and!; [done | done |]. split; [by apply sublist_cons | done]. }
  eapply settles_bind; [apply settles_identify |]. intros evs1 [r1 s2] [Hl1 Hr1].
  cbn [fst] in Hr1. destruct r1 as [[i info] | e].
  - destruct Hr1 as (Hn & Hi & Hd & Hser). eapply settles_mono; [apply IH |]. intros evs' [r s3] [Hl Hr].
    rewrite !sent_app, Hs. split; [by repeat apply sublist_app |].
    destruct r as [[idents' infos'] |]; [| done]. destruct Hr as (new & infos_new & -> & -> & [H1 H2]).
    exists (i :: new), (info :: infos_new). rewrite <- !app_assoc. split_and!; [done | done |]. split.
    + cbn [map]. rewrite Hi. by apply sublist_skip.
    + constructor; [by rewrite Hi | done].
  - apply settles_ret. rewrite app_nil_r, sent_app, Hs. split; [| done].
    apply sublist_app; [done |]. by apply sublist_inserts_r.
Qed.

(** The link's scan asks every node, once, and finds only nodes it asked. *)
Lemma settles_link_scan nodes found s :
  settles (link_scan nodes found s) (fun evs r =>
    sent evs = map (fun node => request_line (ident_request node)) nodes /\
    exists new, fst r = found ++ new /\ map fst new `sublist_of` nodes).
Proof.
  revert found s. induction nodes as [| node nodes IH]; intros found s; cbn [link_scan].
  { apply settles_ret. split; [done |]. exists []. by rewrite app_nil_r. }
  assert (Hskip : forall s', settles (link_scan nodes found s') (fun evs r =>
    sent evs = map (fun node => request_line (ident_request node)) nodes /\
    exists new, fst r = found ++ new /\ map fst new `sublist_of` node :: nodes)).
  { intros s'. eapply settles_mono; [apply IH |]. intros evs r [Hs (new & E & Hn)]. split; [done |].
    exists new. split; [done | by apply sublist_cons]. }
  eapply settles_bind; [apply settles_exchange |]. intros evs [[reply | e] s1] [Hs _].
  - destruct (ident_from_values (values reply)) as [i |].
    + eapply settles_mono; [apply IH |]. intros evs' r [Hs' (new & E & Hn)]. rewrite sent_app, Hs, Hs'. split; [done |].
      exists ((node, i) :: new). rewrite E, <- app_assoc. split; [done | by apply sublist_skip].
    + eapply settles_mono; [apply Hskip |]. intros evs' r [Hs' Hn]. by rewrite sent_app, Hs, Hs'.
  - eapply settles_mono; [apply Hskip |]. intros evs' r [Hs' Hn]. by rewrite sent_app, Hs, Hs'.
Qed.

(** Whatever comes back, a scan asks only for identifications and capacities, of
    the nodes configured, in order, each once; if it answers, the nodes polled from
    then on are those that identified themselves, in order, all with the serial
    expected if one is; if it does not, they stay as they were. *)
Theorem bk_scan_identifies (d : BronkhorstDriver) :
  settles (bk_ident debug show_f32 d) (fun evs r =>
    match resolve debug (bk_nodes d) with
    | Ok nodes => sent evs `sublist_of` scan_lines nodes /\
        match fst r with
        | Ok idents => identified d nodes idents (found (snd r))
        | Err _ => found (snd r) = found d
        end
    | Err why => evs = [] /\ r = (Err (Protocol why), d)
    end).
Proof.
  unfold bk_ident. destruct (resolve debug (bk_nodes d)) as [nodes | why]; [| by apply settles_ret].
  eapply settles_bind; [apply settles_scan |]. intros evs [r s] [Hl Hr]. apply settles_ret. rewrite app_nil_r.
  destruct r as [[idents infos] | e]; (split; [done |]); [| done].
  destruct Hr as (new & infos_new & -> & -> & H). exact H.
Qed.

(** A driver that found nothing polls nothing, and the poll is good. *)
Lemma nothing_found_polls_nothing now d w : found d = [] -> bk_poll now d w = ([], Val (Ok [], d), w).
Proof. intros Hf. unfold bk_poll. rewrite Hf. by destruct d. Qed.
End Traces.

(** ** Nodes to run it on *)

(** A port whose writes all fail: the scan finds nothing, counts nothing, and is
    good; the polls after it are good as well. *)
#[local] Instance unplugged : Port unit := {
  port_write := fun _ w => (Err (mkIoError OtherKind "broken pipe"), w);
  port_read := fun w => (ReadEof, w);
}.

Definition plain (s : string) : string := s.
Definition no_f32 (_ : Z) : string := "".

Lemma unplugged_scan_is_good nodes serial :
  let d := bronkhorst_new "gas" (NodeList nodes) serial in
  exists evs, bk_ident plain no_f32 d tt = (evs, Val (Ok [], d), tt).
Proof.
  cbn zeta. unfold bk_ident. cbn [bk_nodes bronkhorst_new resolve].
  assert (H : forall s, exists evs, scan no_f32 (bronkhorst_new "gas" (NodeList nodes) serial) nodes [] [] s tt
    = (evs, Val (Ok ([], []), s), tt)).
  { generalize (bronkhorst_new "gas" (NodeList nodes) serial) as d. intros d s.
    induction nodes as [| node nodes IH]; [by exists [] |]. destruct IH as [evs E].
    exists ([Sent (request_line (ident_request node))] ++ evs). cbn [scan]. unfold may_bind, io_bind at 1.
    cbn [exchange io_bind write_all port_write unplugged may_ret io_ret app]. by rewrite E. }
  destruct (H stats_default) as [evs E]. exists (evs ++ []). unfold may_bind, io_bind.
  cbn [stats bronkhorst_new]. by rewrite E.
Qed.

(** Node 3, a controller, answers one poll. *)
#[local] Instance tape : Port bytes := {
  port_write := fun _ w => (Ok tt, w);
  port_read := fun w => match w with [] => (ReadEof, []) | b :: w => (ReadByte b, w) end;
}.

Definition flow_reply : bytes :=
  answer_line 3 [mkAnswer (mkReadItem 33 0 TF32) (VF32 0x41200000) true; mkAnswer (mkReadItem 33 3 TF32) (VF32 0x41200000) true;
    mkAnswer (mkReadItem 33 7 TF32) (VF32 0x41B00000) false; mkAnswer (mkReadItem 1 20 TU8) (VU8 1) false;
    mkAnswer (mkReadItem 114 1 TU32) (VU32 1000) false].

Definition one_controller : BronkhorstDriver :=
  bronkhorst_new "gas" (NodeList [3]) "" <| found := [mkNode 3 "l/h" true] |>.

Example flow_polled :
  match bk_poll 7 one_controller flow_reply with
  | (_, Val (Ok ss, d), _) =>
      map (fun s => (param s, f64_to_Z (value s), alarm s)) ss =
        [("fmeasure", 10, true); ("fsetpoint", 10, true); ("temperature", 22, true); ("alarm_info", 1, true); ("valve_output", 1000, true)] /\
      stats d = mkStats 1 0 0 0
  | _ => False
  end.
Proof. by vm_compute. Qed.
