(* ===== verification/Arduino.v ===== *)
(** * Arduino: the environment sensors

    Models [src/slowctl/arduino.rs]: the board sends a line of JSON every second, by
    itself; a poll reads what there is and answers from the last complete line.
    JSON is a library's: [from_str] reads a line or says why not.  How the serial
    port is set up is not modelled, but for its read timeout. *)

From Stdlib Require Import Ascii.
From stdpp Require Import gmap pretty strings.
From S2P Require Import Prelude Bytes Utf8 Decimal Text Float Command Slowctl.
Open Scope list_scope.
Open Scope Z_scope.

Definition EXPECTED_DEV : string := "mkr_env".
Definition READ_TIMEOUT_MS : Z := 1500.
Definition MAX_IDENT_LINES : nat := 3.
Definition MAX_LINE_BYTES : nat := 512.

Record EnvLine : Type := mkEnv {
  env_dev : string;
  env_seq : option Z;
  env_error : option string;
  t_c : option f64;
  rh : option f64;
  p_hpa : option f64;
  lux : option f64;
  uva : option f64;
  uvb : option f64;
}.

Record ArduinoEnvDriver : Type := mkArduino {
  ar_device : string;
  last_seq : option Z;
}.

Definition is_timeout (e : IoError) : bool :=
  match io_kind e with
  | WouldBlock | TimedOut => true
  | _ => false
  end.

Definition decode_line (buf : bytes) : string := trim_end_matches [13; 10] (bytes_text (from_utf8_lossy buf)).

Definition too_long : DriverError :=
  Protocol ("line exceeds " +:+ dec (Z.of_nat MAX_LINE_BYTES) +:+ " bytes without a terminator").

Section Driver.
Context {W : Type} `{Port W} (debug : string -> string) (from_str : string -> result EnvLine string).

Definition read_one_line : Io W (result string DriverError) :=
  let@? buf := read_reply MAX_LINE_BYTES [10] DriverTimeout too_long
    (fun e => if is_timeout e then DriverTimeout else DriverIo e) [] in
  io_ret (Ok (decode_line buf)).

(** The loop of [drain_lines]: it ends when a read finds nothing. *)
Fixpoint drain_lines (fuel : nat) (lines : list string) (buf : bytes) : Io W (rust (result (list string) DriverError)) :=
  match fuel with
  | O => io_ret OutOfFuel
  | S fuel =>
      let@ a := read in
      match a with
      | ReadEof => io_ret (Val (Ok lines))
      | ReadByte b =>
          let buf := buf ++ [b] in
          if ends_with [10] buf then drain_lines fuel (lines ++ [decode_line buf]) []
          else if (MAX_LINE_BYTES <? length buf)%nat then drain_lines fuel lines []
          else drain_lines fuel lines buf
      | ReadFails e => if is_timeout e then io_ret (Val (Ok lines)) else io_ret (Val (Err (DriverIo e)))
      end
  end.

Definition env_idents (d : ArduinoEnvDriver) (env : EnvLine) : list Ident :=
  let fields : gmap string string := list_to_map
    ([("dev", env_dev env)] ++ match env_seq env with Some seq => [("seq", dec seq)] | None => [] end) in
  [mkIdent (ar_device d) None fields].

Definition saw_seq (d : ArduinoEnvDriver) (env : EnvLine) : ArduinoEnvDriver :=
  match env_seq env with
  | Some seq => mkArduino (ar_device d) (Some seq)
  | None => d
  end.

Fixpoint ident_lines (tries : nat) (last_malformed : option string) (d : ArduinoEnvDriver)
    : Io W (result (list Ident) DriverError * ArduinoEnvDriver) :=
  match tries with
  | O =>
      io_ret (Err (Protocol ("no valid ident line in " +:+ dec (Z.of_nat MAX_IDENT_LINES) +:+ " attempts: " +:+
                             default "no data" last_malformed)), d)
  | S tries =>
      let@ line := read_one_line in
      match line with
      | Err e => io_ret (Err e, d)
      | Ok line =>
          match from_str line with
          | Err e => ident_lines tries (Some e) d
          | Ok env =>
              match env_error env with
              | Some error => io_ret (Err (Protocol error), d)
              | None =>
                  if negb (bool_decide (env_dev env = EXPECTED_DEV)) then
                    io_ret (Err (Identity EXPECTED_DEV (env_dev env)), d)
                  else io_ret (Ok (env_idents d env), saw_seq d env)
              end
          end
      end
  end.

Definition ar_ident (d : ArduinoEnvDriver) : Io W (result (list Ident) DriverError * ArduinoEnvDriver) :=
  ident_lines MAX_IDENT_LINES None d.

Definition env_fields (env : EnvLine) : list (string * option f64 * string) :=
  [("t_c", t_c env, "degC"); ("rh", rh env, "%"); ("p_hpa", p_hpa env, "hPa"); ("lux", lux env, "lux");
   ("uva", uva env, "raw"); ("uvb", uvb env, "raw")].

Fixpoint env_samples (d : ArduinoEnvDriver) (now : Z) (line : string) (fields : list (string * option f64 * string))
    : result (list Sample) DriverError :=
  match fields with
  | [] => Ok []
  | (param, value, unit) :: fields =>
      match value with
      | None => Err (Protocol ("missing field " +:+ debug param +:+ " in " +:+ debug line))
      | Some value =>
          let? rest := env_samples d now line fields in
          Ok (mkSample (ar_device d) None param value unit now false :: rest)
      end
  end.

(** What a poll makes of the last line. *)
Definition line_answer (now : Z) (line : string) (d : ArduinoEnvDriver) : result (list Sample) DriverError * ArduinoEnvDriver :=
  match from_str line with
  | Err e => (Err (Protocol ("malformed line " +:+ debug line +:+ ": " +:+ e)), d)
  | Ok env =>
      match env_error env with
      | Some error => (Err (Protocol error), d)
      | None => (env_samples d now line (env_fields env), saw_seq d env)
      end
  end.

Definition ar_poll (fuel : nat) (now : Z) (d : ArduinoEnvDriver)
    : Io W (rust (result (list Sample) DriverError * ArduinoEnvDriver)) :=
  let@ r := drain_lines fuel [] [] in
  io_ret (let! lines := r in
          Val (match lines with
               | Err e => (Err e, d)
               | Ok lines =>
                   match list.last lines with
                   | None => (Err DriverTimeout, d)
                   | Some line => line_answer now line d
                   end
               end)).
End Driver.

(** ** What a port has to read *)

(** The bytes a port has until a read finds none, and what that read answers. *)
Inductive delivers {W : Type} `{Port W} : W -> bytes -> ReadAnswer -> W -> Prop :=
| delivers_stop w a w' : port_read w = (a, w') -> (forall b, a <> ReadByte b) -> delivers w [] a w'
| delivers_byte w b w1 bs a w' : port_read w = (ReadByte b, w1) -> delivers w1 bs a w' -> delivers w (b :: bs) a w'.

Section Reads.
Context {W : Type} `{HP : Port W} (debug : string -> string) (from_str : string -> result EnvLine string).

(** The complete lines of a stream, after what is in the buffer. *)
Fixpoint lines_of (buf bs : bytes) : list string :=
  match bs with
  | [] => []
  | b :: bs =>
      if b =? 10 then decode_line (buf ++ [b]) :: lines_of [] bs
      else if (MAX_LINE_BYTES <=? length buf)%nat then lines_of [] bs
      else lines_of (buf ++ [b]) bs
  end.

Lemma ends_with_lf buf b : ends_with [10] (buf ++ [b]) = (b =? 10).
Proof. unfold ends_with. rewrite rev_unit. cbn -[Z.eqb]. rewrite (Z.eqb_sym 10 b). by destruct (b =? 10). Qed.

Definition drained (lines : list string) (a : ReadAnswer) : result (list string) DriverError :=
  match a with
  | ReadFails e => if is_timeout e then Ok lines else Err (DriverIo e)
  | _ => Ok lines
  end.

Lemma drain_lines_reads w bs a w' fuel lines buf :
  delivers w bs a w' -> (length bs < fuel)%nat ->
  drain_lines fuel lines buf w = ([], Val (drained (lines ++ lines_of buf bs) a), w').
Proof.
  intros Hd. revert fuel lines buf. induction Hd as [w a w' Hr Ha | w b w1 bs a w' Hr Hd IH]; intros fuel lines buf Hf;
    (destruct fuel as [| fuel]; [cbn in Hf; lia |]); cbn [drain_lines]; unfold io_bind, read; rewrite Hr.
  - cbn [lines_of]. rewrite app_nil_r. destruct a as [b | | e]; [by destruct (Ha b eq_refl) | done |]. cbn. by destruct (is_timeout e).
  - cbn [length] in Hf. rewrite ends_with_lf. cbn [lines_of]. destruct (b =? 10).
    + rewrite (IH fuel) by lia. by rewrite <- app_assoc.
    + replace (MAX_LINE_BYTES <? length (buf ++ [b]))%nat with (MAX_LINE_BYTES <=? length buf)%nat
        by (rewrite length_app; change (length [b]) with 1%nat; apply eq_true_iff_eq; rewrite Nat.leb_le, Nat.ltb_lt; lia).
      destruct (_ <=? _)%nat; by rewrite (IH fuel) by lia.
Qed.

Lemma lines_of_tail buf tail : Forall (fun b => b <> 10) tail -> lines_of buf tail = [].
Proof.
  intros Ht. revert buf. induction Ht as [| b tail Hb Ht IH]; intros buf; cbn [lines_of]; [done |].
  destruct (Z.eqb_spec b 10); [done |]. by destruct (_ <=? _)%nat; rewrite IH.
Qed.

Lemma lines_of_line buf line bs : Forall (fun b => b <> 10) line -> (length buf + length line <= MAX_LINE_BYTES)%nat ->
  lines_of buf (line ++ 10 :: bs) = decode_line (buf ++ line ++ [10]) :: lines_of [] bs.
Proof.
  intros Hl. revert buf. induction Hl as [| b line Hb Hl IH]; intros buf Hlen; [done |].
  cbn [app lines_of]. destruct (Z.eqb_spec b 10); [done |].
  destruct (Nat.leb_spec MAX_LINE_BYTES (length buf)); [cbn in Hlen; lia |].
  rewrite IH by (rewrite length_app; cbn in *; lia). by rewrite <- app_assoc.
Qed.

(** At the end of a line the buffer is empty. *)
Lemma lines_of_app buf pre bs : lines_of buf (pre ++ 10 :: bs) = lines_of buf (pre ++ [10]) ++ lines_of [] bs.
Proof.
  revert buf. induction pre as [| b pre IH]; intros buf; cbn [app lines_of]; [done |].
  destruct (b =? 10); [cbn [app]; f_equal; apply IH |]. destruct (_ <=? _)%nat; apply IH.
Qed.

Definition line_start (pre : bytes) : Prop := pre = [] \/ exists pre', pre = pre' ++ [10].

Lemma last_line pre line tail :
  line_start pre -> Forall (fun b => b <> 10) line -> (length line <= MAX_LINE_BYTES)%nat -> Forall (fun b => b <> 10) tail ->
  list.last (lines_of [] (pre ++ line ++ 10 :: tail)) = Some (decode_line (line ++ [10])).
Proof.
  intros Hp Hl Hlen Ht.
  assert (E : lines_of [] (line ++ 10 :: tail) = [decode_line (line ++ [10])]).
  { rewrite lines_of_line by (done || (cbn; lia)). by rewrite lines_of_tail. }
  destruct Hp as [-> | (pre' & ->)]; [cbn [app]; by rewrite E |].
  rewrite <- app_assoc. cbn [app]. rewrite lines_of_app, E. apply last_snoc.
Qed.

(** A port that always has another byte. *)
Fixpoint after_reads (n : nat) (w : W) : W :=
  match n with
  | O => w
  | S n => after_reads n (snd (port_read w))
  end.

Definition never_silent (w : W) : Prop := forall n, exists b, fst (port_read (after_reads n w)) = ReadByte b.

Lemma drain_never_silent w fuel lines buf : never_silent w -> exists w', drain_lines fuel lines buf w = ([], OutOfFuel, w').
Proof.
  revert w lines buf. induction fuel as [| fuel IH]; intros w lines buf Hw; [by exists w |].
  cbn [drain_lines]. unfold io_bind, read. destruct (Hw O) as [b Hb]. cbn in Hb.
  destruct (port_read w) as [a w1] eqn:Hr. cbn in Hb. subst a.
  assert (Hw1 : never_silent w1). { intros n. specialize (Hw (S n)). cbn in Hw. by rewrite Hr in Hw. }
  destruct (ends_with _ _); [| destruct (_ <? _)%nat]; edestruct (IH w1) as [w' ->]; try done; by exists w'.
Qed.

(** If the bytes the port has come to an end - a read that times out or finds the
    end of the stream - a poll returns, and answers from the last complete line alone:
    lines before it and the fragment after it have no influence.  But a port that
    always has another byte before a read times out keeps the poll for ever. *)
Theorem arduino_poll_last_line (now : Z) (d : ArduinoEnvDriver) :
  (forall w pre line tail a w' fuel,
     delivers w (pre ++ line ++ 10 :: tail) a w' -> (forall e, a = ReadFails e -> is_timeout e = true) ->
     line_start pre -> Forall (fun b => b <> 10) line -> (length line <= MAX_LINE_BYTES)%nat ->
     Forall (fun b => b <> 10) tail -> (length (pre ++ line ++ 10%Z :: tail) < fuel)%nat ->
     ar_poll debug from_str fuel now d w = ([], Val (line_answer debug from_str now (decode_line (line ++ [10])) d), w')) /\
  (forall w fuel, never_silent w -> exists w', ar_poll debug from_str fuel now d w = ([], OutOfFuel, w')).
Proof.
  split.
  - intros w pre line tail a w' fuel Hd Ha Hp Hl Hlen Ht Hf. unfold ar_poll, io_bind.
    rewrite (drain_lines_reads _ _ _ _ _ [] [] Hd Hf). cbn [app rust_bind].
    assert (Hdr : drained (lines_of [] (pre ++ line ++ 10 :: tail)) a = Ok (lines_of [] (pre ++ line ++ 10 :: tail))).
    { destruct a as [b | | e]; [done | done |]. cbn. by rewrite (Ha e eq_refl). }
    rewrite Hdr. cbn [rust_bind io_ret app]. by rewrite last_line.
  - intros w fuel Hw. unfold ar_poll, io_bind. destruct (drain_never_silent w fuel [] [] Hw) as [w' ->].
    by exists w'.
Qed.
End Reads.

(** ** A board to run it on *)

(** The sketch [tools/arduino_env/env_json.ino]: a line, then [delay(period)].  A read
    waits for the next byte as long as the timeout of the port. *)
Record Board : Type := mkBoard {
  clock : Z;
  next_line_at : Z;
  in_flight : bytes;
}.

Section Board.
Context (period : Z) (first : Z) (more : bytes).

#[local] Instance board : Port Board := {
  port_write := fun _ w => (Ok tt, w);
  port_read := fun w =>
    match in_flight w with
    | b :: rest => (ReadByte b, mkBoard (clock w) (next_line_at w) rest)
    | [] =>
        if next_line_at w <=? clock w + READ_TIMEOUT_MS then
          let now := Z.max (clock w) (next_line_at w) in (ReadByte first, mkBoard now (now + period) more)
        else (ReadFails (mkIoError TimedOut "timed out"), mkBoard (clock w + READ_TIMEOUT_MS) (next_line_at w) [])
    end;
}.

Lemma board_never_silent w :
  0 <= period <= READ_TIMEOUT_MS -> next_line_at w <= clock w + READ_TIMEOUT_MS -> never_silent w.
Proof.
  intros Hp Hw n. revert w Hw. induction n as [| n IH]; intros w Hw; cbn.
  - destruct (in_flight w); [| by eexists]. replace (_ <=? _) with true by lia. by eexists.
  - destruct (in_flight w); [| by apply IH]. replace (_ <=? _) with true by lia. apply IH. cbn. lia.
Qed.
End Board.

(** The sketch's period is a second and the timeout a second and a half: a poll of a
    board that works never returns. *)
Lemma working_board_keeps_poll debug from_str first more now d w fuel :
  next_line_at w <= clock w + READ_TIMEOUT_MS ->
  exists w', ar_poll (H := board 1000 first more) debug from_str fuel now d w = ([], OutOfFuel, w').
Proof.
  intros Hw. pose proof (drain_never_silent (HP := board 1000 first more) w fuel [] []
    (board_never_silent 1000 first more w ltac:(unfold READ_TIMEOUT_MS; lia) Hw)) as [w' E].
  unfold ar_poll, io_bind. rewrite E. by exists w'.
Qed.

(** Two lines and a fragment on a port that then falls silent. *)
#[local] Instance tape : Port bytes := {
  port_write := fun _ w => (Ok tt, w);
  port_read := fun w => match w with [] => (ReadFails (mkIoError TimedOut "timed out"), []) | b :: w => (ReadByte b, w) end;
}.

Lemma tape_delivers (bs : bytes) : delivers bs bs (ReadFails (mkIoError TimedOut "timed out")) [].
Proof. induction bs as [| b bs IH]; [by apply delivers_stop | by eapply delivers_byte]. Qed.

Definition one : option f64 := Some (f64_of_Z 1).
Definition from_number (line : string) : result EnvLine string :=
  match parse_uint 64 line with
  | Some n => Ok (mkEnv EXPECTED_DEV (Some n) None one one one one one one)
  | None => Err "not a number"
  end.

Definition as_is (s : string) : string := s.

Lemma arduino_poll_last_line_witness :
  exists ss, ar_poll as_is from_number 100 7 (mkArduino "env" (Some 41)) (text_bytes "garbage" ++ [10] ++ text_bytes "42" ++ [10] ++ text_bytes "4")
    = ([], Val (Ok ss, mkArduino "env" (Some 42)), []) /\ length ss = 6%nat.
Proof.
  eexists. split.
  - etrans.
    + refine (proj1 (arduino_poll_last_line as_is from_number 7 (mkArduino "env" (Some 41))) _
        (text_bytes "garbage" ++ [10]) (text_bytes "42") (text_bytes "4") _ _ 100%nat (tape_delivers _) _ _ _ _ _ _).
      * intros e [= <-]. reflexivity.
      * right. by exists (text_bytes "garbage").
      * repeat (constructor; [discriminate |]). constructor.
      * vm_compute. lia.
      * repeat (constructor; [discriminate |]). constructor.
      * vm_compute. lia.
    + vm_compute. reflexivity.
  - reflexivity.
Defined.
