(* ===== verification/SlowRecords.v ===== *)
(** * SlowRecords: what the slow control writes down

    Models the main thread of [src/slowctl/component.rs]: the aggregator that
    turns samples into logbook records, the poster that holds what could not be
    sent, the status messages and the loop around them.  What the socket to the
    controller answers is a stream of booleans; JSON and MessagePack are outside:
    [number] is the JSON of a float, [to_vec] a record's bytes, [to_vec_named] a
    payload's. *)

From Stdlib Require Import Ascii.
From stdpp Require Import gmap pretty strings sorting.
From S2P Require Import Prelude Bytes Decimal Text Float Command Controller Logbook Slowctl HiVolta.
Open Scope list_scope.
Open Scope Z_scope.

Definition SLOW_ACTOR : string := "slowctl".

(** [[[slowctl.device]]] of the configuration. *)
Record SlowDeviceConfig : Type := mkSlowDevice {
  device_type : string;
  device_name : string;
  port : option string;
  addr : option string;
  nodes : NodesSpec;
  expect_serial_ : string;
  alarms : list AlarmRule;
  poll_s : option f64;
  device_status_ignore : list StatusIgnore;
}.

(** ** Counters *)

(** [Counters::record]: every error of a driver has its counter. *)
Definition count_error (e : DriverError) (c : SlowCounters) : SlowCounters :=
  match e with
  | Protocol _ | Unsupported => c <| parse_err ::= incr |>
  | Identity _ _ => c <| identity_mismatch ::= incr |>
  | DriverTimeout | DriverIo _ => c <| poll_err ::= incr |>
  end.

Definition sum_counters (counters : list SlowCounters) : SlowCounters :=
  fold_left (fun acc c =>
    acc <| poll_ok ::= Z.add (poll_ok c) |> <| poll_err ::= Z.add (poll_err c) |>
        <| parse_err ::= Z.add (parse_err c) |> <| reconnects ::= Z.add (reconnects c) |>
        <| identity_mismatch ::= Z.add (identity_mismatch c) |>) counters counters_default.

Definition saturating_sub (a b : Z) : Z := Z.max 0 (a - b).

Definition counter_delta (now previous : SlowCounters) : option SlowCounters :=
  let delta := counters_default
    <| poll_err := saturating_sub (poll_err now) (poll_err previous) |>
    <| parse_err := saturating_sub (parse_err now) (parse_err previous) |>
    <| reconnects := saturating_sub (reconnects now) (reconnects previous) |>
    <| identity_mismatch := saturating_sub (identity_mismatch now) (identity_mismatch previous) |> in
  if (poll_err delta =? 0) && (parse_err delta =? 0) && (reconnects delta =? 0) && (identity_mismatch delta =? 0)
  then None else Some delta.

Inductive DeviceEvent : Type :=
| IdentEvent (idents : list Ident)
| SamplesEvent (samples : list Sample).

(** ** Records *)

Section Records.
Context (number : f64 -> Json) (to_vec : LogbookRecord -> result bytes string)
  (to_vec_named : SlowPayload -> result bytes string).

Definition slow_record (event : string) (s : Sample) : LogbookRecord :=
  Slow SLOW_ACTOR (sample_device s) (sample_node s) event
    (JObj [(param s, JObj [("value", number (value s)); ("unit", JStr (unit_ s))])]).

Definition ident_record (i : Ident) : LogbookRecord :=
  Slow SLOW_ACTOR (ident_device i) (ident_node i) "IDENT"
    (JObj (map (fun '(k, v) => (k, JStr v)) (map_to_list (ident_fields i)))).

Definition error_record (device : string) (delta : SlowCounters) : LogbookRecord :=
  Slow SLOW_ACTOR device None "ERROR"
    (JObj [("poll_err", JNum (poll_err delta)); ("parse_err", JNum (parse_err delta));
           ("reconnects", JNum (reconnects delta)); ("identity_mismatch", JNum (identity_mismatch delta))]).

(** *** The aggregator *)

Record DeviceAlarms : Type := mkAlarms {
  rules : list AlarmRule;
  firing : list bool;
}.

Record Aggregator : Type := mkAggregator {
  policy : LogPolicy;
  device_alarms : list DeviceAlarms;
  latest : gmap string Sample;
  logged : gmap string (f64 * Z);
}.

Definition aggregator_new (devices : list SlowDeviceConfig) (every : Z) : Aggregator :=
  mkAggregator (mkPolicy every) (map (fun d => mkAlarms (alarms d) (repeat false (length (alarms d)))) devices) ∅ ∅.

(** The rules of a device, from the [i]th on: what they say of a sample, and
    which are firing. *)
Fixpoint apply_rules (i : nat) (rs : list AlarmRule) (s : Sample) (firing : list bool) : list AlarmEvent * list bool :=
  match rs with
  | [] => ([], firing)
  | rule :: rs =>
      match evaluate rule (default false (firing !! i)) s with
      | None => apply_rules (S i) rs s firing
      | Some event =>
          let '(events, firing) :=
            apply_rules (S i) rs s (<[i := match event with Alarm => true | Recover => false end]> firing) in
          (event :: events, firing)
      end
  end.

(** What the device itself says: an edge of its alarm flag. *)
Definition hardware_edge (was now : bool) : list AlarmEvent :=
  match was, now with
  | false, true => [Alarm]
  | true, false => [Recover]
  | _, _ => []
  end.

(** The rules of the sample's device. *)
Definition check_rules (device_index : nat) (s : Sample) (all : list DeviceAlarms) : list AlarmEvent * list DeviceAlarms :=
  match all !! device_index with
  | None => ([], all)
  | Some da =>
      let '(events, firing') := apply_rules 0 (rules da) s (firing da) in
      (events, <[device_index := mkAlarms (rules da) firing']> all)
  end.

Definition ingest_one (device_index : nat) (s : Sample) (a : Aggregator) : list LogbookRecord * Aggregator :=
  let '(ruled, alarms') := check_rules device_index s (device_alarms a) in
  let edges := hardware_edge (default false (alarm <$> latest a !! key s)) (alarm s) in
  let events := map alarm_text (ruled ++ edges) in
  let here : f64 * Z := (value s, ts_ms s) in
  let logged' := match events with [] => logged a | _ => <[key s := here]> (logged a) end in
  let values := if should_log (policy a) (logged' !! key s) (value s) (ts_ms s) then ["VALUE"] else [] in
  let logged' := match values with [] => logged' | _ => <[key s := here]> logged' end in
  (map (fun event => slow_record event s) (events ++ values),
   mkAggregator (policy a) alarms' (<[key s := s]> (latest a)) logged').

Fixpoint ingest (device_index : nat) (samples : list Sample) (a : Aggregator) : list LogbookRecord * Aggregator :=
  match samples with
  | [] => ([], a)
  | s :: samples =>
      let '(records, a) := ingest_one device_index s a in
      let '(records', a) := ingest device_index samples a in (records ++ records', a)
  end.

(** The latest values in the order of their keys. *)
Definition key_le (a b : string * Sample) : Prop := String.leb (fst a) (fst b) = true.
#[export] Instance key_le_dec : RelDecision key_le.
Proof. intros a b. unfold key_le. solve_decision. Defined.

Definition payload (now : Z) (counters : SlowCounters) (a : Aggregator) : SlowPayload :=
  mkSlowPayload SLOW_KIND now (map snd (merge_sort key_le (map_to_list (latest a)))) counters.

(** *** The poster *)

Definition RETRY_QUEUE_LIMIT : nat := 64.

Definition is_retryable (r : LogbookRecord) : bool :=
  match r with
  | Slow _ _ _ event _ =>
      bool_decide (event = "IDENT") || bool_decide (event = "ALARM") || bool_decide (event = "RECOVER")
  | _ => false
  end.

(** [RetryQueue::push]: the oldest goes when it is full. *)
Definition retry_push (r : LogbookRecord) (queue : list LogbookRecord) : bool * list LogbookRecord :=
  if (RETRY_QUEUE_LIMIT <=? length queue)%nat then (true, tail queue ++ [r]) else (false, queue ++ [r]).

(** The poster, how many sends it has tried, and what went out. *)
Record LogPoster : Type := mkPoster {
  retry : list LogbookRecord;
  down : bool;
  dropped : Z;
  tries : nat;
  wire : list LogbookRecord;
}.
#[export] Instance eta_LogPoster : Eta LogPoster :=
  fun poster_ => mkPoster (retry poster_) (down poster_) (dropped poster_) (tries poster_) (wire poster_).

Definition poster_new : LogPoster := mkPoster [] false 0 0 [].

(** Whether the socket takes the [n]th message before its time limit. *)
Context (takes : nat -> bool).

Definition went_out (r : LogbookRecord) (p : LogPoster) : LogPoster :=
  p <| tries ::= S |> <| wire ::= (fun w => w ++ [r]) |>.
Definition did_not_go (p : LogPoster) : LogPoster := p <| tries ::= S |> <| down := true |>.

Definition try_send (r : LogbookRecord) (p : LogPoster) : bool * LogPoster :=
  match to_vec r with
  | Err _ => (true, p)
  | Ok _ =>
      if takes (tries p) then (true, went_out r p) else (false, did_not_go p)
  end.

(** The records still held, from the oldest on, until one does not go. *)
Fixpoint flush_queue (queue : list LogbookRecord) (p : LogPoster) : LogPoster :=
  match queue with
  | [] => p <| retry := [] |>
  | r :: queue' =>
      match try_send r p with
      | (true, p) => flush_queue queue' p
      | (false, p) => p <| retry := queue |>
      end
  end.

Definition flush (p : LogPoster) : LogPoster := flush_queue (retry p) (p <| down := false |>).

Definition post (r : LogbookRecord) (p : LogPoster) : LogPoster :=
  let '(sent, p) := if down p then (false, p) else try_send r p in
  if sent then p
  else if is_retryable r then
    let '(evicted, queue) := retry_push r (retry p) in
    let p := p <| retry := queue |> in
    if evicted then p <| dropped ::= incr |> else p
  else p <| dropped ::= incr |>.

Definition post_all (rs : list LogbookRecord) (p : LogPoster) : LogPoster := fold_left (fun p r => post r p) rs p.

(** *** Status messages *)

Definition encode_pub (source_id run_number sequence_number created_ns : Z) (pl : SlowPayload) : result bytes string :=
  let? body := to_vec_named pl in
  Ok ([129] ++ [164; 68; 97; 116; 97] ++ [149] ++
      flat_map (fun v => 207 :: be_bytes 8 v) [source_id; run_number; sequence_number; created_ns] ++ body).

Definition SLOWCTL_SOURCE_ID : Z := 200.

(** *** The loop *)

Inductive Received : Type :=
| GotEvent (e : DeviceEvent)
| NothingYet
| AllGone.

(** What one turn finds: the channel, the clocks, the counters. *)
Record Turn : Type := mkTurn {
  received : Received;
  publish_due : bool;
  turn_now_ms : Z;
  turn_created_ns : Z;
  report_due : bool;
  counters_now : list SlowCounters;
  influx_counts : option (SlowCounters -> SlowCounters);
}.

Record Main : Type := mkMain {
  aggregator : Aggregator;
  poster : LogPoster;
  sequence_number : Z;
  previous : list SlowCounters;
  published : list bytes;
}.
#[export] Instance eta_Main : Eta Main :=
  fun main_ => mkMain (aggregator main_) (poster main_) (sequence_number main_) (previous main_) (published main_).

Definition main_new (devices : list SlowDeviceConfig) (every : Z) : Main :=
  mkMain (aggregator_new devices every) poster_new 0 (repeat counters_default (length devices)) [].

(** The name a later device has wins. *)
Definition index_of (devices : list SlowDeviceConfig) (name : string) : option nat :=
  list_to_map (M := gmap string nat) (rev (imap (fun i d => (device_name d, i)) devices)) !! name.

Definition device_index (devices : list SlowDeviceConfig) (samples : list Sample) : nat :=
  match samples with
  | [] => O
  | s :: _ => default O (index_of devices (sample_device s))
  end.

Definition take_event (devices : list SlowDeviceConfig) (e : DeviceEvent) (m : Main) : Main :=
  match e with
  | IdentEvent idents => m <| poster ::= post_all (map ident_record idents) |>
  | SamplesEvent samples =>
      let '(records, a) := ingest (device_index devices samples) samples (aggregator m) in
      m <| aggregator := a |> <| poster ::= post_all records |>
  end.

Definition publish (t : Turn) (m : Main) : Main :=
  let totals := sum_counters (counters_now t) in
  let totals := match influx_counts t with Some write_into => write_into totals | None => totals end in
  match encode_pub SLOWCTL_SOURCE_ID 0 (sequence_number m) (turn_created_ns t) (payload (turn_now_ms t) totals (aggregator m)) with
  | Ok bytes => m <| sequence_number ::= incr |> <| published ::= (fun l => l ++ [bytes]) |>
  | Err _ => m
  end.

(** The error report: what each device's counters gained since the last one. *)
Fixpoint report_from (i : nat) (devices : list SlowDeviceConfig) (now : list SlowCounters) (m : Main) : Main :=
  match devices with
  | [] => m
  | d :: devices =>
      let m :=
        match now !! i, previous m !! i with
        | Some now, Some was =>
            let m := match counter_delta now was with
                     | Some delta => m <| poster ::= post (error_record (device_name d) delta) |>
                     | None => m
                     end in
            m <| previous ::= <[i := now]> |>
        | _, _ => m
        end in
      report_from (S i) devices now m
  end.

(** One turn; [false] ends the loop. *)
Definition main_turn (devices : list SlowDeviceConfig) (t : Turn) (m : Main) : bool * Main :=
  let m := m <| poster ::= flush |> in
  match received t with
  | AllGone => (false, m)
  | r =>
      let m := match r with GotEvent e => take_event devices e m | _ => m end in
      let m := if publish_due t then publish t m else m in
      let m := if report_due t then report_from 0 devices (counters_now t) m else m in
      (true, m)
  end.

Fixpoint main_loop (devices : list SlowDeviceConfig) (turns : list Turn) (m : Main) : Main :=
  match turns with
  | [] => m
  | t :: turns =>
      match main_turn devices t m with
      | (true, m) => main_loop devices turns m
      | (false, m) => m
      end
  end.
End Records.

(** ** Nothing that happens once is lost unseen *)

Section Posting.
Context (to_vec : LogbookRecord -> result bytes string) (takes : nat -> bool).
Context (encodes : forall r, exists json, to_vec r = Ok json).

(** Sends that failed. *)
Definition failed_sends (p : LogPoster) : nat := length (List.filter (fun n => negb (takes n)) (List.seq 0 (tries p))).
Arguments failed_sends : simpl never.

(** A poster after [posted] records: each went out, is held or was counted; those
    that happen once are in their order, and go first when they are held; only a
    full queue loses one. *)
Record holds (posted : list LogbookRecord) (p : LogPoster) : Prop := {
  holds_count : Z.of_nat (length posted) = Z.of_nat (length (wire p) + length (retry p)) + dropped p;
  holds_once : List.filter is_retryable (wire p) ++ retry p `sublist_of` List.filter is_retryable posted;
  holds_lost : Z.of_nat (length (List.filter is_retryable posted)) <=
    Z.of_nat (length (List.filter is_retryable (wire p)) + length (retry p)) + dropped p;
  holds_dropped : 0 <= dropped p;
  holds_all : (length (List.filter is_retryable posted) <= RETRY_QUEUE_LIMIT)%nat ->
    List.filter is_retryable (wire p) ++ retry p = List.filter is_retryable posted;
  holds_retryable : Forall (fun r => is_retryable r = true) (retry p);
}.

Lemma try_send_eq r p :
  try_send to_vec takes r p =
    if takes (tries p) then (true, went_out r p) else (false, did_not_go p).
Proof. unfold try_send. by destruct (encodes r) as [json ->]. Qed.

Lemma failed_sends_S p p' : tries p' = S (tries p) ->
  failed_sends p' = (failed_sends p + if takes (tries p) then 0 else 1)%nat.
Proof.
  intros E. unfold failed_sends. rewrite E, List.seq_S, filter_app, length_app. cbn. by destruct (takes (tries p)).
Qed.

Lemma filter_all_true {A} (f : A -> bool) l : Forall (fun x => f x = true) l -> List.filter f l = l.
Proof. intros H. induction H as [| x l Hx Hl IH]; cbn; [done |]. by rewrite Hx, IH. Qed.

Lemma filter_once r : is_retryable r = true -> List.filter is_retryable [r] = [r].
Proof. intros E. cbn. by rewrite E. Qed.

(** Flushing sends from the front of the queue. *)
Lemma flush_queue_spec queue p :
  Forall (fun r => is_retryable r = true) queue -> down p = false ->
  let p' := flush_queue to_vec takes queue p in
  wire p' ++ retry p' = wire p ++ queue /\ dropped p' = dropped p /\
  Forall (fun r => is_retryable r = true) (retry p') /\
  List.filter is_retryable (wire p') ++ retry p' = List.filter is_retryable (wire p) ++ queue /\
  (down p' = false -> retry p' = []) /\
  (failed_sends p' = failed_sends p + if down p' then 1 else 0)%nat.
Proof.
  intros Hq. revert p. induction Hq as [| r queue Hr Hq IH]; intros p Hd; cbn [flush_queue].
  { cbn. rewrite Hd. split_and!; try done; unfold failed_sends; cbn; lia. }
  rewrite try_send_eq. destruct (takes (tries p)) eqn:Et; cbv beta iota zeta.
  - destruct (IH (went_out r p) Hd) as (H1 & H2 & H3 & H4 & H5 & H6).
    split_and!; [etransitivity; [exact H1 |]; cbn; by rewrite <- app_assoc | exact H2 | exact H3 | etransitivity; [exact H4 |] | exact H5 | etransitivity; [exact H6 |]].
    + cbn. by rewrite filter_app, (filter_once r Hr), <- app_assoc.
    + rewrite (failed_sends_S p) by done. rewrite Et. lia.
  - cbn. split_and!; try done; try by constructor.
    rewrite (failed_sends_S p) by done. by rewrite Et.
Qed.

Lemma flush_holds posted p : holds posted p ->
  let p' := flush to_vec takes p in
  holds posted p' /\ (down p' = false -> retry p' = []) /\ (failed_sends p' = failed_sends p + if down p' then 1 else 0)%nat.
Proof.
  intros [H1 H2 H5 H6 H3 H4]. unfold flush. cbv zeta. set (p0 := p <| down := false |>).
  destruct (flush_queue_spec (retry p) p0 H4 eq_refl) as (E1 & E2 & E3 & E4 & E5 & E6). cbn in *.
  split_and!; [| done | exact E6]. constructor.
  - rewrite E2. rewrite <- length_app, E1, length_app. exact H1.
  - by rewrite E4.
  - rewrite E2. rewrite <- length_app, E4, length_app. exact H5.
  - by rewrite E2.
  - by rewrite E4.
  - exact E3.
Qed.

Lemma post_holds posted r p :
  holds posted p -> (down p = false -> retry p = []) ->
  let p' := post to_vec takes r p in
  holds (posted ++ [r]) p' /\ (down p' = false -> retry p' = []) /\
  (down p = true -> down p' = true) /\
  (failed_sends p' + (if down p then 1 else 0) = failed_sends p + if down p' then 1 else 0)%nat.
Proof.
  intros [H1 H2 H5 H6 H3 H4] Hd. unfold post.
  assert (Hsent : down p = false -> holds (posted ++ [r]) (went_out r p)).
  { intros Hn. rewrite (Hd Hn) in *. constructor; cbn; rewrite ?(Hd Hn).
    - rewrite !length_app. cbn. cbn in H1. lia.
    - rewrite app_nil_r in *. rewrite !filter_app. by apply sublist_app.
    - rewrite !filter_app, !length_app. cbn in H5. cbn [length]. lia.
    - done.
    - rewrite !filter_app, app_nil_r in *. intros Hl. rewrite H3; [done |]. rewrite length_app in Hl. lia.
    - constructor. }
  assert (Hkept : forall b n, holds (posted ++ [r]) 
    (if is_retryable r then
       let '(evicted, queue) := retry_push r (retry p) in
       let p := p <| tries := n |> <| down := b |> <| retry := queue |> in
       if evicted then p <| dropped ::= incr |> else p
     else p <| tries := n |> <| down := b |> <| dropped ::= incr |>)).
  { intros b n. destruct (is_retryable r) eqn:Er.
    - unfold retry_push. destruct (RETRY_QUEUE_LIMIT <=? length (retry p))%nat eqn:El.
      + apply Nat.leb_le in El. constructor; cbn.
        * destruct (retry p) as [| r0 q]; [unfold RETRY_QUEUE_LIMIT in El; cbn in El; lia |]. rewrite !length_app. cbn in *. lia.
        * rewrite filter_app, (filter_once r Er), app_assoc. apply sublist_app; [| done].
          etransitivity; [| exact H2]. apply sublist_app; [done |]. destruct (retry p); [done | by apply sublist_cons].
        * rewrite filter_app, (filter_once r Er), !length_app. cbn.
          destruct (retry p) as [| r0 q]; [unfold RETRY_QUEUE_LIMIT in El; cbn in El; lia |]. cbn in *. lia.
        * lia.
        * rewrite filter_app, (filter_once r Er), length_app. cbn. intros Hl. exfalso.
          apply sublist_length in H2. rewrite length_app in H2. lia.
        * apply Forall_app. split; [| by constructor]. destruct H4; [constructor | done].
      + constructor; cbn.
        * rewrite !length_app. cbn. lia.
        * rewrite filter_app, (filter_once r Er), app_assoc. by apply sublist_app.
        * rewrite filter_app, (filter_once r Er), !length_app. cbn. lia.
        * done.
        * rewrite filter_app, (filter_once r Er), app_assoc, length_app. intros Hl. rewrite H3; [done |]. lia.
        * apply Forall_app. split; [done | by constructor].
    - constructor; cbn.
      + rewrite length_app. cbn. lia.
      + rewrite filter_app. cbn. by rewrite Er, app_nil_r.
      + rewrite filter_app. cbn. rewrite Er, app_nil_r. lia.
      + lia.
      + rewrite filter_app. cbn. by rewrite Er, app_nil_r.
      + done. }
  destruct (down p) eqn:Edown.
  - specialize (Hkept true (tries p)).
    replace (p <| tries := tries p |> <| down := true |>) with p in Hkept by (destruct p; cbn in *; by rewrite Edown).
    destruct (is_retryable r); [destruct (retry_push r (retry p)) as [[] queue] |]; cbn in *; rewrite ?Edown;
      (split_and!; [exact Hkept | done | done | unfold failed_sends; cbn; lia]).
  - rewrite try_send_eq. destruct (takes (tries p)) eqn:Et; cbv beta iota zeta.
    + split_and!; [by apply Hsent | by intros _; apply Hd | done |].
      rewrite (failed_sends_S p) by done. rewrite Et. cbn. rewrite Edown. lia.
    + specialize (Hkept true (S (tries p))).
      assert (Hf : failed_sends (p <| tries ::= S |>) = (failed_sends p + 1)%nat) by (rewrite (failed_sends_S p) by done; by rewrite Et).
      destruct (is_retryable r); [cbn in *; destruct (retry_push r (retry p)) as [[] queue] |]; cbn in *;
        (split_and!; [exact Hkept | done | done | unfold failed_sends in *; cbn in *; lia]).
Qed.

Lemma post_all_holds rs posted p :
  holds posted p -> (down p = false -> retry p = []) ->
  let p' := post_all to_vec takes rs p in
  holds (posted ++ rs) p' /\ (down p' = false -> retry p' = []) /\
  (failed_sends p' + (if down p then 1 else 0) = failed_sends p + if down p' then 1 else 0)%nat.
Proof.
  revert posted p. induction rs as [| r rs IH]; intros posted p Hh Hd; cbn.
  - rewrite app_nil_r. by split_and!.
  - destruct (post_holds posted r p Hh Hd) as (H1 & H2 & _ & H4).
    destruct (IH _ _ H1 H2) as (H5 & H6 & H7). rewrite <- app_assoc in H5. split_and!; [done | done |].
    unfold post_all in *. lia.
Qed.
(** When the socket takes everything, everything held goes out. *)
Lemma flush_queue_goes queue p :
  (forall n, (tries p <= n)%nat -> takes n = true) ->
  let p' := flush_queue to_vec takes queue p in retry p' = [] /\ wire p' = wire p ++ queue.
Proof.
  revert p. induction queue as [| r queue IH]; intros p Ht; cbn [flush_queue].
  { cbn. by rewrite app_nil_r. }
  rewrite try_send_eq, Ht by lia. cbv beta iota zeta. destruct (IH (went_out r p)) as [E1 E2].
  - intros n Hn. apply Ht. cbn in Hn. lia.
  - split; [exact E1 |]. etransitivity; [exact E2 |]. cbn. by rewrite <- app_assoc.
Qed.

Lemma flush_goes p :
  Forall (fun r => is_retryable r = true) (retry p) ->
  (forall n, (tries p <= n)%nat -> takes n = true) ->
  retry (flush to_vec takes p) = [] /\
  List.filter is_retryable (wire (flush to_vec takes p)) = List.filter is_retryable (wire p) ++ retry p.
Proof.
  intros Hr Ht. unfold flush. set (p0 := p <| down := false |>).
  destruct (flush_queue_goes (retry p) p0 Ht) as [E1 E2]. split; [exact E1 |].
  cbv zeta in E2. rewrite E2. cbn. by rewrite filter_app, (filter_all_true _ _ Hr).
Qed.
End Posting.

(** *** The records of a run of the loop *)

Section Loop.
Context (number : f64 -> Json) (to_vec : LogbookRecord -> result bytes string)
  (to_vec_named : SlowPayload -> result bytes string) (takes : nat -> bool).
Context (encodes : forall r, exists json, to_vec r = Ok json).

Definition event_records (devices : list SlowDeviceConfig) (e : DeviceEvent) (a : Aggregator) : list LogbookRecord * Aggregator :=
  match e with
  | IdentEvent idents => (map ident_record idents, a)
  | SamplesEvent samples => ingest number (device_index devices samples) samples a
  end.

Fixpoint report_records (i : nat) (devices : list SlowDeviceConfig) (now previous : list SlowCounters)
    : list LogbookRecord * list SlowCounters :=
  match devices with
  | [] => ([], previous)
  | d :: devices =>
      match now !! i, previous !! i with
      | Some c, Some was =>
          let '(rs, previous) := report_records (S i) devices now (<[i := c]> previous) in
          (match counter_delta c was with Some delta => error_record (device_name d) delta :: rs | None => rs end, previous)
      | _, _ => report_records (S i) devices now previous
      end
  end.

(** What the loop hands to the poster, whatever the socket does with it. *)
Fixpoint loop_records (devices : list SlowDeviceConfig) (turns : list Turn) (a : Aggregator) (previous : list SlowCounters)
    : list LogbookRecord :=
  match turns with
  | [] => []
  | t :: turns =>
      match received t with
      | AllGone => []
      | r =>
          let '(rs, a) := match r with GotEvent e => event_records devices e a | _ => ([], a) end in
          let '(rs', previous) :=
            if report_due t then report_records 0 devices (counters_now t) previous else ([], previous) in
          rs ++ rs' ++ loop_records devices turns a previous
      end
  end.

(** A poster that holds [posted] and, once a send has failed, keeps to its queue
    for the rest of the turn. *)
Definition posting (posted : list LogbookRecord) (failed : nat) (p : LogPoster) : Prop :=
  holds posted p /\ (down p = false -> retry p = []) /\ (failed_sends takes p <= failed + if down p then 1 else 0)%nat.

Lemma posting_all rs posted failed p : posting posted failed p -> posting (posted ++ rs) failed (post_all to_vec takes rs p).
Proof.
  intros (H1 & H2 & H3). destruct (post_all_holds to_vec takes encodes rs posted p H1 H2) as (H4 & H5 & H6).
  split_and!; [done | done |]. destruct (down p), (down (post_all to_vec takes rs p)); lia.
Qed.

Lemma posting_flush posted failed p :
  posting posted failed p -> posting posted (failed + 1) (flush to_vec takes p).
Proof.
  intros (H1 & H2 & H3). destruct (flush_holds to_vec takes encodes posted p H1) as (H4 & H5 & H6).
  split_and!; [done | done |]. destruct (down p), (down (flush to_vec takes p)); lia.
Qed.

Lemma take_event_spec devices e m posted failed :
  posting posted failed (poster m) ->
  let m' := take_event number to_vec takes devices e m in
  let '(rs, a) := event_records devices e (aggregator m) in
  posting (posted ++ rs) failed (poster m') /\ aggregator m' = a /\ previous m' = previous m.
Proof.
  intros Hp. destruct e as [idents | samples]; cbn [take_event event_records].
  - split_and!; [by apply posting_all | done | done].
  - destruct (ingest number (device_index devices samples) samples (aggregator m)) as [rs a].
    split_and!; [by apply posting_all | done | done].
Qed.

Lemma report_spec i devices now m posted failed :
  posting posted failed (poster m) ->
  let m' := report_from to_vec takes i devices now m in
  let '(rs, previous') := report_records i devices now (previous m) in
  posting (posted ++ rs) failed (poster m') /\ aggregator m' = aggregator m /\ previous m' = previous'.
Proof.
  revert i m posted. induction devices as [| d devices IH]; intros i m posted Hp; cbn [report_from report_records].
  { rewrite app_nil_r. by split_and!. }
  destruct (now !! i) as [c |]; [| by apply IH]. destruct (previous m !! i) as [was |] eqn:Ew; [| by apply IH].
  set (m1 := match counter_delta c was with
    | Some delta => m <| poster ::= post to_vec takes (error_record (device_name d) delta) |> | None => m end).
  set (rs1 := match counter_delta c was with Some delta => [error_record (device_name d) delta] | None => [] end).
  assert (H1 : posting (posted ++ rs1) failed (poster m1) /\ aggregator m1 = aggregator m /\ previous m1 = previous m).
  { unfold m1, rs1. destruct (counter_delta c was); [| by rewrite app_nil_r]. split_and!; [by apply (posting_all [_]) | done | done]. }
  destruct H1 as (H1 & H2 & H3).
  set (m2 := m1 <| previous ::= <[i:=c]> |>).
  assert (E : previous m2 = <[i:=c]> (previous m)) by (cbn; by rewrite H3).
  specialize (IH (S i) m2 (posted ++ rs1) H1). rewrite E in IH.
  destruct (report_records (S i) devices now (<[i:=c]> (previous m))) as [rs previous'].
  destruct IH as (H4 & H5 & H6). split_and!; [| by rewrite H5 | done].
  unfold rs1 in H4. rewrite <- app_assoc in H4. by destruct (counter_delta c was).
Qed.

(** The rest of a turn: the status message posts nothing, the report its records. *)
Lemma rest_of_turn devices t m posted failed :
  posting posted failed (poster m) ->
  let m2 := if publish_due t then publish to_vec_named t m else m in
  let m3 := if report_due t then report_from to_vec takes 0 devices (counters_now t) m2 else m2 in
  let '(rs, previous') :=
    if report_due t then report_records 0 devices (counters_now t) (previous m) else ([], previous m) in
  posting (posted ++ rs) failed (poster m3) /\ aggregator m3 = aggregator m /\ previous m3 = previous'.
Proof.
  intros Hp m2.
  assert (H2 : poster m2 = poster m /\ aggregator m2 = aggregator m /\ previous m2 = previous m).
  { unfold m2, publish. destruct (publish_due t); [| done]. by destruct (encode_pub _ _ _ _ _ _). }
  destruct H2 as (E1 & E2 & E3). rewrite <- E1 in Hp. destruct (report_due t); [| by rewrite app_nil_r].
  pose proof (report_spec 0 devices (counters_now t) m2 _ _ Hp) as H3. cbv zeta in *. rewrite E3 in H3.
  destruct (report_records 0 devices (counters_now t) (previous m)) as [rs prev]. by rewrite <- E2.
Qed.

Lemma main_loop_spec devices turns m posted failed :
  posting posted failed (poster m) ->
  exists k, (k <= length turns)%nat /\
    posting (posted ++ loop_records devices turns (aggregator m) (previous m)) (failed + k)
      (poster (main_loop number to_vec to_vec_named takes devices turns m)).
Proof.
  revert m posted failed. induction turns as [| t turns IH]; intros m posted failed Hp; cbn [main_loop loop_records].
  { exists O. rewrite app_nil_r, Nat.add_0_r. split; [done | exact Hp]. }
  unfold main_turn. set (m0 := m <| poster ::= flush to_vec takes |>).
  assert (H0 : posting posted (failed + 1) (poster m0)) by by apply posting_flush.
  assert (Hrest : forall m1 rs a, posting (posted ++ rs) (failed + 1) (poster m1) -> aggregator m1 = a -> previous m1 = previous m ->
    exists k, (k <= S (length turns))%nat /\
    let m2 := if publish_due t then publish to_vec_named t m1 else m1 in
    let m3 := if report_due t then report_from to_vec takes 0 devices (counters_now t) m2 else m2 in
    posting (posted ++ (let '(rs', previous) :=
            if report_due t then report_records 0 devices (counters_now t) (previous m) else ([], previous m) in
          rs ++ rs' ++ loop_records devices turns a previous)) (failed + k)
      (poster (main_loop number to_vec to_vec_named takes devices turns m3))).
  { intros m1 rs a H1 Ea Ep. pose proof (rest_of_turn devices t m1 _ _ H1) as H2. cbv zeta in *. rewrite Ep in H2.
    destruct (if report_due t then _ else _) as [rs' prev]. destruct H2 as (H2 & E1 & E2).
    destruct (IH _ _ _ H2) as (k & Hk & H3). exists (S k). split; [lia |].
    rewrite E1, E2, Ea, <- !app_assoc in H3. by replace (failed + S k)%nat with (failed + 1 + k)%nat by lia. }
  destruct (received t) as [e | |]; cbn beta iota zeta.
  - pose proof (take_event_spec devices e m0 posted _ H0) as H1. cbv zeta in H1.
    change (aggregator m0) with (aggregator m) in H1. change (previous m0) with (previous m) in H1.
    destruct (event_records devices e (aggregator m)) as [rs a]. destruct H1 as (H1 & Ea & Ep). by apply Hrest.
  - apply (Hrest m0 []); [by rewrite app_nil_r | done | done].
  - exists 1%nat. rewrite app_nil_r. split; [cbn; lia | exact H0].
Qed.

Lemma posting_new : posting [] 0 poster_new.
Proof. split_and!; [constructor; cbn; try done; constructor | done | done]. Qed.

(** C36: Whatever the socket to the controller does, in any run of the loop every
    record handed to the poster either went out, or is held, or is counted as
    dropped; the records of things that happen once (IDENT, ALARM, RECOVER) go
    out in the order they were made, no more of them are missing than are
    counted, and none while at most 64 have been made; at most one send a turn
    waits in vain; and as soon as the controller takes messages again, one turn
    sends everything held. *)
Theorem once_only_records (devices : list SlowDeviceConfig) (every : Z) (turns : list Turn) :
  let p := poster (main_loop number to_vec to_vec_named takes devices turns (main_new devices every)) in
  let posted := loop_records devices turns (aggregator_new devices every) (repeat counters_default (length devices)) in
  holds posted p /\
  (failed_sends takes p <= length turns + 1)%nat /\
  ((forall n, (tries p <= n)%nat -> takes n = true) ->
     retry (flush to_vec takes p) = [] /\
     List.filter is_retryable (wire (flush to_vec takes p)) = List.filter is_retryable (wire p) ++ retry p).
Proof.
  cbv zeta.
  destruct (main_loop_spec devices turns (main_new devices every) [] 0 posting_new) as (k & Hk & H). cbn [app Nat.add] in H.
  set (p := poster (main_loop _ _ _ _ _ _ _)) in *.
  change (aggregator (main_new devices every)) with (aggregator_new devices every) in H.
  change (previous (main_new devices every)) with (repeat counters_default (length devices)) in H.
  destruct H as (H1 & H2 & H3). split_and!; [exact H1 | destruct (down p); lia |].
  intros Ht. destruct (flush_goes to_vec takes encodes p) as [E1 E2]; [apply H1 | exact Ht |]. by split.
Qed.
End Loop.

(** ** What the logbook says of a key *)

Section Keys.
Context (number : f64 -> Json).

(** The samples of a run, each with the index of its device. *)
Fixpoint history (h : list (nat * Sample)) (a : Aggregator) : list LogbookRecord * Aggregator :=
  match h with
  | [] => ([], a)
  | (i, s) :: h =>
      let '(rs, a) := ingest_one number i s a in
      let '(rs', a) := history h a in (rs ++ rs', a)
  end.

Lemma ingest_history i ss a : ingest number i ss a = history (map (pair i) ss) a.
Proof.
  revert a. induction ss as [| s ss IH]; intros a; cbn [ingest history map]; [done |].
  destruct (ingest_one number i s a) as [rs a1]. by rewrite IH.
Qed.

Lemma history_app h1 h2 a :
  history (h1 ++ h2) a = let '(rs, a) := history h1 a in let '(rs', a) := history h2 a in (rs ++ rs', a).
Proof.
  revert a. induction h1 as [| [i s] h1 IH]; intros a; cbn [history app].
  { by destruct (history h2 a). }
  destruct (ingest_one number i s a) as [rs a1]. rewrite IH. destruct (history h1 a1) as [rs1 a2].
  destruct (history h2 a2) as [rs2 a3]. by rewrite app_assoc.
Qed.

(** A record of the key [k]. *)
Definition record_key (r : LogbookRecord) : option string :=
  match r with
  | Slow _ device node _ (JObj [(param, _)]) => Some (latest_key device node param)
  | _ => None
  end.
Definition written_for (k : string) (r : LogbookRecord) : bool := bool_decide (record_key r = Some k).

Lemma filter_slow_records k evs s :
  List.filter (written_for k) (map (fun e => slow_record number e s) evs) =
    if bool_decide (key s = k) then map (fun e => slow_record number e s) evs else [].
Proof.
  induction evs as [| e evs IH]; cbn; [by case_bool_decide |]. rewrite IH. unfold written_for. cbn.
  unfold key. repeat case_bool_decide; congruence.
Qed.

(** *** Rules *)

Lemma evaluate_other r was s : matches r s = false -> evaluate r was s = None.
Proof. intros H. unfold evaluate. by rewrite H. Qed.

(** Rules that agree on what is firing say the same, and agree afterwards. *)
Lemma apply_rules_agree i rs s f f' :
  length f = length f' ->
  (forall j r, rs !! j = Some r -> matches r s = true -> f !! (i + j)%nat = f' !! (i + j)%nat) ->
  let '(evs, g) := apply_rules i rs s f in let '(evs', g') := apply_rules i rs s f' in
  evs = evs' /\ length g = length f /\ length g' = length f /\ (forall j, f !! j = f' !! j -> g !! j = g' !! j).
Proof.
  revert i f f'. induction rs as [| r rs IH]; intros i f f' Hl Hm; cbn [apply_rules]; [done |].
  assert (Hrest : forall j r', rs !! j = Some r' -> matches r' s = true -> f !! (S i + j)%nat = f' !! (S i + j)%nat).
  { intros j r' Hj Hr'. replace (S i + j)%nat with (i + S j)%nat by lia. by apply (Hm (S j) r'). }
  destruct (matches r s) eqn:Em.
  - pose proof (Hm O r eq_refl Em) as E0. rewrite Nat.add_0_r in E0. rewrite E0.
    destruct (evaluate r (default false (f' !! i)) s) as [ev |]; [| by apply IH].
    set (b := match ev with Alarm => true | Recover => false end).
    specialize (IH (S i) (<[i := b]> f) (<[i := b]> f')). rewrite !length_insert in IH. specialize (IH Hl).
    destruct (apply_rules (S i) rs s (<[i := b]> f)) as [evs g], (apply_rules (S i) rs s (<[i := b]> f')) as [evs' g'].
    destruct IH as (-> & H1 & H2 & H3).
    + intros j r' Hj Hr'. rewrite !list_lookup_insert_ne by lia. by apply (Hrest j r').
    + split_and!; try done. intros j Hj. apply H3. destruct (decide (i = j)) as [<- | Hne].
      * destruct (decide (i < length f)%nat); [by rewrite !list_lookup_insert_eq by lia |].
        by rewrite !list_insert_ge by lia.
      * by rewrite !list_lookup_insert_ne by done.
  - rewrite !(evaluate_other r _ s Em). by apply IH.
Qed.

(** A rule that does not match is left alone; one that does is firing exactly when
    the value is out of its range. *)
Lemma apply_rules_firing i rs s f :
  let '(_, g) := apply_rules i rs s f in
  length g = length f /\ (forall j, (j < i)%nat -> g !! j = f !! j) /\
  forall j r, rs !! j = Some r -> (i + j < length f)%nat ->
    g !! (i + j)%nat = if matches r s then Some (is_out_of_range r (value s)) else f !! (i + j)%nat.
Proof.
  revert i f. induction rs as [| r rs IH]; intros i f; cbn [apply_rules].
  { split_and!; [done | done |]. intros j r Hj. discriminate Hj. }
  destruct (evaluate r (default false (f !! i)) s) as [ev |] eqn:Ev.
  - set (b := match ev with Alarm => true | Recover => false end).
    specialize (IH (S i) (<[i := b]> f)). destruct (apply_rules (S i) rs s (<[i := b]> f)) as [evs g].
    rewrite length_insert in IH. destruct IH as (H1 & H2 & H3). split_and!; [done | |].
    + intros j Hj. rewrite H2, list_lookup_insert_ne by lia. done.
    + intros [| j] r' Hj Hl; cbn in Hj.
      * injection Hj as <-. rewrite Nat.add_0_r in *. rewrite H2, list_lookup_insert_eq by lia.
        unfold evaluate in Ev. destruct (matches r s); [| done]. cbn in Ev. unfold b. f_equal.
        by destruct (default false (f !! i)), (is_out_of_range r (value s)); try discriminate Ev; injection Ev as <-.
      * replace (i + S j)%nat with (S i + j)%nat in * by lia. rewrite (H3 j r' Hj Hl).
        by rewrite list_lookup_insert_ne by lia.
  - specialize (IH (S i) f). destruct (apply_rules (S i) rs s f) as [evs g]. destruct IH as (H1 & H2 & H3).
    split_and!; [done | intros j Hj; apply H2; lia |].
    intros [| j] r' Hj Hl; cbn in Hj.
    + injection Hj as <-. rewrite Nat.add_0_r in *. rewrite H2 by lia.
      unfold evaluate in Ev. destruct (matches r s); [| done]. cbn in Ev.
      apply lookup_lt_is_Some in Hl as [w Hw]. rewrite Hw in Ev |- *. cbn in Ev.
      f_equal. by destruct w, (is_out_of_range r (value s)).
    + replace (i + S j)%nat with (S i + j)%nat in * by lia. by apply H3.
Qed.

(** *** Keys do not mix *)

Definition rule_key (d : SlowDeviceConfig) (r : AlarmRule) : string := latest_key (device_name d) (rule_node r) (rule_param r).

(** Two alarm states agree on what is firing of [k]. *)
Definition alarms_agree (devices : list SlowDeviceConfig) (k : string) (all all' : list DeviceAlarms) : Prop :=
  forall i d, devices !! i = Some d -> exists f f',
    all !! i = Some (mkAlarms (alarms d) f) /\ all' !! i = Some (mkAlarms (alarms d) f') /\
    length f = length (alarms d) /\ length f' = length (alarms d) /\
    forall j r, alarms d !! j = Some r -> rule_key d r = k -> f !! j = f' !! j.

Definition keys_agree (devices : list SlowDeviceConfig) (k : string) (a a' : Aggregator) : Prop :=
  policy a = policy a' /\ latest a !! k = latest a' !! k /\ logged a !! k = logged a' !! k /\
  alarms_agree devices k (device_alarms a) (device_alarms a').

(** Each rule names its node; each sample is its device's. *)
Definition rules_name_nodes (devices : list SlowDeviceConfig) : Prop :=
  forall d, d ∈ devices -> Forall (fun r => is_Some (rule_node r)) (alarms d).
Definition from_devices (devices : list SlowDeviceConfig) (h : list (nat * Sample)) : Prop :=
  Forall (fun '(i, s) => exists d, devices !! i = Some d /\ device_name d = sample_device s) h.

Lemma matches_key d r s :
  device_name d = sample_device s -> is_Some (rule_node r) -> matches r s = true -> rule_key d r = key s.
Proof.
  intros Hd [n Hn] Hm. unfold matches in Hm. apply andb_prop in Hm as [Hp Hq]. apply bool_decide_eq_true in Hp.
  apply orb_prop in Hq as [Hq | Hq]; apply bool_decide_eq_true in Hq; [congruence |].
  unfold rule_key, key. by rewrite Hd, Hp, Hq.
Qed.

Lemma check_rules_agree devices k i s d all all' :
  rules_name_nodes devices -> devices !! i = Some d -> device_name d = sample_device s ->
  alarms_agree devices k all all' -> key s = k ->
  let '(evs, al) := check_rules i s all in let '(evs', al') := check_rules i s all' in
  evs = evs' /\ alarms_agree devices k al al'.
Proof.
  intros Hn Hi Hd Ha Hk. destruct (Ha i d Hi) as (f & f' & E & E' & Hl & Hl' & Hf). unfold check_rules. rewrite E, E'. cbn.
  pose proof (apply_rules_agree 0 (alarms d) s f f') as H. specialize (H ltac:(congruence)).
  pose proof (apply_rules_agree 0 (alarms d) s f f' ltac:(congruence)) as Hag.
  destruct (apply_rules 0 (alarms d) s f) as [evs g], (apply_rules 0 (alarms d) s f') as [evs' g'].
  destruct Hag as (-> & H1 & H2 & H3).
  { intros j r Hj Hm. apply (Hf j r Hj). rewrite <- Hk. apply matches_key; [done | | done].
    pose proof (Hn d (list_elem_of_lookup_2 _ _ _ Hi)) as Hall. by apply (Forall_lookup_1 _ _ _ _ Hall Hj). }
  split; [done |]. intros i' d' Hi'. destruct (Ha i' d' Hi') as (f0 & f0' & E0 & E0' & Hl0 & Hl0' & Hf0).
  destruct (decide (i = i')) as [<- | Hne].
  - rewrite Hi in Hi'. injection Hi' as <-. exists g, g'.
    rewrite !list_lookup_insert_eq by (by eapply lookup_lt_Some). split_and!; try congruence.
    intros j r Hj Hr. apply H3. by apply (Hf j r).
  - exists f0, f0'. rewrite !list_lookup_insert_ne by done. by split_and!.
Qed.

Lemma check_rules_other devices k i s d all all' :
  rules_name_nodes devices -> devices !! i = Some d -> device_name d = sample_device s ->
  alarms_agree devices k all all' -> key s <> k ->
  alarms_agree devices k (check_rules i s all).2 all'.
Proof.
  intros Hn Hi Hd Ha Hk. destruct (Ha i d Hi) as (f & f' & E & E' & Hl & Hl' & Hf). unfold check_rules. rewrite E. cbn.
  pose proof (apply_rules_firing 0 (alarms d) s f) as H. destruct (apply_rules 0 (alarms d) s f) as [evs g].
  destruct H as (H1 & _ & H3). intros i' d' Hi'. destruct (Ha i' d' Hi') as (f0 & f0' & E0 & E0' & Hl0 & Hl0' & Hf0).
  destruct (decide (i = i')) as [<- | Hne].
  - rewrite Hi in Hi'. injection Hi' as <-. exists g, f'. cbn.
    rewrite list_lookup_insert_eq by (by eapply lookup_lt_Some). split_and!; try congruence.
    intros j r Hj Hr. rewrite <- (Hf j r Hj Hr). assert (Hlt : (0 + j < length f)%nat) by (apply lookup_lt_Some in Hj; lia).
    pose proof (H3 j r Hj Hlt) as Hg. cbn [Nat.add] in Hg. rewrite Hg.
    destruct (matches r s) eqn:Em; [| done]. exfalso. apply Hk. rewrite <- Hr. symmetry. apply matches_key; [done | | done].
    pose proof (Hn d (list_elem_of_lookup_2 _ _ _ Hi)) as Hall. by apply (Forall_lookup_1 _ _ _ _ Hall Hj).
  - exists f0, f0'. cbn. rewrite list_lookup_insert_ne by done. by split_and!.
Qed.

Lemma keys_step devices k i s d a a' :
  rules_name_nodes devices -> devices !! i = Some d -> device_name d = sample_device s -> keys_agree devices k a a' ->
  if decide (key s = k) then
    fst (ingest_one number i s a) = fst (ingest_one number i s a') /\
    keys_agree devices k (snd (ingest_one number i s a)) (snd (ingest_one number i s a'))
  else keys_agree devices k (snd (ingest_one number i s a)) a'.
Proof.
  intros Hn Hi Hd (H1 & H2 & H3 & H4). unfold ingest_one. destruct (decide (key s = k)) as [Hk | Hk].
  - pose proof (check_rules_agree devices k i s d _ _ Hn Hi Hd H4 Hk) as H.
    destruct (check_rules i s (device_alarms a)) as [evs al], (check_rules i s (device_alarms a')) as [evs' al'].
    destruct H as [<- H]. cbn [fst snd]. rewrite Hk, H1, H2.
    set (events := map alarm_text (evs ++ hardware_edge (default false (alarm <$> latest a' !! k)) (alarm s))).
    assert (E : forall m m' : gmap string (f64 * Z), m !! k = m' !! k ->
      match events with [] => m | _ => <[k := (value s, ts_ms s)]> m end !! k =
      match events with [] => m' | _ => <[k := (value s, ts_ms s)]> m' end !! k).
    { intros m m' Em. destruct events; [done |]. by rewrite !lookup_insert_eq. }
    rewrite (E _ _ H3). split; [done |]. split_and!; cbn; [done | by rewrite !lookup_insert_eq | | done].
    destruct (should_log _ _ _ _); [by rewrite !lookup_insert_eq | by apply E].
  - pose proof (check_rules_other devices k i s d _ _ Hn Hi Hd H4 Hk) as H.
    destruct (check_rules i s (device_alarms a)) as [evs al]. cbn [fst snd] in *.
    set (events := map alarm_text (evs ++ hardware_edge (default false (alarm <$> latest a !! key s)) (alarm s))).
    split_and!; cbn; [done | by rewrite lookup_insert_ne | | done].
    destruct (should_log _ _ _ _); rewrite ?lookup_insert_ne by done; destruct events; rewrite ?lookup_insert_ne by done; done.
Qed.

Lemma ingest_one_key i s a k :
  List.filter (written_for k) (fst (ingest_one number i s a)) =
    if decide (key s = k) then fst (ingest_one number i s a) else [].
Proof.
  unfold ingest_one. destruct (check_rules i s (device_alarms a)) as [evs al]. cbn [fst].
  rewrite filter_slow_records. case_bool_decide; by destruct (decide (key s = k)).
Qed.

Lemma keys_history devices k h a a' :
  rules_name_nodes devices -> from_devices devices h -> keys_agree devices k a a' ->
  List.filter (written_for k) (fst (history h a)) =
    fst (history (List.filter (fun '(_, s) => bool_decide (key s = k)) h) a') /\
  keys_agree devices k (snd (history h a)) (snd (history (List.filter (fun '(_, s) => bool_decide (key s = k)) h) a')).
Proof.
  intros Hn Hh. revert a a'. induction Hh as [| [i s] h (d & Hi & Hd) Hh IH]; intros a a' Ha; cbn [history List.filter]; [done |].
  pose proof (keys_step devices k i s d a a' Hn Hi Hd Ha) as Hs. pose proof (ingest_one_key i s a k) as Hf.
  destruct (ingest_one number i s a) as [rs a1] eqn:E1. cbn [fst snd] in *.
  destruct (decide (key s = k)) as [Hk | Hk].
  - rewrite bool_decide_eq_true_2 by done. cbn [history].
    destruct (ingest_one number i s a') as [rs' a1'] eqn:E1'. cbn [fst snd] in *. destruct Hs as [-> Hs].
    destruct (IH a1 a1' Hs) as [H1 H2]. destruct (history h a1) as [rs1 a2]. cbn [fst snd] in *.
    destruct (history (List.filter _ h) a1') as [rs1' a2']. cbn [fst snd] in *.
    rewrite filter_app, Hf, H1. by split.
  - rewrite bool_decide_eq_false_2 by done. destruct (IH a1 a' Hs) as [H1 H2]. destruct (history h a1) as [rs1 a2].
    cbn [fst snd] in *. rewrite filter_app, Hf. by split.
Qed.

Lemma keys_agree_refl devices every k :
  keys_agree devices k (aggregator_new devices every) (aggregator_new devices every).
Proof.
  split_and!; [done | done | done |]. intros i d Hi. eexists _, _. cbn. rewrite list_lookup_fmap, Hi. cbn.
  split_and!; [done | done | by rewrite repeat_length | by rewrite repeat_length | done].
Qed.

(** When every alarm rule names its node, what the logbook is told of one
    reading does not depend on the others: the records of a key in any history
    of samples, from any devices in any order, are exactly those the samples of
    that key would make alone. *)
Theorem slow_keys_independent (devices : list SlowDeviceConfig) (every : Z) (h : list (nat * Sample)) (k : string) :
  rules_name_nodes devices -> from_devices devices h ->
  List.filter (written_for k) (fst (history h (aggregator_new devices every))) =
    fst (history (List.filter (fun '(_, s) => bool_decide (key s = k)) h) (aggregator_new devices every)).
Proof. intros Hn Hh. by apply (keys_history devices k h); [| | apply keys_agree_refl]. Qed.

(** *** What the logbook is to be told *)

(** A key or a rule told by the history alone: the last reading of [k] ... *)
Definition last_read (k : string) (h : list (nat * Sample)) : option Sample :=
  snd <$> list.last (List.filter (fun '(_, s) => bool_decide (key s = k)) h).

(** ... the readings a rule watches: its parameter, of its node or of any ... *)
Definition watches (r : AlarmRule) (s : Sample) : bool :=
  bool_decide (param s = rule_param r) &&
  match rule_node r with
  | None => true
  | Some node => bool_decide (sample_node s = Some node)
  end.

Definition beyond (r : AlarmRule) (v : f64) : bool := f64_lt v (lo r) || f64_lt (hi r) v.

(** ... and whether a rule of the [i]th device is in alarm: when the last of those
    readings is beyond its range. *)
Definition in_alarm (i : nat) (r : AlarmRule) (h : list (nat * Sample)) : bool :=
  match list.last (List.filter (fun '(j, s) => bool_decide (j = i) && watches r s) h) with
  | Some (_, s) => beyond r (value s)
  | None => false
  end.

Definition edge (was now : bool) : list string :=
  match was, now with
  | false, true => ["ALARM"]
  | true, false => ["RECOVER"]
  | _, _ => []
  end.

(** Against what was last written: two percent away, or the time is up. *)
Definition worth_writing (every : Z) (last : option Sample) (s : Sample) : bool :=
  match last with
  | None => true
  | Some w =>
      f64_ge (f64_abs (f64_sub (value s) (value w)))
        (f64_max (f64_mul (f64_of_decimal false 2 (-2)) (f64_abs (value w))) (f64_of_decimal false 1 (-9))) ||
      (Z.min (2 ^ 64 - 1) (every * 1000) <=? Z.max 0 (ts_ms s - ts_ms w))
  end.

(** What was told of [k] last, of all that was told: a reading and its events. *)
Definition last_told (k : string) (told : list (Sample * list string)) : option Sample :=
  fst <$> list.last (List.filter (fun '(s, events) => bool_decide (key s = k) && negb (bool_decide (events = []))) told).

(** What is to be told of the reading [s] of the [i]th device: the edges of its
    rules and of its own flag; and its value when that is worth it. *)
Definition due (devices : list SlowDeviceConfig) (every : Z) (past : list (nat * Sample)) (told : list (Sample * list string))
    (i : nat) (s : Sample) : list string :=
  let edges :=
    flat_map (fun r => if watches r s then edge (in_alarm i r past) (beyond r (value s)) else [])
      (match devices !! i with Some d => alarms d | None => [] end) ++
    edge (match last_read (key s) past with Some before => alarm before | None => false end) (alarm s) in
  edges ++ if worth_writing every (match edges with [] => last_told (key s) told | _ => Some s end) s then ["VALUE"] else [].

Fixpoint journal (devices : list SlowDeviceConfig) (every : Z) (past : list (nat * Sample))
    (told : list (Sample * list string)) (h : list (nat * Sample)) : list (Sample * list string) :=
  match h with
  | [] => []
  | (i, s) :: h =>
      let events := due devices every past told i s in
      (s, events) :: journal devices every (past ++ [(i, s)]) (told ++ [(s, events)]) h
  end.

(** The records of a journal. *)
Definition told_records (told : list (Sample * list string)) : list LogbookRecord :=
  flat_map (fun '(s, events) => map (fun e => slow_record number e s) events) told.

(** *** The aggregator keeps the journal *)

Lemma matches_watches r s : matches r s = watches r s.
Proof.
  unfold matches, watches. destruct (rule_node r) as [n |]; repeat case_bool_decide; try done; congruence.
Qed.

Lemma out_of_range_beyond r v : is_out_of_range r v = beyond r v.
Proof. done. Qed.

Lemma should_log_worth every last s :
  should_log (mkPolicy every) ((fun w => (value w, ts_ms w)) <$> last) (value s) (ts_ms s) = worth_writing every last s.
Proof.
  destruct last as [w |]; [| done]. unfold should_log, worth_writing. cbn [fmap option_fmap option_map log_every_s].
  unfold LOG_RELATIVE_THRESHOLD, LOG_ABSOLUTE_FLOOR, U64_MAX. by destruct (f64_ge _ _).
Qed.

Lemma last_filter_snoc {A} (p : A -> bool) (l : list A) (x : A) :
  list.last (List.filter p (l ++ [x])) = if p x then Some x else list.last (List.filter p l).
Proof. rewrite List.filter_app. cbn [List.filter]. destruct (p x); [by rewrite last_snoc | by rewrite app_nil_r]. Qed.

Lemma last_read_snoc k h i s : last_read k (h ++ [(i, s)]) = if decide (key s = k) then Some s else last_read k h.
Proof. unfold last_read. rewrite last_filter_snoc. case_bool_decide; by destruct (decide _). Qed.

Lemma in_alarm_snoc i r h j s :
  in_alarm i r (h ++ [(j, s)]) = if decide (j = i /\ watches r s = true) then beyond r (value s) else in_alarm i r h.
Proof.
  unfold in_alarm. rewrite last_filter_snoc. destruct (decide _) as [[-> Hw] | Hn].
  - by rewrite bool_decide_eq_true_2, Hw by done.
  - case_bool_decide; [| done]. destruct (watches r s); [| done]. by destruct Hn.
Qed.

Lemma last_told_snoc k told s events :
  last_told k (told ++ [(s, events)]) = if decide (key s = k /\ events <> []) then Some s else last_told k told.
Proof.
  unfold last_told. rewrite last_filter_snoc. destruct (decide _) as [[Hk He] | Hn].
  - rewrite bool_decide_eq_true_2 by done. by rewrite bool_decide_eq_false_2.
  - case_bool_decide; [| done]. case_bool_decide; [done |]. by destruct Hn.
Qed.

(** What the rules say, when their flags are [was]. *)
Lemma apply_rules_events n rs s f (was : AlarmRule -> bool) :
  (forall j r, rs !! j = Some r -> f !! (n + j)%nat = Some (was r)) ->
  map alarm_text (fst (apply_rules n rs s f)) =
    flat_map (fun r => if watches r s then edge (was r) (beyond r (value s)) else []) rs.
Proof.
  revert n f. induction rs as [| r rs IH]; intros n f Hf; cbn [apply_rules flat_map]; [done |].
  assert (Hrest : forall f' : list bool, (forall m, m <> n -> f' !! m = f !! m) ->
    forall j r', rs !! j = Some r' -> f' !! (S n + j)%nat = Some (was r')).
  { intros f' E j r' Hj. rewrite E by lia. replace (S n + j)%nat with (n + S j)%nat by lia. by apply Hf. }
  pose proof (Hf O r eq_refl) as H0. rewrite Nat.add_0_r in H0. rewrite H0.
  change (default false (Some (was r))) with (was r). unfold evaluate.
  rewrite matches_watches, out_of_range_beyond. destruct (watches r s); cbn [negb]; [| by apply IH, Hrest].
  destruct (was r), (beyond r (value s)); cbn [edge app].
  - by apply IH, Hrest.
  - specialize (IH (S n) (<[n := false]> f) (Hrest _ (fun m Hm => list_lookup_insert_ne f n m false (not_eq_sym Hm)))).
    destruct (apply_rules (S n) rs s (<[n := false]> f)) as [evs g]. cbn [fst map alarm_text] in *. by rewrite <- IH.
  - specialize (IH (S n) (<[n := true]> f) (Hrest _ (fun m Hm => list_lookup_insert_ne f n m true (not_eq_sym Hm)))).
    destruct (apply_rules (S n) rs s (<[n := true]> f)) as [evs g]. cbn [fst map alarm_text] in *. by rewrite <- IH.
  - by apply IH, Hrest.
Qed.

(** The flags of the [i]th device. *)
Definition flags (i : nat) (d : SlowDeviceConfig) (past : list (nat * Sample)) : DeviceAlarms :=
  mkAlarms (alarms d) (map (fun r => in_alarm i r past) (alarms d)).

Definition flags_right (devices : list SlowDeviceConfig) (past : list (nat * Sample)) (all : list DeviceAlarms) : Prop :=
  forall i, all !! i = (fun d => flags i d past) <$> devices !! i.

Lemma check_rules_right devices past i s all : flags_right devices past all ->
  map alarm_text (fst (check_rules i s all)) =
    flat_map (fun r => if watches r s then edge (in_alarm i r past) (beyond r (value s)) else [])
      (match devices !! i with Some d => alarms d | None => [] end) /\
  flags_right devices (past ++ [(i, s)]) (snd (check_rules i s all)).
Proof.
  intros Hall. unfold check_rules. rewrite (Hall i). destruct (devices !! i) as [d |] eqn:Hd; cbn [fmap option_fmap option_map].
  2: { split; [done |]. intros j. cbn [snd]. rewrite (Hall j). destruct (devices !! j) as [d' |] eqn:Hj; [| done].
       cbn. f_equal. unfold flags. f_equal. apply map_ext. intros r. rewrite in_alarm_snoc.
       destruct (decide _) as [[-> _] |]; [congruence | done]. }
  cbn [rules firing flags].
  pose proof (apply_rules_events 0 (alarms d) s (map (fun r => in_alarm i r past) (alarms d)) (fun r => in_alarm i r past)) as He.
  pose proof (apply_rules_firing 0 (alarms d) s (map (fun r => in_alarm i r past) (alarms d))) as Hf.
  destruct (apply_rules 0 (alarms d) s (map (fun r => in_alarm i r past) (alarms d))) as [evs g]. cbn [fst snd] in *. split.
  - apply He. intros j r Hj. cbn. by rewrite list_lookup_fmap, Hj.
  - destruct Hf as (Hl & _ & Hf). intros j. destruct (decide (j = i)) as [-> | Hne].
    + rewrite list_lookup_insert_eq by (apply lookup_lt_is_Some; rewrite (Hall i), Hd; by eexists). rewrite Hd. cbn. f_equal. unfold flags. f_equal.
      rewrite length_map in *. apply list_eq. intros m. destruct (alarms d !! m) as [r |] eqn:Hm.
      * assert (Hlt : (0 + m < length (alarms d))%nat) by (by apply lookup_lt_Some in Hm).
        pose proof (Hf m r Hm Hlt) as Hg. cbn [Nat.add] in Hg. rewrite Hg, !list_lookup_fmap, Hm, matches_watches. cbn [fmap option_fmap option_map].
        rewrite in_alarm_snoc. destruct (watches r s); destruct (decide _) as [[] |]; naive_solver.
      * rewrite list_lookup_fmap, Hm. apply lookup_ge_None_2. apply lookup_ge_None_1 in Hm. lia.
    + rewrite list_lookup_insert_ne by done. rewrite (Hall j). destruct (devices !! j) as [d' |]; [| done].
      cbn. f_equal. unfold flags. f_equal. apply map_ext. intros r. rewrite in_alarm_snoc.
      destruct (decide _) as [[-> _] |]; [congruence | done].
Qed.

(** The aggregator after [past], of which [told] was told. *)
Record reflects (devices : list SlowDeviceConfig) (every : Z) (past : list (nat * Sample)) (told : list (Sample * list string))
    (a : Aggregator) : Prop := mkReflects {
  reflects_policy : policy a = mkPolicy every;
  reflects_flags : flags_right devices past (device_alarms a);
  reflects_latest : forall k, latest a !! k = last_read k past;
  reflects_logged : forall k, logged a !! k = (fun w => (value w, ts_ms w)) <$> last_told k told;
}.

Lemma ingest_one_due devices every past told i s a : reflects devices every past told a ->
  let events := due devices every past told i s in
  fst (ingest_one number i s a) = map (fun e => slow_record number e s) events /\
  reflects devices every (past ++ [(i, s)]) (told ++ [(s, events)]) (snd (ingest_one number i s a)).
Proof.
  intros [Hp Hf Hl Hg]. cbv zeta. destruct (check_rules_right devices past i s _ Hf) as [He Hf']. unfold ingest_one, due.
  destruct (check_rules i s (device_alarms a)) as [ruled al]. cbn [fst snd] in *. rewrite (map_app alarm_text), He.
  assert (Hh : map alarm_text (hardware_edge (default false (alarm <$> latest a !! key s)) (alarm s)) =
    edge (match last_read (key s) past with Some before => alarm before | None => false end) (alarm s)).
  { rewrite Hl. destruct (last_read _ _) as [b |]; cbn; [destruct (alarm b) |]; by destruct (alarm s). }
  rewrite Hh. set (edges := flat_map _ _ ++ edge _ _).
  set (m := match edges with [] => logged a | _ => _ end).
  assert (Hm : m !! key s = (fun w => (value w, ts_ms w)) <$> match edges with [] => last_told (key s) told | _ => Some s end).
  { unfold m. destruct edges; [by rewrite Hg | by rewrite lookup_insert_eq]. }
  rewrite Hp, Hm, should_log_worth. set (b := worth_writing _ _ _). split; [by destruct b |].
  constructor; cbn [policy device_alarms latest logged]; [done | done | |].
  - intros k. rewrite last_read_snoc. destruct (decide _) as [<- | Hne]; [by rewrite lookup_insert_eq | by rewrite lookup_insert_ne].
  - intros k. rewrite last_told_snoc. unfold m.
    destruct (decide (key s = k)) as [<- | Hne].
    + destruct b.
      * rewrite decide_True by (split; [done | by destruct edges]). by rewrite lookup_insert_eq.
      * rewrite app_nil_r. destruct edges as [| e es].
        -- rewrite decide_False by naive_solver. by rewrite Hg.
        -- rewrite decide_True by done. by rewrite lookup_insert_eq.
    + rewrite decide_False by naive_solver. destruct b, edges; rewrite ?lookup_insert_ne by done; by rewrite Hg.
Qed.

Lemma history_journal devices every h : forall past told a, reflects devices every past told a ->
  let told' := journal devices every past told h in
  fst (history h a) = told_records told' /\ reflects devices every (past ++ h) (told ++ told') (snd (history h a)).
Proof.
  induction h as [| [i s] h IH]; intros past told a Ha; cbn [history journal]; [by rewrite !app_nil_r |].
  destruct (ingest_one_due devices every past told i s a Ha) as [E Ha']. cbv zeta in *. destruct (ingest_one number i s a) as [rs a1].
  cbn [fst snd] in *. destruct (IH _ _ a1 Ha') as [E' Ha'']. destruct (history h a1) as [rs' a2]. cbn [fst snd] in *.
  rewrite <- !app_assoc in Ha''. cbn [app] in Ha''. split; [| done]. unfold told_records in *. cbn [flat_map]. by rewrite E, E'.
Qed.

Lemma reflects_new devices every : reflects devices every [] [] (aggregator_new devices every).
Proof.
  constructor; cbn; [done | | by intros k; rewrite lookup_empty | by intros k; rewrite lookup_empty].
  intros i. rewrite list_lookup_fmap. destruct (devices !! i) as [d |]; [| done]. cbn. unfold flags. f_equal. f_equal.
  induction (alarms d) as [| r rs IH]; [done |]. cbn. by rewrite IH.
Qed.

(** *** The logbook keeps up *)

(** What was last written of a reading is what was last read of it, or it was not
    worth writing again. *)
Definition near (every : Z) (written read : Sample) : Prop := written = read \/ worth_writing every (Some written) read = false.

Lemma journal_keeps_up devices every h : forall past told,
  (forall k s, last_read k past = Some s -> exists w, last_told k told = Some w /\ near every w s) ->
  forall k s, last_read k (past ++ h) = Some s -> exists w, last_told k (told ++ journal devices every past told h) = Some w /\ near every w s.
Proof.
  induction h as [| [i s0] h IH]; intros past told Ht k s; cbn [journal]; [by rewrite !app_nil_r; apply Ht |].
  set (events := due devices every past told i s0). intros Hk.
  specialize (IH (past ++ [(i, s0)]) (told ++ [(s0, events)])). rewrite <- !app_assoc in IH. cbn [app] in IH. apply (IH); [| done].
  clear IH Hk. intros k' s'. rewrite last_read_snoc, last_told_snoc. destruct (decide (key s0 = k')) as [<- | Hne].
  - intros [= <-]. destruct (decide _) as [_ | Hn]; [exists s0; split; [done | by left] |].
    assert (He : events = []) by (destruct events; [done | by destruct Hn]). unfold events, due in He.
    apply app_eq_nil in He as [He1 He2]. rewrite He1 in He2.
    destruct (last_told (key s0) told) as [w |] eqn:Ew; [| done]. exists w. split; [done |]. right. by destruct (worth_writing _ _ _).
  - rewrite decide_False by naive_solver. apply Ht.
Qed.

Lemma last_told_record k told w : last_told k told = Some w ->
  key w = k /\ exists e, list.last (List.filter (written_for k) (told_records told)) = Some (slow_record number e w).
Proof.
  unfold last_told, told_records. induction told as [| [s events] told IH] using rev_ind; [done |].
  rewrite last_filter_snoc, flat_map_app, List.filter_app. cbn [flat_map]. rewrite app_nil_r, filter_slow_records.
  case_bool_decide as Hk; cbn [andb]; [| rewrite app_nil_r; exact IH].
  destruct events as [| e events _] using rev_ind; [cbn [map]; rewrite app_nil_r; exact IH |].
  rewrite bool_decide_eq_false_2 by (by destruct events). cbn [negb fmap option_fmap option_map fst]. intros [= <-].
  split; [done |]. exists e. by rewrite (map_app _ events), app_assoc; cbn [map]; rewrite last_snoc.
Qed.

Lemma last_told_in k told w : last_told k told = Some w -> w ∈ map fst told.
Proof.
  unfold last_told. destruct (list.last _) as [[s es] |] eqn:E; [| done]. intros [= <-].
  apply last_Some_elem_of, list_elem_of_In, filter_In in E as [Hin _]. apply list_elem_of_In. by apply (in_map fst) in Hin.
Qed.

Lemma journal_samples devices every h : forall past told, map fst (journal devices every past told h) = map snd h.
Proof. induction h as [| [i s] h IH]; intros past told; [done |]. cbn. by rewrite IH. Qed.

(** The last record of a key, and what it is of. *)
Lemma history_keeps_up devices every h k read : last_read k h = Some read ->
  exists event written, written ∈ map snd h /\ key written = k /\ near every written read /\
    list.last (List.filter (written_for k) (fst (history h (aggregator_new devices every)))) = Some (slow_record number event written).
Proof.
  intros Hr. destruct (history_journal devices every h [] [] _ (reflects_new devices every)) as [-> _].
  destruct (journal_keeps_up devices every h [] []) with (k := k) (s := read) as (w & Hw & Hn); [done | done |]. cbn [app] in Hw.
  destruct (last_told_record k _ w Hw) as [Hk [e He]]. exists e, w. split_and!; try done.
  apply last_told_in in Hw. by rewrite journal_samples in Hw.
Qed.

(** Batches of readings, as the drivers deliver them. *)
Fixpoint ingest_all (batches : list (nat * list Sample)) (a : Aggregator) : list LogbookRecord * Aggregator :=
  match batches with
  | [] => ([], a)
  | (i, samples) :: batches =>
      let '(rs, a) := ingest number i samples a in
      let '(rs', a) := ingest_all batches a in (rs ++ rs', a)
  end.

Definition readings_of (batches : list (nat * list Sample)) : list (nat * Sample) :=
  flat_map (fun '(i, samples) => map (pair i) samples) batches.

Lemma ingest_all_history batches a : ingest_all batches a = history (readings_of batches) a.
Proof.
  revert a. induction batches as [| [i samples] batches IH]; intros a; [done |]. cbn [ingest_all readings_of flat_map].
  rewrite history_app, ingest_history. destruct (history (map (pair i) samples) a) as [rs a1]. by rewrite IH.
Qed.

(** C37: Whatever the drivers deliver, the logbook is told of each reading exactly
    what is due, in order: an ALARM or a RECOVER when a rule that watches it - or
    the device's own flag - changes sides since the last reading it watched, and
    its value when nothing was told of that parameter before, or it is two percent
    from what was told last, or the time is up.  So it is never behind: the last
    record of a parameter is of its last reading, or of one that needs no other
    record; and a rule is in alarm exactly when the last reading it watches is out
    of its range. *)
Theorem slow_log_keeps_up (devices : list SlowDeviceConfig) (every : Z) (batches : list (nat * list Sample)) :
  let h := readings_of batches in
  let '(rs, a) := ingest_all batches (aggregator_new devices every) in
  rs = told_records (journal devices every [] [] h) /\
  (forall k read, last_read k h = Some read -> exists event written,
     list.last (List.filter (written_for k) rs) = Some (slow_record number event written) /\
     written ∈ map snd h /\ key written = k /\ near every written read) /\
  (forall i d, devices !! i = Some d ->
     device_alarms a !! i = Some (mkAlarms (alarms d) (map (fun r => in_alarm i r h) (alarms d)))).
Proof.
  cbv zeta. rewrite ingest_all_history. pose proof (history_keeps_up devices every (readings_of batches)) as Hk.
  destruct (history_journal devices every (readings_of batches) [] [] _ (reflects_new devices every)) as [E Ha].
  destruct (history (readings_of batches) (aggregator_new devices every)) as [rs a]. cbn [fst snd app] in *.
  split; [exact E |]. split.
  - intros k read Hr. destruct (Hk k read Hr) as (e & w & Hin & Hkey & Hn & Hlast). by exists e, w.
  - intros i d Hi. pose proof (reflects_flags _ _ _ _ _ Ha i) as Hf. by rewrite Hi in Hf.
Qed.
End Keys.

(** No two devices have one name. *)
Definition names_distinct (devices : list SlowDeviceConfig) : Prop :=
  forall i j d d', devices !! i = Some d -> devices !! j = Some d' -> device_name d = device_name d' -> i = j.

(** ** Two things to know of alarm rules *)

(** A reading that is not a number is in every range: it ends an alarm. *)
Lemma nan_ends_alarm r s : matches r s = true -> value s = SpecFloat.S754_nan -> evaluate r true s = Some Recover.
Proof. intros Hm Hv. unfold evaluate, is_out_of_range. rewrite Hm, Hv. by destruct (lo r), (hi r). Qed.

Definition decimal (n : Z) : f64 := f64_of_Z n.
Definition gas_sample (node n ts : Z) : Sample := mkSample "gas" (Some node) "fmeasure" (decimal n) "ln/h" ts false.
Definition gas_with (r : AlarmRule) : SlowDeviceConfig :=
  mkSlowDevice "bronkhorst_flowbus" "gas" (Some "/dev/ttyUSB0") None (Keyword "scan") "" [r] None [].
Definition no_number (_ : f64) : Json := JNull.

Definition event_of (r : LogbookRecord) : string := match r with Slow _ _ _ event _ => event | _ => "" end.

(** A rule for all nodes has one alarm between them: of two steady readings, one
    in range and one out of it, each raises or ends the other's alarm every time. *)
Lemma any_node_rule_flaps :
  let steady := [gas_sample 4 200 0; gas_sample 5 100 0] in
  let a := snd (ingest no_number 0 steady
    (aggregator_new [gas_with (mkRule None "fmeasure" (decimal 90) (decimal 110))] 60)) in
  map event_of (fst (ingest no_number 0 steady a)) = ["ALARM"; "RECOVER"] /\
  map event_of (fst (ingest no_number 0 steady (snd (ingest no_number 0 steady a)))) = ["ALARM"; "RECOVER"].
Proof. vm_compute. by split. Qed.

(** ** A run to try it on *)

Definition gas : SlowDeviceConfig := gas_with (mkRule (Some 4) "fmeasure" (decimal 90) (decimal 110)).

(** The controller is away for the first two sends; then node 4 leaves its range
    and comes back while node 5 stays. *)
Definition gas_run : list (nat * Sample) :=
  [(0%nat, gas_sample 4 100 1000); (0%nat, gas_sample 5 200 1000); (0%nat, gas_sample 4 120 2000);
   (0%nat, gas_sample 5 201 2000); (0%nat, gas_sample 4 101 3000)].

Definition quiet (r : Received) : Turn := mkTurn r false 0 0 false [counters_default] None.
Definition gas_turns : list Turn :=
  [quiet (GotEvent (IdentEvent [mkIdent "gas" (Some 4) ∅]));
   quiet (GotEvent (SamplesEvent [gas_sample 4 120 1000; gas_sample 5 200 1000])); quiet NothingYet].

Definition encode_nothing (_ : LogbookRecord) : result bytes string := Ok [].

Lemma once_only_records_witness :
  let p := poster (main_loop no_number encode_nothing (fun _ => Ok []) (fun n => 2 <=? n)%nat [gas] gas_turns (main_new [gas] 60)) in
  map event_of (wire p) = ["IDENT"; "ALARM"] /\ dropped p = 1 /\
  holds (loop_records no_number [gas] gas_turns (aggregator_new [gas] 60) [counters_default]) p.
Proof.
  split; [reflexivity |]. split; [reflexivity |].
  exact (proj1 (once_only_records no_number encode_nothing (fun _ => Ok []) (fun n => 2 <=? n)%nat
    (fun _ => ex_intro _ [] eq_refl) [gas] 60 gas_turns)).
Defined.

Lemma gas_names_nodes : rules_name_nodes [gas].
Proof.
  intros d Hd. apply elem_of_cons in Hd as [-> | Hd]; [| by apply elem_of_nil in Hd].
  repeat constructor. by exists 4.
Qed.

Lemma gas_from_devices : from_devices [gas] gas_run.
Proof. repeat constructor; by exists gas. Qed.

Lemma slow_keys_independent_witness :
  map event_of (List.filter (written_for "gas/4/fmeasure") (fst (history no_number gas_run (aggregator_new [gas] 60)))) =
    ["VALUE"; "ALARM"; "RECOVER"] /\
  List.filter (written_for "gas/4/fmeasure") (fst (history no_number gas_run (aggregator_new [gas] 60))) =
  fst (history no_number [(0%nat, gas_sample 4 100 1000); (0%nat, gas_sample 4 120 2000); (0%nat, gas_sample 4 101 3000)]
    (aggregator_new [gas] 60)).
Proof.
  split; [vm_compute; reflexivity |].
  exact (slow_keys_independent no_number [gas] 60 gas_run "gas/4/fmeasure" gas_names_nodes gas_from_devices).
Defined.

(** Node 4 leaves its range and comes back; node 5 stays. *)
Definition gas_batches : list (nat * list Sample) :=
  [(0%nat, [gas_sample 4 100 1000; gas_sample 5 200 1000]); (0%nat, [gas_sample 4 120 2000; gas_sample 5 201 2000]);
   (0%nat, [gas_sample 4 101 3000])].

Lemma slow_log_keeps_up_witness :
  map event_of (fst (ingest_all no_number gas_batches (aggregator_new [gas] 60))) = ["VALUE"; "VALUE"; "ALARM"; "RECOVER"] /\
  fst (ingest_all no_number gas_batches (aggregator_new [gas] 60)) =
    told_records no_number [(gas_sample 4 100 1000, ["VALUE"]); (gas_sample 5 200 1000, ["VALUE"]); (gas_sample 4 120 2000, ["ALARM"]);
      (gas_sample 5 201 2000, []); (gas_sample 4 101 3000, ["RECOVER"])].
Proof.
  split; [vm_compute; reflexivity |]. pose proof (slow_log_keeps_up no_number [gas] 60 gas_batches) as H. cbv zeta in H.
  destruct (ingest_all no_number gas_batches (aggregator_new [gas] 60)) as [rs a]. destruct H as [-> _].
  vm_compute. reflexivity.
Defined.
