(* ===== verification/SlowPower.v ===== *)
(** * SlowPower: the device threads of the slow control and the power commands

    Models the threads of [src/slowctl/component.rs] that own the devices and the
    one that takes power commands: a command is checked, put in the queue of its
    device with a deadline, taken by the device's thread between two polls, and
    its outcome answered - or the deadline passes first.  The threads are programs
    of sections (see [Programs]) over what they share: the stop flag, the queues,
    the one-shot channels of the replies, the counters, and the clock.  A section
    may find any time gone by; a wait that nothing ends moves the clock to its
    end.  Every thread is followed up to a horizon, for any horizon. *)

From Stdlib Require Import Ascii.
From stdpp Require Import gmap pretty strings.
From S2P Require Import Prelude Bytes Decimal Text Float Command Logbook Programs Slowctl HiVolta SlowRecords.
Open Scope list_scope.
Open Scope Z_scope.

Definition DRAIN_TIMEOUT : Z := 50.
Definition MAX_CONSECUTIVE_POLL_ERRORS : nat := 5.
Definition BACKOFF_MIN : Z := 1000.
Definition BACKOFF_MAX : Z := 30000.
Definition POWER_REPLY_TIMEOUT : Z := 5000.
Definition POWER_TIMEOUT_ERROR : string := "timeout — state unknown — check the table".
Definition DEVICE_BUSY : string := "device busy".
Definition NOT_RUNNING : string := "device thread is not running".
Definition STOPPED_FIRST : string := "device thread stopped before replying".
Definition NOT_CONNECTED : string := "device not connected".

(** ** What the threads share *)

(** [cmd_id] stands for the one-shot channel of the reply. *)
Record PowerCommand : Type := mkCommand {
  cmd_id : nat;
  ch : Z;
  on : bool;
  deadline : Z;
}.
#[export] Instance PowerCommand_eq_dec : EqDecision PowerCommand.
Proof. solve_decision. Defined.

(** A queue of depth one; its thread can be gone. *)
Inductive Queue : Type :=
| QueueOf (waiting : option PowerCommand)
| QueueGone.

(** A one-shot channel: what is in it, and which ends are still there. *)
Record Mail : Type := mkMail {
  answer : option Json;
  sender : bool;
  receiver : bool;
}.

Record Shared : Type := mkSharedState {
  clock : Z;
  stopping : bool;
  queues : list Queue;
  mails : gmap nat Mail;
  issued : nat;
  counters : list SlowCounters;
}.
#[export] Instance eta_Shared : Eta Shared := fun shared_ =>
  mkSharedState (clock shared_) (stopping shared_) (queues shared_) (mails shared_) (issued shared_) (counters shared_).

Definition shared_new (devices : nat) (now : Z) : Shared :=
  mkSharedState now false (repeat (QueueOf None) devices) ∅ 0 (repeat counters_default devices).

Inductive Event : Type :=
| SawTime (t : Z)
| Enqueued (dev : nat) (cmd : PowerCommand)
| Took (dev : nat) (cmd : PowerCommand)
| Began (dev : nat) (cmd : PowerCommand) (t : Z)
| Expired (dev : nat) (cmd : PowerCommand) (t : Z)
| OnPort (dev : nat) (evs : list PortEvent)
| Ran (dev : nat) (cmd : PowerCommand) (evs : list PortEvent) (r : result PowerOutcome DriverError)
| Delivered (dev : nat) (cmd : PowerCommand) (response : Json)
| Reported (dev : nat) (e : DeviceEvent)
| Closed (dev : nat)
| Resolved (dev : nat) (cmd : PowerCommand) (response : Json) (t : Z)
| Answered (response : Json)
| Stuck.

(** ** Requests and answers *)

Definition power_refused (error : string) : Json :=
  JObj [("ok", JBool false); ("error", JStr error); ("before", JNull)].

Definition power_reply (device : string) (ch : Z) (on : bool) (r : result PowerOutcome DriverError) : Json :=
  match r with
  | Ok (mkOutcome before (Ok after)) =>
      JObj [("ok", JBool true); ("device", JStr device); ("ch", JNum ch); ("on", JBool on);
            ("before", before); ("after", after)]
  | Ok (mkOutcome before (Err (mkRefused error None))) =>
      JObj [("ok", JBool false); ("error", JStr error); ("before", before)]
  | Ok (mkOutcome before (Err (mkRefused error (Some after)))) =>
      JObj [("ok", JBool false); ("error", JStr error); ("before", before); ("after", after)]
  | Err e => power_refused (driver_error_text e)
  end.

Definition power_channels (device_type : string) : option (Z * Z) :=
  if bool_decide (device_type = "hivolta") then Some (0, NUM_CH - 1)
  else if bool_decide (device_type = "hmp2020") then Some (1, 2)
  else None.

(** What [serde_json] reads of a request. *)
Class PowerJson := {
  parse_op : bytes -> result string string;
  parse_power : bytes -> result (string * Z * bool) string;
}.

(** The device thread's side of a device. *)
Record Target : Type := mkTarget {
  target_name : string;
  target_type : string;
  poll_interval : Z;
}.

Fixpoint find_target (name : string) (i : nat) (targets : list Target) : option (nat * Target) :=
  match targets with
  | [] => None
  | t :: targets => if bool_decide (target_name t = name) then Some (i, t) else find_target name (S i) targets
  end.

Definition QUOTED_POWER : string := String "034"%char "power" +:+ String "034"%char EmptyString.

Definition signed (n : Z) : string := if n <? 0 then "-" +:+ dec (- n) else dec n.

(** What can be said of a request before it is queued. *)
Definition check_request (debug : string -> string) `{PowerJson} (targets : list Target) (request : bytes)
    : result (nat * Z * bool) Json :=
  match parse_op request with
  | Err e => Err (power_refused ("bad request: " +:+ e))
  | Ok op =>
      if negb (bool_decide (op = "power")) then
        Err (power_refused ("unknown op " +:+ debug op +:+ " (only " +:+ QUOTED_POWER +:+ ")"))
      else
        match parse_power request with
        | Err e => Err (power_refused ("bad request: " +:+ e))
        | Ok (device, ch, on) =>
            match find_target device 0 targets with
            | None => Err (power_refused ("unknown device " +:+ debug device))
            | Some (dev, target) =>
                match power_channels (target_type target) with
                | None =>
                    Err (power_refused ("device " +:+ debug (target_name target) +:+ " (type " +:+ target_type target +:+
                                        ") has no power on/off — only hivolta / hmp2020"))
                | Some (first, last) =>
                    if (first <=? ch) && (ch <=? last) then Ok (dev, ch, on)
                    else Err (power_refused ("ch " +:+ signed ch +:+ " is out of range for " +:+ target_type target +:+
                                             " (" +:+ dec first +:+ "..=" +:+ dec last +:+ ")"))
                end
            end
        end
  end.

Section Threads.
Context {W D : Type} (drv : Driver W D) (open_driver : nat -> W -> result D string).
Context (debug : string -> string) `{PJ : PowerJson} (targets : list Target).

(** What a section finds: how much time has gone by, whether the stop flag is up,
    the device at the other end, the wall clock, whether the main thread still listens, and what
    the command socket does. *)
Record Found : Type := mkFound {
  passes : N;
  raised : bool;
  world : W;
  wall : Z;
  listened : bool;
  requested : option bytes;
  socket_ok : bool;
}.

Definition Thread (A : Type) : Type := Prog Found Shared Event A.

Definition elapse (e : Found) (c : Shared) : Shared :=
  c <| clock := clock c + Z.of_N (passes e) |> <| stopping := stopping c || raised e |>.

Definition section {A : Type} (f : Found -> Shared -> A * list Event * Shared) : Thread A :=
  atomically (fun e c => f e (elapse e c)).

Definition stopped : Thread bool := section (fun _ c => (stopping c, [], c)).
Definition now : Thread Z := section (fun _ c => (clock c, [SawTime (clock c)], c)).

Definition count (dev : nat) (f : SlowCounters -> SlowCounters) : Thread unit :=
  section (fun _ c => (tt, [], c <| counters ::= alter f dev |>)).

(** ** The command queue, from the device's side *)

Inductive Wake : Type :=
| Elapsed
| WakeStopped
| WakeCommand (cmd : PowerCommand).

(** [recv_timeout]: a command, or the time is over.  Without a sender it is a sleep. *)
Definition recv_timeout (dev : nat) (slice : Z) : Thread (option PowerCommand) :=
  section (fun _ c =>
    match queues c !! dev with
    | Some (QueueOf (Some cmd)) => (Some cmd, [Took dev cmd], c <| queues ::= <[dev := QueueOf None]> |>)
    | _ => let c := c <| clock := clock c + slice |> in (None, [SawTime (clock c)], c)
    end).

Fixpoint wait_loop (fuel : nat) (dev : nat) (until : Z) : Thread Wake :=
  match fuel with
  | O => section (fun _ c => (Elapsed, [Stuck], c))
  | S fuel =>
      let& stop := stopped in
      if stop then Ret WakeStopped
      else
        let& t := now in
        if until <=? t then Ret Elapsed
        else
          let& r := recv_timeout dev (Z.min DRAIN_TIMEOUT (until - t)) in
          match r with
          | Some cmd => Ret (WakeCommand cmd)
          | None => wait_loop fuel dev until
          end
  end.

(** Enough turns for a wait: each moves the clock by [DRAIN_TIMEOUT], or to the end. *)
Definition wait_fuel (duration : Z) : nat := Z.to_nat (duration / DRAIN_TIMEOUT) + 3.

Definition wait_or_command (dev : nat) (duration : Z) : Thread Wake :=
  let& t := now in wait_loop (wait_fuel duration) dev (t + duration).

Definition name_of (dev : nat) : string := match targets !! dev with Some t => target_name t | None => EmptyString end.
Definition interval_of (dev : nat) : Z := match targets !! dev with Some t => poll_interval t | None => 0 end.

(** [reply.try_send]: the sender is used up; a receiver that is gone loses it. *)
Definition deliver_power_reply (dev : nat) (cmd : PowerCommand) (response : Json) : Thread bool :=
  section (fun _ c =>
    let reached := match mails c !! cmd_id cmd with Some m => receiver m | None => false end in
    (reached, [Delivered dev cmd response],
     c <| mails ::= alter (fun m => mkMail (Some response) false (receiver m)) (cmd_id cmd) |>)).

(** A command that is dropped takes the sender of its reply with it. *)
Definition drop_sender (cmd : PowerCommand) (c : Shared) : Shared :=
  c <| mails ::= alter (fun m => mkMail (answer m) false (receiver m)) (cmd_id cmd) |>.

Definition run_power_command (dev : nat) (d : D) (cmd : PowerCommand) : Thread D :=
  let& expired := section (fun _ c =>
    if deadline cmd <=? clock c then (true, [Expired dev cmd (clock c)], drop_sender cmd c)
    else (false, [Began dev cmd (clock c)], c)) in
  if (expired : bool) then Ret d
  else
    let& (r, d) := section (fun e c =>
      let '(evs, (r, d), _) := set_power (ch cmd) (on cmd) d (world e) in
      ((r, d), [Ran dev cmd evs r], c)) in
    let& _ := deliver_power_reply dev cmd (power_reply (name_of dev) (ch cmd) (on cmd) r) in
    Ret d.

(** [None]: the horizon. *)
Fixpoint backoff_loop (n : nat) (dev : nat) (until : Z) : Thread (option unit) :=
  match n with
  | O => Ret None
  | S n =>
      let& t := now in
      let& w := wait_or_command dev (Z.max 0 (until - t)) in
      match w with
      | WakeCommand cmd =>
          let& _ := deliver_power_reply dev cmd (power_refused NOT_CONNECTED) in
          backoff_loop n dev until
      | Elapsed | WakeStopped => Ret (Some tt)
      end
  end.

Definition backoff_sleep (n : nat) (dev : nat) (duration : Z) : Thread (option unit) :=
  let& t := now in backoff_loop n dev (t + duration).

(** ** The device's thread *)

(** [tx.send]: whether the main thread is still there. *)
Definition report (dev : nat) (e : DeviceEvent) : Thread bool :=
  section (fun f c => if listened f then (true, [Reported dev e], c) else (false, [], c)).

Definition on_port {A : Type} (dev : nat) (op : Io W A) : Thread A :=
  section (fun e c => let '(evs, a, _) := op (world e) in (a, [OnPort dev evs], c)).

Fixpoint poll_loop (n : nat) (dev : nat) (d : D) (errors : nat) : Thread (option bool) :=
  match n with
  | O => Ret None
  | S n =>
      let& stop := stopped in
      if stop then Ret (Some true)
      else
        let& started := now in
        let& (r, d) := section (fun e c =>
          let '(evs, (r, d), _) := poll (wall e) d (world e) in ((r, d), [OnPort dev evs], c)) in
        let& (ended, errors) :=
          match r with
          | Ok samples =>
              let& _ := count dev (fun k => k <| poll_ok ::= Z.succ |>) in
              let& there := report dev (SamplesEvent samples) in
              Ret (if there then None else Some true, O)
          | Err e =>
              let& _ := count dev (count_error e) in
              Ret (if (MAX_CONSECUTIVE_POLL_ERRORS <=? S errors)%nat then Some false else None, S errors)
          end in
        match ended with
        | Some over => Ret (Some over)
        | None =>
            let& t := now in
            let& w := wait_or_command dev (Z.max 0 (interval_of dev - (t - started))) in
            match w with
            | WakeCommand cmd => let& d := run_power_command dev d cmd in poll_loop n dev d errors
            | Elapsed | WakeStopped => poll_loop n dev d errors
            end
        end
  end.

Definition run_one_session (n : nat) (dev : nat) (d : D) : Thread (option bool) :=
  let& (r, d) := on_port dev (ident d) in
  match r with
  | Ok idents =>
      let& there := report dev (IdentEvent idents) in
      if there then poll_loop n dev d 0 else Ret (Some true)
  | Err e =>
      let& _ := count dev (count_error e) in
      Ret (Some false)
  end.

(** The thread ends: its end of the queue goes, with what is in it. *)
Definition close_queue (dev : nat) : Thread unit :=
  section (fun _ c =>
    let c' := c <| queues ::= alter (fun _ => QueueGone) dev |> in
    (tt, [Closed dev], match queues c !! dev with Some (QueueOf (Some cmd)) => drop_sender cmd c' | _ => c' end)).

Fixpoint device_loop (n : nat) (dev : nat) (backoff : Z) (opened_once : bool) : Thread unit :=
  match n with
  | O => Ret tt
  | S n =>
      let& stop := stopped in
      if stop then close_queue dev
      else
        let& _ := if opened_once then count dev (fun k => k <| reconnects ::= Z.succ |>) else Ret tt in
        let& driver := section (fun e c => (open_driver dev (world e), [], c)) in
        let& over :=
          match driver with
          | Err _ => Ret (Some false)
          | Ok d => run_one_session n dev d
          end in
        match over with
        | None => Ret tt
        | Some true => close_queue dev
        | Some false =>
            let& w := backoff_sleep n dev backoff in
            match w with
            | None => Ret tt
            | Some _ => device_loop n dev (Z.min BACKOFF_MAX (backoff * 2)) true
            end
        end
  end.

(** ** The command thread *)

(** [try_send] into the device's queue. *)
Definition enqueue (dev : nat) (ch : Z) (on : bool) (until : Z) : Thread (result PowerCommand string) :=
  section (fun _ c =>
    match queues c !! dev with
    | Some (QueueOf None) =>
        let cmd := mkCommand (issued c) ch on until in
        (Ok cmd, [Enqueued dev cmd],
         c <| queues ::= <[dev := QueueOf (Some cmd)]> |> <| issued ::= S |> <| mails ::= <[issued c := mkMail None true true]> |>)
    | Some (QueueOf (Some _)) => (Err DEVICE_BUSY, [], c)
    | _ => (Err NOT_RUNNING, [], c)
    end).

(** [reply_rx.recv_timeout]. *)
Definition await_reply (dev : nat) (cmd : PowerCommand) : Thread Json :=
  section (fun _ c =>
    let resolve response c := (response, [Resolved dev cmd response (clock c)], c) in
    match mails c !! cmd_id cmd with
    | Some (mkMail (Some response) _ _) => resolve response c
    | Some (mkMail None false _) => resolve (power_refused STOPPED_FIRST) c
    | _ => resolve (power_refused POWER_TIMEOUT_ERROR) (c <| clock := Z.max (clock c) (deadline cmd) |>)
    end).

Definition drop_receiver (cmd : PowerCommand) : Thread unit :=
  section (fun _ c => (tt, [], c <| mails ::= alter (fun m => mkMail (answer m) (sender m) false) (cmd_id cmd) |>)).

Definition handle_power_request (request : bytes) (reply_timeout : Z) : Thread Json :=
  match check_request debug targets request with
  | Err refused => Ret refused
  | Ok (dev, ch, on) =>
      let& t := now in
      let& queued := enqueue dev ch on (t + reply_timeout) in
      match queued with
      | Err e => Ret (power_refused e)
      | Ok cmd =>
          let& response := await_reply dev cmd in
          let& _ := drop_receiver cmd in
          Ret response
      end
  end.

(** The socket could not be used: it is bound again, until it can be or the stop
    flag is up.  [None]: the horizon. *)
Fixpoint rebind (n : nat) : Thread (option bool) :=
  match n with
  | O => Ret None
  | S n =>
      let& stop := stopped in
      if stop then Ret (Some false)
      else
        let& bound := section (fun e c => (socket_ok e, [], c)) in
        if (bound : bool) then Ret (Some true) else rebind n
  end.

Fixpoint cmd_loop (n : nat) : Thread unit :=
  match n with
  | O => Ret tt
  | S n =>
      let& stop := stopped in
      if stop then Ret tt
      else
        let& received := section (fun e c => ((requested e, socket_ok e), [], c)) in
        let& fine :=
          match received with
          | (Some request, _) =>
              let& response := handle_power_request request POWER_REPLY_TIMEOUT in
              section (fun e c => (socket_ok e, [Answered response], c))
          | (None, fine) => Ret fine
          end in
        if (fine : bool) then cmd_loop n
        else
          let& bound := rebind n in
          match bound with
          | Some true => cmd_loop n
          | _ => Ret tt
          end
  end.
End Threads.

(** ** The ledger of power commands

    What may happen to a command, as an automaton over the trace: it is queued by
    the thread that was asked, taken once by a thread of its device, begun before
    its deadline or dropped after it, sends at most the one line it stands for,
    and is answered by its own outcome, by the deadline or by the thread's end. *)

Inductive Stage : Type :=
| InQueue
| InHand
| Lost
| Replied (response : Json).

(** What a thread has in hand. *)
Inductive Hold : Type :=
| Nothing
| Holds (dev : nat) (cmd : PowerCommand)
| HasBegun (dev : nat) (cmd : PowerCommand)
| HasRun (dev : nat) (cmd : PowerCommand) (response : Json)
| Waits (dev : nat) (cmd : PowerCommand)
| Decided (response : Json).

#[export] Instance Stage_eq_dec : EqDecision Stage.
Proof. solve_decision. Defined.
#[export] Instance Hold_eq_dec : EqDecision Hold.
Proof. solve_decision. Defined.

Notation Entry := (nat * PowerCommand * Stage)%type.

Record Ledger : Type := mkLedger {
  entries : gmap nat Entry;
  hands : gmap nat Hold;
  seen : gmap nat Z;
}.

Definition hand (i : nat) (s : Ledger) : Hold := default Nothing (hands s !! i).
Definition in_hand (i : nat) (h : Hold) (s : Ledger) : Ledger := mkLedger (entries s) (<[i := h]> (hands s)) (seen s).
Definition staged (dev : nat) (cmd : PowerCommand) (st : Stage) (s : Ledger) : Ledger :=
  mkLedger (<[cmd_id cmd := (dev, cmd, st)]> (entries s)) (hands s) (seen s).

Definition lose_queued (dev : nat) (e : Entry) : Entry :=
  match e with
  | (dev', cmd, InQueue) => if decide (dev' = dev) then (dev', cmd, Lost) else e
  | _ => e
  end.

Definition is_refusal (response : Json) : bool :=
  match response with
  | JObj (("ok", JBool false) :: _) => true
  | _ => false
  end.

(** [Some s] when the condition holds. *)
Definition given {A : Type} (b : bool) (a : A) : option A := if b then Some a else None.

Section Ledger.
Context (targets : list Target) (is_switch : nat -> string -> bool) (line : nat -> Z -> bool -> string).

Definition switches (dev : nat) (evs : list PortEvent) : list string := List.filter (is_switch dev) (sent evs).

Definition accept (i : nat) (ev : Event) (s : Ledger) : option Ledger :=
  match ev with
  | SawTime t =>
      given (match seen s !! i with Some t0 => t0 <=? t | None => true end)
        (mkLedger (entries s) (hands s) (<[i := t]> (seen s)))
  | Enqueued dev cmd =>
      given (bool_decide (hand i s = Nothing /\ entries s !! cmd_id cmd = None))
        (in_hand i (Waits dev cmd) (staged dev cmd InQueue s))
  | Took dev cmd =>
      given (bool_decide (hand i s = Nothing /\ entries s !! cmd_id cmd = Some (dev, cmd, InQueue)))
        (in_hand i (Holds dev cmd) (staged dev cmd InHand s))
  | Began dev cmd t =>
      given (bool_decide (hand i s = Holds dev cmd /\ t < deadline cmd)) (in_hand i (HasBegun dev cmd) s)
  | Expired dev cmd t =>
      given (bool_decide (hand i s = Holds dev cmd /\ deadline cmd <= t)) (in_hand i Nothing (staged dev cmd Lost s))
  | OnPort dev evs => given (bool_decide (switches dev evs = [])) s
  | Ran dev cmd evs r =>
      given (bool_decide (hand i s = HasBegun dev cmd /\
                          (switches dev evs = [] \/ switches dev evs = [line dev (ch cmd) (on cmd)])))
        (in_hand i (HasRun dev cmd (power_reply (name_of targets dev) (ch cmd) (on cmd) r)) s)
  | Delivered dev cmd response =>
      given (bool_decide (hand i s = HasRun dev cmd response \/
                          hand i s = Holds dev cmd /\ response = power_refused NOT_CONNECTED))
        (in_hand i Nothing (staged dev cmd (Replied response) s))
  | Reported _ _ => Some s
  | Closed dev => Some (mkLedger (lose_queued dev <$> entries s) (hands s) (seen s))
  | Resolved dev cmd response t =>
      given (bool_decide (hand i s = Waits dev cmd /\
              (entries s !! cmd_id cmd = Some (dev, cmd, Replied response) \/
               entries s !! cmd_id cmd = Some (dev, cmd, Lost) /\ response = power_refused STOPPED_FIRST \/
               deadline cmd <= t /\ response = power_refused POWER_TIMEOUT_ERROR)))
        (in_hand i (Decided response) s)
  | Answered response =>
      given (bool_decide (hand i s = Decided response \/ hand i s = Nothing /\ is_refusal response = true))
        (in_hand i Nothing s)
  | Stuck => None
  end.

Definition ledger0 : Ledger := mkLedger ∅ ∅ ∅.

Definition view (i : nat) (s : Ledger) : Hold * option Z := (hand i s, seen s !! i).

(** The command a thread of a device works on. *)
Definition works_on (h : Hold) : option (nat * PowerCommand) :=
  match h with
  | Holds dev cmd | HasBegun dev cmd | HasRun dev cmd _ => Some (dev, cmd)
  | _ => None
  end.

Definition mail_of (st : Stage) (m : Mail) : Prop :=
  match st with
  | InQueue | InHand => answer m = None /\ sender m = true
  | Lost => answer m = None /\ sender m = false
  | Replied response => answer m = Some response /\ sender m = false
  end.

Record agrees (s : Ledger) (c : Shared) : Prop := {
  agrees_issued : forall id e, entries s !! id = Some e -> (id < issued c)%nat;
  agrees_queue : forall dev cmd, queues c !! dev = Some (QueueOf (Some cmd)) <->
    entries s !! cmd_id cmd = Some (dev, cmd, InQueue);
  agrees_mail : forall id dev cmd st, entries s !! id = Some (dev, cmd, st) ->
    cmd_id cmd = id /\ exists m, mails c !! id = Some m /\ mail_of st m;
  agrees_hand : forall i dev cmd, works_on (hand i s) = Some (dev, cmd) -> entries s !! cmd_id cmd = Some (dev, cmd, InHand);
  agrees_alone : forall i j x, works_on (hand i s) = Some x -> works_on (hand j s) = Some x -> i = j;
  agrees_waits : forall i dev cmd, hand i s = Waits dev cmd -> exists st, entries s !! cmd_id cmd = Some (dev, cmd, st);
  agrees_seen : forall i t, seen s !! i = Some t -> t <= clock c;
}.

Lemma given_Some {A} b (a a' : A) : given b a = Some a' -> b = true /\ a = a'.
Proof. destruct b; [by intros [= ->] | done]. Qed.

Lemma hand_same i h s : hand i (in_hand i h s) = h.
Proof. unfold hand, in_hand. cbn. by rewrite lookup_insert_eq. Qed.
Lemma hand_other i j h s : i <> j -> hand j (in_hand i h s) = hand j s.
Proof. intros Hij. unfold hand, in_hand. cbn. by rewrite lookup_insert_ne. Qed.

Lemma ledger_frame i j ev s s' : accept i ev s = Some s' -> j <> i -> view j s' = view j s.
Proof.
  intros H Hj. unfold view. destruct ev; cbn [accept] in H; try discriminate H;
    try (apply given_Some in H as [_ <-]); try (injection H as <-);
    unfold hand, in_hand, staged; cbn; rewrite ?lookup_insert_ne by done; done.
Qed.

Lemma agrees_elapse (W : Type) (e : Found (W := W)) s c : agrees s c -> agrees s (elapse e c).
Proof.
  intros [H1 H2 H3 H4 H5 H6 H7]. constructor; try done. intros i t Ht. cbn. specialize (H7 i t Ht). lia.
Qed.
End Ledger.

(** *** Every thread keeps to the ledger *)

Section Keeps.
Context {W D : Type} (drv : Driver W D) (open_driver : nat -> W -> result D string).
Context (debug : string -> string) `{PJ : PowerJson} (targets : list Target).
Context (is_switch : nat -> string -> bool) (line : nat -> Z -> bool -> string).
Context (channel : nat -> Z -> Prop) (good : nat -> D -> Prop).
Context (laws : forall dev, SwitchLaws drv (is_switch dev) (line dev) (channel dev) (good dev)).
Context (opened_good : forall dev w d, open_driver dev w = Ok d -> good dev d).

Notation Found := (Found (W := W)).
Notation Thread := (Thread (W := W)).
Notation takes := (accept targets is_switch line).

(** Thread [i] goes on as [p] holding [w]; [Q] holds when it is done. *)
Definition keeps {A : Type} (i : nat) (p : Thread A) (w : Hold * option Z) (Q : A -> Hold * option Z -> Prop) : Prop :=
  obeys takes view agrees i p w Q (fun _ => False).

Lemma thread_ret {A} i (a : A) w (Q : A -> Hold * option Z -> Prop) : Q a w -> keeps i (Ret a) w Q.
Proof. done. Qed.

Lemma thread_bind {A B} i (p : Thread A) (k : A -> Thread B) w Q R :
  keeps i p w R -> (forall a w, R a w -> keeps i (k a) w Q) -> keeps i (bind p k) w Q.
Proof.
  intros Hp Hk. apply obeys_bind. eapply obeys_mono; [exact Hp | | done]. intros a w' Ha. by apply Hk.
Qed.

Lemma keeps_section {A} i (f : Found -> Shared -> A * list Event * Shared) w (Q : A -> Hold * option Z -> Prop) :
  (forall e c s, agrees s c -> view i s = w ->
    let '(a, evs, c') := f e c in
    exists s', accepts takes i evs s = Some s' /\ agrees s' c' /\ Q a (view i s')) ->
  keeps i (section f) w Q.
Proof.
  intros H. unfold keeps, section, atomically. cbn [obeys]. intros e c s Ha Hw.
  specialize (H e (elapse e c) s (agrees_elapse W e s c Ha) Hw). destruct (f e (elapse e c)) as [[a evs] c'].
  destruct H as (s' & H1 & H2 & H3). by exists s'.
Qed.

Lemma agrees_same s c c' :
  queues c' = queues c -> mails c' = mails c -> issued c' = issued c -> clock c <= clock c' -> agrees s c -> agrees s c'.
Proof.
  intros E1 E2 E3 Hc [H1 H2 H3 H4 H5 H6 H7]. constructor; rewrite ?E1, ?E2, ?E3; try done.
  intros i t Ht. specialize (H7 i t Ht). lia.
Qed.

Lemma agrees_saw i t s c : t <= clock c -> agrees s c -> agrees (mkLedger (entries s) (hands s) (<[i := t]> (seen s))) c.
Proof.
  intros Ht [H1 H2 H3 H4 H5 H6 H7]. constructor; try done. intros j u. cbn. destruct (decide (i = j)) as [<- | Hne].
  - rewrite lookup_insert_eq. by intros [= <-].
  - rewrite lookup_insert_ne by done. apply H7.
Qed.

(** A section that leaves the queues, the mails and the ledger alone. *)
Lemma thread_quiet {A} i (f : Found -> Shared -> A * list Event * Shared) w (Q : A -> Hold * option Z -> Prop) :
  (forall e c, let '(a, evs, c') := f e c in
    (queues c' = queues c /\ mails c' = mails c /\ issued c' = issued c /\ clock c <= clock c') /\
    (forall s, accepts takes i evs s = Some s) /\ Q a w) ->
  keeps i (section f) w Q.
Proof.
  intros H. apply keeps_section. intros e c s Ha Hw. specialize (H e c). destruct (f e c) as [[a evs] c'].
  destruct H as ((H1 & H2 & H3 & H4) & H5 & H6). exists s. split_and!; [apply H5 | by eapply agrees_same | by rewrite Hw].
Qed.

Lemma keeps_stopped i w : keeps i stopped w (fun _ w' => w' = w).
Proof. apply thread_quiet. intros e c. by split_and!. Qed.

Lemma keeps_count i dev f w : keeps i (count dev f) w (fun _ w' => w' = w).
Proof. apply thread_quiet. intros e c. by split_and!. Qed.

Lemma keeps_report i dev e w : keeps i (report dev e) w (fun _ w' => w' = w).
Proof. apply thread_quiet. intros f c. destruct (listened f); by split_and!. Qed.

Definition later (t0 : option Z) (t : Z) : Prop := match t0 with Some t0 => t0 <= t | None => True end.

(** Reading a clock that is at [t]. *)
Lemma saw_accepted i t s c : t <= clock c -> (forall t0, seen s !! i = Some t0 -> t0 <= t) -> agrees s c ->
  exists s', takes i (SawTime t) s = Some s' /\ agrees s' c /\ view i s' = (hand i s, Some t).
Proof.
  intros Ht Hs Ha. eexists. split; [| split; [by apply (agrees_saw i t) |]].
  - cbn [accept]. destruct (seen s !! i) as [t0 |]; cbn; [| done]. specialize (Hs t0 eq_refl).
    unfold given. by rewrite (proj2 (Z.leb_le t0 t)) by done.
  - unfold view, hand. cbn. by rewrite lookup_insert_eq.
Qed.

Lemma thread_now i h t0 : keeps i now (h, t0) (fun t w => w = (h, Some t) /\ later t0 t).
Proof.
  apply keeps_section. intros e c s Ha Hw. injection Hw as Hh Ht.
  destruct (saw_accepted i (clock c) s c) as (s' & E & Ha' & Hv); [lia | apply Ha | done |].
  exists s'. cbn [accepts]. rewrite E. split_and!; [done | done | by rewrite Hv, Hh |].
  rewrite <- Ht. unfold later. destruct (seen s !! i) as [t1 |] eqn:E1; [| done]. by apply (agrees_seen _ _ Ha i).
Qed.

(** Taking the command out of the queue. *)
Lemma agrees_took i dev cmd s c :
  agrees s c -> hand i s = Nothing -> queues c !! dev = Some (QueueOf (Some cmd)) ->
  agrees (in_hand i (Holds dev cmd) (staged dev cmd InHand s)) (c <| queues ::= <[dev := QueueOf None]> |>).
Proof.
  intros Ha Hh Hq. pose proof (proj1 (agrees_queue _ _ Ha dev cmd) Hq) as He.
  destruct Ha as [H1 H2 H3 H4 H5 H6 H7]. set (s' := staged dev cmd InHand s).
  assert (Hfree : forall j dev' cmd', works_on (hand j s) = Some (dev', cmd') -> cmd_id cmd' <> cmd_id cmd).
  { intros j dev' cmd' Hw E. apply H4 in Hw. rewrite E, He in Hw. discriminate Hw. }
  constructor; cbn.
  - intros id e. destruct (decide (cmd_id cmd = id)) as [<- | Hne].
    + intros _. by apply (H1 _ _ He).
    + rewrite lookup_insert_ne by done. apply H1.
  - intros dev' cmd'. destruct (decide (dev = dev')) as [<- | Hne].
    + rewrite list_lookup_insert_eq by (by eapply lookup_lt_Some). split; [done |].
      destruct (decide (cmd_id cmd = cmd_id cmd')) as [E | Hne]; [rewrite E, lookup_insert_eq; done |].
      rewrite lookup_insert_ne by done. intros Hx. apply H2 in Hx. congruence.
    + rewrite list_lookup_insert_ne by done. rewrite H2.
      destruct (decide (cmd_id cmd = cmd_id cmd')) as [E | Hne']; [| by rewrite lookup_insert_ne].
      rewrite <- E, lookup_insert_eq, He. split; [intros [= ?]; congruence | done].
  - intros id dev' cmd' st. destruct (decide (cmd_id cmd = id)) as [<- | Hne].
    + rewrite lookup_insert_eq. intros [= <- <- <-]. destruct (H3 _ _ _ _ He) as (E & m & Hm & Hmail). split; [done |]. by exists m.
    + rewrite lookup_insert_ne by done. apply H3.
  - intros j dev' cmd'. destruct (decide (i = j)) as [<- | Hne].
    + rewrite hand_same. cbn. intros [= <- <-]. by rewrite lookup_insert_eq.
    + rewrite hand_other by done. intros Hw. change (hand j s') with (hand j s) in Hw.
      rewrite lookup_insert_ne by (intros E; by apply (Hfree j dev' cmd')). by apply (H4 j).
  - intros j k x Hj Hk. destruct (decide (i = j)) as [<- | Hij], (decide (i = k)) as [<- | Hik]; try done.
    + rewrite hand_same in Hj. rewrite hand_other in Hk by done. injection Hj as <-. by destruct (Hfree k dev cmd).
    + rewrite hand_same in Hk. rewrite hand_other in Hj by done. injection Hk as <-. by destruct (Hfree j dev cmd).
    + rewrite hand_other in Hj, Hk by done. by apply (H5 j k x).
  - intros j dev' cmd'. destruct (decide (i = j)) as [<- | Hne]; [by rewrite hand_same |].
    rewrite hand_other by done. intros Hw. destruct (H6 j dev' cmd' Hw) as [st Hst].
    destruct (decide (cmd_id cmd = cmd_id cmd')) as [E | Hn]; [| rewrite lookup_insert_ne by done; by exists st].
    rewrite <- E, lookup_insert_eq. rewrite <- E, He in Hst. injection Hst as <- <- _. by exists InHand.
  - done.
Qed.

Lemma keeps_recv i dev slice t0 : 0 <= slice ->
  keeps i (recv_timeout dev slice) (Nothing, Some t0)
    (fun r w => match r with
                | Some cmd => w = (Holds dev cmd, Some t0)
                | None => exists t, w = (Nothing, Some t) /\ t0 + slice <= t
                end).
Proof.
  intros Hs. apply keeps_section. intros e c s Ha Hw. injection Hw as Hh Ht.
  assert (Hwait : let c' := c <| clock := clock c + slice |> in
    exists s', accepts takes i [SawTime (clock c')] s = Some s' /\ agrees s' c' /\
      exists t, view i s' = (Nothing, Some t) /\ t0 + slice <= t).
  { set (c' := c <| clock := clock c + slice |>). cbv zeta.
    pose proof (agrees_seen _ _ Ha i t0 Ht) as Ht0.
    assert (Ha' : agrees s c') by (apply (agrees_same s c); try done; cbn; lia).
    destruct (saw_accepted i (clock c') s c') as (s' & E & Ha'' & Hv); [lia | apply Ha' | done |].
    exists s'. cbn [accepts]. rewrite E. split_and!; [done | done |]. exists (clock c'). rewrite Hv, Hh. split; [done | cbn; lia]. }
  destruct (queues c !! dev) as [[[cmd |] |] |] eqn:Eq; [| exact Hwait | exact Hwait | exact Hwait].
  pose proof (proj1 (agrees_queue _ _ Ha dev cmd) Eq) as He.
  eexists. split_and!; [| by apply agrees_took |].
  - cbn [accepts accept]. rewrite bool_decide_eq_true_2 by done. cbn. done.
  - unfold view. rewrite hand_same. cbn. by rewrite Ht.
Qed.

Lemma keeps_wait_loop fuel i dev until t0 :
  (1 <= fuel)%nat -> until - t0 <= DRAIN_TIMEOUT * (Z.of_nat fuel - 1) ->
  keeps i (wait_loop fuel dev until) (Nothing, Some t0)
    (fun r w => fst w = match r with WakeCommand cmd => Holds dev cmd | _ => Nothing end).
Proof.
  revert t0. induction fuel as [| fuel IH]; intros t0 Hf Hd; [lia |]. cbn [wait_loop].
  eapply thread_bind; [apply keeps_stopped |]. intros stop w ->. destruct stop; [by apply thread_ret |].
  eapply thread_bind; [apply thread_now |]. intros t w [-> Ht]. cbn in Ht.
  destruct (until <=? t) eqn:Eu; [by apply thread_ret |]. apply Z.leb_gt in Eu. unfold DRAIN_TIMEOUT in *.
  eapply thread_bind; [apply keeps_recv; lia |]. intros [cmd |] w.
  - intros ->. by apply thread_ret.
  - intros (t' & -> & Ht'). apply IH; lia.
Qed.

Lemma keeps_wait i dev duration t0 : 0 <= duration ->
  keeps i (wait_or_command dev duration) (Nothing, t0)
    (fun r w => fst w = match r with WakeCommand cmd => Holds dev cmd | _ => Nothing end).
Proof.
  intros Hd. eapply thread_bind; [apply thread_now |]. intros t w [-> _]. apply keeps_wait_loop; unfold wait_fuel; [lia |].
  pose proof (Z.div_mod duration DRAIN_TIMEOUT ltac:(done)) as E. pose proof (Z.mod_pos_bound duration DRAIN_TIMEOUT ltac:(done)) as B.
  assert (0 <= duration / DRAIN_TIMEOUT) by (apply Z.div_pos; [done | done]). unfold DRAIN_TIMEOUT in *. lia.
Qed.

(** A thread that goes on with the same command, or with none. *)
Lemma agrees_rehand i h s c :
  agrees s c -> works_on h = works_on (hand i s) \/ works_on h = None ->
  (forall dev cmd, h = Waits dev cmd -> exists st, entries s !! cmd_id cmd = Some (dev, cmd, st)) ->
  agrees (in_hand i h s) c.
Proof.
  intros [H1 H2 H3 H4 H5 H6 H7] Hw Hwait.
  assert (Hold : forall j x, works_on (hand j (in_hand i h s)) = Some x -> works_on (hand j s) = Some x).
  { intros j x. destruct (decide (i = j)) as [<- | Hne]; [| by rewrite hand_other].
    rewrite hand_same. destruct Hw as [-> | ->]; done. }
  constructor; try done.
  - intros j dev cmd Hj. by apply (H4 j), Hold.
  - intros j k x Hj Hk. by apply (H5 j k x); apply Hold.
  - intros j dev cmd. destruct (decide (i = j)) as [<- | Hne]; [rewrite hand_same; apply Hwait | rewrite hand_other by done; apply H6].
Qed.

(** A command that is done with: its reply is there, or will never be. *)
Lemma agrees_finished i dev cmd st s c (ans : option Json) :
  agrees s c -> works_on (hand i s) = Some (dev, cmd) ->
  match st with Lost => ans = None | Replied response => ans = Some response | _ => False end ->
  agrees (in_hand i Nothing (staged dev cmd st s))
    (c <| mails ::= alter (fun m => mkMail ans false (receiver m)) (cmd_id cmd) |>).
Proof.
  intros Ha Hh Hst. pose proof (agrees_hand _ _ Ha i dev cmd Hh) as He.
  assert (Hfree : forall j dev' cmd', j <> i -> works_on (hand j s) = Some (dev', cmd') -> cmd_id cmd' <> cmd_id cmd).
  { intros j dev' cmd' Hj Hw E. pose proof (agrees_hand _ _ Ha j _ _ Hw) as He'. rewrite E, He in He'.
    injection He' as <- <-. by apply Hj, (agrees_alone _ _ Ha j i (dev, cmd)). }
  destruct Ha as [H1 H2 H3 H4 H5 H6 H7]. constructor; cbn.
  - intros id e. destruct (decide (cmd_id cmd = id)) as [<- | Hne].
    + intros _. by apply (H1 _ _ He).
    + rewrite lookup_insert_ne by done. apply H1.
  - intros dev' cmd'. rewrite H2. destruct (decide (cmd_id cmd = cmd_id cmd')) as [E | Hne]; [| by rewrite lookup_insert_ne].
    rewrite <- E, lookup_insert_eq, He. split; [done |]. intros [= _ _ ->]. done.
  - intros id dev' cmd' st'. destruct (decide (cmd_id cmd = id)) as [<- | Hne].
    + rewrite lookup_insert_eq. intros [= <- <- <-]. destruct (H3 _ _ _ _ He) as (E & m & Hm & _). split; [done |].
      exists (mkMail ans false (receiver m)). rewrite lookup_alter_eq, Hm. split; [done |]. destruct st; cbn; try done; by subst ans.
    + rewrite lookup_insert_ne, lookup_alter_ne by done. apply H3.
  - intros j dev' cmd'. destruct (decide (i = j)) as [<- | Hne]; [by rewrite hand_same |].
    rewrite hand_other by done. intros Hw. change (hand j (staged dev cmd st s)) with (hand j s) in Hw.
    rewrite lookup_insert_ne by (intros E; by apply (Hfree j dev' cmd')). by apply (H4 j).
  - intros j k x Hj Hk. destruct (decide (i = j)) as [<- | Hij]; [by rewrite hand_same in Hj |].
    destruct (decide (i = k)) as [<- | Hik]; [by rewrite hand_same in Hk |].
    rewrite hand_other in Hj, Hk by done. by apply (H5 j k x).
  - intros j dev' cmd'. destruct (decide (i = j)) as [<- | Hne]; [by rewrite hand_same |].
    rewrite hand_other by done. intros Hw. destruct (H6 j dev' cmd' Hw) as [st' Hst'].
    destruct (decide (cmd_id cmd = cmd_id cmd')) as [E | Hn]; [| rewrite lookup_insert_ne by done; by exists st'].
    rewrite <- E, lookup_insert_eq. rewrite <- E, He in Hst'. injection Hst' as <- <- _. by exists st.
  - done.
Qed.

Lemma keeps_deliver i dev cmd response w :
  fst w = HasRun dev cmd response \/ fst w = Holds dev cmd /\ response = power_refused NOT_CONNECTED ->
  keeps i (deliver_power_reply dev cmd response) w (fun _ w' => fst w' = Nothing).
Proof.
  intros Hr. apply keeps_section. intros e c s Ha <-. cbn [fst view] in Hr. eexists. split_and!.
  - cbn [accepts accept]. by rewrite bool_decide_eq_true_2.
  - apply (agrees_finished i dev cmd (Replied response)); [done | | done].
    by destruct Hr as [-> | [-> _]].
  - unfold view. by rewrite hand_same.
Qed.

Lemma keeps_run i dev d cmd w : fst w = Holds dev cmd -> good dev d ->
  keeps i (run_power_command drv targets dev d cmd) w (fun d' w' => fst w' = Nothing /\ good dev d').
Proof.
  intros Hw Hd. eapply (thread_bind _ _ _ _ _ (fun (expired : bool) w' =>
    fst w' = if expired then Nothing else HasBegun dev cmd)).
  - apply keeps_section. intros e c s Ha <-. cbn [fst view] in Hw. destruct (deadline cmd <=? clock c) eqn:Et.
    + apply Z.leb_le in Et. eexists. split_and!.
      * cbn [accepts accept]. by rewrite bool_decide_eq_true_2.
      * unfold drop_sender.
        pose proof (agrees_finished i dev cmd Lost s c None Ha ltac:(by rewrite Hw) eq_refl) as H.
        pose proof (agrees_hand _ _ Ha i dev cmd ltac:(by rewrite Hw)) as He.
        destruct (agrees_mail _ _ Ha _ _ _ _ He) as (_ & m & Hm & Hn & _).
        assert (E : alter (fun m => mkMail (answer m) false (receiver m)) (cmd_id cmd) (mails c) =
                    alter (fun m => mkMail None false (receiver m)) (cmd_id cmd) (mails c)).
        { apply map_eq. intros id. destruct (decide (cmd_id cmd = id)) as [<- | Hne]; [| by rewrite !lookup_alter_ne].
          rewrite !lookup_alter_eq, Hm. cbn. by rewrite Hn. }
        unfold update in *. rewrite E. exact H.
      * unfold view. by rewrite hand_same.
    + apply Z.leb_gt in Et. eexists. split_and!.
      * cbn [accepts accept]. by rewrite bool_decide_eq_true_2.
      * apply agrees_rehand; [done | left; by rewrite Hw | done].
      * unfold view. by rewrite hand_same.
  - intros [] w1 Hw1; [by apply thread_ret |].
    eapply (thread_bind _ _ _ _ _ (fun '(r, d') w' => good dev d' /\
      fst w' = HasRun dev cmd (power_reply (name_of targets dev) (ch cmd) (on cmd) r))).
    + apply keeps_section. intros e c s Ha <-. cbn [fst view] in Hw1.
      pose proof (law_power (SwitchLaws := laws dev) (ch cmd) (on cmd) d Hd (world e)) as Hp.
      destruct (set_power (ch cmd) (on cmd) d (world e)) as [[evs [r d']] w']. cbn [snd] in Hp. destruct Hp as [Hs Hg].
      eexists. split_and!.
      * cbn [accepts accept]. rewrite bool_decide_eq_true_2; [done |]. split; [done |].
        destruct Hs as [Hs | [_ Hs]]; [by left | by right].
      * apply agrees_rehand; [done | left; by rewrite Hw1 | done].
      * done.
      * unfold view. by rewrite hand_same.
    + intros [r d'] w2 [Hg Hw2]. eapply thread_bind; [apply keeps_deliver; by left |].
      intros reached w3 Hw3. by apply thread_ret.
Qed.

Lemma keeps_backoff_loop n i dev until w : fst w = Nothing ->
  keeps i (backoff_loop n dev until) w (fun _ w' => fst w' = Nothing).
Proof.
  revert w. induction n as [| n IH]; intros w Hw; cbn [backoff_loop]; [by apply thread_ret |].
  destruct w as [h t0]. cbn in Hw. subst h.
  eapply thread_bind; [apply thread_now |]. intros t w [-> _].
  eapply thread_bind; [apply keeps_wait; lia |]. intros [| | cmd] w Hw'; [by apply thread_ret | by apply thread_ret |].
  eapply thread_bind; [apply keeps_deliver; by right |]. intros reached w' Hw2. by apply IH.
Qed.

Lemma keeps_backoff n i dev duration w : fst w = Nothing ->
  keeps i (backoff_sleep n dev duration) w (fun _ w' => fst w' = Nothing).
Proof.
  destruct w as [h t0]. cbn [fst]. intros ->. unfold backoff_sleep. eapply thread_bind; [apply thread_now |]. intros t w [-> _]. by apply keeps_backoff_loop.
Qed.

(** Reading the device sends none of the lines that switch. *)
Lemma keeps_reading {A} i dev (op : Found -> Io W (A * D)) d w :
  (forall e, always (op e) (fun evs r => List.filter (is_switch dev) (sent evs) = [] /\ good dev (snd r))) -> good dev d ->
  keeps i (section (fun e c => let '(evs, r, _) := op e (world e) in (r, [OnPort dev evs], c))) w
    (fun r w' => w' = w /\ good dev (snd r)).
Proof.
  intros Hop Hd. apply thread_quiet. intros e c. specialize (Hop e (world e)). destruct (op e (world e)) as [[evs r] w'].
  destruct Hop as [Hs Hg]. split_and!; try done. intros s. cbn [accepts accept]. unfold switches. by rewrite bool_decide_eq_true_2.
Qed.

Lemma keeps_poll_loop n i dev d errors w : fst w = Nothing -> good dev d ->
  keeps i (poll_loop drv targets n dev d errors) w (fun _ w' => fst w' = Nothing).
Proof.
  revert d errors w. induction n as [| n IH]; intros d errors w Hw Hd; cbn [poll_loop]; [by apply thread_ret |].
  eapply thread_bind; [apply keeps_stopped |]. intros stop w1 ->. destruct stop; [by apply thread_ret |].
  destruct w as [h t0]. cbn in Hw. subst h.
  eapply thread_bind; [apply thread_now |]. intros started w [-> _].
  eapply (thread_bind _ _ _ _ _ (fun r w' => w' = (Nothing, Some started) /\ good dev (snd r))).
  { apply thread_quiet. intros e c. pose proof (law_poll (SwitchLaws := laws dev) (wall e) d Hd (world e)) as Hp.
    destruct (poll (wall e) d (world e)) as [[evs [r d']] w']. destruct Hp as [Hs Hg]. split_and!; try done.
    intros s. cbn [accepts accept]. unfold switches. by rewrite bool_decide_eq_true_2. }
  intros [r d1] w [-> Hd1]. cbn [snd] in Hd1.
  eapply (thread_bind _ _ _ _ _ (fun _ w' => w' = (Nothing, Some started))).
  { destruct r as [samples | e].
    - eapply thread_bind; [apply keeps_count |]. intros [] w ->. eapply thread_bind; [apply keeps_report |].
      intros there w ->. by apply thread_ret.
    - eapply thread_bind; [apply keeps_count |]. intros [] w ->. by apply thread_ret. }
  intros [ended errors'] w ->. destruct ended as [over |]; [by apply thread_ret |].
  eapply thread_bind; [apply thread_now |]. intros t w [-> _].
  eapply thread_bind; [apply keeps_wait; lia |]. intros [| | cmd] w Hw; [by apply IH | by apply IH |].
  eapply thread_bind; [by apply keeps_run |]. intros d2 w' [Hw' Hd2]. by apply IH.
Qed.

Lemma keeps_session n i dev d w : fst w = Nothing -> good dev d ->
  keeps i (run_one_session drv targets n dev d) w (fun _ w' => fst w' = Nothing).
Proof.
  intros Hw Hd. unfold run_one_session.
  eapply (thread_bind _ _ _ _ _ (fun r w' => w' = w /\ good dev (snd r))).
  { apply (keeps_reading i dev (fun _ => ident d) d); [| done]. intros e. by apply laws. }
  intros [[idents | e] d'] w' [-> Hd'].
  - eapply thread_bind; [apply keeps_report |]. intros there w' ->. destruct there; [by apply keeps_poll_loop | by apply thread_ret].
  - eapply thread_bind; [apply keeps_count |]. intros [] w' ->. by apply thread_ret.
Qed.

(** A thread that ends loses what is still in its queue. *)
Lemma agrees_closed dev s c :
  agrees s c ->
  agrees (mkLedger (lose_queued dev <$> entries s) (hands s) (seen s))
    (let c' := c <| queues ::= alter (fun _ => QueueGone) dev |> in
     match queues c !! dev with Some (QueueOf (Some cmd)) => drop_sender cmd c' | _ => c' end).
Proof.
  intros [H1 H2 H3 H4 H5 H6 H7]. cbv zeta.
  set (c' := match queues c !! dev with Some (QueueOf (Some cmd)) => _ | _ => _ end).
  assert (Eq : queues c' = alter (fun _ => QueueGone) dev (queues c) /\ issued c' = issued c /\ clock c' = clock c).
  { unfold c'. by destruct (queues c !! dev) as [[[cmd |] |] |]. }
  destruct Eq as (Eq & Ei & Ec).
  assert (Hentry : forall id dev' cmd st, (lose_queued dev <$> entries s) !! id = Some (dev', cmd, st) ->
    exists st0, entries s !! id = Some (dev', cmd, st0) /\
      st = match st0 with InQueue => if decide (dev' = dev) then Lost else InQueue | st0 => st0 end).
  { intros id dev' cmd st. rewrite lookup_fmap. destruct (entries s !! id) as [[[dev0 cmd0] st0] |]; [| done]. cbn.
    destruct st0; try destruct (decide (dev0 = dev)) eqn:Ed; intros [= <- <- <-]; eexists; (split; [done |]); cbn; try done; by rewrite Ed. }
  assert (Hkept : forall id (x : Entry), entries s !! id = Some x ->
    (lose_queued dev <$> entries s) !! id = Some (lose_queued dev x)).
  { intros id x Hx. apply lookup_fmap_Some. by exists x. }
  constructor; cbn [entries hands seen].
  - intros id e. rewrite lookup_fmap, Ei. destruct (entries s !! id) as [e0 |] eqn:E; [| done]. intros _. by apply (H1 id e0).
  - intros dev' cmd'. rewrite Eq. destruct (decide (dev = dev')) as [<- | Hne].
    + rewrite list_lookup_alter_eq. split.
      * destruct (queues c !! dev); cbn; intros [=].
      * intros Hx. apply Hentry in Hx as (st0 & Hx & Hst). destruct st0; try done. rewrite decide_True in Hst by done. discriminate Hst.
    + rewrite list_lookup_alter_ne by done. rewrite H2, lookup_fmap.
      destruct (entries s !! cmd_id cmd') as [[[dev0 cmd0] st0] |]; [| done]. cbn.
      destruct st0; cbn; try destruct (decide (dev0 = dev)) as [E0 |]; split; intros [= -> ->]; congruence.
  - intros id dev' cmd' st Hx. apply Hentry in Hx as (st0 & Hx & ->). destruct (H3 _ _ _ _ Hx) as (E & m & Hm & Hmail).
    split; [done |]. destruct (decide (st0 = InQueue /\ dev' = dev)) as [[-> ->] | Hst].
    + rewrite decide_True by done. assert (Hq : queues c !! dev = Some (QueueOf (Some cmd'))) by (apply H2; by rewrite E).
      unfold c'. rewrite Hq. exists (mkMail (answer m) false (receiver m)). cbn. rewrite E, lookup_alter_eq, Hm.
      split; [done |]. destruct Hmail as [-> _]. done.
    + assert (Hm' : mails c' !! id = Some m).
      { unfold c'. destruct (queues c !! dev) as [[[cmd |] |] |] eqn:Eqd; try done.
        cbn. rewrite lookup_alter_ne; [done |]. intros Ecmd. apply H2 in Eqd. rewrite Ecmd, Hx in Eqd.
        injection Eqd as -> _ ->. by apply Hst. }
      exists m. split; [done |]. destruct st0; try done. rewrite decide_False; [done |]. intros ->. by apply Hst.
  - intros j dev' cmd' Hw. change (hand j (mkLedger _ _ _)) with (hand j s) in Hw. by apply (Hkept _ (dev', cmd', InHand)), (H4 j).
  - exact H5.
  - intros j dev' cmd' Hw. change (hand j (mkLedger _ _ _)) with (hand j s) in Hw. destruct (H6 j _ _ Hw) as [st Hst].
    apply (Hkept _ (dev', cmd', st)) in Hst. cbn in Hst.
    destruct st; try destruct (decide (dev' = dev)); eexists; exact Hst.
  - rewrite Ec. exact H7.
Qed.

Lemma keeps_close i dev w : keeps i (close_queue dev) w (fun _ w' => w' = w).
Proof.
  apply keeps_section. intros e c s Ha Hw. eexists. split_and!; [done | by apply agrees_closed | done].
Qed.

Lemma keeps_device_loop n i dev backoff opened_once w : fst w = Nothing ->
  keeps i (device_loop drv open_driver targets n dev backoff opened_once) w (fun _ w' => fst w' = Nothing).
Proof.
  revert backoff opened_once w. induction n as [| n IH]; intros backoff opened_once w Hw; cbn [device_loop]; [by apply thread_ret |].
  assert (Hclose : keeps i (close_queue dev) w (fun _ w' => fst w' = Nothing)).
  { eapply obeys_mono; [apply keeps_close | | done]. by intros _ w' ->. }
  eapply thread_bind; [apply keeps_stopped |]. intros stop w1 ->. destruct stop; [exact Hclose |].
  eapply (thread_bind _ _ _ _ _ (fun _ w' => w' = w)).
  { destruct opened_once; [apply keeps_count | by apply thread_ret]. }
  intros _ w1 ->. eapply (thread_bind _ _ _ _ _ (fun r w' => w' = w /\ forall d, r = Ok d -> good dev d)).
  { apply thread_quiet. intros e c. split_and!; try done. intros d. apply opened_good. }
  intros driver w1 [-> Hg]. eapply (thread_bind _ _ _ _ _ (fun _ w' => fst w' = Nothing)).
  { destruct driver as [d | e]; [apply keeps_session; [done | by apply Hg] | by apply thread_ret]. }
  intros [[] |] w1 Hw1; [| | by apply thread_ret].
  - eapply obeys_mono; [apply keeps_close | | done]. by intros _ w' ->.
  - eapply thread_bind; [by apply keeps_backoff |]. intros [[] |] w2 Hw2; [by apply IH | by apply thread_ret].
Qed.

(** *** The command thread *)

Lemma agrees_enqueued i dev cmd s c :
  agrees s c -> hand i s = Nothing -> cmd_id cmd = issued c -> queues c !! dev = Some (QueueOf None) ->
  agrees (in_hand i (Waits dev cmd) (staged dev cmd InQueue s))
    (c <| queues ::= <[dev := QueueOf (Some cmd)]> |> <| issued ::= S |> <| mails ::= <[issued c := mkMail None true true]> |>).
Proof.
  intros [H1 H2 H3 H4 H5 H6 H7] Hh Hid Hq.
  assert (Hnew : entries s !! cmd_id cmd = None).
  { destruct (entries s !! cmd_id cmd) as [e |] eqn:E; [| done]. apply H1 in E. lia. }
  assert (Hne : forall id e, entries s !! id = Some e -> cmd_id cmd <> id) by (intros id e He E; congruence).
  assert (Hold : forall j x, works_on (hand j (in_hand i (Waits dev cmd) (staged dev cmd InQueue s))) = Some x ->
    works_on (hand j s) = Some x).
  { intros j x. destruct (decide (i = j)) as [<- | Hij]; [by rewrite hand_same | by rewrite hand_other]. }
  constructor; cbn.
  - intros id e. destruct (decide (cmd_id cmd = id)) as [<- | Hn]; [lia |]. rewrite lookup_insert_ne by done. intros He.
    apply H1 in He. lia.
  - intros dev' cmd'. destruct (decide (dev = dev')) as [<- | Hd].
    + rewrite list_lookup_insert_eq by (by eapply lookup_lt_Some). split.
      * intros [= <-]. by rewrite lookup_insert_eq.
      * destruct (decide (cmd_id cmd = cmd_id cmd')) as [E | Hn]; [rewrite E, lookup_insert_eq; by intros [= ->] |].
        rewrite lookup_insert_ne by done. intros Hx. apply H2 in Hx. congruence.
    + rewrite list_lookup_insert_ne by done. rewrite H2.
      destruct (decide (cmd_id cmd = cmd_id cmd')) as [E | Hn]; [| by rewrite lookup_insert_ne].
      rewrite <- E, lookup_insert_eq, Hnew. split; [done | intros [= ? _]; congruence].
  - intros id dev' cmd' st. destruct (decide (cmd_id cmd = id)) as [<- | Hn].
    + rewrite lookup_insert_eq. intros [= <- <- <-]. split; [done |]. eexists. rewrite Hid, lookup_insert_eq. by split.
    + rewrite !lookup_insert_ne by congruence. apply H3.
  - intros j dev' cmd' Hw. apply Hold in Hw. apply H4 in Hw. by rewrite lookup_insert_ne by (by eapply Hne).
  - intros j k x Hj Hk. by apply (H5 j k x); apply Hold.
  - intros j dev' cmd'. destruct (decide (i = j)) as [<- | Hij].
    + rewrite hand_same. intros [= <- <-]. exists InQueue. by rewrite lookup_insert_eq.
    + rewrite hand_other by done. intros Hw. destruct (H6 j _ _ Hw) as [st Hst]. exists st.
      by rewrite lookup_insert_ne by (by eapply Hne).
  - done.
Qed.

Lemma keeps_enqueue i dev ch on until w : fst w = Nothing ->
  keeps i (enqueue dev ch on until) w (fun r w' =>
    match r with Ok cmd => fst w' = Waits dev cmd | Err _ => fst w' = Nothing end).
Proof.
  intros Hw. apply keeps_section. intros e c s Ha <-. cbn [fst view] in Hw.
  destruct (queues c !! dev) as [[[cmd |] |] |] eqn:Eq; try (exists s; by split_and!).
  set (cmd := mkCommand (issued c) ch on until). eexists. split_and!; [| by apply (agrees_enqueued i dev cmd) |].
  - cbn [accepts accept]. rewrite bool_decide_eq_true_2; [done |]. split; [done |].
    apply eq_None_not_Some. intros [x Hx]. apply (agrees_issued _ _ Ha) in Hx. cbn in Hx. lia.
  - unfold view. by rewrite hand_same.
Qed.

Lemma keeps_await i dev cmd w : fst w = Waits dev cmd ->
  keeps i (await_reply dev cmd) w (fun response w' => fst w' = Decided response).
Proof.
  intros Hw. apply keeps_section. intros e c s Ha <-. cbn [fst view] in Hw.
  destruct (agrees_waits _ _ Ha i dev cmd Hw) as [st Hst].
  destruct (agrees_mail _ _ Ha _ _ _ _ Hst) as (_ & m & Hm & Hmail). rewrite Hm.
  assert (Hok : forall response c', agrees s c' ->
    (entries s !! cmd_id cmd = Some (dev, cmd, Replied response) \/
     entries s !! cmd_id cmd = Some (dev, cmd, Lost) /\ response = power_refused STOPPED_FIRST \/
     deadline cmd <= clock c' /\ response = power_refused POWER_TIMEOUT_ERROR) ->
    exists s', accepts takes i [Resolved dev cmd response (clock c')] s = Some s' /\ agrees s' c' /\
      fst (view i s') = Decided response).
  { intros response c' Ha' Hr. eexists. split_and!.
    - cbn [accepts accept]. by rewrite bool_decide_eq_true_2.
    - apply agrees_rehand; [done | by right | done].
    - unfold view. by rewrite hand_same. }
  destruct m as [[response |] [] rcv].
  - destruct st; by destruct Hmail.
  - apply Hok; [done |]. left. destruct st; destruct Hmail as [E _]; try discriminate E. by injection E as <-.
  - apply (Hok _ (c <| clock := Z.max (clock c) (deadline cmd) |>)).
    + apply (agrees_same s c); try done. cbn. lia.
    + right. right. split; [cbn; lia | done].
  - apply Hok; [done |]. right. left. split; [| done]. destruct st; destruct Hmail as [E E']; try done.
Qed.

Lemma keeps_drop_receiver i cmd w : keeps i (drop_receiver cmd) w (fun _ w' => w' = w).
Proof.
  apply keeps_section. intros e c s [H1 H2 H3 H4 H5 H6 H7] Hw. exists s. split_and!; [done | | done]. constructor; try done.
  cbn. intros id dev' cmd' st Hx. destruct (H3 _ _ _ _ Hx) as (E & m & Hm & Hmail). split; [done |].
  destruct (decide (cmd_id cmd = id)) as [<- | Hne].
  - exists (mkMail (answer m) (sender m) false). rewrite lookup_alter_eq, Hm. split; [done |]. by destruct st.
  - exists m. by rewrite lookup_alter_ne.
Qed.

Lemma check_request_refusal request j : check_request debug targets request = Err j -> is_refusal j = true.
Proof.
  unfold check_request. destruct (parse_op request) as [op | e]; [| by intros [= <-]].
  destruct (negb _); [by intros [= <-] |]. destruct (parse_power request) as [[[device ch] on] | e]; [| by intros [= <-]].
  destruct (find_target device 0 targets) as [[dev t] |]; [| by intros [= <-]].
  destruct (power_channels (target_type t)) as [[first last] |]; [| by intros [= <-]].
  destruct (_ && _); [done | by intros [= <-]].
Qed.

Lemma thread_handle i request timeout w : fst w = Nothing ->
  keeps i (handle_power_request debug targets request timeout) w
    (fun j w' => fst w' = Decided j \/ fst w' = Nothing /\ is_refusal j = true).
Proof.
  intros Hw. unfold handle_power_request. destruct (check_request debug targets request) as [[[dev ch] on] | j] eqn:E.
  2: { apply thread_ret. right. split; [done | by eapply check_request_refusal]. }
  destruct w as [h t0]. cbn in Hw. subst h. eapply thread_bind; [apply thread_now |]. intros t w [-> _].
  eapply thread_bind; [by apply keeps_enqueue |]. intros [cmd | e] w Hw; [| apply thread_ret; by right].
  eapply thread_bind; [by apply keeps_await |]. intros response w' Hw'.
  eapply thread_bind; [apply keeps_drop_receiver |]. intros [] w2 ->. apply thread_ret. by left.
Qed.

Lemma keeps_rebind n i w : keeps i (rebind n) w (fun _ w' => w' = w).
Proof.
  induction n as [| n IH]; cbn [rebind]; [by apply thread_ret |].
  eapply thread_bind; [apply keeps_stopped |]. intros stop w1 ->. destruct stop; [by apply thread_ret |].
  eapply (thread_bind _ _ _ _ _ (fun _ w' => w' = w)); [apply thread_quiet; intros e c; by split_and! |].
  intros [] w1 ->; [by apply thread_ret | exact IH].
Qed.

Lemma keeps_cmd_loop n i w : fst w = Nothing ->
  keeps i (cmd_loop debug targets n) w (fun _ w' => fst w' = Nothing).
Proof.
  revert w. induction n as [| n IH]; intros w Hw; cbn [cmd_loop]; [by apply thread_ret |].
  eapply thread_bind; [apply keeps_stopped |]. intros stop w1 ->. destruct stop; [by apply thread_ret |].
  eapply (thread_bind _ _ _ _ _ (fun _ w' => w' = w)); [apply thread_quiet; intros e c; by split_and! |].
  intros [[request |] fine] w1 ->.
  all: eapply (thread_bind _ _ _ _ _ (fun _ w' => fst w' = Nothing)).
  - eapply thread_bind; [by apply thread_handle |]. intros j w1 Hj. apply keeps_section. intros e c s Ha <-. cbn [fst view] in Hj.
    exists (in_hand i Nothing s). split_and!; [| apply agrees_rehand; [exact Ha | by right | done] |].
    + cbn [accepts accept]. by rewrite bool_decide_eq_true_2.
    + unfold view. by rewrite hand_same.
  - intros [] w1 Hw1; [by apply IH |]. eapply thread_bind; [apply keeps_rebind |]. intros [[] |] w2 ->; [by apply IH | by apply thread_ret | by apply thread_ret].
  - by apply thread_ret.
  - intros [] w1 Hw1; [by apply IH |]. eapply thread_bind; [apply keeps_rebind |]. intros [[] |] w2 ->; [by apply IH | by apply thread_ret | by apply thread_ret].
Qed.
End Keeps.

(** *** Any number of threads, in any interleaving *)

Section Runs.
Context {W D : Type} (drv : Driver W D) (open_driver : nat -> W -> result D string).
Context (debug : string -> string) `{PJ : PowerJson} (targets : list Target).
Context (is_switch : nat -> string -> bool) (line : nat -> Z -> bool -> string).
Context (channel : nat -> Z -> Prop) (good : nat -> D -> Prop).
Context (laws : forall dev, SwitchLaws drv (is_switch dev) (line dev) (channel dev) (good dev)).
Context (opened_good : forall dev w d, open_driver dev w = Ok d -> good dev d).
Notation takes := (accept targets is_switch line).

(** The threads of [run_slowctl], each up to its horizon. *)
Definition is_thread (p : Thread (W := W) unit) : Prop :=
  (exists n, p = cmd_loop debug targets n) \/
  (exists n dev, p = device_loop drv open_driver targets n dev BACKOFF_MIN false).

Definition happens (t0 : Z) : list (nat * Event) -> list (Thread (W := W) unit) -> Shared -> Prop :=
  reaches is_thread (shared_new (length targets) t0).

Lemma agrees_new n t0 : agrees ledger0 (shared_new n t0).
Proof.
  constructor; cbn; try done.
  intros dev cmd. split; [| done]. intros H.
  apply list_elem_of_lookup_2, list_elem_of_In, repeat_spec in H. discriminate H.
Qed.

Lemma happens_keeps t0 trace pool c : happens t0 trace pool c ->
  exists s, accepts_trace takes trace ledger0 = Some s /\ agrees s c.
Proof.
  intros H.
  destruct (pool_obeys takes view agrees (ledger_frame targets is_switch line) is_thread (Nothing, None)
    (fun _ w => fst w = Nothing) (fun _ => False) ledger0 (shared_new (length targets) t0)) with (trace := trace) (pool := pool) (c := c)
    as (s & H1 & H2 & _); [apply agrees_new | done | | exact H | by exists s].
  intros i p [[n ->] | (n & dev & ->)].
  - by apply (keeps_cmd_loop debug targets is_switch line).
  - by apply (keeps_device_loop drv open_driver targets is_switch line channel good laws opened_good).
Qed.

(** C5: Whatever requests come in and however the threads interleave, whatever the
    devices answer and however long anything takes, the trace is one the ledger
    takes: a command is queued once with its deadline, taken by one thread of its
    device, begun only before the deadline, sends at most the one line it stands
    for, and is answered with its own outcome, or with the deadline once it has
    passed, or with the end of the thread that lost it; whatever is refused before
    it is queued is answered with a refusal; no wait outlasts its fuel; and the
    queues and reply channels are the ledger's. *)
Theorem power_commands_kept (t0 : Z) trace pool c : happens t0 trace pool c ->
  exists s, accepts_trace takes trace ledger0 = Some s /\ agrees s c.
Proof. apply happens_keeps. Qed.

(** *** What goes over the ports *)

Definition event_lines (dev : nat) (ev : Event) : list string :=
  match ev with
  | OnPort dev' evs | Ran dev' _ evs _ => if decide (dev' = dev) then switches is_switch dev evs else []
  | _ => []
  end.
Definition port_lines (dev : nat) (trace : list (nat * Event)) : list string :=
  flat_map (fun '(_, ev) => event_lines dev ev) trace.
Definition event_ran (dev : nat) (ev : Event) : list PowerCommand :=
  match ev with
  | Ran dev' cmd _ _ => if decide (dev' = dev) then [cmd] else []
  | _ => []
  end.
Definition ran (dev : nat) (trace : list (nat * Event)) : list PowerCommand :=
  flat_map (fun '(_, ev) => event_ran dev ev) trace.

(** The ledger by itself: a command in hand is in one hand. *)
Record sound (s : Ledger) : Prop := {
  sound_hand : forall i dev cmd, works_on (hand i s) = Some (dev, cmd) -> entries s !! cmd_id cmd = Some (dev, cmd, InHand);
  sound_alone : forall i j x, works_on (hand i s) = Some x -> works_on (hand j s) = Some x -> i = j;
}.

(** What the trace so far says of the commands in the ledger. *)
Record told (trace : list (nat * Event)) (s : Ledger) : Prop := {
  told_queued : forall id dev cmd st, entries s !! id = Some (dev, cmd, st) ->
    id = cmd_id cmd /\ exists i, (i, Enqueued dev cmd) ∈ trace;
  told_begun : forall i dev cmd, hand i s = HasBegun dev cmd -> exists t, (i, Began dev cmd t) ∈ trace /\ t < deadline cmd;
  told_ran : forall dev cmd, cmd ∈ ran dev trace ->
    (exists i t, (i, Began dev cmd t) ∈ trace /\ t < deadline cmd) /\
    exists st, entries s !! cmd_id cmd = Some (dev, cmd, st) /\ st <> InQueue /\
      (st = InHand -> exists i response, hand i s = HasRun dev cmd response);
  told_once : forall dev, NoDup (ran dev trace);
  told_lines : forall dev, port_lines dev trace `sublist_of` map (fun cmd => line dev (ch cmd) (on cmd)) (ran dev trace);
}.

Lemma ran_app dev t t' : ran dev (t ++ t') = ran dev t ++ ran dev t'.
Proof. apply flat_map_app. Qed.
Lemma port_lines_app dev t t' : port_lines dev (t ++ t') = port_lines dev t ++ port_lines dev t'.
Proof. apply flat_map_app. Qed.

Lemma sound_rehand i h s :
  sound s -> works_on h = works_on (hand i s) \/ works_on h = None -> sound (in_hand i h s).
Proof.
  intros [H1 H2] Hw.
  assert (Hold : forall j x, works_on (hand j (in_hand i h s)) = Some x -> works_on (hand j s) = Some x).
  { intros j x. destruct (decide (i = j)) as [<- | Hne]; [| by rewrite hand_other].
    rewrite hand_same. destruct Hw as [-> | ->]; done. }
  constructor.
  - intros j dev cmd Hj. by apply (H1 j), Hold.
  - intros j k x Hj Hk. by apply (H2 j k x); apply Hold.
Qed.

(** An entry nobody works on changes. *)
Lemma sound_staged dev cmd st s :
  sound s -> (forall j dev' cmd', works_on (hand j s) = Some (dev', cmd') -> cmd_id cmd' <> cmd_id cmd) -> sound (staged dev cmd st s).
Proof.
  intros [H1 H2] Hfree. constructor; [| exact H2]. intros j dev' cmd' Hj. cbn.
  rewrite lookup_insert_ne by (intros E; by apply (Hfree j dev' cmd')). by apply (H1 j).
Qed.

Lemma sound_free s i dev cmd j dev' cmd' :
  sound s -> works_on (hand i s) = Some (dev, cmd) -> works_on (hand j s) = Some (dev', cmd') -> j <> i -> cmd_id cmd' <> cmd_id cmd.
Proof.
  intros [H1 H2] Hi Hj Hne E. pose proof (H1 _ _ _ Hi) as E1. pose proof (H1 _ _ _ Hj) as E2. rewrite E, E1 in E2.
  injection E2 as <- <-. by apply Hne, (H2 j i (dev, cmd)).
Qed.

Lemma sound_finished i dev cmd st s :
  sound s -> works_on (hand i s) = Some (dev, cmd) -> sound (in_hand i Nothing (staged dev cmd st s)).
Proof.
  intros Hs Hi. constructor.
  - intros j dev' cmd'. destruct (decide (i = j)) as [<- | Hne]; [by rewrite hand_same |]. rewrite hand_other by done.
    intros Hj. change (hand j (staged dev cmd st s)) with (hand j s) in Hj. cbn.
    rewrite lookup_insert_ne; [by apply (sound_hand _ Hs j) |]. intros E. symmetry in E. revert E.
    by apply (sound_free s i dev cmd j dev' cmd').
  - intros j k x. destruct (decide (i = j)) as [<- | Hij]; [by rewrite hand_same |].
    destruct (decide (i = k)) as [<- | Hik]; [by rewrite hand_same |]. rewrite !hand_other by done. apply (sound_alone _ Hs).
Qed.

Lemma accept_sound i ev s s' : takes i ev s = Some s' -> sound s -> sound s'.
Proof.
  intros H Hs. destruct ev; cbn [accept] in H; try discriminate H; try (apply given_Some in H as [Hg <-]);
    try (apply bool_decide_eq_true in Hg); try (injection H as <-); try done.
  - (* SawTime *) by destruct Hs.
  - (* Enqueued *) apply sound_rehand; [| by right]. apply sound_staged; [done |]. intros j dev' cmd' Hj E.
    apply (sound_hand _ Hs) in Hj. rewrite E in Hj. destruct Hg as [_ Hg]. congruence.
  - (* Took *) destruct Hg as [Hh He].
    assert (Hfree : forall j dev' cmd', works_on (hand j s) = Some (dev', cmd') -> cmd_id cmd' <> cmd_id cmd).
    { intros j dev' cmd' Hj E. apply (sound_hand _ Hs) in Hj. rewrite E, He in Hj. discriminate Hj. }
    destruct Hs as [H1 H2]. constructor.
    + intros j dev' cmd'. destruct (decide (i = j)) as [<- | Hne].
      * rewrite hand_same. intros [= <- <-]. cbn. by rewrite lookup_insert_eq.
      * rewrite hand_other by done. intros Hj. cbn. change (hand j (staged dev cmd InHand s)) with (hand j s) in Hj.
        rewrite lookup_insert_ne by (intros E; by apply (Hfree j dev' cmd')). by apply (H1 j).
    + intros j k x Hj Hk. destruct (decide (i = j)) as [<- | Hij], (decide (i = k)) as [<- | Hik]; try done.
      * rewrite hand_same in Hj. rewrite hand_other in Hk by done. injection Hj as <-. by destruct (Hfree k dev cmd).
      * rewrite hand_same in Hk. rewrite hand_other in Hj by done. injection Hk as <-. by destruct (Hfree j dev cmd).
      * rewrite hand_other in Hj, Hk by done. by apply (H2 j k x).
  - (* Began *) apply sound_rehand; [done | left]. by destruct Hg as [-> _].
  - (* Expired *) apply (sound_finished i dev cmd Lost); [done |]. by destruct Hg as [-> _].
  - (* Ran *) apply sound_rehand; [done | left]. by destruct Hg as [-> _].
  - (* Delivered *) apply (sound_finished i dev cmd (Replied response)); [done |]. by destruct Hg as [-> | [-> _]].
  - (* Closed *) destruct Hs as [H1 H2]. constructor; [| exact H2]. intros j dev' cmd' Hj. cbn.
    apply lookup_fmap_Some. exists (dev', cmd', InHand). split; [done | by apply (H1 j)].
  - (* Resolved *) apply sound_rehand; [done | by right].
  - (* Answered *) apply sound_rehand; [done | by right].
Qed.


(** What an event does to the entries: it moves one on, or brings a new one in. *)
Lemma accept_entries i ev s s' id dev cmd st : sound s -> takes i ev s = Some s' -> entries s' !! id = Some (dev, cmd, st) ->
  (exists st0, entries s !! id = Some (dev, cmd, st0)) \/ (id = cmd_id cmd /\ ev = Enqueued dev cmd).
Proof.
  intros Hs H.
  assert (Hmoved : forall dev0 cmd0 st0 st1, entries s !! cmd_id cmd0 = Some (dev0, cmd0, st0) ->
    <[cmd_id cmd0 := (dev0, cmd0, st1)]> (entries s) !! id = Some (dev, cmd, st) ->
    exists st0, entries s !! id = Some (dev, cmd, st0)).
  { intros dev0 cmd0 st0 st1 H0. destruct (decide (cmd_id cmd0 = id)) as [<- | Hne].
    - rewrite lookup_insert_eq. intros [= <- <- _]. by exists st0.
    - rewrite lookup_insert_ne by done. intros Hx. by exists st. }
  destruct ev; cbn [accept] in H; try discriminate H; try (apply given_Some in H as [Hg <-]);
    try (apply bool_decide_eq_true in Hg); try (injection H as <-); cbn; try (intros Hx; left; by exists st).
  - destruct (decide (cmd_id cmd0 = id)) as [<- | Hne]; [rewrite lookup_insert_eq; intros [= <- <- _]; by right |].
    rewrite lookup_insert_ne by done. intros Hx. left. by exists st.
  - intros Hx. left. destruct Hg as [_ Hg]. by apply (Hmoved _ _ _ _ Hg Hx).
  - intros Hx. left. destruct Hg as [Hg _]. apply (Hmoved dev0 cmd0 InHand _ (sound_hand _ Hs i _ _ ltac:(by rewrite Hg)) Hx).
  - intros Hx. left. assert (Hw : works_on (hand i s) = Some (dev0, cmd0)) by (by destruct Hg as [-> | [-> _]]).
    apply (Hmoved dev0 cmd0 InHand _ (sound_hand _ Hs i _ _ Hw) Hx).
  - rewrite lookup_fmap. destruct (entries s !! id) as [[[dev1 cmd1] st1] |]; [| done]. cbn.
    destruct st1; try destruct (decide (dev1 = dev0)); intros [= <- <- <-]; left; by eexists.
Qed.

Lemma accept_begun i ev s s' j dev cmd : takes i ev s = Some s' -> hand j s' = HasBegun dev cmd ->
  hand j s = HasBegun dev cmd \/ exists t, j = i /\ ev = Began dev cmd t /\ t < deadline cmd.
Proof.
  intros H Hj. destruct (decide (j = i)) as [-> | Hne].
  2: { left. pose proof (ledger_frame _ _ _ i j ev s s' H Hne) as Hv. unfold view in Hv. injection Hv as Hv _. congruence. }
  destruct ev; cbn [accept] in H; try discriminate H; try (apply given_Some in H as [Hg <-]);
    try (apply bool_decide_eq_true in Hg); try (injection H as <-); try (by left);
    try (rewrite hand_same in Hj; try discriminate Hj).
  injection Hj as <- <-. right. exists t. by destruct Hg.
Qed.

(** A command that has run stays run. *)
Lemma accept_run i ev s s' dev cmd st :
  sound s -> takes i ev s = Some s' -> entries s !! cmd_id cmd = Some (dev, cmd, st) -> st <> InQueue ->
  (st = InHand -> exists j response, hand j s = HasRun dev cmd response) ->
  exists st', entries s' !! cmd_id cmd = Some (dev, cmd, st') /\ st' <> InQueue /\
    (st' = InHand -> exists j response, hand j s' = HasRun dev cmd response).
Proof.
  intros Hs H He Hq Hr.
  assert (Hkeep : entries s' !! cmd_id cmd = Some (dev, cmd, st) ->
    (st = InHand -> forall r, hand i s = HasRun dev cmd r -> hand i s' = HasRun dev cmd r) ->
    exists st', entries s' !! cmd_id cmd = Some (dev, cmd, st') /\ st' <> InQueue /\
    (st' = InHand -> exists j response, hand j s' = HasRun dev cmd response)).
  { intros E Hi. exists st. split_and!; [done | done |]. intros Est. destruct (Hr Est) as (j & r & Hj). exists j, r.
    destruct (decide (j = i)) as [-> | Hne]; [by apply Hi |].
    pose proof (ledger_frame _ _ _ i j ev s s' H Hne) as Hv. unfold view in Hv. injection Hv as Hv _. congruence. }
  destruct ev; cbn [accept] in H; try discriminate H; try (apply given_Some in H as [Hg <-]);
    try (apply bool_decide_eq_true in Hg); try (injection H as <-); cbn [entries in_hand staged] in *; try (by apply Hkeep).
  - (* Enqueued *) destruct Hg as [Hh Hn]. apply Hkeep; [rewrite lookup_insert_ne by congruence; done |]. intros _ r Hx. congruence.
  - (* Took *) destruct Hg as [Hh Hn]. apply Hkeep; [rewrite lookup_insert_ne by congruence; done |]. intros _ r Hx. congruence.
  - (* Began *) apply Hkeep; [done |]. intros _ r Hx. destruct Hg as [Hg _]. congruence.
  - (* Expired *) destruct Hg as [Hg _]. pose proof (sound_hand _ Hs i _ _ ltac:(by rewrite Hg)) as He0.
    destruct (decide (cmd_id cmd0 = cmd_id cmd)) as [E | Hne].
    + rewrite E, He in He0. injection He0 as -> -> ->. exists Lost. rewrite lookup_insert_eq. split_and!; [done | done | by intros [=]].
    + apply Hkeep; [by rewrite lookup_insert_ne |]. intros _ r Hx. congruence.
  - (* Ran *) apply Hkeep; [done |]. intros _ r0 Hx. destruct Hg as [Hg _]. congruence.
  - (* Delivered *) assert (Hw : works_on (hand i s) = Some (dev0, cmd0)) by (by destruct Hg as [-> | [-> _]]).
    pose proof (sound_hand _ Hs i _ _ Hw) as He0. destruct (decide (cmd_id cmd0 = cmd_id cmd)) as [E | Hne].
    + rewrite E, He in He0. injection He0 as -> -> ->. exists (Replied response). rewrite lookup_insert_eq. split_and!; [done | done | by intros [=]].
    + apply Hkeep; [by rewrite lookup_insert_ne |]. intros _ r Hx. rewrite Hx in Hw. cbn in Hw. congruence.
  - (* Closed *) apply Hkeep; [| done]. apply lookup_fmap_Some. exists (dev, cmd, st). split; [by destruct st | done].
  - (* Resolved *) apply Hkeep; [done |]. intros _ r Hx. destruct Hg as [Hg _]. congruence.
  - (* Answered *) apply Hkeep; [done |]. intros _ r Hx. destruct Hg as [Hg | [Hg _]]; congruence.
Qed.

Lemma accept_told i ev trace s s' :
  takes i ev s = Some s' -> sound s -> told trace s -> told (trace ++ [(i, ev)]) s'.
Proof.
  intros H Hs [T1 T2 T3 T4 T5].
  assert (Hmore : forall x, x ∈ trace -> x ∈ trace ++ [(i, ev)]) by (intros x Hx; apply elem_of_app; by left).
  assert (Hthis : (i, ev) ∈ trace ++ [(i, ev)]) by (apply elem_of_app; right; by apply list_elem_of_singleton).
  (* the command this event has run, if any *)
  assert (Hran : forall dev, exists new, ran dev (trace ++ [(i, ev)]) = ran dev trace ++ new /\
    port_lines dev (trace ++ [(i, ev)]) = port_lines dev trace ++ event_lines dev ev /\
    event_lines dev ev `sublist_of` map (fun cmd => line dev (ch cmd) (on cmd)) new /\
    (new = [] \/ exists cmd, new = [cmd] /\ hand i s = HasBegun dev cmd /\ exists r, hand i s' = HasRun dev cmd r)).
  { intros dev. exists (event_ran dev ev). rewrite ran_app, port_lines_app. cbn. rewrite !app_nil_r. split; [done |]. split; [done |].
    destruct ev; cbn [accept] in H; cbn; try discriminate H; try (by split; [| left]).
    - apply given_Some in H as [Hg _]. apply bool_decide_eq_true in Hg. destruct (decide (dev0 = dev)) as [<- |]; [rewrite Hg |]; by split; [| left].
    - apply given_Some in H as [Hg <-]. apply bool_decide_eq_true in Hg. destruct Hg as [Hh Hsw].
      destruct (decide (dev0 = dev)) as [<- |]; [| by split; [| left]]. split.
      + destruct Hsw as [-> | ->]; [apply sublist_nil_l | done].
      + right. exists cmd. split_and!; [done | done |]. eexists. by rewrite hand_same. }
  constructor.
  - intros id dev cmd st Hx. destruct (accept_entries i ev s s' id dev cmd st Hs H Hx) as [[st0 H0] | [-> ->]].
    + destruct (T1 _ _ _ _ H0) as (E & j & Hj). split; [done |]. exists j. by apply Hmore.
    + split; [done | by exists i].
  - intros j dev cmd Hj. destruct (accept_begun i ev s s' j dev cmd H Hj) as [H0 | (t & -> & -> & Ht)].
    + destruct (T2 _ _ _ H0) as (t & Ht & Hd). exists t. split; [by apply Hmore | done].
    + by exists t.
  - intros dev cmd. destruct (Hran dev) as (new & -> & _ & _ & Hnew). rewrite elem_of_app. intros [Hx | Hx].
    + destruct (T3 dev cmd Hx) as ((j & t & Hj & Ht) & st & He & Hq & Hr).
      split; [exists j, t; split; [by apply Hmore | done] |]. by apply (accept_run i ev s s' dev cmd st).
    + destruct Hnew as [-> | (cmd' & -> & Hb & r & Hr)]; [by apply elem_of_nil in Hx |]. apply list_elem_of_singleton in Hx as ->.
      destruct (T2 i dev cmd' Hb) as (t & Ht & Hd). split; [exists i, t; split; [by apply Hmore | done] |].
      exists InHand. split_and!; [| done | by intros _; exists i, r].
      apply (sound_hand _ (accept_sound i ev s s' H Hs) i). by rewrite Hr.
  - intros dev. destruct (Hran dev) as (new & -> & _ & _ & Hnew). destruct Hnew as [-> | (cmd & -> & Hb & r & Hr)]; [by rewrite app_nil_r |].
    apply list.NoDup_app. split_and!; [done | | apply NoDup_singleton]. intros x Hx Hin. apply list_elem_of_singleton in Hin as ->.
    destruct (T3 dev cmd Hx) as (_ & st & He & _ & Hrun).
    pose proof (sound_hand _ Hs i dev cmd ltac:(by rewrite Hb)) as He'. rewrite He in He'. injection He' as ->.
    destruct (Hrun eq_refl) as (j & r' & Hj). assert (i = j) as <- by (apply (sound_alone _ Hs i j (dev, cmd)); [by rewrite Hb | by rewrite Hj]).
    congruence.
  - intros dev. destruct (Hran dev) as (new & -> & -> & Hsub & _). rewrite map_app. by apply sublist_app.
Qed.

Lemma accepts_told todo trace s s' :
  accepts_trace takes todo s = Some s' -> sound s -> told trace s -> told (trace ++ todo) s'.
Proof.
  revert trace s. induction todo as [| [i ev] todo IH]; intros trace s; cbn [accepts_trace].
  - intros [= <-]. by rewrite app_nil_r.
  - destruct (takes i ev s) as [s1 |] eqn:E; [| done]. intros H Hs Ht.
    replace (trace ++ (i, ev) :: todo) with ((trace ++ [(i, ev)]) ++ todo) by (by rewrite <- app_assoc).
    apply (IH _ s1); [done | by apply (accept_sound i ev s) | by apply (accept_told i ev trace s)].
Qed.

(** In every interleaving the lines that switch anything on a device's port are,
    in order, lines of power commands that ran there, one for each at most; each of
    these commands runs once, was begun before its deadline and was queued by a
    request; identifying and polling the device, reopening it and waiting send
    none. *)
Theorem only_commands_switch (t0 : Z) trace pool c (dev : nat) : happens t0 trace pool c ->
  port_lines dev trace `sublist_of` map (fun cmd => line dev (ch cmd) (on cmd)) (ran dev trace) /\
  NoDup (ran dev trace) /\
  forall cmd, cmd ∈ ran dev trace ->
    (exists i t, (i, Began dev cmd t) ∈ trace /\ t < deadline cmd) /\ exists i, (i, Enqueued dev cmd) ∈ trace.
Proof.
  intros H. destruct (happens_keeps t0 trace pool c H) as (s & Hs & _).
  assert (H0 : told [] ledger0).
  { constructor; try done; intros; try constructor. by apply elem_of_nil in H0. by apply elem_of_nil in H0. }
  destruct (accepts_told trace [] ledger0 s Hs) as [T1 _ T3 T4 T5]; [done | done |]. cbn [app] in *.
  split_and!; [apply T5 | apply T4 |]. intros cmd Hc. destruct (T3 dev cmd Hc) as (Hb & st & He & _). split; [done |].
  by destruct (T1 _ _ _ _ He) as (_ & Hq).
Qed.
End Runs.

(** ** A supply, its thread and the command thread *)

#[local] Instance hv_port : Port bytes := tape.

(** Every request reads as: channel 3 on. *)
#[local] Instance one_request : PowerJson := {
  parse_op := fun _ => Ok "power";
  parse_power := fun _ => Ok ("hv", 3, true);
}.

Definition hv_targets : list Target := [mkTarget "hv" "hivolta" 1000].
Definition hv_opened (dev : nat) (w : bytes) : result HiVoltaDriver string := Ok (hivolta_new "hv" "").
Definition hv_thread : Thread (W := bytes) unit := device_loop (hivolta quoted) hv_opened hv_targets 3 0 BACKOFF_MIN false.
Definition hv_commands : Thread (W := bytes) unit := cmd_loop quoted hv_targets 3.

Definition finds (w : bytes) : Found (W := bytes) := mkFound 1 false w 0 true (Some []) true.

(** The device's thread, or the command thread, through some sections that find
    the given replies. *)
Definition device_finds (ws : list bytes) : list (Thread (W := bytes) unit + nat * Found (W := bytes)) :=
  map (fun w => inr (0%nat, finds w)) ws.
Definition command_goes (n : nat) : list (Thread (W := bytes) unit + nat * Found (W := bytes)) :=
  repeat (inr (1%nat, finds [])) n.

Definition hv_ident_replies : bytes :=
  replies ["#CMD:OK,VAL:DT1415ET"; "#CMD:OK,VAL:8"; "#CMD:OK,VAL:1.0"; "#CMD:OK,VAL:42"; "#CMD:OK,VAL:REMOTE"; "#CMD:OK,VAL:CLOSED"].
Definition hv_poll_replies : bytes :=
  replies [eight "0.1"; eight "0.0"; eight "0"; eight "100"; eight "5"; "#CMD:OK,VAL:0"; "#CMD:OK,VAL:NO"].
Definition hv_power_replies : bytes := replies ["#CMD:OK,VAL:0"; "#CMD:OK"; "#CMD:OK,VAL:3"].

(** It is opened, identified and polled, and is waiting; a command is queued, taken
    and begun. *)
Definition until_begun : list (Thread (W := bytes) unit + nat * Found (W := bytes)) :=
  [inl hv_thread; inl hv_commands] ++
  device_finds [[]; []; hv_ident_replies; []; []; []; hv_poll_replies; []; []; []; []; []; []] ++
  command_goes 4 ++ device_finds [[]; []].

Definition in_time : list (Thread (W := bytes) unit + nat * Found (W := bytes)) :=
  until_begun ++ device_finds [hv_power_replies; []] ++ command_goes 3.
Definition too_late : list (Thread (W := bytes) unit + nat * Found (W := bytes)) :=
  until_begun ++ command_goes 3 ++ device_finds [hv_power_replies; []].

Definition hv_played (moves : list (Thread (W := bytes) unit + nat * Found (W := bytes))) : list (nat * Event) :=
  fst (fst (play moves [] [] (shared_new 1 0))).

Definition hv_is_set (_ : nat) : string -> bool := is_set.
Definition hv_line (_ : nat) : Z -> bool -> string := set_line.

Fixpoint after_answer (response : Json) (trace : list (nat * Event)) : list (nat * Event) :=
  match trace with
  | [] => []
  | (_, Answered r) :: trace => if decide (r = response) then trace else after_answer response trace
  | _ :: trace => after_answer response trace
  end.

Lemma played_in_time :
  port_lines hv_is_set 0 (hv_played in_time) = [set_line 3 true] /\
  existsb (fun '(_, ev) => match ev with Answered (JObj (("ok", JBool true) :: _)) => true | _ => false end) (hv_played in_time) = true.
Proof. vm_compute. by split. Qed.

(** The deadline is looked at only before a command begins: one that has begun reads
    the status first, and can send its SET after the request has been answered with
    the timeout. *)
Lemma set_after_timeout :
  port_lines hv_is_set 0 (after_answer (power_refused POWER_TIMEOUT_ERROR) (hv_played too_late)) = [set_line 3 true].
Proof. vm_compute. reflexivity. Qed.

Lemma hv_laws (dev : nat) :
  SwitchLaws (hivolta quoted) (hv_is_set dev) (hv_line dev) (fun node => node < NUM_CH) at_most_eight.
Proof. apply hivolta_switches. Qed.

Lemma hv_opened_good (dev : nat) (w : bytes) (d : HiVoltaDriver) : hv_opened dev w = Ok d -> at_most_eight d.
Proof. intros [= <-]. unfold at_most_eight, NUM_CH. cbn. lia. Qed.

Lemma hv_happens : exists pool c, happens (hivolta quoted) hv_opened quoted hv_targets 0 (hv_played in_time) pool c.
Proof.
  pose proof (play_reaches (is_thread (hivolta quoted) hv_opened quoted hv_targets) (shared_new 1 0) in_time [] [] (shared_new 1 0)) as H.
  unfold hv_played. destruct (play in_time [] [] (shared_new 1 0)) as [[trace pool] c]. exists pool, c. apply H; [| constructor].
  intros p Hp. unfold in_time, until_begun, device_finds, command_goes in Hp. rewrite !elem_of_app, !elem_of_cons in Hp.
  assert (Hno : forall l : list (nat * Found (W := bytes)), inl p ∈ map inr l -> False).
  { intros l Hl. apply list_elem_of_In, in_map_iff in Hl as (x & Hx & _). discriminate Hx. }
  assert (Hrep : forall n (e : nat * Found (W := bytes)), inl p ∈ repeat (inr e) n -> False).
  { intros n e Hl. apply list_elem_of_In, repeat_spec in Hl. discriminate Hl. }
  assert (Hdev : forall ws, inl p ∈ map (fun w => inr (A := Thread (W := bytes) unit) (0%nat, finds w)) ws -> False).
  { intros ws Hl. apply list_elem_of_In, in_map_iff in Hl as (x & Hx & _). discriminate Hx. }
  repeat (match goal with H : _ \/ _ |- _ => destruct H as [H | H] end);
    try (exfalso; by eapply Hdev); try (exfalso; by eapply Hrep); try (by apply elem_of_nil in Hp).
  - injection Hp as ->. right. by exists 3%nat, 0%nat.
  - injection Hp as ->. left. by exists 3%nat.
Qed.

Lemma power_commands_kept_witness : exists s,
  accepts_trace (accept hv_targets hv_is_set hv_line) (hv_played in_time) ledger0 = Some s /\
  port_lines hv_is_set 0 (hv_played in_time) = [set_line 3 true].
Proof.
  destruct hv_happens as (pool & c & H).
  destruct (power_commands_kept (hivolta quoted) hv_opened quoted hv_targets hv_is_set hv_line (fun _ node => node < NUM_CH)
    (fun _ => at_most_eight) hv_laws hv_opened_good 0 (hv_played in_time) pool c H) as (s & Hs & _).
  exists s. split; [exact Hs | exact (proj1 played_in_time)].
Defined.

Lemma only_commands_switch_witness :
  port_lines hv_is_set 0 (hv_played in_time) = [set_line 3 true] /\
  port_lines hv_is_set 0 (hv_played in_time) `sublist_of`
    map (fun cmd => hv_line 0 (ch cmd) (on cmd)) (ran 0 (hv_played in_time)).
Proof.
  destruct hv_happens as (pool & c & H). split; [exact (proj1 played_in_time) |].
  exact (proj1 (only_commands_switch (hivolta quoted) hv_opened quoted hv_targets hv_is_set hv_line (fun _ node => node < NUM_CH)
    (fun _ => at_most_eight) hv_laws hv_opened_good 0 (hv_played in_time) pool c 0 H)).
Defined.

(** The command thread is never kept longer than a command's deadline: a request is
    answered after four of its sections. *)
Lemma power_request_answered {W : Type} (debug : string -> string) `{PowerJson} targets request timeout :
  answers_within 4 (handle_power_request (W := W) debug targets request timeout).
Proof.
  unfold handle_power_request. destruct (check_request debug targets request) as [[[dev ch] on] |]; [| done].
  cbn. intros e c e' c'. destruct (queues c' !! dev) as [[[cmd |] |] |]; cbn; try done.
  intros e1 c1. destruct (mails c1 !! issued c') as [[[r |] [] rcv] |]; cbn; done.
Qed.
