(* ===== verification/Config.v ===== *)
(** * Config: the configuration file, resolved and checked

    Models [src/config.rs]: the settings as the file gives them, the defaults put in
    for those left out, and the checks that every component relies on.  TOML is a
    library's: [from_str] reads the file's text or says why not; [exists_] tells which
    paths exist; [debug] and [show_f64] print a string and a float.  A path is a
    string; a port number is computed in [u32]. *)

From Stdlib Require Import Ascii.
From stdpp Require Import gmap pretty strings.
From S2P Require Import Prelude Checks Decimal Text Float Command Controller Slowctl HiVolta SlowRecords.
Open Scope list_scope.
Open Scope Z_scope.

(** ** Ports and defaults *)

Definition COBO_LISTEN_PORT_BASE : Z := 46005.
Definition RECEIVER_COMMAND_PORT_BASE : Z := 47110.
Definition DEFAULT_MONITOR_WS_LISTEN : string := "0.0.0.0:9000".
Definition DEFAULT_MONITOR_SUB_ENDPOINT : string := "tcp://127.0.0.1:47004".
Definition DEFAULT_MONITOR_LIVE_QUEUE : Z := 64.
Definition DEFAULT_CONTROLLER_REST_LISTEN : string := "0.0.0.0:8080".
Definition DEFAULT_CONTROLLER_LOG_PULL_BIND : string := "tcp://*:47005".
Definition DEFAULT_CONTROLLER_EOS_TIMEOUT_S : Z := 5.
Definition DEFAULT_CONTROLLER_EOS_QUIESCE_MS : Z := 500.
Definition DEFAULT_SLOWCTL_STATUS_PUB : string := "tcp://*:47006".
Definition SLOWCTL_CMD_BIND_PREFIX : string := "tcp://127.0.0.1:".
Definition DEFAULT_CONTROLLER_LOG_PUSH_ENDPOINT : string := "tcp://127.0.0.1:47005".
Definition DEFAULT_SLOWCTL_POLL_HZ : f64 := f64_of_Z 1.
Definition DEFAULT_SLOWCTL_LOG_EVERY_S : Z := 60.
Definition DEFAULT_GRAW_WRITER_ENDPOINT : string := "tcp://127.0.0.1:47001".
Definition DEFAULT_DECODER_ENDPOINT : string := "tcp://127.0.0.1:47002".
Definition DEFAULT_GRAW_WRITER_PULL_BIND : string := "tcp://*:47001".
Definition DEFAULT_GRAW_WRITER_MAX_FILE_BYTES : Z := 1024 * 1024 * 1024.
Definition DEFAULT_GRAW_WRITER_FLUSH_INTERVAL_MS : Z := 1000.
Definition DEFAULT_DECODER_PULL_BIND : string := "tcp://*:47002".
Definition DEFAULT_ROOT_SINK_ENDPOINT : string := "tcp://127.0.0.1:47003".
Definition DEFAULT_GRAW_WRITER_COMMAND_ENDPOINT : string := "tcp://127.0.0.1:47100".
Definition DEFAULT_DECODER_COMMAND_ENDPOINT : string := "tcp://127.0.0.1:47101".
Definition DEFAULT_ECC_COMMAND_ENDPOINT : string := "tcp://127.0.0.1:47200".
Definition DEFAULT_BATCH_MAX_BYTES : Z := 8 * 1024 * 1024.
Definition DEFAULT_BATCH_MAX_MS : Z := 10.
Definition DEFAULT_QUEUE_FRAMES : Z := 512.
Definition DEFAULT_HEARTBEAT_MS : Z := 1000.
Definition DEFAULT_HWM : Z := 1000.
Definition DEFAULT_INFLUX_BATCH_MS : Z := 1000.
Definition DEFAULT_INFLUX_BUFFER_MAX_POINTS : Z := 100000.
Definition DEFAULT_INFLUX_TIMEOUT_MS : Z := 2000.

Definition SLOWCTL_DEVICE_TYPES : list string :=
  ["bronkhorst_flowbus"; "arduino_env"; "hivolta"; "hmp2020"; "fake"].
Definition SLOWCTL_SERIAL_TYPES : list string := ["bronkhorst_flowbus"; "arduino_env"; "hmp2020"; "fake"].

Definition default_receiver_command_endpoint (cobo_id : Z) : string :=
  "tcp://127.0.0.1:" +:+ dec (wrap 32 (RECEIVER_COMMAND_PORT_BASE + cobo_id)).

Definition is_stable_serial_port (port : string) : bool :=
  starts_with "/dev/serial/by-id/" port || starts_with "/dev/serial/by-path/" port.

(** ** The settings, resolved *)

Record SystemConfig : Type := mkSystem {
  experiment : string;
  output_root : string;
  geometry : string;
  ped_table : option string;
}.

Record ReceiverConfig : Type := mkReceiver {
  rx_batch_max_bytes : Z;
  rx_batch_max_ms : Z;
  rx_queue_frames : Z;
  rx_heartbeat_ms : Z;
  rx_hwm : Z;
  rx_graw_writer_endpoint : string;
  rx_decoder_endpoint : string;
}.

Record GrawWriterConfig : Type := mkGrawWriter {
  gw_pull_bind : string;
  gw_max_file_bytes : Z;
  gw_flush_interval_ms : Z;
}.

Record DecoderConfig : Type := mkDecoder {
  dec_workers : Z;
  dec_pull_bind : string;
  dec_push_connect : string;
  dec_batch_max_bytes : Z;
  dec_batch_max_ms : Z;
}.

Record RootSinkConfig : Type := mkRootSink {
  snapshot_hz : f64;
  event_publish_hz : f64;
  build_timeout_ms : Z;
  raw_tree : bool;
}.

Record MonitorConfig : Type := mkMonitor {
  ws_listen : string;
  sub_endpoint : string;
  mon_geometry : string;
  live_queue : Z;
  slow_sub : option string;
}.

Record ControllerConfig : Type := mkController {
  rest_listen : string;
  passphrase : string;
  ecc_proxy : string;
  config_id : ConfigIds;
  log_pull_bind : string;
  eos_timeout_s : Z;
  eos_quiesce_ms : Z;
  ui_dir : option string;
  graw_writer_command : string;
  decoder_command : string;
  receiver_commands : list string;
  ecc_command : string;
  ctl_router_ip : option string;
  ecc_config_dir : option string;
  params_dir : option string;
  slow_cmd : option string;
}.

Record InfluxConfig : Type := mkInflux {
  url : string;
  org : string;
  bucket : string;
  token_file : string;
  batch_ms : Z;
  buffer_max_points : Z;
  timeout_ms : Z;
}.

Record SlowctlConfig : Type := mkSlowctl {
  status_pub : string;
  cmd_bind : option string;
  log_push : string;
  poll_hz : f64;
  slow_log_every_s : Z;
  device : list SlowDeviceConfig;
  influx : option InfluxConfig;
}.

(** A [CoboConfig] is a [CoboSpec]: the number, the address it connects to, the
    identifier of its data sender. *)
Record Config : Type := mkConfig {
  system : SystemConfig;
  cobo : list CoboSpec;
  receiver : ReceiverConfig;
  graw_writer : GrawWriterConfig;
  decoder : DecoderConfig;
  root_sink : RootSinkConfig;
  monitor : MonitorConfig;
  controller : ControllerConfig;
  slowctl : option SlowctlConfig;
}.

(** ** The settings as the file gives them *)

Record RawCobo : Type := mkRawCobo {
  raw_id : Z;
  raw_listen : option string;
  raw_data_sender_id : string;
}.

Record RawReceiver : Type := mkRawReceiver {
  raw_rx_batch_max_bytes : option Z;
  raw_rx_batch_max_ms : option Z;
  raw_queue_frames : option Z;
  raw_heartbeat_ms : option Z;
  raw_hwm : option Z;
  raw_graw_writer_endpoint : option string;
  raw_decoder_endpoint : option string;
}.

Record RawGrawWriter : Type := mkRawGrawWriter {
  raw_gw_pull_bind : option string;
  raw_max_file_bytes : option Z;
  raw_flush_interval_ms : option Z;
}.

Record RawDecoder : Type := mkRawDecoder {
  raw_workers : Z;
  raw_dec_pull_bind : option string;
  raw_push_connect : option string;
  raw_dec_batch_max_bytes : option Z;
  raw_dec_batch_max_ms : option Z;
}.

Record RawMonitor : Type := mkRawMonitor {
  raw_ws_listen : option string;
  raw_sub_endpoint : option string;
  raw_geometry : option string;
  raw_live_queue : option Z;
  raw_slow_sub : option string;
}.

Inductive RawConfigId : Type :=
| Same (id : string)
| PerPhase (ids : ConfigIds).

Record RawController : Type := mkRawController {
  raw_rest_listen : option string;
  raw_passphrase : string;
  raw_ecc_proxy : string;
  raw_config_id : RawConfigId;
  raw_log_pull_bind : option string;
  raw_eos_timeout_s : option Z;
  raw_eos_quiesce_ms : option Z;
  raw_ui_dir : option string;
  raw_graw_writer_command : option string;
  raw_decoder_command : option string;
  raw_receiver_commands : option (list string);
  raw_ecc_command : option string;
  raw_router_ip : option string;
  raw_ecc_config_dir : option string;
  raw_params_dir : option string;
  raw_slow_cmd : option string;
}.

Record RawInflux : Type := mkRawInflux {
  raw_url : string;
  raw_org : string;
  raw_bucket : string;
  raw_token_file : string;
  raw_batch_ms : option Z;
  raw_buffer_max_points : option Z;
  raw_timeout_ms : option Z;
}.

Record RawSlowctl : Type := mkRawSlowctl {
  raw_status_pub : option string;
  raw_cmd_bind : option string;
  raw_log_push : option string;
  raw_poll_hz : option f64;
  raw_log_every_s : option Z;
  raw_device : list SlowDeviceConfig;
  raw_influx : option RawInflux;
}.

Record RawConfig : Type := mkRawConfig {
  raw_system : SystemConfig;
  raw_cobo : list RawCobo;
  raw_receiver : RawReceiver;
  raw_graw_writer : RawGrawWriter;
  raw_decoder : RawDecoder;
  raw_root_sink : RootSinkConfig;
  raw_monitor : RawMonitor;
  raw_controller : RawController;
  raw_slowctl : option RawSlowctl;
}.

(** ** Defaults *)

Definition resolve_cobo (c : RawCobo) : CoboSpec :=
  mkCoboSpec (raw_id c) (default ("0.0.0.0:" +:+ dec (wrap 32 (COBO_LISTEN_PORT_BASE + raw_id c))) (raw_listen c))
    (raw_data_sender_id c).

Definition resolve_receiver (r : RawReceiver) : ReceiverConfig :=
  mkReceiver (default DEFAULT_BATCH_MAX_BYTES (raw_rx_batch_max_bytes r)) (default DEFAULT_BATCH_MAX_MS (raw_rx_batch_max_ms r))
    (default DEFAULT_QUEUE_FRAMES (raw_queue_frames r)) (default DEFAULT_HEARTBEAT_MS (raw_heartbeat_ms r))
    (default DEFAULT_HWM (raw_hwm r)) (default DEFAULT_GRAW_WRITER_ENDPOINT (raw_graw_writer_endpoint r))
    (default DEFAULT_DECODER_ENDPOINT (raw_decoder_endpoint r)).

Definition resolve_graw_writer (g : RawGrawWriter) : GrawWriterConfig :=
  mkGrawWriter (default DEFAULT_GRAW_WRITER_PULL_BIND (raw_gw_pull_bind g))
    (default DEFAULT_GRAW_WRITER_MAX_FILE_BYTES (raw_max_file_bytes g))
    (default DEFAULT_GRAW_WRITER_FLUSH_INTERVAL_MS (raw_flush_interval_ms g)).

Definition resolve_decoder (d : RawDecoder) : DecoderConfig :=
  mkDecoder (raw_workers d) (default DEFAULT_DECODER_PULL_BIND (raw_dec_pull_bind d))
    (default DEFAULT_ROOT_SINK_ENDPOINT (raw_push_connect d)) (default DEFAULT_BATCH_MAX_BYTES (raw_dec_batch_max_bytes d))
    (default DEFAULT_BATCH_MAX_MS (raw_dec_batch_max_ms d)).

Definition resolve_monitor (system_geometry : string) (m : RawMonitor) : MonitorConfig :=
  mkMonitor (default DEFAULT_MONITOR_WS_LISTEN (raw_ws_listen m)) (default DEFAULT_MONITOR_SUB_ENDPOINT (raw_sub_endpoint m))
    (default system_geometry (raw_geometry m)) (default DEFAULT_MONITOR_LIVE_QUEUE (raw_live_queue m)) (raw_slow_sub m).

Definition resolve_influx (i : RawInflux) : InfluxConfig :=
  mkInflux (raw_url i) (raw_org i) (raw_bucket i) (raw_token_file i) (default DEFAULT_INFLUX_BATCH_MS (raw_batch_ms i))
    (default DEFAULT_INFLUX_BUFFER_MAX_POINTS (raw_buffer_max_points i)) (default DEFAULT_INFLUX_TIMEOUT_MS (raw_timeout_ms i)).

Definition resolve_slowctl (s : RawSlowctl) : SlowctlConfig :=
  mkSlowctl (default DEFAULT_SLOWCTL_STATUS_PUB (raw_status_pub s)) (raw_cmd_bind s)
    (default DEFAULT_CONTROLLER_LOG_PUSH_ENDPOINT (raw_log_push s)) (default DEFAULT_SLOWCTL_POLL_HZ (raw_poll_hz s))
    (default DEFAULT_SLOWCTL_LOG_EVERY_S (raw_log_every_s s)) (raw_device s) (resolve_influx <$> raw_influx s).

(** [ConfigIds::from]. *)
Definition config_ids_from (id : RawConfigId) : ConfigIds :=
  match id with
  | Same id => mkConfigIds id id id
  | PerPhase ids => ids
  end.

Definition resolve_controller (cobo : list CoboSpec) (c : RawController) : ControllerConfig :=
  mkController (default DEFAULT_CONTROLLER_REST_LISTEN (raw_rest_listen c)) (raw_passphrase c) (raw_ecc_proxy c)
    (config_ids_from (raw_config_id c)) (default DEFAULT_CONTROLLER_LOG_PULL_BIND (raw_log_pull_bind c))
    (default DEFAULT_CONTROLLER_EOS_TIMEOUT_S (raw_eos_timeout_s c))
    (default DEFAULT_CONTROLLER_EOS_QUIESCE_MS (raw_eos_quiesce_ms c)) (raw_ui_dir c)
    (default DEFAULT_GRAW_WRITER_COMMAND_ENDPOINT (raw_graw_writer_command c))
    (default DEFAULT_DECODER_COMMAND_ENDPOINT (raw_decoder_command c))
    (default (map (fun c => default_receiver_command_endpoint (cobo_id_of c)) cobo) (raw_receiver_commands c))
    (default DEFAULT_ECC_COMMAND_ENDPOINT (raw_ecc_command c)) (raw_router_ip c) (raw_ecc_config_dir c)
    (raw_params_dir c) (raw_slow_cmd c).

Definition resolve (raw : RawConfig) : Config :=
  let cobo := map resolve_cobo (raw_cobo raw) in
  mkConfig (raw_system raw) cobo (resolve_receiver (raw_receiver raw)) (resolve_graw_writer (raw_graw_writer raw))
    (resolve_decoder (raw_decoder raw)) (raw_root_sink raw)
    (resolve_monitor (geometry (raw_system raw)) (raw_monitor raw))
    (resolve_controller cobo (raw_controller raw)) (resolve_slowctl <$> raw_slowctl raw).

(** ** Checks *)

Inductive ConfigError : Type :=
| ConfigIo (path error : string)
| ConfigParse (error : string)
| DuplicateCoboId (id : Z)
| DuplicateListen (listen : string)
| GeometryNotFound (path : string)
| PedTableNotFound (path : string)
| InvalidReceiver (why : string)
| InvalidMonitor (why : string)
| InvalidController (why : string)
| InvalidSlowctl (why : string).

Section Checks.
Context (exists_ : string -> bool) (debug : string -> string) (show_f64 : f64 -> string).

Fixpoint validate_cobo_ids_from (cobos : list CoboSpec) (seen : gset Z) : result unit ConfigError :=
  match cobos with
  | [] => Ok tt
  | c :: cobos =>
      if bool_decide (cobo_id_of c ∈ seen) then Err (DuplicateCoboId (cobo_id_of c))
      else validate_cobo_ids_from cobos ({[cobo_id_of c]} ∪ seen)
  end.

Definition validate_cobo_ids (cobos : list CoboSpec) : result unit ConfigError := validate_cobo_ids_from cobos ∅.

Fixpoint validate_listen_from (cobos : list CoboSpec) (seen : gset string) : result unit ConfigError :=
  match cobos with
  | [] => Ok tt
  | c :: cobos =>
      if bool_decide (listen c ∈ seen) then Err (DuplicateListen (listen c))
      else validate_listen_from cobos ({[listen c]} ∪ seen)
  end.

Definition validate_cobo_listen_unique (cobos : list CoboSpec) : result unit ConfigError := validate_listen_from cobos ∅.

Definition validate_geometry_path (path : string) : result unit ConfigError :=
  if exists_ path then Ok tt else Err (GeometryNotFound path).

Definition validate_ped_table_path (path : string) : result unit ConfigError :=
  if exists_ path then Ok tt else Err (PedTableNotFound path).

Fixpoint validate_positive (fields : list (string * Z)) : result unit ConfigError :=
  match fields with
  | [] => Ok tt
  | (field, value) :: fields =>
      if value =? 0 then Err (InvalidReceiver (field +:+ " must be greater than 0")) else validate_positive fields
  end.

Definition validate_receiver (r : ReceiverConfig) : result unit ConfigError :=
  let? _ := validate_positive [("batch_max_bytes", rx_batch_max_bytes r); ("batch_max_ms", rx_batch_max_ms r);
                               ("queue_frames", rx_queue_frames r); ("heartbeat_ms", rx_heartbeat_ms r)] in
  if rx_hwm r <=? 0 then
    Err (InvalidReceiver ("hwm must be greater than 0 (0 means unlimited buffering), got " +:+ pretty (rx_hwm r)))
  else Ok tt.

Definition validate_monitor (m : MonitorConfig) : result unit ConfigError :=
  if live_queue m =? 0 then Err (InvalidMonitor "live_queue must be greater than 0")
  else validate_geometry_path (mon_geometry m).

Definition validate_controller (c : ControllerConfig) (cobo_count : nat) : result unit ConfigError :=
  if negb (length (receiver_commands c) =? cobo_count)%nat then
    Err (InvalidController ("receiver_commands has " +:+ pretty (length (receiver_commands c)) +:+ " entries but there are " +:+
                            pretty cobo_count +:+ " [[cobo]] blocks"))
  else if eos_timeout_s c =? 0 then Err (InvalidController "eos_timeout_s must be greater than 0")
  else if eos_quiesce_ms c =? 0 then Err (InvalidController "eos_quiesce_ms must be greater than 0")
  else Ok tt.

Definition positive_finite (x : f64) : bool := is_finite x && negb (f64_le x (f64_of_Z 0)).

Definition mem (s : string) (l : list string) : bool := bool_decide (s ∈ l).

Definition in_device (d : SlowDeviceConfig) (why : string) : ConfigError :=
  InvalidSlowctl ("device " +:+ debug (device_name d) +:+ why).

(** Where the device is connected. *)
Definition validate_connection (d : SlowDeviceConfig) : result unit ConfigError :=
  let serial := mem (device_type d) SLOWCTL_SERIAL_TYPES in
  let of_type := " of type " +:+ debug (device_type d) +:+ " needs " in
  if bool_decide (device_type d = "hivolta") then
    if bool_decide (addr d = None) && bool_decide (port d = None) then
      Err (in_device d (of_type +:+ "an `addr` (TCP :1470) or `port` (USB VCP)"))
    else Ok tt
  else if serial && bool_decide (port d = None) then Err (in_device d (of_type +:+ "a `port`"))
  else if negb serial && bool_decide (addr d = None) then Err (in_device d (of_type +:+ "an `addr`"))
  else Ok tt.

Fixpoint validate_alarms (d : SlowDeviceConfig) (alarms : list AlarmRule) : result unit ConfigError :=
  match alarms with
  | [] => Ok tt
  | alarm :: alarms =>
      if f64_gt (lo alarm) (hi alarm) then
        Err (in_device d (" alarm on " +:+ debug (rule_param alarm) +:+ ": lo " +:+ show_f64 (lo alarm) +:+ " is above hi " +:+
                          show_f64 (hi alarm)))
      else validate_alarms d alarms
  end.

Definition because {A : Type} (d : SlowDeviceConfig) (r : result A string) : result unit ConfigError :=
  match r with
  | Ok _ => Ok tt
  | Err e => Err (in_device d (": " +:+ e))
  end.

(** One device, its type known and its name new. *)
Definition validate_device (d : SlowDeviceConfig) : result unit ConfigError :=
  let? _ := validate_connection d in
  let? _ :=
    if negb (bool_decide (device_type d = "hivolta")) && negb (bool_decide (device_status_ignore d = [])) then
      Err (in_device d (" of type " +:+ debug (device_type d) +:+
                        ": status_ignore is only for hivolta devices (status_ignore は hivolta のみ)"))
    else Ok tt in
  let? _ := because d (ignore_masks debug (device_status_ignore d)) in
  let? _ :=
    match poll_s d with
    | Some s =>
        if positive_finite s then Ok tt
        else Err (in_device d (": poll_s must be greater than 0, got " +:+ show_f64 s))
    | None => Ok tt
    end in
  let? _ := because d (Slowctl.resolve debug (nodes d)) in
  validate_alarms d (alarms d).

Fixpoint validate_devices (devices : list SlowDeviceConfig) (seen : gset string) : result unit ConfigError :=
  match devices with
  | [] => Ok tt
  | d :: devices =>
      if negb (mem (device_type d) SLOWCTL_DEVICE_TYPES) then
        Err (InvalidSlowctl ("unknown device type " +:+ debug (device_type d) +:+ " (known: " +:+
                             String.concat ", " SLOWCTL_DEVICE_TYPES +:+ ")"))
      else if bool_decide (device_name d ∈ seen) then
        Err (InvalidSlowctl ("duplicate device name " +:+ debug (device_name d) +:+ " — logbook / status のキーが衝突する"))
      else
        let? _ := validate_device d in validate_devices devices ({[device_name d]} ∪ seen)
  end.

Definition validate_influx (i : InfluxConfig) : result unit ConfigError :=
  let invalid why := Err (InvalidSlowctl ("[slowctl.influx] " +:+ why)) in
  if starts_with "https://" (url i) then
    invalid ("url " +:+ debug (url i) +:+
      ": TLS は未対応、localhost の http を使う (TLS is not built in; use plain http to a local InfluxDB)")
  else if negb (starts_with "http://" (url i)) then invalid ("url must start with http://, got " +:+ debug (url i))
  else if bool_decide (token_file i = EmptyString) then invalid "token_file must not be empty"
  else if bool_decide (org i = EmptyString) || bool_decide (bucket i = EmptyString) then
    invalid "org and bucket must not be empty"
  else if (batch_ms i =? 0) || (buffer_max_points i =? 0) || (timeout_ms i =? 0) then
    invalid ("batch_ms / buffer_max_points / timeout_ms must be greater than 0, got " +:+ dec (batch_ms i) +:+ " / " +:+
             dec (buffer_max_points i) +:+ " / " +:+ dec (timeout_ms i))
  else Ok tt.

Definition when_some {A : Type} (o : option A) (check : A -> result unit ConfigError) : result unit ConfigError :=
  match o with
  | Some a => check a
  | None => Ok tt
  end.

Definition validate_slowctl (s : SlowctlConfig) : result unit ConfigError :=
  let? _ := when_some (cmd_bind s) (fun bind =>
    if starts_with SLOWCTL_CMD_BIND_PREFIX bind then Ok tt
    else Err (InvalidSlowctl ("cmd_bind " +:+ debug bind +:+ " must be on localhost (" +:+ SLOWCTL_CMD_BIND_PREFIX +:+
      "<port>) — the power on/off REP is never opened beyond this host (SPEC §11 v1.42)"))) in
  let? _ :=
    if positive_finite (poll_hz s) then Ok tt
    else Err (InvalidSlowctl ("poll_hz must be greater than 0, got " +:+ show_f64 (poll_hz s))) in
  let? _ := validate_devices (device s) ∅ in
  when_some (influx s) validate_influx.

Definition validate (c : Config) : result unit ConfigError :=
  let? _ := validate_cobo_ids (cobo c) in
  let? _ := validate_cobo_listen_unique (cobo c) in
  let? _ := validate_geometry_path (geometry (system c)) in
  let? _ := when_some (ped_table (system c)) validate_ped_table_path in
  let? _ := validate_receiver (receiver c) in
  let? _ := validate_monitor (monitor c) in
  let? _ := validate_controller (controller c) (length (cobo c)) in
  when_some (slowctl c) validate_slowctl.

Context (from_str : string -> result RawConfig string).

Definition parse (toml_str : string) : result Config ConfigError :=
  match from_str toml_str with
  | Err e => Err (ConfigParse e)
  | Ok raw =>
      let config := resolve raw in
      let? _ := validate config in Ok config
  end.

(** The file, as reading it gave it. *)
Definition load (path : string) (text : result string string) : result Config ConfigError :=
  match text with
  | Ok text => parse text
  | Err e => Err (ConfigIo path e)
  end.
End Checks.

(** ** What the checks accept *)

Section Accepts.
Context (exists_ : string -> bool) (debug : string -> string) (show_f64 : f64 -> string).

(** A bus address is its own: it says where, and what it ignores can be ignored. *)
Record valid_device (d : SlowDeviceConfig) : Prop := {
  valid_type : device_type d ∈ SLOWCTL_DEVICE_TYPES;
  valid_connection : if bool_decide (device_type d = "hivolta") then is_Some (addr d) \/ is_Some (port d) else is_Some (port d);
  valid_ignore : device_type d = "hivolta" \/ device_status_ignore d = [];
  valid_masks : exists masks, ignore_masks debug (device_status_ignore d) = Ok masks;
  valid_poll : forall s, poll_s d = Some s -> positive_finite s = true;
  valid_nodes : exists ns, Slowctl.resolve debug (nodes d) = Ok ns;
  valid_alarms : Forall (fun a => f64_gt (lo a) (hi a) = false) (alarms d);
}.

Record valid_influx (i : InfluxConfig) : Prop := {
  valid_url : starts_with "http://" (url i) = true;
  valid_token : token_file i <> EmptyString;
  valid_names : org i <> EmptyString /\ bucket i <> EmptyString;
  valid_sizes : batch_ms i <> 0 /\ buffer_max_points i <> 0 /\ timeout_ms i <> 0;
}.

Record valid_slowctl (s : SlowctlConfig) : Prop := {
  valid_cmd_bind : forall bind, cmd_bind s = Some bind -> starts_with SLOWCTL_CMD_BIND_PREFIX bind = true;
  valid_poll_hz : positive_finite (poll_hz s) = true;
  valid_device_names : NoDup (map device_name (device s));
  valid_devices : Forall valid_device (device s);
  valid_influx_ : forall i, influx s = Some i -> valid_influx i;
}.

Definition valid_receiver (r : ReceiverConfig) : Prop :=
  rx_batch_max_bytes r <> 0 /\ rx_batch_max_ms r <> 0 /\ rx_queue_frames r <> 0 /\ rx_heartbeat_ms r <> 0 /\ 0 < rx_hwm r.

Definition valid_controller (c : ControllerConfig) (cobo_count : nat) : Prop :=
  length (receiver_commands c) = cobo_count /\ eos_timeout_s c <> 0 /\ eos_quiesce_ms c <> 0.

Record valid (c : Config) : Prop := {
  valid_cobo_ids : NoDup (map cobo_id_of (cobo c));
  valid_cobo_listens : NoDup (map listen (cobo c));
  valid_geometry : exists_ (geometry (system c)) = true;
  valid_ped_table : forall p, ped_table (system c) = Some p -> exists_ p = true;
  valid_receiver_ : valid_receiver (receiver c);
  valid_live_queue : live_queue (monitor c) <> 0;
  valid_mon_geometry : exists_ (mon_geometry (monitor c)) = true;
  valid_controller_ : valid_controller (controller c) (length (cobo c));
  valid_slowctl_ : forall s, slowctl c = Some s -> valid_slowctl s;
}.

(** What a refusal tells of the settings refused. *)
Definition explains (c : Config) (e : ConfigError) : Prop :=
  match e with
  | DuplicateCoboId id => exists l1 l2, map cobo_id_of (cobo c) = l1 ++ id :: l2 /\ id ∈ l1
  | DuplicateListen a => exists l1 l2, map listen (cobo c) = l1 ++ a :: l2 /\ a ∈ l1
  | GeometryNotFound p => exists_ p = false /\ (p = geometry (system c) \/ p = mon_geometry (monitor c))
  | PedTableNotFound p => exists_ p = false /\ ped_table (system c) = Some p
  | InvalidReceiver _ => ~ valid_receiver (receiver c)
  | InvalidMonitor _ => live_queue (monitor c) = 0
  | InvalidController _ => ~ valid_controller (controller c) (length (cobo c))
  | InvalidSlowctl _ => exists s, slowctl c = Some s /\ ~ valid_slowctl s
  | ConfigIo _ _ | ConfigParse _ => False
  end.

Lemma cobo_ids_first cobos seen :
  validate_cobo_ids_from cobos seen =
    match first_dup (map cobo_id_of cobos) seen with Some id => Err (DuplicateCoboId id) | None => Ok tt end.
Proof.
  revert seen. induction cobos as [| c cobos IH]; intros seen; cbn; [done |]. by case_bool_decide; [| apply IH].
Qed.

Lemma listens_first cobos seen :
  validate_listen_from cobos seen =
    match first_dup (map listen cobos) seen with Some l => Err (DuplicateListen l) | None => Ok tt end.
Proof.
  revert seen. induction cobos as [| c cobos IH]; intros seen; cbn; [done |]. by case_bool_decide; [| apply IH].
Qed.

(** *** The sections *)

Lemma receiver_decides r : decides (validate_receiver r) (valid_receiver r) (fun e => exists why, e = InvalidReceiver why).
Proof.
  eapply (decides_iff _ ((rx_batch_max_bytes r <> 0 /\ rx_batch_max_ms r <> 0 /\ rx_queue_frames r <> 0 /\ rx_heartbeat_ms r <> 0) /\ 0 < rx_hwm r));
    [| unfold valid_receiver; tauto].
  apply decides_and.
  - cbn. repeat (match goal with |- context [?x =? 0] => destruct (Z.eqb_spec x 0) end; cbn; [split; [by eexists | tauto] |]).
    tauto.
  - intros _. destruct (Z.leb_spec (rx_hwm r) 0); cbn; [split; [by eexists | lia] | lia].
Qed.

Lemma controller_decides c n : decides (validate_controller c n) (valid_controller c n) (fun e => exists why, e = InvalidController why).
Proof.
  unfold validate_controller, valid_controller. destruct (Nat.eqb_spec (length (receiver_commands c)) n); cbn [negb]; [| split; [by eexists | tauto]].
  destruct (Z.eqb_spec (eos_timeout_s c) 0); [split; [by eexists | tauto] |].
  destruct (Z.eqb_spec (eos_quiesce_ms c) 0); [split; [by eexists | tauto] | done].
Qed.

Definition of_slowctl (e : ConfigError) : Prop := exists why, e = InvalidSlowctl why.

Lemma of_device d why : of_slowctl (in_device debug d why).
Proof. by eexists. Qed.
#[local] Hint Resolve of_device : core.

Lemma alarms_decide d al : decides (validate_alarms debug show_f64 d al) (Forall (fun a => f64_gt (lo a) (hi a) = false) al) of_slowctl.
Proof.
  induction al as [| a al IH]; cbn [validate_alarms]; [constructor |].
  destruct (f64_gt (lo a) (hi a)) eqn:E.
  - split; [done |]. intros H. inversion H. congruence.
  - eapply decides_iff; [exact IH |]. rewrite list.Forall_cons. tauto.
Qed.

Lemma connection_decides d : device_type d ∈ SLOWCTL_DEVICE_TYPES ->
  decides (validate_connection debug d)
    (if bool_decide (device_type d = "hivolta") then is_Some (addr d) \/ is_Some (port d) else is_Some (port d)) of_slowctl.
Proof.
  intros Ht. unfold validate_connection. case_bool_decide as Hh.
  - destruct (addr d) as [a |], (port d) as [p |]; cbn; eauto. split; [done |]. by intros [[? ?] | [? ?]].
  - assert (Hs : mem (device_type d) SLOWCTL_SERIAL_TYPES = true).
    { apply bool_decide_eq_true. unfold SLOWCTL_DEVICE_TYPES, SLOWCTL_SERIAL_TYPES in *. rewrite !elem_of_cons in *. tauto. }
    rewrite Hs. cbn. destruct (port d) as [p |]; cbn; [by eexists |]. split; [done |]. by intros [? ?].
Qed.

Lemma because_decides {A : Type} d (r : result A string) : decides (because debug d r) (exists a, r = Ok a) of_slowctl.
Proof. destruct r; cbn; [by eexists |]. split; [done |]. by intros [? ?]. Qed.

Lemma device_decides d : device_type d ∈ SLOWCTL_DEVICE_TYPES ->
  decides (validate_device debug show_f64 d) (valid_device d) of_slowctl.
Proof.
  intros Ht. eapply decides_iff.
  - unfold validate_device. apply decides_and; [by apply connection_decides | intros _].
    apply (decides_and _ _ (device_type d = "hivolta" \/ device_status_ignore d = [])).
    { do 2 case_bool_decide; cbn; auto. split; [done | tauto]. }
    intros _. apply decides_and; [apply because_decides | intros _].
    apply (decides_and _ _ (forall s, poll_s d = Some s -> positive_finite s = true)).
    { destruct (poll_s d) as [s |]; [| done]. destruct (positive_finite s) eqn:E; [by intros ? [= <-] |].
      split; [done |]. intros H. specialize (H s eq_refl). congruence. }
    intros _. apply decides_and; [apply because_decides | intros _]. apply alarms_decide.
  - split; [intros (H1 & H2 & H3 & H4 & H5 & H6); by constructor | intros []; tauto].
Qed.

Lemma devices_decide devices seen :
  decides (validate_devices debug show_f64 devices seen)
    (Forall valid_device devices /\ fresh_keys (map device_name devices) seen) of_slowctl.
Proof.
  revert seen. induction devices as [| d devices IH]; intros seen; cbn [validate_devices map].
  { split; [constructor |]. split; [constructor | intros k Hk; by apply elem_of_nil in Hk]. }
  unfold mem. case_bool_decide as Ht; cbn [negb]; [| split; [by eexists |]; intros [H _]; inversion H as [| ? ? Hd _]; exact (Ht (valid_type _ Hd))].
  case_bool_decide as Hs; [split; [by eexists |]; rewrite fresh_cons; tauto |].
  eapply decides_iff; [apply decides_and; [by apply device_decides | intros _; apply IH] |].
  rewrite list.Forall_cons, fresh_cons. tauto.
Qed.

Lemma influx_decides i : decides (validate_influx debug i) (valid_influx i) of_slowctl.
Proof.
  unfold validate_influx. destruct (starts_with "https://" (url i)) eqn:Es.
  { split; [by eexists |]. intros [Hu _ _ _].
    apply starts_with_some in Es as [t Ht], Hu as [t' Ht']. rewrite Ht in Ht'. discriminate Ht'. }
  destruct (starts_with "http://" (url i)) eqn:Eh; cbn [negb]; [| split; [by eexists | intros []; congruence]].
  case_bool_decide; [split; [by eexists | by intros []] |].
  do 2 (case_bool_decide; cbn; [split; [by eexists | intros [? ? [? ?] ?]; tauto] |]).
  destruct (Z.eqb_spec (batch_ms i) 0), (Z.eqb_spec (buffer_max_points i) 0), (Z.eqb_spec (timeout_ms i) 0); cbn;
    try (split; [by eexists | intros [? ? ? (? & ? & ?)]; tauto]). by constructor.
Qed.

Lemma when_some_decides {A : Type} (o : option A) check (P : A -> Prop) E :
  (forall a, o = Some a -> decides (check a) (P a) E) -> decides (when_some o check) (forall a, o = Some a -> P a) E.
Proof.
  intros H. destruct o as [a |]; cbn; [| done]. eapply decides_iff; [by apply H |].
  split; [by intros HP ? [= <-] | auto].
Qed.

Lemma slowctl_decides s : decides (validate_slowctl debug show_f64 s) (valid_slowctl s) of_slowctl.
Proof.
  eapply decides_iff.
  - unfold validate_slowctl. apply decides_and.
    { apply (when_some_decides _ _ (fun bind => starts_with SLOWCTL_CMD_BIND_PREFIX bind = true)). intros bind _.
      apply decides_if; [done | intros _; by eexists]. }
    intros _. apply (decides_and _ _ (positive_finite (poll_hz s) = true)); [apply decides_if; [done | intros _; by eexists] | intros _].
    apply decides_and; [apply devices_decide | intros _].
    apply when_some_decides. intros i _. apply influx_decides.
  - split.
    + intros (H1 & H2 & [H3 [H4 _]] & H5). by constructor.
    + intros [H1 H2 H3 H4 H5]. by split_and!.
Qed.

Lemma validate_decides c : decides (validate exists_ debug show_f64 c) (valid c) (explains c).
Proof.
  eapply decides_iff.
  - unfold validate. apply (decides_and _ _ (NoDup (map cobo_id_of (cobo c)))).
    { unfold validate_cobo_ids. rewrite cobo_ids_first. apply decides_first_dup. intros k l1 l2 Hk Hin. by exists l1, l2. }
    intros _. apply (decides_and _ _ (NoDup (map listen (cobo c)))).
    { unfold validate_cobo_listen_unique. rewrite listens_first. apply decides_first_dup. intros k l1 l2 Hk Hin. by exists l1, l2. }
    intros _. apply (decides_and _ _ (exists_ (geometry (system c)) = true)); [apply decides_if; [done | by split; [| left]] | intros _].
    apply decides_and.
    { apply (when_some_decides _ _ (fun p => exists_ p = true)). intros p Hp. apply decides_if; [done | by split]. }
    intros _. apply decides_and; [eapply decides_mono; [apply receiver_decides |]; by intros e [why ->] Hn | intros _].
    apply (decides_and _ _ (live_queue (monitor c) <> 0 /\ exists_ (mon_geometry (monitor c)) = true)).
    { unfold validate_monitor. destruct (Z.eqb_spec (live_queue (monitor c)) 0) as [E |]; [split; [done | tauto] |].
      eapply decides_iff; [apply (decides_if _ _ (exists_ (mon_geometry (monitor c)) = true)); [done | by split; [| right]] | tauto]. }
    intros _. apply decides_and; [eapply decides_mono; [apply controller_decides |]; by intros e [why ->] Hn | intros _].
    apply (when_some_decides _ _ valid_slowctl). intros s Hs. eapply decides_mono; [apply slowctl_decides |].
    intros e [why ->] Hn. by exists s.
  - split; [intros (H1 & H2 & H3 & H4 & H5 & [H6 H7] & H8 & H9); by constructor | intros []; tauto].
Qed.
End Accepts.

(** C21: Reading the configuration accepts a file exactly when its settings, with the
    defaults put in, pass every rule - cobos with distinct numbers and addresses, the
    files there, every size and time of the receivers and the controller positive, as
    many receiver endpoints as cobos, power commands on this host only, slow-control
    devices of a known type with distinct names, a port or an address, alarm bounds in
    order, nothing ignored but what may be - and what it refuses it refuses for a
    reason that holds of the file. *)
Theorem config_accepted (exists_ : string -> bool) (debug : string -> string) (show_f64 : f64 -> string)
    (from_str : string -> result RawConfig string) (text : string) :
  match from_str text, parse exists_ debug show_f64 from_str text with
  | Err e, r => r = Err (ConfigParse e)
  | Ok raw, Ok c => c = resolve raw /\ valid exists_ debug c
  | Ok raw, Err e => ~ valid exists_ debug (resolve raw) /\ explains exists_ debug (resolve raw) e
  end.
Proof.
  unfold parse. destruct (from_str text) as [raw | e]; [| done].
  pose proof (validate_decides exists_ debug show_f64 (resolve raw)) as H.
  destruct (validate exists_ debug show_f64 (resolve raw)) as [[] | e]; cbn in *; [done | tauto].
Qed.
