(* ===== verification/Deploy.v ===== *)
(** * Deploy: what the components are started with

    Models the [from_config] of every component - in [src/receiver.rs],
    [src/decoder.rs], [src/graw_writer.rs], [src/controller/mod.rs] and
    [src/slowctl/component.rs] - and [open_driver], which makes the driver of a
    slow-control device; and proves that a configuration that was accepted gives the
    components what their theorems ask for.  Opening a port is I/O: [open_io] and
    [connect] say whether it works. *)

From Stdlib Require Import Ascii SpecFloat.
From stdpp Require Import gmap pretty strings.
From S2P Require Import Prelude Decimal Text Float Command Receiver RunDecoder GrawWriter Controller Sequencer Slowctl HiVolta Hmp Bronkhorst Arduino SlowRecords Config.
Open Scope list_scope.
Open Scope Z_scope.

(** ** The data path *)

Definition receiver_from_config (c : Config) (cobo_id : Z) : option ReceiverParams :=
  match List.find (fun x => cobo_id_of x =? cobo_id) (cobo c) with
  | None => None
  | Some x =>
      let r := receiver c in
      Some (mkReceiverParams cobo_id (listen x) ("tcp://*:" +:+ dec (wrap 32 (RECEIVER_COMMAND_PORT_BASE + cobo_id)))
              (rx_graw_writer_endpoint r) (rx_decoder_endpoint r) (rx_batch_max_bytes r) (rx_batch_max_ms r)
              (rx_queue_frames r) (rx_heartbeat_ms r) (rx_hwm r))
  end.

Definition decoder_from_config (c : Config) : DecoderParams :=
  mkDecoderParams (dec_push_connect (decoder c)) (dec_batch_max_bytes (decoder c)) (dec_batch_max_ms (decoder c))
    (map cobo_id_of (cobo c)).

(** A [PathBuf] is its parts. *)
Definition path_of (s : string) : list string := split_on "/"%char s.

Definition graw_from_config (c : Config) : GrawWriterParams :=
  mkGrawWriterParams (path_of (output_root (system c))) (gw_max_file_bytes (graw_writer c)) (map cobo_id_of (cobo c)).

Definition controller_from_config (c : Config) : ControllerParams :=
  let k := controller c in
  params_from_config (graw_writer_command k) (decoder_command k) (cobo c) (receiver_commands k) (config_id k)
    (ctl_router_ip k) (eos_timeout_s k) (eos_quiesce_ms k).

(** ** The slow control *)

Record SlowctlParams : Type := mkSlowctlParams {
  p_status_pub : string;
  p_cmd_bind : option string;
  p_log_push : string;
  p_poll_hz : f64;
  p_log_every_s : Z;
  p_devices : list SlowDeviceConfig;
  p_influx : option InfluxConfig;
}.

Definition slowctl_from_config (c : Config) : option SlowctlParams :=
  match slowctl c with
  | None => None
  | Some s => Some (mkSlowctlParams (status_pub s) (cmd_bind s) (log_push s) (poll_hz s) (slow_log_every_s s) (device s) (influx s))
  end.

(** [Duration::from_secs_f64], in nanoseconds: it panics on what is negative, not a
    number, or too long for the seconds of a [Duration]; half a nanosecond rounds to
    even. *)
Definition div_half_even (n d : Z) : Z :=
  let q := n / d in
  let r := n mod d in
  if 2 * r <? d then q else if d <? 2 * r then q + 1 else if Z.even q then q else q + 1.

Definition duration_from_secs (s : f64) : rust Z :=
  match s with
  | S754_zero _ => Val 0
  | S754_finite false m e =>
      let ns :=
        if 0 <=? e then Zpos m * 2 ^ e * 1000000000 else div_half_even (Zpos m * 1000000000) (2 ^ (- e)) in
      if ns <? 2 ^ 64 * 1000000000 then Val ns else Panic
  | _ => Panic
  end.

Definition poll_interval (p : SlowctlParams) : rust Z := duration_from_secs (f64_div (f64_of_Z 1) (p_poll_hz p)).

Definition device_poll_interval (p : SlowctlParams) (d : SlowDeviceConfig) : rust Z :=
  match poll_s d with
  | Some s => duration_from_secs s
  | None => poll_interval p
  end.

(** [Box<dyn Driver>], by what is in the box. *)
Inductive AnyDriver : Type :=
| OfBronkhorst (d : BronkhorstDriver)
| OfArduino (d : ArduinoEnvDriver)
| OfHiVolta (d : HiVoltaDriver)
| OfOnDemand (o : OnDemandHiVolta)
| OfHmp (d : HmpDriver).

Definition driver_type (d : AnyDriver) : string :=
  match d with
  | OfBronkhorst _ => "bronkhorst_flowbus"
  | OfArduino _ => "arduino_env"
  | OfHiVolta _ | OfOnDemand _ => "hivolta"
  | OfHmp _ => "hmp2020"
  end.

(** [SlowctlError::Device], by its message; the device is the one opened. *)
Inductive OpenError : Type :=
| MissingPort
| BadMasks (why : string)
| NotOpened (e : DriverError)
| NotImplemented (what : string).

Definition open_error_text (debug : string -> string) (e : OpenError) : string :=
  match e with
  | MissingPort => "no `port` in the config (should have been caught by validation)"
  | BadMasks why => why
  | NotOpened e => driver_error_text e
  | NotImplemented other => "device type " +:+ debug other +:+ " is not implemented yet (TODO/079 Phase 3+)"
  end.

Section Opening.
Context {W : Type} (debug : string -> string) (open_io connect : string -> W -> result unit string).

(** [open_serial] of a driver that keeps its port. *)
Definition open_serial {D : Type} (port : string) (d : D) (w : W) : result D OpenError :=
  match open_io port w with
  | Ok _ => Ok d
  | Err e => Err (NotOpened (Protocol ("cannot open serial port " +:+ port +:+ ": " +:+ e)))
  end.

Definition open_driver (device : SlowDeviceConfig) (w : W) : result AnyDriver OpenError :=
  let name := device_name device in
  let type := device_type device in
  if bool_decide (type = "bronkhorst_flowbus") then
    let? port := ok_or (port device) MissingPort in
    let? d := open_serial port (bronkhorst_new name (nodes device) (expect_serial_ device)) w in Ok (OfBronkhorst d)
  else if bool_decide (type = "arduino_env") then
    let? port := ok_or (port device) MissingPort in
    let? d := open_serial port (mkArduino name None) w in Ok (OfArduino d)
  else if bool_decide (type = "hivolta") then
    match ignore_masks debug (device_status_ignore device) with
    | Err why => Err (BadMasks why)
    | Ok masks =>
        let d := mkHiVolta name (expect_serial_ device) 0 masks in
        match addr device with
        | Some addr => match connect addr w with Ok _ => Ok (OfHiVolta d) | Err e => Err (NotOpened (Protocol e)) end
        | None => let? _ := ok_or (port device) MissingPort in Ok (OfOnDemand (mkOnDemand d))
        end
    end
  else if bool_decide (type = "hmp2020") then
    let? port := ok_or (port device) MissingPort in
    let? d := open_serial port (mkHmp name (expect_serial_ device)) w in Ok (OfHmp d)
  else Err (NotImplemented type).
End Opening.

(** ** What an accepted configuration gives *)

(** The numbers of the file have the types the code reads them to. *)
Definition typed (raw : RawConfig) : Prop :=
  (forall n, raw_eos_timeout_s (raw_controller raw) = Some n -> 0 <= n) /\
  (forall n, raw_eos_quiesce_ms (raw_controller raw) = Some n -> 0 <= n) /\
  (forall n, raw_rx_batch_max_bytes (raw_receiver raw) = Some n -> 0 <= n) /\
  (forall n, raw_rx_batch_max_ms (raw_receiver raw) = Some n -> 0 <= n) /\
  (forall n, raw_queue_frames (raw_receiver raw) = Some n -> 0 <= n) /\
  (forall n, raw_heartbeat_ms (raw_receiver raw) = Some n -> 0 <= n).

Section Accepted.
Context (exists_ : string -> bool) (debug : string -> string).

Lemma receiver_components_of (cs : list CoboSpec) (ends : list string) : length ends = length cs ->
  map Controller.kind (receiver_components cs ends) = map (fun x => ReceiverKind (cobo_id_of x)) cs /\
  map Controller.endpoint (receiver_components cs ends) = ends.
Proof.
  revert ends. induction cs as [| x cs IH]; intros [| e ends] H; try discriminate H; [done |].
  injection H as H. destruct (IH ends H) as [H1 H2]. unfold receiver_components in *. cbn. by rewrite H1, H2.
Qed.

(** The run control: the writer, the decoder, and a receiver for every cobo; waits
    with a limit. *)
Definition controls (c : Config) (p : ControllerParams) : Prop :=
  map Controller.kind (components p) = [GrawWriterKind; DecoderKind] ++ map (fun x => ReceiverKind (cobo_id_of x)) (cobo c) /\
  0 < eos_poll p /\ 0 < eos_timeout p /\ 0 < eos_quiesce p.

Lemma controller_controls raw : typed raw -> valid exists_ debug (resolve raw) ->
  controls (resolve raw) (controller_from_config (resolve raw)).
Proof.
  intros (Ht & Hq & _) [_ _ _ _ _ _ _ [Hlen [Het Heq]] _]. split_and!.
  - cbn [controller_from_config params_from_config components]. rewrite map_app.
    f_equal. by apply receiver_components_of.
  - done.
  - cbn in *. destruct (raw_eos_timeout_s (raw_controller raw)) as [n |]; cbn in *; [| done]. specialize (Ht n eq_refl). lia.
  - cbn in *. destruct (raw_eos_quiesce_ms (raw_controller raw)) as [n |]; cbn in *; [| done]. specialize (Hq n eq_refl). lia.
Qed.

(** The data path: one receiver's parameters per cobo, and the same sources expected
    downstream, each once. *)
Definition carries (c : Config) : Prop :=
  RunDecoder.p_expected_sources (decoder_from_config c) = map cobo_id_of (cobo c) /\
  GrawWriter.p_expected_sources (graw_from_config c) = map cobo_id_of (cobo c) /\
  NoDup (map cobo_id_of (cobo c)) /\
  forall x, x ∈ cobo c -> exists r, receiver_from_config c (cobo_id_of x) = Some r /\
    Receiver.cobo_id r = cobo_id_of x /\ Receiver.listen r = listen x /\
    0 < Receiver.p_batch_max_bytes r /\ 0 < Receiver.batch_max_ms r /\ 0 < queue_frames r /\ 0 < heartbeat_ms r /\ 0 < hwm r.

Lemma find_cobo (cs : list CoboSpec) x : NoDup (map cobo_id_of cs) -> x ∈ cs ->
  List.find (fun y => cobo_id_of y =? cobo_id_of x) cs = Some x.
Proof.
  induction cs as [| y cs IH]; intros Hd Hx; [by apply elem_of_nil in Hx |].
  cbn [map] in Hd. apply list.NoDup_cons in Hd as [Hn Hd]. cbn [List.find].
  apply elem_of_cons in Hx as [-> | Hx]; [by rewrite Z.eqb_refl |].
  destruct (Z.eqb_spec (cobo_id_of y) (cobo_id_of x)) as [E |]; [| by apply IH].
  exfalso. apply Hn. rewrite E. by apply (list_elem_of_fmap_2 cobo_id_of).
Qed.

Lemma default_positive (d : Z) (o : option Z) : 0 < d -> (forall n, o = Some n -> 0 <= n) -> default d o <> 0 -> 0 < default d o.
Proof. destruct o as [n |]; cbn; [| done]. intros _ H Hn. specialize (H n eq_refl). lia. Qed.

Lemma data_path_carries raw : typed raw -> valid exists_ debug (resolve raw) -> carries (resolve raw).
Proof.
  intros (_ & _ & H1 & H2 & H3 & H4) [Hd _ _ _ (V1 & V2 & V3 & V4 & V5) _ _ _ _]. split_and!; [done | done | done |].
  intros x Hx. eexists. split; [unfold receiver_from_config; by rewrite find_cobo |].
  cbn in *. split_and!; try done; by apply default_positive.
Qed.

(** The slow control: names that tell devices apart, and every device opened as the
    type it has, or not opened for a reason of its port. *)
Definition watches {W : Type} (open_io connect : string -> W -> result unit string) (devices : list SlowDeviceConfig) : Prop :=
  names_distinct devices /\
  forall d w, d ∈ devices -> device_type d <> "fake" ->
    match open_driver debug open_io connect d w with
    | Ok drv => driver_type drv = device_type d
    | Err e => exists why, e = NotOpened (Protocol why)
    end.

Lemma open_driver_opens {W : Type} (open_io connect : string -> W -> result unit string) d w :
  valid_device debug d -> device_type d <> "fake" ->
  match open_driver debug open_io connect d w with
  | Ok drv => driver_type drv = device_type d
  | Err e => exists why, e = NotOpened (Protocol why)
  end.
Proof.
  intros [Ht Hc _ [masks Hm] _ _ _] Hf. unfold open_driver, open_serial.
  unfold SLOWCTL_DEVICE_TYPES in Ht. rewrite !elem_of_cons, elem_of_nil in Ht.
  destruct Ht as [E | [E | [E | [E | [E | []]]]]]; [| | | | contradiction]; rewrite E in Hc |- *; cbn in Hc |- *;
    try (destruct Hc as [p Hp]; rewrite Hp; cbn; destruct (open_io p w); cbn; [done | by eexists]).
  rewrite Hm. destruct (addr d) as [a |]; [destruct (connect a w); [done | by eexists] |].
  destruct Hc as [[a Ha] | [p Hp]]; [done |]. by rewrite Hp.
Qed.

Lemma names_distinct_of devices : NoDup (map device_name devices) -> names_distinct devices.
Proof.
  intros Hd i j d d' Hi Hj E. eapply NoDup_lookup; [exact Hd | |].
  - rewrite list_lookup_fmap, Hi. reflexivity.
  - rewrite list_lookup_fmap, Hj. cbn. by rewrite E.
Qed.

Lemma slow_control_watches {W : Type} (open_io connect : string -> W -> result unit string) s :
  valid_slowctl debug s -> watches open_io connect (device s).
Proof.
  intros [_ _ Hn Hv _]. split; [by apply names_distinct_of |].
  intros d w Hd Hf. apply open_driver_opens; [| done]. exact (proj1 (list.Forall_forall _ _) Hv d Hd).
Qed.

(** C20: From any configuration that is accepted: the controller gets the writer, the
    decoder and one receiver per cobo, and limits with which a start and a stop always
    end, whatever the components answer; every cobo has its receiver, with sizes and
    times that are positive, and the decoder and the writer wait for the end of the
    stream of exactly these cobos; every slow-control device opens as the type it has
    unless its port does not, and the names tell the devices apart. *)
Theorem accepted_config_deploys (show_f64 : f64 -> string) (from_str : string -> result RawConfig string)
    (Htyped : forall text raw, from_str text = Ok raw -> typed raw) (text : string) (c : Config)
    (Hc : parse exists_ debug show_f64 from_str text = Ok c) :
  controls c (controller_from_config c) /\
  (forall (T : Type) (HT : Transport T) run comment ts mode,
     does (T := T) (start_run (controller_from_config c) run comment ts) (fun _ _ => True) /\
     does (T := T) (stop_run (controller_from_config c) mode) (fun _ _ => True)) /\
  carries c /\
  (forall (W : Type) (open_io connect : string -> W -> result unit string) s,
     slowctl c = Some s -> watches open_io connect (device s)).
Proof.
  unfold parse in Hc. destruct (from_str text) as [raw |] eqn:Er; [| done]. apply Htyped in Er.
  pose proof (validate_decides exists_ debug show_f64 (resolve raw)) as Hv.
  destruct (validate exists_ debug show_f64 (resolve raw)) as [[] |]; [| done]. injection Hc as <-. cbn in Hv.
  pose proof (controller_controls raw Er Hv) as Hk. split_and!; [done | | by apply data_path_carries |].
  - destruct Hk as (_ & Hp & Ht & _). intros T HT run comment ts mode.
    split.
    + eapply does_mono; [apply does_start_run; [exact Hp | lia] | done].
    + eapply does_mono; [apply does_stop_run; [exact Hp | lia] | done].
  - intros W open_io connect s Hs. apply slow_control_watches. by apply (valid_slowctl_ _ _ _ Hv).
Qed.
End Accepted.

(** ** What the checks let through *)

(** A period that is finite and positive but longer than a [Duration]. *)
Lemma long_period_panics :
  positive_finite (f64_of_decimal false 1 300) = true /\ duration_from_secs (f64_of_decimal false 1 300) = Panic /\
  positive_finite (f64_of_decimal false 5 (-324)) = true /\
  duration_from_secs (f64_div (f64_of_Z 1) (f64_of_decimal false 5 (-324))) = Panic.
Proof. by vm_compute. Qed.

(** A bound that is not a number is in order, and never passed. *)
Lemma nan_bounds_never_alarm node param v :
  let r := mkRule node param S754_nan S754_nan in f64_gt (lo r) (hi r) = false /\ is_out_of_range r v = false.
Proof. cbn. split; [done |]. unfold is_out_of_range. cbn. by destruct v as [| | | [] ? ?]. Qed.

(** ** A configuration *)

Definition example_raw (commands : option (list string)) (slow : option RawSlowctl) : RawConfig :=
  mkRawConfig (mkSystem "e844" "/data" "geo.dat" None) [mkRawCobo 0 None "CoBo[0]"; mkRawCobo 1 None "CoBo[1]"]
    (mkRawReceiver None None None None None None None) (mkRawGrawWriter None None None)
    (mkRawDecoder 1 None None None None) (mkRootSink (f64_of_Z 1) (f64_of_Z 10) 100 false)
    (mkRawMonitor None None None None None)
    (mkRawController None "secret" "ECC:tcp" (Same "default") None None None None None None commands None None None None None)
    slow.

Definition example_gas : SlowDeviceConfig :=
  mkSlowDevice "bronkhorst_flowbus" "gas" (Some "/dev/serial/by-id/gas") None (NodeList [3]) "" [] None [].
Definition example_hv : SlowDeviceConfig :=
  mkSlowDevice "hivolta" "hv" None (Some "10.0.0.2:1470") (Keyword "scan") "" [] (Some (f64_of_Z 5)) [mkIgnore 0 ["UNV"]].

Definition example_slow : RawSlowctl := mkRawSlowctl None None None None None [example_gas; example_hv] None.

Definition all_exist (_ : string) : bool := true.
Definition verbatim (s : string) : string := s.
Definition no_float (_ : f64) : string := "".
Definition reads_example (raw : RawConfig) (text : string) : result RawConfig string :=
  if bool_decide (text = "example") then Ok raw else Err "not the example".

Definition is_ok {A E : Type} (r : result A E) : bool := match r with Ok _ => true | Err _ => false end.

(** Two receivers behind one endpoint: the number of endpoints is right. *)
Lemma shared_endpoint_accepted :
  is_ok (parse all_exist verbatim no_float
    (reads_example (example_raw (Some ["tcp://127.0.0.1:47110"; "tcp://127.0.0.1:47110"]) None)) "example") = true.
Proof. by vm_compute. Qed.

Lemma example_typed text raw : reads_example (example_raw None (Some example_slow)) text = Ok raw -> typed raw.
Proof. unfold reads_example. case_bool_decide; [| done]. intros [= <-]. by split_and!. Qed.

Lemma accepted_config_deploys_witness :
  exists c, parse all_exist verbatim no_float (reads_example (example_raw None (Some example_slow))) "example" = Ok c /\
    map Controller.endpoint (components (controller_from_config c)) =
      ["tcp://127.0.0.1:47100"; "tcp://127.0.0.1:47101"; "tcp://127.0.0.1:47110"; "tcp://127.0.0.1:47111"] /\
    controls c (controller_from_config c) /\ carries c.
Proof.
  exists (resolve (example_raw None (Some example_slow))).
  assert (Hc : parse all_exist verbatim no_float (reads_example (example_raw None (Some example_slow))) "example" =
    Ok (resolve (example_raw None (Some example_slow)))) by (vm_compute; reflexivity).
  split; [exact Hc |]. split; [vm_compute; reflexivity |].
  pose proof (accepted_config_deploys all_exist verbatim no_float _ example_typed "example" _ Hc) as H.
  split; [exact (proj1 H) | exact (proj1 (proj2 (proj2 H)))].
Defined.
