(* ===== verification/Influx.v ===== *)
(** * Influx: every sample on its way to InfluxDB

    Models [src/slowctl/influx.rs]: the lines of the write protocol, the channel the
    device threads offer their samples to, and the writer thread with its retry
    buffer, its back-off and its shutdown.  The HTTP exchange is outside: every post
    is answered by an argument.  Instants and durations are in milliseconds.  The
    printing of a float is an argument. *)

From Stdlib Require Import Ascii SpecFloat.
From stdpp Require Import gmap pretty strings.
From S2P Require Import Prelude Decimal Text Float Slowctl Config.
Open Scope string_scope.
Open Scope list_scope.
Open Scope Z_scope.

(** ** The line protocol *)

Definition BOARD_TAG : string := "board".
Definition MEASUREMENT_SPECIAL : list ascii := [","; " "]%char.
Definition KEY_SPECIAL : list ascii := [","; "="; " "]%char.
Definition BACKSLASH : ascii := "\"%char.
Definition NL : ascii := "010"%char.

(** What a line is for. *)
Definition line_key (s : Sample) : string * option Z * Z := (sample_device s, sample_node s, ts_ms s).

(** Samples into lines: the keys in the order they first come, the samples of each. *)
Fixpoint group_lines (samples : list Sample) (order : list (string * option Z * Z))
    (lines : gmap (string * option Z * Z) (list Sample))
    : list (string * option Z * Z) * gmap (string * option Z * Z) (list Sample) :=
  match samples with
  | [] => (order, lines)
  | s :: samples =>
      let key := line_key s in
      match lines !! key with
      | Some group => group_lines samples order (<[key := group ++ [s]]> lines)
      | None => group_lines samples (order ++ [key]) (<[key := [s]]> lines)
      end
  end.

Fixpoint escaped (text : string) (special : list ascii) : string :=
  match text with
  | EmptyString => EmptyString
  | String c text =>
      if bool_decide (c ∈ special) then String BACKSLASH (String c (escaped text special)) else String c (escaped text special)
  end.

Definition bool_text (b : bool) : string := if b then "true" else "false".

Section Lines.
Context (show_f64 : f64 -> string).

Fixpoint push_fields (group : list Sample) : string :=
  match group with
  | [] => EmptyString
  | s :: group => escaped (param s) KEY_SPECIAL +:+ "=" +:+ show_f64 (value s) +:+ "," +:+ push_fields group
  end.

Definition push_line (key : string * option Z * Z) (group : list Sample) : string :=
  let '(device, node, ts) := key in
  escaped device MEASUREMENT_SPECIAL +:+ ",ch=" +:+
  match node with Some node => dec node | None => BOARD_TAG end +:+ " " +:+
  push_fields group +:+ "alarm=" +:+ bool_text (existsb alarm group) +:+ " " +:+ dec ts +:+ String NL EmptyString.

Fixpoint push_lines (order : list (string * option Z * Z)) (lines : gmap (string * option Z * Z) (list Sample)) : string :=
  match order with
  | [] => EmptyString
  | key :: order =>
      match lines !! key with
      | Some group => push_line key group
      | None => EmptyString
      end +:+ push_lines order lines
  end.

Definition line_protocol (samples : list Sample) : string :=
  let '(order, lines) := group_lines samples [] ∅ in push_lines order lines.
End Lines.

(** ** The other end: how a line is read

    The database's side, as its documentation has it: a line is a measurement, its
    tags, its fields and a time; a backslash makes the special character after it
    part of a name; a line that starts with a number sign is a comment. *)

Inductive Field : Type :=
| FFloat (x : f64)
| FBool (b : bool).

Record Line : Type := mkLine {
  measurement : string;
  tags : list (string * string);
  fields : list (string * Field);
  time : Z;
}.

(** Up to the first of [stops] that is not escaped. *)
Fixpoint token (special stops : list ascii) (s : string) : option (string * ascii * string) :=
  match s with
  | EmptyString => None
  | String c s1 =>
      if bool_decide (c = BACKSLASH) then
        match s1 with
        | String d s2 =>
            if bool_decide (d ∈ special) then
              match token special stops s2 with Some (t, stop, rest) => Some (String d t, stop, rest) | None => None end
            else
              match token special stops s1 with Some (t, stop, rest) => Some (String c t, stop, rest) | None => None end
        | EmptyString => None
        end
      else if bool_decide (c ∈ stops) then Some (EmptyString, c, s1)
      else match token special stops s1 with Some (t, stop, rest) => Some (String c t, stop, rest) | None => None end
  end.

(** Pairs, up to the blank that ends them. *)
Fixpoint read_pairs (fuel : nat) (s : string) : option (list (string * string) * string) :=
  match fuel with
  | O => None
  | S fuel =>
      match token KEY_SPECIAL ["="%char] s with
      | Some (String c k, _, s) =>
          match token KEY_SPECIAL [","; " "]%char s with
          | Some (v, stop, s) =>
              if bool_decide (stop = " "%char) then Some ([(String c k, v)], s)
              else match read_pairs fuel s with
                   | Some (ps, s) => Some ((String c k, v) :: ps, s)
                   | None => None
                   end
          | None => None
          end
      | _ => None
      end
  end.

(** A float is written in digits: no infinity, no NaN.  (Integers end in [i] and
    texts are quoted; neither is written here.) *)
Definition number_char (c : ascii) : bool := is_digit c || bool_decide (c ∈ ["."; "-"; "+"; "e"; "E"]%char).
Fixpoint all_chars (f : ascii -> bool) (s : string) : bool :=
  match s with
  | EmptyString => true
  | String c s => f c && all_chars f s
  end.
Definition number_text (s : string) : bool :=
  match s with
  | EmptyString => false
  | String c _ => (is_digit c || bool_decide (c ∈ ["."; "-"]%char)) && all_chars number_char s
  end.

Definition read_value (s : string) : option Field :=
  if number_text s then match parse_f64 s with Some x => Some (FFloat x) | None => None end
  else if bool_decide (s ∈ ["t"; "T"; "true"; "True"; "TRUE"]) then Some (FBool true)
  else if bool_decide (s ∈ ["f"; "F"; "false"; "False"; "FALSE"]) then Some (FBool false)
  else None.

Fixpoint read_fields (ps : list (string * string)) : option (list (string * Field)) :=
  match ps with
  | [] => Some []
  | (k, v) :: ps =>
      match read_value v, read_fields ps with
      | Some v, Some fs => Some ((k, v) :: fs)
      | _, _ => None
      end
  end.

Definition read_line (s : string) : option Line :=
  match token MEASUREMENT_SPECIAL [","%char] s with
  | Some (String c m, _, s) =>
      match read_pairs (String.length s) s with
      | Some (tags, s) =>
          match read_pairs (String.length s) s with
          | Some (ps, s) =>
              match read_fields ps, parse_uint 64 s with
              | Some fs, Some t => Some (mkLine (String c m) tags fs t)
              | _, _ => None
              end
          | None => None
          end
      | None => None
      end
  | _ => None
  end.

Definition is_comment (s : string) : bool :=
  match s with
  | EmptyString => true
  | String c _ => (c =? "#")%char
  end.

Fixpoint read_each (ss : list string) : option (list Line) :=
  match ss with
  | [] => Some []
  | s :: ss =>
      if is_comment s then read_each ss
      else match read_line s, read_each ss with
           | Some l, Some ls => Some (l :: ls)
           | _, _ => None
           end
  end.

Definition read_lines (text : string) : option (list Line) := read_each (split_on NL text).

(** ** Parameters and counters *)

Definition INFLUX_QUEUE : nat := 256.
Definition BATCH_MAX_POINTS : Z := 5000.
Definition BACKOFF_MIN : Z := 1000.
Definition BACKOFF_MAX : Z := 60000.

Record InfluxParams : Type := mkInfluxParams {
  p_url : string;
  p_org : string;
  p_bucket : string;
  p_token : string;
  p_batch : Z;
  p_buffer_max_points : Z;
  p_timeout : Z;
}.

Definition read_token (path : string) (text : result string string) : result string string :=
  match text with
  | Err e => Err ("cannot read token_file " +:+ path +:+ ": " +:+ e)
  | Ok text =>
      let token := trim text in
      if bool_decide (token = EmptyString) then Err ("token_file " +:+ path +:+ " is empty") else Ok token
  end.

(** [InfluxParams::from_config]; [read_to_string] is what the file holds. *)
Definition influx_from_config (read_to_string : string -> result string string) (c : InfluxConfig)
    : result InfluxParams string :=
  let? token := read_token (token_file c) (read_to_string (token_file c)) in
  Ok (mkInfluxParams (url c) (org c) (bucket c) token (batch_ms c) (buffer_max_points c) (timeout_ms c)).

Record InfluxCounters : Type := mkCounters {
  points_written : Z;
  points_dropped : Z;
  write_errors : Z;
  last_error : option string;
}.
#[export] Instance eta_InfluxCounters : Eta InfluxCounters := fun c =>
  mkCounters (points_written c) (points_dropped c) (write_errors c) (last_error c).

Definition counters_default : InfluxCounters := mkCounters 0 0 0 None.

Definition write_into (c : InfluxCounters) (out : SlowCounters) : SlowCounters :=
  mkSlowCounters (poll_ok out) (poll_err out) (parse_err out) (reconnects out) (identity_mismatch out)
    (points_written c) (points_dropped c) (write_errors c) (last_error c).

Definition add_dropped (n : Z) (c : InfluxCounters) : InfluxCounters := c <| points_dropped ::= (fun d => d + n) |>.
Definition add_written (n : Z) (c : InfluxCounters) : InfluxCounters := c <| points_written ::= (fun d => d + n) |>.

(** ** The HTTP exchange, but for what answers *)

Inductive WriteError : Type :=
| Status (code : Z) (message : string)
| Transport (why : string).

Definition write_error_text (e : WriteError) : string :=
  match e with
  | Status code message => "HTTP " +:+ dec code +:+ ": " +:+ message
  | Transport why => why
  end.

Definition is_client_error (e : WriteError) : bool :=
  match e with
  | Status code _ => (400 <=? code) && (code <? 500)
  | Transport _ => false
  end.

Definition record_error (e : WriteError) (c : InfluxCounters) : InfluxCounters :=
  c <| write_errors ::= incr |> <| last_error := Some (write_error_text e) |>.

Record Client : Type := mkClient {
  write_url : string;
  client_org : string;
  client_bucket : string;
  authorization : string;
}.

Definition client_new (p : InfluxParams) : Client :=
  mkClient (trim_end_matches [47] (p_url p) +:+ "/api/v2/write") (p_org p) (p_bucket p) ("Token " +:+ p_token p).

(** What [send] gives: no response, or a status and the text of the body. *)
Inductive HttpAnswer : Type :=
| NoResponse (why : string)
| Response (code : Z) (body : result string string).

Definition post (a : HttpAnswer) : result unit WriteError :=
  match a with
  | NoResponse why => Err (Transport why)
  | Response code body =>
      if (200 <=? code) && (code <? 300) then Ok tt
      else
        let message := match body with Ok text => text | Err e => "(cannot read the response body: " +:+ e +:+ ")" end in
        Err (Status code (trim message))
  end.

(** ** The retry buffer *)

Record Buffer : Type := mkBuffer {
  points : list Sample;
  max : Z;
  overflow_warned : bool;
}.
#[export] Instance eta_Buffer : Eta Buffer := fun b => mkBuffer (points b) (max b) (overflow_warned b).

Fixpoint push_finite (samples : list Sample) (b : Buffer) (c : InfluxCounters) : Buffer * InfluxCounters :=
  match samples with
  | [] => (b, c)
  | s :: samples =>
      if is_finite (value s) then push_finite samples (b <| points ::= (fun ps => ps ++ [s]) |>) c
      else push_finite samples b (add_dropped 1 c)
  end.

Definition admit_samples (samples : list Sample) (b : Buffer) (c : InfluxCounters) : Buffer * InfluxCounters :=
  let '(b, c) := push_finite samples b c in
  let excess := Z.max 0 (len (points b) - max b) in
  if 0 <? excess then
    (b <| points ::= drop (Z.to_nat excess) |> <| overflow_warned := true |>, add_dropped excess c)
  else (b, c).

(** One post of the head of the buffer: what was posted, and what came of it. *)
Definition batch_size (b : Buffer) : nat := Z.to_nat (Z.min (len (points b)) BATCH_MAX_POINTS).

Definition write_batch (a : HttpAnswer) (b : Buffer) (c : InfluxCounters)
    : list Sample * (result unit WriteError * Buffer * InfluxCounters) :=
  let n := batch_size b in
  let batch := take n (points b) in
  (batch, match post a with
          | Err e => (Err e, b, c)
          | Ok _ =>
              (Ok tt, b <| points ::= drop n |> <| overflow_warned := false |>, add_written (Z.of_nat n) c)
          end).

(** ** The channel, the device threads and the writer thread *)

(** Where the writer is: in [recv_timeout], in the loop of [try_recv], about to
    decide on a post, writing what is left, or gone. *)
Inductive Pc : Type :=
| Waiting
| Draining
| Deciding
| Flushing
| Gone.
#[export] Instance pc_eq_dec : EqDecision Pc.
Proof. solve_decision. Defined.

Record World : Type := mkWorld {
  sinks : bool;
  queue : list (list Sample);
  refused : list (list Sample);
  counters : InfluxCounters;
  buffer : Buffer;
  backoff : Z;
  retry_at : option Z;
  last_post : Z;
  pc : Pc;
}.
#[export] Instance eta_World : Eta World := fun w =>
  mkWorld (sinks w) (queue w) (refused w) (counters w) (buffer w) (backoff w) (retry_at w) (last_post w) (pc w).

(** [InfluxWriter::spawn], at the instant the thread begins. *)
Definition spawn (p : InfluxParams) (now : Z) : World :=
  mkWorld true [] [] counters_default (mkBuffer [] (p_buffer_max_points p) false) BACKOFF_MIN None now Waiting.

(** The [try_send] of [InfluxSink::offer]: what it refuses is counted by the same
    thread, but later ([count_refused]). *)
Definition offer (samples : list Sample) (w : World) : World :=
  match samples with
  | [] => w
  | _ =>
      if bool_decide (pc w = Gone) || (INFLUX_QUEUE <=? length (queue w))%nat then w <| refused ::= (fun l => l ++ [samples]) |>
      else w <| queue ::= (fun q => q ++ [samples]) |>
  end.

Definition count_refused (i : nat) (w : World) : World :=
  match refused w !! i with
  | Some lost => w <| refused ::= delete i |> <| counters ::= add_dropped (len lost) |>
  | None => w
  end.

(** One receive of the writer: a poll goes to the buffer; an empty channel ends the
    reception, for good when no sink is left. *)
Definition receive_one (w : World) : World :=
  match queue w with
  | samples :: queue' =>
      let '(b, c) := admit_samples samples (buffer w) (counters w) in
      w <| queue := queue' |> <| buffer := b |> <| counters := c |> <| pc := Draining |>
  | [] => w <| pc := if sinks w then Deciding else Flushing |>
  end.

(** What a turn of the writer finds outside: the instant, and the answer to a post. *)
Record Outside : Type := mkOutside {
  instant : Z;
  answer : HttpAnswer;
}.

(** A post, as the database sees it. *)
Record Post : Type := mkPost {
  post_at : Z;
  post_batch : list Sample;
  post_ok : bool;
}.

(** The body of the loop, after the reception. *)
Definition decide_post (p : InfluxParams) (o : Outside) (w : World) : option Post * World :=
  let w' := w <| pc := Waiting |> in
  match points (buffer w) with
  | [] => (None, w')
  | _ =>
      let now := instant o in
      let due := (BATCH_MAX_POINTS <=? len (points (buffer w))) || (p_batch p <=? Z.max 0 (now - last_post w)) in
      let backing_off := match retry_at w with Some at_ => now <? at_ | None => false end in
      if negb due || backing_off then (None, w')
      else
        let w' := w' <| last_post := now |> in
        let '(batch, (r, b, c)) := write_batch (answer o) (buffer w) (counters w) in
        match r with
        | Ok _ =>
            (Some (mkPost now batch true),
             w' <| buffer := b |> <| counters := c |> <| backoff := BACKOFF_MIN |> <| retry_at := None |>)
        | Err e =>
            (Some (mkPost now batch false),
             w' <| counters := record_error e c |> <| retry_at := Some (now + backoff w) |>
                <| backoff := Z.min (backoff w * 2) BACKOFF_MAX |>)
        end
  end.

(** What is left at the end: written as far as it can be, then dropped and counted;
    the buffer ends with the thread. *)
Definition flush_one (o : Outside) (w : World) : option Post * World :=
  let drop_rest c :=
    w <| counters := if (0 <? len (points (buffer w))) then add_dropped (len (points (buffer w))) c else c |>
      <| buffer ::= (fun b => b <| points := [] |>) |> <| pc := Gone |> in
  match points (buffer w) with
  | [] => (None, drop_rest (counters w))
  | _ =>
      let '(batch, (r, b, c)) := write_batch (answer o) (buffer w) (counters w) in
      match r with
      | Ok _ => (Some (mkPost (instant o) batch true), w <| buffer := b |> <| counters := c |>)
      | Err e => (Some (mkPost (instant o) batch false), drop_rest (record_error e c))
      end
  end.

Definition writer_turn (p : InfluxParams) (o : Outside) (w : World) : option Post * World :=
  match pc w with
  | Waiting | Draining => (None, receive_one w)
  | Deciding => decide_post p o w
  | Flushing => flush_one o w
  | Gone => (None, w)
  end.

(** What happens, as an observer of the device threads and of the database sees it. *)
Inductive Event : Type :=
| Offered (samples : list Sample) (kept : bool)
| Posted (x : Post).

Definition kept_by (w w' : World) : bool := (length (queue w) <? length (queue w'))%nat.

(** The device threads offer and count, as long as there are any; [finish] comes when
    they are gone; the writer goes on all the while. *)
Inductive step (p : InfluxParams) : World -> list Event -> World -> Prop :=
| step_offer w samples : sinks w = true ->
    step p w [Offered samples (kept_by w (offer samples w))] (offer samples w)
| step_count w i : step p w [] (count_refused i w)
| step_finish w : sinks w = true -> refused w = [] -> step p w [] (w <| sinks := false |>)
| step_writer w o x w' : writer_turn p o w = (x, w') ->
    step p w (match x with Some x => [Posted x] | None => [] end) w'.

Inductive steps (p : InfluxParams) : World -> list Event -> World -> Prop :=
| steps_refl w : steps p w [] w
| steps_snoc w evs w1 ev w2 : steps p w evs w1 -> step p w1 ev w2 -> steps p w (evs ++ ev) w2.

(** ** Grouping, without the map *)

Fixpoint first_keys {K : Type} `{EqDecision K} (ks : list K) : list K :=
  match ks with
  | [] => []
  | k :: ks => k :: filter (fun k' => k' <> k) (first_keys ks)
  end.

Definition group_of (samples : list Sample) (key : string * option Z * Z) : list Sample :=
  filter (fun s => line_key s = key) samples.

(** What the lines of these samples say. *)
Definition line_of (samples : list Sample) (key : string * option Z * Z) : Line :=
  let '(device, node, ts) := key in
  let group := group_of samples key in
  mkLine device [("ch", match node with Some node => dec node | None => BOARD_TAG end)]
    (map (fun s => (param s, FFloat (value s))) group ++ [("alarm", FBool (existsb alarm group))]) ts.

(** ** The lines say what the samples were *)

Lemma group_of_app l l' key : group_of (l ++ l') key = group_of l key ++ group_of l' key.
Proof. apply list.filter_app. Qed.

Lemma elem_of_first_keys {K : Type} `{EqDecision K} (k : K) ks : k ∈ first_keys ks <-> k ∈ ks.
Proof.
  induction ks as [| k' ks IH]; [done |]. cbn [first_keys]. rewrite !elem_of_cons, list_elem_of_filter, IH.
  destruct (decide (k = k')); tauto.
Qed.

Lemma first_keys_snoc {K : Type} `{EqDecision K} (k : K) ks :
  first_keys (ks ++ [k]) = first_keys ks ++ (if decide (k ∈ ks) then [] else [k]).
Proof.
  induction ks as [| k' ks IH]; cbn [first_keys app].
  - by rewrite decide_False by apply not_elem_of_nil.
  - rewrite IH, list.filter_app. cbn [app]. f_equal. f_equal. destruct (decide (k ∈ ks)) as [Hin | Hout].
    + by rewrite decide_True by by apply list_elem_of_further.
    + destruct (decide (k = k')) as [-> | Hne].
      * rewrite filter_cons_False by tauto. by rewrite decide_True by apply list_elem_of_here.
      * rewrite filter_cons_True by done. rewrite decide_False; [done |]. rewrite elem_of_cons. tauto.
Qed.

(** The map holds the samples of every key seen. *)
Definition grouped (seen : list Sample) (order : list (string * option Z * Z))
    (lines : gmap (string * option Z * Z) (list Sample)) : Prop :=
  order = first_keys (map line_key seen) /\
  forall key, lines !! key = if decide (key ∈ map line_key seen) then Some (group_of seen key) else None.

Lemma group_of_absent seen key : key ∉ map line_key seen -> group_of seen key = [].
Proof.
  unfold group_of. induction seen as [| s seen IH]; [done |]. cbn [map]. rewrite not_elem_of_cons. intros [Hs Hk].
  rewrite filter_cons_False by congruence. by apply IH.
Qed.

Lemma grouped_snoc seen order lines s : grouped seen order lines ->
  let key := line_key s in
  grouped (seen ++ [s])
    (match lines !! key with Some _ => order | None => order ++ [key] end)
    (<[key := default [] (lines !! key) ++ [s]]> lines).
Proof.
  intros [-> Hl] key. split.
  - rewrite map_app. cbn [map]. fold key. rewrite first_keys_snoc, Hl. destruct (decide _); [by rewrite app_nil_r | done].
  - intros k. rewrite map_app, group_of_app. cbn [map]. fold key. unfold group_of at 2. destruct (decide (k = key)) as [-> | Hne].
    + rewrite lookup_insert_eq, Hl, filter_cons_True, filter_nil by done.
      rewrite (decide_True (P := key ∈ map line_key seen ++ [key])) by (apply elem_of_app; right; by apply list_elem_of_singleton).
      destruct (decide _) as [| Hout]; [done |]. by rewrite group_of_absent.
    + rewrite lookup_insert_ne, Hl, filter_cons_False, filter_nil, app_nil_r by done.
      apply (decide_ext (k ∈ map line_key seen)). rewrite elem_of_app, list_elem_of_singleton. tauto.
Qed.

Lemma group_lines_groups samples seen order lines : grouped seen order lines ->
  let '(order', lines') := group_lines samples order lines in grouped (seen ++ samples) order' lines'.
Proof.
  revert seen order lines. induction samples as [| s samples IH]; intros seen order lines H; cbn [group_lines].
  - by rewrite app_nil_r.
  - replace (seen ++ s :: samples) with ((seen ++ [s]) ++ samples) by by rewrite <- app_assoc.
    pose proof (grouped_snoc _ _ _ s H) as Hs. cbn zeta in Hs.
    destruct (lines !! line_key s); by apply IH.
Qed.

Section Reading.
Context (show_f64 : f64 -> string).

(** The text, without the map. *)
Lemma line_protocol_groups samples :
  line_protocol show_f64 samples =
  foldr (fun key rest => push_line show_f64 key (group_of samples key) +:+ rest) EmptyString (first_keys (map line_key samples)).
Proof.
  unfold line_protocol. pose proof (group_lines_groups samples [] [] ∅) as H.
  destruct (group_lines samples [] ∅) as [order lines].
  assert (Hg : grouped [] [] ∅) by (split; [done |]; intros key; by rewrite lookup_empty, decide_False by apply not_elem_of_nil).
  destruct (H Hg) as [-> Hl]. cbn [app] in *. clear H Hg.
  assert (Hin : forall key, key ∈ first_keys (map line_key samples) -> lines !! key = Some (group_of samples key)).
  { intros key Hk. rewrite Hl, decide_True; [done |]. by apply elem_of_first_keys. }
  induction (first_keys (map line_key samples)) as [| key order IH]; [done |]. cbn [push_lines foldr].
  rewrite Hin by apply list_elem_of_here. f_equal. apply IH. intros k Hk. apply Hin. by apply list_elem_of_further.
Qed.

Lemma token_escaped special stops t stop rest :
  avoids [BACKSLASH] t = true -> stop ∈ stops -> stop <> BACKSLASH -> (forall c, c ∈ stops -> c ∈ special) ->
  token special stops (escaped t special +:+ String stop rest) = Some (t, stop, rest).
Proof.
  intros Ht Hin Hb Hsub. induction t as [| c t IH].
  - rewrite append_nil_l. cbn [token]. by rewrite bool_decide_eq_false_2, bool_decide_eq_true_2.
  - cbn [avoids] in Ht. apply andb_true_iff in Ht as [Hc Ht]. apply bool_decide_eq_true in Hc.
    rewrite list_elem_of_singleton in Hc. specialize (IH Ht). cbn [escaped]. case_bool_decide.
    + rewrite !append_cons. cbn [token]. rewrite !bool_decide_eq_true_2 by done. by rewrite IH.
    + rewrite append_cons. cbn [token]. rewrite !bool_decide_eq_false_2 by auto. by rewrite IH.
Qed.

Lemma token_plain special stops t stop rest :
  avoids (BACKSLASH :: stops) t = true -> stop ∈ stops -> stop <> BACKSLASH ->
  token special stops (t +:+ String stop rest) = Some (t, stop, rest).
Proof.
  intros Ht Hin Hb. induction t as [| c t IH].
  - rewrite append_nil_l. cbn [token]. by rewrite bool_decide_eq_false_2, bool_decide_eq_true_2.
  - cbn [avoids] in Ht. apply andb_true_iff in Ht as [Hc Ht]. apply bool_decide_eq_true in Hc. rewrite not_elem_of_cons in Hc.
    rewrite append_cons. cbn [token]. rewrite !bool_decide_eq_false_2 by tauto. by rewrite (IH Ht).
Qed.

(** ** Which samples can be written so *)

Definition plain_name (s : string) : Prop := s <> EmptyString /\ avoids [BACKSLASH; NL] s = true.

Record writable (s : Sample) : Prop := {
  device_plain : plain_name (sample_device s) /\ is_comment (sample_device s) = false;
  param_plain : plain_name (param s);
  value_finite : is_finite (value s) = true;
  value_number : number_text (show_f64 (value s)) = true;
  value_read : parse_f64 (show_f64 (value s)) = Some (value s);
  time_fits : 0 <= ts_ms s < 2 ^ 64;
}.

Lemma number_avoids s : number_text s = true -> avoids [BACKSLASH; ","; " "; NL]%char s = true.
Proof.
  intros H. assert (Ha : all_chars number_char s = true) by (destruct s; [done | by apply andb_true_iff in H as [_ H]]).
  clear H. induction s as [| c s IH]; [done |]. cbn [all_chars] in Ha. apply andb_true_iff in Ha as [Hc Ha].
  cbn [avoids]. rewrite IH by done. rewrite bool_decide_eq_true_2; [done |].
  rewrite !elem_of_cons, elem_of_nil. intros [-> | [-> | [-> | [-> | []]]]]; vm_compute in Hc; discriminate Hc.
Qed.

Lemma value_plain s : writable s -> avoids [BACKSLASH; ","; " "; NL]%char (show_f64 (value s)) = true.
Proof. intros H. apply number_avoids, (value_number _ H). Qed.

Lemma escaped_avoids t special : avoids [BACKSLASH; NL] t = true -> avoids [NL] (escaped t special) = true.
Proof.
  induction t as [| c t IH]; [done |]. cbn [avoids escaped]. rewrite andb_true_iff, bool_decide_eq_true, !not_elem_of_cons.
  intros [(Hb & Hn & _) Ht]. destruct (bool_decide (c ∈ special)); cbn [avoids]; rewrite IH by done;
    rewrite !bool_decide_eq_true_2 by (apply not_elem_of_cons; split; [done | apply not_elem_of_nil]); done.
Qed.

Lemma dec_avoids cs n : Forall (fun c => is_digit c = false) cs -> avoids cs (dec n) = true.
Proof. intros Hcs. apply avoids_digits; [done | apply dec_digits]. Qed.

Definition tag_text (node : option Z) : string := match node with Some node => dec node | None => BOARD_TAG end.

(** A line without what ends it. *)
Definition line_text (key : string * option Z * Z) (group : list Sample) : string :=
  let '(device, node, ts) := key in
  escaped device MEASUREMENT_SPECIAL +:+ ",ch=" +:+ tag_text node +:+ " " +:+
  push_fields show_f64 group +:+ "alarm=" +:+ bool_text (existsb alarm group) +:+ " " +:+ dec ts.

Lemma push_line_text key group rest : push_line show_f64 key group +:+ rest = line_text key group +:+ String NL rest.
Proof. destruct key as [[device node] ts]. unfold push_line, line_text. by rewrite !append_assoc. Qed.

Lemma fields_avoid group : Forall writable group -> avoids [NL] (push_fields show_f64 group) = true.
Proof.
  induction 1 as [| s group Hs _ IH]; [done |]. cbn [push_fields]. rewrite !avoids_app, IH.
  rewrite escaped_avoids by apply (param_plain _ Hs).
  rewrite (avoids_weaken _ [NL] (show_f64 (value s))) with (2 := value_plain _ Hs); [done |].
  intros c Hc%list_elem_of_singleton. subst c. by repeat constructor.
Qed.

Lemma line_avoids key group : plain_name (key.1.1) -> Forall writable group -> lacks NL (line_text key group) = true.
Proof.
  destruct key as [[device node] ts]. cbn. intros [_ Hd] Hg. apply avoids_lacks. unfold line_text.
  rewrite !avoids_app, escaped_avoids, fields_avoid, dec_avoids by (done || by constructor).
  assert (Ht : avoids [NL] (tag_text node) = true) by (destruct node; [apply dec_avoids; by constructor | done]).
  rewrite Ht. by destruct (existsb _ _).
Qed.

(** ** Reading one line *)

Definition pairs_of (group : list Sample) : list (string * string) :=
  map (fun s => (param s, show_f64 (value s))) group ++ [("alarm", bool_text (existsb alarm group))].

Lemma token_name k rest : plain_name k ->
  exists c k', k = String c k' /\ token KEY_SPECIAL ["="%char] (escaped k KEY_SPECIAL +:+ "=" +:+ rest) = Some (String c k', "="%char, rest).
Proof.
  intros [Hne Hk]. destruct k as [| c k]; [done |]. exists c, k. split; [done |]. apply (token_escaped _ _ _ "="%char rest).
  - apply (avoids_weaken [BACKSLASH; NL]); [| done]. intros x Hx%list_elem_of_singleton. subst x. by left.
  - by left.
  - done.
  - intros x Hx%list_elem_of_singleton. subst x. right. by left.
Qed.

Lemma token_value stop v rest : stop ∈ [","; " "]%char -> avoids [BACKSLASH; ","; " "]%char v = true ->
  token KEY_SPECIAL [","; " "]%char (v +:+ String stop EmptyString +:+ rest) = Some (v, stop, rest).
Proof.
  intros Hin Hv. apply (token_plain _ _ _ stop rest); [done | done |]. intros ->. rewrite !elem_of_cons, elem_of_nil in Hin. by destruct Hin as [| [|]].
Qed.

Lemma value_avoids s : writable s -> avoids [BACKSLASH; ","; " "]%char (show_f64 (value s)) = true.
Proof.
  intros Hs. apply (avoids_weaken [BACKSLASH; ","; " "; NL]%char); [| apply (value_plain _ Hs)].
  intros c. rewrite !elem_of_cons, elem_of_nil. tauto.
Qed.

(** The fields, up to the last, which says whether there is an alarm. *)
Lemma read_pairs_fields group b rest fuel : Forall writable group -> (length group < fuel)%nat ->
  read_pairs fuel (push_fields show_f64 group +:+ "alarm=" +:+ bool_text b +:+ " " +:+ rest) =
  Some (map (fun s => (param s, show_f64 (value s))) group ++ [("alarm", bool_text b)], rest).
Proof.
  intros Hg. revert fuel. induction Hg as [| s group Hs _ IH]; intros [| fuel] Hf; cbn [length] in Hf; try lia.
  - by destruct b.
  - cbn [push_fields]. rewrite !append_assoc. cbn [read_pairs].
    destruct (token_name (param s) (show_f64 (value s) +:+ "," +:+ push_fields show_f64 group +:+ "alarm=" +:+ bool_text b +:+ " " +:+ rest)
      (param_plain _ Hs)) as (c & k & Ek & ->).
    rewrite (token_value ","%char (show_f64 (value s))) by (by left || by apply value_avoids).
    rewrite bool_decide_eq_false_2 by done. rewrite IH by lia. cbn [map app]. by rewrite Ek.
Qed.

Lemma read_value_bool b : read_value (bool_text b) = Some (FBool b).
Proof. by destruct b. Qed.

Lemma read_fields_pairs group : Forall writable group ->
  read_fields (pairs_of group) =
  Some (map (fun s => (param s, FFloat (value s))) group ++ [("alarm", FBool (existsb alarm group))]).
Proof.
  unfold pairs_of. generalize (existsb alarm group) as b. intros b.
  induction 1 as [| s group Hs _ IH]; cbn [map app read_fields]; [by rewrite read_value_bool |].
  unfold read_value at 1. by rewrite (value_number _ Hs), (value_read _ Hs), IH.
Qed.

Lemma fields_length group : (length group <= String.length (push_fields show_f64 group))%nat.
Proof. induction group as [| s group IH]; [done |]. cbn [push_fields length]. rewrite !string_length_app. cbn. lia. Qed.

Lemma tag_avoids node : avoids [BACKSLASH; ","; " "]%char (tag_text node) = true.
Proof. destruct node as [n |]; [apply dec_avoids; by repeat constructor | done]. Qed.

Lemma read_pairs_tag node rest fuel : (0 < fuel)%nat ->
  read_pairs fuel ("ch" +:+ "=" +:+ tag_text node +:+ " " +:+ rest) = Some ([("ch", tag_text node)], rest).
Proof.
  intros Hf. destruct fuel as [| fuel]; [lia |]. cbn [read_pairs].
  change ("=" +:+ tag_text node +:+ " " +:+ rest) with (String "="%char (tag_text node +:+ " " +:+ rest)).
  rewrite (token_plain KEY_SPECIAL ["="%char] "ch" "="%char (tag_text node +:+ " " +:+ rest)) by (done || by left).
  rewrite (token_value " "%char) by (apply tag_avoids || by right; left). done.
Qed.

Lemma read_line_text key group : plain_name key.1.1 -> 0 <= key.2 < 2 ^ 64 -> Forall writable group ->
  read_line (line_text key group) =
  Some (mkLine key.1.1 [("ch", tag_text key.1.2)]
          (map (fun s => (param s, FFloat (value s))) group ++ [("alarm", FBool (existsb alarm group))]) key.2).
Proof.
  destruct key as [[device node] ts]. cbn [fst snd]. intros [Hne Hd] Hts Hg. unfold read_line, line_text.
  set (fs := push_fields show_f64 group +:+ "alarm=" +:+ bool_text (existsb alarm group) +:+ " " +:+ dec ts).
  change (",ch=" +:+ tag_text node +:+ " " +:+ fs) with (String ","%char ("ch" +:+ "=" +:+ tag_text node +:+ " " +:+ fs)).
  rewrite token_escaped; [| | by left | done | intros c Hc%list_elem_of_singleton; subst c; by left].
  2: { apply (avoids_weaken [BACKSLASH; NL]); [| done]. intros x Hx%list_elem_of_singleton. subst x. by left. }
  destruct device as [| c device]; [done |]. rewrite read_pairs_tag by (rewrite string_length_app; cbn; lia).
  unfold fs at 2. rewrite read_pairs_fields; [| done |].
  2: { unfold fs. rewrite !string_length_app. pose proof (fields_length group). cbn. lia. }
  fold (pairs_of group). by rewrite read_fields_pairs, parse_uint_dec.
Qed.

Lemma group_writable samples key : Forall writable samples -> Forall writable (group_of samples key).
Proof.
  intros H. apply list.Forall_forall. intros s Hs. apply list_elem_of_filter in Hs as [_ Hs].
  by apply (proj1 (list.Forall_forall _ _) H).
Qed.

(** C19: When names are fit to be written and the values are finite numbers, printed
    in digits that read back to them, the text of a batch of
    samples reads, on the database's side, as one line per device, node and time, in
    the order they first come: with the device as the measurement, the node as the
    tag, every sample of the line as a field with its own value, in order, and an
    alarm exactly if one of them has one - whatever special characters the names
    hold. *)
Theorem line_protocol_reads_back (samples : list Sample) (Hs : Forall writable samples) :
  read_lines (line_protocol show_f64 samples) = Some (map (line_of samples) (first_keys (map line_key samples))).
Proof.
  unfold read_lines. rewrite line_protocol_groups.
  assert (Hk : forall key, key ∈ first_keys (map line_key samples) ->
    plain_name key.1.1 /\ is_comment key.1.1 = false /\ 0 <= key.2 < 2 ^ 64).
  { intros key Hk. apply elem_of_first_keys, list_elem_of_fmap in Hk as (s & -> & Hin).
    pose proof (proj1 (list.Forall_forall _ _) Hs s Hin) as Hw. destruct (device_plain _ Hw). cbn.
    split_and!; [done | done | apply (time_fits _ Hw)..]. }
  induction (first_keys (map line_key samples)) as [| key keys IH]; [done |]. cbn [foldr map].
  destruct (Hk key) as (Hp & Hc & Ht); [by left |]. pose proof (group_writable samples key Hs) as Hg.
  rewrite push_line_text, split_on_cons by by apply line_avoids. cbn [read_each].
  replace (is_comment (line_text key (group_of samples key))) with false.
  2: { destruct key as [[[| c device] node] ts]; [done |]. cbn in Hc. unfold line_text. cbn [escaped].
       by case_bool_decide; rewrite append_cons. }
  rewrite read_line_text by done. rewrite IH by (intros k Hin; apply Hk; by right).
  by destruct key as [[device node] ts].
Qed.
End Reading.

(** ** The writer's accounts *)

Definition finite (s : Sample) : Prop := is_finite (value s) = true.

Definition offered_of (evs : list Event) : list Sample :=
  concat (map (fun e => match e with Offered samples _ => samples | Posted _ => [] end) evs).
Definition kept_of (evs : list Event) : list Sample :=
  concat (map (fun e => match e with Offered samples true => samples | _ => [] end) evs).
Definition posts_of (evs : list Event) : list Post :=
  concat (map (fun e => match e with Posted x => [x] | _ => [] end) evs).
Definition written_by (xs : list Post) : list Sample :=
  concat (map (fun x => if post_ok x then post_batch x else []) xs).

Lemma offered_app l l' : offered_of (l ++ l') = offered_of l ++ offered_of l'.
Proof. unfold offered_of. by rewrite map_app, concat_app. Qed.
Lemma kept_app l l' : kept_of (l ++ l') = kept_of l ++ kept_of l'.
Proof. unfold kept_of. by rewrite map_app, concat_app. Qed.
Lemma posts_app l l' : posts_of (l ++ l') = posts_of l ++ posts_of l'.
Proof. unfold posts_of. by rewrite map_app, concat_app. Qed.
Lemma written_app l l' : written_by (l ++ l') = written_by l ++ written_by l'.
Proof. unfold written_by. by rewrite map_app, concat_app. Qed.

(** What a batch that is posted looks like. *)
Definition good_post (x : Post) : Prop :=
  post_batch x <> [] /\ len (post_batch x) <= BATCH_MAX_POINTS /\ Forall finite (post_batch x).

(** Every sample offered is in one place or counted as gone; what was written and is
    still to be is what was kept, in order; nothing grows beyond its bound. *)
Record accounts (p : InfluxParams) (evs : list Event) (w : World) : Prop := {
  acc_count : points_written (counters w) + points_dropped (counters w) + len (concat (refused w)) +
    len (concat (queue w)) + len (points (buffer w)) = len (offered_of evs);
  acc_written : points_written (counters w) = len (written_by (posts_of evs));
  acc_order : written_by (posts_of evs) ++ points (buffer w) ++ filter finite (concat (queue w))
    `sublist_of` filter finite (kept_of evs);
  acc_posts : Forall good_post (posts_of evs);
  acc_errors : write_errors (counters w) = countb (fun x => negb (post_ok x)) (posts_of evs);
  acc_finite : Forall finite (points (buffer w));
  acc_room : max (buffer w) = p_buffer_max_points p /\ len (points (buffer w)) <= max (buffer w) /\
    (length (queue w) <= INFLUX_QUEUE)%nat;
  acc_stop : (sinks w = false -> refused w = []) /\
    (pc w = Flushing \/ pc w = Gone -> sinks w = false /\ queue w = []) /\ (pc w = Gone -> points (buffer w) = []);
}.

Lemma add_dropped_0 c : add_dropped 0 c = c.
Proof. destruct c. unfold add_dropped, update. cbn. f_equal. lia. Qed.

Lemma add_dropped_add m n c : add_dropped m (add_dropped n c) = add_dropped (n + m) c.
Proof. destruct c. unfold add_dropped, update. cbn. f_equal. lia. Qed.

Lemma push_finite_spec samples b c :
  push_finite samples b c =
  (mkBuffer (points b ++ filter finite samples) (max b) (overflow_warned b), add_dropped (len samples - len (filter finite samples)) c).
Proof.
  revert b c. induction samples as [| s samples IH]; intros [ps m warned] c; cbn [push_finite points max overflow_warned].
  - by rewrite filter_nil, app_nil_r, add_dropped_0.
  - destruct (is_finite (value s)) eqn:E.
    + rewrite IH, (filter_cons_True finite) by done. cbn. rewrite <- app_assoc. cbn. f_equal.
      unfold len. cbn [length]. f_equal. lia.
    + rewrite IH, (filter_cons_False finite), add_dropped_add by (unfold finite; congruence). cbn. f_equal. f_equal.
      unfold len. cbn [length]. lia.
Qed.

(** What admitting a poll does: the newest points are kept, the rest are counted. *)
Lemma admit_spec samples b c : 0 <= max b ->
  exists k warned, let kept := drop k (points b ++ filter finite samples) in
    admit_samples samples b c = (mkBuffer kept (max b) warned, add_dropped (len (points b) + len samples - len kept) c) /\
    len kept <= max b.
Proof.
  intros Hm. unfold admit_samples. rewrite push_finite_spec. destruct b as [ps m warned]. cbn [points max overflow_warned] in *.
  set (all := ps ++ filter finite samples).
  assert (Hl : len all = len ps + len (filter finite samples)) by apply len_app.
  destruct (Z.ltb_spec 0 (Z.max 0 (len all - m))) as [He | He].
  - exists (Z.to_nat (Z.max 0 (len all - m))), true. cbn zeta. rewrite add_dropped_add, len_drop. split; [| lia].
    cbn. f_equal. f_equal. lia.
  - exists O, warned. cbn zeta. rewrite drop_0. split; [| lia]. f_equal. f_equal. lia.
Qed.

Lemma batch_size_spec b : points b <> [] -> (0 < batch_size b <= length (points b))%nat /\ Z.of_nat (batch_size b) <= BATCH_MAX_POINTS.
Proof.
  intros Hne. unfold batch_size, len, BATCH_MAX_POINTS. destruct (points b) as [| s ps]; [done |]. cbn [length]. lia.
Qed.

(** What is posted is fit to be. *)
Lemma batch_good b t ok : points b <> [] -> Forall finite (points b) -> good_post (mkPost t (take (batch_size b) (points b)) ok).
Proof.
  intros Hne Hf. destruct (batch_size_spec b Hne) as [[H1 H2] H3]. split; cbn [post_batch]; [| split].
  - intros E. apply (f_equal length) in E. rewrite length_take in E. cbn [length] in E. lia.
  - rewrite len_take. lia.
  - by apply Forall_take.
Qed.

(** An offer keeps the poll in the channel or sets it aside to be counted. *)
Lemma sink_offer_cases samples w : pc w <> Gone ->
  (offer samples w = w <| queue ::= (fun q => q ++ [samples]) |> /\ (length (queue w) < INFLUX_QUEUE)%nat /\
     kept_by w (offer samples w) = true) \/
  ((offer samples w = w <| refused ::= (fun l => l ++ [samples]) |> \/ samples = [] /\ offer samples w = w) /\
     kept_by w (offer samples w) = false).
Proof.
  intros Hpc. unfold kept_by, offer. destruct samples as [| s samples].
  { right. split; [by right |]. apply Nat.ltb_ge. lia. }
  rewrite bool_decide_eq_false_2 by done. cbn [orb]. destruct (Nat.leb_spec INFLUX_QUEUE (length (queue w))) as [Hl | Hl].
  - right. split; [by left |]. apply Nat.ltb_ge. cbn. lia.
  - left. split_and!; [done | done |]. apply Nat.ltb_lt. cbn. rewrite length_app. cbn. lia.
Qed.

Lemma delete_concat {A : Type} (l : list (list A)) i x : l !! i = Some x -> len (concat (delete i l)) = len (concat l) - len x.
Proof.
  intros Hi. rewrite <- (take_drop_middle l i x Hi) at 2. rewrite (delete_take_drop l i), !concat_app, !len_app. cbn [concat].
  rewrite len_app. lia.
Qed.

Section Accounts.
Context (p : InfluxParams) (Hmax : 0 <= p_buffer_max_points p).

Lemma spawn_accounts now : accounts p [] (spawn p now).
Proof.
  split; cbn; try done; try by constructor. split_and!; [done | done | unfold INFLUX_QUEUE; lia]. split_and!; [done | by intros [|] | done].
Qed.

Lemma offer_accounts evs w samples : accounts p evs w -> sinks w = true ->
  accounts p (evs ++ [Offered samples (kept_by w (offer samples w))]) (offer samples w).
Proof.
  intros [Hc Hw Ho Hp He Hf (Hm & Hr & Hq) (Hs1 & Hs2 & Hs3)] Hs.
  assert (Hpc : pc w <> Gone) by (intros Hg; destruct Hs2; [by right | congruence]).
  destruct (sink_offer_cases samples w Hpc) as [(E & Hl & ->) | [[E | [-> E]] ->]]; rewrite E; clear E;
    split; rewrite ?offered_app, ?kept_app, ?posts_app, ?app_nil_r; cbn; rewrite ?app_nil_r; try done.
  - rewrite concat_app, !len_app. cbn. rewrite app_nil_r. lia.
  - rewrite concat_app, !list.filter_app, !app_assoc. cbn. rewrite app_nil_r. apply sublist_app; [by rewrite <- app_assoc | done].
  - rewrite length_app. cbn. lia.
  - split_and!; [congruence | intros H'; destruct (Hs2 H'); congruence | done].
  - rewrite concat_app, !len_app. cbn. rewrite app_nil_r. lia.
  - split_and!; [congruence | done | done].
Qed.

Lemma count_accounts evs w i : accounts p evs w -> accounts p evs (count_refused i w).
Proof.
  intros H. unfold count_refused. destruct (refused w !! i) as [lost |] eqn:Hi; [| done].
  destruct H as [Hc Hw Ho Hp He Hf Hr (Hs1 & Hs2 & Hs3)]. split; cbn; try done.
  - rewrite (delete_concat _ _ _ Hi). lia.
  - split_and!; [| done | done]. intros Hs. by rewrite Hs1 in Hi.
Qed.

Lemma finish_accounts evs w : accounts p evs w -> sinks w = true -> refused w = [] -> accounts p evs (w <| sinks := false |>).
Proof.
  intros [Hc Hw Ho Hp He Hf Hr (Hs1 & Hs2 & Hs3)] Hs Hrf. split; cbn; try done. split_and!; [done | | done].
  intros H'. destruct (Hs2 H'). congruence.
Qed.

Lemma receive_accounts evs w : accounts p evs w -> pc w = Waiting \/ pc w = Draining -> accounts p evs (receive_one w).
Proof.
  intros H Hpc. unfold receive_one. destruct (queue w) as [| samples queue'] eqn:Eq.
  - destruct H as [Hc Hw Ho Hp He Hf Hr (Hs1 & Hs2 & Hs3)]. split; cbn; try done; try by rewrite Eq.
    split_and!; [done | | by destruct (sinks w)]. intros Hf'. destruct (sinks w); [by destruct Hf' | done].
  - destruct H as [Hc Hw Ho Hp He Hf (Hm & Hr & Hq) (Hs1 & Hs2 & Hs3)]. rewrite Eq in *. cbn [concat length] in *.
    destruct (admit_spec samples (buffer w) (counters w)) as (k & warned & -> & Hk); [lia |].
    rewrite list.filter_app in Ho. split; cbn; try done.
    + rewrite len_app in Hc. lia.
    + etransitivity; [| exact Ho]. apply sublist_app; [done |]. rewrite app_assoc. apply sublist_app; [| done]. apply sublist_drop.
    + apply Forall_drop, Forall_app. split; [done |]. apply list.Forall_forall. intros s Hs. by apply list_elem_of_filter in Hs as [].
    + split_and!; [done | done | lia].
    + split_and!; [done | by intros [|] | done].
Qed.

(** A post that went through, or one that did not. *)
Lemma posted_ok_accounts evs w t : accounts p evs w -> points (buffer w) <> [] ->
  let n := batch_size (buffer w) in
  let b := mkBuffer (drop n (points (buffer w))) (max (buffer w)) false in
  accounts p (evs ++ [Posted (mkPost t (take n (points (buffer w))) true)])
    (w <| buffer := b |> <| counters := add_written (Z.of_nat n) (counters w) |>).
Proof.
  intros [Hc Hw Ho Hp He Hf (Hm & Hr & Hq) (Hs1 & Hs2 & Hs3)] Hne n b. destruct (batch_size_spec _ Hne) as [Hn _].
  assert (Hl : len (points (buffer w)) = Z.of_nat n + len (drop n (points (buffer w)))) by (rewrite len_drop; unfold len, n; lia).
  split; rewrite ?offered_app, ?kept_app, ?posts_app, ?written_app; cbn; rewrite ?app_nil_r.
  - lia.
  - rewrite Hw, len_app, len_take. unfold len. fold n. lia.
  - fold n. by rewrite <- app_assoc, (app_assoc (take n _)), take_drop.
  - apply Forall_app. split; [done |]. constructor; [by apply batch_good | constructor].
  - rewrite countb_app. cbn. lia.
  - by apply Forall_drop.
  - split_and!; [done | rewrite len_drop; lia | done].
  - split_and!; [done | done | intros Hg; by rewrite (Hs3 Hg) in Hne].
Qed.

Lemma posted_failed_accounts evs w t e : accounts p evs w -> points (buffer w) <> [] ->
  accounts p (evs ++ [Posted (mkPost t (take (batch_size (buffer w)) (points (buffer w))) false)])
    (w <| counters := record_error e (counters w) |>).
Proof.
  intros [Hc Hw Ho Hp He Hf Hr Hs] Hne.
  split; rewrite ?offered_app, ?kept_app, ?posts_app, ?written_app; cbn; rewrite ?app_nil_r; try done.
  - apply Forall_app. split; [done |]. constructor; [by apply batch_good | constructor].
  - rewrite countb_app. cbn. lia.
Qed.

(** What the accounts do not speak of may change. *)
Lemma quiet_accounts evs w w' : accounts p evs w ->
  sinks w' = sinks w -> queue w' = queue w -> refused w' = refused w -> counters w' = counters w -> buffer w' = buffer w ->
  pc w <> Gone -> pc w <> Flushing -> pc w' = Waiting -> accounts p evs w'.
Proof.
  intros [Hc Hw Ho Hp He Hf Hr (Hs1 & Hs2 & Hs3)] E1 E2 E3 E4 E5 H1 H2 H3.
  split; rewrite ?E1, ?E2, ?E3, ?E4, ?E5; try done. rewrite H3. split_and!; [done | by intros [|] | done].
Qed.

Definition event_of (x : option Post) : list Event := match x with Some x => [Posted x] | None => [] end.

Lemma decide_accounts o evs w : accounts p evs w -> pc w = Deciding ->
  accounts p (evs ++ event_of (fst (decide_post p o w))) (snd (decide_post p o w)).
Proof.
  intros H Hpc. assert (H1 : pc w <> Gone) by congruence. assert (H2 : pc w <> Flushing) by congruence.
  unfold decide_post. destruct (points (buffer w)) as [| s ps] eqn:Eps.
  { cbn [fst snd event_of]. rewrite app_nil_r. by eapply quiet_accounts. }
  assert (Hne : points (buffer w) <> []) by (by rewrite Eps). rewrite <- Eps.
  destruct (negb _ || _); [cbn [fst snd event_of]; rewrite app_nil_r; by eapply quiet_accounts |].
  unfold write_batch. destruct (post (answer o)) as [[] | e]; cbn [fst snd event_of].
  - eapply quiet_accounts; [by apply (posted_ok_accounts _ w (instant o)) | try done..].
  - eapply quiet_accounts; [by apply (posted_failed_accounts _ w (instant o) e) | try done..].
Qed.

Lemma flush_accounts o evs w : accounts p evs w -> pc w = Flushing ->
  accounts p (evs ++ event_of (fst (flush_one o w))) (snd (flush_one o w)).
Proof.
  intros H Hpc. unfold flush_one. destruct (points (buffer w)) as [| s ps] eqn:Eps.
  - cbn [fst snd event_of]. rewrite app_nil_r. destruct H as [Hc Hw Ho Hp He Hf (Hm & Hr & Hq) (Hs1 & Hs2 & Hs3)].
    split; cbn; rewrite ?Eps in *; try done. split_and!; [done | | done]. intros _. by apply Hs2; left.
  - assert (Hne : points (buffer w) <> []) by (by rewrite Eps). rewrite <- Eps.
    unfold write_batch. destruct (post (answer o)) as [[] | e]; cbn [fst snd event_of].
    + by apply (posted_ok_accounts _ w (instant o)).
    + pose proof (posted_failed_accounts _ w (instant o) e H Hne) as H'. destruct H' as [Hc Hw Ho Hp He Hf (Hm & Hr & Hq) (Hs1 & Hs2 & Hs3)].
      assert (Hl : (0 <? len (points (buffer w))) = true) by (apply Z.ltb_lt; rewrite Eps; unfold len; cbn [length]; lia). rewrite Hl.
      destruct Hs2 as [Hs2 Hs2']; [by left |]. cbn in *. rewrite ?Hs2' in *.
      split; cbn; rewrite ?Hs2' in *; try done.
      * unfold len in *. cbn [length concat] in *. lia.
      * etransitivity; [| exact Ho]. apply sublist_app; [done |]. rewrite !app_nil_r. apply sublist_nil_l.
      * split_and!; [done | unfold len; cbn; lia | done].
Qed.

Lemma step_accounts evs w ev w' : accounts p evs w -> step p w ev w' -> accounts p (evs ++ ev) w'.
Proof.
  intros H Hs. destruct Hs as [w samples Hs | w i | w Hs Hr | w o x w' Ht].
  - by apply offer_accounts.
  - rewrite app_nil_r. by apply count_accounts.
  - rewrite app_nil_r. by apply finish_accounts.
  - unfold writer_turn in Ht. destruct (pc w) eqn:Epc.
    + injection Ht as <- <-. rewrite app_nil_r. apply receive_accounts; [done | by left].
    + injection Ht as <- <-. rewrite app_nil_r. apply receive_accounts; [done | by right].
    + pose proof (decide_accounts o evs w H Epc) as Hd. by rewrite Ht in Hd.
    + pose proof (flush_accounts o evs w H Epc) as Hd. by rewrite Ht in Hd.
    + injection Ht as <- <-. by rewrite app_nil_r.
Qed.

Lemma steps_accounts w0 evs0 evs w : accounts p evs0 w0 -> steps p w0 evs w -> accounts p (evs0 ++ evs) w.
Proof.
  intros H0. induction 1 as [w | w evs w1 ev w2 _ IH Hs]; [by rewrite app_nil_r |].
  rewrite app_assoc. eapply step_accounts; [by apply IH | done].
Qed.
End Accounts.

(** ** The writer ends *)

Fixpoint writer_run (p : InfluxParams) (os : list Outside) (w : World) : list Event * World :=
  match os with
  | [] => ([], w)
  | o :: os =>
      let '(x, w1) := writer_turn p o w in
      let '(evs, w2) := writer_run p os w1 in (event_of x ++ evs, w2)
  end.

(** The turns a writer without sinks takes at most. *)
Definition turns_left (w : World) : nat :=
  let held := (length (queue w) + length (points (buffer w)) + length (concat (queue w)))%nat in
  match pc w with
  | Gone => 0
  | Flushing => 1 + length (points (buffer w))
  | Waiting | Draining => 2 + held
  | Deciding => 3 + held
  end.

Section Ending.
Context (p : InfluxParams).

Lemma admit_length samples b c : 0 <= max b -> let '(b', _) := admit_samples samples b c in
  max b' = max b /\ (length (points b') <= length (points b) + length samples)%nat.
Proof.
  intros Hm. destruct (admit_spec samples b c Hm) as (k & warned & -> & _). split; [done |]. cbn.
  rewrite length_drop, length_app. pose proof (length_filter finite samples). lia.
Qed.

Lemma write_batch_length a b c : points b <> [] -> let '(_, (r, b', _)) := write_batch a b c in
  max b' = max b /\ match r with
  | Ok _ => (length (points b') < length (points b))%nat
  | Err _ => length (points b') = length (points b)
  end.
Proof.
  intros Hne. unfold write_batch. destruct (batch_size_spec b Hne) as [Hn _].
  destruct (post a) as [[] | e]; (split; [done |]); cbn; [rewrite length_drop; lia | done].
Qed.

Lemma decide_turns o w : pc w = Deciding -> let w' := snd (decide_post p o w) in
  pc w' = Waiting /\ sinks w' = sinks w /\ queue w' = queue w /\ max (buffer w') = max (buffer w) /\
  (length (points (buffer w')) <= length (points (buffer w)))%nat.
Proof.
  intros Hpc. unfold decide_post. destruct (points (buffer w)) as [| s ps] eqn:Eps; [cbn; rewrite ?Eps; done |].
  rewrite <- Eps. assert (Hne : points (buffer w) <> []) by (by rewrite Eps).
  destruct (negb _ || _); [done |]. pose proof (write_batch_length (answer o) (buffer w) (counters w) Hne) as H.
  destruct (write_batch _ _ _) as [batch [[r b] c]]. destruct H as [Hm Hl]. destruct r as [[] | e]; cbn; split_and!; try done; lia.
Qed.

Lemma turn_progress o w : 0 <= max (buffer w) -> sinks w = false -> pc w <> Gone ->
  let w' := snd (writer_turn p o w) in
  sinks w' = false /\ max (buffer w') = max (buffer w) /\ (turns_left w' < turns_left w)%nat.
Proof.
  intros Hm Hs Hg. unfold writer_turn, turns_left. destruct (pc w) eqn:Epc; [| | | | done].
  1, 2: cbn [snd]; unfold receive_one; destruct (queue w) as [| samples queue'] eqn:Eq;
    [rewrite Hs; cbn; rewrite ?Eq; cbn; split_and!; [done | done | lia] |];
    pose proof (admit_length samples (buffer w) (counters w) Hm) as Ha;
    destruct (admit_samples samples (buffer w) (counters w)) as [b c]; destruct Ha as [Hb Hl];
    cbn; rewrite length_app; split_and!; [done | done | lia].
  - destruct (decide_turns o w Epc) as (-> & -> & -> & -> & Hl). split_and!; [done | done | lia].
  - unfold flush_one. destruct (points (buffer w)) as [| s ps] eqn:Eps; [cbn; split_and!; [done | done | lia] |].
    rewrite <- Eps. assert (Hne : points (buffer w) <> []) by (by rewrite Eps).
    pose proof (write_batch_length (answer o) (buffer w) (counters w) Hne) as H.
    destruct (write_batch _ _ _) as [batch [[r b] c]]. destruct H as [Hb Hl].
    destruct r as [[] | e]; cbn; rewrite ?Epc; split_and!; try done; lia.
Qed.

Lemma run_ends os w : 0 <= max (buffer w) -> sinks w = false -> (turns_left w <= length os)%nat -> pc (snd (writer_run p os w)) = Gone.
Proof.
  revert w. induction os as [| o os IH]; intros w Hm Hs Hl; cbn [writer_run].
  - cbn in *. unfold turns_left in Hl. destruct (pc w); cbn in Hl; done || lia.
  - destruct (decide (pc w = Gone)) as [Hg | Hg].
    + unfold writer_turn. rewrite Hg. assert (H0 : turns_left w = 0%nat) by (unfold turns_left; by rewrite Hg).
      specialize (IH w Hm Hs). destruct (writer_run p os w). apply IH. lia.
    + destruct (turn_progress o w Hm Hs Hg) as (Hs' & Hm' & Ht). destruct (writer_turn p o w) as [x w1]. cbn [snd] in *.
      specialize (IH w1). destruct (writer_run p os w1). apply IH; [lia | done |]. cbn in Hl. lia.
Qed.

Lemma run_steps os w : let '(evs, w') := writer_run p os w in steps p w evs w' /\ offered_of evs = [].
Proof.
  revert w. induction os as [| o os IH]; intros w; cbn [writer_run]; [split; [constructor | done] |].
  destruct (writer_turn p o w) as [x w1] eqn:Et. specialize (IH w1). destruct (writer_run p os w1) as [evs w2].
  destruct IH as [IH Ho]. rewrite offered_app, Ho. split; [| by destruct x].
  assert (H1 : steps p w (event_of x) w1) by (eapply (steps_snoc p w []); [constructor | by apply (step_writer p w o)]).
  clear Ho Et. induction IH as [w1 | w1 evs w2 ev w3 _ IH Hs]; [by rewrite app_nil_r |]. rewrite app_assoc.
  eapply steps_snoc; [by apply IH | done].
Qed.
End Ending.

(** ** The pace of the posts *)

(** How many posts have failed in a row, and how long the next one then waits. *)
Definition streak (xs : list Post) : nat := foldl (fun k x => if post_ok x then O else S k) O xs.
Definition backoff_after (k : nat) : Z := Z.min (BACKOFF_MIN * 2 ^ Z.of_nat k) BACKOFF_MAX.

(** Of two posts in a row, the second waits out the back-off of the first if that
    failed, and the time of a batch unless the batch is full. *)
Definition follows_on (p : InfluxParams) (l1 : list Post) (y x : Post) : Prop :=
  (post_ok y = false -> post_at y + backoff_after (streak l1) <= post_at x) /\
  (p_batch p <= Z.max 0 (post_at x - post_at y) \/ len (post_batch x) = BATCH_MAX_POINTS).

Definition spaced (p : InfluxParams) (xs : list Post) : Prop :=
  forall l1 y x l2, xs = l1 ++ y :: x :: l2 -> follows_on p l1 y x.

(** While the writer is running. *)
Definition paced (p : InfluxParams) (xs : list Post) (w : World) : Prop :=
  spaced p xs /\ backoff w = backoff_after (streak xs) /\
  (xs = [] /\ retry_at w = None \/
   exists l y, xs = l ++ [y] /\ last_post w = post_at y /\
     retry_at w = if post_ok y then None else Some (post_at y + backoff_after (streak l))).

Lemma streak_snoc xs x : streak (xs ++ [x]) = if post_ok x then O else S (streak xs).
Proof. unfold streak. by rewrite foldl_app. Qed.

Lemma backoff_doubles k : Z.min (backoff_after k * 2) BACKOFF_MAX = backoff_after (S k).
Proof.
  unfold backoff_after, BACKOFF_MAX. rewrite Nat2Z.inj_succ, Z.pow_succ_r by lia.
  pose proof (Z.pow_pos_nonneg 2 (Z.of_nat k)). unfold BACKOFF_MIN. lia.
Qed.

Lemma spaced_snoc p xs x : spaced p xs -> (forall l y, xs = l ++ [y] -> follows_on p l y x) -> spaced p (xs ++ [x]).
Proof.
  intros Hs Hx l1 y x' l2 E. destruct l2 as [| z l2] using rev_ind.
  - change (l1 ++ [y; x']) with (l1 ++ ([y] ++ [x'])) in E. rewrite app_assoc in E. apply app_inj_tail in E as [-> ->].
    by apply Hx.
  - clear IHl2. change (l1 ++ y :: x' :: l2 ++ [z]) with (l1 ++ ((y :: x' :: l2) ++ [z])) in E. rewrite app_assoc in E.
    apply app_inj_tail in E as [-> _]. by apply (Hs l1 y x' l2).
Qed.

Lemma decide_paced p o xs w : paced p xs w -> pc w = Deciding ->
  paced p (xs ++ match fst (decide_post p o w) with Some x => [x] | None => [] end) (snd (decide_post p o w)).
Proof.
  intros (Hs & Hb & Hl) Hpc. unfold decide_post. destruct (points (buffer w)) as [| s ps] eqn:Eps; [by rewrite app_nil_r |].
  rewrite <- Eps. destruct (negb _ || _) eqn:Edue; [by rewrite app_nil_r |].
  apply orb_false_iff in Edue as [Hdue Hback]. apply negb_false_iff, orb_true_iff in Hdue.
  set (batch := take (batch_size (buffer w)) (points (buffer w))).
  assert (Hx : forall ok, spaced p (xs ++ [mkPost (instant o) batch ok])).
  { intros ok. apply spaced_snoc; [done |]. intros l y ->. destruct Hl as [[E _] | (l' & y' & E & Ey & Er)]; [by destruct l |].
    apply app_inj_tail in E as [<- <-]. split; cbn [post_at post_batch].
    - intros Hy. rewrite Er, Hy in Hback. lia.
    - rewrite <- Ey. destruct Hdue as [Hfull%Z.leb_le | Htime%Z.leb_le]; [right | by left].
      unfold batch, batch_size, BATCH_MAX_POINTS in *. rewrite len_take. lia. }
  unfold write_batch. destruct (post (answer o)) as [[] | e]; cbn [fst snd]; fold batch.
  - split_and!; [apply Hx | by rewrite streak_snoc |]. right. by exists xs, (mkPost (instant o) batch true).
  - split_and!; [apply Hx | rewrite streak_snoc; cbn; by rewrite Hb, backoff_doubles |].
    right. exists xs, (mkPost (instant o) batch false). split_and!; [done | done |]. cbn. by rewrite Hb.
Qed.

Lemma paced_ext p xs w w' : paced p xs w -> backoff w' = backoff w -> retry_at w' = retry_at w -> last_post w' = last_post w ->
  paced p xs w'.
Proof. intros H E1 E2 E3. unfold paced. by rewrite E1, E2, E3. Qed.

Lemma receive_keeps w : let w' := receive_one w in backoff w' = backoff w /\ retry_at w' = retry_at w /\ last_post w' = last_post w.
Proof. unfold receive_one. destruct (queue w) as [| ss q]; [done |]. by destruct (admit_samples _ _ _). Qed.

(** While the writer is running, its posts keep the pace: after failures they are
    1, 2, 4, ... and at most 60 seconds apart. *)
Lemma influx_paced p now evs w : steps p (spawn p now) evs w -> pc w <> Flushing -> pc w <> Gone -> spaced p (posts_of evs).
Proof.
  intros H Hf Hg. assert (Hp : pc w <> Flushing -> pc w <> Gone -> paced p (posts_of evs) w); [| by apply Hp].
  clear Hf Hg. remember (spawn p now) as w0 eqn:E0. induction H as [w | w evs w1 ev w2 _ IH Hs]; intros Hf Hg; subst w.
  { split_and!; [by intros [] ? ? ? ? | done | by left]. }
  rewrite posts_app. specialize (IH eq_refl). destruct Hs as [w samples Hs | w i | w Hs Hr | w o x w' Ht].
  - cbn. rewrite app_nil_r. unfold offer in *. destruct samples; [by apply IH |].
    destruct (bool_decide (pc w = Gone) || _); by apply (paced_ext _ _ w); [apply IH |..].
  - cbn. rewrite app_nil_r. unfold count_refused in *. destruct (refused w !! i); [| by apply IH].
    by apply (paced_ext _ _ w); [apply IH |..].
  - cbn. rewrite app_nil_r. by apply (paced_ext _ _ w); [apply IH |..].
  - unfold writer_turn in Ht. destruct (pc w) eqn:Epc.
    3: { pose proof (decide_paced p o (posts_of evs) w (IH ltac:(done) ltac:(done)) Epc) as Hd. rewrite Ht in Hd. by destruct x. }
    1, 2: injection Ht as <- <-; cbn; rewrite app_nil_r; destruct (receive_keeps w) as (E1 & E2 & E3);
      by apply (paced_ext _ _ w); [apply IH |..].
    + exfalso. unfold flush_one in Ht. destruct (points (buffer w)); [by injection Ht as <- <- |].
      unfold write_batch in Ht. destruct (post (answer o)) as [[] | e]; injection Ht as <- <-; [by apply Hf | by apply Hg].
    + injection Ht as <- <-. done.
Qed.

(** Whatever the device threads offer, the database answers and the clock shows,
    in any interleaving: every sample offered is waiting in the channel or in the
    buffer, was written, or is counted as dropped (or is about to be, by the thread
    that offered it); what was written, and what still will be, is what was taken, in
    order and without repetition; a post has between one and 5000 points, all of them
    finite numbers; the counters of writes and errors are those of the posts; neither
    the buffer nor the channel outgrows its bound.  Once the device threads are gone,
    the writer ends after a number of turns known in advance, and then written and
    dropped make up all that was offered. *)
Theorem influx_accounts (p : InfluxParams) (now : Z) (evs : list Event) (w : World)
    (Hmax : 0 <= p_buffer_max_points p) (Hsteps : steps p (spawn p now) evs w) :
  accounts p evs w /\
  (sinks w = false -> forall os, (turns_left w <= length os)%nat ->
     let w' := snd (writer_run p os w) in
     pc w' = Gone /\ points_written (counters w') + points_dropped (counters w') = len (offered_of evs)).
Proof.
  pose proof (steps_accounts p Hmax _ [] evs w (spawn_accounts p Hmax now) Hsteps) as H. cbn [app] in H. split; [done |].
  intros Hs os Hl. assert (Hm : 0 <= max (buffer w)) by (destruct (acc_room _ _ _ H) as [-> _]; done).
  pose proof (run_ends p os w Hm Hs Hl) as Hg. pose proof (run_steps p os w) as Hr.
  destruct (writer_run p os w) as [more w']. destruct Hr as [Hr Ho]. cbn [snd] in *. split; [done |].
  pose proof (steps_accounts p Hmax _ _ _ _ H Hr) as [Hc _ _ _ _ _ _ (Hs1 & Hs2 & Hs3)].
  destruct Hs2 as [Hs2 Hq]; [by right |]. rewrite (Hs1 Hs2), Hq, (Hs3 Hg), offered_app, Ho, app_nil_r in Hc.
  cbn in Hc. unfold len in *. cbn in Hc. lia.
Qed.

(** The writer of a configuration that was accepted; the sizes are unsigned. *)
Lemma accepted_influx read_to_string c params : valid_influx c -> 0 <= buffer_max_points c -> 0 <= batch_ms c ->
  influx_from_config read_to_string c = Ok params ->
  0 < p_buffer_max_points params /\ 0 < p_batch params /\ p_token params <> EmptyString.
Proof.
  intros H Hb Ht E. destruct (valid_sizes _ H) as (H1 & H2 & _). unfold influx_from_config, read_token in E.
  destruct (read_to_string (token_file c)) as [text |]; [| done]. destruct (bool_decide _) eqn:Et; [done |].
  apply bool_decide_eq_false in Et. injection E as <-. cbn. split_and!; [lia | lia | done].
Qed.

(** ** Samples to run it on *)

Definition show_int (x : f64) : string := pretty (f64_to_Z x).

Definition example_samples : list Sample :=
  [mkSample "gas, left" (Some 3) "flow" (f64_of_Z 33) "l/h" 1000 false;
   mkSample "gas, left" None "p=in" (f64_of_Z (-4)) "hPa" 1000 false;
   mkSample "gas, left" (Some 3) "set point" (f64_of_Z 20) "l/h" 1000 true].

Lemma line_protocol_reads_back_witness :
  Forall (writable show_int) example_samples /\
  read_lines (line_protocol show_int example_samples) = Some (map (line_of example_samples) (first_keys (map line_key example_samples))).
Proof.
  assert (H : Forall (writable show_int) example_samples) by (repeat constructor; try done; by vm_compute).
  split; [exact H | exact (line_protocol_reads_back show_int example_samples H)].
Defined.

Example example_text :
  line_protocol show_int example_samples =
  "gas\,\ left,ch=3 flow=33,set\ point=20,alarm=true 1000" +:+ String NL
  ("gas\,\ left,ch=board p\=in=-4,alarm=false 1000" +:+ String NL EmptyString).
Proof. by vm_compute. Qed.

(** A device whose name starts with a number sign: its lines are comments.  What is
    sent is counted as written, and nothing is. *)
Lemma comment_lines_lost :
  read_lines (line_protocol show_int [mkSample "#2" None "t" (f64_of_Z 20) "degC" 1000 false]) = Some [].
Proof. by vm_compute. Qed.

(** A value that is no number: the text is refused with all its lines; the writer
    keeps such values out of its buffer. *)
Lemma nan_refused :
  read_lines (line_protocol (fun x => if is_finite x then show_int x else "NaN")
    (example_samples ++ [mkSample "hv" None "vmon" S754_nan "V" 2000 false])) = None.
Proof. by vm_compute. Qed.

(** A device whose name ends in a backslash: the text is no line, so the batch is
    refused, and so is every batch that holds it. *)
Lemma backslash_refused :
  read_lines (line_protocol show_int [mkSample "gas\" None "t" (f64_of_Z 20) "degC" 1000 false]) = None.
Proof. by vm_compute. Qed.

(** Two polls, the second with a value that is not a number; the database is down for
    the first post, and the device threads stop. *)
Definition example_params : InfluxParams := mkInfluxParams "http://localhost:8086" "o" "b" "t" 1000 100 2000.

Definition bad_poll : list Sample := [mkSample "hv" None "vmon" S754_nan "V" 2000 false; mkSample "hv" None "imon" (f64_of_Z 1) "uA" 2000 false].

Definition example_world : World :=
  offer bad_poll (offer example_samples (spawn example_params 0)) <| sinks := false |>.

Definition down (t : Z) : Outside := mkOutside t (NoResponse "connection refused").
Definition up (t : Z) : Outside := mkOutside t (Response 204 (Ok "")).

Lemma influx_accounts_witness :
  steps example_params (spawn example_params 0) [Offered example_samples true; Offered bad_poll true] example_world /\
  points_written (counters (snd (writer_run example_params (repeat (up 5000) 12) example_world))) = 4 /\
  points_written (counters (snd (writer_run example_params (repeat (up 5000) 12) example_world))) +
  points_dropped (counters (snd (writer_run example_params (repeat (up 5000) 12) example_world))) = 5 /\
  points_dropped (counters (snd (writer_run example_params (repeat (down 5000) 12) example_world))) = 5.
Proof.
  assert (H : steps example_params (spawn example_params 0) [Offered example_samples true; Offered bad_poll true] example_world).
  { apply (steps_snoc _ _ [Offered example_samples true; Offered bad_poll true] (offer bad_poll (offer example_samples (spawn example_params 0))) []);
      [| by apply step_finish].
    apply (steps_snoc _ _ [Offered example_samples true] (offer example_samples (spawn example_params 0)) [Offered bad_poll true]);
      [| by apply (step_offer example_params (offer example_samples (spawn example_params 0)) bad_poll)].
    apply (steps_snoc _ _ [] (spawn example_params 0) [Offered example_samples true]); [constructor |].
    by apply (step_offer example_params (spawn example_params 0) example_samples). }
  destruct (influx_accounts example_params 0 _ example_world ltac:(by vm_compute) H) as [_ Hend].
  split_and!; [exact H | by vm_compute | | by vm_compute].
  apply (Hend eq_refl (repeat (up 5000) 12)). vm_compute. lia.
Defined.
