(* ===== verification/Params.v ===== *)
(** * Params: the parameters of the electronics, as the operator gives them

    Models [src/params/paths.rs] and [src/params/schema.rs]: the table of the knobs
    with their types and ranges, the parameter file - one uniform value per knob and
    a list of exceptions - with its validation, and the value a channel gets.  The
    JSON syntax is serde_json's: the validation starts from what it reads.  The
    printing of JSON values and of fractional floats, and the hash, are arguments. *)

From Stdlib Require Import Ascii SpecFloat.
From stdpp Require Import pretty strings.
From S2P Require Import Prelude Decimal Text Checks Float.
Open Scope string_scope.
Open Scope list_scope.
Open Scope Z_scope.

(** ** Places: [paths.rs] *)

Definition NODE : string := "Node".
Definition COBO : string := "CoBo".
Definition INSTANCE : string := "Instance".
Definition ASAD : string := "AsAd".
Definition AGET : string := "Aget".
Definition CHANNEL : string := "channel".
Definition STAR : string := "*".

Inductive Scope : Type :=
| Cobo
| Asad
| Aget
| Channel.

Definition depth (s : Scope) : nat :=
  match s with
  | Cobo => 0
  | Asad => 1
  | Aget => 2
  | Channel => 3
  end.

Definition element_at_depth (d : nat) : option string :=
  match d with
  | 1%nat => Some ASAD
  | 2%nat => Some AGET
  | 3%nat => Some CHANNEL
  | _ => None
  end.

Record Step : Type := mkStep {
  step_name : string;
  step_index : option string;
}.

(** The levels [k..=scope.depth()] of a path, with the ids given and [*] for the rest. *)
Fixpoint scope_steps (n k : nat) (ids : list string) : list Step :=
  match n with
  | O => []
  | S n =>
      mkStep (default CHANNEL (element_at_depth k)) (Some (default STAR (ids !! (k - 1)%nat))) :: scope_steps n (S k) ids
  end.

Definition knob_path (instance : string) (scope : Scope) (ids suffix : list string) : list Step :=
  [mkStep NODE (Some COBO); mkStep INSTANCE (Some instance)] ++
  scope_steps (depth scope) 1 ids ++ map (fun name => mkStep name None) suffix.

Definition step_text (s : Step) : string :=
  step_name s +:+ match step_index s with Some index => "[" +:+ index +:+ "]" | None => "" end.

Definition path_text (p : list Step) : string := String.concat "." (map step_text p).

(** ** JSON values, and the knobs *)

(** [serde_json::Value]: a number is an integer of [i64] or [u64], or a float; the
    keys of an object are in order. *)
Inductive Value : Type :=
| Jnull
| Jbool (b : bool)
| Jint (n : Z)
| Jreal (x : f64)
| Jstr (s : string)
| Jarray (vs : list Value)
| Jobject (fields : list (string * Value)).

Definition as_i64 (v : Value) : option Z :=
  match v with
  | Jint n => if n <? 2 ^ 63 then Some n else None
  | _ => None
  end.
Definition as_f64 (v : Value) : option f64 :=
  match v with
  | Jint n => Some (f64_of_Z n)
  | Jreal x => Some x
  | _ => None
  end.
Definition as_str (v : Value) : option string := match v with Jstr s => Some s | _ => None end.
Definition as_bool (v : Value) : option bool := match v with Jbool b => Some b | _ => None end.

Fixpoint assoc {A : Type} (k : string) (fields : list (string * A)) : option A :=
  match fields with
  | [] => None
  | (k', v) :: fields => if bool_decide (k = k') then Some v else assoc k fields
  end.

Definition value_get (v : Value) (k : string) : option Value :=
  match v with
  | Jobject fields => assoc k fields
  | _ => None
  end.

Definition SCHEMA_ID : string := "tpcdaq-params/1".

Inductive KnobKind : Type :=
| KInt (min max : option Z)
| KIntEnum (allowed : list Z)
| KReal (min max : option f64)
| KRealEnum (allowed : list f64)
| KStrEnum (allowed : list string)
| KBool
| KDerived (table : list (string * string)).

Record KnobSpec : Type := mkKnob {
  knob_name : string;
  scope : Scope;
  suffix : list string;
  kind : KnobKind;
}.

Definition PEAKING_TIME_NS : list Z := [70; 117; 232; 280; 334; 383; 502; 541; 568; 632; 721; 760; 831; 870; 976; 1014].

Definition KNOBS : list KnobSpec :=
  [mkKnob "triggerDelay" Cobo ["Module"; "triggerDelay"] (KInt (Some 0) None);
   mkKnob "writingClockFrequency_MHz" Cobo ["Module"; "writingClockFrequency"]
     (KRealEnum [f64_div (f64_of_Z 25) (f64_of_Z 2); f64_of_Z 25; f64_of_Z 50; f64_of_Z 100]);
   mkKnob "triggerMode" Cobo ["Module"; "triggerMode"]
     (KStrEnum ["external"; "noTrigger"; "onRequest"; "onSlowControl"; "periodically"]);
   mkKnob "triggerPeriod_ms" Cobo ["Module"; "triggerPeriod"] (KInt (Some 1) (Some 21474));
   mkKnob "globalThreshold" Aget ["Global"; "Reg1"; "GlobalThresholdValue"] (KInt (Some 0) (Some 7));
   mkKnob "lsbThreshold" Channel ["LSBThresholdValue"] (KInt (Some 0) (Some 15));
   mkKnob "gain" Channel ["Gain"] (KStrEnum ["10pC"; "120fC"; "1pC"; "240fC"]);
   mkKnob "triggerInhibition" Channel ["TriggerInhibition"] (KStrEnum ["inhibit_channel"; "inhibit_trigger"; "none"]);
   mkKnob "peakingTime_ns" Aget ["Global"; "Reg1"; "peackingTime"] (KIntEnum PEAKING_TIME_NS);
   mkKnob "readout" Aget ["Global"; "Reg1"; "isAllChannelRead"] (KDerived [("full", "true"); ("partial", "false")]);
   mkKnob "fpnRead" Aget ["Global"; "Reg1"; "isFPNRead"] KBool;
   mkKnob "zeroSuppression.enabled" Cobo ["Module"; "enableZeroSuppression"] KBool;
   mkKnob "zeroSuppression.threshold" Channel ["zeroSuppressionThreshold"] (KInt (Some 0) (Some 4095));
   mkKnob "pulser.enabled" Cobo ["Generator"; "periodicModeEnabled"] KBool;
   mkKnob "pulser.voltage_mV" Cobo ["Generator"; "amplitudeStart"] (KReal (Some (f64_of_Z (-1000))) (Some (f64_of_Z 1000)));
   mkKnob "pulser.period_ms" Cobo ["Generator"; "period_ms"] (KInt (Some 0) None)].

Definition knob_specs (name : string) : list KnobSpec := filter (fun k => knob_name k = name) KNOBS.
Definition knob_spec (name : string) : option KnobSpec := head (knob_specs name).

(** The shallowest entry of a knob. *)
Definition knob_scope_depth (name : string) : option nat :=
  match map (fun k => depth (scope k)) (knob_specs name) with
  | [] => None
  | d :: ds => Some (foldr Nat.min d ds)
  end.

(** A value by its dotted name: the first part in the map, the others in objects. *)
Fixpoint value_at (v : Value) (parts : list string) : option Value :=
  match parts with
  | [] => Some v
  | part :: parts => match value_get v part with Some v => value_at v parts | None => None end
  end.

Definition lookup_knob (knobs : list (string * Value)) (name : string) : option Value :=
  match split_on "."%char name with
  | [] => None
  | first :: parts => match assoc first knobs with Some v => value_at v parts | None => None end
  end.

(** The dotted names of the leaves of a value. *)
Fixpoint leaf_names (v : Value) (prefix : string) : list string :=
  match v with
  | Jobject fields =>
      (fix go (fields : list (string * Value)) : list string :=
         match fields with
         | [] => []
         | (key, child) :: fields =>
             leaf_names child (if bool_decide (prefix = EmptyString) then key else prefix +:+ "." +:+ key) ++ go fields
         end) fields
  | _ => [prefix]
  end.

Inductive ParamsError : Type :=
| JsonError (why : string)
| UnknownSchema (found : string)
| EmptyTemplate
| MissingKnob (knob : string)
| UnknownKnob (knob : string)
| BadType (knob value expected : string)
| OutOfRange (knob value : string) (min max : option Z)
| NotInEnum (knob value allowed : string)
| ExceptionAtNotPrefix (at_ : string)
| ExceptionTooFine (knob at_ : string) (at_depth scope_depth : nat)
| DuplicateException (knob at_ : string)
| TargetNotInTemplate (level id : string)
| CannotExpandException (knob at_ level : string)
| TemplateShape (what : string)
| Xml (why : string).

(** ** Exceptions *)

Record At : Type := mkAt {
  asad : option Z;
  aget : option Z;
  ch : option Z;
}.
#[export] Instance at_eq_dec : EqDecision At.
Proof. solve_decision. Defined.

Definition at_depth (a : At) : nat :=
  match asad a, aget a, ch a with
  | Some _, Some _, Some _ => 3
  | Some _, Some _, None => 2
  | Some _, None, None => 1
  | _, _, _ => 0
  end.

Definition is_prefix (a : At) : bool := (0 <? at_depth a)%nat.

Definition opt_list {A : Type} (o : option A) : list A := match o with Some a => [a] | None => [] end.

Definition at_ids (a : At) : list string := map dec (opt_list (asad a) ++ opt_list (aget a) ++ opt_list (ch a)).

Definition at_text (a : At) : string :=
  let field name o := match o with Some v => [name +:+ ": " +:+ dec v] | None => [] end in
  "{" +:+ String.concat ", " (field "asad" (asad a) ++ field "aget" (aget a) ++ field "ch" (ch a)) +:+ "}".

Record Exception : Type := mkException {
  ex_at : At;
  ex_knob : string;
  ex_value : Value;
  ex_note : option string;
}.

Record Params : Type := mkParams {
  schema : string;
  template : string;
  knobs : list (string * Value);
  exceptions : list Exception;
  note : option string;
  raw_json : string;
}.

Record ParamsRaw : Type := mkParamsRaw {
  raw_schema : string;
  raw_template : string;
  raw_knobs : list (string * Value);
  raw_exceptions : list Exception;
  raw_note : option string;
}.

(** ** Values as text *)

(** [value.fract() == 0.0]. *)
Definition is_integral (x : f64) : bool :=
  match x with
  | S754_zero _ => true
  | S754_finite _ m e => (0 <=? e) || (Zpos m mod 2 ^ (- e) =? 0)
  | _ => false
  end.

Definition is_negative (x : f64) : bool :=
  match x with
  | S754_zero s | S754_infinity s | S754_finite s _ _ => s
  | S754_nan => false
  end.

Section Schema.
Context (show_json : Value -> string) (show_f64 : f64 -> string).

Definition format_real (x : f64) : string :=
  if is_integral x then (if is_negative x then "-" else "") +:+ dec (Z.abs (f64_to_Z x)) +:+ ".0" else show_f64 x.

Definition bad_type (spec : KnobSpec) (v : Value) (expected : string) : ParamsError :=
  BadType (knob_name spec) (show_json v) expected.

(** [{:?}] of a slice of numbers. *)
Definition debug_list {A : Type} (show : A -> string) (l : list A) : string := "[" +:+ String.concat ", " (map show l) +:+ "]".

Definition bool_string (b : bool) : string := if b then "true" else "false".

Definition value_to_xcfg_text (spec : KnobSpec) (v : Value) : result string ParamsError :=
  match kind spec with
  | KInt _ _ | KIntEnum _ => match as_i64 v with Some n => Ok (pretty n) | None => Err (bad_type spec v "integer") end
  | KReal _ _ | KRealEnum _ => match as_f64 v with Some x => Ok (format_real x) | None => Err (bad_type spec v "real") end
  | KStrEnum _ => match as_str v with Some s => Ok s | None => Err (bad_type spec v "string") end
  | KBool => match as_bool v with Some b => Ok (bool_string b) | None => Err (bad_type spec v "bool") end
  | KDerived table =>
      match as_str v with
      | None => Err (bad_type spec v "string")
      | Some mode => match assoc mode table with Some text => Ok text | None => Err (NotInEnum (knob_name spec) mode (String.concat ", " (map fst table))) end
      end
  end.

(** [x] outside the bounds that are given, by an ordering test. *)
Definition out_of {A : Type} (lt : A -> A -> bool) (min max : option A) (x : A) : bool :=
  match min with Some m => lt x m | None => false end || match max with Some m => lt m x | None => false end.

(** [f64::EPSILON], 2^-52. *)
Definition EPSILON : f64 := S754_finite false 4503599627370496 (-104).

Definition check_value (spec : KnobSpec) (v : Value) : result unit ParamsError :=
  let name := knob_name spec in
  match kind spec with
  | KInt min max =>
      match as_i64 v with
      | None => Err (bad_type spec v "integer")
      | Some n => if out_of Z.ltb min max n then Err (OutOfRange name (pretty n) min max) else Ok tt
      end
  | KIntEnum allowed =>
      match as_i64 v with
      | None => Err (bad_type spec v "integer")
      | Some n => if bool_decide (n ∈ allowed) then Ok tt else Err (NotInEnum name (pretty n) (debug_list pretty allowed))
      end
  | KReal min max =>
      match as_f64 v with
      | None => Err (bad_type spec v "real")
      | Some x =>
          if out_of f64_lt min max x then
            Err (OutOfRange name (format_real x) (f64_to_Z <$> min) (f64_to_Z <$> max))
          else Ok tt
      end
  | KRealEnum allowed =>
      match as_f64 v with
      | None => Err (bad_type spec v "real")
      | Some x =>
          if existsb (fun a => f64_lt (f64_abs (f64_sub a x)) EPSILON) allowed then Ok tt
          else Err (NotInEnum name (format_real x) (debug_list format_real allowed))
      end
  | KBool => match as_bool v with Some _ => Ok tt | None => Err (bad_type spec v "bool") end
  | KDerived _ => let? _ := value_to_xcfg_text spec v in Ok tt
  | KStrEnum allowed =>
      match as_str v with
      | None => Err (bad_type spec v "string")
      | Some s => if bool_decide (s ∈ allowed) then Ok tt else Err (NotInEnum name s (String.concat ", " allowed))
      end
  end.

(** ** The validation: [Params::from_json_str] *)

Fixpoint check_knobs (specs : list KnobSpec) (knobs : list (string * Value)) : result unit ParamsError :=
  match specs with
  | [] => Ok tt
  | spec :: specs =>
      match lookup_knob knobs (knob_name spec) with
      | None => Err (MissingKnob (knob_name spec))
      | Some v => let? _ := check_value spec v in check_knobs specs knobs
      end
  end.

Definition all_leaf_names (knobs : list (string * Value)) : list string :=
  concat (map (fun kv => leaf_names (snd kv) (fst kv)) knobs).

Fixpoint check_names (names : list string) : result unit ParamsError :=
  match names with
  | [] => Ok tt
  | name :: names => match knob_spec name with None => Err (UnknownKnob name) | Some _ => check_names names end
  end.

Definition check_exception (e : Exception) : result unit ParamsError :=
  match knob_spec (ex_knob e) with
  | None => Err (UnknownKnob (ex_knob e))
  | Some spec =>
      if negb (is_prefix (ex_at e)) then Err (ExceptionAtNotPrefix (at_text (ex_at e)))
      else
        let scope_depth := default (depth (scope spec)) (knob_scope_depth (ex_knob e)) in
        if (scope_depth <? at_depth (ex_at e))%nat then
          Err (ExceptionTooFine (ex_knob e) (at_text (ex_at e)) (at_depth (ex_at e)) scope_depth)
        else check_value spec (ex_value e)
  end.

Fixpoint check_exceptions (es : list Exception) (seen : list (string * string)) : result unit ParamsError :=
  match es with
  | [] => Ok tt
  | e :: es =>
      let? _ := check_exception e in
      let key := (ex_knob e, at_text (ex_at e)) in
      if bool_decide (key ∈ seen) then Err (DuplicateException (fst key) (snd key)) else check_exceptions es (seen ++ [key])
  end.

Definition validate_raw (raw : ParamsRaw) : result unit ParamsError :=
  if negb (bool_decide (raw_schema raw = SCHEMA_ID)) then Err (UnknownSchema (raw_schema raw))
  else if bool_decide (trim (raw_template raw) = EmptyString) then Err EmptyTemplate
  else
    let? _ := check_knobs KNOBS (raw_knobs raw) in
    let? _ := check_names (all_leaf_names (raw_knobs raw)) in
    check_exceptions (raw_exceptions raw) [].

Definition from_json_str (from_str : string -> result ParamsRaw string) (json : string) : result Params ParamsError :=
  match from_str json with
  | Err e => Err (JsonError e)
  | Ok raw =>
      let? _ := validate_raw raw in
      Ok (mkParams (raw_schema raw) (raw_template raw) (raw_knobs raw) (raw_exceptions raw) (raw_note raw) json)
  end.
End Schema.

Definition json_hash8 (sha256_hex : string -> string) (p : Params) : string := String.substring 0 8 (sha256_hex (raw_json p)).

(** ** The value of a channel *)

Definition at_matches (a : At) (asad_ aget_ ch_ : Z) : bool :=
  let ok o v := match o with Some x => x =? v | None => true end in ok (asad a) asad_ && ok (aget a) aget_ && ok (ch a) ch_.

(** The deepest exception that matches, the first of them. *)
Fixpoint best_match (es : list Exception) (knob : string) (asad_ aget_ ch_ : Z) (best : option (nat * Value)) : option (nat * Value) :=
  match es with
  | [] => best
  | e :: es =>
      if negb (bool_decide (ex_knob e = knob)) || negb (at_matches (ex_at e) asad_ aget_ ch_) then best_match es knob asad_ aget_ ch_ best
      else
        let d := at_depth (ex_at e) in
        let better := match best with Some (d', _) => (d' <? d)%nat | None => true end in
        best_match es knob asad_ aget_ ch_ (if better then Some (d, ex_value e) else best)
  end.

Definition effective_value (p : Params) (knob : string) (asad_ aget_ ch_ : Z) : option Value :=
  match lookup_knob (knobs p) knob with
  | None => None
  | Some uniform => Some (match best_match (exceptions p) knob asad_ aget_ ch_ None with Some (_, v) => v | None => uniform end)
  end.

(** ** What is accepted *)

Definition within {A : Type} (lt : A -> A -> Prop) (min max : option A) (x : A) : Prop :=
  (forall m, min = Some m -> ~ lt x m) /\ (forall m, max = Some m -> ~ lt m x).

(** A value of the type of its knob, in its range. *)
Definition value_ok (spec : KnobSpec) (v : Value) : Prop :=
  match kind spec with
  | KInt min max => exists n, v = Jint n /\ n < 2 ^ 63 /\ within Z.lt min max n
  | KIntEnum allowed => exists n, v = Jint n /\ n < 2 ^ 63 /\ n ∈ allowed
  | KReal min max => exists x, as_f64 v = Some x /\ within (fun a b => f64_lt a b = true) min max x
  | KRealEnum allowed => exists x a, as_f64 v = Some x /\ a ∈ allowed /\ f64_lt (f64_abs (f64_sub a x)) EPSILON = true
  | KStrEnum allowed => exists s, v = Jstr s /\ s ∈ allowed
  | KBool => exists b, v = Jbool b
  | KDerived table => exists s text, v = Jstr s /\ assoc s table = Some text
  end.

Definition exception_ok (e : Exception) : Prop :=
  exists spec, spec ∈ KNOBS /\ knob_name spec = ex_knob e /\
    (0 < at_depth (ex_at e) <= depth (scope spec))%nat /\ value_ok spec (ex_value e).

Definition exception_key (e : Exception) : string * string := (ex_knob e, at_text (ex_at e)).

Record valid_params (raw : ParamsRaw) : Prop := {
  schema_known : raw_schema raw = SCHEMA_ID;
  template_named : trim (raw_template raw) <> EmptyString;
  knobs_given : Forall (fun spec => exists v, lookup_knob (raw_knobs raw) (knob_name spec) = Some v /\ value_ok spec v) KNOBS;
  names_known : Forall (fun name => knob_spec name <> None) (all_leaf_names (raw_knobs raw));
  exceptions_ok : Forall exception_ok (raw_exceptions raw);
  exceptions_distinct : NoDup (map exception_key (raw_exceptions raw));
}.

(** What a refusal says of the file. *)
Definition bad_value (raw : ParamsRaw) (knob : string) : Prop :=
  exists spec v, spec ∈ KNOBS /\ knob_name spec = knob /\ ~ value_ok spec v /\
    (lookup_knob (raw_knobs raw) knob = Some v \/ exists e, e ∈ raw_exceptions raw /\ ex_knob e = knob /\ ex_value e = v).

Definition explains (raw : ParamsRaw) (e : ParamsError) : Prop :=
  match e with
  | UnknownSchema found => found = raw_schema raw /\ found <> SCHEMA_ID
  | EmptyTemplate => trim (raw_template raw) = EmptyString
  | MissingKnob knob => lookup_knob (raw_knobs raw) knob = None /\ exists spec, spec ∈ KNOBS /\ knob_name spec = knob
  | UnknownKnob knob => knob_spec knob = None /\
      (knob ∈ all_leaf_names (raw_knobs raw) \/ exists e, e ∈ raw_exceptions raw /\ ex_knob e = knob)
  | BadType knob _ _ | OutOfRange knob _ _ _ | NotInEnum knob _ _ => bad_value raw knob
  | ExceptionAtNotPrefix at_ => exists e, e ∈ raw_exceptions raw /\ at_text (ex_at e) = at_ /\ at_depth (ex_at e) = 0%nat
  | ExceptionTooFine knob at_ d sd => exists e spec, e ∈ raw_exceptions raw /\ spec ∈ KNOBS /\
      ex_knob e = knob /\ knob_name spec = knob /\ at_text (ex_at e) = at_ /\ at_depth (ex_at e) = d /\
      depth (scope spec) = sd /\ (sd < d)%nat
  | DuplicateException knob at_ => exists l1 e l2 e', raw_exceptions raw = l1 ++ e :: l2 /\ e' ∈ l1 /\
      exception_key e = (knob, at_) /\ exception_key e' = (knob, at_)
  | _ => False
  end.

(** Every knob of the table is found by its name, and only by it. *)
Lemma knob_specs_of spec : spec ∈ KNOBS -> knob_specs (knob_name spec) = [spec].
Proof. revert spec. apply list.Forall_forall. repeat constructor. Qed.

Lemma knob_spec_some name spec : knob_spec name = Some spec <-> spec ∈ KNOBS /\ knob_name spec = name.
Proof.
  unfold knob_spec. split.
  - intros H. destruct (knob_specs name) as [| k ks] eqn:E; [done |]. injection H as ->.
    assert (Hk : spec ∈ knob_specs name) by (rewrite E; by left). apply list_elem_of_filter in Hk. tauto.
  - intros [Hk <-]. by rewrite knob_specs_of.
Qed.

Lemma knob_depth spec : spec ∈ KNOBS -> knob_scope_depth (knob_name spec) = Some (depth (scope spec)).
Proof. intros Hk. unfold knob_scope_depth. by rewrite knob_specs_of. Qed.

Section Accepted.
Context (show_json : Value -> string) (show_f64 : f64 -> string).

Definition value_error (spec : KnobSpec) (e : ParamsError) : Prop :=
  match e with
  | BadType knob _ _ | OutOfRange knob _ _ _ | NotInEnum knob _ _ => knob = knob_name spec
  | _ => False
  end.

Lemma within_spec {A : Type} (ltb : A -> A -> bool) (lt : A -> A -> Prop) min max x :
  (forall a b, ltb a b = true <-> lt a b) -> (out_of ltb min max x = false <-> within lt min max x).
Proof.
  intros H. unfold out_of, within. rewrite orb_false_iff. split.
  - intros [H1 H2]. split; intros m ->; rewrite <- H; congruence.
  - intros [H1 H2]. split; [destruct min as [m |] | destruct max as [m |]]; try done; apply not_true_is_false; rewrite H; auto.
Qed.

Lemma check_value_decides spec v : decides (check_value show_json show_f64 spec v) (value_ok spec v) (value_error spec).
Proof.
  unfold check_value, value_ok. destruct (kind spec) as [min max | allowed | min max | allowed | allowed | | table] eqn:Ek.
  - destruct v; cbn; try (split; [done | intros (? & ? & _); done]). destruct (Z.ltb_spec n (2 ^ 63)).
    2: { split; [done | intros (? & [= <-] & ? & _); lia]. }
    destruct (out_of Z.ltb min max n) eqn:E; cbn.
    + split; [done |]. intros (? & [= <-] & _ & Hw). apply (within_spec Z.ltb) in Hw; [congruence |]. intros. apply Z.ltb_lt.
    + exists n. split_and!; [done | done |]. apply (within_spec Z.ltb); [| done]. intros. apply Z.ltb_lt.
  - destruct v; cbn; try (split; [done | intros (? & ? & _); done]). destruct (Z.ltb_spec n (2 ^ 63)).
    2: { split; [done | intros (? & [= <-] & ? & _); lia]. }
    case_bool_decide; cbn; [by exists n |]. split; [done | intros (? & [= <-] & _ & ?); done].
  - destruct (as_f64 v) as [x |] eqn:Ex; [| split; [done | intros (? & ? & _); congruence]].
    destruct (out_of f64_lt min max x) eqn:E; cbn.
    + split; [done |]. intros (? & [= <-] & Hw). apply (within_spec f64_lt) in Hw; [congruence | done].
    + exists x. split; [done |]. by apply (within_spec f64_lt).
  - destruct (as_f64 v) as [x |] eqn:Ex; [| split; [done | intros (? & ? & ? & _); congruence]].
    destruct (existsb _ allowed) eqn:E; cbn.
    + apply existsb_exists in E as (a & Ha & E). exists x, a. by rewrite list_elem_of_In.
    + split; [done |]. intros (? & a & [= <-] & Ha & Hlt). apply not_true_iff_false in E. apply E, existsb_exists.
      exists a. by rewrite <- list_elem_of_In.
  - destruct v; cbn; try (split; [done | intros (? & ? & _); done]).
    case_bool_decide; cbn; [by exists s |]. split; [done | intros (? & [= <-] & ?); done].
  - destruct v; cbn; try (split; [done | intros (? & ?); done]). by exists b.
  - unfold value_to_xcfg_text. rewrite Ek. destruct v; cbn; try (split; [done | intros (? & ? & ? & _); done]).
    destruct (assoc s table) as [text |] eqn:Es; cbn; [by exists s, text |]. split; [done |].
    intros (? & ? & [= <-] & ?). congruence.
Qed.

Lemma knobs_decide raw specs : (forall spec, spec ∈ specs -> spec ∈ KNOBS) ->
  decides (check_knobs show_json show_f64 specs (raw_knobs raw))
    (Forall (fun spec => exists v, lookup_knob (raw_knobs raw) (knob_name spec) = Some v /\ value_ok spec v) specs) (explains raw).
Proof.
  intros Hin. induction specs as [| spec specs IH]; cbn [check_knobs]; [constructor |].
  destruct (lookup_knob (raw_knobs raw) (knob_name spec)) as [v |] eqn:Ev.
  2: { split; [split; [done |]; exists spec; split; [apply Hin; by left | done] |]. intros [(? & ? & _) _]%list.Forall_cons. congruence. }
  eapply decides_iff; [apply (decides_and _ _ (value_ok spec v)) |].
  - eapply decides_mono; [apply check_value_decides |]. intros e He Hno.
    assert (Hb : bad_value raw (knob_name spec)).
    { exists spec, v. split_and!; [apply Hin; by left | done | done | by left]. }
    destruct e; cbn in He; try done; by subst.
  - intros _. apply IH. intros k Hk. apply Hin. by right.
  - rewrite list.Forall_cons, Ev. split; [intros [H1 H2]; split; [by exists v | done] | by intros [(? & [= <-] & ?) ?]].
Qed.

Lemma names_decide raw names : (forall n, n ∈ names -> n ∈ all_leaf_names (raw_knobs raw)) ->
  decides (check_names names) (Forall (fun name => knob_spec name <> None) names) (explains raw).
Proof.
  intros Hin. induction names as [| name names IH]; cbn [check_names]; [constructor |].
  destruct (knob_spec name) eqn:E.
  - eapply decides_iff; [apply IH; intros n Hn; apply Hin; by right |]. rewrite list.Forall_cons, E. split; [by intros | by intros []].
  - split; [split; [done |]; left; apply Hin; by left |]. intros [H _]%list.Forall_cons. done.
Qed.

Lemma exception_decides raw e : e ∈ raw_exceptions raw ->
  decides (check_exception show_json show_f64 e) (exception_ok e) (explains raw).
Proof.
  intros Hin. unfold check_exception, exception_ok. destruct (knob_spec (ex_knob e)) as [spec |] eqn:Es.
  2: { split; [split; [done |]; right; by exists e |]. intros (spec & Hk & Hn & _).
       assert (knob_spec (ex_knob e) = Some spec) by by apply knob_spec_some. congruence. }
  pose proof Es as [Hk Hn]%knob_spec_some. rewrite <- Hn, (knob_depth spec Hk). cbn [from_option]. unfold id.
  assert (Huniq : forall spec', spec' ∈ KNOBS -> knob_name spec' = knob_name spec -> spec' = spec).
  { intros spec' Hk' Hn'. assert (knob_spec (ex_knob e) = Some spec') by (apply knob_spec_some; split; [done | congruence]). congruence. }
  unfold is_prefix. destruct (Nat.ltb_spec 0 (at_depth (ex_at e))) as [Hd | Hd]; cbn [negb].
  2: { split; [exists e; split_and!; [done | done | clear -Hd; lia] |]. intros (? & _ & _ & ? & _). lia. }
  destruct (Nat.ltb_spec (depth (scope spec)) (at_depth (ex_at e))) as [Ht | Ht].
  { split; [exists e, spec; by split_and! |]. intros (spec' & Hk' & Hn' & ? & _). rewrite (Huniq spec' Hk' Hn') in *. lia. }
  eapply decides_iff; [eapply decides_mono; [apply check_value_decides |] |].
  - intros err He Hno. assert (Hb : bad_value raw (knob_name spec)).
    { exists spec, (ex_value e). split_and!; [done | done | done |]. right. by exists e. }
    destruct err; cbn in He; try done; by subst.
  - split; [intros Hv; by exists spec |]. intros (spec' & Hk' & Hn' & _ & Hv). by rewrite <- (Huniq spec' Hk' Hn').
Qed.

Lemma exceptions_decide raw es done_ : raw_exceptions raw = done_ ++ es ->
  decides (check_exceptions show_json show_f64 es (map exception_key done_))
    (Forall exception_ok es /\ NoDup (map exception_key es) /\ forall k, k ∈ map exception_key es -> k ∉ map exception_key done_)
    (explains raw).
Proof.
  revert done_. induction es as [| e es IH]; intros done_ Hraw; cbn [check_exceptions].
  { split_and!; [constructor | constructor | intros k Hk; by apply elem_of_nil in Hk]. }
  assert (Hin : e ∈ raw_exceptions raw) by (rewrite Hraw; apply elem_of_app; right; by left).
  eapply decides_iff; [apply decides_and; [apply (exception_decides raw e Hin) |] |].
  - intros _. fold (exception_key e). instantiate (1 := exception_key e ∉ map exception_key done_ /\
      Forall exception_ok es /\ NoDup (map exception_key es) /\ forall k, k ∈ map exception_key es -> k ∉ map exception_key (done_ ++ [e])).
    case_bool_decide as Hseen.
    + split; [| tauto]. apply list_elem_of_fmap in Hseen as (e' & Hk & He'). exists done_, e, es, e'.
      split_and!; [done | done | done | by rewrite <- Hk].
    + replace (map exception_key done_ ++ [exception_key e]) with (map exception_key (done_ ++ [e])) by by rewrite map_app.
      eapply decides_iff; [apply IH; by rewrite <- app_assoc |]. tauto.
  - cbn [map]. rewrite list.Forall_cons, list.NoDup_cons. setoid_rewrite elem_of_cons. rewrite map_app. setoid_rewrite elem_of_app.
    cbn [map]. setoid_rewrite list_elem_of_singleton. split.
    + intros (H1 & H2 & H3 & H4 & H5). split_and!; try done; [intros Hk; by apply (H5 _ Hk); right |].
      intros k [-> | Hk]; [done |]. intros Hd. apply (H5 k Hk). by left.
    + intros ((H1 & H2) & (H3 & H4) & H5). split_and!; try done; [apply H5; by left |].
      intros k Hk [Hd | ->]; [by apply (H5 k); [right |] | done].
Qed.

(** A parameter file is accepted exactly when it reads and is valid: the schema
    and the template are named, every knob has a value of its type and in its range,
    no leaf has another name, every exception is for a known knob, at a place no
    finer than the knob's own, with a good value, and no two are for the same place;
    and what is refused is refused for something that is wrong with it. *)
Theorem params_accepted (from_str : string -> result ParamsRaw string) (json : string) :
  match from_str json, from_json_str show_json show_f64 from_str json with
  | Err e, r => r = Err (JsonError e)
  | Ok raw, Ok p => valid_params raw /\
      p = mkParams (raw_schema raw) (raw_template raw) (raw_knobs raw) (raw_exceptions raw) (raw_note raw) json
  | Ok raw, Err e => ~ valid_params raw /\ explains raw e
  end.
Proof.
  unfold from_json_str. destruct (from_str json) as [raw | e]; [| done].
  assert (H : decides (validate_raw show_json show_f64 raw) (valid_params raw) (explains raw)).
  { unfold validate_raw. case_bool_decide as Hs; cbn [negb]; [| split; [done | by intros []]].
    case_bool_decide as Ht; [split; [done | by intros []] |].
    eapply decides_iff; [apply decides_and; [by apply knobs_decide |]; intros _; apply decides_and; [by apply names_decide |];
      intros _; by apply (exceptions_decide raw _ []) |].
    split.
    - intros (H1 & H2 & H3 & H4 & _). by split.
    - intros [_ _ H1 H2 H3 H4]. split_and!; try done. intros k _. apply not_elem_of_nil. }
  unfold decides in H. destruct (validate_raw show_json show_f64 raw) as [[] | e]; cbn; [done | tauto].
Qed.
End Accepted.

(** ** Two files that are accepted *)

Module GoodFile.

Definition knobs : list (string * Value) :=
  [("triggerDelay", Jint 100); ("writingClockFrequency_MHz", Jint 25); ("triggerMode", Jstr "external"); ("triggerPeriod_ms", Jint 10);
   ("globalThreshold", Jint 3); ("lsbThreshold", Jint 7); ("gain", Jstr "1pC"); ("triggerInhibition", Jstr "none");
   ("peakingTime_ns", Jint 502); ("readout", Jstr "full"); ("fpnRead", Jbool true);
   ("zeroSuppression", Jobject [("enabled", Jbool false); ("threshold", Jint 0)]);
   ("pulser", Jobject [("enabled", Jbool false); ("voltage_mV", Jint 0); ("period_ms", Jint 5)])].

Definition file (more : list (string * Value)) : ParamsRaw := mkParamsRaw SCHEMA_ID "configure-mini.xcfg" (more ++ knobs) [] None.
Definition accepted (raw : ParamsRaw) : bool :=
  match validate_raw (fun _ => EmptyString) (fun _ => EmptyString) raw with Ok _ => true | Err _ => false end.
End GoodFile.

(** A name that is no knob's is refused when it has a value, and accepted when it
    has an empty object: it has no leaf. *)
Example empty_object_accepted :
  GoodFile.accepted (GoodFile.file [("bogus", Jint 1)]) = false /\ GoodFile.accepted (GoodFile.file [("bogus", Jobject [])]) = true.
Proof. split; vm_compute; reflexivity. Qed.

(** A nested knob written with its dotted name is accepted, and ignored. *)
Example flat_key_ignored :
  GoodFile.accepted (GoodFile.file [("pulser.enabled", Jbool true)]) = true /\
  lookup_knob (raw_knobs (GoodFile.file [("pulser.enabled", Jbool true)])) "pulser.enabled" = Some (Jbool false).
Proof. split; vm_compute; reflexivity. Qed.
