(* ===== verification/Xcfg.v ===== *)
(** * Xcfg: the configuration file of the electronics as a tree of raw slices

    Models the tree of [src/params/render.rs]: elements that keep the text of their
    tags, everything else as it stands, read from the events of quick_xml and
    written back; and the operations on the children of an element.  The reader is
    quick_xml's: its events, each with the slice of the text it was read from, are
    an argument. *)

From Stdlib Require Import Ascii.
From stdpp Require Import strings.
From S2P Require Import Prelude Decimal Text Params.
Open Scope string_scope.
Open Scope list_scope.
Open Scope Z_scope.

(** ** The tree *)

Inductive Node : Type :=
| NElement (e : Element)
| NRaw (raw : string)
with Element : Type :=
| mkElement (name : string) (id : option string) (open_raw close_raw : string) (empty : bool) (children : list Node).

Definition el_name (e : Element) : string := let '(mkElement n _ _ _ _ _) := e in n.
Definition el_id (e : Element) : option string := let '(mkElement _ i _ _ _ _) := e in i.
Definition open_raw (e : Element) : string := let '(mkElement _ _ o _ _ _) := e in o.
Definition close_raw (e : Element) : string := let '(mkElement _ _ _ c _ _) := e in c.
Definition el_empty (e : Element) : bool := let '(mkElement _ _ _ _ b _) := e in b.
Definition children (e : Element) : list Node := let '(mkElement _ _ _ _ _ cs) := e in cs.

Definition set_children (e : Element) (cs : list Node) : Element :=
  mkElement (el_name e) (el_id e) (open_raw e) (close_raw e) (el_empty e) cs.
Definition set_close (e : Element) (raw : string) : Element :=
  mkElement (el_name e) (el_id e) (open_raw e) raw (el_empty e) (children e).

Definition new_virtual_root : Element := mkElement EmptyString None EmptyString EmptyString false [].

(** A child of this name, and with this id if one is asked for. *)
Definition is_child (name : string) (id : option string) (n : Node) : bool :=
  match n with
  | NElement e =>
      bool_decide (el_name e = name) &&
      match id with Some _ => bool_decide (el_id e = id) | None => true end
  | NRaw _ => false
  end.

Fixpoint position {A : Type} (p : A -> bool) (l : list A) : option nat :=
  match l with
  | [] => None
  | a :: l => if p a then Some O else match position p l with Some i => Some (S i) | None => None end
  end.

Definition find_child (e : Element) (name : string) (id : option string) : option nat :=
  position (is_child name id) (children e).

Definition element_at (e : Element) (i : nat) : option Element :=
  match children e !! i with
  | Some (NElement c) => Some c
  | _ => None
  end.

(** A child, as [extract] looks one up. *)
Definition child (e : Element) (name : string) (id : option string) : option Element :=
  match find_child e name id with
  | Some i => element_at e i
  | None => None
  end.

(** A step down: an element of a name, and of an id where one counts. *)
Definition place : Type := string * option string.

(** The element that a path leads to. *)
Fixpoint walk_path (path : list place) (e : Element) : option Element :=
  match path with
  | [] => Some e
  | s :: path => match child e (fst s) (snd s) with Some c => walk_path path c | None => None end
  end.

Fixpoint raw_text (cs : list Node) : string :=
  match cs with
  | [] => EmptyString
  | NRaw raw :: cs => raw +:+ raw_text cs
  | NElement _ :: cs => raw_text cs
  end.

(** The text of the element that a path leads to. *)
Definition text_at (path : list place) (e : Element) : option string :=
  match walk_path path e with
  | Some c => Some (raw_text (children c))
  | None => None
  end.

(** What a borrow of a child leaves behind. *)
Definition put_child (e : Element) (i : nat) (c : Element) : Element := set_children e (<[i := NElement c]> (children e)).

(** The children of a name, each replaced. *)
Definition each_child (name : string) (f : Element -> Element) (e : Element) : Element :=
  set_children e (map (fun n => match n with
                                | NElement c => if bool_decide (el_name c = name) then NElement (f c) else n
                                | NRaw _ => n
                                end) (children e)).

Fixpoint has_newline (s : string) : bool :=
  match s with
  | EmptyString => false
  | String c s => (c =? "010")%char || has_newline s
  end.

(** White space with a line end in it. *)
Definition blank_line (n : Node) : bool :=
  match n with
  | NRaw raw => bool_decide (trim raw = EmptyString) && has_newline raw
  | NElement _ => false
  end.

Definition remove_child (e : Element) (i : nat) : Element :=
  let cs := delete i (children e) in
  set_children e
    (match i with
     | O => cs
     | S j => match cs !! j with Some n => if blank_line n then delete j cs else cs | None => cs end
     end).

(** ** Tags *)

(** [trim_start_matches(c)] of a character, [trim_end_matches(p)] of a text, and
    [trim_end]. *)
Fixpoint trim_start_char (c : ascii) (s : string) : string :=
  match s with
  | String a s' => if (a =? c)%char then trim_start_char c s' else s
  | EmptyString => EmptyString
  end.

Fixpoint trim_end_fuel (fuel : nat) (p s : string) : string :=
  match fuel with
  | O => s
  | S fuel => match strip_suffix p s with Some s => trim_end_fuel fuel p s | None => s end
  end.
Definition trim_end_text (p s : string) : string := trim_end_fuel (String.length s) p s.

Definition trim_end (s : string) : string :=
  bytes_text (rev (trim_front (map (@rev Z) WHITE_SPACE) (rev (text_bytes s)))).

(** The opening tag of an element that was empty. *)
Definition opened (raw : string) : string :=
  "<" +:+ trim_end (trim_end_text "/>" (trim_start_char "<"%char raw)) +:+ ">".

Definition closing (name : string) : string := "</" +:+ name +:+ ">".

Definition set_text (e : Element) (text : string) : Element :=
  if el_empty e then mkElement (el_name e) (el_id e) (opened (open_raw e)) (closing (el_name e)) false [NRaw text]
  else set_children e [NRaw text].

Fixpoint tabs (n : nat) : string :=
  match n with
  | O => EmptyString
  | S n => String "009" (tabs n)
  end.
Definition indent (n : nat) : string := String "010" (tabs n).

Definition append_child (e : Element) (c : Element) (depth : nat) : Element :=
  let e := if el_empty e then mkElement (el_name e) (el_id e) (opened (open_raw e)) (closing (el_name e)) false [] else e in
  let closing_ws := match list.last (children e) with Some n => blank_line n | None => false end in
  let at_ := if closing_ws then (length (children e) - 1)%nat else length (children e) in
  let cs := take at_ (children e) ++ [NRaw (indent depth); NElement c] ++ drop at_ (children e) in
  set_children e (if closing_ws then cs else cs ++ [NRaw (indent (depth - 1))]).

Definition new_element (name : string) (id : option string) : Element :=
  mkElement name id
    (match id with
     | Some id => "<" +:+ name +:+ " id=" +:+ String "034" (id +:+ String "034" ">")
     | None => "<" +:+ name +:+ ">"
     end) (closing name) false [].

(** ** Reading and writing *)

(** The events of quick_xml: a start or empty tag comes with its name and the value
    of its [id]; whatever is neither a tag nor the end of the text is raw. *)
Inductive Event : Type :=
| EvStart (name : string) (id : option string)
| EvEmpty (name : string) (id : option string)
| EvEnd
| EvOther.

(** A node for the element that is open. *)
Definition push_child (stack : list Element) (n : Node) : result (list Element) ParamsError :=
  match stack with
  | [] => Err (Xml "no open element")
  | e :: stack => Ok (set_children e (children e ++ [n]) :: stack)
  end.

(** One event, as the loop takes it. *)
Definition take_event (ev : Event) (raw : string) (stack : list Element) : result (list Element) ParamsError :=
  match ev with
  | EvStart name id => Ok (mkElement name id raw EmptyString false [] :: stack)
  | EvEmpty name id => push_child stack (NElement (mkElement name id raw EmptyString true []))
  | EvEnd =>
      match stack with
      | [] => Err (Xml "unbalanced end tag")
      | e :: stack => push_child stack (NElement (set_close e raw))
      end
  | EvOther => push_child stack (NRaw raw)
  end.

(** The loop: the innermost element first; [broken] is what ends the text early. *)
Fixpoint parse_events (evs : list (Event * string)) (broken : option string) (stack : list Element)
    : result (list Element) ParamsError :=
  match evs with
  | [] => match broken with Some e => Err (Xml e) | None => Ok stack end
  | (ev, raw) :: evs =>
      let? stack := take_event ev raw stack in parse_events evs broken stack
  end.

Definition parse (read_events : string -> list (Event * string) * option string) (xml : string) : result Element ParamsError :=
  let '(evs, broken) := read_events xml in
  let? stack := parse_events evs broken [new_virtual_root] in
  match stack with
  | [root] => Ok root
  | _ => Err (Xml "unbalanced start tag")
  end.

Fixpoint write_node (n : Node) : string :=
  match n with
  | NRaw raw => raw
  | NElement (mkElement _ _ open_ close_ empty_ cs) =>
      open_ +:+ (if empty_ then EmptyString
                 else (fix go (cs : list Node) : string := match cs with [] => EmptyString | c :: cs => write_node c +:+ go cs end) cs +:+ close_)
  end.

Fixpoint write_children (cs : list Node) : string := match cs with [] => EmptyString | c :: cs => write_node c +:+ write_children cs end.
Definition serialize (root : Element) : string := write_children (children root).

(** ** The children of an element *)

Definition elements (cs : list Node) : list Element :=
  omap (fun n => match n with NElement c => Some c | NRaw _ => None end) cs.
Definition kids (e : Element) : list Element := elements (children e).

Definition answers (s : place) (c : Element) : bool := is_child (fst s) (snd s) (NElement c).

Definition same_tag (c c' : Element) : Prop := el_name c' = el_name c /\ el_id c' = el_id c.

Lemma elements_app cs cs' : elements (cs ++ cs') = elements cs ++ elements cs'.
Proof. apply list.omap_app. Qed.

Lemma answers_spec s c : answers s c = true <-> el_name c = fst s /\ (snd s = None \/ el_id c = snd s).
Proof.
  unfold answers, is_child. rewrite andb_true_iff, bool_decide_eq_true. destruct (snd s) as [i |] eqn:E; [rewrite bool_decide_eq_true |];
    intuition congruence.
Qed.

Lemma answers_tag s c c' : same_tag c c' -> answers s c' = answers s c.
Proof. intros [Hn Hi]. unfold answers, is_child. by rewrite Hn, Hi. Qed.

(** The position found parts the children. *)
Lemma position_parts s cs : match position (is_child (fst s) (snd s)) cs with
  | None => Forall (fun c => answers s c = false) (elements cs)
  | Some i => exists c l1 l2, cs !! i = Some (NElement c) /\ answers s c = true /\ elements (take i cs) = l1 /\
      elements (drop (S i) cs) = l2 /\ elements cs = l1 ++ c :: l2 /\ Forall (fun c => answers s c = false) l1
  end.
Proof.
  induction cs as [| n cs IH]; cbn [position]; [constructor |].
  destruct (is_child (fst s) (snd s) n) eqn:E.
  { destruct n as [c | raw]; [| done]. exists c, [], (elements cs). by split_and!. }
  destruct (position (is_child (fst s) (snd s)) cs) as [i |].
  - destruct IH as (c & l1 & l2 & Hi & Ha & H1 & H2 & He & Hno). destruct n as [d | raw].
    + exists c, (d :: l1), l2. split_and!; [done | done | | done | | by constructor]; cbn; [by rewrite <- H1 | by rewrite <- He].
    + exists c, l1, l2. by split_and!.
  - destruct n as [d | raw]; [by constructor | done].
Qed.

Lemma elements_insert (cs : list Node) i n : (i < length cs)%nat -> elements (<[i := n]> cs) = elements (take i cs) ++ elements [n] ++ elements (drop (S i) cs).
Proof. intros Hi. rewrite insert_take_drop by done. by rewrite cons_middle, !elements_app. Qed.

Lemma elements_raw n : match n with NRaw _ => elements [n] = [] | NElement c => elements [n] = [c] end.
Proof. by destruct n. Qed.

Lemma elements_delete_raw (cs : list Node) i n : cs !! i = Some n -> blank_line n = true -> elements (delete i cs) = elements cs.
Proof.
  intros Hi Hb. rewrite delete_take_drop, elements_app. rewrite <- (take_drop_middle cs i n Hi) at 3.
  rewrite elements_app. destruct n as [c | raw]; done.
Qed.

Lemma kids_remove e i : (i < length (children e))%nat ->
  kids (remove_child e i) = elements (take i (children e)) ++ elements (drop (S i) (children e)).
Proof.
  intros Hi. unfold remove_child, kids. cbn [set_children children].
  assert (Hd : elements (delete i (children e)) = elements (take i (children e)) ++ elements (drop (S i) (children e)))
    by by rewrite delete_take_drop, elements_app.
  destruct i as [| j]; [done |]. destruct (delete (S j) (children e) !! j) as [n |] eqn:En; [| done].
  destruct (blank_line n) eqn:Eb; [| done]. by rewrite (elements_delete_raw _ _ _ En Eb).
Qed.

(** The child at a place: the first that answers, and what the operations there do. *)
Lemma find_child_some e s i : find_child e (fst s) (snd s) = Some i -> exists c l1 l2,
  element_at e i = Some c /\ child e (fst s) (snd s) = Some c /\ answers s c = true /\
  kids e = l1 ++ c :: l2 /\ Forall (fun c => answers s c = false) l1 /\
  (forall c', kids (put_child e i c') = l1 ++ c' :: l2) /\ kids (remove_child e i) = l1 ++ l2.
Proof.
  intros H. pose proof (position_parts s (children e)) as Hp. unfold child. rewrite H. unfold find_child in H. rewrite H in Hp.
  destruct Hp as (c & l1 & l2 & Hi & Ha & H1 & H2 & He & Hno). exists c, l1, l2. unfold element_at. rewrite Hi.
  pose proof (lookup_lt_Some _ _ _ Hi) as Hlt. split_and!; try done.
  - intros c'. unfold put_child, kids. cbn [set_children children]. rewrite elements_insert by done. by rewrite H1, H2.
  - by rewrite kids_remove, H1, H2.
Qed.

Lemma find_child_none e s : find_child e (fst s) (snd s) = None -> child e (fst s) (snd s) = None /\ Forall (fun c => answers s c = false) (kids e).
Proof. intros H. pose proof (position_parts s (children e)) as Hp. unfold child. rewrite H. unfold find_child in H. by rewrite H in Hp. Qed.

Lemma child_find e s : child e (fst s) (snd s) = List.find (answers s) (kids e).
Proof.
  assert (Hskip : forall l1 l2, Forall (fun c => answers s c = false) l1 -> List.find (answers s) (l1 ++ l2) = List.find (answers s) l2).
  { intros l1 l2. induction 1 as [| c l1 Hc _ IH]; [done |]. cbn [List.find app]. by rewrite Hc. }
  destruct (find_child e (fst s) (snd s)) as [i |] eqn:E.
  - destruct (find_child_some e s i E) as (c & l1 & l2 & _ & -> & Ha & -> & Hno & _). rewrite Hskip by done. cbn [List.find app]. by rewrite Ha.
  - destruct (find_child_none e s E) as [-> Hno]. rewrite <- (app_nil_r (kids e)), Hskip by done. done.
Qed.

Lemma child_answers e s c : child e (fst s) (snd s) = Some c -> answers s c = true /\ c ∈ kids e.
Proof. rewrite child_find. intros [Hc Ha]%find_some. by rewrite list_elem_of_In. Qed.

(** Two places that no element answers both of. *)
Definition apart (s t : place) : bool :=
  negb (bool_decide (fst s = fst t)) ||
  match snd s, snd t with
  | Some i, Some j => negb (bool_decide (i = j))
  | _, _ => false
  end.

Lemma apart_answers s t c : apart s t = true -> answers t c = true -> answers s c = false.
Proof.
  intros Hap [Hn Hi]%answers_spec. apply not_true_is_false. intros [Hn' Hi']%answers_spec. unfold apart in Hap.
  apply orb_true_iff in Hap as [Hap%negb_true_iff%bool_decide_eq_false | Hap]; [congruence |].
  destruct (snd s) as [i |], (snd t) as [j |]; try done. apply negb_true_iff, bool_decide_eq_false in Hap.
  destruct Hi as [? | Hi], Hi' as [? | Hi']; try done. congruence.
Qed.

Lemma child_put e s i c c' t : find_child e (fst s) (snd s) = Some i -> element_at e i = Some c -> same_tag c c' ->
  (child (put_child e i c') (fst s) (snd s) = Some c') /\
  (apart t s = true -> child (put_child e i c') (fst t) (snd t) = child e (fst t) (snd t)).
Proof.
  intros Hf He Htag. destruct (find_child_some e s i Hf) as (d & l1 & l2 & He' & _ & Ha & Hk & Hno & Hput & _).
  rewrite He in He'. injection He' as <-. pose proof (answers_tag s c c' Htag) as Ha'. rewrite !child_find, Hput, Hk. split.
  - clear -Hno Ha Ha'. induction Hno as [| d l1 Hd _ IH]; cbn [List.find app map]; [by rewrite Ha', Ha | by rewrite Hd].
  - intros Hap. assert (Hc : answers t c = false) by by apply (apart_answers t s).
    assert (Hc' : answers t c' = false) by (rewrite (answers_tag t c c' Htag); exact Hc).
    clear -Hc Hc'. induction l1 as [| d l1 IH]; cbn [List.find app map]; [by rewrite Hc, Hc' |]. by destruct (answers t d).
Qed.

Lemma child_remove e s i c t : find_child e (fst s) (snd s) = Some i -> element_at e i = Some c ->
  apart t s = true -> child (remove_child e i) (fst t) (snd t) = child e (fst t) (snd t).
Proof.
  intros Hf He Hap. destruct (find_child_some e s i Hf) as (d & l1 & l2 & He' & _ & Ha & Hk & Hno & _ & Hrem).
  rewrite He in He'. injection He' as <-. rewrite !child_find, Hrem, Hk.
  assert (Hc : answers t c = false) by by apply (apart_answers t s).
  clear -Hc. induction l1 as [| d l1 IH]; cbn [List.find app map]; [by rewrite Hc |]. by destruct (answers t d).
Qed.

Lemma kids_append e c d : kids (append_child e c d) = (if el_empty e then [] else kids e) ++ [c].
Proof.
  unfold append_child, kids. set (e' := if el_empty e then _ else e).
  replace (if el_empty e then [] else elements (children e)) with (elements (children e')) by (subst e'; by destruct (el_empty e)).
  generalize (children e') as cs. intros cs. cbn [set_children children].
  destruct (list.last cs) as [n |] eqn:El; [destruct (blank_line n) eqn:Eb |].
  - apply last_Some in El as [l ->]. rewrite length_app. cbn [length]. replace (length l + 1 - 1)%nat with (length l) by lia.
    rewrite take_app_length, drop_app_length, !elements_app. destruct n as [|]; [done |]. cbn. by rewrite !app_nil_r.
  - rewrite firstn_all, drop_all, !elements_app. cbn. by rewrite app_nil_r.
  - rewrite firstn_all, drop_all, !elements_app. cbn. by rewrite app_nil_r.
Qed.

Lemma child_append e c d t : (el_empty e = true -> children e = []) ->
  child (append_child e c d) (fst t) (snd t) =
  match child e (fst t) (snd t) with Some c' => Some c' | None => if answers t c then Some c else None end.
Proof.
  intros He. rewrite !child_find, kids_append.
  replace (if el_empty e then [] else kids e) with (kids e) by (unfold kids; destruct (el_empty e); [by rewrite He | done]).
  induction (kids e) as [| d' l IH]; cbn [List.find app map]; [done |]. by destruct (answers t d').
Qed.

Lemma kids_each name f e : kids (each_child name f e) = map (fun c => if bool_decide (el_name c = name) then f c else c) (kids e).
Proof.
  unfold each_child, kids. cbn [set_children children]. induction (children e) as [| [c | raw] cs IH];  [done | | done].
  cbn [map]. destruct (bool_decide (el_name c = name)) eqn:E;
    change (elements (NElement c :: cs)) with (c :: elements cs); cbn [map]; rewrite E, <- IH; done.
Qed.

Lemma child_each name f e t : (forall c, same_tag c (f c)) ->
  child (each_child name f e) (fst t) (snd t) =
  match child e (fst t) (snd t) with Some c => Some (if bool_decide (fst t = name) then f c else c) | None => None end.
Proof.
  intros Hf. rewrite !child_find, kids_each. induction (kids e) as [| c l IH]; cbn [List.find app map]; [done |].
  assert (Ha : answers t (if bool_decide (el_name c = name) then f c else c) = answers t c).
  { destruct (bool_decide (el_name c = name)); [by apply answers_tag | reflexivity]. }
  rewrite Ha. destruct (answers t c) eqn:E; [| exact IH]. apply answers_spec in E as [E _]. by rewrite E.
Qed.

(** ** What is written is what was read *)

Lemma write_element e :
  write_node (NElement e) = open_raw e +:+ (if el_empty e then EmptyString else write_children (children e) +:+ close_raw e).
Proof. destruct e as [n i o c b cs]. done. Qed.

Lemma write_children_app l l' : write_children (l ++ l') = write_children l +:+ write_children l'.
Proof. induction l as [| n l IH]; [done |]. cbn [app write_children]. by rewrite IH, append_assoc. Qed.

Fixpoint joined (ss : list string) : string := match ss with [] => EmptyString | s :: ss => s +:+ joined ss end.

(** The text of a stack of open elements: outermost first, their ends to come. *)
Fixpoint stack_text (stack : list Element) : string :=
  match stack with
  | [] => EmptyString
  | e :: stack => stack_text stack +:+ open_raw e +:+ write_children (children e)
  end.

(** The elements are open, the last is the root. *)
Definition stack_open (stack : list Element) : Prop :=
  Forall (fun e => el_empty e = false) stack /\ from_option open_raw EmptyString (list.last stack) = EmptyString.

Lemma stack_open_push e stack : stack <> [] -> el_empty e = false -> stack_open stack -> stack_open (e :: stack).
Proof. intros Hne He [Hs Hr]. split; [by constructor |]. by destruct stack. Qed.

Lemma stack_open_pop e stack : stack <> [] -> stack_open (e :: stack) -> stack_open stack.
Proof. intros Hne [[_ Hs]%list.Forall_cons Hr]. split; [done |]. by destruct stack. Qed.

Lemma push_child_open stack n stack' : push_child stack n = Ok stack' -> stack_open stack -> stack_open stack' /\ stack' <> [].
Proof.
  destruct stack as [| e stack]; [done |]. intros [= <-] [[He Hs]%list.Forall_cons Hr]. split; [| done].
  split; [by constructor |]. by destruct stack.
Qed.

Lemma text_nil_r (s : string) : s +:+ EmptyString = s.
Proof. induction s as [| c s IH]; [done |]. by rewrite append_cons, IH. Qed.

Lemma push_child_text stack n stack' : push_child stack n = Ok stack' -> stack_text stack' = stack_text stack +:+ write_node n.
Proof.
  destruct stack as [| e stack]; [done |]. intros [= <-]. cbn [stack_text]. destruct e as [nm i o c b cs]. cbn [set_children children open_raw].
  rewrite write_children_app, !append_assoc. cbn [write_children]. by rewrite text_nil_r.
Qed.

Lemma take_event_text ev raw stack stack' : take_event ev raw stack = Ok stack' -> stack <> [] -> stack_open stack ->
  stack_text stack' = stack_text stack +:+ raw /\ stack_open stack' /\ stack' <> [].
Proof.
  intros H Hne Hs. destruct ev as [name id | name id | |]; cbn [take_event] in H.
  - injection H as <-. split_and!; [| by apply stack_open_push | done]. cbn. by rewrite text_nil_r.
  - rewrite (push_child_text _ _ _ H), write_element. cbn. rewrite text_nil_r. split; [done |]. by apply (push_child_open _ _ _ H).
  - destruct stack as [| e stack]; [done |]. assert (Hne' : stack <> []) by by destruct stack.
    rewrite (push_child_text _ _ _ H), write_element. split; [| apply (push_child_open _ _ _ H); by apply (stack_open_pop e)].
    destruct Hs as [[He _]%list.Forall_cons _]. destruct e as [nm i o c b cs]. cbn in *. rewrite He. by rewrite !append_assoc.
  - rewrite (push_child_text _ _ _ H). split; [done |]. by apply (push_child_open _ _ _ H).
Qed.

Lemma parse_events_text evs broken stack stack' : parse_events evs broken stack = Ok stack' -> stack <> [] -> stack_open stack ->
  broken = None /\ stack_text stack' = stack_text stack +:+ joined (map snd evs) /\ stack_open stack'.
Proof.
  revert stack. induction evs as [| [ev raw] evs IH]; intros stack; cbn [parse_events].
  { destruct broken; [done |]. intros [= <-] _ Hs. cbn. by rewrite text_nil_r. }
  intros H Hne Hs. destruct (take_event ev raw stack) as [stack1 |] eqn:E; [| done].
  destruct (take_event_text _ _ _ _ E Hne Hs) as (Ht & Ho & Hne1). destruct (IH _ H Hne1 Ho) as (-> & -> & Ho').
  cbn [map snd joined]. by rewrite Ht, append_assoc.
Qed.

(** A template that is read is written back as it was, byte for byte, whatever
    is in it. *)
Theorem parse_serialize (read_events : string -> list (Event * string) * option string) (xml : string) (root : Element)
    (Hslices : forall evs, read_events xml = (evs, None) -> joined (map snd evs) = xml)
    (Hparse : parse read_events xml = Ok root) :
  serialize root = xml.
Proof.
  unfold parse in Hparse. destruct (read_events xml) as [evs broken].
  destruct (parse_events evs broken [new_virtual_root]) as [stack |] eqn:E; [| done].
  destruct (parse_events_text _ _ _ _ E) as (-> & Ht & Ho); [done | by split; repeat constructor |].
  destruct stack as [| r [|]]; [done | | done]. injection Hparse as ->. rewrite (Hslices evs eq_refl) in Ht.
  destruct Ho as [_ Hr]. cbn in Hr, Ht. by rewrite Hr in Ht.
Qed.

(** The reader on one text: its slices, cut where quick_xml cuts them. *)
Definition sample_events (xml : string) : list (Event * string) * option string :=
  ([(EvStart "Setup" None, "<Setup>"); (EvOther, " "); (EvEmpty "Node" (Some "CoBo"), "<Node id='CoBo' />");
    (EvOther, "<!-- x -->"); (EvEnd, "</Setup >")], None).

Lemma parse_serialize_witness :
  (forall evs, sample_events "<Setup> <Node id='CoBo' /><!-- x --></Setup >" = (evs, None) ->
     joined (map snd evs) = "<Setup> <Node id='CoBo' /><!-- x --></Setup >") /\
  exists root, parse sample_events "<Setup> <Node id='CoBo' /><!-- x --></Setup >" = Ok root /\
    serialize root = "<Setup> <Node id='CoBo' /><!-- x --></Setup >".
Proof.
  assert (H : forall evs, sample_events "<Setup> <Node id='CoBo' /><!-- x --></Setup >" = (evs, None) ->
     joined (map snd evs) = "<Setup> <Node id='CoBo' /><!-- x --></Setup >") by (intros evs [= <-]; by vm_compute).
  split; [exact H |]. eexists. split; [by vm_compute |]. apply (parse_serialize sample_events); [exact H | by vm_compute].
Defined.
