(* ===== verification/Render.v ===== *)
(** * Render: the parameters written into a template

    Models [render] of [src/params/render.rs]: the CoBo of the template, the ids it
    holds, the removal of every managed value from the nodes with an explicit id,
    the uniform values on the chain of [*], and the exceptions on the nodes they name.
    [xml_escape] is quick_xml's; the hash of the parameter file is an argument. *)

From Stdlib Require Import Ascii.
From stdpp Require Import strings.
From S2P Require Import Prelude Decimal Text Checks Float Params Xcfg.
Open Scope string_scope.
Open Scope list_scope.
Open Scope Z_scope.

(** ** The template *)

(** [Setup] and the [Node] of the CoBo below it: the places, and the element. *)
Definition find_cobo_node (doc : Element) : result (nat * nat * Element) ParamsError :=
  match find_child doc "Setup" None with
  | None => Err (TemplateShape "ルート要素 Setup が無い")
  | Some s =>
      match element_at doc s with
      | None => Err (TemplateShape "ルート要素 Setup が無い")
      | Some setup =>
          match find_child setup NODE (Some COBO) with
          | None => Err (TemplateShape (NODE +:+ "[" +:+ COBO +:+ "] が無い"))
          | Some n =>
              match element_at setup n with
              | None => Err (TemplateShape (NODE +:+ "[" +:+ COBO +:+ "] が無い"))
              | Some cobo => Ok (s, n, cobo)
              end
          end
      end
  end.

Definition put_cobo (doc : Element) (s n : nat) (cobo : Element) : Element :=
  match element_at doc s with
  | Some setup => put_child doc s (put_child setup n cobo)
  | None => doc
  end.

Definition children_named (e : Element) (name : string) : list Element :=
  concat (map (fun n => match n with NElement c => if bool_decide (el_name c = name) then [c] else [] | NRaw _ => [] end) (children e)).

Definition has_10ns (instance : Element) : bool :=
  match child instance "Module" None with
  | Some module => match find_child module "triggerPeriod_10ns" None with Some _ => true | None => false end
  | None => false
  end.

Definition check_no_trigger_period_10ns (cobo : Element) : result unit ParamsError :=
  if existsb has_10ns (children_named cobo INSTANCE) then
    Err (TemplateShape ("Module.triggerPeriod_10ns があると GET は triggerPeriod を無視する" +:+
                        "(CoBoNode::setTriggerPeriod)— テンプレートから外してください"))
  else Ok tt.

(** ** The ids of the template *)

(** The explicit ids of the elements of a name, wherever they are. *)
Fixpoint collect_ids (n : Node) (name : string) : list string :=
  match n with
  | NRaw _ => []
  | NElement (mkElement nm id _ _ _ cs) =>
      (if bool_decide (nm = name) then match id with Some id => if bool_decide (id = STAR) then [] else [id] | None => [] end else []) ++
      (fix go (cs : list Node) : list string := match cs with [] => [] | c :: cs => collect_ids c name ++ go cs end) cs
  end.

(** A [BTreeSet] of texts, and the stable sort by number. *)
Fixpoint set_insert (s : string) (l : list string) : list string :=
  match l with
  | [] => [s]
  | t :: l => if bool_decide (s = t) then t :: l else if String.ltb s t then s :: t :: l else t :: set_insert s l
  end.

Definition id_key (id : string) : Z := default (2 ^ 63 - 1) (parse_int 64 id).

Fixpoint key_insert (s : string) (l : list string) : list string :=
  match l with
  | [] => [s]
  | t :: l => if id_key t <=? id_key s then t :: key_insert s l else s :: t :: l
  end.

Definition sorted_ids (ids : list string) : list string :=
  foldl (fun l s => key_insert s l) [] (foldl (fun l s => set_insert s l) [] ids).

(** [TemplateIds]: the AsAds, the Agets, the channels. *)
Definition TemplateIds : Type := list (list string).

Definition ids_below (cobo : Element) (name : string) : list string :=
  concat (map (fun n => collect_ids n name) (children cobo)).

Definition collect (cobo : Element) : TemplateIds := map (fun name => sorted_ids (ids_below cobo name)) [ASAD; AGET; CHANNEL].

Definition ids_at_depth (t : TemplateIds) (d : nat) : list string := default [] (t !! (d - 1)%nat).

Definition level_name (d : nat) : string := default CHANNEL (element_at_depth d).

(** One level more for every target: each of the ids there. *)
Definition one_level (ids : list string) (targets : list (list string)) : list (list string) :=
  concat (map (fun prefix => map (fun id => prefix ++ [id]) ids) targets).

Fixpoint expand_levels (t : TemplateIds) (a : At) (knob : string) (n d : nat) (targets : list (list string))
    : result (list (list string)) ParamsError :=
  match n with
  | O => Ok targets
  | S n =>
      match ids_at_depth t d with
      | [] => Err (CannotExpandException knob (at_text a) (level_name d))
      | ids => expand_levels t a knob n (S d) (one_level ids targets)
      end
  end.

Definition expand (t : TemplateIds) (a : At) (spec : KnobSpec) (knob : string) : result (list (list string)) ParamsError :=
  expand_levels t a knob (depth (scope spec) - at_depth a) (S (at_depth a)) [at_ids a].

Fixpoint check_levels (t : TemplateIds) (levels : list (nat * option Z)) : result unit ParamsError :=
  match levels with
  | [] => Ok tt
  | (_, None) :: levels => check_levels t levels
  | (d, Some v) :: levels =>
      if bool_decide (dec v ∈ ids_at_depth t d) then check_levels t levels
      else Err (TargetNotInTemplate (level_name d) (dec v))
  end.

Fixpoint check_exception_targets (t : TemplateIds) (es : list Exception) : result unit ParamsError :=
  match es with
  | [] => Ok tt
  | e :: es =>
      let? _ := check_levels t [(1%nat, asad (ex_at e)); (2%nat, aget (ex_at e)); (3%nat, ch (ex_at e))] in
      check_exception_targets t es
  end.

(** ** Removing and writing *)

(** The leaf below a node, by the names that lead to it. *)
Fixpoint remove_suffix (suffix : list string) (e : Element) : Element :=
  match suffix with
  | [] => e
  | [leaf] => match find_child e leaf None with Some i => remove_child e i | None => e end
  | name :: suffix =>
      match find_child e name None with
      | Some i => match element_at e i with Some c => put_child e i (remove_suffix suffix c) | None => e end
      | None => e
      end
  end.

(** The nodes [n] levels further down, each with whether only [*] leads to it. *)
Fixpoint for_each_scope_node (n current : nat) (all_star : bool) (f : bool -> Element -> Element) (e : Element) : Element :=
  match n with
  | O => f all_star e
  | S n =>
      match element_at_depth (S current) with
      | None => e
      | Some name =>
          each_child name
            (fun c => for_each_scope_node n (S current) (all_star && bool_decide (el_id c = Some STAR)) f c) e
      end
  end.

Definition remove_knob_from_explicit_nodes (spec : KnobSpec) (cobo : Element) : Element :=
  each_child INSTANCE
    (fun instance =>
       for_each_scope_node (depth (scope spec)) 0 (bool_decide (el_id instance = Some STAR))
         (fun all_star node => if all_star then node else remove_suffix (suffix spec) node) instance) cobo.

Definition place_text (s : place) : string :=
  fst s +:+ match snd s with Some id => "[" +:+ id +:+ "]" | None => "" end.

(** The child at a place, made if it is not there. *)
Definition child_or_new (s : place) (depth : nat) (e : Element) : result (Element * nat) ParamsError :=
  match find_child e (fst s) (snd s) with
  | Some i => Ok (e, i)
  | None =>
      let e := append_child e (new_element (fst s) (snd s)) depth in
      match find_child e (fst s) (snd s) with
      | Some i => Ok (e, i)
      | None => Err (TemplateShape (place_text s +:+ " を作れなかった"))
      end
  end.

Definition set_leaf (leaf : string) (depth : nat) (text : string) (e : Element) : Element :=
  match find_child e leaf None with
  | Some i => match element_at e i with Some c => put_child e i (set_text c text) | None => e end
  | None => append_child e (set_children (new_element leaf None) [NRaw text]) depth
  end.

(** Down the levels and the parents of the leaf, then the leaf. *)
Fixpoint write_at (steps : list place) (leaf : option string) (depth : nat) (text : string) (e : Element) : result Element ParamsError :=
  match steps with
  | [] => Ok (match leaf with Some leaf => set_leaf leaf (S depth) text e | None => e end)
  | s :: steps =>
      let? (e, i) := child_or_new s (S depth) e in
      match element_at e i with
      | None => Err (TemplateShape (place_text s +:+ " が要素でない"))
      | Some c => let? c := write_at steps leaf (S depth) text c in Ok (put_child e i c)
      end
  end.

(** The levels [d..] of a scope: the ids given, [*] for the rest. *)
Fixpoint level_steps (n d : nat) (ids : list string) : list place :=
  match n with
  | O => []
  | S n => (level_name d, Some (default STAR (head ids))) :: level_steps n (S d) (tail ids)
  end.

Definition write_knob (spec : KnobSpec) (ids : list string) (text : string) (cobo : Element) : result Element ParamsError :=
  match find_child cobo INSTANCE (Some STAR) with
  | None => Err (TemplateShape (INSTANCE +:+ "[" +:+ STAR +:+ "] が無い"))
  | Some i =>
      match element_at cobo i with
      | None => Err (TemplateShape (INSTANCE +:+ "[" +:+ STAR +:+ "] が無い"))
      | Some instance =>
          let? instance :=
            write_at (level_steps (depth (scope spec)) 1 ids ++ map (fun name => (name, None)) (removelast (suffix spec)))
              (list.last (suffix spec)) 2 text instance in
          Ok (put_child cobo i instance)
      end
  end.

(** ** The whole *)

Section Rendering.
Context (xml_escape : string -> string) (show_json : Value -> string) (show_f64 : f64 -> string).

Definition knob_text (spec : KnobSpec) (v : Value) : result string ParamsError :=
  value_to_xcfg_text show_json show_f64 spec v.

Fixpoint write_uniform (specs : list KnobSpec) (knobs : list (string * Value)) (cobo : Element) : result Element ParamsError :=
  match specs with
  | [] => Ok cobo
  | spec :: specs =>
      match lookup_knob knobs (knob_name spec) with
      | None => Err (MissingKnob (knob_name spec))
      | Some v =>
          let? text := knob_text spec v in
          let? cobo := write_knob spec [] (xml_escape text) (remove_knob_from_explicit_nodes spec cobo) in
          write_uniform specs knobs cobo
      end
  end.

Fixpoint write_targets (spec : KnobSpec) (targets : list (list string)) (text : string) (cobo : Element) : result Element ParamsError :=
  match targets with
  | [] => Ok cobo
  | target :: targets => let? cobo := write_knob spec target (xml_escape text) cobo in write_targets spec targets text cobo
  end.

Fixpoint write_specs (t : TemplateIds) (e : Exception) (specs : list KnobSpec) (cobo : Element) : result Element ParamsError :=
  match specs with
  | [] => Ok cobo
  | spec :: specs =>
      let? text := knob_text spec (ex_value e) in
      let? targets := expand t (ex_at e) spec (ex_knob e) in
      let? cobo := write_targets spec targets text cobo in
      write_specs t e specs cobo
  end.

Fixpoint write_exceptions (t : TemplateIds) (es : list Exception) (cobo : Element) : result Element ParamsError :=
  match es with
  | [] => Ok cobo
  | e :: es =>
      match knob_spec (ex_knob e) with
      | None => Err (UnknownKnob (ex_knob e))
      | Some _ => let? cobo := write_specs t e (knob_specs (ex_knob e)) cobo in write_exceptions t es cobo
      end
  end.

(** What becomes of the CoBo. *)
Definition render_cobo (p : Params) (cobo : Element) : result Element ParamsError :=
  let t := collect cobo in
  let? _ := check_exception_targets t (exceptions p) in
  let? _ := check_no_trigger_period_10ns cobo in
  let? cobo := write_uniform KNOBS (knobs p) cobo in
  write_exceptions t (exceptions p) cobo.

Record Rendered : Type := mkRendered {
  config_id : string;
  configure_file_name : string;
  prepare_file_name : string;
  xml : string;
}.

(** The part after the last slash. *)
Definition file_name (path : string) : string := default path (list.last (split_on "/"%char path)).

Fixpoint strip_phase (prefixes : list string) (stem : string) : string :=
  match prefixes with
  | [] => stem
  | p :: prefixes => match strip_prefix p stem with Some rest => rest | None => strip_phase prefixes stem end
  end.

Definition template_stem (template : string) : string :=
  let name := file_name template in
  strip_phase ["configure-"; "prepare-"; "describe-"] (default name (strip_suffix ".xcfg" name)).

Definition render (sha256_hex : string -> string) (read_events : string -> list (Event * string) * option string)
    (p : Params) (template_xml : string) : result Rendered ParamsError :=
  let? doc := parse read_events template_xml in
  let? (s, n, cobo) := find_cobo_node doc in
  let? cobo := render_cobo p cobo in
  let id := template_stem (template p) +:+ "__" +:+ json_hash8 sha256_hex p in
  Ok (mkRendered id ("configure-" +:+ id +:+ ".xcfg") ("prepare-" +:+ id +:+ ".xcfg") (serialize (put_cobo doc s n cobo))).
End Rendering.
