(* ===== verification/RenderValues.v ===== *)
(** * RenderValues: what a rendered template says

    The values of a template after [render] (Render): at the path of each knob, for
    each instance, the value that the parameters give it, and everywhere else what
    the template had.  The edits are followed by the paths they touch: an edit at a
    path changes what is there, and nothing on a path that parts from it. *)

From Stdlib Require Import Ascii.
From stdpp Require Import strings.
From S2P Require Import Prelude Decimal Text Checks Float Params Xcfg Render.
Open Scope string_scope.
Open Scope list_scope.
Open Scope Z_scope.

(** ** Paths *)

(** Two paths that part: equal up to a step, and there apart. *)
Fixpoint diverge (p q : list place) : bool :=
  match p, q with
  | s :: p, t :: q => apart s t || (bool_decide (s = t) && diverge p q)
  | _, _ => false
  end.

Definition leaf_path (suffix : list string) : list place := map (fun name => (name, None)) suffix.

Definition knob_leaf (spec : KnobSpec) (ids : list string) : list place :=
  level_steps (depth (scope spec)) 1 ids ++ leaf_path (suffix spec).

(** The names of the leaves that are managed. *)
Definition LEAVES : list string := omap (fun spec => list.last (suffix spec)) KNOBS.

(** An element without an end tag has nothing in it, and no element has two leaves
    of a managed name. *)
Inductive tidy : Element -> Prop :=
| tidy_intro e :
    (el_empty e = true -> children e = []) ->
    (forall leaf, leaf ∈ LEAVES -> (length (List.filter (answers (leaf, None)) (kids e)) <= 1)%nat) ->
    (forall c, c ∈ kids e -> tidy c) ->
    tidy e.

Lemma apart_refl s : apart s s = false.
Proof. unfold apart. rewrite bool_decide_eq_true_2 by done. destruct (snd s); [by rewrite bool_decide_eq_true_2 |]; done. Qed.

Lemma diverge_cons s p q : diverge (s :: p) (s :: q) = diverge p q.
Proof. cbn [diverge]. by rewrite apart_refl, bool_decide_eq_true_2. Qed.

Lemma text_at_cons s p e : text_at (s :: p) e = match child e (fst s) (snd s) with Some c => text_at p c | None => None end.
Proof. unfold text_at. cbn [walk_path]. by destruct (child e (fst s) (snd s)). Qed.

(** What a change of a child does to the paths. *)
Lemma same_tag_trans c c' c'' : same_tag c c' -> same_tag c' c'' -> same_tag c c''.
Proof. intros [H1 H2] [H3 H4]. split; congruence. Qed.

Lemma tidy_empty e : tidy e -> el_empty e = true -> children e = [].
Proof. by intros []. Qed.

Lemma tidy_child e s c : tidy e -> child e (fst s) (snd s) = Some c -> tidy c.
Proof. intros [? _ _ H] [_ Hc]%child_answers. by apply H. Qed.

Lemma tidy_new name id cs : elements cs = [] -> tidy (set_children (new_element name id) cs).
Proof. intros Hcs. split; [done | |]; unfold kids; cbn [set_children children]; rewrite Hcs; [intros; cbn; lia | intros c Hc; by apply elem_of_nil in Hc]. Qed.

Lemma tidy_put e s i c c' : tidy e -> find_child e (fst s) (snd s) = Some i -> element_at e i = Some c -> same_tag c c' -> tidy c' ->
  tidy (put_child e i c').
Proof.
  intros [e' He Hl Hk] Hf Hat Htag Hc'. destruct (find_child_some _ _ _ Hf) as (d & l1 & l2 & Hat' & _ & _ & Hkids & _ & Hput & _).
  rewrite Hat in Hat'. injection Hat' as <-. split.
  - intros Hem. cbn in Hem. specialize (He Hem). unfold element_at in Hat. by rewrite He, lookup_nil in Hat.
  - intros leaf Hleaf. specialize (Hl leaf Hleaf). rewrite Hkids in Hl. rewrite Hput. rewrite !List.filter_app in *. cbn [List.filter] in *.
    rewrite (answers_tag _ _ _ Htag). rewrite length_app in *. by destruct (answers (leaf, None) c).
  - intros x. rewrite Hput. intros [Hx | [-> | Hx]%elem_of_cons]%elem_of_app; [| done |]; apply Hk; rewrite Hkids; apply elem_of_app;
      [by left | right; by right].
Qed.

Lemma tidy_remove e s i : tidy e -> find_child e (fst s) (snd s) = Some i -> tidy (remove_child e i).
Proof.
  intros [e' He Hl Hk] Hf. destruct (find_child_some _ _ _ Hf) as (d & l1 & l2 & Hat & _ & _ & Hkids & _ & _ & Hrem). split.
  - intros Hem. cbn in Hem. specialize (He Hem). unfold element_at in Hat. by rewrite He, lookup_nil in Hat.
  - intros leaf Hleaf. specialize (Hl leaf Hleaf). rewrite Hkids in Hl. rewrite Hrem. rewrite !List.filter_app, !length_app in *. cbn [List.filter] in Hl.
    destruct (answers (leaf, None) d); cbn [length] in Hl; lia.
  - intros x. rewrite Hrem. intros [Hx | Hx]%elem_of_app; apply Hk; rewrite Hkids; apply elem_of_app; [by left | right; by right].
Qed.

Lemma tidy_append e c d : tidy e -> tidy c ->
  (forall leaf, leaf ∈ LEAVES -> answers (leaf, None) c = true -> child e leaf None = None) -> tidy (append_child e c d).
Proof.
  intros [e' He Hl Hk] Hc Hno. assert (Hkids : kids (append_child e' c d) = kids e' ++ [c]).
  { rewrite kids_append. destruct (el_empty e') eqn:E; [| done]. unfold kids. by rewrite He. }
  split.
  - unfold append_child. destruct (el_empty e') eqn:E; cbn; [done | by rewrite E].
  - intros leaf Hleaf. rewrite Hkids, List.filter_app, length_app. cbn [List.filter]. destruct (answers (leaf, None) c) eqn:Ea; [| cbn; specialize (Hl _ Hleaf); lia].
    specialize (Hno leaf Hleaf Ea). pose proof (child_find e' (leaf, None)) as Hfind. cbn [fst snd] in Hfind. rewrite Hfind in Hno. cbn [length].
    assert (List.filter (answers (leaf, None)) (kids e') = []) as ->; [| cbn; lia].
    clear -Hno. induction (kids e') as [| x l IH]; [done |]. cbn [List.find List.filter] in *. destruct (answers (leaf, None) x); [done | by apply IH].
  - intros x. rewrite Hkids. intros [Hx | ->%list_elem_of_singleton]%elem_of_app; [by apply Hk | done].
Qed.

Lemma tidy_each name f e : (forall c, same_tag c (f c)) -> (forall c, tidy c -> tidy (f c)) -> tidy e -> tidy (each_child name f e).
Proof.
  intros Htag Hf [e' He Hl Hk]. split.
  - intros Hem. cbn in Hem. unfold each_child. cbn. by rewrite (He Hem).
  - intros leaf Hleaf. specialize (Hl leaf Hleaf). rewrite kids_each. clear -Hl Htag.
    assert (Hlen : forall l, length (List.filter (answers (leaf, None)) (map (fun c => if bool_decide (el_name c = name) then f c else c) l)) =
                       length (List.filter (answers (leaf, None)) l)); [| by rewrite Hlen].
    intros l. induction l as [| c l IH]; [done |]. cbn [map List.filter].
    assert (Ha : answers (leaf, None) (if bool_decide (el_name c = name) then f c else c) = answers (leaf, None) c).
    { destruct (bool_decide (el_name c = name)); [by apply answers_tag | done]. }
    rewrite Ha. destruct (answers (leaf, None) c); cbn [length]; by rewrite IH.
  - intros x. rewrite kids_each. intros (c & -> & Hc)%list_elem_of_fmap. destruct (bool_decide _); [apply Hf |]; by apply Hk.
Qed.

(** ** The edits, by their paths *)

Lemma text_at_through s p e e' c' : child e' (fst s) (snd s) = Some c' ->
  (forall t, apart t s = true -> child e' (fst t) (snd t) = child e (fst t) (snd t)) ->
  (forall q, diverge q p = true -> text_at q c' = match child e (fst s) (snd s) with Some c => text_at q c | None => None end) ->
  forall q, diverge q (s :: p) = true -> text_at q e' = text_at q e.
Proof.
  intros Hs Hap Hq [| t q]; [done |]. cbn [diverge]. rewrite !text_at_cons.
  intros [H | [->%bool_decide_eq_true H]%andb_true_iff]%orb_true_iff; [by rewrite Hap |]. rewrite Hs. by apply Hq.
Qed.

(** An edit of [e] that leaves alone every path in [P]. *)
Record keeps (P : list place -> Prop) (e e' : Element) : Prop := {
  keeps_tag : same_tag e e';
  keeps_tidy : tidy e -> tidy e';
  keeps_text : forall q, P q -> text_at q e' = text_at q e;
}.

Lemma keeps_refl P e : keeps P e e.
Proof. by split. Qed.

Lemma keeps_then (P Q : list place -> Prop) e e' e'' : keeps P e e' -> keeps Q e' e'' -> keeps (fun q => P q /\ Q q) e e''.
Proof. intros [H1 H2 H3] [H4 H5 H6]. split; [by eapply same_tag_trans | tauto |]. intros q [Hp Hq]. by rewrite H6, H3. Qed.

Lemma keeps_weaken (P Q : list place -> Prop) e e' : keeps P e e' -> (forall q, Q q -> P q) -> keeps Q e e'.
Proof. intros [] H. split; auto. Qed.

Lemma same_tag_append e c d : same_tag e (append_child e c d).
Proof. unfold append_child. by destruct (el_empty e). Qed.

Lemma child_put_keeps s p e i c c' : find_child e (fst s) (snd s) = Some i -> element_at e i = Some c ->
  keeps (fun q => diverge q p = true) c c' -> keeps (fun q => diverge q (s :: p) = true) e (put_child e i c').
Proof.
  intros Hf Hat [Htag Htidy Htext]. assert (Hc : child e (fst s) (snd s) = Some c) by (unfold child; by rewrite Hf).
  split; [done | |].
  - intros He. apply (tidy_put e s i c c' He Hf Hat Htag). exact (Htidy (tidy_child e s c He Hc)).
  - apply (text_at_through s p e _ c').
    + exact (proj1 (child_put e s i c c' s Hf Hat Htag)).
    + intros t. exact (proj2 (child_put e s i c c' t Hf Hat Htag)).
    + rewrite Hc. exact Htext.
Qed.

Lemma child_append_new s p e c d : tidy e -> child e (fst s) (snd s) = None -> el_name c = fst s -> el_id c = snd s ->
  (forall q, diverge q p = true -> text_at q c = None) ->
  child (append_child e c d) (fst s) (snd s) = Some c /\
  forall q, diverge q (s :: p) = true -> text_at q (append_child e c d) = text_at q e.
Proof.
  intros He Hno Hn Hi Hq. assert (Ha : answers s c = true) by (apply answers_spec; auto).
  pose proof (child_append e c d s (tidy_empty e He)) as Hc. rewrite Hno, Ha in Hc. split; [done |].
  apply (text_at_through s p e _ c); [done | |].
  - intros t Hap. rewrite child_append by by apply tidy_empty. rewrite (apart_answers t s c Hap Ha). by destruct (child e (fst t) (snd t)).
  - by rewrite Hno.
Qed.

Lemma raw_text_one t : raw_text [NRaw t] = t.
Proof. apply text_nil_r. Qed.

Lemma set_text_raw c t : children (set_text c t) = [NRaw t] /\ same_tag c (set_text c t) /\ tidy (set_text c t).
Proof.
  unfold set_text. destruct (el_empty c) eqn:E; (split; [done |]; split; [done |]);
    (split; cbn; [congruence | intros; lia | intros ? Hx; by apply elem_of_nil in Hx]).
Qed.

Lemma set_leaf_keeps leaf d text e : tidy e ->
  keeps (fun q => diverge q [(leaf, None)] = true) e (set_leaf leaf d text e) /\ text_at [(leaf, None)] (set_leaf leaf d text e) = Some text.
Proof.
  intros He. unfold set_leaf. destruct (find_child e leaf None) as [i |] eqn:Hf.
  - destruct (find_child_some e (leaf, None) i Hf) as (c & _ & _ & Hat & Hc & _). rewrite Hat.
    destruct (set_text_raw c text) as (Hraw & Htag & Htidy). split.
    + apply (child_put_keeps (leaf, None) [] e i c); [done | done |]. split; [done | by intros _ |]. by intros [|].
    + rewrite text_at_cons. destruct (child_put e (leaf, None) i c (set_text c text) (leaf, None) Hf Hat Htag) as [-> _].
      unfold text_at. cbn [walk_path]. by rewrite Hraw, raw_text_one.
  - destruct (find_child_none e (leaf, None) Hf) as [Hno _]. set (c := set_children (new_element leaf None) [NRaw text]).
    destruct (child_append_new (leaf, None) [] e c d He Hno eq_refl eq_refl) as [Hc Hq]; [by intros [|] |]. split.
    + split; [apply same_tag_append | | done]. intros _. apply tidy_append; [done | by apply tidy_new |].
      intros l _ [Hl _]%answers_spec. cbn in Hl, Hno. by rewrite <- Hl.
    + rewrite text_at_cons, Hc. unfold text_at. cbn [walk_path]. unfold c. cbn [set_children children]. by rewrite raw_text_one.
Qed.

(** A step that is made anew is not to be a leaf, unless the name is all it has. *)
Definition level_place (s : place) : Prop := snd s <> None -> fst s ∉ LEAVES.

Lemma child_or_new_keeps s d e : tidy e -> level_place s -> exists e' i c,
  child_or_new s d e = Ok (e', i) /\ find_child e' (fst s) (snd s) = Some i /\ element_at e' i = Some c /\ tidy e' /\ same_tag e e' /\ tidy c /\
  (forall t, apart t s = true -> child e' (fst t) (snd t) = child e (fst t) (snd t)) /\
  (forall q, q <> [] -> text_at q c = match child e (fst s) (snd s) with Some c => text_at q c | None => None end).
Proof.
  intros He Hs. unfold child_or_new. destruct (find_child e (fst s) (snd s)) as [i |] eqn:Hf.
  - destruct (find_child_some e s i Hf) as (c & _ & _ & Hat & Hc & _). exists e, i, c. rewrite Hc.
    pose proof (tidy_child e s c He Hc). by split_and!.
  - destruct (find_child_none e s Hf) as [Hno _]. set (c := new_element (fst s) (snd s)).
    assert (Ha : answers s c = true) by (apply answers_spec; auto).
    assert (Hc : child (append_child e c d) (fst s) (snd s) = Some c).
    { rewrite child_append by by apply tidy_empty. by rewrite Hno, Ha. }
    assert (Htc : tidy c) by by apply (tidy_new _ _ []).
    destruct (find_child (append_child e c d) (fst s) (snd s)) as [i |] eqn:Hf'; [| by destruct (find_child_none _ s Hf'); congruence].
    destruct (find_child_some _ s i Hf') as (c' & _ & _ & Hat & Hc' & _). rewrite Hc in Hc'. injection Hc' as <-.
    exists (append_child e c d), i, c. split; [done |]. split; [done |]. split; [done |].
    split; [| split; [apply same_tag_append |]; split; [done |]; split].
    + apply tidy_append; [done | done |]. intros leaf Hleaf [Hl _]%answers_spec. cbn in Hl.
      unfold level_place in Hs. rewrite Hl in *. destruct (snd s) eqn:Es; [by destruct Hs | done].
    + intros t Hap. rewrite child_append by by apply tidy_empty. rewrite (apart_answers t s c Hap Ha). by destruct (child e (fst t) (snd t)).
    + rewrite Hno. intros [| t q] Hq; [done |]. by rewrite text_at_cons.
Qed.

Lemma write_at_keeps steps leaf d text e : tidy e -> Forall level_place steps -> exists e',
  write_at steps (Some leaf) d text e = Ok e' /\
  keeps (fun q => diverge q (steps ++ [(leaf, None)]) = true) e e' /\ text_at (steps ++ [(leaf, None)]) e' = Some text.
Proof.
  intros He Hs. revert d e He. induction Hs as [| s steps Hs _ IH]; intros d e He; cbn [write_at app].
  - eexists. split; [done |]. by apply set_leaf_keeps.
  - destruct (child_or_new_keeps s (S d) e He Hs) as (e1 & i & c & Hnewc & Hf & Hat & He1 & Htag & Hc & Hap & Hnew).
    destruct (IH (S d) c Hc) as (c' & Hw & [Htag' Htidy' Htext'] & Hset).
    exists (put_child e1 i c'). rewrite Hnewc. cbn [result_bind]. rewrite Hat, Hw. split; [done |].
    pose proof (child_put e1 s i c c') as Hput. split; [split |].
    + by apply (same_tag_trans e e1).
    + intros _. exact (tidy_put e1 s i c c' He1 Hf Hat Htag' (Htidy' Hc)).
    + apply (text_at_through s _ e _ c'); [by apply (Hput s) | |].
      * intros t Ht. rewrite <- (Hap t Ht). by apply (Hput t).
      * intros q Hq. rewrite (Htext' q Hq). apply Hnew. by intros ->.
    + rewrite text_at_cons. destruct (Hput s Hf Hat Htag') as [-> _]. exact Hset.
Qed.

(** ** The removal, by its paths *)

Lemma find_after_removal leaf e i : tidy e -> leaf ∈ LEAVES -> find_child e leaf None = Some i -> child (remove_child e i) leaf None = None.
Proof.
  intros [e' _ Hl _] Hleaf Hf. specialize (Hl leaf Hleaf).
  destruct (find_child_some e' (leaf, None) i Hf) as (c & l1 & l2 & _ & _ & Ha & Hk & Hno & _ & Hrem).
  pose proof (child_find (remove_child e' i) (leaf, None)) as Hfind. cbn [fst snd] in Hfind. rewrite Hfind, Hrem. rewrite Hk in Hl.
  rewrite List.filter_app, length_app in Hl. cbn [List.filter] in Hl. rewrite Ha in Hl. cbn [length] in Hl.
  assert (Hl2 : List.filter (answers (leaf, None)) l2 = []) by (apply length_zero_iff_nil; lia).
  clear -Hno Hl2. induction Hno as [| x l1 Hx _ IH]; cbn [List.find app]; [| by rewrite Hx].
  induction l2 as [| x l2 IH]; [done |]. cbn [List.find List.filter] in *. destruct (answers (leaf, None) x); [done | by apply IH].
Qed.

Lemma remove_suffix_keeps suffix leaf e : tidy e -> list.last suffix = Some leaf -> leaf ∈ LEAVES ->
  keeps (fun q => diverge q (leaf_path suffix) = true) e (remove_suffix suffix e) /\ text_at (leaf_path suffix) (remove_suffix suffix e) = None.
Proof.
  intros He Hlast Hleaf. revert e He. induction suffix as [| name suffix IH]; intros e He; [done |].
  destruct suffix as [| name' suffix].
  - injection Hlast as ->. cbn [remove_suffix leaf_path map]. rewrite text_at_cons. cbn [fst snd].
    destruct (find_child e leaf None) as [i |] eqn:Hf; [| destruct (find_child_none e (leaf, None) Hf) as [Hno _]; cbn in Hno; rewrite Hno; split; [apply keeps_refl | done]].
    rewrite (find_after_removal leaf e i He Hleaf Hf). split; [| done].
    destruct (find_child_some e (leaf, None) i Hf) as (c & _ & _ & Hat & _). split; [done | intros _; by apply (tidy_remove e (leaf, None)) |].
    intros [| t q]; [done |]. cbn [diverge]. intros [Hap | [_ Hq]%andb_true_iff]%orb_true_iff; [| by destruct q].
    rewrite !text_at_cons. by rewrite (child_remove e (leaf, None) i c t Hf Hat Hap).
  - cbn [list.last] in Hlast. specialize (IH Hlast). cbn [leaf_path map].
    change (remove_suffix (name :: name' :: suffix) e) with
      (match find_child e name None with
       | Some i => match element_at e i with Some c => put_child e i (remove_suffix (name' :: suffix) c) | None => e end
       | None => e
       end).
    destruct (find_child e name None) as [i |] eqn:Hf; [| destruct (find_child_none e (name, None) Hf) as [Hno _]; cbn in Hno; rewrite text_at_cons; cbn [fst snd]; rewrite Hno; split; [apply keeps_refl | done]].
    destruct (find_child_some e (name, None) i Hf) as (c & _ & _ & Hat & Hc & _). rewrite Hat.
    destruct (IH c (tidy_child e (name, None) c He Hc)) as [Hkeep Hnone]. split; [by apply (child_put_keeps (name, None) _ e i c) |].
    rewrite text_at_cons. destruct (child_put e (name, None) i c _ (name, None) Hf Hat (keeps_tag _ _ _ Hkeep)) as [-> _]. exact Hnone.
Qed.

(** The levels of an instance, all of them. *)
Lemma level_steps_cons n d ids : level_steps (S n) d ids = (level_name d, Some (default STAR (head ids))) :: level_steps n (S d) (tail ids).
Proof. done. Qed.

Definition unless_star (suffix : list string) (all_star : bool) (node : Element) : Element :=
  if all_star then node else remove_suffix suffix node.

Lemma remove_suffix_tag suffix e : same_tag e (remove_suffix suffix e).
Proof.
  destruct suffix as [| name [| name' suffix]]; cbn [remove_suffix]; [done | |]; destruct (find_child e name None); try done.
  by destruct (element_at e n).
Qed.

Lemma scope_tag suffix n d star e : same_tag e (for_each_scope_node n d star (unless_star suffix) e).
Proof.
  destruct n as [| n]; cbn [for_each_scope_node].
  - destruct star; cbn [unless_star]; [done | apply remove_suffix_tag].
  - by destruct (element_at_depth (S d)).
Qed.

Lemma remove_scope_keeps suffix leaf n d star e : tidy e -> list.last suffix = Some leaf -> leaf ∈ LEAVES -> (d + n <= 3)%nat ->
  let e' := for_each_scope_node n d star (unless_star suffix) e in
  keeps (fun q => forall ids, diverge q (level_steps n (S d) ids ++ leaf_path suffix) = true) e e' /\
  forall ids, text_at (level_steps n (S d) ids ++ leaf_path suffix) e' =
    if star && forallb (fun s => bool_decide (snd s = Some STAR)) (level_steps n (S d) ids)
    then text_at (level_steps n (S d) ids ++ leaf_path suffix) e else None.
Proof.
  intros He Hlast Hleaf. revert d star e He. induction n as [| n IH]; intros d star e He Hd; cbn [for_each_scope_node].
  { destruct star; cbn [unless_star andb level_steps app forallb].
    - split; [apply keeps_refl | done].
    - destruct (remove_suffix_keeps suffix leaf e He Hlast Hleaf) as [Hk Hno]. split; [| done].
      eapply keeps_weaken; [exact Hk |]. intros q Hq. exact (Hq []). }
  assert (Hn : element_at_depth (S d) = Some (level_name (S d))) by (destruct d as [| [| [|]]]; [done .. | lia]). rewrite Hn.
  set (f := fun c => for_each_scope_node n (S d) (star && bool_decide (el_id c = Some STAR)) (unless_star suffix) c).
  assert (Htag : forall c, same_tag c (f c)) by (intros c; apply scope_tag).
  assert (Hchild : forall t, child (each_child (level_name (S d)) f e) (fst t) (snd t) = _) by (intros t; by apply child_each).
  split; [split |].
  - done.
  - intros _. apply tidy_each; [done | | done]. intros c Hc. apply (keeps_tidy _ _ _ (proj1 (IH (S d) _ c Hc ltac:(lia)))). exact Hc.
  - intros [| t q] Hq; [by specialize (Hq []) |]. rewrite !text_at_cons, Hchild.
    destruct (child e (fst t) (snd t)) as [c |] eqn:Ec; [| done].
    destruct (bool_decide (fst t = level_name (S d))) eqn:Et; [| done]. apply bool_decide_eq_true in Et.
    apply (keeps_text _ _ _ (proj1 (IH (S d) _ c (tidy_child e t c He Ec) ltac:(lia)))). intros ids.
    destruct t as [tn [i |]]; cbn [fst] in Et; subst tn.
    + specialize (Hq (i :: ids)). rewrite level_steps_cons in Hq. cbn [head tail app diverge from_option] in Hq. unfold id in Hq.
      by rewrite apart_refl, bool_decide_eq_true_2 in Hq.
    + specialize (Hq []). rewrite level_steps_cons in Hq. cbn [app diverge] in Hq. unfold apart in Hq. cbn [fst snd] in Hq.
      rewrite bool_decide_eq_true_2, bool_decide_eq_false_2 in Hq by done. done.
  - intros ids. rewrite level_steps_cons. cbn [app forallb snd]. rewrite !text_at_cons, Hchild. cbn [fst snd].
    set (id := default STAR (head ids)). destruct (child e (level_name (S d)) (Some id)) as [c |] eqn:Ec; [| by destruct (_ && _)].
    rewrite bool_decide_eq_true_2 by done. subst f. cbv beta.
    destruct (child_answers e (level_name (S d), Some id) c Ec) as [[_ [? | Hid]]%answers_spec _]; [done |]. cbn [snd] in Hid. rewrite Hid.
    rewrite (proj2 (IH (S d) _ c (tidy_child e (_, Some id) c He Ec) ltac:(lia)) (tail ids)). by rewrite andb_assoc.
Qed.

(** ** The paths of the knobs *)

(** Where a knob is in an instance of the CoBo. *)
Definition cobo_path (instance : string) (spec : KnobSpec) (ids : list string) : list place :=
  (INSTANCE, Some instance) :: knob_leaf spec ids.

Definition all_star (spec : KnobSpec) (ids : list string) : bool :=
  forallb (fun s => bool_decide (snd s = Some STAR)) (level_steps (depth (scope spec)) 1 ids).

(** The names along a path, with whether an id counts. *)
Definition skeleton (p : list place) : list (string * bool) := map (fun s => (fst s, match snd s with Some _ => true | None => false end)) p.

Fixpoint part (p q : list (string * bool)) : bool :=
  match p, q with
  | s :: p, t :: q => negb (bool_decide (fst s = fst t)) || (bool_decide (s = t) && part p q)
  | _, _ => false
  end.

Lemma part_diverge p q : part (skeleton p) (skeleton q) = true -> diverge p q = true.
Proof.
  revert q. induction p as [| [n i] p IH]; intros [| [m j] q]; try done. cbn [skeleton map part diverge fst snd].
  intros [H | [H Hp]%andb_true_iff]%orb_true_iff; [unfold apart; cbn [fst snd]; by rewrite H |].
  apply bool_decide_eq_true in H. injection H as -> Hij. specialize (IH q Hp). unfold apart. cbn [fst snd].
  destruct i as [i |], j as [j |]; try done.
  - destruct (bool_decide (i = j)) eqn:E; [| by rewrite orb_true_r]. apply bool_decide_eq_true in E as ->.
    by rewrite (bool_decide_eq_true_2 ((m, Some j) = (m, Some j))), IH, orb_true_r.
  - by rewrite (bool_decide_eq_true_2 ((m, None : option string) = (m, None))), IH, orb_true_r.
Qed.

Fixpoint level_skeleton (n d : nat) : list (string * bool) :=
  match n with
  | O => []
  | S n => (level_name d, true) :: level_skeleton n (S d)
  end.

Definition knob_skeleton (spec : KnobSpec) : list (string * bool) :=
  level_skeleton (depth (scope spec)) 1 ++ map (fun name => (name, false)) (suffix spec).

Lemma skeleton_knob spec ids : skeleton (knob_leaf spec ids) = knob_skeleton spec.
Proof.
  unfold knob_leaf, knob_skeleton, skeleton. rewrite map_app. f_equal.
  - generalize 1%nat as d. revert ids. induction (depth (scope spec)) as [| n IH]; intros ids d; [done |]. cbn. by rewrite IH.
  - unfold leaf_path. by rewrite map_map.
Qed.

(** No two knobs are at one place, in any instance. *)
Lemma knobs_part spec spec' : spec ∈ KNOBS -> spec' ∈ KNOBS ->
  knob_name spec = knob_name spec' \/ part (knob_skeleton spec) (knob_skeleton spec') = true.
Proof.
  assert (H : Forall (fun spec => Forall (fun spec' =>
    bool_decide (knob_name spec = knob_name spec') || part (knob_skeleton spec) (knob_skeleton spec') = true) KNOBS) KNOBS)
    by (repeat constructor).
  intros H1 H2. rewrite list.Forall_forall in H. specialize (H spec H1). rewrite list.Forall_forall in H. specialize (H spec' H2).
  apply orb_true_iff in H as [H%bool_decide_eq_true | H]; auto.
Qed.

Lemma knob_names_distinct : NoDup (map knob_name KNOBS).
Proof. apply (bool_decide_eq_true_1 _). by vm_compute. Qed.

Lemma same_name spec spec' : spec ∈ KNOBS -> spec' ∈ KNOBS -> knob_name spec = knob_name spec' -> spec = spec'.
Proof. intros H1 H2 Hn. pose proof (knob_specs_of spec H1) as E. rewrite Hn, (knob_specs_of spec' H2) in E. congruence. Qed.

Lemma knobs_diverge spec spec' ids ids' : spec ∈ KNOBS -> spec' ∈ KNOBS -> spec <> spec' ->
  diverge (knob_leaf spec ids) (knob_leaf spec' ids') = true.
Proof.
  intros H1 H2 Hne. apply part_diverge. rewrite !skeleton_knob. destruct (knobs_part spec spec' H1 H2); [| done].
  destruct Hne. by apply same_name.
Qed.

(** Nor is one knob at one place for two instances. *)
Lemma levels_diverge n d ids ids' p q : level_steps n d ids <> level_steps n d ids' ->
  diverge (level_steps n d ids ++ p) (level_steps n d ids' ++ q) = true.
Proof.
  revert d ids ids'. induction n as [| n IH]; intros d ids ids' Hne; [done |]. rewrite !level_steps_cons in *. cbn [app diverge].
  unfold apart. cbn [fst snd]. destruct (decide (default STAR (head ids) = default STAR (head ids'))) as [E | Hij].
  - rewrite E in *. rewrite IH by congruence. rewrite !bool_decide_eq_true_2 by done. by rewrite orb_true_r.
  - rewrite (bool_decide_eq_false_2 (default STAR (head ids) = default STAR (head ids'))) by done. by rewrite orb_true_r.
Qed.

Lemma levels_inj n d ids ids' : length ids = n -> length ids' = n -> level_steps n d ids = level_steps n d ids' -> ids = ids'.
Proof.
  revert d ids ids'. induction n as [| n IH]; intros d ids ids' H1 H2 E.
  - apply length_zero_iff_nil in H1, H2. congruence.
  - destruct ids as [| i ids], ids' as [| j ids']; [done.. |]. injection H1 as H1. injection H2 as H2. rewrite !level_steps_cons in E.
    cbn [head tail from_option] in E. unfold id in E. injection E as -> E. by rewrite (IH (S d) ids ids').
Qed.

Lemma all_star_levels n d ids : forallb (fun s => bool_decide (snd s = Some STAR)) (level_steps n d ids) = true <->
  level_steps n d ids = level_steps n d [].
Proof.
  revert d ids. induction n as [| n IH]; intros d ids; [done |]. rewrite !level_steps_cons. cbn [forallb snd].
  rewrite andb_true_iff, bool_decide_eq_true, IH. cbn [head tail from_option]. unfold id. split; [intros [[= ->] ->]; done |].
  by intros [= -> ->].
Qed.

Lemma star_levels n d : level_steps n d (replicate n STAR) = level_steps n d [].
Proof.
  revert d. induction n as [| n IH]; intros d; [done |]. cbn [replicate]. rewrite !level_steps_cons. cbn [head tail from_option].
  unfold id. by rewrite IH.
Qed.

(** A knob has a leaf, of a managed name; the levels are none. *)
Lemma knob_has_leaf spec : spec ∈ KNOBS -> exists leaf, list.last (suffix spec) = Some leaf /\ leaf ∈ LEAVES /\
  suffix spec = removelast (suffix spec) ++ [leaf].
Proof.
  revert spec. apply list.Forall_forall. repeat apply list.Forall_cons_2; try apply list.Forall_nil_2;
    (eexists; split; [reflexivity | split; [apply (bool_decide_eq_true_1 _); reflexivity | reflexivity]]).
Qed.

Lemma level_places n d ids parents : (d + n <= 4)%nat -> (0 < d)%nat ->
  Forall level_place (level_steps n d ids ++ map (fun name => (name, None)) parents).
Proof.
  intros Hd Hd0. apply list.Forall_app. split.
  - revert d ids Hd Hd0. induction n as [| n IH]; intros d ids Hd Hd0; constructor; [| apply IH; lia].
    intros _. cbn [fst]. destruct d as [| [| [| [| d]]]]; [lia | | | | lia]; by apply (bool_decide_eq_true_1 _).
  - apply List.Forall_map, list.Forall_forall. intros name _ Hs. by destruct Hs.
Qed.

Lemma depth_le s : (depth s <= 3)%nat.
Proof. destruct s; cbn; lia. Qed.

(** ** The steps of [render] *)

Lemma remove_knob_keeps spec cobo : spec ∈ KNOBS -> tidy cobo ->
  keeps (fun q => forall inst ids, diverge q (cobo_path inst spec ids) = true) cobo (remove_knob_from_explicit_nodes spec cobo) /\
  forall inst ids, text_at (cobo_path inst spec ids) (remove_knob_from_explicit_nodes spec cobo) =
    if bool_decide (inst = STAR) && all_star spec ids then text_at (cobo_path inst spec ids) cobo else None.
Proof.
  intros Hspec Hcobo. destruct (knob_has_leaf spec Hspec) as (leaf & Hlast & Hleaf & _). unfold remove_knob_from_explicit_nodes.
  set (f := fun instance => for_each_scope_node (depth (scope spec)) 0 (bool_decide (el_id instance = Some STAR)) (unless_star (suffix spec)) instance).
  change (fun instance => for_each_scope_node _ _ _ _ instance) with f.
  assert (Htag : forall c, same_tag c (f c)) by (intros c; apply scope_tag).
  assert (Hf : forall c, tidy c -> _) by
    (intros c Hc; exact (remove_scope_keeps (suffix spec) leaf (depth (scope spec)) 0 (bool_decide (el_id c = Some STAR)) c Hc Hlast Hleaf (depth_le _))).
  assert (Hchild : forall t, child (each_child INSTANCE f cobo) (fst t) (snd t) = _) by (intros t; by apply child_each).
  split; [split; [done | |] |].
  - intros _. apply tidy_each; [done | | done]. intros c Hc. exact (keeps_tidy _ _ _ (proj1 (Hf c Hc)) Hc).
  - intros [| t q] Hq; [by specialize (Hq STAR [])|]. rewrite !text_at_cons, Hchild.
    destruct (child cobo (fst t) (snd t)) as [c |] eqn:Ec; [| done].
    destruct (bool_decide (fst t = INSTANCE)) eqn:Et; [| done]. apply bool_decide_eq_true in Et.
    apply (keeps_text _ _ _ (proj1 (Hf c (tidy_child cobo t c Hcobo Ec)))). intros ids.
    destruct t as [tn [i |]]; cbn [fst] in Et; subst tn.
    + specialize (Hq i ids). unfold cobo_path in Hq. cbn [diverge] in Hq. rewrite apart_refl, bool_decide_eq_true_2 in Hq by done. exact Hq.
    + specialize (Hq STAR []). unfold cobo_path in Hq. cbn [diverge] in Hq. unfold apart in Hq. cbn [fst snd] in Hq.
      by rewrite bool_decide_eq_true_2, bool_decide_eq_false_2 in Hq by done.
  - intros inst ids. unfold cobo_path. rewrite !text_at_cons, Hchild. cbn [fst snd].
    destruct (child cobo INSTANCE (Some inst)) as [c |] eqn:Ec; [| by destruct (_ && _)]. rewrite bool_decide_eq_true_2 by done.
    destruct (child_answers cobo (INSTANCE, Some inst) c Ec) as [[_ [? | Hid]]%answers_spec _]; [done |]. cbn [snd] in Hid.
    unfold knob_leaf, f. rewrite (proj2 (Hf c (tidy_child cobo (INSTANCE, Some inst) c Hcobo Ec)) ids), Hid.
    unfold all_star. rewrite (bool_decide_ext (Some inst = Some STAR) (inst = STAR)); [done |]. split; congruence.
Qed.

(** The instance that is written: the CoBo of every instance. *)
Definition has_star (cobo : Element) : Prop := child cobo INSTANCE (Some STAR) <> None.

Lemma remove_has_star spec cobo : has_star (remove_knob_from_explicit_nodes spec cobo) <-> has_star cobo.
Proof.
  unfold has_star. pose proof (child_each INSTANCE (fun instance => for_each_scope_node (depth (scope spec)) 0 (bool_decide (el_id instance = Some STAR))
    (unless_star (suffix spec)) instance) cobo (INSTANCE, Some STAR) (fun c => scope_tag _ _ _ _ c)) as Hc. cbn [fst snd] in Hc.
  unfold remove_knob_from_explicit_nodes. unfold unless_star in Hc. rewrite Hc. by destruct (child cobo INSTANCE (Some STAR)).
Qed.

Lemma write_knob_star spec ids text cobo cobo' : write_knob spec ids text cobo = Ok cobo' -> has_star cobo.
Proof.
  unfold write_knob. destruct (find_child cobo INSTANCE (Some STAR)) as [i |] eqn:Hf; [| done]. intros _.
  destruct (find_child_some cobo (INSTANCE, Some STAR) i Hf) as (c & _ & _ & _ & Hc & _). unfold has_star. cbn [fst snd] in Hc. by rewrite Hc.
Qed.

Lemma write_knob_keeps spec ids text cobo : spec ∈ KNOBS -> tidy cobo -> has_star cobo -> exists cobo',
  write_knob spec ids text cobo = Ok cobo' /\ has_star cobo' /\
  keeps (fun q => diverge q (cobo_path STAR spec ids) = true) cobo cobo' /\ text_at (cobo_path STAR spec ids) cobo' = Some text.
Proof.
  intros Hspec Hcobo Hstar. destruct (knob_has_leaf spec Hspec) as (leaf & Hlast & _ & Hsuf). unfold write_knob, has_star, cobo_path in *.
  destruct (find_child cobo INSTANCE (Some STAR)) as [i |] eqn:Hf; [| destruct (find_child_none cobo (INSTANCE, Some STAR) Hf); done].
  destruct (find_child_some cobo (INSTANCE, Some STAR) i Hf) as (c & _ & _ & Hat & Hc & _). rewrite Hat, Hlast.
  destruct (write_at_keeps (level_steps (depth (scope spec)) 1 ids ++ map (fun name => (name, None)) (removelast (suffix spec))) leaf 2 text c)
    as (c' & -> & Hkeep & Hset); [exact (tidy_child cobo (INSTANCE, Some STAR) c Hcobo Hc) | apply level_places; pose proof (depth_le (scope spec)); lia |].
  assert (Hpath : (level_steps (depth (scope spec)) 1 ids ++ map (fun name => (name, None)) (removelast (suffix spec))) ++ [(leaf, None)] = knob_leaf spec ids).
  { unfold knob_leaf, leaf_path. rewrite <- app_assoc. f_equal. rewrite Hsuf at 2. by rewrite map_app. }
  rewrite Hpath in *. exists (put_child cobo i c'). cbn [result_bind].
  destruct (child_put cobo (INSTANCE, Some STAR) i c c' (INSTANCE, Some STAR) Hf Hat (keeps_tag _ _ _ Hkeep)) as [Hput _]. cbn [fst snd] in Hput.
  split; [done |]. split; [by rewrite Hput |]. split; [by apply (child_put_keeps (INSTANCE, Some STAR) _ cobo i c) |].
  rewrite text_at_cons. cbn [fst snd]. by rewrite Hput.
Qed.

(** ** The places of the exceptions *)

Fixpoint ids_from (t : TemplateIds) (d : nat) (ids : list string) : bool :=
  match ids with
  | [] => true
  | i :: ids => bool_decide (i ∈ ids_at_depth t d) && ids_from t (S d) ids
  end.

(** The exception is for the place: its ids lead, the others are the template's. *)
Definition covers (t : TemplateIds) (e : Exception) (ids : list string) : bool :=
  bool_decide (take (at_depth (ex_at e)) ids = at_ids (ex_at e)) && ids_from t (S (at_depth (ex_at e))) (drop (at_depth (ex_at e)) ids).

(** The last exception of a knob for a place. *)
Fixpoint last_for (t : TemplateIds) (es : list Exception) (knob : string) (ids : list string) : option Value :=
  match es with
  | [] => None
  | e :: es =>
      match last_for t es knob ids with
      | Some v => Some v
      | None => if bool_decide (ex_knob e = knob) && covers t e ids then Some (ex_value e) else None
      end
  end.

Lemma one_level_elem ids targets x : x ∈ one_level ids targets <-> exists p i, p ∈ targets /\ i ∈ ids /\ x = p ++ [i].
Proof.
  unfold one_level. rewrite list_elem_of_In, in_concat. split.
  - intros (l & (p & <- & Hp)%in_map_iff & (i & <- & Hi)%in_map_iff). exists p, i. by rewrite !list_elem_of_In.
  - intros (p & i & Hp & Hi & ->). exists (map (fun id => p ++ [id]) ids).
    split; apply in_map_iff; [exists p | exists i]; by rewrite <- list_elem_of_In.
Qed.

Lemma expand_levels_elem t a knob n d targets targets' : expand_levels t a knob n d targets = Ok targets' ->
  forall x, x ∈ targets' <-> exists p tl, x = p ++ tl /\ p ∈ targets /\ length tl = n /\ ids_from t d tl = true.
Proof.
  revert d targets. induction n as [| n IH]; intros d targets; cbn [expand_levels].
  { intros [= <-] x. split; [intros Hx; exists x, []; by rewrite app_nil_r |]. intros (p & tl & -> & Hp & ->%length_zero_iff_nil & _).
    by rewrite app_nil_r. }
  destruct (ids_at_depth t d) as [| i0 ids] eqn:Ei; [done |]. rewrite <- Ei. intros H x. rewrite (IH _ _ H x). split.
  - intros (p & tl & -> & (p' & i & Hp & Hi & ->)%one_level_elem & Hl & Hf). exists p', (i :: tl). rewrite <- app_assoc.
    split_and!; [done | done | by rewrite <- Hl |]. cbn [ids_from]. by rewrite bool_decide_eq_true_2, Hf.
  - intros (p & [| i tl] & -> & Hp & Hl & Hf); [done |]. injection Hl as Hl. cbn [ids_from] in Hf.
    apply andb_true_iff in Hf as [Hi%bool_decide_eq_true Hf]. exists (p ++ [i]), tl. rewrite <- app_assoc.
    split_and!; try done. apply one_level_elem. by exists p, i.
Qed.

Lemma at_ids_length a : (0 < at_depth a)%nat -> length (at_ids a) = at_depth a.
Proof. destruct a as [[|] [|] [|]]; cbn; lia. Qed.

Lemma expand_covers t e spec targets : (0 < at_depth (ex_at e) <= depth (scope spec))%nat ->
  expand t (ex_at e) spec (ex_knob e) = Ok targets ->
  (forall ids, ids ∈ targets -> length ids = depth (scope spec)) /\
  forall ids, length ids = depth (scope spec) -> ids ∈ targets <-> covers t e ids = true.
Proof.
  intros Hd H. pose proof (expand_levels_elem _ _ _ _ _ _ _ H) as Hx. pose proof (at_ids_length (ex_at e)) as Hlen. split.
  - intros ids (p & tl & -> & ->%list_elem_of_singleton & Hl & _)%Hx. rewrite length_app. lia.
  - intros ids Hids. rewrite Hx. unfold covers. rewrite andb_true_iff, bool_decide_eq_true. split.
    + intros (p & tl & -> & ->%list_elem_of_singleton & Hl & Hf). rewrite take_app_length', drop_app_length' by lia. done.
    + intros [Hp Hf]. exists (at_ids (ex_at e)), (drop (at_depth (ex_at e)) ids). split_and!; try done.
      * by rewrite <- Hp, take_drop.
      * by apply list_elem_of_singleton.
      * by rewrite length_drop, Hids.
Qed.

(** ** The exception that counts *)

(** The ids that the channel [a], [g], [c] has for a knob. *)
Definition place_of (spec : KnobSpec) (a g c : Z) : list string := take (depth (scope spec)) [dec a; dec g; dec c].

Definition in_template (t : TemplateIds) (a g c : Z) : Prop :=
  dec a ∈ ids_at_depth t 1 /\ dec g ∈ ids_at_depth t 2 /\ dec c ∈ ids_at_depth t 3.

(** The fields are unsigned. *)
Definition at_unsigned (a : At) : Prop := forall x, asad a = Some x \/ aget a = Some x \/ ch a = Some x -> 0 <= x.

(** The exceptions of a knob are listed from the coarse to the fine. *)
Fixpoint coarse_first (es : list Exception) : bool :=
  match es with
  | [] => true
  | e :: es =>
      forallb (fun e' => negb (bool_decide (ex_knob e' = ex_knob e)) || (at_depth (ex_at e) <=? at_depth (ex_at e'))%nat) es && coarse_first es
  end.

Lemma dec_star x : dec x <> STAR.
Proof. intros E. pose proof (dec_digits x) as H. by rewrite E in H. Qed.

Lemma dec_eq a b : 0 <= a -> 0 <= b -> bool_decide (dec a = dec b) = (b =? a).
Proof.
  intros Ha Hb. destruct (Z.eqb_spec b a) as [-> |]; [by apply bool_decide_eq_true_2 |]. apply bool_decide_eq_false_2.
  intros E%dec_inj; [congruence | done | done].
Qed.

Lemma list_eq_cons (x y : string) l l' : bool_decide (x :: l = y :: l') = bool_decide (x = y) && bool_decide (l = l').
Proof. rewrite <- bool_decide_and. apply bool_decide_ext. split; [by intros [= -> ->] | by intros [-> ->]]. Qed.

(** An exception is for the place of a channel exactly when it matches the channel. *)
Lemma covers_matches t e spec a g c : (0 < at_depth (ex_at e) <= depth (scope spec))%nat -> at_unsigned (ex_at e) ->
  0 <= a -> 0 <= g -> 0 <= c -> in_template t a g c -> covers t e (place_of spec a g c) = at_matches (ex_at e) a g c.
Proof.
  intros Hd Hu Ha Hg Hc (H1 & H2 & H3). unfold covers, place_of, at_matches.
  assert (Hf : forall x, asad (ex_at e) = Some x \/ aget (ex_at e) = Some x \/ ch (ex_at e) = Some x -> 0 <= x) by exact Hu.
  destruct (ex_at e) as [[x |] [y |] [z |]]; cbn [asad aget ch at_depth] in *; try lia;
    destruct (scope spec); cbn [depth] in *; try lia; cbn [take drop ids_from at_ids opt_list app map asad aget ch];
    rewrite ?(bool_decide_eq_true_2 (dec a ∈ _)), ?(bool_decide_eq_true_2 (dec g ∈ _)), ?(bool_decide_eq_true_2 (dec c ∈ _)) by done;
    rewrite ?list_eq_cons, ?dec_eq by auto; rewrite ?bool_decide_eq_true_2 by done; rewrite ?andb_true_r, <- ?andb_assoc; done.
Qed.

Lemma covers_star t e spec : (0 < at_depth (ex_at e) <= depth (scope spec))%nat -> covers t e (replicate (depth (scope spec)) STAR) = false.
Proof.
  intros Hd. unfold covers. rewrite bool_decide_eq_false_2; [done |]. intros E. pose proof (at_ids_length (ex_at e)) as Hlen.
  destruct (at_depth (ex_at e)) as [| k]; [lia |]. destruct (depth (scope spec)) as [| n]; [lia |].
  unfold at_ids in E. cbn [replicate take] in E.
  destruct (opt_list (asad (ex_at e)) ++ opt_list (aget (ex_at e)) ++ opt_list (ch (ex_at e))) as [| x l]; [done |].
  injection E as E _. by apply (dec_star x).
Qed.

Lemma last_for_star t es spec : Forall exception_ok es -> spec ∈ KNOBS -> last_for t es (knob_name spec) (replicate (depth (scope spec)) STAR) = None.
Proof.
  intros Hes Hspec. induction Hes as [| e es (spec' & Hspec' & Hname & Hd & _) _ IH]; cbn [last_for]; [done |]. rewrite IH.
  destruct (bool_decide (ex_knob e = knob_name spec)) eqn:En; [| done]. apply bool_decide_eq_true in En.
  assert (spec' = spec) as -> by (apply same_name; congruence). by rewrite covers_star.
Qed.

(** Two exceptions of one depth that match a channel are for one place. *)
Lemma same_at a b x y z : at_depth a = at_depth b -> (0 < at_depth a)%nat -> at_matches a x y z = true -> at_matches b x y z = true -> a = b.
Proof.
  unfold at_matches. destruct a as [[a1 |] [a2 |] [a3 |]], b as [[b1 |] [b2 |] [b3 |]]; cbn [at_depth asad aget ch]; try lia; intros _ _;
    rewrite ?andb_true_iff, ?Z.eqb_eq; intros H1 H2; destruct_and?; by subst.
Qed.

(** When they are listed from the coarse to the fine, the last is the finest. *)
Lemma last_is_best t es spec a g c best : Forall exception_ok es -> Forall (fun e => at_unsigned (ex_at e)) es ->
  NoDup (map exception_key es) -> coarse_first es = true -> spec ∈ KNOBS -> 0 <= a -> 0 <= g -> 0 <= c -> in_template t a g c ->
  Forall (fun e => ex_knob e = knob_name spec -> at_matches (ex_at e) a g c = true ->
    match best with Some (d, _) => (d < at_depth (ex_at e))%nat | None => True end) es ->
  match last_for t es (knob_name spec) (place_of spec a g c) with
  | Some v => exists d, best_match es (knob_name spec) a g c best = Some (d, v)
  | None => best_match es (knob_name spec) a g c best = best
  end.
Proof.
  intros Hes. revert best. induction Hes as [| e es He Hes IH]; intros best Hu Hnd Hco Hspec Ha Hg Hc Ht Hbest; [done |].
  apply list.Forall_cons in Hu as [Hue Hu]. apply list.Forall_cons in Hbest as [Hbe Hbest].
  cbn [map] in Hnd. apply list.NoDup_cons in Hnd as [Hnew Hnd]. cbn [coarse_first] in Hco. apply andb_true_iff in Hco as [Hce Hco].
  cbn [last_for best_match]. destruct He as (spec' & Hspec' & Hname & Hd & _).
  destruct (bool_decide (ex_knob e = knob_name spec)) eqn:En; cbn [negb orb andb].
  2: { specialize (IH best Hu Hnd Hco Hspec Ha Hg Hc Ht Hbest). by destruct (last_for t es _ _). }
  apply bool_decide_eq_true in En. assert (spec' = spec) as -> by (apply same_name; congruence).
  rewrite (covers_matches t e spec) by done. destruct (at_matches (ex_at e) a g c) eqn:Em; cbn [negb].
  2: { specialize (IH best Hu Hnd Hco Hspec Ha Hg Hc Ht Hbest). by destruct (last_for t es _ _). }
  set (better := match best with Some (d', _) => (d' <? at_depth (ex_at e))%nat | None => true end).
  assert (better = true) as ->.
  { specialize (Hbe En eq_refl). subst better. destruct best as [[d v] |]; [by apply Nat.ltb_lt | done]. }
  specialize (IH (Some (at_depth (ex_at e), ex_value e)) Hu Hnd Hco Hspec Ha Hg Hc Ht).
  destruct (last_for t es _ _) as [v |]; [apply IH | exists (at_depth (ex_at e)); rewrite IH; [done |]];
    (apply list.Forall_forall; intros e' He' En' Em'; rewrite forallb_forall in Hce; rewrite list_elem_of_In in He'; specialize (Hce e' He');
     rewrite bool_decide_eq_true_2 in Hce by congruence; cbn [negb orb] in Hce; apply Nat.leb_le in Hce;
     destruct (decide (at_depth (ex_at e) = at_depth (ex_at e'))) as [Eq |]; [| lia]; exfalso; apply Hnew;
     apply list_elem_of_fmap; exists e'; split; [| by apply list_elem_of_In];
     unfold exception_key; rewrite (same_at (ex_at e) (ex_at e') a g c); [congruence | done | lia | done | done]).
Qed.

(** ** The values that are written *)

(** A path that parts from every place of every knob. *)
Definition unmanaged (q : list place) : Prop := forall spec inst ids, spec ∈ KNOBS -> diverge q (cobo_path inst spec ids) = true.

(** A path that parts from every place of every knob in the CoBo of all instances. *)
Definition off_star (q : list place) : Prop := forall spec ids, spec ∈ KNOBS -> diverge q (cobo_path STAR spec ids) = true.

Lemma off_star_unmanaged q : unmanaged q -> off_star q.
Proof. intros H spec ids. apply H. Qed.

Lemma off_star_instance inst spec ids : inst <> STAR -> off_star (cobo_path inst spec ids).
Proof.
  intros Hi spec' ids' _. unfold cobo_path. cbn [diverge]. unfold apart. cbn [fst snd].
  by rewrite (bool_decide_eq_false_2 (inst = STAR)), orb_true_r by done.
Qed.

(** A value: the text at the place of a knob in an instance of the CoBo, and in the
    CoBo of all instances. *)
Definition setting_in (cobo : Element) (inst : string) (spec : KnobSpec) (ids : list string) : option string := text_at (cobo_path inst spec ids) cobo.
Definition setting (cobo : Element) (spec : KnobSpec) (ids : list string) : option string := text_at (cobo_path STAR spec ids) cobo.

Lemma cobo_path_diverge spec ids spec' ids' : spec ∈ KNOBS -> spec' ∈ KNOBS -> spec <> spec' ->
  diverge (cobo_path STAR spec ids) (cobo_path STAR spec' ids') = true.
Proof. intros. unfold cobo_path. by rewrite diverge_cons, knobs_diverge. Qed.

Lemma cobo_path_ids spec ids ids' : length ids = depth (scope spec) -> length ids' = depth (scope spec) -> ids <> ids' ->
  diverge (cobo_path STAR spec ids) (cobo_path STAR spec ids') = true.
Proof. intros H1 H2 Hne. unfold cobo_path. rewrite diverge_cons. apply levels_diverge. intros E. by apply Hne, (levels_inj (depth (scope spec)) 1). Qed.

Section Written.
Context (xml_escape : string -> string) (show_json : Value -> string) (show_f64 : f64 -> string).

Lemma write_targets_values spec targets text cobo : spec ∈ KNOBS -> tidy cobo -> has_star cobo ->
  (forall ids, ids ∈ targets -> length ids = depth (scope spec)) -> exists cobo',
  write_targets xml_escape spec targets text cobo = Ok cobo' /\ has_star cobo' /\
  keeps (fun q => forall ids, ids ∈ targets -> diverge q (cobo_path STAR spec ids) = true) cobo cobo' /\
  forall ids, ids ∈ targets -> setting cobo' spec ids = Some (xml_escape text).
Proof.
  intros Hspec. revert cobo. induction targets as [| target targets IH]; intros cobo Hcobo Hstar Hlen; cbn [write_targets].
  { exists cobo. split; [done |]. split; [done |]. split; [apply keeps_refl |]. intros ids Hids. by apply elem_of_nil in Hids. }
  destruct (write_knob_keeps spec target (xml_escape text) cobo Hspec Hcobo Hstar) as (cobo1 & -> & Hstar1 & Hkeep1 & Hset1). cbn [result_bind].
  destruct (IH cobo1 (keeps_tidy _ _ _ Hkeep1 Hcobo) Hstar1) as (cobo2 & -> & Hstar2 & Hkeep2 & Hset2); [intros ids Hids; apply Hlen; by right |].
  exists cobo2. split; [done |]. split; [done |]. split.
  - eapply keeps_weaken; [exact (keeps_then _ _ _ _ _ Hkeep1 Hkeep2) |]. intros q Hq. split; [apply Hq; by left |]. intros ids Hids. apply Hq. by right.
  - intros ids Hids. destruct (decide (ids ∈ targets)) as [Hin | Hin]; [by apply Hset2 |].
    apply elem_of_cons in Hids as [-> | Hids]; [| done]. unfold setting. rewrite (keeps_text _ _ _ Hkeep2); [done |].
    intros ids Hids. apply cobo_path_ids; [apply Hlen; by left | apply Hlen; by right |]. by intros ->.
Qed.

(** What the exceptions leave: at the place of a knob the value of the last that is
    for it, or what was there. *)
Definition after_exceptions (t : TemplateIds) (es : list Exception) (cobo cobo' : Element) : Prop :=
  forall spec ids, spec ∈ KNOBS -> length ids = depth (scope spec) ->
  match last_for t es (knob_name spec) ids with
  | Some v => exists text, knob_text show_json show_f64 spec v = Ok text /\ setting cobo' spec ids = Some (xml_escape text)
  | None => setting cobo' spec ids = setting cobo spec ids
  end.

Lemma write_exception_values t e cobo cobo1 : exception_ok e -> tidy cobo -> has_star cobo ->
  write_specs xml_escape show_json show_f64 t e (knob_specs (ex_knob e)) cobo = Ok cobo1 ->
  has_star cobo1 /\ keeps off_star cobo cobo1 /\ after_exceptions t [e] cobo cobo1.
Proof.
  intros (spec & Hspec & Hname & Hd & _) Hcobo Hstar. rewrite <- Hname, (knob_specs_of spec Hspec). cbn [write_specs].
  destruct (knob_text show_json show_f64 spec (ex_value e)) as [text |] eqn:Et; [| done]. cbn [result_bind].
  destruct (expand t (ex_at e) spec (ex_knob e)) as [targets |] eqn:Ex; [| done]. cbn [result_bind].
  destruct (expand_covers t e spec targets Hd Ex) as [Hlen Hcov].
  destruct (write_targets_values spec targets text cobo Hspec Hcobo Hstar Hlen) as (cobo2 & -> & Hstar2 & Hkeep2 & Hset2).
  intros [= <-]. split; [done |]. split; [eapply keeps_weaken; [exact Hkeep2 |]; intros q Hq ids _; by apply Hq |].
  intros spec' ids Hspec' Hids. cbn [last_for]. destruct (bool_decide (ex_knob e = knob_name spec')) eqn:En; cbn [andb].
  - apply bool_decide_eq_true in En. assert (spec' = spec) as -> by (apply same_name; [done | done | congruence]).
    destruct (covers t e ids) eqn:Ec.
    + exists text. split; [done |]. apply Hset2. by apply Hcov.
    + apply (keeps_text _ _ _ Hkeep2). intros ids' Hids'. apply cobo_path_ids; [done | by apply Hlen |]. intros ->.
      apply Hcov in Hids'; [congruence | done].
  - apply bool_decide_eq_false in En. apply (keeps_text _ _ _ Hkeep2). intros ids' _. apply cobo_path_diverge; [done | done |]. congruence.
Qed.

Lemma write_exceptions_values t es cobo cobo' : Forall exception_ok es -> tidy cobo -> has_star cobo ->
  write_exceptions xml_escape show_json show_f64 t es cobo = Ok cobo' -> keeps off_star cobo cobo' /\ after_exceptions t es cobo cobo'.
Proof.
  intros Hes. revert cobo. induction Hes as [| e es He _ IH]; intros cobo Hcobo Hstar; cbn [write_exceptions].
  { intros [= <-]. split; [apply keeps_refl |]. by intros spec ids. }
  destruct (knob_spec (ex_knob e)); [| done].
  destruct (write_specs xml_escape show_json show_f64 t e (knob_specs (ex_knob e)) cobo) as [cobo1 |] eqn:E; [| done]. cbn [result_bind].
  destruct (write_exception_values t e cobo cobo1 He Hcobo Hstar E) as (Hstar1 & Hkeep1 & Hone). intros H.
  destruct (IH cobo1 (keeps_tidy _ _ _ Hkeep1 Hcobo) Hstar1 H) as [Hkeep2 Hrest].
  split; [eapply keeps_weaken; [exact (keeps_then _ _ _ _ _ Hkeep1 Hkeep2) | done] |].
  intros spec ids Hspec Hids. specialize (Hone spec ids Hspec Hids). specialize (Hrest spec ids Hspec Hids). cbn [last_for] in *.
  destruct (last_for t es (knob_name spec) ids); [done |]. rewrite Hrest. exact Hone.
Qed.

(** What the uniform values leave. *)
Definition after_uniform (specs : list KnobSpec) (knobs : list (string * Value)) (cobo' : Element) : Prop :=
  forall spec inst ids, spec ∈ specs -> exists v text, lookup_knob knobs (knob_name spec) = Some v /\
    knob_text show_json show_f64 spec v = Ok text /\
    text_at (cobo_path inst spec ids) cobo' = if bool_decide (inst = STAR) && all_star spec ids then Some (xml_escape text) else None.

Lemma star_path spec inst ids : bool_decide (inst = STAR) && all_star spec ids = true -> cobo_path inst spec ids = cobo_path STAR spec [].
Proof. intros [->%bool_decide_eq_true H%all_star_levels]%andb_true_iff. unfold cobo_path, knob_leaf. by rewrite H. Qed.

Lemma star_diverge spec inst ids : bool_decide (inst = STAR) && all_star spec ids = false -> diverge (cobo_path inst spec ids) (cobo_path STAR spec []) = true.
Proof.
  unfold cobo_path. cbn [diverge]. intros [H%bool_decide_eq_false | H]%andb_false_iff.
  - unfold apart. cbn [fst snd]. by rewrite (bool_decide_eq_false_2 (inst = STAR)), orb_true_r.
  - destruct (decide (inst = STAR)) as [-> | Hi].
    + rewrite apart_refl, (bool_decide_eq_true_2 (_ = _)) by done. apply levels_diverge. intros E. apply all_star_levels in E. unfold all_star in H. congruence.
    + unfold apart. cbn [fst snd]. by rewrite (bool_decide_eq_false_2 (inst = STAR)), orb_true_r.
Qed.

Lemma cobo_path_specs inst spec ids spec' inst' ids' : spec ∈ KNOBS -> spec' ∈ KNOBS -> spec <> spec' ->
  diverge (cobo_path inst spec ids) (cobo_path inst' spec' ids') = true.
Proof.
  intros H1 H2 Hne. apply part_diverge. unfold cobo_path. cbn [skeleton map part fst snd]. rewrite bool_decide_eq_true_2 by done.
  fold (skeleton (knob_leaf spec ids)). fold (skeleton (knob_leaf spec' ids')). rewrite !skeleton_knob.
  destruct (knobs_part spec spec' H1 H2) as [Hn | ->]; [destruct Hne; by apply same_name | by rewrite orb_true_r].
Qed.

Lemma write_uniform_values specs knobs cobo cobo' : (forall spec, spec ∈ specs -> spec ∈ KNOBS) -> NoDup (map knob_name specs) ->
  tidy cobo -> has_star cobo -> write_uniform xml_escape show_json show_f64 specs knobs cobo = Ok cobo' ->
  has_star cobo' /\ tidy cobo' /\
  (forall q, (forall spec inst ids, spec ∈ specs -> diverge q (cobo_path inst spec ids) = true) -> text_at q cobo' = text_at q cobo) /\
  after_uniform specs knobs cobo'.
Proof.
  revert cobo. induction specs as [| spec specs IH]; intros cobo Hin Hnd Hcobo Hstar; cbn [write_uniform].
  { intros [= <-]. split; [done |]. split; [exact Hcobo |]. split; [done |]. intros spec inst ids Hs. by apply elem_of_nil in Hs. }
  destruct (lookup_knob knobs (knob_name spec)) as [v |] eqn:Ev; [| done].
  destruct (knob_text show_json show_f64 spec v) as [text |] eqn:Et; [| done]. cbn [result_bind].
  assert (Hspec : spec ∈ KNOBS) by (apply Hin; by left).
  destruct (remove_knob_keeps spec cobo Hspec Hcobo) as [Hkeep1 Hgone]. set (cobo1 := remove_knob_from_explicit_nodes spec cobo) in *.
  pose proof (keeps_tidy _ _ _ Hkeep1 Hcobo) as Hcobo1.
  assert (Hstar1 : has_star cobo1) by by apply remove_has_star.
  destruct (write_knob_keeps spec [] (xml_escape text) cobo1 Hspec Hcobo1 Hstar1) as (cobo2 & -> & Hstar2 & Hkeep2 & Hset). cbn [result_bind].
  cbn [map] in Hnd. apply list.NoDup_cons in Hnd as [Hnew Hnd]. intros H.
  destruct (IH cobo2 (fun s Hs => Hin s (list_elem_of_further _ _ _ Hs)) Hnd (keeps_tidy _ _ _ Hkeep2 Hcobo1) Hstar2 H) as (Hstar' & Hcobo' & Hframe & Hrest).
  split; [done |]. split; [exact Hcobo' |]. split.
  - intros q Hq. rewrite Hframe by (intros s inst ids Hs; apply Hq; by right). rewrite (keeps_text _ _ _ Hkeep2) by (apply Hq; by left).
    apply (keeps_text _ _ _ Hkeep1). intros inst ids. apply Hq. by left.
  - intros s inst ids [-> | Hs]%elem_of_cons; [| by apply Hrest]. exists v, text. split; [done |]. split; [done |].
    rewrite Hframe.
    2: { intros s inst' ids' Hs. apply cobo_path_specs; [done | apply Hin; by right |]. intros ->. apply Hnew. by apply list_elem_of_fmap_2. }
    destruct (bool_decide (inst = STAR) && all_star spec ids) eqn:Es; [by rewrite (star_path spec inst ids Es) |].
    rewrite (keeps_text _ _ _ Hkeep2) by by apply star_diverge. by rewrite Hgone, Es.
Qed.

Lemma render_star p cobo cobo' : render_cobo xml_escape show_json show_f64 p cobo = Ok cobo' -> has_star cobo.
Proof.
  unfold render_cobo. destruct (check_exception_targets _ _); [| done]. cbn [result_bind].
  destruct (check_no_trigger_period_10ns cobo); [| done]. cbn [result_bind]. unfold KNOBS at 1. cbn [write_uniform].
  destruct (lookup_knob _ _); [| done]. destruct (knob_text _ _ _ _); [| done]. cbn [result_bind].
  destruct (write_knob _ _ _ _) eqn:E; [| done]. intros _. apply write_knob_star in E. by apply remove_has_star in E.
Qed.

Lemma render_cobo_steps p cobo cobo' : Forall exception_ok (exceptions p) -> tidy cobo ->
  render_cobo xml_escape show_json show_f64 p cobo = Ok cobo' -> exists cobo1,
  (forall q, unmanaged q -> text_at q cobo' = text_at q cobo) /\ after_uniform KNOBS (knobs p) cobo1 /\
  (forall q, off_star q -> text_at q cobo' = text_at q cobo1) /\ after_exceptions (collect cobo) (exceptions p) cobo1 cobo'.
Proof.
  intros Hes Hcobo Hrender. pose proof (render_star _ _ _ Hrender) as Hstar. unfold render_cobo in Hrender.
  destruct (check_exception_targets _ _); [| done]. cbn [result_bind] in Hrender.
  destruct (check_no_trigger_period_10ns cobo); [| done]. cbn [result_bind] in Hrender.
  destruct (write_uniform xml_escape show_json show_f64 KNOBS (knobs p) cobo) as [cobo1 |] eqn:E; [| done]. cbn [result_bind] in Hrender.
  destruct (write_uniform_values KNOBS (knobs p) cobo cobo1) as (Hstar1 & Htidy1 & Hframe & Huni); try done; [exact knob_names_distinct |].
  destruct (write_exceptions_values _ _ _ _ Hes Htidy1 Hstar1 Hrender) as [Hkeep Hafter]. exists cobo1. split_and!; [| done | by apply (keeps_text _ _ _ Hkeep) | done].
  intros q Hq. rewrite (keeps_text _ _ _ Hkeep q (off_star_unmanaged q Hq)). apply Hframe. intros spec inst ids. apply Hq.
Qed.

(** The uniform value is on the chain of stars. *)
Lemma render_uniform p cobo cobo' spec : Forall exception_ok (exceptions p) -> tidy cobo ->
  render_cobo xml_escape show_json show_f64 p cobo = Ok cobo' -> spec ∈ KNOBS -> exists v text,
  lookup_knob (knobs p) (knob_name spec) = Some v /\ knob_text show_json show_f64 spec v = Ok text /\ setting cobo' spec [] = Some (xml_escape text).
Proof.
  intros Hes Hcobo Hrender Hspec. destruct (render_cobo_steps p cobo cobo' Hes Hcobo Hrender) as (cobo1 & _ & Huni & _ & Hafter).
  specialize (Hafter spec (replicate (depth (scope spec)) STAR) Hspec (length_replicate _ _)).
  rewrite last_for_star in Hafter by done. unfold setting in *. destruct (Huni spec STAR [] Hspec) as (v & text & Hv & Ht & Htext).
  exists v, text. split_and!; [done | done |]. rewrite (star_path spec STAR (replicate _ _)) in Hafter.
  - rewrite Hafter, Htext. assert (Hempty : all_star spec [] = true) by by apply all_star_levels. by rewrite Hempty, bool_decide_eq_true_2.
  - apply andb_true_iff. split; [by apply bool_decide_eq_true_2 |]. apply all_star_levels, star_levels.
Qed.

(** An instance of its own has none of the values of the knobs. *)
Lemma render_no_instance p cobo cobo' spec inst ids : Forall exception_ok (exceptions p) -> tidy cobo ->
  render_cobo xml_escape show_json show_f64 p cobo = Ok cobo' -> spec ∈ KNOBS -> inst <> STAR -> setting_in cobo' inst spec ids = None.
Proof.
  intros Hes Hcobo Hrender Hspec Hinst. destruct (render_cobo_steps p cobo cobo' Hes Hcobo Hrender) as (cobo1 & _ & Huni & Hoff & _).
  unfold setting_in. rewrite Hoff by by apply off_star_instance. destruct (Huni spec inst ids Hspec) as (v & text & _ & _ & ->).
  by rewrite (bool_decide_eq_false_2 (inst = STAR)).
Qed.

(** At a place that no exception is for: the uniform value on the chain of stars. *)
Lemma render_default p cobo cobo' spec ids : Forall exception_ok (exceptions p) -> tidy cobo ->
  render_cobo xml_escape show_json show_f64 p cobo = Ok cobo' -> spec ∈ KNOBS -> length ids = depth (scope spec) ->
  last_for (collect cobo) (exceptions p) (knob_name spec) ids = None -> exists v text,
  lookup_knob (knobs p) (knob_name spec) = Some v /\ knob_text show_json show_f64 spec v = Ok text /\
  setting cobo' spec ids = if all_star spec ids then Some (xml_escape text) else None.
Proof.
  intros Hes Hcobo Hrender Hspec Hids Hlast. destruct (render_cobo_steps p cobo cobo' Hes Hcobo Hrender) as (cobo1 & _ & Huni & _ & Hafter).
  specialize (Hafter spec ids Hspec Hids). rewrite Hlast in Hafter.
  destruct (Huni spec STAR ids Hspec) as (v & text & Hv & Ht & Htext). exists v, text. split_and!; try done. rewrite Hafter. unfold setting. by rewrite Htext.
Qed.

(** C15: In a rendered template every knob has, at every place of the CoBo of all
    instances, the value of the last exception for it that is for the place; where
    there is none it has the uniform value on the chain of stars, and none at all
    elsewhere; and at no place of an instance with an id of its own is there a value
    of a knob.  Whatever the template had: nothing that was left in it wins over the
    parameters. *)
Theorem render_values p cobo cobo' spec ids
    (Hes : Forall exception_ok (exceptions p)) (Hcobo : tidy cobo)
    (Hrender : render_cobo xml_escape show_json show_f64 p cobo = Ok cobo')
    (Hspec : spec ∈ KNOBS) (Hids : length ids = depth (scope spec)) :
  match last_for (collect cobo) (exceptions p) (knob_name spec) ids with
  | Some v => exists text, knob_text show_json show_f64 spec v = Ok text /\ setting cobo' spec ids = Some (xml_escape text)
  | None =>
      exists v text, lookup_knob (knobs p) (knob_name spec) = Some v /\ knob_text show_json show_f64 spec v = Ok text /\
        setting cobo' spec ids = if all_star spec ids then Some (xml_escape text) else None
  end /\
  forall inst, inst <> STAR -> setting_in cobo' inst spec ids = None.
Proof.
  split; [| by intros inst; apply (render_no_instance p cobo)].
  destruct (last_for _ _ _ _) eqn:El; [| by apply (render_default p cobo)].
  destruct (render_cobo_steps p cobo cobo' Hes Hcobo Hrender) as (cobo1 & _ & Huni & _ & Hafter).
  specialize (Hafter spec ids Hspec Hids). by rewrite El in Hafter.
Qed.

(** C17: What is not a managed knob is not touched: on a path that parts from the
    place of every knob the template says after [render] what it said before. *)
Theorem render_untouched p cobo cobo' q
    (Hes : Forall exception_ok (exceptions p)) (Hcobo : tidy cobo)
    (Hrender : render_cobo xml_escape show_json show_f64 p cobo = Ok cobo') (Hq : unmanaged q) :
  text_at q cobo' = text_at q cobo.
Proof. destruct (render_cobo_steps p cobo cobo' Hes Hcobo Hrender) as (cobo1 & Hframe & _). by apply Hframe. Qed.

(** The chains of ids under which a value is looked for: at every level the id itself
    before the star, the outer level first. *)
Fixpoint chains (ids : list string) : list (list string) :=
  match ids with
  | [] => [[]]
  | i :: ids => map (cons i) (chains ids) ++ map (cons STAR) (chains ids)
  end.

Fixpoint first_some {A B : Type} (f : A -> option B) (l : list A) : option B :=
  match l with
  | [] => None
  | x :: l => match f x with Some y => Some y | None => first_some f l end
  end.

(** What a channel of an instance of the CoBo is to be read to have. *)
Definition value_on (cobo : Element) (spec : KnobSpec) (chain : list string) : option string :=
  match chain with
  | inst :: ids => setting_in cobo inst spec ids
  | [] => None
  end.

Definition resolved (cobo : Element) (inst : string) (spec : KnobSpec) (ids : list string) : option string :=
  first_some (value_on cobo spec) (chains (inst :: ids)).

Lemma first_some_only {A B : Type} (f : A -> option B) l y : (forall x, x ∈ l -> f x = None \/ f x = Some y) -> (exists x, x ∈ l /\ f x = Some y) ->
  first_some f l = Some y.
Proof.
  induction l as [| x l IH]; intros Hall (x' & Hx & E); [by apply elem_of_nil in Hx |]. cbn [first_some].
  destruct (Hall x ltac:(by left)) as [Ex | ->]; [| done]. rewrite Ex. apply IH; [intros z Hz; apply Hall; by right |].
  apply elem_of_cons in Hx as [-> | Hx]; [congruence | by exists x'].
Qed.

Lemma chains_self ids : exists l, chains ids = ids :: l.
Proof. induction ids as [| i ids [l IH]]; cbn [chains]; [by eexists |]. rewrite IH. cbn [map app]. by eexists. Qed.

Lemma chains_star ids : replicate (length ids) STAR ∈ chains ids.
Proof.
  induction ids as [| i ids IH]; cbn [chains length replicate]; [by left |]. apply elem_of_app. right.
  by apply list_elem_of_fmap_2.
Qed.

Lemma chains_elem ids c : c ∈ chains ids -> length c = length ids /\ (c = ids \/ STAR ∈ c).
Proof.
  revert c. induction ids as [| i ids IH]; intros c; cbn [chains length].
  - intros ->%list_elem_of_singleton. auto.
  - intros [(c' & -> & Hc)%list_elem_of_fmap | (c' & -> & Hc)%list_elem_of_fmap]%elem_of_app; apply IH in Hc as [Hl Hc]; cbn [length]; (split; [lia |]).
    + destruct Hc as [-> | Hc]; [by left | right; by right].
    + right. by left.
Qed.

(** The star is no id of a template. *)
Lemma collect_ids_star name : forall n, STAR ∉ collect_ids n name.
Proof.
  fix IH 1. intros [[nm id o c b cs] |]; cbn [collect_ids]; [| apply not_elem_of_nil].
  intros [H | H]%elem_of_app.
  - destruct (bool_decide (nm = name)); [| by apply elem_of_nil in H]. destruct id as [id |]; [| by apply elem_of_nil in H].
    case_bool_decide as E; [by apply elem_of_nil in H |]. apply list_elem_of_singleton in H. congruence.
  - induction cs as [| x cs IHcs]; [by apply elem_of_nil in H |]. apply elem_of_app in H as [H | H]; [by apply (IH x) in H | by apply IHcs].
Qed.

Lemma set_insert_elem s l x : x ∈ set_insert s l -> x = s \/ x ∈ l.
Proof.
  induction l as [| t l IH]; cbn [set_insert]; [by intros ->%list_elem_of_singleton; left |].
  case_bool_decide; [by right |]. destruct (String.ltb s t); rewrite !elem_of_cons; naive_solver.
Qed.

Lemma key_insert_elem s l x : x ∈ key_insert s l -> x = s \/ x ∈ l.
Proof.
  induction l as [| t l IH]; cbn [key_insert]; [by intros ->%list_elem_of_singleton; left |].
  destruct (id_key t <=? id_key s); rewrite !elem_of_cons; naive_solver.
Qed.

Lemma foldl_insert_elem (f : string -> list string -> list string) ids acc x :
  (forall s l x, x ∈ f s l -> x = s \/ x ∈ l) -> x ∈ foldl (fun l s => f s l) acc ids -> x ∈ ids \/ x ∈ acc.
Proof.
  intros Hf. revert acc. induction ids as [| i ids IH]; intros acc; cbn [foldl]; [by right |].
  intros [H | [-> | H]%Hf]%IH; rewrite elem_of_cons; auto.
Qed.

Lemma no_star_id cobo d : STAR ∉ ids_at_depth (collect cobo) d.
Proof.
  intros H. assert (Hname : exists name, STAR ∈ sorted_ids (ids_below cobo name)).
  { unfold ids_at_depth, collect in H. cbn [map] in H. destruct (d - 1)%nat as [| [| [| n]]]; try (by apply elem_of_nil in H); (exists ASAD; exact H) || (exists AGET; exact H) || (exists CHANNEL; exact H). }
  clear H. destruct Hname as [name H]. unfold sorted_ids in H.
  apply (foldl_insert_elem key_insert) in H as [H | H]; [| by apply elem_of_nil in H | exact key_insert_elem].
  apply (foldl_insert_elem set_insert) in H as [H | H]; [| by apply elem_of_nil in H | exact set_insert_elem].
  unfold ids_below in H. apply list_elem_of_In, in_concat in H as (l & (n & <- & _)%in_map_iff & Hn). apply list_elem_of_In in Hn.
  by apply (collect_ids_star name n).
Qed.

Lemma ids_from_star cobo d ids : STAR ∈ ids -> ids_from (collect cobo) d ids = false.
Proof.
  revert d. induction ids as [| i ids IH]; intros d Hin; [by apply elem_of_nil in Hin |]. cbn [ids_from]. apply elem_of_cons in Hin as [<- | Hin].
  - by rewrite bool_decide_eq_false_2 by apply no_star_id.
  - by rewrite IH, andb_false_r.
Qed.

(** No exception is for a place with a star in it. *)
Lemma covers_no_star cobo e ids : STAR ∈ ids -> covers (collect cobo) e ids = false.
Proof.
  intros Hin. unfold covers. rewrite <- (take_drop (at_depth (ex_at e)) ids) in Hin. apply elem_of_app in Hin as [Hin | Hin].
  - rewrite bool_decide_eq_false_2; [done |]. intros E. rewrite E in Hin. unfold at_ids in Hin.
    apply list_elem_of_fmap in Hin as (x & Hx & _). by apply (dec_star x).
  - by rewrite (ids_from_star cobo), andb_false_r.
Qed.

Lemma last_for_no_star cobo es knob ids : STAR ∈ ids -> last_for (collect cobo) es knob ids = None.
Proof.
  intros Hin. induction es as [| e es IH]; cbn [last_for]; [done |]. by rewrite IH, covers_no_star, andb_false_r.
Qed.

(** C16: When the exceptions of a knob are listed from the coarse to the fine, the
    rendered template gives every channel of the template, in every instance of the
    CoBo, exactly its effective value: the most specific exception that matches it,
    else the uniform value; it is what is found when at every level what has the id
    itself is looked at before what is for all. *)
Theorem render_effective p cobo cobo' spec inst a g c
    (Hes : Forall exception_ok (exceptions p)) (Hu : Forall (fun e => at_unsigned (ex_at e)) (exceptions p))
    (Hnd : NoDup (map exception_key (exceptions p))) (Hco : coarse_first (exceptions p) = true) (Hcobo : tidy cobo)
    (Hrender : render_cobo xml_escape show_json show_f64 p cobo = Ok cobo') (Hspec : spec ∈ KNOBS)
    (Hpos : 0 <= a /\ 0 <= g /\ 0 <= c) (Ht : in_template (collect cobo) a g c) :
  exists v text, effective_value p (knob_name spec) a g c = Some v /\ knob_text show_json show_f64 spec v = Ok text /\
    resolved cobo' inst spec (place_of spec a g c) = Some (xml_escape text).
Proof.
  destruct (render_uniform p cobo cobo' spec Hes Hcobo Hrender Hspec) as (u & utext & Hu1 & Hu2 & Hu3). destruct Hpos as (Ha & Hg & Hc).
  assert (Hlen : length (place_of spec a g c) = depth (scope spec)).
  { unfold place_of. rewrite length_take. cbn [length]. pose proof (depth_le (scope spec)). lia. }
  pose proof (last_is_best (collect cobo) (exceptions p) spec a g c None Hes Hu Hnd Hco Hspec Ha Hg Hc Ht) as Hbest.
  unfold effective_value. rewrite Hu1. set (place := place_of spec a g c) in *.
  assert (Hother : forall ch, ch ∈ chains place -> ch = place \/ setting cobo' spec ch = None \/ setting cobo' spec ch = Some (xml_escape utext)).
  { intros ch Hch. apply chains_elem in Hch as [Hl [-> | Hst]]; [by left |]. right.
    destruct (render_default p cobo cobo' spec ch Hes Hcobo Hrender Hspec ltac:(lia) (last_for_no_star cobo _ _ _ Hst)) as (v & text & Hv & Htext & ->).
    assert (text = utext) as -> by congruence. destruct (all_star spec ch); auto. }
  assert (Hout : forall x, x ∈ chains (inst :: place) -> exists i ch, x = i :: ch /\ ch ∈ chains place /\ (i <> STAR -> setting_in cobo' i spec ch = None) /\ (i = inst \/ i = STAR)).
  { intros x Hx. cbn [chains] in Hx. apply elem_of_app in Hx as [(ch & -> & Hch)%list_elem_of_fmap | (ch & -> & Hch)%list_elem_of_fmap];
      (eexists _, ch; split; [done |]; split; [done |]; split; [by apply (render_no_instance p cobo) | auto]). }
  destruct (last_for _ _ _ _) as [v |] eqn:El.
  - destruct Hbest as [d ->]; [by apply list.Forall_forall |].
    destruct (render_cobo_steps p cobo cobo' Hes Hcobo Hrender) as (cobo1 & _ & _ & _ & Hafter).
    specialize (Hafter spec place Hspec Hlen). rewrite El in Hafter. destruct Hafter as (text & Ht1 & Ht2). exists v, text. split_and!; [done | done |].
    destruct (chains_self place) as [l El']. unfold resolved. destruct (decide (inst = STAR)) as [-> | Hi].
    + cbn [chains]. rewrite El'. cbn [map app first_some value_on]. unfold setting_in, setting in *. by rewrite Ht2.
    + cbn [chains]. rewrite El'. clear El' Hother Hout.
      assert (Hnone : forall l', first_some (value_on cobo' spec) (map (cons inst) l' ++ map (cons STAR) (place :: l)) = Some (xml_escape text)); [| apply Hnone].
      induction l' as [| ch l' IH]; cbn [map app first_some value_on]; [unfold setting_in, setting in *; by rewrite Ht2 |].
      by rewrite (render_no_instance p cobo).
  - rewrite Hbest by by apply list.Forall_forall. exists u, utext. split_and!; [done | done |]. unfold resolved. apply first_some_only.
    + intros x (i & ch & -> & Hch & Hi & Hii)%Hout. cbn [value_on]. destruct (decide (i = STAR)) as [-> | Hne]; [| left; by apply Hi].
      destruct (Hother ch Hch) as [-> | Hv]; [| exact Hv].
      destruct (render_default p cobo cobo' spec place Hes Hcobo Hrender Hspec Hlen El) as (v & text & Hv & Htext & E).
      assert (text = utext) as -> by congruence. unfold setting_in, setting in *. rewrite E. destruct (all_star spec place); auto.
    + exists (STAR :: replicate (length place) STAR). split.
      * cbn [chains]. apply elem_of_app. right. apply list_elem_of_fmap_2, chains_star.
      * cbn [value_on]. rewrite Hlen. unfold setting_in, setting, cobo_path, knob_leaf in *. by rewrite star_levels.
Qed.

(** *** What is refused *)

Lemma value_ok_text spec v : value_ok spec v -> exists text, knob_text show_json show_f64 spec v = Ok text.
Proof.
  unfold value_ok, knob_text, value_to_xcfg_text. destruct (kind spec).
  - intros (n & -> & Hn & _). cbn. apply Z.ltb_lt in Hn. rewrite Hn. by eexists.
  - intros (n & -> & Hn & _). cbn. apply Z.ltb_lt in Hn. rewrite Hn. by eexists.
  - intros (x & -> & _). by eexists.
  - intros (x & a & -> & _). by eexists.
  - intros (t & -> & _). by eexists.
  - intros (b & ->). by eexists.
  - intros (m & text & -> & Hm). cbn. rewrite Hm. by eexists.
Qed.

Definition levels_of (e : Exception) : list (nat * option Z) :=
  [(1%nat, asad (ex_at e)); (2%nat, aget (ex_at e)); (3%nat, ch (ex_at e))].

(** The ids an exception names are in the template. *)
Definition target_known (t : TemplateIds) (e : Exception) : Prop :=
  Forall (fun dv => forall v, snd dv = Some v -> dec v ∈ ids_at_depth t (fst dv)) (levels_of e).

(** There is an id at each level an exception is to be expanded to. *)
Definition expandable (t : TemplateIds) (e : Exception) : Prop :=
  forall spec d, spec ∈ KNOBS -> knob_name spec = ex_knob e -> (at_depth (ex_at e) < d <= depth (scope spec))%nat -> ids_at_depth t d <> [].

(** What a refusal says of the template. *)
Definition template_error (p : Params) (cobo : Element) (err : ParamsError) : Prop :=
  match err with
  | TargetNotInTemplate level id => exists e d v, e ∈ exceptions p /\ (d, Some v) ∈ levels_of e /\ level = level_name d /\ id = dec v /\
      id ∉ ids_at_depth (collect cobo) d
  | CannotExpandException knob at_ level => exists e d, e ∈ exceptions p /\ knob = ex_knob e /\ at_ = at_text (ex_at e) /\ level = level_name d /\
      ids_at_depth (collect cobo) d = []
  | TemplateShape _ => has_star cobo -> existsb has_10ns (children_named cobo INSTANCE) = true
  | _ => False
  end.

Lemma levels_decide p cobo e levels : e ∈ exceptions p -> (forall dv, dv ∈ levels -> dv ∈ levels_of e) ->
  decides (check_levels (collect cobo) levels)
    (Forall (fun dv => forall v, snd dv = Some v -> dec v ∈ ids_at_depth (collect cobo) (fst dv)) levels) (template_error p cobo).
Proof.
  intros He Hin. induction levels as [| [d [v |]] levels IH]; cbn [check_levels]; [by constructor | |].
  - case_bool_decide as Hv.
    + eapply decides_iff; [apply IH; intros dv Hdv; apply Hin; by right |]. rewrite list.Forall_cons. cbn [fst snd].
      split; [intros H; split; [by intros ? [= <-] | done] | by intros []].
    + split; [| intros [H _]%list.Forall_cons; by apply Hv, H]. exists e, d, v. split_and!; try done. apply Hin. by left.
  - eapply decides_iff; [apply IH; intros dv Hdv; apply Hin; by right |]. rewrite list.Forall_cons. cbn [fst snd].
    split; [by intros H; split | by intros []].
Qed.

Lemma targets_decide p cobo es : (forall e, e ∈ es -> e ∈ exceptions p) ->
  decides (check_exception_targets (collect cobo) es) (Forall (target_known (collect cobo)) es) (template_error p cobo).
Proof.
  intros Hin. induction es as [| e es IH]; cbn [check_exception_targets]; [by constructor |].
  eapply decides_iff; [apply decides_and; [apply (levels_decide p cobo e); [apply Hin; by left | done] | intros _; apply IH; intros x Hx; apply Hin; by right] |].
  symmetry. exact (list.Forall_cons (target_known (collect cobo)) e es).
Qed.

Lemma write_uniform_succeeds specs knobs cobo : (forall spec, spec ∈ specs -> spec ∈ KNOBS) ->
  Forall (fun spec => exists v, lookup_knob knobs (knob_name spec) = Some v /\ value_ok spec v) specs ->
  tidy cobo -> has_star cobo -> exists cobo', write_uniform xml_escape show_json show_f64 specs knobs cobo = Ok cobo'.
Proof.
  revert cobo. induction specs as [| spec specs IH]; intros cobo Hin Hok Hcobo Hstar; cbn [write_uniform]; [by eexists |].
  apply list.Forall_cons in Hok as [(v & Hv & Hvok) Hok]. rewrite Hv. destruct (value_ok_text spec v Hvok) as [text ->]. cbn [result_bind].
  assert (Hspec : spec ∈ KNOBS) by (apply Hin; by left). destruct (remove_knob_keeps spec cobo Hspec Hcobo) as [Hkeep _].
  pose proof (keeps_tidy _ _ _ Hkeep Hcobo) as Hcobo1. apply (remove_has_star spec) in Hstar.
  destruct (write_knob_keeps spec [] (xml_escape text) _ Hspec Hcobo1 Hstar) as (cobo2 & -> & Hstar2 & Hkeep2 & _). cbn [result_bind].
  apply IH; [intros s Hs; apply Hin; by right | done | exact (keeps_tidy _ _ _ Hkeep2 Hcobo1) | done].
Qed.

Lemma write_uniform_no_star spec specs knobs cobo v text : ~ has_star cobo -> lookup_knob knobs (knob_name spec) = Some v ->
  knob_text show_json show_f64 spec v = Ok text -> exists what, write_uniform xml_escape show_json show_f64 (spec :: specs) knobs cobo = Err (TemplateShape what).
Proof.
  intros Hno Hv Ht. cbn [write_uniform]. rewrite Hv, Ht. cbn [result_bind]. rewrite <- (remove_has_star spec) in Hno.
  unfold write_knob, has_star in *. destruct (find_child (remove_knob_from_explicit_nodes spec cobo) INSTANCE (Some STAR)) as [i |] eqn:Hf; [| by eexists].
  destruct (find_child_some _ (INSTANCE, Some STAR) i Hf) as (c & _ & _ & _ & Hc & _). cbn [fst snd] in Hc. rewrite Hc in Hno. by destruct Hno.
Qed.

Lemma expand_decides p cobo e n d targets : e ∈ exceptions p ->
  decides (expand_levels (collect cobo) (ex_at e) (ex_knob e) n d targets)
    (forall d', (d <= d' < d + n)%nat -> ids_at_depth (collect cobo) d' <> []) (template_error p cobo).
Proof.
  intros He. revert d targets. induction n as [| n IH]; intros d targets; cbn [expand_levels]; [intros d' Hd; lia |].
  destruct (ids_at_depth (collect cobo) d) as [| i ids] eqn:Ei.
  - split; [by exists e, d |]. intros H. apply (H d); [lia | done].
  - eapply decides_iff; [apply IH |]. split.
    + intros H d' Hd'. destruct (decide (d' = d)) as [-> |]; [by rewrite Ei | apply H; lia].
    + intros H d' Hd'. apply H. lia.
Qed.

Lemma exceptions_written p cobo es cobo1 : (forall e, e ∈ es -> e ∈ exceptions p) -> Forall exception_ok es -> tidy cobo1 -> has_star cobo1 ->
  decides (write_exceptions xml_escape show_json show_f64 (collect cobo) es cobo1) (Forall (expandable (collect cobo)) es) (template_error p cobo).
Proof.
  intros Hin Hes. revert cobo1. induction Hes as [| e es Hok _ IH]; intros cobo1 Hcobo Hstar; cbn [write_exceptions]; [by constructor |].
  assert (He : e ∈ exceptions p) by (apply Hin; by left). pose proof Hok as (spec & Hspec & Hname & Hd & Hv).
  assert (Hsome : knob_spec (ex_knob e) = Some spec) by by apply knob_spec_some. rewrite Hsome.
  destruct (value_ok_text spec _ Hv) as [text Ht].
  pose proof (expand_decides p cobo e (depth (scope spec) - at_depth (ex_at e)) (S (at_depth (ex_at e))) [at_ids (ex_at e)] He) as Hx.
  fold (expand (collect cobo) (ex_at e) spec (ex_knob e)) in Hx.
  assert (Hexp : expandable (collect cobo) e <->
    (forall d', (S (at_depth (ex_at e)) <= d' < S (at_depth (ex_at e)) + (depth (scope spec) - at_depth (ex_at e)))%nat -> ids_at_depth (collect cobo) d' <> [])).
  { split; [intros H d' Hd'; apply (H spec d' Hspec Hname); lia |]. intros H spec' d' Hspec' Hname' Hd'.
    assert (spec' = spec) as -> by (apply same_name; congruence). apply H. lia. }
  rewrite list.Forall_cons, Hexp.
  rewrite <- Hname at 1. rewrite (knob_specs_of spec Hspec). cbn [write_specs]. rewrite Ht. cbn [result_bind].
  destruct (expand (collect cobo) (ex_at e) spec (ex_knob e)) as [targets | err] eqn:Ex; cbn [decides result_bind] in *; [| tauto].
  destruct (expand_covers _ e spec targets Hd Ex) as [Hlen _].
  destruct (write_targets_values spec targets text cobo1 Hspec Hcobo Hstar Hlen) as (cobo2 & Hw & Hstar2 & Hkeep2 & _). rewrite Hw. cbn [result_bind].
  eapply decides_iff; [apply IH; [intros x Hx'; apply Hin; by right | exact (keeps_tidy _ _ _ Hkeep2 Hcobo) | done] |]. tauto.
Qed.

(** With valid parameters the template alone decides whether [render] succeeds:
    exactly when it has the CoBo of all instances, no trigger period in units of
    10 ns, the ids that the exceptions name, and an id at each level where one is to
    be expanded; and the error says which of these it lacks. *)
Theorem render_decides p cobo
    (Hknobs : Forall (fun spec => exists v, lookup_knob (knobs p) (knob_name spec) = Some v /\ value_ok spec v) KNOBS)
    (Hes : Forall exception_ok (exceptions p)) (Hcobo : tidy cobo) :
  decides (render_cobo xml_escape show_json show_f64 p cobo)
    (Forall (target_known (collect cobo)) (exceptions p) /\ existsb has_10ns (children_named cobo INSTANCE) = false /\
     has_star cobo /\ Forall (expandable (collect cobo)) (exceptions p))
    (template_error p cobo).
Proof.
  unfold render_cobo. apply decides_and; [by apply targets_decide |]. intros _. apply decides_and.
  { unfold check_no_trigger_period_10ns. destruct (existsb has_10ns (children_named cobo INSTANCE)) eqn:E; cbn; [| done].
    by split. }
  intros _. destruct (decide (child cobo INSTANCE (Some STAR) = None)) as [Hno | Hstar].
  - pose proof (proj1 (list.Forall_cons _ _ _) Hknobs) as [(v & Hv & Hvok) _]. destruct (value_ok_text _ v Hvok) as [text Ht].
    destruct (write_uniform_no_star _ (tail KNOBS) (knobs p) cobo v text (fun H => H Hno) Hv Ht) as [what Hw].
    change (_ :: tail KNOBS) with KNOBS in Hw. rewrite Hw. cbn [result_bind decides template_error]. unfold has_star. tauto.
  - destruct (write_uniform_succeeds KNOBS (knobs p) cobo (fun _ H => H) Hknobs Hcobo Hstar) as [cobo1 E]. rewrite E. cbn [result_bind].
    destruct (write_uniform_values KNOBS (knobs p) cobo cobo1) as (Hstar1 & Htidy1 & _); try done; [exact knob_names_distinct |].
    eapply decides_iff; [apply (exceptions_written p cobo (exceptions p) cobo1); done |]. unfold has_star. tauto.
Qed.
End Written.

(** ** A template *)

Module Sample.

Definition leaf (name text : string) : Node := NElement (set_children (new_element name None) [NRaw text]).
Definition tree (name : string) (id : option string) (cs : list Node) : Node := NElement (set_children (new_element name id) cs).

(** One AsAd with one Aget and two channels, a gain left on one of them and on an
    instance, and a value that is nobody's knob. *)
Definition cobo : Element :=
  set_children (new_element "Node" (Some "CoBo"))
    [tree "Instance" (Some "*")
       [tree "Module" None [leaf "triggerDelay" "1"; leaf "coboId" "7"];
        tree "AsAd" (Some "*") [tree "Aget" (Some "*") [tree "channel" (Some "*") [leaf "Gain" "120fC"]]];
        tree "AsAd" (Some "1") [tree "Aget" (Some "0") [tree "channel" (Some "4") []; tree "channel" (Some "5") [leaf "Gain" "240fC"]]]];
     tree "Instance" (Some "0") [tree "Module" None [leaf "triggerDelay" "2"]]].

Definition coarse : Exception := mkException (mkAt (Some 1) None None) "gain" (Jstr "120fC") None.
Definition fine : Exception := mkException (mkAt (Some 1) (Some 0) (Some 5)) "gain" (Jstr "10pC") None.
Definition params (es : list Exception) : Params := mkParams SCHEMA_ID "configure-mini.xcfg" GoodFile.knobs es None "{}".

Definition text (s : string) : string := s.
Definition no_text {A : Type} (_ : A) : string := EmptyString.
Definition rendered (es : list Exception) : result Element ParamsError := render_cobo text no_text no_text (params es) cobo.

Definition gain : KnobSpec := mkKnob "gain" Channel ["Gain"] (KStrEnum ["10pC"; "120fC"; "1pC"; "240fC"]).
End Sample.

Example sample_ok : exists cobo', Sample.rendered [Sample.coarse; Sample.fine] = Ok cobo' /\
  resolved cobo' "0" Sample.gain ["1"; "0"; "5"] = Some "10pC" /\ resolved cobo' "0" Sample.gain ["1"; "0"; "4"] = Some "120fC" /\
  resolved cobo' "0" Sample.gain ["0"; "0"; "4"] = Some "1pC".
Proof. eexists. split; [vm_compute; reflexivity |]. by vm_compute. Qed.

(** The order of the list counts: listed after it, the coarse exception is written
    over the fine one, though the effective value is the fine one's. *)
Example fine_before_coarse : exists cobo', Sample.rendered [Sample.fine; Sample.coarse] = Ok cobo' /\
  resolved cobo' "0" Sample.gain ["1"; "0"; "5"] = Some "120fC" /\
  effective_value (Sample.params [Sample.fine; Sample.coarse]) "gain" 1 0 5 = Some (Jstr "10pC").
Proof. eexists. split; [vm_compute; reflexivity |]. by vm_compute. Qed.

(** Tidy, as far down as is looked. *)
Fixpoint tidy_to (levels : nat) (e : Element) : bool :=
  match levels with
  | O => false
  | S levels =>
      (negb (el_empty e) || match children e with [] => true | _ => false end) &&
      forallb (fun leaf => (length (List.filter (answers (leaf, None)) (kids e)) <=? 1)%nat) LEAVES && forallb (tidy_to levels) (kids e)
  end.

Lemma tidy_to_tidy levels e : tidy_to levels e = true -> tidy e.
Proof.
  revert e. induction levels as [| levels IH]; intros e; cbn [tidy_to]; [done |].
  rewrite !andb_true_iff, orb_true_iff, !forallb_forall. intros [[He Hl] Hk]. constructor.
  - intros E. rewrite E in He. destruct He; [done |]. by destruct (children e).
  - intros leaf Hleaf. apply Nat.leb_le, Hl. by apply list_elem_of_In.
  - intros c Hc. apply IH, Hk. by apply list_elem_of_In.
Qed.

Lemma sample_tidy : tidy Sample.cobo.
Proof. apply (tidy_to_tidy 8). vm_compute. reflexivity. Qed.

Lemma gain_knob : Sample.gain ∈ KNOBS.
Proof. unfold KNOBS. do 6 apply list_elem_of_further. apply list_elem_of_here. Qed.

Lemma sample_exceptions : Forall exception_ok [Sample.coarse; Sample.fine].
Proof.
  repeat constructor; exists Sample.gain; (split; [exact gain_knob |]; split; [done |]; split; [cbn; lia |]); cbn; eexists; (split; [reflexivity |]);
    apply (bool_decide_eq_true_1 _); reflexivity.
Qed.

(** A path is nobody's when it parts from every knob's by its names. *)
Definition apart_from_knobs (q : list place) : bool :=
  forallb (fun spec => part (skeleton q) ((INSTANCE, true) :: knob_skeleton spec)) KNOBS.

Lemma apart_unmanaged q : apart_from_knobs q = true -> unmanaged q.
Proof.
  intros H spec inst ids Hspec. apply part_diverge. unfold apart_from_knobs in H. rewrite forallb_forall in H.
  rewrite list_elem_of_In in Hspec. specialize (H spec Hspec). unfold cobo_path. cbn [skeleton map fst snd].
  fold (skeleton (knob_leaf spec ids)). by rewrite skeleton_knob.
Qed.

Lemma render_values_witness : exists cobo' text,
  Sample.rendered [Sample.coarse; Sample.fine] = Ok cobo' /\ tidy Sample.cobo /\ Forall exception_ok [Sample.coarse; Sample.fine] /\
  last_for (collect Sample.cobo) [Sample.coarse; Sample.fine] "gain" ["1"; "0"; "4"] = Some (Jstr "120fC") /\
  knob_text Sample.no_text Sample.no_text Sample.gain (Jstr "120fC") = Ok text /\ setting cobo' Sample.gain ["1"; "0"; "4"] = Some text /\
  setting_in cobo' "0" Sample.gain ["1"; "0"; "4"] = None.
Proof.
  destruct (Sample.rendered [Sample.coarse; Sample.fine]) as [cobo' | e] eqn:E; [| vm_compute in E; discriminate].
  destruct (render_values Sample.text Sample.no_text Sample.no_text (Sample.params [Sample.coarse; Sample.fine]) Sample.cobo cobo'
    Sample.gain ["1"; "0"; "4"] sample_exceptions sample_tidy E gain_knob eq_refl) as [(text & Ht & Hs) Hno].
  exists cobo', text. split; [reflexivity |]. split; [exact sample_tidy |]. split; [exact sample_exceptions |].
  split; [vm_compute; reflexivity |]. split; [exact Ht |]. split; [exact Hs |].
  apply Hno. apply (bool_decide_eq_true_1 _). reflexivity.
Defined.

Lemma render_untouched_witness : exists cobo',
  Sample.rendered [Sample.coarse; Sample.fine] = Ok cobo' /\ unmanaged [("Instance", Some "*"); ("Module", None); ("coboId", None)] /\
  text_at [("Instance", Some "*"); ("Module", None); ("coboId", None)] cobo' = Some "7".
Proof.
  destruct (Sample.rendered [Sample.coarse; Sample.fine]) as [cobo' | e] eqn:E; [| vm_compute in E; discriminate].
  assert (Hq : unmanaged [("Instance", Some "*"); ("Module", None); ("coboId", None)]) by (apply apart_unmanaged; vm_compute; reflexivity).
  exists cobo'. split; [reflexivity |]. split; [exact Hq |].
  exact (render_untouched Sample.text Sample.no_text Sample.no_text (Sample.params [Sample.coarse; Sample.fine]) Sample.cobo cobo' _
    sample_exceptions sample_tidy E Hq).
Defined.

Lemma render_effective_witness : exists cobo' v text,
  Sample.rendered [Sample.coarse; Sample.fine] = Ok cobo' /\ coarse_first [Sample.coarse; Sample.fine] = true /\
  in_template (collect Sample.cobo) 1 0 5 /\
  effective_value (Sample.params [Sample.coarse; Sample.fine]) "gain" 1 0 5 = Some v /\
  knob_text Sample.no_text Sample.no_text Sample.gain v = Ok text /\ resolved cobo' "0" Sample.gain ["1"; "0"; "5"] = Some text.
Proof.
  destruct (Sample.rendered [Sample.coarse; Sample.fine]) as [cobo' | e] eqn:E; [| vm_compute in E; discriminate].
  assert (Ht : in_template (collect Sample.cobo) 1 0 5) by (repeat split; apply (bool_decide_eq_true_1 _); vm_compute; reflexivity).
  assert (Hu : Forall (fun e => at_unsigned (ex_at e)) [Sample.coarse; Sample.fine]).
  { repeat constructor; intros x [H | [H | H]]; vm_compute in H; try discriminate H; injection H as <-; lia. }
  assert (Hnd : NoDup (map exception_key [Sample.coarse; Sample.fine])) by (apply (bool_decide_eq_true_1 _); vm_compute; reflexivity).
  assert (Hpos : 0 <= 1 /\ 0 <= 0 /\ 0 <= 5) by lia.
  destruct (render_effective Sample.text Sample.no_text Sample.no_text (Sample.params [Sample.coarse; Sample.fine]) Sample.cobo cobo'
    Sample.gain "0" 1 0 5 sample_exceptions Hu Hnd eq_refl sample_tidy E gain_knob Hpos Ht) as (v & text & Hv & Htext & Hr).
  exists cobo', v, text. split; [reflexivity |]. split; [reflexivity |]. split; [exact Ht |]. split; [exact Hv |]. split; [exact Htext | exact Hr].
Defined.

Lemma sample_knobs : Forall (fun spec => exists v, lookup_knob GoodFile.knobs (knob_name spec) = Some v /\ value_ok spec v) KNOBS.
Proof.
  pose proof (knobs_decide Sample.no_text Sample.no_text (mkParamsRaw SCHEMA_ID "t" GoodFile.knobs [] None) KNOBS (fun _ H => H)) as H.
  cbn [raw_knobs] in H. destruct (check_knobs _ _ KNOBS GoodFile.knobs) eqn:E; [exact H | vm_compute in E; discriminate].
Qed.

(** The AsAd 2 is not in the template. *)
Lemma render_decides_witness : exists e,
  Forall (fun spec => exists v, lookup_knob GoodFile.knobs (knob_name spec) = Some v /\ value_ok spec v) KNOBS /\
  exception_ok e /\ tidy Sample.cobo /\ Sample.rendered [e] = Err (TargetNotInTemplate "AsAd" "2") /\
  ~ Forall (target_known (collect Sample.cobo)) [e].
Proof.
  set (e := mkException (mkAt (Some 2) None None) "gain" (Jstr "1pC") None).
  assert (He : exception_ok e).
  { exists Sample.gain. split; [exact gain_knob |]. split; [done |]. split; [cbn; lia |]. exists "1pC". split; [reflexivity |].
    apply (bool_decide_eq_true_1 _). reflexivity. }
  exists e. split; [exact sample_knobs |]. split; [exact He |]. split; [exact sample_tidy |].
  assert (E : Sample.rendered [e] = Err (TargetNotInTemplate "AsAd" "2")) by (vm_compute; reflexivity). split; [exact E |]. intros Hknown.
  pose proof (render_decides Sample.text Sample.no_text Sample.no_text (Sample.params [e]) Sample.cobo sample_knobs
    (list.Forall_cons_2 _ _ _ He (list.Forall_nil_2 _)) sample_tidy) as H. unfold Sample.rendered in E. rewrite E in H. cbn [decides] in H.
  destruct H as [(e' & d & v & He' & Hl & Hlevel & Hid & Hno) _]. rewrite Hid in Hno. cbn [exceptions Sample.params] in He'.
  apply list_elem_of_singleton in He' as ->. cbn [exceptions Sample.params] in *.
  apply Forall_inv in Hknown. unfold target_known in Hknown. by apply Hno, (proj1 (list.Forall_forall _ _) Hknown (d, Some v)).
Defined.
