(* ===== verification/Extract.v ===== *)
(** * Extract: the parameters read out of a template

    Models [src/params/extract.rs]: the uniform values on the chain of [*], the
    exceptions at the nodes with explicit ids, what is unset and what a parameter
    file cannot say.  [unescape] is quick_xml's, [debug] the [Debug] of a text, and
    the printing of JSON values and of fractional floats are arguments, as for the
    parameters; the JSON of the answer is a value. *)

From Stdlib Require Import Ascii.
From stdpp Require Import pretty strings.
From S2P Require Import Prelude Decimal Text Checks Float Params Xcfg Render RenderValues.
Open Scope string_scope.
Open Scope list_scope.
Open Scope Z_scope.

Definition WHY_BELOW_WILDCARD : string := "explicit id below a wildcard".
Definition WHY_EXPLICIT_INSTANCE : string := "explicit CoBo instance".
Definition WHY_PARTIAL_COMPOSITE : string := "not all parts of the composite knob at the same node".

Record Unsupported : Type := mkUnsupported {
  un_knob : string;
  found : string;
  why : string;
}.

Record Extracted : Type := mkExtracted {
  x_template : string;
  x_knobs : list (string * Value);
  x_exceptions : list Exception;
  unset : list string;
  unsupported : list Unsupported;
}.

(** A [BTreeMap] of texts, and [serde_json]'s map: the keys in order. *)
Fixpoint map_insert {A : Type} (k : string) (v : A) (fields : list (string * A)) : list (string * A) :=
  match fields with
  | [] => [(k, v)]
  | (k', v') :: fields' =>
      if bool_decide (k = k') then (k, v) :: fields'
      else if String.ltb k k' then (k, v) :: fields else (k', v') :: map_insert k v fields'
  end.

Definition insert_knob (knobs : list (string * Value)) (name : string) (v : Value) : list (string * Value) :=
  match split_once "."%char name with
  | None => map_insert name v knobs
  | Some (outer, inner) =>
      match assoc outer knobs with
      | None => map_insert outer (Jobject (map_insert inner v [])) knobs
      | Some (Jobject fields) => map_insert outer (Jobject (map_insert inner v fields)) knobs
      | Some _ => knobs
      end
  end.

(** [Display] of an error. *)
Definition show_opt (o : option Z) : string := match o with Some n => "Some(" +:+ pretty n +:+ ")" | None => "None" end.

Definition params_error_text (e : ParamsError) : string :=
  match e with
  | JsonError e => "JSON として読めない: " +:+ e
  | UnknownSchema found => "未知のスキーマ id " +:+ found +:+ "(期待: " +:+ SCHEMA_ID +:+ ")"
  | EmptyTemplate => "template が空"
  | MissingKnob knob => "ノブ " +:+ knob +:+ " が無い(全ノブ必須)"
  | UnknownKnob knob => "未知のノブ " +:+ knob
  | BadType knob value expected => "ノブ " +:+ knob +:+ " の値 " +:+ value +:+ " が型違い(期待: " +:+ expected +:+ ")"
  | OutOfRange knob value min max => "ノブ " +:+ knob +:+ " の値 " +:+ value +:+ " が範囲外(" +:+ show_opt min +:+ "..=" +:+ show_opt max +:+ ")"
  | NotInEnum knob value allowed => "ノブ " +:+ knob +:+ " の値 " +:+ value +:+ " は許された値ではない(許容: " +:+ allowed +:+ ")"
  | ExceptionAtNotPrefix at_ => "例外の at " +:+ at_ +:+ " は (asad, aget, ch) の接頭辞ではない(空も不可)"
  | ExceptionTooFine knob at_ at_depth scope_depth =>
      "例外の at " +:+ at_ +:+ " はノブ " +:+ knob +:+ " のスコープ(深さ " +:+ dec (Z.of_nat scope_depth) +:+ ")より細かい(深さ " +:+
      dec (Z.of_nat at_depth) +:+ ")"
  | DuplicateException knob at_ => "同じノブ " +:+ knob +:+ " に同じ at " +:+ at_ +:+ " の例外が 2 つある"
  | TargetNotInTemplate level id => "例外の対象 " +:+ level +:+ "[" +:+ id +:+ "] がテンプレートに無い"
  | CannotExpandException knob at_ level =>
      "ノブ " +:+ knob +:+ " の例外 " +:+ at_ +:+ " を " +:+ level +:+ " の段に展開できない(テンプレートに明示 id が無い)"
  | TemplateShape what => "テンプレートの形が想定と違う: " +:+ what
  | Xml e => "テンプレートを XML として読めない: " +:+ e
  end.

(** ** Reading the tree *)

(** The leaf below a node; its text as it stands. *)
Fixpoint leaf_text (suffix : list string) (node : Element) : option string :=
  match suffix with
  | [] => Some (raw_text (children node))
  | name :: suffix => match child node name None with Some c => leaf_text suffix c | None => None end
  end.

Fixpoint star_chain (n d : nat) (node : Element) : option Element :=
  match n with
  | O => Some node
  | S n =>
      match element_at_depth d with
      | None => None
      | Some name => match child node name (Some STAR) with Some c => star_chain n (S d) c | None => None end
      end
  end.

Definition star_chain_text (cobo : Element) (spec : KnobSpec) : option string :=
  match child cobo INSTANCE (Some STAR) with
  | None => None
  | Some instance =>
      match star_chain (depth (scope spec)) 1 instance with
      | Some node => leaf_text (suffix spec) node
      | None => None
      end
  end.

Section Extraction.
Context (debug : string -> string) (unescape : string -> result string string).
Context (show_json : Value -> string) (show_f64 : f64 -> string).

Record Hit : Type := mkHit {
  hit_at : result At string;
  hit_text : string;
}.

Fixpoint take_explicit (ids : list string) : list string :=
  match ids with
  | [] => []
  | id :: ids => if bool_decide (id = STAR) then [] else id :: take_explicit ids
  end.

Fixpoint numbers (ids : list string) : result (list Z) string :=
  match ids with
  | [] => Ok []
  | id :: ids =>
      match parse_uint 32 id with
      | None => Err ("non-numeric id " +:+ debug id)
      | Some n => let? ns := numbers ids in Ok (n :: ns)
      end
  end.

Definition classify (instance_is_star : bool) (ids : list string) : result At string :=
  if negb instance_is_star then Err WHY_EXPLICIT_INSTANCE
  else
    let explicit := take_explicit ids in
    if existsb (fun id => negb (bool_decide (id = STAR))) (drop (length explicit) ids) then Err WHY_BELOW_WILDCARD
    else let? ns := numbers explicit in Ok (mkAt (ns !! 0%nat) (ns !! 1%nat) (ns !! 2%nat)).

(** Every node at the depth of the knob, but those that only [*] leads to. *)
Fixpoint walk (n : nat) (spec : KnobSpec) (instance_is_star : bool) (ids : list string) (node : Element) : list Hit :=
  match n with
  | O =>
      if instance_is_star && forallb (fun id => bool_decide (id = STAR)) ids then []
      else match leaf_text (suffix spec) node with
           | Some text => [mkHit (classify instance_is_star ids) text]
           | None => []
           end
  | S n =>
      match element_at_depth (S (length ids)) with
      | None => []
      | Some name => concat (map (fun c => walk n spec instance_is_star (ids ++ [default EmptyString (el_id c)]) c) (children_named node name))
      end
  end.

Definition explicit_hits (cobo : Element) (spec : KnobSpec) : list Hit :=
  concat (map (fun instance => walk (depth (scope spec)) spec (bool_decide (el_id instance = Some STAR)) [] instance) (children_named cobo INSTANCE)).

(** ** Text to value *)

Definition modes (table : list (string * string)) : string := String.concat ", " (map fst table).

(** The one mode that every part maps to. *)
Fixpoint derived_loop (entries : list (KnobSpec * string)) (mode : option string) : result (option string) string :=
  match entries with
  | [] => Ok mode
  | (spec, raw) :: entries =>
      match kind spec with
      | KDerived table =>
          match List.find (fun jx => bool_decide (snd jx = trim raw)) table with
          | None => Err ("parts do not map to one of {" +:+ modes table +:+ "}")
          | Some (this, _) =>
              if match mode with Some previous => negb (bool_decide (previous = this)) | None => false end then
                Err ("parts do not map to one of {" +:+ modes table +:+ "}")
              else derived_loop entries (Some this)
          end
      | _ => Err (knob_name spec +:+ " is not a composite knob")
      end
  end.

Definition derived_mode (entries : list (KnobSpec * string)) : result Value string :=
  let? mode := derived_loop entries None in
  match mode with
  | Some mode => Ok (Jstr mode)
  | None => Err "no parts of the composite knob"
  end.

Definition text_value (spec : KnobSpec) (raw text : string) : result Value string :=
  match kind spec with
  | KInt _ _ | KIntEnum _ => match parse_int 64 text with Some n => Ok (Jint n) | None => Err "not an integer" end
  | KReal _ _ | KRealEnum _ =>
      match parse_f64 text with
      | Some x => if is_finite x then Ok (Jreal x) else Err "not a number"
      | None => Err "not a number"
      end
  | KStrEnum _ => Ok (Jstr text)
  | KBool =>
      if bool_decide (text = "true") then Ok (Jbool true)
      else if bool_decide (text = "false") then Ok (Jbool false) else Err "not a bool (true/false)"
  | KDerived _ => derived_mode [(spec, raw)]
  end.

Definition text_to_value (spec : KnobSpec) (raw : string) : result Value string :=
  let? unescaped := unescape raw in
  let? v := text_value spec raw (trim unescaped) in
  match kind spec with
  | KDerived _ => Ok v
  | _ => match check_value show_json show_f64 spec v with Ok _ => Ok v | Err e => Err (params_error_text e) end
  end.

Definition is_derived (spec : KnobSpec) : bool := match kind spec with KDerived _ => true | _ => false end.

Definition decode (entries : list (KnobSpec * string)) : result Value string :=
  match entries with
  | [(spec, text)] => if is_derived spec then derived_mode entries else text_to_value spec text
  | _ => derived_mode entries
  end.

Definition found_text (entries : list (KnobSpec * string)) : string :=
  let composite := match entries with (spec, _) :: _ => (1 <? length (knob_specs (knob_name spec)))%nat | [] => false end in
  String.concat "," (map (fun st => if composite then default EmptyString (list.last (suffix (fst st))) +:+ "=" +:+ snd st else snd st) entries).

(** ** A knob *)

Definition add_knob (out : Extracted) (name : string) (v : Value) : Extracted :=
  mkExtracted (x_template out) (insert_knob (x_knobs out) name v) (x_exceptions out) (unset out) (unsupported out).
Definition add_exception (out : Extracted) (e : Exception) : Extracted :=
  mkExtracted (x_template out) (x_knobs out) (x_exceptions out ++ [e]) (unset out) (unsupported out).
Definition add_unset (out : Extracted) (name : string) : Extracted :=
  mkExtracted (x_template out) (x_knobs out) (x_exceptions out) (unset out ++ [name]) (unsupported out).
Definition add_unsupported (out : Extracted) (u : Unsupported) : Extracted :=
  mkExtracted (x_template out) (x_knobs out) (x_exceptions out) (unset out) (unsupported out ++ [u]).

Fixpoint star_texts (cobo : Element) (specs : list KnobSpec) : option (list string) :=
  match specs with
  | [] => Some []
  | spec :: specs =>
      match star_chain_text cobo spec with
      | Some text => match star_texts cobo specs with Some texts => Some (text :: texts) | None => None end
      | None => None
      end
  end.

Definition extract_uniform (cobo : Element) (name : string) (specs : list KnobSpec) (out : Extracted) : Extracted :=
  match star_texts cobo specs with
  | None => add_unset out name
  | Some texts =>
      let entries := zip specs texts in
      match decode entries with
      | Ok v => add_knob out name v
      | Err why => add_unsupported out (mkUnsupported name (found_text entries) why)
      end
  end.

(** The values of a place, part by part; a value goes to the first group of its
    place where its part is free. *)
Definition Group : Type := At * list (option string).

Definition slot_free (i : nat) (a : At) (g : Group) : bool :=
  bool_decide (fst g = a) && match snd g !! i with Some None => true | _ => false end.

Fixpoint place_hit (n i : nat) (a : At) (text : string) (groups : list Group) : list Group :=
  match groups with
  | [] => [(a, <[i := Some text]> (replicate n None))]
  | g :: groups => if slot_free i a g then (fst g, <[i := Some text]> (snd g)) :: groups else g :: place_hit n i a text groups
  end.

Fixpoint take_hits (name : string) (n i : nat) (spec : KnobSpec) (hits : list Hit) (st : list Group * Extracted) : list Group * Extracted :=
  match hits with
  | [] => st
  | h :: hits =>
      take_hits name n i spec hits
        (match hit_at h with
         | Err why => (fst st, add_unsupported (snd st) (mkUnsupported name (found_text [(spec, hit_text h)]) why))
         | Ok a => (place_hit n i a (hit_text h) (fst st), snd st)
         end)
  end.

Fixpoint gather (cobo : Element) (name : string) (n i : nat) (specs : list KnobSpec) (st : list Group * Extracted) : list Group * Extracted :=
  match specs with
  | [] => st
  | spec :: specs => gather cobo name n (S i) specs (take_hits name n i spec (explicit_hits cobo spec) st)
  end.

Fixpoint group_entries (specs : list KnobSpec) (slots : list (option string)) : list (KnobSpec * string) :=
  match specs, slots with
  | spec :: specs, Some text :: slots => (spec, text) :: group_entries specs slots
  | _ :: specs, None :: slots => group_entries specs slots
  | _, _ => []
  end.

Fixpoint settle_groups (name : string) (specs : list KnobSpec) (groups : list Group) (out : Extracted) : Extracted :=
  match groups with
  | [] => out
  | (a, slots) :: groups =>
      let entries := group_entries specs slots in
      settle_groups name specs groups
        (if (length entries <? length specs)%nat then add_unsupported out (mkUnsupported name (found_text entries) WHY_PARTIAL_COMPOSITE)
         else match decode entries with
              | Ok v => add_exception out (mkException a name v None)
              | Err why => add_unsupported out (mkUnsupported name (found_text entries) why)
              end)
  end.

Definition extract_explicit (cobo : Element) (name : string) (specs : list KnobSpec) (out : Extracted) : Extracted :=
  let '(groups, out) := gather cobo name (length specs) 0 specs ([], out) in settle_groups name specs groups out.

(** ** The whole *)

Fixpoint distinct_names (specs : list KnobSpec) (names : list string) : list string :=
  match specs with
  | [] => names
  | spec :: specs => distinct_names specs (if bool_decide (knob_name spec ∈ names) then names else names ++ [knob_name spec])
  end.
Definition knob_names : list string := distinct_names KNOBS [].

Fixpoint extract_names (cobo : Element) (names : list string) (out : Extracted) : Extracted :=
  match names with
  | [] => out
  | name :: names =>
      let specs := knob_specs name in
      extract_names cobo names (extract_explicit cobo name specs (extract_uniform cobo name specs out))
  end.

Definition extract_cobo (template_name : string) (cobo : Element) : Extracted :=
  extract_names cobo knob_names (mkExtracted template_name [] [] [] []).

Definition extract (read_events : string -> list (Event * string) * option string) (template_name template_xml : string)
    : result Extracted ParamsError :=
  let? doc := parse read_events template_xml in
  let? (_, _, cobo) := find_cobo_node doc in
  Ok (extract_cobo template_name cobo).
End Extraction.

(** ** The answer *)

Definition at_json (a : At) : Value :=
  let field k o fields := match o with Some v => map_insert k (Jint v) fields | None => fields end in
  Jobject (field "ch" (ch a) (field "aget" (aget a) (field "asad" (asad a) []))).

Definition to_json (x : Extracted) : Value :=
  Jobject [("exceptions", Jarray (map (fun e => Jobject [("at", at_json (ex_at e)); ("knob", Jstr (ex_knob e)); ("value", ex_value e)]) (x_exceptions x)));
           ("knobs", Jobject (x_knobs x)); ("template", Jstr (x_template x)); ("unset", Jarray (map Jstr (unset x)));
           ("unsupported", Jarray (map (fun u => Jobject [("found", Jstr (found u)); ("knob", Jstr (un_knob u)); ("why", Jstr (why u))]) (unsupported x)))].

(** ** The map of the knobs *)

(** A name as the map has it: a key, or a key below another. *)
Definition key_of (name : string) : string * option string :=
  match split_once "."%char name with
  | None => (name, None)
  | Some (outer, inner) => (outer, Some inner)
  end.

Definition look (knobs : list (string * Value)) (k : string * option string) : option Value :=
  match snd k with
  | None => assoc (fst k) knobs
  | Some inner => match assoc (fst k) knobs with Some v => value_get v inner | None => None end
  end.

Definition NAMES : list string := map knob_name KNOBS.

(** Two keys of which neither holds the other. *)
Definition keys_apart (k k' : string * option string) : bool :=
  negb (bool_decide (fst k = fst k')) ||
  match snd k, snd k' with
  | Some i, Some j => negb (bool_decide (i = j))
  | _, _ => false
  end.

Lemma names_apart name name' : name ∈ NAMES -> name' ∈ NAMES -> name = name' \/ keys_apart (key_of name) (key_of name') = true.
Proof.
  assert (H : forallb (fun name => forallb (fun name' => bool_decide (name = name') || keys_apart (key_of name) (key_of name')) NAMES) NAMES = true)
    by (vm_compute; reflexivity).
  rewrite !list_elem_of_In. intros H1 H2. rewrite forallb_forall in H. specialize (H name H1). rewrite forallb_forall in H. specialize (H name' H2).
  apply orb_true_iff in H as [H%bool_decide_eq_true | H]; auto.
Qed.

Lemma names_split name : name ∈ NAMES ->
  split_on "."%char name = match key_of name with (outer, Some inner) => [outer; inner] | (outer, None) => [outer] end /\ fst (key_of name) <> EmptyString /\
  name = match key_of name with (outer, Some inner) => outer +:+ "." +:+ inner | (outer, None) => outer end.
Proof.
  assert (H : Forall (fun name =>
    split_on "."%char name = match key_of name with (outer, Some inner) => [outer; inner] | (outer, None) => [outer] end /\ fst (key_of name) <> EmptyString /\
    name = match key_of name with (outer, Some inner) => outer +:+ "." +:+ inner | (outer, None) => outer end) NAMES) by (repeat constructor; done).
  intros Hn. rewrite list.Forall_forall in H. by apply H.
Qed.

Lemma lookup_look knobs name : name ∈ NAMES -> lookup_knob knobs name = look knobs (key_of name).
Proof.
  intros Hn. destruct (names_split name Hn) as (Hs & _ & _). unfold lookup_knob, look. rewrite Hs.
  destruct (key_of name) as [outer [inner |]]; cbn [fst snd value_at]; destruct (assoc outer knobs); try done.
  by destruct (value_get v inner).
Qed.

Lemma assoc_insert {A : Type} k (v : A) fields k' : assoc k' (map_insert k v fields) = if bool_decide (k' = k) then Some v else assoc k' fields.
Proof.
  induction fields as [| [k1 v1] fields IH]; [done |]. cbn [map_insert].
  destruct (bool_decide (k = k1)) eqn:E; [apply bool_decide_eq_true in E as <-; cbn [assoc]; by destruct (bool_decide (k' = k)) |].
  destruct (String.ltb k k1); [done |]. cbn [assoc]. rewrite IH. apply bool_decide_eq_false in E.
  destruct (bool_decide (k' = k1)) eqn:E1; [| done]. apply bool_decide_eq_true in E1 as ->. by rewrite bool_decide_eq_false_2.
Qed.

(** The keys that hold others hold objects. *)
Definition nested (knobs : list (string * Value)) : Prop :=
  forall name outer inner, name ∈ NAMES -> key_of name = (outer, Some inner) ->
  match assoc outer knobs with Some (Jobject _) | None => True | Some _ => False end.

Lemma insert_knob_key knobs name v : insert_knob knobs name v =
  match snd (key_of name) with
  | None => map_insert name v knobs
  | Some inner =>
      match assoc (fst (key_of name)) knobs with
      | None => map_insert (fst (key_of name)) (Jobject (map_insert inner v [])) knobs
      | Some (Jobject fields) => map_insert (fst (key_of name)) (Jobject (map_insert inner v fields)) knobs
      | Some _ => knobs
      end
  end.
Proof. unfold insert_knob, key_of. by destruct (split_once "."%char name) as [[outer inner] |]. Qed.

Lemma key_plain name : snd (key_of name) = None -> fst (key_of name) = name.
Proof. unfold key_of. by destruct (split_once "."%char name) as [[] |]. Qed.

Lemma look_insert knobs name v : name ∈ NAMES -> nested knobs ->
  nested (insert_knob knobs name v) /\
  forall name', name' ∈ NAMES -> look (insert_knob knobs name v) (key_of name') = if bool_decide (name' = name) then Some v else look knobs (key_of name').
Proof.
  intros Hn Hnest. rewrite insert_knob_key. destruct (key_of name) as [outer i] eqn:Ek. cbn [fst snd]. destruct i as [inner |].
  - assert (Hobj : exists fields, (assoc outer knobs = Some (Jobject fields) \/ assoc outer knobs = None /\ fields = []) /\
      match assoc outer knobs with
      | None => map_insert outer (Jobject (map_insert inner v [])) knobs
      | Some (Jobject fields) => map_insert outer (Jobject (map_insert inner v fields)) knobs
      | Some _ => knobs
      end = map_insert outer (Jobject (map_insert inner v fields)) knobs).
    { specialize (Hnest name outer inner Hn Ek). destruct (assoc outer knobs) as [[] |]; try done; [exists fields; auto | exists []; auto]. }
    destruct Hobj as (fields & Hf & ->). split.
    + intros n o j Hn' Ek'. rewrite assoc_insert. destruct (bool_decide (o = outer)); [done |]. by apply (Hnest n o j).
    + intros name' Hn'. unfold look. rewrite assoc_insert. destruct (names_apart name' name Hn' Hn) as [-> | Hap].
      { rewrite Ek. cbn [fst snd]. rewrite !bool_decide_eq_true_2 by done. cbn [value_get]. rewrite assoc_insert. by rewrite bool_decide_eq_true_2. }
      assert (Hne : name' <> name) by (intros ->; rewrite Ek in Hap; unfold keys_apart in Hap; cbn [fst snd] in Hap; rewrite !bool_decide_eq_true_2 in Hap by done; done).
      rewrite (bool_decide_eq_false_2 (name' = name)) by done. rewrite Ek in Hap. unfold keys_apart in Hap. cbn [fst snd] in Hap.
      destruct (key_of name') as [o j]. cbn [fst snd] in *. destruct (bool_decide (o = outer)) eqn:Eo; [| done].
      apply bool_decide_eq_true in Eo as ->. cbn [negb orb] in Hap. destruct j as [j |]; [| done].
      apply negb_true_iff, bool_decide_eq_false in Hap. cbn [value_get]. rewrite assoc_insert, bool_decide_eq_false_2 by done.
      destruct Hf as [-> | [-> ->]]; done.
  - pose proof (key_plain name) as Hp. rewrite Ek in Hp. cbn [fst snd] in Hp. specialize (Hp eq_refl). subst outer. split.
    + intros n o j Hn' Ek'. rewrite assoc_insert. destruct (bool_decide (o = name)) eqn:Eo; [| by apply (Hnest n o j)].
      apply bool_decide_eq_true in Eo as ->. exfalso. destruct (names_apart n name Hn' Hn) as [-> | Hap]; [congruence |].
      rewrite Ek, Ek' in Hap. unfold keys_apart in Hap. cbn [fst snd] in Hap. by rewrite bool_decide_eq_true_2 in Hap by done.
    + intros name' Hn'. unfold look. rewrite !assoc_insert. destruct (names_apart name' name Hn' Hn) as [-> | Hap].
      { rewrite Ek. cbn [fst snd]. by rewrite !bool_decide_eq_true_2. }
      assert (Hne : name' <> name) by (intros ->; rewrite Ek in Hap; unfold keys_apart in Hap; cbn [fst snd] in Hap; rewrite !bool_decide_eq_true_2 in Hap by done; done).
      rewrite (bool_decide_eq_false_2 (name' = name)) by done. rewrite Ek in Hap. unfold keys_apart in Hap. cbn [fst snd] in Hap.
      destruct (key_of name') as [o j]. cbn [fst snd] in *. destruct (bool_decide (o = name)) eqn:Eo; [| done].
      cbn [negb orb] in Hap. by destruct j.
Qed.

(** *** Its leaves *)

Definition joined_name (prefix key : string) : string := if bool_decide (prefix = EmptyString) then key else prefix +:+ "." +:+ key.

Lemma leaf_names_object fields prefix :
  leaf_names (Jobject fields) prefix = concat (map (fun kv => leaf_names (snd kv) (joined_name prefix (fst kv))) fields).
Proof. cbn [leaf_names]. induction fields as [| [k v] fields IH]; [done |]. cbn [map concat fst snd]. by rewrite <- IH. Qed.

Definition is_flat (v : Value) : Prop := match v with Jobject _ => False | _ => True end.

Lemma leaf_names_flat v prefix : is_flat v -> leaf_names v prefix = [prefix].
Proof. by destruct v. Qed.

(** A field more, or in the place of another: no more leaves than its own. *)
Lemma leaves_insert (under : string -> string) k v fields n :
  n ∈ concat (map (fun kv => leaf_names (snd kv) (under (fst kv))) (map_insert k v fields)) ->
  n ∈ leaf_names v (under k) \/ n ∈ concat (map (fun kv => leaf_names (snd kv) (under (fst kv))) fields).
Proof.
  induction fields as [| [k' v'] fields IH]; cbn [map_insert map concat fst snd].
  - rewrite app_nil_r. by left.
  - destruct (bool_decide (k = k')); [cbn [map concat fst snd]; rewrite !elem_of_app; tauto |].
    destruct (String.ltb k k'); cbn [map concat fst snd]; rewrite !elem_of_app; [tauto |]. intros [H | H]; [tauto |]. apply IH in H. tauto.
Qed.

Lemma leaves_assoc (under : string -> string) k v fields n : assoc k fields = Some v -> n ∈ leaf_names v (under k) ->
  n ∈ concat (map (fun kv => leaf_names (snd kv) (under (fst kv))) fields).
Proof.
  induction fields as [| [k' v'] fields IH]; [done |]. cbn [assoc map concat fst snd]. rewrite elem_of_app.
  destruct (bool_decide (k = k')) eqn:E; [apply bool_decide_eq_true in E as <-; intros [= ->]; by left | intros; right; by apply IH].
Qed.

Lemma all_leaves knobs : all_leaf_names knobs = concat (map (fun kv => leaf_names (snd kv) ((fun k => k) (fst kv))) knobs).
Proof. done. Qed.

Lemma leaf_insert knobs name v n : name ∈ NAMES -> is_flat v -> n ∈ all_leaf_names (insert_knob knobs name v) -> n = name \/ n ∈ all_leaf_names knobs.
Proof.
  intros Hn Hv. rewrite insert_knob_key, !all_leaves. destruct (names_split name Hn) as (_ & Hne & Hname).
  destruct (key_of name) as [outer i] eqn:Ek. cbn [fst snd] in *. destruct i as [inner |].
  2: { subst outer. intros [H | H]%(leaves_insert (fun k => k)); [| by right]. rewrite leaf_names_flat in H by done. left. by apply list_elem_of_singleton. }
  assert (Hobj : forall fields, n ∈ leaf_names (Jobject (map_insert inner v fields)) outer -> n = name \/ n ∈ leaf_names (Jobject fields) outer).
  { intros fields. rewrite !leaf_names_object. intros [H | H]%(leaves_insert (joined_name outer)); [| by right].
    rewrite leaf_names_flat in H by done. left. apply list_elem_of_singleton in H. rewrite H, Hname. unfold joined_name. by rewrite bool_decide_eq_false_2. }
  destruct (assoc outer knobs) as [w |] eqn:Eo.
  - destruct w as [| | | | | | fields]; try (by right). intros [H | H]%(leaves_insert (fun k => k)); [| by right].
    apply Hobj in H as [H | H]; [by left |]. right. by apply (leaves_assoc (fun k => k) outer (Jobject fields)).
  - intros [H | H]%(leaves_insert (fun k => k)); [| by right]. apply Hobj in H as [H | H]; [by left |]. by apply elem_of_nil in H.
Qed.

(** ** What is extracted *)

Section Sound.
Context (debug : string -> string) (unescape : string -> result string string).
Context (show_json : Value -> string) (show_f64 : f64 -> string).

Lemma assoc_in {A : Type} k (v : A) fields : In (k, v) fields -> exists v', assoc k fields = Some v'.
Proof.
  induction fields as [| [k' v'] fields IH]; [done |]. cbn [assoc]. intros [[= -> ->] | H]; [rewrite bool_decide_eq_true_2 by done; by eexists |].
  destruct (bool_decide (k = k')); [by eexists | by apply IH].
Qed.

Lemma decode_ok spec text v : decode unescape show_json show_f64 [(spec, text)] = Ok v -> value_ok spec v /\ is_flat v.
Proof.
  unfold decode. destruct (is_derived spec) eqn:Ed.
  - unfold derived_mode, value_ok, is_derived in *. cbn [derived_loop]. destruct (kind spec) as [| | | | | | table]; try done.
    destruct (List.find _ table) as [[this x] |] eqn:Ef; [| done]. cbn. intros [= <-]. split; [| done].
    apply find_some in Ef as [Hin _]. destruct (assoc_in _ _ _ Hin) as [t Ht]. by exists this, t.
  - unfold text_to_value. destruct (unescape text) as [u |]; [| done]. cbn [result_bind].
    destruct (text_value spec text (trim u)) as [w |] eqn:Ew; [| done]. cbn [result_bind].
    assert (Hflat : is_flat w).
    { unfold text_value in Ew. unfold is_derived in Ed. destruct (kind spec); try done; repeat (case_match; try done); by injection Ew as <-. }
    pose proof (check_value_decides show_json show_f64 spec w) as Hc. unfold is_derived in Ed.
    destruct (kind spec) eqn:Ek; try done; destruct (check_value show_json show_f64 spec w); try done; intros [= <-]; by split.
Qed.

(** *** Exceptions *)

(** An exception that can be read: at a place of its knob, of 32 bits each. *)
Definition at_32 (a : At) : Prop := forall x, asad a = Some x \/ aget a = Some x \/ ch a = Some x -> 0 <= x < 2 ^ 32.
Definition place_ok (spec : KnobSpec) (a : At) : Prop := (0 < at_depth a <= depth (scope spec))%nat /\ at_32 a.

Lemma numbers_spec ids ns : numbers debug ids = Ok ns -> length ns = length ids /\ Forall (fun n => 0 <= n < 2 ^ 32) ns.
Proof.
  revert ns. induction ids as [| id ids IH]; intros ns; cbn [numbers]; [by intros [= <-] |].
  destruct (parse_uint 32 id) as [n |] eqn:E; [| done]. destruct (numbers debug ids) as [ns' |]; [| done]. cbn [result_bind].
  intros [= <-]. destruct (IH ns' eq_refl) as [Hl Hf]. split; [cbn; lia |]. constructor; [by apply parse_uint_bound in E | done].
Qed.

Lemma take_explicit_length ids : (length (take_explicit ids) <= length ids)%nat.
Proof. induction ids as [| id ids IH]; cbn [take_explicit]; [done |]. destruct (bool_decide (id = STAR)); cbn; lia. Qed.

Lemma classify_ok spec star ids a : length ids = depth (scope spec) -> star && forallb (fun id => bool_decide (id = STAR)) ids = false ->
  classify debug star ids = Ok a -> place_ok spec a.
Proof.
  unfold classify. intros Hlen Hstar. destruct star; cbn [negb andb] in *; [| done].
  destruct (existsb _ _) eqn:Ex; [done |]. destruct (numbers debug (take_explicit ids)) as [ns |] eqn:En; [| done]. cbn [result_bind].
  intros [= <-]. destruct (numbers_spec _ _ En) as [Hl Hf]. pose proof (take_explicit_length ids) as Hle. pose proof (depth_le (scope spec)) as Hd.
  assert (Hpos : (0 < length ns)%nat).
  { rewrite Hl. destruct ids as [| id ids]; [by cbn in Hstar |]. cbn [take_explicit] in *. destruct (bool_decide (id = STAR)) eqn:E; [| cbn; lia].
    cbn [length drop existsb forallb] in *. rewrite E in Hstar, Ex. cbn [negb orb andb] in Ex, Hstar. exfalso.
    assert (H : forallb (fun id => bool_decide (id = STAR)) ids = true); [| congruence]. apply forallb_forall. intros x Hx.
    apply negb_false_iff. apply not_true_is_false. intros Hb. apply not_true_iff_false in Ex. apply Ex, existsb_exists. by exists x. }
  split.
  - destruct ns as [| x [| y [| z [|]]]]; cbn in *; try lia.
  - intros x Hx. cbn [asad aget ch] in Hx. rewrite list.Forall_lookup in Hf. destruct Hx as [Hx | [Hx | Hx]]; by apply Hf in Hx.
Qed.

Lemma walk_hits n spec star ids node : (length ids + n = depth (scope spec))%nat ->
  Forall (fun h => forall a, hit_at h = Ok a -> place_ok spec a) (walk debug n spec star ids node).
Proof.
  revert ids node. induction n as [| n IH]; intros ids node Hlen; cbn [walk].
  - destruct (star && _) eqn:Es; [constructor |]. destruct (leaf_text _ _); constructor; [| constructor]. cbn. intros a Ha.
    apply (classify_ok spec star ids); [lia | done | done].
  - destruct (element_at_depth _) as [name |]; [| constructor]. induction (children_named node name) as [| c cs IHc]; cbn [map concat]; [constructor |].
    apply list.Forall_app. split; [apply IH; rewrite length_app; cbn; lia | done].
Qed.

Lemma explicit_hits_ok cobo spec : Forall (fun h => forall a, hit_at h = Ok a -> place_ok spec a) (explicit_hits debug cobo spec).
Proof.
  unfold explicit_hits. induction (children_named cobo INSTANCE) as [| c cs IH]; cbn [map concat]; [constructor |].
  apply list.Forall_app. split; [by apply walk_hits | done].
Qed.

Definition read_ok (e : Exception) : Prop := exception_ok e /\ at_32 (ex_at e).

(** What the explicit nodes add: exceptions of the knob, and what cannot be said. *)
Record extends (out out' : Extracted) : Prop := {
  ext_knobs : x_knobs out' = x_knobs out;
  ext_unset : unset out' = unset out;
  ext_template : x_template out' = x_template out;
  ext_exceptions : exists l, x_exceptions out' = x_exceptions out ++ l /\ Forall read_ok l;
  ext_unsupported : exists l, unsupported out' = unsupported out ++ l;
}.

#[local] Instance extends_preorder : PreOrder extends.
Proof.
  split.
  - intros out. split; try done; exists []; by rewrite app_nil_r.
  - intros a b c [H1 H2 H3 (l & H4 & H5) (u & H6)] [H1' H2' H3' (l' & H4' & H5') (u' & H6')]. split; try congruence.
    + exists (l ++ l'). rewrite H4', H4, app_assoc. split; [done |]. by apply list.Forall_app.
    + exists (u ++ u'). by rewrite H6', H6, app_assoc.
Qed.

Lemma extends_unsupported out u : extends out (add_unsupported out u).
Proof. split; try done; [exists []; by rewrite app_nil_r | by exists [u]]. Qed.

Lemma extends_exception out e : read_ok e -> extends out (add_exception out e).
Proof. intros He. split; try done; [by exists [e]; split; [| constructor] | exists []; by rewrite app_nil_r]. Qed.

Definition group_ok (spec : KnobSpec) (g : Group) : Prop := place_ok spec (fst g) /\ length (snd g) = 1%nat.

Lemma place_hit_ok spec i a text groups : place_ok spec a -> Forall (group_ok spec) groups -> Forall (group_ok spec) (place_hit 1 i a text groups).
Proof.
  intros Ha. induction 1 as [| g groups [Hg Hl] Hgs IH]; cbn [place_hit].
  - constructor; [| constructor]. split; [done |]. cbn [snd]. by rewrite length_insert.
  - destruct (slot_free i a g); constructor; try done. split; [done |]. cbn [snd]. by rewrite length_insert.
Qed.

Lemma take_hits_ok name i spec hits groups out : Forall (fun h => forall a, hit_at h = Ok a -> place_ok spec a) hits -> Forall (group_ok spec) groups ->
  let st := take_hits name 1 i spec hits (groups, out) in Forall (group_ok spec) (fst st) /\ extends out (snd st).
Proof.
  intros Hh. revert groups out. induction Hh as [| h hits Hh _ IH]; intros groups out Hg; cbn [take_hits]; [done |].
  destruct (hit_at h) as [a | why]; cbn [fst snd].
  - apply IH. apply place_hit_ok; [by apply Hh | done].
  - destruct (IH groups (add_unsupported out (mkUnsupported name (found_text [(spec, hit_text h)]) why)) Hg) as [H1 H2]. split; [done |].
    etransitivity; [apply extends_unsupported | exact H2].
Qed.

Lemma settle_groups_ok spec groups out : spec ∈ KNOBS -> Forall (group_ok spec) groups ->
  extends out (settle_groups unescape show_json show_f64 (knob_name spec) [spec] groups out).
Proof.
  intros Hspec Hg. revert out. induction Hg as [| [a slots] groups [Ha Hl] _ IH]; intros out; cbn [settle_groups]; [done |].
  etransitivity; [| apply IH]. destruct slots as [| s [|]]; [done | | done]. cbn [fst snd] in *. destruct s as [text |]; cbn [group_entries].
  - cbn [length Nat.ltb Nat.leb]. destruct (decode unescape show_json show_f64 [(spec, text)]) as [v | why] eqn:Ed; [| apply extends_unsupported].
    apply extends_exception. destruct Ha as [Hd H32]. split; [| exact H32]. exists spec. split_and!; [done | done | exact (proj1 Hd) | exact (proj2 Hd) |].
    by apply decode_ok in Ed as [Hv _].
  - apply extends_unsupported.
Qed.

Lemma extract_explicit_ok cobo spec out : spec ∈ KNOBS ->
  extends out (extract_explicit debug unescape show_json show_f64 cobo (knob_name spec) [spec] out).
Proof.
  intros Hspec. unfold extract_explicit. cbn [gather length].
  destruct (take_hits (knob_name spec) 1 0 spec (explicit_hits debug cobo spec) ([], out)) as [groups out1] eqn:E.
  destruct (take_hits_ok (knob_name spec) 0 spec _ [] out (explicit_hits_ok cobo spec) (list.Forall_nil_2 _)) as [Hg Hext]. rewrite E in Hg, Hext.
  cbn [fst snd] in *. etransitivity; [exact Hext | by apply settle_groups_ok].
Qed.

(** *** A knob, and all of them *)

(** What is known of a knob once it was read. *)
Definition uniform_read (cobo : Element) (x : Extracted) (spec : KnobSpec) : Prop :=
  match star_chain_text cobo spec with
  | None => knob_name spec ∈ unset x /\ lookup_knob (x_knobs x) (knob_name spec) = None
  | Some text =>
      knob_name spec ∉ unset x /\
      match decode unescape show_json show_f64 [(spec, text)] with
      | Ok v => lookup_knob (x_knobs x) (knob_name spec) = Some v /\ value_ok spec v
      | Err why => lookup_knob (x_knobs x) (knob_name spec) = None /\ mkUnsupported (knob_name spec) text why ∈ unsupported x
      end
  end.

(** After the knobs [done_]. *)
Record reading (cobo : Element) (done_ : list KnobSpec) (x : Extracted) : Prop := {
  r_nested : nested (x_knobs x);
  r_leaves : forall n, n ∈ all_leaf_names (x_knobs x) -> n ∈ NAMES;
  r_done : Forall (uniform_read cobo x) done_;
  r_to_do : forall spec, spec ∈ KNOBS -> spec ∉ done_ -> lookup_knob (x_knobs x) (knob_name spec) = None /\ knob_name spec ∉ unset x;
  r_exceptions : Forall read_ok (x_exceptions x);
}.

Lemma name_in spec : spec ∈ KNOBS -> knob_name spec ∈ NAMES.
Proof. intros H. apply list_elem_of_fmap. by exists spec. Qed.

Lemma uniform_read_extends cobo x x' spec : uniform_read cobo x spec -> extends x x' -> uniform_read cobo x' spec.
Proof.
  unfold uniform_read. intros H [-> -> _ _ (l & ->)]. destruct (star_chain_text cobo spec) as [text |]; [| done].
  destruct H as [Hu H]. split; [done |]. destruct (decode _ _ _ _) as [v |]; [done |]. destruct H as [H1 H2]. split; [done |]. apply elem_of_app. by left.
Qed.

Lemma found_text_one spec text : spec ∈ KNOBS -> found_text [(spec, text)] = text.
Proof. intros H. unfold found_text. rewrite (knob_specs_of spec H). done. Qed.

Lemma extract_uniform_ok cobo done_ spec x : spec ∈ KNOBS -> spec ∉ done_ -> (forall s, s ∈ done_ -> s ∈ KNOBS) -> reading cobo done_ x ->
  reading cobo (done_ ++ [spec]) (extract_uniform unescape show_json show_f64 cobo (knob_name spec) [spec] x).
Proof.
  intros Hspec Hnew Hin [Hn Hl Hd Ht He]. destruct (Ht spec Hspec Hnew) as [Hno Hnu]. pose proof (name_in spec Hspec) as Hname.
  assert (Hother : forall s, s ∈ done_ -> knob_name s <> knob_name spec).
  { intros s Hs E. apply Hnew. by rewrite <- (same_name s spec (Hin s Hs) Hspec E). }
  assert (Hleft : forall s, s ∈ KNOBS -> s ∉ done_ ++ [spec] -> s ∉ done_ /\ knob_name s <> knob_name spec).
  { intros s Hs Hd'. rewrite elem_of_app, list_elem_of_singleton in Hd'. split; [tauto |]. intros E. apply Hd'. right. by apply same_name. }
  unfold extract_uniform. cbn [star_texts]. destruct (star_chain_text cobo spec) as [text |] eqn:Es.
  - cbn [zip zip_with]. destruct (decode unescape show_json show_f64 [(spec, text)]) as [v | why] eqn:Ed.
    + destruct (decode_ok _ _ _ Ed) as [Hv Hf]. destruct (look_insert (x_knobs x) (knob_name spec) v Hname Hn) as [Hn' Hlook].
      assert (Hlk : forall s, s ∈ KNOBS -> lookup_knob (insert_knob (x_knobs x) (knob_name spec) v) (knob_name s) =
          if bool_decide (knob_name s = knob_name spec) then Some v else lookup_knob (x_knobs x) (knob_name s)).
      { intros s Hs. rewrite !lookup_look by by apply name_in. rewrite Hlook by by apply name_in. done. }
      split; cbn [x_knobs unset unsupported x_exceptions add_knob]; try done.
      * intros n Hx. apply leaf_insert in Hx as [-> | Hx]; [done | by apply Hl | done | done].
      * apply list.Forall_app. split; [| constructor; [| constructor]].
        -- apply list.Forall_forall. intros s Hs. pose proof (proj1 (list.Forall_forall _ _) Hd s Hs) as Hs'. unfold uniform_read in *.
           cbn [x_knobs unset unsupported add_knob]. rewrite Hlk by by apply Hin. by rewrite bool_decide_eq_false_2 by by apply Hother.
        -- unfold uniform_read. rewrite Es, Ed. cbn [x_knobs unset add_knob]. rewrite Hlk by done. by rewrite bool_decide_eq_true_2.
      * intros s Hs [Hs' Hne]%Hleft; [| done]. rewrite Hlk by done. rewrite bool_decide_eq_false_2 by done. by apply Ht.
    + rewrite (found_text_one spec text Hspec). split; cbn [x_knobs unset unsupported x_exceptions add_unsupported]; try done.
      * apply list.Forall_app. split.
        -- eapply list.Forall_impl; [exact Hd |]. intros s Hs. eapply uniform_read_extends; [exact Hs | apply extends_unsupported].
        -- constructor; [| constructor]. unfold uniform_read. rewrite Es, Ed. cbn. split_and!; [done | done |]. apply elem_of_app. right. by left.
      * intros s Hs [Hs' _]%Hleft; [| done]. by apply Ht.
  - split; cbn [x_knobs unset unsupported x_exceptions add_unset]; try done.
    + apply list.Forall_app. split.
      * apply list.Forall_forall. intros s Hs. pose proof (proj1 (list.Forall_forall _ _) Hd s Hs) as Hs'. unfold uniform_read in *.
        cbn [x_knobs unset unsupported add_unset]. specialize (Hother s Hs). destruct (star_chain_text cobo s); rewrite elem_of_app, ?list_elem_of_singleton; tauto.
      * constructor; [| constructor]. unfold uniform_read. rewrite Es. cbn. split; [| done]. apply elem_of_app. right. by left.
    + intros s Hs [Hs' Hne]%Hleft; [| done]. destruct (Ht s Hs Hs') as [H1 H2]. split; [done |]. rewrite elem_of_app, list_elem_of_singleton. tauto.
Qed.

Lemma reading_extends cobo done_ x x' : reading cobo done_ x -> extends x x' -> reading cobo done_ x'.
Proof.
  intros [Hn Hl Hd Ht He] Hext. pose proof Hext as [Hk Hu _ (l & Hx & Hok) _]. split.
  - by rewrite Hk.
  - by rewrite Hk.
  - eapply list.Forall_impl; [exact Hd |]. intros s Hs. by eapply uniform_read_extends.
  - by rewrite Hk, Hu.
  - rewrite Hx. by apply list.Forall_app.
Qed.

Lemma extract_names_ok cobo specs done_ x : (forall s, s ∈ done_ ++ specs -> s ∈ KNOBS) -> NoDup (done_ ++ specs) -> reading cobo done_ x ->
  reading cobo (done_ ++ specs) (extract_names debug unescape show_json show_f64 cobo (map knob_name specs) x).
Proof.
  revert done_ x. induction specs as [| spec specs IH]; intros done_ x Hin Hnd Hr; cbn [map extract_names]; [by rewrite app_nil_r |].
  assert (Hspec : spec ∈ KNOBS) by (apply Hin, elem_of_app; right; by left). rewrite (knob_specs_of spec Hspec), cons_middle, app_assoc.
  apply list.NoDup_app in Hnd as Hnd'. destruct Hnd' as (_ & Hdis & _).
  apply IH; [by rewrite <- app_assoc | by rewrite <- app_assoc |].
  eapply reading_extends; [| by apply extract_explicit_ok]. apply extract_uniform_ok; try done.
  - intros Hd. apply (Hdis spec Hd). by left.
  - intros s Hs. apply Hin, elem_of_app. by left.
Qed.

Lemma knob_names_all : knob_names = map knob_name KNOBS.
Proof. by vm_compute. Qed.

Lemma extract_reading cobo name : reading cobo KNOBS (extract_cobo debug unescape show_json show_f64 name cobo).
Proof.
  unfold extract_cobo. rewrite knob_names_all. apply (extract_names_ok cobo KNOBS []); [done | |].
  - apply (NoDup_fmap_1 knob_name). exact knob_names_distinct.
  - split; cbn [x_knobs unset x_exceptions].
    + intros n o i _ _. done.
    + intros n Hn. by apply elem_of_nil in Hn.
    + constructor.
    + intros spec Hspec _. split; [| by intros ?%elem_of_nil]. rewrite lookup_look by by apply name_in.
      unfold look. by destruct (key_of (knob_name spec)) as [? []].
    + constructor.
Qed.

(** Every knob of a template is read exactly once: its value on the chain of
    stars, if it is there and valid; else it is named as unset or as unsupported,
    with the text found, and no value is put in its place.  Every exception read is
    one that a parameter file may have; and when nothing is unset or unsupported and
    no place comes twice, the file made of what was read is valid. *)
Theorem extract_accounts cobo name :
  let x := extract_cobo debug unescape show_json show_f64 name cobo in
  Forall (uniform_read cobo x) KNOBS /\ Forall read_ok (x_exceptions x) /\
  (unset x = [] /\ unsupported x = [] /\ NoDup (map exception_key (x_exceptions x)) /\ trim name <> EmptyString ->
   valid_params (mkParamsRaw SCHEMA_ID name (x_knobs x) (x_exceptions x) None)).
Proof.
  intros x. destruct (extract_reading cobo name) as [Hn Hl Hd _ He]. fold x in Hn, Hl, Hd, He. clearbody x. split_and!; [done | done |].
  intros (Hu & Hs & Hnd & Ht). split; cbn [raw_schema raw_template raw_knobs raw_exceptions]; [reflexivity | exact Ht | | | | exact Hnd].
  - eapply list.Forall_impl; [exact Hd |]. intros spec Hspec. unfold uniform_read in Hspec. rewrite Hu, Hs in Hspec.
    destruct (star_chain_text cobo spec) as [text |]; [| by destruct Hspec as [?%elem_of_nil _]].
    destruct Hspec as [_ H]. destruct (decode _ _ _ _) as [v |]; [by exists v | by destruct H as [_ ?%elem_of_nil]].
  - apply list.Forall_forall. intros n [spec [-> Hspec]]%Hl%list_elem_of_fmap. unfold knob_spec. by rewrite (knob_specs_of spec Hspec).
  - eapply list.Forall_impl; [exact He |]. by intros e [].
Qed.
End Sound.

(** ** Rendered, and extracted *)

(** The characters that XML has its own way to write. *)
Definition XML_SPECIAL : list ascii := ["<"; ">"; "&"; "'"; "034"]%char.

Lemma leaf_text_path suffix node : leaf_text suffix node = text_at (leaf_path suffix) node.
Proof.
  revert node. induction suffix as [| name suffix IH]; intros node; [done |]. cbn [leaf_text leaf_path map]. rewrite text_at_cons. cbn [fst snd].
  destruct (child node name None); [apply IH | done].
Qed.

Lemma star_chain_path n d node p : (0 < d)%nat -> (d + n <= 4)%nat ->
  text_at (level_steps n d [] ++ p) node = match star_chain n d node with Some c => text_at p c | None => None end.
Proof.
  intros Hd0. revert d node Hd0. induction n as [| n IH]; intros d node Hd0 Hd; [done |]. rewrite level_steps_cons. cbn [app star_chain head tail from_option].
  rewrite text_at_cons. cbn [fst snd]. assert (element_at_depth d = Some (level_name d)) as ->.
  { destruct d as [| [| [| [|]]]]; [lia | done | done | done | lia]. }
  unfold id. destruct (child node (level_name d) (Some STAR)); [| done]. apply IH; lia.
Qed.

Lemma star_chain_setting cobo spec : star_chain_text cobo spec = setting cobo spec [].
Proof.
  unfold star_chain_text, setting, cobo_path, knob_leaf. rewrite text_at_cons. cbn [fst snd]. destruct (child cobo INSTANCE (Some STAR)) as [c |]; [| done].
  rewrite star_chain_path; [| lia | pose proof (depth_le (scope spec)); lia]. destruct (star_chain _ _ c); [apply leaf_text_path | done].
Qed.

Definition is_real (spec : KnobSpec) : bool := match kind spec with KReal _ _ | KRealEnum _ => true | _ => false end.

(** The same value; a number that is to be real comes back as one. *)
Definition same_value (spec : KnobSpec) (v v' : Value) : Prop :=
  if is_real spec then exists x, as_f64 v = Some x /\ v' = Jreal x else v' = v.

(** What the table says of the texts of its values. *)
Definition text_kind (k : KnobKind) : Prop :=
  match k with
  | KInt min _ => exists m, min = Some m /\ 0 <= m
  | KIntEnum allowed => Forall (fun n => 0 <= n) allowed
  | KStrEnum allowed => Forall (fun s => trim s = s) allowed
  | KDerived table => table = [("full", "true"); ("partial", "false")]
  | _ => True
  end.

Lemma knob_texts spec : spec ∈ KNOBS -> text_kind (kind spec).
Proof.
  revert spec. apply list.Forall_forall. unfold KNOBS, PEAKING_TIME_NS. repeat apply list.Forall_cons_2; try apply list.Forall_nil_2; cbn [kind text_kind];
    match goal with
    | |- ex _ => eexists; split; [reflexivity | lia]
    | |- 0 <= _ => lia
    | |- _ = _ => first [reflexivity | vm_compute; reflexivity]
    | |- Forall _ _ => repeat (apply list.Forall_cons_2; [first [lia | vm_compute; reflexivity] |]); apply list.Forall_nil_2
    | |- True => exact I
    end.
Qed.

Section RoundTrip.
Context (debug : string -> string) (xml_escape : string -> string) (unescape : string -> result string string).
Context (show_json : Value -> string) (show_f64 : f64 -> string).

(** A number that is read back from its text. *)
Definition reads_back (x : f64) : Prop := is_finite x = true /\ parse_f64 (trim (format_real show_f64 x)) = Some x.

Hypothesis unescape_escape : forall s, unescape (xml_escape s) = Ok s.
Hypothesis escape_plain : forall s, avoids XML_SPECIAL s = true -> xml_escape s = s.

Lemma int_text n : 0 <= n < 2 ^ 63 -> parse_int 64 (trim (pretty n)) = Some n.
Proof. intros Hn. rewrite pretty_dec, (trim_digits (dec n) (dec_digits n)) by lia. apply parse_int_dec; [lia |]. exact Hn. Qed.

Lemma text_value_back spec v text : spec ∈ KNOBS -> is_derived spec = false -> value_ok spec v ->
  (forall x, is_real spec = true -> as_f64 v = Some x -> reads_back x) ->
  knob_text show_json show_f64 spec v = Ok text -> exists v', text_value spec (xml_escape text) (trim text) = Ok v' /\ same_value spec v v' /\ value_ok spec v'.
Proof.
  intros Hspec Hder Hv Hreal. pose proof (knob_texts spec Hspec) as Hk. pose proof Hv as Hok.
  unfold knob_text, value_to_xcfg_text, text_value, same_value, is_real, is_derived, value_ok in *.
  destruct (kind spec) as [min max | allowed | min max | allowed | allowed | | table]; cbn [text_kind] in Hk; [| | | | | | done].
  - destruct Hv as (n & -> & Hn & [Hmin _]). destruct Hk as (m & -> & Hm). specialize (Hmin m eq_refl). cbn. rewrite (proj2 (Z.ltb_lt _ _)) by done.
    intros [= <-]. rewrite (int_text n) by lia. by exists (Jint n).
  - destruct Hv as (n & -> & Hn & Hin). rewrite list.Forall_forall in Hk. specialize (Hk n Hin). cbn. rewrite (proj2 (Z.ltb_lt _ _)) by done.
    intros [= <-]. rewrite (int_text n) by lia. by exists (Jint n).
  - destruct Hv as (x & Hx & Hw). destruct (Hreal x eq_refl Hx) as [Hfin Hback]. rewrite Hx. intros [= <-]. rewrite Hback, Hfin.
    exists (Jreal x). split; [done |]. split; [by exists x | by exists x].
  - destruct Hv as (x & a & Hx & Hw). destruct (Hreal x eq_refl Hx) as [Hfin Hback]. rewrite Hx. intros [= <-]. rewrite Hback, Hfin.
    exists (Jreal x). split; [done |]. split; [by exists x | by exists x, a].
  - destruct Hv as (s & -> & Hin). rewrite list.Forall_forall in Hk. cbn. intros [= <-]. rewrite (Hk s Hin). by exists (Jstr s).
  - destruct Hv as (b & ->). cbn. intros [= <-]. exists (Jbool b). split; [by destruct b | done].
Qed.

Lemma decode_back spec v text : spec ∈ KNOBS -> value_ok spec v ->
  (forall x, is_real spec = true -> as_f64 v = Some x -> reads_back x) ->
  knob_text show_json show_f64 spec v = Ok text -> exists v', decode unescape show_json show_f64 [(spec, xml_escape text)] = Ok v' /\ same_value spec v v'.
Proof.
  intros Hspec Hv Hreal Ht. unfold decode. destruct (is_derived spec) eqn:Ed.
  - pose proof (knob_texts spec Hspec) as Hk. unfold is_derived, knob_text, value_to_xcfg_text, value_ok, same_value, is_real, derived_mode in *. cbn [derived_loop].
    destruct (kind spec) as [| | | | | | table]; try done. cbn [text_kind] in Hk. subst table. destruct Hv as (s & t & -> & Hs). cbn [as_str] in Ht. rewrite Hs in Ht.
    injection Ht as <-. exists (Jstr s). split; [| done]. cbn [assoc] in Hs.
    destruct (bool_decide (s = "full")) eqn:E1; [apply bool_decide_eq_true in E1 as ->; injection Hs as <-; by rewrite escape_plain |].
    destruct (bool_decide (s = "partial")) eqn:E2; [apply bool_decide_eq_true in E2 as ->; injection Hs as <-; by rewrite escape_plain | done].
  - destruct (text_value_back spec v text Hspec Ed Hv Hreal Ht) as (v' & Hv' & Hsame & Hok). exists v'. split; [| done].
    unfold text_to_value. rewrite unescape_escape. cbn [result_bind]. rewrite Hv'. cbn [result_bind].
    pose proof (check_value_decides show_json show_f64 spec v') as Hc. unfold is_derived in Ed.
    destruct (check_value show_json show_f64 spec v') as [u | e] eqn:Ec; [by destruct (kind spec) | by destruct Hc as [_ []]].
Qed.

(** C18: What was rendered is read back: from a rendered template every knob is
    extracted with the uniform value that the parameters gave it, a whole number as
    the real it stands for, and none is missing. *)
Theorem render_extract p cobo cobo' name
    (Hknobs : Forall (fun spec => exists v, lookup_knob (knobs p) (knob_name spec) = Some v /\ value_ok spec v) KNOBS)
    (Hes : Forall exception_ok (exceptions p)) (Hcobo : tidy cobo)
    (Hreal : forall spec v x, spec ∈ KNOBS -> is_real spec = true -> lookup_knob (knobs p) (knob_name spec) = Some v -> as_f64 v = Some x -> reads_back x)
    (Hrender : render_cobo xml_escape show_json show_f64 p cobo = Ok cobo') :
  let x := extract_cobo debug unescape show_json show_f64 name cobo' in
  Forall (fun spec => exists v v', lookup_knob (knobs p) (knob_name spec) = Some v /\ lookup_knob (x_knobs x) (knob_name spec) = Some v' /\
    same_value spec v v' /\ knob_name spec ∉ unset x) KNOBS.
Proof.
  intros x. destruct (extract_reading debug unescape show_json show_f64 cobo' name) as [_ _ Hd _ _]. fold x in Hd. clearbody x.
  apply list.Forall_forall. intros spec Hspec. rewrite list.Forall_forall in Hd, Hknobs. specialize (Hd spec Hspec).
  destruct (Hknobs spec Hspec) as (v & Hv & Hvok). destruct (render_uniform xml_escape show_json show_f64 p cobo cobo' spec Hes Hcobo Hrender Hspec) as (v1 & text & Hv1 & Ht & Hset).
  assert (v1 = v) as -> by congruence. destruct (decode_back spec v text Hspec Hvok (fun y Hr Hy => Hreal spec v y Hspec Hr Hv Hy) Ht) as (v' & Hv' & Hsame).
  unfold uniform_read in Hd. rewrite star_chain_setting, Hset, Hv' in Hd. destruct Hd as (Hu & Hl & _). by exists v, v'.
Qed.
End RoundTrip.

(** ** A template *)

Definition sample_extract (cobo : Element) : Extracted :=
  extract_cobo (fun s => s) (fun s => Ok s) Sample.no_text Sample.no_text "configure-mini.xcfg" cobo.

(** The template as it stands: one value in two places it cannot be said for, and
    most knobs unset; and rendered with two exceptions: all of it can be said. *)
Example sample_extracted :
  map un_knob (unsupported (sample_extract Sample.cobo)) = ["triggerDelay"] /\ length (unset (sample_extract Sample.cobo)) = 14%nat /\
  map exception_key (x_exceptions (sample_extract Sample.cobo)) = [("gain", "{asad: 1, aget: 0, ch: 5}")] /\
  match Sample.rendered [Sample.coarse; Sample.fine] with
  | Ok cobo' =>
      unsupported (sample_extract cobo') = [] /\ unset (sample_extract cobo') = [] /\
      map exception_key (x_exceptions (sample_extract cobo')) = [("gain", "{asad: 1, aget: 0, ch: 4}"); ("gain", "{asad: 1, aget: 0, ch: 5}")]
  | Err _ => False
  end.
Proof. vm_compute. done. Qed.

Lemma sample_reads_back : Forall (fun spec => forall v x, is_real spec = true -> lookup_knob GoodFile.knobs (knob_name spec) = Some v ->
  as_f64 v = Some x -> reads_back Sample.no_text x) KNOBS.
Proof.
  unfold KNOBS. repeat apply list.Forall_cons_2; try apply list.Forall_nil_2; intros v x Hr Hv Hx; vm_compute in Hr; try discriminate Hr;
    vm_compute in Hv; injection Hv as <-; vm_compute in Hx; injection Hx as <-; split; vm_compute; reflexivity.
Qed.

Lemma render_extract_witness : exists cobo',
  Sample.rendered [Sample.coarse; Sample.fine] = Ok cobo' /\ tidy Sample.cobo /\ Forall exception_ok [Sample.coarse; Sample.fine] /\
  Forall (fun spec => exists v v', lookup_knob GoodFile.knobs (knob_name spec) = Some v /\
    lookup_knob (x_knobs (sample_extract cobo')) (knob_name spec) = Some v' /\ same_value spec v v' /\ knob_name spec ∉ unset (sample_extract cobo')) KNOBS.
Proof.
  destruct (Sample.rendered [Sample.coarse; Sample.fine]) as [cobo' | e] eqn:E; [| vm_compute in E; discriminate].
  exists cobo'. split; [reflexivity |]. split; [exact sample_tidy |]. split; [exact sample_exceptions |].
  exact (render_extract (fun s => s) Sample.text (fun s => Ok s) Sample.no_text Sample.no_text (fun s => eq_refl) (fun s _ => eq_refl)
    (Sample.params [Sample.coarse; Sample.fine]) Sample.cobo cobo' "configure-mini.xcfg" sample_knobs sample_exceptions sample_tidy
    (fun spec v x Hspec Hr Hv Hx => proj1 (list.Forall_forall _ _) sample_reads_back spec Hspec v x Hr Hv Hx) E).
Defined.
