(* ===== verification/ParamsApi.v ===== *)
(** * ParamsApi: the endpoints of the parameters, and the files they keep

    Models [src/controller/params_api.rs] and what [src/controller/mod.rs] and
    [src/controller/rest.rs] have for it: the parameter file that is in use,
    [current.json], the configuration files rendered from it, and the requests that
    show, replace and try them.  The disk is a map from paths to texts; every
    operation on it may fail, a write after any part of the text, and every state
    another reader can see is kept.  The JSON parser and printer of serde_json, the
    hash, quick_xml and the resolution of links are arguments. *)

From Stdlib Require Import Ascii.
From stdpp Require Import gmap strings.
From S2P Require Handlers.
From S2P Require Import Prelude Decimal Text Checks Float Params Xcfg Render RenderValues Extract.
Open Scope string_scope.
Open Scope list_scope.
Open Scope Z_scope.

(** ** The disk *)

Notation Files := (gmap string string).

(** How one operation goes: through; or not, with a part of the text written if a
    write got as far as opening the file; or, of a read, what is there is no text. *)
Inductive IoOutcome : Type :=
| Goes
| Fails (why : string) (left : option nat)
| NoText (why : string).

Record Audit : Type := mkAudit {
  au_action : string;
  au_params : Value;
  au_operator : string;
  au_ok : bool;
  au_error : option string;
}.

(** The files, how the operations to come go, what could be seen of the files on
    the way, and the audit. *)
Record World : Type := mkWorld {
  files : Files;
  io : list IoOutcome;
  seen : list Files;
  audits : list Audit;
}.
#[export] Instance eta_World : Eta World := fun w => mkWorld (files w) (io w) (seen w) (audits w).

Definition Io (A : Type) : Type := World -> A * World.
Definition ret {A : Type} (a : A) : Io A := fun w => (a, w).
Definition bind {A B : Type} (m : Io A) (k : A -> Io B) : Io B := fun w => let '(a, w) := m w in k a w.

Notation "'do!' x := m 'in' k" := (bind m (fun x => k))
  (at level 200, x name, m at level 200, k at level 200, right associativity).
(** Past a failure, with what it answers. *)
Notation "'try!' x := m 'or' e => h 'in' k" := (bind m (fun r => match r with Ok x => k | Err e => h end))
  (at level 200, x pattern, e name, m at level 200, h at level 200, k at level 200, right associativity).

Definition next_outcome : Io IoOutcome :=
  fun w => match io w with
           | [] => (Goes, w)
           | o :: os => (o, mkWorld (files w) os (seen w) (audits w))
           end.

(** The files become these, and are seen. *)
Definition become (fs : Files) : Io unit := fun w => (tt, mkWorld fs (io w) (seen w ++ [fs]) (audits w)).

(** [fs::write]: the file is emptied, then filled piece by piece. *)
Fixpoint fill (path text : string) (ns : list nat) : Io unit :=
  match ns with
  | [] => ret tt
  | n :: ns => do! _ := (fun w => become (<[path := String.substring 0 n text]> (files w)) w) in fill path text ns
  end.

Definition write (path text : string) : Io (result unit string) :=
  do! o := next_outcome in
  match o with
  | Goes => do! _ := fill path text (seq 0 (S (String.length text))) in ret (Ok tt)
  | Fails why None | NoText why => ret (Err why)
  | Fails why (Some n) => do! _ := fill path text (seq 0 (S (Nat.min n (String.length text)))) in ret (Err why)
  end.

(** [fs::rename]: at once, or not at all. *)
Definition rename (from to : string) : Io (result unit string) :=
  do! o := next_outcome in
  match o with
  | Goes =>
      fun w => match files w !! from with
               | Some text => (do! _ := become (<[to := text]> (delete from (files w))) in ret (Ok tt)) w
               | None => (Err "No such file or directory (os error 2)", w)
               end
  | Fails why _ | NoText why => ret (Err why)
  end.

(** [Path::exists]: false when it cannot be told. *)
Definition exists_ (path : string) : Io bool :=
  do! o := next_outcome in
  match o with
  | Goes => fun w => (bool_decide (is_Some (files w !! path)), w)
  | _ => ret false
  end.

Definition create_dir_all (path : string) : Io (result unit string) :=
  do! o := next_outcome in
  ret match o with Goes => Ok tt | Fails why _ | NoText why => Err why end.

Inductive ReadError : Type :=
| NotFound (why : string)
| InvalidData (why : string)
| Unreadable (why : string).
Definition read_error_text (e : ReadError) : string := match e with NotFound why | InvalidData why | Unreadable why => why end.

Definition read_to_string (path : string) : Io (result string ReadError) :=
  do! o := next_outcome in
  match o with
  | Goes => fun w => (match files w !! path with Some text => Ok text | None => Err (NotFound "No such file or directory (os error 2)") end, w)
  | Fails why _ => ret (Err (Unreadable why))
  | NoText why => ret (Err (InvalidData why))
  end.

(** [Path::join]: an absolute path stands for itself. *)
Definition ends_with (p s : string) : bool := match strip_suffix p s with Some _ => true | None => false end.
Definition join (dir name : string) : string :=
  if starts_with "/" name then name
  else if bool_decide (dir = EmptyString) || ends_with "/" dir then dir +:+ name else dir +:+ "/" +:+ name.

(** ** The controller *)

Definition Reply : Type := Z * Value.
Definition OK : Z := 200.
Definition BAD_REQUEST : Z := 400.
Definition UNAUTHORIZED : Z := 401.
Definition NOT_FOUND : Z := 404.
Definition CONFLICT : Z := 409.
Definition INTERNAL_SERVER_ERROR : Z := 500.
Definition SERVICE_UNAVAILABLE : Z := 503.

Definition ok_json (body : Value) : Reply := (OK, body).
Definition err_json (code : Z) (message : string) : Reply := (code, Jobject [("error", Jstr message)]).

Record Dirs : Type := mkDirs {
  ecc_config_dir : option string;
  params_dir_setting : option string;
  output_root : string;
}.

Definition ECC_CONFIG_DIR_NOT_CONFIGURED : string := "ecc_config_dir is not configured".

Definition audit (action : string) (params : Value) (operator : string) (ok : bool) (error : option string) : Io unit :=
  fun w => (tt, mkWorld (files w) (io w) (seen w) (audits w ++ [mkAudit action params operator ok error])).

Record CurrentParams : Type := mkCurrentParams {
  cp_params : Params;
  cp_sha256 : string;
  cp_text : string;
}.

Section Endpoints.
Context (dirs : Dirs).
Context (from_str : string -> result ParamsRaw string) (read_value : string -> option Value).
Context (show_json : Value -> string) (show_f64 : f64 -> string) (sha256_hex : string -> string).
Context (read_events : string -> list (Event * string) * option string) (xml_escape : string -> string).

Definition params_dir : string := default (join (output_root dirs) "params") (params_dir_setting dirs).
Definition current_path : string := join params_dir "current.json".

Definition current_params : Io (result (option CurrentParams) string) :=
  try! text := read_to_string current_path or e =>
    ret (match e with NotFound _ => Ok None | InvalidData why | Unreadable why => Err ("cannot read " +:+ current_path +:+ ": " +:+ why) end) in
  ret match from_json_str show_json show_f64 from_str text with
      | Err e => Err (current_path +:+ ": " +:+ params_error_text e)
      | Ok p => Ok (Some (mkCurrentParams p (sha256_hex text) text))
      end.

Definition render_params (p : Params) (template_xml : string) : result Rendered ParamsError :=
  render xml_escape show_json show_f64 sha256_hex read_events p template_xml.

Definition render_with_template_dir (dir : string) (p : Params) : Io (result Rendered string) :=
  let template_path := join dir (template p) in
  try! template_xml := read_to_string template_path or e =>
    ret (Err ("cannot read template " +:+ template_path +:+ ": " +:+ read_error_text e)) in
  ret match render_params p template_xml with Ok r => Ok r | Err e => Err (params_error_text e) end.

Definition count (es : list Exception) : Value := Jint (Z.of_nat (length es)).

Definition params_body (dir : string) (current : CurrentParams) (rendered : Rendered) : Value :=
  Jobject [("exceptions", count (exceptions (cp_params current)));
           ("files", Jobject [("configure", Jstr (join dir (configure_file_name rendered)));
                              ("prepare", Jstr (join dir (prepare_file_name rendered)))]);
           ("id", Jstr (config_id rendered));
           ("params", default Jnull (read_value (cp_text current)));
           ("sha256", Jstr (cp_sha256 current))].

Definition get_params : Io Reply :=
  match ecc_config_dir dirs with
  | None => ret (err_json SERVICE_UNAVAILABLE ECC_CONFIG_DIR_NOT_CONFIGURED)
  | Some dir =>
      try! current := current_params or e => ret (err_json INTERNAL_SERVER_ERROR e) in
      match current with
      | None => ret (err_json NOT_FOUND "no params configured")
      | Some current =>
          try! rendered := render_with_template_dir dir (cp_params current) or e => ret (err_json INTERNAL_SERVER_ERROR e) in
          ret (ok_json (params_body dir current rendered))
      end
  end.

(** ** Saving *)

Definition cannot_write (path why : string) : Z * string := (INTERNAL_SERVER_ERROR, "cannot write " +:+ path +:+ ": " +:+ why).

(** The files named after their contents: not written again. *)
Definition write_once (path text : string) : Io (result unit (Z * string)) :=
  do! there := exists_ path in
  if there then ret (Ok tt)
  else try! _ := write path text or why => ret (Err (cannot_write path why)) in ret (Ok tt).

Definition save_params (dir : string) (p : Params) (text : string) : Io (result Rendered (Z * string)) :=
  try! rendered := render_with_template_dir dir p or e => ret (Err (BAD_REQUEST, e)) in
  try! _ := write_once (join dir (configure_file_name rendered)) (xml rendered) or e => ret (Err e) in
  try! _ := write_once (join dir (prepare_file_name rendered)) (xml rendered) or e => ret (Err e) in
  try! _ := create_dir_all params_dir or why => ret (Err (INTERNAL_SERVER_ERROR, "cannot create " +:+ params_dir +:+ ": " +:+ why)) in
  let tmp_path := join params_dir "current.json.tmp" in
  try! _ := write tmp_path text or why => ret (Err (cannot_write tmp_path why)) in
  try! _ := rename tmp_path current_path or why => ret (Err (cannot_write current_path why)) in
  try! _ := write_once (join params_dir (config_id rendered +:+ ".json")) text or e => ret (Err e) in
  ret (Ok rendered).

Definition put_refused (operator : string) (code : Z) (why : string) : Io Reply :=
  do! _ := audit "params/put" (Jobject []) operator false (Some why) in ret (err_json code why).

Definition put_params (session : option Handlers.Session) (phase : Handlers.Phase.Phase) (token : string) (params : Value) : Io Reply :=
  match Handlers.authorized token session with
  | Err why =>
      do! _ := audit "params/put" (Jobject []) "<unauthorized>" false (Some why) in ret (err_json UNAUTHORIZED why)
  | Ok operator =>
      match ecc_config_dir dirs with
      | None => put_refused operator SERVICE_UNAVAILABLE ECC_CONFIG_DIR_NOT_CONFIGURED
      | Some dir =>
          let text := show_json params in
          match from_json_str show_json show_f64 from_str text with
          | Err e => put_refused operator BAD_REQUEST (params_error_text e)
          | Ok p =>
              try! rendered :=
                (if negb (bool_decide (phase = Handlers.Phase.Idle)) then
                   ret (Err (CONFLICT, "controller is " +:+ Handlers.Phase.to_string phase +:+ " — not Idle (次 run から効くという半端は作らない)"))
                 else save_params dir p text) or e => put_refused operator (fst e) (snd e) in
              let current := mkCurrentParams p (sha256_hex text) text in
              do! _ := audit "params/put" (Jobject [("exceptions", count (exceptions p)); ("id", Jstr (config_id rendered))]) operator true None in
              ret (ok_json (params_body dir current rendered))
          end
      end
  end.

(** ** Looking *)

Definition with_template (p : Params) (name : string) : Params := mkParams (schema p) name (knobs p) (exceptions p) (note p) (raw_json p).

Definition get_params_render (template_query : option string) : Io Reply :=
  match ecc_config_dir dirs with
  | None => ret (err_json SERVICE_UNAVAILABLE ECC_CONFIG_DIR_NOT_CONFIGURED)
  | Some dir =>
      try! current := current_params or e => ret (err_json INTERNAL_SERVER_ERROR e) in
      match current with
      | None => ret (err_json NOT_FOUND "no params configured")
      | Some current =>
          let p := match template_query with Some name => with_template (cp_params current) name | None => cp_params current end in
          try! rendered := render_with_template_dir dir p or e => ret (err_json BAD_REQUEST e) in
          ret (ok_json (Jobject [("configure_xcfg", Jstr (xml rendered)); ("exceptions", count (exceptions p)); ("id", Jstr (config_id rendered))]))
      end
  end.

Definition is_hexdigit (c : ascii) : bool :=
  let n := N_of_ascii c in ((48 <=? n) && (n <=? 57) || (65 <=? n) && (n <=? 70) || (97 <=? n) && (n <=? 102))%N.

Fixpoint all_hex (s : string) : bool := match s with EmptyString => true | String c s => is_hexdigit c && all_hex s end.

(** The part after the last two underscores. *)
Fixpoint after_last_pair (s : string) : option string :=
  match s with
  | EmptyString => None
  | String c t =>
      match after_last_pair t with
      | Some rest => Some rest
      | None => strip_prefix "__" s
      end
  end.

Definition is_generated_xcfg (name : string) : bool :=
  let stem := default name (strip_suffix ".xcfg" name) in
  match after_last_pair stem with
  | Some hash => (String.length hash =? 8)%nat && all_hex hash
  | None => false
  end.

(** The entries of the directory: a name and whether it is a file, or an error. *)
Fixpoint template_names (dir : string) (entries : list (result (string * bool) string)) : result (list string) string :=
  match entries with
  | [] => Ok []
  | Err e :: _ => Err ("cannot read " +:+ dir +:+ ": " +:+ e)
  | Ok (name, is_file) :: entries =>
      let? names := template_names dir entries in
      Ok (if starts_with "configure-" name && ends_with ".xcfg" name && negb (is_generated_xcfg name) && is_file then name :: names else names)
  end.

(** [sort] of texts. *)
Fixpoint text_insert (s : string) (l : list string) : list string :=
  match l with
  | [] => [s]
  | t :: l => if String.ltb t s then t :: text_insert s l else s :: t :: l
  end.
Definition sort_texts (l : list string) : list string := foldr text_insert [] l.

Definition get_params_templates (read_dir : string -> result (list (result (string * bool) string)) string) : Reply :=
  match ecc_config_dir dirs with
  | None => err_json SERVICE_UNAVAILABLE ECC_CONFIG_DIR_NOT_CONFIGURED
  | Some dir =>
      match read_dir dir with
      | Err e => err_json INTERNAL_SERVER_ERROR ("cannot read " +:+ dir +:+ ": " +:+ e)
      | Ok entries =>
          match template_names dir entries with
          | Err e => err_json INTERNAL_SERVER_ERROR e
          | Ok names => ok_json (Jobject [("templates", Jarray (map Jstr (sort_texts names)))])
          end
      end
  end.

Fixpoint contains (p s : string) : bool :=
  starts_with p s || match s with EmptyString => false | String _ s => contains p s end.

(** [canonicalize] resolves a path; [inside] says that one is below another. *)
Definition get_params_defaults (debug : string -> string) (unescape : string -> result string string)
    (canonicalize : string -> result string string) (inside : string -> string -> bool) (template_query : option string) : Io Reply :=
  match ecc_config_dir dirs with
  | None => ret (err_json SERVICE_UNAVAILABLE ECC_CONFIG_DIR_NOT_CONFIGURED)
  | Some dir =>
      let name := default EmptyString template_query in
      if bool_decide (name = EmptyString) then ret (err_json BAD_REQUEST "template is required")
      else if contains "/" name || contains "\" name || contains ".." name then
        ret (err_json BAD_REQUEST ("template " +:+ debug name +:+ " must be a file name in ecc_config_dir"))
      else if negb (ends_with ".xcfg" name) then ret (err_json BAD_REQUEST ("template " +:+ debug name +:+ " is not an .xcfg file"))
      else
        let path := join dir name in
        do! there := exists_ path in
        if negb there then ret (err_json NOT_FOUND ("template " +:+ name +:+ " not found in " +:+ dir))
        else
          match canonicalize path, canonicalize dir with
          | Ok file, Ok real_dir =>
              if negb (inside file real_dir) then ret (err_json BAD_REQUEST ("template " +:+ name +:+ " resolves outside ecc_config_dir"))
              else
                try! text := read_to_string path or e =>
                  ret (match e with
                       | InvalidData why => err_json BAD_REQUEST ("template " +:+ name +:+ " is not UTF-8 text: " +:+ why)
                       | NotFound why | Unreadable why => err_json INTERNAL_SERVER_ERROR ("cannot read " +:+ path +:+ ": " +:+ why)
                       end) in
                ret match extract debug unescape show_json show_f64 read_events name text with
                    | Ok x => ok_json (to_json x)
                    | Err e => err_json BAD_REQUEST (params_error_text e)
                    end
          | Err e, _ | _, Err e => ret (err_json INTERNAL_SERVER_ERROR ("cannot resolve " +:+ path +:+ ": " +:+ e))
          end
  end.

(** ** What the status and a run start see *)

Definition params_status_json : Io (Value * list string) :=
  do! current := current_params in
  match current with
  | Err e => ret (Jnull, ["params: " +:+ e])
  | Ok None => ret (Jnull, [])
  | Ok (Some current) =>
      match ecc_config_dir dirs with
      | None => ret (Jnull, ["params: ecc_config_dir is not configured"])
      | Some dir =>
          do! rendered := render_with_template_dir dir (cp_params current) in
          ret match rendered with
              | Ok r => (Jobject [("exceptions", count (exceptions (cp_params current))); ("id", Jstr (config_id r))], [])
              | Err e => (Jnull, ["params: " +:+ e])
              end
      end
  end.

Definition run_start_params_snapshot : Io (result (option (CurrentParams * Rendered)) string) :=
  try! current := current_params or e => ret (Err e) in
  match current with
  | None => ret (Ok None)
  | Some current =>
      match ecc_config_dir dirs with
      | None => ret (Err ("params/current.json exists but ecc_config_dir is not configured — " +:+
                          "refusing to start a run with a stale config_id"))
      | Some dir =>
          try! rendered := render_with_template_dir dir (cp_params current) or e => ret (Err e) in
          ret (Ok (Some (current, rendered)))
      end
  end.
End Endpoints.

(** ** What an operation does to the files *)

(** From files that satisfy [I] and [P], [m] leaves files that satisfy [I] and its
    result's [Q], and shows on the way only files that satisfy [I]. *)
Definition triple {A : Type} (I P : Files -> Prop) (m : Io A) (Q : A -> Files -> Prop) : Prop :=
  forall w, I (files w) -> P (files w) ->
  I (files (snd (m w))) /\ Q (fst (m w)) (files (snd (m w))) /\ audits (snd (m w)) = audits w /\
  exists l, seen (snd (m w)) = seen w ++ l /\ Forall I l.

Definition closed (I : Files -> Prop) (path : string) : Prop := forall fs text, I fs -> I (<[path := text]> fs).

Lemma triple_ret {A : Type} (I P : Files -> Prop) (a : A) (Q : A -> Files -> Prop) : (forall fs, I fs -> P fs -> Q a fs) -> triple I P (ret a) Q.
Proof. intros H w HI HP. split_and!; [done | by apply H | done |]. exists []. by rewrite app_nil_r. Qed.

Lemma triple_bind {A B : Type} I P (m : Io A) (k : A -> Io B) Q R : triple I P m Q -> (forall a, triple I (Q a) (k a) R) -> triple I P (bind m k) R.
Proof.
  intros Hm Hk w HI HP. destruct (Hm w HI HP) as (HI1 & HQ & Ha & l & Hs & Hl). unfold bind. destruct (m w) as [a w1]. cbn [fst snd] in *.
  destruct (Hk a w1 HI1 HQ) as (HI2 & HR & Ha2 & l2 & Hs2 & Hl2). split_and!; [done | done | congruence |].
  exists (l ++ l2). rewrite Hs2, Hs, app_assoc. split; [done |]. by apply list.Forall_app.
Qed.

Lemma triple_weaken {A : Type} I (P P' : Files -> Prop) (m : Io A) (Q Q' : A -> Files -> Prop) : triple I P' m Q -> (forall fs, P fs -> P' fs) -> (forall a fs, I fs -> Q a fs -> Q' a fs) -> triple I P m Q'.
Proof. intros Hm HP HQ w HI Hw. destruct (Hm w HI (HP _ Hw)) as (H1 & H2 & H3 & H4). split_and!; auto. Qed.

Lemma triple_pure {A : Type} I P (phi : Prop) (m : Io A) Q : (phi -> triple I P m Q) -> triple I (fun fs => P fs /\ phi) m Q.
Proof. intros H w HI [HP Hphi]. exact (H Hphi w HI HP). Qed.

(** An operation that does not change the files. *)
Lemma triple_keep {A : Type} I P (m : Io A) : (forall w, files (snd (m w)) = files w /\ seen (snd (m w)) = seen w /\ audits (snd (m w)) = audits w) ->
  triple I P m (fun _ fs => P fs).
Proof. intros H w HI HP. destruct (H w) as (-> & -> & ->). split_and!; [done | done | done |]. exists []. by rewrite app_nil_r. Qed.

Lemma keep_outcome w : files (snd (next_outcome w)) = files w /\ seen (snd (next_outcome w)) = seen w /\ audits (snd (next_outcome w)) = audits w.
Proof. unfold next_outcome. by destruct (io w). Qed.

Lemma outcome_keep {A : Type} I P (k : IoOutcome -> Io A) :
  (forall o w, files (snd (k o w)) = files w /\ seen (snd (k o w)) = seen w /\ audits (snd (k o w)) = audits w) ->
  triple I P (bind next_outcome k) (fun _ fs => P fs).
Proof. intros Hk. eapply triple_bind; [apply (triple_keep I P), keep_outcome |]. intros o. by apply triple_keep. Qed.

Lemma exists_keep I P path : triple I P (exists_ path) (fun _ fs => P fs).
Proof. apply outcome_keep. by intros []. Qed.
Lemma create_keep I P path : triple I P (create_dir_all path) (fun _ fs => P fs).
Proof. apply outcome_keep. by intros []. Qed.
Lemma read_keep I P path : triple I P (read_to_string path) (fun _ fs => P fs).
Proof. apply outcome_keep. by intros []. Qed.

Lemma fill_triple I P path text ns : closed I path -> closed P path ->
  triple I P (fill path text ns) (fun _ fs => P fs /\ forall n, list.last ns = Some n -> fs !! path = Some (String.substring 0 n text)).
Proof.
  intros HI HP. assert (H : forall prev, triple I (fun fs => P fs /\ forall n, prev = Some n -> fs !! path = Some (String.substring 0 n text)) (fill path text ns)
    (fun _ fs => P fs /\ forall n, match list.last ns with Some m => Some m | None => prev end = Some n -> fs !! path = Some (String.substring 0 n text))).
  2: { eapply triple_weaken; [apply (H None) | by intros |]. intros ? fs _ [H1 H2]. split; [done |]. intros n Hn. apply H2. by rewrite Hn. }
  induction ns as [| n ns IH]; intros prev; cbn [fill].
  - apply triple_ret. by intros.
  - eapply triple_bind.
    + instantiate (1 := fun _ fs => P fs /\ forall m, Some n = Some m -> fs !! path = Some (String.substring 0 m text)).
      intros w HIw [HPw _]. cbn. split_and!; [by apply HI | by apply HP | intros m [= <-]; apply lookup_insert_eq | done |].
      eexists. split; [done |]. constructor; [by apply HI | constructor].
    + intros ?. eapply triple_weaken; [apply (IH (Some n)) | done |]. intros ? fs _ [H1 H2]. split; [done |]. intros m Hm. apply H2.
      destruct ns as [| n' ns]; [done |]. change (list.last (n :: n' :: ns)) with (list.last (n' :: ns)) in Hm.
      destruct (list.last (n' :: ns)) eqn:E; [done | by apply last_None in E].
Qed.

Lemma substring_all s : String.substring 0 (String.length s) s = s.
Proof. induction s as [| c s IH]; [done |]. cbn. by rewrite IH. Qed.

Lemma write_triple I P path text : closed I path -> closed P path ->
  triple I P (write path text) (fun r fs => P fs /\ (r = Ok tt -> fs !! path = Some text)).
Proof.
  intros HI HP. unfold write. eapply triple_bind; [apply (triple_keep I P), keep_outcome |]. intros [| why [n |] | why].
  - eapply triple_bind; [apply (fill_triple I P); done |]. intros ?. apply triple_ret. intros fs _ [H1 H2]. split; [done |]. intros _.
    rewrite (H2 (String.length text)); [by rewrite substring_all |]. rewrite seq_S, last_snoc. done.
  - eapply triple_bind; [apply (fill_triple I P); done |]. intros ?. apply triple_ret. by intros fs _ [H1 _].
  - apply triple_ret. by intros.
  - apply triple_ret. by intros.
Qed.

(** ** The names of the files *)

Lemma split_parts_lack c s : Forall (fun p => avoids [c] p = true) (split_on c s).
Proof.
  induction s as [| a s IH]; cbn [split_on]; [by repeat constructor |]. destruct (a =? c)%char eqn:E; [by constructor |].
  destruct (split_on c s) as [| p ps].
  - constructor; [| constructor]. cbn [avoids]. rewrite bool_decide_eq_true_2; [done |]. intros ->%list_elem_of_singleton. by rewrite Ascii.eqb_refl in E.
  - apply list.Forall_cons in IH as [Hp Hps]. constructor; [| done]. cbn [avoids]. rewrite Hp, bool_decide_eq_true_2; [done |].
    intros ->%list_elem_of_singleton. by rewrite Ascii.eqb_refl in E.
Qed.

Lemma file_name_lacks path : avoids ["/"%char] (file_name path) = true.
Proof.
  unfold file_name. pose proof (split_parts_lack "/"%char path) as H. destruct (list.last (split_on "/"%char path)) as [p |] eqn:E.
  - cbn [from_option]. rewrite list.Forall_forall in H. apply H. apply last_Some in E as [l ->]. apply elem_of_app. right. by left.
  - apply last_None in E. destruct path as [| c path]; cbn [split_on] in E; [done |]. destruct (c =? "/")%char; [done |]. by destruct (split_on _ path).
Qed.

Lemma strip_phase_lacks prefixes stem : avoids ["/"%char] stem = true -> avoids ["/"%char] (strip_phase prefixes stem) = true.
Proof.
  intros H. induction prefixes as [| p prefixes IH]; cbn [strip_phase]; [done |]. destruct (strip_prefix p stem) as [rest |] eqn:E; [| done].
  apply strip_prefix_some in E. rewrite E, avoids_app in H. by apply andb_true_iff in H as [_ H].
Qed.

Lemma template_stem_lacks t : avoids ["/"%char] (template_stem t) = true.
Proof.
  unfold template_stem. apply strip_phase_lacks. pose proof (file_name_lacks t) as H. destruct (strip_suffix ".xcfg" (file_name t)) as [s |] eqn:E; [| done].
  cbn [from_option]. unfold id. apply strip_suffix_some in E. rewrite E, avoids_app in H. by apply andb_true_iff in H as [H _].
Qed.

(** A relative name is at the end of a path. *)
Lemma join_relative dir name : starts_with "/" name = false -> exists pre, join dir name = pre +:+ name /\ forall name', starts_with "/" name' = false -> join dir name' = pre +:+ name'.
Proof.
  intros Hn. unfold join. rewrite Hn. destruct (bool_decide (dir = EmptyString) || ends_with "/" dir); [exists dir | exists (dir +:+ "/")];
    (split; [by rewrite ?append_assoc |]; intros name' ->; by rewrite ?append_assoc).
Qed.

Lemma join_inj dir a b : starts_with "/" a = false -> starts_with "/" b = false -> join dir a = join dir b -> a = b.
Proof. intros Ha Hb. destruct (join_relative dir a Ha) as (pre & -> & Hpre). rewrite (Hpre b Hb). apply append_inj_l. Qed.

Lemma not_json s t : s +:+ ".xcfg" <> t +:+ ".json".
Proof.
  intros E. apply (f_equal text_bytes) in E. rewrite !text_bytes_app in E. apply (f_equal (@rev Z)) in E. rewrite !rev_app_distr in E. by cbn in E.
Qed.

Lemma relative_app s t : avoids ["/"%char] s = true -> s <> EmptyString -> starts_with "/" (s +:+ t) = false.
Proof.
  destruct s as [| c s]; [done |]. cbn [avoids]. intros [Hc _]%andb_true_iff _. rewrite append_cons. unfold starts_with. cbn [strip_prefix].
  apply bool_decide_eq_true in Hc. destruct ("/" =? c)%char eqn:E; [| done]. apply Ascii.eqb_eq in E as <-. destruct Hc. by left.
Qed.

Section Kept.
Context (dirs : Dirs).
Context (from_str : string -> result ParamsRaw string) (read_value : string -> option Value).
Context (show_json : Value -> string) (show_f64 : f64 -> string) (sha256_hex : string -> string).
Context (read_events : string -> list (Event * string) * option string) (xml_escape : string -> string).

Definition config_name (p : Params) : string := template_stem (template p) +:+ "__" +:+ json_hash8 sha256_hex p.
Definition tmp_path : string := join (params_dir dirs) "current.json.tmp".

(** The files named after what is in them. *)
Definition once_paths (dir : string) (p : Params) : list string :=
  [join dir ("configure-" +:+ config_name p +:+ ".xcfg"); join dir ("prepare-" +:+ config_name p +:+ ".xcfg");
   join (params_dir dirs) (config_name p +:+ ".json")].

Lemma config_name_relative p t : starts_with "/" (config_name p +:+ t) = false.
Proof.
  unfold config_name. rewrite !append_assoc, <- (append_assoc (template_stem (template p)) "__"). apply relative_app.
  - by rewrite avoids_app, template_stem_lacks.
  - by destruct (template_stem (template p)).
Qed.

Lemma tmp_not_current : tmp_path <> current_path dirs.
Proof. unfold tmp_path, current_path. intros E%join_inj; done. Qed.

Lemma xcfg_not_current dir name : starts_with "/" name = false -> join dir (name +:+ ".xcfg") <> current_path dirs.
Proof.
  intros Hn E. unfold current_path in E. assert (Hn' : starts_with "/" (name +:+ ".xcfg") = false).
  { destruct name as [| c name]; [done |]. rewrite append_cons. unfold starts_with in *. cbn [strip_prefix] in *. destruct ("/" =? c)%char; [| done].
    by destruct (strip_prefix EmptyString name). }
  destruct (join_relative dir _ Hn') as (pre & H & _). rewrite H in E. destruct (join_relative (params_dir dirs) "current.json" eq_refl) as (pre' & H' & _).
  rewrite H' in E. change "current.json" with ("current" +:+ ".json") in E. rewrite <- !append_assoc in E. by apply not_json in E.
Qed.

Lemma once_not_current dir p : current_path dirs ∉ once_paths dir p.
Proof.
  unfold once_paths. rewrite !elem_of_cons, elem_of_nil. intros [E | [E | [E | []]]]; symmetry in E; revert E.
  - rewrite <- append_assoc. by apply xcfg_not_current.
  - rewrite <- append_assoc. by apply xcfg_not_current.
  - unfold current_path. intros E%join_inj; [| apply config_name_relative | done].
    change "current.json" with ("current" +:+ ".json") in E. apply append_inj_r in E.
    assert (H : avoids ["_"%char] (config_name p) = avoids ["_"%char] "current") by by rewrite E.
    unfold config_name in H. rewrite !avoids_app in H. cbn [avoids] in H. rewrite bool_decide_eq_false_2 in H; [by rewrite andb_false_r in H |].
    intros Hn. apply Hn. by left.
Qed.

(** ** Saving *)

(** Nothing but the files of this name and the file half written is touched, and the
    parameters in use are the old or the new, wholly. *)
Definition kept (dir : string) (p : Params) (text : string) (old fs : Files) : Prop :=
  forall path, path <> tmp_path -> path ∉ once_paths dir p ->
  fs !! path = old !! path \/ path = current_path dirs /\ fs !! path = Some text.

Lemma kept_once dir p text old path : path ∈ once_paths dir p -> closed (kept dir p text old) path.
Proof.
  intros Hin fs s H q Hq Hq'. rewrite lookup_insert_ne by (intros ->; done). by apply H.
Qed.

Lemma kept_tmp dir p text old : closed (kept dir p text old) tmp_path.
Proof. intros fs s H q Hq Hq'. rewrite lookup_insert_ne by done. by apply H. Qed.

Lemma once_triple I (P : Files -> Prop) path text : closed I path -> closed P path ->
  triple I P (write_once path text) (fun r fs => P fs /\ match r with Ok _ => True | Err e => fst e <> OK end).
Proof.
  intros HI HP. unfold write_once. eapply triple_bind; [apply (exists_keep I P) |]. intros [|]; [by apply triple_ret |].
  eapply triple_bind; [by apply (write_triple I P) |]. intros [u | why]; apply triple_ret; by intros fs _ [H _].
Qed.

Lemma render_names p template_xml r : render_params show_json show_f64 sha256_hex read_events xml_escape p template_xml = Ok r ->
  config_id r = config_name p /\ configure_file_name r = "configure-" +:+ config_name p +:+ ".xcfg" /\
  prepare_file_name r = "prepare-" +:+ config_name p +:+ ".xcfg".
Proof.
  unfold render_params, render. destruct (parse read_events template_xml) as [doc |]; [| done]. cbn [result_bind].
  destruct (find_cobo_node doc) as [[[s n] cobo] |]; [| done]. cbn [result_bind]. destruct (render_cobo _ _ _ p cobo); [| done]. cbn [result_bind].
  by intros [= <-].
Qed.

Lemma render_triple I P dir p : triple I P (render_with_template_dir show_json show_f64 sha256_hex read_events xml_escape dir p)
  (fun r fs => P fs /\ match r with
     | Ok r => config_id r = config_name p /\ configure_file_name r = "configure-" +:+ config_name p +:+ ".xcfg" /\
               prepare_file_name r = "prepare-" +:+ config_name p +:+ ".xcfg"
     | Err _ => True
     end).
Proof.
  unfold render_with_template_dir. eapply triple_bind; [apply (read_keep I P) |]. intros [text | e]; apply triple_ret; [| done].
  intros fs _ HP. split; [done |]. destruct (render_params _ _ _ _ _ p text) as [r |] eqn:E; [by apply (render_names p text) | done].
Qed.

Lemma rename_triple dir p text old : triple (kept dir p text old) (fun fs => True /\ (Ok (E := string) tt = Ok tt -> fs !! tmp_path = Some text))
  (rename tmp_path (current_path dirs)) (fun r fs => match r with Ok _ => fs !! current_path dirs = Some text | Err _ => True end).
Proof.
  unfold rename. eapply triple_bind; [apply (triple_keep _ (fun fs => True /\ (Ok (E := string) tt = Ok tt -> fs !! tmp_path = Some text))), keep_outcome |].
  intros [| why left | why]; [| by apply triple_ret | by apply triple_ret].
  intros w HI [_ Ht]. specialize (Ht eq_refl). rewrite Ht. cbn.
  assert (Hk : kept dir p text old (<[current_path dirs := text]> (delete tmp_path (files w)))).
  { intros q Hq Hq'. destruct (decide (q = current_path dirs)) as [-> | Hne]; [right; split; [done | apply lookup_insert_eq] |].
    rewrite lookup_insert_ne, lookup_delete_ne by done. by apply HI. }
  split_and!; [done | apply lookup_insert_eq | done |]. eexists. split; [done |]. constructor; [exact Hk | constructor].
Qed.

Lemma save_triple dir p text old : triple (kept dir p text old) (fun _ => True)
  (save_params dirs show_json show_f64 sha256_hex read_events xml_escape dir p text)
  (fun r fs => match r with Ok _ => fs !! current_path dirs = Some text | Err e => fst e <> OK end).
Proof.
  unfold save_params. eapply triple_bind; [apply (render_triple _ (fun _ => True)) |]. intros [r | e]; [| by apply triple_ret].
  apply triple_pure. intros (Hid & Hconf & Hprep). rewrite Hid, Hconf, Hprep.
  eapply triple_bind; [apply (once_triple _ (fun _ => True)); [apply kept_once; by left | done] |].
  intros [u1 | e]; [| apply triple_ret; by intros fs _ [_ H]].
  eapply triple_bind; [apply (once_triple _ (fun _ => True /\ True)); [apply kept_once; right; by left | done] |].
  intros [u2 | e]; [| apply triple_ret; by intros fs _ [_ H]].
  eapply triple_bind; [apply (create_keep _ (fun _ => (True /\ True) /\ True)) |]. intros [u3 | e]; [| by apply triple_ret].
  eapply triple_bind; [eapply triple_weaken; [apply (write_triple _ (fun _ => True)); [apply kept_tmp | done] | done | by intros ? ? ? H; exact H] |].
  intros [[] | e]; [| by apply triple_ret].
  eapply triple_bind; [apply (rename_triple dir p text old) |]. intros [u5 | e]; [| by apply triple_ret].
  eapply triple_bind; [apply (once_triple _ (fun fs => fs !! current_path dirs = Some text)); [apply kept_once; right; right; by left |] |].
  - intros fs s H. rewrite lookup_insert_ne; [done |]. intros E. apply (once_not_current dir p). rewrite <- E. right; right; by left.
  - intros [u6 | e]; apply triple_ret; by intros fs _ [H H'].
Qed.

Definition put_of (session : option Handlers.Session) (phase : Handlers.Phase.Phase) (token : string) (params : Value) : Io Reply :=
  put_params dirs from_str read_value show_json show_f64 sha256_hex read_events xml_escape session phase token params.

(** C14: A request to replace the parameters, however the operations on the disk go:
    nothing is touched unless it comes from the operator, is valid, and no run is
    active; then only the files named after it are, and in everything that can be
    seen on the way the parameters in use are the old ones or the new ones, wholly.
    When it is granted they are the new ones; it is put on record once, as it went. *)
Theorem put_params_safe session phase token params w :
  let '(reply, w') := put_of session phase token params w in
  let text := show_json params in
  (exists a, audits w' = audits w ++ [a] /\ au_ok a = bool_decide (fst reply = OK)) /\
  (fst reply = OK -> files w' !! current_path dirs = Some text) /\
  exists l, seen w' = seen w ++ l /\
    (l = [] /\ files w' = files w \/
     exists operator dir p, Handlers.authorized token session = Ok operator /\ ecc_config_dir dirs = Some dir /\
       from_json_str show_json show_f64 from_str text = Ok p /\ phase = Handlers.Phase.Idle /\
       Forall (kept dir p text (files w)) (files w' :: l)).
Proof.
  assert (Hrefused : forall operator code why w1, code <> OK -> let '(reply, w') := put_refused operator code why w1 in
    fst reply = code /\ files w' = files w1 /\ seen w' = seen w1 /\ exists a, audits w' = audits w1 ++ [a] /\ au_ok a = bool_decide (fst reply = OK)).
  { intros operator code why w1 Hc. cbn. split_and!; try done. eexists. split; [done |]. cbn. by rewrite bool_decide_eq_false_2. }
  assert (Hquiet : forall operator code why, code <> OK -> let '(reply, w') := put_refused operator code why w in
    (exists a, audits w' = audits w ++ [a] /\ au_ok a = bool_decide (fst reply = OK)) /\ (fst reply = OK -> files w' !! current_path dirs = Some (show_json params)) /\
    exists l, seen w' = seen w ++ l /\ l = [] /\ files w' = files w).
  { intros operator code why Hc. specialize (Hrefused operator code why w Hc). destruct (put_refused operator code why w) as [reply w'].
    destruct Hrefused as (Hcode & Hf & Hs & Ha). split_and!; [done | congruence |]. exists []. by rewrite app_nil_r. }
  unfold put_of, put_params. destruct (Handlers.authorized token session) as [operator | why] eqn:Eauth.
  2: { cbn. split_and!; [by eexists | done |]. exists []. rewrite app_nil_r. auto. }
  destruct (ecc_config_dir dirs) as [dir |] eqn:Edir.
  2: { specialize (Hquiet operator SERVICE_UNAVAILABLE ECC_CONFIG_DIR_NOT_CONFIGURED ltac:(done)). destruct (put_refused _ _ _ w).
       destruct Hquiet as (H1 & H2 & l & H3 & H4). split_and!; [done | done |]. exists l. auto. }
  destruct (from_json_str show_json show_f64 from_str (show_json params)) as [p | e] eqn:Ep.
  2: { specialize (Hquiet operator BAD_REQUEST (params_error_text e) ltac:(done)). destruct (put_refused _ _ _ w).
       destruct Hquiet as (H1 & H2 & l & H3 & H4). split_and!; [done | done |]. exists l. auto. }
  destruct (bool_decide (phase = Handlers.Phase.Idle)) eqn:Eph; cbn [negb].
  2: { unfold bind at 1, ret at 1. match goal with |- context [put_refused ?o (fst ?e) (snd ?e) w] => specialize (Hquiet o (fst e) (snd e) ltac:(done)) end.
       destruct (put_refused _ _ _ w). destruct Hquiet as (H1 & H2 & l & H3 & H4). split_and!; [done | done |]. exists l. auto. }
  apply bool_decide_eq_true in Eph. unfold bind at 1.
  destruct (save_triple dir p (show_json params) (files w) w) as (HI & HQ & Ha & l & Hs & Hl); [by intros q _ _; left | done |].
  destruct (save_params _ _ _ _ _ _ dir p (show_json params) w) as [r w1]. cbn [fst snd] in *.
  destruct r as [r | e].
  - cbn. rewrite Ha. split_and!; [by eexists | done |]. exists l. split; [done |]. right. exists operator, dir, p. split_and!; try done. by constructor.
  - specialize (Hrefused operator (fst e) (snd e) w1 HQ). destruct (put_refused operator (fst e) (snd e) w1) as [reply w'].
    destruct Hrefused as (Hcode & Hf & Hs' & Haudit). split_and!; [by rewrite <- Ha | congruence |]. exists l. split; [congruence |]. right.
    exists operator, dir, p. split_and!; try done. rewrite Hf. by constructor.
Qed.

(** ** What was saved is what is shown, and what a run starts with *)

(** When every operation goes through, the next do. *)
Definition quiet {A : Type} (m : Io A) : Prop := forall w, io w = [] -> io (snd (m w)) = [].

Lemma quiet_ret {A : Type} (a : A) : quiet (ret a).
Proof. by intros w H. Qed.
Lemma quiet_bind {A B : Type} (m : Io A) (k : A -> Io B) : quiet m -> (forall a, quiet (k a)) -> quiet (bind m k).
Proof. intros Hm Hk w H. unfold bind. specialize (Hm w H). destruct (m w) as [a w1]. by apply Hk. Qed.
Lemma quiet_outcome : quiet next_outcome.
Proof. intros w H. unfold next_outcome. by rewrite H. Qed.
Lemma quiet_become fs : quiet (become fs).
Proof. by intros w H. Qed.

Create HintDb io_db.
#[local] Hint Resolve quiet_ret quiet_outcome quiet_become : io_db.
Ltac go_quiet := repeat first [assumption | progress auto with io_db nocore | apply quiet_bind; [| intros [] || intros ?]].

Lemma quiet_fill path text ns : quiet (fill path text ns).
Proof. induction ns as [| n ns IH]; cbn [fill]; [apply quiet_ret |]. apply quiet_bind; [by intros w H | intros ?; exact IH]. Qed.
Lemma quiet_write path text : quiet (write path text).
Proof. unfold write. apply quiet_bind; [apply quiet_outcome |]. intros [| why [n |] | why]; try apply quiet_ret; (apply quiet_bind; [apply quiet_fill | intros ?; apply quiet_ret]). Qed.
Lemma quiet_rename from to : quiet (rename from to).
Proof. unfold rename. apply quiet_bind; [apply quiet_outcome |]. intros [| why left | why]; [| apply quiet_ret | apply quiet_ret]. intros w H. by destruct (files w !! from). Qed.
Lemma quiet_exists path : quiet (exists_ path).
Proof. unfold exists_. apply quiet_bind; [apply quiet_outcome |]. by intros [] w H. Qed.
Lemma quiet_create path : quiet (create_dir_all path).
Proof. unfold create_dir_all. apply quiet_bind; [apply quiet_outcome |]. by intros [] w H. Qed.
Lemma quiet_reading path : quiet (read_to_string path).
Proof. unfold read_to_string. apply quiet_bind; [apply quiet_outcome |]. by intros [] w H. Qed.
#[local] Hint Resolve quiet_fill quiet_write quiet_rename quiet_exists quiet_create quiet_reading : io_db.

Lemma quiet_once path text : quiet (write_once path text).
Proof. unfold write_once. go_quiet. Qed.
Lemma quiet_render dir p : quiet (render_with_template_dir show_json show_f64 sha256_hex read_events xml_escape dir p).
Proof. unfold render_with_template_dir. go_quiet. Qed.
#[local] Hint Resolve quiet_once quiet_render : io_db.

Lemma quiet_save dir p text : quiet (save_params dirs show_json show_f64 sha256_hex read_events xml_escape dir p text).
Proof. unfold save_params. cbv zeta. go_quiet. Qed.

(** A program that gives nothing but [a]. *)
Definition gives {A E : Type} (a : A) (m : Io (result A E)) : Prop := forall w a', fst (m w) = Ok a' -> a' = a.
Lemma gives_bind {A B E : Type} (a : A) (m : Io B) (k : B -> Io (result A E)) : (forall b, gives a (k b)) -> gives a (bind m k).
Proof. intros H w a'. unfold bind. destruct (m w) as [b w1]. apply H. Qed.
Lemma gives_ok {A E : Type} (a : A) : gives (E := E) a (ret (Ok a)).
Proof. by intros w a' [= ->]. Qed.
Lemma gives_err {A E : Type} (a : A) (e : E) : gives a (ret (Err e)).
Proof. by intros w a'. Qed.

Lemma read_goes path w : io w = [] -> read_to_string path w = (match files w !! path with Some text => Ok text | None => Err (NotFound "No such file or directory (os error 2)") end, w).
Proof. intros H. unfold read_to_string, bind, next_outcome. by rewrite H. Qed.

Definition template_of (dir : string) (p : Params) : string := join dir (template p).

Lemma render_goes dir p w r : io w = [] -> fst (render_with_template_dir show_json show_f64 sha256_hex read_events xml_escape dir p w) = Ok r <->
  exists t, files w !! template_of dir p = Some t /\ render_params show_json show_f64 sha256_hex read_events xml_escape p t = Ok r.
Proof.
  intros H. unfold render_with_template_dir, bind. fold (template_of dir p). rewrite read_goes by done. destruct (files w !! template_of dir p) as [t |]; cbn.
  - destruct (render_params _ _ _ _ _ p t) as [r' |] eqn:E; split; try done; [by intros [= ->]; exists t | by intros (? & [= <-] & ?); congruence | by intros (? & [= <-] & ?); congruence].
  - split; [done | by intros (? & ? & _)].
Qed.

Lemma render_world dir p w : io w = [] -> snd (render_with_template_dir show_json show_f64 sha256_hex read_events xml_escape dir p w) = w.
Proof. intros H. unfold render_with_template_dir, bind. rewrite read_goes by done. by destruct (files w !! _). Qed.

Lemma save_renders dir p text w r w' : io w = [] -> save_params dirs show_json show_f64 sha256_hex read_events xml_escape dir p text w = (Ok r, w') ->
  exists t, files w !! template_of dir p = Some t /\ render_params show_json show_f64 sha256_hex read_events xml_escape p t = Ok r.
Proof.
  intros H Hs. unfold save_params in Hs. unfold bind at 1 in Hs. pose proof (render_goes dir p w) as Hg. pose proof (render_world dir p w H) as Hw.
  destruct (render_with_template_dir _ _ _ _ _ dir p w) as [[r1 | e] w1]; [| done]. cbn [fst snd] in *. subst w1.
  match type of Hs with ?m w = _ => assert (Hr : gives r1 m) end.
  { repeat (apply gives_bind; intros [?|?]); try apply gives_ok; try apply gives_err. }
  assert (r = r1) as -> by (eapply Hr; by rewrite Hs). by apply Hg.
Qed.

(** When the parameters were replaced, and the template is still there, the
    request to show them gives the answer that granted it, and a run that starts now
    starts with them, under the same id: the files are the parameters' own. *)
Theorem put_then_get session phase token params w reply w' p dir
    (Hio : io w = []) (Hput : put_of session phase token params w = (reply, w')) (Hok : fst reply = OK)
    (Hdir : ecc_config_dir dirs = Some dir) (Hp : from_json_str show_json show_f64 from_str (show_json params) = Ok p)
    (Htemplate : files w' !! template_of dir p = files w !! template_of dir p) :
  fst (get_params dirs from_str read_value show_json show_f64 sha256_hex read_events xml_escape w') = reply /\
  exists r, fst (run_start_params_snapshot dirs from_str show_json show_f64 sha256_hex read_events xml_escape w') =
      Ok (Some (mkCurrentParams p (sha256_hex (show_json params)) (show_json params), r)) /\
    config_id r = config_name p /\ fst (params_status_json dirs from_str show_json show_f64 sha256_hex read_events xml_escape w') =
      (Jobject [("exceptions", count (exceptions p)); ("id", Jstr (config_name p))], []).
Proof.
  unfold put_of, put_params in Hput. destruct (Handlers.authorized token session); [| by injection Hput as <- <-]. rewrite Hdir, Hp in Hput.
  destruct (bool_decide (phase = Handlers.Phase.Idle)); cbn [negb] in Hput; [| by injection Hput as <- <-]. unfold bind at 1 in Hput.
  destruct (save_triple dir p (show_json params) (files w) w) as (_ & HQ & _); [by intros q _ _; left | done |].
  pose proof (quiet_save dir p (show_json params) w Hio) as Hq. pose proof (save_renders dir p (show_json params) w) as Hrend.
  destruct (save_params _ _ _ _ _ _ dir p (show_json params) w) as [[r | e] w1]; cbn [fst snd] in *; [| by injection Hput as <- <-].
  destruct (Hrend r w1 Hio eq_refl) as (t & Ht & Hr). injection Hput as <- <-. cbn [files] in *.
  set (w2 := mkWorld _ _ _ _). assert (H2 : io w2 = []) by exact Hq.
  assert (Hcur : current_params dirs from_str show_json show_f64 sha256_hex w2 =
    (Ok (Some (mkCurrentParams p (sha256_hex (show_json params)) (show_json params))), w2)).
  { unfold current_params, bind. rewrite read_goes by done. change (files w2) with (files w1). rewrite HQ. unfold ret. by rewrite Hp. }
  assert (Hren : render_with_template_dir show_json show_f64 sha256_hex read_events xml_escape dir p w2 = (Ok r, w2)).
  { pose proof (render_world dir p w2 H2) as Hw. pose proof (proj2 (render_goes dir p w2 r H2)) as Hg.
    destruct (render_with_template_dir _ _ _ _ _ dir p w2) as [x w3]. cbn [fst snd] in *. subst w3. rewrite Hg; [done |]. exists t.
    split; [| done]. change (files w2) with (files w1). by rewrite Htemplate. }
  destruct (render_names p t r Hr) as (Hid & _). unfold get_params, run_start_params_snapshot, params_status_json. rewrite Hdir. unfold bind. rewrite Hcur. cbn [cp_params].
  rewrite Hren. split; [done |]. exists r. split; [done |]. split; [exact Hid |]. cbn. by rewrite Hid.
Qed.
End Kept.

(** ** A controller *)

Module SampleSite.

(** What quick_xml reads of a tree. *)
Fixpoint events_of (n : Node) : list (Event * string) :=
  match n with
  | NRaw raw => [(EvOther, raw)]
  | NElement (mkElement name id open_ close_ empty_ cs) =>
      if empty_ then [(EvEmpty name id, open_)]
      else (EvStart name id, open_) ::
        (fix go (cs : list Node) : list (Event * string) := match cs with [] => [] | c :: cs => events_of c ++ go cs end) cs ++ [(EvEnd, close_)]
  end.

(** Two templates, told apart by their first letter. *)
Definition read_events (xml : string) : list (Event * string) * option string :=
  (events_of (Sample.tree "Setup" None [NElement (append_child Sample.cobo (new_element (if starts_with "A" xml then "First" else "Second") None) 2)]), None).

Definition dirs : Dirs := mkDirs (Some "/ecc") None "/data".
Definition from_str (_ : string) : result ParamsRaw string := Ok (mkParamsRaw SCHEMA_ID "configure-mini.xcfg" GoodFile.knobs [Sample.coarse] None).
Definition show_json (_ : Value) : string := "{}".
Definition hash (_ : string) : string := "0123456789abcdef".
Definition session : option Handlers.Session := Some (Handlers.mkSession "key" "ada").

Definition world (template_text : string) (goes : list IoOutcome) : World :=
  mkWorld (<["/ecc/configure-mini.xcfg" := template_text]> (<["/etc/other.xcfg" := "B"]> ∅)) goes [] [].
Definition put (w : World) : Reply * World :=
  put_of dirs from_str (fun _ => None) show_json Sample.no_text hash read_events Sample.text session Handlers.Phase.Idle "key" Jnull w.
Definition try_render (name : string) (w : World) : Reply :=
  fst (get_params_render dirs from_str show_json Sample.no_text hash read_events Sample.text (Some name) w).
Definition defaults (name : string) (w : World) : Reply :=
  fst (get_params_defaults dirs show_json Sample.no_text read_events (fun s => s) (fun s => Ok s) (fun s => Ok s) (fun _ _ => true) (Some name) w).

Definition generated : string := "/ecc/configure-mini__01234567.xcfg".

(** The same disk, with operations that go this way. *)
Definition with_io (w : World) (goes : list IoOutcome) : World := mkWorld (files w) goes (seen w) (audits w).
Definition with_file (w : World) (path text : string) : World := mkWorld (<[path := text]> (files w)) (io w) (seen w) (audits w).
End SampleSite.

(** A write of a configuration file that fails leaves a part of it; the request is
    refused.  Made again, it is granted, the part is taken for the file, and is what
    the electronics will be configured with. *)
Example torn_file_kept :
  let '(r1, w1) := SampleSite.put (SampleSite.world "A" [Goes; Goes; Fails "disk full" (Some 9%nat)]) in
  let '(r2, w2) := SampleSite.put (SampleSite.with_io w1 []) in
  fst r1 = INTERNAL_SERVER_ERROR /\ fst r2 = OK /\ files w2 !! SampleSite.generated = Some "<Setup><N".
Proof. vm_compute. done. Qed.

(** A template that changes is rendered anew by every request, under the same name;
    the file of that name stays what the first template gave. *)
Example stale_file_kept :
  let '(_, w1) := SampleSite.put (SampleSite.world "A" []) in
  let w2 := SampleSite.with_file w1 "/ecc/configure-mini.xcfg" "B" in
  let '(r3, w3) := SampleSite.put w2 in
  fst r3 = OK /\ files w3 !! SampleSite.generated = files w1 !! SampleSite.generated /\
  match SampleSite.try_render "configure-mini.xcfg" w3 with
  | (_, Jobject (("configure_xcfg", Jstr shown) :: _)) => bool_decide (files w3 !! SampleSite.generated = Some shown) = false
  | _ => False
  end.
Proof. vm_compute. done. Qed.

(** A template asked for by a path outside the directory is refused when its values
    are asked for, and read when it is to be rendered. *)
Example render_reads_elsewhere :
  let '(_, w1) := SampleSite.put (SampleSite.world "A" []) in
  fst (SampleSite.defaults "/etc/other.xcfg" w1) = BAD_REQUEST /\ fst (SampleSite.try_render "/etc/other.xcfg" w1) = OK /\
  fst (SampleSite.try_render "../etc/other.xcfg" w1) = BAD_REQUEST /\ fst (SampleSite.defaults "configure-mini.xcfg" w1) = OK.
Proof. vm_compute. done. Qed.

Lemma put_then_get_witness : exists reply w',
  SampleSite.put (SampleSite.world "A" []) = (reply, w') /\ fst reply = OK /\
  fst (get_params SampleSite.dirs SampleSite.from_str (fun _ => None) SampleSite.show_json Sample.no_text SampleSite.hash SampleSite.read_events Sample.text w') = reply.
Proof.
  destruct (SampleSite.put (SampleSite.world "A" [])) as [reply w'] eqn:E. exists reply, w'.
  assert (Hok : fst reply = OK) by (pose proof (f_equal (fun x => fst (fst x)) E) as H; vm_compute in H; symmetry; exact H).
  split; [reflexivity |]. split; [exact Hok |].
  assert (Ht : files w' !! template_of "/ecc" (mkParams SCHEMA_ID "configure-mini.xcfg" GoodFile.knobs [Sample.coarse] None "{}") =
    files (SampleSite.world "A" []) !! template_of "/ecc" (mkParams SCHEMA_ID "configure-mini.xcfg" GoodFile.knobs [Sample.coarse] None "{}")).
  { pose proof (f_equal (fun x => files (snd x) !! "/ecc/configure-mini.xcfg") E) as H. cbn [snd] in H. vm_compute in H. vm_compute. symmetry. exact H. }
  exact (proj1 (put_then_get SampleSite.dirs SampleSite.from_str (fun _ => None) SampleSite.show_json Sample.no_text SampleSite.hash SampleSite.read_events Sample.text
    SampleSite.session Handlers.Phase.Idle "key" Jnull (SampleSite.world "A" []) reply w'
    (mkParams SCHEMA_ID "configure-mini.xcfg" GoodFile.knobs [Sample.coarse] None "{}") "/ecc" eq_refl E Hok eq_refl eq_refl Ht)).
Defined.
