(* ===== verification/LogPosts.v ===== *)
(** * LogPosts: what the slow control reports to the controller

    Models [src/controller/logpost.rs] and, of [src/controller/mod.rs], the latest
    readings ([apply_slow_record], [SlowLatestValue], [slow_snapshot]).  A thread of
    the controller takes posted logbook records from a socket, keeps the latest
    reading of every parameter for the next [run_start] and [run_stop], and writes
    all but the periodic values into the logbook - which the handlers of the
    controller write too, under the same lock: their lines come between its own.
    The JSON is serde_json's, an argument.  Counters are unbounded. *)

From stdpp Require Import gmap strings.
From S2P Require Import Prelude Bytes Text Float Command Controller Logbook Slowctl SlowRecords.
Open Scope string_scope.
Open Scope list_scope.
Open Scope Z_scope.

(** ** The latest readings *)

Record SlowLatestValue : Type := mkLatest {
  latest_value : f64;
  latest_unit : string;
  latest_ts : string;
}.

Notation SlowLatest := (gmap string SlowLatestValue).

Record LogPostCounters : Type := mkPostCounters {
  accepted : Z;
  rejected : Z;
  slow_values_not_logged : Z;
}.
#[export] Instance eta_LogPostCounters : Eta LogPostCounters :=
  fun c => mkPostCounters (accepted c) (rejected c) (slow_values_not_logged c).

(** What the thread and the handlers share, and the file of the logbook; a process
    that dies in a write does nothing more. *)
Record Shared : Type := mkShared {
  counters : LogPostCounters;
  slow_latest : SlowLatest;
  writer : LogbookWriter;
  file : bytes;
  alive : bool;
}.
#[export] Instance eta_Shared : Eta Shared :=
  fun s => mkShared (counters s) (slow_latest s) (writer s) (file s) (alive s).

(** What the thread finds at its socket, with the outcome of the write and the
    clock's two answers (of the reading, of the line); or a line of a handler. *)
Inductive Step : Type :=
| Received (message : bytes) (goes : WriteGoes) (ts now : string)
| Again
| RecvFailed (e : string)
| Handler (r : LogbookRecord) (goes : WriteGoes) (now : string).

Definition is_reading_event (event : string) : bool :=
  bool_decide (event = "VALUE") || bool_decide (event = "ALARM") || bool_decide (event = "RECOVER").

Section LogPosts.
Context `{LineJson} (path : string).
Context (from_slice : bytes -> result LogbookRecord string).

(** The number and the unit of one entry of [values]. *)
Definition entry_reading (entry : Json) : option (f64 * string) :=
  match json_get "value" entry with
  | Some v =>
      match as_f64 v, json_get "unit" entry with
      | Some value, Some u => match as_str u with Some u => Some (value, u) | None => None end
      | _, _ => None
      end
  | None => None
  end.

(** The loop over [values]; whether anything was applied. *)
Fixpoint apply_entries (device : string) (node : option Z) (ts : string) (map : list (string * Json))
    (applied : bool) (latest : SlowLatest) : bool * SlowLatest :=
  match map with
  | [] => (applied, latest)
  | (param, entry) :: map =>
      match entry_reading entry with
      | None => apply_entries device node ts map applied latest
      | Some (value, u) =>
          apply_entries device node ts map true (<[latest_key device node param := mkLatest value u ts]> latest)
      end
  end.

Definition apply_slow_record (r : LogbookRecord) (ts : string) (latest : SlowLatest) : bool * SlowLatest :=
  match r with
  | Slow _ device node event values =>
      if negb (is_reading_event event) then (false, latest)
      else match as_object values with
           | None => (false, latest)
           | Some map => apply_entries device node ts map false latest
           end
  | _ => (false, latest)
  end.

(** [slow_snapshot]; [to_value] is serde_json's. *)
Definition slow_snapshot (to_value : SlowLatest -> option Json) (s : Shared) : option Json :=
  if bool_decide (slow_latest s = ∅) then None else to_value (slow_latest s).

(** ** The thread *)

Definition is_slow (r : LogbookRecord) : bool :=
  match r with
  | Slow _ _ _ _ _ => true
  | _ => false
  end.

Definition is_slow_value (r : LogbookRecord) : bool :=
  match r with
  | Slow _ _ _ event _ => bool_decide (event = "VALUE")
  | _ => false
  end.

Definition reject (s : Shared) : Shared := s <| counters ::= (fun c => c <| rejected ::= incr |>) |>.

(** One line into the logbook, by whoever holds its lock. *)
Definition append_line (r : LogbookRecord) (goes : WriteGoes) (now : string) (s : Shared)
    : option (result Z LogbookError) * Shared :=
  let '(answer, w, f) := append path goes now r (writer s) (file s) in
  (answer, s <| writer := w |> <| file := f |>).

(** A message the socket gave; the answer of [apply_slow_record] is dropped. *)
Definition take_post (message : bytes) (goes : WriteGoes) (ts now : string) (s : Shared) : Shared :=
  match from_slice message with
  | Err _ => reject s
  | Ok r =>
      let s := if is_slow r then s <| slow_latest ::= (fun latest => snd (apply_slow_record r ts latest)) |> else s in
      if is_slow_value r then s <| counters ::= (fun c => c <| slow_values_not_logged ::= incr |>) |>
      else match append_line r goes now s with
           | (None, s) => s <| alive := false |>
           | (Some (Ok _), s) => s <| counters ::= (fun c => c <| accepted ::= incr |>) |>
           | (Some (Err _), s) => reject s
           end
  end.

Definition step (x : Step) (s : Shared) : Shared :=
  if negb (alive s) then s
  else match x with
       | Received message goes ts now => take_post message goes ts now s
       | Again | RecvFailed _ => s
       | Handler r goes now =>
           match append_line r goes now s with
           | (None, s) => s <| alive := false |>
           | (Some _, s) => s
           end
       end.

Definition run_posts (xs : list Step) (s : Shared) : Shared := fold_left (fun s x => step x s) xs s.

(** ** What should come of the posts *)

(** The readings of a record, in the order of its entries. *)
Fixpoint entry_readings (device : string) (node : option Z) (map : list (string * Json)) : list (string * (f64 * string)) :=
  match map with
  | [] => []
  | (param, entry) :: map =>
      match entry_reading entry with
      | None => entry_readings device node map
      | Some v => (latest_key device node param, v) :: entry_readings device node map
      end
  end.

Definition readings (r : LogbookRecord) : list (string * (f64 * string)) :=
  match r with
  | Slow _ device node event (JObj map) => if is_reading_event event then entry_readings device node map else []
  | _ => []
  end.

(** Those of a step, with their times. *)
Definition step_readings (x : Step) : list (string * SlowLatestValue) :=
  match x with
  | Received message _ ts _ =>
      match from_slice message with
      | Ok r => map (fun '(k, (value, u)) => (k, mkLatest value u ts)) (readings r)
      | Err _ => []
      end
  | _ => []
  end.

Definition of_key (k : string) (kv : string * SlowLatestValue) : bool := bool_decide (fst kv = k).

(** The last of [k], else what was there. *)
Definition last_of (k : string) (l : list (string * SlowLatestValue)) (before : option SlowLatestValue) : option SlowLatestValue :=
  match list.last (List.filter (of_key k) l) with
  | Some (_, v) => Some v
  | None => before
  end.

(** The line a step is to leave in the logbook. *)
Definition step_line (x : Step) : list (string * LogbookRecord) :=
  match x with
  | Received message _ _ now =>
      match from_slice message with
      | Ok r => if is_slow_value r then [] else [(now, r)]
      | Err _ => []
      end
  | Handler r _ now => [(now, r)]
  | _ => []
  end.

Definition is_post (x : Step) : bool := match x with Received _ _ _ _ => true | _ => false end.
Definition is_value_post (x : Step) : bool :=
  match x with
  | Received message _ _ _ => match from_slice message with Ok r => is_slow_value r | Err _ => false end
  | _ => false
  end.
Definition is_unreadable (x : Step) : bool :=
  match x with
  | Received message _ _ _ => match from_slice message with Ok _ => false | Err _ => true end
  | _ => false
  end.
Definition write_works (x : Step) : Prop :=
  match x with
  | Received _ goes _ _ | Handler _ goes _ => goes = Written
  | _ => True
  end.

(** Every record the thread could read, in the order of the posts. *)
Definition posted (xs : list Step) : list LogbookRecord :=
  flat_map (fun x => match x with
                     | Received message _ _ _ => match from_slice message with Ok r => [r] | Err _ => [] end
                     | _ => []
                     end) xs.
End LogPosts.

(** ** Lemmas *)

Section Lemmas.
Context `{LineJson} (path : string).
Context (from_slice : bytes -> result LogbookRecord string).

Definition stamped (ts : string) (l : list (string * (f64 * string))) : list (string * SlowLatestValue) :=
  map (fun '(k, (value, u)) => (k, mkLatest value u ts)) l.

Lemma apply_entries_readings device node ts map applied latest :
  apply_entries device node ts map applied latest =
    (applied || negb (bool_decide (entry_readings device node map = [])),
     fold_left (fun m kv => <[fst kv := snd kv]> m) (stamped ts (entry_readings device node map)) latest).
Proof.
  revert applied latest. induction map as [| [param entry] map IH]; intros applied latest; cbn [apply_entries entry_readings].
  { by rewrite orb_false_r. }
  destruct (entry_reading entry) as [[value u] |]; [| apply IH]. rewrite IH. cbn. by rewrite orb_true_r.
Qed.

(** What a record does to the latest readings, and what it says it did. *)
Lemma apply_slow_record_readings r ts latest :
  apply_slow_record r ts latest =
    (negb (bool_decide (readings r = [])),
     fold_left (fun m kv => <[fst kv := snd kv]> m) (stamped ts (readings r)) latest).
Proof.
  destruct r as [| | | | actor device node event values]; try done. cbn [apply_slow_record readings].
  destruct values; cbn [as_object]; try by destruct (is_reading_event event).
  destruct (is_reading_event event); [| done]. cbn [negb]. by rewrite apply_entries_readings.
Qed.

Lemma fold_insert_lookup k l (m : SlowLatest) :
  fold_left (fun m kv => <[fst kv := snd kv]> m) l m !! k = last_of k l (m !! k).
Proof.
  unfold last_of. revert m. induction l as [| [k' v] l IH] using rev_ind; intros m; [done |].
  rewrite fold_left_app, List.filter_app. cbn [fold_left List.filter fst snd]. unfold of_key at 2. cbn [fst].
  case_bool_decide as E.
  - subst. by rewrite last_snoc, lookup_insert_eq.
  - by rewrite app_nil_r, lookup_insert_ne.
Qed.

Lemma last_of_app k l l' before : last_of k (l ++ l') before = last_of k l' (last_of k l before).
Proof.
  unfold last_of. rewrite List.filter_app. induction (List.filter (of_key k) l') as [| kv m _] using rev_ind; [by rewrite app_nil_r |].
  by rewrite app_assoc, !last_snoc.
Qed.

(** One step, while the process lives. *)
Lemma step_effect x s : alive s = true -> alive (step path from_slice x s) = true ->
  let s' := step path from_slice x s in
  accepted (counters s') + rejected (counters s') + slow_values_not_logged (counters s') =
    accepted (counters s) + rejected (counters s) + slow_values_not_logged (counters s) + Z.b2z (is_post x) /\
  slow_values_not_logged (counters s') = slow_values_not_logged (counters s) + Z.b2z (is_value_post from_slice x) /\
  forall k, slow_latest s' !! k = last_of k (step_readings from_slice x) (slow_latest s !! k).
Proof.
  intros Ha. unfold step. rewrite Ha. cbn [negb].
  destruct x as [message goes ts now | | e | r goes now]; cbn [is_post is_value_post step_readings Z.b2z];
    [| intros _; cbn; split_and!; [lia | lia | done] | intros _; cbn; split_and!; [lia | lia | done] |].
  - unfold take_post. destruct (from_slice message) as [r | e]; [| intros _; cbn; split_and!; [lia | lia | done]].
    set (s1 := if is_slow r then _ else s).
    assert (H1 : counters s1 = counters s /\ forall k, slow_latest s1 !! k =
      last_of k (map (fun '(k, (value, u)) => (k, mkLatest value u ts)) (readings r)) (slow_latest s !! k)).
    { unfold s1. destruct (is_slow r) eqn:Er; [| split; [done |]; by destruct r].
      split; [done |]. intros k. unfold update. cbn. rewrite apply_slow_record_readings. cbn [snd].
      by rewrite fold_insert_lookup. }
    destruct H1 as [H1 H2]. clearbody s1. destruct (is_slow_value r); cbn [Z.b2z].
    + intros _. unfold update. cbn. rewrite H1. split_and!; [lia | lia | exact H2].
    + unfold append_line. destruct (append path goes now r (writer s1) (file s1)) as [[[[seq | e] |] w] f]; unfold reject, update; cbn; rewrite ?H1;
        intros Hl; split_and!; try lia; done.
  - unfold append_line. destruct (append path goes now r (writer s) (file s)) as [[[a |] w] f]; unfold update; cbn; [| done].
    intros _. split_and!; [lia | lia | done].
Qed.

Lemma dead_stays xs s : alive s = false -> run_posts path from_slice xs s = s.
Proof.
  intros Hs. unfold run_posts. induction xs as [| x xs IH]; [done |]. cbn [fold_left].
  assert (step path from_slice x s = s) as -> by (unfold step; by rewrite Hs). exact IH.
Qed.

Lemma run_posts_effect xs s : alive s = true -> alive (run_posts path from_slice xs s) = true ->
  let s' := run_posts path from_slice xs s in
  accepted (counters s') + rejected (counters s') + slow_values_not_logged (counters s') =
    accepted (counters s) + rejected (counters s) + slow_values_not_logged (counters s) + countb is_post xs /\
  slow_values_not_logged (counters s') = slow_values_not_logged (counters s) + countb (is_value_post from_slice) xs /\
  forall k, slow_latest s' !! k = last_of k (flat_map (step_readings from_slice) xs) (slow_latest s !! k).
Proof.
  revert s. induction xs as [| x xs IH]; intros s Ha Hl; [cbn; split_and!; [lia | lia | done] |].
  unfold run_posts in *. cbn [fold_left flat_map countb] in *. fold (run_posts path from_slice) in *.
  destruct (alive (step path from_slice x s)) eqn:E.
  2: { pose proof (dead_stays xs _ E) as Hd. unfold run_posts in Hd. congruence. }
  destruct (step_effect x s Ha E) as (H1 & H2 & H3). destruct (IH _ E Hl) as (H4 & H5 & H6). cbv zeta in *.
  destruct (is_post x), (is_value_post from_slice x); cbn [Z.b2z] in *; split_and!; try lia; intros k; by rewrite H6, H3, last_of_app.
Qed.

(** What the writes leave, when they work. *)
Lemma step_file x s ls : alive s = true -> write_works x -> file_of ls (file s) ->
  Forall (fun l => exists t, is_text l t) (numbered (next_seq (writer s)) (step_line from_slice x)) ->
  let s' := step path from_slice x s in
  alive s' = true /\ rejected (counters s') = rejected (counters s) + Z.b2z (is_unreadable from_slice x) /\
  next_seq (writer s') = next_seq (writer s) + len (step_line from_slice x) /\
  file_of (ls ++ numbered (next_seq (writer s)) (step_line from_slice x)) (file s').
Proof.
  intros Ha Hw Hf. unfold step. rewrite Ha. cbn [negb].
  destruct x as [message goes ts now | | e | r goes now]; cbn [step_line is_unreadable write_works Z.b2z] in *;
    [| intros _; cbn; rewrite app_nil_r; split_and!; (done || (unfold len; cbn; lia)) | intros _; cbn; rewrite app_nil_r; split_and!; (done || (unfold len; cbn; lia)) |]; subst.
  - unfold take_post. destruct (from_slice message) as [r | e];
      [| intros _; unfold reject, update; cbn; rewrite app_nil_r; split_and!; (done || (unfold len; cbn; lia))].
    set (s1 := if is_slow r then _ else s).
    assert (H1 : counters s1 = counters s /\ alive s1 = true /\ writer s1 = writer s /\ file s1 = file s)
      by (unfold s1; by destruct (is_slow r)).
    destruct H1 as (H1 & H2 & H3 & H4). clearbody s1. destruct (is_slow_value r); cbn [numbered].
    + intros _. unfold update. cbn. rewrite app_nil_r, H1, H2, H3, H4. split_and!; (done || (unfold len; cbn; lia)).
    + intros [[t Ht] _]%List.Forall_cons_iff. unfold append_line, append. rewrite H3, (proj1 Ht). unfold update. cbn. rewrite H1, H2, H4.
      split_and!; [done | (done || lia) | done |]. apply file_of_app; [done | by apply file_of_line].
  - cbn [numbered]. intros [[t Ht] _]%List.Forall_cons_iff. unfold append_line, append. rewrite (proj1 Ht). unfold update. cbn.
    split_and!; [done | (done || lia) | done |]. apply file_of_app; [done | by apply file_of_line].
Qed.

Lemma numbered_app n rs rs' : numbered n (rs ++ rs') = numbered n rs ++ numbered (n + len rs) rs'.
Proof.
  revert n. induction rs as [| [now r] rs IH]; intros n; cbn [app numbered]; [by rewrite len_nil, Z.add_0_r |].
  rewrite IH, len_cons. do 3 f_equal. lia.
Qed.

Lemma run_file xs s ls : alive s = true -> Forall write_works xs -> file_of ls (file s) ->
  Forall (fun l => exists t, is_text l t) (numbered (next_seq (writer s)) (flat_map (step_line from_slice) xs)) ->
  let s' := run_posts path from_slice xs s in
  alive s' = true /\ rejected (counters s') = rejected (counters s) + countb (is_unreadable from_slice) xs /\
  file_of (ls ++ numbered (next_seq (writer s)) (flat_map (step_line from_slice) xs)) (file s').
Proof.
  intros Ha Hw. revert s ls Ha. induction Hw as [| x xs Hx Hw IH]; intros s ls Ha Hf; cbn [flat_map countb].
  - intros _. cbn. rewrite app_nil_r. split_and!; (done || lia).
  - rewrite numbered_app, List.Forall_app. intros [Hl Hl']. destruct (step_file x s ls Ha Hx Hf Hl) as (H1 & H2 & H3 & H4).
    rewrite <- H3 in Hl'. destruct (IH _ _ H1 H4 Hl') as (H5 & H6 & H7). unfold run_posts in *. cbn [fold_left].
    cbv zeta in *. rewrite H3, <- app_assoc in H7. split_and!; [done | | done]. destruct (is_unreadable from_slice x); cbn [Z.b2z] in *; lia.
Qed.
End Lemmas.

(** ** From the slow control to the snapshot *)

Definition is_reading (r : LogbookRecord) : bool :=
  match r with
  | Slow _ _ _ event _ => is_reading_event event
  | _ => false
  end.

Section Readings.
Context `{LineJson} (path : string).
Context (from_slice : bytes -> result LogbookRecord string).

Lemma readings_only r : is_reading r = false -> readings r = [].
Proof. destruct r as [| | | | actor device node event values]; try done. cbn. intros Hr. rewrite Hr. by destruct values. Qed.

Lemma readings_filter rs : flat_map readings (List.filter is_reading rs) = flat_map readings rs.
Proof.
  induction rs as [| r rs IH]; [done |]. cbn [List.filter flat_map]. destruct (is_reading r) eqn:E; cbn [flat_map]; rewrite IH; [done |].
  by rewrite (readings_only r E).
Qed.

(** A record of a sample, as it is read back. *)
Lemma readings_sample event s : is_reading_event event = true -> is_finite (value s) = true ->
  readings (reread_record (slow_record json_f64 event s)) = [(key s, (reread_f64 (value s), unit_ s))].
Proof.
  intros He Hv. unfold slow_record, json_f64. rewrite Hv. cbn [reread_record readings]. rewrite He. reflexivity.
Qed.

Definition keyed {A : Type} (k : string) (kv : string * A) : bool := bool_decide (fst kv = k).

Lemma readings_not_finite event s : is_reading_event event = true -> is_finite (value s) = false ->
  readings (reread_record (slow_record json_f64 event s)) = [].
Proof.
  intros He Hv. unfold slow_record, json_f64. rewrite Hv. cbn [reread_record readings]. rewrite He. reflexivity.
Qed.

(** Of what the journal has, only readings. *)
Lemma journal_events devices every h : forall past told,
  Forall (fun se => Forall (fun e => is_reading_event e = true) (snd se)) (journal devices every past told h).
Proof.
  assert (Hedge : forall was now, Forall (fun e => is_reading_event e = true) (edge was now)) by (intros [] []; by repeat constructor).
  induction h as [| [i s] h IH]; intros past told; cbn [journal]; constructor; [| apply IH]. cbn [snd]. unfold due.
  apply List.Forall_app. split; [apply List.Forall_app; split; [| done] | by destruct (worth_writing _ _ _); repeat constructor].
  apply List.Forall_flat_map. apply list.Forall_forall. intros r _. by destruct (watches r s).
Qed.

Lemma events_readings k events s : Forall (fun e => is_reading_event e = true) events ->
  (key s = k -> is_finite (value s) = true) ->
  List.filter (keyed k) (flat_map readings (map reread_record (map (fun e => slow_record json_f64 e s) events))) =
    if decide (key s = k) then map (fun _ => (k, (reread_f64 (value s), unit_ s))) events else [].
Proof.
  intros He Hf. induction He as [| e events He _ IH]; cbn [map flat_map]; [by destruct (decide _) |].
  rewrite List.filter_app, IH. destruct (is_finite (value s)) eqn:Hv.
  - rewrite readings_sample by done. cbn [List.filter]. unfold keyed. cbn [fst].
    destruct (decide (key s = k)) as [<- | Hne]; [by rewrite bool_decide_eq_true_2 | by rewrite bool_decide_eq_false_2].
  - rewrite readings_not_finite by done. destruct (decide (key s = k)) as [Hk |]; [by apply Hf in Hk |]. done.
Qed.

Lemma last_reading k told : Forall (fun se => Forall (fun e => is_reading_event e = true) (snd se)) told ->
  (forall s, s ∈ map fst told -> key s = k -> is_finite (value s) = true) ->
  list.last (List.filter (keyed k) (flat_map readings (map reread_record (told_records json_f64 told)))) =
    (fun w => (k, (reread_f64 (value w), unit_ w))) <$> last_told k told.
Proof.
  intros He Hf. unfold last_told, told_records. induction told as [| [s events] told IH] using rev_ind; [done |].
  apply List.Forall_app in He as [He Hs]. apply List.Forall_cons_iff in Hs as [Hs _]. cbn [snd] in Hs.
  rewrite map_app in Hf. specialize (IH He (fun x Hx => Hf x (proj2 (elem_of_app _ _ _) (or_introl Hx)))).
  rewrite last_filter_snoc, flat_map_app, map_app, flat_map_app, List.filter_app. cbn [flat_map]. rewrite app_nil_r.
  rewrite events_readings by (done || (intros Hk; apply Hf; [apply elem_of_app; right; by left | done])).
  destruct (decide (key s = k)) as [Hk | Hk]; [rewrite bool_decide_eq_true_2 by done | rewrite bool_decide_eq_false_2 by done];
    cbn [andb]; [| by rewrite app_nil_r].
  destruct events as [| e events _] using rev_ind; [by rewrite app_nil_r |].
  rewrite bool_decide_eq_false_2 by (by destruct events). cbn [negb fmap option_fmap option_map fst].
  rewrite map_app, app_assoc. cbn [map]. by rewrite last_snoc.
Qed.

Lemma step_readings_posted k xs :
  match list.last (List.filter (keyed k) (flat_map readings (posted from_slice xs))) with
  | Some (_, v) => exists ts, forall before, last_of k (flat_map (step_readings from_slice) xs) before = Some (mkLatest (fst v) (snd v) ts)
  | None => forall before, last_of k (flat_map (step_readings from_slice) xs) before = before
  end.
Proof.
  assert (E : flat_map readings (posted from_slice xs) =
    map (fun kl => (fst kl, (latest_value (snd kl), latest_unit (snd kl)))) (flat_map (step_readings from_slice) xs)).
  { induction xs as [| x xs IH]; [done |]. unfold posted in *. cbn [flat_map]. rewrite flat_map_app, map_app, IH. f_equal.
    destruct x as [message goes ts now | | |]; try done. cbn [step_readings]. destruct (from_slice message) as [r |]; [| done].
    cbn [flat_map]. rewrite app_nil_r, map_map. symmetry. rewrite <- (map_id (readings r)) at 2. apply map_ext. by intros [k' [v' u']]. }
  rewrite E. unfold last_of. set (l := flat_map (step_readings _) xs). clearbody l.
  induction l as [| [k' l'] l IH] using rev_ind; [done |]. rewrite map_app, !List.filter_app. cbn [map List.filter fst snd].
  unfold keyed at 2, of_key at 2 4. cbn [fst]. case_bool_decide.
  - rewrite last_snoc. exists (latest_ts l'). intros before. rewrite last_snoc. by destruct l'.
  - rewrite !app_nil_r. exact IH.
Qed.
End Readings.

(** ** Theorems *)

Section Theorems.
Context `{LineJson} (path : string).
Context (from_slice : bytes -> result LogbookRecord string).

(** Whatever arrives, and however the lines of the handlers come between, every
    post is counted once - logged, rejected, or a periodic value that is not logged -
    and the latest readings are, parameter by parameter, the last that was posted.
    When the writes work, just the unreadable posts are rejected, and the logbook has
    gained every other post and every line of the handlers, in the order of the
    writes and numbered on without a gap. *)
Theorem log_posts_account (xs : list Step) (s : Shared) (ls : list LogbookLine) (Ha : alive s = true) :
  let s' := run_posts path from_slice xs s in
  (alive s' = true ->
     accepted (counters s') + rejected (counters s') + slow_values_not_logged (counters s') =
       accepted (counters s) + rejected (counters s) + slow_values_not_logged (counters s) + countb is_post xs /\
     slow_values_not_logged (counters s') = slow_values_not_logged (counters s) + countb (is_value_post from_slice) xs /\
     forall k, slow_latest s' !! k = last_of k (flat_map (step_readings from_slice) xs) (slow_latest s !! k)) /\
  (Forall write_works xs -> file_of ls (file s) ->
   Forall (fun l => exists t, is_text l t) (numbered (next_seq (writer s)) (flat_map (step_line from_slice) xs)) ->
     alive s' = true /\ rejected (counters s') = rejected (counters s) + countb (is_unreadable from_slice) xs /\
     file_of (ls ++ numbered (next_seq (writer s)) (flat_map (step_line from_slice) xs)) (file s')).
Proof. split; [by apply run_posts_effect | intros; by apply run_file]. Qed.

(** C38: The slow control and the controller together: when the readings posted are
    those the slow control made of its samples, in order and as JSON carries them -
    between whatever other posts and lines - then what the next [run_start] or
    [run_stop] is stamped with is, for every parameter that was ever sampled, the
    number (as read back), the unit and a time of a sample of that parameter, and
    it is the last sample or one that needed no other record; what was not sampled
    stays as it was. *)
Theorem posted_readings_shown (devices : list SlowDeviceConfig) (every : Z) (batches : list (nat * list Sample))
    (xs : list Step) (s : Shared) (k : string)
    (Ha : alive s = true) (Halive : alive (run_posts path from_slice xs s) = true)
    (Hposted : List.filter is_reading (posted from_slice xs) =
       map reread_record (fst (ingest_all json_f64 batches (aggregator_new devices every))))
    (Hfinite : forall x, x ∈ map snd (readings_of batches) -> key x = k -> is_finite (value x) = true) :
  let shown := slow_latest (run_posts path from_slice xs s) !! k in
  match last_read k (readings_of batches) with
  | Some read =>
      exists written ts, shown = Some (mkLatest (reread_f64 (value written)) (unit_ written) ts) /\
        written ∈ map snd (readings_of batches) /\ key written = k /\ near every written read
  | None => shown = slow_latest s !! k
  end.
Proof.
  cbv zeta. set (h := readings_of batches) in *. rewrite ingest_all_history in Hposted. fold h in Hposted.
  destruct (history_journal json_f64 devices every h [] [] _ (reflects_new devices every)) as [E _]. rewrite E in Hposted.
  set (told := journal devices every [] [] h) in *.
  assert (Hsamples : map fst told = map snd h) by apply journal_samples.
  pose proof (last_reading k told (journal_events devices every h [] [])) as Hl. rewrite Hsamples in Hl. specialize (Hl Hfinite).
  pose proof (step_readings_posted from_slice k xs) as Hs. rewrite <- readings_filter, Hposted, Hl in Hs.
  destruct (run_posts_effect path from_slice xs s Ha Halive) as (_ & _ & Hlatest). rewrite Hlatest.
  destruct (last_read k h) as [read |] eqn:Hr.
  - destruct (journal_keeps_up devices every h [] []) with (k := k) (s := read) as (w & Hw & Hn); [done | done |]. cbn [app] in Hw.
    fold told in Hw. rewrite Hw in Hs. destruct Hs as [ts Hs]. exists w, ts. rewrite Hs. split_and!; [done | | | done].
    + rewrite <- Hsamples. by eapply last_told_in.
    + by eapply (last_told_record json_f64).
  - destruct (last_told k told) as [w |] eqn:Hw; [exfalso | apply Hs].
    pose proof (last_told_in _ _ _ Hw) as Hin. rewrite Hsamples in Hin. destruct (last_told_record json_f64 _ _ _ Hw) as [Hk _].
    unfold last_read in Hr. apply fmap_None, last_None in Hr as El. apply list_elem_of_fmap in Hin as ([i w'] & -> & Hin).
    assert (Hf : (i, w') ∈ List.filter (fun '(_, s) => bool_decide (key s = k)) h)
      by (apply list_elem_of_In, filter_In; split; [by apply list_elem_of_In | by apply bool_decide_eq_true]).
    rewrite El in Hf. by apply elem_of_nil in Hf.
Qed.
End Theorems.

(** A value whose [values] have another shape is noticed by [apply_slow_record], whose
    answer nobody looks at: it is counted with those that were taken in. *)
Lemma misshapen_value_lost `{LineJson} path from_slice actor device node message goes ts now (s : Shared) :
  alive s = true -> from_slice message = Ok (Slow actor device node "VALUE" (JArr [])) ->
  fst (apply_slow_record (Slow actor device node "VALUE" (JArr [])) ts (slow_latest s)) = false /\
  step path from_slice (Received message goes ts now) s =
    s <| counters ::= (fun c => c <| slow_values_not_logged ::= incr |>) |>.
Proof. intros Ha Hm. split; [done |]. unfold step, take_post. rewrite Ha, Hm. by destruct s. Qed.

(** ** At a concrete input *)

Module Sample.

(** Lines of one length; messages of one byte; numbers come back doubled. *)
#[local] Instance two_braces : LineJson := { line_text _ := Ok [123; 125]; parse_line _ := Err "no object"; reread_f64 x := f64_mul x (f64_of_Z 2) }.

Definition gas (n ts : Z) : Slowctl.Sample := mkSample "gas" (Some 4) "fmeasure" (f64_of_Z n) "ln/h" ts false.
Definition message (m : bytes) : result LogbookRecord string :=
  match m with
  | [0] => Ok (reread_record (slow_record json_f64 "VALUE" (gas 7 1000)))
  | [1] => Ok (reread_record (slow_record json_f64 "ALARM" (gas 7 1000)))
  | [2] => Ok (Comment "a" "b" "c")
  | _ => Err "not JSON"
  end.

Definition xs : list Step :=
  [Received [0] Written "t0" "n0"; Again; Received [9] Written "t1" "n1"; Handler (Comment "x" "y" "z") Written "n2";
   Received [2] Written "t3" "n3"].
Definition start : Shared := mkShared (mkPostCounters 0 0 0) ∅ (mkWriter 1) [] true.

Lemma log_posts_account_witness :
  alive start = true /\ rejected (counters (run_posts "p" message xs start)) = 1 /\
  exists ls, ls = numbered 1 [("n2", Comment "x" "y" "z"); ("n3", Comment "a" "b" "c")] /\
    file_of ls (file (run_posts "p" message xs start)).
Proof.
  split; [done |]. destruct (log_posts_account "p" message xs start [] eq_refl) as [_ H2].
  assert (Hw : Forall write_works xs) by (repeat constructor).
  assert (Hf : file_of [] (file start)) by (exists []; split; [constructor | reflexivity]).
  destruct (H2 Hw Hf) as (_ & H3 & H4).
  { repeat constructor; by exists [123; 125]. }
  split; [exact H3 |]. eexists. split; [reflexivity | exact H4].
Defined.

Lemma posted_readings_shown_witness :
  exists written ts,
    slow_latest (run_posts "p" message xs start) !! "gas/4/fmeasure" = Some (mkLatest (f64_mul (value written) (f64_of_Z 2)) (unit_ written) ts) /\
    written ∈ [gas 7 1000] /\ key written = "gas/4/fmeasure" /\ near 60 written (gas 7 1000).
Proof.
  assert (E : last_read "gas/4/fmeasure" (readings_of [(0%nat, [gas 7 1000])]) = Some (gas 7 1000)) by (vm_compute; reflexivity).
  pose proof (posted_readings_shown "p" message [] 60 [(0%nat, [gas 7 1000])] xs start "gas/4/fmeasure" eq_refl) as H.
  cbv zeta in H. rewrite E in H. apply H.
  - vm_compute. reflexivity.
  - vm_compute. reflexivity.
  - intros x Hx _. apply list_elem_of_singleton in Hx as ->. reflexivity.
Defined.
End Sample.
