(* ===== verification/Geometry.v ===== *)
(** * Geometry: which strip a channel of the electronics is

    Models [src/geometry.rs] and what [src/controller/rest.rs] takes from it
    ([expected_fragments], [geometry_record]).  A text file names, line by line, the
    strip or the auxiliary input behind a channel of a chip; the channels of the
    fixed pattern noise are not written down, the hardware has them.  The lines become
    a dense table over all boards, which every sample of every event is looked up in.
    Numbers are [u32]s; the table's own size is a [usize], and that it fits the memory
    is not part of the model.  The iteration order of a hash set is an argument. *)

From Stdlib Require Import Ascii.
From stdpp Require Import gmap strings list.
From S2P Require Import Prelude Bytes Decimal Utf8 Text Float.
Open Scope string_scope.
Open Scope list_scope.
Open Scope Z_scope.

(** ** The hardware *)

Definition AGET_CHIPS_PER_ASAD : Z := 4.
Definition RAW_CH_PER_AGET : Z := 68.
Definition SIGNAL_CH_PER_AGET : Z := 64.
Definition FPN_RAW_CHANNELS : list Z := [11; 22; 45; 56].

Definition REORDER_FROM_GEOMETRY_TO_GRAW : list Z :=
  [0; 1; 2; 3; 4; 5; 6; 7; 8; 9; 10; 12; 13; 14; 15; 16; 17; 18; 19; 20; 21; 23; 24; 25; 26; 27;
   28; 29; 30; 31; 32; 33; 34; 35; 36; 37; 38; 39; 40; 41; 42; 43; 44; 46; 47; 48; 49; 50; 51; 52;
   53; 54; 55; 57; 58; 59; 60; 61; 62; 63; 64; 65; 66; 67].

(** ** Roles *)

Inductive Plane : Type := U | V | W.
#[export] Instance Plane_eq_dec : EqDecision Plane.
Proof. solve_decision. Defined.

Definition plane_parse (token : string) : option Plane :=
  if bool_decide (token = "U") then Some U
  else if bool_decide (token = "V") then Some V
  else if bool_decide (token = "W") then Some W
  else None.

Definition plane_text (p : Plane) : string :=
  match p with
  | U => "U"
  | V => "V"
  | W => "W"
  end.

(** [plane as usize]. *)
Definition plane_index (p : Plane) : nat :=
  match p with
  | U => 0
  | V => 1
  | W => 2
  end.

Inductive ChannelRole : Type :=
| Strip (plane : Plane) (section strip : Z)
| Fpn (index : Z)
| Aux (name : string)
| Unmapped.
#[export] Instance ChannelRole_eq_dec : EqDecision ChannelRole.
Proof. solve_decision. Defined.

Record HeaderScalars : Type := mkHeader {
  angles_deg : option (list f64);
  diamond_size_mm : option f64;
  reference_point_mm : option (f64 * f64);
  drift_velocity_cm_per_us : option f64;
  sampling_rate_mhz : option f64;
  trigger_delay_us : option f64;
  drift_cage_acceptance_mm : option (f64 * f64);
}.
#[export] Instance eta_HeaderScalars : Eta HeaderScalars :=
  fun h => mkHeader (angles_deg h) (diamond_size_mm h) (reference_point_mm h) (drift_velocity_cm_per_us h)
                    (sampling_rate_mhz h) (trigger_delay_us h) (drift_cage_acceptance_mm h).
Definition no_header : HeaderScalars := mkHeader None None None None None None None.

Record StripRow : Type := mkStripRow {
  row_plane : Plane;
  row_section : Z;
  row_strip : Z;
  off_pad : f64;
  off_strip : f64;
  len_pads : f64;
  row_line : Z;
}.

Record DuplicateChannel : Type := mkDuplicate {
  dup_cobo : Z;
  dup_asad : Z;
  dup_aget : Z;
  dup_raw_ch : Z;
  dup_line : Z;
}.

Record Geometry : Type := mkGeometry {
  header : HeaderScalars;
  max_strip : list Z;
  channels : list ChannelRole;
  asad_offset : list Z;
  asad_count : list Z;
  duplicates : list DuplicateChannel;
  malformed : list Z;
  strip_rows : list StripRow;
  unmapped_hits : Z;
}.
#[export] Instance eta_Geometry : Eta Geometry :=
  fun g => mkGeometry (header g) (max_strip g) (channels g) (asad_offset g) (asad_count g) (duplicates g) (malformed g)
                      (strip_rows g) (unmapped_hits g).

(** ** Looking up *)

(** A chip of a board of a crate. *)
Notation Chip := (Z * Z * Z)%type.

Definition compute_index (offsets counts : list Z) (cobo asad aget raw_ch : Z) : rust (option Z) :=
  if len offsets <=? cobo then Val None
  else
    let! count := index counts cobo in
    if count <=? asad then Val None
    else if (AGET_CHIPS_PER_ASAD <=? aget) || (RAW_CH_PER_AGET <=? raw_ch) then Val None
    else
      let! offset := index offsets cobo in
      let global_asad := offset + asad in
      Val (Some ((global_asad * AGET_CHIPS_PER_ASAD + aget) * RAW_CH_PER_AGET + raw_ch)).

Definition index_of (g : Geometry) (cobo asad aget raw_ch : Z) : rust (option Z) :=
  compute_index (asad_offset g) (asad_count g) cobo asad aget raw_ch.

Definition count_hit (g : Geometry) : Geometry := g <| unmapped_hits ::= (fun n => wrap 64 (n + 1)) |>.

Definition lookup_ref (cobo asad aget raw_ch : Z) (g : Geometry) : rust (ChannelRole * Geometry) :=
  let! i := index_of g cobo asad aget raw_ch in
  match i with
  | Some i =>
      let! role := index (channels g) i in
      Val (role, if decide (role = Unmapped) then count_hit g else g)
  | None => Val (Unmapped, count_hit g)
  end.

(** [cobo_count], [asad_inventory]: no role is looked up. *)
Definition cobo_count (g : Geometry) : Z := len (asad_offset g).

Fixpoint inventory_from (cobo : Z) (counts : list Z) : list (Z * Z) :=
  match counts with
  | [] => []
  | count :: counts => map (fun asad => (wrap 32 cobo, asad)) (seqZ 0 count) ++ inventory_from (cobo + 1) counts
  end.

Definition asad_inventory (g : Geometry) : list (Z * Z) := inventory_from 0 (asad_count g).

(** ** The table as text: [dump_tsv] *)

Definition tab : string := String "009" EmptyString.
Definition newline : string := String "010" EmptyString.

Definition role_columns (role : ChannelRole) : list string :=
  match role with
  | Strip plane section strip => ["Strip"; plane_text plane; dec section; dec strip]
  | Fpn _ => ["Fpn"; ""; ""; ""]
  | Aux _ => ["Aux"; ""; ""; ""]
  | Unmapped => ["Unmapped"; ""; ""; ""]
  end.

Definition dump_line (cobo asad aget raw_ch : Z) (role : ChannelRole) : string :=
  String.concat tab ([dec cobo; dec asad; dec aget; dec raw_ch] ++ role_columns role) +:+ newline.

(** The four loops: over the channels, the chips, the boards, the crates. *)
Definition dump_channel (g : Geometry) (cobo asad aget raw_ch : Z) : rust string :=
  let! i := compute_index (asad_offset g) (asad_count g) (wrap 32 cobo) asad aget raw_ch in
  match i with
  | None => Val EmptyString
  | Some i => let! role := index (channels g) i in Val (dump_line cobo asad aget raw_ch role)
  end.

Fixpoint dump_each (f : Z -> rust string) (l : list Z) : rust string :=
  match l with
  | [] => Val EmptyString
  | x :: l => let! s := f x in let! t := dump_each f l in Val (s +:+ t)
  end.

Definition dump_tsv (g : Geometry) : rust string :=
  dump_each (fun cobo =>
    let! count := index (asad_count g) cobo in
    dump_each (fun asad =>
      dump_each (fun aget =>
        dump_each (fun raw_ch => dump_channel g cobo asad aget raw_ch) (seqZ 0 RAW_CH_PER_AGET))
        (seqZ 0 AGET_CHIPS_PER_ASAD)) (seqZ 0 count)) (seqZ 0 (len (asad_offset g))).

(** ** Reading the file *)

Notation Shape := (f64 * f64 * f64)%type.

Record ParsedStrip : Type := mkParsedStrip {
  strip_chip : Chip;
  strip_plane : Plane;
  strip_section : Z;
  strip_strip : Z;
  strip_signal_ch : Z;
  strip_shape : Shape;
}.

Record ParsedAux : Type := mkParsedAux {
  aux_name : string;
  aux_chip : Chip;
  aux_signal_ch : Z;
}.

Record PendingChannel : Type := mkPending {
  chip : Chip;
  raw_ch : Z;
  role : ChannelRole;
  shape : option Shape;
  line_number : Z;
}.

Definition u8_of (s : string) : option Z := parse_uint 8 s.
Definition u16_of (s : string) : option Z := parse_uint 16 s.
Definition u32_of (s : string) : option Z := parse_uint 32 s.

Definition parse_new_strip_line (tokens : list string) : option ParsedStrip :=
  match tokens with
  | [t0; t1; t2; t3; t4; t5; t6; t7; t8; t9] =>
      plane ← plane_parse t0;
      section ← u8_of t1;
      strip ← u16_of t2;
      cobo ← u32_of t3;
      asad ← u32_of t4;
      aget ← u32_of t5;
      if AGET_CHIPS_PER_ASAD <=? aget then None
      else
        signal_ch ← u32_of t6;
        off_pad ← parse_f64 t7;
        off_strip ← parse_f64 t8;
        len_pads ← parse_f64 t9;
        Some (mkParsedStrip (cobo, asad, aget) plane section strip signal_ch (off_pad, off_strip, len_pads))
  | _ => None
  end.

Definition parse_legacy_strip_line (tokens : list string) : option ParsedStrip :=
  match tokens with
  | [t0; t1; t2; t3; t4; t5; t6] =>
      plane ← plane_parse t0;
      strip ← u16_of t1;
      aget ← u32_of t2;
      if AGET_CHIPS_PER_ASAD <=? aget then None
      else
        signal_ch ← u32_of t3;
        off_pad ← parse_f64 t4;
        off_strip ← parse_f64 t5;
        len_pads ← parse_f64 t6;
        Some (mkParsedStrip (0, 0, aget) plane 0 strip signal_ch (off_pad, off_strip, len_pads))
  | _ => None
  end.

Definition parse_aux_line (tokens : list string) : option ParsedAux :=
  match tokens with
  | [t0; t1; t2; t3; t4] =>
      cobo ← u32_of t1;
      asad ← u32_of t2;
      aget ← u32_of t3;
      if AGET_CHIPS_PER_ASAD <=? aget then None
      else signal_ch ← u32_of t4; Some (mkParsedAux t0 (cobo, asad, aget) signal_ch)
  | _ => None
  end.

(** What the lines leave, as they are read; the chips without repetition. *)
Record Reading : Type := mkReading {
  read_header : HeaderScalars;
  pending : list PendingChannel;
  active_agets : list Chip;
  read_malformed : list Z;
  read_max_strip : list Z;
}.
#[export] Instance eta_Reading : Eta Reading :=
  fun r => mkReading (read_header r) (pending r) (active_agets r) (read_malformed r) (read_max_strip r).

Definition chip_insert (c : Chip) (cs : list Chip) : list Chip := if decide (c ∈ cs) then cs else cs ++ [c].

Definition bad_line (n : Z) (r : Reading) : Reading := r <| read_malformed ::= (fun l => l ++ [n]) |>.

Definition bump_max (p : nat) (strip : Z) (maxes : list Z) : list Z :=
  match maxes !! p with
  | Some m => if m <? strip then <[p := strip]> maxes else maxes
  | None => maxes
  end.

Definition push_strip (p : ParsedStrip) (n : Z) (r : Reading) : Reading :=
  match get REORDER_FROM_GEOMETRY_TO_GRAW (strip_signal_ch p) with
  | None => bad_line n r
  | Some raw_ch =>
      r <| active_agets ::= chip_insert (strip_chip p) |>
        <| read_max_strip ::= bump_max (plane_index (strip_plane p)) (strip_strip p) |>
        <| pending ::= (fun l => l ++ [mkPending (strip_chip p) raw_ch
                                         (Strip (strip_plane p) (strip_section p) (strip_strip p))
                                         (Some (strip_shape p)) n]) |>
  end.

Definition push_aux (p : ParsedAux) (n : Z) (r : Reading) : Reading :=
  match get REORDER_FROM_GEOMETRY_TO_GRAW (aux_signal_ch p) with
  | None => bad_line n r
  | Some raw_ch =>
      r <| active_agets ::= chip_insert (aux_chip p) |>
        <| pending ::= (fun l => l ++ [mkPending (aux_chip p) raw_ch (Aux (aux_name p)) None n]) |>
  end.

(** [parse_n_f64::<N>]: what does not parse is left out before they are counted. *)
Definition parse_n_f64 (n : nat) (s : string) : option (list f64) :=
  let vals := omap parse_f64 (split_whitespace s) in
  if Nat.eqb (length vals) n then Some vals else None.

Definition one_f64 (s : string) : option f64 :=
  match parse_n_f64 1 s with
  | Some [x] => Some x
  | _ => None
  end.

Definition two_f64 (s : string) : option (f64 * f64) :=
  match parse_n_f64 2 s with
  | Some [x; y] => Some (x, y)
  | _ => None
  end.

(** [try_parse_header_scalar]; [None] is not a header line. *)
Definition try_parse_header_scalar (s : string) (h : HeaderScalars) : option HeaderScalars :=
  match strip_prefix "ANGLES:" s with Some rest => Some (h <| angles_deg := parse_n_f64 3 rest |>) | None =>
  match strip_prefix "DIAMOND SIZE:" s with Some rest => Some (h <| diamond_size_mm := one_f64 rest |>) | None =>
  match strip_prefix "REFERENCE POINT:" s with Some rest => Some (h <| reference_point_mm := two_f64 rest |>) | None =>
  match strip_prefix "DRIFT VELOCITY:" s with Some rest => Some (h <| drift_velocity_cm_per_us := one_f64 rest |>) | None =>
  match strip_prefix "SAMPLING RATE:" s with Some rest => Some (h <| sampling_rate_mhz := one_f64 rest |>) | None =>
  match strip_prefix "TRIGGER DELAY:" s with Some rest => Some (h <| trigger_delay_us := one_f64 rest |>) | None =>
  match strip_prefix "DRIFT CAGE ACCEPTANCE:" s with Some rest => Some (h <| drift_cage_acceptance_mm := two_f64 rest |>) | None =>
  None end end end end end end end.

(** A line that is no header: by the number of its columns. *)
Definition take_tokens (tokens : list string) (n : Z) (r : Reading) : Reading :=
  match length tokens with
  | 10%nat => match parse_new_strip_line tokens with Some p => push_strip p n r | None => bad_line n r end
  | 7%nat => match parse_legacy_strip_line tokens with Some p => push_strip p n r | None => bad_line n r end
  | 5%nat => match parse_aux_line tokens with Some p => push_aux p n r | None => bad_line n r end
  | _ => bad_line n r
  end.

Definition take_line (n : Z) (raw_line : string) (r : Reading) : Reading :=
  let trimmed := trim raw_line in
  if bool_decide (trimmed = EmptyString) || starts_with "#" trimmed then r
  else match try_parse_header_scalar trimmed (read_header r) with
       | Some h => r <| read_header := h |>
       | None => take_tokens (split_whitespace trimmed) n r
       end.

Fixpoint take_lines (n : Z) (ls : list string) (r : Reading) : Reading :=
  match ls with
  | [] => r
  | l :: ls => take_lines (n + 1) ls (take_line n l r)
  end.

Definition read_text (text : string) : Reading := take_lines 1 (str_lines text) (mkReading no_header [] [] [] [0; 0; 0]).

(** ** Building the table: [build_geometry] *)

(** [channels[i] = role]. *)
Definition store (i : Z) (x : ChannelRole) (l : list ChannelRole) : rust (list ChannelRole) :=
  if (0 <=? i) && (i <? len l) then Val (<[Z.to_nat i := x]> l) else Panic.

Fixpoint max_cobo (cs : list Chip) : option Z :=
  match cs with
  | [] => None
  | (cobo, _, _) :: cs => Some (match max_cobo cs with Some m => Z.max cobo m | None => cobo end)
  end.

Definition crates (cs : list Chip) : Z :=
  match max_cobo cs with
  | Some m => m + 1
  | None => 0
  end.

Fixpoint count_asads (cs : list Chip) (counts : list Z) : rust (list Z) :=
  match cs with
  | [] => Val counts
  | (cobo, asad, _) :: cs =>
      let! count := index counts cobo in
      let next := wrap 32 (asad + 1) in
      count_asads cs (if count <? next then <[Z.to_nat cobo := next]> counts else counts)
  end.

(** The running sum: where each crate begins, and the total. *)
Fixpoint offsets_from (running : Z) (counts : list Z) : list Z * Z :=
  match counts with
  | [] => ([], running)
  | count :: counts =>
      let '(offsets, total) := offsets_from (wrap 32 (running + count)) counts in (running :: offsets, total)
  end.

Section Build.
Context (offsets counts : list Z).

Fixpoint place_fpn_of (c : Chip) (i : Z) (raws : list Z) (ch : list ChannelRole) : rust (list ChannelRole) :=
  match raws with
  | [] => Val ch
  | raw :: raws =>
      let '(cobo, asad, aget) := c in
      let! at_ := compute_index offsets counts cobo asad aget raw in
      let! ch := match at_ with Some idx => store idx (Fpn (i + 1)) ch | None => Val ch end in
      place_fpn_of c (i + 1) raws ch
  end.

Fixpoint place_fpn (cs : list Chip) (ch : list ChannelRole) : rust (list ChannelRole) :=
  match cs with
  | [] => Val ch
  | c :: cs => let! ch := place_fpn_of c 0 FPN_RAW_CHANNELS ch in place_fpn cs ch
  end.

Record Placed : Type := mkPlaced {
  roles : list ChannelRole;
  taken : list DuplicateChannel;
  rows : list StripRow;
  unplaced : list Z;
}.

Definition row_of (e : PendingChannel) : list StripRow :=
  match role e, shape e with
  | Strip plane section strip, Some (off_pad, off_strip, len_pads) =>
      [mkStripRow plane section strip off_pad off_strip len_pads (line_number e)]
  | _, _ => []
  end.

Definition duplicate_of (e : PendingChannel) : DuplicateChannel :=
  let '(cobo, asad, aget) := chip e in mkDuplicate cobo asad aget (raw_ch e) (line_number e).

Definition place_entry (e : PendingChannel) (p : Placed) : rust Placed :=
  let '(cobo, asad, aget) := chip e in
  let! at_ := compute_index offsets counts cobo asad aget (raw_ch e) in
  match at_ with
  | None => Val (mkPlaced (roles p) (taken p) (rows p) (unplaced p ++ [line_number e]))
  | Some idx =>
      let! there := index (roles p) idx in
      if decide (there = Unmapped) then
        let! ch := store idx (role e) (roles p) in
        Val (mkPlaced ch (taken p) (rows p ++ row_of e) (unplaced p))
      else Val (mkPlaced (roles p) (taken p ++ [duplicate_of e]) (rows p) (unplaced p))
  end.

Fixpoint place_entries (es : list PendingChannel) (p : Placed) : rust Placed :=
  match es with
  | [] => Val p
  | e :: es => let! p := place_entry e p in place_entries es p
  end.
End Build.

Section Parse.
Context (order : list Chip -> list Chip).

Definition build_geometry (r : Reading) : rust Geometry :=
  let active := order (active_agets r) in
  let! counts := count_asads active (repeat 0 (Z.to_nat (crates active))) in
  let '(offsets, total_asad) := offsets_from 0 counts in
  let array_len := total_asad * AGET_CHIPS_PER_ASAD * RAW_CH_PER_AGET in
  let! ch := place_fpn offsets counts active (repeat Unmapped (Z.to_nat array_len)) in
  let! p := place_entries offsets counts (pending r) (mkPlaced ch [] [] (read_malformed r)) in
  Val (mkGeometry (read_header r) (read_max_strip r) (roles p) offsets counts (taken p) (unplaced p) (rows p) 0).

Definition parse (text : string) : rust Geometry := build_geometry (read_text text).

(** [load]; the text, or what reading the file said. *)
Definition load (file : result string string) : rust (result Geometry string) :=
  match file with
  | Err e => Val (Err e)
  | Ok text => let! g := parse text in Val (Ok g)
  end.

(** ** In the controller: [geometry_record] *)

Definition expected_fragments (g : Geometry) : list (Z * Z) := asad_inventory g.

Record GeometryRecord : Type := mkRecord {
  record_path : string;
  record_sha256 : string;
}.

(** [sha256] is sha2's, as lower-case hexadecimal digits. *)
Definition geometry_record (sha256 : bytes -> string) (path : string) (found : result bytes string)
    : rust (result (GeometryRecord * list (Z * Z)) string) :=
  match found with
  | Err e => Val (Err ("cannot read " +:+ path +:+ ": " +:+ e))
  | Ok content =>
      let! g := parse (bytes_text (from_utf8_lossy content)) in
      Val (Ok (mkRecord path (sha256 content), expected_fragments g))
  end.
End Parse.

Example parse_case :
  let text := "ANGLES: 0 0 0" +:+ newline +:+ "U 0 1 0 0 0 0 0.0 0.0 10" +:+ newline +:+ "V 0 9 0 0 0 0 9.0 9.0 10" +:+ newline +:+
    "Aux 0 0 1 15" +:+ newline +:+ "foo" in
  match parse id text with
  | Val g => (length (channels g), map dup_line (duplicates g), malformed g, asad_inventory g, fst <$> match lookup_ref 0 0 1 16 g with Val r => Some r | _ => None end, max_strip g)
      = (272%nat, [3], [5], [(0, 0)], Some (Aux "Aux"), [1; 9; 0])
  | _ => False
  end.
Proof. vm_compute. reflexivity. Qed.

(** ** What the table should say *)

Notation Key := (Chip * Z)%type.
Definition entry_key (e : PendingChannel) : Key := (chip e, raw_ch e).

(** Which of the fixed pattern channels, from the [i]th on. *)
Fixpoint fpn_from (i : Z) (raws : list Z) (raw : Z) : option Z :=
  match raws with
  | [] => None
  | r :: raws => if decide (r = raw) then Some (i + 1) else fpn_from (i + 1) raws raw
  end.
Definition fpn_number (raw : Z) : option Z := fpn_from 0 FPN_RAW_CHANNELS raw.

(** The first entry for a channel. *)
Fixpoint first_role (es : list PendingChannel) (k : Key) : ChannelRole :=
  match es with
  | [] => Unmapped
  | e :: es => if decide (entry_key e = k) then role e else first_role es k
  end.

(** A channel of a chip in use is fixed pattern or what the first line for it says. *)
Definition role_at (cs : list Chip) (es : list PendingChannel) (k : Key) : ChannelRole :=
  match (if decide (fst k ∈ cs) then fpn_number (snd k) else None) with
  | Some i => Fpn i
  | None => first_role es k
  end.

(** The entries whose channel is new, and those whose channel was taken. *)
Fixpoint firsts (seen : list Key) (es : list PendingChannel) : list PendingChannel :=
  match es with
  | [] => []
  | e :: es => if decide (entry_key e ∈ seen) then firsts seen es else e :: firsts (entry_key e :: seen) es
  end.

Fixpoint repeats (seen : list Key) (es : list PendingChannel) : list PendingChannel :=
  match es with
  | [] => []
  | e :: es => if decide (entry_key e ∈ seen) then e :: repeats seen es else repeats (entry_key e :: seen) es
  end.

(** How many boards a crate has: up to the highest named. *)
Fixpoint boards (cs : list Chip) (c : Z) : Z :=
  match cs with
  | [] => 0
  | (cobo, asad, _) :: cs => if decide (cobo = c) then Z.max (asad + 1) (boards cs c) else boards cs c
  end.

Definition tally (l : list Z) : Z := foldr Z.add 0 l.
Definition all_boards (cs : list Chip) : list Z := map (boards cs) (seqZ 0 (crates cs)).

(** The boards can be numbered in 32 bits: a table for more would not fit any memory. *)
Definition table_fits (cs : list Chip) : Prop := tally (all_boards cs) < 2 ^ 32.

(** The numbers of the lines that are neither empty, nor a comment, nor a header. *)
Definition is_data (raw_line : string) : bool :=
  let trimmed := trim raw_line in
  negb (bool_decide (trimmed = EmptyString) || starts_with "#" trimmed) &&
  match try_parse_header_scalar trimmed no_header with Some _ => false | None => true end.

Fixpoint data_from (n : Z) (ls : list string) : list Z :=
  match ls with
  | [] => []
  | l :: ls => (if is_data l then [n] else []) ++ data_from (n + 1) ls
  end.
Definition data_lines (text : string) : list Z := data_from 1 (str_lines text).

(** ** Lemmas *)

(** The signal channels are the others, in order. *)
Lemma reorder_skips_fpn :
  REORDER_FROM_GEOMETRY_TO_GRAW = List.filter (fun raw => bool_decide (fpn_number raw = None)) (seqZ 0 RAW_CH_PER_AGET) /\
  len REORDER_FROM_GEOMETRY_TO_GRAW = SIGNAL_CH_PER_AGET.
Proof. by vm_compute. Qed.

Lemma reorder_range s raw : get REORDER_FROM_GEOMETRY_TO_GRAW s = Some raw -> 0 <= raw < RAW_CH_PER_AGET /\ fpn_number raw = None.
Proof.
  unfold get. destruct (0 <=? s); [| done]. rewrite (proj1 reorder_skips_fpn). intros Hr%list_elem_of_lookup_2%list_elem_of_In.
  apply filter_In in Hr as [Hr He%bool_decide_eq_true]. apply list_elem_of_In, elem_of_seqZ in Hr. split; [lia | done].
Qed.

(** *** What reading leaves *)

Definition chip_ok (c : Chip) : Prop := let '(cobo, asad, aget) := c in 0 <= cobo < 2 ^ 32 /\ 0 <= asad < 2 ^ 32 /\ 0 <= aget < AGET_CHIPS_PER_ASAD.

Definition role_ok (role : ChannelRole) : Prop :=
  match role with
  | Strip _ section strip => 0 <= section < 2 ^ 8 /\ 0 <= strip < 2 ^ 16
  | Aux _ => True
  | _ => False
  end.

Definition entry_ok (cs : list Chip) (e : PendingChannel) : Prop :=
  chip e ∈ cs /\ 0 <= raw_ch e < RAW_CH_PER_AGET /\ fpn_number (raw_ch e) = None /\
  role_ok (role e).

Record reading_ok (r : Reading) : Prop := {
  ok_chips : Forall chip_ok (active_agets r);
  ok_once : NoDup (active_agets r);
  ok_used : forall c, c ∈ active_agets r -> exists e, e ∈ pending r /\ chip e = c;
  ok_entries : Forall (entry_ok (active_agets r)) (pending r);
}.

Lemma chip_insert_elem c cs x : x ∈ chip_insert c cs <-> x = c \/ x ∈ cs.
Proof. unfold chip_insert. case_decide; [set_solver |]. rewrite elem_of_app, list_elem_of_singleton. tauto. Qed.

Lemma chip_insert_nodup c cs : NoDup cs -> NoDup (chip_insert c cs).
Proof. intros H. unfold chip_insert. case_decide; [done |]. apply list.NoDup_app. split_and!; [done | set_solver | apply NoDup_singleton]. Qed.

Lemma reading_push r e r' : reading_ok r -> chip_ok (chip e) -> 0 <= raw_ch e < RAW_CH_PER_AGET -> fpn_number (raw_ch e) = None ->
  role_ok (role e) ->
  active_agets r' = chip_insert (chip e) (active_agets r) -> pending r' = pending r ++ [e] -> reading_ok r'.
Proof.
  intros [H1 H2 H3 H4] Hc Hraw Hfpn Hrole Ha Hp. split; rewrite ?Ha, ?Hp.
  - apply list.Forall_forall. intros x [-> | Hx]%chip_insert_elem; [done |]. by apply (proj1 (list.Forall_forall _ _) H1).
  - by apply chip_insert_nodup.
  - intros c [-> | Hx]%chip_insert_elem; [exists e; split; [set_solver | done] |].
    destruct (H3 c Hx) as (e' & He' & <-). exists e'. split; [set_solver | done].
  - apply Forall_app_2.
    + eapply list.Forall_impl; [exact H4 |]. intros e' (K1 & K2). split; [| exact K2]. apply chip_insert_elem. by right.
    + constructor; [| constructor]. split_and!; try done; try lia. apply chip_insert_elem. by left.
Qed.

(** The chips a line can name. *)
Ltac ranges :=
  repeat match goal with
         | E : u32_of _ = Some _ |- _ => apply parse_uint_bound in E
         | E : u16_of _ = Some _ |- _ => apply parse_uint_bound in E
         | E : u8_of _ = Some _ |- _ => apply parse_uint_bound in E
         end.

Ltac parsed H :=
  repeat match type of H with
         | (?o ≫= _) = Some _ => let E := fresh "E" in destruct o eqn:E; cbn [mbind option_bind] in H; [| discriminate H]
         | (if ?b then None else _) = Some _ => let E := fresh "Eb" in destruct b eqn:E; [discriminate H |]
         end.

Definition strip_ok (p : ParsedStrip) : Prop :=
  chip_ok (strip_chip p) /\ role_ok (Strip (strip_plane p) (strip_section p) (strip_strip p)).

Lemma new_strip_ok tokens p : parse_new_strip_line tokens = Some p -> strip_ok p.
Proof.
  unfold parse_new_strip_line. destruct tokens as [| t0 [| t1 [| t2 [| t3 [| t4 [| t5 [| t6 [| t7 [| t8 [| t9 [| ]]]]]]]]]]]; try done.
  intros H. parsed H. injection H as <-. unfold strip_ok, role_ok. cbn. ranges. lia.
Qed.

Lemma legacy_strip_ok tokens p : parse_legacy_strip_line tokens = Some p -> strip_ok p.
Proof.
  unfold parse_legacy_strip_line. destruct tokens as [| t0 [| t1 [| t2 [| t3 [| t4 [| t5 [| t6 [| ]]]]]]]]; try done.
  intros H. parsed H. injection H as <-. unfold strip_ok, role_ok. cbn. ranges. lia.
Qed.

Lemma aux_line_chip tokens p : parse_aux_line tokens = Some p -> chip_ok (aux_chip p).
Proof.
  unfold parse_aux_line. destruct tokens as [| t0 [| t1 [| t2 [| t3 [| t4 [| ]]]]]]; try done.
  intros H. parsed H. injection H as <-. cbn. ranges. lia.
Qed.

(** A data line leaves an entry or is malformed, and leaves the header alone. *)
Definition took (n : Z) (r r' : Reading) : Prop :=
  reading_ok r' /\ read_header r' = read_header r /\
  ((pending r' = pending r /\ read_malformed r' = read_malformed r ++ [n]) \/
   (read_malformed r' = read_malformed r /\ exists e, line_number e = n /\ pending r' = pending r ++ [e])).

Lemma bad_line_took n r : reading_ok r -> took n r (bad_line n r).
Proof. intros [H1 H2 H3 H4]. split; [by split |]. split; [done |]. by left. Qed.

Lemma push_strip_took p n r : reading_ok r -> strip_ok p -> took n r (push_strip p n r).
Proof.
  intros Hr [Hc Hrole]. unfold push_strip. destruct (get _ (strip_signal_ch p)) as [raw |] eqn:E; [| by apply bad_line_took].
  apply reorder_range in E as [E1 E2]. split; [| split; [done |]].
  - by apply (reading_push r (mkPending (strip_chip p) raw (Strip (strip_plane p) (strip_section p) (strip_strip p)) (Some (strip_shape p)) n)).
  - right. split; [done |]. eexists. by split; [| done].
Qed.

Lemma push_aux_took p n r : reading_ok r -> chip_ok (aux_chip p) -> took n r (push_aux p n r).
Proof.
  intros Hr Hc. unfold push_aux. destruct (get _ (aux_signal_ch p)) as [raw |] eqn:E; [| by apply bad_line_took].
  apply reorder_range in E as [E1 E2]. split; [| split; [done |]].
  - by apply (reading_push r (mkPending (aux_chip p) raw (Aux (aux_name p)) None n)).
  - right. split; [done |]. eexists. by split; [| done].
Qed.

Lemma take_tokens_took tokens n r : reading_ok r -> took n r (take_tokens tokens n r).
Proof.
  intros Hr. unfold take_tokens.
  destruct (length tokens) as [| [| [| [| [| [| [| [| [| [| [| ]]]]]]]]]]]; try by apply bad_line_took.
  - destruct (parse_aux_line tokens) as [p |] eqn:E; [| by apply bad_line_took]. apply push_aux_took; [done | by eapply aux_line_chip].
  - destruct (parse_legacy_strip_line tokens) as [p |] eqn:E; [| by apply bad_line_took]. apply push_strip_took; [done | by eapply legacy_strip_ok].
  - destruct (parse_new_strip_line tokens) as [p |] eqn:E; [| by apply bad_line_took]. apply push_strip_took; [done | by eapply new_strip_ok].
Qed.

(** Whether a line is a header does not depend on the headers before it. *)
Lemma header_line s h h' : try_parse_header_scalar s h = None -> try_parse_header_scalar s h' = None.
Proof. unfold try_parse_header_scalar. by repeat (destruct (strip_prefix _ s); [discriminate |]). Qed.

Lemma take_line_took n l r : reading_ok r ->
  if is_data l then took n r (take_line n l r)
  else reading_ok (take_line n l r) /\ pending (take_line n l r) = pending r /\ read_malformed (take_line n l r) = read_malformed r.
Proof.
  intros Hr. unfold is_data, take_line. destruct (bool_decide (trim l = EmptyString) || starts_with "#" (trim l)); [done |]. cbn [negb andb].
  destruct (try_parse_header_scalar (trim l) no_header) as [h |] eqn:E.
  - destruct (try_parse_header_scalar (trim l) (read_header r)) as [h' |] eqn:E'.
    + destruct Hr as [H1 H2 H3 H4]. by split; [split | split].
    + by rewrite (header_line _ _ _ E') in E.
  - rewrite (header_line _ _ (read_header r) E). by apply take_tokens_took.
Qed.

Lemma take_lines_account ls : forall n r, reading_ok r ->
  let r' := take_lines n ls r in
  reading_ok r' /\ map line_number (pending r') ++ read_malformed r' ≡ₚ (map line_number (pending r) ++ read_malformed r) ++ data_from n ls.
Proof.
  induction ls as [| l ls IH]; intros n r Hr; cbn [take_lines data_from]; [by rewrite app_nil_r |].
  pose proof (take_line_took n l r Hr) as Hl. destruct (is_data l).
  - destruct Hl as (H1 & _ & Hl). destruct (IH (n + 1) _ H1) as [H2 H3]. split; [done |]. cbv zeta in H3. rewrite H3.
    rewrite app_assoc. f_equiv. destruct Hl as [[-> ->] | (-> & e & <- & ->)]; [by rewrite app_assoc |].
    rewrite map_app. cbn [map]. rewrite <- !app_assoc. f_equiv. apply Permutation_app_comm.
  - destruct Hl as (H1 & Hp & Hm). destruct (IH (n + 1) _ H1) as [H2 H3]. split; [done |]. cbv zeta in H3. rewrite H3, Hp, Hm. done.
Qed.

Lemma read_text_account text :
  reading_ok (read_text text) /\ map line_number (pending (read_text text)) ++ read_malformed (read_text text) ≡ₚ data_lines text.
Proof.
  apply (take_lines_account (str_lines text) 1 (mkReading no_header [] [] [] [0; 0; 0])). split; cbn; try constructor. set_solver.
Qed.

(** *** The numbering of the boards *)

Lemma boards_nonneg cs c : Forall chip_ok cs -> 0 <= boards cs c.
Proof.
  induction 1 as [| [[cobo asad] aget] cs Hc _ IH]; cbn; [lia |]. destruct Hc as (_ & Ha & _). case_decide; lia.
Qed.

Lemma max_cobo_spec cs : match max_cobo cs with
                         | Some m => (exists asad aget, (m, asad, aget) ∈ cs) /\ forall cobo asad aget, (cobo, asad, aget) ∈ cs -> cobo <= m
                         | None => cs = []
                         end.
Proof.
  induction cs as [| [[cobo asad] aget] cs IH]; [done |]. cbn [max_cobo]. destruct (max_cobo cs) as [m |].
  - destruct IH as [(a & g & Hin) Hmax]. split.
    + destruct (Z.max_spec cobo m) as [[_ ->] | [_ ->]]; [exists a, g | exists asad, aget]; set_solver.
    + intros c' a' g' [[= -> -> ->] | Hin']%elem_of_cons; [lia | specialize (Hmax _ _ _ Hin'); lia].
  - subst. split; [exists asad, aget; set_solver |]. intros c' a' g' [[= -> -> ->] | Hin']%elem_of_cons; [lia | set_solver].
Qed.

Lemma in_crates cs cobo asad aget : Forall chip_ok cs -> (cobo, asad, aget) ∈ cs ->
  0 <= cobo < crates cs /\ 0 <= asad < boards cs cobo.
Proof.
  intros Hok Hin. pose proof (proj1 (list.Forall_forall _ _) Hok _ Hin) as (Hc & Ha & _). split.
  - pose proof (max_cobo_spec cs) as H. unfold crates. destruct (max_cobo cs) as [m |]; [| subst; set_solver].
    destruct H as [_ Hm]. specialize (Hm _ _ _ Hin). lia.
  - split; [lia |]. clear Hc Ha. induction Hok as [| [[c a] g] cs Hx Hok IH]; [set_solver |]. cbn [boards].
    apply elem_of_cons in Hin as [[= <- <- <-] | Hin]; [rewrite decide_True by done; lia |].
    specialize (IH Hin). case_decide; lia.
Qed.

(** The numbering depends on which chips there are only. *)
Lemma boards_le cs c m : 0 <= m -> (forall asad aget, (c, asad, aget) ∈ cs -> asad + 1 <= m) -> boards cs c <= m.
Proof.
  intros Hm. induction cs as [| [[cobo asad] aget] cs IH]; intros H; cbn [boards]; [done |].
  assert (IH' : boards cs c <= m) by (apply IH; intros a g Hin; apply (H a g); by right). case_decide; [| done].
  subst. specialize (H asad aget (list_elem_of_here _ _)). lia.
Qed.

Lemma crates_ext cs cs' : (forall c, c ∈ cs <-> c ∈ cs') -> crates cs = crates cs'.
Proof.
  intros Heq. pose proof (max_cobo_spec cs) as H. pose proof (max_cobo_spec cs') as H'. unfold crates.
  destruct (max_cobo cs) as [m |], (max_cobo cs') as [m' |]; [| | | done].
  - destruct H as [(a & g & Hin) Hm], H' as [(a' & g' & Hin') Hm']. apply Heq in Hin. apply Heq in Hin'. apply Hm' in Hin. apply Hm in Hin'. lia.
  - destruct H as [(a & g & Hin) _]. subst. apply Heq in Hin. by apply elem_of_nil in Hin.
  - destruct H' as [(a & g & Hin) _]. subst. apply Heq in Hin. by apply elem_of_nil in Hin.
Qed.

Lemma all_boards_ext cs cs' : Forall chip_ok cs -> (forall c, c ∈ cs <-> c ∈ cs') -> all_boards cs = all_boards cs'.
Proof.
  intros Hok Heq. assert (Hok' : Forall chip_ok cs').
  { apply list.Forall_forall. intros c Hc. apply (proj1 (list.Forall_forall _ _) Hok). by apply Heq. }
  unfold all_boards. rewrite (crates_ext cs cs' Heq). apply map_ext. intros c.
  assert (Hle : forall l l', Forall chip_ok l' -> (forall x, x ∈ l -> x ∈ l') -> boards l c <= boards l' c).
  { intros l l' Hl' Hsub. apply boards_le; [by apply boards_nonneg |]. intros a g Hin. destruct (in_crates l' c a g Hl' (Hsub _ Hin)) as [_ H]. lia. }
  apply Z.le_antisymm; apply Hle; try done; intros x Hx; by apply Heq.
Qed.

Lemma all_boards_perm cs cs' : cs ≡ₚ cs' -> Forall chip_ok cs -> all_boards cs = all_boards cs'.
Proof. intros Hp Hok. apply all_boards_ext; [done |]. intros c. by rewrite Hp. Qed.

Lemma all_boards_lookup cs i : (i < Z.to_nat (crates cs))%nat -> all_boards cs !! i = Some (boards cs (Z.of_nat i)).
Proof. intros Hi. unfold all_boards. rewrite list_lookup_fmap, lookup_seqZ_lt by lia. by rewrite Z.add_0_l. Qed.

Lemma len_all_boards cs : length (all_boards cs) = Z.to_nat (crates cs).
Proof. unfold all_boards. by rewrite length_map, length_seqZ. Qed.

Lemma tally_app l k : tally (l ++ k) = tally l + tally k.
Proof. unfold tally. induction l as [| x l IH]; cbn; lia. Qed.

Lemma tally_nonneg l : Forall (fun n => 0 <= n) l -> 0 <= tally l.
Proof. unfold tally. induction 1; cbn; lia. Qed.

Lemma tally_take_mono l n m : Forall (fun n => 0 <= n) l -> (n <= m)%nat -> tally (take n l) <= tally (take m l).
Proof.
  intros Hl Hnm. rewrite <- (take_drop n (take m l)), tally_app, take_take, Nat.min_l by lia.
  pose proof (tally_nonneg (drop n (take m l))). assert (0 <= tally (drop n (take m l))); [| lia].
  apply H. by apply Forall_drop, Forall_take.
Qed.

Lemma tally_take_S l i x : l !! i = Some x -> tally (take (S i) l) = tally (take i l) + x.
Proof. intros Hx. rewrite (take_S_r l i x Hx), tally_app. unfold tally at 2. cbn. lia. Qed.

Lemma elem_le_tally l i x : Forall (fun n => 0 <= n) l -> l !! i = Some x -> tally (take i l) + x <= tally l.
Proof.
  intros Hl Hx. rewrite <- (tally_take_S l i x Hx). rewrite <- (firstn_all l) at 2. apply tally_take_mono; [done |].
  apply lookup_lt_Some in Hx. lia.
Qed.

Lemma all_boards_nonneg cs : Forall chip_ok cs -> Forall (fun n => 0 <= n) (all_boards cs).
Proof. intros Hok. unfold all_boards. apply List.Forall_map, list.Forall_forall. intros c _. by apply boards_nonneg. Qed.

(** The counting loop arrives at the highest board of each crate. *)
Lemma count_asads_spec cs : forall counts,
  Forall (fun '(cobo, asad, _) => 0 <= cobo < len counts /\ 0 <= asad < 2 ^ 32 - 1) cs ->
  exists counts', count_asads cs counts = Val counts' /\ length counts' = length counts /\
    forall i n, counts !! i = Some n -> 0 <= n -> counts' !! i = Some (Z.max n (boards cs (Z.of_nat i))).
Proof.
  induction cs as [| [[cobo asad] aget] cs IH]; intros counts Hcs.
  { exists counts. split_and!; [done | done |]. intros i n Hi Hn. cbn. by rewrite Z.max_l. }
  apply List.Forall_cons_iff in Hcs as [[Hc Ha] Hcs]. cbn [count_asads].
  destruct (lookup_lt_is_Some_2 counts (Z.to_nat cobo)) as [count Hcount]; [unfold len in Hc; lia |].
  rewrite (index_val counts cobo count) by (done || lia). cbn [rust_bind]. rewrite wrap_small by (unfold in_width; lia).
  set (counts1 := if count <? asad + 1 then _ else counts).
  assert (H1 : len counts1 = len counts /\ forall i n, counts !! i = Some n ->
    counts1 !! i = Some (if decide (cobo = Z.of_nat i) then Z.max n (asad + 1) else n)).
  { unfold counts1. destruct (count <? asad + 1) eqn:E; (split; [unfold len; by rewrite ?length_insert |]); intros i n Hi.
    - case_decide.
      + subst. rewrite Nat2Z.id in *. rewrite list_lookup_insert_eq by (by eapply lookup_lt_Some). f_equal. replace n with count by congruence. lia.
      + rewrite list_lookup_insert_ne by lia. done.
    - rewrite Hi. f_equal. case_decide; [| done]. subst. rewrite Nat2Z.id in *. replace n with count by congruence. lia. }
  destruct H1 as [Hl H1]. clearbody counts1. destruct (IH counts1) as (counts' & E & Hl' & Hv).
  { eapply list.Forall_impl; [exact Hcs |]. intros [[c a] g]. by rewrite Hl. }
  exists counts'. split; [exact E |]. split; [unfold len in Hl; lia |]. intros i n Hi Hn.
  rewrite (Hv i _ (H1 i n Hi)) by (case_decide; lia). cbn [boards]. f_equal. case_decide; lia.
Qed.

Lemma offsets_from_spec counts : forall running, Forall (fun n => 0 <= n) counts -> 0 <= running -> running + tally counts < 2 ^ 32 ->
  exists offsets, offsets_from running counts = (offsets, running + tally counts) /\ length offsets = length counts /\
    forall i, (i < length counts)%nat -> offsets !! i = Some (running + tally (take i counts)).
Proof.
  induction counts as [| n counts IH]; intros running Hn Hr Hs; [exists []; cbn; rewrite Z.add_0_r; split_and!; [done | done | lia] |].
  apply List.Forall_cons_iff in Hn as [Hn Hns]. unfold tally in Hs. cbn [foldr] in Hs. fold (tally counts) in Hs.
  pose proof (tally_nonneg counts Hns) as Hpos. cbn [offsets_from]. rewrite wrap_small by (unfold in_width; lia).
  destruct (IH (running + n) Hns) as (offsets & E & Hl & Hv); [lia | lia |]. rewrite E. exists (running :: offsets).
  split_and!; [f_equal; unfold tally; cbn [foldr]; lia | cbn; lia |]. intros [| i] Hi; cbn [lookup list_lookup take].
  - unfold tally. cbn. f_equal. lia.
  - cbn in Hi. rewrite Hv by lia. unfold tally. cbn [foldr]. f_equal. lia.
Qed.

(** *** The place of a channel in the table *)

Definition in_table (counts : list Z) (k : Key) : bool :=
  let '((cobo, asad, aget), raw) := k in
  match get counts cobo with
  | Some count => (0 <=? asad) && (asad <? count) && (0 <=? aget) && (aget <? AGET_CHIPS_PER_ASAD) && (0 <=? raw) && (raw <? RAW_CH_PER_AGET)
  | None => false
  end.

Definition position (counts : list Z) (k : Key) : Z :=
  let '((cobo, asad, aget), raw) := k in
  ((tally (take (Z.to_nat cobo) counts) + asad) * AGET_CHIPS_PER_ASAD + aget) * RAW_CH_PER_AGET + raw.

Definition numbered (offsets counts : list Z) : Prop :=
  Forall (fun n => 0 <= n) counts /\ length offsets = length counts /\
  forall i, (i < length counts)%nat -> offsets !! i = Some (tally (take i counts)).

Lemma get_some {A : Type} (l : list A) i x : get l i = Some x <-> 0 <= i /\ l !! Z.to_nat i = Some x.
Proof. unfold get. destruct (0 <=? i) eqn:E; [|]; [split; [intros; split; [lia | done] | by intros [_ ->]] | split; [done | lia]]. Qed.

Lemma get_none {A : Type} (l : list A) i : 0 <= i -> get l i = None <-> len l <= i.
Proof. intros Hi. unfold get. rewrite (proj2 (Z.leb_le 0 i)) by lia. rewrite lookup_ge_None. unfold len. lia. Qed.

Lemma compute_index_val offsets counts cobo asad aget raw : numbered offsets counts ->
  0 <= cobo -> 0 <= asad -> 0 <= aget -> 0 <= raw ->
  compute_index offsets counts cobo asad aget raw =
    Val (if in_table counts (cobo, asad, aget, raw) then Some (position counts (cobo, asad, aget, raw)) else None).
Proof.
  intros (Hn & Hl & Ho) Hc Ha Hg Hr. unfold compute_index, in_table, position. destruct (len offsets <=? cobo) eqn:E.
  { rewrite (proj2 (get_none counts cobo Hc)) by (unfold len in *; lia). done. }
  destruct (lookup_lt_is_Some_2 counts (Z.to_nat cobo)) as [count Hcount]; [unfold len in E; lia |].
  rewrite (proj2 (get_some counts cobo count)) by done. rewrite (index_val counts cobo count) by (done || lia). cbn [rust_bind].
  rewrite (proj2 (Z.leb_le 0 asad)), (proj2 (Z.leb_le 0 aget)), (proj2 (Z.leb_le 0 raw)) by lia. cbn [andb]. rewrite !andb_true_r.
  destruct (count <=? asad) eqn:E1; [rewrite (proj2 (Z.ltb_ge asad count)) by lia; done |].
  rewrite (proj2 (Z.ltb_lt asad count)) by lia. cbn [andb].
  destruct (AGET_CHIPS_PER_ASAD <=? aget) eqn:E2; cbn [orb].
  { rewrite (proj2 (Z.ltb_ge aget AGET_CHIPS_PER_ASAD)) by lia. done. }
  rewrite (proj2 (Z.ltb_lt aget AGET_CHIPS_PER_ASAD)) by lia. cbn [andb].
  destruct (RAW_CH_PER_AGET <=? raw) eqn:E3.
  { rewrite (proj2 (Z.ltb_ge raw RAW_CH_PER_AGET)) by lia. done. }
  rewrite (proj2 (Z.ltb_lt raw RAW_CH_PER_AGET)) by lia.
  rewrite (index_val offsets cobo (tally (take (Z.to_nat cobo) counts))); [done | lia |].
  apply Ho. by eapply lookup_lt_Some.
Qed.

Lemma in_table_inv counts cobo asad aget raw : in_table counts (cobo, asad, aget, raw) = true ->
  exists n, 0 <= cobo /\ counts !! Z.to_nat cobo = Some n /\ 0 <= asad < n /\ 0 <= aget < 4 /\ 0 <= raw < 68.
Proof.
  unfold in_table. destruct (get counts cobo) as [n |] eqn:E; [| done]. intros H. apply get_some in E as [Hc Hn].
  rewrite !andb_true_iff in H. unfold AGET_CHIPS_PER_ASAD, RAW_CH_PER_AGET in H. exists n. split_and!; lia || done.
Qed.

(** The boards before board [asad] of crate [cobo]. *)
Lemma board_bound counts cobo asad n : Forall (fun n => 0 <= n) counts -> counts !! cobo = Some n -> 0 <= asad < n ->
  0 <= tally (take cobo counts) + asad < tally counts.
Proof.
  intros Hn Hc Ha. pose proof (elem_le_tally counts cobo n Hn Hc). pose proof (tally_nonneg (take cobo counts) (Forall_take _ _ _ Hn)). lia.
Qed.

Lemma board_lt counts c c' a n : Forall (fun n => 0 <= n) counts -> counts !! c = Some n -> 0 <= a < n -> (c < c')%nat ->
  tally (take c counts) + a < tally (take c' counts).
Proof.
  intros Hn Hc Ha Hlt. pose proof (tally_take_mono counts (S c) c' Hn ltac:(lia)) as H. rewrite (tally_take_S counts c n Hc) in H. lia.
Qed.

Lemma position_bound counts k : Forall (fun n => 0 <= n) counts -> in_table counts k = true ->
  0 <= position counts k < tally counts * AGET_CHIPS_PER_ASAD * RAW_CH_PER_AGET.
Proof.
  destruct k as [[[cobo asad] aget] raw]. intros Hn Hk. apply in_table_inv in Hk as (n & Hc & Hcount & Ha & Hg & Hr).
  pose proof (board_bound counts _ asad n Hn Hcount Ha). unfold position, AGET_CHIPS_PER_ASAD, RAW_CH_PER_AGET. lia.
Qed.

Lemma position_inj counts k k' : Forall (fun n => 0 <= n) counts -> in_table counts k = true -> in_table counts k' = true ->
  position counts k = position counts k' -> k = k'.
Proof.
  destruct k as [[[cobo asad] aget] raw], k' as [[[cobo' asad'] aget'] raw']. intros Hn Hk Hk' E.
  apply in_table_inv in Hk as (n & Hc & Hcount & Ha & Hg & Hr). apply in_table_inv in Hk' as (n' & Hc' & Hcount' & Ha' & Hg' & Hr').
  unfold position, AGET_CHIPS_PER_ASAD, RAW_CH_PER_AGET in E.
  assert (raw = raw' /\ aget = aget' /\ tally (take (Z.to_nat cobo) counts) + asad = tally (take (Z.to_nat cobo') counts) + asad') as (-> & -> & Eb) by lia.
  destruct (lt_eq_lt_dec (Z.to_nat cobo) (Z.to_nat cobo')) as [[Hlt | Heq] | Hlt].
  - pose proof (board_lt counts _ _ asad n Hn Hcount Ha Hlt). pose proof (tally_nonneg (take (Z.to_nat cobo) counts) (Forall_take _ _ _ Hn)). lia.
  - assert (cobo = cobo') as -> by lia. assert (asad = asad') as -> by lia. done.
  - pose proof (board_lt counts _ _ asad' n' Hn Hcount' Ha' Hlt). lia.
Qed.

(** What the table has for a channel. *)
Definition view (counts : list Z) (ch : list ChannelRole) (k : Key) : option ChannelRole := ch !! Z.to_nat (position counts k).

Lemma store_view counts ch k x : Forall (fun n => 0 <= n) counts -> len ch = tally counts * AGET_CHIPS_PER_ASAD * RAW_CH_PER_AGET ->
  in_table counts k = true ->
  exists ch', store (position counts k) x ch = Val ch' /\ len ch' = len ch /\
    forall k', in_table counts k' = true -> view counts ch' k' = if decide (k = k') then Some x else view counts ch k'.
Proof.
  intros Hn Hl Hk. pose proof (position_bound counts k Hn Hk) as Hb. unfold store.
  rewrite (proj2 (Z.leb_le 0 _)), (proj2 (Z.ltb_lt _ (len ch))) by lia. cbn [andb]. eexists. split; [done |].
  split; [unfold len; by rewrite length_insert |]. intros k' Hk'. unfold view. case_decide as E.
  - subst k'. rewrite list_lookup_insert_eq; [done | unfold len in Hl; lia].
  - rewrite list_lookup_insert_ne; [done |]. intros Heq. apply E, (position_inj counts k k' Hn Hk Hk').
    pose proof (position_bound counts k' Hn Hk'). lia.
Qed.

(** *** Filling the table *)

Lemma fpn_from_absent raws : forall i raw, raw ∉ raws -> fpn_from i raws raw = None.
Proof. induction raws as [| r raws IH]; intros i raw Hr; [done |]. apply not_elem_of_cons in Hr as [H1 H2]. cbn. rewrite decide_False by congruence. by apply IH. Qed.

(** *** The entries *)

Lemma first_role_app es es' k : first_role (es ++ es') k = if decide (k ∈ map entry_key es) then first_role es k else first_role es' k.
Proof.
  induction es as [| e es IH]; [by rewrite decide_False by set_solver |]. cbn [app first_role map].
  destruct (decide (entry_key e = k)) as [-> |].
  - by rewrite decide_True by set_solver.
  - rewrite IH. destruct (decide (k ∈ map entry_key es)); [by rewrite decide_True by set_solver | by rewrite decide_False by set_solver].
Qed.

Lemma first_role_mapped cs es k : Forall (entry_ok cs) es -> first_role es k = Unmapped <-> k ∉ map entry_key es.
Proof.
  induction 1 as [| e es He Hes IH]; [split; [set_solver | done] |]. cbn [first_role map]. rewrite not_elem_of_cons.
  destruct (decide (entry_key e = k)) as [Heq |].
  - split; [| by intros [[] _]]. intros Hu. destruct He as (_ & _ & _ & Hr). by rewrite Hu in Hr.
  - rewrite IH. split; [intros; split; [congruence | done] | by intros [_ ?]].
Qed.

Lemma seen_later e e' es seen :
  entry_key e' ∈ seen -> entry_key e ∈ map entry_key es ++ seen <-> entry_key e ∈ entry_key e' :: map entry_key es ++ seen.
Proof. intros Hs. rewrite elem_of_cons, !elem_of_app. split; [tauto |]. intros [-> |]; tauto. Qed.

Lemma seen_now e e' es seen :
  entry_key e ∈ map entry_key es ++ entry_key e' :: seen <-> entry_key e ∈ entry_key e' :: map entry_key es ++ seen.
Proof. rewrite elem_of_app, !elem_of_cons, elem_of_app. tauto. Qed.

Lemma firsts_snoc seen es e :
  firsts seen (es ++ [e]) = firsts seen es ++ (if decide (entry_key e ∈ map entry_key es ++ seen) then [] else [e]).
Proof.
  revert seen. induction es as [| e' es IH]; intros seen; cbn [app firsts map]; [by case_decide |].
  rewrite !IH. destruct (decide (entry_key e' ∈ seen)) as [Hs | Hs]; cbn [app].
  - by rewrite (decide_ext _ _ _ _ (seen_later e e' es seen Hs)).
  - by rewrite (decide_ext _ _ _ _ (seen_now e e' es seen)).
Qed.

Lemma repeats_snoc seen es e :
  repeats seen (es ++ [e]) = repeats seen es ++ (if decide (entry_key e ∈ map entry_key es ++ seen) then [e] else []).
Proof.
  revert seen. induction es as [| e' es IH]; intros seen; cbn [app repeats map]; [by case_decide |].
  rewrite !IH. destruct (decide (entry_key e' ∈ seen)) as [Hs | Hs]; cbn [app].
  - by rewrite (decide_ext _ _ _ _ (seen_later e e' es seen Hs)).
  - by rewrite (decide_ext _ _ _ _ (seen_now e e' es seen)).
Qed.

Lemma firsts_repeats seen es : firsts seen es ++ repeats seen es ≡ₚ es.
Proof.
  revert seen. induction es as [| e es IH]; intros seen; [done |]. cbn [firsts repeats]. case_decide.
  - rewrite <- Permutation_middle. f_equiv. apply IH.
  - cbn [app]. f_equiv. apply IH.
Qed.

Section Fill.
Context (offsets counts : list Z) (Hnum : numbered offsets counts).
Let cells := tally counts * AGET_CHIPS_PER_ASAD * RAW_CH_PER_AGET.

Lemma index_of_key cobo asad aget raw : in_table counts (cobo, asad, aget, raw) = true ->
  compute_index offsets counts cobo asad aget raw = Val (Some (position counts (cobo, asad, aget, raw))).
Proof.
  intros Hk. pose proof (in_table_inv _ _ _ _ _ Hk) as (n & Hc & Hcount & Ha & Hg & Hr).
  rewrite compute_index_val by (done || lia). by rewrite Hk.
Qed.

Lemma place_fpn_of_spec c raws : forall i ch, NoDup raws -> Forall (fun raw => in_table counts (c, raw) = true) raws -> len ch = cells ->
  exists ch', place_fpn_of offsets counts c i raws ch = Val ch' /\ len ch' = cells /\
    forall k, in_table counts k = true -> view counts ch' k =
      match (if decide (fst k = c) then fpn_from i raws (snd k) else None) with
      | Some j => Some (Fpn j)
      | None => view counts ch k
      end.
Proof.
  destruct c as [[cobo asad] aget]. induction raws as [| raw raws IH]; intros i ch Hnd Hin Hl; cbn [place_fpn_of].
  { exists ch. split_and!; [done | done |]. intros k _. by case_decide. }
  apply list.NoDup_cons in Hnd as [Hnot Hnd]. apply List.Forall_cons_iff in Hin as [Hk Hin].
  rewrite (index_of_key _ _ _ _ Hk). cbn [rust_bind].
  destruct (store_view counts ch _ (Fpn (i + 1)) (proj1 Hnum) Hl Hk) as (ch1 & -> & Hl1 & Hv1). cbn [rust_bind].
  destruct (IH (i + 1) ch1 Hnd Hin) as (ch' & E & Hl' & Hv); [by rewrite Hl1 |]. exists ch'. split_and!; [exact E | done |].
  intros k Hink. rewrite (Hv k Hink), (Hv1 k Hink). destruct k as [c raw']. cbn [fst snd fpn_from].
  destruct (decide (c = (cobo, asad, aget))) as [-> |].
  - destruct (decide (raw = raw')) as [-> |].
    + rewrite (fpn_from_absent raws) by done. by rewrite decide_True.
    + destruct (fpn_from (i + 1) raws raw'); [done |]. rewrite decide_False by congruence. done.
  - rewrite decide_False by congruence. done.
Qed.

Lemma place_fpn_spec cs : forall ch, Forall (fun c => forall raw, raw ∈ FPN_RAW_CHANNELS -> in_table counts (c, raw) = true) cs -> len ch = cells ->
  exists ch', place_fpn offsets counts cs ch = Val ch' /\ len ch' = cells /\
    forall k, in_table counts k = true -> view counts ch' k =
      match (if decide (fst k ∈ cs) then fpn_number (snd k) else None) with
      | Some j => Some (Fpn j)
      | None => view counts ch k
      end.
Proof.
  induction cs as [| c cs IH]; intros ch Hin Hl; cbn [place_fpn].
  { exists ch. split_and!; [done | done |]. intros k _. rewrite decide_False by set_solver. done. }
  apply List.Forall_cons_iff in Hin as [Hc Hin].
  destruct (place_fpn_of_spec c FPN_RAW_CHANNELS 0 ch) as (ch1 & -> & Hl1 & Hv1); [| | done |].
  { by apply (bool_decide_eq_true_1 _). }
  { apply list.Forall_forall. intros raw Hraw. by apply Hc. }
  cbn [rust_bind]. destruct (IH ch1 Hin Hl1) as (ch' & E & Hl' & Hv). exists ch'. split_and!; [exact E | done |].
  intros k Hk. rewrite (Hv k Hk), (Hv1 k Hk). destruct k as [c' raw]. cbn [fst snd]. fold (fpn_number raw).
  destruct (decide (c' ∈ cs)) as [Hcs | Hcs].
  - rewrite (decide_True (P := c' ∈ c :: cs)) by set_solver. destruct (fpn_number raw); [done | by case_decide].
  - destruct (decide (c' = c)) as [-> | Hne]; [by rewrite decide_True by set_solver |].
    by rewrite decide_False by set_solver.
Qed.

(** *** The places of the entries *)

(** The entries [es] are placed. *)
Definition placed (cs : list Chip) (m : list Z) (es : list PendingChannel) (p : Placed) : Prop :=
  len (roles p) = cells /\ (forall k, in_table counts k = true -> view counts (roles p) k = Some (role_at cs es k)) /\
  taken p = map duplicate_of (repeats [] es) /\ rows p = flat_map row_of (firsts [] es) /\ unplaced p = m.

Lemma place_entry_spec cs m es e p : Forall (entry_ok cs) (es ++ [e]) -> in_table counts (entry_key e) = true ->
  placed cs m es p -> exists p', place_entry offsets counts e p = Val p' /\ placed cs m (es ++ [e]) p'.
Proof.
  intros Hes Hk (Hl & Hv & Ht & Hr & Hu). apply List.Forall_app in Hes as [Hes He].
  apply List.Forall_cons_iff in He as [(Hchip & _ & Hfpn & Hrole) _].
  assert (Hat : role_at cs es (entry_key e) = first_role es (entry_key e)).
  { unfold role_at. cbn [entry_key fst snd]. rewrite Hfpn. by case_decide. }
  assert (Hafter : forall k, in_table counts k = true -> entry_key e <> k \/ entry_key e ∈ map entry_key es -> role_at cs (es ++ [e]) k = role_at cs es k).
  { intros k _ Hor. unfold role_at. rewrite first_role_app. cbn [first_role]. destruct (if decide (fst k ∈ cs) then _ else _); [done |].
    case_decide as Hin; [done |]. destruct (decide (entry_key e = k)) as [<- | Hne]; [by destruct Hor |].
    symmetry. by apply (first_role_mapped cs). }
  unfold place_entry. destruct (chip e) as [[cobo asad] aget] eqn:Echip. unfold entry_key in Hk. rewrite Echip in Hk.
  rewrite (index_of_key _ _ _ _ Hk). cbn [rust_bind].
  assert (Ekey : entry_key e = (cobo, asad, aget, raw_ch e)) by (unfold entry_key; by rewrite Echip).
  pose proof (position_bound counts _ (proj1 Hnum) Hk) as Hb.
  rewrite (index_val (roles p) _ (role_at cs es (entry_key e))); [| lia | rewrite Ekey; by apply Hv]. cbn [rust_bind].
  rewrite Hat. case_decide as Hd.
  - apply (first_role_mapped cs) in Hd; [| done].
    destruct (store_view counts (roles p) _ (role e) (proj1 Hnum) Hl Hk) as (ch' & -> & Hl' & Hv'). cbn [rust_bind].
    eexists. split; [done |]. unfold placed. cbn [roles taken rows unplaced].
    rewrite firsts_snoc, repeats_snoc, app_nil_r, !(decide_False (P := _ ∈ _)) by done.
    rewrite flat_map_app, app_nil_r, Ht, Hr. cbn [flat_map]. rewrite app_nil_r. split_and!; try done; [lia |].
    intros k Hin. rewrite (Hv' k Hin). case_decide as Ek.
    + subst k. f_equal. unfold role_at. rewrite <- Ekey. cbn [entry_key fst snd]. rewrite Hfpn.
      rewrite first_role_app, (decide_False (P := entry_key e ∈ _)) by done. cbn [first_role].
      rewrite (decide_True (P := entry_key e = _)) by done. by case_decide.
    + rewrite (Hv k Hin), Hafter; [done | done |]. left. congruence.
  - eexists. split; [done |]. unfold placed. cbn [roles taken rows unplaced].
    assert (Hin : entry_key e ∈ map entry_key es) by (destruct (decide (entry_key e ∈ map entry_key es)); [done |]; exfalso; by apply Hd, (first_role_mapped cs)).
    rewrite firsts_snoc, repeats_snoc, app_nil_r, !(decide_True (P := _ ∈ _)) by done.
    rewrite map_app, app_nil_r, Ht, Hr. split_and!; try done. intros k Hink. rewrite (Hv k Hink), Hafter; [done | done | by right].
Qed.

Lemma place_entries_spec cs m es' : forall es p, Forall (entry_ok cs) (es ++ es') ->
  Forall (fun e => in_table counts (entry_key e) = true) es' -> placed cs m es p ->
  exists p', place_entries offsets counts es' p = Val p' /\ placed cs m (es ++ es') p'.
Proof.
  induction es' as [| e es' IH]; intros es p Hes Hin Hp; cbn [place_entries].
  { exists p. by rewrite app_nil_r. }
  apply List.Forall_cons_iff in Hin as [He Hin]. replace (es ++ e :: es') with ((es ++ [e]) ++ es') in * by (by rewrite <- app_assoc).
  pose proof (proj1 (proj1 (List.Forall_app _ _ _) Hes)) as Hes1.
  destruct (place_entry_spec cs m es e p Hes1 He Hp) as (p1 & -> & Hp1). cbn [rust_bind]. by apply IH.
Qed.
End Fill.

(** *** The whole table *)

Lemma lookup_repeat {A : Type} (x : A) n i : (i < n)%nat -> repeat x n !! i = Some x.
Proof. revert i. induction n as [| n IH]; intros [| i] Hi; cbn; [lia | lia | done | apply IH; lia]. Qed.

Section Table.
Context (order : list Chip -> list Chip) (order_perm : forall cs, order cs ≡ₚ cs).

(** What a table is that was made of what was read. *)
Record table_of (r : Reading) (g : Geometry) : Prop := {
  table_counts : asad_count g = all_boards (active_agets r);
  table_offsets : numbered (asad_offset g) (asad_count g);
  table_cells : len (channels g) = tally (asad_count g) * AGET_CHIPS_PER_ASAD * RAW_CH_PER_AGET;
  table_roles : forall k, in_table (asad_count g) k = true -> view (asad_count g) (channels g) k = Some (role_at (active_agets r) (pending r) k);
  table_taken : duplicates g = map duplicate_of (repeats [] (pending r));
  table_rows : strip_rows g = flat_map row_of (firsts [] (pending r));
  table_malformed : malformed g = read_malformed r;
  table_header : header g = read_header r /\ max_strip g = read_max_strip r;
}.

Lemma role_at_perm cs cs' es k : cs ≡ₚ cs' -> role_at cs es k = role_at cs' es k.
Proof. intros Hp. unfold role_at. by rewrite (decide_ext (fst k ∈ cs) (fst k ∈ cs')) by (by rewrite Hp). Qed.

Lemma chip_in_table cs c raw : Forall chip_ok cs -> c ∈ cs -> 0 <= raw < RAW_CH_PER_AGET -> in_table (all_boards cs) (c, raw) = true.
Proof.
  destruct c as [[cobo asad] aget]. intros Hok Hin Hraw. destruct (in_crates cs cobo asad aget Hok Hin) as [H1 H2].
  pose proof (proj1 (list.Forall_forall _ _) Hok _ Hin) as (_ & _ & H3). unfold in_table.
  rewrite (proj2 (get_some (all_boards cs) cobo (boards cs cobo))).
  - rewrite !andb_true_iff. lia.
  - split; [lia |]. rewrite all_boards_lookup by lia. f_equal. by rewrite Z2Nat.id by lia.
Qed.

Lemma fpn_in_range raw : raw ∈ FPN_RAW_CHANNELS -> 0 <= raw < RAW_CH_PER_AGET.
Proof. unfold FPN_RAW_CHANNELS, RAW_CH_PER_AGET. rewrite !elem_of_cons, elem_of_nil. lia. Qed.

Lemma fpn_number_range raw j : fpn_number raw = Some j -> 0 <= raw < RAW_CH_PER_AGET.
Proof.
  intros E. apply fpn_in_range. unfold fpn_number in E. destruct (decide (raw ∈ FPN_RAW_CHANNELS)); [done |].
  by rewrite fpn_from_absent in E.
Qed.

Lemma count_asads_all cs cs' : cs' ≡ₚ cs -> Forall chip_ok cs -> table_fits cs ->
  count_asads cs' (repeat 0 (Z.to_nat (crates cs'))) = Val (all_boards cs).
Proof.
  intros Hp Hok Hfits. rewrite (all_boards_perm cs cs') by done.
  destruct (count_asads_spec cs' (repeat 0 (Z.to_nat (crates cs')))) as (counts & E & Hl & Hv).
  - apply list.Forall_forall. intros [[cobo asad] aget] Hin. rewrite Hp in Hin.
    destruct (in_crates cs cobo asad aget Hok Hin) as [H1 H2]. rewrite (crates_ext cs' cs) by (intros c; by rewrite Hp). unfold len. rewrite repeat_length.
    split; [lia |]. unfold table_fits in Hfits.
    pose proof (elem_le_tally (all_boards cs) (Z.to_nat cobo) (boards cs cobo) (all_boards_nonneg cs Hok)) as Hle.
    rewrite all_boards_lookup, Z2Nat.id in Hle by lia. specialize (Hle eq_refl).
    pose proof (tally_nonneg (take (Z.to_nat cobo) (all_boards cs)) (Forall_take _ _ _ (all_boards_nonneg cs Hok))). lia.
  - rewrite E. f_equal. rewrite repeat_length in Hl. apply list_eq. intros i.
    destruct (decide (i < Z.to_nat (crates cs'))%nat) as [Hi | Hi].
    + rewrite all_boards_lookup by done. rewrite (Hv i 0) by (lia || by apply lookup_repeat).
      f_equal. apply Z.max_r, boards_nonneg. by rewrite Hp.
    + by rewrite !lookup_ge_None_2 by (rewrite ?len_all_boards; lia).
Qed.

Lemma build_table r : reading_ok r -> table_fits (active_agets r) ->
  exists g, build_geometry order r = Val g /\ table_of r g.
Proof.
  intros [Hok Hnd Hused Hes] Hfits. set (cs := active_agets r) in *. pose proof (all_boards_nonneg cs Hok) as Hnn.
  unfold build_geometry. fold cs. rewrite (count_asads_all cs (order cs)) by (done || apply order_perm). cbn [rust_bind].
  destruct (offsets_from_spec (all_boards cs) 0 Hnn ltac:(lia) Hfits) as (offsets & -> & Hl & Ho). rewrite Z.add_0_l.
  assert (Hnum : numbered offsets (all_boards cs)) by (split_and!; [done | done | intros i Hi; by rewrite Ho]).
  pose proof (tally_nonneg _ Hnn) as Hpos. set (ch0 := repeat Unmapped _).
  assert (Hl0 : len ch0 = tally (all_boards cs) * AGET_CHIPS_PER_ASAD * RAW_CH_PER_AGET).
  { unfold len, ch0. rewrite repeat_length. unfold AGET_CHIPS_PER_ASAD, RAW_CH_PER_AGET. lia. }
  destruct (place_fpn_spec offsets (all_boards cs) Hnum (order cs) ch0) as (ch1 & -> & Hl1 & Hv1); [| done |].
  { apply list.Forall_forall. intros c Hc raw Hraw. rewrite (order_perm cs) in Hc. by apply chip_in_table, fpn_in_range. }
  cbn [rust_bind].
  destruct (place_entries_spec offsets (all_boards cs) Hnum cs (read_malformed r) (pending r) [] (mkPlaced ch1 [] [] (read_malformed r)))
    as (p & -> & Hp & Hroles & Ht & Hr & Hu); [done | | |].
  - eapply list.Forall_impl; [exact Hes |]. intros e (He1 & He2 & _). by apply chip_in_table.
  - split_and!; [done | | done | done | done]. intros k Hk. cbn [roles]. rewrite (Hv1 k Hk).
    rewrite (role_at_perm cs (order cs)) by (symmetry; apply order_perm). unfold role_at. destruct (if decide _ then _ else _); [done |].
    unfold view, ch0. pose proof (position_bound _ k Hnn Hk) as Hb. apply lookup_repeat.
    unfold AGET_CHIPS_PER_ASAD, RAW_CH_PER_AGET in *. lia.
  - cbn [rust_bind]. eexists. split; [done |]. cbn [app] in *. by split.
Qed.

(** Outside of the table there is nothing. *)
Lemma role_outside r k : reading_ok r -> in_table (all_boards (active_agets r)) k = false -> role_at (active_agets r) (pending r) k = Unmapped.
Proof.
  intros [Hok Hnd Hused Hes] Hk. destruct k as [c raw].
  assert (Hno : c ∈ active_agets r -> 0 <= raw < RAW_CH_PER_AGET -> False) by (intros Hin Hraw; by rewrite (chip_in_table _ c raw Hok Hin Hraw) in Hk).
  assert (Hfirst : first_role (pending r) (c, raw) = Unmapped).
  { apply (first_role_mapped (active_agets r)); [done |]. intros (e & Heq & He)%list_elem_of_fmap. injection Heq as -> ->.
    pose proof (proj1 (list.Forall_forall _ _) Hes e He) as (H1 & H2 & _). by apply Hno. }
  unfold role_at. cbn [fst snd]. case_decide as Hin; [| done]. destruct (fpn_number raw) as [j |] eqn:E; [| done].
  exfalso. by apply (Hno Hin), (fpn_number_range raw j).
Qed.

Lemma lookup_table r g cobo asad aget raw : reading_ok r -> table_of r g -> 0 <= cobo -> 0 <= asad -> 0 <= aget -> 0 <= raw ->
  lookup_ref cobo asad aget raw g =
    Val (role_at (active_agets r) (pending r) (cobo, asad, aget, raw),
         if decide (role_at (active_agets r) (pending r) (cobo, asad, aget, raw) = Unmapped) then count_hit g else g).
Proof.
  intros Hr [Hc Ho Hcells Hv _ _ _ _] H1 H2 H3 H4. unfold lookup_ref, index_of. rewrite compute_index_val by done. cbn [rust_bind].
  set (k := (cobo, asad, aget, raw)) in *. destruct (in_table (asad_count g) k) eqn:E.
  - pose proof (position_bound _ k (proj1 Ho) E) as Hb. rewrite (index_val _ _ _ (proj1 Hb) (Hv k E)). done.
  - rewrite Hc in E. rewrite (role_outside r k Hr E). by rewrite decide_True.
Qed.

Lemma role_at_strip r k plane section strip : reading_ok r ->
  role_at (active_agets r) (pending r) k = Strip plane section strip -> 0 <= strip < 2 ^ 16.
Proof.
  intros Hr. unfold role_at. destruct (if decide _ then _ else _); [done |].
  pose proof (ok_entries r Hr) as Hes. induction Hes as [| e es He _ IH]; cbn [first_role]; [done |].
  case_decide; [| done]. intros E. destruct He as (_ & _ & _ & Hrole). rewrite E in Hrole. apply Hrole.
Qed.

(** A lookup that finds nothing is counted, and the table is the same. *)
Lemma count_hit_table r g : table_of r g -> table_of r (count_hit g).
Proof. by intros [H1 H2 H3 H4 H5 H6 H7 H8]. Qed.

Lemma inventory_spec r g : reading_ok r -> table_of r g ->
  asad_inventory g = flat_map (fun cobo => map (pair cobo) (seqZ 0 (boards (active_agets r) cobo))) (seqZ 0 (crates (active_agets r))).
Proof.
  intros [Hok _ _ _] [Hc _ _ _ _ _ _ _]. unfold asad_inventory. rewrite Hc. unfold all_boards.
  assert (Hm : forall c, c ∈ seqZ 0 (crates (active_agets r)) -> 0 <= c < 2 ^ 32).
  { intros c Hin%elem_of_seqZ. pose proof (max_cobo_spec (active_agets r)) as H. unfold crates in Hin.
    destruct (max_cobo (active_agets r)) as [m |]; [| lia]. destruct H as [(a & g' & Hm) _].
    pose proof (proj1 (list.Forall_forall _ _) Hok _ Hm) as (Hb & _). lia. }
  revert Hm. generalize (crates (active_agets r)) as n. intros n. unfold seqZ.
  assert (H : forall len i, (forall c, c ∈ map (fun j => Z.of_nat j + 0) (seq i len) -> 0 <= c < 2 ^ 32) ->
    inventory_from (Z.of_nat i) (map (boards (active_agets r)) (map (fun j => Z.of_nat j + 0) (seq i len))) =
    flat_map (fun cobo => map (pair cobo) (seqZ 0 (boards (active_agets r) cobo))) (map (fun j => Z.of_nat j + 0) (seq i len))).
  { induction len as [| len IH]; intros i Hi; cbn [seq map inventory_from flat_map]; [done |].
    cbn [seq map] in Hi. rewrite Z.add_0_r in *. f_equal.
    - apply map_ext. intros a. f_equal. apply wrap_small. apply Hi. left.
    - replace (Z.of_nat i + 1) with (Z.of_nat (S i)) by lia. apply IH. intros c Hc'. apply Hi. by right. }
  intros Hm. exact (H (Z.to_nat n) O Hm).
Qed.

(** *** The dump *)

Definition join (l : list string) : string := String.concat EmptyString l.

Lemma dump_each_val f h l : (forall x, x ∈ l -> f x = Val (h x)) -> dump_each f l = Val (join (map h l)).
Proof.
  induction l as [| x l IH]; intros Hf; cbn [dump_each map]; [done |].
  rewrite (Hf x (list_elem_of_here _ _)). cbn [rust_bind]. rewrite IH by (intros y Hy; apply Hf; by right). cbn [rust_bind]. f_equal.
  unfold join. cbn [String.concat]. destruct (map h l) as [| s ss]; [cbn; induction (h x) as [| c t IHt]; [done | by rewrite append_cons, IHt] | done].
Qed.

Lemma dump_spec r g : reading_ok r -> table_of r g ->
  dump_tsv g = Val (join (map (fun cobo => join (map (fun asad => join (map (fun aget => join (map (fun raw =>
    dump_line cobo asad aget raw (role_at (active_agets r) (pending r) (cobo, asad, aget, raw)))
    (seqZ 0 RAW_CH_PER_AGET))) (seqZ 0 AGET_CHIPS_PER_ASAD))) (seqZ 0 (boards (active_agets r) cobo)))) (seqZ 0 (crates (active_agets r))))).
Proof.
  intros Hr [Hc Ho Hcells Hv _ _ _ _]. pose proof (ok_chips r Hr) as Hok. unfold dump_tsv.
  assert (Hlen : len (asad_offset g) = crates (active_agets r)).
  { unfold len. rewrite (proj1 (proj2 Ho)), Hc, len_all_boards. unfold crates.
    pose proof (max_cobo_spec (active_agets r)) as H. destruct (max_cobo (active_agets r)) as [m |]; [| done].
    destruct H as [(a & g' & Hm) _]. pose proof (proj1 (list.Forall_forall _ _) Hok _ Hm) as (Hb & _). lia. }
  assert (Hcr : crates (active_agets r) <= 2 ^ 32).
  { unfold crates. pose proof (max_cobo_spec (active_agets r)) as H. destruct (max_cobo (active_agets r)) as [m |]; [| lia].
    destruct H as [(a & g' & Hm) _]. pose proof (proj1 (list.Forall_forall _ _) Hok _ Hm) as (Hb & _). lia. }
  rewrite Hlen. apply dump_each_val. intros cobo Hcobo%elem_of_seqZ.
  assert (Hb : asad_count g !! Z.to_nat cobo = Some (boards (active_agets r) cobo)) by (rewrite Hc, all_boards_lookup by lia; by rewrite Z2Nat.id by lia).
  rewrite (index_val _ cobo _ (proj1 Hcobo) Hb). cbn [rust_bind].
  apply dump_each_val. intros asad Hasad%elem_of_seqZ. apply dump_each_val. intros aget Haget%elem_of_seqZ.
  apply dump_each_val. intros raw Hraw%elem_of_seqZ. unfold dump_channel. rewrite wrap_small by (unfold in_width; lia).
  assert (Hk : in_table (asad_count g) (cobo, asad, aget, raw) = true).
  { unfold in_table. rewrite (proj2 (get_some _ _ _) (conj (proj1 Hcobo) Hb)). rewrite !andb_true_iff. lia. }
  rewrite (index_of_key _ _ Ho _ _ _ _ Hk). cbn [rust_bind]. pose proof (position_bound _ _ (proj1 Ho) Hk) as Hp.
  by rewrite (index_val _ _ _ (proj1 Hp) (Hv _ Hk)).
Qed.
End Table.

(** ** A file that was written by the book *)

(** A strip line of ten columns; the shape as it is written. *)
Record WrittenRow : Type := mkWritten {
  w_plane : Plane;
  w_section : Z;
  w_strip : Z;
  w_chip : Chip;
  w_signal : Z;
  w_off_pad : string;
  w_off_strip : string;
  w_len_pads : string;
}.

Definition row_words (w : WrittenRow) : list string :=
  let '(cobo, asad, aget) := w_chip w in
  [plane_text (w_plane w); dec (w_section w); dec (w_strip w); dec cobo; dec asad; dec aget; dec (w_signal w);
   w_off_pad w; w_off_strip w; w_len_pads w].
Definition row_text (w : WrittenRow) : string := String.concat tab (row_words w).
Fixpoint table_text (ws : list WrittenRow) : string :=
  match ws with
  | [] => EmptyString
  | w :: ws => row_text w +:+ newline +:+ table_text ws
  end.

Definition a_number (s : string) : Prop := word s /\ is_Some (parse_f64 s).
Definition written (w : WrittenRow) : Prop :=
  chip_ok (w_chip w) /\ 0 <= w_section w < 2 ^ 8 /\ 0 <= w_strip w < 2 ^ 16 /\ 0 <= w_signal w < SIGNAL_CH_PER_AGET /\
  a_number (w_off_pad w) /\ a_number (w_off_strip w) /\ a_number (w_len_pads w).

Definition w_raw (w : WrittenRow) : Z := default 0 (get REORDER_FROM_GEOMETRY_TO_GRAW (w_signal w)).
Definition number_in (s : string) : f64 := default (f64_of_Z 0) (parse_f64 s).
Definition w_entry (n : Z) (w : WrittenRow) : PendingChannel :=
  mkPending (w_chip w) (w_raw w) (Strip (w_plane w) (w_section w) (w_strip w))
    (Some (number_in (w_off_pad w), number_in (w_off_strip w), number_in (w_len_pads w))) n.
Fixpoint w_entries (n : Z) (ws : list WrittenRow) : list PendingChannel :=
  match ws with
  | [] => []
  | w :: ws => w_entry n w :: w_entries (n + 1) ws
  end.

Lemma number_read s : a_number s -> parse_f64 s = Some (number_in s).
Proof. intros [_ [x Hx]]. unfold number_in. by rewrite Hx. Qed.

Lemma dec_word n : 0 <= n -> word (dec n).
Proof.
  intros Hn. split.
  - intros E. assert (Hv := dec_val n). rewrite E in Hv. cbn in Hv. assert (n = 0) as -> by lia. by vm_compute in E.
  - eapply list.Forall_impl; [exact (text_bytes_digits _ (dec_digits n)) |]. cbn. lia.
Qed.

Lemma row_words_words w : written w -> Forall word (row_words w).
Proof.
  intros (Hc & Hs & Ht & Hg & H1 & H2 & H3). unfold row_words. destruct (w_chip w) as [[cobo asad] aget]. destruct Hc as (Hc1 & Hc2 & Hc3).
  repeat (apply list.Forall_cons_2); try apply list.Forall_nil_2; try (apply dec_word; lia); try apply H1; try apply H2; try apply H3.
  split; [by destruct (w_plane w) |]. by destruct (w_plane w); repeat constructor.
Qed.

Lemma word_last s : word s -> exists l b, text_bytes s = l ++ [b] /\ 33 <= b < 127.
Proof.
  intros [Hne Hw]. destruct (text_bytes s) as [| b l _] eqn:E using rev_ind; [by destruct s |].
  exists l, b. split; [done |]. apply List.Forall_app in Hw as [_ Hw]. by apply List.Forall_cons_iff in Hw as [? _].
Qed.

Lemma concat_last sep ws w : exists l, text_bytes (String.concat sep (ws ++ [w])) = l ++ text_bytes w.
Proof.
  induction ws as [| x ws [l IH]]; [by exists [] |]. destruct (ws ++ [w]) as [| y ys] eqn:E; [by destruct ws |].
  change (String.concat sep ((x :: ws) ++ [w])) with (String.concat sep (x :: (ws ++ [w]))). rewrite E.
  change (String.concat sep (x :: y :: ys)) with (x +:+ sep +:+ String.concat sep (y :: ys)).
  rewrite !text_bytes_app, IH. exists (text_bytes x ++ text_bytes sep ++ l). by rewrite <- !app_assoc.
Qed.

(** A row begins with the letter of its plane and a tab, and ends with a printable character. *)
Lemma row_begins w : exists rest, row_text w = plane_text (w_plane w) +:+ tab +:+ rest.
Proof. unfold row_text, row_words. destruct (w_chip w) as [[cobo asad] aget]. eexists. reflexivity. Qed.

Lemma row_ends w : written w -> exists l b, text_bytes (row_text w) = l ++ [b] /\ 33 <= b < 127.
Proof.
  intros (_ & _ & _ & _ & _ & _ & [H3 _]). unfold row_text. destruct (word_last _ H3) as (l & b & E & Hb).
  assert (Hr : exists ws, row_words w = ws ++ [w_len_pads w]).
  { unfold row_words. destruct (w_chip w) as [[cobo asad] aget]. by eexists [_; _; _; _; _; _; _; _; _]. }
  destruct Hr as [ws ->]. destruct (concat_last tab ws (w_len_pads w)) as [l' ->]. exists (l' ++ l), b.
  by rewrite E, app_assoc.
Qed.

Lemma row_trimmed w : written w -> trim (row_text w) = row_text w.
Proof.
  intros Hw. destruct (row_begins w) as [rest E]. destruct (row_ends w Hw) as (l & b & E' & Hb).
  assert (Hp : exists b0 l0, text_bytes (row_text w) = b0 :: l0 /\ 33 <= b0 < 127).
  { rewrite E, text_bytes_app. destruct (w_plane w); by eexists _, _. }
  destruct Hp as (b0 & l0 & E0 & Hb0). by apply (trim_tidy _ b0 l0 b l).
Qed.

Lemma signal_raw w : written w -> get REORDER_FROM_GEOMETRY_TO_GRAW (w_signal w) = Some (w_raw w).
Proof.
  intros (_ & _ & _ & Hg & _). unfold w_raw. destruct (get REORDER_FROM_GEOMETRY_TO_GRAW (w_signal w)) eqn:E; [done |].
  apply get_none in E; [| lia]. rewrite (proj2 reorder_skips_fpn) in E. lia.
Qed.

Lemma take_row n w r : written w ->
  take_line n (row_text w) r =
    push_strip (mkParsedStrip (w_chip w) (w_plane w) (w_section w) (w_strip w) (w_signal w)
                  (number_in (w_off_pad w), number_in (w_off_strip w), number_in (w_len_pads w))) n r.
Proof.
  intros Hw. unfold take_line. rewrite (row_trimmed w Hw).
  assert (Hhead : bool_decide (row_text w = EmptyString) || starts_with "#" (row_text w) = false /\
                  try_parse_header_scalar (row_text w) (read_header r) = None).
  { destruct (row_begins w) as [rest ->]. destruct (w_plane w); split; reflexivity. }
  destruct Hhead as [-> ->]. unfold row_text. rewrite split_whitespace_words by (by apply row_words_words).
  destruct Hw as (Hc & Hs & Ht & Hg & H1 & H2 & H3). unfold row_words, take_tokens. destruct (w_chip w) as [[cobo asad] aget].
  destruct Hc as (Hc1 & Hc2 & Hc3). cbn [length]. unfold parse_new_strip_line.
  assert (Hplane : plane_parse (plane_text (w_plane w)) = Some (w_plane w)) by (by destruct (w_plane w)).
  unfold u8_of, u16_of, u32_of. unfold AGET_CHIPS_PER_ASAD, SIGNAL_CH_PER_AGET in *.
  rewrite Hplane, !parse_uint_dec, !number_read by (done || lia). cbn [mbind option_bind].
  by rewrite (proj2 (Z.leb_gt 4 aget)) by lia.
Qed.

Lemma concat_in (sep : string) ws b : b ∈ text_bytes (String.concat sep ws) -> b ∈ text_bytes sep \/ exists w, w ∈ ws /\ b ∈ text_bytes w.
Proof.
  induction ws as [| x ws IH]; [intros H; by apply elem_of_nil in H |]. destruct ws as [| y ws].
  - intros H. right. exists x. split; [left | done].
  - change (String.concat sep (x :: y :: ws)) with (x +:+ sep +:+ String.concat sep (y :: ws)). rewrite !text_bytes_app, !elem_of_app.
    intros [H | [H | H]]; [right; exists x; split; [left | done] | by left |].
    destruct (IH H) as [H' | (w & Hw & H')]; [by left | right; exists w; split; [by right | done]].
Qed.

Lemma row_one_line w : written w -> 10 ∉ text_bytes (row_text w).
Proof.
  intros Hw H. apply concat_in in H as [H | (s & Hs & H)].
  - change (text_bytes tab) with [9] in H. apply list_elem_of_singleton in H. discriminate H.
  - pose proof (proj1 (list.Forall_forall _ _) (row_words_words w Hw) s Hs) as [_ Hp].
    pose proof (proj1 (list.Forall_forall _ _) Hp _ H) as Hb. cbn in Hb. lia.
Qed.

Lemma table_lines ws : Forall written ws -> str_lines (table_text ws) = map row_text ws.
Proof.
  intros Hws. unfold str_lines, lines. induction Hws as [| w ws Hw _ IH]; [done |]. cbn [table_text map].
  rewrite !text_bytes_app. change (text_bytes newline) with [10]. cbn [app].
  rewrite lines_loop_line by (by apply row_one_line). cbn [map app]. rewrite IH. f_equal.
  rewrite strip_cr_text; [apply bytes_text_bytes |]. destruct (row_ends w Hw) as (l & b & -> & Hb). rewrite last_snoc. intros [= ->]. lia.
Qed.

Lemma take_rows ws : forall n r, Forall written ws ->
  let r' := take_lines n (map row_text ws) r in
  pending r' = pending r ++ w_entries n ws /\ read_malformed r' = read_malformed r /\
  (forall c, c ∈ active_agets r' <-> c ∈ active_agets r \/ c ∈ map w_chip ws).
Proof.
  induction ws as [| w ws IH]; intros n r Hws; cbn [map take_lines w_entries].
  { cbn. rewrite app_nil_r. split_and!; [done | done |]. intros c. rewrite elem_of_nil. tauto. }
  apply List.Forall_cons_iff in Hws as [Hw Hws]. rewrite (take_row n w r Hw). unfold push_strip. cbn [strip_signal_ch].
  rewrite (signal_raw w Hw). set (r1 := update pending _ _).
  assert (H1 : pending r1 = pending r ++ [w_entry n w] /\ read_malformed r1 = read_malformed r /\ active_agets r1 = chip_insert (w_chip w) (active_agets r)) by done.
  destruct H1 as (H1 & H2 & H3). clearbody r1. destruct (IH (n + 1) r1 Hws) as (H4 & H5 & H6). cbv zeta in *.
  rewrite H4, H5, H1, H2, <- app_assoc. split_and!; [done | done |]. intros c. rewrite H6, H3, chip_insert_elem, elem_of_cons. tauto.
Qed.

Lemma read_table ws : Forall written ws ->
  pending (read_text (table_text ws)) = w_entries 1 ws /\ read_malformed (read_text (table_text ws)) = [] /\
  (forall c, c ∈ active_agets (read_text (table_text ws)) <-> c ∈ map w_chip ws).
Proof.
  intros Hws. unfold read_text. rewrite (table_lines ws Hws).
  destruct (take_rows ws 1 (mkReading no_header [] [] [] [0; 0; 0]) Hws) as (H1 & H2 & H3). split_and!; [done | done |].
  intros c. rewrite H3. cbn. rewrite elem_of_nil. tauto.
Qed.

(** Different signals of a chip are different channels. *)
Lemma raw_inj w w' : written w -> written w' -> w_raw w = w_raw w' -> w_signal w = w_signal w'.
Proof.
  intros Hw Hw' E. pose proof (signal_raw w Hw) as H. pose proof (signal_raw w' Hw') as H'. rewrite <- E in H'.
  apply get_some in H as [Hp H]. apply get_some in H' as [Hp' H'].
  assert (Hnd : NoDup REORDER_FROM_GEOMETRY_TO_GRAW) by (by apply (bool_decide_eq_true_1 _)).
  pose proof (proj1 (NoDup_alt _) Hnd _ _ _ H H'). lia.
Qed.

(** What is in the table is what the table says. *)
Lemma firsts_first seen es e : e ∈ firsts seen es -> entry_key e ∉ seen /\ first_role es (entry_key e) = role e.
Proof.
  revert seen. induction es as [| e' es IH]; intros seen; cbn [firsts first_role]; [intros H; by apply elem_of_nil in H |].
  case_decide as Hs.
  - intros H. destruct (IH seen H) as [H1 H2]. rewrite decide_False by congruence. done.
  - intros [-> | H]%elem_of_cons; [by rewrite decide_True |].
    destruct (IH _ H) as [H1 H2]. apply not_elem_of_cons in H1 as [H1 H1']. by rewrite decide_False by congruence.
Qed.

Lemma firsts_role r e : reading_ok r -> e ∈ firsts [] (pending r) -> role_at (active_agets r) (pending r) (entry_key e) = role e.
Proof.
  intros Hr He. destruct (firsts_first _ _ _ He) as [_ Hf].
  assert (Hin : e ∈ pending r) by (rewrite <- (firsts_repeats [] (pending r)); apply elem_of_app; by left).
  pose proof (proj1 (list.Forall_forall _ _) (ok_entries r Hr) e Hin) as (_ & _ & Hfpn & _).
  unfold role_at. rewrite Hf. cbn [entry_key fst snd]. rewrite Hfpn. by case_decide.
Qed.

Definition same_channel (w w' : WrittenRow) : Prop := w_chip w = w_chip w' /\ w_signal w = w_signal w'.

Lemma first_written ws : forall n i w, Forall written ws -> ws !! i = Some w ->
  (forall j w', (j < i)%nat -> ws !! j = Some w' -> ~ same_channel w' w) ->
  first_role (w_entries n ws) (w_chip w, w_raw w) = Strip (w_plane w) (w_section w) (w_strip w).
Proof.
  induction ws as [| w0 ws IH]; intros n i w Hws Hi Hno; [done |]. apply List.Forall_cons_iff in Hws as [Hw0 Hws].
  cbn [w_entries first_role entry_key w_entry chip raw_ch role]. destruct i as [| i].
  - injection Hi as ->. by rewrite decide_True.
  - cbn in Hi. rewrite decide_False.
    + apply (IH (n + 1) i w Hws Hi). intros j w' Hj Hw'. apply (Hno (S j) w'); [lia | done].
    + intros [= Hc Hr]. apply (Hno O w0); [lia | done |]. split; [done |]. apply raw_inj; [done | | done].
      exact (proj1 (list.Forall_forall _ _) Hws w (list_elem_of_lookup_2 _ _ _ Hi)).
Qed.

(** ** Theorems *)

Section Theorems.
Context (order : list Chip -> list Chip) (order_perm : forall cs, order cs ≡ₚ cs).

(** C26: Whatever the text, and in whatever order the hash set of chips is gone
    through, a table is made and every lookup answers - any four numbers, in the table
    or not: a fixed-pattern channel of a chip in use is that, another channel is what
    the first line for it says, and all the rest is unmapped, which alone is counted. *)
Theorem geometry_lookup (text : string) (Hfits : table_fits (active_agets (read_text text))) :
  exists g, parse order text = Val g /\ forall cobo asad aget raw, 0 <= cobo -> 0 <= asad -> 0 <= aget -> 0 <= raw ->
    let role := role_at (active_agets (read_text text)) (pending (read_text text)) (cobo, asad, aget, raw) in
    lookup_ref cobo asad aget raw g = Val (role, if decide (role = Unmapped) then count_hit g else g).
Proof.
  destruct (read_text_account text) as [Hr _]. destruct (build_table order order_perm _ Hr Hfits) as (g & E & Hg).
  exists g. split; [exact E |]. intros cobo asad aget raw H1 H2 H3 H4. by apply lookup_table.
Qed.

(** C27: No line of the file is lost: every line that is not empty, a comment or a
    header is in the table, or among the duplicates, or among the malformed - in one of
    them and once - and those in the table are just the first of each channel; they
    have their shapes in the order of the file. *)
Theorem geometry_accounts (text : string) (Hfits : table_fits (active_agets (read_text text))) :
  exists g, parse order text = Val g /\
    data_lines text ≡ₚ map line_number (firsts [] (pending (read_text text))) ++ map dup_line (duplicates g) ++ malformed g /\
    strip_rows g = flat_map row_of (firsts [] (pending (read_text text))) /\
    forall e, e ∈ firsts [] (pending (read_text text)) ->
      role_at (active_agets (read_text text)) (pending (read_text text)) (entry_key e) = role e.
Proof.
  destruct (read_text_account text) as [Hr Hlines]. destruct (build_table order order_perm _ Hr Hfits) as (g & E & Hg).
  exists g. split; [exact E |]. destruct Hg as [_ _ _ _ Ht Hrows Hm _]. split_and!.
  - rewrite <- Hlines, Ht, Hm, app_assoc. f_equiv. rewrite map_map.
    rewrite (map_ext (fun e => dup_line (duplicate_of e)) line_number) by (intros e; unfold duplicate_of; by destruct (chip e) as [[? ?] ?]).
    rewrite <- map_app. f_equiv. symmetry. apply firsts_repeats.
  - exact Hrows.
  - intros e He. by apply firsts_role.
Qed.

(** C28: A file of strip lines written by the book comes back as it was meant: nothing
    is malformed, every strip is at its channel unless an earlier line has taken it,
    and the fixed-pattern channels of every chip named are at theirs. *)
Theorem geometry_reads_back (ws : list WrittenRow) (Hws : Forall written ws) (Hfits : table_fits (map w_chip ws)) :
  exists g, parse order (table_text ws) = Val g /\ malformed g = [] /\
    (forall i w, ws !! i = Some w -> (forall j w', (j < i)%nat -> ws !! j = Some w' -> ~ same_channel w' w) ->
       let '(cobo, asad, aget) := w_chip w in
       lookup_ref cobo asad aget (w_raw w) g = Val (Strip (w_plane w) (w_section w) (w_strip w), g)) /\
    (forall w raw j, w ∈ ws -> fpn_number raw = Some j ->
       let '(cobo, asad, aget) := w_chip w in lookup_ref cobo asad aget raw g = Val (Fpn j, g)).
Proof.
  destruct (read_text_account (table_text ws)) as [Hr _]. destruct (read_table ws Hws) as (Hp & Hm & Ha).
  assert (Hb : all_boards (active_agets (read_text (table_text ws))) = all_boards (map w_chip ws)) by (apply all_boards_ext; [apply Hr | done]).
  destruct (build_table order order_perm _ Hr) as (g & E & Hg); [unfold table_fits; by rewrite Hb |].
  exists g. split; [exact E |]. split; [by rewrite (table_malformed _ _ Hg) |].
  assert (Hchip : forall w, w ∈ ws -> w_chip w ∈ active_agets (read_text (table_text ws)) /\ chip_ok (w_chip w)).
  { intros w Hw. split; [apply Ha, list_elem_of_fmap; by exists w | exact (proj1 (proj1 (list.Forall_forall _ _) Hws w Hw))]. }
  split.
  - intros i w Hi Hno. pose proof (list_elem_of_lookup_2 _ _ _ Hi) as Hin. destruct (Hchip w Hin) as [Hact Hok].
    pose proof (first_written ws 1 i w Hws Hi Hno) as Hfirst. pose proof (proj1 (list.Forall_forall _ _) Hws w Hin) as Hw.
    destruct (reorder_range _ _ (signal_raw w Hw)) as [Hraw Hfpn]. destruct (w_chip w) as [[cobo asad] aget] eqn:Ew.
    destruct Hok as (H1 & H2 & H3). rewrite (lookup_table _ g cobo asad aget (w_raw w) Hr Hg) by lia.
    unfold role_at. cbn [fst snd]. rewrite Hfpn, Hp. rewrite Hfirst. by destruct (decide (_ ∈ _)).
  - intros w raw j Hin Hj. destruct (Hchip w Hin) as [Hact Hok].
    destruct (fpn_number_range raw j Hj) as [Hraw _].
    destruct (w_chip w) as [[cobo asad] aget] eqn:Ew. destruct Hok as (H1 & H2 & H3).
    rewrite (lookup_table _ g cobo asad aget raw Hr Hg) by lia. unfold role_at. cbn [fst snd].
    by rewrite (decide_True (P := _ ∈ _)), Hj by done.
Qed.
End Theorems.

(** ** Two things to know of the table *)

Definition one_row (asad : Z) : WrittenRow := mkWritten U 0 1 (0, asad, 0) 0 "0.0" "0.0" "10".

Lemma zero_a_number : a_number "0.0".
Proof. split; [split; [done |] | by eexists]. repeat (apply list.Forall_cons_2; [cbn; lia |]). apply list.Forall_nil_2. Qed.

Lemma ten_a_number : a_number "10".
Proof. split; [split; [done |] | by eexists]. repeat (apply list.Forall_cons_2; [cbn; lia |]). apply list.Forall_nil_2. Qed.

Lemma one_row_written asad : 0 <= asad < 2 ^ 32 -> written (one_row asad).
Proof.
  intros Ha. unfold written. cbn [one_row w_chip w_section w_strip w_signal w_off_pad w_off_strip w_len_pads].
  pose proof zero_a_number. pose proof ten_a_number. unfold chip_ok, SIGNAL_CH_PER_AGET, AGET_CHIPS_PER_ASAD. split_and!; done || lia.
Qed.

(** Boards that no line names are in the inventory, and so among the fragments a run
    expects: those below the highest board of a crate. *)
Lemma unnamed_board_expected :
  match parse id (table_text [one_row 2]) with
  | Val g => expected_fragments g = [(0, 0); (0, 1); (0, 2)] /\ active_agets (read_text (table_text [one_row 2])) = [(0, 2, 0)]
  | _ => False
  end.
Proof. vm_compute. split; reflexivity. Qed.

(** One line sizes the table: its board number is taken as it is written, so a typing
    error in it is not a malformed line but a table of any size. *)
Lemma one_line_sizes_table asad : 0 <= asad < 2 ^ 32 - 1 ->
  exists g, parse id (table_text [one_row asad]) = Val g /\ malformed g = [] /\ len (channels g) = (asad + 1) * 272.
Proof.
  intros Ha. assert (Hw : Forall written [one_row asad]) by (constructor; [apply one_row_written; lia | constructor]).
  destruct (read_text_account (table_text [one_row asad])) as [Hr _]. destruct (read_table _ Hw) as (_ & Hm & Hact).
  assert (Hb : all_boards (active_agets (read_text (table_text [one_row asad]))) = [Z.max (asad + 1) 0])
    by (rewrite (all_boards_ext _ (map w_chip [one_row asad])) by (done || apply Hr); done).
  destruct (build_table id (fun cs => Permutation_refl cs) _ Hr) as (g & E & Hg); [unfold table_fits; rewrite Hb; cbn; lia |].
  exists g. split; [exact E |]. split; [by rewrite (table_malformed _ _ Hg) |].
  rewrite (table_cells _ _ Hg), (table_counts _ _ Hg), Hb. unfold tally, AGET_CHIPS_PER_ASAD, RAW_CH_PER_AGET. cbn [foldr]. lia.
Qed.

(** ** At a concrete input *)

Module Sample.

Definition text : string :=
  "# mini" +:+ newline +:+ "ANGLES: 0 -120 -60" +:+ newline +:+ "U 0 1 0 0 0 0 0.0 0.0 10" +:+ newline +:+
  "V 0 9 0 0 0 0 9.0 9.0 10" +:+ newline +:+ "Aux 0 0 1 15" +:+ newline +:+ "foo".

Lemma geometry_lookup_witness :
  exists g, parse (@rev Chip) text = Val g /\ lookup_ref 0 0 0 11 g = Val (Fpn 1, g) /\
    lookup_ref 7 7 7 700 g = Val (Unmapped, count_hit g).
Proof.
  assert (Hfits : table_fits (active_agets (read_text text))) by (vm_compute; reflexivity).
  destruct (geometry_lookup (@rev Chip) (fun cs => symmetry (Permutation_rev cs)) text Hfits) as (g & E & H).
  exists g. split; [exact E |]. split.
  - rewrite H by lia. assert (R : role_at (active_agets (read_text text)) (pending (read_text text)) (0, 0, 0, 11) = Fpn 1) by (vm_compute; reflexivity).
    by rewrite R.
  - rewrite H by lia. assert (R : role_at (active_agets (read_text text)) (pending (read_text text)) (7, 7, 7, 700) = Unmapped) by (vm_compute; reflexivity).
    by rewrite R.
Defined.

Lemma geometry_accounts_witness :
  data_lines text = [3; 4; 5; 6] /\ exists g, parse id text = Val g /\ data_lines text ≡ₚ [3; 5] ++ map dup_line (duplicates g) ++ malformed g.
Proof.
  assert (Hfits : table_fits (active_agets (read_text text))) by (vm_compute; reflexivity).
  split; [vm_compute; reflexivity |].
  destruct (geometry_accounts id (fun cs => Permutation_refl cs) text Hfits) as (g & E & H & _). exists g. split; [exact E |].
  assert (R : map line_number (firsts [] (pending (read_text text))) = [3; 5]) by (vm_compute; reflexivity). by rewrite R in H.
Defined.

Lemma geometry_reads_back_witness :
  exists g, parse id (table_text [one_row 0]) = Val g /\ malformed g = [] /\ lookup_ref 0 0 0 0 g = Val (Strip U 0 1, g).
Proof.
  assert (Hw : Forall written [one_row 0]) by (constructor; [apply one_row_written; lia | constructor]).
  assert (Hfits : table_fits (map w_chip [one_row 0])) by (vm_compute; reflexivity).
  destruct (geometry_reads_back id (fun cs => Permutation_refl cs) [one_row 0] Hw Hfits) as (g & E & Hm & H & _).
  exists g. split; [exact E |]. split; [exact Hm |]. apply (H O (one_row 0) eq_refl). intros j w' Hj. lia.
Defined.
End Sample.
