(* ===== verification/Display.v ===== *)
(** * Display: what the monitor shows of an event

    Models [src/monitor/ws.rs] (the binary messages, all but the track's) and
    [src/monitor/display.rs]: a built event becomes one grid per plane, in which the
    samples of a strip's channels are added up, and one block of waveforms per board;
    a fragment that was read zero-suppressed has its missing cells put back from a
    table of pedestals.  The grids are buffers that are used again; the geometry counts
    the lookups that find nothing.  Warnings are log lines and left out, and with them
    the flags that make them once only.  The bits of a NaN made smaller are an argument. *)

From Stdlib Require Import SpecFloat.
From stdpp Require Import list strings.
From S2P Require Import Prelude Bytes Text Float Msg Geometry.
Open Scope list_scope.
Open Scope Z_scope.

Definition N_BUCKETS : Z := 512.
Definition N_PLANES : nat := 3.
Definition AGETS : nat := 4.
Definition RAW_CH : nat := 68.
Definition PED_LO : Z := 1.
Definition PED_HI : Z := 20.
Definition PED_WINDOW : Z := PED_HI - PED_LO + 1.

(** ** The binary messages: [ws.rs] *)

Definition MAGIC : bytes := [84; 80].
Definition VERSION : Z := 2.
Definition FLAG_INCOMPLETE : Z := 1.
Definition TYPE_UVW : Z := 2.
Definition TYPE_WAVEFORMS : Z := 3.
Definition TYPE_HISTO1D : Z := 16.
Definition TYPE_HISTO2D : Z := 17.

Record Header : Type := mkWsHeader {
  msg_type : Z;
  incomplete : bool;
  header_run : Z;
  header_event : Z;
}.

Definition header_of_event (msg_type run event : Z) (incomplete : bool) : Header := mkWsHeader msg_type incomplete run event.
Definition header_of_hist (msg_type run : Z) : Header := mkWsHeader msg_type false run 0.

Definition write_header (h : Header) : bytes :=
  MAGIC ++ [msg_type h; VERSION; if incomplete h then FLAG_INCOMPLETE else 0] ++ le_bytes 4 (header_run h) ++ le_bytes 4 (header_event h).

Definition grid_bytes (grid : list Z) : bytes := concat (map (le_bytes 2) grid).

Definition uvw_message (h : Header) (plane n_strips n_buckets : Z) (grid : list Z) : bytes :=
  write_header h ++ [plane] ++ le_bytes 2 n_strips ++ le_bytes 2 n_buckets ++ grid_bytes grid.

Definition waveforms_message (h : Header) (cobo asad n_aget n_ch n_buckets : Z) (grid : list Z) : bytes :=
  write_header h ++ [cobo; asad; n_aget; n_ch] ++ le_bytes 2 n_buckets ++ grid_bytes grid.

(** [f64::from_le_bytes] of eight bytes; other lengths are zero. *)
Definition f64_of_bits (b : Z) : f64 :=
  let s := Z.testbit b 63 in
  let e := Z.land (Z.shiftr b 52) 2047 in
  let m := Z.land b (2 ^ 52 - 1) in
  if e =? 2047 then if m =? 0 then S754_infinity s else S754_nan
  else if e =? 0 then match m with Zpos p => S754_finite s p (-1074) | _ => S754_zero s end
  else match 2 ^ 52 + m with Zpos p => S754_finite s p (e - 1075) | _ => S754_zero s end.

Definition f64_le (chunk : bytes) : f64 :=
  if Nat.eqb (length chunk) 8 then f64_of_bits (le_val chunk) else S754_zero false.

(** [x as f32], and the bits of the result. *)
Definition as_f32 (x : f64) : spec_float :=
  match x with
  | S754_finite s m e => binary_normalize 24 128 (if s then Zneg m else Zpos m) e s
  | _ => x
  end.

Definition bits_of_f32 (nan : Z) (x : spec_float) : Z :=
  match x with
  | S754_zero s => if s then 2 ^ 31 else 0
  | S754_infinity s => (if s then 2 ^ 31 else 0) + 255 * 2 ^ 23
  | S754_nan => nan
  | S754_finite s m e =>
      (if s then 2 ^ 31 else 0) + (if Zpos m <? 2 ^ 23 then Zpos m else (e + 150) * 2 ^ 23 + (Zpos m - 2 ^ 23))
  end.

(** The range of an axis, in single precision; the bytes of such a number. *)
Record Axis : Type := mkAxis {
  axis_min : spec_float;
  axis_max : spec_float;
}.
Definition f32_bytes (x : spec_float) : bytes := le_bytes 4 (bits_of_f32 0 x).

Section Histograms.
(** The bits a NaN of these bits becomes. *)
Context (nan32 : bytes -> Z).

Definition bin_bytes (chunk : bytes) : bytes := le_bytes 4 (bits_of_f32 (nan32 chunk) (as_f32 (f64_le chunk))).

Definition histo1d_message (h : Header) (id : Z) (x : Axis) (bins_le : bytes) : bytes :=
  let nbins := len bins_le / 8 in
  write_header h ++ le_bytes 2 id ++ le_bytes 4 nbins ++ f32_bytes (axis_min x) ++ f32_bytes (axis_max x) ++
  concat (map bin_bytes (chunks_exact 8 bins_le)).

(** One cell of the transposed table. *)
Definition bin_at (bins_le : bytes) (ny ix iy : Z) : bytes :=
  let at_ := (ix * ny + iy) * 8 in
  match get_range bins_le at_ (at_ + 8) with
  | Some chunk => bin_bytes chunk
  | None => f32_bytes (S754_zero false)
  end.

Definition histo2d_message (h : Header) (id nx ny : Z) (x y : Axis) (bins_le : bytes) : bytes :=
  write_header h ++ le_bytes 2 id ++ le_bytes 2 nx ++ le_bytes 2 ny ++
  concat (map f32_bytes [axis_min x; axis_max x; axis_min y; axis_max y]) ++
  concat (map (fun iy => concat (map (fun ix => bin_at bins_le ny ix iy) (seqZ 0 nx))) (seqZ 0 ny)).
End Histograms.

(** ** The converter *)

Record PedestalChannel : Type := mkPedChannel {
  ped_ch_asad : Z;
  ped_ch_aget : Z;
  ped_ch_ch : Z;
  mean : f64;
}.

Notation Table A := (list (list A)).

Record AsadPedestal : Type := mkAsadPedestal {
  ped_cobo : Z;
  ped_asad : Z;
  round_mean : Table (option Z);
  base : list (list Z);
}.

Record ConvertCounts : Type := mkCounts {
  misaligned_items : Z;
  strip_out_of_range : Z;
  malformed_hists : Z;
  counted_unmapped : Z;
  uvw_zs_fragments_restored : Z;
  uvw_zs_fragments_no_table : Z;
  uvw_table_missing_channels : Z;
}.
#[export] Instance eta_ConvertCounts : Eta ConvertCounts :=
  fun c => mkCounts (misaligned_items c) (strip_out_of_range c) (malformed_hists c) (counted_unmapped c)
                    (uvw_zs_fragments_restored c) (uvw_zs_fragments_no_table c) (uvw_table_missing_channels c).

Record DisplayConverter : Type := mkConverter {
  geometry : Geometry;
  n_strips : list Z;
  grids : list (list Z);
  waveform : list Z;
  counts : ConvertCounts;
  unmapped_seen : Z;
  pedestals : option (list AsadPedestal);
}.
#[export] Instance eta_DisplayConverter : Eta DisplayConverter :=
  fun d => mkConverter (geometry d) (n_strips d) (grids d) (waveform d) (counts d) (unmapped_seen d) (pedestals d).

(** [DisplayConverter::new]. *)
Definition new_converter (g : Geometry) : DisplayConverter :=
  mkConverter g (max_strip g) (map (fun n => repeat 0 (Z.to_nat (n * N_BUCKETS))) (max_strip g))
    (repeat 0 (Z.to_nat (AGET_CHIPS_PER_ASAD * RAW_CH_PER_AGET * N_BUCKETS)))
    (mkCounts 0 0 0 0 0 0 0) (unmapped_hits g) None.

(** Tables of four chips by 68 channels. *)
Definition blank {A : Type} (x : A) : Table A := repeat (repeat x RAW_CH) AGETS.
Definition get2 {A : Type} (t : Table A) (aget ch : Z) : option A :=
  match get t aget with
  | Some row => get row ch
  | None => None
  end.
Definition alter2 {A : Type} (f : A -> A) (aget ch : Z) (t : Table A) : Table A :=
  if (0 <=? aget) && (0 <=? ch) then alter (alter f (Z.to_nat ch)) (Z.to_nat aget) t else t.

(** [mean.round() as i32]: halves away from zero, and kept in range. *)
Definition round_magnitude (m e : Z) : Z :=
  if 0 <=? e then m * 2 ^ e else let d := 2 ^ (- e) in (m + d / 2) / d.
Definition i32_saturated (n : Z) : Z := Z.max (- 2 ^ 31) (Z.min (2 ^ 31 - 1) n).
Definition round_i32 (x : f64) : Z :=
  match x with
  | S754_finite s m e => i32_saturated (if s then - round_magnitude (Zpos m) e else round_magnitude (Zpos m) e)
  | S754_infinity s => if s then - 2 ^ 31 else 2 ^ 31 - 1
  | _ => 0
  end.

(** The means of one board: a later row of the table replaces an earlier. *)
Definition means_of (asad : Z) (table : list PedestalChannel) : Table (option Z) :=
  fold_left (fun t c =>
    if ped_ch_asad c =? asad then alter2 (fun _ => Some (round_i32 (mean c))) (ped_ch_aget c) (ped_ch_ch c) t else t)
    table (blank None).

(** Of an [i32]: addition and subtraction as a release build does them. *)
Definition i32_add (x y : Z) : Z := signed 32 (x + y).
Definition i32_sub (x y : Z) : Z := signed 32 (x - y).

(** [iter().enumerate()], and the cells of a table with their places. *)
Definition enumerate {A : Type} (l : list A) : list (Z * A) := zip (seqZ 0 (len l)) l.
Definition entries {A : Type} (t : Table A) : list (Z * Z * A) :=
  flat_map (fun '(aget, row) => map (fun '(ch, x) => (aget, ch, x)) (enumerate row)) (enumerate t).

(** The sums over the strips of a board, channel by channel; every lookup is one of the
    geometry's. *)
Fixpoint base_entries (cobo asad : Z) (es : list (Z * Z * option Z)) (g : Geometry) (base : list (list Z))
    : rust (Geometry * list (list Z)) :=
  match es with
  | [] => Val (g, base)
  | (_, _, None) :: es => base_entries cobo asad es g base
  | (aget, chan, Some mean) :: es =>
      let! (role, g) := lookup_ref cobo asad aget chan g in
      let base := match role with
                  | Strip plane _ strip => if strip =? 0 then base else alter (alter (fun v => i32_add v mean) (Z.to_nat (strip - 1))) (plane_index plane) base
                  | _ => base
                  end in
      base_entries cobo asad es g base
  end.

Fixpoint board_pedestals (table : list PedestalChannel) (strips : list Z) (boards : list (Z * Z)) (g : Geometry)
    : rust (Geometry * list AsadPedestal) :=
  match boards with
  | [] => Val (g, [])
  | (cobo, asad) :: boards =>
      let means := means_of asad table in
      let! (g, base) := base_entries cobo asad (entries means) g (map (fun n => repeat 0 (Z.to_nat n)) strips) in
      let! (g, peds) := board_pedestals table strips boards g in
      Val (g, mkAsadPedestal cobo asad means base :: peds)
  end.

Definition with_pedestal_table (table : list PedestalChannel) (d : DisplayConverter) : rust DisplayConverter :=
  let! (g, peds) := board_pedestals table (n_strips d) (asad_inventory (geometry d)) (geometry d) in
  Val (d <| geometry := g |> <| pedestals := Some peds |> <| unmapped_seen := unmapped_hits g |>).

(** ** The items of a fragment: [ItemWords] *)

Definition words_of (items : bytes) : list Z := map le_val (chunks_exact 4 items).

Definition new_words (items : bytes) (c : ConvertCounts) : list Z * ConvertCounts :=
  (words_of items, if len items mod 4 =? 0 then c else c <| misaligned_items ::= incr |>).

(** ** Zero-suppressed or not: [looks_zero_suppressed] *)

(** The two tables: samples of a channel, and those in the pedestal window. *)
Definition count_word (word : Z) (t : Table Z * Table Z) : Table Z * Table Z :=
  let item := unpack_item word in
  match get2 (fst t) (item_aget item) (item_chan item) with
  | None => t
  | Some _ =>
      (alter2 incr (item_aget item) (item_chan item) (fst t),
       if (PED_LO <=? item_bucket item) && (item_bucket item <=? PED_HI)
       then alter2 incr (item_aget item) (item_chan item) (snd t) else snd t)
  end.

(** Over the channels: with samples, and short of the window. *)
Fixpoint short_of_window (samples in_window : list Z) (acc : Z * Z) : Z * Z :=
  match samples, in_window with
  | n :: samples, w :: in_window =>
      short_of_window samples in_window
        (if n =? 0 then acc else (fst acc + 1, if w <? PED_WINDOW then snd acc + 1 else snd acc))
  | _, _ => acc
  end.

Definition looks_zero_suppressed (words : list Z) : bool :=
  let '(samples, in_window) := fold_left (fun t w => count_word w t) words (blank 0, blank 0) in
  let '(with_samples, short) := short_of_window (concat samples) (concat in_window) (0, 0) in
  with_samples <? 2 * short.

(** [zs_restore_index]: the pedestals of the fragment's board, if there are any. *)
Fixpoint find_pedestal (cobo asad : Z) (peds : list AsadPedestal) : option AsadPedestal :=
  match peds with
  | [] => None
  | p :: peds => if (ped_cobo p =? cobo) && (ped_asad p =? asad) then Some p else find_pedestal cobo asad peds
  end.

Definition zs_restore (f : Fragment) (peds : option (list AsadPedestal)) (c : ConvertCounts) : option AsadPedestal * ConvertCounts :=
  match peds with
  | None => (None, c <| uvw_zs_fragments_no_table ::= incr |>)
  | Some peds =>
      match find_pedestal (cobo f) (asad f) peds with
      | None => (None, c)
      | Some p => (Some p, c <| uvw_zs_fragments_restored ::= incr |>)
      end
  end.

(** ** The grids: [accumulate_uvw] *)

Definition clamp_u16 (v : Z) : Z := Z.max 0 (Z.min 65535 v).

(** A cell raised by [v], kept in the sixteen bits. *)
Definition bump (v cell : Z) : Z := clamp_u16 (i32_add cell v).

Definition add_row (value : Z) (row : list Z) : list Z := if value =? 0 then row else map (bump value) row.

Fixpoint add_base_rows (base : list Z) (grid : list Z) : list Z :=
  match base with
  | [] => grid
  | value :: base =>
      if (Z.to_nat N_BUCKETS <=? length grid)%nat
      then add_row value (take (Z.to_nat N_BUCKETS) grid) ++ add_base_rows base (drop (Z.to_nat N_BUCKETS) grid)
      else grid
  end.

Definition add_base (base grids : list (list Z)) : list (list Z) :=
  zip_with add_base_rows base grids.

(** What the loop over the items holds. *)
Record Accumulator : Type := mkAcc {
  acc_geometry : Geometry;
  acc_grids : list (list Z);
  acc_out_of_range : Z;
  zs_missing : Table bool;
}.

(** What a sample adds; [None] when the table of pedestals has no entry for its channel. *)
Definition delta_of (ped : option AsadPedestal) (item : Item) : option Z :=
  match ped with
  | None => Some (item_adc item)
  | Some p =>
      match get2 (round_mean p) (item_aget item) (item_chan item) with
      | Some (Some mean) => Some (i32_sub (item_adc item) mean)
      | _ => None
      end
  end.

Definition add_sample (f : Fragment) (strips : list Z) (ped : option AsadPedestal) (word : Z) (a : Accumulator) : rust Accumulator :=
  let item := unpack_item word in
  let! (role, g) := lookup_ref (cobo f) (asad f) (item_aget item) (item_chan item) (acc_geometry a) in
  match role with
  | Strip plane _ strip =>
      let! n := index strips (Z.of_nat (plane_index plane)) in
      if (strip =? 0) || (n <? strip) then Val (mkAcc g (acc_grids a) (acc_out_of_range a + 1) (zs_missing a))
      else
        match delta_of ped item with
        | None => Val (mkAcc g (acc_grids a) (acc_out_of_range a) (alter2 (fun _ => true) (item_aget item) (item_chan item) (zs_missing a)))
        | Some delta =>
            let idx := (strip - 1) * N_BUCKETS + item_bucket item in
            Val (mkAcc g (alter (alter (bump delta) (Z.to_nat idx)) (plane_index plane) (acc_grids a)) (acc_out_of_range a) (zs_missing a))
        end
  | _ => Val (mkAcc g (acc_grids a) (acc_out_of_range a) (zs_missing a))
  end.

Fixpoint add_samples (f : Fragment) (strips : list Z) (ped : option AsadPedestal) (words : list Z) (a : Accumulator) : rust Accumulator :=
  match words with
  | [] => Val a
  | w :: words => let! a := add_sample f strips ped w a in add_samples f strips ped words a
  end.

Definition count_missing (t : Table bool) : Z := countb id (concat t).

Definition accumulate_uvw (f : Fragment) (d : DisplayConverter) : rust DisplayConverter :=
  let '(words, c) := new_words (items f) (counts d) in
  let '(ped, c) := if looks_zero_suppressed words then zs_restore f (pedestals d) c else (None, c) in
  let start := match ped with Some p => add_base (base p) (grids d) | None => grids d end in
  let! a := add_samples f (n_strips d) ped words (mkAcc (geometry d) start (strip_out_of_range c) (blank false)) in
  let c := c <| strip_out_of_range := acc_out_of_range a |> in
  let c := match ped with Some _ => c <| uvw_table_missing_channels ::= Z.add (count_missing (zs_missing a)) |> | None => c end in
  Val (d <| geometry := acc_geometry a |> <| grids := acc_grids a |> <| counts := c |>).

Fixpoint accumulate_all (fs : list Fragment) (d : DisplayConverter) : rust DisplayConverter :=
  match fs with
  | [] => Val d
  | f :: fs => let! d := accumulate_uvw f d in accumulate_all fs d
  end.

(** [note_unmapped]. *)
Definition note_unmapped (d : DisplayConverter) : DisplayConverter :=
  let hits := unmapped_hits (geometry d) in
  if hits <=? unmapped_seen d then d
  else d <| counts ::= (fun c => c <| counted_unmapped := hits |>) |> <| unmapped_seen := hits |>.

(** ** The messages of an event and of a snapshot *)

Record BuiltEventPayload : Type := mkBuiltEvent {
  event_run : Z;
  built_idx : Z;
  complete : bool;
  fragments : list Fragment;
}.

Fixpoint plane_messages (h : Header) (plane : Z) (strips : list Z) (grids : list (list Z)) : rust (list bytes) :=
  match grids with
  | [] => Val []
  | grid :: grids =>
      let! n := index strips plane in
      let! rest := plane_messages h (plane + 1) strips grids in
      Val (uvw_message h (wrap 8 plane) n N_BUCKETS grid :: rest)
  end.

Definition uvw (event : BuiltEventPayload) (d : DisplayConverter) : rust (list bytes * DisplayConverter) :=
  let d := d <| grids ::= map (map (fun _ => 0)) |> in
  let! d := accumulate_all (fragments event) d in
  let d := note_unmapped d in
  let h := header_of_event TYPE_UVW (event_run event) (built_idx event) (negb (complete event)) in
  let! messages := plane_messages h 0 (n_strips d) (grids d) in
  Val (messages, d).

(** One sample of the waveforms. *)
Definition put_wave (word : Z) (wave : list Z) : list Z :=
  let item := unpack_item word in
  if (AGET_CHIPS_PER_ASAD <=? item_aget item) || (RAW_CH_PER_AGET <=? item_chan item) then wave
  else
    let idx := (item_aget item * RAW_CH_PER_AGET + item_chan item) * N_BUCKETS + item_bucket item in
    if idx <? len wave then <[Z.to_nat idx := item_adc item]> wave else wave.

Fixpoint waveforms_each (h : Header) (fs : list Fragment) (d : DisplayConverter) : list bytes * DisplayConverter :=
  match fs with
  | [] => ([], d)
  | f :: fs =>
      let '(words, c) := new_words (items f) (counts d) in
      let wave := fold_left (fun wave w => put_wave w wave) words (map (fun _ => 0) (waveform d)) in
      let message := waveforms_message h (cobo f) (asad f) (wrap 8 AGET_CHIPS_PER_ASAD) (wrap 8 RAW_CH_PER_AGET) N_BUCKETS wave in
      let '(messages, d) := waveforms_each h fs (d <| waveform := wave |> <| counts := c |>) in
      (message :: messages, d)
  end.

Definition waveforms (event : BuiltEventPayload) (d : DisplayConverter) : list bytes * DisplayConverter :=
  waveforms_each (header_of_event TYPE_WAVEFORMS (event_run event) (built_idx event) (negb (complete event))) (fragments event) d.

(** *** Histograms *)

Record HistPayload : Type := mkHist {
  hist_id : Z;
  hist_name : string;
  nx : Z;
  ny : Z;
  bins : bytes;
}.

(** [usize::saturating_mul]; the product with eight wraps. *)
Definition bin_count (h : HistPayload) : Z := Z.min (2 ^ 64 - 1) (nx h * ny h).
Definition is_consistent (h : HistPayload) : bool := len (bins h) =? wrap 64 (bin_count h * 8).

Definition f32_of_Z (n : Z) : spec_float := binary_normalize 24 128 n 0 false.
Definition CHARGE_AXIS_MAX : spec_float := f32_of_Z 4096.

Definition hist_message (nan32 : bytes -> Z) (run : Z) (h : HistPayload) : bytes :=
  if 1 <? ny h then
    histo2d_message nan32 (header_of_hist TYPE_HISTO2D run) (hist_id h) (wrap 16 (nx h)) (wrap 16 (ny h))
      (mkAxis (f32_of_Z 1) (SFadd 24 128 (f32_of_Z (nx h)) (f32_of_Z 1))) (mkAxis (f32_of_Z 0) (f32_of_Z (ny h))) (bins h)
  else
    histo1d_message nan32 (header_of_hist TYPE_HISTO1D run) (hist_id h) (mkAxis (f32_of_Z 0) CHARGE_AXIS_MAX) (bins h).

Fixpoint histos (nan32 : bytes -> Z) (run : Z) (hs : list HistPayload) (d : DisplayConverter) : list bytes * DisplayConverter :=
  match hs with
  | [] => ([], d)
  | h :: hs =>
      if is_consistent h then
        let '(messages, d) := histos nan32 run hs d in (hist_message nan32 run h :: messages, d)
      else histos nan32 run hs (d <| counts ::= (fun c => c <| malformed_hists ::= incr |>) |>)
  end.

(** *** The last event: [last_event_json] of [http.rs], its samples *)

Definition put_last (word : Z) (t : list Z * Z) : list Z * Z :=
  let item := unpack_item word in
  if (AGET_CHIPS_PER_ASAD <=? item_aget item) || (RAW_CH_PER_AGET <=? item_chan item) || (N_BUCKETS <=? item_bucket item)
  then (fst t, snd t + 1)
  else (<[Z.to_nat ((item_aget item * RAW_CH_PER_AGET + item_chan item) * N_BUCKETS + item_bucket item) := signed 16 (item_adc item)]> (fst t), snd t).

(** The samples of a fragment, [-1] for what was not read, and how many have no place. *)
Definition last_grid (f : Fragment) : list Z * Z :=
  fold_left (fun t w => put_last w t) (words_of (items f))
    (repeat (-1) (Z.to_nat (AGET_CHIPS_PER_ASAD * RAW_CH_PER_AGET * N_BUCKETS)), 0).

(** ** Lemmas: the grids *)

Lemma list_alter_lookup {A : Type} (f : A -> A) i (l : list A) j :
  alter f i l !! j = if decide (i = j) then f <$> l !! j else l !! j.
Proof. case_decide as E; [subst; apply list_lookup_alter_eq | by apply list_lookup_alter_ne]. Qed.

(** A cell: plane and place in the grid. *)
Definition cell (grids : list (list Z)) (p i : nat) : option Z :=
  match grids !! p with
  | Some grid => grid !! i
  | None => None
  end.

Lemma cell_alter f p0 i0 grids p i :
  cell (alter (alter f i0) p0 grids) p i = if decide (p0 = p /\ i0 = i) then f <$> cell grids p i else cell grids p i.
Proof.
  unfold cell. rewrite list_alter_lookup. destruct (decide (p0 = p)) as [-> |]; [| by rewrite decide_False by tauto].
  destruct (grids !! p) as [grid |]; cbn; [| by case_decide]. rewrite list_alter_lookup.
  repeat case_decide; tauto || done.
Qed.

(** The grids are as large as the strips need. *)
Definition fits (strips : list Z) (grids : list (list Z)) : Prop :=
  Forall2 (fun n grid => 0 <= n /\ len grid = n * N_BUCKETS) strips grids.

Lemma fits_alter f p0 i0 strips grids : fits strips grids -> fits strips (alter (alter f i0) p0 grids).
Proof.
  intros H. apply Forall2_same_length_lookup in H as [Hl H]. apply Forall2_same_length_lookup.
  split; [by rewrite length_alter |]. intros i n grid Hn Hg. rewrite list_alter_lookup in Hg. case_decide.
  - destruct (grids !! i) as [grid0 |] eqn:E; [| done]. cbn in Hg. injection Hg as <-. unfold len. rewrite length_alter. exact (H i n grid0 Hn E).
  - exact (H i n grid Hn Hg).
Qed.

Lemma fits_cell strips grids p n i : fits strips grids -> strips !! p = Some n -> 0 <= i < n * N_BUCKETS ->
  exists v, cell grids p (Z.to_nat i) = Some v.
Proof.
  intros H Hn Hi. destruct (Forall2_lookup_l _ _ _ _ _ H Hn) as (grid & Hg & _ & Hl). unfold cell. rewrite Hg.
  apply lookup_lt_is_Some. unfold len in Hl. lia.
Qed.

(** *** The base of a restored fragment *)

Lemma add_base_rows_length base : forall grid, length (add_base_rows base grid) = length grid.
Proof.
  induction base as [| v base IH]; intros grid; cbn [add_base_rows]; [done |]. case_match eqn:E; [| done].
  apply Nat.leb_le in E. rewrite length_app, IH, length_drop. unfold add_row.
  case_match; rewrite ?length_map, length_take; lia.
Qed.

(** In the row of a strip every cell is raised by the strip's base. *)
Lemma add_base_rows_lookup base : forall grid s b v,
  0 <= b < N_BUCKETS -> base !! s = Some v -> len grid = Z.of_nat (length base) * N_BUCKETS ->
  add_base_rows base grid !! (s * Z.to_nat N_BUCKETS + Z.to_nat b)%nat =
    (fun c => if v =? 0 then c else bump v c) <$> grid !! (s * Z.to_nat N_BUCKETS + Z.to_nat b)%nat.
Proof.
  unfold N_BUCKETS. induction base as [| v0 base IH]; intros grid s b v Hb Hs Hl; [done |]. cbn [add_base_rows]. unfold len in Hl. cbn [length] in Hl.
  unfold N_BUCKETS. rewrite (proj2 (Nat.leb_le _ _)) by lia.
  assert (Hrow : length (add_row v0 (take (Z.to_nat 512) grid)) = Z.to_nat 512) by (unfold add_row; case_match; rewrite ?length_map, length_take; lia).
  destruct s as [| s].
  - injection Hs as ->. cbn [Nat.mul Nat.add]. rewrite lookup_app_l by lia. unfold add_row. destruct (v =? 0).
    + rewrite lookup_take_lt by lia. by destruct (grid !! Z.to_nat b).
    + rewrite list_lookup_fmap, lookup_take_lt by lia. done.
  - cbn in Hs. rewrite lookup_app_r by lia. rewrite Hrow.
    replace (S s * Z.to_nat 512 + Z.to_nat b - Z.to_nat 512)%nat with (s * Z.to_nat 512 + Z.to_nat b)%nat by lia.
    rewrite (IH (drop (Z.to_nat 512) grid) s b v Hb Hs) by (unfold len; rewrite length_drop; lia).
    rewrite lookup_drop. by repeat (f_equal; try lia).
Qed.

(** *** One sample *)

Section Samples.
Context (r : Reading) (Hr : reading_ok r).

(** The role of a channel of a fragment's board. *)
Definition role_in (f : Fragment) (aget ch : Z) : ChannelRole := role_at (active_agets r) (pending r) (cobo f, asad f, aget, ch).

(** The fragment's board is a number. *)
Definition board_ok (f : Fragment) : Prop := 0 <= cobo f /\ 0 <= asad f.

(** What a word adds to the cell, if it is one of its. *)
Definition word_delta (f : Fragment) (strips : list Z) (ped : option AsadPedestal) (p i : nat) (w : Z) : option Z :=
  let item := unpack_item w in
  match role_in f (item_aget item) (item_chan item) with
  | Strip plane _ strip =>
      match strips !! plane_index plane with
      | Some n =>
          if (strip =? 0) || (n <? strip) then None
          else if decide (plane_index plane = p /\ Z.to_nat ((strip - 1) * N_BUCKETS + item_bucket item) = i) then delta_of ped item
          else None
      | None => None
      end
  | _ => None
  end.

Definition bumped (o : option Z) (c : option Z) : option Z :=
  match o with
  | Some d => bump d <$> c
  | None => c
  end.

Lemma unpack_nonneg w : 0 <= item_aget (unpack_item w) /\ 0 <= item_chan (unpack_item w) < 128 /\ 0 <= item_bucket (unpack_item w) < 512 /\ 0 <= item_adc (unpack_item w) < 4096.
Proof. rewrite unpack_item_fields. cbn. Z.div_mod_to_equations. lia. Qed.

Lemma plane_index_3 p : (plane_index p < 3)%nat.
Proof. destruct p; cbn; lia. Qed.

Lemma add_sample_spec f strips ped w a : board_ok f -> table_of r (acc_geometry a) -> length strips = 3%nat -> fits strips (acc_grids a) ->
  exists a', add_sample f strips ped w a = Val a' /\ table_of r (acc_geometry a') /\ fits strips (acc_grids a') /\
    forall p i, cell (acc_grids a') p i = bumped (word_delta f strips ped p i w) (cell (acc_grids a) p i).
Proof.
  intros [Hc Ha] Hg Hl Hfit. pose proof (unpack_nonneg w) as (H1 & H2 & _). unfold add_sample, word_delta.
  rewrite (lookup_table r _ _ _ _ _ Hr Hg) by lia. cbn [rust_bind]. unfold role_in. set (k := (cobo f, asad f, _, _)).
  set (g' := if decide (role_at _ _ k = Unmapped) then _ else _).
  assert (Hg' : table_of r g') by (unfold g'; case_decide; [by apply count_hit_table | done]). clearbody g'.
  destruct (role_at _ _ k) as [plane section strip | j | name |]; try (by eexists).
  destruct (lookup_lt_is_Some_2 strips (plane_index plane)) as [n Hn]; [rewrite Hl; apply plane_index_3 |].
  rewrite (index_val strips _ n) by (lia || by rewrite Nat2Z.id). cbn [rust_bind]. rewrite Hn.
  destruct ((strip =? 0) || (n <? strip)); [by eexists |]. destruct (delta_of ped (unpack_item w)) as [d |].
  - eexists. split; [done |]. split; [done |]. split; [by apply fits_alter |]. intros p i. cbn [acc_grids].
    rewrite cell_alter. repeat case_decide; tauto || done.
  - eexists. split; [done |]. split; [done |]. split; [done |]. intros p i. cbn [acc_grids]. by case_decide.
Qed.

(** A fragment's samples, one after another. *)
Definition bump_all (ds : list Z) (c : option Z) : option Z := (fun v => fold_left (fun v d => bump d v) ds v) <$> c.

Lemma bump_all_app ds ds' c : bump_all (ds ++ ds') c = bump_all ds' (bump_all ds c).
Proof. destruct c as [v |]; [| done]. cbn. by rewrite fold_left_app. Qed.

Lemma bumped_all o ds c : bump_all ds (bumped o c) = bump_all (match o with Some d => d :: ds | None => ds end) c.
Proof. by destruct o, c. Qed.

Lemma add_samples_spec f strips ped words : forall a, board_ok f -> table_of r (acc_geometry a) -> length strips = 3%nat -> fits strips (acc_grids a) ->
  exists a', add_samples f strips ped words a = Val a' /\ table_of r (acc_geometry a') /\ fits strips (acc_grids a') /\
    forall p i, cell (acc_grids a') p i = bump_all (omap (word_delta f strips ped p i) words) (cell (acc_grids a) p i).
Proof.
  induction words as [| w words IH]; intros a Hb Hg Hl Hf; cbn [add_samples].
  { exists a. split_and!; try done. intros p i. cbn. by destruct (cell _ p i). }
  destruct (add_sample_spec f strips ped w a Hb Hg Hl Hf) as (a1 & -> & Hg1 & Hf1 & Hv1). cbn [rust_bind].
  destruct (IH a1 Hb Hg1 Hl Hf1) as (a' & E & Hg' & Hf' & Hv'). exists a'. split_and!; try done. intros p i.
  rewrite Hv', Hv1, bumped_all. cbn [omap list_omap]. by destruct (word_delta f strips ped p i w).
Qed.

(** *** A fragment *)

Definition restored (peds : option (list AsadPedestal)) (f : Fragment) : option AsadPedestal :=
  if looks_zero_suppressed (words_of (items f)) then
    match peds with
    | Some peds => find_pedestal (cobo f) (asad f) peds
    | None => None
    end
  else None.

(** What the base of a restored fragment adds to the cell. *)
Definition base_delta (ped : option AsadPedestal) (p i : nat) : list Z :=
  match ped with
  | None => []
  | Some ped =>
      match base ped !! p with
      | Some row => match row !! (i / Z.to_nat N_BUCKETS)%nat with Some v => if v =? 0 then [] else [v] | None => [] end
      | None => []
      end
  end.

Definition fragment_deltas (strips : list Z) (peds : option (list AsadPedestal)) (p i : nat) (f : Fragment) : list Z :=
  base_delta (restored peds f) p i ++ omap (word_delta f strips (restored peds f) p i) (words_of (items f)).

(** The bases are as long as the planes have strips. *)
Definition pedestal_fits (strips : list Z) (ped : AsadPedestal) : Prop :=
  Forall2 (fun n row => len row = n) strips (base ped).
Definition pedestals_fit (strips : list Z) (peds : option (list AsadPedestal)) : Prop :=
  match peds with
  | Some peds => Forall (pedestal_fits strips) peds
  | None => True
  end.

Lemma find_pedestal_in c a peds ped : find_pedestal c a peds = Some ped -> ped ∈ peds /\ ped_cobo ped = c /\ ped_asad ped = a.
Proof.
  induction peds as [| q peds IH]; cbn [find_pedestal]; [done |]. destruct ((ped_cobo q =? c) && (ped_asad q =? a)) eqn:E.
  - intros [= ->]. apply andb_prop in E as [E1 E2]. split; [left | lia].
  - intros H. destruct (IH H) as [H1 H2]. split; [by right | done].
Qed.

Lemma add_base_spec strips ped grids : pedestal_fits strips ped -> fits strips grids ->
  fits strips (add_base (base ped) grids) /\
  forall p i, cell (add_base (base ped) grids) p i = bump_all (base_delta (Some ped) p i) (cell grids p i).
Proof.
  intros Hp Hf. split.
  - apply Forall2_same_length_lookup in Hp as [Hl Hp]. apply Forall2_same_length_lookup in Hf as [Hl' Hf].
    unfold add_base. apply Forall2_same_length_lookup. rewrite length_zip_with. split; [lia |]. intros i n grid Hn Hg.
    apply lookup_zip_with_Some in Hg as (row & grid0 & -> & Hrow & Hgrid). destruct (Hf i n grid0 Hn Hgrid) as [H1 H2].
    split; [done |]. unfold len. rewrite add_base_rows_length. exact H2.
  - intros p i. unfold cell, add_base, base_delta. rewrite lookup_zip_with. destruct (grids !! p) as [grid |] eqn:Eg.
    2: { destruct (base ped !! p); by cbn. }
    destruct (Forall2_lookup_r _ _ _ _ _ Hf Eg) as (n & Hn & H1 & H2).
    destruct (Forall2_lookup_l _ _ _ _ _ Hp Hn) as (row & Erow & Hrow). rewrite Erow. cbn [mbind option_bind].
    unfold N_BUCKETS in *. destruct (decide (i < length grid)%nat) as [Hi | Hi].
    + destruct (lookup_lt_is_Some_2 row (i / Z.to_nat 512)%nat) as [v Hv].
      { apply Nat.Div0.div_lt_upper_bound. unfold len in *. lia. }
      rewrite Hv. pose proof (Nat.div_mod_eq i (Z.to_nat 512)) as Hdm. pose proof (Nat.mod_upper_bound i (Z.to_nat 512) ltac:(lia)) as Hm.
      pose proof (add_base_rows_lookup row grid (i / Z.to_nat 512) (Z.of_nat (i mod Z.to_nat 512)) v) as L.
      unfold N_BUCKETS in L. rewrite Nat2Z.id in L. replace (i / Z.to_nat 512 * Z.to_nat 512 + i mod Z.to_nat 512)%nat with i in L by lia.
      rewrite L by (done || (unfold len in *; lia)). destruct (v =? 0); [by destruct (grid !! i) | done].
    + rewrite (lookup_ge_None_2 grid i), (lookup_ge_None_2 (add_base_rows row grid) i) by (rewrite ?add_base_rows_length; lia).
      by destruct (row !! (i / Z.to_nat 512)%nat).
Qed.
(** What a converter is at every moment. *)
Record display_ok (d : DisplayConverter) : Prop := {
  ok_table : table_of r (geometry d);
  ok_planes : length (n_strips d) = 3%nat;
  ok_grids : fits (n_strips d) (grids d);
  ok_pedestals : pedestals_fit (n_strips d) (pedestals d);
}.

Lemma restored_fits strips peds f ped : pedestals_fit strips peds -> restored peds f = Some ped -> pedestal_fits strips ped.
Proof.
  intros Hp. unfold restored. destruct (looks_zero_suppressed _); [| done]. destruct peds as [peds |]; [| done].
  intros H%find_pedestal_in. destruct H as [H _]. exact (proj1 (list.Forall_forall _ _) Hp ped H).
Qed.

Lemma restored_spec f d c :
  (if looks_zero_suppressed (words_of (items f)) then zs_restore f (pedestals d) c else (None, c)) =
    (restored (pedestals d) f, snd (if looks_zero_suppressed (words_of (items f)) then zs_restore f (pedestals d) c else (None, c))).
Proof.
  unfold restored, zs_restore. destruct (looks_zero_suppressed _); [| done]. destruct (pedestals d) as [peds |]; [| done].
  by destruct (find_pedestal _ _ peds).
Qed.

Lemma accumulate_spec f d : board_ok f -> display_ok d ->
  exists d', accumulate_uvw f d = Val d' /\ display_ok d' /\ n_strips d' = n_strips d /\ pedestals d' = pedestals d /\
    unmapped_seen d' = unmapped_seen d /\
    forall p i, cell (grids d') p i = bump_all (fragment_deltas (n_strips d) (pedestals d) p i f) (cell (grids d) p i).
Proof.
  intros Hb [Hg Hl Hf Hp]. unfold accumulate_uvw, new_words. cbv zeta. set (c := if len (items f) mod 4 =? 0 then _ else _).
  rewrite restored_spec. set (c' := snd _). clearbody c'. set (ped := restored (pedestals d) f).
  set (start := match ped with Some p => _ | None => _ end).
  assert (Hstart : fits (n_strips d) start /\ forall p i, cell start p i = bump_all (base_delta ped p i) (cell (grids d) p i)).
  { unfold start. destruct ped as [ped' |] eqn:E.
    - apply add_base_spec; [by eapply restored_fits | done].
    - split; [done |]. intros p i. cbn. by destruct (cell _ p i). }
  destruct Hstart as [Hfs Hvs]. clearbody start.
  destruct (add_samples_spec f (n_strips d) ped (words_of (items f)) (mkAcc (geometry d) start (strip_out_of_range c') (blank false)) Hb Hg Hl Hfs)
    as (a & -> & Hga & Hfa & Hva). cbn [rust_bind]. eexists. split; [done |]. split; [by split |]. split; [done |]. split; [done |]. split; [done |].
  intros p i. unfold update. cbn [grids]. rewrite Hva. cbn [acc_grids]. rewrite Hvs. unfold fragment_deltas. fold ped. by rewrite bump_all_app.
Qed.

Lemma accumulate_all_spec fs : forall d, Forall board_ok fs -> display_ok d ->
  exists d', accumulate_all fs d = Val d' /\ display_ok d' /\ n_strips d' = n_strips d /\ pedestals d' = pedestals d /\
    forall p i, cell (grids d') p i = bump_all (flat_map (fragment_deltas (n_strips d) (pedestals d) p i) fs) (cell (grids d) p i).
Proof.
  induction fs as [| f fs IH]; intros d Hfs Hd; cbn [accumulate_all flat_map].
  { exists d. split_and!; try done. intros p i. cbn. by destruct (cell _ p i). }
  apply List.Forall_cons_iff in Hfs as [Hf Hfs]. destruct (accumulate_spec f d Hf Hd) as (d1 & -> & Hd1 & Hn1 & Hp1 & _ & Hv1). cbn [rust_bind].
  destruct (IH d1 Hfs Hd1) as (d' & E & Hd' & Hn' & Hp' & Hv'). exists d'. split_and!; [exact E | done | congruence | congruence |].
  intros p i. rewrite Hv', Hv1, Hn1, Hp1. by rewrite bump_all_app.
Qed.

Lemma note_unmapped_ok d : display_ok d -> display_ok (note_unmapped d).
Proof. intros [H1 H2 H3 H4]. unfold note_unmapped. destruct (unmapped_hits (geometry d) <=? unmapped_seen d); by split. Qed.

Lemma note_unmapped_same d : grids (note_unmapped d) = grids d /\ n_strips (note_unmapped d) = n_strips d /\ pedestals (note_unmapped d) = pedestals d.
Proof. unfold note_unmapped. by destruct (unmapped_hits (geometry d) <=? unmapped_seen d). Qed.

(** The three messages. *)
Definition grid_of (d : DisplayConverter) (p : nat) : list Z := default [] (grids d !! p).
Definition strips_of (d : DisplayConverter) (p : nat) : Z := default 0 (n_strips d !! p).

Lemma plane_messages_spec h strips grids : length strips = 3%nat -> fits strips grids ->
  plane_messages h 0 strips grids =
    Val (map (fun p => uvw_message h (Z.of_nat p) (default 0 (strips !! p)) N_BUCKETS (default [] (grids !! p))) [0; 1; 2]%nat).
Proof.
  intros Hl Hf. destruct strips as [| n0 [| n1 [| n2 [|]]]]; try done.
  destruct grids as [| g0 [| g1 [| g2 [|]]]]; apply Forall2_length in Hf; done.
Qed.

(** A fresh event: every cell is what its fragments add to nothing. *)
Lemma uvw_spec event d : Forall board_ok (fragments event) -> display_ok d ->
  exists d', uvw event d =
      Val (map (fun p => uvw_message (header_of_event TYPE_UVW (event_run event) (built_idx event) (negb (complete event)))
                           (Z.of_nat p) (strips_of d p) N_BUCKETS (grid_of d' p)) [0; 1; 2]%nat, d') /\
    display_ok d' /\ n_strips d' = n_strips d /\ pedestals d' = pedestals d /\
    forall p n i, n_strips d !! p = Some n -> 0 <= i < n * N_BUCKETS ->
      cell (grids d') p (Z.to_nat i) =
        Some (fold_left (fun v dl => bump dl v) (flat_map (fragment_deltas (n_strips d) (pedestals d) p (Z.to_nat i)) (fragments event)) 0).
Proof.
  intros Hfs [Hg Hl Hf Hp]. unfold uvw. set (d0 := update grids _ d).
  assert (Hz : fits (n_strips d) (map (map (fun _ => 0)) (grids d)) /\
               forall p n i, n_strips d !! p = Some n -> 0 <= i < n * N_BUCKETS -> cell (map (map (fun _ => 0)) (grids d)) p (Z.to_nat i) = Some 0).
  { split.
    - apply Forall2_fmap_r. eapply Forall2_impl; [exact Hf |]. intros n grid [H1 H2]. cbn. split; [done |]. unfold len. by rewrite length_map.
    - intros p n i Hn Hi. destruct (fits_cell _ _ p n i Hf Hn Hi) as [v Hv]. unfold cell in *. rewrite list_lookup_fmap.
      destruct (grids d !! p) as [grid |]; [| done]. cbn. by rewrite list_lookup_fmap, Hv. }
  destruct Hz as [Hz1 Hz2]. assert (Hd0 : display_ok d0) by (by split).
  destruct (accumulate_all_spec (fragments event) d0 Hfs Hd0) as (d1 & -> & Hd1 & Hn1 & Hp1 & Hv1). cbn [rust_bind].
  destruct (note_unmapped_same d1) as (E1 & E2 & E3). pose proof (note_unmapped_ok d1 Hd1) as Hd2.
  set (d2 := note_unmapped d1) in *. clearbody d2.
  rewrite (plane_messages_spec _ _ _ (ok_planes _ Hd2) (ok_grids _ Hd2)). cbn [rust_bind]. exists d2.
  assert (En : n_strips d2 = n_strips d) by (by rewrite E2, Hn1).
  split; [| split; [done |]; split; [done |]; split; [by rewrite E3, Hp1 |]].
  - unfold strips_of, grid_of. by rewrite En.
  - intros p n i Hn Hi. rewrite E1, Hv1. change (n_strips d0) with (n_strips d). change (pedestals d0) with (pedestals d).
    change (grids d0) with (map (map (fun _ => 0)) (grids d)). by rewrite (Hz2 p n i Hn Hi).
Qed.
End Samples.
