(* ===== verification/DisplayGrid.v ===== *)
(** * DisplayGrid: what the cells of the monitor's grids add up to

    The theorems on [Display]: a cell of a plane's grid is the sum of the samples of the
    strip's channels in that bucket - as if nothing had been left out, when a fragment
    that was read zero-suppressed has been restored from the table of pedestals. *)

From Stdlib Require Import SpecFloat.
From stdpp Require Import list strings.
From S2P Require Import Prelude Bytes Text Float Msg Geometry Display.
Open Scope list_scope.
Open Scope Z_scope.

(** ** Sums *)

Lemma tally_cons x l : tally (x :: l) = x + tally l.
Proof. done. Qed.

Lemma tally_map_add {A : Type} (f g : A -> Z) l : tally (map (fun x => f x + g x) l) = tally (map f l) + tally (map g l).
Proof. induction l as [| x l IH]; [done |]. cbn [map]. rewrite !tally_cons, IH. lia. Qed.

Lemma tally_map_zero {A : Type} (f : A -> Z) l : (forall x, x ∈ l -> f x = 0) -> tally (map f l) = 0.
Proof. induction l as [| x l IH]; intros H; [done |]. cbn [map]. rewrite tally_cons, IH, (H x) by (intros; try apply H; by constructor). done. Qed.

Lemma tally_map_ext {A : Type} (f g : A -> Z) l : (forall x, x ∈ l -> f x = g x) -> tally (map f l) = tally (map g l).
Proof. induction l as [| x l IH]; intros H; [done |]. cbn [map]. rewrite !tally_cons, IH, (H x) by (intros; try apply H; by constructor). done. Qed.

Lemma tally_map_le {A : Type} (f g : A -> Z) l : (forall x, x ∈ l -> f x <= g x) -> tally (map f l) <= tally (map g l).
Proof.
  induction l as [| x l IH]; intros H; [done |]. cbn [map]. rewrite !tally_cons. pose proof (H x (list_elem_of_here _ _)).
  pose proof (IH (fun y Hy => H y (list_elem_of_further _ _ _ Hy))). lia.
Qed.

(** The first of what is kept is what is kept of the first. *)
Lemma take_omap {A B : Type} (f : A -> option B) l : forall k, exists j,
  take k (omap f l) = omap f (take j l) /\ ((length (omap f l) <= k)%nat -> take j l = l).
Proof.
  induction l as [| x l IH]; intros k; [exists 0%nat; by destruct k |]. cbn [omap list_omap]. destruct (f x) as [y |] eqn:E.
  - destruct k as [| k]; [exists 0%nat; split; [done | cbn; lia] |]. destruct (IH k) as (j & Hj & Hall). exists (S j). cbn [take omap list_omap length].
    rewrite E, Hj. split; [done |]. intros H. rewrite Hall; [done | lia].
  - destruct (IH k) as (j & Hj & Hall). exists (S j). cbn [take omap list_omap]. rewrite E, Hj. split; [done |]. intros H. by rewrite Hall.
Qed.

(** The one element of a list without repetition. *)
Lemma tally_one {A : Type} `{EqDecision A} (f : A -> Z) k l : NoDup l ->
  tally (map (fun x => if decide (k = x) then f x else 0) l) = if decide (k ∈ l) then f k else 0.
Proof.
  induction 1 as [| x l Hx Hl IH]; [done |]. cbn [map]. rewrite tally_cons, IH. destruct (decide (k = x)) as [-> |].
  - rewrite decide_False, decide_True by (done || by left). lia.
  - destruct (decide (k ∈ l)); [by rewrite decide_True by (by right) |]. rewrite decide_False; [lia |]. by rewrite not_elem_of_cons.
Qed.

(** A sum over words, class by class. *)
Lemma tally_classes {A K : Type} `{EqDecision K} (key : A -> K) (f : A -> Z) (ks : list K) (ws : list A) : NoDup ks ->
  (forall w, w ∈ ws -> f w <> 0 -> key w ∈ ks) ->
  tally (map f ws) = tally (map (fun k => tally (map (fun w => if decide (key w = k) then f w else 0) ws)) ks).
Proof.
  intros Hks. induction ws as [| w ws IH]; intros Hin.
  - symmetry. by apply tally_map_zero.
  - cbn [map]. rewrite tally_cons, IH by (intros; apply Hin; [by right | done]).
    rewrite (tally_map_ext (fun k => tally (_ :: _)) (fun k => (if decide (key w = k) then f w else 0) + tally (map (fun w => if decide (key w = k) then f w else 0) ws))) by done.
    rewrite tally_map_add. f_equal. rewrite (tally_one (fun _ => f w) (key w) ks Hks).
    case_decide as Hk; [done |]. destruct (Z.eq_dec (f w) 0); [done |]. exfalso. apply Hk, Hin; [left | done].
Qed.

(** When a key occurs once, the words of that key are one or none. *)
Lemma tally_unique {A K : Type} `{EqDecision K} (key : A -> K) (f : A -> Z) (k : K) (ws : list A) : NoDup (map key ws) ->
  tally (map (fun w => if decide (key w = k) then f w else 0) ws) =
    match List.find (fun w => bool_decide (key w = k)) ws with Some w => f w | None => 0 end.
Proof.
  induction ws as [| w ws IH]; cbn [map]; [done |]. intros Hnd. apply list.NoDup_cons in Hnd as [Hw Hws].
  rewrite tally_cons. cbn [List.find]. case_bool_decide as E; [| rewrite decide_False, IH by done; lia].
  rewrite decide_True by done. rewrite tally_map_zero; [lia |]. intros w' Hw'. rewrite decide_False; [done |].
  intros E'. apply Hw. rewrite E, <- E'. by apply list_elem_of_fmap_2.
Qed.

(** ** What a cell comes to *)

(** Amounts that cannot overflow an [i32]. *)
Definition small (d : Z) : Prop := - 2 ^ 20 <= d <= 2 ^ 20.

Lemma i32_small x : - 2 ^ 31 <= x < 2 ^ 31 -> signed 32 x = x.
Proof.
  intros Hx. unfold signed, wrap. change (2 ^ (32 - 1)) with (2 ^ 31). destruct (Z.ltb_spec (x mod 2 ^ 32) (2 ^ 31)); Z.div_mod_to_equations; lia.
Qed.

Lemma signed_small x : 0 <= x < 4096 -> signed 16 x = x.
Proof. intros Hx. unfold signed, wrap. rewrite Z.mod_small by lia. rewrite (proj2 (Z.ltb_lt x (2 ^ (16 - 1)))) by lia. done. Qed.

Lemma bump_small d v : 0 <= v <= 65535 -> small d -> bump d v = clamp_u16 (v + d).
Proof. intros Hv Hd. unfold bump, i32_add, small in *. by rewrite i32_small by lia. Qed.

Definition cell_after (ds : list Z) (v : Z) : Z := fold_left (fun v d => bump d v) ds v.

(** Amounts that are not negative: their sum, up to what the cell holds. *)
Lemma cell_after_nonneg ds : forall v, 0 <= v <= 65535 -> Forall (fun d => 0 <= d <= 2 ^ 20) ds ->
  cell_after ds v = Z.min 65535 (v + tally ds).
Proof.
  induction ds as [| d ds IH]; intros v Hv Hds; [unfold cell_after, tally; cbn; lia |].
  apply List.Forall_cons_iff in Hds as [Hd Hds]. unfold cell_after. cbn [fold_left]. fold (cell_after ds (bump d v)).
  rewrite bump_small by (done || (unfold small; lia)). rewrite IH by (done || (unfold clamp_u16; lia)). rewrite tally_cons.
  pose proof (tally_nonneg ds) as Hn. assert (0 <= tally ds) by (apply Hn; eapply list.Forall_impl; [exact Hds | cbn; lia]).
  unfold clamp_u16. lia.
Qed.

(** Amounts that never leave the cell's range on the way: their sum. *)
Lemma cell_after_exact ds : forall v, 0 <= v <= 65535 -> (forall k, 0 <= v + tally (take k ds) <= 65535) -> cell_after ds v = v + tally ds.
Proof.
  induction ds as [| d ds IH]; intros v Hv Hk; [unfold cell_after, tally; cbn; lia |].
  unfold cell_after. cbn [fold_left]. fold (cell_after ds (bump d v)).
  assert (H1 : 0 <= v + d <= 65535) by (specialize (Hk 1%nat); unfold tally in Hk; cbn in Hk; rewrite take_0 in Hk; cbn in Hk; lia).
  assert (E : bump d v = v + d) by (rewrite bump_small by (done || (unfold small; lia)); unfold clamp_u16; lia). rewrite E.
  rewrite IH; [rewrite tally_cons; lia | lia |]. intros k. specialize (Hk (S k)). cbn [take] in Hk. rewrite tally_cons in Hk. lia.
Qed.

(** Part after part: what holds of the parts of every list holds of their sequence. *)
Lemma parts_bounded {A : Type} (D : A -> list Z) (B : A -> Z) (l : list A) :
  (forall x, x ∈ l -> forall k, 0 <= tally (take k (D x)) <= B x) -> forall k, 0 <= tally (take k (flat_map D l)) <= tally (map B l).
Proof.
  induction l as [| x l IH]; intros H k; cbn [flat_map map]; [by rewrite take_nil |].
  rewrite take_app, tally_app, tally_cons. pose proof (H x (list_elem_of_here _ _) k). pose proof (IH (fun y Hy => H y (list_elem_of_further _ _ _ Hy)) (k - length (D x))%nat). lia.
Qed.

Lemma tally_flat_map {A : Type} (D : A -> list Z) (l : list A) : tally (flat_map D l) = tally (map (fun x => tally (D x)) l).
Proof. induction l as [| x l IH]; [done |]. cbn [flat_map map]. by rewrite tally_app, tally_cons, IH. Qed.

(** ** The table of pedestals *)

(** The channels of a board. *)
Definition channels : list (Z * Z) := flat_map (fun aget => map (pair aget) (seqZ 0 (Z.of_nat RAW_CH))) (seqZ 0 (Z.of_nat AGETS)).

Lemma channels_nodup : NoDup channels.
Proof. by apply (bool_decide_eq_true_1 _). Qed.

Lemma channels_elem aget ch : (aget, ch) ∈ channels <-> 0 <= aget < 4 /\ 0 <= ch < 68.
Proof.
  unfold channels. rewrite list_elem_of_In, in_flat_map. split.
  - intros (x & Hx & H). apply list_elem_of_In, elem_of_seqZ in Hx. apply in_map_iff in H as (y & [= <- <-] & Hy).
    apply list_elem_of_In, elem_of_seqZ in Hy. unfold AGETS, RAW_CH in *. lia.
  - intros [H1 H2]. exists aget. split; [apply list_elem_of_In, elem_of_seqZ; unfold AGETS; lia |].
    apply in_map_iff. exists ch. split; [done |]. apply list_elem_of_In, elem_of_seqZ. unfold RAW_CH. lia.
Qed.

Definition shaped {A : Type} (t : Table A) : Prop := length t = AGETS /\ Forall (fun row => length row = RAW_CH) t.

Lemma enumerate_get {A : Type} (d : A) (l : list A) : enumerate l = map (fun i => (i, default d (get l i))) (seqZ 0 (len l)).
Proof.
  unfold enumerate. apply list_eq. intros i. rewrite lookup_zip_with, list_lookup_fmap.
  destruct (decide (i < length l)%nat) as [Hi | Hi].
  - rewrite lookup_seqZ_lt by (unfold len; lia). destruct (lookup_lt_is_Some_2 l i Hi) as [x Hx]. rewrite Hx. cbn [mbind option_bind fmap option_fmap option_map].
    f_equal. f_equal. unfold get. rewrite (proj2 (Z.leb_le _ _)) by lia. rewrite Z.add_0_l, Nat2Z.id, Hx. done.
  - rewrite lookup_seqZ_ge by (unfold len; lia). done.
Qed.

Lemma entries_channels {A : Type} (d : A) (t : Table A) : shaped t ->
  entries t = map (fun '(aget, ch) => (aget, ch, default d (get2 t aget ch))) channels.
Proof.
  intros [Hl Hrows]. unfold entries, channels. rewrite (enumerate_get [] t). unfold len. rewrite Hl.
  rewrite flat_map_concat_map, map_map, <- flat_map_concat_map.
  assert (Hin : forall a, In a (seqZ 0 (Z.of_nat AGETS)) -> 0 <= a < 4) by (intros a Ha%list_elem_of_In%elem_of_seqZ; unfold AGETS in Ha; lia).
  revert Hin. generalize (seqZ 0 (Z.of_nat AGETS)) as l. induction l as [| a l IH]; intros Hin; [done |].
  cbn [flat_map]. rewrite map_app, <- IH by (intros; apply Hin; by right). f_equal.
  destruct (lookup_lt_is_Some_2 t (Z.to_nat a)) as [row Hrow]; [rewrite Hl; unfold AGETS; specialize (Hin a (or_introl eq_refl)); lia |].
  assert (Hg : get t a = Some row) by (apply get_some; specialize (Hin a (or_introl eq_refl)); split; [lia | done]).
  rewrite Hg. change (default [] (Some row)) with row. rewrite (enumerate_get d row). unfold len. rewrite (Forall_lookup_1 _ _ _ _ Hrows Hrow).
  rewrite !map_map. apply map_ext. intros ch. unfold get2. by rewrite Hg.
Qed.

Lemma alter2_shaped {A : Type} (f : A -> A) a c (t : Table A) : shaped t -> shaped (alter2 f a c t).
Proof.
  intros [Hl Hr]. unfold alter2. destruct (_ && _); [| done]. split; [by rewrite length_alter |].
  apply Forall_alter; [done |]. intros row Hrow _. rewrite length_alter. exact (Forall_lookup_1 _ _ _ _ Hr Hrow).
Qed.

Lemma get2_alter2 {A : Type} (f : A -> A) a c (t : Table A) a' c' x : get2 (alter2 f a c t) a' c' = Some x ->
  exists y, get2 t a' c' = Some y /\ (x = y \/ x = f y).
Proof.
  unfold alter2. destruct ((0 <=? a) && (0 <=? c)); [| intros H; exists x; by split; [| left]].
  unfold get2. destruct (get (alter _ _ t) a') as [row |] eqn:Er; [| done]. intros Hx. apply get_some in Er as [Ha Er].
  apply get_some in Hx as [Hc Hx]. rewrite list_alter_lookup in Er.
  assert (Hin : exists row0, t !! Z.to_nat a' = Some row0 /\ (row = row0 \/ row = alter f (Z.to_nat c) row0)).
  { case_decide; [| exists row; by split; [| left]]. destruct (t !! Z.to_nat a') as [row0 |]; [| done].
    cbn in Er. injection Er as <-. exists row0. by split; [| right]. }
  destruct Hin as (row0 & Hrow0 & Hor). rewrite (proj2 (get_some t a' row0)) by done. destruct Hor as [-> | ->].
  - exists x. split; [by apply get_some | by left].
  - rewrite list_alter_lookup in Hx. case_decide.
    + destruct (row0 !! Z.to_nat c') as [y |] eqn:Ey; [| done]. cbn in Hx. injection Hx as <-. exists y. split; [by apply get_some | by right].
    + exists x. split; [by apply get_some | by left].
Qed.

(** The means of the table are samples. *)
Definition sane_table (table : list PedestalChannel) : Prop := Forall (fun c => 0 <= round_i32 (mean c) < 4096) table.

Definition means_ok (t : Table (option Z)) : Prop :=
  shaped t /\ forall aget ch m, get2 t aget ch = Some (Some m) -> 0 <= m < 4096.

Lemma means_of_ok asad table : sane_table table -> means_ok (means_of asad table).
Proof.
  intros Ht. unfold means_of. assert (H0 : means_ok (blank None)).
  { split; [by repeat constructor |]. intros aget ch m H. unfold get2, blank in H. destruct (get _ aget) as [row |] eqn:E; [| done].
    apply get_some in E as [_ E]. apply list_elem_of_lookup_2, list_elem_of_In, repeat_spec in E as ->.
    apply get_some in H as [_ H]. by apply list_elem_of_lookup_2, list_elem_of_In, repeat_spec in H. }
  revert H0. generalize (blank (@None Z)) as t. induction Ht as [| c table Hc _ IH]; intros t H0; cbn [fold_left]; [done |].
  apply IH. destruct (ped_ch_asad c =? asad); [| done]. destruct H0 as [H1 H2]. split; [by apply alter2_shaped |].
  intros aget ch m Hm. apply get2_alter2 in Hm as (y & Hy & [<- | E]); [by eapply H2 |]. cbn in E. injection E as ->. exact Hc.
Qed.

(** *** The base of a strip *)

Section Base.
Context (r : Reading) (Hr : reading_ok r).

Definition on_strip (board : Z * Z) (P : Plane) (s : Z) (ac : Z * Z) : bool :=
  match role_at (active_agets r) (pending r) (board, ac.1, ac.2) with
  | Strip plane _ strip => bool_decide (plane = P) && (strip =? s)
  | _ => false
  end.

(** What one mean adds to the base of a strip. *)
Definition mean_delta (board : Z * Z) (p i : nat) (e : Z * Z * option Z) : option Z :=
  match e.2 with
  | Some m =>
      match role_at (active_agets r) (pending r) (board, e.1.1, e.1.2) with
      | Strip plane _ strip => if strip =? 0 then None else if decide (plane_index plane = p /\ Z.to_nat (strip - 1) = i) then Some m else None
      | _ => None
      end
  | None => None
  end.

Lemma base_entries_spec cobo asad es : forall g base, 0 <= cobo -> 0 <= asad -> Forall (fun e => 0 <= e.1.1 /\ 0 <= e.1.2) es -> table_of r g ->
  exists g' base', base_entries cobo asad es g base = Val (g', base') /\ table_of r g' /\
    Forall2 (fun row row' => length row = length row') base base' /\
    forall p i, cell base' p i = (fun v => fold_left i32_add (omap (mean_delta (cobo, asad) p i) es) v) <$> cell base p i.
Proof.
  induction es as [| [[aget chan] m] es IH]; intros g base Hc Ha Hes Hg; cbn [base_entries].
  { exists g, base. split_and!; [done | done | by apply Forall_Forall2_diag, list.Forall_forall |]. intros p i. cbn. by destruct (cell base p i). }
  apply List.Forall_cons_iff in Hes as [[H1 H2] Hes]. cbn [fst snd] in H1, H2. destruct m as [m |].
  2: { destruct (IH g base Hc Ha Hes Hg) as (g' & base' & E & Hg' & Hl & Hv). exists g', base'. split_and!; try done. }
  rewrite (lookup_table r g cobo asad aget chan Hr Hg) by done. cbn [rust_bind].
  set (role := role_at _ _ (cobo, asad, aget, chan)). set (g1 := if decide (role = Unmapped) then _ else _).
  assert (Hg1 : table_of r g1) by (unfold g1; case_decide; [by apply count_hit_table | done]). clearbody g1.
  set (base1 := match role with Strip _ _ _ => _ | _ => base end).
  assert (Hb1 : Forall2 (fun row row' => length row = length row') base base1 /\
    forall p i, cell base1 p i = match mean_delta (cobo, asad) p i (aget, chan, Some m) with Some d => (fun v => i32_add v d) <$> cell base p i | None => cell base p i end).
  { assert (Hsame : Forall2 (fun row row' : list Z => length row = length row') base base) by (by apply Forall_Forall2_diag, list.Forall_forall).
    unfold base1, mean_delta. cbn [fst snd]. fold role. destruct role as [plane section strip | | |]; try (by split).
    destruct (strip =? 0); [by split |]. split.
    - apply Forall2_same_length_lookup. split; [by rewrite length_alter |]. intros j row row' Hj Hj'. rewrite list_alter_lookup, Hj in Hj'.
      case_decide; injection Hj' as <-; by rewrite ?length_alter.
    - intros p i. rewrite cell_alter. by case_decide. }
  destruct Hb1 as [Hl1 Hv1]. clearbody base1. destruct (IH g1 base1 Hc Ha Hes Hg1) as (g' & base' & E & Hg' & Hl & Hv).
  exists g', base'. split_and!; [exact E | done | |].
  - apply Forall2_same_length_lookup in Hl1 as [E1 L1]. apply Forall2_same_length_lookup in Hl as [E2 L2].
    apply Forall2_same_length_lookup. split; [lia |]. intros j row row' Hj Hj'.
    destruct (lookup_lt_is_Some_2 base1 j) as [x Hx]; [apply lookup_lt_Some in Hj; lia |]. rewrite (L1 j row x Hj Hx). exact (L2 j x row' Hx Hj').
  - intros p i. rewrite Hv, Hv1. cbn [omap list_omap]. destruct (mean_delta (cobo, asad) p i (aget, chan, Some m)); [| done].
    by destruct (cell base p i).
Qed.

Definition mean_at (t : Table (option Z)) (ac : Z * Z) : Z :=
  match get2 t ac.1 ac.2 with
  | Some (Some m) => m
  | _ => 0
  end.

(** The means of the strip's channels. *)
Definition strip_base (board : Z * Z) (t : Table (option Z)) (P : Plane) (s : Z) : Z :=
  tally (map (fun ac => if on_strip board P s ac then mean_at t ac else 0) channels).

Lemma plane_index_inj P P' : plane_index P = plane_index P' -> P = P'.
Proof. by destruct P, P'. Qed.

Lemma mean_delta_on board P s ac m : 1 <= s -> mean_delta board (plane_index P) (Z.to_nat (s - 1)) (ac, m) =
  if on_strip board P s ac then m else None.
Proof.
  intros Hs. unfold mean_delta, on_strip. cbn [fst snd]. destruct m as [m |]; [| by destruct (match _ with Strip _ _ _ => _ | _ => _ end)].
  destruct (role_at _ _ _) as [plane section strip | | |] eqn:E; try done. pose proof (role_at_strip r _ _ _ _ Hr E) as Hb.
  destruct (Z.eqb_spec strip 0) as [-> |]; [by rewrite (proj2 (Z.eqb_neq 0 s)), andb_false_r by lia |].
  case_decide as Hd.
  - destruct Hd as [Hp Hi]. apply plane_index_inj in Hp as ->. rewrite bool_decide_true by done. rewrite (proj2 (Z.eqb_eq strip s)) by lia. done.
  - case_bool_decide as Hp; [| done]. subst. destruct (Z.eqb_spec strip s) as [-> |]; [| done]. exfalso. by apply Hd.
Qed.

Lemma tally_omap {A : Type} (f : A -> option Z) l : tally (omap f l) = tally (map (fun x => default 0 (f x)) l).
Proof. induction l as [| x l IH]; [done |]. cbn [omap list_omap map]. rewrite tally_cons. by destruct (f x); rewrite ?tally_cons, IH. Qed.

Lemma i32_fold ds : forall v, 0 <= v -> Forall (fun d => 0 <= d < 4096) ds -> v + 4096 * len ds < 2 ^ 31 -> fold_left i32_add ds v = v + tally ds.
Proof.
  induction ds as [| d ds IH]; intros v Hv Hds Hb; [unfold tally; cbn; lia |]. apply List.Forall_cons_iff in Hds as [Hd Hds].
  rewrite len_cons in Hb. pose proof (len_nonneg ds). cbn [fold_left]. unfold i32_add at 2. rewrite i32_small by lia.
  rewrite IH by (done || lia). rewrite tally_cons. lia.
Qed.

Lemma cell_zeros strips p i n : strips !! p = Some n -> 0 <= i < n ->
  cell (map (fun n => repeat 0 (Z.to_nat n)) strips) p (Z.to_nat i) = Some 0.
Proof. intros Hn Hi. unfold cell. rewrite list_lookup_fmap, Hn. cbn. apply lookup_repeat. lia. Qed.

(** What the pedestals of a board are. *)
Definition ped_good (table : list PedestalChannel) (strips : list Z) (ped : AsadPedestal) : Prop :=
  pedestal_fits strips ped /\ round_mean ped = means_of (ped_asad ped) table /\
  forall P n s, strips !! plane_index P = Some n -> 1 <= s <= n ->
    cell (base ped) (plane_index P) (Z.to_nat (s - 1)) = Some (strip_base (ped_cobo ped, ped_asad ped) (round_mean ped) P s).

Lemma board_pedestals_spec table strips boards : forall g, sane_table table -> Forall (fun n => 0 <= n) strips ->
  Forall (fun b => 0 <= b.1 /\ 0 <= b.2) boards -> table_of r g ->
  exists g' peds, board_pedestals table strips boards g = Val (g', peds) /\ table_of r g' /\
    map (fun ped => (ped_cobo ped, ped_asad ped)) peds = boards /\ Forall (ped_good table strips) peds.
Proof.
  intros g Ht Hs. revert g. induction boards as [| [cobo asad] boards IH]; intros g Hb Hg; cbn [board_pedestals].
  { exists g, []. by split_and!. }
  apply List.Forall_cons_iff in Hb as [[Hc Ha] Hb]. cbn [fst snd] in Hc, Ha.
  destruct (means_of_ok asad table Ht) as [Hshape Hmeans]. set (t := means_of asad table) in *.
  pose proof (entries_channels None t Hshape) as He.
  assert (Hes : Forall (fun e => 0 <= e.1.1 /\ 0 <= e.1.2) (entries t)).
  { rewrite He. apply List.Forall_map, list.Forall_forall. intros [a c] Hac%channels_elem. cbn. lia. }
  destruct (base_entries_spec cobo asad (entries t) g (map (fun n => repeat 0 (Z.to_nat n)) strips) Hc Ha Hes Hg) as (g1 & base1 & -> & Hg1 & Hl1 & Hv1).
  cbn [rust_bind]. destruct (IH g1 Hb Hg1) as (g' & peds & -> & Hg' & Hmap & Hgood). cbn [rust_bind].
  exists g', (mkAsadPedestal cobo asad t base1 :: peds). split; [done |]. split; [done |]. split; [cbn [map ped_cobo ped_asad]; by rewrite Hmap |].
  constructor; [| done]. split; [| split; [done |]].
  - unfold pedestal_fits. cbn [base]. apply Forall2_same_length_lookup in Hl1 as [E1 L1]. rewrite length_map in E1.
    apply Forall2_same_length_lookup. split; [done |]. intros i n row Hn Hrow.
    specialize (L1 i (repeat 0 (Z.to_nat n)) row). rewrite list_lookup_fmap, Hn in L1. specialize (L1 eq_refl Hrow).
    rewrite repeat_length in L1. unfold len. pose proof (Forall_lookup_1 _ _ _ _ Hs Hn) as Hn0. cbn in Hn0. lia.
  - intros P n s Hn Hsn. cbn [base round_mean ped_cobo ped_asad]. rewrite Hv1, (cell_zeros strips _ (s - 1) n Hn) by lia.
    cbn [fmap option_fmap option_map]. f_equal. rewrite i32_fold; [| lia | |].
    + rewrite Z.add_0_l, tally_omap, He, map_map. apply tally_map_ext. intros [a c] Hac. rewrite mean_delta_on by lia. unfold mean_at. cbn [fst snd].
      destruct (on_strip _ P s (a, c)); [| done]. by destruct (get2 t a c) as [[m |] |].
    + apply list.Forall_forall. intros d Hd. apply list_elem_of_omap in Hd as ([[a c] m] & Hin & Hd). rewrite mean_delta_on in Hd by lia.
      destruct (on_strip _ P s (a, c)); [| done]. subst m. rewrite He in Hin. apply list_elem_of_fmap in Hin as ([a' c'] & [= -> -> Hm] & _).
      apply (Hmeans a' c'). destruct (get2 t a' c') as [o |]; [by rewrite Hm | done].
    + assert (Hlen : (length (omap (mean_delta (cobo, asad) (plane_index P) (Z.to_nat (s - 1))) (entries t)) <= length (entries t))%nat).
      { generalize (entries t). intros l. induction l as [| x l IHl]; [done |]. cbn. destruct (mean_delta _ _ _ x); cbn; lia. }
      rewrite He in Hlen at 2. rewrite length_map in Hlen. change (length channels) with 272%nat in Hlen. unfold len. lia.
Qed.
End Base.

(** ** What a strip shows in a bucket *)

Definition word_key (w : Z) : Z * Z * Z := (item_aget (unpack_item w), item_chan (unpack_item w), item_bucket (unpack_item w)).
Definition adc_of (w : Z) : Z := item_adc (unpack_item w).

(** The sample of a channel in a bucket, if it was read. *)
Definition found_in (ws : list Z) (b : Z) (ac : Z * Z) : option Z := List.find (fun w => bool_decide (word_key w = (ac, b))) ws.
Definition sample_at (f : Fragment) (b : Z) (ac : Z * Z) : option Z := adc_of <$> found_in (words_of (items f)) b ac.

(** A channel in a bucket is read once. *)
Definition read_once (f : Fragment) : Prop := NoDup (map word_key (words_of (items f))).

(** The sample of a channel with what is missing put back. *)
Definition filled (ped : option AsadPedestal) (f : Fragment) (b : Z) (ac : Z * Z) : Z :=
  match ped with
  | None => default 0 (sample_at f b ac)
  | Some p =>
      match get2 (round_mean p) ac.1 ac.2 with
      | Some (Some m) => default m (sample_at f b ac)
      | _ => 0
      end
  end.

(** The most that a fragment moves the cell on the way: its means and its samples. *)
Definition moved (ped : option AsadPedestal) (f : Fragment) (b : Z) (ac : Z * Z) : Z :=
  match ped with
  | Some p => mean_at (round_mean p) ac
  | None => 0
  end + default 0 (sample_at f b ac).

Lemma read_once_take f j : read_once f -> NoDup (map word_key (take j (words_of (items f)))).
Proof.
  unfold read_once. rewrite <- (take_drop j (words_of (items f))) at 1. rewrite map_app. intros H. by apply list.NoDup_app in H as (? & _).
Qed.

Lemma found_take ws j b ac w : found_in (take j ws) b ac = Some w -> found_in ws b ac = Some w.
Proof.
  revert j. unfold found_in. induction ws as [| x ws IH]; intros j; [by destruct j |]. destruct j as [| j]; [done |]. cbn [take List.find].
  destruct (bool_decide _); [done | apply IH].
Qed.

Section Shown.
Context (r : Reading) (Hr : reading_ok r).

Definition over_strip (h : Z * Z -> Z) (f : Fragment) (P : Plane) (s : Z) : Z :=
  tally (map (fun ac => if on_strip r (cobo f, asad f) P s ac then h ac else 0) channels).

Definition shown (peds : option (list AsadPedestal)) (fs : list Fragment) (P : Plane) (s b : Z) : Z :=
  tally (map (fun f => over_strip (filled (restored peds f) f b) f P s) fs).
Definition at_most (peds : option (list AsadPedestal)) (fs : list Fragment) (P : Plane) (s b : Z) : Z :=
  tally (map (fun f => over_strip (moved (restored peds f) f b) f P s) fs).

(** Pedestals that were made of a table. *)
Definition peds_good (table : list PedestalChannel) (strips : list Z) (peds : option (list AsadPedestal)) : Prop :=
  match peds with
  | Some peds => Forall (ped_good r table strips) peds
  | None => True
  end.

Lemma restored_good table strips peds f ped : peds_good table strips peds -> restored peds f = Some ped ->
  ped_good r table strips ped /\ ped_cobo ped = cobo f /\ ped_asad ped = asad f.
Proof.
  intros Hp. unfold restored. destruct (looks_zero_suppressed _); [| done]. destruct peds as [peds |]; [| done].
  intros H%find_pedestal_in. destruct H as [H ?]. split; [| done]. exact (proj1 (list.Forall_forall _ _) Hp ped H).
Qed.

Lemma over_strip_on f P s h : over_strip h f P s = tally (map h (List.filter (on_strip r (cobo f, asad f) P s) channels)).
Proof.
  unfold over_strip. induction channels as [| ac l IH]; [done |]. cbn [map List.filter]. rewrite tally_cons, IH.
  destruct (on_strip r (cobo f, asad f) P s ac); cbn [map]; rewrite ?tally_cons; lia.
Qed.

(** Only the words of the strip's channels in the bucket move the cell. *)
Lemma word_delta_on f strips ped P s n b w : strips !! plane_index P = Some n -> 1 <= s <= n -> 0 <= b < N_BUCKETS ->
  word_delta r f strips ped (plane_index P) (Z.to_nat ((s - 1) * N_BUCKETS + b)) w =
    if on_strip r (cobo f, asad f) P s (word_key w).1 && (item_bucket (unpack_item w) =? b) then delta_of ped (unpack_item w) else None.
Proof.
  intros Hn Hs Hb. pose proof (unpack_nonneg w) as (_ & _ & Hbk & _). unfold word_delta, on_strip, role_in, word_key, N_BUCKETS in *. cbn [fst snd].
  destruct (role_at _ _ _) as [plane section strip | | |] eqn:E; try done. pose proof (role_at_strip r _ _ _ _ Hr E) as Hstrip.
  destruct (strips !! plane_index plane) as [n' |] eqn:En'.
  - destruct (Z.eqb_spec strip 0) as [-> | H0]; cbn [orb].
    { rewrite (proj2 (Z.eqb_neq 0 s)), andb_false_r by lia. done. }
    destruct (Z.ltb_spec n' strip) as [Hlt | Hle].
    { case_bool_decide as Hp; [| done]. subst. assert (n' = n) as -> by congruence. by rewrite (proj2 (Z.eqb_neq strip s)) by lia. }
    case_decide as Hd.
    + destruct Hd as [Hp Hi]. apply plane_index_inj in Hp as ->. rewrite bool_decide_true by done.
      assert (strip = s) as -> by lia. assert (Eb : item_bucket (unpack_item w) = b) by lia. by rewrite Eb, !Z.eqb_refl.
    + case_bool_decide as Hp; [| done]. subst. destruct (Z.eqb_spec strip s) as [-> |]; [| done].
      destruct (Z.eqb_spec (item_bucket (unpack_item w)) b) as [Eb |]; [| done]. exfalso. apply Hd. by rewrite Eb.
  - case_bool_decide as Hp; [| done]. subst. congruence.
Qed.

(** Channel by channel, what has come of the words so far. *)
Definition so_far (ped : option AsadPedestal) (ws : list Z) (b : Z) (ac : Z * Z) : Z :=
  match ped with
  | Some p => mean_at (round_mean p) ac
  | None => 0
  end + match found_in ws b ac with Some w => default 0 (delta_of ped (unpack_item w)) | None => 0 end.

Definition ped_means (ped : option AsadPedestal) : Prop :=
  match ped with
  | Some p => means_ok (round_mean p)
  | None => True
  end.

Lemma found_key ws b ac w : found_in ws b ac = Some w -> word_key w = (ac, b).
Proof. intros H. apply find_some in H as [_ H]. by apply bool_decide_eq_true in H. Qed.

(** The difference does not wrap. *)
Lemma delta_value ped w : ped_means ped ->
  default 0 (delta_of ped (unpack_item w)) =
    match ped with
    | None => adc_of w
    | Some p => match get2 (round_mean p) (word_key w).1.1 (word_key w).1.2 with Some (Some m) => adc_of w - m | _ => 0 end
    end.
Proof.
  intros Hp. pose proof (unpack_nonneg w) as (_ & _ & _ & Ha). unfold delta_of, adc_of, word_key. cbn [fst snd]. destruct ped as [p |]; [| done].
  destruct (get2 (round_mean p) _ _) as [[m |] |] eqn:E; [| done | done]. destruct Hp as [_ Hm]. specialize (Hm _ _ _ E).
  set (a := item_adc (unpack_item w)) in *. change (i32_sub a m = a - m). unfold i32_sub. apply i32_small. lia.
Qed.

Lemma so_far_bounds ped ws b ac : ped_means ped ->
  0 <= so_far ped ws b ac <= match ped with Some p => mean_at (round_mean p) ac | None => 0 end + match found_in ws b ac with Some w => adc_of w | None => 0 end.
Proof.
  intros Hp. unfold so_far. assert (Hm : 0 <= match ped with Some p => mean_at (round_mean p) ac | None => 0 end).
  { destruct ped as [p |]; [| done]. unfold mean_at. destruct (get2 _ _ _) as [[m |] |] eqn:E; [| done | done]. destruct Hp as [_ Hp]. specialize (Hp _ _ _ E). lia. }
  destruct (found_in ws b ac) as [w |] eqn:Ew; [| lia].
  rewrite (delta_value ped w Hp), (found_key _ _ _ _ Ew). cbn [fst snd]. pose proof (unpack_nonneg w) as (_ & _ & _ & Ha).
  unfold adc_of in *. destruct ped as [p |]; [| lia]. unfold mean_at in *.
  destruct (get2 (round_mean p) ac.1 ac.2) as [[m |] |]; lia.
Qed.

Lemma so_far_all ped f b ac : ped_means ped -> so_far ped (words_of (items f)) b ac = filled ped f b ac.
Proof.
  intros Hp. unfold so_far, filled, sample_at. destruct (found_in (words_of (items f)) b ac) as [w |] eqn:Ew; cbn [fmap option_fmap option_map].
  - rewrite (delta_value ped w Hp), (found_key _ _ _ _ Ew). cbn [fst snd]. destruct ped as [p |]; [| done]. unfold mean_at.
    destruct (get2 (round_mean p) ac.1 ac.2) as [[m |] |]; cbn; unfold id; lia.
  - destruct ped as [p |]; [| done]. unfold mean_at. destruct (get2 (round_mean p) ac.1 ac.2) as [[m |] |]; cbn; unfold id; lia.
Qed.

(** Every strip's channel is a channel. *)
Lemma on_strip_channel board P s ac : on_strip r board P s ac = true -> ac ∈ channels.
Proof.
  unfold on_strip. destruct board as [cobo asad], ac as [aget ch]. cbn [fst snd]. intros H. apply channels_elem.
  destruct (in_table (all_boards (active_agets r)) (cobo, asad, aget, ch)) eqn:E.
  - apply in_table_inv in E as (n & _ & _ & _ & H1 & H2). lia.
  - by rewrite (role_outside r _ Hr E) in H.
Qed.

(** The words of the fragment, channel by channel. *)
Lemma word_deltas_tally f strips ped P s n b ws : strips !! plane_index P = Some n -> 1 <= s <= n -> 0 <= b < N_BUCKETS ->
  NoDup (map word_key ws) ->
  tally (omap (word_delta r f strips ped (plane_index P) (Z.to_nat ((s - 1) * N_BUCKETS + b))) ws) =
    over_strip (fun ac => match found_in ws b ac with Some w => default 0 (delta_of ped (unpack_item w)) | None => 0 end) f P s.
Proof.
  intros Hn Hs Hb Hnd. rewrite tally_omap. set (on := fun w => on_strip r (cobo f, asad f) P s (word_key w).1 && (item_bucket (unpack_item w) =? b)).
  rewrite (tally_map_ext _ (fun w => if on w then default 0 (delta_of ped (unpack_item w)) else 0)).
  2: { intros w _. rewrite (word_delta_on f strips ped P s n b w Hn Hs Hb). fold (on w). by destruct (on w). }
  rewrite (tally_classes word_key _ (map (fun ac => (ac, b)) channels)).
  - rewrite map_map. apply tally_map_ext. intros ac _. rewrite (tally_unique word_key _ (ac, b) ws Hnd). fold (found_in ws b ac).
    destruct (found_in ws b ac) as [w |] eqn:E; [| by destruct (on_strip _ _ _ _ _)]. apply found_key in E. unfold on. rewrite E. cbn [fst].
    rewrite (f_equal snd E : item_bucket (unpack_item w) = b). by rewrite Z.eqb_refl, andb_true_r.
  - apply (NoDup_fmap_2 (fun ac => (ac, b))), channels_nodup.
  - intros w _ Hw. destruct (on w) eqn:E; [| done]. apply andb_prop in E as [E1 E2]. apply Z.eqb_eq in E2.
    apply list_elem_of_fmap. exists (word_key w).1. split; [unfold word_key at 1; by rewrite E2 |]. by eapply on_strip_channel.
Qed.

(** The base of a restored fragment. *)
Lemma base_delta_tally table strips ped f P s n b : ped_good r table strips ped -> ped_cobo ped = cobo f -> ped_asad ped = asad f ->
  strips !! plane_index P = Some n -> 1 <= s <= n -> 0 <= b < N_BUCKETS ->
  let v := strip_base r (cobo f, asad f) (round_mean ped) P s in
  base_delta (Some ped) (plane_index P) (Z.to_nat ((s - 1) * N_BUCKETS + b)) = if v =? 0 then [] else [v].
Proof.
  intros (_ & _ & Hv) <- <- Hn Hs Hb v. specialize (Hv P n s Hn Hs). unfold base_delta. unfold cell in Hv. fold v in Hv.
  destruct (base ped !! plane_index P) as [row |]; [| done]. unfold N_BUCKETS in *.
  replace (Z.to_nat ((s - 1) * 512 + b) / Z.to_nat 512)%nat with (Z.to_nat (s - 1)); [by rewrite Hv |].
  apply (Nat.div_unique _ _ _ (Z.to_nat b)); lia.
Qed.

Lemma over_strip_add h h' f P s : over_strip (fun ac => h ac + h' ac) f P s = over_strip h f P s + over_strip h' f P s.
Proof. unfold over_strip. rewrite <- tally_map_add. apply tally_map_ext. intros ac _. by destruct (on_strip _ _ _ _ _). Qed.

Lemma over_strip_le h h' f P s : (forall ac, h ac <= h' ac) -> over_strip h f P s <= over_strip h' f P s.
Proof. intros H. apply tally_map_le. intros ac _. by destruct (on_strip _ _ _ _ _). Qed.

Lemma over_strip_zero f P s : over_strip (fun _ => 0) f P s = 0.
Proof. apply tally_map_zero. intros ac _. by destruct (on_strip _ _ _ _ _). Qed.

Lemma over_strip_ext h h' f P s : (forall ac, h ac = h' ac) -> over_strip h f P s = over_strip h' f P s.
Proof. intros H. apply tally_map_ext. intros ac _. by rewrite H. Qed.

(** A fragment: whatever part of its samples has been added, the cell has moved by what
    these channels come to. *)
Lemma fragment_part strips table peds P s n b f k : peds_good table strips peds -> sane_table table -> read_once f ->
  strips !! plane_index P = Some n -> 1 <= s <= n -> 0 <= b < N_BUCKETS ->
  let ds := fragment_deltas r strips peds (plane_index P) (Z.to_nat ((s - 1) * N_BUCKETS + b)) f in
  k = 0%nat \/
  exists ws, (exists j, ws = take j (words_of (items f))) /\ ((length ds <= k)%nat -> ws = words_of (items f)) /\
    tally (take k ds) = over_strip (so_far (restored peds f) ws b) f P s.
Proof.
  intros Hp Ht Hnd Hn Hs Hb ds. unfold ds, fragment_deltas. set (ped := restored peds f). set (i := Z.to_nat _). set (F := word_delta _ _ _ _ _ _).
  set (base := base_delta ped (plane_index P) i). assert (Hbase : (length base <= 1)%nat /\ tally base = over_strip (match ped with Some p => mean_at (round_mean p) | None => fun _ => 0 end) f P s).
  { unfold base. destruct ped as [p |] eqn:E; [| rewrite over_strip_zero; cbn; split; [lia | done]]. destruct (restored_good table strips peds f p Hp E) as (Hgood & Hc & Ha).
    unfold i. rewrite (base_delta_tally table strips p f P s n b Hgood Hc Ha Hn Hs Hb). fold (over_strip (mean_at (round_mean p)) f P s). cbv zeta.
    change (strip_base r (cobo f, asad f) (round_mean p) P s) with (over_strip (mean_at (round_mean p)) f P s).
    destruct (Z.eqb_spec (over_strip (mean_at (round_mean p)) f P s) 0) as [-> | Hz]; cbn [length]; [split; [lia | done] |]. split; [lia |]. unfold tally. cbn. lia. }
  destruct Hbase as [Hlen Hbase]. destruct (decide (k = 0%nat)) as [-> | Hk]; [by left |]. right.
  destruct (take_omap F (words_of (items f)) (k - length base)) as (j & Hj & Hall). exists (take j (words_of (items f))). split_and!.
  - by exists j.
  - intros Hle. rewrite length_app in Hle. apply Hall. lia.
  - rewrite take_app, (take_ge base k), tally_app, Hj, Hbase by lia. unfold F, i.
    rewrite (word_deltas_tally f strips ped P s n b) by (done || by apply read_once_take).
    rewrite <- over_strip_add. apply over_strip_ext. intros ac. unfold so_far. by destruct ped.
Qed.

Lemma restored_means strips table peds f : peds_good table strips peds -> sane_table table -> ped_means (restored peds f).
Proof.
  intros Hp Ht. destruct (restored peds f) as [p |] eqn:E; [| done]. destruct (restored_good table strips peds f p Hp E) as ((_ & Hm & _) & _).
  cbn. rewrite Hm. by apply means_of_ok.
Qed.

Lemma so_far_moved ped f j b ac : ped_means ped -> 0 <= so_far ped (take j (words_of (items f))) b ac <= moved ped f b ac.
Proof.
  intros Hp. pose proof (so_far_bounds ped (take j (words_of (items f))) b ac Hp) as [H1 H2]. split; [done |]. unfold moved, sample_at.
  etransitivity; [exact H2 |]. apply Z.add_le_mono_l. pose proof (fun w => unpack_nonneg w) as Hn.
  destruct (found_in (take j _) b ac) as [w |] eqn:E.
  - rewrite (found_take _ _ _ _ _ E). change (adc_of w <= adc_of w). done.
  - destruct (found_in (words_of (items f)) b ac) as [w |]; [| done]. destruct (Hn w) as (_ & _ & _ & Ha). exact (proj1 Ha).
Qed.

Lemma fragment_bounds strips table peds P s n b f : peds_good table strips peds -> sane_table table -> read_once f ->
  strips !! plane_index P = Some n -> 1 <= s <= n -> 0 <= b < N_BUCKETS ->
  let ds := fragment_deltas r strips peds (plane_index P) (Z.to_nat ((s - 1) * N_BUCKETS + b)) f in
  (forall k, 0 <= tally (take k ds) <= over_strip (moved (restored peds f) f b) f P s) /\
  tally ds = over_strip (filled (restored peds f) f b) f P s.
Proof.
  intros Hp Ht Hnd Hn Hs Hb ds. pose proof (restored_means _ _ _ f Hp Ht) as Hm. split.
  - intros k. destruct (fragment_part strips table peds P s n b f k Hp Ht Hnd Hn Hs Hb) as [-> | (ws & (j & ->) & _ & E)].
    + rewrite take_0. change (tally []) with 0. split; [done |]. rewrite <- (over_strip_zero f P s). apply over_strip_le.
      intros ac. pose proof (so_far_moved _ f 0 b ac Hm). lia.
    + fold ds in E. rewrite E. split; [rewrite <- (over_strip_zero f P s) |]; apply over_strip_le; intros ac; pose proof (so_far_moved _ f j b ac Hm); lia.
  - destruct (fragment_part strips table peds P s n b f (S (length ds)) Hp Ht Hnd Hn Hs Hb) as [| (ws & _ & Hall & E)]; [done |].
    fold ds in E, Hall. rewrite take_ge in E by lia. rewrite E, (Hall ltac:(lia)). apply over_strip_ext. intros ac. by apply so_far_all.
Qed.

(** A converter of a geometry, with or without a table of pedestals, at any moment. *)
Definition ready (d : DisplayConverter) : Prop :=
  display_ok r d /\ exists table, sane_table table /\ peds_good table (n_strips d) (pedestals d).

Lemma uvw_ready event d : Forall board_ok (fragments event) -> ready d ->
  exists ms d', uvw event d = Val (ms, d') /\ ready d' /\ n_strips d' = n_strips d /\ pedestals d' = pedestals d.
Proof.
  intros Hb [Hd (table & Ht & Hp)]. destruct (uvw_spec r Hr event d Hb Hd) as (d' & E & Hd' & Hn & Hpd & _).
  eexists _, d'. split; [exact E |]. split; [| done]. split; [done |]. exists table. by rewrite Hn, Hpd.
Qed.

(** Without restored fragments the cells only grow. *)
Lemma plain_deltas f strips peds p i : restored peds f = None -> Forall (fun d => 0 <= d <= 2 ^ 20) (fragment_deltas r strips peds p i f).
Proof.
  intros E. unfold fragment_deltas. rewrite E. cbn [base_delta app]. apply list.Forall_forall. intros d Hd. apply list_elem_of_omap in Hd as (w & _ & Hd).
  pose proof (unpack_nonneg w) as (_ & _ & _ & Ha). unfold word_delta in Hd. destruct (role_in _ _ _ _) as [plane section strip | | |]; try done.
  destruct (strips !! _); [| done]. destruct (_ || _); [done |]. case_decide; [| done]. change (Some (item_adc (unpack_item w)) = Some d) in Hd. assert (d = item_adc (unpack_item w)) as -> by congruence. lia.
Qed.

(** What a cell holds, of the pedestals and the fragments of the event. *)
Definition cell_comes_to (peds : option (list AsadPedestal)) (fs : list Fragment) (P : Plane) (s b v : Z) : Prop :=
  ((forall f, f ∈ fs -> restored peds f = None) -> v = Z.min 65535 (shown peds fs P s b)) /\
  (at_most peds fs P s b <= 65535 -> v = shown peds fs P s b).

(** The messages of an event, of the grids they are made of. *)
Definition event_messages (event : BuiltEventPayload) (d : DisplayConverter) : list bytes :=
  map (fun p => uvw_message (header_of_event TYPE_UVW (event_run event) (built_idx event) (negb (complete event)))
                  (Z.of_nat p) (strips_of d p) N_BUCKETS (grid_of d p)) [0; 1; 2]%nat.

(** An event's grids. *)
Lemma uvw_cells event d : Forall board_ok (fragments event) -> Forall read_once (fragments event) -> ready d ->
  exists d', uvw event d = Val (event_messages event d', d') /\ forall P n s b, n_strips d !! plane_index P = Some n -> 1 <= s <= n -> 0 <= b < N_BUCKETS ->
    exists v, cell (grids d') (plane_index P) (Z.to_nat ((s - 1) * N_BUCKETS + b)) = Some v /\ cell_comes_to (pedestals d) (fragments event) P s b v.
Proof.
  intros Hb Ho [Hd (table & Ht & Hp)]. destruct (uvw_spec r Hr event d Hb Hd) as (d' & E & Hd' & Hns & Hpd & Hcell).
  exists d'. split; [rewrite E; unfold event_messages, strips_of; by rewrite Hns |]. intros P n s b Hn Hs Hbk.
  set (i := (s - 1) * N_BUCKETS + b). specialize (Hcell (plane_index P) n i Hn ltac:(unfold i, N_BUCKETS in *; nia)).
  set (D := fragment_deltas r (n_strips d) (pedestals d) (plane_index P) (Z.to_nat i)) in *.
  exists (cell_after (flat_map D (fragments event)) 0). split; [exact Hcell |].
  assert (Hsum : tally (flat_map D (fragments event)) = shown (pedestals d) (fragments event) P s b).
  { rewrite tally_flat_map. apply tally_map_ext. intros f Hf.
    exact (proj2 (fragment_bounds (n_strips d) table (pedestals d) P s n b f Hp Ht (proj1 (list.Forall_forall _ _) Ho f Hf) Hn Hs Hbk)). }
  split.
  - intros Hplain. rewrite cell_after_nonneg, Hsum; [done | lia |]. apply List.Forall_flat_map, list.Forall_forall. intros f Hf. by apply plain_deltas, Hplain.
  - intros Hmost. rewrite cell_after_exact, Hsum; [done | lia |]. intros k. rewrite Z.add_0_l.
    pose proof (parts_bounded D (fun f => over_strip (moved (restored (pedestals d) f) f b) f P s) (fragments event)) as Hpb.
    assert (Hk : forall f, f ∈ fragments event -> forall k, 0 <= tally (take k (D f)) <= over_strip (moved (restored (pedestals d) f) f b) f P s).
    { intros f Hf. exact (proj1 (fragment_bounds (n_strips d) table (pedestals d) P s n b f Hp Ht (proj1 (list.Forall_forall _ _) Ho f Hf) Hn Hs Hbk)). }
    specialize (Hpb Hk k). unfold at_most in Hmost. lia.
Qed.
End Shown.

(** ** Sample by sample: the waveforms, and the last event *)

(** The place of a channel's bucket in a board's block. *)
Definition place (ac : Z * Z) (b : Z) : Z := (ac.1 * RAW_CH_PER_AGET + ac.2) * N_BUCKETS + b.
Definition on_board (ac : Z * Z) : Prop := 0 <= ac.1 < AGET_CHIPS_PER_ASAD /\ 0 <= ac.2 < RAW_CH_PER_AGET.
Definition block_len : Z := AGET_CHIPS_PER_ASAD * RAW_CH_PER_AGET * N_BUCKETS.

Lemma place_bound ac b : on_board ac -> 0 <= b < N_BUCKETS -> 0 <= place ac b < block_len.
Proof. unfold on_board, place, block_len, AGET_CHIPS_PER_ASAD, RAW_CH_PER_AGET, N_BUCKETS. lia. Qed.

Lemma place_inj ac b ac' b' : on_board ac -> on_board ac' -> 0 <= b < N_BUCKETS -> 0 <= b' < N_BUCKETS -> place ac b = place ac' b' -> (ac, b) = (ac', b').
Proof.
  destruct ac as [a c], ac' as [a' c']. unfold on_board, place, AGET_CHIPS_PER_ASAD, RAW_CH_PER_AGET, N_BUCKETS. cbn [fst snd]. intros. assert (a = a' /\ c = c' /\ b = b') as (-> & -> & ->) by lia. done.
Qed.

(** One word after another is put at its place. *)
Section Blocks.
Context (value : Z -> Z) (put : Z -> list Z -> list Z).
Context (put_on : forall w l, len l = block_len -> on_board (word_key w).1 -> put w l = <[Z.to_nat (place (word_key w).1 (word_key w).2) := value w]> l).
Context (put_off : forall w l, ~ on_board (word_key w).1 -> put w l = l).

Lemma found_snoc ws w b ac : found_in (ws ++ [w]) b ac = match found_in ws b ac with Some v => Some v | None => if bool_decide (word_key w = (ac, b)) then Some w else None end.
Proof. unfold found_in. induction ws as [| x ws IH]; cbn [app List.find]; [done |]. by destruct (bool_decide (word_key x = (ac, b))). Qed.

Lemma found_absent ws b ac : (ac, b) ∉ map word_key ws -> found_in ws b ac = None.
Proof.
  intros H. destruct (found_in ws b ac) as [w |] eqn:E; [| done]. exfalso. apply H. apply find_some in E as [Hin Hk].
  apply bool_decide_eq_true in Hk. rewrite <- Hk. by apply list_elem_of_In, in_map.
Qed.

Lemma put_all ws l0 ac b : NoDup (map word_key ws) -> len l0 = block_len -> on_board ac -> 0 <= b < N_BUCKETS ->
  let l := fold_left (fun l w => put w l) ws l0 in
  len l = block_len /\ l !! Z.to_nat (place ac b) = match found_in ws b ac with Some w => Some (value w) | None => l0 !! Z.to_nat (place ac b) end.
Proof.
  intros Hnd Hl Hac Hb. induction ws as [| w ws IH] using rev_ind; [done |]. rewrite map_app in Hnd. cbn [map] in Hnd.
  apply list.NoDup_app in Hnd as (Hnd & Hnot & _). destruct (IH Hnd) as [IHl IHv]. rewrite fold_left_app. cbn [fold_left]. set (l := fold_left _ ws l0) in *.
  destruct (decide (word_key w = (ac, b))) as [Hk | Hk].
  - assert (Hput : put w l = <[Z.to_nat (place ac b) := value w]> l) by (rewrite put_on; rewrite ?Hk; done). cbv zeta. rewrite Hput.
    split; [unfold len in *; by rewrite length_insert |]. pose proof (place_bound ac b Hac Hb). rewrite list_lookup_insert_eq by (unfold len in IHl; lia).
    rewrite found_snoc, found_absent; [by rewrite bool_decide_true |]. intros Hin. apply (Hnot (ac, b) Hin). rewrite Hk. by left.
  - rewrite found_snoc, (bool_decide_false _ Hk). assert (Hv : match found_in ws b ac with Some v => Some v | None => None end = found_in ws b ac) by (by destruct (found_in ws b ac)).
    rewrite Hv. destruct (decide (on_board (word_key w).1)) as [Hon | Hoff].
    + rewrite (put_on w l IHl Hon). split; [unfold len in *; by rewrite length_insert |]. rewrite <- IHv. apply list_lookup_insert_ne. intros E. apply Hk.
      pose proof (unpack_nonneg w) as (_ & _ & Hbk & _). assert (Hbw : 0 <= (word_key w).2 < N_BUCKETS) by exact Hbk.
      pose proof (place_bound _ _ Hon Hbw). pose proof (place_bound _ _ Hac Hb). rewrite <- (place_inj _ _ _ _ Hon Hac Hbw Hb); [by destruct (word_key w) | lia].
    + by rewrite (put_off w l Hoff).
Qed.
End Blocks.

Lemma on_board_test w : (AGET_CHIPS_PER_ASAD <=? item_aget (unpack_item w)) || (RAW_CH_PER_AGET <=? item_chan (unpack_item w)) = negb (bool_decide (on_board (word_key w).1)).
Proof.
  pose proof (unpack_nonneg w) as (Ha & Hc & _). apply Bool.eq_iff_eq_true. rewrite orb_true_iff, negb_true_iff, bool_decide_eq_false, !Z.leb_le.
  unfold on_board, word_key. cbn [fst snd]. lia.
Qed.

(** A board's waveforms: its samples, and zero where nothing was read. *)
Lemma wave_block f (wave : list Z) ac b : read_once f -> len wave = block_len -> on_board ac -> 0 <= b < N_BUCKETS ->
  fold_left (fun wave w => put_wave w wave) (words_of (items f)) (map (fun _ : Z => 0) (wave : list Z)) !! Z.to_nat (place ac b) = Some (default 0 (sample_at f b ac)).
Proof.
  intros Hnd Hl Hac Hb. assert (Hl0 : len (map (fun _ : Z => 0) wave) = block_len) by (unfold len in *; by rewrite length_map).
  destruct (put_all adc_of put_wave) with (ws := words_of (items f)) (l0 := map (fun _ : Z => 0) wave) (ac := ac) (b := b) as [_ ->]; try done.
  - intros w l Hlw Hon. unfold put_wave. rewrite on_board_test, bool_decide_true by done. cbn [negb]. pose proof (unpack_nonneg w) as (_ & _ & Hbk & _).
    pose proof (place_bound _ _ Hon (Hbk : 0 <= (word_key w).2 < N_BUCKETS)) as Hp. unfold place in Hp.
    change ((item_aget (unpack_item w) * RAW_CH_PER_AGET + item_chan (unpack_item w)) * N_BUCKETS + item_bucket (unpack_item w)) with (place (word_key w).1 (word_key w).2).
    rewrite (proj2 (Z.ltb_lt _ _)); [done |]. rewrite Hlw. exact (proj2 (place_bound _ _ Hon (Hbk : 0 <= (word_key w).2 < N_BUCKETS))).
  - intros w l Hoff. unfold put_wave. by rewrite on_board_test, bool_decide_false.
  - unfold sample_at. destruct (found_in (words_of (items f)) b ac); [done |]. rewrite list_lookup_fmap. pose proof (place_bound ac b Hac Hb).
    destruct (lookup_lt_is_Some_2 wave (Z.to_nat (place ac b))) as [x ->]; [unfold len in Hl; lia | done].
Qed.

(** The samples of the last event: -1 where nothing was read. *)
Lemma last_block f ac b : read_once f -> on_board ac -> 0 <= b < N_BUCKETS ->
  (last_grid f).1 !! Z.to_nat (place ac b) = Some (default (-1) (sample_at f b ac)).
Proof.
  intros Hnd Hac Hb. set (put := fun w l => (put_last w (l, 0)).1).
  assert (Hput : forall ws l n, (fold_left (fun t w => put_last w t) ws (l, n)).1 = fold_left (fun l w => put w l) ws l).
  { induction ws as [| w ws IH]; intros l n; [done |]. cbn [fold_left]. destruct (put_last w (l, n)) as [l' n'] eqn:E. rewrite IH. f_equal.
    unfold put, put_last in *. cbn [fst snd] in *. destruct (_ || _); symmetry; exact (f_equal fst E). }
  unfold last_grid. rewrite Hput. fold block_len. pose proof (place_bound ac b Hac Hb) as Hp. assert (Hv0 : repeat (-1) (Z.to_nat block_len) !! Z.to_nat (place ac b) = Some (-1)) by (apply lookup_repeat; lia).
  assert (Hl0 : len (repeat (-1) (Z.to_nat block_len)) = block_len) by (unfold len; rewrite repeat_length; lia).
  revert Hv0 Hl0. generalize (repeat (-1) (Z.to_nat block_len)) as l0. intros l0 Hv0 Hl0.
  destruct (put_all adc_of put) with (ws := words_of (items f)) (l0 := l0) (ac := ac) (b := b) as [_ ->]; try done.
  - intros w l Hlw Hon. pose proof (unpack_nonneg w) as (_ & _ & Hbk & Hadc). unfold put, put_last. rewrite on_board_test, bool_decide_true by done. cbn [negb orb].
    rewrite (proj2 (Z.leb_gt N_BUCKETS (item_bucket (unpack_item w)))) by exact (proj2 Hbk). cbn [fst].
    change ((item_aget (unpack_item w) * RAW_CH_PER_AGET + item_chan (unpack_item w)) * N_BUCKETS + item_bucket (unpack_item w)) with (place (word_key w).1 (word_key w).2).
    f_equal. unfold adc_of. apply signed_small. lia.
  - intros w l Hoff. unfold put, put_last. by rewrite on_board_test, bool_decide_false.
  - unfold sample_at. destruct (found_in (words_of (items f)) b ac); [done | exact Hv0].
Qed.

(** Every histogram of a snapshot is shown or counted as malformed. *)
Lemma histos_account nan32 run hs : forall d, let '(messages, d') := histos nan32 run hs d in
  len messages + malformed_hists (counts d') = len hs + malformed_hists (counts d) /\ grids d' = grids d.
Proof.
  induction hs as [| h hs IH]; intros d; cbn [histos]; [done |]. destruct (is_consistent h).
  - specialize (IH d). destruct (histos nan32 run hs d) as [ms d']. rewrite !len_cons. split; [lia | apply IH].
  - set (d1 := d <| counts ::= _ |>). specialize (IH d1). destruct (histos nan32 run hs d1) as [ms d']. rewrite len_cons.
    destruct IH as [H1 H2]. assert (E : malformed_hists (counts d1) = incr (malformed_hists (counts d))) by done. rewrite E in H1. unfold incr in H1. split; [lia | done].
Qed.

(** The check of a histogram's length wraps: one that names 2^61 bins and has none passes. *)
Lemma overflowing_histogram : is_consistent (mkHist 0 "" (2 ^ 31) (2 ^ 30) []) = true.
Proof. vm_compute. reflexivity. Qed.

(** ** The converter at the start *)

(** The highest strips: one number per plane. *)
Definition maxes_ok (r : Reading) : Prop := length (read_max_strip r) = 3%nat /\ Forall (fun n => 0 <= n) (read_max_strip r).

Lemma bump_max_ok p strip maxes : length maxes = 3%nat -> Forall (fun n => 0 <= n) maxes ->
  length (bump_max p strip maxes) = 3%nat /\ Forall (fun n => 0 <= n) (bump_max p strip maxes).
Proof.
  intros Hl Hm. unfold bump_max. destruct (maxes !! p) as [m |] eqn:E; [| done]. destruct (Z.ltb_spec m strip) as [Hlt |]; [| done].
  split; [by rewrite length_insert |]. apply Forall_insert; [done |]. pose proof (Forall_lookup_1 _ _ _ _ Hm E) as H. cbn in H. lia.
Qed.

Lemma push_strip_maxes p n r : maxes_ok r -> maxes_ok (push_strip p n r).
Proof. intros [H1 H2]. unfold push_strip. destruct (get _ _); [| done]. by apply bump_max_ok. Qed.

Lemma push_aux_maxes p n r : maxes_ok r -> maxes_ok (push_aux p n r).
Proof. intros H. unfold push_aux. by destruct (get _ _). Qed.

Lemma take_line_maxes n l r : maxes_ok r -> maxes_ok (take_line n l r).
Proof.
  intros H. unfold take_line. destruct (_ || _); [done |]. destruct (try_parse_header_scalar _ _); [done |]. unfold take_tokens.
  destruct (length _) as [| [| [| [| [| [| [| [| [| [| [| ]]]]]]]]]]]; try done.
  - destruct (parse_aux_line _); [by apply push_aux_maxes | done].
  - destruct (parse_legacy_strip_line _); [by apply push_strip_maxes | done].
  - destruct (parse_new_strip_line _); [by apply push_strip_maxes | done].
Qed.

Lemma read_text_maxes text : maxes_ok (read_text text).
Proof.
  unfold read_text. assert (H : maxes_ok (mkReading no_header [] [] [] [0; 0; 0])) by (split; [done | by repeat constructor]).
  revert H. generalize (mkReading no_header [] [] [] [0; 0; 0]) as r. generalize 1 as n.
  induction (str_lines text) as [| l ls IH]; intros n r H; [done |]. cbn [take_lines]. by apply IH, take_line_maxes.
Qed.

(** The monitor's converter: [run] of [mod.rs], of a table that has been read. *)
Definition startup_converter (ped_table : option (list PedestalChannel)) (g : Geometry) : rust DisplayConverter :=
  match ped_table with
  | Some table => with_pedestal_table table (new_converter g)
  | None => Val (new_converter g)
  end.

Definition sane_ped_table (ped_table : option (list PedestalChannel)) : Prop :=
  match ped_table with
  | Some table => sane_table table
  | None => True
  end.

Section Startup.
Context (r : Reading) (Hr : reading_ok r) (Hm : maxes_ok r).

Lemma new_converter_ok g : table_of r g -> display_ok r (new_converter g).
Proof.
  intros Hg. destruct Hm as [Hl Hn]. destruct (table_header r g Hg) as [_ E]. split; unfold new_converter; cbn [geometry n_strips grids pedestals]; rewrite ?E; try done.
  apply Forall2_fmap_r, Forall_Forall2_diag. eapply list.Forall_impl; [exact Hn |]. intros n H. cbn in *. split; [done |].
  unfold len, N_BUCKETS. rewrite repeat_length. lia.
Qed.

Lemma inventory_nonneg g : table_of r g -> Forall (fun b => 0 <= b.1 /\ 0 <= b.2) (asad_inventory g).
Proof.
  intros Hg. rewrite (inventory_spec r g Hr Hg). apply List.Forall_flat_map, list.Forall_forall. intros c Hc%elem_of_seqZ.
  apply List.Forall_map, list.Forall_forall. intros a Ha%elem_of_seqZ. cbn. lia.
Qed.

(** The pedestals are those of the boards of the file, by the table. *)
Definition made_of (ped_table : option (list PedestalChannel)) (d : DisplayConverter) : Prop :=
  match ped_table, pedestals d with
  | Some table, Some peds =>
      map (fun ped => (ped_cobo ped, ped_asad ped)) peds =
        flat_map (fun cobo => map (pair cobo) (seqZ 0 (boards (active_agets r) cobo))) (seqZ 0 (crates (active_agets r))) /\
      Forall (fun ped => round_mean ped = means_of (ped_asad ped) table) peds
  | None, None => True
  | _, _ => False
  end.

Lemma startup_ready ped_table g : table_of r g -> sane_ped_table ped_table ->
  exists d, startup_converter ped_table g = Val d /\ ready r d /\ n_strips d = read_max_strip r /\ made_of ped_table d.
Proof.
  intros Hg Ht. pose proof (new_converter_ok g Hg) as Hok. destruct (table_header r g Hg) as [_ E]. destruct ped_table as [table |]; cbn [startup_converter sane_ped_table] in *.
  - unfold with_pedestal_table. cbn [geometry n_strips new_converter].
    destruct (board_pedestals_spec r Hr table (max_strip g) (asad_inventory g) g Ht) as (g' & peds & -> & Hg' & Hboards & Hgood).
    { rewrite E. exact (proj2 Hm). }
    { by apply inventory_nonneg. }
    { done. }
    cbn [rust_bind]. eexists. split; [done |]. split; [| split; [by rewrite <- E |]].
    2: { unfold made_of. cbn [pedestals]. split; [by rewrite Hboards, (inventory_spec r g Hr Hg) |]. eapply list.Forall_impl; [exact Hgood |]. by intros ped (_ & H & _). }
    split; [| by exists table].
    destruct Hok as [_ H2 H3 _]. split; [done | done | done |]. eapply list.Forall_impl; [exact Hgood |]. by intros ped (H & _).
  - eexists. split; [done |]. split; [| split; [by rewrite <- E | done]]. split; [done |]. exists []. by split; [constructor |].
Qed.

Fixpoint uvw_each (events : list BuiltEventPayload) (d : DisplayConverter) : rust DisplayConverter :=
  match events with
  | [] => Val d
  | e :: events => let! (_, d) := uvw e d in uvw_each events d
  end.

Lemma uvw_each_ready events : forall d, Forall (fun e => Forall board_ok (fragments e)) events -> ready r d ->
  exists d', uvw_each events d = Val d' /\ ready r d' /\ n_strips d' = n_strips d /\ pedestals d' = pedestals d.
Proof.
  induction events as [| e events IH]; intros d He Hd; cbn [uvw_each]; [by exists d |]. apply List.Forall_cons_iff in He as [He Hes].
  destruct (uvw_ready r Hr e d He Hd) as (ms & d1 & -> & Hd1 & Hn1 & Hp1). cbn [rust_bind].
  destruct (IH d1 Hes Hd1) as (d' & E & Hd' & Hn & Hp). exists d'. split_and!; [done | done | congruence | congruence].
Qed.
End Startup.

(** ** What a cell is to hold

    Of the geometry file, the table of pedestals and the fragments alone: which
    fragments were read zero-suppressed, what is put back for which channel, and the
    sums. *)

(** The samples of a channel, and those in the window of the pedestals. *)
Definition samples_of (ws : list Z) (ac : Z * Z) : Z := countb (fun w => bool_decide ((word_key w).1 = ac)) ws.
Definition in_window (w : Z) : bool := (1 <=? (word_key w).2) && ((word_key w).2 <=? 20).
Definition window_samples_of (ws : list Z) (ac : Z * Z) : Z := countb (fun w => bool_decide ((word_key w).1 = ac) && in_window w) ws.

(** Of the channels that were read more than half are short of the window's 20 samples. *)
Definition channels_read (ws : list Z) : Z := countb (fun ac => negb (samples_of ws ac =? 0)) channels.
Definition channels_short (ws : list Z) : Z := countb (fun ac => negb (samples_of ws ac =? 0) && (window_samples_of ws ac <? 20)) channels.
Definition zero_suppressed (f : Fragment) : bool := channels_read (words_of (items f)) <? 2 * channels_short (words_of (items f)).

(** The mean of a channel: the last row of the table for it, rounded. *)
Definition row_mean (asad : Z) (ac : Z * Z) (c : PedestalChannel) : option Z :=
  if (ped_ch_asad c =? asad) && bool_decide ((ped_ch_aget c, ped_ch_ch c) = ac) then Some (round_i32 (mean c)) else None.
Definition table_mean (table : list PedestalChannel) (asad : Z) (ac : Z * Z) : option Z := list.last (omap (row_mean asad ac) table).

Section CellSpec.
Context (r : Reading) (ped_table : option (list PedestalChannel)).

(** The file has the board. *)
Definition known_board (f : Fragment) : bool :=
  (0 <=? cobo f) && (cobo f <? crates (active_agets r)) && (0 <=? asad f) && (asad f <? boards (active_agets r) (cobo f)).

(** The table that a fragment's missing samples are put back from, if they are. *)
Definition puts_back (f : Fragment) : option (list PedestalChannel) :=
  if zero_suppressed f && known_board f then ped_table else None.

Definition channel_value (f : Fragment) (b : Z) (ac : Z * Z) : Z :=
  match puts_back f with
  | None => default 0 (sample_at f b ac)
  | Some table => match table_mean table (asad f) ac with Some m => default m (sample_at f b ac) | None => 0 end
  end.

Definition channel_most (f : Fragment) (b : Z) (ac : Z * Z) : Z :=
  match puts_back f with
  | None => 0
  | Some table => default 0 (table_mean table (asad f) ac)
  end + default 0 (sample_at f b ac).

Definition strip_sum (h : Fragment -> Z -> Z * Z -> Z) (fs : list Fragment) (P : Plane) (s b : Z) : Z :=
  tally (map (fun f => over_strip r (h f b) f P s) fs).

Definition cell_right (fs : list Fragment) (P : Plane) (s b v : Z) : Prop :=
  ((forall f, f ∈ fs -> puts_back f = None) -> v = Z.min 65535 (strip_sum channel_value fs P s b)) /\
  (strip_sum channel_most fs P s b <= 65535 -> v = strip_sum channel_value fs P s b).
End CellSpec.

(** *** The predicate counts what it is to count *)

Lemma get2_alter2_eq {A : Type} (f : A -> A) a c (t : Table A) a' c' :
  get2 (alter2 f a c t) a' c' = if decide ((a', c') = (a, c)) then f <$> get2 t a' c' else get2 t a' c'.
Proof.
  unfold get2, alter2, get. destruct (decide ((a', c') = (a, c))) as [E | E].
  - injection E as -> ->. destruct (0 <=? a); [| done]. destruct (0 <=? c); cbn [andb]; [| by destruct (t !! Z.to_nat a)].
    rewrite list_alter_lookup, decide_True by done. destruct (t !! Z.to_nat a) as [row |]; [| done]. cbn [fmap option_fmap option_map].
    by rewrite list_alter_lookup, decide_True.
  - destruct ((0 <=? a) && (0 <=? c)) eqn:Hac; [| done]. apply andb_prop in Hac as [Ha Hc]. destruct (0 <=? a') eqn:Ha'; [| done].
    rewrite list_alter_lookup. destruct (decide (a' = a)) as [-> | Hne].
    + rewrite decide_True by done. destruct (t !! Z.to_nat a) as [row |]; [| done]. cbn [fmap option_fmap option_map]. destruct (0 <=? c') eqn:Hc'; [| done].
      rewrite list_alter_lookup, decide_False; [done |]. assert (c' <> c) by congruence. lia.
    + rewrite decide_False by lia. done.
Qed.

Lemma concat_channels {A : Type} (d : A) (t : Table A) : shaped t -> concat t = map (fun ac => default d (get2 t ac.1 ac.2)) channels.
Proof.
  intros Hs. assert (E : map snd (entries t) = concat t).
  { unfold entries, enumerate. assert (H : forall (l : Table A) i n, (length l <= n)%nat ->
      map snd (flat_map (fun '(aget, row) => map (fun '(ch, x) => (aget, ch, x)) (zip (seqZ 0 (len row)) row)) (zip (seqZ i (Z.of_nat n)) l)) = concat l).
    { induction l as [| row l IH]; intros i n Hn; [by destruct (seqZ i (Z.of_nat n)) |]. destruct n as [| n]; [cbn in Hn; lia |].
      rewrite seqZ_cons by lia. cbn [zip zip_with flat_map concat]. rewrite map_app. f_equal.
      - rewrite map_map. assert (Hrow : forall (row : list A) j m, (length row <= m)%nat -> map (fun x => snd (let '(ch, x) := x in (i, ch, x))) (zip (seqZ j (Z.of_nat m)) row) = row); [| by apply Hrow].
        induction row0 as [| x row0 IHr]; intros j m Hm; [by destruct (seqZ j (Z.of_nat m)) |]. destruct m as [| m]; [cbn in Hm; lia |].
        rewrite seqZ_cons by lia. cbn [zip zip_with map snd]. f_equal. replace (Z.pred (Z.of_nat (S m))) with (Z.of_nat m) by lia. apply IHr. cbn in Hm. lia.
      - replace (Z.pred (Z.of_nat (S n))) with (Z.of_nat n) by lia. apply IH. cbn in Hn. lia. }
    unfold len. by apply H. }
  rewrite <- E, (entries_channels d t Hs), map_map. apply map_ext. by intros [a c].
Qed.

Lemma count_words ws : forall t, shaped t.1 -> shaped t.2 ->
  let t' := fold_left (fun t w => count_word w t) ws t in
  shaped t'.1 /\ shaped t'.2 /\ forall ac, ac ∈ channels ->
    get2 t'.1 ac.1 ac.2 = (fun n => n + samples_of ws ac) <$> get2 t.1 ac.1 ac.2 /\
    get2 t'.2 ac.1 ac.2 = (fun n => n + window_samples_of ws ac) <$> get2 t.2 ac.1 ac.2.
Proof.
  induction ws as [| w ws IH]; intros t H1 H2; cbn [fold_left].
  { cbv zeta. split_and!; [done | done |]. intros ac _. unfold samples_of, window_samples_of. cbn [countb].
    split; [destruct (get2 t.1 ac.1 ac.2) | destruct (get2 t.2 ac.1 ac.2)]; cbn; f_equal; lia. }
  set (t1 := count_word w t).
  assert (Ht1 : shaped t1.1 /\ shaped t1.2 /\ forall ac, ac ∈ channels ->
    get2 t1.1 ac.1 ac.2 = (fun n => n + samples_of [w] ac) <$> get2 t.1 ac.1 ac.2 /\
    get2 t1.2 ac.1 ac.2 = (fun n => n + window_samples_of [w] ac) <$> get2 t.2 ac.1 ac.2).
  { unfold t1, count_word. fold (word_key w). unfold samples_of, window_samples_of. cbn [countb].
    destruct (get2 t.1 (item_aget (unpack_item w)) (item_chan (unpack_item w))) as [n0 |] eqn:E0; cbn [fst snd].
    - split; [by apply alter2_shaped |]. split; [destruct (_ && _); [by apply alter2_shaped | done] |]. intros [a c] Hac. cbn [fst snd]. split.
      + rewrite get2_alter2_eq. unfold word_key. cbn [fst]. destruct (decide ((a, c) = _)) as [E | E].
        * rewrite bool_decide_eq_true_2 by done. destruct (get2 t.1 a c); [| done]. cbn; f_equal; unfold incr; lia.
        * rewrite bool_decide_eq_false_2 by congruence. destruct (get2 t.1 a c); [| done]; cbn; f_equal; lia.
      + unfold in_window, PED_LO, PED_HI. change ((word_key w).2) with (item_bucket (unpack_item w)). destruct (_ && _) eqn:Ew.
        * rewrite andb_true_r, get2_alter2_eq. unfold word_key. cbn [fst]. destruct (decide ((a, c) = _)) as [E | E].
          -- rewrite bool_decide_eq_true_2 by done. destruct (get2 t.2 a c); [| done]. cbn; f_equal; unfold incr; lia.
          -- rewrite bool_decide_eq_false_2 by congruence. destruct (get2 t.2 a c); [| done]; cbn; f_equal; lia.
        * rewrite andb_false_r. destruct (get2 t.2 a c); [| done]; cbn; f_equal; lia.
    - split; [done |]. split; [done |]. intros [a c] Hac. cbn [fst snd]. rewrite bool_decide_eq_false_2.
      + cbn [andb]. split; [destruct (get2 t.1 a c) | destruct (get2 t.2 a c)]; try done; cbn; f_equal; lia.
      + unfold word_key. cbn [fst]. intros E. pose proof (f_equal fst E) as Ea. pose proof (f_equal snd E) as Ec. cbn [fst snd] in Ea, Ec. rewrite Ea, Ec in E0. apply channels_elem in Hac as [Ha Hc]. destruct H1 as [Hl Hr].
        destruct (lookup_lt_is_Some_2 t.1 (Z.to_nat a)) as [row Hrow]; [rewrite Hl; unfold AGETS; lia |].
        unfold get2 in E0. rewrite (proj2 (get_some t.1 a row)) in E0 by (split; [lia | done]).
        destruct (lookup_lt_is_Some_2 row (Z.to_nat c)) as [x Hx]; [rewrite (Forall_lookup_1 _ _ _ _ Hr Hrow); unfold RAW_CH; lia |].
        by rewrite (proj2 (get_some row c x)) in E0 by (split; [lia | done]). }
  destruct Ht1 as (Hs1 & Hs2 & Hv). destruct (IH t1 Hs1 Hs2) as (Hs1' & Hs2' & Hv'). cbv zeta. split_and!; [done | done |].
  intros ac Hac. destruct (Hv ac Hac) as [E1 E2]. destruct (Hv' ac Hac) as [E1' E2']. rewrite E1', E2', E1, E2.
  unfold samples_of, window_samples_of. cbn [countb]. split; [destruct (get2 t.1 ac.1 ac.2) | destruct (get2 t.2 ac.1 ac.2)]; try done; cbn; f_equal; lia.
Qed.

Lemma short_counts {A : Type} (f g : A -> Z) (l : list A) : forall acc, short_of_window (map f l) (map g l) acc =
  (acc.1 + countb (fun x => negb (f x =? 0)) l, acc.2 + countb (fun x => negb (f x =? 0) && (g x <? 20)) l).
Proof.
  induction l as [| x l IH]; intros acc; cbn [map short_of_window countb]; [destruct acc; cbn; f_equal; lia |]. rewrite IH.
  change PED_WINDOW with 20. destruct (f x =? 0); cbn [negb andb fst snd]; [done |]. destruct (g x <? 20); f_equal; lia.
Qed.

Lemma blank_get2 {A : Type} (x : A) ac : ac ∈ channels -> get2 (blank x) ac.1 ac.2 = Some x.
Proof.
  destruct ac as [a c]. intros [Ha Hc]%channels_elem. unfold get2, blank, RAW_CH, AGETS. cbn [fst snd].
  rewrite (proj2 (get_some _ a (repeat x 68))) by (split; [lia | by apply lookup_repeat; lia]).
  apply get_some. split; [lia | by apply lookup_repeat; lia].
Qed.

Lemma suppressed_looks f : looks_zero_suppressed (words_of (items f)) = zero_suppressed f.
Proof.
  unfold looks_zero_suppressed, zero_suppressed. set (ws := words_of (items f)).
  destruct (count_words ws (blank 0, blank 0)) as (H1 & H2 & Hv); [by repeat constructor | by repeat constructor |].
  destruct (fold_left _ ws _) as [samples inw]. cbn [fst snd] in *.
  rewrite (concat_channels 0 samples H1), (concat_channels 0 inw H2), short_counts. cbn [fst snd].
  assert (Hs : forall ac, ac ∈ channels -> default 0 (get2 samples ac.1 ac.2) = samples_of ws ac /\ default 0 (get2 inw ac.1 ac.2) = window_samples_of ws ac).
  { intros ac Hac. destruct (Hv ac Hac) as [-> ->]. by rewrite !blank_get2. }
  unfold channels_read, channels_short. rewrite !Z.add_0_l. f_equal; [| f_equal]; apply countb_ext; intros ac Hac; destruct (Hs ac Hac) as [-> E2]; [done |]. by rewrite E2.
Qed.

(** *** The means are those of the table *)

Lemma means_of_table asad table ac : ac ∈ channels -> get2 (means_of asad table) ac.1 ac.2 = Some (table_mean table asad ac).
Proof.
  intros Hac. unfold means_of. assert (H : forall (t : Table (option Z)) o, get2 t ac.1 ac.2 = Some o ->
    get2 (fold_left (fun t c => if ped_ch_asad c =? asad then alter2 (fun _ => Some (round_i32 (mean c))) (ped_ch_aget c) (ped_ch_ch c) t else t) table t) ac.1 ac.2 =
    Some (match table_mean table asad ac with Some m => Some m | None => o end)).
  { induction table as [| c table IH]; intros t o Ho; [done |]. cbn [fold_left]. unfold table_mean. cbn [omap list_omap]. unfold row_mean at 1.
    destruct (ped_ch_asad c =? asad); cbn [andb]; [| by apply IH]. destruct (bool_decide _) eqn:E.
    - apply bool_decide_eq_true in E. rewrite (IH _ (Some (round_i32 (mean c)))).
      + rewrite last_cons. unfold table_mean. by destruct (list.last _).
      + rewrite get2_alter2_eq, decide_True, Ho by (rewrite E; by destruct ac). done.
    - apply bool_decide_eq_false in E. apply IH. rewrite get2_alter2_eq, decide_False, Ho; [done |]. intros E'. apply E. rewrite <- E'. by destruct ac. }
  rewrite (H _ None) by by apply blank_get2. by destruct (table_mean table asad ac).
Qed.

(** *** What is put back is what is to be *)

Lemma find_pedestal_none cobo asad peds : (cobo, asad) ∉ map (fun ped => (ped_cobo ped, ped_asad ped)) peds -> find_pedestal cobo asad peds = None.
Proof.
  induction peds as [| p peds IH]; [done |]. cbn [map find_pedestal]. rewrite not_elem_of_cons. intros [Hp Hps].
  destruct (Z.eqb_spec (ped_cobo p) cobo) as [<- |]; cbn [andb]; [| by apply IH]. destruct (Z.eqb_spec (ped_asad p) asad) as [<- |]; [done | by apply IH].
Qed.

Lemma find_pedestal_some cobo asad peds : (cobo, asad) ∈ map (fun ped => (ped_cobo ped, ped_asad ped)) peds -> exists p, find_pedestal cobo asad peds = Some p.
Proof.
  induction peds as [| p peds IH]; [by intros ?%elem_of_nil |]. cbn [map find_pedestal]. intros Hin.
  destruct ((ped_cobo p =? cobo) && (ped_asad p =? asad)) eqn:E; [by eexists |]. apply IH. apply elem_of_cons in Hin as [[= -> ->] | H]; [| done].
  by rewrite !Z.eqb_refl in E.
Qed.

Lemma known_board_elem r f : known_board r f = true <->
  (cobo f, asad f) ∈ flat_map (fun cobo => map (pair cobo) (seqZ 0 (boards (active_agets r) cobo))) (seqZ 0 (crates (active_agets r))).
Proof.
  unfold known_board. rewrite list_elem_of_In, in_flat_map, !andb_true_iff, !Z.leb_le, !Z.ltb_lt. split.
  - intros [[[H1 H2] H3] H4]. exists (cobo f). split; [apply list_elem_of_In, elem_of_seqZ; lia |]. apply in_map_iff. exists (asad f). split; [done |].
    apply list_elem_of_In, elem_of_seqZ. lia.
  - intros (c & Hc%list_elem_of_In%elem_of_seqZ & (a & [= <- <-] & Ha%list_elem_of_In%elem_of_seqZ)%in_map_iff). lia.
Qed.

Lemma restored_puts_back r ped_table d f : made_of r ped_table d ->
  match restored (pedestals d) f, puts_back r ped_table f with
  | Some p, Some table => forall ac, ac ∈ channels -> get2 (round_mean p) ac.1 ac.2 = Some (table_mean table (asad f) ac)
  | None, None => True
  | _, _ => False
  end.
Proof.
  intros Hm. unfold restored, puts_back. rewrite suppressed_looks. destruct (zero_suppressed f); cbn [andb]; [| done].
  unfold made_of in Hm. destruct ped_table as [table |], (pedestals d) as [peds |]; try done; [| by destruct (known_board r f)].
  destruct Hm as [Hb Hp]. destruct (known_board r f) eqn:Ek.
  - apply known_board_elem in Ek. rewrite <- Hb in Ek. destruct (find_pedestal_some _ _ _ Ek) as [p Ep]. rewrite Ep.
    apply find_pedestal_in in Ep as (Hin & _ & Ha). intros ac Hac. rewrite (proj1 (list.Forall_forall _ _) Hp p Hin), Ha. by apply means_of_table.
  - rewrite find_pedestal_none; [done |]. rewrite Hb. intros H. apply known_board_elem in H. congruence.
Qed.

Lemma cell_comes_right r ped_table d fs P s b v : made_of r ped_table d -> cell_comes_to r (pedestals d) fs P s b v -> cell_right r ped_table fs P s b v.
Proof.
  intros Hm [H1 H2].
  assert (Hv : shown r (pedestals d) fs P s b = strip_sum r (channel_value r ped_table) fs P s b).
  { apply tally_map_ext. intros f _. apply tally_map_ext. intros ac Hac. destruct (on_strip _ _ _ _ _); [| done].
    pose proof (restored_puts_back r ped_table d f Hm) as Hf. unfold filled, channel_value.
    destruct (restored (pedestals d) f), (puts_back r ped_table f); try done. by rewrite (Hf ac Hac). }
  assert (Hmost : at_most r (pedestals d) fs P s b = strip_sum r (channel_most r ped_table) fs P s b).
  { apply tally_map_ext. intros f _. apply tally_map_ext. intros ac Hac. destruct (on_strip _ _ _ _ _); [| done].
    pose proof (restored_puts_back r ped_table d f Hm) as Hf. unfold moved, mean_at, channel_most.
    destruct (restored (pedestals d) f), (puts_back r ped_table f); try done. rewrite (Hf ac Hac). by destruct (table_mean _ _ _). }
  rewrite Hv in H1, H2. rewrite Hmost in H2. split; [| exact H2]. intros Hnone. apply H1. intros f Hf. specialize (Hnone f Hf).
  pose proof (restored_puts_back r ped_table d f Hm) as Hr. rewrite Hnone in Hr. by destruct (restored (pedestals d) f).
Qed.

(** C29: The monitor's grids are what the fragments say.  Whatever the geometry file and
    the events shown before, the converter answers with one message per plane, and the
    cell of a strip and a bucket is the sum of the samples of just the strip's channels
    in the bucket - held at 65535 - when nothing is put back.  Put back are, when there
    is a table of pedestals, the fragments of the file's boards of whose channels more
    than half are short of the 20 samples of the window: their missing cells are at the
    rounded mean of the channel's last row in the table, and a channel without a row is
    left out; the sum is then exact as long as means and samples together stay below
    the cell's end: adding the bases first and the differences after them loses
    nothing. *)
Theorem display_grid (order : list Chip -> list Chip) (order_perm : forall cs, order cs ≡ₚ cs) (text : string)
    (Hfits : table_fits (active_agets (read_text text))) (ped_table : option (list PedestalChannel)) (Htable : sane_ped_table ped_table) :
  exists g d0, parse order text = Val g /\ startup_converter ped_table g = Val d0 /\
    forall before event, Forall (fun e => Forall board_ok (fragments e)) (before ++ [event]) -> Forall read_once (fragments event) ->
    exists d d', uvw_each before d0 = Val d /\ uvw event d = Val (event_messages event d', d') /\
      forall P n s b, read_max_strip (read_text text) !! plane_index P = Some n -> 1 <= s <= n -> 0 <= b < N_BUCKETS ->
        exists v, cell (grids d') (plane_index P) (Z.to_nat ((s - 1) * N_BUCKETS + b)) = Some v /\
          cell_right (read_text text) ped_table (fragments event) P s b v.
Proof.
  destruct (read_text_account text) as [Hr _]. destruct (build_table order order_perm _ Hr Hfits) as (g & E & Hg).
  destruct (startup_ready _ Hr (read_text_maxes text) ped_table g Hg Htable) as (d0 & E0 & Hd0 & Hn0 & Hmade).
  exists g, d0. split; [exact E |]. split; [exact E0 |]. intros before event Hb Ho. apply List.Forall_app in Hb as [Hb He%List.Forall_cons_iff].
  destruct (uvw_each_ready _ Hr before d0 Hb Hd0) as (d & Ed & Hd & Hn & Hp).
  destruct (uvw_cells _ Hr event d (proj1 He) Ho Hd) as (d' & Ed' & Hcells). exists d, d'. split; [exact Ed |]. split; [exact Ed' |].
  intros P n s b Hns Hs Hbk. destruct (Hcells P n s b ltac:(by rewrite Hn, Hn0) Hs Hbk) as (v & Hv & Hc). exists v. split; [exact Hv |].
  rewrite Hp in Hc. by apply (cell_comes_right _ _ d0).
Qed.

Module Sample.

(** A strip of one channel, whose mean is a hundred; a fragment that kept one sample. *)
Definition table : list PedestalChannel := [mkPedChannel 0 0 0 (S754_finite false 7036874417766400 (-46))].
Definition fragment : Fragment := mkFragment 0 0 0 0 0 0 0 0 [] 0 [] (le_bytes 4 (Z.shiftl 5 14 + 150)).
Definition event : BuiltEventPayload := mkBuiltEvent 7 1 true [fragment].

Definition shown_cells (cells : list Z) : option (list (option Z)) :=
  match parse id Geometry.Sample.text with
  | Val g =>
      match startup_converter (Some table) g with
      | Val d => match uvw event d with Val (_, d') => Some (map (fun i => cell (grids d') 0 (Z.to_nat i)) cells) | _ => None end
      | _ => None
      end
  | _ => None
  end.

(** The sample is where it was read, and the mean is back in the other buckets. *)
Example restored_cells : shown_cells [4; 5; 6] = Some [Some 100; Some 150; Some 100].
Proof. vm_compute. reflexivity. Qed.

Lemma table_mean : round_i32 (mean (mkPedChannel 0 0 0 (S754_finite false 7036874417766400 (-46)))) = 100.
Proof. vm_compute. reflexivity. Qed.

Lemma display_grid_witness :
  zero_suppressed fragment = true /\ puts_back (read_text Geometry.Sample.text) (Some table) fragment = Some table /\
  exists g d0, parse id Geometry.Sample.text = Val g /\ startup_converter (Some table) g = Val d0 /\
    exists d', uvw event d0 = Val (event_messages event d', d') /\
      exists v, cell (grids d') 0 6 = Some v /\ cell_right (read_text Geometry.Sample.text) (Some table) [fragment] U 1 6 v.
Proof.
  split; [vm_compute; reflexivity |]. split; [vm_compute; reflexivity |].
  assert (Hfits : table_fits (active_agets (read_text Geometry.Sample.text))) by (vm_compute; reflexivity).
  assert (Ht : sane_ped_table (Some table)) by (apply list.Forall_singleton; rewrite table_mean; lia).
  destruct (display_grid id (fun cs => Permutation_refl cs) Geometry.Sample.text Hfits (Some table) Ht) as (g & d0 & E & E0 & H).
  exists g, d0. split; [exact E |]. split; [exact E0 |].
  destruct (H [] event) as (d & d' & Ed & Ed' & Hc).
  - repeat constructor; cbn; lia.
  - constructor; [| constructor]. by apply (bool_decide_eq_true_1 _).
  - cbn in Ed. injection Ed as ->. exists d'. split; [exact Ed' |].
    apply (Hc U 1 1 6); [vm_compute; reflexivity | lia | unfold N_BUCKETS; lia].
Defined.
End Sample.
