(* ===== verification/Hub.v ===== *)
(** * Hub: the clients of the monitor, and what reaches them

    Models [src/monitor/hub.rs], [sub.rs], [json.rs], the messages and the gap counter of
    [wire.rs] and [serve_client] of [http.rs].  The subscriber thread takes the messages of
    the root-sink and the slow control one by one and tells the clients; every client has a
    task of its own that registers, subscribes and leaves.  Both touch the hub only in
    sections - under its lock, or one atomic access - and are programs of these (see
    [Programs]); between two sections anything else may run.

    What a client's bounded queue says to one more message is an argument, and so are the
    reader and the writer of JSON and of msgpack, the slow control's readings as JSON, and
    the reconstruction of the track.  A queue is what it has taken; it holds the values its
    texts were written of.  The task that writes to the socket is not modelled, but what
    it sends first is kept with the client.  Warnings are left out. *)

From Stdlib Require Import Ascii.
From stdpp Require Import gmap list strings sorting.
From S2P Require Import Prelude Bytes Text Float Msg Slowctl Programs Params Geometry Display DisplayGrid.
Open Scope list_scope.
Open Scope Z_scope.

(** ** The texts: [json.rs] *)

(** An object keeps its keys in order; an equal key is replaced. *)
Fixpoint put_field (k : string) (v : Value) (fields : list (string * Value)) : list (string * Value) :=
  match fields with
  | [] => [(k, v)]
  | (k', v') :: fields =>
      if decide (k = k') then (k, v) :: fields
      else if String.ltb k k' then (k, v) :: (k', v') :: fields else (k', v') :: put_field k v fields
  end.

(** [json!] of a number: what is not finite is [null]. *)
Definition real_value (x : f64) : Value := if is_finite x then Jreal x else Jnull.

Record Meta : Type := mkMeta {
  n_buckets : Z;
  planes : list Z;
  geometry_path : string;
  meta_angles : option (list f64);
  detector : string;
  cobos : list Z;
  meta_run_ : Z;
}.
#[export] Instance eta_Meta : Eta Meta := fun m =>
  mkMeta (n_buckets m) (planes m) (geometry_path m) (meta_angles m) (detector m) (cobos m) (meta_run_ m).

Definition meta_value (m : Meta) : Value :=
  Jobject [
    ("anglesDeg", match meta_angles m with Some xs => Jarray (map real_value xs) | None => Jnull end);
    ("cobos", Jarray (map Jint (cobos m)));
    ("detector", Jstr (detector m));
    ("geometry", Jstr (geometry_path m));
    ("nBuckets", Jint (n_buckets m));
    ("planes", Jobject (zip ["U"; "V"; "W"]%string (map Jint (planes m))));
    ("run", Jint (meta_run_ m));
    ("type", Jstr "meta")
  ].

Definition run_value (state : string) (run : Z) (ts : string) : Value :=
  Jobject [("run", Jint run); ("state", Jstr state); ("ts", Jstr ts); ("type", Jstr "run")].

Record StatusPayload : Type := mkStatus {
  status_kind : string;
  status_run : Z;
  status_state : string;
  events_built : Z;
  events_incomplete : Z;
  late_fragments : Z;
  pending_events : Z;
  frames_per_cobo : list (string * Z);
  bytes_written : Z;
  saturation : list (string * (Z * Z));
  publish_drops : Z;
}.

(** [serde_json::to_value] of it: the keys in order. *)
Definition status_fields (s : StatusPayload) : list (string * Value) :=
  [ ("bytes_written", Jint (bytes_written s));
    ("events_built", Jint (events_built s));
    ("events_incomplete", Jint (events_incomplete s));
    ("frames_per_cobo", Jobject (map (fun '(k, n) => (k, Jint n)) (frames_per_cobo s)));
    ("kind", Jstr (status_kind s));
    ("late_fragments", Jint (late_fragments s));
    ("pending_events", Jint (pending_events s));
    ("publish_drops", Jint (publish_drops s));
    ("run", Jint (status_run s));
    ("saturation", Jobject (map (fun '(k, (n, of_)) => (k, Jobject [("counted", Jint of_); ("saturated", Jint n)])) (saturation s)));
    ("state", Jstr (status_state s)) ].

Record MonitorStats : Type := mkStats {
  stats_gaps : Z;
  stats_clients : Z;
  stats_dropped : Z;
  stats_restored : Z;
  stats_no_table : Z;
  stats_missing : Z;
}.

Definition status_value (s : StatusPayload) (stats : MonitorStats) (slow : option Value) : Value :=
  Jobject
    (put_field "uvwTableMissingChannels" (Jint (stats_missing stats))
    (put_field "uvwZsFragmentsNoTable" (Jint (stats_no_table stats))
    (put_field "uvwZsFragmentsRestored" (Jint (stats_restored stats))
    (put_field "wsDropped" (Jint (stats_dropped stats))
    (put_field "clients" (Jint (stats_clients stats))
    (put_field "monitorGaps" (Jint (stats_gaps stats))
    (match slow with Some v => put_field "slow" v | None => id end
    (put_field "type" (Jstr "status") (status_fields s))))))))).

(** *** Streams and subscriptions *)

Inductive Stream : Type := Uvw | Waveforms | Histos.

Record StreamSet : Type := mkStreams {
  s_uvw : bool;
  s_waveforms : bool;
  s_histos : bool;
  s_status : bool;
}.
#[export] Instance eta_StreamSet : Eta StreamSet := fun s => mkStreams (s_uvw s) (s_waveforms s) (s_histos s) (s_status s).

Definition default_streams : StreamSet := mkStreams true false true true.

Definition wants (s : StreamSet) (stream : Stream) : bool :=
  match stream with
  | Uvw => s_uvw s
  | Waveforms => s_waveforms s
  | Histos => s_histos s
  end.

Record Subscribe : Type := mkSubscribe {
  sub_streams : StreamSet;
  sub_unknown : list string;
}.

Definition as_array (v : Value) : option (list Value) := match v with Jarray vs => Some vs | _ => None end.

Section Texts.
(** [serde_json]: a text as a value, and a value as it is shown. *)
Context (from_str : string -> option Value) (display : Value -> string).

Definition subscribe_item (s : Subscribe) (item : Value) : Subscribe :=
  let on := sub_streams s in
  match as_str item with
  | Some name =>
      if bool_decide (name = "uvw"%string) then mkSubscribe (on <| s_uvw := true |>) (sub_unknown s)
      else if bool_decide (name = "waveforms"%string) then mkSubscribe (on <| s_waveforms := true |>) (sub_unknown s)
      else if bool_decide (name = "histos"%string) then mkSubscribe (on <| s_histos := true |>) (sub_unknown s)
      else if bool_decide (name = "status"%string) then mkSubscribe (on <| s_status := true |>) (sub_unknown s)
      else mkSubscribe on (sub_unknown s ++ [name])
  | None => mkSubscribe on (sub_unknown s ++ [display item])
  end.

Definition parse_subscribe (text : string) : option Subscribe :=
  match from_str text with
  | None => None
  | Some value =>
      match value_get value "streams" with
      | None => None
      | Some list_ =>
          match as_array list_ with
          | None => None
          | Some items => Some (fold_left subscribe_item items (mkSubscribe (mkStreams false false false false) []))
          end
      end
  end.
End Texts.

(** ** The messages: [wire.rs] *)

Record HistSnapshotPayload : Type := mkSnapshot {
  snapshot_run : Z;
  hists : list HistPayload;
}.

Inductive MonitorPayload : Type :=
| Status (s : StatusPayload)
| HistSnapshot (s : HistSnapshotPayload)
| BuiltEvent (e : BuiltEventPayload)
| Slow (s : SlowPayload)
| Unknown (kind : string).

Record MonitorMessage : Type := mkMonitorMessage {
  from_source : Z;
  of_run : Z;
  seq : Z;
  created : Z;
  content : MonitorPayload;
}.

Inductive WireError : Type :=
| Envelope (len : Z)
| NotData
| BadPayload (kind : string).

(** [rmp_serde::from_slice], at the types it is asked for. *)
Record Msgpack : Type := mkMsgpack {
  kind_of : bytes -> option (Message string);
  status_of : bytes -> option (Message StatusPayload);
  snapshot_of : bytes -> option (Message HistSnapshotPayload);
  event_of : bytes -> option (Message BuiltEventPayload);
  slow_of : bytes -> option (Message SlowPayload);
}.

Definition payload_of {T : Type} (from_slice : bytes -> option (Message T)) (raw : bytes) (kind : string) : result T WireError :=
  match from_slice raw with
  | None => Err (BadPayload kind)
  | Some (Data batch) => Ok (payload batch)
  | Some _ => Err NotData
  end.

Definition result_map {A B E : Type} (f : A -> B) (r : result A E) : result B E :=
  match r with
  | Ok a => Ok (f a)
  | Err e => Err e
  end.

Definition decode_message (mp : Msgpack) (raw : bytes) : result MonitorMessage WireError :=
  match kind_of mp raw with
  | None => Err (Envelope (len raw))
  | Some (Data batch) =>
      let kind := payload batch in
      let payload :=
        if bool_decide (kind = "status"%string) then result_map Status (payload_of (status_of mp) raw kind)
        else if bool_decide (kind = "hist_snapshot"%string) then result_map HistSnapshot (payload_of (snapshot_of mp) raw kind)
        else if bool_decide (kind = "built_event"%string) then result_map BuiltEvent (payload_of (event_of mp) raw kind)
        else if bool_decide (kind = SLOW_KIND) then result_map Slow (payload_of (slow_of mp) raw kind)
        else Ok (Unknown kind) in
      result_map (mkMonitorMessage (source_id batch) (run_number batch) (sequence_number batch) (created_ns batch)) payload
  | Some _ => Err NotData
  end.

(** *** [GapTracker] *)

Record GapTracker : Type := mkTracker {
  last_seq : option Z;
  gaps : Z;
  restarts : Z;
}.

Definition new_tracker : GapTracker := mkTracker None 0 0.

(** What is newly known to be missing, and the tracker. *)
Definition observe (sequence_number : Z) (t : GapTracker) : Z * GapTracker :=
  match last_seq t with
  | None => (0, mkTracker (Some sequence_number) (gaps t) (restarts t))
  | Some prev =>
      if prev <? sequence_number
      then let missed := sequence_number - prev - 1 in (missed, mkTracker (Some sequence_number) (gaps t + missed) (restarts t))
      else (0, mkTracker (Some sequence_number) (gaps t) (restarts t + 1))
  end.

(** ** The hub *)

Record MonitorCounters : Type := mkMonCounters {
  messages_in : Z;
  monitor_gaps : Z;
  source_restarts : Z;
  status_in : Z;
  snapshots_in : Z;
  events_in : Z;
  slow_in : Z;
  unknown_kind : Z;
  decode_errors : Z;
  ws_dropped : Z;
  clients_now : Z;
  clients_total : Z;
  clients_dropped_slow : Z;
  bad_client_messages : Z;
  last_event_requests : Z;
  zs_restored : Z;
  zs_no_table : Z;
  zs_missing_channels : Z;
}.
#[export] Instance eta_MonitorCounters : Eta MonitorCounters := fun c =>
  mkMonCounters (messages_in c) (monitor_gaps c) (source_restarts c) (status_in c) (snapshots_in c) (events_in c) (slow_in c)
    (unknown_kind c) (decode_errors c) (ws_dropped c) (clients_now c) (clients_total c) (clients_dropped_slow c)
    (bad_client_messages c) (last_event_requests c) (zs_restored c) (zs_no_table c) (zs_missing_channels c).

Definition no_counters : MonitorCounters := mkMonCounters 0 0 0 0 0 0 0 0 0 0 0 0 0 0 0 0 0 0.

(** A client: what it asked for, what its queue has taken, and - when its task has come
    so far - what is sent to it before that. *)
Record Client : Type := mkClient {
  streams : StreamSet;
  queue : list Value;
  first : option (list Value);
}.

Record Hub : Type := mkHub {
  clients : gmap Z Client;
  next_id : Z;
  counters : MonitorCounters;
  waveform_demand : Z;
  meta : Meta;
  meta_run : Z;
  strip_geometry : option Value;
  last_run_state : option (Z * string);
  last_slow : option SlowPayload;
  last_event : option (BuiltEventPayload * Z);
}.
#[export] Instance eta_Hub : Eta Hub := fun h =>
  mkHub (clients h) (next_id h) (counters h) (waveform_demand h) (meta h) (meta_run h) (strip_geometry h)
    (last_run_state h) (last_slow h) (last_event h).

Definition new_hub (m : Meta) (strips : option Value) : Hub := mkHub ∅ 0 no_counters 0 m 0 strips None None None.

(** What a section may find: the clock, as a number and as the texts have it, and the
    queues that take no more. *)
Record Found : Type := mkFound {
  now : Z;
  now_rfc3339 : string;
  full : Z -> bool;
}.

(** On the trace: the frames given to the clients that listen. *)
Definition LiveFrame : Type := (Stream * bytes)%type.

Notation Task A := (Prog Found Hub LiveFrame A).

(** A section that only reads, and one that only changes. *)
Definition load {A : Type} (f : Hub -> A) : Task A := atomically (fun _ h => (f h, [], h)).
Definition change (f : Hub -> Hub) : Task unit := atomically (fun _ h => (tt, [], f h)).
Definition count (f : MonitorCounters -> MonitorCounters) : Task unit := change (fun h => h <| counters ::= f |>).

Definition waveform_clients (cs : gmap Z Client) : Z :=
  countb (fun p => s_waveforms (streams p.2)) (map_to_list cs).

Definition refresh_waveform_demand : Task unit :=
  let& n := load (fun h => waveform_clients (clients h)) in
  change (fun h => h <| waveform_demand := n |>).

Definition waveforms_wanted : Task bool := load (fun h => 0 <? waveform_demand h).

(** The map of clients as it is left, with its size. *)
Definition with_clients (cs : gmap Z Client) (h : Hub) : Hub :=
  h <| clients := cs |> <| counters ::= (fun c => c <| clients_now := Z.of_nat (size cs) |>) |>.

Definition remove_client (id : Z) : Task unit :=
  let& there := atomically (fun _ h =>
    match clients h !! id with
    | None => (false, [], h)
    | Some _ => (true, [], with_clients (delete id (clients h)) h)
    end) in
  if there then refresh_waveform_demand else Ret tt.

Definition publish_live (stream : Stream) (frames : list bytes) : Task unit :=
  atomically (fun _ h => (tt, map (pair stream) frames, h)).

(** One message to one client; and to all, with those whose queue did not take it. *)
Definition wanted_by (status_only : bool) (c : Client) : bool := negb status_only || s_status (streams c).
Definition try_send (found : Found) (text : Value) (status_only : bool) (id : Z) (c : Client) : Client :=
  if wanted_by status_only c && negb (full found id) then mkClient (streams c) (queue c ++ [text]) (first c) else c.
Definition slow_clients (found : Found) (status_only : bool) (cs : gmap Z Client) : list Z :=
  map fst (List.filter (fun p => wanted_by status_only p.2 && full found p.1) (map_to_list cs)).

Fixpoint drop_clients (slow : list Z) : Task unit :=
  match slow with
  | [] => Ret tt
  | id :: slow =>
      let& _ := count (fun c => c <| clients_dropped_slow ::= incr |>) in
      let& _ := remove_client id in
      drop_clients slow
  end.

Definition broadcast_json (text : Value) (status_only : bool) : Task unit :=
  let& slow := atomically (fun found h =>
    (slow_clients found status_only (clients h), [],
     h <| clients ::= map_imap (fun id c => Some (try_send found text status_only id c)) |>)) in
  drop_clients slow.

Section Hubs.
(** [serde_json::to_string], and the slow control's readings as a value. *)
Context (from_str : string -> option Value) (display : Value -> string) (to_string : Value -> option string)
  (slow_value : SlowPayload -> option Value).

(** A value as far as it can be written. *)
Definition written (v : Value) : option Value := match to_string v with Some _ => Some v | None => None end.

Definition meta_json : Task (option Value) :=
  load (fun h => written (meta_value ((meta h) <| meta_run_ := meta_run h |>))).

Definition stats : Task MonitorStats :=
  let& g := load (fun h => monitor_gaps (counters h)) in
  let& n := load (fun h => clients_now (counters h)) in
  let& d := load (fun h => ws_dropped (counters h)) in
  let& r := load (fun h => zs_restored (counters h)) in
  let& t := load (fun h => zs_no_table (counters h)) in
  let& m := load (fun h => zs_missing_channels (counters h)) in
  Ret (mkStats g n d r t m).

Definition status_json (s : StatusPayload) (stats : MonitorStats) (slow : option SlowPayload) : option Value :=
  match slow with
  | None => written (status_value s stats None)
  | Some p => match slow_value p with Some v => written (status_value s stats (Some v)) | None => None end
  end.

Definition broadcast_option (text : option Value) (status_only : bool) : Task unit :=
  match text with
  | Some text => broadcast_json text status_only
  | None => Ret tt
  end.

Definition on_status (s : StatusPayload) : Task unit :=
  let& previous := load last_run_state in
  let changed_run := negb (bool_decide (option_map fst previous = Some (status_run s))) in
  let changed_state := negb (bool_decide (option_map snd previous = Some (status_state s))) in
  let& _ := if changed_run then
              let& _ := change (fun h => h <| meta_run := status_run s |>) in
              let& text := meta_json in
              broadcast_option text false
            else Ret tt in
  let& _ := if changed_run || changed_state then
              let& ts := atomically (fun found h => (now_rfc3339 found, [], h)) in
              let& _ := broadcast_option (written (run_value (status_state s) (status_run s) ts)) false in
              change (fun h => h <| last_run_state := Some (status_run s, status_state s) |>)
            else Ret tt in
  let& slow := load last_slow in
  let& st := stats in
  broadcast_option (status_json s st slow) true.

Definition on_event (e : BuiltEventPayload) : Task unit :=
  atomically (fun found h => (tt, [], h <| last_event := Some (e, now found) |>)).
Definition on_slow (s : SlowPayload) : Task unit := change (fun h => h <| last_slow := Some s |>).

(** *** A client's task: [serve_client] of [http.rs] *)

Definition register : Task Z :=
  let& id := atomically (fun _ h => (next_id h, [], h <| next_id ::= incr |>)) in
  let& _ := change (fun h => with_clients (<[id := mkClient default_streams [] None]> (clients h)) h) in
  let& _ := count (fun c => c <| clients_total ::= incr |>) in
  let& _ := refresh_waveform_demand in
  Ret id.

Definition apply_subscribe (id : Z) (text : string) : Task unit :=
  match parse_subscribe from_str display text with
  | None => count (fun c => c <| bad_client_messages ::= incr |>)
  | Some subscribe =>
      let& there := atomically (fun _ h =>
        match clients h !! id with
        | Some c => (true, [], h <| clients ::= insert id (mkClient (sub_streams subscribe) (queue c) (first c)) |>)
        | None => (false, [], h)
        end) in
      if there then refresh_waveform_demand else Ret tt
  end.

Fixpoint apply_all (id : Z) (texts : list string) : Task unit :=
  match texts with
  | [] => Ret tt
  | text :: texts => let& _ := apply_subscribe id text in apply_all id texts
  end.

(** What is sent first is the message of the run as it is when the task comes to it. *)
Definition take_first (id : Z) : Task unit :=
  change (fun h =>
    let texts := omap (fun o => o) [written (meta_value ((meta h) <| meta_run_ := meta_run h |>)); strip_geometry h] in
    h <| clients ::= alter (fun c => mkClient (streams c) (queue c) (Some texts)) id |>).

Definition serve_client (texts : list string) : Task unit :=
  let& id := register in
  let& _ := take_first id in
  let& _ := apply_all id texts in
  remove_client id.

(** [GET /api/last-event]: what the answer is made of. *)
Definition get_last_event : Task (option (BuiltEventPayload * Z)) :=
  let& _ := count (fun c => c <| last_event_requests ::= incr |>) in
  load last_event.

(** ** The subscriber: [sub.rs] *)

(** The reconstruction: of the grids, the strips that have no segment and the message. *)
Context (decode : bytes -> result MonitorMessage WireError) (nan32 : bytes -> Z)
  (track_of : option (BuiltEventPayload -> list (list Z) -> Z * option bytes)).

Record Ingest : Type := mkIngest {
  converter : DisplayConverter;
  reco_no_segment : Z;
  trackers : gmap Z GapTracker;
}.

Definition new_ingest (d : DisplayConverter) : Ingest := mkIngest d 0 ∅.

(** The frame of the track, beside those of the grids. *)
Definition push_track (e : BuiltEventPayload) (d : DisplayConverter) (i : Ingest) : list bytes * Ingest :=
  match track_of with
  | None => ([], mkIngest d (reco_no_segment i) (trackers i))
  | Some reco =>
      let '(no_segment, frame) := reco e (grids d) in
      (match frame with Some b => [b] | None => [] end, mkIngest d (reco_no_segment i + no_segment) (trackers i))
  end.

Definition total_restarts (ts : gmap Z GapTracker) : Z := tally (map (fun p => restarts p.2) (map_to_list ts)).

(** The counters of a sequence number. *)
Definition track_gaps (m : MonitorMessage) (i : Ingest) : Task Ingest :=
  let '(missed, tracker) := observe (seq m) (default new_tracker (trackers i !! from_source m)) in
  let ts := <[from_source m := tracker]> (trackers i) in
  let& _ := if 0 <? missed then count (fun c => c <| monitor_gaps ::= Z.add missed |>) else Ret tt in
  let& _ := count (fun c => c <| source_restarts := total_restarts ts |>) in
  Ret (mkIngest (converter i) (reco_no_segment i) ts).

Definition handle_event (e : BuiltEventPayload) (i : Ingest) : Task Ingest :=
  let& _ := on_event e in
  match uvw e (converter i) with
  | Val (frames, d) =>
      let& _ := count (fun c => c <| zs_restored := uvw_zs_fragments_restored (Display.counts d) |>) in
      let& _ := count (fun c => c <| zs_no_table := uvw_zs_fragments_no_table (Display.counts d) |>) in
      let& _ := count (fun c => c <| zs_missing_channels := uvw_table_missing_channels (Display.counts d) |>) in
      let '(track, i) := push_track e d i in
      let& _ := publish_live Uvw (frames ++ track) in
      let& wanted := waveforms_wanted in
      if wanted then
        let '(frames, d) := waveforms e d in
        let& _ := publish_live Waveforms frames in
        Ret (mkIngest d (reco_no_segment i) (trackers i))
      else Ret i
  | _ => Die
  end.

Definition handle_payload (p : MonitorPayload) (i : Ingest) : Task Ingest :=
  match p with
  | Status s =>
      let& _ := count (fun c => c <| status_in ::= incr |>) in
      let& _ := on_status s in
      Ret i
  | HistSnapshot s =>
      let& _ := count (fun c => c <| snapshots_in ::= incr |>) in
      let '(frames, d) := histos nan32 (snapshot_run s) (hists s) (converter i) in
      let& _ := publish_live Histos frames in
      Ret (mkIngest d (reco_no_segment i) (trackers i))
  | BuiltEvent e =>
      let& _ := count (fun c => c <| events_in ::= incr |>) in
      handle_event e i
  | Slow s =>
      let& _ := count (fun c => c <| slow_in ::= incr |>) in
      let& _ := on_slow s in
      Ret i
  | Unknown _ =>
      let& _ := count (fun c => c <| unknown_kind ::= incr |>) in
      Ret i
  end.

Definition handle (raw : bytes) (i : Ingest) : Task Ingest :=
  let& _ := count (fun c => c <| messages_in ::= incr |>) in
  match decode raw with
  | Err _ =>
      let& _ := count (fun c => c <| decode_errors ::= incr |>) in
      Ret i
  | Ok m =>
      let& i := track_gaps m i in
      handle_payload (content m) i
  end.

(** The loop of the thread, over the messages it gets. *)
Fixpoint run_sub (raws : list bytes) (i : Ingest) : Task Ingest :=
  match raws with
  | [] => Ret i
  | raw :: raws => let& i := handle raw i in run_sub raws i
  end.
End Hubs.

(** ** What is a message of the run *)

Definition is_meta (v : Value) : bool :=
  match value_get v "type" with
  | Some (Jstr t) => bool_decide (t = "meta"%string)
  | _ => false
  end.
Definition metas (vs : list Value) : list Value := List.filter is_meta vs.

Lemma assoc_put_eq k v fields : assoc k (put_field k v fields) = Some v.
Proof.
  induction fields as [| [k' v'] fields IH]; cbn [put_field assoc]; [by rewrite bool_decide_true |].
  case_decide as E; cbn [assoc]; [by rewrite bool_decide_true |]. destruct (String.ltb k k'); cbn [assoc]; [by rewrite bool_decide_true |].
  by rewrite bool_decide_false by done.
Qed.

Lemma assoc_put_ne k k' v fields : k <> k' -> assoc k (put_field k' v fields) = assoc k fields.
Proof.
  intros Hk. induction fields as [| [k0 v0] fields IH]; cbn [put_field assoc]; [by rewrite bool_decide_false |].
  case_decide as E; cbn [assoc]; [subst; by rewrite !bool_decide_false |]. destruct (String.ltb k' k0); cbn [assoc]; [by rewrite (bool_decide_false (k = k')) |].
  by rewrite IH.
Qed.

Lemma meta_is_meta m : is_meta (meta_value m) = true.
Proof. done. Qed.

Lemma run_is_not_meta state run ts : is_meta (run_value state run ts) = false.
Proof. done. Qed.

Lemma status_is_not_meta s st slow : is_meta (status_value s st slow) = false.
Proof.
  unfold is_meta, status_value. cbn [value_get]. rewrite !assoc_put_ne by done.
  destruct slow as [v |]; [rewrite assoc_put_ne by done | cbn [id]]; by rewrite assoc_put_eq.
Qed.

Lemma metas_app l l' : metas (l ++ l') = metas l ++ metas l'.
Proof. apply List.filter_app. Qed.

(** ** What the subscriber alone writes *)

(** The hub without what the clients' tasks write, and without what no theorem asks for. *)
Definition own_counters (c : MonitorCounters) : MonitorCounters :=
  c <| ws_dropped := 0 |> <| clients_now := 0 |> <| clients_total := 0 |> <| clients_dropped_slow := 0 |>
    <| bad_client_messages := 0 |> <| last_event_requests := 0 |> <| zs_restored := 0 |> <| zs_no_table := 0 |> <| zs_missing_channels := 0 |>.
Definition sub_part (h : Hub) : Hub :=
  h <| clients := ∅ |> <| next_id := 0 |> <| waveform_demand := 0 |> <| last_event := None |> <| counters ::= own_counters |>.

(** The message of the run as it stands. *)
Definition current (h : Hub) : Value := meta_value ((meta h) <| meta_run_ := meta_run h |>).

(** A client that is told: by its queue, and by all it gets. *)
Definition told (o : Hub) (c : Client) : Prop :=
  (metas (queue c) = [] \/ last (metas (queue c)) = Some (current o)) /\
  forall l, first c = Some l -> last (metas (l ++ queue c)) = Some (current o).

Definition Settled (o : Hub) (h : Hub) : Prop := sub_part h = o /\ forall id c, clients h !! id = Some c -> told o c.

(** What a client's task does to the hub: the subscriber's part stays, and a client is as
    it was, but for its streams, or new, or about to get the message of the run. *)
Definition firsts (h : Hub) : list Value := omap (fun o => o) [Some (current h); strip_geometry h].
Definition client_step (h h' : Hub) : Prop :=
  sub_part h' = sub_part h /\
  (clients_now (counters h) = Z.of_nat (size (clients h)) -> clients_now (counters h') = Z.of_nat (size (clients h'))) /\
  forall id c', clients h' !! id = Some c' ->
    (queue c' = [] /\ first c' = None) \/
    exists c, clients h !! id = Some c /\ queue c' = queue c /\ (first c' = first c \/ first c' = Some (firsts h)).

Definition plain_strips (o : Hub) : Prop := match strip_geometry o with Some v => is_meta v = false | None => True end.

Lemma current_part h : current h = current (sub_part h).
Proof. done. Qed.

(** A client that has not been told of another run, and gets the message now. *)
Lemma told_first o h c : sub_part h = o -> plain_strips o -> told o c -> told o (mkClient (streams c) (queue c) (Some (firsts h))).
Proof.
  intros <- Hs [H1 _]. split; [exact H1 |]. cbn [first queue]. intros l [= <-]. rewrite metas_app.
  assert (E : metas (firsts h) = [current h]).
  { unfold firsts. change (strip_geometry (sub_part h)) with (strip_geometry h) in Hs. unfold plain_strips in Hs. change (strip_geometry (sub_part h)) with (strip_geometry h) in Hs.
    cbn [omap list_omap]. unfold metas. cbn [List.filter]. rewrite (meta_is_meta _ : is_meta (current h) = true).
    destruct (strip_geometry h) as [v |]; [| done]. cbn [List.filter]. by rewrite Hs. }
  rewrite E, <- current_part in *. destruct H1 as [-> | H1]; [done |]. rewrite last_app. by rewrite H1.
Qed.

Lemma settled_unmoved o : plain_strips o -> unmoved client_step (Settled o).
Proof.
  intros Hs h h' (Hp & _ & Hc) [H1 H2]. split; [by rewrite Hp |]. intros id c' Hc'. destruct (Hc id c' Hc') as [[Hq Hf] | (c & E & Hq & Hf)].
  - split; [left; by rewrite Hq |]. by rewrite Hf.
  - pose proof (H2 id c E) as Ht. destruct Hf as [Hf | Hf].
    + destruct Ht as [Ha Hb]. unfold told. by rewrite Hq, Hf.
    + pose proof (told_first o h c H1 Hs Ht) as Ht'. unfold told in *. by rewrite Hq, Hf.
Qed.

(** *** The clients' tasks do nothing else *)

Lemma step_same h h' : sub_part h' = sub_part h -> clients h' = clients h -> clients_now (counters h') = clients_now (counters h) -> client_step h h'.
Proof.
  intros H1 H2 H3. split; [done |]. split; [by rewrite H2, H3 |]. intros id c Hc. right. exists c. rewrite <- H2. split_and!; [done | done | by left].
Qed.

Lemma step_with_clients cs h :
  (forall id c', cs !! id = Some c' -> (queue c' = [] /\ first c' = None) \/ clients h !! id = Some c') -> client_step h (with_clients cs h).
Proof.
  intros H. split; [done |]. split; [done |]. intros id c' Hc'. destruct (H id c' Hc') as [| E]; [by left | right]. exists c'. split_and!; [done | done | by left].
Qed.

(** A client is changed: the clients are as many. *)
Lemma step_alter (g : Client -> Client) id h :
  (forall c, queue (g c) = queue c /\ (first (g c) = first c \/ first (g c) = Some (firsts h))) ->
  client_step h (h <| clients ::= alter g id |>).
Proof.
  intros Hg. split; [done |]. split.
  - intros Hn. change (clients_now (counters h) = Z.of_nat (size (alter g id (clients h)))). rewrite Hn. f_equal.
    by rewrite <- !(size_dom (D := gset Z)), dom_alter_L.
  - intros i c' Hc'. change (alter g id (clients h) !! i = Some c') in Hc'. right. destruct (decide (i = id)) as [-> | Hne].
    + rewrite lookup_alter_eq in Hc'. destruct (clients h !! id) as [c |] eqn:E; [| done]. injection Hc' as <-. exists c. split; [done |]. apply Hg.
    + rewrite lookup_alter_ne in Hc' by done. exists c'. split_and!; [done | done | by left].
Qed.

Lemma insert_is_alter (g : Client -> Client) id c (cs : gmap Z Client) : cs !! id = Some c -> <[id := g c]> cs = alter g id cs.
Proof.
  intros E. apply map_eq. intros i. destruct (decide (i = id)) as [-> |].
  - by rewrite lookup_insert_eq, lookup_alter_eq, E.
  - by rewrite lookup_insert_ne, lookup_alter_ne.
Qed.

Lemma abides_load {A : Type} (f : Hub -> A) : abides client_step (load f).
Proof. apply abides_atomically. intros e h. by apply step_same. Qed.

Lemma abides_change f : (forall h, client_step h (f h)) -> abides client_step (change f).
Proof. intros H. apply abides_atomically. intros e h. apply H. Qed.

Lemma abides_refresh : abides client_step refresh_waveform_demand.
Proof. apply abides_bind; [apply abides_load |]. intros n. apply abides_change. intros h. by apply step_same. Qed.

Lemma abides_remove id : abides client_step (remove_client id).
Proof.
  apply abides_bind.
  - apply abides_atomically. intros e h. destruct (clients h !! id); [| by apply step_same]. apply step_with_clients.
    intros i c' Hc'. right. by apply lookup_delete_Some in Hc' as [_ ?].
  - intros [|]; [apply abides_refresh | done].
Qed.

Section Serving.
Context (from_str : string -> option Value) (display : Value -> string) (to_string : Value -> option string).
Context (to_string_ok : forall v, is_Some (to_string v)).

Lemma written_ok v : written to_string v = Some v.
Proof. unfold written. destruct (to_string_ok v) as [t ->]. done. Qed.

Lemma abides_subscribe id text : abides client_step (apply_subscribe from_str display id text).
Proof.
  unfold apply_subscribe. destruct (parse_subscribe from_str display text) as [s |].
  - apply abides_bind; [| intros [|]; [apply abides_refresh | done]]. apply abides_atomically. intros e h.
    destruct (clients h !! id) as [c |] eqn:E; [| by apply step_same]. cbn [snd].
    assert (Eq : h <| clients ::= insert id (mkClient (sub_streams s) (queue c) (first c)) |>
      = h <| clients ::= alter (fun c => mkClient (sub_streams s) (queue c) (first c)) id |>).
    { unfold update. cbn. by rewrite (insert_is_alter (fun c => mkClient (sub_streams s) (queue c) (first c)) id c _ E). }
    rewrite Eq. apply step_alter. intros c0. cbn. split; [done | by left].
  - apply abides_change. intros h. by apply step_same.
Qed.

Lemma abides_serve texts : abides client_step (serve_client from_str display to_string texts).
Proof.
  unfold serve_client, register.
  repeat lazymatch goal with
  | |- abides _ refresh_waveform_demand => apply abides_refresh
  | |- abides _ (remove_client _) => apply abides_remove
  | |- abides _ (bind _ _) => apply abides_bind; [| intros ?]
  end.
  - apply abides_atomically. intros e h. by apply step_same.
  - apply abides_change. intros h. apply step_with_clients. intros i c' Hc'. apply lookup_insert_Some in Hc' as [[_ <-] | [_ ?]]; [by left | by right].
  - apply abides_change. intros h. by apply step_same.
  - done.
  - apply abides_change. intros h. cbv zeta. rewrite written_ok.
    apply (step_alter (fun c => mkClient (streams c) (queue c) (Some (firsts h)))). intros c. split; [done | by right].
  - revert a. induction texts as [| text texts IH]; intros id; [done |]. cbn [apply_all]. apply abides_bind; [apply abides_subscribe | intros _; apply IH].
Qed.

Lemma abides_last_event : abides client_step get_last_event.
Proof. apply abides_bind; [| intros ?; apply abides_load]. apply abides_change. intros h. by apply step_same. Qed.

(** *** The subscriber, section by section *)

Lemma told_current o o' c : current o' = current o -> told o c -> told o' c.
Proof. intros E. unfold told. by rewrite E. Qed.

Lemma settled_load {A : Type} o (f : Hub -> A) : plain_strips o -> outlines client_step (Settled o) (load f) (fun _ => Settled o).
Proof. intros Ho. apply outlines_atomically; [intros _; by apply settled_unmoved | by intros e h H]. Qed.

Lemma unmoved_and {A : Type} (G : A -> A -> Prop) (phi : Prop) P : unmoved G P -> unmoved G (fun c => phi /\ P c).
Proof. intros H c c' Hg [Hphi Hc]. split; [done | by eapply H]. Qed.

(** What the subscriber alone writes is known when it is read. *)
Lemma settled_own {A : Type} o (f : Hub -> A) : plain_strips o -> (forall h, f h = f (sub_part h)) ->
  outlines client_step (Settled o) (load f) (fun a h => a = f o /\ Settled o h).
Proof.
  intros Ho Hf. apply outlines_atomically; [intros a; by apply unmoved_and, settled_unmoved |]. intros e h H. split; [rewrite Hf; by destruct H as [-> _] | done].
Qed.

Lemma settled_change o o' (f : Hub -> Hub) : plain_strips o' -> current o' = current o ->
  (forall h, sub_part h = o -> sub_part (f h) = o' /\ clients (f h) = clients h) ->
  outlines client_step (Settled o) (change f) (fun _ => Settled o').
Proof.
  intros Ho Hc Hf. apply outlines_atomically; [intros _; by apply settled_unmoved |]. intros e h [H1 H2]. destruct (Hf h H1) as [H3 H4].
  split; [done |]. rewrite H4. intros id c Hid. by apply (told_current o), (H2 id).
Qed.

(** A broadcast on the way: who is not told yet is about to be dropped. *)
Definition Half (o : Hub) (slow : list Z) (h : Hub) : Prop :=
  sub_part h = o /\ forall id c, clients h !! id = Some c -> id ∈ slow \/ told o c.

Lemma half_unmoved o slow : plain_strips o -> unmoved client_step (Half o slow).
Proof.
  intros Hs h h' Hstep [H1 H2]. destruct Hstep as (Hp & _ & Hc). split; [by rewrite Hp |]. intros id c' Hc'.
  destruct (Hc id c' Hc') as [[Hq Hf] | (c & E & Hq & Hf)].
  - right. split; [left; by rewrite Hq |]. by rewrite Hf.
  - destruct (H2 id c E) as [| Ht]; [by left | right]. destruct Hf as [Hf | Hf].
    + destruct Ht as [Ha Hb]. unfold told. by rewrite Hq, Hf.
    + pose proof (told_first o h c H1 Hs Ht) as Ht'. unfold told in *. by rewrite Hq, Hf.
Qed.

Lemma half_refresh o slow : plain_strips o -> outlines client_step (Half o slow) refresh_waveform_demand (fun _ => Half o slow).
Proof.
  intros Ho. apply (outlines_bind _ _ _ (fun _ => Half o slow)); [by apply half_unmoved | |].
  - apply outlines_atomically; [intros _; by apply half_unmoved | by intros e h H].
  - intros n. split; [by apply half_unmoved |]. apply outlines_atomically; [intros _; by apply half_unmoved | by intros e h H].
Qed.

Lemma half_remove o id slow : plain_strips o -> outlines client_step (Half o (id :: slow)) (remove_client id) (fun _ => Half o slow).
Proof.
  intros Ho. apply (outlines_bind _ _ _ (fun _ => Half o slow)); [by apply half_unmoved | |].
  - apply outlines_atomically; [intros _; by apply half_unmoved |]. intros e h [H1 H2]. destruct (clients h !! id) as [c0 |] eqn:E.
    + split; [done |]. intros i c Hc. change (delete id (clients h) !! i = Some c) in Hc. apply lookup_delete_Some in Hc as [Hi Hc].
      destruct (H2 i c Hc) as [Hin |]; [| by right]. left. by apply elem_of_cons in Hin as [-> |].
    + split; [done |]. intros i c Hc. destruct (H2 i c Hc) as [Hin |]; [| by right]. left. apply elem_of_cons in Hin as [-> |]; [by rewrite E in Hc | done].
  - intros [|]; (split; [by apply half_unmoved |]); [by apply half_refresh | by intros h].
Qed.

Lemma half_drop o slow : plain_strips o -> outlines client_step (Half o slow) (drop_clients slow) (fun _ => Settled o).
Proof.
  intros Ho. induction slow as [| id slow IH]; cbn [drop_clients].
  - intros h [H1 H2]. split; [done |]. intros id c Hc. destruct (H2 id c Hc) as [Hin |]; [| done]. by apply not_elem_of_nil in Hin.
  - apply (outlines_bind _ _ _ (fun _ => Half o (id :: slow))); [by apply half_unmoved | |].
    + apply outlines_atomically; [intros _; by apply half_unmoved | by intros e h H].
    + intros _. split; [by apply half_unmoved |]. apply (outlines_bind _ _ _ (fun _ => Half o slow)); [by apply half_unmoved | by apply half_remove |].
      intros _. split; [by apply half_unmoved | exact IH].
Qed.

(** A message to the clients: who was told, or is told by it, is told. *)
Lemma outlines_broadcast o (pre : Client -> Prop) text status_only P : plain_strips o -> unmoved client_step P ->
  (forall h, P h -> sub_part h = o /\ forall id c, clients h !! id = Some c -> pre c) ->
  (forall c, pre c -> told o (mkClient (streams c) (queue c ++ [text]) (first c))) ->
  (forall c, pre c -> wanted_by status_only c = false -> told o c) ->
  outlines client_step P (broadcast_json text status_only) (fun _ => Settled o).
Proof.
  intros Ho HP Hpre Hpush Hnot. apply (outlines_bind _ _ _ (Half o)); [done | |].
  - apply outlines_atomically; [intros slow; by apply half_unmoved |]. intros e h Hh. destruct (Hpre h Hh) as [H1 H2].
    split; [exact H1 |]. intros id c' Hc'.
    change (map_imap (fun id c => Some (try_send e text status_only id c)) (clients h) !! id = Some c') in Hc'.
    rewrite map_lookup_imap in Hc'. destruct (clients h !! id) as [c |] eqn:E; [| done]. injection Hc' as <-. specialize (H2 id c E).
    unfold try_send. destruct (wanted_by status_only c) eqn:Ew; cbn [andb]; [| right; by apply Hnot].
    destruct (full e id) eqn:Ef; cbn [negb]; [left | right; by apply Hpush]. apply list_elem_of_fmap. exists (id, c). split; [done |].
    apply list_elem_of_In, filter_In. split; [by apply list_elem_of_In, elem_of_map_to_list |]. cbn. by rewrite Ew, Ef.
  - intros slow. split; [by apply half_unmoved | by apply half_drop].
Qed.

(** The message of the run reaches everyone that is not dropped. *)
Lemma broadcast_current o : plain_strips o -> outlines client_step (fun h => sub_part h = o) (broadcast_json (current o) false) (fun _ => Settled o).
Proof.
  intros Ho. apply (outlines_broadcast o (fun _ => True)); [done | | done | | done].
  - intros h h' (Hp & _) H. by rewrite Hp.
  - intros c _. assert (E : metas [current o] = [current o]) by done. split; cbn [queue first].
    + right. by rewrite metas_app, E, last_snoc.
    + intros l _. by rewrite app_assoc, metas_app, E, last_snoc.
Qed.

(** Another message does not change what is known of the run. *)
Lemma broadcast_other o text status_only : plain_strips o -> is_meta text = false ->
  outlines client_step (Settled o) (broadcast_json text status_only) (fun _ => Settled o).
Proof.
  intros Ho Ht. apply (outlines_broadcast o (told o)); [done | by apply settled_unmoved | done | | done].
  assert (E : metas [text] = []) by (unfold metas; cbn [List.filter]; by rewrite Ht).
  intros c [H1 H2]. split; cbn [queue first].
  - by rewrite metas_app, E, app_nil_r.
  - intros l Hl. rewrite app_assoc, metas_app, E, app_nil_r. by apply H2.
Qed.

(** The thread goes through its first part and knows [M] afterwards. *)
Ltac through M := apply (outlines_bind _ _ _ M); [by apply settled_unmoved | | intros ?; split; [by apply settled_unmoved |]].

Lemma settled_stats o : plain_strips o -> outlines client_step (Settled o) stats (fun _ => Settled o).
Proof. intros Ho. unfold stats. do 6 (through (fun (_ : Z) => Settled o); [by apply settled_load |]). by intros h. Qed.

Lemma settled_broadcast o text status_only : plain_strips o -> (forall v, text = Some v -> is_meta v = false) ->
  outlines client_step (Settled o) (broadcast_option text status_only) (fun _ => Settled o).
Proof. intros Ho Ht. destruct text as [v |]; cbn [broadcast_option]; [apply broadcast_other; [done | by apply Ht] | by intros h]. Qed.

(** The run of the last state seen is the run of the clients' message. *)
Definition coherent (o : Hub) : Prop := forall r st, last_run_state o = Some (r, st) -> meta_run o = r.

Definition after_status (s : StatusPayload) (o : Hub) : Hub :=
  o <| meta_run := status_run s |> <| last_run_state := Some (status_run s, status_state s) |>.

Lemma hub_same_run o : o <| meta_run := meta_run o |> = o.
Proof. by destruct o. Qed.

Lemma tell_run o r : plain_strips o ->
  outlines client_step (Settled o)
    (let& _ := change (fun h => h <| meta_run := r |>) in let& text := meta_json to_string in broadcast_option text false)
    (fun _ => Settled (o <| meta_run := r |>)).
Proof.
  intros Ho. set (o1 := o <| meta_run := r |>). assert (Ho1 : plain_strips o1) by done.
  assert (Hu : unmoved client_step (fun h => sub_part h = o1)) by (intros h h' (Hp & _) H; by rewrite Hp).
  apply (outlines_bind _ _ _ (fun _ h => sub_part h = o1)); [by apply settled_unmoved | |].
  - apply outlines_atomically; [done |]. intros e h [<- _]. done.
  - intros _. split; [done |]. apply (outlines_bind _ _ _ (fun a h => a = Some (current o1) /\ sub_part h = o1)); [done | |].
    + apply outlines_atomically; [intros a; by apply unmoved_and |]. intros e h H. rewrite written_ok. split; [| done]. by rewrite <- H.
    + intros a. split; [by apply unmoved_and |]. apply outlines_fact. intros ->. cbn [broadcast_option]. by apply broadcast_current.
Qed.

Lemma tell_state o s : plain_strips o ->
  outlines client_step (Settled (o <| meta_run := status_run s |>))
    (let& ts := atomically (fun found h => (now_rfc3339 found, [], h)) in
     let& _ := broadcast_option (written to_string (run_value (status_state s) (status_run s) ts)) false in
     change (fun h => h <| last_run_state := Some (status_run s, status_state s) |>))
    (fun _ => Settled (after_status s o)).
Proof.
  intros Ho. set (o1 := o <| meta_run := status_run s |>). assert (Ho1 : plain_strips o1) by done. assert (Ho2 : plain_strips (after_status s o)) by done.
  through (fun (_ : string) => Settled o1).
  - apply outlines_atomically; [intros _; by apply settled_unmoved | by intros e h H].
  - through (fun (_ : unit) => Settled o1).
    + apply settled_broadcast; [done |]. rewrite written_ok. by intros v [= <-].
    + apply settled_change; [done | done |]. intros h Hh. split; [| done]. unfold after_status, o1 in *. rewrite <- Hh. done.
Qed.

Lemma on_status_spec (slow_value : SlowPayload -> option Value) s o : plain_strips o -> coherent o ->
  outlines client_step (Settled o) (on_status to_string slow_value s) (fun _ => Settled (after_status s o)).
Proof.
  intros Ho Hc. unfold on_status. apply (outlines_bind _ _ _ (fun a h => a = last_run_state o /\ Settled o h)); [by apply settled_unmoved | by apply settled_own |].
  intros previous. split; [by apply unmoved_and, settled_unmoved |]. cbv zeta.
  set (p := option_map fst previous). set (q := option_map snd previous).
  set (o1 := o <| meta_run := status_run s |>). set (o2 := after_status s o). assert (Ho1 : plain_strips o1) by done. assert (Ho2 : plain_strips o2) by done.
  apply (outlines_bind _ _ _ (fun _ h => previous = last_run_state o /\ Settled o1 h)); [by apply unmoved_and, settled_unmoved | |].
  { destruct (bool_decide_reflect (p = Some (status_run s))) as [Hp | Hp]; cbn [negb].
    - intros h [E Hh]. split; [done |]. unfold o1. unfold p in Hp. rewrite E in Hp. destruct (last_run_state o) as [[r st] |] eqn:El; [| done].
      injection Hp as Hr. by rewrite <- Hr, <- (Hc r st El), hub_same_run.
    - apply outlines_fact. intros E. eapply outlines_mono; [| by apply tell_run]. cbn. auto. }
  intros _. split; [by apply unmoved_and, settled_unmoved |].
  apply (outlines_bind _ _ _ (fun _ => Settled o2)); [by apply unmoved_and, settled_unmoved | |].
  { destruct (bool_decide_reflect (p = Some (status_run s))) as [Hp | Hp]; [destruct (bool_decide_reflect (q = Some (status_state s))) as [Hq | Hq] |]; cbn [negb orb].
    - intros h [E Hh]. enough (o2 = o1) as -> by done. unfold o2, o1, after_status. unfold p in Hp. unfold q in Hq. rewrite E in Hp, Hq.
      destruct o as [? ? ? ? ? ? ? [[r st] |] ? ?]; [| done]. cbn in *. injection Hp as ->. injection Hq as ->. done.
    - apply outlines_fact. intros _. by apply tell_state.
    - apply outlines_fact. intros _. by apply tell_state. }
  intros _. split; [by apply settled_unmoved |].
  through (fun (_ : option SlowPayload) => Settled o2); [by apply settled_load |].
  through (fun (_ : MonitorStats) => Settled o2); [by apply settled_stats |].
  apply settled_broadcast; [done |]. intros v. unfold status_json. destruct a as [pl |]; [destruct (slow_value pl); [| done] |]; rewrite written_ok; intros [= <-]; apply status_is_not_meta.
Qed.

(** *** A message of the subscriber *)

Context (slow_value : SlowPayload -> option Value) (decode : bytes -> result MonitorMessage WireError) (nan32 : bytes -> Z)
  (track_of : option (BuiltEventPayload -> list (list Z) -> Z * option bytes)).

Definition missed_by (ts : gmap Z GapTracker) (m : MonitorMessage) : Z := (observe (seq m) (default new_tracker (ts !! from_source m))).1.
Definition observed (ts : gmap Z GapTracker) (m : MonitorMessage) : gmap Z GapTracker :=
  <[from_source m := (observe (seq m) (default new_tracker (ts !! from_source m))).2]> ts.

(** What the subscriber's part of the hub becomes. *)
Definition after_content (p : MonitorPayload) (o : Hub) : Hub :=
  match p with
  | Status s => after_status s (o <| counters ::= (fun c => c <| status_in ::= incr |>) |>)
  | HistSnapshot _ => o <| counters ::= (fun c => c <| snapshots_in ::= incr |>) |>
  | BuiltEvent _ => o <| counters ::= (fun c => c <| events_in ::= incr |>) |>
  | Slow s => o <| counters ::= (fun c => c <| slow_in ::= incr |>) |> <| last_slow := Some s |>
  | Unknown _ => o <| counters ::= (fun c => c <| unknown_kind ::= incr |>) |>
  end.

Definition hear (x : Hub * gmap Z GapTracker) (raw : bytes) : Hub * gmap Z GapTracker :=
  let '(o, ts) := x in
  let o := o <| counters ::= (fun c => c <| messages_in ::= incr |>) |> in
  match decode raw with
  | Err _ => (o <| counters ::= (fun c => c <| decode_errors ::= incr |>) |>, ts)
  | Ok m =>
      let o := o <| counters ::= (fun c => c <| monitor_gaps ::= Z.add (missed_by ts m) |>) |>
                 <| counters ::= (fun c => c <| source_restarts := total_restarts (observed ts m) |>) |> in
      (after_content (content m) o, observed ts m)
  end.

Lemma observe_nonneg n t : 0 <= (observe n t).1.
Proof. unfold observe. destruct (last_seq t) as [prev |]; [| done]. destruct (Z.ltb_spec prev n); cbn; lia. Qed.

(** A counter that only the subscriber writes. *)
Lemma settled_count o f : plain_strips o -> (forall h, sub_part (h <| counters ::= f |>) = (sub_part h) <| counters ::= f |>) ->
  outlines client_step (Settled o) (Hub.count f) (fun _ => Settled (o <| counters ::= f |>)).
Proof. intros Ho Hf. apply settled_change; [done | done |]. intros h <-. by rewrite <- Hf. Qed.

(** One that is of no interest here. *)
Lemma settled_aside o f : plain_strips o -> (forall h, sub_part (h <| counters ::= f |>) = sub_part h) ->
  outlines client_step (Settled o) (Hub.count f) (fun _ => Settled o).
Proof. intros Ho Hf. apply settled_change; [done | done |]. intros h <-. by rewrite Hf. Qed.

Lemma settled_publish o stream frames : plain_strips o -> outlines client_step (Settled o) (publish_live stream frames) (fun _ => Settled o).
Proof. intros Ho. apply outlines_atomically; [intros _; by apply settled_unmoved | by intros e h H]. Qed.

Definition with_trackers (ts : gmap Z GapTracker) (o : Hub) (i : Ingest) (h : Hub) : Prop := trackers i = ts /\ Settled o h.

Lemma settled_ret ts o i : trackers i = ts -> outlines client_step (Settled o) (Ret i : Task Ingest) (with_trackers ts o).
Proof. intros E h H. by split. Qed.

Lemma handle_event_spec e i o : plain_strips o -> outlines client_step (Settled o) (handle_event track_of e i) (with_trackers (trackers i) o).
Proof.
  intros Ho. unfold handle_event. through (fun (_ : unit) => Settled o).
  { apply outlines_atomically; [intros _; by apply settled_unmoved | by intros f h H]. }
  destruct (uvw e (converter i)) as [[frames d] | |]; [| done | done].
  do 3 (through (fun (_ : unit) => Settled o); [by apply settled_aside |]).
  destruct (push_track track_of e d i) as [track i'] eqn:E. assert (Ei : trackers i' = trackers i).
  { unfold push_track in E. destruct track_of as [reco |]; [destruct (reco e (grids d))|]; by injection E as _ <-. }
  through (fun (_ : unit) => Settled o); [by apply settled_publish |].
  through (fun (_ : bool) => Settled o); [by apply settled_load |].
  match goal with wanted : bool |- _ => destruct wanted; [| by apply settled_ret] end. destruct (waveforms e d) as [waves d'].
  through (fun (_ : unit) => Settled o); [by apply settled_publish |]. by apply settled_ret.
Qed.

Lemma handle_payload_spec p i o : plain_strips o -> coherent o ->
  outlines client_step (Settled o) (handle_payload to_string slow_value nan32 track_of p i) (with_trackers (trackers i) (after_content p o)).
Proof.
  intros Ho Hc. destruct p as [s | s | e | s | kind]; cbn [handle_payload after_content].
  - through (fun (_ : unit) => Settled (o <| counters ::= (fun c => c <| status_in ::= incr |>) |>)); [by apply settled_count |].
    through (fun (_ : unit) => Settled (after_status s (o <| counters ::= (fun c => c <| status_in ::= incr |>) |>))); [by apply on_status_spec |].
    by apply settled_ret.
  - through (fun (_ : unit) => Settled (o <| counters ::= (fun c => c <| snapshots_in ::= incr |>) |>)); [by apply settled_count |].
    destruct (histos nan32 (snapshot_run s) (hists s) (converter i)) as [frames d].
    through (fun (_ : unit) => Settled (o <| counters ::= (fun c => c <| snapshots_in ::= incr |>) |>)); [by apply settled_publish |].
    by apply settled_ret.
  - through (fun (_ : unit) => Settled (o <| counters ::= (fun c => c <| events_in ::= incr |>) |>)); [by apply settled_count |].
    by apply handle_event_spec.
  - through (fun (_ : unit) => Settled (o <| counters ::= (fun c => c <| slow_in ::= incr |>) |>)); [by apply settled_count |].
    through (fun (_ : unit) => Settled (o <| counters ::= (fun c => c <| slow_in ::= incr |>) |> <| last_slow := Some s |>)); [| by apply settled_ret].
    apply settled_change; [done | done |]. intros h Hh. split; [by rewrite <- Hh | done].
  - through (fun (_ : unit) => Settled (o <| counters ::= (fun c => c <| unknown_kind ::= incr |>) |>)); [by apply settled_count |].
    by apply settled_ret.
Qed.

Lemma track_gaps_spec m i o : plain_strips o ->
  outlines client_step (Settled o) (track_gaps m i)
    (with_trackers (observed (trackers i) m)
       (o <| counters ::= (fun c => c <| monitor_gaps ::= Z.add (missed_by (trackers i) m) |>) |>
          <| counters ::= (fun c => c <| source_restarts := total_restarts (observed (trackers i) m) |>) |>)).
Proof.
  intros Ho. unfold track_gaps, missed_by, observed. pose proof (observe_nonneg (seq m) (default new_tracker (trackers i !! from_source m))) as Hn.
  destruct (observe _ _) as [missed t]. cbn [fst snd] in *. set (o1 := o <| counters ::= (fun c => c <| monitor_gaps ::= Z.add missed |>) |>).
  through (fun (_ : unit) => Settled o1).
  - destruct (Z.ltb_spec 0 missed) as [| Hle]; [by apply settled_count |]. assert (missed = 0) as -> by lia.
    intros h Hh. unfold o1. by destruct o as [? ? [] ? ? ? ? ? ? ?].
  - through (fun (_ : unit) => Settled (o1 <| counters ::= (fun c => c <| source_restarts := total_restarts (<[from_source m := t]> (trackers i)) |>) |>)); [by apply settled_count |].
    by apply settled_ret.
Qed.

Lemma handle_spec raw i o : plain_strips o -> coherent o ->
  outlines client_step (Settled o) (handle to_string slow_value decode nan32 track_of raw i)
    (with_trackers (hear (o, trackers i) raw).2 (hear (o, trackers i) raw).1).
Proof.
  intros Ho Hc. unfold handle, hear. set (o0 := o <| counters ::= (fun c => c <| messages_in ::= incr |>) |>).
  through (fun (_ : unit) => Settled o0); [by apply settled_count |]. destruct (decode raw) as [m | err].
  - set (o1 := o0 <| counters ::= (fun c => c <| monitor_gaps ::= Z.add (missed_by (trackers i) m) |>) |>
                  <| counters ::= (fun c => c <| source_restarts := total_restarts (observed (trackers i) m) |>) |>).
    apply (outlines_bind _ _ _ (with_trackers (observed (trackers i) m) o1)); [by apply settled_unmoved | by apply track_gaps_spec |].
    intros i'. split; [by apply unmoved_and, settled_unmoved |]. apply outlines_fact. intros <-. by apply handle_payload_spec.
  - through (fun (_ : unit) => Settled (o0 <| counters ::= (fun c => c <| decode_errors ::= incr |>) |>)); [by apply settled_count |]. by apply settled_ret.
Qed.

Lemma hear_keeps x raw : plain_strips x.1 -> coherent x.1 -> plain_strips (hear x raw).1 /\ coherent (hear x raw).1.
Proof.
  destruct x as [o ts]. intros Ho Hc. unfold hear. destruct (decode raw) as [m |]; [| by split].
  destruct (content m) as [s | s | e | s | kind]; cbn [after_content fst]; split; try done. intros r st [= <- _]. done.
Qed.

Lemma run_sub_spec raws : forall i o, plain_strips o -> coherent o ->
  outlines client_step (Settled o) (run_sub to_string slow_value decode nan32 track_of raws i)
    (with_trackers (fold_left hear raws (o, trackers i)).2 (fold_left hear raws (o, trackers i)).1).
Proof.
  induction raws as [| raw raws IH]; intros i o Ho Hc; cbn [run_sub fold_left]; [by apply settled_ret |].
  destruct (hear_keeps (o, trackers i) raw Ho Hc) as [Ho' Hc'].
  apply (outlines_bind _ _ _ (with_trackers (hear (o, trackers i) raw).2 (hear (o, trackers i) raw).1)); [by apply settled_unmoved | by apply handle_spec |].
  intros i'. split; [by apply unmoved_and, settled_unmoved |]. apply outlines_fact. intros E.
  specialize (IH i' _ Ho' Hc'). rewrite E in IH. by destruct (hear (o, trackers i) raw).
Qed.
End Serving.

(** ** The counters of the subscriber *)

Section Accounts.
Context (decode : bytes -> result MonitorMessage WireError).

Definition messages (raws : list bytes) : list MonitorMessage := omap (fun raw => match decode raw with Ok m => Some m | Err _ => None end) raws.

(** The sequence numbers of one sender, as they came. *)
Definition seqs_of (source : Z) (ms : list MonitorMessage) : list Z := map seq (List.filter (fun m => from_source m =? source) ms).

Definition tracker_of (l : list Z) : GapTracker := fold_left (fun t n => (observe n t).2) l new_tracker.

(** The run of the last state that came. *)
Definition status_in_ (m : MonitorMessage) : option StatusPayload := match content m with Status s => Some s | _ => None end.
Definition last_status_of (ms : list MonitorMessage) : option StatusPayload := last (omap status_in_ ms).

Definition kind_is (k : nat) (m : MonitorMessage) : bool :=
  match content m, k with
  | Status _, 0%nat | HistSnapshot _, 1%nat | BuiltEvent _, 2%nat | Slow _, 3%nat | Unknown _, 4%nat => true
  | _, _ => false
  end.

Definition total (f : GapTracker -> Z) (ts : gmap Z GapTracker) : Z := tally (map (fun p => f p.2) (map_to_list ts)).

Lemma tally_permutation l l' : l ≡ₚ l' -> tally l = tally l'.
Proof. induction 1 as [| x l l' _ IH | x y l | l l' l'' _ IH _ IH']; [done | | | congruence]; unfold tally in *; cbn; lia. Qed.

Lemma total_insert_new f k t ts : ts !! k = None -> total f (<[k := t]> ts) = f t + total f ts.
Proof. intros H. unfold total. rewrite (tally_permutation _ (map (fun p => f p.2) ((k, t) :: map_to_list ts))); [done |]. by apply Permutation_map, map_to_list_insert. Qed.

Lemma total_insert f k t ts : total f (<[k := t]> ts) = f t - default 0 (f <$> ts !! k) + total f ts.
Proof.
  destruct (ts !! k) as [t0 |] eqn:E; cbn [fmap option_fmap option_map].
  - assert (E0 : total f ts = f t0 + total f (delete k ts)).
    { rewrite <- (insert_delete_id ts k t0 E) at 1. by rewrite total_insert_new by apply lookup_delete_eq. }
    rewrite <- (insert_delete_eq ts k t), total_insert_new by apply lookup_delete_eq. change (default 0 (Some (f t0))) with (f t0). lia.
  - rewrite total_insert_new by done. change (default 0 None) with 0. lia.
Qed.

Lemma observe_gaps n t : gaps (observe n t).2 = gaps t + (observe n t).1.
Proof. unfold observe. destruct (last_seq t) as [prev |]; [| cbn; lia]. destruct (prev <? n); cbn; lia. Qed.

Lemma total_gaps_observed ts m : total gaps (observed ts m) = missed_by ts m + total gaps ts.
Proof.
  unfold observed, missed_by. rewrite total_insert, observe_gaps. destruct (ts !! from_source m) as [t |]; cbn [fmap option_fmap option_map].
  - change (default new_tracker (Some t)) with t. change (default 0 (Some (gaps t))) with (gaps t). lia.
  - change (default new_tracker None) with new_tracker. change (default 0 None) with 0. change (gaps new_tracker) with 0. lia.
Qed.

Lemma seqs_of_snoc s ms m : seqs_of s (ms ++ [m]) = seqs_of s ms ++ (if from_source m =? s then [seq m] else []).
Proof. unfold seqs_of. rewrite List.filter_app, map_app. f_equal. cbn [List.filter]. by destruct (from_source m =? s). Qed.

Lemma tracker_of_snoc l n : tracker_of (l ++ [n]) = (observe n (tracker_of l)).2.
Proof. unfold tracker_of. by rewrite fold_left_app. Qed.

(** Each number of a sender with the next; between a number and a larger next one all
    are missing, and a next one that is not larger is the sender's new beginning. *)
Definition pairs (l : list Z) : list (Z * Z) := zip l (tail l).
Definition missing (l : list Z) : Z := tally (map (fun p => if p.1 <? p.2 then p.2 - p.1 - 1 else 0) (pairs l)).
Definition begun_again (l : list Z) : Z := countb (fun p => p.2 <=? p.1) (pairs l).

Lemma pairs_snoc l n : pairs (l ++ [n]) = pairs l ++ match last l with Some y => [(y, n)] | None => [] end.
Proof.
  destruct l as [| x l]; [done |]. unfold pairs. cbn [app tail]. revert x. induction l as [| y l IH]; intros x; [done |].
  rewrite last_cons_cons. change (zip (x :: y :: l) (y :: l)) with ((x, y) :: zip (y :: l) l).
  change (zip (x :: (y :: l) ++ [n]) ((y :: l) ++ [n])) with ((x, y) :: zip (y :: l ++ [n]) (l ++ [n])). by rewrite (IH y).
Qed.

(** The tracker counts just these, whatever numbers come. *)
Lemma tracker_counts l : tracker_of l = mkTracker (last l) (missing l) (begun_again l).
Proof.
  induction l as [| n l IH] using rev_ind; [done |]. rewrite tracker_of_snoc, IH, last_snoc. unfold missing, begun_again.
  rewrite pairs_snoc, map_app, tally_app, countb_app. unfold observe. cbn [last_seq gaps restarts].
  destruct (last l) as [y |]; cbn [map countb]; [| by rewrite !Z.add_0_r]. rewrite tally_cons. change (tally []) with 0. cbn [fst snd].
  destruct (Z.ltb_spec y n); [rewrite (proj2 (Z.leb_gt n y)) by lia | rewrite (proj2 (Z.leb_le n y)) by lia]; cbn [snd]; f_equal; lia.
Qed.

(** Numbers that grow: what is missing is what lies between and did not come. *)
Lemma tracker_increasing l x : StronglySorted Z.lt (x :: l) -> tracker_of (x :: l) = mkTracker (last (x :: l)) (default x (last (x :: l)) - x + 1 - len (x :: l)) 0.
Proof.
  intros Hs. induction l as [| n l IH] using rev_ind; [change (mkTracker (Some x) 0 0 = mkTracker (Some x) (x - x + 1 - 1) 0); f_equal; lia |].
  rewrite app_comm_cons in *. rewrite tracker_of_snoc, last_snoc. rewrite IH by (by eapply StronglySorted_app_1_l).
  destruct (last (x :: l)) as [y |] eqn:Ey; [| by apply last_None in Ey]. apply last_Some in Ey as (l' & El).
  assert (Hy : y < n) by (apply (StronglySorted_app_1_elem_of Z.lt (x :: l) [n] y n Hs); rewrite ?El; set_solver).
  unfold observe. cbn [last_seq gaps restarts]. rewrite (proj2 (Z.ltb_lt y n) Hy). cbn [snd].
  change (default x (Some y)) with y. change (default x (Some n)) with n. f_equal. unfold len. rewrite length_app. cbn [length]. lia.
Qed.

(** The trackers are those of the senders, each on its own. *)
Definition tracks (ts : gmap Z GapTracker) (ms : list MonitorMessage) : Prop :=
  forall s, default new_tracker (ts !! s) = tracker_of (seqs_of s ms).

Lemma tracks_snoc ts ms m : tracks ts ms -> tracks (observed ts m) (ms ++ [m]).
Proof.
  intros H s. rewrite seqs_of_snoc. unfold observed. destruct (Z.eqb_spec (from_source m) s) as [<- | Hne].
  - rewrite lookup_insert_eq, tracker_of_snoc, <- H. done.
  - by rewrite lookup_insert_ne, app_nil_r.
Qed.

(** A sum over the trackers is one over the senders. *)
Lemma total_sources (f : GapTracker -> Z) sources ms : f new_tracker = 0 -> NoDup sources -> forall ts0,
  (forall m, m ∈ ms -> from_source m ∈ sources) -> tracks (fold_left observed ms ts0) ms -> total f ts0 = 0 -> tracks ts0 [] ->
  total f (fold_left observed ms ts0) = tally (map (fun s => f (tracker_of (seqs_of s ms))) sources).
Proof.
  intros Hf Hnd ts0. induction ms as [| m ms IH] using rev_ind; intros Hin _ H0 Ht0.
  - cbn [fold_left]. rewrite H0. symmetry. apply tally_map_zero. intros s _. exact Hf.
  - rewrite fold_left_app. cbn [fold_left].
    assert (Ht : forall l, tracks (fold_left observed l ts0) l).
    { intros l. induction l as [| x l IHl] using rev_ind; [exact Ht0 |]. rewrite fold_left_app. by apply tracks_snoc. }
    specialize (IH (fun x Hx => Hin x (proj2 (elem_of_app _ _ _) (or_introl Hx))) (Ht ms) H0 Ht0).
    set (ts := fold_left observed ms ts0) in *. set (k := from_source m).
    set (d := f (observe (seq m) (tracker_of (seqs_of k ms))).2 - f (tracker_of (seqs_of k ms))).
    rewrite (tally_map_ext _ (fun s => f (tracker_of (seqs_of s ms)) + if decide (k = s) then d else 0)).
    + rewrite tally_map_add, <- IH, (tally_one (fun _ => d)) by done. rewrite decide_True by (apply Hin; set_solver).
      assert (Hk : default new_tracker (ts !! k) = tracker_of (seqs_of k ms)) by exact (Ht ms k).
      unfold observed. fold k. rewrite total_insert, Hk. replace (default 0 (f <$> ts !! k)) with (f (tracker_of (seqs_of k ms))); [unfold d; lia |].
      rewrite <- Hk. destruct (ts !! k); [done | exact Hf].
    + intros s _. rewrite seqs_of_snoc. fold k. destruct (Z.eqb_spec k s) as [<- | Hne].
      * rewrite decide_True, tracker_of_snoc by done. unfold d. lia.
      * rewrite decide_False, app_nil_r by done. lia.
Qed.

(** *** What the subscriber's part comes to *)

Context (m0 : Meta) (strips : option Value).

Definition heard (raws : list bytes) : Hub * gmap Z GapTracker := fold_left (hear decode) raws (sub_part (new_hub m0 strips), ∅).

Lemma messages_snoc raws raw : messages (raws ++ [raw]) = messages raws ++ match decode raw with Ok m => [m] | Err _ => [] end.
Proof. unfold messages. rewrite omap_app. cbn. by destruct (decode raw). Qed.

Definition kinds (k : nat) (ms : list MonitorMessage) : Z := countb (kind_is k) ms.

Record Account (raws : list bytes) (o : Hub) (ts : gmap Z GapTracker) : Prop := {
  acc_in : messages_in (counters o) = len raws;
  acc_bad : decode_errors (counters o) = len raws - len (messages raws);
  acc_gaps : monitor_gaps (counters o) = total gaps ts;
  acc_restarts : source_restarts (counters o) = total restarts ts;
  acc_kinds : [status_in (counters o); snapshots_in (counters o); events_in (counters o); slow_in (counters o); unknown_kind (counters o)]
                = map (fun k => kinds k (messages raws)) [0; 1; 2; 3; 4]%nat;
  acc_run : meta_run o = match last_status_of (messages raws) with Some s => status_run s | None => 0 end;
  acc_trackers : ts = fold_left observed (messages raws) ∅;
}.

Lemma kinds_snoc k ms m : kinds k (ms ++ [m]) = kinds k ms + (if kind_is k m then 1 else 0).
Proof. unfold kinds. rewrite countb_app. f_equal. unfold countb. cbn. by destruct (kind_is k m). Qed.

(** The counters, one after another. *)
Definition count_content (p : MonitorPayload) (c : MonitorCounters) : MonitorCounters :=
  match p with
  | Status _ => c <| status_in ::= incr |>
  | HistSnapshot _ => c <| snapshots_in ::= incr |>
  | BuiltEvent _ => c <| events_in ::= incr |>
  | Slow _ => c <| slow_in ::= incr |>
  | Unknown _ => c <| unknown_kind ::= incr |>
  end.

Lemma counters_update f o : counters (o <| counters ::= f |>) = f (counters o).
Proof. done. Qed.

Lemma after_content_counters p o : counters (after_content p o) = count_content p (counters o).
Proof. by destruct p. Qed.

Lemma after_content_run p o : meta_run (after_content p o) = match p with Status s => status_run s | _ => meta_run o end.
Proof. by destruct p. Qed.

Lemma taken_counters missed rs c :
  c <| messages_in ::= incr |> <| monitor_gaps ::= Z.add missed |> <| source_restarts := rs |> =
    mkMonCounters (incr (messages_in c)) (missed + monitor_gaps c) rs (status_in c) (snapshots_in c) (events_in c) (slow_in c)
      (unknown_kind c) (decode_errors c) (ws_dropped c) (clients_now c) (clients_total c) (clients_dropped_slow c)
      (bad_client_messages c) (last_event_requests c) (zs_restored c) (zs_no_table c) (zs_missing_channels c).
Proof. by destruct c. Qed.

Lemma refused_counters c :
  c <| messages_in ::= incr |> <| decode_errors ::= incr |> =
    mkMonCounters (incr (messages_in c)) (monitor_gaps c) (source_restarts c) (status_in c) (snapshots_in c) (events_in c) (slow_in c)
      (unknown_kind c) (incr (decode_errors c)) (ws_dropped c) (clients_now c) (clients_total c) (clients_dropped_slow c)
      (bad_client_messages c) (last_event_requests c) (zs_restored c) (zs_no_table c) (zs_missing_channels c).
Proof. by destruct c. Qed.

Lemma last_status_snoc ms m : last_status_of (ms ++ [m]) = match status_in_ m with Some s => Some s | None => last_status_of ms end.
Proof. unfold last_status_of. rewrite omap_app, last_app. cbn. by destruct (status_in_ m). Qed.

Lemma account_ok raws raw m o ts : decode raw = Ok m -> Account raws o ts ->
  Account (raws ++ [raw]) (hear decode (o, ts) raw).1 (hear decode (o, ts) raw).2.
Proof.
  intros E [H1 H2 H3 H4 H5 H6 H7]. pose proof (messages_snoc raws raw) as Em. rewrite E in Em.
  assert (Hlen : len (raws ++ [raw]) = len raws + 1) by (rewrite len_app; done).
  assert (Hlm : len (messages (raws ++ [raw])) = len (messages raws) + 1) by (rewrite Em, len_app; done).
  unfold hear. rewrite E. cbn [fst snd]. set (o1 := o <| counters ::= _ |> <| counters ::= _ |> <| counters ::= _ |>).
  assert (Ec : counters o1 = mkMonCounters (incr (messages_in (counters o))) (missed_by ts m + monitor_gaps (counters o)) (total_restarts (observed ts m))
     (status_in (counters o)) (snapshots_in (counters o)) (events_in (counters o)) (slow_in (counters o)) (unknown_kind (counters o)) (decode_errors (counters o))
     (ws_dropped (counters o)) (clients_now (counters o)) (clients_total (counters o)) (clients_dropped_slow (counters o)) (bad_client_messages (counters o))
     (last_event_requests (counters o)) (zs_restored (counters o)) (zs_no_table (counters o)) (zs_missing_channels (counters o))).
  { unfold o1. rewrite !counters_update. apply taken_counters. }
  assert (Er : meta_run o1 = meta_run o) by done. clearbody o1. injection H5 as K0 K1 K2 K3 K4.
  split; rewrite ?after_content_counters, ?after_content_run, ?Ec, ?Er, ?Hlen, ?Hlm, ?Em, ?H6, ?last_status_snoc.
  - destruct (content m); cbn; rewrite H1; unfold incr; lia.
  - destruct (content m); cbn; rewrite H2; lia.
  - rewrite total_gaps_observed, <- H3. by destruct (content m).
  - by destruct (content m).
  - cbn [map]. rewrite !kinds_snoc, <- K0, <- K1, <- K2, <- K3, <- K4. unfold kind_is, incr.
    destruct (content m); cbn; repeat f_equal; unfold incr; lia.
  - unfold status_in_. by destruct (content m).
  - by rewrite fold_left_app, <- H7.
Qed.

Lemma account_err raws raw err o ts : decode raw = Err err -> Account raws o ts ->
  Account (raws ++ [raw]) (hear decode (o, ts) raw).1 (hear decode (o, ts) raw).2.
Proof.
  intros E [H1 H2 H3 H4 H5 H6 H7]. pose proof (messages_snoc raws raw) as Em. rewrite E, app_nil_r in Em.
  assert (Hlen : len (raws ++ [raw]) = len raws + 1) by (rewrite len_app; done).
  unfold hear. rewrite E. cbn [fst snd]. set (o1 := o <| counters ::= _ |> <| counters ::= _ |>).
  assert (Ec : counters o1 = counters o <| messages_in ::= incr |> <| decode_errors ::= incr |>) by (unfold o1; by rewrite !counters_update).
  assert (Er : meta_run o1 = meta_run o) by done. rewrite refused_counters in Ec. clearbody o1.
  split; rewrite ?Ec, ?Er, ?Em, ?Hlen; cbn [messages_in decode_errors monitor_gaps source_restarts status_in snapshots_in events_in slow_in unknown_kind]; unfold incr; try done; lia.
Qed.

Lemma heard_account raws : Account raws (heard raws).1 (heard raws).2.
Proof.
  induction raws as [| raw raws IH] using rev_ind; [by split |].
  unfold heard in *. rewrite fold_left_app. cbn [fold_left]. destruct (fold_left _ raws _) as [o ts]. cbn [fst snd] in IH.
  destruct (decode raw) as [m | err] eqn:E; [by eapply account_ok | by eapply account_err].
Qed.
End Accounts.

(** ** The number of clients *)

Definition counted (h : Hub) : Prop := clients_now (counters h) = Z.of_nat (size (clients h)).
Definition recounts (h h' : Hub) : Prop := counted h -> counted h'.

Lemma step_recounts h h' : client_step h h' -> recounts h h'.
Proof. by intros (_ & H & _). Qed.

Lemma recounts_change f : (forall h, clients (f h) = clients h /\ clients_now (counters (f h)) = clients_now (counters h)) -> abides recounts (change f).
Proof. intros H. apply abides_atomically. intros e h Hh. destruct (H h) as [H1 H2]. unfold counted in *. cbn [snd]. by rewrite H1, H2. Qed.

Lemma recounts_load {A : Type} (f : Hub -> A) : abides recounts (load f).
Proof. apply abides_atomically; by intros ? ? ?. Qed.

Lemma recounts_remove id : abides recounts (remove_client id).
Proof. eapply abides_mono; [apply step_recounts | apply abides_remove]. Qed.

Lemma recounts_drop slow : abides recounts (drop_clients slow).
Proof.
  induction slow as [| id slow IH]; cbn [drop_clients]; [done |]. apply abides_bind; [by apply recounts_change | intros _].
  apply abides_bind; [apply recounts_remove | done].
Qed.

Lemma recounts_broadcast text status_only : abides recounts (broadcast_json text status_only).
Proof.
  apply abides_bind; [| intros slow; apply recounts_drop]. apply abides_atomically. intros e h Hh. unfold counted in *.
  cbn [snd]. change (clients_now (counters h) = Z.of_nat (size (map_imap (fun id c => Some (try_send e text status_only id c)) (clients h)))).
  rewrite Hh. f_equal. rewrite <- !(size_dom (D := gset Z)). f_equal. apply set_eq. intros id. rewrite !elem_of_dom, map_lookup_imap.
  destruct (clients h !! id); cbn; by split.
Qed.

Lemma recounts_option text status_only : abides recounts (broadcast_option text status_only).
Proof. destruct text; [apply recounts_broadcast | done]. Qed.

Ltac recount :=
  repeat lazymatch goal with
  | |- abides _ (bind _ _) => apply abides_bind; [| intros ?]
  | |- abides _ (load _) => apply recounts_load
  | |- abides _ (change _) => by apply recounts_change
  | |- abides _ (Hub.count _) => by apply recounts_change
  | |- abides _ (broadcast_option _ _) => apply recounts_option
  | |- abides _ (publish_live _ _) => apply abides_atomically; by intros ? ? ?
  | |- abides _ (if ?b then _ else _) => destruct b
  | |- abides _ (Ret _) => done
  | |- abides _ Die => done
  end.

Section Counted.
Context (to_string : Value -> option string) (slow_value : SlowPayload -> option Value)
  (decode : bytes -> result MonitorMessage WireError) (nan32 : bytes -> Z)
  (track_of : option (BuiltEventPayload -> list (list Z) -> Z * option bytes)).

Lemma recounts_status s : abides recounts (on_status to_string slow_value s).
Proof. unfold on_status, stats, meta_json. recount. apply abides_atomically; by intros ? ? ?. Qed.

Lemma recounts_handle raw i : abides recounts (handle to_string slow_value decode nan32 track_of raw i).
Proof.
  unfold handle. recount. destruct (decode raw) as [m |]; [| recount]. recount.
  - unfold track_gaps. destruct (observe _ _). recount.
  - destruct (content m) as [s | s | e | s | kind]; cbn [handle_payload]; recount.
    + apply recounts_status.
    + destruct (histos _ _ _ _). recount.
    + unfold handle_event. recount; [apply abides_atomically; by intros ? ? ? |]. destruct (uvw _ _) as [[frames d] | |]; recount.
      destruct (push_track _ _ _ _). unfold waveforms_wanted. recount. destruct (waveforms _ _). recount.
    + by apply recounts_change.
Qed.

Lemma recounts_sub raws : forall i, abides recounts (run_sub to_string slow_value decode nan32 track_of raws i).
Proof. induction raws as [| raw raws IH]; intros i; cbn [run_sub]; [done |]. apply abides_bind; [apply recounts_handle | intros i'; apply IH]. Qed.
End Counted.

(** ** Theorems *)

Section Theorems.
Context (from_str : string -> option Value) (display : Value -> string) (to_string : Value -> option string) (slow_value : SlowPayload -> option Value)
  (decode : bytes -> result MonitorMessage WireError) (nan32 : bytes -> Z)
  (track_of : option (BuiltEventPayload -> list (list Z) -> Z * option bytes)).

(** The tasks beside the subscriber: clients, and requests for the last event. *)
Definition hub_task (q : Task unit) : Prop :=
  (exists texts, q = serve_client from_str display to_string texts) \/ q = (let& _ := get_last_event in Ret tt).

(** The subscriber with its messages, and the hub as it is at the start. *)
Definition subscriber (raws : list bytes) (d : DisplayConverter) : Task Ingest :=
  run_sub to_string slow_value decode nan32 track_of raws (new_ingest d).

Lemma hub_task_abides q : (forall v, is_Some (to_string v)) -> hub_task q -> abides client_step q.
Proof.
  intros Hto [[texts ->] | ->]; [by apply abides_serve |]. apply abides_bind; [apply abides_last_event | by intros _].
Qed.

(** What is known when the subscriber has taken all its messages. *)
Lemma subscriber_done (Hto : forall v, is_Some (to_string v)) m strips raws d i pool h :
  match strips with Some v => is_meta v = false | None => True end ->
  beside hub_task (subscriber raws d) (new_hub m strips) (Ret i) pool h ->
  with_trackers (heard decode m strips raws).2 (heard decode m strips raws).1 i h.
Proof.
  intros Hs H. assert (Ho : plain_strips (sub_part (new_hub m strips))) by done.
  assert (Hc : coherent (sub_part (new_hub m strips))) by done.
  destruct (beside_outlines hub_task client_step (Settled (sub_part (new_hub m strips))) (subscriber raws d) (new_hub m strips)
    (with_trackers (heard decode m strips raws).2 (heard decode m strips raws).1)) with (5 := H) as (P' & _ & HP & Hret & _).
  - by apply settled_unmoved.
  - by split.
  - by apply (run_sub_spec to_string Hto slow_value decode nan32 track_of raws (new_ingest d)).
  - intros q. by apply hub_task_abides.
  - by apply Hret.
Qed.

(** C30: Whatever clients come, subscribe, leave or are dropped because their queue is
    full, and however their tasks and the subscriber's interleave: at every moment the
    number shown is the number of clients; and whenever the subscriber has dealt with the
    messages so far, the run of the hub is the run of the last state received, and every
    client still connected has it as the last message of the run - of its queue, if there
    is one, and of all it gets, if its task has come to its first messages. *)
Theorem clients_know_the_run (Hto : forall v, is_Some (to_string v)) (m : Meta) (strips : option Value)
    (Hstrips : match strips with Some v => is_meta v = false | None => True end) (raws : list bytes) (d : DisplayConverter) p pool h :
  beside hub_task (subscriber raws d) (new_hub m strips) p pool h ->
  clients_now (counters h) = Z.of_nat (size (clients h)) /\
  forall i, p = Ret i ->
    meta_run h = match last_status_of (messages decode raws) with Some s => status_run s | None => 0 end /\
    forall id c, clients h !! id = Some c ->
      (metas (queue c) = [] \/ last (metas (queue c)) = Some (current h)) /\
      forall l, first c = Some l -> last (metas (l ++ queue c)) = Some (current h).
Proof.
  intros H. split.
  - apply (beside_abides hub_task recounts counted (subscriber raws d) (new_hub m strips)) with (p := p) (pool := pool); [by intros c c' | done | apply recounts_sub | | exact H].
    intros q Hq. eapply abides_mono; [apply step_recounts | by apply hub_task_abides].
  - intros i ->. pose proof (heard_account decode m strips raws) as Ha. destruct (subscriber_done Hto m strips raws d i pool h Hstrips H) as [_ [Ho Ht]].
    split; [rewrite <- (acc_run _ _ _ _ Ha), <- Ho; done |]. intros id c Hc. rewrite current_part, Ho. exact (Ht id c Hc).
Qed.

(** C31: The subscriber's counters account for every message, whatever the clients do
    meanwhile: each is read or an error, and one of the five kinds; and what is counted as
    missing is, sender by sender and however the senders' messages are mixed, what lies
    between each of its numbers and the next when that is larger; a next one that is not
    larger is counted as a new beginning, from which the counting goes on.  For a sender
    whose numbers only grow that is its last number less its first, less the messages
    between that came, and no new beginning. *)
Theorem subscriber_accounts (Hto : forall v, is_Some (to_string v)) (m : Meta) (strips : option Value)
    (Hstrips : match strips with Some v => is_meta v = false | None => True end) (raws : list bytes) (d : DisplayConverter) i pool h
    (sources : list Z) (Hsources : NoDup sources) (Hall : forall x, x ∈ messages decode raws -> from_source x ∈ sources) :
  beside hub_task (subscriber raws d) (new_hub m strips) (Ret i) pool h ->
  messages_in (counters h) = len raws /\
  decode_errors (counters h) = len raws - len (messages decode raws) /\
  [status_in (counters h); snapshots_in (counters h); events_in (counters h); slow_in (counters h); unknown_kind (counters h)]
    = map (fun k => kinds k (messages decode raws)) [0; 1; 2; 3; 4]%nat /\
  monitor_gaps (counters h) = tally (map (fun s => missing (seqs_of s (messages decode raws))) sources) /\
  source_restarts (counters h) = tally (map (fun s => begun_again (seqs_of s (messages decode raws))) sources) /\
  forall s x l, seqs_of s (messages decode raws) = x :: l -> StronglySorted Z.lt (x :: l) ->
    missing (seqs_of s (messages decode raws)) = default x (last (x :: l)) - x + 1 - len (x :: l) /\
    begun_again (seqs_of s (messages decode raws)) = 0.
Proof.
  intros H. destruct (subscriber_done Hto m strips raws d i pool h Hstrips H) as [_ [Ho _]].
  destruct (heard_account decode m strips raws) as [H1 H2 H3 H4 H5 _ H7]. set (o := (heard decode m strips raws).1) in *.
  set (ms := messages decode raws) in *.
  assert (Ht : forall l, tracks (fold_left observed l ∅) l).
  { intros l. induction l as [| x l IH] using rev_ind; [done |]. rewrite fold_left_app. by apply tracks_snoc. }
  assert (Hsum : forall f, f new_tracker = 0 -> total f (fold_left observed ms ∅) = tally (map (fun s => f (tracker_of (seqs_of s ms))) sources)).
  { intros f Hf. apply total_sources; try done. }
  rewrite H7 in H3, H4. rewrite Hsum in H3, H4 by done. rewrite <- Ho in *.
  rewrite (tally_map_ext _ (fun s => missing (seqs_of s ms))) in H3 by (intros s _; by rewrite tracker_counts).
  rewrite (tally_map_ext _ (fun s => begun_again (seqs_of s ms))) in H4 by (intros s _; by rewrite tracker_counts).
  split; [exact H1 |]. split; [exact H2 |]. split; [exact H5 |]. split; [exact H3 |]. split; [exact H4 |].
  intros s x l E Hl. rewrite E. pose proof (tracker_counts (x :: l)) as Hc. rewrite (tracker_increasing decode l x Hl) in Hc. by injection Hc as Hm Hb.
Qed.
End Theorems.

(** ** A demand that is forgotten *)

Module Sample.

Definition text_of (v : Value) : option string := Some "text"%string.
Definition read_text (text : string) : option Value :=
  if bool_decide (text = "waves"%string) then Some (Jobject [("streams"%string, Jarray [Jstr "waveforms"])]) else None.
Definition no_display (v : Value) : string := EmptyString.
Definition a_meta : Meta := mkMeta 512 [1; 9; 0] "mini.dat" None "mini" [0] 0.
Definition found : Found := mkFound 0 "now" (fun _ => false).

Definition client (texts : list string) : Task unit := serve_client read_text no_display text_of texts.
Definition others (n : nat) (i : nat) : list (Turn_ Found Hub LiveFrame unit) := repeat (Other i found) n.

(** The number of clients that want waveforms is counted under the lock and stored after
    it: a count of before a subscription is stored after the count that has it. *)
Definition race : list (Turn_ Found Hub LiveFrame unit) :=
  [Comes (client ["waves"%string]); Comes (client [])] ++ others 6 0 ++ others 4 1 ++ others 3 0 ++ others 1 1.

(** No waveforms are made any more although a client has asked for them - until some
    client comes, leaves or subscribes. *)
Lemma demand_race :
  match play_beside race (Ret tt : Task unit) [] (new_hub a_meta None) with
  | (_, _, h) => waveform_demand h = 0 /\ waveform_clients (clients h) = 1
  end.
Proof. vm_compute. split; reflexivity. Qed.

(** *** Witnesses *)

Definition state_of (run : Z) : MonitorPayload := Status (mkStatus "status" run "Running" 0 0 0 0 [] 0 [] 0).
Definition decoded (raw : bytes) : result MonitorMessage WireError :=
  match raw with
  | [source; n; run] => Ok (mkMonitorMessage source run n 0 (state_of run))
  | _ => Err (Envelope (len raw))
  end.
Definition no_geometry : Geometry := mkGeometry no_header [0; 0; 0] [] [] [] [] [] [] 0.
(** The sender 101 begins again with 0. *)
Definition raws : list bytes := [[101; 5; 7]; [200; 1; 7]; []; [101; 8; 8]; [101; 0; 8]; [101; 2; 8]].
Definition thread : Task Ingest := subscriber text_of (fun _ => None) decoded (fun _ => 0) None raws (new_converter no_geometry).

(** A client comes when the first state is on its way, and another later. *)
Definition turns : list (Turn_ Found Hub LiveFrame unit) :=
  repeat (Thread_ found) 4 ++ [Comes (client [])] ++ others 6 0 ++ repeat (Thread_ found) 30 ++ [Comes (client [])] ++ others 3 1 ++ repeat (Thread_ found) 60.

Definition outcome : Task Ingest * list (Task unit) * Hub := play_beside turns thread [] (new_hub a_meta None).
Definition finished : bool := match outcome.1.1 with Ret _ => true | _ => false end.

Lemma outcome_reached :
  beside (hub_task read_text no_display text_of) thread (new_hub a_meta None) outcome.1.1 outcome.1.2 outcome.2.
Proof.
  pose proof (play_beside_reaches (hub_task read_text no_display text_of) thread (new_hub a_meta None) turns thread [] (new_hub a_meta None)) as H.
  unfold outcome. destruct (play_beside turns thread [] (new_hub a_meta None)) as [[p pool] h]. apply H; [| apply beside_start].
  intros q Hq. left. exists []. unfold turns, others in Hq. rewrite !elem_of_app, !elem_of_cons in Hq.
  repeat match goal with
  | H : _ \/ _ |- _ => destruct H
  | H : _ ∈ repeat _ _ |- _ => apply list_elem_of_In, repeat_spec in H; discriminate
  | H : _ ∈ [] |- _ => by apply not_elem_of_nil in H
  | H : Comes q = Comes _ |- _ => injection H as ->; reflexivity
  end.
Qed.

Lemma is_finished : finished = true.
Proof. vm_compute. reflexivity. Qed.

Lemma text_of_ok v : is_Some (text_of v).
Proof. by eexists. Qed.

Lemma clients_know_the_run_witness :
  meta_run outcome.2 = 8 /\ clients_now (counters outcome.2) = 2 /\
  exists c, clients outcome.2 !! 0 = Some c /\ metas (queue c) <> [] /\ last (metas (queue c)) = Some (current outcome.2).
Proof.
  pose proof outcome_reached as H. pose proof is_finished as Hf. unfold finished in Hf. destruct (outcome.1.1) as [i | |] eqn:E; [| done | done].
  destruct (clients_know_the_run read_text no_display text_of (fun _ => None) decoded (fun _ => 0) None text_of_ok a_meta None I raws
    (new_converter no_geometry) (Ret i) _ _ H) as [Hn Hrun]. destruct (Hrun i eq_refl) as [Hr Hc].
  split; [rewrite Hr; vm_compute; reflexivity |]. split; [rewrite Hn; vm_compute; reflexivity |].
  destruct (clients outcome.2 !! 0) as [c |] eqn:Ec; [| vm_compute in Ec; discriminate]. exists c. split; [reflexivity |].
  assert (Hq : match clients outcome.2 !! 0 with Some c => negb (Nat.eqb (length (metas (queue c))) 0) | None => false end = true) by (vm_compute; reflexivity).
  rewrite Ec in Hq. assert (Hne : metas (queue c) <> []) by (intros E0; rewrite E0 in Hq; discriminate). split; [exact Hne |].
  destruct (Hc 0 c Ec) as [[E0 | E0] _]; [contradiction | exact E0].
Defined.

Lemma subscriber_accounts_witness :
  messages_in (counters outcome.2) = 6 /\ decode_errors (counters outcome.2) = 1 /\ monitor_gaps (counters outcome.2) = 3 /\
  source_restarts (counters outcome.2) = 1.
Proof.
  pose proof outcome_reached as H. pose proof is_finished as Hf. unfold finished in Hf. destruct (outcome.1.1) as [i | |] eqn:E; [| done | done].
  assert (Hnd : NoDup [101; 200]) by (apply (bool_decide_eq_true_1 _); reflexivity).
  assert (Hall : forall x, x ∈ messages decoded raws -> from_source x ∈ [101; 200]).
  { intros x Hx. assert (Hm : from_source x ∈ map from_source (messages decoded raws)) by (apply list_elem_of_In, in_map, list_elem_of_In, Hx).
    assert (E' : map from_source (messages decoded raws) = [101; 200; 101; 101; 101]) by (vm_compute; reflexivity).
    rewrite E', !elem_of_cons in Hm. rewrite !elem_of_cons. tauto. }
  destruct (subscriber_accounts read_text no_display text_of (fun _ => None) decoded (fun _ => 0) None text_of_ok a_meta None I raws
    (new_converter no_geometry) i _ _ [101; 200] Hnd Hall H) as (H1 & H2 & _ & H4 & H5 & _).
  rewrite H1, H2, H4, H5. split; [vm_compute; reflexivity |]. split; [vm_compute; reflexivity |]. split; vm_compute; reflexivity.
Defined.
End Sample.
