(* ===== verification/RunsYaml.v ===== *)
(** * RunsYaml: the list of runs made of the logbook

    Models [src/runs_yaml.rs] and the command line of [src/bin/logbook2runs.rs]: the
    lines of the logbook, taken in the order of the file, become one entry per run -
    started, commented on, stopped - with the conditions of a file of defaults, and the
    entries are written as YAML of one fixed shape.  TOML and JSON are read by libraries
    and are arguments, and so is how Rust prints an [f64].  A path is a string; its
    components are as [std::path] has them.  A [BTreeMap] is its list of entries in
    order.  The frames of a run are summed without a bound. *)

From Stdlib Require Import Ascii SpecFloat.
From stdpp Require Import gmap list strings sorting.
From S2P Require Import Prelude Bytes Decimal Text Float Command Controller Logbook Display.
Open Scope list_scope.
Open Scope Z_scope.

(** ** The defaults *)

Record SourceToml : Type := mkSource {
  primary : option string;
  background : option string;
}.

Record RunOverride : Type := mkOverride {
  pressure_mbar : option f64;
  drift_hv_v : option f64;
  source : option SourceToml;
}.

Record Defaults : Type := mkDefaults {
  gas : option string;
  temperature_k : option f64;
  sampling_rate_mhz : option f64;
  default_geometry : option string;
  hypothesis : option string;
  runs_of : gmap Z RunOverride;
}.
Definition no_defaults : Defaults := mkDefaults None None None None None ∅.

(** What the TOML reader gives: a source is a text or a table. *)
Inductive RawSource : Type :=
| Flat (s : string)
| Both (primary background : option string).

Definition from_raw_source (raw : RawSource) : SourceToml :=
  match raw with
  | Flat s => mkSource (Some s) None
  | Both p b => mkSource p b
  end.

Record RawRunOverride : Type := mkRawOverride {
  raw_pressure : option f64;
  raw_drift_hv : option f64;
  raw_source : option RawSource;
}.

Record RawDefaultsFile : Type := mkRawDefaults {
  raw_gas : option string;
  raw_temperature : option f64;
  raw_sampling : option f64;
  raw_geometry : option string;
  raw_hypothesis : option string;
  raw_runs : list (string * RawRunOverride);
}.

Inductive DefaultsError : Type :=
| TomlParse (e : string)
| InvalidRunKey (key : string).

Fixpoint read_run_keys (raw : list (string * RawRunOverride)) (runs : gmap Z RunOverride) : result (gmap Z RunOverride) DefaultsError :=
  match raw with
  | [] => Ok runs
  | (key, value) :: raw =>
      match parse_uint 32 key with
      | None => Err (InvalidRunKey key)
      | Some run => read_run_keys raw (<[run := mkOverride (raw_pressure value) (raw_drift_hv value) (option_map from_raw_source (raw_source value))]> runs)
      end
  end.

Definition parse_defaults_toml (from_str : string -> result RawDefaultsFile string) (s : string) : result Defaults DefaultsError :=
  match from_str s with
  | Err e => Err (TomlParse e)
  | Ok raw =>
      match read_run_keys (raw_runs raw) ∅ with
      | Err e => Err e
      | Ok runs => Ok (mkDefaults (raw_gas raw) (raw_temperature raw) (raw_sampling raw) (raw_geometry raw) (raw_hypothesis raw) runs)
      end
  end.

(** ** The lines of the logbook *)

Definition CorruptAt : Type := (Z * string)%type.

Fixpoint parse_lines_from `{LineJson} (n : Z) (raws : list string) : list LogbookLine * list CorruptAt :=
  match raws with
  | [] => ([], [])
  | raw :: raws =>
      let '(ls, corrupt) := parse_lines_from (n + 1) raws in
      if bool_decide (trim raw = EmptyString) then (ls, corrupt)
      else match parse_line (text_bytes raw) with
           | Ok l => (l :: ls, corrupt)
           | Err e => (ls, (n, e) :: corrupt)
           end
  end.
Definition parse_logbook_lines `{LineJson} (content : string) : list LogbookLine * list CorruptAt := parse_lines_from 1 (str_lines content).

(** ** Paths *)

(** The components after the root: empty ones and dots are passed over, but for a dot at
    the beginning. *)
Definition path_parts (path : string) : list string :=
  match split_on "/"%char path with
  | "."%string :: ps => "."%string :: List.filter (fun p => negb (bool_decide (p ∈ [EmptyString; "."%string]))) ps
  | ps => List.filter (fun p => negb (bool_decide (p ∈ [EmptyString; "."%string]))) ps
  end.
Definition name_of (parts : list string) : option string :=
  match list.last parts with
  | Some p => if bool_decide (p ∈ ["."; ".."]%string) then None else Some p
  | None => None
  end.
Definition file_name (path : string) : option string := name_of (path_parts path).
Definition parent_name (path : string) : option string := name_of (removelast (path_parts path)).

Definition basename (path : string) : string := default path (file_name path).

Definition asad_graw_ts (path : string) : option string :=
  name ← file_name path;
  stem ← strip_suffix ".graw" name;
  match split_on "_"%char stem with
  | [cobo; asad; ts; _] => if starts_with "CoBo" cobo && starts_with "AsAd" asad then Some ts else None
  | _ => None
  end.

Definition asad_graw_ts_and_run_dir_name (path : string) : option (string * option string) :=
  ts ← asad_graw_ts path; Some (ts, parent_name path).

(** A slice begins and ends between two characters, or it panics. *)
Definition char_boundary (ts : string) (i : nat) : bool :=
  match String.get i ts with
  | Some c => negb ((128 <=? Z.of_nat (nat_of_ascii c)) && (Z.of_nat (nat_of_ascii c) <? 192))
  | None => true
  end.

Definition ts_without_offset (ts : string) : rust string :=
  if (String.length ts =? 29)%nat && bool_decide (String.get 19 ts = Some "."%char)
  then if char_boundary ts 23 then Val (String.substring 0 23 ts) else Panic
  else Val ts.

(** ** A run *)

Record RunEntry : Type := mkEntry {
  run_id : string;
  files : string;
  format : string;
  n_events : Z;
  geometry_ : string;
  entry_hypothesis : option string;
  entry_gas : option string;
  entry_pressure : option f64;
  entry_temperature : option f64;
  entry_drift_hv : option f64;
  drift_velocity : option f64;
  entry_sampling : option f64;
  source_primary : option string;
  source_background : option string;
  notes : string;
}.

(** [x.round()]: halves away from zero. *)
Definition f64_round (x : f64) : f64 :=
  match x with
  | S754_finite s m e =>
      match round_magnitude (Zpos m) e with
      | Zpos n => binary_normalize PREC EMAX (if s then Zneg n else Zpos n) 0 s
      | _ => S754_zero s
      end
  | _ => x
  end.

Definition DRIFT_VELOCITY_COEFF : f64 := f64_of_decimal false 7233 (-4).
Definition DRIFT_CAGE_LENGTH_CM : f64 := f64_of_Z 20.

Definition compute_drift_velocity_cm_us (gas : option string) (pressure hv : option f64) : option f64 :=
  if negb (bool_decide (gas = Some "CO2"%string)) then None
  else match pressure, hv with
       | Some pressure, Some hv =>
           let e_field := f64_div hv DRIFT_CAGE_LENGTH_CM in
           let raw := f64_div (f64_mul DRIFT_VELOCITY_COEFF e_field) pressure in
           Some (f64_div (f64_round (f64_mul raw (f64_of_Z 10000))) (f64_of_Z 10000))
       | _, _ => None
       end.

Record RunStopSnapshot : Type := mkStop {
  stop_reason : string;
  stop_events : Z;
  ts_from_files : option string;
  run_dir_name : option string;
}.

Record RunAcc : Type := mkRunAcc {
  acc_geometry_path : string;
  start_comment : string;
  start_ts : string;
  comments : list string;
  stop : option RunStopSnapshot;
}.

(** [s.replace(['\n', '\r'], " ")]. *)
Fixpoint normalize (s : string) : string :=
  match s with
  | EmptyString => EmptyString
  | String c s => String (if (c =? "010")%char || (c =? "013")%char then " "%char else c) (normalize s)
  end.

Definition notes_of (acc : RunAcc) : string :=
  String.concat "; "
    ((if bool_decide (start_comment acc = EmptyString) then [] else [normalize (start_comment acc)]) ++
     map normalize (comments acc) ++
     match stop acc with
     | Some s => if bool_decide (stop_reason s = "normal"%string) then [] else ["stop reason: " +:+ stop_reason s]
     | None => ["no run_stop"%string]
     end).

Definition build_entry (run : Z) (acc : RunAcc) (d : Defaults) (data_root : string) : rust RunEntry :=
  let! ts := match stop acc with
             | Some s => match ts_from_files s with Some ts => Val ts | None => ts_without_offset (start_ts acc) end
             | None => ts_without_offset (start_ts acc)
             end in
  let n_events := match stop acc with Some s => stop_events s | None => 0 end in
  let dir := match stop acc with Some s => run_dir_name s | None => None end in
  let files := match dir with
               | Some dir => data_root +:+ "/" +:+ dir +:+ "/CoBo*_AsAd*_*.graw"
               | None => data_root +:+ "/CoBo*_" +:+ ts +:+ "_*.graw"
               end in
  let over := runs_of d !! run in
  let pressure := o ← over; pressure_mbar o in
  let hv := o ← over; drift_hv_v o in
  let src := o ← over; source o in
  Val (mkEntry ts files "graw" n_events (basename (acc_geometry_path acc)) (hypothesis d) (gas d) pressure (temperature_k d) hv
    (compute_drift_velocity_cm_us (gas d) pressure hv) (sampling_rate_mhz d) (s ← src; primary s) (s ← src; background s) (notes_of acc)).

(** ** From the lines to the runs: [build_runs_doc] *)

(** The map of runs, in order. *)
Fixpoint acc_get (run : Z) (accs : list (Z * RunAcc)) : option RunAcc :=
  match accs with
  | [] => None
  | (k, a) :: accs => if k =? run then Some a else acc_get run accs
  end.
Fixpoint acc_insert (run : Z) (a : RunAcc) (accs : list (Z * RunAcc)) : list (Z * RunAcc) :=
  match accs with
  | [] => [(run, a)]
  | (k, a') :: accs => if k =? run then (run, a) :: accs else if run <? k then (run, a) :: (k, a') :: accs else (k, a') :: acc_insert run a accs
  end.

Record Building : Type := mkBuilding {
  accs : list (Z * RunAcc);
  current_run : option Z;
  warnings : list string;
}.

(** The two files a run start and a stop are taken from, and the sum of the frames. *)
Definition events_of (c : Counters) : Z :=
  match events_built c with
  | Some n => n
  | None => map_fold (fun _ n total => n + total) 0 (counted_frames c)
  end.
Fixpoint find_graw (fs : list OutputFile) : option (string * option string) :=
  match fs with
  | [] => None
  | f :: fs => match asad_graw_ts_and_run_dir_name (file_path f) with Some x => Some x | None => find_graw fs end
  end.
Definition snapshot (reason : string) (c : Counters) (fs : list OutputFile) : RunStopSnapshot :=
  match find_graw fs with
  | Some (ts, dir) => mkStop reason (events_of c) (Some ts) dir
  | None => mkStop reason (events_of c) None None
  end.

Definition restarted (prev run : Z) : string :=
  "run " +:+ dec prev +:+ ": run_start for run " +:+ dec run +:+ " arrived before run " +:+ dec prev +:+ " got a run_stop (treated as incomplete)".
Definition no_graw (run : Z) : string :=
  "run " +:+ dec run +:+ ": no CoBo*_AsAd*_<ts>_*.graw entry in run_stop.files; falling back to run_start timestamp for run_id/files".
Definition no_start (run : Z) : string := "run " +:+ dec run +:+ ": run_stop with no matching run_start (skipped)".

Definition is_open (run : Z) (accs : list (Z * RunAcc)) : bool :=
  match acc_get run accs with
  | Some a => match stop a with None => true | Some _ => false end
  | None => false
  end.

Definition take_record (l : LogbookLine) (b : Building) : Building :=
  match record l with
  | RunStart _ run _ _ g _ _ comment _ _ _ =>
      let warned := match current_run b with
                    | Some prev => if negb (prev =? run) && is_open prev (accs b) then [restarted prev run] else []
                    | None => []
                    end in
      mkBuilding (acc_insert run (mkRunAcc (geometry_path g) comment (ts l) [] None) (accs b)) (Some run) (warnings b ++ warned)
  | RunStop _ run _ _ reason _ _ c fs _ =>
      let current := if bool_decide (current_run b = Some run) then None else current_run b in
      match acc_get run (accs b) with
      | Some a =>
          let s := snapshot reason c fs in
          mkBuilding (acc_insert run (mkRunAcc (acc_geometry_path a) (start_comment a) (start_ts a) (comments a) (Some s)) (accs b)) current
            (warnings b ++ match ts_from_files s with None => [no_graw run] | Some _ => [] end)
      | None => mkBuilding (accs b) current (warnings b ++ [no_start run])
      end
  | Comment _ _ text =>
      match current_run b with
      | None => b
      | Some run =>
          match acc_get run (accs b) with
          | Some a => mkBuilding (acc_insert run (mkRunAcc (acc_geometry_path a) (start_comment a) (start_ts a) (comments a ++ [text]) (stop a)) (accs b)) (current_run b) (warnings b)
          | None => b
          end
      end
  | Audit _ _ _ _ _ _ | Slow _ _ _ _ _ => b
  end.

Definition take_all (ls : list LogbookLine) (b : Building) : Building := fold_left (fun b l => take_record l b) ls b.

Fixpoint build_entries (accs : list (Z * RunAcc)) (d : Defaults) (data_root : string) : rust (list RunEntry) :=
  match accs with
  | [] => Val []
  | (run, a) :: accs =>
      let! e := build_entry run a d data_root in
      let! es := build_entries accs d data_root in
      Val (e :: es)
  end.

Definition build_runs_doc (ls : list LogbookLine) (d : Defaults) (data_root : string) : rust (list RunEntry * list string) :=
  let b := take_all ls (mkBuilding [] None []) in
  let! runs := build_entries (accs b) d data_root in
  Val (runs, warnings b).

(** ** The text: [render] *)

Definition newline : string := String "010"%char EmptyString.
Definition quote : string := String "034"%char EmptyString.

Definition hex_digit (n : Z) : ascii := ascii_of_nat (Z.to_nat (if n <? 10 then 48 + n else 87 + n)).

Definition yaml_char (c : ascii) : string :=
  let n := Z.of_nat (nat_of_ascii c) in
  if n =? 34 then String "\"%char quote
  else if n =? 92 then "\\"
  else if n =? 10 then "\n"
  else if n =? 9 then "\t"
  else if n =? 13 then "\r"
  else if n <? 32 then "\u00" +:+ String (hex_digit (n / 16)) (String (hex_digit (n mod 16)) EmptyString)
  else String c EmptyString.

Fixpoint yaml_body (s : string) : string :=
  match s with
  | EmptyString => EmptyString
  | String c s => yaml_char c +:+ yaml_body s
  end.
Definition yaml_str (s : string) : string := quote +:+ yaml_body s +:+ quote.
Definition yaml_opt_str (s : option string) : string := match s with Some v => yaml_str v | None => "null" end.

Section Printing.
(** How Rust prints a float: no exponent, and no point when there is no fraction. *)
Context (show : f64 -> string).

Definition format_f64 (v : f64) : string :=
  if is_finite v then if lacks "."%char (show v) then show v +:+ ".0" else show v else show v.

Definition yaml_opt_f64 (value : option f64) (unknown_comment : bool) : string :=
  match value with
  | Some v => format_f64 v
  | None => if unknown_comment then "null   # unknown" else "null"
  end.

Definition render_notes (notes : string) : string :=
  if bool_decide (notes = EmptyString) then "    notes: " +:+ quote +:+ quote +:+ newline
  else "    notes: >" +:+ newline +:+ "      " +:+ notes +:+ newline.

Definition render_run (r : RunEntry) : string :=
  "  - run_id: " +:+ yaml_str (run_id r) +:+ newline +:+
  "    files: " +:+ yaml_str (files r) +:+ newline +:+
  "    format: " +:+ yaml_str (format r) +:+ newline +:+
  "    n_events: " +:+ dec (n_events r) +:+ newline +:+
  "    geometry: " +:+ yaml_str (geometry_ r) +:+ newline +:+
  "    reco:" +:+ newline +:+
  "      hypothesis: " +:+ yaml_opt_str (entry_hypothesis r) +:+ newline +:+
  "    conditions:" +:+ newline +:+
  "      gas: " +:+ yaml_opt_str (entry_gas r) +:+ newline +:+
  "      pressure_mbar: " +:+ yaml_opt_f64 (entry_pressure r) false +:+ newline +:+
  "      temperature_K: " +:+ yaml_opt_f64 (entry_temperature r) false +:+ newline +:+
  "      drift_hv_V: " +:+ yaml_opt_f64 (entry_drift_hv r) false +:+ newline +:+
  "      drift_velocity_cm_us: " +:+ yaml_opt_f64 (drift_velocity r) true +:+ newline +:+
  "      sampling_rate_MHz: " +:+ yaml_opt_f64 (entry_sampling r) false +:+ newline +:+
  "    source:" +:+ newline +:+
  "      primary: " +:+ yaml_opt_str (source_primary r) +:+ newline +:+
  "      background: " +:+ yaml_opt_str (source_background r) +:+ newline +:+
  render_notes (notes r).

Fixpoint render_runs (rs : list RunEntry) : string :=
  match rs with
  | [] => EmptyString
  | r :: rs => render_run r +:+ render_runs rs
  end.

Definition render (rs : list RunEntry) : string :=
  match rs with
  | [] => "runs: []" +:+ newline
  | _ => "runs:" +:+ newline +:+ render_runs rs
  end.
End Printing.

(** ** The command line *)

Record Args : Type := mkArgs {
  logbook : string;
  arg_defaults : option string;
  out : option string;
  arg_data_root : option string;
}.

Inductive ArgsError : Type :=
| RequiresValue (option : string)
| UnknownOption (option : string)
| OnePositional (got : nat).

Fixpoint parse_from (raw positional : list string) (defaults out data_root : option string) : result Args ArgsError :=
  match raw with
  | [] =>
      match positional with
      | [logbook] => Ok (mkArgs logbook defaults out data_root)
      | _ => Err (OnePositional (length positional))
      end
  | arg :: raw =>
      if bool_decide (arg = "--defaults"%string) then
        match raw with [] => Err (RequiresValue arg) | value :: raw => parse_from raw positional (Some value) out data_root end
      else if bool_decide (arg = "--out"%string) then
        match raw with [] => Err (RequiresValue arg) | value :: raw => parse_from raw positional defaults (Some value) data_root end
      else if bool_decide (arg = "--data-root"%string) then
        match raw with [] => Err (RequiresValue arg) | value :: raw => parse_from raw positional defaults out (Some value) end
      else if starts_with "--" arg then Err (UnknownOption arg)
      else parse_from raw (positional ++ [arg]) defaults out data_root
  end.
Definition parse_args (raw : list string) : result Args ArgsError := parse_from raw [] None None None.

(** ** A reader of the text, as YAML has it *)

Inductive Scalar : Type :=
| Null
| Quoted (s : string)
| Plain (s : string).

Definition hex_value (c : ascii) : Z :=
  let n := Z.of_nat (nat_of_ascii c) in if n <? 58 then n - 48 else n - 87.

(** The rest of a double-quoted text. *)
Fixpoint read_body (s : string) : option (string * string) :=
  let push c r := match r with Some (t, rest) => Some (String c t, rest) | None => None end in
  match s with
  | EmptyString => None
  | String c s =>
      if (c =? "034")%char then Some (EmptyString, s)
      else if (c =? "\")%char then
        match s with
        | String "u" (String _ (String _ (String a (String b s)))) => push (ascii_of_nat (Z.to_nat (hex_value a * 16 + hex_value b))) (read_body s)
        | String "n" s => push "010"%char (read_body s)
        | String "t" s => push "009"%char (read_body s)
        | String "r" s => push "013"%char (read_body s)
        | String e s => push e (read_body s)
        | EmptyString => None
        end
      else push c (read_body s)
  end.

Fixpoint first_word (s : string) : string :=
  match s with
  | EmptyString => EmptyString
  | String c s => if (c =? " ")%char then EmptyString else String c (first_word s)
  end.

Fixpoint skip_blanks (s : string) : string :=
  match s with
  | EmptyString => EmptyString
  | String c s' => if (c =? " ")%char then skip_blanks s' else s
  end.

(** A value and the end of its line; what follows a blank is a comment. *)
Definition read_scalar (s : string) : option (Scalar * string) :=
  match strip_prefix quote s with
  | Some s => '(t, s) ← read_body s; rest ← strip_prefix newline s; Some (Quoted t, rest)
  | None =>
      '(line, rest) ← split_once "010"%char s;
      Some (if bool_decide (first_word line = "null"%string) then Null else Plain (first_word line), rest)
  end.

Fixpoint read_fields (prefixes : list string) (s : string) : option (list Scalar * string) :=
  match prefixes with
  | [] => Some ([], s)
  | p :: prefixes =>
      s ← strip_prefix p s;
      '(v, s) ← read_scalar s;
      '(vs, s) ← read_fields prefixes s;
      Some (v :: vs, s)
  end.

(** A folded text of one line, without the line break it ends in: the blanks it begins
    with are its indentation. *)
Definition read_notes (s : string) : option (string * string) :=
  s ← strip_prefix "    notes: " s;
  match strip_prefix (quote +:+ quote +:+ newline) s with
  | Some rest => Some (EmptyString, rest)
  | None => s ← strip_prefix (">" +:+ newline) s; '(line, rest) ← split_once "010"%char s; Some (skip_blanks line, rest)
  end.

Definition FIELDS : list string :=
  ["  - run_id: "; "    files: "; "    format: "; "    n_events: "; "    geometry: ";
   "    reco:" +:+ newline +:+ "      hypothesis: "; "    conditions:" +:+ newline +:+ "      gas: ";
   "      pressure_mbar: "; "      temperature_K: "; "      drift_hv_V: "; "      drift_velocity_cm_us: "; "      sampling_rate_MHz: ";
   "    source:" +:+ newline +:+ "      primary: "; "      background: "]%string.

Definition ReadRun : Type := (list Scalar * string)%type.

Fixpoint read_runs (fuel : nat) (s : string) : option (list ReadRun) :=
  match s, fuel with
  | EmptyString, _ => Some []
  | _, O => None
  | _, S fuel =>
      '(vs, s) ← read_fields FIELDS s;
      '(n, s) ← read_notes s;
      rs ← read_runs fuel s;
      Some ((vs, n) :: rs)
  end.

Definition read_yaml (s : string) : option (list ReadRun) :=
  match strip_prefix ("runs: []" +:+ newline) s with
  | Some EmptyString => Some []
  | _ => s ← strip_prefix ("runs:" +:+ newline) s; read_runs (String.length s) s
  end.

(** ** What is written is read *)

Lemma read_char c rest t tail : read_body rest = Some (t, tail) -> read_body (yaml_char c +:+ rest) = Some (String c t, tail).
Proof.
  intros H. destruct c as [[] [] [] [] [] [] [] []];
    match goal with |- context [yaml_char ?c] => let y := eval vm_compute in (yaml_char c) in change (yaml_char c) with y end;
    rewrite ?append_cons, append_nil_l; unfold read_body; fold read_body; cbn -[read_body ascii_of_nat]; rewrite H; reflexivity.
Qed.

Lemma read_yaml_body s rest : read_body (yaml_body s +:+ quote +:+ rest) = Some (s, rest).
Proof. induction s as [| c s IH]; [done |]. cbn [yaml_body]. rewrite append_assoc. by apply read_char. Qed.

Lemma read_yaml_str s rest : read_scalar (yaml_str s +:+ newline +:+ rest) = Some (Quoted s, rest).
Proof.
  unfold read_scalar, yaml_str. rewrite append_assoc, strip_prefix_app. rewrite append_assoc, read_yaml_body. cbn [mbind option_bind].
  by rewrite strip_prefix_app.
Qed.

Lemma split_once_at c s rest : lacks c s = true -> split_once c (s +:+ String c rest) = Some (s, rest).
Proof.
  induction s as [| a s IH]; cbn [lacks]; intros H.
  - rewrite append_nil_l. cbn [split_once]. by rewrite Ascii.eqb_refl.
  - apply andb_prop in H as [Ha Hs]. apply negb_true_iff in Ha. rewrite append_cons. cbn [split_once]. by rewrite Ha, IH.
Qed.

(** A word of its own on the line. *)
Definition plain_text (t : string) : Prop := avoids ["010"; " "; "034"]%char t = true /\ t <> "null"%string.

Lemma first_word_all s : lacks " "%char s = true -> first_word s = s.
Proof.
  induction s as [| a s IH]; cbn [lacks first_word]; [done |]. intros [Ha Hs]%andb_prop. apply negb_true_iff in Ha. by rewrite Ha, IH.
Qed.

Lemma avoids_one c cs s : avoids cs s = true -> c ∈ cs -> lacks c s = true.
Proof. intros H Hc. apply avoids_lacks. apply (avoids_weaken cs); [| done]. intros x Hx. apply list_elem_of_singleton in Hx as ->. done. Qed.

Lemma no_quote t rest : lacks "034"%char t = true -> strip_prefix quote (t +:+ newline +:+ rest) = None.
Proof.
  destruct t as [| a t]; [done |]. cbn [lacks]. intros [Ha _]%andb_prop. apply negb_true_iff in Ha. rewrite append_cons.
  unfold quote. cbn [strip_prefix]. rewrite Ascii.eqb_sym in Ha. by rewrite Ha.
Qed.

Lemma read_plain t rest : avoids ["010"; " "; "034"]%char t = true ->
  read_scalar (t +:+ newline +:+ rest) = Some (if bool_decide (t = "null"%string) then Null else Plain t, rest).
Proof.
  intros H. unfold read_scalar. rewrite no_quote by (eapply avoids_one; [exact H | set_solver]).
  assert (E : split_once "010"%char (t +:+ newline +:+ rest) = Some (t, rest)).
  { change (newline +:+ rest) with (String "010"%char rest). apply split_once_at. eapply avoids_one; [exact H | set_solver]. }
  rewrite E. cbn [mbind option_bind]. by rewrite first_word_all by (eapply avoids_one; [exact H | set_solver]).
Qed.

Definition scalar_str (o : option string) : Scalar := match o with Some s => Quoted s | None => Null end.

Lemma read_opt_str o rest : read_scalar (yaml_opt_str o +:+ newline +:+ rest) = Some (scalar_str o, rest).
Proof. destruct o as [s |]; [apply read_yaml_str | by apply read_plain]. Qed.

Section ReadBack.
Context (show : f64 -> string) (show_plain : forall v, plain_text (show v)).

Definition scalar_f64 (o : option f64) : Scalar := match o with Some v => Plain (format_f64 show v) | None => Null end.

Lemma format_plain v : plain_text (format_f64 show v).
Proof.
  destruct (show_plain v) as [H1 H2]. unfold format_f64. destruct (is_finite v); [| done]. destruct (lacks _ _); [| done].
  split; [by rewrite avoids_app, H1 |]. intros E. pose proof (strip_suffix_app ".0" (show v)) as Hs. rewrite E in Hs. vm_compute in Hs. discriminate.
Qed.

Lemma read_opt_f64 o unknown rest : read_scalar (yaml_opt_f64 show o unknown +:+ newline +:+ rest) = Some (scalar_f64 o, rest).
Proof.
  destruct o as [v |]; cbn [yaml_opt_f64 scalar_f64].
  - destruct (format_plain v) as [H1 H2]. rewrite read_plain by done. by rewrite bool_decide_false.
  - destruct unknown; [| by apply read_plain]. unfold read_scalar. rewrite no_quote by done.
    assert (E : split_once "010"%char ("null   # unknown" +:+ newline +:+ rest) = Some ("null   # unknown"%string, rest)).
    { change (newline +:+ rest) with (String "010"%char rest). by apply split_once_at. }
    rewrite E. done.
Qed.

Lemma read_number n rest : read_scalar (dec n +:+ newline +:+ rest) = Some (Plain (dec n), rest).
Proof.
  pose proof (dec_digits n) as Hd. rewrite read_plain by (apply avoids_digits; [by repeat constructor | done]).
  rewrite bool_decide_false; [done |]. intros E. by rewrite E in Hd.
Qed.

Fixpoint write_fields (prefixes texts : list string) : string :=
  match prefixes, texts with
  | p :: ps, t :: ts => p +:+ t +:+ newline +:+ write_fields ps ts
  | _, _ => EmptyString
  end.

Lemma read_written_fields ts vs : Forall2 (fun t v => forall rest, read_scalar (t +:+ newline +:+ rest) = Some (v, rest)) ts vs ->
  forall ps rest, length ps = length ts -> read_fields ps (write_fields ps ts +:+ rest) = Some (vs, rest).
Proof.
  induction 1 as [| t v ts vs Ht _ IH]; intros ps rest Hl; destruct ps as [| p ps]; try done. cbn [write_fields read_fields].
  rewrite !append_assoc, strip_prefix_app. cbn [mbind option_bind]. rewrite Ht. cbn [mbind option_bind]. rewrite IH by (cbn in Hl; lia). done.
Qed.

Definition scalars_of (r : RunEntry) : list Scalar :=
  [Quoted (run_id r); Quoted (files r); Quoted (format r); Plain (dec (n_events r)); Quoted (geometry_ r);
   scalar_str (entry_hypothesis r); scalar_str (entry_gas r); scalar_f64 (entry_pressure r); scalar_f64 (entry_temperature r);
   scalar_f64 (entry_drift_hv r); scalar_f64 (drift_velocity r); scalar_f64 (entry_sampling r);
   scalar_str (source_primary r); scalar_str (source_background r)].

Definition good_notes (n : string) : Prop := lacks "010"%char n = true /\ skip_blanks n = n.

Lemma read_rendered_notes n rest : good_notes n -> read_notes (render_notes n +:+ rest) = Some (n, rest).
Proof.
  intros [H1 H2]. unfold render_notes, read_notes. case_bool_decide as E.
  - subst n. done.
  - rewrite !append_assoc. change ("    notes: >" +:+ newline +:+ "      " +:+ n +:+ newline +:+ rest)
      with ("    notes: " +:+ (">" +:+ newline) +:+ "      " +:+ n +:+ String "010"%char rest).
    rewrite strip_prefix_app. cbn [mbind option_bind].
    assert (Eq : strip_prefix (quote +:+ quote +:+ newline) ((">" +:+ newline) +:+ "      " +:+ n +:+ String "010"%char rest) = None) by done.
    rewrite Eq, strip_prefix_app. cbn [mbind option_bind].
    assert (Es : split_once "010"%char ("      " +:+ n +:+ String "010"%char rest) = Some ("      " +:+ n, rest)).
    { rewrite <- append_assoc. by apply split_once_at. }
    rewrite Es. cbn [mbind option_bind]. f_equal. f_equal. exact H2.
Qed.

Definition texts_of (r : RunEntry) : list string :=
  [yaml_str (run_id r); yaml_str (files r); yaml_str (format r); dec (n_events r); yaml_str (geometry_ r);
   yaml_opt_str (entry_hypothesis r); yaml_opt_str (entry_gas r); yaml_opt_f64 show (entry_pressure r) false;
   yaml_opt_f64 show (entry_temperature r) false; yaml_opt_f64 show (entry_drift_hv r) false; yaml_opt_f64 show (drift_velocity r) true;
   yaml_opt_f64 show (entry_sampling r) false; yaml_opt_str (source_primary r); yaml_opt_str (source_background r)].

Lemma render_run_fields r : render_run show r = write_fields FIELDS (texts_of r) +:+ render_notes (notes r).
Proof.
  unfold render_run, FIELDS, texts_of. cbn [write_fields]. repeat rewrite append_assoc. rewrite append_nil_l. reflexivity.
Qed.

Lemma read_rendered_run r rest :
  read_fields FIELDS (render_run show r +:+ rest) = Some (scalars_of r, render_notes (notes r) +:+ rest).
Proof.
  rewrite render_run_fields, append_assoc. apply read_written_fields; [| done]. unfold texts_of, scalars_of.
  repeat (constructor; [intros rest'; first [apply read_yaml_str | apply read_opt_str | apply read_opt_f64 | apply read_number] |]). constructor.
Qed.

Lemma render_run_nonempty r rest : exists c t, render_run show r +:+ rest = String c t.
Proof. unfold render_run. rewrite append_assoc. by eexists _, _. Qed.

Lemma length_app_string (a b : string) : String.length (a +:+ b) = (String.length a + String.length b)%nat.
Proof. induction a as [| c a IH]; [done |]. rewrite append_cons. cbn [String.length]. by rewrite IH. Qed.

Lemma read_rendered_runs rs : forall fuel, Forall (fun r => good_notes (notes r)) rs -> (length rs <= fuel)%nat ->
  read_runs fuel (render_runs show rs) = Some (map (fun r => (scalars_of r, notes r)) rs).
Proof.
  induction rs as [| r rs IH]; intros fuel Hg Hf; [by destruct fuel |]. apply List.Forall_cons_iff in Hg as [Hr Hrs].
  destruct fuel as [| fuel]; [cbn in Hf; lia |]. cbn [render_runs]. pose proof (read_rendered_run r (render_runs show rs)) as H1.
  pose proof (read_rendered_notes (notes r) (render_runs show rs) Hr) as H2. destruct (render_run_nonempty r (render_runs show rs)) as (c & t & E).
  rewrite E in *. cbn [read_runs]. rewrite H1. cbn [mbind option_bind]. rewrite H2. cbn [mbind option_bind].
  rewrite IH by (done || (cbn in Hf; lia)). done.
Qed.

Lemma runs_length rs : (length rs <= String.length (render_runs show rs))%nat.
Proof.
  induction rs as [| r rs IH]; [done |]. cbn [render_runs length]. rewrite length_app_string.
  destruct (render_run_nonempty r EmptyString) as (c & t & E). apply (f_equal String.length) in E. rewrite length_app_string in E. cbn in E. lia.
Qed.

Lemma read_render rs : Forall (fun r => good_notes (notes r)) rs -> read_yaml (render show rs) = Some (map (fun r => (scalars_of r, notes r)) rs).
Proof.
  intros Hg. destruct rs as [| r rs]; [done |]. unfold render, read_yaml.
  assert (E : strip_prefix ("runs: []" +:+ newline) ("runs:" +:+ newline +:+ render_runs show (r :: rs)) = None) by done.
  rewrite E. rewrite <- append_assoc, strip_prefix_app. cbn [mbind option_bind]. apply read_rendered_runs; [done | apply runs_length].
Qed.
End ReadBack.

(** ** A well-kept logbook *)

(** A run of the logbook: its start, what is noted meanwhile, its stop if it has one, and
    what is noted until the next start. *)
Record Episode : Type := mkEpisode {
  ep_start : LogbookLine;
  ep_run : Z;
  ep_geometry : Geometry;
  ep_comment : string;
  ep_between : list LogbookLine;
  ep_stop : option (LogbookLine * string * Counters * list OutputFile);
  ep_after : list LogbookLine;
}.

Definition quiet (l : LogbookLine) : Prop :=
  match record l with
  | RunStart _ _ _ _ _ _ _ _ _ _ _ | RunStop _ _ _ _ _ _ _ _ _ _ => False
  | _ => True
  end.

Definition starts_run (l : LogbookLine) (run : Z) (g : Geometry) (comment : string) : Prop :=
  match record l with
  | RunStart _ run' _ _ g' _ _ comment' _ _ _ => run' = run /\ g' = g /\ comment' = comment
  | _ => False
  end.
Definition stops_run (l : LogbookLine) (run : Z) (reason : string) (c : Counters) (fs : list OutputFile) : Prop :=
  match record l with
  | RunStop _ run' _ _ reason' _ _ c' fs' _ => run' = run /\ reason' = reason /\ c' = c /\ fs' = fs
  | _ => False
  end.

Definition episode_ok (e : Episode) : Prop :=
  starts_run (ep_start e) (ep_run e) (ep_geometry e) (ep_comment e) /\ Forall quiet (ep_between e) /\ Forall quiet (ep_after e) /\
  match ep_stop e with
  | Some (l, reason, c, fs) => stops_run l (ep_run e) reason c fs
  | None => ep_after e = []
  end.

Definition ep_lines (e : Episode) : list LogbookLine :=
  ep_start e :: ep_between e ++ match ep_stop e with Some (l, _, _, _) => [l] | None => [] end ++ ep_after e.

(** What is remembered of it, and the warnings. *)
Definition noted (ls : list LogbookLine) : list string := omap (fun l => match record l with Comment _ _ text => Some text | _ => None end) ls.
Definition stop_of (e : Episode) : option RunStopSnapshot :=
  match ep_stop e with
  | Some (_, reason, c, fs) => Some (snapshot reason c fs)
  | None => None
  end.
Definition acc_of (e : Episode) : RunAcc :=
  mkRunAcc (geometry_path (ep_geometry e)) (ep_comment e) (ts (ep_start e)) (noted (ep_between e)) (stop_of e).

Definition left_open (e : Episode) : option Z := match ep_stop e with Some _ => None | None => Some (ep_run e) end.
Fixpoint ep_warnings (open : option Z) (es : list Episode) : list string :=
  match es with
  | [] => []
  | e :: es =>
      match open with Some prev => [restarted prev (ep_run e)] | None => [] end ++
      match stop_of e with Some s => match ts_from_files s with None => [no_graw (ep_run e)] | Some _ => [] end | None => [] end ++
      ep_warnings (left_open e) es
  end.

Definition below (run : Z) (accs : list (Z * RunAcc)) : Prop := Forall (fun p => p.1 < run) accs.

Lemma acc_get_below run accs : below run accs -> acc_get run accs = None.
Proof. induction 1 as [| [k a] accs H _ IH]; cbn in *; [done |]. by rewrite (proj2 (Z.eqb_neq k run)) by lia. Qed.

Lemma acc_get_end run a accs : below run accs -> acc_get run (accs ++ [(run, a)]) = Some a.
Proof. induction 1 as [| [k a'] accs H _ IH]; cbn in *; [by rewrite Z.eqb_refl |]. by rewrite (proj2 (Z.eqb_neq k run)) by lia. Qed.

Lemma acc_insert_end run a accs : below run accs -> acc_insert run a accs = accs ++ [(run, a)].
Proof. induction 1 as [| [k a'] accs H _ IH]; cbn in *; [done |]. rewrite (proj2 (Z.eqb_neq k run)), (proj2 (Z.ltb_ge run k)), IH by lia. done. Qed.

Lemma acc_insert_again run a a0 accs : below run accs -> acc_insert run a (accs ++ [(run, a0)]) = accs ++ [(run, a)].
Proof.
  induction 1 as [| [k a'] accs H _ IH]; cbn in *; [by rewrite Z.eqb_refl |].
  rewrite (proj2 (Z.eqb_neq k run)), (proj2 (Z.ltb_ge run k)), IH by lia. done.
Qed.

Lemma take_all_app ls ls' b : take_all (ls ++ ls') b = take_all ls' (take_all ls b).
Proof. unfold take_all. by rewrite fold_left_app. Qed.

Lemma take_all_cons l ls b : take_all (l :: ls) b = take_all ls (take_record l b).
Proof. done. Qed.

(** Between two runs nothing is taken. *)
Lemma take_quiet ls accs w : Forall quiet ls -> take_all ls (mkBuilding accs None w) = mkBuilding accs None w.
Proof.
  induction 1 as [| l ls Hl _ IH]; [done |]. rewrite take_all_cons. unfold take_record, quiet in *. by destruct (record l).
Qed.

(** In a run its comments are. *)
Lemma take_noted ls run accs w : below run accs -> Forall quiet ls -> forall g c t cs,
  take_all ls (mkBuilding (accs ++ [(run, mkRunAcc g c t cs None)]) (Some run) w) =
    mkBuilding (accs ++ [(run, mkRunAcc g c t (cs ++ noted ls) None)]) (Some run) w.
Proof.
  intros Hb Hq. induction Hq as [| l ls Hl _ IH]; intros g c t cs; [by rewrite app_nil_r |]. rewrite take_all_cons. unfold take_record, quiet in *.
  cbn [noted omap list_omap]. destruct (record l); try done; try apply IH. cbn [current_run RunsYaml.accs warnings]. rewrite acc_get_end by done.
  cbn [acc_geometry_path start_comment start_ts comments stop]. rewrite acc_insert_again by done. rewrite IH, <- app_assoc. done.
Qed.

Lemma take_episode e accs open w : episode_ok e -> below (ep_run e) accs ->
  (forall prev, open = Some prev -> is_open prev accs = true) ->
  take_all (ep_lines e) (mkBuilding accs open w) =
    mkBuilding (accs ++ [(ep_run e, acc_of e)]) (left_open e) (w ++ ep_warnings open [e]).
Proof.
  intros (Hs & Hb & Ha & Hst) Hbelow Hopen. unfold ep_lines. rewrite take_all_cons.
  assert (E1 : take_record (ep_start e) (mkBuilding accs open w) =
    mkBuilding (accs ++ [(ep_run e, mkRunAcc (geometry_path (ep_geometry e)) (ep_comment e) (ts (ep_start e)) [] None)]) (Some (ep_run e))
      (w ++ match open with Some prev => [restarted prev (ep_run e)] | None => [] end)).
  { unfold take_record, starts_run in *. destruct (record (ep_start e)); try done. destruct Hs as (-> & -> & ->). cbn [current_run RunsYaml.accs warnings].
    rewrite acc_insert_end by done. f_equal. f_equal. destruct open as [prev |]; [| done]. rewrite (Hopen prev eq_refl).
    destruct (Z.eqb_spec prev (ep_run e)) as [-> |]; [| done]. specialize (Hopen _ eq_refl). unfold is_open in Hopen. by rewrite acc_get_below in Hopen. }
  rewrite E1, take_all_app, take_noted by done. cbn [app]. rewrite take_all_app. unfold acc_of, stop_of, left_open, ep_warnings.
  destruct (ep_stop e) as [[[[l reason] c] fs] |] eqn:Es.
  - assert (E2 : forall b, take_all [l] b = take_record l b) by done. rewrite E2. unfold take_record, stops_run in *. destruct (record l); try done.
    destruct Hst as (-> & -> & -> & ->). cbn [current_run RunsYaml.accs warnings]. rewrite acc_get_end, bool_decide_true, acc_insert_again by done.
    rewrite take_quiet by done. unfold stop_of. rewrite Es, app_nil_r, app_assoc. done.
  - rewrite Hst. unfold stop_of. rewrite Es. cbn [take_all fold_left]. by rewrite !app_nil_r.
Qed.

Lemma take_episodes eps : forall accs open w, Forall episode_ok eps -> StronglySorted Z.lt (map ep_run eps) ->
  Forall (fun e => below (ep_run e) accs) eps -> (forall prev, open = Some prev -> is_open prev accs = true) ->
  take_all (flat_map ep_lines eps) (mkBuilding accs open w) =
    mkBuilding (accs ++ map (fun e => (ep_run e, acc_of e)) eps) (fold_left (fun _ e => left_open e) eps open) (w ++ ep_warnings open eps).
Proof.
  induction eps as [| e eps IH]; intros accs open w Hok Hs Hb Ho; cbn [flat_map map ep_warnings fold_left]; [by rewrite !app_nil_r |].
  apply List.Forall_cons_iff in Hok as [He Hok], Hb as [Hbe Hb]. cbn in Hs. apply StronglySorted_inv in Hs as [Hs Hlt].
  rewrite take_all_app, take_episode, IH; try done.
  - cbn [ep_warnings]. rewrite !app_nil_r, <- !app_assoc. done.
  - rewrite list.Forall_forall in Hb |- *. rewrite list.Forall_forall in Hlt. intros e' Hin. apply List.Forall_app. split; [by apply Hb |].
    constructor; [| done]. cbn. apply Hlt. apply list_elem_of_In, in_map, list_elem_of_In, Hin.
  - intros prev E. unfold left_open in E. unfold is_open. destruct (ep_stop e) eqn:Es; [done |]. injection E as <-.
    rewrite acc_get_end by done. unfold acc_of, stop_of. by rewrite Es.
Qed.

(** *** The entries *)

(** A file of a board: CoBo.._AsAd.._<time>_<part>.graw. *)
Definition board_file (path t : string) : Prop :=
  exists cobo asad part,
    file_name path = Some ("CoBo" +:+ cobo +:+ "_" +:+ "AsAd" +:+ asad +:+ "_" +:+ t +:+ "_" +:+ part +:+ ".graw") /\
    Forall (fun p => lacks "_"%char p = true) [cobo; asad; t; part].

(** The first of them. *)
Definition first_board (fs : list OutputFile) (path t : string) : Prop :=
  exists before f after, fs = before ++ f :: after /\ Forall (fun f => forall t, ~ board_file (file_path f) t) before /\
    file_path f = path /\ board_file path t.

(** The time of a start to the millisecond, without the offset. *)
Definition run_time (t : string) : string :=
  if (String.length t =? 29)%nat && bool_decide (String.get 19 t = Some "."%char) then String.substring 0 23 t else t.

(** A text on one line. *)
Definition one_line (s : string) : string :=
  String.string_of_list_ascii (map (fun c => if bool_decide (c ∈ ["010"; "013"]%char) then " "%char else c) (String.list_ascii_of_string s)).

Definition all_frames (c : Counters) : Z := foldr Z.add 0 (map snd (map_to_list (counted_frames c))).

(** The drift velocity in CO2, to four places: 0.7233 E / p, over a cage of 20 cm. *)
Definition velocity (gas : option string) (pressure hv : option f64) : option f64 :=
  match gas, pressure, hv with
  | Some gas, Some pressure, Some hv =>
      if bool_decide (gas = "CO2"%string) then
        let v := f64_div (f64_mul (f64_of_decimal false 7233 (-4)) (f64_div hv (f64_of_Z 20))) pressure in
        Some (f64_div (f64_round (f64_mul v (f64_of_Z 10000))) (f64_of_Z 10000))
      else None
  | _, _, _ => None
  end.

Definition told_notes (e : Episode) : list string :=
  match ep_comment e with EmptyString => [] | c => [one_line c] end ++
  map one_line (noted (ep_between e)) ++
  match ep_stop e with
  | Some (_, reason, _, _) => if bool_decide (reason = "normal"%string) then [] else ["stop reason: " +:+ reason]
  | None => ["no run_stop"%string]
  end.

(** What a run's entry says of the run: every field of it. *)
Record tells (d : Defaults) (root : string) (e : Episode) (r : RunEntry) : Prop := mkTells {
  tells_time :
    let by_time := root +:+ "/CoBo*_" +:+ run_id r +:+ "_*.graw" in
    let no_file := run_id r = run_time (ts (ep_start e)) /\ files r = by_time in
    match ep_stop e with
    | Some (_, _, _, fs) =>
        (exists path, first_board fs path (run_id r) /\
           files r = match parent_name path with
                     | Some folder => root +:+ "/" +:+ folder +:+ "/CoBo*_AsAd*_*.graw"
                     | None => by_time
                     end) \/
        (forall path t, ~ first_board fs path t) /\ no_file
    | None => no_file
    end;
  tells_events : n_events r =
    match ep_stop e with
    | Some (_, _, c, _) => match events_built c with Some n => n | None => all_frames c end
    | None => 0
    end;
  tells_fixed : format r = "graw"%string /\ geometry_ r = basename (geometry_path (ep_geometry e));
  tells_defaults : entry_hypothesis r = hypothesis d /\ entry_gas r = gas d /\ entry_temperature r = temperature_k d /\
    entry_sampling r = sampling_rate_mhz d;
  tells_conditions :
    match runs_of d !! ep_run e with
    | Some o =>
        entry_pressure r = pressure_mbar o /\ entry_drift_hv r = drift_hv_v o /\
        drift_velocity r = velocity (gas d) (pressure_mbar o) (drift_hv_v o) /\
        match source o with
        | Some src => source_primary r = primary src /\ source_background r = background src
        | None => source_primary r = None /\ source_background r = None
        end
    | None => entry_pressure r = None /\ entry_drift_hv r = None /\ drift_velocity r = None /\
        source_primary r = None /\ source_background r = None
    end;
  tells_notes : notes r = String.concat "; " (told_notes e);
}.

Lemma lacks_app_string c a b : lacks c (a +:+ b) = lacks c a && lacks c b.
Proof. induction a as [| x a IH]; [done |]. rewrite append_cons. cbn [lacks]. by rewrite IH, andb_assoc. Qed.

Lemma board_file_ts path t : board_file path t <-> asad_graw_ts path = Some t.
Proof.
  unfold board_file, asad_graw_ts. destruct (file_name path) as [name |]; [| split; [by intros (? & ? & ? & ? & _) | done]].
  cbn [mbind option_bind]. split.
  - intros (cobo & asad & part & [= ->] & Hl). apply List.Forall_cons_iff in Hl as [H1 Hl]. apply List.Forall_cons_iff in Hl as [H2 Hl].
    apply List.Forall_cons_iff in Hl as [H3 Hl]. apply List.Forall_cons_iff in Hl as [H4 _].
    assert (E : "CoBo" +:+ cobo +:+ "_" +:+ "AsAd" +:+ asad +:+ "_" +:+ t +:+ "_" +:+ part +:+ ".graw" =
      String.concat "_" ["CoBo" +:+ cobo; "AsAd" +:+ asad; t; part] +:+ ".graw").
    { cbn [String.concat]. by rewrite <- !append_assoc. }
    rewrite E, strip_suffix_app. cbn [mbind option_bind].
    rewrite split_on_concat by (done || (repeat constructor; rewrite ?lacks_app_string, ?H1, ?H2, ?H3, ?H4; done)).
    assert (Hs : forall p q, starts_with p (p +:+ q) = true) by (intros p q; unfold starts_with; by rewrite strip_prefix_app).
    by rewrite !Hs.
  - destruct (strip_suffix ".graw" name) as [stem |] eqn:Es; [| done]. apply strip_suffix_some in Es as ->. cbn [mbind option_bind].
    destruct (split_on_joins "_"%char stem) as (Ej & Hl & _).
    destruct (split_on "_"%char stem) as [| a [| b [| c [| e []]]]]; try done.
    destruct (starts_with "CoBo" a && starts_with "AsAd" b) eqn:Eb; [| done]. intros [= <-].
    apply andb_prop in Eb as [[x ->]%starts_with_some [y ->]%starts_with_some].
    apply list.Forall_cons in Hl as [H1 Hl]. apply list.Forall_cons in Hl as [H2 Hl]. apply list.Forall_cons in Hl as [H3 Hl].
    apply list.Forall_cons in Hl as [H4 _]. rewrite lacks_app_string in H1, H2. apply andb_prop in H1 as [_ H1], H2 as [_ H2].
    exists x, y, e. split; [| by repeat constructor]. rewrite <- Ej. cbn [String.concat]. by rewrite <- !append_assoc.
Qed.

Lemma find_graw_first fs :
  match find_graw fs with
  | Some (t, dir) => exists path, first_board fs path t /\ dir = parent_name path
  | None => forall path t, ~ first_board fs path t
  end.
Proof.
  induction fs as [| f fs IH]; cbn [find_graw]; [by intros path t ([] & ? & ? & ? & _) |].
  unfold asad_graw_ts_and_run_dir_name. destruct (asad_graw_ts (file_path f)) as [t |] eqn:E; cbn [mbind option_bind].
  - exists (file_path f). split; [| done]. exists [], f, fs. split_and!; [done | constructor | done | by apply board_file_ts].
  - assert (Hno : forall t, ~ board_file (file_path f) t) by (intros t Ht%board_file_ts; congruence).
    destruct (find_graw fs) as [[t dir] |].
    + destruct IH as (path & (before & f' & after & -> & Hb & Hp & Ht) & ->). exists path. split; [| done].
      exists (f :: before), f', after. split_and!; [done | by constructor | done | done].
    + intros path t ([| f0 before] & f' & after & Hfs & Hb & Hp & Ht); injection Hfs as <- Hfs; [by apply (Hno t); rewrite Hp |].
      apply list.Forall_cons in Hb as [_ Hb]. apply (IH path t). by exists before, f', after.
Qed.

Lemma first_board_found fs path t : first_board fs path t -> find_graw fs = Some (t, parent_name path).
Proof.
  intros (before & f & after & -> & Hb & <- & Ht). induction Hb as [| f' before Hf' _ IH]; cbn [app find_graw].
  - unfold asad_graw_ts_and_run_dir_name. apply board_file_ts in Ht. by rewrite Ht.
  - unfold asad_graw_ts_and_run_dir_name. destruct (asad_graw_ts (file_path f')) as [t' |] eqn:E; [| exact IH].
    exfalso. by apply (Hf' t'), board_file_ts.
Qed.

Lemma normalize_one_line s : normalize s = one_line s.
Proof.
  unfold one_line. induction s as [| c s IH]; [done |]. cbn. rewrite <- IH. f_equal.
  destruct (Ascii.eqb_spec c "010") as [-> |]; [done |]. destruct (Ascii.eqb_spec c "013") as [-> |]; [done |].
  rewrite bool_decide_eq_false_2 by set_solver. done.
Qed.

Lemma velocity_computed gas pressure hv : compute_drift_velocity_cm_us gas pressure hv = velocity gas pressure hv.
Proof.
  unfold compute_drift_velocity_cm_us, velocity. destruct gas as [g |]; [| done].
  case_bool_decide as E; cbn [negb].
  - injection E as ->. destruct pressure, hv; try done.
  - rewrite bool_decide_eq_false_2 by congruence. by destruct pressure, hv.
Qed.

Lemma notes_told e : notes_of (acc_of e) = String.concat "; " (told_notes e).
Proof.
  unfold notes_of, told_notes, acc_of, stop_of. cbn [start_comment comments stop]. f_equal. f_equal; [| f_equal].
  - destruct (ep_comment e) as [| c s]; [done |]. rewrite bool_decide_eq_false_2 by done. by rewrite normalize_one_line.
  - apply map_ext. exact normalize_one_line.
  - destruct (ep_stop e) as [[[[l reason] c] fs] |]; [| done]. unfold snapshot. by destruct (find_graw fs) as [[] |].
Qed.

Lemma events_counted c : events_of c = match events_built c with Some n => n | None => all_frames c end.
Proof.
  unfold events_of, all_frames. destruct (events_built c) as [n |]; [done |]. rewrite map_fold_foldr.
  induction (map_to_list _) as [| [k n] l IH]; [done |]. cbn in *. by rewrite IH.
Qed.

Definition ts_sliced (e : Episode) : Prop := char_boundary (ts (ep_start e)) 23 = true.

Lemma ts_val t : char_boundary t 23 = true -> ts_without_offset t = Val (run_time t).
Proof. intros H. unfold ts_without_offset, run_time. rewrite H. by destruct (_ && _). Qed.

Lemma entry_built e d root : ts_sliced e -> exists r, build_entry (ep_run e) (acc_of e) d root = Val r /\ tells d root e r.
Proof.
  intros Ht. pose proof (ts_val _ Ht) as Et. unfold build_entry. rewrite notes_told, velocity_computed. unfold acc_of, stop_of, snapshot.
  cbn [stop start_ts acc_geometry_path].
  assert (Hc : forall r, entry_pressure r = (o ← runs_of d !! ep_run e; pressure_mbar o) -> entry_drift_hv r = (o ← runs_of d !! ep_run e; drift_hv_v o) ->
    drift_velocity r = velocity (gas d) (o ← runs_of d !! ep_run e; pressure_mbar o) (o ← runs_of d !! ep_run e; drift_hv_v o) ->
    source_primary r = (s ← (o ← runs_of d !! ep_run e; source o); primary s) ->
    source_background r = (s ← (o ← runs_of d !! ep_run e; source o); background s) ->
    match runs_of d !! ep_run e with
    | Some o => entry_pressure r = pressure_mbar o /\ entry_drift_hv r = drift_hv_v o /\
        drift_velocity r = velocity (gas d) (pressure_mbar o) (drift_hv_v o) /\
        match source o with
        | Some src => source_primary r = primary src /\ source_background r = background src
        | None => source_primary r = None /\ source_background r = None
        end
    | None => entry_pressure r = None /\ entry_drift_hv r = None /\ drift_velocity r = None /\
        source_primary r = None /\ source_background r = None
    end).
  { intros r H1 H2 H3 H4 H5. destruct (runs_of d !! ep_run e) as [o |]; cbn in *; [by destruct (source o) |].
    split_and!; try done. rewrite H3. by destruct (gas d). }
  destruct (ep_stop e) as [[[[l reason] c] fs] |] eqn:Es; [pose proof (find_graw_first fs) as Hf; destruct (find_graw fs) as [[t dir] |] |];
    cbn [ts_from_files stop_events run_dir_name]; rewrite ?Et; cbn [rust_bind]; eexists; (split; [reflexivity |]); constructor; cbv zeta; rewrite ?Es;
    cbn [run_id files n_events format geometry_ entry_hypothesis entry_gas entry_temperature entry_sampling notes];
    try done; try (by apply events_counted); try (by apply Hc).
  - left. destruct Hf as (path & Hp & ->). by exists path.
  - by right.
Qed.

Lemma entries_built eps d root : Forall ts_sliced eps ->
  exists rs, build_entries (map (fun e => (ep_run e, acc_of e)) eps) d root = Val rs /\ Forall2 (tells d root) eps rs.
Proof.
  induction 1 as [| e eps He _ (rs & E & Hrs)]; [by exists [] |]. destruct (entry_built e d root He) as (r & Er & Hr).
  exists (r :: rs). cbn [map build_entries]. rewrite Er. cbn. rewrite E. cbn. split; [done | by constructor].
Qed.

(** *** Notes that are read back *)

Definition blank_first (s : string) : bool :=
  match s with String c _ => (c =? " ")%char || (c =? "010")%char || (c =? "013")%char | EmptyString => false end.

(** No comment begins with a blank, and the reason of the stop is one line. *)
Definition tidy (e : Episode) : Prop :=
  blank_first (ep_comment e) = false /\ Forall (fun c => blank_first c = false) (noted (ep_between e)) /\
  match ep_stop e with Some (_, reason, _, _) => lacks "010"%char reason = true | None => True end.

Lemma normalize_lacks s : lacks "010"%char (normalize s) = true.
Proof.
  induction s as [| c s IH]; [done |]. cbn [normalize lacks]. rewrite IH, andb_true_r. destruct (c =? "010")%char eqn:E; [done |].
  destruct (c =? "013")%char; [done |]. cbn [orb]. by rewrite E.
Qed.

Definition no_blank (s : string) : Prop := skip_blanks s = s.

Lemma normalize_no_blank s : blank_first s = false -> no_blank (normalize s).
Proof.
  destruct s as [| c s]; [done |]. cbn. intros [[H1 H2]%orb_false_iff H3]%orb_false_iff. rewrite H2, H3. unfold no_blank. cbn. by rewrite H1.
Qed.

Lemma no_blank_app a b : no_blank a -> no_blank b -> no_blank (a +:+ b).
Proof.
  unfold no_blank. destruct a as [| c a]; [by rewrite append_nil_l |]. rewrite append_cons. cbn [skip_blanks]. destruct (c =? " ")%char eqn:E; [| done].
  intros H. exfalso. apply Ascii.eqb_eq in E as ->. assert (L : (String.length (skip_blanks a) <= String.length a)%nat).
  { clear H. induction a as [| x a IH]; [done |]. cbn. destruct (_ =? _)%char; cbn; lia. }
  rewrite H in L. cbn in L. lia.
Qed.

Lemma good_concat ps : Forall good_notes ps -> good_notes (String.concat "; " ps).
Proof.
  induction 1 as [| p ps [H1 H2] Hps [IH1 IH2]]; [done |]. destruct ps as [| q ps]; [done |].
  assert (E : String.concat "; " (p :: q :: ps) = p +:+ "; " +:+ String.concat "; " (q :: ps)) by done. rewrite E.
  split; [by rewrite !lacks_app_string, H1, IH1 |]. by apply no_blank_app.
Qed.

Lemma tidy_notes e : tidy e -> good_notes (notes_of (acc_of e)).
Proof.
  assert (Hn : forall s, blank_first s = false -> good_notes (normalize s)).
  { intros s H. split; [apply normalize_lacks | by apply normalize_no_blank]. }
  intros (H1 & H2 & H3). apply good_concat. apply List.Forall_app. split; [| apply List.Forall_app; split].
  - case_bool_decide; [constructor |]. constructor; [by apply Hn | constructor].
  - apply List.Forall_map. eapply list.Forall_impl; [exact H2 | exact Hn].
  - unfold acc_of, stop_of. cbn [stop]. destruct (ep_stop e) as [[[[l reason] c] fs] |]; [| by repeat constructor].
    unfold snapshot. destruct (find_graw fs) as [[t dir] |]; cbn [stop_reason]; (case_bool_decide; [constructor |]);
      (constructor; [| constructor]); split; try done; by rewrite lacks_app_string, H3.
Qed.


(** Of an option given twice the last value counts. *)
Lemma last_option_counts logbook a b : starts_with "--" logbook = false ->
  parse_args [logbook; "--out"; a; "--out"; b]%string = Ok (mkArgs logbook None (Some b) None).
Proof.
  intros H. assert (Hn : forall o, starts_with "--" o = true -> bool_decide (logbook = o) = false).
  { intros o Ho. apply bool_decide_eq_false. intros ->. congruence. }
  unfold parse_args. cbn [parse_from]. rewrite !Hn by done. rewrite H. done.
Qed.

(** ** Examples *)
Module Sample.

(** Floats as the nearest whole number. *)
Definition show (v : f64) : string :=
  match v with
  | S754_finite s m e => (if s then "-" else "")%string +:+ dec (round_magnitude (Zpos m) e)
  | S754_zero s => (if s then "-0" else "0")%string
  | S754_infinity s => (if s then "-inf" else "inf")%string
  | S754_nan => "NaN"
  end.

Lemma show_plain v : plain_text (show v).
Proof.
  destruct v as [[] | [] | | s m e]; try by split. cbn [show]. pose proof (dec_digits (round_magnitude (Zpos m) e)) as Hd. split.
  - rewrite avoids_app. apply andb_true_intro. split; [by destruct s |]. apply avoids_digits; [by repeat constructor | exact Hd].
  - intros E. destruct s; [done |]. rewrite append_nil_l in E. by rewrite E in Hd.
Qed.

Definition start_line (run : Z) (comment at_ : string) : LogbookLine :=
  mkLine at_ 1042 (RunStart "controller" run "default" None (Logbook.mkGeometry "config/geometry_mini_eTPC.dat" "ab12") [] "aogaki" comment [] None None).
Definition comment_line : LogbookLine := mkLine "2026-08-12T15:05:00.000+03:00" 1043 (Comment "ui" "aogaki" "gas bottle changed").
Definition counters : Counters := mkCounters (Some 12345) None None ∅ None None None None None None None.
Definition a_file : OutputFile := mkOutputFile "/data/run0057/CoBo0_AsAd0_2026-08-12T15:04:05.623_0000.graw" 1024.
Definition stop_line : LogbookLine :=
  mkLine "2026-08-12T15:10:00.000+03:00" 1044 (RunStop "controller" 57 (Some (f64_of_Z 300)) true "normal" false true counters [a_file] None).

Definition first_run : Episode :=
  mkEpisode (start_line 57 "gas test" "2026-08-12T15:04:05.123+03:00") 57 (Logbook.mkGeometry "config/geometry_mini_eTPC.dat" "ab12") "gas test"
    [comment_line] (Some (stop_line, "normal"%string, counters, [a_file])) [].
Definition second_run : Episode :=
  mkEpisode (start_line 58 "" "2026-08-12T16:00:00.000+03:00") 58 (Logbook.mkGeometry "config/geometry_mini_eTPC.dat" "ab12") "" [] None [].

Definition conditions : Defaults :=
  mkDefaults (Some "CO2"%string) (Some (f64_of_Z 293)) None None None {[57 := mkOverride (Some (f64_of_Z 100)) (Some (f64_of_Z 1600)) None]}.

(** 100 mbar and 1600 V give 0.5786. *)
Example oracle : compute_drift_velocity_cm_us (Some "CO2"%string) (Some (f64_of_Z 100)) (Some (f64_of_Z 1600)) = Some (f64_of_decimal false 5786 (-4)).
Proof. vm_compute. reflexivity. Qed.


(** The time of a start is any text of the line: one of the length and the point expected,
    with a character of two bytes across the cut, stops the tool. *)
Lemma odd_time_panics : let t := ("2026-08-12T15:04:05.12" +:+ String "195"%char (String "169"%char "+03:0"))%string in
  String.length t = 29%nat /\ ts_without_offset t = Panic.
Proof. vm_compute. done. Qed.

(** A comment that begins with a blank is read back without it. *)
Lemma blank_of_notes_lost : exists r, build_entry 58 (acc_of (mkEpisode (ep_start second_run) 58 (ep_geometry second_run) " x" [] None [])) conditions "/data" = Val r /\
  notes r = " x; no run_stop"%string /\ exists vs, read_yaml (render show [r]) = Some [(vs, "x; no run_stop"%string)].
Proof. eexists. split; [vm_compute; reflexivity |]. split; [done |]. eexists. vm_compute. reflexivity. Qed.
End Sample.
