(* ===== verification/FloatFacts.v ===== *)
(** * FloatFacts: sums of whole numbers, and the order of finite floats

    What the analysis of recorded data needs of [Float]: a sum of whole numbers below
    2^53 is exact whatever its order, and comparison of finite floats is a total order,
    by which [sort_by] sorts.  Lemmas only, but for the sum and the square root. *)

From Stdlib Require Import SpecFloat.
From stdpp Require Import list sorting.
From S2P Require Import Prelude Float.
Open Scope list_scope.
Open Scope Z_scope.

Definition f64_sqrt (x : f64) : f64 := SFsqrt PREC EMAX x.

(** ** Whole numbers *)

Lemma digits_log2 p : Zpos (digits2_pos p) = Z.log2 (Zpos p) + 1.
Proof.
  assert (E : forall p, digits2_pos p = Pos.size p) by (intros q; induction q as [q IH | q IH |]; cbn; [by rewrite IH | by rewrite IH | done]).
  rewrite E. destruct p; cbn; lia.
Qed.

Lemma iter_double m d : Zpos (Pos.iter xO m d) = Zpos m * 2 ^ Zpos d.
Proof.
  induction d as [| d IH] using Pos.peano_ind; [cbn; lia |]. rewrite Pos.iter_succ, Pos2Z.inj_succ, Z.pow_succ_r by lia.
  rewrite Pos2Z.inj_xO, IH. lia.
Qed.

(** Zeros shifted out leave no trace. *)
Lemma shr_zero m : 0 < m -> shr_1 (Build_shr_record (2 * m) false false) = Build_shr_record m false false.
Proof. by destruct m. Qed.

Lemma shr_zeros n : forall m, 0 < m -> SpecFloat.iter_pos shr_1 n (Build_shr_record (m * 2 ^ Zpos n) false false) = Build_shr_record m false false.
Proof.
  induction n as [n IH | n IH |]; intros m Hm; cbn [SpecFloat.iter_pos].
  - assert (Hp : 0 < m * 2 ^ Zpos n) by (apply Z.mul_pos_pos; lia).
    replace (m * 2 ^ Zpos n~1) with (2 * (m * 2 ^ Zpos n * 2 ^ Zpos n)).
    2:{ replace (Zpos n~1) with (1 + (Zpos n + Zpos n)) by lia. rewrite !Z.pow_add_r by lia. lia. }
    rewrite shr_zero by (apply Z.mul_pos_pos; lia). by rewrite !IH.
  - assert (Hp : 0 < m * 2 ^ Zpos n) by (apply Z.mul_pos_pos; lia).
    replace (m * 2 ^ Zpos n~0) with (m * 2 ^ Zpos n * 2 ^ Zpos n); [by rewrite !IH |].
    replace (Zpos n~0) with (Zpos n + Zpos n) by lia. rewrite Z.pow_add_r by lia. lia.
  - rewrite Z.mul_comm. by apply shr_zero.
Qed.

Lemma fexp_normal e : -1000 <= e <= 1000 -> fexp PREC EMAX e = e - 53.
Proof. intros. unfold fexp, emin, PREC, EMAX. lia. Qed.

Lemma log2_mul_pow n k : 0 < n -> 0 <= k -> Z.log2 (n * 2 ^ k) = Z.log2 n + k.
Proof. intros. rewrite Z.log2_mul_pow2 by lia. lia. Qed.

(** A whole number of at most 53 bits, as a float. *)
Definition whole (n : Z) : f64 := S754_finite false (Z.to_pos (n * 2 ^ (52 - Z.log2 n))) (Z.log2 n - 52).

Lemma mantissa_pos n : 0 < n -> 0 < n * 2 ^ (52 - Z.log2 n) \/ 53 <= Z.log2 n.
Proof. intros. destruct (Z.lt_ge_cases (Z.log2 n) 53); [left | by right]. apply Z.mul_pos_pos; [done |]. apply Z.pow_pos_nonneg; lia. Qed.

Lemma round_aux_normal m e : 0 < m -> Z.log2 m = 52 -> -1000 <= e <= 900 ->
  binary_round_aux PREC EMAX false m e loc_Exact = S754_finite false (Z.to_pos m) e.
Proof.
  intros Hm Hl He. unfold binary_round_aux, shr_fexp. destruct m as [| m |]; try lia. cbn [Zdigits2 shr_record_of_loc].
  rewrite digits_log2, Hl, fexp_normal by lia. replace (52 + 1 + e - 53 - e) with 0 by lia. cbn [shr shr_m loc_of_shr_record round_nearest_even Zdigits2 shr_record_of_loc].
  rewrite digits_log2, Hl, fexp_normal by lia. replace (52 + 1 + e - 53 - e) with 0 by lia. cbn [shr shr_m].
  rewrite (proj2 (Z.leb_le _ _)) by (unfold EMAX, PREC; lia). done.
Qed.

Lemma normalize_whole n k : 0 < n -> Z.log2 n < 53 -> 0 <= k <= 900 -> binary_normalize PREC EMAX (n * 2 ^ k) (- k) false = whole n.
Proof.
  intros Hn Hl Hk. pose proof (Z.log2_nonneg n) as Hln. pose proof (log2_mul_pow n k Hn (proj1 Hk)) as Hlp.
  assert (Hp : 0 < 2 ^ k) by (apply Z.pow_pos_nonneg; lia). destruct (n * 2 ^ k) as [| p |] eqn:E; try nia.
  unfold binary_normalize, binary_round. rewrite digits_log2, Hlp, fexp_normal by lia.
  set (q := k - (52 - Z.log2 n)). unfold shl_align. replace (Z.log2 n + k + 1 + - k - 53 - - k) with q by lia.
  assert (Hm : 0 < n * 2 ^ (52 - Z.log2 n)) by (destruct (mantissa_pos n Hn); [done | lia]).
  assert (Hlm : Z.log2 (n * 2 ^ (52 - Z.log2 n)) = 52) by (rewrite log2_mul_pow by lia; lia).
  destruct q as [| d | d] eqn:Eq.
  - rewrite round_aux_normal by lia. unfold whole. rewrite <- E. subst q. replace (52 - Z.log2 n) with k by lia. f_equal. lia.
  - unfold binary_round_aux at 1. unfold shr_fexp at 1. cbn [Zdigits2 shr_record_of_loc]. rewrite digits_log2, Hlp, fexp_normal by lia.
    replace (Z.log2 n + k + 1 + - k - 53 - - k) with (Zpos d) by lia. cbn [shr].
    replace (Zpos p) with (n * 2 ^ (52 - Z.log2 n) * 2 ^ Zpos d).
    2:{ rewrite <- E, <- Z.mul_assoc, <- Z.pow_add_r by lia. do 2 f_equal. lia. }
    rewrite shr_zeros by done. cbn [shr_m loc_of_shr_record round_nearest_even].
    pose proof (round_aux_normal (n * 2 ^ (52 - Z.log2 n)) (- k + Zpos d) Hm Hlm ltac:(lia)) as H. unfold binary_round_aux in H.
    unfold shr_fexp at 1 in H. unfold whole. replace (Z.log2 n - 52) with (- k + Zpos d) by lia. rewrite <- H.
    destruct (n * 2 ^ (52 - Z.log2 n)) as [| m |] eqn:Em; try lia. cbn [Zdigits2 shr_record_of_loc]. rewrite digits_log2, Hlm, fexp_normal by lia.
    replace (52 + 1 + (- k + Z.pos d) - 53 - (- k + Z.pos d)) with 0 by lia. done.
  - rewrite iter_double, <- E, <- Z.mul_assoc, <- Z.pow_add_r by lia. replace (k + Zpos d) with (52 - Z.log2 n) by lia.
    rewrite round_aux_normal by lia. unfold whole. f_equal. lia.
Qed.

Lemma f64_of_whole n : 0 < n < 2 ^ 53 -> f64_of_Z n = whole n.
Proof.
  intros Hn. unfold f64_of_Z. pose proof (normalize_whole n 0 ltac:(lia)) as H. rewrite Z.mul_1_r in H. apply H; [| lia].
  apply Z.log2_lt_pow2; lia.
Qed.

(** Aligned to a smaller exponent, the mantissa is the number. *)
Lemma align_whole n e : 0 < n -> Z.log2 n < 53 -> e <= Z.log2 n - 52 ->
  Zpos (fst (shl_align (Z.to_pos (n * 2 ^ (52 - Z.log2 n))) (Z.log2 n - 52) e)) = n * 2 ^ (- e).
Proof.
  intros Hn Hl He. assert (Hm : 0 < n * 2 ^ (52 - Z.log2 n)) by (destruct (mantissa_pos n Hn); [done | lia]).
  unfold shl_align. destruct (e - (Z.log2 n - 52)) as [| d | d] eqn:Ed; [| lia |]; cbn [fst].
  - rewrite Z2Pos.id by done. do 2 f_equal. lia.
  - rewrite iter_double, Z2Pos.id, <- Z.mul_assoc, <- Z.pow_add_r by (done || lia). do 2 f_equal. lia.
Qed.

(** A sum of whole numbers below 2^53 is exact. *)
Lemma add_whole a b : 0 <= a -> 0 <= b -> a + b < 2 ^ 53 -> f64_add (f64_of_Z a) (f64_of_Z b) = f64_of_Z (a + b).
Proof.
  intros Ha Hb Hs. destruct (Z.eq_dec a 0) as [-> |]; [destruct (Z.eq_dec b 0) as [-> |]; [done |] |].
  - by rewrite Z.add_0_l, (f64_of_whole b) by lia.
  - destruct (Z.eq_dec b 0) as [-> |]; [by rewrite Z.add_0_r, (f64_of_whole a) by lia |]. rewrite !f64_of_whole by lia.
    assert (L : forall n, 0 < n < 2 ^ 53 -> 0 <= Z.log2 n < 53) by (intros x Hx; split; [apply Z.log2_nonneg | apply Z.log2_lt_pow2; lia]).
    pose proof (L a ltac:(lia)). pose proof (L b ltac:(lia)). pose proof (L (a + b) ltac:(lia)).
    unfold f64_add, whole at 1 2. unfold SFadd. set (e := Z.min (Z.log2 a - 52) (Z.log2 b - 52)). cbn [cond_Zopp].
    rewrite !align_whole by lia. rewrite <- Z.mul_add_distr_r. pose proof (normalize_whole (a + b) (- e) ltac:(lia) ltac:(lia) ltac:(lia)) as H2.
    by rewrite Z.opp_involutive in H2.
Qed.

(** However they are summed up. *)
Lemma sum_whole (ns : list Z) n : 0 <= n -> Forall (fun m => 0 <= m) ns -> n + foldr Z.add 0 ns < 2 ^ 53 ->
  fold_left (fun x m => f64_add x (f64_of_Z m)) ns (f64_of_Z n) = f64_of_Z (n + foldr Z.add 0 ns).
Proof.
  intros Hn Hns. revert n Hn. induction Hns as [| m ns Hm Hns IH]; intros n Hn Hs; cbn in *; [by rewrite Z.add_0_r |].
  assert (0 <= foldr Z.add 0 ns) by (clear - Hns; induction Hns; cbn; lia). rewrite add_whole by lia. rewrite IH by lia. f_equal. lia.
Qed.

(** ** The order *)

(** The sign, the exponent and the mantissa, so that a greater float has a greater triple. *)
Definition place (x : f64) : Z * Z * Z :=
  match x with
  | S754_zero _ | S754_nan => (0, 0, 0)
  | S754_infinity s => (if s then -2 else 2, 0, 0)
  | S754_finite s m e => if s then (-1, - e, Zneg m) else (1, e, Zpos m)
  end.
Definition below (a b : Z * Z * Z) : Prop := a.1.1 < b.1.1 \/ (a.1.1 = b.1.1 /\ (a.1.2 < b.1.2 \/ (a.1.2 = b.1.2 /\ a.2 < b.2))).

Lemma compare_places x y : is_nan x = false -> is_nan y = false ->
  match SFcompare x y with
  | Some Lt => below (place x) (place y)
  | Some Gt => below (place y) (place x)
  | Some Eq => place x = place y
  | None => False
  end.
Proof.
  unfold below. destruct x as [s | s | | s m e], y as [s' | s' | | s' m' e']; cbn; try done; intros _ _.
  - destruct s'; cbn; lia.
  - destruct s'; cbn; lia.
  - destruct s; cbn; lia.
  - destruct s, s'; cbn; try done; lia.
  - destruct s, s'; cbn; lia.
  - destruct s; cbn; lia.
  - destruct s, s'; cbn; lia.
  - change (Pos.compare_cont Eq m m') with (Pos.compare m m').
    destruct s, s'; cbn; try lia; destruct (Z.compare_spec e e') as [-> | |]; cbn; try lia; destruct (Pos.compare_spec m m') as [-> | |]; cbn; try done; lia.
Qed.

Lemma f64_le_place x y : is_nan x = false -> is_nan y = false -> f64_le x y = true <-> ~ below (place y) (place x).
Proof.
  intros Hx Hy. pose proof (compare_places x y Hx Hy) as H. unfold f64_le, SFleb, below in *.
  destruct (SFcompare x y) as [[] |]; [rewrite H | | |]; split; try done; lia.
Qed.

Lemma f64_lt_place x y : is_nan x = false -> is_nan y = false -> f64_lt x y = true <-> below (place x) (place y).
Proof.
  intros Hx Hy. pose proof (compare_places x y Hx Hy) as H. unfold f64_lt, SFltb, below in *.
  destruct (SFcompare x y) as [[] |]; [rewrite H | | |]; split; try done; lia.
Qed.

Lemma finite_no_nan x : is_finite x = true -> is_nan x = false.
Proof. by destruct x. Qed.

Lemma f64_le_trans x y z : is_nan x = false -> is_nan y = false -> is_nan z = false -> f64_le x y = true -> f64_le y z = true -> f64_le x z = true.
Proof. intros Hx Hy Hz. rewrite !f64_le_place by done. unfold below. lia. Qed.

Lemma not_lt_le x y : is_nan x = false -> is_nan y = false -> f64_lt x y = false -> f64_le y x = true.
Proof. intros Hx Hy H. rewrite f64_le_place by done. intros Hb. apply (f64_lt_place x y) in Hb; congruence. Qed.

Lemma lt_le x y : is_nan x = false -> is_nan y = false -> f64_lt x y = true -> f64_le x y = true.
Proof. intros Hx Hy. rewrite f64_le_place, f64_lt_place by done. unfold below. lia. Qed.

(** ** [v.sort_by(|a, b| a.partial_cmp(b).unwrap_or(Equal))] of finite values *)

Fixpoint sort_in (x : f64) (l : list f64) : list f64 :=
  match l with
  | [] => [x]
  | y :: l' => if f64_lt x y then x :: l else y :: sort_in x l'
  end.
Definition sort_by (l : list f64) : list f64 := fold_left (fun s x => sort_in x s) l [].

Definition rising : list f64 -> Prop := Sorted (fun x y => f64_le x y = true).

Lemma sort_in_perm x l : sort_in x l ≡ₚ x :: l.
Proof. induction l as [| y l IH]; cbn; [done |]. destruct (f64_lt x y); [done |]. rewrite IH. apply Permutation_swap. Qed.

Lemma sort_in_rising x l : Forall (fun y => is_nan y = false) (x :: l) -> rising l -> rising (sort_in x l).
Proof.
  intros Hn Hs. apply List.Forall_cons_iff in Hn as [Hx Hn]. induction Hs as [| y l Hs IH Hy]; cbn; [repeat constructor |].
  apply List.Forall_cons_iff in Hn as [Hny Hn]. destruct (f64_lt x y) eqn:E.
  - constructor; [by constructor |]. constructor. by apply lt_le.
  - constructor; [by apply IH |]. apply not_lt_le in E; [| done | done].
    destruct l as [| z l]; cbn; [by constructor |]. destruct (f64_lt x z); constructor; [done |]. by inversion Hy.
Qed.

Lemma sort_by_spec l : Forall (fun y => is_nan y = false) l -> sort_by l ≡ₚ l /\ rising (sort_by l).
Proof.
  intros Hl. unfold sort_by. assert (Hgen : forall s, Forall (fun y => is_nan y = false) s -> rising s ->
    fold_left (fun s x => sort_in x s) l s ≡ₚ l ++ s /\ rising (fold_left (fun s x => sort_in x s) l s)).
  { induction Hl as [| x l Hx Hl IH]; intros s Hs Hr; [done |]. cbn. destruct (IH (sort_in x s)) as [H1 H2].
    - rewrite sort_in_perm. by constructor.
    - apply sort_in_rising; [by constructor | done].
    - split; [| done]. rewrite H1, sort_in_perm. symmetry. apply Permutation_middle. }
  destruct (Hgen [] ltac:(done) ltac:(constructor)) as [H1 H2]. by rewrite app_nil_r in H1.
Qed.
