(* ===== verification/Calib.v ===== *)
(** * Calib: the scan of recorded frames, and the table of pedestals

    Models [src/calib/mod.rs] and [src/calib/pedestal.rs]: files of frames are cut by the
    framer, decoded, and each fragment is handed on with the number of its file; the
    pedestal of a channel is the mean and the deviation of all its samples.  A file is
    what its reads give.  A [BTreeMap] is a finite map that is walked in the order of its
    keys.  Warnings on the screen, the time of day and JSON are left out. *)

From Stdlib Require Import SpecFloat.
From stdpp Require Import gmap list sorting strings.
From S2P Require Import Prelude Bytes Msg Framer Decode Float FloatFacts Geometry Display.
Open Scope list_scope.
Open Scope Z_scope.

(** ** Channels *)

Definition ChKey : Type := (Z * Z * Z)%type.

Definition AGET_PER_ASAD : Z := AGET_CHIPS_PER_ASAD.

Definition is_fpn (raw_ch : Z) : bool := negb (bool_decide (raw_ch ∈ REORDER_FROM_GEOMETRY_TO_GRAW)).

Definition key_le (a b : ChKey) : Prop := a.1.1 < b.1.1 \/ (a.1.1 = b.1.1 /\ (a.1.2 < b.1.2 \/ (a.1.2 = b.1.2 /\ a.2 <= b.2))).
Definition key_lt (a b : ChKey) : Prop := key_le a b /\ a <> b.

#[export] Instance key_le_dec : RelDecision key_le.
Proof. intros a b. unfold key_le. apply _. Defined.

#[export] Instance key_le_total : Total key_le.
Proof. intros a b. unfold key_le. lia. Qed.

#[export] Instance key_le_trans : Transitive key_le.
Proof. intros a b c. unfold key_le. lia. Qed.

Lemma key_le_antisym a b : key_le a b -> key_le b a -> a = b.
Proof. destruct a as [[a1 a2] a3], b as [[b1 b2] b3]. unfold key_le. cbn. intros. f_equal; [f_equal |]; lia. Qed.

(** [into_iter()] of a [BTreeMap]. *)
Definition entry_le {A : Type} (p q : ChKey * A) : Prop := key_le p.1 q.1.

#[export] Instance entry_le_dec {A : Type} : RelDecision (@entry_le A).
Proof. intros a b. unfold entry_le. apply _. Defined.

Definition in_order {A : Type} (m : gmap ChKey A) : list (ChKey * A) := merge_sort entry_le (map_to_list m).

(** ** The errors, the tables' head *)

Inductive CalibError : Type :=
| Read (path source : string)
| Write (path source : string)
| JsonEncode (path source : string)
| JsonDecode (path source : string)
| NoInputFiles.

Record Meta : Type := mkMeta {
  inputs : list string;
  events : Z;
  generated_at : string;
  tool_version : string;
}.

(** ** The scan: [scan_files] *)

Inductive ReadResult : Type :=
| Data (bs : bytes)
| ReadFailed (e : string).

Record Input : Type := mkInput {
  path : string;
  opened : result (list ReadResult) string;
}.

Record ScanStats : Type := mkStats {
  scanned : Z;
  scan_malformed : Z;
  scan_unsupported : Z;
  scan_events : Z;
}.

Section Scan.
Context {A : Type} (on_frag : Z -> Fragment -> A -> A).

Record Scan : Type := mkScan {
  decoder : Decoder;
  seen_events : gset Z;
  state : A;
}.

(** [while let Some(frame) = framer.next()]. *)
Fixpoint take_frames (fuel : nat) (file_idx : Z) (f : Framer) (s : Scan) : rust (Framer * Scan) :=
  match fuel with
  | O => OutOfFuel
  | S fuel =>
      let! (frame, f) := Framer.next f in
      match frame with
      | None => Val (f, s)
      | Some frame =>
          let! (frag, d) := Decode.decode (decoder s) frame in
          match frag with
          | Some frag => take_frames fuel file_idx f (mkScan d ({[event_idx frag]} ∪ seen_events s) (on_frag file_idx frag (state s)))
          | None => take_frames fuel file_idx f (mkScan d (seen_events s) (state s))
          end
      end
  end.

(** Until a read gives nothing. *)
Fixpoint read_file (file_idx : Z) (path : string) (reads : list ReadResult) (f : Framer) (s : Scan) : rust (result Scan CalibError) :=
  match reads with
  | [] => Val (Ok s)
  | ReadFailed e :: _ => Val (Err (Read path e))
  | Data bs :: reads =>
      if len bs =? 0 then Val (Ok s)
      else
        let! f := Framer.push f bs in
        let! (f, s) := take_frames (S (length (buf f))) file_idx f s in
        read_file file_idx path reads f s
  end.

Fixpoint scan_from (file_idx : Z) (files : list Input) (s : Scan) : rust (result Scan CalibError) :=
  match files with
  | [] => Val (Ok s)
  | f :: files =>
      match opened f with
      | Err e => Val (Err (Read (path f) e))
      | Ok reads =>
          let! r := read_file file_idx (path f) reads Framer.new s in
          match r with
          | Err e => Val (Err e)
          | Ok s => scan_from (file_idx + 1) files s
          end
      end
  end.

Definition scan_files (files : list Input) (a : A) : rust (result (A * ScanStats) CalibError) :=
  match files with
  | [] => Val (Err NoInputFiles)
  | _ =>
      let! r := scan_from 0 files (mkScan Decode.new ∅ a) in
      match r with
      | Err e => Val (Err e)
      | Ok s => Val (Ok (state s, mkStats (Decode.frames (decoder s)) (Decode.malformed (decoder s)) (Decode.unsupported (decoder s)) (Z.of_nat (size (seen_events s)))))
      end
  end.

(** ** What is handed on *)

(** The bytes of a file are whole frames and perhaps the beginning of one, however they
    are read. *)
Definition holds (f : Input) (fs : list bytes) : Prop :=
  exists cs tail, opened f = Ok (map Data cs) /\ Forall is_bytes cs /\ Forall (fun c => c <> []) cs /\
    Forall (well_formed DEFAULT_MAX_FRAME_BYTES) fs /\ Framer.incomplete DEFAULT_MAX_FRAME_BYTES tail /\ concat cs = concat fs ++ tail.

Fixpoint frags_from (file_idx : Z) (fss : list (list bytes)) : list (Z * Fragment) :=
  match fss with
  | [] => []
  | fs :: fss => map (pair file_idx) (omap frag_of fs) ++ frags_from (file_idx + 1) fss
  end.

Definition scan_step (file_idx : Z) (s : Scan) (frame : bytes) : Scan :=
  let d := snd (decode_ref (decoder s) frame) in
  match frag_of frame with
  | Some frag => mkScan d ({[event_idx frag]} ∪ seen_events s) (on_frag file_idx frag (state s))
  | None => mkScan d (seen_events s) (state s)
  end.

Lemma take_frames_steps fuel i : forall f s fs f', drain_fuel fuel f = Val (fs, f') -> Forall is_bytes fs ->
  take_frames fuel i f s = Val (f', fold_left (scan_step i) fs s).
Proof.
  induction fuel as [| fuel IH]; intros f s fs f' H Hb; [done |]. cbn [drain_fuel take_frames] in *.
  destruct (Framer.next f) as [[[frame |] f1] | |]; cbn [rust_bind] in *; [| by injection H as <- <- | done | done].
  destruct (drain_fuel fuel f1) as [[fs1 f2] | |] eqn:E; cbn [rust_bind] in H; [| done | done]. injection H as <- <-.
  apply List.Forall_cons_iff in Hb as [Hb Hbs]. rewrite decode_is_ref by done. cbn [fold_left]. unfold scan_step at 2.
  rewrite <- (decode_ref_frag (decoder s)). destruct (decode_ref (decoder s) frame) as [[frag |] d]; cbn; by apply IH.
Qed.

Lemma read_file_steps i p cs : forall f s fs f', feed_all f cs = Val (fs, f') -> Forall is_bytes fs -> Forall (fun c => c <> []) cs ->
  read_file i p (map Data cs) f s = Val (Ok (fold_left (scan_step i) fs s)).
Proof.
  induction cs as [| c cs IH]; intros f s fs f' H Hb Hc; cbn [feed_all map read_file] in *; [by injection H as <- <- |].
  apply List.Forall_cons_iff in Hc as [Hc Hcs]. destruct (len c =? 0) eqn:E; [destruct c as [| b c]; [done |]; rewrite len_cons in E; pose proof (len_nonneg c); lia |].
  unfold feed, drain in H. destruct (Framer.push f c) as [f1 | |]; cbn [rust_bind] in *; [| done | done].
  destruct (drain_fuel (S (length (buf f1))) f1) as [[fs1 f2] | |] eqn:Ed; cbn [rust_bind] in H; [| done | done].
  destruct (feed_all f2 cs) as [[fs2 f3] | |] eqn:Ef; cbn [rust_bind] in H; [| done | done]. injection H as <- <-.
  apply List.Forall_app in Hb as [Hb1 Hb2]. rewrite (take_frames_steps _ i f1 s fs1 f2) by done. cbn [rust_bind].
  rewrite (IH f2 _ fs2 f3) by done. by rewrite fold_left_app.
Qed.

Lemma holds_steps i f fs s : holds f fs ->
  exists reads, opened f = Ok reads /\ read_file i (path f) reads Framer.new s = Val (Ok (fold_left (scan_step i) fs s)).
Proof.
  intros (cs & tail & Ho & Hb & Hc & Hw & Ht & E). exists (map Data cs). split; [done |].
  destruct (feed_all_stream DEFAULT_MAX_FRAME_BYTES tail cs Framer.new fs) as (f' & Hf & _ & _); try done; [by left |].
  apply (read_file_steps i (path f) cs _ s fs f'); [done | | done].
  assert (Hall : is_bytes (concat fs ++ tail)) by (rewrite <- E; by apply Forall_concat).
  apply List.Forall_app in Hall as [Hall _]. by apply Forall_concat in Hall.
Qed.

(** After some frames: the fragments were handed on in order, the events are theirs, each
    frame is counted. *)
Lemma steps_spec i fs : forall s, let s' := fold_left (scan_step i) fs s in let out := omap frag_of fs in
  state s' = fold_left (fun a frag => on_frag i frag a) out (state s) /\
  seen_events s' = list_to_set (map event_idx out) ∪ seen_events s /\
  Decode.frames (decoder s') = Decode.frames (decoder s) + len out /\ counted (decoder s') = counted (decoder s) + len fs.
Proof.
  induction fs as [| frame fs IH]; intros s; cbn [fold_left omap list_omap]; [cbn; split_and!; [done | set_solver | by rewrite Z.add_0_r | by rewrite Z.add_0_r] |].
  cbv zeta in *. destruct (IH (scan_step i s frame)) as (H1 & H2 & H3 & H4). rewrite H1, H2, H3, H4. unfold scan_step.
  pose proof (decode_ref_accounting (decoder s) frame) as Hc. rewrite <- (decode_ref_frag (decoder s)).
  destruct (decode_ref (decoder s) frame) as [[frag |] d]; cbn [fst snd decoder state seen_events fold_left map list_to_set] in *;
    rewrite ?len_cons; split_and!; try done; try lia; set_solver.
Qed.

Lemma scan_from_spec files fss : Forall2 holds files fss -> forall i s, exists s', scan_from i files s = Val (Ok s') /\
  state s' = fold_left (fun a p => on_frag p.1 p.2 a) (frags_from i fss) (state s) /\
  seen_events s' = list_to_set (map (fun p => event_idx p.2) (frags_from i fss)) ∪ seen_events s /\
  Decode.frames (decoder s') = Decode.frames (decoder s) + len (frags_from i fss) /\
  counted (decoder s') = counted (decoder s) + len (concat fss).
Proof.
  induction 1 as [| f fs files fss Hf _ IH]; intros i s; [exists s; cbn; split_and!; [done | done | set_solver | by rewrite Z.add_0_r | by rewrite Z.add_0_r] |].
  destruct (holds_steps i f fs s Hf) as (reads & Ho & Hr). cbn [scan_from frags_from concat]. rewrite Ho, Hr. cbn [rust_bind].
  destruct (steps_spec i fs s) as (H1 & H2 & H3 & H4). cbv zeta in *. destruct (IH (i + 1) (fold_left (scan_step i) fs s)) as (s' & E & I1 & I2 & I3 & I4).
  exists s'. split; [done |]. rewrite I1, I2, I3, I4, H1, H2, H3, H4, !len_app, map_app, list_to_set_app_L, fold_left_app. split_and!.
  - f_equal. clear. generalize (state s). induction (omap frag_of fs) as [| frag l IH]; intros a; cbn; [done | apply IH].
  - rewrite map_map. cbn. set_solver.
  - unfold len. rewrite length_map. lia.
  - lia.
Qed.

Lemma scan_files_spec files fss a : files <> [] -> Forall2 holds files fss -> exists malformed unsupported,
  let out := frags_from 0 fss in
  malformed + unsupported = len (concat fss) - len out /\
  scan_files files a = Val (Ok (fold_left (fun a p => on_frag p.1 p.2 a) out a,
    mkStats (len out) malformed unsupported (Z.of_nat (size (list_to_set (map (fun p => event_idx p.2) out) : gset Z))))).
Proof.
  intros Hne H. destruct (scan_from_spec files fss H 0 (mkScan Decode.new ∅ a)) as (s' & E & H1 & H2 & H3 & H4).
  exists (Decode.malformed (decoder s')), (Decode.unsupported (decoder s')). cbv zeta. unfold counted in H4. cbn in *. split; [lia |].
  unfold scan_files. destruct files; [done |]. rewrite E. cbn [rust_bind]. rewrite H1, H3, H2, union_empty_r_L. done.
Qed.
End Scan.

(** ** What is added up channel by channel *)
Section Accumulate.
Context {V B : Type} (zero : B) (add : B -> V -> Z -> B).

(** A value of a channel in a file. *)
Definition add_at (m : gmap ChKey B) (s : Z * ChKey * V) : gmap ChKey B :=
  <[s.1.2 := add (default zero (m !! s.1.2)) s.2 s.1.1]> m.

(** Those of one channel, each with its file. *)
Definition of_channel (key : ChKey) (ss : list (Z * ChKey * V)) : list (Z * V) :=
  omap (fun s => if bool_decide (s.1.2 = key) then Some (s.1.1, s.2) else None) ss.

Definition total_of (l : list (Z * V)) (a : B) : B := fold_left (fun a p => add a p.2 p.1) l a.

Lemma values_lookup ss key : forall m, fold_left add_at ss m !! key =
  match of_channel key ss with [] => m !! key | l => Some (total_of l (default zero (m !! key))) end.
Proof.
  induction ss as [| [[i k] x] ss IH]; intros m; [done |]. cbn [fold_left of_channel omap list_omap fst snd]. rewrite IH. unfold add_at at 1 2. cbn [fst snd].
  destruct (decide (k = key)) as [-> | Hne].
  - rewrite bool_decide_true by done. rewrite lookup_insert_eq. cbn [total_of fold_left default fst snd]. fold (of_channel key ss). by destruct (of_channel key ss).
  - rewrite bool_decide_false by done. by rewrite lookup_insert_ne.
Qed.
End Accumulate.

(** ** The pedestals: [compute] of [pedestal.rs] *)

Record PedestalRow : Type := mkRow {
  channel : PedestalChannel;
  rms : f64;
  ped_runs : Z;
  ped_is_fpn : bool;
}.
Definition row_key (r : PedestalRow) : ChKey := (ped_ch_asad (channel r), ped_ch_aget (channel r), ped_ch_ch (channel r)).

Record PedestalTable : Type := mkPedTable {
  ped_meta : Meta;
  ped_channels : list PedestalRow;
}.

Record Accum : Type := mkAccum {
  acc_n : Z;
  acc_sum : Z;
  acc_sum_sq : Z;
  acc_files : gset Z;
}.
Definition no_accum : Accum := mkAccum 0 0 0 ∅.

Definition accum_add (a : Accum) (adc file_idx : Z) : Accum :=
  mkAccum (acc_n a + 1) (acc_sum a + adc) (acc_sum_sq a + adc * adc) ({[file_idx]} ∪ acc_files a).
Definition accum_mean (a : Accum) : f64 := f64_div (f64_of_Z (acc_sum a)) (f64_of_Z (acc_n a)).
Definition accum_rms (a : Accum) : f64 :=
  let n := f64_of_Z (acc_n a) in
  let m := f64_div (f64_of_Z (acc_sum a)) n in
  let var := f64_sub (f64_div (f64_of_Z (acc_sum_sq a)) n) (f64_mul m m) in
  if Float.f64_le var (f64_of_Z 0) then f64_of_Z 0 else f64_sqrt var.

(** [accum.entry(key).or_default().add(it.adc, file_idx)]. *)
Definition add_word (file_idx asad : Z) (m : gmap ChKey Accum) (word : Z) : gmap ChKey Accum :=
  let it := unpack_item word in
  let key := (asad, item_aget it, item_chan it) in
  <[key := accum_add (default no_accum (m !! key)) (item_adc it) file_idx]> m.

Definition pedestal_frag (file_idx : Z) (frag : Fragment) (m : gmap ChKey Accum) : gmap ChKey Accum :=
  match items_from_bytes (items frag) with
  | Ok ws => fold_left (add_word file_idx (asad frag)) ws m
  | Err _ => m
  end.

Definition pedestal_row (p : ChKey * Accum) : PedestalRow :=
  let '((asad, aget, ch), a) := p in
  mkRow (mkPedChannel asad aget ch (accum_mean a)) (accum_rms a) (wrap 32 (Z.of_nat (size (acc_files a)))) (is_fpn ch).

Definition pedestal_compute (now version : string) (files : list Input) : rust (result PedestalTable CalibError) :=
  let! r := scan_files pedestal_frag files ∅ in
  match r with
  | Err e => Val (Err e)
  | Ok (accum, stats) =>
      Val (Ok (mkPedTable (mkMeta (map path files) (scan_events stats) now version) (map pedestal_row (in_order accum))))
  end.

(** *** The samples *)

Definition words (frag : Fragment) : list Z := match items_from_bytes (items frag) with Ok ws => ws | Err _ => [] end.

(** Every sample of the files: the file, the channel, the value. *)
Definition samples (out : list (Z * Fragment)) : list (Z * ChKey * Z) :=
  flat_map (fun p => map (fun w => let it := unpack_item w in (p.1, (asad p.2, item_aget it, item_chan it), item_adc it)) (words p.2)) out.

Lemma pedestal_frags out m :
  fold_left (fun m p => pedestal_frag p.1 p.2 m) out m = fold_left (add_at no_accum accum_add) (samples out) m.
Proof.
  revert m. induction out as [| [i frag] out IH]; intros m; cbn [fold_left samples flat_map]; [done |]. rewrite fold_left_app. fold (samples out). rewrite <- IH. f_equal.
  unfold pedestal_frag, words. cbn [fst snd]. destruct (items_from_bytes (items frag)) as [ws | e]; [| done]. clear. revert m.
  induction ws as [| w ws IH]; intros m; cbn [fold_left map]; [done |]. apply IH.
Qed.

Definition adcs (l : list (Z * Z)) : list Z := map snd l.

Lemma total_of_spec l a : total_of accum_add l a =
  mkAccum (acc_n a + len l) (acc_sum a + foldr Z.add 0 (adcs l)) (acc_sum_sq a + foldr Z.add 0 (map (fun x => x * x) (adcs l))) (list_to_set (map fst l) ∪ acc_files a).
Proof.
  revert a. induction l as [| [i x] l IH]; intros a; cbn [total_of fold_left adcs map foldr].
  - destruct a as [c t q fs]. cbn [acc_n acc_sum acc_sum_sq acc_files list_to_set]. unfold len. cbn [length Z.of_nat]. f_equal; [lia | lia | lia | set_solver].
  - change (fold_left (fun a p => accum_add a p.2 p.1) l _) with (total_of accum_add l (accum_add a x i)). rewrite IH, len_cons. unfold accum_add, adcs. cbn. f_equal; [lia | lia | lia | set_solver].
Qed.

(** *** The rows *)

Lemma in_order_perm {A : Type} (m : gmap ChKey A) : in_order m ≡ₚ map_to_list m.
Proof. apply merge_sort_Permutation. Qed.

Lemma in_order_elem {A : Type} (m : gmap ChKey A) k a : (k, a) ∈ in_order m <-> m !! k = Some a.
Proof. rewrite in_order_perm. apply elem_of_map_to_list. Qed.

Lemma in_order_key {A : Type} (m : gmap ChKey A) k : k ∈ map fst (in_order m) <-> is_Some (m !! k).
Proof.
  split.
  - intros Hin. apply list_elem_of_In, in_map_iff in Hin as ([k' a] & <- & Hin). apply list_elem_of_In, in_order_elem in Hin. by exists a.
  - intros [a Ha]. apply in_order_elem, list_elem_of_In in Ha. apply list_elem_of_In. exact (in_map fst _ _ Ha).
Qed.

#[export] Instance entry_le_total {A : Type} : Total (@entry_le A).
Proof. intros p q. unfold entry_le. apply (total key_le). Qed.

#[export] Instance entry_le_trans {A : Type} : Transitive (@entry_le A).
Proof. intros p q r. unfold entry_le. apply (transitivity (R := key_le)). Qed.

(** The keys rise. *)
Lemma in_order_rising {A : Type} (m : gmap ChKey A) : StronglySorted key_lt (map fst (in_order m)).
Proof.
  assert (Hs : StronglySorted entry_le (in_order m)) by (apply Sorted_StronglySorted; [apply _ | apply (Sorted_merge_sort entry_le)]).
  assert (Hd : NoDup (map fst (in_order m))).
  { assert (P : map fst (in_order m) ≡ₚ map fst (map_to_list m)) by (apply Permutation_map, in_order_perm). rewrite P. apply NoDup_fst_map_to_list. }
  induction Hs as [| [k a] l Hs IH Hl]; cbn [map fst] in *; [constructor |]. apply list.NoDup_cons in Hd as [Hk Hd]. constructor; [by apply IH |].
  apply list.Forall_forall. intros k' Hin. pose proof (proj1 (list.Forall_forall _ _) Hl) as Hle. split.
  - apply list_elem_of_In, in_map_iff in Hin as ([k2 a2] & <- & Hin). apply list_elem_of_In in Hin. apply (Hle _ Hin).
  - intros ->. done.
Qed.

Lemma fpn_channels raw : 0 <= raw < 68 -> is_fpn raw = true <-> raw ∈ [11; 22; 45; 56].
Proof.
  intros Hr. assert (H : forallb (fun n => Bool.eqb (is_fpn (Z.of_nat n)) (bool_decide (Z.of_nat n ∈ [11; 22; 45; 56]))) (List.seq 0 68) = true) by (by vm_compute).
  rewrite forallb_forall in H. specialize (H (Z.to_nat raw)). rewrite Z2Nat.id in H by lia. assert (Hin : In (Z.to_nat raw) (List.seq 0 68)) by (apply in_seq; lia).
  specialize (H Hin). apply eqb_prop in H. rewrite H. apply bool_decide_eq_true.
Qed.

(** The samples of a channel in the files. *)
Definition channel_samples (key : ChKey) (fss : list (list bytes)) : list (Z * Z) := of_channel key (samples (frags_from 0 fss)).

Lemma row_key_of p : row_key (pedestal_row p) = p.1.
Proof. by destruct p as [[[? ?] ?] ?]. Qed.

Lemma row_keys (ps : list (ChKey * Accum)) : map row_key (map pedestal_row ps) = map fst ps.
Proof. rewrite map_map. apply map_ext. apply row_key_of. Qed.

Lemma accums_lookup fss key : fold_left (fun m p => pedestal_frag p.1 p.2 m) (frags_from 0 fss) ∅ !! key =
  match channel_samples key fss with [] => None | l => Some (total_of accum_add l no_accum) end.
Proof. rewrite pedestal_frags, values_lookup, lookup_empty. done. Qed.

(** The table of pedestals is the same however the files are read: one row for each channel
    that has a sample, in rising order; its mean is the sum of its samples over their
    number, correctly rounded, its deviation is that of the sums, its runs are the files
    it has a sample in; the events are the different numbers of the fragments, and the
    tool neither panics nor fails. *)
Lemma pedestal_rows now version files fss : files <> [] -> Forall2 holds files fss ->
  exists table, pedestal_compute now version files = Val (Ok table) /\
    StronglySorted key_lt (map row_key (ped_channels table)) /\
    (forall key, key ∈ map row_key (ped_channels table) <-> channel_samples key fss <> []) /\
    (forall r, r ∈ ped_channels table -> let l := channel_samples (row_key r) fss in
      mean (channel r) = f64_div (f64_of_Z (foldr Z.add 0 (adcs l))) (f64_of_Z (len l)) /\
      rms r = accum_rms (mkAccum (len l) (foldr Z.add 0 (adcs l)) (foldr Z.add 0 (map (fun x => x * x) (adcs l))) ∅) /\
      ped_runs r = wrap 32 (Z.of_nat (size (list_to_set (map fst l) : gset Z))) /\ ped_is_fpn r = is_fpn (ped_ch_ch (channel r))) /\
    ped_meta table = mkMeta (map path files)
      (Z.of_nat (size (list_to_set (map (fun p => event_idx p.2) (frags_from 0 fss)) : gset Z))) now version.
Proof.
  intros Hne H. destruct (scan_files_spec pedestal_frag files fss ∅ Hne H) as (bad & other & _ & E). cbv zeta in E.
  set (m := fold_left _ _ _) in E. assert (Hm : forall key, m !! key = match channel_samples key fss with [] => None | l => Some (total_of accum_add l no_accum) end).
  { intros key. apply accums_lookup. }
  clearbody m. unfold pedestal_compute. rewrite E. cbn [rust_bind]. eexists. split; [reflexivity |]. cbn [ped_channels ped_meta scan_events].
  split_and!; [rewrite row_keys; apply in_order_rising | | | done].
  - intros key. rewrite row_keys, in_order_key, Hm. destruct (channel_samples key fss); by split.
  - intros r Hin. apply list_elem_of_In, in_map_iff in Hin as ([k a] & <- & Hin). apply list_elem_of_In, in_order_elem in Hin.
    rewrite row_key_of. cbn [fst]. rewrite Hm in Hin.
    assert (Ha : a = total_of accum_add (channel_samples k fss) no_accum) by (destruct (channel_samples k fss); congruence). clear Hin. subst a.
    rewrite total_of_spec. destruct k as [[asad aget] ch]. unfold no_accum. cbn [acc_n acc_sum acc_sum_sq acc_files].
    rewrite !Z.add_0_l, union_empty_r_L. done.
Qed.

(** ** Examples *)
Module Sample.

Definition body : Body := Partial [mkItem 0 5 0 100; mkItem 0 5 1 104].
Definition frame : bytes := encode_frame (sample_header false) body.
Definition file : Input := mkInput "run.graw" (Ok [Data (take 40 frame); Data (drop 40 frame)]).

Lemma file_holds : holds file [frame].
Proof.
  exists [take 40 frame; drop 40 frame], []. split_and!.
  - reflexivity.
  - assert (H : is_bytes frame).
    { apply encode_frame_bytes, sample_header_ok. }
    constructor; [by apply Forall_take | constructor; [by apply Forall_drop | constructor]].
  - repeat constructor; discriminate.
  - repeat constructor; vm_compute; congruence.
  - left. reflexivity.
  - vm_compute. reflexivity.
Qed.

Example pedestal_of_frame :
  exists r, pedestal_compute "now" "1" [file] = Val (Ok (mkPedTable (mkMeta ["run.graw"%string] 1 "now" "1") [r])) /\
    row_key r = (2, 0, 5) /\ mean (channel r) = f64_of_Z 102 /\ rms r = f64_of_Z 2 /\ ped_runs r = 1 /\ ped_is_fpn r = false.
Proof. eexists. split; [vm_compute; reflexivity |]. by vm_compute. Qed.
End Sample.
