(* ===== verification/Pulser.v ===== *)
(** * Pulser: the heights of the test pulses, and the table of a calibration

    Models [src/calib/pulser.rs], the median and the deviation of [src/calib/mod.rs], and
    [src/calib/table.rs]: in each frame the height of a channel's pulse is its peak over
    the mean of its first buckets; the gain of a channel is the middle of its heights over
    the middle of all; the two tables are joined channel by channel, and what is out of
    the ordinary is flagged.  The four scratch vectors of a frame, which are indexed
    alike, are one vector of cells. *)

From Stdlib Require Import SpecFloat.
From stdpp Require Import gmap list sorting strings.
From S2P Require Import Prelude Bytes Msg Framer Decode Float FloatFacts Geometry Display Calib.
Open Scope list_scope.
Open Scope Z_scope.

(** ** The middle of some values *)

Definition NAN : f64 := S754_nan.

Definition finite_values (values : list f64) : list f64 := List.filter is_finite values.

(** [v[n / 2]] is in range when there is a value. *)
Definition median (values : list f64) : f64 :=
  let v := sort_by (finite_values values) in
  match v with
  | [] => NAN
  | _ =>
      let n := length v in
      if Nat.odd n then default NAN (v !! (n / 2)%nat)
      else f64_div (f64_add (default NAN (v !! (n / 2 - 1)%nat)) (default NAN (v !! (n / 2)%nat))) (f64_of_Z 2)
  end.

Definition mad (values : list f64) (med : f64) : f64 :=
  median (map (fun x => f64_abs (f64_sub x med)) (finite_values values)).

(** The middle of the values in order, or half the sum of the two. *)
Definition is_middle (vs : list f64) (m : f64) : Prop :=
  exists v, v ≡ₚ vs /\ rising v /\
    if Nat.odd (length v) then v !! (length v / 2)%nat = Some m
    else exists a b, v !! (length v / 2 - 1)%nat = Some a /\ v !! (length v / 2)%nat = Some b /\ m = f64_div (f64_add a b) (f64_of_Z 2).

Lemma median_middle values : finite_values values <> [] -> is_middle (finite_values values) (median values).
Proof.
  intros Hne. unfold median. set (fin := finite_values values) in *.
  assert (Hf : Forall (fun y => is_nan y = false) fin).
  { apply list.Forall_forall. intros y Hy. apply list_elem_of_In, filter_In in Hy as [_ Hy]. by apply finite_no_nan. }
  destruct (sort_by_spec fin Hf) as [Hp Hs]. exists (sort_by fin). split_and!; [done | done |].
  assert (Hl : length (sort_by fin) = length fin) by exact (Permutation_length Hp).
  assert (0 < length fin)%nat by (destruct fin; [done | cbn; lia]).
  assert (Em : forall x : f64, match sort_by fin with [] => NAN | _ => x end = x) by (intros x; destruct (sort_by fin); [cbn in Hl; lia | done]).
  rewrite Em. clear Em.
  assert (Hd : (length (sort_by fin) / 2 < length (sort_by fin))%nat) by (apply Nat.div_lt; lia).
  destruct (lookup_lt_is_Some_2 _ _ Hd) as [b Hb]. destruct (Nat.odd _) eqn:Eo; [by rewrite Hb |].
  assert (Hd1 : (length (sort_by fin) / 2 - 1 < length (sort_by fin))%nat) by lia.
  destruct (lookup_lt_is_Some_2 _ _ Hd1) as [a Ha]. exists a, b. by rewrite !Ha, !Hb.
Qed.

(** The middle of the values that are finite; no number if none is. *)
Definition middle_of (l : list f64) (m : f64) : Prop :=
  match List.filter is_finite l with
  | [] => m = NAN
  | vs => is_middle vs m
  end.

(** The middle of the distances from [m]. *)
Definition spread_of (l : list f64) (m d : f64) : Prop := middle_of (map (fun x => f64_abs (f64_sub x m)) (List.filter is_finite l)) d.

Lemma median_is_middle l : middle_of l (median l).
Proof.
  unfold middle_of. pose proof (median_middle l) as H. unfold finite_values in H. destruct (List.filter is_finite l) eqn:E; [| by apply H].
  unfold median, finite_values. by rewrite E.
Qed.

Lemma mad_is_spread l m : spread_of l m (mad l m).
Proof. apply median_is_middle. Qed.

(** ** One frame *)

Definition BASELINE_END : Z := 64.
Definition ADC_FULL_SCALE : Z := 4095.
Definition PER_FRAME : Z := AGET_PER_ASAD * Geometry.RAW_CH_PER_AGET.

Record Cell : Type := mkCell {
  base_sum : f64;
  base_n : Z;
  peak : Z;
  cell_seen : bool;
}.
Definition no_cell : Cell := mkCell (f64_of_Z 0) 0 0 false.
Definition no_cells : list Cell := repeat no_cell (Z.to_nat PER_FRAME).

Definition slot (word : Z) : Z := let it := unpack_item word in item_aget it * Geometry.RAW_CH_PER_AGET + item_chan it.

Definition cell_add (word : Z) (c : Cell) : Cell :=
  let it := unpack_item word in
  let '(s, n) := if item_bucket it <? BASELINE_END then (f64_add (base_sum c) (f64_of_Z (item_adc it)), base_n c + 1) else (base_sum c, base_n c) in
  mkCell s n (if peak c <? item_adc it then item_adc it else peak c) true.

(** [seen.get_mut(k)]: a slot out of range is passed over. *)
Definition take_word (cells : list Cell) (word : Z) : list Cell := alter (cell_add word) (Z.to_nat (slot word)) cells.

Record PulseAccum : Type := mkPulses {
  amps : list f64;
  saturated_events : Z;
  pulse_files : gset Z;
}.
Definition no_pulses : PulseAccum := mkPulses [] 0 ∅.

Definition add_pulse (a : PulseAccum) (p : f64 * bool) (file_idx : Z) : PulseAccum :=
  mkPulses (amps a ++ [p.1]) (if p.2 then saturated_events a + 1 else saturated_events a) ({[file_idx]} ∪ pulse_files a).

(** The height of the pulse, and whether the peak is at full scale. *)
Definition pulse_of (c : Cell) : option (f64 * bool) :=
  if negb (cell_seen c) || (base_n c =? 0) then None
  else let baseline := f64_div (base_sum c) (f64_of_Z (base_n c)) in
       Some (f64_sub (f64_of_Z (peak c)) baseline, ADC_FULL_SCALE <=? peak c).

Fixpoint close_cells (file_idx asad k : Z) (cells : list Cell) (m : gmap ChKey PulseAccum) : gmap ChKey PulseAccum :=
  match cells with
  | [] => m
  | c :: cells =>
      let key := (asad, wrap 8 (k / Geometry.RAW_CH_PER_AGET), wrap 8 (k mod Geometry.RAW_CH_PER_AGET)) in
      close_cells file_idx asad (k + 1) cells
        match pulse_of c with
        | None => m
        | Some p => <[key := add_pulse (default no_pulses (m !! key)) p file_idx]> m
        end
  end.

Definition pulser_frag (file_idx : Z) (frag : Fragment) (m : gmap ChKey PulseAccum) : gmap ChKey PulseAccum :=
  match items_from_bytes (items frag) with
  | Ok ws => close_cells file_idx (asad frag) 0 (fold_left take_word ws no_cells) m
  | Err _ => m
  end.

(** ** The table *)

Record PulserChannel : Type := mkPulserChannel {
  pu_asad : Z;
  pu_aget : Z;
  pu_ch : Z;
  pu_is_fpn : bool;
  amplitude_median : f64;
  relative_gain : option f64;
  saturated : f64;
  pu_runs : Z;
}.
Definition pulser_key (c : PulserChannel) : ChKey := (pu_asad c, pu_aget c, pu_ch c).

Record PulserTable : Type := mkPulserTable {
  pu_meta : Meta;
  pu_channels : list PulserChannel;
}.

Definition signal_medians (accum : gmap ChKey PulseAccum) : list f64 :=
  map (fun p => median (amps p.2)) (List.filter (fun p => negb (is_fpn p.1.2)) (in_order accum)).

Definition pulser_row (global_median : f64) (p : ChKey * PulseAccum) : PulserChannel :=
  let '((asad, aget, ch), a) := p in
  let fpn := is_fpn ch in
  let amp_med := median (amps a) in
  let n := len (amps a) in
  mkPulserChannel asad aget ch fpn amp_med (if fpn then None else Some (f64_div amp_med global_median))
    (if n =? 0 then f64_of_Z 0 else f64_div (f64_of_Z (saturated_events a)) (f64_of_Z n)) (wrap 32 (Z.of_nat (size (pulse_files a)))).

Definition pulser_compute (now version : string) (files : list Input) : rust (result PulserTable CalibError) :=
  let! r := scan_files pulser_frag files ∅ in
  match r with
  | Err e => Val (Err e)
  | Ok (accum, stats) =>
      Val (Ok (mkPulserTable (mkMeta (map path files) (scan_events stats) now version)
        (map (pulser_row (median (signal_medians accum))) (in_order accum))))
  end.

(** ** The calibration: [merge] of [table.rs] *)

Definition DEAD_RMS_THRESHOLD : f64 := f64_of_decimal false 5 (-1).
Definition GAIN_OUT_MAD_K : f64 := f64_of_Z 2.
Definition THRESHOLD_NOISE_SIGMA : f64 := f64_of_Z 5.
Definition SATURATED_RATE_THRESHOLD : f64 := f64_of_decimal false 5 (-1).

Record CalibChannel : Type := mkCalibChannel {
  ca_asad : Z;
  ca_aget : Z;
  ca_ch : Z;
  fpn : bool;
  baseline : f64;
  noise : f64;
  gain : option f64;
  flags : list string;
  threshold_suggest : Z;
}.
Definition calib_key (c : CalibChannel) : ChKey := (ca_asad c, ca_aget c, ca_ch c).

Record MergeMeta : Type := mkMergeMeta {
  pedestal_inputs : list string;
  pulser_inputs : list string;
  pedestal_events : Z;
  pulser_events : Z;
  merged_at : string;
  merged_by : string;
  meta_k : f64;
  noise_signal_median : f64;
  noise_signal_mad : f64;
  noise_fpn_median : f64;
  noise_fpn_mad : f64;
  gain_median : f64;
  gain_mad : f64;
  saturated_rate_threshold : f64;
}.

Record CalibTable : Type := mkCalibTable {
  merge_meta : MergeMeta;
  calib_channels : list CalibChannel;
}.

(** [x.round() as i64]. *)
Definition round_i64 (x : f64) : Z :=
  match x with
  | S754_finite s m e => let n := round_magnitude (Zpos m) e in Z.max (- 2 ^ 63) (Z.min (2 ^ 63 - 1) (if s then - n else n))
  | S754_infinity s => if s then - 2 ^ 63 else 2 ^ 63 - 1
  | _ => 0
  end.

(** [collect()] into a [BTreeMap]: of rows of one key the last stays. *)
Definition by_key {A : Type} (key : A -> ChKey) (rows : list A) : gmap ChKey A := fold_left (fun m c => <[key c := c]> m) rows ∅.

Definition joined (pedestal : list PedestalRow) (pulser : list PulserChannel) : list (ChKey * PedestalRow * PulserChannel) :=
  omap (fun p => pu ← by_key pulser_key pulser !! p.1; Some (p.1, p.2, pu)) (in_order (by_key row_key pedestal)).

Definition flags_of (noise_med noise_mad gain_mad k : f64) (pc : PedestalRow) (pu : PulserChannel) : list string :=
  (if f64_gt (rms pc) (f64_add noise_med (f64_mul k noise_mad)) then ["noisy"] else []) ++
  (if f64_lt (rms pc) DEAD_RMS_THRESHOLD then ["dead"] else []) ++
  match relative_gain pu with
  | Some g => if f64_gt (f64_abs (f64_sub g (f64_of_Z 1))) (f64_mul GAIN_OUT_MAD_K gain_mad) then ["gain_out"] else []
  | None => []
  end ++
  (if f64_gt (saturated pu) SATURATED_RATE_THRESHOLD then ["saturated"] else [])%string.

Definition calib_le (a b : CalibChannel) : Prop := key_le (calib_key a) (calib_key b).

#[export] Instance calib_le_dec : RelDecision calib_le.
Proof. intros a b. unfold calib_le. apply _. Defined.

(** The medians a row is measured by. *)
Record Usual : Type := mkUsual {
  signal_noise : f64 * f64;
  fpn_noise : f64 * f64;
  usual_gain : f64 * f64;
}.
Definition usual_of (js : list (ChKey * PedestalRow * PulserChannel)) : Usual :=
  let noise_signal := map (fun j => rms j.1.2) (List.filter (fun j => negb (ped_is_fpn j.1.2)) js) in
  let noise_fpn := map (fun j => rms j.1.2) (List.filter (fun j => ped_is_fpn j.1.2) js) in
  let gains := omap (fun j => relative_gain j.2) js in
  let with_mad l := (median l, mad l (median l)) in
  mkUsual (with_mad noise_signal) (with_mad noise_fpn) (with_mad gains).

Definition calib_row (u : Usual) (k : f64) (j : ChKey * PedestalRow * PulserChannel) : CalibChannel :=
  let '(key, pc, pu) := j in
  let '(noise_med, noise_mad) := if ped_is_fpn pc then fpn_noise u else signal_noise u in
  mkCalibChannel key.1.1 key.1.2 key.2 (ped_is_fpn pc) (mean (channel pc)) (rms pc) (relative_gain pu)
    (flags_of noise_med noise_mad (usual_gain u).2 k pc pu)
    (round_i64 (f64_add (mean (channel pc)) (f64_mul THRESHOLD_NOISE_SIGMA (rms pc)))).

Definition merge (pedestal : PedestalTable) (pulser : PulserTable) (k : f64) (now version : string) : CalibTable :=
  let js := joined (ped_channels pedestal) (pu_channels pulser) in
  let u := usual_of js in
  mkCalibTable
    (mkMergeMeta (inputs (ped_meta pedestal)) (inputs (pu_meta pulser)) (events (ped_meta pedestal)) (events (pu_meta pulser)) now version
       k (signal_noise u).1 (signal_noise u).2 (fpn_noise u).1 (fpn_noise u).2 (usual_gain u).1 (usual_gain u).2 SATURATED_RATE_THRESHOLD)
    (merge_sort calib_le (map (calib_row u k) js)).

(** ** The cells of a frame *)

Definition in_slot (k : Z) (ws : list Z) : list Z := List.filter (fun w => slot w =? k) ws.

Lemma slot_nonneg w : 0 <= slot w.
Proof.
  unfold slot. rewrite unpack_item_fields. cbn [item_aget item_chan]. unfold Geometry.RAW_CH_PER_AGET.
  pose proof (Z.mod_pos_bound (w / 2 ^ 30) (2 ^ 2)). pose proof (Z.mod_pos_bound (w / 2 ^ 23) (2 ^ 7)). lia.
Qed.

Lemma cells_lookup ws k : forall cells, fold_left take_word ws cells !! k =
  (fun c => fold_left (fun c w => cell_add w c) (in_slot (Z.of_nat k) ws) c) <$> cells !! k.
Proof.
  induction ws as [| w ws IH]; intros cells; cbn [fold_left in_slot List.filter]; [by destruct (cells !! k) |]. rewrite IH. unfold take_word.
  pose proof (slot_nonneg w). destruct (Z.eqb_spec (slot w) (Z.of_nat k)) as [E | E].
  - rewrite E, Nat2Z.id, list_lookup_alter_eq. fold (in_slot (Z.of_nat k) ws). by destruct (cells !! k).
  - by rewrite list_lookup_alter_ne by lia.
Qed.

Definition base_of (its : list Item) : list Z := map item_adc (List.filter (fun it => item_bucket it <? BASELINE_END) its).
Definition top_of (its : list Item) : Z := foldr Z.max 0 (map item_adc its).
Definition sum_of (l : list Z) : Z := foldr Z.add 0 l.

Lemma adc_range w : 0 <= item_adc (unpack_item w) <= 4095.
Proof. rewrite unpack_item_fields. cbn [item_adc]. pose proof (Z.mod_pos_bound w (2 ^ 12)). lia. Qed.

Lemma sum_bound l : Forall (fun x => 0 <= x <= 4095) l -> 0 <= sum_of l <= 4095 * len l.
Proof. induction 1 as [| x l Hx _ IH]; [done |]. rewrite len_cons. unfold sum_of in *. cbn. lia. Qed.

Lemma base_bound ws : 0 <= sum_of (base_of (map unpack_item ws)) <= 4095 * len ws.
Proof.
  assert (Hl : len (base_of (map unpack_item ws)) <= len ws).
  { unfold base_of, len. rewrite length_map. pose proof (filter_length_le (fun it => item_bucket it <? BASELINE_END) (map unpack_item ws)) as H.
    rewrite length_map in H. lia. }
  assert (H : Forall (fun x => 0 <= x <= 4095) (base_of (map unpack_item ws))).
  { apply list.Forall_forall. intros x Hx. apply list_elem_of_In, in_map_iff in Hx as (it & <- & Hx). apply filter_In in Hx as [Hx _].
    apply in_map_iff in Hx as (w & <- & _). apply adc_range. }
  pose proof (sum_bound _ H). lia.
Qed.

Lemma cell_of_words ws : forall s n p b, 0 <= s -> 0 <= p -> s + sum_of (base_of (map unpack_item ws)) < 2 ^ 53 ->
  fold_left (fun c w => cell_add w c) ws (mkCell (f64_of_Z s) n p b) =
  mkCell (f64_of_Z (s + sum_of (base_of (map unpack_item ws)))) (n + len (base_of (map unpack_item ws)))
    (Z.max p (top_of (map unpack_item ws))) (match ws with [] => b | _ => true end).
Proof.
  induction ws as [| w ws IH]; intros s n p b Hs Hp Hsum; cbn [fold_left map].
  - unfold base_of, top_of, sum_of, len. cbn [List.filter map foldr length Z.of_nat]. by rewrite !Z.add_0_r, Z.max_l.
  - pose proof (adc_range w) as Ha. unfold cell_add at 2. cbn [base_sum base_n peak cell_seen].
    pose proof (base_bound ws) as [Hpos _].
    unfold base_of, top_of, sum_of in *. cbn [map List.filter] in *. destruct (item_bucket (unpack_item w) <? BASELINE_END); cbn [map foldr] in *.
    + rewrite add_whole by lia. rewrite IH by (try lia; destruct (p <? _); lia). rewrite len_cons. f_equal; [f_equal; lia | lia | | by destruct ws].
      destruct (Z.ltb_spec p (item_adc (unpack_item w))); lia.
    + rewrite IH by (try lia; destruct (p <? _); lia). f_equal; [| by destruct ws]. destruct (Z.ltb_spec p (item_adc (unpack_item w))); lia.
Qed.

(** The height of a channel's pulse in a frame: its peak over the mean of its first
    buckets, if it has any. *)
Definition height (its : list Item) : option (f64 * bool) :=
  match base_of its with
  | [] => None
  | base => Some (f64_sub (f64_of_Z (top_of its)) (f64_div (f64_of_Z (sum_of base)) (f64_of_Z (len base))), ADC_FULL_SCALE <=? top_of its)
  end.

Lemma pulse_of_words ws : 4095 * len ws < 2 ^ 53 ->
  pulse_of (fold_left (fun c w => cell_add w c) ws no_cell) = height (map unpack_item ws).
Proof.
  intros Hl. pose proof (base_bound ws). unfold no_cell. rewrite cell_of_words by lia. rewrite !Z.add_0_l.
  assert (Hm : Z.max 0 (top_of (map unpack_item ws)) = top_of (map unpack_item ws)).
  { unfold top_of. clear. induction (map unpack_item ws) as [| it l IH]; [done |]. cbn. lia. }
  rewrite Hm. unfold pulse_of, height. cbn [cell_seen base_n base_sum peak].
  destruct (base_of (map unpack_item ws)) as [| x base] eqn:E; [by rewrite orb_true_r |].
  destruct ws as [| w ws]; [done |]. rewrite len_cons. pose proof (len_nonneg base). rewrite (proj2 (Z.eqb_neq _ _)) by lia. done.
Qed.

(** ** The pulses of a frame *)

Definition cell_key (asad k : Z) : ChKey := (asad, wrap 8 (k / Geometry.RAW_CH_PER_AGET), wrap 8 (k mod Geometry.RAW_CH_PER_AGET)).

Fixpoint pulses_of_cells (i asad k : Z) (cells : list Cell) : list (Z * ChKey * (f64 * bool)) :=
  match cells with
  | [] => []
  | c :: cells => match pulse_of c with Some p => [(i, cell_key asad k, p)] | None => [] end ++ pulses_of_cells i asad (k + 1) cells
  end.

Lemma close_cells_pulses i a cells : forall k m, close_cells i a k cells m = fold_left (add_at no_pulses add_pulse) (pulses_of_cells i a k cells) m.
Proof.
  induction cells as [| c cells IH]; intros k m; cbn [close_cells pulses_of_cells]; [done |]. rewrite fold_left_app, IH. by destruct (pulse_of c).
Qed.

Definition frame_cells (frag : Fragment) : list Cell := fold_left take_word (words frag) no_cells.
Definition pulses (out : list (Z * Fragment)) : list (Z * ChKey * (f64 * bool)) :=
  flat_map (fun p => match items_from_bytes (items p.2) with Ok _ => pulses_of_cells p.1 (asad p.2) 0 (frame_cells p.2) | Err _ => [] end) out.

Lemma pulser_frags out m :
  fold_left (fun m p => pulser_frag p.1 p.2 m) out m = fold_left (add_at no_pulses add_pulse) (pulses out) m.
Proof.
  revert m. induction out as [| [i frag] out IH]; intros m; cbn [fold_left pulses flat_map]; [done |]. rewrite fold_left_app. fold (pulses out). rewrite <- IH. f_equal.
  unfold pulser_frag, frame_cells, words. cbn [fst snd]. destruct (items_from_bytes (items frag)) as [ws | e]; [| done]. apply close_cells_pulses.
Qed.

Lemma cell_key_eq asad k a g c : 0 <= k < PER_FRAME -> 0 <= c < 68 -> cell_key asad k = (a, g, c) <-> asad = a /\ k = g * 68 + c.
Proof.
  intros Hk Hc. change PER_FRAME with 272 in Hk. unfold cell_key, Geometry.RAW_CH_PER_AGET. unfold wrap. change (2 ^ 8) with 256.
  rewrite !(Z.mod_small _ 256) by (Z.div_mod_to_equations; lia). split.
  - intros E. injection E as -> <- <-. split; [done |]. Z.div_mod_to_equations; lia.
  - intros [-> ->]. f_equal; [f_equal |]; Z.div_mod_to_equations; lia.
Qed.

Lemma of_channel_app {V} key (l l' : list (Z * ChKey * V)) : of_channel key (l ++ l') = of_channel key l ++ of_channel key l'.
Proof. unfold of_channel. apply omap_app. Qed.

Lemma cells_channel i asad a g c cells : 0 <= c < 68 -> forall k, 0 <= k -> k + len cells <= PER_FRAME ->
  of_channel (a, g, c) (pulses_of_cells i asad k cells) =
  if bool_decide (asad = a /\ k <= g * 68 + c) then
    match cells !! Z.to_nat (g * 68 + c - k) with Some cell => match pulse_of cell with Some p => [(i, p)] | None => [] end | None => [] end
  else [].
Proof.
  intros Hc. induction cells as [| cell cells IH]; intros k Hk Hl; cbn [pulses_of_cells]; [by destruct (bool_decide _) |].
  rewrite len_cons in Hl. pose proof (len_nonneg cells). rewrite of_channel_app, IH by lia.
  pose proof (cell_key_eq asad k a g c ltac:(lia) Hc) as Hkey.
  assert (Hone : of_channel (a, g, c) match pulse_of cell with Some p => [(i, cell_key asad k, p)] | None => [] end =
    if bool_decide (asad = a /\ k = g * 68 + c) then match pulse_of cell with Some p => [(i, p)] | None => [] end else []).
  { destruct (pulse_of cell) as [p |]; [| by destruct (bool_decide _)]. unfold of_channel. cbn [omap list_omap fst snd].
    by rewrite (bool_decide_ext _ _ Hkey); destruct (bool_decide _). }
  rewrite Hone. case_bool_decide as E1.
  - destruct E1 as [-> ->]. rewrite (bool_decide_false (a = a /\ _ + 1 <= _)) by lia. rewrite bool_decide_true by lia.
    rewrite Z.sub_diag, app_nil_r. done.
  - cbn [app]. destruct (decide (asad = a /\ k + 1 <= g * 68 + c)) as [E2 | E2].
    + rewrite !bool_decide_true by lia. replace (Z.to_nat (g * 68 + c - k)) with (S (Z.to_nat (g * 68 + c - (k + 1)))) by lia. done.
    + rewrite !bool_decide_false by lia. done.
Qed.

Lemma cells_no_channel i asad a g c cells : ~ (0 <= c < 68) -> forall k, 0 <= k -> k + len cells <= PER_FRAME ->
  of_channel (a, g, c) (pulses_of_cells i asad k cells) = [].
Proof.
  intros Hc. induction cells as [| cell cells IH]; intros k Hk Hl; cbn [pulses_of_cells]; [done |]. rewrite len_cons in Hl. pose proof (len_nonneg cells).
  rewrite of_channel_app, IH, app_nil_r by lia. destruct (pulse_of cell) as [p |]; [| done]. unfold of_channel. cbn [omap list_omap fst snd].
  rewrite bool_decide_false; [done |]. unfold cell_key, wrap, Geometry.RAW_CH_PER_AGET. intros E. injection E as _ _ E. apply Hc. rewrite <- E.
  change (2 ^ 8) with 256. Z.div_mod_to_equations; lia.
Qed.

(** The items of a channel in a frame. *)
Definition items_of (g c : Z) (frag : Fragment) : list Item :=
  map unpack_item (List.filter (fun w => (item_aget (unpack_item w) =? g) && (item_chan (unpack_item w) =? c)) (words frag)).

(** Every item names a channel that a chip has. *)
Definition wired (frag : Fragment) : Prop := Forall (fun w => item_chan (unpack_item w) < 68) (words frag).

Lemma item_ranges w : 0 <= item_aget (unpack_item w) < 4 /\ 0 <= item_chan (unpack_item w).
Proof. rewrite unpack_item_fields. cbn. pose proof (Z.mod_pos_bound (w / 2 ^ 30) (2 ^ 2)). pose proof (Z.mod_pos_bound (w / 2 ^ 23) (2 ^ 7)). lia. Qed.

Lemma slot_items g c frag : wired frag -> 0 <= g < 4 -> 0 <= c < 68 -> map unpack_item (in_slot (g * 68 + c) (words frag)) = items_of g c frag.
Proof.
  intros Hw Hg Hc. unfold items_of, in_slot. f_equal. apply filter_ext_in. intros w Hin. pose proof (item_ranges w).
  pose proof (proj1 (list.Forall_forall _ _) Hw w ltac:(by apply list_elem_of_In)) as Hch. cbv beta in Hch. unfold slot, Geometry.RAW_CH_PER_AGET.
  cbv zeta. apply Bool.eq_true_iff_eq. rewrite andb_true_iff, !Z.eqb_eq. lia.
Qed.

Lemma no_items g c frag : wired frag -> ~ (0 <= g < 4 /\ 0 <= c < 68) -> items_of g c frag = [].
Proof.
  intros Hw Hno. unfold items_of. rewrite (filter_ext_in _ (fun _ => false)); [by induction (words frag) |].
  intros w Hin. pose proof (item_ranges w). pose proof (proj1 (list.Forall_forall _ _) Hw w ltac:(by apply list_elem_of_In)) as Hch. cbv beta in Hch. lia.
Qed.

Lemma len_in_slot k ws : len (in_slot k ws) <= len ws.
Proof. unfold in_slot, len. pose proof (filter_length_le (fun w => slot w =? k) ws). lia. Qed.

Lemma frame_channel i frag a g c : wired frag -> 4095 * len (words frag) < 2 ^ 53 ->
  of_channel (a, g, c) (pulses_of_cells i (asad frag) 0 (frame_cells frag)) =
  if bool_decide (asad frag = a) then match height (items_of g c frag) with Some p => [(i, p)] | None => [] end else [].
Proof.
  intros Hw Hl. assert (Hlen : 0 + len (frame_cells frag) <= PER_FRAME).
  { unfold frame_cells. assert (E : forall ws cells, length (fold_left take_word ws cells) = length cells).
    { induction ws as [| w ws IH]; intros cells; [done |]. cbn. rewrite IH. unfold take_word. apply length_alter. }
    unfold len. rewrite E. done. }
  destruct (decide (0 <= c < 68)) as [Hc | Hc].
  - rewrite cells_channel by (lia || done). rewrite Z.sub_0_r. destruct (decide (0 <= g < 4)) as [Hg | Hg].
    + rewrite (bool_decide_ext (asad frag = a /\ 0 <= g * 68 + c) (asad frag = a)) by lia. case_bool_decide; [| done]. unfold frame_cells. rewrite cells_lookup.
      assert (En : no_cells !! Z.to_nat (g * 68 + c) = Some no_cell).
      { unfold no_cells. apply lookup_repeat. change PER_FRAME with 272. lia. }
      rewrite En. cbn [fmap option_fmap option_map]. rewrite Z2Nat.id by lia. rewrite pulse_of_words by (pose proof (len_in_slot (g * 68 + c) (words frag)); lia).
      by rewrite slot_items.
    + rewrite (no_items g c frag Hw) by lia. cbn [height base_of map List.filter]. case_bool_decide as E; [| by destruct (bool_decide _)].
      rewrite (lookup_ge_None_2 (frame_cells frag)); [by destruct (bool_decide _) |]. unfold len in Hlen. change PER_FRAME with 272 in Hlen. lia.
  - rewrite cells_no_channel by (lia || done). rewrite (no_items g c frag Hw) by lia. by destruct (bool_decide _).
Qed.

(** *** The sizes of a frame *)

Lemma chunks_count {A} fuel n (l : list A) : (length (chunks_exact_fuel fuel n l) <= fuel)%nat.
Proof. revert l. induction fuel as [| fuel IH]; intros l; cbn [chunks_exact_fuel]; [done |]. destruct (length l <? n)%nat; cbn [length]; [lia |]. specialize (IH (drop n l)). lia. Qed.

Lemma len_compact samples : forall hist, length (compact_items hist samples) = length samples.
Proof. induction samples as [| [g x] samples IH]; intros hist; cbn; [done |]. by rewrite IH. Qed.

Lemma items_ref_len ty little raw its : items_ref ty little raw = Some its -> len its <= 4 * len raw.
Proof.
  unfold items_ref, compact_ref. intros H. assert (Hb : exists ws, its = items_to_bytes ws /\ (length ws <= length raw)%nat).
  { destruct (ty =? 1).
    - eexists. split; [by injection H as <- |]. rewrite length_map. apply chunks_count.
    - destruct (forallb _ _); [| done]. eexists. split; [by injection H as <- |]. rewrite length_map, len_compact, length_map. apply chunks_count. }
  destruct Hb as (ws & -> & Hws). rewrite len_items_to_bytes. unfold len. lia.
Qed.

Lemma frag_words frame frag : frag_of frame = Some frag -> len (words frag) <= 4 * len frame.
Proof.
  intros H. assert (Hi : len (items frag) <= 4 * len frame).
  { unfold frag_of, decode_ref in H. destruct (len frame <? MIN_FRAME_BYTES); [done |]. cbv zeta in H. destruct (negb _ && negb _); [done |].
    destruct (len frame <? HEADER_MIN_BYTES); [done |]. destruct (sizes_ok _ _ _ _ _); [| done]. destruct (items_ref _ _ _) as [its |] eqn:E; [| done].
    injection H as <-. cbn [items]. apply items_ref_len in E. etransitivity; [exact E |]. unfold sub. rewrite len_take, len_drop.
    pose proof (len_nonneg frame). lia. }
  unfold words, items_from_bytes. destruct (negb _); [rewrite len_nil; pose proof (len_nonneg frame); lia |]. unfold len at 1. rewrite length_map.
  pose proof (chunks_count (length (items frag)) 4 (items frag)). unfold chunks_exact. unfold len in Hi |- *. lia.
Qed.

Lemma out_words i fss : Forall (Forall (well_formed DEFAULT_MAX_FRAME_BYTES)) fss ->
  Forall (fun p => 4095 * len (words p.2) < 2 ^ 53) (frags_from i fss).
Proof.
  intros H. revert i. induction H as [| fs fss Hf _ IH]; intros i; cbn [frags_from]; [constructor |]. apply List.Forall_app. split; [| apply IH].
  apply list.Forall_forall. intros [j frag] Hin. apply list_elem_of_In, in_map_iff in Hin as (frag' & E & Hin). injection E as -> ->.
  apply list_elem_of_In, list_elem_of_omap in Hin as (frame & Hframe & E). apply frag_words in E.
  pose proof (proj1 (list.Forall_forall _ _) Hf frame Hframe) as [[_ Hmax] _]. unfold DEFAULT_MAX_FRAME_BYTES in Hmax. cbn [snd]. lia.
Qed.

(** ** The rows *)

(** The heights of a channel's pulses, frame after frame, each with its file. *)
Definition heights (key : ChKey) (out : list (Z * Fragment)) : list (Z * (f64 * bool)) :=
  omap (fun p => if bool_decide (asad p.2 = key.1.1) then h ← height (items_of key.1.2 key.2 p.2); Some (p.1, h) else None) out.

Lemma pulses_heights key out : Forall (fun p => wired p.2 /\ 4095 * len (words p.2) < 2 ^ 53) out -> of_channel key (pulses out) = heights key out.
Proof.
  destruct key as [[a g] c]. induction 1 as [| [i frag] out [Hw Hl] _ IH]; [done |]. cbn [pulses flat_map heights omap list_omap fst snd] in *.
  fold (pulses out). rewrite of_channel_app, IH.
  assert (E : of_channel (a, g, c) match items_from_bytes (items frag) with Ok _ => pulses_of_cells i (asad frag) 0 (frame_cells frag) | Err _ => [] end =
    if bool_decide (asad frag = a) then match height (items_of g c frag) with Some p => [(i, p)] | None => [] end else []).
  { destruct (items_from_bytes (items frag)) eqn:Ei; [by apply frame_channel |]. unfold items_of, words. rewrite Ei. cbn. by destruct (bool_decide _). }
  rewrite E. fold (heights (a, g, c) out). destruct (bool_decide (asad frag = a)); [| done]. by destruct (height (items_of g c frag)).
Qed.

Definition saturations (l : list (Z * (f64 * bool))) : Z := len (List.filter (fun p => p.2.2) l).

Lemma total_pulses l a : total_of add_pulse l a =
  mkPulses (amps a ++ map (fun p => p.2.1) l) (saturated_events a + saturations l) (list_to_set (map fst l) ∪ pulse_files a).
Proof.
  revert a. induction l as [| [i [h s]] l IH]; intros a; cbn [total_of fold_left map].
  - destruct a as [c t fs]. cbn. rewrite app_nil_r, Z.add_0_r. f_equal. set_solver.
  - change (fold_left (fun a p => add_pulse a p.2 p.1) l _) with (total_of add_pulse l (add_pulse a (h, s) i)). rewrite IH. unfold add_pulse, saturations. cbn.
    rewrite <- app_assoc. f_equal; [destruct s; rewrite ?len_cons; lia | set_solver].
Qed.

Lemma pulser_row_key g p : pulser_key (pulser_row g p) = p.1.
Proof. by destruct p as [[[? ?] ?] ?]. Qed.

Lemma signal_rows g ps :
  map (fun p => median (amps p.2)) (List.filter (fun p : ChKey * PulseAccum => negb (is_fpn p.1.2)) ps) =
  map amplitude_median (List.filter (fun c => negb (pu_is_fpn c)) (map (pulser_row g) ps)).
Proof.
  induction ps as [| [[[a b] c] acc] ps IH]; [done |]. cbn [List.filter map pulser_row pu_is_fpn fst snd]. destruct (negb (is_fpn c)); cbn [map]; by rewrite IH.
Qed.

(** The table of pulses is the same however the files are read: one row for each channel
    that has a pulse, in rising order. *)
Lemma pulses_of_frames now version files fss : files <> [] -> Forall2 holds files fss ->
  Forall (fun p => wired p.2) (frags_from 0 fss) ->
  exists table, pulser_compute now version files = Val (Ok table) /\
    StronglySorted key_lt (map pulser_key (pu_channels table)) /\
    (forall key, key ∈ map pulser_key (pu_channels table) <-> heights key (frags_from 0 fss) <> []) /\
    (forall r, r ∈ pu_channels table -> let l := heights (pulser_key r) (frags_from 0 fss) in
      amplitude_median r = median (map (fun p => p.2.1) l) /\ saturated r = f64_div (f64_of_Z (saturations l)) (f64_of_Z (len l)) /\
      pu_is_fpn r = is_fpn (pu_ch r) /\ pu_runs r = wrap 32 (Z.of_nat (size (list_to_set (map fst l) : gset Z))) /\
      relative_gain r = if pu_is_fpn r then None else
        Some (f64_div (amplitude_median r) (median (map amplitude_median (List.filter (fun c => negb (pu_is_fpn c)) (pu_channels table)))))).
Proof.
  intros Hne H Hw. destruct (scan_files_spec pulser_frag files fss ∅ Hne H) as (bad & other & _ & E). cbv zeta in E.
  assert (Hout : Forall (fun p => wired p.2 /\ 4095 * len (words p.2) < 2 ^ 53) (frags_from 0 fss)).
  { apply Forall_and. split; [done |]. apply out_words. clear - H. induction H as [| f fs files fss (cs & tail & Hf) _ IH]; constructor; [tauto | done]. }
  set (m := fold_left _ _ _) in E.
  assert (Hm : forall key, m !! key = match heights key (frags_from 0 fss) with [] => None | l => Some (total_of add_pulse l no_pulses) end).
  { intros key. unfold m. rewrite pulser_frags, values_lookup, lookup_empty, pulses_heights by done. done. }
  clearbody m. unfold pulser_compute. rewrite E. cbn [rust_bind]. eexists. split; [reflexivity |]. cbn [pu_channels].
  assert (Ek : map pulser_key (map (pulser_row (median (signal_medians m))) (in_order m)) = map fst (in_order m)).
  { rewrite map_map. apply map_ext, pulser_row_key. }
  split_and!; [rewrite Ek; apply in_order_rising | |].
  - intros key. rewrite Ek. rewrite in_order_key, Hm. destruct (heights key (frags_from 0 fss)); by split.
  - intros r Hin. apply list_elem_of_In, in_map_iff in Hin as ([k a] & <- & Hin). apply list_elem_of_In, in_order_elem in Hin.
    rewrite pulser_row_key. cbn [fst]. rewrite Hm in Hin.
    assert (Hl : heights k (frags_from 0 fss) <> [] /\ a = total_of add_pulse (heights k (frags_from 0 fss)) no_pulses).
    { destruct (heights k (frags_from 0 fss)); [done | split; congruence]. }
    clear Hin. destruct Hl as [Hl ->]. rewrite total_pulses. rewrite <- (signal_rows (median (signal_medians m)) (in_order m)). fold (signal_medians m).
    destruct k as [[a g] c]. unfold pulser_row, no_pulses. cbn [amps saturated_events pulse_files app amplitude_median saturated pu_is_fpn pu_runs pu_ch relative_gain].
    rewrite Z.add_0_l, union_empty_r_L. cbv zeta.
    assert (En : len (map (fun p : Z * (f64 * bool) => p.2.1) (heights (a, g, c) (frags_from 0 fss))) = len (heights (a, g, c) (frags_from 0 fss))) by (unfold len; by rewrite length_map).
    rewrite En. rewrite (proj2 (Z.eqb_neq _ _)); [done |]. destruct (heights (a, g, c) (frags_from 0 fss)); [done |]. rewrite len_cons.
    match goal with |- context [len ?l] => pose proof (len_nonneg l) end. lia.
Qed.

(** ** The join *)

Lemma by_key_some {A} (key : A -> ChKey) rows : forall (m : gmap ChKey A) k r, (forall k' r', m !! k' = Some r' -> key r' = k') ->
  fold_left (fun m c => <[key c := c]> m) rows m !! k = Some r -> (r ∈ rows \/ m !! k = Some r) /\ key r = k.
Proof.
  induction rows as [| c rows IH]; intros m k r Hm H; cbn [fold_left] in H; [split; [by right | by apply Hm] |].
  destruct (IH _ k r ltac:(intros k' r' H'; apply lookup_insert_Some in H' as [[<- <-] | [_ H']]; [done | by apply Hm]) H) as [[Hin | Hin] Hk].
  - split; [left; by right | done].
  - split; [| done]. apply lookup_insert_Some in Hin as [[_ <-] | [_ Hin]]; [left; by left | by right].
Qed.

Lemma by_key_row {A} (key : A -> ChKey) rows k r : by_key key rows !! k = Some r -> r ∈ rows /\ key r = k.
Proof.
  intros H. destruct (by_key_some key rows ∅ k r ltac:(intros k' r' E; by rewrite lookup_empty in E) H) as [[Hin | Hin] Hk]; [done |].
  by rewrite lookup_empty in Hin.
Qed.

Lemma by_key_is {A} (key : A -> ChKey) rows k : is_Some (by_key key rows !! k) <-> k ∈ map key rows.
Proof.
  unfold by_key. assert (H : forall m : gmap ChKey A, is_Some (fold_left (fun m c => <[key c := c]> m) rows m !! k) <-> k ∈ map key rows \/ is_Some (m !! k)).
  { induction rows as [| c rows IH]; intros m; cbn [fold_left map]; [by split; [right | intros [Hin | ?]; [by apply not_elem_of_nil in Hin |]] |].
    rewrite IH, lookup_insert_is_Some, elem_of_cons. destruct (decide (key c = k)); naive_solver. }
  rewrite H, lookup_empty. split; [intros [? | []]; done | by left].
Qed.

Lemma joined_elem peds pus k pc pu : (k, pc, pu) ∈ joined peds pus <-> by_key row_key peds !! k = Some pc /\ by_key pulser_key pus !! k = Some pu.
Proof.
  unfold joined. rewrite list_elem_of_omap. split.
  - intros ([k' pc'] & Hin & E). apply in_order_elem in Hin. cbn in E. destruct (by_key pulser_key pus !! k') as [pu' |] eqn:Ep; [| done]. cbn in E.
    injection E as <- <- <-. done.
  - intros [Hp Hu]. exists (k, pc). split; [by apply in_order_elem |]. cbn. by rewrite Hu.
Qed.

Lemma joined_rising peds pus : StronglySorted key_lt (map (fun j => j.1.1) (joined peds pus)).
Proof.
  unfold joined. pose proof (in_order_rising (by_key row_key peds)) as Hs. induction (in_order (by_key row_key peds)) as [| [k pc] l IH]; [constructor |].
  cbn [map fst] in Hs. apply StronglySorted_inv in Hs as [Hs Hl]. cbn [omap list_omap fst snd]. destruct (by_key pulser_key pus !! k) as [pu |]; [| by apply IH].
  cbn [mbind option_bind map fst]. constructor; [by apply IH |]. apply list.Forall_forall. intros k' Hin.
  apply list_elem_of_In, in_map_iff in Hin as ([[k2 pc2] pu2] & <- & Hin). apply list_elem_of_In, list_elem_of_omap in Hin as ([k3 pc3] & Hin & E).
  cbn in E. destruct (by_key pulser_key pus !! k3); [| done]. cbn in E. injection E as <- <- <-. cbn.
  apply (proj1 (list.Forall_forall _ _) Hl). apply list_elem_of_In. apply list_elem_of_In in Hin. exact (in_map fst _ _ Hin).
Qed.

Lemma calib_row_key u k j : calib_key (calib_row u k j) = j.1.1.
Proof. destruct j as [[[[a b] c] pc] pu]. unfold calib_row. by destruct (if ped_is_fpn pc then fpn_noise u else signal_noise u). Qed.

(** Rows of rising keys are sorted as they are. *)
Lemma rows_sorted l : StronglySorted key_lt (map calib_key l) -> merge_sort calib_le l = l.
Proof.
  intros Hs. assert (Htr : Transitive calib_le) by (intros a b c; unfold calib_le; apply (transitivity (R := key_le))).
  assert (Hto : Total calib_le) by (intros a b; unfold calib_le; apply (total key_le)).
  assert (Hl : StronglySorted calib_le l).
  { clear Htr Hto. induction l as [| x l IH]; [constructor |]. cbn [map] in Hs. apply StronglySorted_inv in Hs as [Hs Hx]. constructor; [by apply IH |].
    apply list.Forall_forall. intros y Hy. apply list_elem_of_In in Hy. apply (proj1 (list.Forall_forall _ _) Hx (calib_key y)). apply list_elem_of_In. by apply in_map. }
  assert (Hd : forall x y, x ∈ l -> y ∈ l -> calib_key x = calib_key y -> x = y).
  { clear Htr Hto Hl. induction l as [| z l IH]; intros x y Hx Hy E; [by apply not_elem_of_nil in Hx |]. cbn [map] in Hs. apply StronglySorted_inv in Hs as [Hs Hz].
    assert (Hne : forall w, w ∈ l -> calib_key z <> calib_key w).
    { intros w Hw. apply list_elem_of_In in Hw. apply (proj1 (list.Forall_forall _ _) Hz (calib_key w)). apply list_elem_of_In. by apply in_map. }
    apply elem_of_cons in Hx as [-> | Hx], Hy as [-> | Hy]; [done | by apply Hne in E | symmetry in E; by apply Hne in E | by apply IH]. }
  apply (StronglySorted_unique_strong calib_le); [| apply (StronglySorted_merge_sort calib_le) | done | apply merge_sort_Permutation].
  intros x y Hx Hy Hxy Hyx. rewrite merge_sort_Permutation in Hx. apply Hd; [done | done |]. by apply key_le_antisym.
Qed.

Lemma merge_rows ped pu k now version : let js := joined (ped_channels ped) (pu_channels pu) in
  calib_channels (merge ped pu k now version) = map (calib_row (usual_of js) k) js.
Proof.
  intros js. unfold merge. cbn [calib_channels]. apply rows_sorted. rewrite map_map. rewrite (map_ext _ (fun j => j.1.1)) by (intros; apply calib_row_key).
  apply joined_rising.
Qed.

Lemma flags_spec med mad gm k pc pu : let fs := flags_of med mad gm k pc pu in
  ("noisy"%string ∈ fs <-> f64_gt (rms pc) (f64_add med (f64_mul k mad)) = true) /\
  ("dead"%string ∈ fs <-> f64_lt (rms pc) DEAD_RMS_THRESHOLD = true) /\
  ("gain_out"%string ∈ fs <-> exists g, relative_gain pu = Some g /\ f64_gt (f64_abs (f64_sub g (f64_of_Z 1))) (f64_mul GAIN_OUT_MAD_K gm) = true) /\
  ("saturated"%string ∈ fs <-> f64_gt (saturated pu) SATURATED_RATE_THRESHOLD = true).
Proof.
  assert (Hg : (exists g, relative_gain pu = Some g /\ f64_gt (f64_abs (f64_sub g (f64_of_Z 1))) (f64_mul GAIN_OUT_MAD_K gm) = true) <->
    match relative_gain pu with Some g => f64_gt (f64_abs (f64_sub g (f64_of_Z 1))) (f64_mul GAIN_OUT_MAD_K gm) | None => false end = true).
  { destruct (relative_gain pu) as [g |]; split; [intros (? & [= <-] & ?); done | by exists g | by intros (? & ? & ?) | done]. }
  cbv zeta. rewrite Hg. clear Hg. unfold flags_of. rewrite !list_elem_of_In. generalize (f64_gt (rms pc) (f64_add med (f64_mul k mad))), (f64_lt (rms pc) DEAD_RMS_THRESHOLD),
    (f64_gt (saturated pu) SATURATED_RATE_THRESHOLD). intros b1 b2 b3. destruct (relative_gain pu) as [g |]; [generalize (f64_gt (f64_abs (f64_sub g (f64_of_Z 1))) (f64_mul GAIN_OUT_MAD_K gm)) |];
    intros; destruct b1, b2, b3; try destruct b; cbn; intuition congruence.
Qed.

(** The noise of the rows of a kind, and their gains. *)
Definition noises (of_fpn : bool) (rows : list CalibChannel) : list f64 := map noise (List.filter (fun r => Bool.eqb (fpn r) of_fpn) rows).

Lemma row_fields u k key pc pu : let r := calib_row u k (key, pc, pu) in
  fpn r = ped_is_fpn pc /\ baseline r = mean (channel pc) /\ noise r = rms pc /\ gain r = relative_gain pu /\
  threshold_suggest r = round_i64 (f64_add (mean (channel pc)) (f64_mul THRESHOLD_NOISE_SIGMA (rms pc))) /\
  flags r = (let n := if ped_is_fpn pc then fpn_noise u else signal_noise u in flags_of n.1 n.2 (usual_gain u).2 k pc pu).
Proof. cbv zeta. unfold calib_row. by destruct (if ped_is_fpn pc then fpn_noise u else signal_noise u). Qed.

Lemma noises_joined u k b js :
  noises b (map (calib_row u k) js) = map (fun j => rms j.1.2) (List.filter (fun j : ChKey * PedestalRow * PulserChannel => Bool.eqb (ped_is_fpn j.1.2) b) js).
Proof.
  induction js as [| [[key pc] pu] js IH]; [done |]. destruct (row_fields u k key pc pu) as (F & _ & N & _). unfold noises in *. cbn [map List.filter fst snd].
  rewrite F. destruct (Bool.eqb (ped_is_fpn pc) b); cbn [map]; by rewrite ?N, IH.
Qed.

Lemma gains_joined u k js : omap gain (map (calib_row u k) js) = omap (fun j : ChKey * PedestalRow * PulserChannel => relative_gain j.2) js.
Proof.
  induction js as [| [[key pc] pu] js IH]; [done |]. destruct (row_fields u k key pc pu) as (_ & _ & _ & G & _). cbn [map omap list_omap snd]. rewrite G.
  destruct (relative_gain pu); by rewrite <- IH.
Qed.

Lemma noises_usual u k js (b : bool) : let v := if b then fpn_noise (usual_of js) else signal_noise (usual_of js) in
  middle_of (noises b (map (calib_row u k) js)) v.1 /\ spread_of (noises b (map (calib_row u k) js)) v.1 v.2.
Proof.
  cbv zeta. rewrite noises_joined. unfold usual_of.
  assert (E : map (fun j => rms j.1.2) (List.filter (fun j : ChKey * PedestalRow * PulserChannel => Bool.eqb (ped_is_fpn j.1.2) b) js) =
    map (fun j => rms j.1.2) (List.filter (fun j => if b then ped_is_fpn j.1.2 else negb (ped_is_fpn j.1.2)) js)).
  { f_equal. apply filter_ext. intros j. by destruct b, (ped_is_fpn _). }
  rewrite E. destruct b; cbn [fpn_noise signal_noise fst snd]; (split; [apply median_is_middle | apply mad_is_spread]).
Qed.

Lemma gains_usual u k js : let v := usual_gain (usual_of js) in
  middle_of (omap gain (map (calib_row u k) js)) v.1 /\ spread_of (omap gain (map (calib_row u k) js)) v.1 v.2.
Proof. cbv zeta. rewrite gains_joined. split; [apply median_is_middle | apply mad_is_spread]. Qed.

(** *** The channels of the fixed pattern *)

Definition fpn_channel (ch : Z) : bool := bool_decide (ch ∈ [11; 22; 45; 56]).

Lemma is_fpn_channel ch : 0 <= ch < 68 -> is_fpn ch = fpn_channel ch.
Proof.
  intros Hch. assert (H : Forall (fun c => is_fpn c = fpn_channel c) (seqZ 0 68)) by (apply (bool_decide_eq_true_1 _); vm_compute; reflexivity).
  apply (proj1 (list.Forall_forall _ _) H). apply elem_of_seqZ. lia.
Qed.

Lemma heights_channel key out : Forall (fun p => wired p.2) out -> heights key out <> [] -> 0 <= key.2 < 68.
Proof.
  intros Hw Hh. destruct (decide (0 <= key.2 < 68)) as [| Hn]; [done |]. exfalso. apply Hh. induction Hw as [| [i frag] out Hf _ IH]; [done |].
  assert (IH' : heights key out = []) by (destruct (heights key out); [done | by apply IH]).
  unfold heights in *. cbn [omap list_omap fst snd]. rewrite (no_items key.1.2 key.2 frag Hf) by tauto. cbn [height base_of map List.filter].
  destruct (bool_decide _); exact IH'.
Qed.

(** What a row says of its channel: the samples of the pedestal run, the pulses of the
    pulser run, and what is unusual. *)
Definition describes (m : MergeMeta) (global : f64) (peds : list (list bytes)) (pus : list (list bytes)) (r : CalibChannel) : Prop :=
  let l := channel_samples (calib_key r) peds in
  let hs := heights (calib_key r) (frags_from 0 pus) in
  let n := f64_of_Z (len l) in
  let var := f64_sub (f64_div (f64_of_Z (sum_of (map (fun x => x * x) (adcs l)))) n) (f64_mul (baseline r) (baseline r)) in
  let '(med, mad) := if fpn r then (noise_fpn_median m, noise_fpn_mad m) else (noise_signal_median m, noise_signal_mad m) in
  fpn r = fpn_channel (ca_ch r) /\
  baseline r = f64_div (f64_of_Z (sum_of (adcs l))) n /\
  noise r = (if Float.f64_le var (f64_of_Z 0) then f64_of_Z 0 else f64_sqrt var) /\
  match gain r with
  | Some g => fpn r = false /\ exists a, middle_of (map (fun p => p.2.1) hs) a /\ g = f64_div a global
  | None => fpn r = true
  end /\
  threshold_suggest r = round_i64 (f64_add (baseline r) (f64_mul (f64_of_Z 5) (noise r))) /\
  ("noisy"%string ∈ flags r <-> f64_gt (noise r) (f64_add med (f64_mul (meta_k m) mad)) = true) /\
  ("dead"%string ∈ flags r <-> f64_lt (noise r) (f64_of_decimal false 5 (-1)) = true) /\
  ("gain_out"%string ∈ flags r <-> exists g, gain r = Some g /\ f64_gt (f64_abs (f64_sub g (f64_of_Z 1))) (f64_mul (f64_of_Z 2) (gain_mad m)) = true) /\
  ("saturated"%string ∈ flags r <-> f64_gt (f64_div (f64_of_Z (saturations hs)) (f64_of_Z (len hs))) (f64_of_decimal false 5 (-1)) = true).

(** The heights of the pulser run: a row for each channel with a pulse, with the middle of
    its heights, and the middle of those of the signal channels. *)
Definition pulses_right (pus : list (list bytes)) (rows : list PulserChannel) (global : f64) : Prop :=
  StronglySorted key_lt (map pulser_key rows) /\
  (forall key, key ∈ map pulser_key rows <-> heights key (frags_from 0 pus) <> []) /\
  Forall (fun r => middle_of (map (fun p => p.2.1) (heights (pulser_key r) (frags_from 0 pus))) (amplitude_median r)) rows /\
  middle_of (map amplitude_median (List.filter (fun r => negb (fpn_channel (pu_ch r))) rows)) global.

(** What the rows are measured by is of the rows. *)
Definition usual_right (k : f64) (m : MergeMeta) (rows : list CalibChannel) : Prop :=
  meta_k m = k /\
  middle_of (noises false rows) (noise_signal_median m) /\ spread_of (noises false rows) (noise_signal_median m) (noise_signal_mad m) /\
  middle_of (noises true rows) (noise_fpn_median m) /\ spread_of (noises true rows) (noise_fpn_median m) (noise_fpn_mad m) /\
  middle_of (omap gain rows) (gain_median m) /\ spread_of (omap gain rows) (gain_median m) (gain_mad m).

Lemma pulses_are_right now version ufiles pus pu : Forall (fun p => wired p.2) (frags_from 0 pus) ->
  StronglySorted key_lt (map pulser_key (pu_channels pu)) ->
  (forall key, key ∈ map pulser_key (pu_channels pu) <-> heights key (frags_from 0 pus) <> []) ->
  (forall r, r ∈ pu_channels pu -> amplitude_median r = median (map (fun p => p.2.1) (heights (pulser_key r) (frags_from 0 pus))) /\ pu_is_fpn r = is_fpn (pu_ch r)) ->
  pulser_compute now version ufiles = Val (Ok pu) ->
  pulses_right pus (pu_channels pu) (median (map amplitude_median (List.filter (fun c => negb (pu_is_fpn c)) (pu_channels pu)))).
Proof.
  intros Hw Hs Hk Hr _. split; [done |]. split; [done |]. split.
  - apply list.Forall_forall. intros r Hin. destruct (Hr r Hin) as [-> _]. apply median_is_middle.
  - rewrite (filter_ext_in (fun r => negb (fpn_channel (pu_ch r))) (fun c => negb (pu_is_fpn c))); [apply median_is_middle |].
    intros r Hin. apply list_elem_of_In in Hin. destruct (Hr r Hin) as [_ ->]. f_equal. symmetry. apply is_fpn_channel.
    apply (heights_channel (pulser_key r) _ Hw). apply Hk. apply list_elem_of_In, in_map. by apply list_elem_of_In.
Qed.

(** C32: The calibration of a pedestal run and a pulser run, whose files are whole frames and
    perhaps the beginning of one, is the same however they are read.  The heights of the
    pulser run: a row for each channel with a pulse, with the middle of its heights, and the
    middle of those of the signal channels.  The joined table has a row for just the
    channels with a sample in the one run and a pulse in the other, in rising order.  A
    row's baseline is the exact sum of the channel's samples over their number, its gain
    - of a channel that is not of the fixed pattern - is the middle height of its pulses
    over that of the signal channels, and it is flagged just when its noise is above the
    middle of its kind by [k] times the middle distance from it, or nearly none, its gain
    off by more than twice the middle distance, or its pulses at full scale; these
    middles and distances are those of the table's own rows, signal and fixed pattern
    apart. *)
Theorem calibration_of_runs now version k pfiles peds ufiles pus :
  pfiles <> [] -> Forall2 holds pfiles peds -> ufiles <> [] -> Forall2 holds ufiles pus -> Forall (fun p => wired p.2) (frags_from 0 pus) ->
  exists ped pu global, pedestal_compute now version pfiles = Val (Ok ped) /\ pulser_compute now version ufiles = Val (Ok pu) /\
    pulses_right pus (pu_channels pu) global /\
    let t := merge ped pu k now version in
    StronglySorted key_lt (map calib_key (calib_channels t)) /\
    (forall key, key ∈ map calib_key (calib_channels t) <-> channel_samples key peds <> [] /\ heights key (frags_from 0 pus) <> []) /\
    Forall (describes (merge_meta t) global peds pus) (calib_channels t) /\
    usual_right k (merge_meta t) (calib_channels t).
Proof.
  intros Hp0 Hp Hu0 Hu Hw. destruct (pedestal_rows now version pfiles peds Hp0 Hp) as (ped & Eped & _ & Kped & Rped & _).
  destruct (pulses_of_frames now version ufiles pus Hu0 Hu Hw) as (pu & Epu & Spu & Kpu & Rpu).
  set (global := median (map amplitude_median (List.filter (fun c => negb (pu_is_fpn c)) (pu_channels pu)))) in Rpu.
  exists ped, pu, global. split; [done |]. split; [done |]. split.
  { apply (pulses_are_right now version ufiles pus pu); try done. intros r Hin. by destruct (Rpu r Hin) as (? & _ & ? & _). }
  cbv zeta. rewrite merge_rows. set (js := joined (ped_channels ped) (pu_channels pu)).
  assert (Ek : map calib_key (map (calib_row (usual_of js) k) js) = map (fun j => j.1.1) js) by (rewrite map_map; apply map_ext; apply calib_row_key).
  split_and!.
  - rewrite Ek. apply joined_rising.
  - intros key. rewrite Ek, <- Kped, <- Kpu, <- (by_key_is row_key), <- (by_key_is pulser_key). split.
    + intros Hin. apply list_elem_of_In, in_map_iff in Hin as ([[key' pc] pr] & <- & Hin). apply list_elem_of_In, joined_elem in Hin as [H1 H2]. by split; eexists.
    + intros [[pc H1] [pr H2]]. assert (Hin : (key, pc, pr) ∈ js) by (by apply joined_elem). apply list_elem_of_In. apply list_elem_of_In in Hin.
      exact (in_map (fun j => j.1.1) _ _ Hin).
  - apply list.Forall_forall. intros r Hin. apply list_elem_of_In, in_map_iff in Hin as ([[key pc] pr] & <- & Hin).
    apply list_elem_of_In, joined_elem in Hin as [[H1 K1]%by_key_row [H2 K2]%by_key_row]. unfold describes. rewrite calib_row_key. cbn [fst].
    destruct (row_fields (usual_of js) k key pc pr) as (F & B & N & G & T & Fl). cbv zeta in *. rewrite F, B, N, G, T, Fl. clear F B N G T Fl.
    destruct (Rped pc H1) as (M & R & _ & F1). rewrite K1 in M, R. destruct (Rpu pr H2) as (A & S & F2 & _ & G). rewrite K2 in A, S.
    assert (Ech : ped_ch_ch (channel pc) = key.2) by (rewrite <- K1; done). assert (Ech2 : pu_ch pr = key.2) by (rewrite <- K2; done).
    assert (Ekey : ca_ch (calib_row (usual_of js) k (key, pc, pr)) = key.2).
    { unfold calib_row. by destruct (if ped_is_fpn pc then fpn_noise (usual_of js) else signal_noise (usual_of js)). }
    assert (Hch : 0 <= key.2 < 68).
    { apply (heights_channel key _ Hw). rewrite <- K2. apply Kpu. apply list_elem_of_In, in_map. by apply list_elem_of_In. }
    rewrite Ech in F1. rewrite Ech2 in F2. assert (Ef : pu_is_fpn pr = ped_is_fpn pc) by congruence. rewrite Ef, A in G. rewrite <- S.
    assert (Eu : (if ped_is_fpn pc then (noise_fpn_median (merge_meta (merge ped pu k now version)), noise_fpn_mad (merge_meta (merge ped pu k now version)))
      else (noise_signal_median (merge_meta (merge ped pu k now version)), noise_signal_mad (merge_meta (merge ped pu k now version)))) =
      (if ped_is_fpn pc then fpn_noise (usual_of js) else signal_noise (usual_of js))).
    { unfold merge. cbn [merge_meta noise_fpn_median noise_fpn_mad noise_signal_median noise_signal_mad]. fold js. by destruct (ped_is_fpn pc), (fpn_noise (usual_of js)), (signal_noise (usual_of js)). }
    rewrite Eu. destruct (if ped_is_fpn pc then fpn_noise (usual_of js) else signal_noise (usual_of js)) as [med dev]. cbn [fst snd].
    destruct (flags_spec med dev (usual_gain (usual_of js)).2 k pc pr) as (Q1 & Q2 & Q3 & Q4). cbv zeta in *.
    split; [rewrite Ekey, F1; by apply is_fpn_channel |]. split; [exact M |]. split; [rewrite R, M; reflexivity |].
    split; [rewrite G; destruct (ped_is_fpn pc); [done |]; split; [done |]; eexists; split; [apply median_is_middle | reflexivity] |].
    split_and!; done.
  - split; [done |]. destruct (noises_usual (usual_of js) k js false) as [N1 N2]. destruct (noises_usual (usual_of js) k js true) as [N3 N4].
    destruct (gains_usual (usual_of js) k js) as [N5 N6]. by split_and!.
Qed.

(** ** Examples *)
Module Sample.

(** Of four samples the middle two count; a value that is no number does not. *)
Example some_medians :
  (median (map f64_of_Z [4; 1; 3; 2]), median (map f64_of_Z [5; 1; 3]), median [NAN], mad (map f64_of_Z [1; 2; 3; 4; 5]) (f64_of_Z 3))
  = (f64_of_decimal false 25 (-1), f64_of_Z 3, NAN, f64_of_Z 1).
Proof. by vm_compute. Qed.

Lemma calibration_of_runs_witness :
  exists ped pu r, pedestal_compute "now" "1" [Calib.Sample.file] = Val (Ok ped) /\ pulser_compute "now" "1" [Calib.Sample.file] = Val (Ok pu) /\
    calib_channels (merge ped pu (f64_of_Z 5) "now" "1") = [r] /\ calib_key r = (2, 0, 5) /\
    baseline r = f64_of_Z 102 /\ noise r = f64_of_Z 2 /\ gain r = Some (f64_of_Z 1) /\ flags r = [] /\ threshold_suggest r = 112.
Proof.
  destruct (calibration_of_runs "now" "1" (f64_of_Z 5) [Calib.Sample.file] [[Calib.Sample.frame]] [Calib.Sample.file] [[Calib.Sample.frame]])
    as (ped & pu & global & E1 & E2 & _).
  - done.
  - repeat constructor. apply Calib.Sample.file_holds.
  - done.
  - repeat constructor. apply Calib.Sample.file_holds.
  - vm_compute. repeat constructor.
  - exists ped, pu. vm_compute in E1, E2. injection E1 as <-. injection E2 as <-. eexists. split_and!; vm_compute; reflexivity.
Defined.

(** An item of channel 70 of a chip is not out of the range of the slots: it is taken for
    channel 2 of the next chip. *)
Definition stray_frame : bytes := encode_frame (sample_header false) (Partial [mkItem 0 70 0 100; mkItem 0 70 100 500]).
Lemma stray_channel_counted : exists r meta,
  pulser_compute "now" "1" [mkInput "run.graw" (Ok [Data stray_frame])] = Val (Ok (mkPulserTable meta [r])) /\
  pulser_key r = (2, 1, 2) /\ amplitude_median r = f64_of_Z 400.
Proof. eexists _, _. split; [vm_compute; reflexivity |]. by vm_compute. Qed.
End Sample.
