(* ===== verification/PulserScan.v ===== *)
(** * PulserScan: the answer of a channel to pulses of known height

    Models [src/calib/scan.rs]: one run of each height; of each channel the middle height
    of its pulses, a straight line through those of the smaller heights, and its mean wave
    form, as a table and as text.  The four scratch vectors of a frame are one vector of
    cells; warnings and the writing of the files are left out. *)

From Stdlib Require Import Ascii SpecFloat.
From stdpp Require Import gmap list sorting strings.
From S2P Require Import Prelude Bytes Decimal Msg Framer Decode Float FloatFacts Geometry Display Calib Pulser.
Open Scope list_scope.
Open Scope Z_scope.

Definition WAVEFORM_LEN : Z := 512.
Definition WAVEFORM_BASELINE_CELLS : Z := 25.
Definition FIT_MAX_ABS_AMP_MV : f64 := f64_of_Z 700.

(** ** One run: [compute_one_run] *)

Record ScanCell : Type := mkScanCell {
  wave : list Z;
  scan_seen : bool;
  n_baseline64 : Z;
  n_baseline25 : Z;
}.
Definition no_scan_cell : ScanCell := mkScanCell (repeat 0 (Z.to_nat WAVEFORM_LEN)) false 0 0.
Definition no_scan_cells : list ScanCell := repeat no_scan_cell (Z.to_nat PER_FRAME).

(** The last sample of a bucket stays. *)
Definition scan_cell_add (word : Z) (c : ScanCell) : ScanCell :=
  let it := unpack_item word in
  mkScanCell (<[Z.to_nat (item_bucket it) := item_adc it]> (wave c)) true
    (if item_bucket it <? BASELINE_END then n_baseline64 c + 1 else n_baseline64 c)
    (if item_bucket it <? WAVEFORM_BASELINE_CELLS then n_baseline25 c + 1 else n_baseline25 c).

Definition scan_word (cells : list ScanCell) (word : Z) : list ScanCell := alter (scan_cell_add word) (Z.to_nat (slot word)) cells.

Record RunAccum : Type := mkRunAccum {
  run_amps : list f64;
  wave_sum : list f64;
  wave_events : Z;
}.
Definition no_run : RunAccum := mkRunAccum [] (repeat (f64_of_Z 0) (Z.to_nat WAVEFORM_LEN)) 0.

(** [wf[..n].iter().map(f64::from).sum() / n]. *)
Definition sum_f64 (xs : list f64) : f64 := fold_left f64_add xs (f64_of_Z 0).
Definition window_mean (n : Z) (wf : list Z) : f64 := f64_div (sum_f64 (map f64_of_Z (take (Z.to_nat n) wf))) (f64_of_Z n).

Definition scan_height (c : ScanCell) : option f64 :=
  if negb (scan_seen c) || (n_baseline64 c =? 0) then None
  else Some (f64_sub (f64_of_Z (foldr Z.max 0 (wave c))) (window_mean BASELINE_END (wave c))).

Definition add_run (a : RunAccum) (amp : f64) (c : ScanCell) : RunAccum :=
  let a := mkRunAccum (run_amps a ++ [amp]) (wave_sum a) (wave_events a) in
  if n_baseline25 c =? 0 then a
  else
    let pedestal25 := window_mean WAVEFORM_BASELINE_CELLS (wave c) in
    mkRunAccum (run_amps a) (zip_with (fun s v => f64_add s (f64_sub (f64_of_Z v) pedestal25)) (wave_sum a) (wave c)) (wave_events a + 1).

Fixpoint close_scan (asad k : Z) (cells : list ScanCell) (m : gmap ChKey RunAccum) : gmap ChKey RunAccum :=
  match cells with
  | [] => m
  | c :: cells =>
      let key := cell_key asad k in
      close_scan asad (k + 1) cells
        match scan_height c with
        | None => m
        | Some amp => <[key := add_run (default no_run (m !! key)) amp c]> m
        end
  end.

Definition scan_frag (file_idx : Z) (frag : Fragment) (m : gmap ChKey RunAccum) : gmap ChKey RunAccum :=
  match items_from_bytes (items frag) with
  | Ok ws => close_scan (asad frag) 0 (fold_left scan_word ws no_scan_cells) m
  | Err _ => m
  end.

Definition ChannelLadder : Type := (f64 * list f64)%type.

Definition ladder_of (a : RunAccum) : ChannelLadder :=
  (median (run_amps a),
   if wave_events a =? 0 then repeat NAN (Z.to_nat WAVEFORM_LEN) else map (fun s => f64_div s (f64_of_Z (wave_events a))) (wave_sum a)).

Definition compute_one_run (file : Input) : rust (result (gmap ChKey ChannelLadder * ScanStats) CalibError) :=
  let! r := scan_files scan_frag [file] ∅ in
  match r with
  | Err e => Val (Err e)
  | Ok (accum, stats) => Val (Ok (ladder_of <$> accum, stats))
  end.

(** ** The straight line *)

Record ScanFit : Type := mkScanFit {
  slope : f64;
  intercept : f64;
  max_resid_frac : f64;
}.

Definition least_squares (xs ys : list f64) : f64 * f64 :=
  if (length xs <? 2)%nat then (NAN, NAN)
  else
    let n := f64_of_Z (len xs) in
    let sum_x := sum_f64 xs in
    let sum_y := sum_f64 ys in
    let sum_xy := sum_f64 (zip_with f64_mul xs ys) in
    let sum_x2 := sum_f64 (map (fun x => f64_mul x x) xs) in
    let denom := f64_sub (f64_mul n sum_x2) (f64_mul sum_x sum_x) in
    if f64_lt (f64_abs denom) (f64_of_decimal false 1 (-12)) then (NAN, NAN)
    else
      let slope := f64_div (f64_sub (f64_mul n sum_xy) (f64_mul sum_x sum_y)) denom in
      (slope, f64_div (f64_sub sum_y (f64_mul slope sum_x)) n).

Definition resid_of (slope intercept : f64) (p : f64 * f64) : option f64 :=
  let pred := f64_add (f64_mul slope p.1) intercept in
  if negb (is_finite pred) || f64_lt (f64_abs pred) (f64_of_decimal false 1 (-9)) then None
  else Some (f64_abs (f64_div (f64_sub p.2 pred) pred)).

Definition compute_fit (amps amplitude : list f64) : ScanFit :=
  let points := zip amps amplitude in
  let fit := List.filter (fun p => Float.f64_le (f64_abs p.1) FIT_MAX_ABS_AMP_MV) points in
  let '(slope, intercept) := least_squares (map fst fit) (map snd fit) in
  mkScanFit slope intercept (fold_left f64_max (omap (resid_of slope intercept) points) (f64_of_Z 0)).

(** ** All runs: [compute] *)

Record ScanRun : Type := mkScanRun {
  amp_mv : f64;
  run_file : Input;
}.

Record ScanChannel : Type := mkScanChannel {
  sc_asad : Z;
  sc_aget : Z;
  sc_ch : Z;
  sc_is_fpn : bool;
  amplitude : list f64;
  fit : ScanFit;
  waveform : list (list f64);
}.

Record ScanTable : Type := mkScanTable {
  scan_meta : Meta;
  scan_amps : list f64;
  scan_channels : list ScanChannel;
}.

Definition add_ladder (m : gmap ChKey (list f64 * list (list f64))) (p : ChKey * ChannelLadder) : gmap ChKey (list f64 * list (list f64)) :=
  let '(amps, waves) := default ([], []) (m !! p.1) in <[p.1 := (amps ++ [p.2.1], waves ++ [p.2.2])]> m.

Fixpoint scan_runs (runs : list ScanRun) (m : gmap ChKey (list f64 * list (list f64))) (events : Z)
    : rust (result (gmap ChKey (list f64 * list (list f64)) * Z) CalibError) :=
  match runs with
  | [] => Val (Ok (m, events))
  | r :: runs =>
      let! one := compute_one_run (run_file r) in
      match one with
      | Err e => Val (Err e)
      | Ok (by_ch, stats) => scan_runs runs (fold_left add_ladder (in_order by_ch) m) (events + scan_events stats)
      end
  end.

Definition scan_row (amps : list f64) (n_runs : Z) (p : ChKey * (list f64 * list (list f64))) : option ScanChannel :=
  let '((asad, aget, ch), (amp_list, wave_list)) := p in
  if negb (len amp_list =? n_runs) then None
  else Some (mkScanChannel asad aget ch (is_fpn ch) amp_list (compute_fit amps amp_list) wave_list).

Definition scan_compute (now version : string) (runs : list ScanRun) : rust (result ScanTable CalibError) :=
  match runs with
  | [] => Val (Err NoInputFiles)
  | _ =>
      let amps := map amp_mv runs in
      let! r := scan_runs runs ∅ 0 in
      match r with
      | Err e => Val (Err e)
      | Ok (per_channel, events) =>
          Val (Ok (mkScanTable (mkMeta (map (fun r => path (run_file r)) runs) events now version) amps
            (omap (scan_row amps (len runs)) (in_order per_channel))))
      end
  end.

(** ** The text of the tables *)
Section Csv.
Context (show : f64 -> string).

Definition newline : string := String "010"%char EmptyString.
Definition comma_each (xs : list f64) : string := String.concat "" (map (fun x => "," +:+ show x) xs).

Definition channel_head (c : ScanChannel) : string :=
  dec (sc_asad c) +:+ "," +:+ dec (sc_aget c) +:+ "," +:+ dec (sc_ch c) +:+ "," +:+ (if sc_is_fpn c then "1" else "0").

Definition channel_line (c : ScanChannel) : string :=
  channel_head c +:+ comma_each (amplitude c) +:+ "," +:+ show (slope (fit c)) +:+ "," +:+ show (intercept (fit c)) +:+ "," +:+
  show (max_resid_frac (fit c)) +:+ newline.

Definition channels_csv (t : ScanTable) : string :=
  "asad,aget,ch,is_fpn" +:+ String.concat "" (map (fun a => ",amp_" +:+ show a) (scan_amps t)) +:+ ",fit_slope,fit_intercept,fit_max_resid_frac" +:+ newline +:+
  String.concat "" (map channel_line (scan_channels t)).

Definition waveform_lines (amps : list f64) (c : ScanChannel) : list string :=
  flat_map (fun p => map (fun q => channel_head c +:+ "," +:+ show p.1 +:+ "," +:+ dec q.1 +:+ "," +:+ show q.2 +:+ newline) (enumerate p.2))
    (zip amps (waveform c)).

Definition waveform_csv (t : ScanTable) : string :=
  "asad,aget,ch,is_fpn,amp_mv,bucket,adc_avg" +:+ newline +:+ String.concat "" (flat_map (waveform_lines (scan_amps t)) (scan_channels t)).
End Csv.

(** ** The same height as [Pulser]'s, when every bucket is sampled *)

Definition wave_add (l : list Z) (it : Item) : list Z := <[Z.to_nat (item_bucket it) := item_adc it]> l.

Lemma scan_cell_fold ws : forall c, let its := map unpack_item ws in
  let c' := fold_left (fun c w => scan_cell_add w c) ws c in
  wave c' = fold_left wave_add its (wave c) /\ scan_seen c' = (match ws with [] => scan_seen c | _ => true end) /\
  n_baseline64 c' = n_baseline64 c + len (base_of its).
Proof.
  induction ws as [| w ws IH]; intros c; cbv zeta in *; cbn [map fold_left]; [by rewrite Z.add_0_r |].
  destruct (IH (scan_cell_add w c)) as (H1 & H2 & H3). rewrite H1, H2, H3. split_and!; [done | by destruct ws |].
  unfold scan_cell_add, base_of. cbn [n_baseline64 List.filter]. destruct (_ <? BASELINE_END); [| done]. cbn [map]. rewrite len_cons. lia.
Qed.

Lemma sum_insert (n : nat) (l : list Z) i v : l !! i = Some 0 -> sum_of (take n (<[i := v]> l)) = sum_of (take n l) + (if decide (i < n)%nat then v else 0).
Proof.
  revert n i. induction l as [| x l IH]; intros n i Hi; [done |]. destruct n as [| n]; [by destruct (decide (i < 0)%nat); [lia |] |].
  destruct i as [| i]; cbn in Hi.
  - injection Hi as ->. cbn. destruct (decide (0 < S n)%nat); lia.
  - cbn [insert list_insert take]. change (sum_of (x :: take n (<[i := v]> l))) with (x + sum_of (take n (<[i := v]> l))). rewrite IH by done.
    change (sum_of (x :: take n l)) with (x + sum_of (take n l)). destruct (decide (i < n)%nat), (decide (S i < S n)%nat); lia.
Qed.

Lemma max_insert (l : list Z) i v : l !! i = Some 0 -> 0 <= v -> foldr Z.max 0 (<[i := v]> l) = Z.max v (foldr Z.max 0 l).
Proof.
  revert i. induction l as [| x l IH]; intros i Hi Hv; [done |]. destruct i as [| i]; cbn in Hi.
  - injection Hi as ->. cbn. assert (0 <= foldr Z.max 0 l) by (clear; induction l; cbn; lia). lia.
  - cbn. rewrite IH by done. lia.
Qed.

Definition in_item_range (it : Item) : Prop := 0 <= item_bucket it < 512 /\ 0 <= item_adc it.

Lemma wave_fold its : forall l, Forall in_item_range its -> NoDup (map item_bucket its) ->
  Forall (fun it => l !! Z.to_nat (item_bucket it) = Some 0) its ->
  sum_of (take 64 (fold_left wave_add its l)) = sum_of (take 64 l) + sum_of (base_of its) /\
  foldr Z.max 0 (fold_left wave_add its l) = Z.max (top_of its) (foldr Z.max 0 l).
Proof.
  induction its as [| it its IH]; intros l Hr Hd Hz; cbn [fold_left map] in *.
  - unfold base_of, top_of, sum_of. cbn [map List.filter foldr]. assert (0 <= foldr Z.max 0 l) by (clear; induction l; cbn; lia). lia.
  - apply List.Forall_cons_iff in Hr as [[Hb Ha] Hr], Hz as [Hi Hz]. apply list.NoDup_cons in Hd as [Hn Hd].
    destruct (IH (wave_add l it) Hr Hd) as [H1 H2].
    { apply list.Forall_forall. intros it' Hin. unfold wave_add. rewrite list_lookup_insert_ne; [by apply (proj1 (list.Forall_forall _ _) Hz) |].
      intros E. apply Hn. pose proof (proj1 (list.Forall_forall _ _) Hr it' Hin) as [Hb' _]. apply list_elem_of_In in Hin.
      assert (E' : item_bucket it = item_bucket it') by lia. rewrite E'. apply list_elem_of_In, in_map, Hin. }
    rewrite H1, H2. unfold wave_add. rewrite sum_insert, max_insert by done. unfold base_of, top_of, sum_of. cbn [List.filter map foldr].
    unfold BASELINE_END. destruct (Z.ltb_spec (item_bucket it) 64), (decide (Z.to_nat (item_bucket it) < 64)%nat); try lia; cbn [map foldr]; lia.
Qed.

Lemma sum_f64_whole (xs : list Z) : Forall (fun x => 0 <= x) xs -> sum_of xs < 2 ^ 53 -> sum_f64 (map f64_of_Z xs) = f64_of_Z (sum_of xs).
Proof.
  intros Hx Hs. unfold sum_f64. pose proof (sum_whole xs 0 ltac:(lia) Hx ltac:(unfold sum_of in Hs; lia)) as H. rewrite Z.add_0_l in H. unfold sum_of. rewrite <- H.
  generalize (f64_of_Z 0). clear. induction xs as [| x xs IH]; intros a; cbn; [done | apply IH].
Qed.

Lemma item_in_range w : in_item_range (unpack_item w).
Proof.
  pose proof (adc_range w). split; [| lia]. rewrite unpack_item_fields. cbn [item_bucket]. pose proof (Z.mod_pos_bound (w / 2 ^ 14) (2 ^ 9)). lia.
Qed.

Lemma wave_nonneg its : forall l, Forall in_item_range its -> Forall (fun x => 0 <= x) l -> Forall (fun x => 0 <= x) (fold_left wave_add its l).
Proof.
  induction its as [| it its IH]; intros l Hr Hl; cbn [fold_left]; [done |]. apply List.Forall_cons_iff in Hr as [[_ Ha] Hr]. apply IH; [done |].
  unfold wave_add. by apply Forall_insert.
Qed.

(** A channel whose 64 first buckets are sampled once has the height that [Pulser] gives
    it. *)
Lemma same_height ws : NoDup (map item_bucket (map unpack_item ws)) -> len (base_of (map unpack_item ws)) = 64 ->
  scan_height (fold_left (fun c w => scan_cell_add w c) ws no_scan_cell) = option_map fst (height (map unpack_item ws)).
Proof.
  intros Hd Hl. destruct (scan_cell_fold ws no_scan_cell) as (H1 & H2 & H3). cbv zeta in *. set (its := map unpack_item ws) in *.
  assert (Hr : Forall in_item_range its) by (apply List.Forall_map, list.Forall_forall; intros w _; apply item_in_range).
  destruct (wave_fold its (repeat 0 512) Hr Hd) as [W1 W2].
  { apply list.Forall_forall. intros it Hin. pose proof (proj1 (list.Forall_forall _ _) Hr it Hin) as [Hb _]. apply lookup_repeat. lia. }
  assert (W0 : sum_of (take 64 (repeat 0 512)) = 0 /\ foldr Z.max 0 (repeat 0 512) = 0) by (by vm_compute).
  destruct W0 as [W3 W4]. rewrite W3, Z.add_0_l in W1. rewrite W4 in W2.
  assert (Htop : 0 <= top_of its) by (unfold top_of; clear; induction (map item_adc its); cbn; lia).
  unfold scan_height, height. rewrite H1, H2, H3, Hl. change (n_baseline64 no_scan_cell) with 0. cbn [wave no_scan_cell].
  destruct ws as [| w ws]; [done |]. cbn [negb orb Z.add Z.eqb]. destruct (base_of its) as [| b base] eqn:Eb; [done |]. cbn [option_map fst].
  change (Z.to_nat WAVEFORM_LEN) with 512%nat. rewrite W2, Z.max_l by lia. f_equal. f_equal. unfold window_mean. change (Z.to_nat BASELINE_END) with 64%nat.
  rewrite sum_f64_whole; [by rewrite W1, Hl | | ].
  - apply Forall_take, wave_nonneg; [done |]. apply list.Forall_forall. intros x Hx. apply list_elem_of_In, repeat_spec in Hx. lia.
  - rewrite W1. pose proof (base_bound (w :: ws)) as Hbb. fold its in Hbb. rewrite Eb in Hbb.
    assert (Hs : Forall (fun x => 0 <= x <= 4095) (b :: base)).
    { rewrite <- Eb. unfold base_of. apply List.Forall_map, list.Forall_forall. intros it Hin. apply list_elem_of_In, filter_In in Hin as [Hin _].
      apply in_map_iff in Hin as (v & <- & _). apply adc_range. }
    pose proof (sum_bound _ Hs). lia.
Qed.

(** ** Examples *)
Module Sample.

(** Five points of a line, and one the fit leaves out. *)
Example a_fit :
  let f := compute_fit (map f64_of_Z [100; 200; 300; 500; 700; 1000]) (map f64_of_Z [205; 405; 605; 1005; 1405; 1000]) in
  (slope f, intercept f, Float.f64_lt (max_resid_frac f) (f64_of_decimal false 6 (-1))) = (f64_of_Z 2, f64_of_Z 5, true).
Proof. by vm_compute. Qed.

(** A channel of which a bucket is not sampled: the two tools differ. *)
Definition sparse : list Z := map item_word [mkItem 0 5 0 128; mkItem 0 5 100 1128].
Lemma sparse_heights_differ :
  scan_height (fold_left (fun c w => scan_cell_add w c) sparse no_scan_cell) = Some (f64_of_Z 1126) /\
  option_map fst (height (map unpack_item sparse)) = Some (f64_of_Z 1000).
Proof. by vm_compute. Qed.
End Sample.
