(* ===== verification/StripXy.v ===== *)
(** * StripXy: the strips in millimetres

    Models [src/strip_xy.rs]: the rows of the geometry's file as segments of the plane, in
    the order of strip and section, the notes of the rows that are none, and the range the
    display shows.  The cosine and the sine are the platform's and are arguments.  The loop
    over the pads of a strip counts in [f64] and may not end; it has fuel. *)

From Stdlib Require Import SpecFloat.
From stdpp Require Import gmap list sorting strings.
From S2P Require Import Prelude Float FloatFacts Geometry Display Calib Pulser.
Open Scope list_scope.
Open Scope Z_scope.

(** ** Of [f64] *)

Definition f64_eq (x y : f64) : bool := SFeqb x y.
Definition f64_neg (x : f64) : f64 := SFopp x.

Definition INFINITY : f64 := S754_infinity false.

(** [x.min(y)]: a number wins over NaN. *)
Definition f64_min (x y : f64) : f64 := if is_nan x then y else if is_nan y then x else if f64_lt y x then y else x.

(** [x % y]: exact, with the sign of [x]. *)
Definition f64_rem (x y : f64) : f64 :=
  match x, y with
  | S754_nan, _ | _, S754_nan | S754_infinity _, _ | _, S754_zero _ => NAN
  | S754_zero _, _ | _, S754_infinity _ => x
  | S754_finite s m e, S754_finite _ m' e' =>
      let e0 := Z.min e e' in
      match (Zpos m * 2 ^ (e - e0)) mod (Zpos m' * 2 ^ (e' - e0)) with
      | Zpos r => binary_round PREC EMAX s r e0
      | _ => S754_zero s
      end
  end.

Definition f64_trunc (x : f64) : f64 :=
  match x with
  | S754_finite s m e =>
      if 0 <=? e then x
      else match Z.shiftr (Zpos m) (- e) with
           | Zpos n => binary_round PREC EMAX s n 0
           | _ => S754_zero s
           end
  | _ => x
  end.

Definition PI : f64 := S754_finite false 7074237752028440 (-51).

(** ** What is made *)

Definition Vec2 : Type := (f64 * f64)%type.

Record Segment : Type := mkSegment {
  seg_strip : Z;
  seg_section : Z;
  seg_x0 : f64;
  seg_y0 : f64;
  seg_length : f64;
}.

Record PlaneSegments : Type := mkPlaneSegments {
  unit_ : Vec2;
  pitch_unit : Vec2;
  segments : list Segment;
}.

Record Range : Type := mkRange {
  xmin : f64;
  xmax : f64;
  ymin : f64;
  ymax : f64;
}.

Record StripGeometry : Type := mkStripGeometry {
  pad_pitch : f64;
  strip_pitch : f64;
  range_xy : Range;
  planes : PlaneSegments * PlaneSegments * PlaneSegments;
}.

Record StripXyNotes : Type := mkNotes {
  short_rows : list Z;
  replaced_rows : list Z;
}.

Inductive StripXyError : Type :=
| MissingAngles
| MissingDiamondSize
| MissingReferencePoint
| NoStrips
| ParallelAngles (angles : f64 * f64 * f64)
| NonPositiveDiamondSize (d : f64).

(** ** Vectors *)

Definition vec_add (a b : Vec2) : Vec2 := (f64_add a.1 b.1, f64_add a.2 b.2).
Definition vec_sub (a b : Vec2) : Vec2 := (f64_sub a.1 b.1, f64_sub a.2 b.2).
Definition vec_scale (s : f64) (a : Vec2) : Vec2 := (f64_mul s a.1, f64_mul s a.2).
Definition unit_of (a : Vec2) : Vec2 :=
  let norm := f64_sqrt (f64_add (f64_mul a.1 a.1) (f64_mul a.2 a.2)) in (f64_div a.1 norm, f64_div a.2 norm).

(** ** The rows that are segments *)

Definition StripKey : Type := (Z * Z * Z)%type.
Definition key_of (r : StripRow) : StripKey := (Z.of_nat (plane_index (row_plane r)), row_strip r, row_section r).

Definition is_short (r : StripRow) : bool := f64_lt (len_pads r) (f64_of_Z 1) || is_nan (len_pads r).

Definition choose_row (s : StripXyNotes * gmap StripKey StripRow) (r : StripRow) : StripXyNotes * gmap StripKey StripRow :=
  let '(notes, chosen) := s in
  if is_short r then (mkNotes (short_rows notes ++ [row_line r]) (replaced_rows notes), chosen)
  else
    let notes := match chosen !! key_of r with
                 | Some replaced => mkNotes (short_rows notes) (replaced_rows notes ++ [row_line replaced])
                 | None => notes
                 end in
    (notes, <[key_of r := r]> chosen).

Definition choose_rows (rows : list StripRow) : StripXyNotes * gmap StripKey StripRow := fold_left choose_row rows (mkNotes [] [], ∅).

(** ** The range: [grow_by_strip_polygon] *)

Definition include (p : Vec2) (r : Range) : Range := mkRange (f64_min (xmin r) p.1) (f64_max (xmax r) p.1) (f64_min (ymin r) p.2) (f64_max (ymax r) p.2).

Section Trigonometry.
Context (cos sin : f64 -> f64).

Definition rotate (unit : Vec2) (phi : f64) : Vec2 :=
  (f64_sub (f64_mul unit.1 (cos phi)) (f64_mul unit.2 (sin phi)), f64_add (f64_mul unit.1 (sin phi)) (f64_mul unit.2 (cos phi))).

(** [while ipad < npads]. *)
Fixpoint each_pad (fuel : nat) (ipad npads : f64) (point0 unit : Vec2) (pitch : f64) (corners : list Vec2) (r : Range) : rust Range :=
  if f64_lt ipad npads then
    match fuel with
    | O => OutOfFuel
    | S fuel =>
        let base := (f64_add point0.1 (f64_mul (f64_mul unit.1 ipad) pitch), f64_add point0.2 (f64_mul (f64_mul unit.2 ipad) pitch)) in
        each_pad fuel (f64_add ipad (f64_of_Z 1)) npads point0 unit pitch corners (fold_left (fun r c => include (vec_add base c) r) corners r)
    end
  else Val r.

Definition grow_by_strip_polygon (fuel : nat) (x0 unit : Vec2) (npads pitch diamond : f64) (r : Range) : rust Range :=
  let half := f64_of_decimal false 5 (-1) in
  let point0 := (f64_sub x0.1 (f64_mul (f64_mul unit.1 half) pitch), f64_sub x0.2 (f64_mul (f64_mul unit.2 half) pitch)) in
  let r := include point0 r in
  let r := include (f64_add point0.1 (f64_mul unit.1 (f64_mul pitch npads)), f64_add point0.2 (f64_mul unit.2 (f64_mul pitch npads))) r in
  let up := rotate unit (f64_div PI (f64_of_Z 6)) in
  let down := rotate unit (f64_div (f64_neg PI) (f64_of_Z 6)) in
  let corners := [(f64_of_Z 0, f64_of_Z 0); (f64_mul up.1 diamond, f64_mul up.2 diamond);
                  (f64_mul unit.1 pitch, f64_mul unit.2 pitch); (f64_mul down.1 diamond, f64_mul down.2 diamond)] in
  each_pad fuel (f64_of_Z 0) npads point0 unit pitch corners r.

(** ** [strip_geometry] *)

Definition of_plane {A : Type} (t : A * A * A) (plane : Z) : A := if plane =? 0 then t.1.1 else if plane =? 1 then t.1.2 else t.2.

Definition segment_of (units pitches : Vec2 * Vec2 * Vec2) (reference : Vec2) (pitch strip_pitch : f64) (key : StripKey) (row : StripRow) : Segment :=
  let '((plane, strip, section)) := key in
  let a := f64_mul (off_strip row) strip_pitch in
  let b := f64_mul (off_pad row) pitch in
  let x0 := f64_add reference.1 (f64_add (f64_mul a (of_plane pitches plane).1) (f64_mul b (of_plane units plane).1)) in
  let y0 := f64_add reference.2 (f64_add (f64_mul a (of_plane pitches plane).2) (f64_mul b (of_plane units plane).2)) in
  mkSegment strip section x0 y0 (f64_mul pitch (f64_trunc (len_pads row))).

Fixpoint grow_range (fuel : nat) (units pitches : Vec2 * Vec2 * Vec2) (reference : Vec2) (pitch strip_pitch diamond : f64)
    (rows : list (StripKey * StripRow)) (r : Range) : rust Range :=
  match rows with
  | [] => Val r
  | (key, row) :: rows =>
      let s := segment_of units pitches reference pitch strip_pitch key row in
      let! r := grow_by_strip_polygon fuel (seg_x0 s, seg_y0 s) (of_plane units key.1.1) (f64_trunc (len_pads row)) pitch diamond r in
      grow_range fuel units pitches reference pitch strip_pitch diamond rows r
  end.

Definition segments_of (units pitches : Vec2 * Vec2 * Vec2) (reference : Vec2) (pitch strip_pitch : f64) (plane : Z)
    (rows : list (StripKey * StripRow)) : list Segment :=
  map (fun p => segment_of units pitches reference pitch strip_pitch p.1 p.2) (List.filter (fun p => p.1.1.1 =? plane) rows).

Definition no_range : Range := mkRange INFINITY (f64_neg INFINITY) INFINITY (f64_neg INFINITY).

(** The three angles of the header. *)
Definition three (l : list f64) : option (f64 * f64 * f64) := match l with [a; b; c] => Some (a, b, c) | _ => None end.

Definition strip_geometry (fuel : nat) (g : Geometry) : rust (result (StripGeometry * StripXyNotes) StripXyError) :=
  match angles_deg (header g) ≫= three with
  | None => Val (Err MissingAngles)
  | Some angles =>
  match diamond_size_mm (header g) with
  | None => Val (Err MissingDiamondSize)
  | Some diamond =>
  match reference_point_mm (header g) with
  | None => Val (Err MissingReferencePoint)
  | Some reference =>
      let turn := f64_of_Z 360 in
      let normal a := f64_rem (f64_add (f64_rem a turn) turn) turn in
      let '(a, b, c) := angles in
      let half a := f64_rem (normal a) (f64_of_Z 180) in
      if f64_eq (half a) (half b) || f64_eq (half b) (half c) || f64_eq (half c) (half a) then Val (Err (ParallelAngles angles))
      else if Float.f64_le diamond (f64_of_Z 0) || is_nan diamond then Val (Err (NonPositiveDiamondSize diamond))
      else
        let pitch := f64_mul diamond (f64_sqrt (f64_of_Z 3)) in
        let strip_pitch := f64_mul diamond (f64_of_decimal false 15 (-1)) in
        let unit deg := let rad := f64_mul deg (f64_div PI (f64_of_Z 180)) in (cos rad, sin rad) in
        let u := unit (normal a) in
        let v := unit (normal b) in
        let w := unit (normal c) in
        let units := (u, v, w) in
        let pitches := (vec_scale (f64_of_Z (-1)) (unit_of (vec_add w v)), unit_of (vec_add u w), unit_of (vec_sub v u)) in
        let '(notes, chosen) := choose_rows (strip_rows g) in
        if bool_decide (chosen = ∅) then Val (Err NoStrips)
        else
          let rows := in_order chosen in
          let! range := grow_range fuel units pitches reference pitch strip_pitch diamond rows no_range in
          let plane n := mkPlaneSegments (of_plane units n) (of_plane pitches n) (segments_of units pitches reference pitch strip_pitch n rows) in
          Val (Ok (mkStripGeometry pitch strip_pitch range (plane 0, plane 1, plane 2), notes))
  end end end.
End Trigonometry.

(** ** Every row is a segment, or noted *)

Definition lines_of (m : gmap StripKey StripRow) : list Z := map (fun p => row_line p.2) (map_to_list m).
Definition noted_lines (n : StripXyNotes) : list Z := short_rows n ++ replaced_rows n.

Lemma lines_insert m k r : lines_of (<[k := r]> m) ++ match m !! k with Some old => [row_line old] | None => [] end ≡ₚ row_line r :: lines_of m.
Proof.
  unfold lines_of. destruct (m !! k) as [old |] eqn:E; [| by rewrite app_nil_r, map_to_list_insert].
  rewrite <- insert_delete_eq. rewrite map_to_list_insert by apply lookup_delete_eq.
  rewrite <- (insert_delete_id m k old E) at 2. rewrite map_to_list_insert by apply lookup_delete_eq. cbn [map fst snd].
  constructor. apply Permutation_app_comm.
Qed.

Lemma rows_account rows : forall notes chosen, let s := fold_left choose_row rows (notes, chosen) in
  noted_lines s.1 ++ lines_of s.2 ≡ₚ map row_line rows ++ noted_lines notes ++ lines_of chosen.
Proof.
  induction rows as [| r rows IH]; intros notes chosen; cbv zeta in *; [done |]. cbn [fold_left map].
  destruct (choose_row (notes, chosen) r) as [notes' chosen'] eqn:E. rewrite IH. unfold choose_row in E. destruct (is_short r); injection E as <- <-.
  - unfold noted_lines. cbn [short_rows replaced_rows app]. solve_Permutation.
  - pose proof (lines_insert chosen (key_of r) r) as H. unfold noted_lines. destruct (chosen !! key_of r) as [old |]; cbn [short_rows replaced_rows app].
    + transitivity (map row_line rows ++ short_rows notes ++ replaced_rows notes ++ (lines_of (<[key_of r := r]> chosen) ++ [row_line old])); [solve_Permutation |].
      rewrite H. solve_Permutation.
    + rewrite app_nil_r in H. rewrite H. solve_Permutation.
Qed.

(** Of the rows of one strip the last is taken. *)
Lemma row_taken rows key : forall notes chosen, (fold_left choose_row rows (notes, chosen)).2 !! key =
  match list.last (List.filter (fun r => negb (is_short r) && bool_decide (key_of r = key)) rows) with Some r => Some r | None => chosen !! key end.
Proof.
  induction rows as [| r rows IH]; intros notes chosen; [done |]. cbn [fold_left List.filter].
  destruct (choose_row (notes, chosen) r) as [notes' chosen'] eqn:Ec. rewrite IH. unfold choose_row in Ec. destruct (is_short r); injection Ec as <- <-; cbn [negb andb]; [done |].
  set (rest := List.filter _ rows). case_bool_decide as E.
  - rewrite last_cons. destruct (list.last rest); [done |]. subst key. apply lookup_insert_eq.
  - destruct (list.last rest); [done |]. by rewrite lookup_insert_ne.
Qed.

(** ** The loop over the pads *)

Lemma whole_place n : 0 < n < 2 ^ 53 -> place (whole n) = (1, Z.log2 n - 52, n * 2 ^ (52 - Z.log2 n)).
Proof.
  intros Hn. assert (Z.log2 n < 53) by (apply Z.log2_lt_pow2; lia). unfold whole, place. cbn. destruct (mantissa_pos n ltac:(lia)) as [Hm |]; [| lia].
  f_equal. rewrite Z2Pos.id by done. done.
Qed.

Lemma lt_whole a b : 0 <= a < 2 ^ 53 -> 0 <= b < 2 ^ 53 -> f64_lt (f64_of_Z a) (f64_of_Z b) = (a <? b).
Proof.
  intros Ha Hb. destruct (Z.eq_dec b 0) as [-> |].
  { rewrite (proj2 (Z.ltb_ge a 0)) by lia. destruct (Z.eq_dec a 0) as [-> |]; [done |]. by rewrite f64_of_whole by lia. }
  destruct (Z.eq_dec a 0) as [-> |].
  { rewrite (f64_of_whole b) by lia. rewrite (proj2 (Z.ltb_lt 0 b)) by lia. done. }
  rewrite !f64_of_whole by lia. apply Bool.eq_true_iff_eq. rewrite f64_lt_place, !whole_place, Z.ltb_lt by (done || lia). unfold FloatFacts.below. cbn [fst snd].
  assert (Hla : Z.log2 a < 53) by (apply Z.log2_lt_pow2; lia). assert (Hlb : Z.log2 b < 53) by (apply Z.log2_lt_pow2; lia). split.
  - intros [? | [_ [Hl | [He Hm]]]]; [lia | |].
    + apply Z.lt_nge. intros Hle. apply Z.log2_le_mono in Hle. lia.
    + assert (E : Z.log2 a = Z.log2 b) by lia. rewrite E in Hm. pose proof (Z.pow_pos_nonneg 2 (52 - Z.log2 b)). nia.
  - intros Hab. right. split; [done |]. pose proof (Z.log2_le_mono a b ltac:(lia)). destruct (Z.eq_dec (Z.log2 a) (Z.log2 b)) as [E | E]; [right | left; lia].
    rewrite E. split; [done |]. apply Z.mul_lt_mono_pos_r; [apply Z.pow_pos_nonneg; lia | done].
Qed.

(** It ends after the number of pads. *)
Lemma each_pad_ends (m : nat) : forall fuel n i point0 unit pitch corners r, (m <= fuel)%nat -> 0 <= i -> i + Z.of_nat m = n -> n < 2 ^ 53 ->
  exists r', each_pad fuel (f64_of_Z i) (f64_of_Z n) point0 unit pitch corners r = Val r'.
Proof.
  induction m as [| m IH]; intros fuel n i point0 unit pitch corners r Hf Hi Hn Hmax.
  - destruct fuel; cbn [each_pad]; rewrite lt_whole, (proj2 (Z.ltb_ge _ _)) by lia; by eexists.
  - destruct fuel as [| fuel]; [lia |]. cbn [each_pad]. rewrite lt_whole, (proj2 (Z.ltb_lt _ _)) by lia. rewrite add_whole by lia. apply IH; lia.
Qed.

(** A strip of no finite length has no end: a count of 2^53 does not grow. *)
Lemma each_pad_forever fuel : forall i point0 unit pitch corners r, 0 <= i <= 2 ^ 53 ->
  each_pad fuel (f64_of_Z i) INFINITY point0 unit pitch corners r = OutOfFuel.
Proof.
  induction fuel as [| fuel IH]; intros i point0 unit pitch corners r Hi.
  - cbn [each_pad]. assert (E : f64_lt (f64_of_Z i) INFINITY = true).
    { destruct (Z.eq_dec i (2 ^ 53)) as [-> |]; [done |]. destruct (Z.eq_dec i 0) as [-> |]; [done |]. by rewrite f64_of_whole by lia. }
    by rewrite E.
  - cbn [each_pad]. assert (E : f64_lt (f64_of_Z i) INFINITY = true).
    { destruct (Z.eq_dec i (2 ^ 53)) as [-> |]; [done |]. destruct (Z.eq_dec i 0) as [-> |]; [done |]. by rewrite f64_of_whole by lia. }
    rewrite E. destruct (Z.eq_dec i (2 ^ 53)) as [-> |].
    + assert (F : f64_add (f64_of_Z (2 ^ 53)) (f64_of_Z 1) = f64_of_Z (2 ^ 53)) by (by vm_compute). rewrite F. by apply IH.
    + destruct (Z.eq_dec i (2 ^ 53 - 1)) as [-> |].
      * assert (F : f64_add (f64_of_Z (2 ^ 53 - 1)) (f64_of_Z 1) = f64_of_Z (2 ^ 53)) by (by vm_compute). rewrite F. by apply IH.
      * rewrite add_whole by lia. apply IH. lia.
Qed.

Lemma chosen_account rows : map row_line rows ≡ₚ short_rows (choose_rows rows).1 ++ replaced_rows (choose_rows rows).1 ++ lines_of (choose_rows rows).2.
Proof.
  unfold choose_rows. pose proof (rows_account rows (mkNotes [] []) ∅) as H. cbv zeta in H. unfold noted_lines in H. cbn [short_rows replaced_rows app] in H.
  unfold lines_of in H at 2. rewrite map_to_list_empty in H. cbn [map] in H. rewrite app_nil_r in H. by rewrite app_assoc.
Qed.

Lemma chosen_lookup rows key : (choose_rows rows).2 !! key = list.last (List.filter (fun r => negb (is_short r) && bool_decide (key_of r = key)) rows).
Proof. unfold choose_rows. rewrite row_taken, lookup_empty. by destruct (list.last _). Qed.

Lemma chosen_row rows key r : (choose_rows rows).2 !! key = Some r -> r ∈ rows /\ is_short r = false.
Proof.
  rewrite chosen_lookup. intros H. apply last_Some_elem_of, list_elem_of_In, filter_In in H as [Hin Hb]. apply andb_prop in Hb as [Hb _].
  split; [by apply list_elem_of_In |]. by apply negb_true_iff.
Qed.

(** ** The whole *)

Section Whole.
Context (cos sin : f64 -> f64).

Lemma range_ends fuel units pitches reference pitch strip_pitch diamond rows :
  Forall (fun p => exists n, f64_trunc (len_pads p.2) = f64_of_Z n /\ 0 <= n < 2 ^ 53 /\ n <= Z.of_nat fuel) rows ->
  forall r, exists r', grow_range cos sin fuel units pitches reference pitch strip_pitch diamond rows r = Val r'.
Proof.
  induction 1 as [| [key row] rows (n & E & Hn & Hf) _ IH]; intros r; cbn [grow_range]; [by eexists |]. unfold grow_by_strip_polygon. cbn [snd] in E. rewrite E.
  match goal with |- context [each_pad fuel _ _ ?p0 ?u ?pt ?cs ?r0] =>
    destruct (each_pad_ends (Z.to_nat n) fuel n 0 p0 u pt cs r0) as [r1 E1]; [lia | lia | lia | lia |] end.
  rewrite E1. cbn [rust_bind]. apply IH.
Qed.

Lemma range_endless fuel units pitches reference pitch strip_pitch diamond rows r r' :
  grow_range cos sin fuel units pitches reference pitch strip_pitch diamond rows r = Val r' -> Forall (fun p => f64_trunc (len_pads p.2) <> INFINITY) rows.
Proof.
  revert r. induction rows as [| [key row] rows IH]; intros r H; [constructor |]. cbn [grow_range] in H. constructor; cbn [snd].
  - intros E. unfold grow_by_strip_polygon in H. rewrite E, each_pad_forever in H by lia. done.
  - destruct (grow_by_strip_polygon _ _ _ _ _ _ _ _ _) as [r1 | |]; cbn [rust_bind] in H; [| done | done]. by apply (IH r1).
Qed.

Lemma ok_pair {A B E : Type} (a a' : A) (b b' : B) : @Val (result (A * B) E) (Ok (a, b)) = Val (Ok (a', b')) -> a' = a /\ b' = b.
Proof. intros H. by inversion H. Qed.

(** What is made when there is nothing wrong. *)
Lemma strip_geometry_ok fuel g sg notes : strip_geometry cos sin fuel g = Val (Ok (sg, notes)) ->
  notes = (choose_rows (strip_rows g)).1 /\ exists units pitches reference diamond r',
    let rows := in_order (choose_rows (strip_rows g)).2 in
    grow_range cos sin fuel units pitches reference (pad_pitch sg) (strip_pitch sg) diamond rows no_range = Val r' /\ range_xy sg = r' /\
    forall n, 0 <= n < 3 -> segments (of_plane (planes sg) n) = segments_of units pitches reference (pad_pitch sg) (strip_pitch sg) n rows.
Proof.
  unfold strip_geometry. destruct (angles_deg (header g) ≫= three) as [[[a b] c] |]; [| done]. destruct (diamond_size_mm (header g)) as [diamond |]; [| done].
  destruct (reference_point_mm (header g)) as [reference |]; [| done]. destruct (_ || _ || _); [done |]. destruct (_ || _); [done |].
  destruct (choose_rows (strip_rows g)) as [notes' chosen]. case_bool_decide; [done |].
  match goal with |- context [grow_range cos sin fuel ?u ?p ?r ?pt ?sp ?d ?rows no_range] => destruct (grow_range cos sin fuel u p r pt sp d rows no_range) as [r' | |] eqn:E end;
    cbn [rust_bind]; [| done | done].
  intros Hv. apply ok_pair in Hv as [-> ->]. split; [reflexivity |]. eexists _, _, reference, diamond, r'. cbn [fst snd pad_pitch strip_pitch range_xy planes]. split; [exact E |]. split; [reflexivity |].
  intros n Hn. assert (Hc : n = 0 \/ n = 1 \/ n = 2) by lia. by destruct Hc as [-> | [-> | ->]].
Qed.

Definition strip_lt (a b : Z * Z) : Prop := a.1 < b.1 \/ (a.1 = b.1 /\ a.2 < b.2).
Definition place_of (s : Segment) : Z * Z := (seg_strip s, seg_section s).

Lemma segment_place units pitches reference pitch strip_pitch key row :
  place_of (segment_of units pitches reference pitch strip_pitch key row) = (key.1.2, key.2).
Proof. by destruct key as [[? ?] ?]. Qed.

Lemma segments_rise units pitches reference pitch strip_pitch n (rows : list (StripKey * StripRow)) :
  StronglySorted key_lt (map fst rows) -> StronglySorted strip_lt (map place_of (segments_of units pitches reference pitch strip_pitch n rows)).
Proof.
  assert (E : map place_of (segments_of units pitches reference pitch strip_pitch n rows) = map (fun p => (p.1.1.2, p.1.2)) (List.filter (fun p => p.1.1.1 =? n) rows)).
  { unfold segments_of. rewrite List.map_map. apply map_ext. intros p. apply segment_place. }
  rewrite E. clear E. induction rows as [| [[[plane strip] section] row] rows IH]; intros Hs; [constructor |]. cbn [map fst] in Hs. apply StronglySorted_inv in Hs as [Hs Hl].
  cbn [List.filter fst snd]. destruct (Z.eqb_spec plane n) as [-> |]; [| by apply IH]. cbn [map fst snd]. constructor; [by apply IH |].
  apply list.Forall_forall. intros p Hin. apply list_elem_of_In, in_map_iff in Hin as ([[[plane' strip'] section'] row'] & <- & Hin).
  apply filter_In in Hin as [Hin Hp]. cbn [fst snd] in *. apply Z.eqb_eq in Hp as ->. apply (in_map fst) in Hin. apply list_elem_of_In in Hin.
  pose proof (proj1 (list.Forall_forall _ _) Hl _ Hin) as [Hle Hne]. unfold key_le in Hle. unfold strip_lt. cbn [fst snd] in *.
  destruct (Z.eq_dec strip strip') as [-> |]; [| lia]. destruct (Z.eq_dec section section') as [-> |]; [done | lia].
Qed.

Lemma segments_of_taken units pitches reference pitch strip_pitch n rows strip section :
  (exists s, s ∈ segments_of units pitches reference pitch strip_pitch n (in_order (choose_rows rows).2) /\ place_of s = (strip, section)) <->
  exists row, list.last (List.filter (fun r => negb (is_short r) && bool_decide (key_of r = (n, strip, section))) rows) = Some row.
Proof.
  split.
  - intros (s & Hin & E). unfold segments_of in Hin. apply list_elem_of_In, in_map_iff in Hin as ([[[plane strip'] section'] row] & <- & Hin).
    apply filter_In in Hin as [Hin Hp]. cbn [fst snd] in *. apply Z.eqb_eq in Hp as ->. rewrite segment_place in E. cbn [fst snd] in E. injection E as -> ->.
    exists row. rewrite <- chosen_lookup. apply in_order_elem. by apply list_elem_of_In.
  - intros [row Hrow]. rewrite <- chosen_lookup in Hrow. apply in_order_elem, list_elem_of_In in Hrow.
    exists (segment_of units pitches reference pitch strip_pitch (n, strip, section) row). split; [| by rewrite segment_place].
    apply list_elem_of_In. unfold segments_of. apply (in_map (fun p => segment_of units pitches reference pitch strip_pitch p.1 p.2) _ ((n, strip, section), row)).
    apply filter_In. split; [done |]. cbn. apply Z.eqb_refl.
Qed.

(** When the strips are given in millimetres, every row of the geometry is a segment or
    noted as too short or as replaced, once; in each plane the segments rise by strip and
    section, and there is one for just the strips and sections of which the file has a row
    that is long enough, made of the last such row.  They are given whenever the header has
    what is needed and the rows are of a length below 2^53 pads; a strip without an end
    never lets the monitor start. *)
Lemma strips_account fuel g :
  (forall sg notes, strip_geometry cos sin fuel g = Val (Ok (sg, notes)) ->
    map row_line (strip_rows g) ≡ₚ short_rows notes ++ replaced_rows notes ++ lines_of (choose_rows (strip_rows g)).2 /\
    forall plane, let segs := segments (of_plane (planes sg) (Z.of_nat (plane_index plane))) in
      StronglySorted strip_lt (map place_of segs) /\
      forall strip section, (exists s, s ∈ segs /\ place_of s = (strip, section)) <->
        exists row, list.last (List.filter (fun r => negb (is_short r) && bool_decide (key_of r = (Z.of_nat (plane_index plane), strip, section))) (strip_rows g)) = Some row) /\
  (Forall (fun row => is_short row = false -> exists n, f64_trunc (len_pads row) = f64_of_Z n /\ 0 <= n < 2 ^ 53 /\ n <= Z.of_nat fuel) (strip_rows g) ->
    exists r, strip_geometry cos sin fuel g = Val r) /\
  (forall key row, (choose_rows (strip_rows g)).2 !! key = Some row -> len_pads row = INFINITY -> forall r, strip_geometry cos sin fuel g <> Val (Ok r)).
Proof.
  split; [| split].
  - intros sg notes H. apply strip_geometry_ok in H as (-> & units & pitches & reference & diamond & r' & _ & _ & Hseg). split; [apply chosen_account |].
    intros plane. cbv zeta. rewrite Hseg by (destruct plane; cbn; lia). split; [apply segments_rise, in_order_rising |].
    intros strip section. apply segments_of_taken.
  - intros Hrows. unfold strip_geometry. destruct (angles_deg (header g) ≫= three) as [[[a b] c] |]; [| by eexists]. destruct (diamond_size_mm (header g)) as [diamond |]; [| by eexists].
    destruct (reference_point_mm (header g)) as [reference |]; [| by eexists]. destruct (_ || _ || _); [by eexists |]. destruct (_ || _); [by eexists |].
    destruct (choose_rows (strip_rows g)) as [notes chosen] eqn:Ec. case_bool_decide; [by eexists |].
    match goal with |- context [grow_range cos sin fuel ?u ?p ?rf ?pt ?sp ?d ?rows no_range] =>
      edestruct (fun H => range_ends fuel u p rf pt sp d rows H no_range) as [r' E] end.
    { apply list.Forall_forall. intros [key row] Hin. apply in_order_elem in Hin. apply (proj1 (list.Forall_forall _ _) Hrows row); apply (chosen_row (strip_rows g) key); by rewrite Ec. }
    rewrite E. cbn [rust_bind]. by eexists.
  - intros key row Hkey Hinf [sg notes] H. apply strip_geometry_ok in H as (_ & units & pitches & reference & diamond & r' & Hr & _).
    apply range_endless in Hr. apply in_order_elem in Hkey. apply (proj1 (list.Forall_forall _ _) Hr _ Hkey). cbn [snd]. by rewrite Hinf.
Qed.
End Whole.

(** ** Examples *)
Module Sample.

Definition row (strip : Z) (pads : f64) (line : Z) : StripRow := mkStripRow Geometry.U 0 strip (f64_of_Z 0) (f64_of_Z 1) pads line.
Definition a_header : HeaderScalars :=
  mkHeader (Some [f64_of_Z 90; f64_of_Z 330; f64_of_Z 210]) (Some (f64_of_Z 1)) (Some (f64_of_Z 0, f64_of_Z 0)) None None None None.
Definition of_rows (rows : list StripRow) : Geometry := Geometry.mkGeometry a_header [] [] [] [] [] [] rows 0.
Definition half : f64 := f64_of_decimal false 5 (-1).
Definition made (fuel : nat) (rows : list StripRow) : rust (result (StripGeometry * StripXyNotes) StripXyError) :=
  strip_geometry (fun x => x) (fun x => f64_neg x) fuel (of_rows rows).

(** The row of line 7 is replaced, that of line 8 is too short. *)
Example strips_case :
  match made 10 [row 2 (f64_of_Z 3) 7; row 1 half 8; row 2 (f64_of_Z 2) 9; row 1 (f64_of_Z 1) 10] with
  | Val (Ok (sg, notes)) =>
      map place_of (segments (planes sg).1.1) = [(1, 0); (2, 0)] /\ segments (planes sg).2 = [] /\ short_rows notes = [8] /\ replaced_rows notes = [7]
  | _ => False
  end.
Proof. vm_compute. done. Qed.

Example no_strips_case : made 10 [row 1 half 8] = Val (Err NoStrips).
Proof. by vm_compute. Qed.

(** A row that says [inf] pads. *)
Lemma endless_strip fuel : forall r, made fuel [row 1 INFINITY 7] <> Val (Ok r).
Proof. apply (strips_account (fun x => x) (fun x => f64_neg x) fuel (of_rows [row 1 INFINITY 7])) with (0, 1, 0) (row 1 INFINITY 7); by vm_compute. Qed.
End Sample.
